(* ===== verification/_CoqProject ===== *)
-Q . S2P
Prelude.v
Errno.v
Memory.v
Outcome.v
Ring.v
Bitmap.v
BitmapAlloc.v
Pmm.v
Paging.v
Paging64.v
UserMem.v
CowMemory.v
ForkMemory.v
UserAccess.v
MapCalls.v
MapMemory.v
PrivateMemory.v
Mappings.v
UserCopies.v
BinHeap.v
IntrusiveHeap.v
Sched.v
RunQueue.v
Dispatch.v
SchedState.v
FdTable.v
CString.v
Path.v
Hashmap.v
StrMap.v
LinkedList.v
Procs.v
Cred.v
Signal.v
WaitQueue.v
Waiting.v
Picking.v
Ticking.v
Running.v
Locks.v
WideArith.v
Calendar.v
