(* ===== verification/Prelude.v ===== *)
(** * Apheleia OS: a verification library for the kernel's core

    Apheleia OS is a small UNIX-like operating system in C for [x86] and [RISC-V], 32 and 64 bits: a
    kernel ([src/kernel]), libraries shared by the kernel and the programs ([src/libs]) and a userland
    ([src/userland]).  This library models the parts that carry the kernel's own logic, the scheduler
    with processes, credentials, signals and descriptors, the memory of user threads with its page
    tables and copy on write, and the data structures, allocators and runtime arithmetic below them, as
    executable functions, and proves what each of them promises.

    ** How C is modelled

    An unsigned integer is a [Z] with its wrap-around written out ([wrap] for [size_t], [u32_wrap],
    [u64_wrap], ...); everything that depends on the width of [size_t] is stated over the class [Arch],
    so each theorem holds for the four builds, and witnesses run at [arch64].  An array is a list whose
    accesses ([mload], [mstore], [mread], [mwrite] of [Memory]) answer [None] outside it, a pointer
    that may be null is an [option] ([ptr]), and objects reached through pointers live in a store
    indexed by address.  A function that reads or writes memory therefore answers an [option]: [None]
    is undefined behaviour, and a theorem that the result is [Some _] shows there is none.  A failed
    [assert] or a call of [panic] is a third outcome ([Outcome]).  Whether an allocation succeeds is always an
    argument (an address, a flag, or a function of the size), so theorems cover every pattern of
    failures.  A model runs one operation at a time, as the code does under the scheduler lock, whose
    exclusion [SchedState.SchedLock] proves, or under a lock of [Locks], where the steps of cores and threads
    interleave.

    A loop is a [Fixpoint] on a counter the code has, or on fuel with a bound the code guarantees:
    the number of bits of the variable that shrinks ([WideArith], the [while] loops of [Hashmap]'s
    rounding), the capacity of the table ([Hashmap] probing stops after [capacity] slots), the height
    of a heap, the number of nodes alive ([LinkedList]), the sleepers, the threads that are queued or may
    be woken ([Picking]'s [pick_fuel]), or the length of the array scanned.  Running
    out of fuel answers [None], and the theorems prove [Some _], so they include termination.

    ** Files, what they model, what they prove

    - [Prelude], [Memory], [Errno], [Outcome], [CString]: words, automation, arrays and [calloc], error
      numbers of [libs/libc/errno.h], results of code that can stop the machine, [strlen] and [strcmp].
    - [Ring]: [libs/data/ring.c].  The byte ring, the overwriting log ring and the element queue refine
      bounded queues; a log record is dropped whole or kept whole; growing keeps contents.
    - [Bitmap], [BitmapAlloc]: [libs/data/bitmap.c], [libs/alloc/bitmap.c].  Region updates touch exactly
      their bits; live allocations never overlap each other or the bitmap, reservation fails only when
      no run is free, double frees are refused.
    - [Pmm]: [kernel/arch/x86/mm/physical.c], frames with a count of their holders over [BitmapAlloc].
      Counts are exact in every history and a frame with a holder is never handed out.
    - [Paging]: the interface of page tables as a class, with the entries of [paging64.h].  [Paging64]:
      the four-level tables of [kernel/arch/x86/mm/virtual64.c] and [vm.c] as an instance: they are a map
      from pages to entries, and releasing them gives back every frame once.
    - [UserMem]: the memory of a thread: [kernel/sched/mem.c], the memory half of [fork] and
      [thread_destroy] in [create.c] and [thread.c], [kernel/sys/usercopy.c], and the write-fault path of
      [kernel/arch/x86/arch.c].  [MapCalls]: [sys_mmap] and [sys_munmap] of [kernel/sys/syscall.c].
      [CowMemory] proves the
      invariant (a frame that one thread can write is held once) through faults, [ForkMemory] through
      forks and exits, [UserAccess] through the checks and copies of the kernel, [MapMemory] through new
      and removed mappings.  [PrivateMemory]: any history of
      all these on any number of threads shows each of them a memory of its own, and every frame is
      accounted for.  [UserCopies]: the range check is exact and terminates, copies and strings are
      exact in every such history; [Mappings]: so are the answers of [mmap] and [munmap].
    - [BinHeap], [IntrusiveHeap]: the arithmetic and the sift loops of a binary heap whose elements know
      their position, shared by the two heaps of the scheduler.
    - [Sched]: threads, cores and [kernel/sched/select.c]; a woken thread is sent to a permitted core of
      least load.
    - [RunQueue]: [kernel/sched/runqueue.c].  In every history each queue is an ordered heap, every
      thread is in at most one queue and knows its place; picking takes the least virtual run time,
      stealing the greatest; the queue's minimum never goes back.
    - [SchedState]: [kernel/sched/state.c]: the sleep heap (module [SleepHeap]), process identifiers
      ([Pids]) and the scheduler lock ([SchedLock]), which admits one core, nests and restores the
      interrupt state.
    - [Dispatch]: the rest of [select.c], and waking in [create.c] and [internal.h]: a core is chosen for a
      thread that becomes runnable, or the core that holds it is told; the lemmas on who holds a thread
      ([own_inv]) that the next five files share.
    - [WaitQueue]: [kernel/sched/waitq.c] and [wait.c] over the doubly linked lists of [LinkedList]: waiting
      with and without a deadline, waking, stopping, continuing.  [Waiting]: in every history the queues,
      the sleep heap, the run queues and the cores agree on where each thread is; wake-ups are in order of
      arrival and are not lost, nobody sleeps past its tick.
    - [Picking]: [balance.c], [pick.c], [context.c]: finding the next thread in a core's queue or another's.
      [Ticking]: [tick.c]: the timer tick, the reschedule of an interrupt, the exit of a thread.
      [Running]: in every history of these and of the waits above, on any core, no thread is on two cores
      or on a core and in a queue; a switch resumes a whole context; an exited thread is on no core.
    - [Locks]: [kernel/sys/lock.h] and [lock.c].  Spin locks ([SpinLock]) admit one core and keep its preemption
      off; mutexes ([Mutex]), proved against the class [wait_queues], admit one thread, and as long as
      somebody sleeps on one, somebody else has a step to take.  The queues of [WaitQueue] are the instance.
    - [FdTable]: [kernel/sched/fd.c] and the pipe system call.  Reference counts equal the number of
      descriptors after any history, the exit of all threads frees everything, lowest free descriptor, dup shares, exec closes
      exactly the marked ones, a failed pipe call leaves no trace.
    - [Path]: [kernel/sys/path.c].  Resolving a path gives its normal form or refuses, within the fixed
      buffers.
    - [Hashmap], [StrMap]: [libs/data/hashmap.c].  Open addressing with tombstones and rehashing refines a
      finite map, and so does the chained string map above it.
    - [LinkedList]: [libs/data/list.c].  Any history on any number of lists behaves as sequences; its
      [ll_append] and [ll_remove] are the list operations [Procs] uses.
    - [Procs]: [kernel/sched/thread.c], the process calls of [cred.c] and [create.c], and [waitpid.c].
      Lookup by identifier is exact over the [Hashmap] index, a process group stays in one session, one
      round of [waitpid] is determined by the state of the children, the status word decodes.
    - [Cred]: the rest of [kernel/sched/cred.c].  No sequence of calls gives a thread an identity it did
      not have; supplementary groups are exact.
    - [Signal]: [kernel/sched/signal.c] and stopping, continuing and waking of [wait.c].  [SIGKILL] and
      [SIGSTOP] cannot be blocked, handled or outlived by a stopped thread; handlers do not nest and
      [sigreturn] restores what was interrupted.
    - [WideArith]: [libs/libc/div64.c], [builtins.c].  The compiler's runtime routines equal the
      arithmetic C defines.
    - [Calendar]: [libs/libc/time.c].  Day numbers count the Gregorian calendar; [gmtime_r] and [mktime]
      are inverse.

    Components use each other as the code does: [BitmapAlloc] calls [Bitmap], [Pmm] calls [BitmapAlloc],
    the memory of threads is proved against the class [PageTables], which [Paging64] implements over
    [Pmm], [RunQueue] and
    [SchedState] share [IntrusiveHeap] and the thread record of [Sched], [FdTable] holds pipes over
    [Ring], [StrMap] and [Procs] call [Hashmap] through its own operations, [Procs] keeps its threads
    in lists with the contract of [LinkedList], and [Signal] works on the thread states of [Sched].
    [WaitQueue] links threads in the heap of [LinkedList], sleeps in the heap of [SchedState] and wakes
    through [Dispatch]; [Picking] takes threads from [RunQueue] and records exits in a queue of [Ring];
    [Ticking] composes all of these.

    ** Not modelled

    Boot code, architecture code (the 32-bit and RISC-V page tables, traps, context switch), device
    drivers, the frame buffer console and the window system are hardware access; the translation
    look-aside buffer is left out, so a missing flush would not show.  The saturation of a frame's count
    at 65535 holders is a precondition of [fork].  What a mapping of a file reads is an argument of
    the call.  A switch of threads answers what it asks of the hardware (stack, address space, registers,
    the context to jump to); the jump itself, the saved registers' way through memory and the reaping of
    zombies by the idle cores are left out, and an operation of [Running] is one step, although the code
    gives up the scheduler lock within some.  A core's idle thread is taken to have a whole context when
    another thread runs: with a broken one the loop that retires threads would not end.
    The file systems ([vfs.c], [ext2fs.c]), [mprotect], program loading, terminals, the rest of the
    system-call layer and of thread creation, the kernel heap, number parsing and formatting, and the
    terminal's escape-sequence machine are not modelled for their size alone.  The userland programs are
    clients of the kernel.  Freeing functions that only call [free], [mutex_destroy], and the debug-only
    checks of [list.c] and [lock.c] are left out of their components. *)

From stdpp Require Export base numbers list option.
From Stdlib Require Export ZArith Lia.
Open Scope Z_scope.

(** ** Target architectures

    The kernel is built for [x86_64], [riscv_64], [x86_32] and [riscv_32]; [size_t] and
    [uintptr_t] are 64 or 32 bits wide.  Every component is stated over the class [Arch], so a
    theorem holds for all four builds. *)
Class Arch := {
  size_bits : Z;
  size_bits_ok : size_bits = 32 \/ size_bits = 64
}.

Definition SIZE_MOD `{Arch} : Z := 2 ^ size_bits.
Definition SIZE_MAX `{Arch} : Z := SIZE_MOD - 1.

(** Unsigned wrap-around of [size_t], [u32], [u64] and [u8] results. *)
Definition wrap `{Arch} (z : Z) : Z := z mod SIZE_MOD.
Definition u8_wrap (z : Z) : Z := z mod 2 ^ 8.
Definition u32_wrap (z : Z) : Z := z mod 2 ^ 32.
Definition u64_wrap (z : Z) : Z := z mod 2 ^ 64.

Definition UINT32_MAX : Z := 2 ^ 32 - 1.

Definition arch64 : Arch := {| size_bits := 64; size_bits_ok := or_intror eq_refl |}.
Definition arch32 : Arch := {| size_bits := 32; size_bits_ok := or_introl eq_refl |}.

Section Words.
Context `{Arch}.

Lemma SIZE_MOD_ge : 2 ^ 32 <= SIZE_MOD.
Proof. unfold SIZE_MOD. destruct size_bits_ok as [-> | ->]; lia. Qed.

Lemma SIZE_MOD_pos : 0 < SIZE_MOD.
Proof. pose proof SIZE_MOD_ge. lia. Qed.

Lemma SIZE_MOD_le : SIZE_MOD <= 2 ^ 64.
Proof. unfold SIZE_MOD. destruct size_bits_ok as [-> | ->]; lia. Qed.

Lemma size_bits_pos : 32 <= size_bits <= 64.
Proof. destruct size_bits_ok; lia. Qed.

Lemma wrap_small z : 0 <= z < SIZE_MOD -> wrap z = z.
Proof. apply Z.mod_small. Qed.

Lemma wrap_range z : 0 <= wrap z < SIZE_MOD.
Proof. apply Z.mod_pos_bound, SIZE_MOD_pos. Qed.

(** Masking with [2^k - 1] undoes a wrap-around of [size_t]. *)
Lemma wrap_mod_pow2 z k : 0 <= k <= size_bits -> wrap z mod 2 ^ k = z mod 2 ^ k.
Proof.
  intros Hk. unfold wrap, SIZE_MOD.
  apply Z.mod_mod_divide.
  exists (2 ^ (size_bits - k)). rewrite <- Z.pow_add_r by lia. f_equal. lia.
Qed.
End Words.

Lemma land_mask z k : 0 <= k -> Z.land z (2 ^ k - 1) = z mod 2 ^ k.
Proof. intros Hk. rewrite Z.sub_1_r, <- Z.ones_equiv. by apply Z.land_ones. Qed.

Lemma land_1 z : Z.land z 1 = z mod 2.
Proof. change 1 with (2 ^ 1 - 1) at 1. by rewrite land_mask by lia. Qed.

(** The test [!(n & (n - 1))] for a power of two. *)
Lemma land_pred_pow2 n : 0 < n -> Z.land n (n - 1) = 0 -> n = 2 ^ Z.log2 n.
Proof.
  intros Hn Hz. set (k := Z.log2 n). assert (Hk : 2 ^ k <= n < 2 ^ Z.succ k) by (apply Z.log2_spec; lia).
  assert (Hk0 : 0 <= k) by apply Z.log2_nonneg.
  destruct (Z.eq_dec n (2 ^ k)) as [|Hne]; [done|]. exfalso.
  assert (Hl : Z.log2 (n - 1) = k) by (apply Z.log2_unique; lia).
  assert (Hb : Z.testbit (Z.land n (n - 1)) k = true).
  { rewrite Z.land_spec. fold k. unfold k at 1. rewrite Z.bit_log2 by lia.
    rewrite <- Hl. rewrite Z.bit_log2; [done|lia]. }
  by rewrite Hz, Z.bits_0 in Hb.
Qed.

(** Testing one bit. *)
Lemma land_pow2_test a k : 0 <= k -> (Z.land a (2 ^ k) =? 0) = negb (Z.testbit a k).
Proof.
  intros Hk. destruct (Z.testbit a k) eqn:Hb; cbn [negb].
  - apply Z.eqb_neq. intros H0. apply (f_equal (fun z => Z.testbit z k)) in H0.
    by rewrite Z.land_spec, Hb, Z.pow2_bits_true, Z.bits_0 in H0 by done.
  - apply Z.eqb_eq, Z.bits_inj'. intros n Hn. rewrite Z.land_spec, Z.bits_0, Z.pow2_bits_eqb by done.
    destruct (Z.eqb_spec k n) as [<-|]; [by rewrite Hb|apply andb_false_r].
Qed.

(** Or-ing in bits below those of the other operand is addition. *)
Lemma lor_low a b k : 0 <= k -> 0 <= b < 2 ^ k -> Z.lor (a * 2 ^ k) b = a * 2 ^ k + b.
Proof.
  intros Hk Hb. rewrite <- Z.lxor_lor, <- Z.add_nocarry_lxor; [done| |];
    (apply Z.bits_inj'; intros n Hn; rewrite Z.land_spec, Z.bits_0, <- Z.shiftl_mul_pow2 by lia;
     destruct (Z.lt_ge_cases n k); [by rewrite Z.shiftl_spec_low|];
     rewrite andb_comm; destruct (Z.eq_dec b 0) as [->|]; [by rewrite Z.bits_0|];
     rewrite (Z.bits_above_log2 b); [done|lia|apply Z.log2_lt_pow2; [lia|]];
     apply Z.lt_le_trans with (2 ^ k); [lia|apply Z.pow_le_mono_r; lia]).
Qed.

Lemma u32_wrap_small z : 0 <= z < 2 ^ 32 -> u32_wrap z = z.
Proof. apply Z.mod_small. Qed.

Lemma u64_wrap_small z : 0 <= z < 2 ^ 64 -> u64_wrap z = z.
Proof. apply Z.mod_small. Qed.

(** [x mod n] for [0 <= x < 2n]: the only two cases a ring index meets. *)
Lemma mod_once x n : 0 < n -> 0 <= x < 2 * n -> x mod n = if x <? n then x else x - n.
Proof.
  intros Hn Hx. destruct (Z.ltb_spec x n).
  - apply Z.mod_small; lia.
  - symmetry. apply Z.mod_unique with 1; lia.
Qed.

(** ** Automation *)

Create HintDb cword.
Create Rewrite HintDb lens.
#[export] Hint Resolve SIZE_MOD_pos SIZE_MOD_ge SIZE_MOD_le wrap_range : cword.
#[export] Hint Rewrite @length_app @length_take @length_drop @length_insert
  @length_replicate @length_map @length_fmap : lens.

(** Split the boolean tests of the code into linear arithmetic facts. *)
Ltac bool_facts :=
  repeat match goal with
  | H : _ && _ = true |- _ => apply andb_true_iff in H; destruct H
  | H : _ || _ = false |- _ => apply orb_false_iff in H; destruct H
  | H : negb _ = true |- _ => apply negb_true_iff in H
  | H : negb _ = false |- _ => apply negb_false_iff in H
  | H : (_ =? _)%Z = true |- _ => apply Z.eqb_eq in H
  | H : (_ =? _)%Z = false |- _ => apply Z.eqb_neq in H
  | H : (_ <? _)%Z = true |- _ => apply Z.ltb_lt in H
  | H : (_ <? _)%Z = false |- _ => apply Z.ltb_ge in H
  | H : (_ <=? _)%Z = true |- _ => apply Z.leb_le in H
  | H : (_ <=? _)%Z = false |- _ => apply Z.leb_gt in H
  end.

(** Case on the first boolean test of the goal and turn it into arithmetic. *)
Ltac case_test :=
  match goal with
  | |- context [if ?b then _ else _] =>
      lazymatch type of b with bool => let E := fresh "E" in destruct b eqn:E; bool_facts end
  end.

(** Decide an equation between nested conditionals by arithmetic on their tests. *)
Ltac tests_lia :=
  repeat case_test; try done; exfalso;
  repeat match goal with
  | H : _ && _ = false |- _ => apply andb_false_iff in H as [?|?]
  | H : _ || _ = true |- _ => apply orb_true_iff in H as [?|?]
  end;
  bool_facts; try done; lia.

(** Rewrite a test of the goal to the value [lia] can establish for it. *)
Ltac test_lia :=
  repeat match goal with
  | |- context [(?a =? ?b)%Z] =>
      first [ rewrite (proj2 (Z.eqb_eq a b)) by lia | rewrite (proj2 (Z.eqb_neq a b)) by lia ]
  | |- context [(?a <? ?b)%Z] =>
      first [ rewrite (proj2 (Z.ltb_lt a b)) by lia | rewrite (proj2 (Z.ltb_ge a b)) by lia ]
  | |- context [(?a <=? ?b)%Z] =>
      first [ rewrite (proj2 (Z.leb_le a b)) by lia | rewrite (proj2 (Z.leb_gt a b)) by lia ]
  end; cbn [orb andb negb].

(** ** Lists *)

Lemma take_drop_split {A} (l : list A) (i n m : nat) :
  take (n + m) (drop i l) = take n (drop i l) ++ take m (drop (i + n) l).
Proof. by rewrite <- take_take_drop, drop_drop. Qed.
