(* ===== verification/Errno.v ===== *)
(** * Error numbers: [libs/libc/errno.h]

    The codes that the modelled system calls answer, negated. *)

From S2P Require Import Prelude.

Definition EACCES : Z := 2.
Definition EBADF : Z := 8.
Definition ECHILD : Z := 12.
Definition EFAULT : Z := 21.
Definition EINVAL : Z := 28.
Definition EMFILE : Z := 33.
Definition ENAMETOOLONG : Z := 37.
Definition ENOMEM : Z := 49.
Definition ENOTSUP : Z := 61.
Definition EPERM : Z := 66.
Definition ERANGE : Z := 71.
Definition ESRCH : Z := 74.
