(* ===== verification/Memory.v ===== *)
(** * C memory objects: arrays with explicit out-of-bounds behaviour

    A C array (the target of a [u8 *] or of a [T *]) is a list of cells.  Every access goes
    through [mload], [mstore], [mread] and [mwrite], which answer [None] when the access leaves
    the object: an operation of the development that answers [Some _] has therefore made no
    out-of-bounds access.  Two views of an array are shared by the components: [rview], the
    cyclic window of a ring, and [slots], an array of fixed-size elements stored in a byte
    buffer. *)

From S2P Require Import Prelude.

(** A pointer to an object that may be null. *)
Abbreviation ptr := option.

(** [sizeof] of an object, in cells. *)
Definition zlen {A} (l : list A) : Z := Z.of_nat (length l).
Arguments zlen : simpl never.

Definition mload {A} (buf : list A) (i : Z) : option A :=
  if (0 <=? i) && (i <? zlen buf) then buf !! Z.to_nat i else None.

Definition mstore {A} (buf : list A) (i : Z) (x : A) : option (list A) :=
  if (0 <=? i) && (i <? zlen buf) then Some (<[Z.to_nat i := x]> buf) else None.

(** The bytes a [memcpy] of [n] cells from [buf + off] reads. *)
Definition mread {A} (buf : list A) (off n : Z) : option (list A) :=
  if (0 <=? off) && (0 <=? n) && (off + n <=? zlen buf)
  then Some (take (Z.to_nat n) (drop (Z.to_nat off) buf)) else None.

(** The buffer after the cells [src] are copied to [buf + off]. *)
Definition mwrite {A} (buf : list A) (off : Z) (src : list A) : option (list A) :=
  if (0 <=? off) && (off + zlen src <=? zlen buf)
  then Some (take (Z.to_nat off) buf ++ src ++ drop (Z.to_nat off + length src) buf) else None.

(** [memcpy (dst + doff, src + soff, n)] between two distinct objects. *)
Definition memcpy {A} (dst : list A) (doff : Z) (src : list A) (soff n : Z) : option (list A) :=
  s ← mread src soff n; mwrite dst doff s.

(** [calloc] of [libs/libc/stdlib.c]: whether it answers a block, given whether the [malloc] below
    it does.  A product that does not fit in [size_t] is refused. *)
Definition calloc `{Arch} (malloc : Z -> bool) (num size : Z) : bool :=
  if (num =? 0) || (size =? 0) then false
  else if SIZE_MAX / size <? num then false
  else malloc (wrap (size * num)).

Lemma calloc_fits `{Arch} malloc num size :
  0 <= num -> 0 < size -> calloc malloc num size = true -> 0 < num /\ num * size <= SIZE_MAX.
Proof.
  intros Hn Hs. unfold calloc. repeat case_test; try done. intros _. split; [lia|].
  transitivity ((SIZE_MAX / size) * size); [nia|].
  rewrite Z.mul_comm. apply Z.mul_div_le. lia.
Qed.

Section Arrays.
Context {A : Type}.
Implicit Types (buf src l : list A) (i off n start : Z).

Lemma zlen_nonneg l : 0 <= zlen l.
Proof. unfold zlen. lia. Qed.

Lemma zlen_app l1 l2 : zlen (l1 ++ l2) = zlen l1 + zlen l2.
Proof. unfold zlen. rewrite length_app. lia. Qed.

Lemma mload_ok buf i : 0 <= i < zlen buf -> mload buf i = buf !! Z.to_nat i.
Proof. intros. unfold mload. by test_lia. Qed.

Lemma mload_is_Some buf i : 0 <= i < zlen buf -> exists x, mload buf i = Some x.
Proof.
  intros Hi. rewrite mload_ok by done. apply lookup_lt_is_Some_2. unfold zlen in Hi. lia.
Qed.

Lemma mload_Some buf i x : mload buf i = Some x -> 0 <= i < zlen buf /\ buf !! Z.to_nat i = Some x.
Proof. unfold mload. case_test; [|done]. intros; split; [lia|done]. Qed.

Lemma mstore_ok buf i x : 0 <= i < zlen buf -> mstore buf i x = Some (<[Z.to_nat i := x]> buf).
Proof. intros. unfold mstore. by test_lia. Qed.

Lemma mread_ok buf off n :
  0 <= off -> 0 <= n -> off + n <= zlen buf ->
  mread buf off n = Some (take (Z.to_nat n) (drop (Z.to_nat off) buf)).
Proof. intros. unfold mread. by test_lia. Qed.

Lemma mread_Some buf off n r :
  mread buf off n = Some r ->
  0 <= off /\ 0 <= n /\ off + n <= zlen buf /\ r = take (Z.to_nat n) (drop (Z.to_nat off) buf).
Proof. unfold mread. case_test; [|done]. intros [= <-]. repeat split; lia || done. Qed.

Lemma mread_len buf off n r : mread buf off n = Some r -> zlen r = n.
Proof.
  intros (?&?&?&->)%mread_Some. unfold zlen in *. rewrite length_take, length_drop. lia.
Qed.

Lemma mwrite_ok buf off src :
  0 <= off -> off + zlen src <= zlen buf ->
  mwrite buf off src =
    Some (take (Z.to_nat off) buf ++ src ++ drop (Z.to_nat off + length src) buf).
Proof. intros. unfold mwrite. by test_lia. Qed.

Lemma mwrite_Some buf off src buf' :
  mwrite buf off src = Some buf' ->
  0 <= off /\ off + zlen src <= zlen buf /\
  buf' = take (Z.to_nat off) buf ++ src ++ drop (Z.to_nat off + length src) buf.
Proof. unfold mwrite. case_test; [|done]. intros [= <-]. repeat split; lia || done. Qed.

Lemma mwrite_len buf off src buf' : mwrite buf off src = Some buf' -> length buf' = length buf.
Proof.
  intros (?&Hle&->)%mwrite_Some. unfold zlen in Hle.
  rewrite !length_app, length_take, length_drop. lia.
Qed.

(** A copied region reads back what was written; other cells keep their contents. *)
Lemma mwrite_lookup buf off src buf' (j : nat) :
  mwrite buf off src = Some buf' ->
  buf' !! j = if decide (Z.to_nat off <= j < Z.to_nat off + length src)%nat
              then src !! (j - Z.to_nat off)%nat else buf !! j.
Proof.
  intros (?&Hle&->)%mwrite_Some. unfold zlen in Hle.
  destruct (decide (j < Z.to_nat off)%nat).
  { rewrite lookup_app_l by (rewrite length_take; lia).
    rewrite lookup_take_lt by lia. rewrite decide_False by lia. done. }
  rewrite lookup_app_r by (rewrite length_take; lia).
  rewrite length_take, Nat.min_l by lia.
  case_decide.
  - by rewrite lookup_app_l by lia.
  - rewrite lookup_app_r by lia. rewrite lookup_drop. f_equal. lia.
Qed.

Lemma mwrite_nil buf off : 0 <= off <= zlen buf -> mwrite buf off [] = Some buf.
Proof.
  intros. rewrite mwrite_ok by (unfold zlen in *; simpl; lia). simpl.
  by rewrite Nat.add_0_r, take_drop.
Qed.

Lemma memcpy_ok dst doff src soff n :
  0 <= doff -> 0 <= soff -> 0 <= n -> soff + n <= zlen src -> doff + n <= zlen dst ->
  exists s dst', mread src soff n = Some s /\ mwrite dst doff s = Some dst' /\
                 memcpy dst doff src soff n = Some dst'.
Proof.
  intros. unfold memcpy.
  pose proof (mread_ok src soff n ltac:(lia) ltac:(lia) ltac:(lia)) as Hr.
  pose proof (mread_len _ _ _ _ Hr) as Hl.
  rewrite Hr. simpl. do 2 eexists. split; [done|]. by rewrite mwrite_ok by lia.
Qed.
End Arrays.

#[export] Hint Resolve zlen_nonneg : cword.

(** ** The cyclic window of a ring

    [rview buf start n] is the sequence of [n] cells met when walking the circular array [buf]
    from index [start]. *)
Definition rview {A} (buf : list A) (start n : Z) : list A :=
  take (Z.to_nat n) (drop (Z.to_nat start) (buf ++ buf)).

Section RingView.
Context {A : Type}.
Implicit Types (buf src : list A) (start n k : Z).

Lemma rview_length buf start n :
  0 <= start -> 0 <= n -> start + n <= 2 * zlen buf -> zlen (rview buf start n) = n.
Proof.
  intros. unfold rview, zlen in *. rewrite length_take, length_drop, length_app. lia.
Qed.

Lemma rview_lookup buf start n (i : nat) :
  0 <= start < zlen buf -> 0 <= n <= zlen buf -> (i < Z.to_nat n)%nat ->
  rview buf start n !! i = buf !! Z.to_nat ((start + Z.of_nat i) mod zlen buf).
Proof.
  intros Hs Hn Hi. unfold rview. rewrite lookup_take_lt by lia. rewrite lookup_drop.
  rewrite mod_once by lia. unfold zlen in *. case_test.
  - rewrite lookup_app_l by lia. f_equal. lia.
  - rewrite lookup_app_r by lia. f_equal. lia.
Qed.

Lemma rview_lookup_ge buf start n (i : nat) :
  (Z.to_nat n <= i)%nat -> rview buf start n !! i = None.
Proof. intros. apply lookup_ge_None_2. unfold rview. rewrite length_take. lia. Qed.

(** Two windows with the same cells are equal. *)
Lemma rview_ext buf start n (l : list A) :
  0 <= start < zlen buf -> 0 <= n <= zlen buf -> zlen l = n ->
  (forall i : nat, (i < Z.to_nat n)%nat ->
     l !! i = buf !! Z.to_nat ((start + Z.of_nat i) mod zlen buf)) ->
  rview buf start n = l.
Proof.
  intros Hs Hn Hl Hi. apply list_eq. intros i.
  destruct (decide (i < Z.to_nat n)%nat).
  - rewrite rview_lookup by done. symmetry. auto.
  - rewrite rview_lookup_ge by lia. symmetry. apply lookup_ge_None_2. unfold zlen in Hl. lia.
Qed.

Lemma rview_0 buf start : rview buf start 0 = [].
Proof. done. Qed.

(** Consuming [k] cells moves the window. *)
Lemma rview_drop buf start n k :
  0 <= start < zlen buf -> 0 <= k <= n -> n <= zlen buf ->
  rview buf ((start + k) mod zlen buf) (n - k) = drop (Z.to_nat k) (rview buf start n).
Proof.
  intros Hs Hk Hn. pose proof (Z.mod_pos_bound (start + k) (zlen buf) ltac:(lia)).
  apply rview_ext; [lia|lia| |].
  - pose proof (rview_length buf start n ltac:(lia) ltac:(lia) ltac:(lia)) as Hl.
    unfold zlen in *. rewrite length_drop. lia.
  - intros i Hi. rewrite lookup_drop, rview_lookup by lia.
    do 2 f_equal. rewrite Z.add_mod_idemp_l by lia. f_equal. lia.
Qed.

Lemma rview_take buf start n k :
  0 <= k <= n -> rview buf start k = take (Z.to_nat k) (rview buf start n).
Proof. intros. unfold rview. rewrite take_take. f_equal. lia. Qed.

(** One contiguous copy, or two when the window wraps, read exactly the window. *)
Lemma rview_read buf start n first :
  0 <= start < zlen buf -> 0 <= n <= zlen buf -> first = Z.min n (zlen buf - start) ->
  exists a b, mread buf start first = Some a /\ mread buf 0 (n - first) = Some b /\
    rview buf start n = a ++ b.
Proof.
  intros Hs Hn ->.
  exists (take (Z.to_nat (Z.min n (zlen buf - start))) (drop (Z.to_nat start) buf)),
    (take (Z.to_nat (n - Z.min n (zlen buf - start))) buf).
  split; [by rewrite mread_ok by lia|]. split; [by rewrite mread_ok by lia|].
  unfold rview, zlen in *. rewrite drop_app_le by lia.
  rewrite take_app, length_drop. f_equal; [|f_equal; lia].
  destruct (decide (n <= zlen buf - start)); unfold zlen in *.
  - f_equal. lia.
  - rewrite !take_ge by (rewrite length_drop; lia). done.
Qed.

(** Writing [src] behind a window, in one or two contiguous copies, appends it. *)
Lemma rview_write buf start n src first buf1 buf2 :
  0 <= start < zlen buf -> 0 <= n -> n + zlen src <= zlen buf ->
  first = Z.min (zlen src) (zlen buf - (start + n) mod zlen buf) ->
  mwrite buf ((start + n) mod zlen buf) (take (Z.to_nat first) src) = Some buf1 ->
  mwrite buf1 0 (drop (Z.to_nat first) src) = Some buf2 ->
  rview buf2 start (n + zlen src) = rview buf start n ++ src.
Proof.
  intros Hs Hn Hfit -> H1 H2.
  pose proof (mwrite_len _ _ _ _ H1) as L1. pose proof (mwrite_len _ _ _ _ H2) as L2.
  assert (zlen buf2 = zlen buf) as Lz by (unfold zlen; lia).
  pose proof (Z.mod_pos_bound (start + n) (zlen buf) ltac:(lia)) as Hw.
  pose proof (zlen_nonneg src).
  apply rview_ext; [lia|lia| |].
  { rewrite zlen_app, rview_length by lia. done. }
  intros i Hi. rewrite Lz.
  pose proof (Z.mod_pos_bound (start + Z.of_nat i) (zlen buf) ltac:(lia)) as Hm.
  assert (length (rview buf start n) = Z.to_nat n) as Lr.
  { pose proof (rview_length buf start n ltac:(lia) ltac:(lia) ltac:(lia)) as E.
    unfold zlen in E. lia. }
  rewrite (mwrite_lookup _ _ _ _ _ H2), (mwrite_lookup _ _ _ _ _ H1).
  rewrite length_take, length_drop.
  assert (Hmod := mod_once (start + n) (zlen buf) ltac:(lia) ltac:(lia)).
  assert (Hmodi := mod_once (start + Z.of_nat i) (zlen buf) ltac:(lia) ltac:(lia)).
  destruct (decide (i < Z.to_nat n)%nat) as [Hin|Hout].
  - rewrite lookup_app_l by lia. rewrite rview_lookup by lia.
    rewrite !decide_False; [done| |]; revert Hmod Hmodi; repeat case_test; unfold zlen in *; lia.
  - rewrite lookup_app_r by lia. rewrite Lr.
    revert Hmod Hmodi; unfold zlen in *; repeat case_test; intros Hmod Hmodi;
      repeat case_decide; try lia;
      rewrite ?lookup_drop, ?lookup_take_lt by lia; f_equal; lia.
Qed.

(** Overwriting a cell outside the window does not change it. *)
Lemma rview_insert_out buf start n i x :
  0 <= start < zlen buf -> 0 <= n <= zlen buf -> 0 <= i ->
  (forall j : Z, 0 <= j < n -> (start + j) mod zlen buf <> i) ->
  rview (<[Z.to_nat i := x]> buf) start n = rview buf start n.
Proof.
  intros Hs Hn Hi Hout.
  assert (zlen (<[Z.to_nat i := x]> buf) = zlen buf) as L by (unfold zlen; by rewrite length_insert).
  apply rview_ext; [lia|lia|rewrite rview_length; lia|].
  intros j Hj. rewrite L, rview_lookup by lia.
  rewrite list_lookup_insert_ne; [done|].
  pose proof (Hout (Z.of_nat j) ltac:(lia)).
  pose proof (Z.mod_pos_bound (start + Z.of_nat j) (zlen buf) ltac:(lia)). lia.
Qed.

(** Overwriting cell [i] of the window. *)
Lemma rview_insert_in buf start n i x :
  0 <= start < zlen buf -> 0 <= i < n -> n <= zlen buf ->
  rview (<[Z.to_nat ((start + i) mod zlen buf) := x]> buf) start n =
  <[Z.to_nat i := x]> (rview buf start n).
Proof.
  intros Hs Hi Hn. pose proof (Z.mod_pos_bound (start + i) (zlen buf) ltac:(lia)) as Hw.
  set (w := (start + i) mod zlen buf) in *.
  assert (zlen (<[Z.to_nat w := x]> buf) = zlen buf) as L by (unfold zlen; by rewrite length_insert).
  pose proof (rview_length buf start n ltac:(lia) ltac:(lia) ltac:(lia)) as Lr.
  apply rview_ext; [lia|lia| |].
  { unfold zlen in *. by rewrite length_insert. }
  intros j Hj. rewrite L.
  pose proof (Z.mod_pos_bound (start + Z.of_nat j) (zlen buf) ltac:(lia)) as Hm.
  destruct (decide (j = Z.to_nat i)) as [->|Hne].
  - rewrite Z2Nat.id by lia. fold w.
    rewrite !list_lookup_insert_eq; unfold zlen in *; lia || done.
  - rewrite list_lookup_insert_ne, rview_lookup by lia.
    rewrite list_lookup_insert_ne; [done|].
    subst w. rewrite !mod_once by lia. repeat case_test; lia.
Qed.

(** Storing one cell right behind the window appends it. *)
Lemma rview_snoc buf start n x :
  0 <= start < zlen buf -> 0 <= n < zlen buf ->
  rview (<[Z.to_nat ((start + n) mod zlen buf) := x]> buf) start (n + 1) =
  rview buf start n ++ [x].
Proof.
  intros Hs Hn. pose proof (Z.mod_pos_bound (start + n) (zlen buf) ltac:(lia)) as Hw.
  set (w := (start + n) mod zlen buf) in *.
  assert (zlen (<[Z.to_nat w := x]> buf) = zlen buf) as L by (unfold zlen; by rewrite length_insert).
  pose proof (rview_length buf start n ltac:(lia) ltac:(lia) ltac:(lia)) as Lr.
  apply rview_ext; [lia|lia| |].
  { rewrite zlen_app, Lr. done. }
  intros j Hj. rewrite L. unfold zlen in Lr.
  pose proof (Z.mod_pos_bound (start + Z.of_nat j) (zlen buf) ltac:(lia)) as Hm.
  destruct (decide (j < Z.to_nat n)%nat).
  - rewrite lookup_app_l by lia. rewrite rview_lookup by lia.
    rewrite list_lookup_insert_ne; [done|].
    subst w. rewrite !mod_once by lia. repeat case_test; lia.
  - rewrite lookup_app_r by lia. replace (Z.of_nat j) with n by lia. fold w.
    rewrite list_lookup_insert_eq by (unfold zlen in *; lia).
    by replace (j - length (rview buf start n))%nat with 0%nat by lia.
Qed.
End RingView.

(** ** Arrays of fixed-size elements in a byte buffer

    [slots es cap buf] is the array of [cap] elements of [es] cells stored in [buf]. *)
Definition slot {A} (es : nat) (buf : list A) (k : nat) : list A := take es (drop (k * es) buf).

Definition slots {A} (es cap : nat) (buf : list A) : list (list A) := map (slot es buf) (seq 0 cap).

Section Slots.
Context {A : Type}.
Implicit Types (buf item : list A) (es cap k : nat).

Lemma slots_length es cap buf : length (slots es cap buf) = cap.
Proof. unfold slots. by rewrite length_map, length_seq. Qed.

Lemma slots_lookup es cap buf k :
  (k < cap)%nat -> slots es cap buf !! k = Some (slot es buf k).
Proof.
  intros Hk. unfold slots. rewrite list_lookup_fmap.
  rewrite lookup_seq_lt by done. done.
Qed.

Lemma slot_length es cap buf k :
  length buf = (cap * es)%nat -> (k < cap)%nat -> length (slot es buf k) = es.
Proof. intros Hl Hk. unfold slot. rewrite length_take, length_drop. nia. Qed.

Lemma slot_lookup es buf k (j : nat) :
  slot es buf k !! j = if decide (j < es)%nat then buf !! (k * es + j)%nat else None.
Proof.
  unfold slot. case_decide.
  - by rewrite lookup_take_lt, lookup_drop by done.
  - by rewrite lookup_take_ge by lia.
Qed.

(** Reading the [es] cells at [k * es] reads element [k]. *)
Lemma slot_read es cap buf k :
  length buf = (cap * es)%nat -> (k < cap)%nat ->
  mread buf (Z.of_nat (k * es)) (Z.of_nat es) = Some (slot es buf k).
Proof.
  intros Hl Hk. rewrite mread_ok by (unfold zlen; nia). unfold slot. by rewrite !Nat2Z.id.
Qed.

(** Writing an element at [k * es] replaces element [k] and no other. *)
Lemma slots_write es cap buf k item buf' :
  length buf = (cap * es)%nat -> (k < cap)%nat -> length item = es ->
  mwrite buf (Z.of_nat (k * es)) item = Some buf' ->
  slots es cap buf' = <[k := item]> (slots es cap buf).
Proof.
  intros Hl Hk Hi Hw. apply list_eq. intros j.
  destruct (decide (j < cap)%nat) as [Hj|Hj].
  2: { rewrite !lookup_ge_None_2; [done| |]; rewrite ?length_insert, slots_length; lia. }
  rewrite slots_lookup by done.
  destruct (decide (j = k)) as [->|Hne].
  - rewrite list_lookup_insert_eq by (rewrite slots_length; done). f_equal.
    apply list_eq. intros i. rewrite slot_lookup, (mwrite_lookup _ _ _ _ _ Hw), Nat2Z.id.
    case_decide; [|symmetry; apply lookup_ge_None_2; lia].
    rewrite decide_True by lia. f_equal. lia.
  - rewrite list_lookup_insert_ne, slots_lookup by done. f_equal.
    apply list_eq. intros i. rewrite !slot_lookup.
    case_decide; [|done].
    rewrite (mwrite_lookup _ _ _ _ _ Hw), Nat2Z.id, decide_False; [done|]. nia.
Qed.

Lemma slots_write_ok es cap buf k item :
  length buf = (cap * es)%nat -> (k < cap)%nat -> length item = es ->
  exists buf', mwrite buf (Z.of_nat (k * es)) item = Some buf' /\
    length buf' = length buf /\ slots es cap buf' = <[k := item]> (slots es cap buf).
Proof.
  intros Hl Hk Hi.
  destruct (mwrite buf (Z.of_nat (k * es)) item) as [buf'|] eqn:E.
  2: { rewrite mwrite_ok in E by (unfold zlen; nia). done. }
  exists buf'. split; [done|]. split; [by eapply mwrite_len|].
  by eapply slots_write.
Qed.
End Slots.
