(* ===== verification/Outcome.v ===== *)
(** * Results of code that can halt the machine

    A failed [assert] and a call of [panic] stop the kernel: a third outcome, besides a result and
    undefined behaviour. *)

From S2P Require Import Prelude.

(** A panic halts the machine; [None] is undefined behaviour. *)
Inductive outcome (A : Type) := Done (a : A) | Panic.
Arguments Done {A} a.
Arguments Panic {A}.

Definition run (A : Type) := option (outcome A).

#[export] Instance run_bind : MBind run := fun A B f m =>
  match m with Some (Done a) => f a | Some Panic => Some Panic | None => None end.

Definition ret {A} (a : A) : run A := Some (Done a).
Definition panic {A} : run A := Some Panic.

(** A memory access that may be undefined. *)
Definition lift {A} (m : option A) : run A := match m with Some a => ret a | None => None end.
