(* ===== verification/Ring.v ===== *)
(** * Circular buffers: [libs/data/ring.c]

    The three rings of the library: [ring_io_t], the byte FIFO under pipes and terminals,
    [ring_buffer_t], the overwriting power-of-two buffer of the log and input devices, and
    [ring_queue_t], the typed queue of exit events.  Each is a record of the C fields; an
    operation answers [None] exactly when the C code would access memory outside its buffer.
    [io_contents], [rb_contents] and [rq_contents] map a ring to the abstract sequence it
    stores, and the theorems say what every operation does to that sequence. *)

From Stdlib Require Import Strings.Byte.
From S2P Require Import Prelude Memory.

(** ** [ring_io_t] *)
Module RingIo.

Record ring_io_t := {
  io_data : ptr (list byte);
  io_capacity : Z;
  io_read_pos : Z;
  io_write_pos : Z;
  io_size : Z
}.

Section Defs.
Context `{Arch}.

Definition ring_io_reset (ring : ptr ring_io_t) : ptr ring_io_t :=
  match ring with
  | None => None
  | Some r =>
      Some {| io_data := io_data r; io_capacity := io_capacity r;
              io_read_pos := 0; io_write_pos := 0; io_size := 0 |}
  end.

Definition ring_io_init (ring : ptr ring_io_t) (data : ptr (list byte)) (capacity : Z)
  : ptr ring_io_t :=
  match ring with
  | None => None
  | Some r =>
      ring_io_reset
        (Some {| io_data := data; io_capacity := capacity;
                 io_read_pos := io_read_pos r; io_write_pos := io_write_pos r;
                 io_size := io_size r |})
  end.

Definition ring_io_size (ring : ptr ring_io_t) : Z :=
  match ring with Some r => io_size r | None => 0 end.

Definition ring_io_free_space (ring : ptr ring_io_t) : Z :=
  match ring with
  | None => 0
  | Some r => if io_capacity r <? io_size r then 0 else wrap (io_capacity r - io_size r)
  end.

Definition ring_io_read (ring : ptr ring_io_t) (out : ptr (list byte)) (len : Z)
  : option (Z * ptr ring_io_t * ptr (list byte)) :=
  match ring with
  | None => Some (0, ring, out)
  | Some r =>
      match io_data r, out with
      | Some data, Some o =>
          if (len =? 0) || (io_size r =? 0) || (io_capacity r =? 0) then Some (0, ring, out)
          else
            let chunk := if io_size r <? len then io_size r else len in
            let room := wrap (io_capacity r - io_read_pos r) in
            let first := if room <? chunk then room else chunk in
            o1 ← memcpy o 0 data (io_read_pos r) first;
            o2 ← (if first <? chunk then memcpy o1 first data 0 (wrap (chunk - first))
                  else Some o1);
            Some (chunk,
                  Some {| io_data := Some data; io_capacity := io_capacity r;
                          io_read_pos := wrap (io_read_pos r + chunk) mod io_capacity r;
                          io_write_pos := io_write_pos r;
                          io_size := wrap (io_size r - chunk) |},
                  Some o2)
      | _, _ => Some (0, ring, out)
      end
  end.

Definition ring_io_write (ring : ptr ring_io_t) (inp : ptr (list byte)) (len : Z)
  : option (Z * ptr ring_io_t) :=
  match ring with
  | None => Some (0, ring)
  | Some r =>
      match io_data r, inp with
      | Some data, Some src =>
          if (len =? 0) || (io_capacity r =? 0) then Some (0, ring)
          else
            let free_space := ring_io_free_space ring in
            if free_space =? 0 then Some (0, ring)
            else
              let chunk := if free_space <? len then free_space else len in
              let room := wrap (io_capacity r - io_write_pos r) in
              let first := if room <? chunk then room else chunk in
              d1 ← memcpy data (io_write_pos r) src 0 first;
              d2 ← (if first <? chunk then memcpy d1 0 src first (wrap (chunk - first))
                    else Some d1);
              Some (chunk,
                    Some {| io_data := Some d2; io_capacity := io_capacity r;
                            io_read_pos := io_read_pos r;
                            io_write_pos := wrap (io_write_pos r + chunk) mod io_capacity r;
                            io_size := wrap (io_size r + chunk) |})
      | _, _ => Some (0, ring)
      end
  end.

(** The bytes a ring holds, oldest first. *)
Definition io_contents (r : ring_io_t) : list byte :=
  match io_data r with
  | Some data => rview data (io_read_pos r) (io_size r)
  | None => []
  end.

(** Representation invariant.  A C object is at most half the address space, so positions
    never wrap around. *)
Definition io_inv (r : ring_io_t) : Prop :=
  exists data, io_data r = Some data /\ zlen data = io_capacity r /\
    0 < io_capacity r /\ 2 * io_capacity r <= SIZE_MOD /\
    0 <= io_read_pos r < io_capacity r /\
    0 <= io_size r <= io_capacity r /\
    io_write_pos r = (io_read_pos r + io_size r) mod io_capacity r.

(** ** Lemmas *)

Lemma io_contents_len r : io_inv r -> zlen (io_contents r) = io_size r.
Proof.
  intros (data&Hd&Hl&?&?&?&?&?). unfold io_contents. rewrite Hd. apply rview_length; lia.
Qed.

Lemma io_init_spec r data cap :
  zlen data = cap -> 0 < cap -> 2 * cap <= SIZE_MOD ->
  exists r', ring_io_init (Some r) (Some data) cap = Some r' /\ io_inv r' /\
    io_contents r' = [] /\ io_capacity r' = cap.
Proof.
  intros Hl Hc Hm. eexists. split; [reflexivity|]. split; [|done].
  exists data. simpl. repeat split; try lia.
Qed.

Lemma io_free_spec r : io_inv r ->
  ring_io_free_space (Some r) = io_capacity r - zlen (io_contents r).
Proof.
  intros Hinv. rewrite io_contents_len by done. destruct Hinv as (data&Hd&Hl&?&?&?&?&?).
  unfold ring_io_free_space. test_lia. apply wrap_small. lia.
Qed.

(** Two copies behind one another, or a single one, build the prefix of [out]. *)
Lemma out_prefix (o a b : list byte) (first n : Z) :
  zlen a = first -> zlen b = n - first -> 0 <= first <= n -> n <= zlen o ->
  exists o1 o2, mwrite o 0 a = Some o1 /\ mwrite o1 first b = Some o2 /\
    o2 = (a ++ b) ++ drop (Z.to_nat n) o.
Proof.
  intros Ha Hb Hf Hn. unfold zlen in *.
  eexists; eexists. split; [apply mwrite_ok; unfold zlen; lia|]. simpl.
  split; [apply mwrite_ok; unfold zlen; rewrite ?length_app, ?length_drop; lia|].
  rewrite take_app_length' by lia. rewrite drop_app_ge by lia.
  rewrite drop_drop. rewrite <- app_assoc. do 3 f_equal. lia.
Qed.

Lemma io_read_spec r o len :
  io_inv r -> 0 <= len < SIZE_MOD -> Z.min len (io_size r) <= zlen o ->
  let n := Z.min len (io_size r) in
  exists r', ring_io_read (Some r) (Some o) len =
      Some (n, Some r', Some (take (Z.to_nat n) (io_contents r) ++ drop (Z.to_nat n) o)) /\
    io_inv r' /\ io_contents r' = drop (Z.to_nat n) (io_contents r) /\
    io_capacity r' = io_capacity r.
Proof.
  intros Hinv Hlen Ho n. destruct Hinv as (data&Hd&Hl&Hc&Hm&Hr&Hs&Hw).
  unfold ring_io_read, io_contents. rewrite Hd.
  destruct (Z.eq_dec n 0) as [Hn0|Hn0].
  { exists r. rewrite !Hd. replace ((len =? 0) || _ || _) with true.
    2: { symmetry. unfold n in Hn0. destruct (Z.eqb_spec len 0); [done|].
         destruct (Z.eqb_spec (io_size r) 0); [done|]. lia. }
    rewrite Hn0. simpl. split; [done|]. split; [|done].
    by exists data. }
  unfold n in Hn0. test_lia.
  replace (if io_size r <? len then io_size r else len) with n by (unfold n; case_test; lia).
  assert (1 <= n <= io_size r) as Hnr by lia. fold n in Ho. clearbody n.
  rewrite (wrap_small (io_capacity r - io_read_pos r)) by lia.
  set (first := if _ <? n then _ else n).
  assert (first = Z.min n (zlen data - io_read_pos r)) as Hfirst by (unfold first; case_test; lia).
  clearbody first.
  destruct (rview_read data (io_read_pos r) n first) as (a&b&Ha&Hb&Hab); [lia..|].
  pose proof (mread_len _ _ _ _ Ha) as La. pose proof (mread_len _ _ _ _ Hb) as Lb.
  destruct (out_prefix o a b first n) as (o1&o2&Ho1&Ho2&Eo2); [lia..|].
  rewrite (wrap_small (n - first)), (wrap_small (io_read_pos r + n)),
    (wrap_small (io_size r - n)) by lia.
  unfold memcpy. rewrite Ha. simpl. rewrite Ho1. simpl.
  replace (if first <? n then _ else Some o1) with (Some o2).
  2: { case_test; [by rewrite Hb; simpl|].
       assert (b = []) as -> by (apply length_zero_iff_nil; unfold zlen in Lb; lia).
       rewrite <- Ho2. apply mwrite_nil. pose proof (mwrite_len _ _ _ _ Ho1).
       unfold zlen in *. lia. }
  simpl. eexists. split; [|split; [|split]].
  - rewrite Eo2, <- Hab. by rewrite <- (rview_take data (io_read_pos r) (io_size r) n) by lia.
  - exists data. simpl. rewrite Hl. pose proof (Z.mod_pos_bound (io_read_pos r + n) (io_capacity r) ltac:(lia)).
    repeat split; try lia. rewrite Hw, Z.add_mod_idemp_l by lia. f_equal. lia.
  - simpl. rewrite <- Hl. apply rview_drop; lia.
  - done.
Qed.

Lemma io_write_spec r src len :
  io_inv r -> 0 <= len < SIZE_MOD ->
  let n := Z.min len (io_capacity r - io_size r) in
  n <= zlen src ->
  exists r', ring_io_write (Some r) (Some src) len = Some (n, Some r') /\
    io_inv r' /\ io_contents r' = io_contents r ++ take (Z.to_nat n) src /\
    io_capacity r' = io_capacity r.
Proof.
  intros Hinv Hlen n Hsrc. pose proof (io_free_spec r Hinv) as Hfree.
  rewrite io_contents_len in Hfree by done.
  destruct Hinv as (data&Hd&Hl&Hc&Hm&Hr&Hs&Hw).
  unfold ring_io_write, io_contents. rewrite Hd, Hfree.
  destruct (Z.eq_dec n 0) as [Hn0|Hn0].
  { exists r. rewrite !Hd, Hn0. simpl. rewrite app_nil_r. split; [|split; [by exists data|done]].
    unfold n in Hn0. repeat case_test; try done; lia. }
  unfold n in Hn0. test_lia.
  replace (if _ <? len then _ else len) with n by (unfold n; case_test; lia).
  assert (1 <= n /\ io_size r + n <= io_capacity r) as Hnr by lia. clearbody n.
  assert (0 <= io_write_pos r < io_capacity r) as Hwr by (rewrite Hw; apply Z.mod_pos_bound; lia).
  rewrite (wrap_small (io_capacity r - io_write_pos r)) by lia.
  set (first := if _ <? n then _ else n).
  assert (first = Z.min n (zlen data - io_write_pos r)) as Hfirst by (unfold first; case_test; lia).
  clearbody first.
  rewrite (wrap_small (n - first)), (wrap_small (io_write_pos r + n)),
    (wrap_small (io_size r + n)) by lia.
  unfold memcpy. rewrite !mread_ok by lia. simpl.
  set (s := take (Z.to_nat n) src).
  assert (zlen s = n) as Ls by (unfold s, zlen in *; rewrite length_take; lia).
  assert (take (Z.to_nat first) (drop (Z.to_nat 0) src) = take (Z.to_nat first) s) as ->.
  { unfold s. rewrite take_take. simpl. f_equal. lia. }
  assert (take (Z.to_nat (n - first)) (drop (Z.to_nat first) src) = drop (Z.to_nat first) s) as ->.
  { unfold s. rewrite take_drop_commute.
    do 2 f_equal. lia. }
  assert (exists d1, mwrite data (io_write_pos r) (take (Z.to_nat first) s) = Some d1) as [d1 Hd1].
  { eexists. apply mwrite_ok; [lia|]. unfold zlen in *. rewrite length_take. lia. }
  pose proof (mwrite_len _ _ _ _ Hd1) as L1.
  assert (exists d2, mwrite d1 0 (drop (Z.to_nat first) s) = Some d2) as [d2 Hd2].
  { eexists. apply mwrite_ok; [lia|]. unfold zlen in *. rewrite length_drop. lia. }
  pose proof (mwrite_len _ _ _ _ Hd2) as L2.
  rewrite Hd1. simpl. replace (if first <? n then _ else Some d1) with (Some d2).
  2: { case_test; [done|].
       assert (drop (Z.to_nat first) s = []) as E0.
       { apply length_zero_iff_nil. rewrite length_drop. unfold zlen in Ls. lia. }
       rewrite <- Hd2, E0. apply mwrite_nil. unfold zlen in *. lia. }
  simpl. eexists. split; [reflexivity|]. simpl.
  assert (zlen d2 = zlen data) as Ld by (unfold zlen; lia).
  split; [|split; [|done]].
  - exists d2. simpl. repeat split; try lia. rewrite Hw, Z.add_mod_idemp_l by lia. f_equal. lia.
  - rewrite <- Ls. eapply rview_write; try exact Hd2; try lia.
    + rewrite Hl, <- Hw. lia.
    + by rewrite Hl, <- Hw.
Qed.
End Defs.
End RingIo.

(** The last [n] items of a sequence: what an overwriting buffer of capacity [n] keeps. *)
Definition lastn {A} (n : nat) (l : list A) : list A := drop (length l - n) l.

(** ** [ring_buffer_t] *)
Module RingBuffer.

Record ring_buffer_t := {
  rb_buffer : ptr (list byte);
  rb_size : Z;
  rb_head : Z;
  rb_tail : Z
}.

Section Defs.
Context `{Arch}.
Implicit Types (ring : ring_buffer_t).

Definition ring_mask ring : Z := wrap (rb_size ring - 1).

Definition ring_capacity ring : Z := ring_mask ring.

Definition ring_used ring : Z := Z.land (wrap (rb_head ring - rb_tail ring)) (ring_mask ring).

Definition ring_free ring : Z := wrap (ring_capacity ring - ring_used ring).

(** [ring_ok] and [buffer] are what [calloc(1, sizeof(ring_buffer_t))] and [malloc(size)]
    answer. *)
Definition ring_buffer_create (size : Z) (ring_ok : bool) (buffer : ptr (list byte))
  : ptr ring_buffer_t :=
  if (size <? 2) || negb (Z.land size (wrap (size - 1)) =? 0) then None
  else if negb ring_ok then None
  else match buffer with
       | None => None
       | Some b => Some {| rb_buffer := Some b; rb_size := size; rb_head := 0; rb_tail := 0 |}
       end.

Definition ring_buffer_is_full ring : bool := ring_used ring =? ring_capacity ring.

Definition ring_buffer_is_empty ring : bool := rb_head ring =? rb_tail ring.

Definition ring_buffer_clear ring : ring_buffer_t :=
  {| rb_buffer := rb_buffer ring; rb_size := rb_size ring;
     rb_head := rb_tail ring; rb_tail := rb_tail ring |}.

Definition set_tail ring (t : Z) : ring_buffer_t :=
  {| rb_buffer := rb_buffer ring; rb_size := rb_size ring; rb_head := rb_head ring; rb_tail := t |}.

(** [ring->buffer[ring->head_index] = data;
    ring->head_index = (ring->head_index + 1) & mask;] *)
Definition rb_put ring (data : byte) : option ring_buffer_t :=
  b ← rb_buffer ring;
  b' ← mstore b (rb_head ring) data;
  Some {| rb_buffer := Some b'; rb_size := rb_size ring;
          rb_head := Z.land (wrap (rb_head ring + 1)) (ring_mask ring);
          rb_tail := rb_tail ring |}.

(** [ring->tail_index = (ring->tail_index + drop) & mask;] *)
Definition rb_skip ring (drop : Z) : ring_buffer_t :=
  set_tail ring (Z.land (wrap (rb_tail ring + drop)) (ring_mask ring)).

Definition ring_buffer_push ring (data : byte) : option ring_buffer_t :=
  rb_put (if ring_buffer_is_full ring then rb_skip ring 1 else ring) data.

(** The store loop of [ring_buffer_push_array] and [ring_buffer_push_record]. *)
Fixpoint rb_fill (n : nat) (data : list byte) (i : Z) ring : option ring_buffer_t :=
  match n with
  | O => Some ring
  | S n' => x ← mload data i; ring' ← rb_put ring x; rb_fill n' data (i + 1) ring'
  end.

Definition ring_buffer_push_array (ring : ptr ring_buffer_t) (data : ptr (list byte)) (len : Z)
  : option (ptr ring_buffer_t) :=
  match ring, data with
  | Some r, Some d =>
      if (len =? 0) || (rb_size r <? 2) then Some ring
      else
        let capacity := ring_capacity r in
        if capacity <? len then
          r' ← rb_fill (Z.to_nat capacity) d (len - capacity) (set_tail r (rb_head r));
          Some (Some r')
        else
          let free_bytes := ring_free r in
          let r1 := if free_bytes <? len then rb_skip r (wrap (len - free_bytes)) else r in
          r' ← rb_fill (Z.to_nat len) d 0 r1;
          Some (Some r')
  | _, _ => Some ring
  end.

(** [while (ring_free(ring) < len) ...] *)
Fixpoint rb_make_room (fuel : nat) ring (len : Z) : option ring_buffer_t :=
  if ring_free ring <? len then
    match fuel with
    | O => None
    | S f =>
        let used := ring_used ring in
        let drop := if used <? len then used else len in
        rb_make_room f (rb_skip ring drop) len
    end
  else Some ring.

Definition ring_buffer_push_record (ring : ptr ring_buffer_t) (data : ptr (list byte)) (len : Z)
  : option (ptr ring_buffer_t) :=
  match ring, data with
  | Some r, Some d =>
      if (len =? 0) || (rb_size r <? 2) then Some ring
      else if ring_capacity r <? len then Some ring
      else
        r1 ← rb_make_room (Z.to_nat (rb_size r)) r len;
        r' ← rb_fill (Z.to_nat len) d 0 r1;
        Some (Some r')
  | _, _ => Some ring
  end.

(** [out] is the output object, [pos] the cell the pointer designates. *)
Definition ring_buffer_pop ring (out : ptr (list byte)) (pos : Z)
  : option (bool * ring_buffer_t * ptr (list byte)) :=
  if ring_buffer_is_empty ring then Some (false, ring, out)
  else
    out' ← match out with
           | None => Some None
           | Some o =>
               b ← rb_buffer ring; x ← mload b (rb_tail ring); o' ← mstore o pos x; Some (Some o')
           end;
    Some (true, rb_skip ring 1, out').

(** [while ((i < len) && ring_buffer_pop(ring, cursor))]; [n] is [len - i]. *)
Fixpoint rb_pop_loop (n : nat) (i : Z) ring (out : ptr (list byte))
  : option (Z * ring_buffer_t * ptr (list byte)) :=
  match n with
  | O => Some (i, ring, out)
  | S n' =>
      '(popped, ring', out') ← ring_buffer_pop ring out i;
      if popped : bool then rb_pop_loop n' (i + 1) ring' out' else Some (i, ring', out')
  end.

Definition ring_buffer_pop_array ring (out : ptr (list byte)) (len : Z)
  : option (Z * ring_buffer_t * ptr (list byte)) :=
  if ring_buffer_is_empty ring then Some (0, ring, out)
  else rb_pop_loop (Z.to_nat len) 0 ring out.

Definition rb_contents ring : list byte :=
  match rb_buffer ring with
  | Some b => rview b (rb_tail ring) (ring_used ring)
  | None => []
  end.

Definition rb_inv ring : Prop :=
  exists b k, rb_buffer ring = Some b /\ 1 <= k < size_bits /\ rb_size ring = 2 ^ k /\
    zlen b = rb_size ring /\ 0 <= rb_head ring < rb_size ring /\ 0 <= rb_tail ring < rb_size ring.

(** ** Lemmas *)

Lemma rb_size_range ring : rb_inv ring -> 2 <= rb_size ring < SIZE_MOD.
Proof.
  intros (b&k&_&Hk&->&_). split.
  - change 2 with (2 ^ 1) at 1. apply Z.pow_le_mono_r; lia.
  - unfold SIZE_MOD. apply Z.pow_lt_mono_r; lia.
Qed.

Lemma rb_mask ring : rb_inv ring -> ring_mask ring = rb_size ring - 1.
Proof.
  intros Hinv. pose proof (rb_size_range _ Hinv). unfold ring_mask. apply wrap_small. lia.
Qed.

Lemma rb_masked ring z :
  rb_inv ring -> Z.land (wrap z) (ring_mask ring) = z mod rb_size ring.
Proof.
  intros Hinv. rewrite rb_mask by done. destruct Hinv as (b&k&_&Hk&->&_).
  rewrite land_mask by lia. apply wrap_mod_pow2. lia.
Qed.

Lemma rb_used ring :
  rb_inv ring -> ring_used ring = (rb_head ring - rb_tail ring) mod rb_size ring.
Proof. intros. by apply rb_masked. Qed.

Lemma rb_used_range ring : rb_inv ring -> 0 <= ring_used ring <= rb_size ring - 1.
Proof.
  intros Hinv. pose proof (rb_size_range _ Hinv). rewrite rb_used by done.
  pose proof (Z.mod_pos_bound (rb_head ring - rb_tail ring) (rb_size ring)). lia.
Qed.

Lemma rb_head_used ring :
  rb_inv ring -> rb_head ring = (rb_tail ring + ring_used ring) mod rb_size ring.
Proof.
  intros Hinv. pose proof (rb_size_range _ Hinv). rewrite rb_used by done.
  rewrite Z.add_mod_idemp_r by lia. rewrite Zplus_minus.
  destruct Hinv as (b&k&_&_&_&_&?&?). symmetry. by apply Z.mod_small.
Qed.

Lemma rb_free ring : rb_inv ring -> ring_free ring = rb_size ring - 1 - ring_used ring.
Proof.
  intros Hinv. pose proof (rb_size_range _ Hinv). pose proof (rb_used_range _ Hinv).
  unfold ring_free, ring_capacity. rewrite rb_mask by done. apply wrap_small. lia.
Qed.

Lemma rb_contents_len ring : rb_inv ring -> zlen (rb_contents ring) = ring_used ring.
Proof.
  intros Hinv. pose proof (rb_used_range _ Hinv).
  destruct Hinv as (b&k&Hb&_&_&Hl&_&?). unfold rb_contents. rewrite Hb.
  apply rview_length; lia.
Qed.

Lemma rb_empty_iff ring :
  rb_inv ring -> ring_buffer_is_empty ring = (ring_used ring =? 0).
Proof.
  intros Hinv. pose proof (rb_size_range _ Hinv). rewrite rb_used by done.
  destruct Hinv as (b&k&_&_&_&_&?&?). unfold ring_buffer_is_empty.
  destruct (Z.eqb_spec (rb_head ring) (rb_tail ring)) as [->|Hne].
  - rewrite Z.sub_diag. by rewrite Z.mod_0_l by lia.
  - symmetry. apply Z.eqb_neq. intros E. apply Hne.
    apply Z.mod_divide in E as [q Hq]; [|lia]. assert (q <= -1 \/ q = 0 \/ 1 <= q) as [?|[?|?]] by lia; [exfalso; nia|lia|exfalso; nia].
Qed.

Lemma rb_skip_spec ring d :
  rb_inv ring -> 0 <= d <= ring_used ring ->
  rb_inv (rb_skip ring d) /\ rb_contents (rb_skip ring d) = drop (Z.to_nat d) (rb_contents ring) /\
  rb_size (rb_skip ring d) = rb_size ring /\ ring_used (rb_skip ring d) = ring_used ring - d.
Proof.
  intros Hinv Hd. pose proof (rb_size_range _ Hinv) as Hs. pose proof (rb_used_range _ Hinv) as Hu.
  pose proof (Z.mod_pos_bound (rb_tail ring + d) (rb_size ring) ltac:(lia)) as Ht.
  assert (rb_inv (rb_skip ring d)) as Hinv'.
  { pose proof (rb_masked _ (rb_tail ring + d) Hinv) as Hm.
    destruct Hinv as (b&k&Hb&Hk&Hsz&Hl&?&?). exists b, k.
    unfold rb_skip, set_tail. simpl. rewrite Hm. repeat split; done || lia. }
  assert (rb_tail (rb_skip ring d) = (rb_tail ring + d) mod rb_size ring) as Et
    by (simpl; by apply rb_masked).
  assert (ring_used (rb_skip ring d) = ring_used ring - d) as Eu.
  { rewrite rb_used by done. rewrite Et. simpl. rewrite Zminus_mod_idemp_r.
    rewrite <- (Z.mod_small (ring_used ring - d) (rb_size ring)) by lia.
    rewrite (rb_used ring) by done. rewrite Zminus_mod_idemp_l. f_equal. lia. }
  split; [done|]. split; [|done].
  unfold rb_contents. rewrite Eu, Et. simpl. destruct Hinv as (b&k&Hb&_&_&Hl&?&?).
  rewrite Hb, <- Hl. apply rview_drop; lia.
Qed.

Lemma rb_put_spec ring x :
  rb_inv ring -> ring_used ring < rb_size ring - 1 ->
  exists ring', rb_put ring x = Some ring' /\ rb_inv ring' /\
    rb_contents ring' = rb_contents ring ++ [x] /\ rb_size ring' = rb_size ring /\
    ring_used ring' = ring_used ring + 1.
Proof.
  intros Hinv Hroom. pose proof (rb_size_range _ Hinv) as Hs. pose proof (rb_used_range _ Hinv) as Hu.
  pose proof (rb_masked _ (rb_head ring + 1) Hinv) as Hm.
  pose proof (rb_head_used _ Hinv) as Hh.
  pose proof (Z.mod_pos_bound (rb_head ring + 1) (rb_size ring) ltac:(lia)) as Ht.
  destruct (id Hinv) as (b&k&Hb&Hk&Hsz&Hl&?&?).
  unfold rb_put. rewrite Hb. simpl. rewrite mstore_ok by lia. simpl. rewrite Hm.
  eexists. split; [reflexivity|].
  set (ring' := {| rb_head := _ |}).
  assert (rb_inv ring') as Hinv'.
  { exists (<[Z.to_nat (rb_head ring):=x]> b), k. simpl.
    repeat split; try lia. unfold zlen. by rewrite length_insert. }
  assert (ring_used ring' = ring_used ring + 1) as Eu.
  { rewrite rb_used by done. simpl. rewrite Zminus_mod_idemp_l.
    rewrite <- (Z.mod_small (ring_used ring + 1) (rb_size ring)) by lia.
    rewrite (rb_used ring) by done. rewrite Z.add_mod_idemp_l by lia. f_equal. lia. }
  split; [done|]. split; [|done].
  unfold rb_contents. rewrite Eu. simpl. rewrite Hb, Hh, <- Hl. apply rview_snoc; lia.
Qed.

Lemma rb_fill_spec n data i ring :
  rb_inv ring -> ring_used ring + Z.of_nat n <= rb_size ring - 1 ->
  0 <= i -> i + Z.of_nat n <= zlen data ->
  exists ring', rb_fill n data i ring = Some ring' /\ rb_inv ring' /\
    rb_contents ring' = rb_contents ring ++ take n (drop (Z.to_nat i) data) /\
    rb_size ring' = rb_size ring.
Proof.
  revert i ring. induction n as [|n IH]; intros i ring Hinv Hroom Hi Hlen; cbn [rb_fill].
  { exists ring. by rewrite take_0, app_nil_r. }
  destruct (mload_is_Some data i) as [x Hx]; [lia|]. rewrite Hx. cbn [mbind option_bind].
  destruct (rb_put_spec ring x) as (r1&Hp&Hinv1&Hc1&Hs1&Hu1); [done|lia|].
  rewrite Hp. cbn [mbind option_bind].
  destruct (IH (i + 1) r1) as (r2&Hf&Hinv2&Hc2&Hs2); [done|lia..|].
  exists r2. split; [done|]. split; [done|]. split; [|congruence].
  rewrite Hc2, Hc1, <- app_assoc. f_equal.
  apply mload_Some in Hx as [_ Hx].
  rewrite (drop_S data x (Z.to_nat i)) by done. simpl.
  do 3 f_equal. lia.
Qed.

Lemma lastn_ge {A} n (l : list A) : (length l <= n)%nat -> lastn n l = l.
Proof. intros. unfold lastn. by replace (length l - n)%nat with 0%nat by lia. Qed.

Lemma lastn_app_ge {A} n (l k : list A) :
  (n <= length k)%nat -> lastn n (l ++ k) = drop (length k - n) k.
Proof.
  intros. unfold lastn. rewrite length_app. rewrite drop_app_ge by lia. f_equal. lia.
Qed.

Lemma lastn_app_lt {A} n (l k : list A) :
  (length k <= n)%nat -> lastn n (l ++ k) = drop (length l + length k - n) l ++ k.
Proof.
  intros. unfold lastn. rewrite length_app. rewrite drop_app.
  f_equal. replace (_ - _)%nat with 0%nat by lia. done.
Qed.

Lemma rb_push_spec ring x :
  rb_inv ring ->
  exists ring', ring_buffer_push ring x = Some ring' /\ rb_inv ring' /\
    rb_contents ring' = lastn (Z.to_nat (rb_size ring - 1)) (rb_contents ring ++ [x]) /\
    rb_size ring' = rb_size ring.
Proof.
  intros Hinv. pose proof (rb_size_range _ Hinv) as Hs. pose proof (rb_used_range _ Hinv) as Hu.
  pose proof (rb_contents_len _ Hinv) as Hl. unfold zlen in Hl.
  unfold ring_buffer_push, ring_buffer_is_full, ring_capacity. rewrite rb_mask by done.
  rewrite lastn_app_lt by (simpl; lia). case_test.
  - destruct (rb_skip_spec ring 1) as (Hi1&Hc1&Hs1&Hu1); [done|lia|].
    destruct (rb_put_spec (rb_skip ring 1) x) as (r'&Hp&Hi2&Hc2&Hs2&_); [done|lia|].
    exists r'. rewrite Hp, Hc2, Hc1. repeat split; [done| |lia].
    do 2 f_equal. simpl. lia.
  - destruct (rb_put_spec ring x) as (r'&Hp&Hi2&Hc2&Hs2&_); [done|lia|].
    exists r'. rewrite Hp, Hc2. repeat split; [done| |lia].
    f_equal. by replace (_ - _)%nat with 0%nat by (simpl; lia).
Qed.

Lemma rb_push_array_spec ring data len :
  rb_inv ring -> 0 <= len <= zlen data -> len < SIZE_MOD ->
  exists ring', ring_buffer_push_array (Some ring) (Some data) len = Some (Some ring') /\
    rb_inv ring' /\ rb_size ring' = rb_size ring /\
    rb_contents ring' =
      lastn (Z.to_nat (rb_size ring - 1)) (rb_contents ring ++ take (Z.to_nat len) data).
Proof.
  intros Hinv Hlen Hmax. pose proof (rb_size_range _ Hinv) as Hs.
  pose proof (rb_used_range _ Hinv) as Hu. pose proof (rb_contents_len _ Hinv) as Hcl.
  assert (length (take (Z.to_nat len) data) = Z.to_nat len) as Hd
    by (rewrite length_take; unfold zlen in Hlen; lia).
  unfold zlen in Hcl. unfold ring_buffer_push_array, ring_capacity.
  rewrite rb_mask, rb_free by done. test_lia.
  destruct (Z.eqb_spec len 0) as [->|Hn]; simpl.
  { exists ring. rewrite app_nil_r. rewrite lastn_ge by lia. done. }
  case_test.
  - set (r0 := set_tail ring (rb_head ring)).
    assert (rb_inv r0) as Hi0.
    { destruct Hinv as (b&k&Hb&Hk&Hsz&Hl&?&?). exists b, k. done. }
    assert (ring_used r0 = 0) as Hu0.
    { rewrite rb_used by done. simpl. rewrite Z.sub_diag. apply Z.mod_0_l. lia. }
    assert (rb_contents r0 = []) as Hc0.
    { apply length_zero_iff_nil. pose proof (rb_contents_len _ Hi0) as E0.
      unfold zlen in E0. lia. }
    destruct (rb_fill_spec (Z.to_nat (rb_size ring - 1)) data (len - (rb_size ring - 1)) r0)
      as (r'&Hf&Hi'&Hc'&Hs'); [done|simpl; lia..|].
    rewrite Hf. exists r'. split; [done|]. split; [done|]. split; [done|].
    rewrite Hc', Hc0. simpl. rewrite lastn_app_ge by lia. rewrite Hd.
    rewrite take_drop_commute. f_equal; [lia|f_equal; lia].
  - assert (exists r1, (if rb_size ring - 1 - ring_used ring <? len
              then rb_skip ring (wrap (len - (rb_size ring - 1 - ring_used ring))) else ring) = r1 /\
      rb_inv r1 /\ rb_size r1 = rb_size ring /\ ring_used r1 + len <= rb_size ring - 1 /\
      rb_contents r1 = drop (Z.to_nat (ring_used ring + len - (rb_size ring - 1))) (rb_contents ring))
      as (r1&->&Hi1&Hs1&Hu1&Hc1).
    { eexists. split; [reflexivity|]. case_test.
      - rewrite wrap_small by lia.
        destruct (rb_skip_spec ring (len - (rb_size ring - 1 - ring_used ring)))
          as (?&Hc&?&?); [done|lia|].
        repeat split; [done..|lia|]. rewrite Hc. f_equal. lia.
      - repeat split; [done|lia|].
        replace (Z.to_nat _) with 0%nat by lia. done. }
    destruct (rb_fill_spec (Z.to_nat len) data 0 r1) as (r'&Hf&Hi'&Hc'&Hs'); [done|lia..|].
    rewrite Hf. exists r'. split; [done|]. split; [done|]. split; [lia|].
    rewrite Hc', Hc1. rewrite lastn_app_lt by lia. f_equal. f_equal. lia.
Qed.

(** How many bytes [rb_make_room] drops: whole records of [len] bytes while the record does
    not fit, never more than the [used] bytes there are. *)
Fixpoint room_drops (fuel : nat) (cap used len : Z) : Z :=
  match fuel with
  | O => 0
  | S f =>
      if cap - used <? len
      then let d := Z.min used len in d + room_drops f cap (used - d) len
      else 0
  end.

Lemma room_drops_spec fuel cap used len :
  0 <= used <= cap -> 0 < len <= cap -> (Z.to_nat used <= fuel)%nat ->
  let d := room_drops fuel cap used len in
  0 <= d <= used /\ used - d + len <= cap.
Proof.
  revert used. induction fuel as [|f IH]; intros used Hu Hl Hf; cbn [room_drops].
  { simpl. lia. }
  case_test; [|simpl; lia].
  specialize (IH (used - Z.min used len)). simpl in *. lia.
Qed.

(** With records of equal length in the buffer, whole records are dropped, and no more of
    them than needed. *)
Lemma room_drops_records fuel cap m len :
  0 < len <= cap -> Z.of_nat m * len <= cap -> (Z.to_nat (Z.of_nat m * len) <= fuel)%nat ->
  exists j : nat, (j <= m)%nat /\ room_drops fuel cap (Z.of_nat m * len) len = Z.of_nat j * len /\
    (Z.of_nat m - Z.of_nat j + 1) * len <= cap /\
    (j = 0%nat \/ cap < (Z.of_nat m - Z.of_nat j + 2) * len).
Proof.
  revert m. induction fuel as [|f IH]; intros m Hl Hm Hf; cbn [room_drops].
  { exists 0%nat. assert (m = 0%nat) by nia. subst m. simpl. nia. }
  case_test.
  2: { exists 0%nat. simpl. repeat split; nia. }
  destruct m as [|m]; [simpl in *; lia|].
  replace (Z.min (Z.of_nat (S m) * len) len) with len by nia.
  replace (Z.of_nat (S m) * len - len) with (Z.of_nat m * len) by nia.
  destruct (IH m) as (j&Hj&Hd&Hfit&Hmin); [lia|nia|nia|].
  exists (S j). rewrite Hd. repeat split; [lia|nia|nia|].
  right. destruct Hmin as [->|Hmin]; nia.
Qed.

Lemma rb_make_room_spec fuel ring len :
  rb_inv ring -> 0 < len <= rb_size ring - 1 -> (Z.to_nat (ring_used ring) <= fuel)%nat ->
  let d := room_drops fuel (rb_size ring - 1) (ring_used ring) len in
  exists ring', rb_make_room fuel ring len = Some ring' /\ rb_inv ring' /\
    rb_contents ring' = drop (Z.to_nat d) (rb_contents ring) /\ rb_size ring' = rb_size ring /\
    ring_used ring' = ring_used ring - d.
Proof.
  revert ring. induction fuel as [|f IH]; intros ring Hinv Hl Hf;
    pose proof (rb_used_range _ Hinv) as Hu; cbn [rb_make_room room_drops];
    rewrite (rb_free ring) by done.
  { exists ring. test_lia. rewrite drop_0. repeat split; done || lia. }
  case_test.
  2: { exists ring. repeat split; done || lia. }
  replace (if ring_used ring <? len then ring_used ring else len)
    with (Z.min (ring_used ring) len) by (case_test; lia).
  set (d := Z.min (ring_used ring) len).
  destruct (rb_skip_spec ring d) as (Hi1&Hc1&Hs1&Hu1); [done|lia|].
  destruct (IH (rb_skip ring d)) as (r'&Hr&Hi2&Hc2&Hs2&Hu2); [done|lia..|].
  rewrite Hs1, Hu1 in *.
  destruct (room_drops_spec f (rb_size ring - 1) (ring_used ring - d) len) as [? ?]; [lia..|].
  exists r'. rewrite Hc2, Hc1, drop_drop. repeat split; try done; [f_equal; lia|lia].
Qed.

Lemma rb_push_record_spec ring data len :
  rb_inv ring -> 0 < len <= zlen data -> len <= rb_size ring - 1 ->
  let d := room_drops (Z.to_nat (rb_size ring)) (rb_size ring - 1) (ring_used ring) len in
  exists ring', ring_buffer_push_record (Some ring) (Some data) len = Some (Some ring') /\
    rb_inv ring' /\ rb_size ring' = rb_size ring /\
    rb_contents ring' = drop (Z.to_nat d) (rb_contents ring) ++ take (Z.to_nat len) data.
Proof.
  intros Hinv Hl Hcap. pose proof (rb_size_range _ Hinv) as Hs.
  pose proof (rb_used_range _ Hinv) as Hu.
  unfold ring_buffer_push_record, ring_capacity. rewrite rb_mask by done. test_lia.
  destruct (rb_make_room_spec (Z.to_nat (rb_size ring)) ring len)
    as (r1&Hr&Hi1&Hc1&Hs1&Hu1); [done|lia..|].
  destruct (room_drops_spec (Z.to_nat (rb_size ring)) (rb_size ring - 1) (ring_used ring) len)
    as [? ?]; [lia..|].
  rewrite Hr. cbn [mbind option_bind].
  destruct (rb_fill_spec (Z.to_nat len) data 0 r1) as (r2&Hf&Hi2&Hc2&Hs2); [done|lia..|].
  rewrite Hf. exists r2. split; [done|]. split; [done|]. split; [lia|]. by rewrite Hc2, Hc1.
Qed.

(** The output object after the first [n] cells from [i] on are overwritten by [l]. *)
Definition out_put (out : ptr (list byte)) (i : Z) (l : list byte) : ptr (list byte) :=
  match out with
  | None => None
  | Some o => Some (take (Z.to_nat i) o ++ l ++ drop (Z.to_nat i + length l) o)
  end.

Lemma rb_pop_spec ring out i :
  rb_inv ring -> 0 <= i ->
  (rb_contents ring <> [] -> forall o, out = Some o -> i < zlen o) ->
  match rb_contents ring with
  | [] => ring_buffer_pop ring out i = Some (false, ring, out)
  | x :: l =>
      exists ring', ring_buffer_pop ring out i = Some (true, ring', out_put out i [x]) /\
        rb_inv ring' /\ rb_contents ring' = l /\ rb_size ring' = rb_size ring
  end.
Proof.
  intros Hinv Hi Hout. pose proof (rb_contents_len _ Hinv) as Hl.
  pose proof (rb_used_range _ Hinv) as Hu. pose proof (rb_size_range _ Hinv) as Hs.
  unfold ring_buffer_pop. rewrite rb_empty_iff by done.
  destruct (rb_contents ring) as [|x l] eqn:Hc; unfold zlen in Hl; simpl in Hl.
  { by test_lia. }
  test_lia. destruct (rb_skip_spec ring 1) as (Hi1&Hc1&Hs1&Hu1); [done|lia|].
  exists (rb_skip ring 1). rewrite Hc1, Hc. split; [|done].
  destruct out as [o|]; [|done].
  specialize (Hout ltac:(done) o eq_refl). destruct Hinv as (b&k&Hb&_&_&Hlb&_&?).
  unfold rb_contents in Hc. rewrite Hb in *. cbn [mbind option_bind].
  assert (b !! Z.to_nat (rb_tail ring) = Some x) as Hx.
  { pose proof (rview_lookup b (rb_tail ring) (ring_used ring) 0) as E.
    rewrite Hc in E. simpl in E. rewrite E by lia. do 2 f_equal.
    rewrite Z.add_0_r. symmetry. apply Z.mod_small. lia. }
  rewrite mload_ok, Hx by lia. cbn [mbind option_bind]. rewrite mstore_ok by lia. simpl.
  do 3 f_equal. rewrite insert_take_drop by (unfold zlen in Hout; lia).
  by rewrite Nat.add_1_r.
Qed.

Lemma rb_pop_loop_spec n i ring out :
  rb_inv ring -> 0 <= i -> let k := Nat.min n (length (rb_contents ring)) in
  (forall o, out = Some o -> i + Z.of_nat k <= zlen o) ->
  exists ring', rb_pop_loop n i ring out =
      Some (i + Z.of_nat k, ring', out_put out i (take k (rb_contents ring))) /\
    rb_inv ring' /\ rb_contents ring' = drop k (rb_contents ring) /\ rb_size ring' = rb_size ring.
Proof.
  revert i ring out. induction n as [|n IH]; intros i ring out Hinv Hi k Hout; cbn [rb_pop_loop].
  { exists ring. subst k. simpl. rewrite Z.add_0_r. split; [|done].
    destruct out as [o|]; [|done]. simpl. by rewrite Nat.add_0_r, take_drop. }
  pose proof (rb_pop_spec ring out i Hinv Hi) as Hp.
  destruct (rb_contents ring) as [|x l] eqn:Hc; simpl in k; subst k.
  { rewrite Hp by done.
    cbn [mbind option_bind]. exists ring. simpl. rewrite Z.add_0_r. repeat split; try done.
    destruct out as [o|]; [|done]. simpl. by rewrite Nat.add_0_r, take_drop. }
  destruct Hp as (r1&Hp&Hi1&Hc1&Hs1). { intros _ o Ho. specialize (Hout o Ho). lia. }
  rewrite Hp. cbn [mbind option_bind].
  destruct (IH (i + 1) r1 (out_put out i [x])) as (r2&Hl&Hi2&Hc2&Hs2); [done|lia| |].
  { rewrite Hc1. intros o Ho. destruct out as [o0|]; [|done]. specialize (Hout o0 eq_refl).
    injection Ho as <-. unfold zlen in *. rewrite length_app, length_take. simpl. rewrite length_drop. lia. }
  exists r2. rewrite Hl, Hc2, Hc1. split; [|split; [done|split; [done|congruence]]].
  f_equal. f_equal; [f_equal; lia|].
  destruct out as [o|]; [|done]. specialize (Hout o eq_refl). unfold zlen in Hout. simpl. f_equal.
  assert (length (take (Nat.min n (length l)) l) = Nat.min n (length l)) as Lt
    by (rewrite length_take; lia).
  rewrite (cons_middle x).
  rewrite (app_assoc (take (Z.to_nat i) o) [x]).
  replace (Z.to_nat (i + 1)) with (Z.to_nat i + 1)%nat by lia.
  assert (length (take (Z.to_nat i) o ++ [x]) = Z.to_nat i + 1)%nat as Lp
    by (rewrite length_app, length_take; simpl; lia).
  rewrite take_app_length' by done. rewrite drop_app_ge by lia. rewrite drop_drop.
  rewrite <- app_assoc. simpl. do 4 f_equal. lia.
Qed.
End Defs.
End RingBuffer.

(** ** [ring_queue_t] *)
Module RingQueue.

Record ring_queue_t := {
  q_buf : ptr (list byte);
  q_elem_size : Z;
  q_cap : Z;
  q_head : Z;
  q_count : Z
}.

Section Defs.
Context `{Arch}.

(** [q_ok] and [buf] are what [calloc(1, sizeof( *q))] and [calloc(cap, elem_size)] answer. *)
Definition ring_queue_create (elem_size cap : Z) (q_ok : bool) (buf : ptr (list byte))
  : ptr ring_queue_t :=
  if (elem_size =? 0) || (cap =? 0) then None
  else if SIZE_MAX / elem_size <? cap then None
  else if negb q_ok then None
  else match buf with
       | None => None
       | Some b => Some {| q_buf := Some b; q_elem_size := elem_size; q_cap := cap;
                           q_head := 0; q_count := 0 |}
       end.

Definition ring_queue_count (q : ptr ring_queue_t) : Z :=
  match q with Some r => q_count r | None => 0 end.

Definition ring_queue_capacity (q : ptr ring_queue_t) : Z :=
  match q with Some r => q_cap r | None => 0 end.

Definition set_buf_count (r : ring_queue_t) (b : list byte) (count : Z) : ring_queue_t :=
  {| q_buf := Some b; q_elem_size := q_elem_size r; q_cap := q_cap r;
     q_head := q_head r; q_count := count |}.

Definition ring_queue_push (q : ptr ring_queue_t) (item : ptr (list byte))
  : option (bool * ptr ring_queue_t) :=
  match q, item with
  | Some r, Some it =>
      match q_buf r with
      | None => Some (false, q)
      | Some b =>
          if q_cap r <=? q_count r then Some (false, q)
          else
            let tail := wrap (q_head r + q_count r) mod q_cap r in
            b' ← memcpy b (wrap (tail * q_elem_size r)) it 0 (q_elem_size r);
            Some (true, Some (set_buf_count r b' (wrap (q_count r + 1))))
      end
  | _, _ => Some (false, q)
  end.

(** [q->head = (q->head + 1) % q->cap; q->count--;] *)
Definition rq_advance (r : ring_queue_t) : ring_queue_t :=
  {| q_buf := q_buf r; q_elem_size := q_elem_size r; q_cap := q_cap r;
     q_head := wrap (q_head r + 1) mod q_cap r; q_count := wrap (q_count r - 1) |}.

Definition ring_queue_pop (q : ptr ring_queue_t) (out : ptr (list byte))
  : option (bool * ptr ring_queue_t * ptr (list byte)) :=
  match q with
  | None => Some (false, q, out)
  | Some r =>
      match q_buf r with
      | None => Some (false, q, out)
      | Some b =>
          if q_count r =? 0 then Some (false, q, out)
          else
            out' ← match out with
                   | None => Some None
                   | Some o =>
                       o' ← memcpy o 0 b (wrap (q_head r * q_elem_size r)) (q_elem_size r);
                       Some (Some o')
                   end;
            Some (true, Some (rq_advance r), out')
      end
  end.

Definition ring_queue_drop_head (q : ptr ring_queue_t) : ptr ring_queue_t :=
  match q with
  | None => None
  | Some r => if q_count r =? 0 then q else Some (rq_advance r)
  end.

(** Byte offset in the buffer of element [i] of the queue. *)
Definition rq_offset (r : ring_queue_t) (i : Z) : Z :=
  wrap (wrap (q_head r + i) mod q_cap r * q_elem_size r).

(** The pointer [ring_queue_at] answers, as an offset from [q->buf]. *)
Definition ring_queue_at (q : ptr ring_queue_t) (i : Z) : ptr Z :=
  match q with
  | None => None
  | Some r =>
      match q_buf r with
      | None => None
      | Some _ => if q_count r <=? i then None else Some (rq_offset r i)
      end
  end.

(** [for (j = i; j + 1 < q->count; j++)]; [n] is [count - 1 - j]. *)
Fixpoint rq_shift (n : nat) (r : ring_queue_t) (j : Z) (b : list byte) : option (list byte) :=
  match n with
  | O => Some b
  | S n' =>
      b' ← memcpy b (rq_offset r j) b (rq_offset r (j + 1)) (q_elem_size r);
      rq_shift n' r (j + 1) b'
  end.

Definition ring_queue_remove_at (q : ptr ring_queue_t) (i : Z) : option (bool * ptr ring_queue_t) :=
  match q with
  | None => Some (false, q)
  | Some r =>
      match q_buf r with
      | None => Some (false, q)
      | Some b =>
          if q_count r <=? i then Some (false, q)
          else
            b' ← rq_shift (Z.to_nat (q_count r - 1 - i)) r i b;
            Some (true, Some (set_buf_count r b' (wrap (q_count r - 1))))
      end
  end.

Definition ring_queue_clear (q : ptr ring_queue_t) : ptr ring_queue_t :=
  match q with
  | None => None
  | Some r => Some {| q_buf := q_buf r; q_elem_size := q_elem_size r; q_cap := q_cap r;
                      q_head := 0; q_count := 0 |}
  end.

(** The copy loop of [ring_queue_reserve]: [n] elements from number [i] on. *)
Fixpoint rq_copy (n : nat) (i : Z) (r : ring_queue_t) (old new : list byte) : option (list byte) :=
  match n with
  | O => Some new
  | S n' =>
      new' ← memcpy new (wrap (i * q_elem_size r)) old (rq_offset r i) (q_elem_size r);
      rq_copy n' (i + 1) r old new'
  end.

(** The capacity [ring_queue_reserve] grows to. *)
Definition rq_new_cap (cap needed : Z) : Z :=
  let new_cap := if negb (cap =? 0) && (cap <=? SIZE_MAX / 2) then wrap (cap * 2) else needed in
  if new_cap <? needed then needed else new_cap.

(** [new_buf] is what [malloc(new_cap * elem_size)] answers. *)
Definition ring_queue_reserve (q : ptr ring_queue_t) (needed : Z) (new_buf : ptr (list byte))
  : option (bool * ptr ring_queue_t) :=
  match q with
  | None => Some (false, q)
  | Some r =>
      if q_elem_size r =? 0 then Some (false, q)
      else if needed <=? q_cap r then Some (true, q)
      else
        let new_cap := rq_new_cap (q_cap r) needed in
        if SIZE_MAX / q_elem_size r <? new_cap then Some (false, q)
        else
          match new_buf with
          | None => Some (false, q)
          | Some nb =>
              nb' ← match q_buf r with
                    | Some b =>
                        if (q_count r =? 0) || (q_cap r =? 0) then Some nb
                        else rq_copy (Z.to_nat (q_count r)) 0 r b nb
                    | None => Some nb
                    end;
              Some (true, Some {| q_buf := Some nb'; q_elem_size := q_elem_size r;
                                  q_cap := new_cap; q_head := 0; q_count := q_count r |})
          end
  end.

(** The elements of the queue, oldest first. *)
Definition rq_slots (r : ring_queue_t) (b : list byte) : list (list byte) :=
  slots (Z.to_nat (q_elem_size r)) (Z.to_nat (q_cap r)) b.

Definition rq_contents (r : ring_queue_t) : list (list byte) :=
  match q_buf r with
  | Some b => rview (rq_slots r b) (q_head r) (q_count r)
  | None => []
  end.

Definition rq_inv (r : ring_queue_t) : Prop :=
  exists b, q_buf r = Some b /\ 0 < q_elem_size r /\ 0 < q_cap r /\
    zlen b = q_cap r * q_elem_size r /\ 2 * (q_cap r * q_elem_size r) <= SIZE_MOD /\
    0 <= q_head r < q_cap r /\ 0 <= q_count r <= q_cap r.

(** ** Lemmas *)

Lemma rq_slots_len r b : 0 <= q_cap r -> zlen (rq_slots r b) = q_cap r.
Proof. intros. unfold zlen, rq_slots. rewrite slots_length. lia. Qed.

Lemma rq_contents_len r : rq_inv r -> zlen (rq_contents r) = q_count r.
Proof.
  intros (b&Hb&He&Hc&Hl&Hm&Hh&Hn). unfold rq_contents. rewrite Hb.
  apply rview_length; rewrite ?rq_slots_len; lia.
Qed.

(** Offsets do not wrap around and fall on element boundaries. *)
Lemma rq_offset_spec r i :
  rq_inv r -> 0 <= i < q_cap r ->
  let k := Z.to_nat ((q_head r + i) mod q_cap r) in
  rq_offset r i = Z.of_nat (k * Z.to_nat (q_elem_size r)) /\ (k < Z.to_nat (q_cap r))%nat.
Proof.
  intros (b&_&He&Hc&_&Hm&Hh&_) Hi k. unfold rq_offset.
  pose proof (Z.mod_pos_bound (q_head r + i) (q_cap r) ltac:(lia)) as Hk.
  rewrite (wrap_small (q_head r + i)) by nia. subst k. split; [|lia].
  rewrite wrap_small by nia. rewrite Nat2Z.inj_mul, !Z2Nat.id by lia. done.
Qed.

Lemma rq_elem_read r b i :
  rq_inv r -> zlen b = q_cap r * q_elem_size r -> 0 <= i < q_cap r ->
  exists e, mread b (rq_offset r i) (q_elem_size r) = Some e /\ zlen e = q_elem_size r /\
    rq_slots r b !! Z.to_nat ((q_head r + i) mod q_cap r) = Some e.
Proof.
  intros Hinv Hl Hi. destruct (rq_offset_spec r i Hinv Hi) as [-> Hk].
  destruct Hinv as (b'&Hb'&He&Hc&_&Hm&Hh&Hn).
  set (k := Z.to_nat ((q_head r + i) mod q_cap r)) in *.
  assert (length b = (Z.to_nat (q_cap r) * Z.to_nat (q_elem_size r))%nat) as Lb
    by (unfold zlen in Hl; nia).
  exists (slot (Z.to_nat (q_elem_size r)) b k). split; [|split].
  - rewrite <- (Z2Nat.id (q_elem_size r)) at 2 by lia. by apply (slot_read _ (Z.to_nat (q_cap r))).
  - unfold zlen. rewrite (slot_length _ (Z.to_nat (q_cap r))) by done. lia.
  - by apply slots_lookup.
Qed.

Lemma rq_elem_write r b i it :
  rq_inv r -> zlen b = q_cap r * q_elem_size r -> 0 <= i < q_cap r -> zlen it = q_elem_size r ->
  exists b', mwrite b (rq_offset r i) it = Some b' /\ zlen b' = zlen b /\
    rq_slots r b' = <[Z.to_nat ((q_head r + i) mod q_cap r) := it]> (rq_slots r b).
Proof.
  intros Hinv Hl Hi Hit. destruct (rq_offset_spec r i Hinv Hi) as [-> Hk].
  destruct Hinv as (b'&_&He&Hc&_&_&_&_).
  destruct (slots_write_ok (Z.to_nat (q_elem_size r)) (Z.to_nat (q_cap r)) b
    (Z.to_nat ((q_head r + i) mod q_cap r)) it) as (b1&Hw&Hl1&Hs1);
    [unfold zlen in *; nia|done|unfold zlen in *; lia|].
  exists b1. split; [done|]. split; [unfold zlen; lia|done].
Qed.

Lemma rq_push_spec r item :
  rq_inv r -> zlen item = q_elem_size r ->
  if q_count r <? q_cap r
  then exists r', ring_queue_push (Some r) (Some item) = Some (true, Some r') /\ rq_inv r' /\
         rq_contents r' = rq_contents r ++ [item] /\ q_cap r' = q_cap r /\
         q_elem_size r' = q_elem_size r
  else ring_queue_push (Some r) (Some item) = Some (false, Some r).
Proof.
  intros Hinv Hit. destruct (id Hinv) as (b&Hb&He&Hc&Hl&Hm&Hh&Hn).
  unfold ring_queue_push. rewrite Hb. case_test; test_lia; [|done].
  fold (rq_offset r (q_count r)).
  destruct (rq_elem_write r b (q_count r) item) as (b'&Hw&Hl'&Hs'); [done|lia..|].
  unfold memcpy. rewrite mread_ok by lia. cbn [mbind option_bind]. change (Z.to_nat 0) with 0%nat. rewrite drop_0.
  rewrite take_ge by (unfold zlen in Hit; lia). rewrite Hw. simpl.
  rewrite (wrap_small (q_count r + 1)) by nia.
  eexists. split; [reflexivity|]. split; [|split; [|done]].
  - exists b'. simpl. repeat split; lia.
  - unfold rq_contents. rewrite Hb. simpl. unfold rq_slots in *. simpl. rewrite Hs'.
    rewrite <- (rq_slots_len r b) at 1 by lia.
    apply rview_snoc; fold (rq_slots r b); rewrite rq_slots_len; lia.
Qed.

Lemma rq_advance_spec r :
  rq_inv r -> 0 < q_count r ->
  rq_inv (rq_advance r) /\ rq_contents (rq_advance r) = drop 1 (rq_contents r).
Proof.
  intros Hinv Hpos. destruct (id Hinv) as (b&Hb&He&Hc&Hl&Hm&Hh&Hn).
  unfold rq_advance, rq_contents, rq_inv. simpl. rewrite Hb.
  rewrite (wrap_small (q_head r + 1)), (wrap_small (q_count r - 1)) by nia.
  pose proof (Z.mod_pos_bound (q_head r + 1) (q_cap r) ltac:(lia)).
  split; [exists b; repeat split; lia|].
  unfold rq_slots. simpl. fold (rq_slots r b). rewrite <- (rq_slots_len r b) at 1 by lia.
  rewrite rview_drop by (rewrite ?rq_slots_len; lia). done.
Qed.

Lemma rq_head_elem r b :
  rq_inv r -> q_buf r = Some b -> 0 < q_count r ->
  exists e, mread b (wrap (q_head r * q_elem_size r)) (q_elem_size r) = Some e /\
    zlen e = q_elem_size r /\ head (rq_contents r) = Some e.
Proof.
  intros Hinv Hb Hpos. destruct (id Hinv) as (b'&Hb'&He&Hc&Hl&Hm&Hh&Hn).
  assert (b' = b) as -> by congruence.
  destruct (rq_elem_read r b 0) as (e&Hr&Hle&Hs); [done..|lia|].
  assert (rq_offset r 0 = wrap (q_head r * q_elem_size r)) as Ho.
  { unfold rq_offset. rewrite Z.add_0_r, (wrap_small (q_head r)) by nia.
    by rewrite Z.mod_small by lia. }
  exists e. rewrite <- Ho. split; [done|]. split; [done|].
  rewrite head_lookup. unfold rq_contents. rewrite Hb.
  rewrite rview_lookup by (rewrite ?rq_slots_len; lia). by rewrite rq_slots_len by lia.
Qed.

Lemma rq_pop_spec r o :
  rq_inv r -> q_elem_size r <= zlen o ->
  match rq_contents r with
  | [] => ring_queue_pop (Some r) (Some o) = Some (false, Some r, Some o)
  | e :: l =>
      exists r', ring_queue_pop (Some r) (Some o) =
          Some (true, Some r', Some (e ++ drop (Z.to_nat (q_elem_size r)) o)) /\
        rq_inv r' /\ rq_contents r' = l
  end.
Proof.
  intros Hinv Ho. pose proof (rq_contents_len _ Hinv) as Hl.
  destruct (id Hinv) as (b&Hb&He&Hc&Hlb&Hm&Hh&Hn).
  unfold ring_queue_pop. rewrite Hb.
  destruct (Z.eqb_spec (q_count r) 0) as [E|E].
  { destruct (rq_contents r); [done|]. unfold zlen in Hl. simpl in Hl. lia. }
  destruct (rq_head_elem r b) as (e&Hr&Hle&Hhd); [done..|lia|].
  destruct (rq_advance_spec r) as [Hi' Hc']; [done|lia|].
  destruct (rq_contents r) as [|e' l]; [done|]. simpl in Hhd. simplify_eq.
  exists (rq_advance r). split; [|done].
  unfold memcpy. rewrite Hr. simpl. rewrite mwrite_ok by lia. simpl.
  do 5 f_equal. unfold zlen in Hle. lia.
Qed.

Lemma rq_at_spec r i :
  rq_inv r -> 0 <= i ->
  match ring_queue_at (Some r) i with
  | Some off => exists b e, q_buf r = Some b /\ mread b off (q_elem_size r) = Some e /\
                  rq_contents r !! Z.to_nat i = Some e
  | None => q_count r <= i
  end.
Proof.
  intros Hinv Hi. destruct (id Hinv) as (b&Hb&He&Hc&Hlb&Hm&Hh&Hn).
  unfold ring_queue_at. rewrite Hb. case_test; [done|].
  destruct (rq_elem_read r b i) as (e&Hr&Hle&Hs); [done..|lia|].
  exists b, e. split; [done|]. split; [done|].
  unfold rq_contents. rewrite Hb. rewrite rview_lookup by (rewrite ?rq_slots_len; lia).
  by rewrite rq_slots_len, Z2Nat.id by lia.
Qed.

(** The window over the whole buffer, used or not. *)
Definition rq_full (r : ring_queue_t) (b : list byte) : list (list byte) :=
  rview (rq_slots r b) (q_head r) (q_cap r).

Lemma rq_full_read r b i :
  rq_inv r -> zlen b = q_cap r * q_elem_size r -> 0 <= i < q_cap r ->
  exists e, mread b (rq_offset r i) (q_elem_size r) = Some e /\ zlen e = q_elem_size r /\
    rq_full r b !! Z.to_nat i = Some e.
Proof.
  intros Hinv Hl Hi. destruct (rq_elem_read r b i) as (e&Hr&He&Hs); [done..|].
  destruct Hinv as (b'&_&_&Hc&_&_&Hh&_).
  exists e. split; [done|]. split; [done|].
  unfold rq_full. rewrite rview_lookup by (rewrite ?rq_slots_len; lia).
  by rewrite rq_slots_len, Z2Nat.id by lia.
Qed.

Lemma rq_full_write r b i it :
  rq_inv r -> zlen b = q_cap r * q_elem_size r -> 0 <= i < q_cap r -> zlen it = q_elem_size r ->
  exists b', mwrite b (rq_offset r i) it = Some b' /\ zlen b' = zlen b /\
    rq_full r b' = <[Z.to_nat i := it]> (rq_full r b).
Proof.
  intros Hinv Hl Hi Hit. destruct (rq_elem_write r b i it) as (b'&Hw&Hl'&Hs); [done..|].
  destruct Hinv as (b0&_&_&Hc&_&_&Hh&_).
  exists b'. split; [done|]. split; [done|].
  unfold rq_full. rewrite Hs, <- (rq_slots_len r b) by lia.
  apply rview_insert_in; rewrite ?rq_slots_len; lia.
Qed.

Lemma rq_full_len r b : rq_inv r -> zlen (rq_full r b) = q_cap r.
Proof.
  intros (b'&_&_&Hc&_&_&Hh&_). apply rview_length; rewrite ?rq_slots_len; lia.
Qed.

Lemma rq_contents_full r b :
  rq_inv r -> q_buf r = Some b -> rq_contents r = take (Z.to_nat (q_count r)) (rq_full r b).
Proof.
  intros (b'&_&_&Hc&_&_&Hh&Hn) Hb. unfold rq_contents. rewrite Hb. by apply rview_take.
Qed.

(** The shift loop moves the [n] elements after [j] down by one. *)
Lemma rq_shift_spec n r j b :
  rq_inv r -> zlen b = q_cap r * q_elem_size r -> 0 <= j -> j + Z.of_nat n < q_cap r ->
  exists b', rq_shift n r j b = Some b' /\ zlen b' = zlen b /\
    forall i : nat, rq_full r b' !! i =
      if decide (Z.to_nat j <= i < Z.to_nat j + n)%nat then rq_full r b !! S i
      else rq_full r b !! i.
Proof.
  revert j b. induction n as [|n IH]; intros j b Hinv Hl Hj Hjn; cbn [rq_shift].
  { exists b. repeat split; try done. intros i. rewrite decide_False by lia. done. }
  destruct (rq_full_read r b (j + 1)) as (e&Hr&He&Hs); [done|done|lia|].
  destruct (rq_full_write r b j e) as (b1&Hw&Hl1&Hf1); [done|done|lia|done|].
  unfold memcpy. rewrite Hr. cbn [mbind option_bind]. rewrite Hw. cbn [mbind option_bind].
  destruct (IH (j + 1) b1) as (b2&Hb2&Hl2&Hf2); [done|lia..|].
  exists b2. split; [done|]. split; [lia|]. intros i. rewrite Hf2, Hf1.
  pose proof (rq_full_len r b Hinv) as Lf. unfold zlen in Lf.
  destruct (decide (i = Z.to_nat j)) as [->|Hne].
  - rewrite decide_False, decide_True by lia.
    rewrite list_lookup_insert_eq by lia. rewrite <- Hs. f_equal. lia.
  - repeat case_decide; try lia; by rewrite list_lookup_insert_ne by lia.
Qed.

Lemma rq_remove_at_spec r i :
  rq_inv r -> 0 <= i ->
  if i <? q_count r
  then exists r', ring_queue_remove_at (Some r) i = Some (true, Some r') /\ rq_inv r' /\
         rq_contents r' = take (Z.to_nat i) (rq_contents r) ++ drop (S (Z.to_nat i)) (rq_contents r)
  else ring_queue_remove_at (Some r) i = Some (false, Some r).
Proof.
  intros Hinv Hi. destruct (id Hinv) as (b&Hb&He&Hc&Hlb&Hm&Hh&Hn).
  unfold ring_queue_remove_at. rewrite Hb. case_test; test_lia; [|done].
  destruct (rq_shift_spec (Z.to_nat (q_count r - 1 - i)) r i b) as (b'&Hs&Hl'&Hf);
    [done|lia..|].
  rewrite Hs. cbn [mbind option_bind]. rewrite wrap_small by nia.
  set (r' := set_buf_count r b' (q_count r - 1)).
  assert (rq_inv r') as Hinv' by (exists b'; simpl; repeat split; lia).
  exists r'. split; [done|]. split; [done|].
  rewrite (rq_contents_full r' b'), (rq_contents_full r b) by done. simpl.
  change (rq_full r' b') with (rq_full r b').
  pose proof (rq_full_len r b Hinv) as Lf. unfold zlen in Lf.
  apply list_eq. intros k. destruct (decide (k < Z.to_nat (q_count r - 1))%nat).
  - rewrite lookup_take_lt, Hf by lia. case_decide.
    + rewrite lookup_app_r by (rewrite length_take, length_take; lia).
      rewrite lookup_drop, lookup_take_lt by (rewrite ?length_take; lia).
      f_equal. rewrite !length_take. lia.
    + rewrite lookup_app_l by (rewrite length_take, length_take; lia).
      by rewrite !lookup_take_lt by lia.
  - rewrite !lookup_ge_None_2; [done| |]; repeat rewrite ?length_app, ?length_take, ?length_drop; lia.
Qed.

Lemma rq_copy_spec n i r old new (ncap : nat) :
  rq_inv r -> q_buf r = Some old -> 0 <= i -> i + Z.of_nat n <= q_count r ->
  let es := Z.to_nat (q_elem_size r) in
  zlen new = Z.of_nat ncap * q_elem_size r -> zlen new < SIZE_MOD ->
  q_cap r <= Z.of_nat ncap ->
  exists new', rq_copy n i r old new = Some new' /\ zlen new' = zlen new /\
    forall k, slots es ncap new' !! k =
      if decide (Z.to_nat i <= k < Z.to_nat i + n)%nat then rq_contents r !! k
      else slots es ncap new !! k.
Proof.
  intros Hinv Hb Hi Hin es. destruct (id Hinv) as (b&Hb'&He&Hc&Hlb&Hm&Hh&Hn).
  assert (b = old) as -> by congruence.
  revert i Hi Hin new. induction n as [|n IH]; intros i Hi Hin new Hl Hmax Hcap; cbn [rq_copy].
  { exists new. repeat split; try done. intros. rewrite decide_False by lia. done. }
  destruct (rq_full_read r old i) as (e&Hr&Hel&Hs); [done|done|lia|].
  unfold memcpy. rewrite Hr. cbn [mbind option_bind]. rewrite wrap_small by nia.
  destruct (slots_write_ok es ncap new (Z.to_nat i) e) as (n1&Hw&Hl1&Hs1);
    [unfold zlen, es in *; nia|lia|unfold zlen, es in *; lia|].
  replace (i * q_elem_size r) with (Z.of_nat (Z.to_nat i * es)) by (unfold es; nia).
  rewrite Hw. cbn [mbind option_bind].
  destruct (IH (i + 1)) with (new := n1) as (n2&Hn2&Hl2&Hf2); [lia..| | |lia|];
    [unfold zlen in *; lia..|].
  exists n2. split; [done|]. split; [unfold zlen in *; lia|].
  intros k. rewrite Hf2, Hs1. rewrite (rq_contents_full r old) by done.
  destruct (decide (k = Z.to_nat i)) as [->|Hne].
  - rewrite decide_False, decide_True by lia.
    rewrite list_lookup_insert_eq by (rewrite slots_length; lia).
    by rewrite lookup_take_lt by lia.
  - rewrite list_lookup_insert_ne by done. repeat case_decide; done || lia.
Qed.

Lemma rq_new_cap_spec cap needed :
  0 <= cap < needed -> needed < SIZE_MOD ->
  needed <= rq_new_cap cap needed < SIZE_MOD /\
  (0 < cap -> 2 * needed <= SIZE_MOD -> rq_new_cap cap needed = Z.max needed (2 * cap)).
Proof.
  intros Hc Hn. unfold rq_new_cap, SIZE_MAX.
  assert (forall x, x <= (SIZE_MOD - 1) / 2 -> x * 2 < SIZE_MOD) as Hhalf.
  { intros x Hx. pose proof (Z.mul_div_le (SIZE_MOD - 1) 2 ltac:(lia)). lia. }
  destruct (negb (cap =? 0) && (cap <=? (SIZE_MOD - 1) / 2)) eqn:E.
  - apply andb_true_iff in E as [_ E%Z.leb_le]. specialize (Hhalf _ E).
    rewrite wrap_small by lia. case_test; lia.
  - rewrite Z.ltb_irrefl. split; [lia|]. intros Hpos H2.
    apply andb_false_iff in E as [E|E]; bool_facts; [lia|].
    pose proof (Z.div_le_lower_bound (SIZE_MOD - 1) 2 cap). lia.
Qed.

Lemma rq_reserve_spec r needed nb :
  rq_inv r -> q_cap r < needed -> needed < SIZE_MOD ->
  let ncap := rq_new_cap (q_cap r) needed in
  zlen nb = ncap * q_elem_size r -> 2 * zlen nb <= SIZE_MOD ->
  exists r', ring_queue_reserve (Some r) needed (Some nb) = Some (true, Some r') /\ rq_inv r' /\
    rq_contents r' = rq_contents r /\ q_cap r' = ncap.
Proof.
  intros Hinv Hc0 Hnd ncap Hl Hm2. destruct (id Hinv) as (b&Hb&He&Hc&Hlb&Hm&Hh&Hn).
  destruct (rq_new_cap_spec (q_cap r) needed) as [Hnc _]; [lia..|].
  unfold ring_queue_reserve. fold ncap. fold ncap in Hnc. clearbody ncap. rewrite Hb. test_lia.
  rewrite (proj2 (Z.ltb_ge _ _)).
  2: { apply Z.div_le_lower_bound; [done|]. unfold SIZE_MAX. nia. }
  destruct (rq_copy_spec (Z.to_nat (q_count r)) 0 r b nb (Z.to_nat ncap))
    as (nb'&Hcp&Hl'&Hf); [done..|lia|lia|nia|nia|lia|].
  assert (exists nb2, (if (q_count r =? 0) || false then Some nb
            else rq_copy (Z.to_nat (q_count r)) 0 r b nb) = Some nb2 /\ zlen nb2 = zlen nb /\
          forall k, (k < Z.to_nat (q_count r))%nat ->
            slots (Z.to_nat (q_elem_size r)) (Z.to_nat ncap) nb2 !! k = rq_contents r !! k)
    as (nb2&->&Hl2&Hf2).
  { case_test.
    - exists nb. repeat split; try done. intros k Hk. apply orb_true_iff in E as [E|E]; bool_facts; lia.
    - exists nb'. repeat split; try done. intros k Hk. rewrite Hf, decide_True by lia. done. }
  cbn [mbind option_bind]. eexists. split; [reflexivity|].
  split; [|split; [|done]].
  - exists nb2. simpl. repeat split; nia || lia.
  - pose proof (rq_contents_len _ Hinv) as Hcl.
    unfold rq_contents at 1. unfold rq_slots. simpl.
    set (sl := slots _ _ nb2) in *.
    assert (zlen sl = ncap) as Lsl by (unfold zlen, sl; rewrite slots_length; lia).
    apply rview_ext; [lia|lia|done|].
    intros i Hi. rewrite Lsl, Z.mod_small by lia. rewrite Z.add_0_l, Nat2Z.id. by rewrite Hf2.
Qed.
End Defs.
End RingQueue.

(** ** Theorems *)

(** The byte FIFO a [ring_io_t] promises to its clients (pipes, terminals): a sequence of at
    most [cap] bytes, read from the front and extended at the back. *)
Inductive io_op :=
  | IoRead (len : nat)
  | IoWrite (bytes : list byte).

(** What the caller sees: the bytes delivered and the count returned. *)
Definition fifo_step (cap : nat) (l : list byte) (op : io_op) : (list byte * Z) * list byte :=
  match op with
  | IoRead len => ((take len l, Z.of_nat (Nat.min len (length l))), drop len l)
  | IoWrite bs =>
      let n := Nat.min (length bs) (cap - length l) in
      (([], Z.of_nat n), l ++ take n bs)
  end.

Fixpoint fifo_run (cap : nat) (l : list byte) (ops : list io_op) : list (list byte * Z) * list byte :=
  match ops with
  | [] => ([], l)
  | op :: ops' =>
      let '(o, l1) := fifo_step cap l op in
      let '(os, l2) := fifo_run cap l1 ops' in (o :: os, l2)
  end.

Section IoRun.
Context `{Arch}.
Import RingIo.

(** The same operations on the C ring; a read is given a zeroed output buffer. *)
Definition io_step (r : ring_io_t) (op : io_op) : option ((list byte * Z) * ring_io_t) :=
  match op with
  | IoRead len =>
      '(n, r', out) ← ring_io_read (Some r) (Some (replicate len x00)) (Z.of_nat len);
      r'' ← r'; o ← out; Some ((take (Z.to_nat n) o, n), r'')
  | IoWrite bs =>
      '(n, r') ← ring_io_write (Some r) (Some bs) (zlen bs);
      r'' ← r'; Some (([], n), r'')
  end.

Fixpoint io_run (r : ring_io_t) (ops : list io_op) : option (list (list byte * Z) * ring_io_t) :=
  match ops with
  | [] => Some ([], r)
  | op :: ops' =>
      '(o, r1) ← io_step r op; '(os, r2) ← io_run r1 ops'; Some (o :: os, r2)
  end.

(** Operand sizes fit in [size_t]. *)
Definition op_ok (op : io_op) : Prop :=
  match op with
  | IoRead len => Z.of_nat len < SIZE_MOD
  | IoWrite bs => zlen bs < SIZE_MOD
  end.

Lemma io_step_sim r op :
  io_inv r -> op_ok op ->
  exists r', io_step r op =
      Some (fst (fifo_step (Z.to_nat (io_capacity r)) (io_contents r) op), r') /\
    io_inv r' /\ io_contents r' = snd (fifo_step (Z.to_nat (io_capacity r)) (io_contents r) op) /\
    io_capacity r' = io_capacity r.
Proof.
  intros Hinv Hop. pose proof (io_contents_len r Hinv) as Hl. unfold zlen in Hl.
  destruct (id Hinv) as (data&_&_&?&?&_&?&_).
  destruct op as [len|bs]; simpl in Hop.
  - destruct (io_read_spec r (replicate len x00) (Z.of_nat len)) as (r'&Hr&Hi'&Hc'&Hcap');
      [done|lia|unfold zlen; rewrite length_replicate; lia|].
    exists r'. unfold io_step. rewrite Hr. cbn [mbind option_bind fifo_step fst snd].
    replace (Z.to_nat (Z.of_nat len `min` io_size r)) with (Nat.min len (length (io_contents r))) in * by lia.
    split; [|split; [done|split; [|done]]].
    + do 3 f_equal; [|lia].
      rewrite take_app_length' by (rewrite length_take; lia).
      destruct (decide (len <= length (io_contents r))%nat); [by rewrite Nat.min_l by lia|].
      by rewrite !take_ge by lia.
    + rewrite Hc'. destruct (decide (len <= length (io_contents r))%nat); [by rewrite Nat.min_l by lia|].
      by rewrite !drop_ge by lia.
  - destruct (io_write_spec r bs (zlen bs)) as (r'&Hr&Hi'&Hc'&Hcap'); [done|unfold zlen in *; lia|lia|].
    exists r'. unfold io_step. rewrite Hr. cbn [mbind option_bind fifo_step fst snd].
    unfold zlen in *. split; [do 3 f_equal; lia|]. split; [done|]. split; [|done].
    rewrite Hc'. do 2 f_equal. lia.
Qed.

(** C36: Any sequence of reads and writes on a well-formed [ring_io_t] runs without an
    out-of-bounds access and returns to its callers exactly what a bounded FIFO of bytes
    returns: the counts, the bytes and the final contents agree. *)
Theorem ring_io_refines_fifo (r : ring_io_t) (ops : list io_op) :
  io_inv r -> Forall op_ok ops ->
  exists r', io_run r ops = Some (fst (fifo_run (Z.to_nat (io_capacity r)) (io_contents r) ops), r') /\
    io_inv r' /\ io_contents r' = snd (fifo_run (Z.to_nat (io_capacity r)) (io_contents r) ops).
Proof.
  intros Hinv Hops. revert r Hinv. induction Hops as [|op ops Hop _ IH]; intros r Hinv; cbn [io_run fifo_run].
  { exists r. done. }
  destruct (io_step_sim r op Hinv Hop) as (r1&Hs&Hi1&Hc1&Hcap1).
  rewrite Hs. cbn [mbind option_bind].
  destruct (IH r1 Hi1) as (r2&Hr2&Hi2&Hc2). rewrite Hr2. cbn [mbind option_bind].
  rewrite Hc1, Hcap1 in *.
  destruct (fifo_step _ _ op) as [o l1]. cbn [fst snd] in *.
  destruct (fifo_run _ l1 ops) as [os l2]. cbn [fst snd] in *. eauto.
Qed.
End IoRun.

Definition io_demo : RingIo.ring_io_t :=
  {| RingIo.io_data := Some (replicate 4 x00); RingIo.io_capacity := 4; RingIo.io_read_pos := 3;
     RingIo.io_write_pos := 3; RingIo.io_size := 0 |}.

Lemma io_demo_inv : @RingIo.io_inv arch64 io_demo.
Proof. exists (replicate 4 x00). vm_compute. intuition congruence. Defined.

Lemma ring_io_refines_fifo_witness :
  exists r', @io_run arch64 io_demo [IoWrite [x61; x62; x63; x64; x65]; IoRead 2; IoWrite [x66]; IoRead 9]
    = Some ([([], 4); ([x61; x62], 2); ([], 1); ([x63; x64; x66], 3)], r') /\
    RingIo.io_contents r' = [].
Proof.
  destruct (@ring_io_refines_fifo arch64 io_demo
    [IoWrite [x61; x62; x63; x64; x65]; IoRead 2; IoWrite [x66]; IoRead 9]) as (r'&Hr&_&Hc).
  - exact io_demo_inv.
  - repeat constructor.
  - exists r'. split; [exact Hr|exact Hc].
Defined.

Section LogRun.
Context `{Arch}.
Import RingBuffer.

Inductive log_op :=
  | LogByte (b : byte)
  | LogArray (bs : list byte).

Definition log_bytes (op : log_op) : list byte :=
  match op with LogByte b => [b] | LogArray bs => bs end.

Definition log_step (r : ring_buffer_t) (op : log_op) : option ring_buffer_t :=
  match op with
  | LogByte b => ring_buffer_push r b
  | LogArray bs => r' ← ring_buffer_push_array (Some r) (Some bs) (zlen bs); r'
  end.

Fixpoint log_run (r : ring_buffer_t) (ops : list log_op) : option ring_buffer_t :=
  match ops with
  | [] => Some r
  | op :: ops' => r1 ← log_step r op; log_run r1 ops'
  end.

Lemma lastn_lastn {A} n (a b : list A) : lastn n (lastn n a ++ b) = lastn n (a ++ b).
Proof.
  unfold lastn. rewrite !length_app, length_drop.
  destruct (decide (n <= length b)%nat).
  - rewrite !drop_app_ge by (rewrite ?length_drop; lia). rewrite length_drop. f_equal. lia.
  - rewrite !drop_app_le by (rewrite ?length_drop; lia). rewrite drop_drop. do 2 f_equal. lia.
Qed.

Lemma log_step_spec r op :
  rb_inv r -> zlen (log_bytes op) < SIZE_MOD ->
  exists r', log_step r op = Some r' /\ rb_inv r' /\ rb_size r' = rb_size r /\
    rb_contents r' = lastn (Z.to_nat (rb_size r - 1)) (rb_contents r ++ log_bytes op).
Proof.
  intros Hinv Hlen. destruct op as [b|bs]; cbn [log_step log_bytes] in *.
  - destruct (rb_push_spec r b Hinv) as (r'&?&?&?&?). eauto.
  - destruct (rb_push_array_spec r bs (zlen bs)) as (r'&Hp&?&?&Hc);
      [done|pose proof (zlen_nonneg bs); lia|done|].
    rewrite Hp. exists r'. repeat split; try done. rewrite Hc.
    rewrite (take_ge bs) by (unfold zlen; lia). done.
Qed.

(** After any sequence of single-byte and array pushes, an overwriting ring buffer of
    [2^k] cells holds exactly the last [2^k - 1] bytes of everything pushed so far, and no
    push touches memory outside the buffer. *)
Theorem ring_buffer_keeps_last (r : ring_buffer_t) (ops : list log_op) :
  rb_inv r -> Forall (fun op => zlen (log_bytes op) < SIZE_MOD) ops ->
  exists r', log_run r ops = Some r' /\ rb_inv r' /\
    rb_contents r' =
      lastn (Z.to_nat (rb_size r - 1)) (rb_contents r ++ concat (map log_bytes ops)).
Proof.
  intros Hinv Hops. revert r Hinv.
  induction Hops as [|op ops Hop _ IH]; intros r Hinv; cbn [log_run concat map].
  { exists r. rewrite app_nil_r. pose proof (rb_contents_len r Hinv) as Hl.
    pose proof (rb_used_range r Hinv). unfold zlen in Hl.
    rewrite lastn_ge by lia. done. }
  destruct (log_step_spec r op Hinv Hop) as (r1&Hs&Hi1&Hz1&Hc1).
  rewrite Hs. cbn [mbind option_bind].
  destruct (IH r1 Hi1) as (r2&Hr2&Hi2&Hc2). exists r2. split; [done|]. split; [done|].
  by rewrite Hc2, Hz1, Hc1, lastn_lastn, <- app_assoc.
Qed.

(** When a ring buffer holds whole records of [len] bytes, pushing another record drops
    whole records only, the fewest that make room, and leaves every remaining record and the
    new one intact. *)
Theorem push_record_keeps_records (r : ring_buffer_t) (recs : list (list byte)) (data : list byte) :
  rb_inv r -> data <> [] -> zlen data <= rb_size r - 1 ->
  Forall (fun rec => length rec = length data) recs -> rb_contents r = concat recs ->
  exists r' j, ring_buffer_push_record (Some r) (Some data) (zlen data) = Some (Some r') /\
    rb_inv r' /\ rb_contents r' = concat (drop j recs ++ [data]) /\
    (j = 0%nat \/ rb_size r - 1 < (zlen recs - Z.of_nat j + 2) * zlen data).
Proof.
  intros Hinv Hne Hfit Hrecs Hc. pose proof (rb_contents_len r Hinv) as Hl.
  pose proof (rb_used_range r Hinv) as Hu.
  assert (0 < zlen data) as Hpos by (destruct data; [done|unfold zlen; simpl; lia]).
  assert (forall rs, Forall (fun rec : list byte => length rec = length data) rs ->
            zlen (concat rs) = zlen rs * zlen data) as Hcat.
  { intros rs Hrs. unfold zlen. induction Hrs as [|rec rs Hrec _ IH]; [done|].
    cbn [concat]. rewrite length_app. cbn [length]. nia. }
  rewrite Hc, Hcat in Hl by done.
  destruct (rb_push_record_spec r data (zlen data)) as (r'&Hp&Hi'&_&Hc'); [done|lia..|].
  destruct (room_drops_records (Z.to_nat (rb_size r)) (rb_size r - 1) (length recs) (zlen data))
    as (j&Hj&Hd&_&Hmin); [lia|unfold zlen in *; lia|unfold zlen in *; lia|].
  fold (zlen recs) in Hd, Hmin. rewrite Hl in Hd.
  exists r', j. split; [done|]. split; [done|]. split; [|done].
  rewrite Hc', Hd, Hc, concat_app. cbn [concat]. rewrite app_nil_r.
  rewrite (take_ge data) by (unfold zlen; lia). f_equal.
  rewrite <- (take_drop j recs) at 1. rewrite concat_app.
  apply drop_app_length'. pose proof (Hcat (take j recs)) as Ht.
  specialize (Ht (Forall_take _ _ _ Hrecs)).
  unfold zlen in Ht. rewrite length_take in Ht. unfold zlen. nia.
Qed.
End LogRun.

Definition rb_demo : RingBuffer.ring_buffer_t :=
  {| RingBuffer.rb_buffer := Some [x63; x00; x61; x62]; RingBuffer.rb_size := 4;
     RingBuffer.rb_head := 0; RingBuffer.rb_tail := 2 |}.

Lemma rb_demo_inv : @RingBuffer.rb_inv arch64 rb_demo.
Proof. exists [x63; x00; x61; x62], 2. vm_compute. intuition congruence. Defined.

Lemma ring_buffer_keeps_last_witness :
  exists r', @log_run arch64 rb_demo [LogByte x63; LogArray [x64; x65]] = Some r' /\
    @RingBuffer.rb_contents arch64 r' = [x63; x64; x65].
Proof.
  destruct (@ring_buffer_keeps_last arch64 rb_demo [LogByte x63; LogArray [x64; x65]])
    as (r'&Hr&_&Hc).
  - exact rb_demo_inv.
  - repeat constructor.
  - exists r'. split; [exact Hr|exact Hc].
Defined.

Lemma push_record_keeps_records_witness :
  exists r' j, @RingBuffer.ring_buffer_push_record arch64 (Some rb_demo) (Some [x64; x65]) 2
      = Some (Some r') /\
    @RingBuffer.rb_contents arch64 r' = concat (drop j [[x61; x62]] ++ [[x64; x65]]).
Proof.
  destruct (@push_record_keeps_records arch64 rb_demo [[x61; x62]] [x64; x65]) as (r'&j&Hr&_&Hc&_).
  - exact rb_demo_inv.
  - discriminate.
  - vm_compute. discriminate.
  - repeat constructor.
  - reflexivity.
  - exists r', j. split; [exact Hr|exact Hc].
Defined.

(** The queue a [ring_queue_t] promises. *)
Inductive q_op :=
  | QPush (item : list byte)
  | QPop
  | QDrop
  | QRemove (i : nat)
  | QClear.

(** The element delivered, the boolean returned, the queue afterwards. *)
Definition queue_step (cap : nat) (l : list (list byte)) (op : q_op)
  : (option (list byte) * bool) * list (list byte) :=
  match op with
  | QPush it => if (length l <? cap)%nat then ((None, true), l ++ [it]) else ((None, false), l)
  | QPop => match l with [] => ((None, false), []) | e :: l' => ((Some e, true), l') end
  | QDrop => ((None, true), drop 1 l)
  | QRemove i =>
      if (i <? length l)%nat then ((None, true), take i l ++ drop (S i) l) else ((None, false), l)
  | QClear => ((None, true), [])
  end.

Fixpoint queue_run (cap : nat) (l : list (list byte)) (ops : list q_op)
  : list (option (list byte) * bool) * list (list byte) :=
  match ops with
  | [] => ([], l)
  | op :: ops' =>
      let '(o, l1) := queue_step cap l op in
      let '(os, l2) := queue_run cap l1 ops' in (o :: os, l2)
  end.

Section QueueRun.
Context `{Arch}.
Import RingQueue.

Definition q_step (r : ring_queue_t) (op : q_op)
  : option ((option (list byte) * bool) * ring_queue_t) :=
  match op with
  | QPush it => '(ok, q) ← ring_queue_push (Some r) (Some it); r' ← q; Some ((None, ok), r')
  | QPop =>
      '(ok, q, out) ←
        ring_queue_pop (Some r) (Some (replicate (Z.to_nat (q_elem_size r)) x00));
      r' ← q; o ← out; Some ((if ok : bool then Some o else None, ok), r')
  | QDrop => r' ← ring_queue_drop_head (Some r); Some ((None, true), r')
  | QRemove i => '(ok, q) ← ring_queue_remove_at (Some r) (Z.of_nat i); r' ← q; Some ((None, ok), r')
  | QClear => r' ← ring_queue_clear (Some r); Some ((None, true), r')
  end.

Fixpoint q_run (r : ring_queue_t) (ops : list q_op)
  : option (list (option (list byte) * bool) * ring_queue_t) :=
  match ops with
  | [] => Some ([], r)
  | op :: ops' => '(o, r1) ← q_step r op; '(os, r2) ← q_run r1 ops'; Some (o :: os, r2)
  end.

Definition q_op_ok (es : Z) (op : q_op) : Prop :=
  match op with QPush it => zlen it = es | _ => True end.

Lemma rq_drop_head_spec r :
  rq_inv r -> exists r', ring_queue_drop_head (Some r) = Some r' /\ rq_inv r' /\
    rq_contents r' = drop 1 (rq_contents r) /\ q_cap r' = q_cap r /\ q_elem_size r' = q_elem_size r.
Proof.
  intros Hinv. pose proof (rq_contents_len r Hinv) as Hl. simpl. case_test.
  - exists r. repeat split; try done. rewrite drop_ge; [|unfold zlen in Hl; lia].
    apply length_zero_iff_nil. unfold zlen in Hl. lia.
  - exists (rq_advance r). destruct (id Hinv) as (b&?&?&?&?&?&?&?).
    destruct (rq_advance_spec r) as [Hi Hc]; [done|lia|]. done.
Qed.

Lemma rq_clear_spec r :
  rq_inv r -> exists r', ring_queue_clear (Some r) = Some r' /\ rq_inv r' /\
    rq_contents r' = [] /\ q_cap r' = q_cap r /\ q_elem_size r' = q_elem_size r.
Proof.
  intros (b&Hb&?&?&?&?&?&?). eexists. split; [reflexivity|]. split; [|split; [|done]].
  - exists b. simpl. repeat split; done || lia.
  - unfold rq_contents. simpl. by rewrite Hb.
Qed.

(** No operation changes the geometry of a queue. *)
Lemma q_step_geometry r op o r' :
  q_step r op = Some (o, r') -> q_cap r' = q_cap r /\ q_elem_size r' = q_elem_size r.
Proof.
  destruct op; simpl; repeat (case_match; simplify_option_eq); intros; simplify_option_eq; try done;
    repeat (case_match; simplify_option_eq); done.
Qed.

Lemma q_step_sim r op :
  rq_inv r -> q_op_ok (q_elem_size r) op ->
  exists r', q_step r op =
      Some (fst (queue_step (Z.to_nat (q_cap r)) (rq_contents r) op), r') /\ rq_inv r' /\
    rq_contents r' = snd (queue_step (Z.to_nat (q_cap r)) (rq_contents r) op).
Proof.
  intros Hinv Hop. pose proof (rq_contents_len r Hinv) as Hl. unfold zlen in Hl.
  destruct op as [it| | |i|]; cbn [q_step queue_step] in *.
  - pose proof (rq_push_spec r it Hinv Hop) as Hp. destruct (id Hinv) as (b&_&_&?&_&_&_&?).
    destruct (q_count r <? q_cap r) eqn:E; bool_facts.
    + rewrite (proj2 (Nat.ltb_lt _ _)) by lia. destruct Hp as (r'&Hp&?&?&?&?). rewrite Hp. eauto.
    + rewrite (proj2 (Nat.ltb_ge _ _)) by lia. rewrite Hp. eauto.
  - pose proof (rq_pop_spec r (replicate (Z.to_nat (q_elem_size r)) x00) Hinv) as Hp.
    destruct (id Hinv) as (b&_&?&_). 
    specialize (Hp ltac:(unfold zlen; rewrite length_replicate; lia)).
    rewrite drop_ge in Hp by (rewrite length_replicate; lia).
    destruct (rq_contents r) as [|e l] eqn:Hc.
    + rewrite Hp. exists r. simpl. by rewrite Hc.
    + destruct Hp as (r'&Hp&Hi&Hc'). rewrite Hp. exists r'. simpl. by rewrite app_nil_r.
  - destruct (rq_drop_head_spec r Hinv) as (r'&Hd&Hi&Hc&_). rewrite Hd. eauto.
  - pose proof (rq_remove_at_spec r (Z.of_nat i) Hinv ltac:(lia)) as Hp.
    destruct (Z.of_nat i <? q_count r) eqn:E; bool_facts.
    + rewrite (proj2 (Nat.ltb_lt _ _)) by lia. destruct Hp as (r'&Hp&?&Hc'). rewrite Hp.
      rewrite Nat2Z.id in Hc'. eauto.
    + rewrite (proj2 (Nat.ltb_ge _ _)) by lia. rewrite Hp. eauto.
  - destruct (rq_clear_spec r Hinv) as (r'&Hd&Hi&Hc&_). rewrite Hd. eauto.
Qed.

(** Any sequence of push, pop, drop-head, remove-at and clear on a well-formed
    [ring_queue_t] stays inside its buffer and answers what a bounded queue of elements
    answers, including the failures on a full or an empty queue. *)
Theorem ring_queue_refines_queue (r : ring_queue_t) (ops : list q_op) :
  rq_inv r -> Forall (q_op_ok (q_elem_size r)) ops ->
  exists r', q_run r ops = Some (fst (queue_run (Z.to_nat (q_cap r)) (rq_contents r) ops), r') /\
    rq_inv r' /\ rq_contents r' = snd (queue_run (Z.to_nat (q_cap r)) (rq_contents r) ops).
Proof.
  revert r. induction ops as [|op ops IH]; intros r Hinv Hops; cbn [q_run queue_run].
  { exists r. done. }
  apply Forall_cons_1 in Hops as [Hop Hops].
  destruct (q_step_sim r op Hinv Hop) as (r1&Hs&Hi1&Hc1).
  destruct (q_step_geometry _ _ _ _ Hs) as [Hcap1 Hes1].
  rewrite Hs. cbn [mbind option_bind]. rewrite <- Hes1 in Hops.
  destruct (IH r1 Hi1 Hops) as (r2&Hr2&Hi2&Hc2). rewrite Hr2. cbn [mbind option_bind].
  rewrite Hc1, Hcap1 in *.
  destruct (queue_step _ _ op) as [o l1]. cbn [fst snd] in *.
  destruct (queue_run _ l1 ops) as [os l2]. cbn [fst snd] in *. eauto.
Qed.

(** Growing a queue keeps its elements and their order: [ring_queue_reserve] copies the
    elements to the front of the new buffer, whose capacity is at least what was asked for. *)
Theorem ring_queue_reserve_keeps (r : ring_queue_t) (needed : Z) (nb : list byte) :
  rq_inv r -> q_cap r < needed < SIZE_MOD ->
  zlen nb = rq_new_cap (q_cap r) needed * q_elem_size r -> 2 * zlen nb <= SIZE_MOD ->
  exists r', ring_queue_reserve (Some r) needed (Some nb) = Some (true, Some r') /\ rq_inv r' /\
    rq_contents r' = rq_contents r /\ needed <= q_cap r'.
Proof.
  intros Hinv Hn Hl Hm.
  destruct (rq_reserve_spec r needed nb) as (r'&Hr&Hi&Hc&Hcap); [done|lia..|done|done|].
  exists r'. split; [done|]. split; [done|]. split; [done|]. rewrite Hcap.
  destruct (id Hinv) as (b&?&?&?&_).
  destruct (rq_new_cap_spec (q_cap r) needed) as [? _]; lia.
Qed.
End QueueRun.

Definition rq_demo : RingQueue.ring_queue_t :=
  {| RingQueue.q_buf := Some [x61; x62; x63; x64; x65; x66]; RingQueue.q_elem_size := 2;
     RingQueue.q_cap := 3; RingQueue.q_head := 2; RingQueue.q_count := 2 |}.

Lemma rq_demo_inv : @RingQueue.rq_inv arch64 rq_demo.
Proof. exists [x61; x62; x63; x64; x65; x66]. vm_compute. intuition congruence. Defined.

Lemma ring_queue_refines_queue_witness :
  exists r', @q_run arch64 rq_demo [QPush [x30; x31]; QPush [x32; x33]; QRemove 1; QPop; QPop; QPop] =
    Some ([(None, true); (None, false); (None, true); (Some [x65; x66], true);
           (Some [x30; x31], true); (None, false)], r') /\
    RingQueue.rq_contents r' = [].
Proof.
  destruct (@ring_queue_refines_queue arch64 rq_demo
    [QPush [x30; x31]; QPush [x32; x33]; QRemove 1; QPop; QPop; QPop]) as (r'&Hr&_&Hc).
  - exact rq_demo_inv.
  - repeat constructor.
  - exists r'. split; [exact Hr|exact Hc].
Defined.

Lemma ring_queue_reserve_keeps_witness :
  exists r', @RingQueue.ring_queue_reserve arch64 (Some rq_demo) 4 (Some (replicate 12 x00)) =
      Some (true, Some r') /\ RingQueue.rq_contents r' = [[x65; x66]; [x61; x62]].
Proof.
  destruct (@ring_queue_reserve_keeps arch64 rq_demo 4 (replicate 12 x00)) as (r'&Hr&_&Hc&_).
  - exact rq_demo_inv.
  - vm_compute. intuition congruence.
  - vm_compute. reflexivity.
  - vm_compute. discriminate.
  - exists r'. split; [exact Hr|exact Hc].
Defined.
