(* ===== verification/Bitmap.v ===== *)
(** * Bit arrays: [libs/data/bitmap.c]

    A bitmap is an array of 32-bit words.  [bm_bit] is its abstraction, the bit at an index;
    every operation is characterised by the bits it leaves, whatever the word boundaries it
    crosses. *)

From S2P Require Import Prelude Memory.

Definition BITMAP_WORD_SIZE : Z := 32.
Definition BITMAP_WORD_MAX : Z := 2 ^ 32 - 1.

(** [~x] on a 32-bit word. *)
Definition u32_not (x : Z) : Z := u32_wrap (Z.lnot x).

Module Bitmap.

Definition bitmap_set (bitmap : list Z) (index : Z) : option (list Z) :=
  let word := index / BITMAP_WORD_SIZE in
  let bit := index mod BITMAP_WORD_SIZE in
  w ← mload bitmap word;
  mstore bitmap word (Z.lor w (u32_wrap (Z.shiftl 1 bit))).

Definition bitmap_clear (bitmap : list Z) (index : Z) : option (list Z) :=
  let word := index / BITMAP_WORD_SIZE in
  let bit := index mod BITMAP_WORD_SIZE in
  w ← mload bitmap word;
  mstore bitmap word (Z.land w (u32_not (u32_wrap (Z.shiftl 1 bit)))).

Definition low_mask (bits : Z) : Z :=
  if BITMAP_WORD_SIZE <=? bits then BITMAP_WORD_MAX
  else u32_wrap (u32_wrap (Z.shiftl 1 bits) - 1).

(** [bitmap[word] |= mask] or [bitmap[word] &= ~mask]. *)
Definition write_mask (bitmap : list Z) (word mask : Z) (set : bool) : option (list Z) :=
  w ← mload bitmap word;
  mstore bitmap word (if set then Z.lor w mask else Z.land w (u32_not mask)).

(** [while (blocks >= BITMAP_WORD_SIZE) { bitmap[word++] = fill; blocks -= BITMAP_WORD_SIZE; }] *)
Fixpoint fill_words (fuel : nat) (bitmap : list Z) (word blocks fill : Z)
  : option (list Z * Z * Z) :=
  if BITMAP_WORD_SIZE <=? blocks then
    match fuel with
    | O => None
    | S f =>
        bitmap' ← mstore bitmap word fill;
        fill_words f bitmap' (word + 1) (blocks - BITMAP_WORD_SIZE) fill
    end
  else Some (bitmap, word, blocks).

(** The leading partial word of a region: the bitmap, the next word and the blocks left. *)
Definition write_head (bitmap : list Z) (index blocks : Z) (set : bool) : option (list Z * Z * Z) :=
  let word := index / BITMAP_WORD_SIZE in
  let bit := index mod BITMAP_WORD_SIZE in
  if negb (bit =? 0) then
    let count := BITMAP_WORD_SIZE - bit in
    let count := if blocks <? count then blocks else count in
    let mask := u32_wrap (Z.shiftl (low_mask count) bit) in
    b ← write_mask bitmap word mask set;
    Some (b, word + 1, blocks - count)
  else Some (bitmap, word, blocks).

Definition write_region (bitmap : list Z) (index blocks : Z) (set : bool) : option (list Z) :=
  if blocks =? 0 then Some bitmap
  else
    '(bitmap1, word1, blocks1) ← write_head bitmap index blocks set;
    let fill := if set then BITMAP_WORD_MAX else 0 in
    '(bitmap2, word2, blocks2) ←
      fill_words (Z.to_nat (blocks1 / BITMAP_WORD_SIZE)) bitmap1 word1 blocks1 fill;
    if negb (blocks2 =? 0) then write_mask bitmap2 word2 (low_mask blocks2) set
    else Some bitmap2.

Definition bitmap_set_region (bitmap : list Z) (index blocks : Z) : option (list Z) :=
  write_region bitmap index blocks true.

Definition bitmap_clear_region (bitmap : list Z) (index blocks : Z) : option (list Z) :=
  write_region bitmap index blocks false.

Definition bitmap_get (bitmap : list Z) (index : Z) : option bool :=
  let word := index / BITMAP_WORD_SIZE in
  let bit := index mod BITMAP_WORD_SIZE in
  w ← mload bitmap word;
  Some (negb (Z.land (Z.shiftr w bit) 1 =? 0)).

(** The bit scans of [bitmap_find_first_clear]: [n] bits from [bit] on. *)
Fixpoint scan_bits (n : nat) (bits bit : Z) : option Z :=
  match n with
  | O => None
  | S n' =>
      if Z.land bits (u32_wrap (Z.shiftl 1 bit)) =? 0 then Some bit else scan_bits n' bits (bit + 1)
  end.

(** [for (w = ...; w < words; w++)]; [n] is [words - w]. *)
Fixpoint scan_words (n : nat) (bitmap : list Z) (w : Z) : option (option Z) :=
  match n with
  | O => Some None
  | S n' =>
      bits ← mload bitmap w;
      if bits =? BITMAP_WORD_MAX then scan_words n' bitmap (w + 1)
      else match scan_bits 32 bits 0 with
           | Some bit => Some (Some (w * BITMAP_WORD_SIZE + bit))
           | None => scan_words n' bitmap (w + 1)
           end
  end.

(** [index_out] is always provided by the model: the answer is the index, if any. *)
Definition bitmap_find_first_clear (bitmap : option (list Z)) (bit_count : Z) : option (option Z) :=
  match bitmap with
  | None => Some None
  | Some bm =>
      let words := bit_count / BITMAP_WORD_SIZE in
      let rem := bit_count mod BITMAP_WORD_SIZE in
      found ← scan_words (Z.to_nat words) bm 0;
      match found with
      | Some i => Some (Some i)
      | None =>
          if rem =? 0 then Some None
          else
            tail ← mload bm words;
            match scan_bits (Z.to_nat rem) tail 0 with
            | Some bit => Some (Some (words * BITMAP_WORD_SIZE + bit))
            | None => Some None
            end
      end
  end.

(** ** Abstraction *)

Definition bm_bit (bm : list Z) (i : Z) : bool :=
  match bm !! Z.to_nat (i / 32) with
  | Some w => Z.testbit w (i mod 32)
  | None => false
  end.

Definition word_ok (w : Z) : Prop := 0 <= w < 2 ^ 32.
Definition bm_ok (bm : list Z) : Prop := Forall word_ok bm.

Implicit Types (bm : list Z).

(** ** Lemmas on words *)

Lemma testbit_high w j : word_ok w -> 32 <= j -> Z.testbit w j = false.
Proof.
  intros [Hlo Hhi] Hj. destruct (Z.eq_dec w 0) as [->|]; [apply Z.bits_0|].
  apply Z.bits_above_log2; [done|]. pose proof (proj1 (Z.log2_lt_pow2 w 32 ltac:(lia)) Hhi). lia.
Qed.

Lemma word_ok_bits w : 0 <= w -> (forall j, 32 <= j -> Z.testbit w j = false) -> word_ok w.
Proof.
  intros Hlo Hb. split; [done|]. destruct (Z.eq_dec w 0) as [->|]; [lia|].
  apply Z.log2_lt_pow2; [lia|]. destruct (Z.lt_ge_cases (Z.log2 w) 32); [done|].
  pose proof (Hb (Z.log2 w) ltac:(lia)). rewrite Z.bit_log2 in *; [done|lia].
Qed.

Lemma u32_wrap_bit z j : 0 <= j < 32 -> Z.testbit (u32_wrap z) j = Z.testbit z j.
Proof. intros. unfold u32_wrap. apply Z.mod_pow2_bits_low. lia. Qed.

Lemma u32_wrap_ok z : word_ok (u32_wrap z).
Proof. unfold word_ok, u32_wrap. apply Z.mod_pos_bound. lia. Qed.

Lemma word_or_ok a b : word_ok a -> word_ok b -> word_ok (Z.lor a b).
Proof.
  intros Ha Hb. apply word_ok_bits; [apply Z.lor_nonneg; unfold word_ok in *; lia|].
  intros j Hj. by rewrite Z.lor_spec, !testbit_high.
Qed.

Lemma word_and_ok a b : word_ok a -> 0 <= b -> word_ok (Z.land a b).
Proof.
  intros Ha Hb. apply word_ok_bits; [apply Z.land_nonneg; lia|].
  intros j Hj. by rewrite Z.land_spec, testbit_high.
Qed.

(** Bit [j] of [1 << b]. *)
Lemma one_bit b j : 0 <= b -> 0 <= j < 32 -> Z.testbit (u32_wrap (Z.shiftl 1 b)) j = (j =? b).
Proof.
  intros. rewrite u32_wrap_bit by done. rewrite Z.shiftl_spec by lia.
  destruct (Z.eqb_spec j b) as [->|]; [by rewrite Z.sub_diag|].
  destruct (Z.lt_ge_cases j b); [by rewrite Z.testbit_neg_r by lia|].
  change 1 with (2 ^ 0). apply Z.pow2_bits_false. lia.
Qed.

Lemma low_mask_bit c j : 0 <= c -> 0 <= j < 32 -> Z.testbit (low_mask c) j = (j <? c).
Proof.
  intros Hc Hj. unfold low_mask, BITMAP_WORD_SIZE, BITMAP_WORD_MAX. case_test.
  - change (2 ^ 32 - 1) with (Z.ones 32). rewrite Z.ones_spec_low by lia. symmetry. apply Z.ltb_lt. lia.
  - rewrite u32_wrap_bit by done. rewrite Z.shiftl_1_l.
    rewrite u32_wrap_small by (split; [lia|apply Z.pow_lt_mono_r; lia]).
    rewrite Z.sub_1_r, <- Z.ones_equiv. destruct (Z.ltb_spec j c).
    + apply Z.ones_spec_low. lia.
    + apply Z.ones_spec_high. lia.
Qed.

Lemma low_mask_ok c : 0 <= c -> word_ok (low_mask c).
Proof.
  intros. unfold low_mask, word_ok. case_test; [unfold BITMAP_WORD_MAX; lia|]. apply u32_wrap_ok.
Qed.

(** Bit [j] of [low_mask(c) << b]. *)
Lemma mask_bit c b j :
  0 <= c -> 0 <= b -> 0 <= j < 32 ->
  Z.testbit (u32_wrap (Z.shiftl (low_mask c) b)) j = (b <=? j) && (j <? b + c).
Proof.
  intros. rewrite u32_wrap_bit by done. rewrite Z.shiftl_spec by lia.
  destruct (Z.leb_spec b j); simpl; [|by rewrite Z.testbit_neg_r by lia].
  rewrite low_mask_bit by lia. destruct (Z.ltb_spec (j - b) c), (Z.ltb_spec j (b + c)); lia || done.
Qed.

Lemma u32_not_bit w j : 0 <= j < 32 -> Z.testbit (u32_not w) j = negb (Z.testbit w j).
Proof. intros. unfold u32_not. rewrite u32_wrap_bit by done. apply Z.lnot_spec. lia. Qed.

Lemma all_ones_bit w j : w = BITMAP_WORD_MAX -> 0 <= j < 32 -> Z.testbit w j = true.
Proof.
  intros -> Hj. unfold BITMAP_WORD_MAX. change (2 ^ 32 - 1) with (Z.ones 32). by apply Z.ones_spec_low.
Qed.

(** The test [bits & (1 << bit)]. *)
Lemma test_bit w b : 0 <= b < 32 -> (Z.land w (u32_wrap (Z.shiftl 1 b)) =? 0) = negb (Z.testbit w b).
Proof.
  intros Hb. destruct (Z.testbit w b) eqn:E; simpl.
  - apply Z.eqb_neq. intros H0. apply (f_equal (fun z => Z.testbit z b)) in H0.
    rewrite Z.land_spec, one_bit, E, Z.eqb_refl, Z.bits_0 in H0 by lia. done.
  - apply Z.eqb_eq. apply Z.bits_inj'. intros j Hj. rewrite Z.land_spec, Z.bits_0.
    destruct (Z.lt_ge_cases j 32).
    + rewrite one_bit by lia. destruct (Z.eqb_spec j b) as [->|]; [by rewrite E|apply andb_false_r].
    + rewrite (testbit_high (u32_wrap _)); [apply andb_false_r|apply u32_wrap_ok|done].
Qed.

(** ** Lemmas on bitmaps *)

Lemma div_mod_32 i : i = 32 * (i / 32) + i mod 32 /\ 0 <= i mod 32 < 32.
Proof. split; [apply Z.div_mod; lia|apply Z.mod_pos_bound; lia]. Qed.

Lemma bm_word_in bm i : 0 <= i < 32 * zlen bm -> 0 <= i / 32 < zlen bm.
Proof. intros. pose proof (div_mod_32 i). lia. Qed.

(** Bits after one word has been replaced. *)
Lemma bm_bit_insert bm word w i :
  0 <= word < zlen bm -> 0 <= i ->
  bm_bit (<[Z.to_nat word := w]> bm) i =
    if i / 32 =? word then Z.testbit w (i mod 32) else bm_bit bm i.
Proof.
  intros Hw Hi. unfold bm_bit. pose proof (Z.div_pos i 32 Hi ltac:(lia)).
  destruct (Z.eqb_spec (i / 32) word) as [->|Hne].
  - rewrite list_lookup_insert_eq by (unfold zlen in Hw; lia). done.
  - rewrite list_lookup_insert_ne by lia. done.
Qed.

Lemma bm_load bm word : 0 <= word < zlen bm ->
  exists w, mload bm word = Some w /\ bm !! Z.to_nat word = Some w.
Proof.
  intros Hw. destruct (mload_is_Some bm word Hw) as [w E]. exists w. split; [done|].
  by apply mload_Some in E as [_ ?].
Qed.

Lemma bm_ok_lookup bm k w : bm_ok bm -> bm !! k = Some w -> word_ok w.
Proof. intros H E. eapply Forall_lookup_1 in H; eauto. Qed.

Lemma bm_ok_insert bm k w : bm_ok bm -> word_ok w -> bm_ok (<[k := w]> bm).
Proof. intros. by apply Forall_insert. Qed.

#[local] Hint Resolve bm_ok_insert u32_wrap_ok low_mask_ok word_or_ok : core.

(** One masked word update sets or clears exactly the masked bits of the word. *)
Lemma write_mask_spec bm word mask set :
  bm_ok bm -> 0 <= word < zlen bm -> word_ok mask ->
  exists bm', write_mask bm word mask set = Some bm' /\ bm_ok bm' /\ length bm' = length bm /\
    forall i, 0 <= i -> bm_bit bm' i =
      if (i / 32 =? word) && Z.testbit mask (i mod 32) then set else bm_bit bm i.
Proof.
  intros Hok Hw Hm. destruct (bm_load bm word Hw) as (w&Hl&Hlk).
  pose proof (bm_ok_lookup _ _ _ Hok Hlk) as Hwok.
  unfold write_mask. rewrite Hl. cbn [mbind option_bind]. rewrite mstore_ok by done.
  eexists. split; [reflexivity|]. split; [|split; [apply length_insert|]].
  - apply bm_ok_insert; [done|]. destruct set; [by apply word_or_ok|].
    apply word_and_ok; [done|apply u32_wrap_ok].
  - intros i Hi. rewrite bm_bit_insert by done. destruct (Z.eqb_spec (i / 32) word) as [<-|]; [|done].
    pose proof (div_mod_32 i) as [_ Hj]. unfold bm_bit. rewrite Hlk. simpl.
    destruct set; [rewrite Z.lor_spec|rewrite Z.land_spec, u32_not_bit by done];
      destruct (Z.testbit mask (i mod 32)), (Z.testbit w (i mod 32)); done.
Qed.

Lemma fill_words_spec fuel bm word blocks set :
  bm_ok bm -> 0 <= word -> 0 <= blocks -> 32 * word + blocks <= 32 * zlen bm ->
  (Z.to_nat (blocks / 32) <= fuel)%nat ->
  exists bm', fill_words fuel bm word blocks (if set : bool then BITMAP_WORD_MAX else 0) =
      Some (bm', word + blocks / 32, blocks mod 32) /\
    bm_ok bm' /\ length bm' = length bm /\
    forall i, 0 <= i -> bm_bit bm' i =
      if (32 * word <=? i) && (i <? 32 * word + 32 * (blocks / 32)) then set else bm_bit bm i.
Proof.
  unfold BITMAP_WORD_SIZE. revert bm word blocks.
  induction fuel as [|f IH]; intros bm word blocks Hok Hw Hb Hfit Hfuel;
    pose proof (div_mod_32 blocks) as [Hd Hm]; cbn [fill_words]; unfold BITMAP_WORD_SIZE.
  all: destruct (Z.leb_spec 32 blocks) as [Hge|Hlt];
    [|exists bm; rewrite (Z.div_small blocks 32), (Z.mod_small blocks 32), Z.add_0_r by lia;
      repeat split; try done; intros i Hi; test_lia; destruct (Z.leb_spec (32 * word) i); simpl; test_lia; done].
  { exfalso. lia. }
  rewrite mstore_ok by lia. cbn [mbind option_bind].
  set (fill := if set then _ else _).
  assert (word_ok fill) as Hfok by (unfold word_ok, fill, BITMAP_WORD_MAX; destruct set; lia).
  assert ((blocks - 32) / 32 = blocks / 32 - 1) as Hq.
  { replace (blocks - 32) with (blocks + (-1) * 32) by lia. rewrite Z.div_add by lia. lia. }
  assert ((blocks - 32) mod 32 = blocks mod 32) as Hr.
  { replace (blocks - 32) with (blocks + (-1) * 32) by lia. by rewrite Z.mod_add by lia. }
  assert (zlen (<[Z.to_nat word:=fill]> bm) = zlen bm) as Hz by (unfold zlen; by rewrite length_insert).
  destruct (IH (<[Z.to_nat word:=fill]> bm) (word + 1) (blocks - 32)) as (bm'&Hf&Hok'&Hl'&Hb');
    [auto|lia..|].
  rewrite length_insert in Hl'. rewrite Hq, Hr in *.
  exists bm'. split; [fold fill in Hf; rewrite Hf; do 3 f_equal; lia|]. split; [done|]. split; [done|].
  intros i Hi. rewrite Hb' by done. rewrite bm_bit_insert by lia.
  pose proof (div_mod_32 i) as [Hdi Hmi].
  assert (Z.testbit fill (i mod 32) = set) as Hfb.
  { unfold fill. destruct set; [by apply all_ones_bit|apply Z.bits_0]. }
  rewrite Hfb. tests_lia.
Qed.

(** How many blocks the leading partial word takes. *)
Definition head_count (index blocks : Z) : Z :=
  if index mod 32 =? 0 then 0 else Z.min blocks (32 - index mod 32).

Lemma write_head_spec bm index blocks set :
  bm_ok bm -> 0 <= index -> 0 < blocks -> index + blocks <= 32 * zlen bm ->
  let cnt := head_count index blocks in
  exists bm1 word1, write_head bm index blocks set = Some (bm1, word1, blocks - cnt) /\
    bm_ok bm1 /\ length bm1 = length bm /\ 0 <= word1 /\ (cnt < blocks -> 32 * word1 = index + cnt) /\
    forall i, 0 <= i -> bm_bit bm1 i =
      if (index <=? i) && (i <? index + cnt) then set else bm_bit bm i.
Proof.
  intros Hok Hi0 Hb Hfit. pose proof (div_mod_32 index) as [Hdi Hmi].
  unfold write_head, head_count, BITMAP_WORD_SIZE.
  destruct (Z.eqb_spec (index mod 32) 0) as [E0|E0]; cbn [negb].
  - exists bm, (index / 32). rewrite Z.sub_0_r. repeat split; try done; try lia.
    intros i Hi. tests_lia.
  - replace (if blocks <? _ then _ else _) with (Z.min blocks (32 - index mod 32))
      by (destruct (Z.ltb_spec blocks (32 - index mod 32)); lia).
    set (cnt := Z.min blocks (32 - index mod 32)).
    destruct (write_mask_spec bm (index / 32) (u32_wrap (Z.shiftl (low_mask cnt) (index mod 32))) set)
      as (b'&Hwm&Hok'&Hl'&Hb'); [done|lia|apply u32_wrap_ok|].
    rewrite Hwm. cbn [mbind option_bind]. exists b', (index / 32 + 1).
    split; [done|]. split; [done|]. split; [done|]. split; [lia|]. split; [lia|].
    intros i Hi. rewrite Hb' by done. pose proof (div_mod_32 i) as [Hd' Hm'].
    rewrite mask_bit by lia.
    assert (0 <= cnt <= 32 - index mod 32) by lia. clearbody cnt. tests_lia.
Qed.

(** Updates of a region leave it uniformly set or cleared and touch no other bit. *)
Lemma write_region_spec bm index blocks set :
  bm_ok bm -> 0 <= index -> 0 <= blocks -> index + blocks <= 32 * zlen bm ->
  exists bm', write_region bm index blocks set = Some bm' /\ bm_ok bm' /\ length bm' = length bm /\
    forall i, 0 <= i -> bm_bit bm' i =
      if (index <=? i) && (i <? index + blocks) then set else bm_bit bm i.
Proof.
  intros Hok Hi0 Hb Hfit. unfold write_region, BITMAP_WORD_SIZE.
  destruct (Z.eqb_spec blocks 0) as [->|Hne].
  { exists bm. repeat split; try done. intros i Hi. tests_lia. }
  destruct (write_head_spec bm index blocks set) as (bm1&word1&->&Hok1&Hl1&Hw1&Hal&Hb1); [done|lia..|].
  assert (0 <= head_count index blocks <= blocks) as Hcnt.
  { unfold head_count. pose proof (div_mod_32 index). case_test; lia. }
  set (cnt := head_count index blocks) in *. clearbody cnt.
  cbn [mbind option_bind].
  assert (zlen bm1 = zlen bm) as Hz1 by (unfold zlen; lia).
  destruct (Z.eq_dec cnt blocks) as [->|Hlt].
  { rewrite Z.sub_diag. cbn. exists bm1. done. }
  specialize (Hal ltac:(lia)).
  destruct (fill_words_spec (Z.to_nat ((blocks - cnt) / 32)) bm1 word1 (blocks - cnt) set)
    as (bm2&Hf&Hok2&Hl2&Hb2); [done|lia..|].
  rewrite Hf. cbn [mbind option_bind].
  pose proof (div_mod_32 (blocks - cnt)) as [Hdr Hmr].
  destruct (Z.eqb_spec ((blocks - cnt) mod 32) 0) as [E0|E0]; cbn [negb].
  - exists bm2. split; [done|]. split; [done|]. split; [lia|]. intros i Hi.
    rewrite Hb2, Hb1 by done.
    tests_lia.
  - destruct (write_mask_spec bm2 (word1 + (blocks - cnt) / 32) (low_mask ((blocks - cnt) mod 32)) set)
      as (b'&Hwm&Hok'&Hl'&Hb'); [done|unfold zlen in *; lia|auto with lia|].
    exists b'. split; [done|]. split; [done|]. split; [lia|]. intros i Hi.
    rewrite Hb', Hb2, Hb1 by done. pose proof (div_mod_32 i) as [Hd' Hm'].
    rewrite low_mask_bit by lia.
    tests_lia.
Qed.

Lemma bitmap_set_mask bm index :
  bitmap_set bm index = write_mask bm (index / 32) (u32_wrap (Z.shiftl 1 (index mod 32))) true.
Proof. done. Qed.

Lemma bitmap_clear_mask bm index :
  bitmap_clear bm index = write_mask bm (index / 32) (u32_wrap (Z.shiftl 1 (index mod 32))) false.
Proof. done. Qed.

(** Setting or clearing one bit is the one-block region update. *)
Lemma write_bit_spec bm index set :
  bm_ok bm -> 0 <= index < 32 * zlen bm ->
  exists bm', write_mask bm (index / 32) (u32_wrap (Z.shiftl 1 (index mod 32))) set = Some bm' /\
    bm_ok bm' /\ length bm' = length bm /\
    forall i, 0 <= i -> bm_bit bm' i = if i =? index then set else bm_bit bm i.
Proof.
  intros Hok Hi. pose proof (bm_word_in bm index Hi) as Hw. pose proof (div_mod_32 index) as [Hd Hm].
  destruct (write_mask_spec bm (index / 32) (u32_wrap (Z.shiftl 1 (index mod 32))) set)
    as (bm'&Hwm&Hok'&Hl&Hb); [done|done|apply u32_wrap_ok|].
  exists bm'. repeat split; try done. intros i Hi'. rewrite Hb by done.
  pose proof (div_mod_32 i) as [Hd' Hm']. rewrite one_bit by lia. tests_lia.
Qed.

Lemma bitmap_get_spec bm index :
  0 <= index < 32 * zlen bm -> bitmap_get bm index = Some (bm_bit bm index).
Proof.
  intros Hi. pose proof (bm_word_in bm index Hi) as Hw.
  destruct (bm_load bm (index / 32) Hw) as (w&Hl&Hlk).
  unfold bitmap_get, bm_bit, BITMAP_WORD_SIZE. rewrite Hl, Hlk. cbn [mbind option_bind].
  f_equal. pose proof (div_mod_32 index) as [_ Hm].
  change 1 with (Z.ones 1). rewrite Z.land_ones by lia. change (2 ^ 1) with 2.
  rewrite <- Z.bit0_mod, Z.shiftr_spec, Z.add_0_l by lia. by destruct (Z.testbit w (index mod 32)).
Qed.

(** The scan of [n] bits of a word finds the first clear one. *)
Lemma scan_bits_spec n w bit :
  0 <= bit -> bit + Z.of_nat n <= 32 ->
  match scan_bits n w bit with
  | Some b => bit <= b < bit + Z.of_nat n /\ Z.testbit w b = false /\
              forall j, bit <= j < b -> Z.testbit w j = true
  | None => forall j, bit <= j < bit + Z.of_nat n -> Z.testbit w j = true
  end.
Proof.
  revert bit. induction n as [|n IH]; intros bit Hlo Hhi; cbn [scan_bits]; [lia|].
  rewrite test_bit by lia. destruct (Z.testbit w bit) eqn:E; cbn [negb].
  - specialize (IH (bit + 1) ltac:(lia) ltac:(lia)). destruct (scan_bits n w (bit + 1)) as [b|].
    + destruct IH as (?&?&Hall). repeat split; [lia..|done|].
      intros j Hj. destruct (Z.eq_dec j bit) as [->|]; [done|apply Hall; lia].
    + intros j Hj. destruct (Z.eq_dec j bit) as [->|]; [done|apply IH; lia].
  - repeat split; [lia..|done|]. lia.
Qed.

(** The answer of a search for the first clear bit among [lo .. hi-1]. *)
Definition first_clear bm (lo hi : Z) (r : option Z) : Prop :=
  match r with
  | Some i => lo <= i < hi /\ bm_bit bm i = false /\ forall j, lo <= j < i -> bm_bit bm j = true
  | None => forall j, lo <= j < hi -> bm_bit bm j = true
  end.

Lemma first_clear_cons bm lo mid hi r :
  lo <= mid -> (forall j, lo <= j < mid -> bm_bit bm j = true) ->
  first_clear bm mid hi r -> first_clear bm lo hi r.
Proof.
  intros Hle Hall. unfold first_clear. destruct r as [i|].
  - intros (?&?&Hj). repeat split; [lia..|done|].
    intros j ?. destruct (Z.lt_ge_cases j mid); [apply Hall|apply Hj]; lia.
  - intros Hj j ?. destruct (Z.lt_ge_cases j mid); [apply Hall|apply Hj]; lia.
Qed.

(** A scan inside one word, seen as a search of the bitmap. *)
Lemma scan_word_first bm w word n :
  bm !! Z.to_nat word = Some w -> 0 <= word -> (n <= 32)%nat ->
  first_clear bm (32 * word) (32 * word + Z.of_nat n)
    (b ← scan_bits n w 0; Some (word * 32 + b)).
Proof.
  intros Hw Hpos Hn.
  assert (forall b, 0 <= b < 32 -> bm_bit bm (32 * word + b) = Z.testbit w b) as Hbit.
  { intros b Hb. unfold bm_bit.
    rewrite (Z.mul_comm 32 word), (Z.div_add_l word 32 b), (Z.div_small b 32), Z.add_0_r, Hw by lia.
    rewrite (Z.add_comm (word * 32)), Z.mod_add, Z.mod_small by lia. done. }
  pose proof (scan_bits_spec n w 0 ltac:(lia) ltac:(lia)) as Hs. unfold first_clear.
  destruct (scan_bits n w 0) as [b|]; cbn [mbind option_bind].
  - destruct Hs as (?&Hc&Hall). replace (word * 32 + b) with (32 * word + b) by lia.
    repeat split; [lia..|by rewrite Hbit by lia|].
    intros j Hj. replace j with (32 * word + (j - 32 * word)) by lia.
    rewrite Hbit by lia. apply Hall. lia.
  - intros j Hj. replace j with (32 * word + (j - 32 * word)) by lia.
    rewrite Hbit by lia. apply Hs. lia.
Qed.

Lemma scan_words_spec n bm w :
  0 <= w -> w + Z.of_nat n <= zlen bm ->
  exists r, scan_words n bm w = Some r /\ first_clear bm (32 * w) (32 * (w + Z.of_nat n)) r.
Proof.
  revert w. induction n as [|n IH]; intros w Hw Hn; cbn [scan_words].
  { exists None. split; [done|]. simpl. lia. }
  destruct (bm_load bm w) as (bits&Hl&Hlk); [lia|]. rewrite Hl. cbn [mbind option_bind].
  destruct (IH (w + 1)) as (r&Hr&Hf); [lia..|].
  replace (32 * (w + 1 + Z.of_nat n)) with (32 * (w + Z.of_nat (S n))) in Hf by lia.
  pose proof (scan_word_first bm bits w 32 Hlk Hw ltac:(lia)) as Hword. unfold BITMAP_WORD_SIZE.
  case_test.
  - exists r. split; [done|]. eapply first_clear_cons; [| |exact Hf]; [lia|].
    intros j Hj. unfold bm_bit. pose proof (div_mod_32 j) as [Hd Hm].
    replace (j / 32) with w by lia. rewrite Hlk. by apply all_ones_bit.
  - destruct (scan_bits 32 bits 0) as [b|]; cbn [mbind option_bind] in Hword.
    + exists (Some (w * 32 + b)). split; [done|]. destruct Hword as (?&?&?).
      simpl in *. repeat split; try done; lia.
    + exists r. split; [done|]. eapply first_clear_cons; [| |exact Hf]; [lia|].
      intros j Hj. apply Hword. lia.
Qed.

(** ** Theorems *)

(** Setting or clearing a region of any position and length, across word boundaries,
    changes exactly the bits of the region and stays inside the word array. *)
Theorem region_update_exact bm index blocks set :
  bm_ok bm -> 0 <= index -> 0 <= blocks -> index + blocks <= 32 * zlen bm ->
  exists bm', (if set : bool then bitmap_set_region bm index blocks
               else bitmap_clear_region bm index blocks) = Some bm' /\
    bm_ok bm' /\ length bm' = length bm /\
    forall i, 0 <= i -> bm_bit bm' i =
      if (index <=? i) && (i <? index + blocks) then set else bm_bit bm i.
Proof.
  intros. unfold bitmap_set_region, bitmap_clear_region.
  replace (if set then _ else _) with (write_region bm index blocks set) by (by destruct set).
  by apply write_region_spec.
Qed.

Lemma region_update_exact_witness :
  exists bm', bitmap_set_region [0; 5; 0] 30 36 = Some bm' /\
    bm' = [3221225472; 4294967295; 3].
Proof.
  destruct (region_update_exact [0; 5; 0] 30 36 true) as (bm'&Hs&_).
  - repeat constructor; vm_compute; congruence.
  - vm_compute. discriminate.
  - vm_compute. discriminate.
  - vm_compute. discriminate.
  - exists bm'. split; [exact Hs|]. vm_compute in Hs. congruence.
Defined.

(** [bitmap_find_first_clear] answers the least clear index below [bit_count], and answers
    that there is none only when every bit below [bit_count] is set. *)
Theorem find_first_clear_spec bm bit_count :
  0 <= bit_count <= 32 * zlen bm ->
  exists r, bitmap_find_first_clear (Some bm) bit_count = Some r /\ first_clear bm 0 bit_count r.
Proof.
  intros Hc. unfold bitmap_find_first_clear, BITMAP_WORD_SIZE.
  pose proof (div_mod_32 bit_count) as [Hd Hm].
  destruct (scan_words_spec (Z.to_nat (bit_count / 32)) bm 0) as (r&Hr&Hf); [lia..|].
  replace (32 * (0 + Z.of_nat (Z.to_nat (bit_count / 32)))) with (32 * (bit_count / 32)) in Hf by lia.
  rewrite Hr. cbn [mbind option_bind]. destruct r as [i|].
  { exists (Some i). split; [done|]. destruct Hf as (?&?&?). simpl in *. repeat split; try done; lia. }
  case_test.
  { exists None. split; [done|]. intros j Hj. apply Hf. lia. }
  destruct (bm_load bm (bit_count / 32)) as (tail&Hl&Hlk); [lia|]. rewrite Hl. cbn [mbind option_bind].
  pose proof (scan_word_first bm tail (bit_count / 32) (Z.to_nat (bit_count mod 32)) Hlk
    ltac:(lia) ltac:(lia)) as Hword.
  replace (32 * (bit_count / 32) + Z.of_nat (Z.to_nat (bit_count mod 32))) with bit_count in Hword by lia.
  destruct (scan_bits _ tail 0) as [b|]; cbn [mbind option_bind] in Hword;
    eexists; (split; [reflexivity|]);
    by apply (first_clear_cons _ 0 (32 * (bit_count / 32))); [lia| |].
Qed.

Lemma find_first_clear_spec_witness :
  exists r, bitmap_find_first_clear (Some [4294967295; 4294967295; 7]) 70 = Some r /\ r = Some 67.
Proof.
  destruct (find_first_clear_spec [4294967295; 4294967295; 7] 70) as (r&Hr&_).
  - vm_compute. intuition congruence.
  - exists r. split; [exact Hr|]. vm_compute in Hr. congruence.
Defined.
End Bitmap.
