(* ===== verification/BitmapAlloc.v ===== *)
(** * The block allocator: [libs/alloc/bitmap.c]

    A chunk of memory is cut into blocks of [block_size] bytes; the bitmap of used blocks lives
    in the first blocks of the chunk itself.  The kernel heap and the physical page allocator
    hand out runs of blocks from it.  [alloc_inv] ties the cached counters to the bitmap; the
    theorems show that the two search strategies are sound and complete, that a run handed out
    was free and stays inside the chunk, and that freeing is exact. *)

From S2P Require Import Prelude Memory Bitmap.
Import Bitmap.

Module BitmapAlloc.

Record bitmap_allocator_t := {
  chunk_start : Z;
  chunk_size : Z;
  block_size : Z;
  block_count : Z;
  usable_blocks : Z;
  free_blocks : Z;
  word_count : Z;
  bitmap : list Z;
  next_fit_block : Z
}.

Section Defs.
Context `{Arch}.
Implicit Types (alloc : bitmap_allocator_t).

Definition DIV_ROUND_UP (a b : Z) : Z := wrap (wrap (a + b) - 1) / b.

Definition bitmap_alloc_to_block alloc (p : Z) : Z :=
  wrap (p - chunk_start alloc) / block_size alloc.

Definition bitmap_alloc_to_ptr alloc (block : Z) : Z :=
  wrap (chunk_start alloc + wrap (block * block_size alloc)).

(** The null pointer is address 0.  The words the bitmap occupies are zeroed by [memset]. *)
Definition bitmap_alloc_init (alloc : option bitmap_allocator_t) (start size bsize : Z)
  : option (bool * option bitmap_allocator_t) :=
  match alloc with
  | None => Some (false, None)
  | Some _ =>
      if (start =? 0) || (size =? 0) || (bsize =? 0) then Some (false, alloc)
      else
        let bcount := size / bsize in
        if bcount =? 0 then Some (false, alloc)
        else
          let wcount := DIV_ROUND_UP bcount BITMAP_WORD_SIZE in
          if SIZE_MAX / 4 <? wcount then Some (false, alloc)
          else
            let bitmap_bytes := wrap (wcount * 4) in
            let bitmap_blocks := DIV_ROUND_UP bitmap_bytes bsize in
            if (bitmap_blocks =? 0) || (bcount <=? bitmap_blocks) then Some (false, alloc)
            else
              let free := wrap (bcount - bitmap_blocks) in
              bm ← bitmap_set_region (replicate (Z.to_nat wcount) 0) 0 bitmap_blocks;
              Some (true, Some {| chunk_start := start; chunk_size := size; block_size := bsize;
                                  block_count := bcount; usable_blocks := free;
                                  free_blocks := free; word_count := wcount; bitmap := bm;
                                  next_fit_block := bitmap_blocks |})
  end.

(** The scan of [first_fit_in_range]: [None] for an access outside the bitmap or missing
    fuel, [Some None] when the range is exhausted. *)
Fixpoint first_fit_loop (fuel : nat) (bm : list Z) (blocks block end_ bottom size : Z)
  : option (option Z) :=
  if end_ <=? block then Some None
  else
    match fuel with
    | O => None
    | S f =>
        let bit := block mod BITMAP_WORD_SIZE in
        let word := block / BITMAP_WORD_SIZE in
        bits ← mload bm word;
        if (bit =? 0) && (bits =? BITMAP_WORD_MAX) && (BITMAP_WORD_SIZE <=? end_ - block) then
          first_fit_loop f bm blocks (block + (BITMAP_WORD_SIZE - 1) + 1) end_ bottom 0
        else if negb (Z.land bits (u32_wrap (Z.shiftl 1 bit)) =? 0) then
          first_fit_loop f bm blocks (block + 1) end_ bottom 0
        else
          let bottom' := if size =? 0 then block else bottom in
          let size' := size + 1 in
          if size' =? blocks then Some (Some bottom')
          else first_fit_loop f bm blocks (block + 1) end_ bottom' size'
    end.

Definition first_fit_in_range alloc (blocks begin_ end_ : Z) : option (option Z) :=
  if (blocks =? 0) || (end_ <=? begin_) then Some None
  else first_fit_loop (Z.to_nat (end_ - begin_)) (bitmap alloc) blocks begin_ end_ 0 0.

Definition _first_fit alloc (blocks : Z) : option (option Z) :=
  if blocks =? 0 then Some None
  else
    let start := if block_count alloc <=? next_fit_block alloc then 0 else next_fit_block alloc in
    r1 ← first_fit_in_range alloc blocks start (block_count alloc);
    match r1 with
    | Some b => Some (Some b)
    | None =>
        r2 ← (if negb (start =? 0) then first_fit_in_range alloc blocks 0 start else Some None);
        match r2 with
        | Some b => Some (Some b)
        | None => first_fit_in_range alloc blocks 0 (block_count alloc)
        end
    end.

(** The bit loop of [_last_fit] on one word, from bit [n - 1] down: the block found, or the
    region size and top carried to the next word. *)
Fixpoint last_fit_bits (n : nat) (bits word_index bcount blocks size top : Z) : Z + (Z * Z) :=
  match n with
  | O => inr (size, top)
  | S n' =>
      let bit_index := Z.of_nat n' in
      let block := word_index * BITMAP_WORD_SIZE + bit_index in
      if bcount <=? block then last_fit_bits n' bits word_index bcount blocks 0 block
      else if negb (Z.land bits (u32_wrap (Z.shiftl 1 bit_index)) =? 0) then
        last_fit_bits n' bits word_index bcount blocks 0 block
      else
        let size' := size + 1 in
        if size' =? blocks then inl (wrap (top - blocks))
        else last_fit_bits n' bits word_index bcount blocks size' top
  end.

(** [for (word = word_count; word > 0; word--)]. *)
Fixpoint last_fit_words (word : nat) (bm : list Z) (bcount blocks size top : Z)
  : option (option Z) :=
  match word with
  | O => Some None
  | S word_index =>
      bits ← mload bm (Z.of_nat word_index);
      if bits =? BITMAP_WORD_MAX then
        last_fit_words word_index bm bcount blocks 0 (Z.of_nat word_index * BITMAP_WORD_SIZE)
      else
        match last_fit_bits 32 bits (Z.of_nat word_index) bcount blocks size top with
        | inl b => Some (Some b)
        | inr (size', top') => last_fit_words word_index bm bcount blocks size' top'
        end
  end.

Definition _last_fit alloc (blocks : Z) : option (option Z) :=
  if blocks =? 0 then Some None
  else last_fit_words (Z.to_nat (word_count alloc)) (bitmap alloc) (block_count alloc) blocks
         0 (block_count alloc).

Definition set_state alloc (bm : list Z) (free next : Z) : bitmap_allocator_t :=
  {| chunk_start := chunk_start alloc; chunk_size := chunk_size alloc;
     block_size := block_size alloc; block_count := block_count alloc;
     usable_blocks := usable_blocks alloc; free_blocks := free; word_count := word_count alloc;
     bitmap := bm; next_fit_block := next |}.

(** The answer is the address of the run, 0 standing for [NULL], and the allocator after. *)
Definition bitmap_alloc_reserve (alloc : option bitmap_allocator_t) (blocks : Z)
  : option (Z * option bitmap_allocator_t) :=
  match alloc with
  | None => Some (0, None)
  | Some a =>
      if (blocks =? 0) || (free_blocks a <? blocks) then Some (0, alloc)
      else
        r ← _first_fit a blocks;
        match r with
        | None => Some (0, alloc)
        | Some first =>
            bm ← bitmap_set_region (bitmap a) first blocks;
            let next := wrap (first + blocks) in
            let next := if block_count a <=? next then 0 else next in
            let a' := set_state a bm (wrap (free_blocks a - blocks)) next in
            Some (bitmap_alloc_to_ptr a' first, Some a')
        end
  end.

Definition bitmap_alloc_high (alloc : option bitmap_allocator_t) (blocks : Z)
  : option (Z * option bitmap_allocator_t) :=
  match alloc with
  | None => Some (0, None)
  | Some a =>
      if (blocks =? 0) || (free_blocks a <? blocks) then Some (0, alloc)
      else
        r ← _last_fit a blocks;
        match r with
        | None => Some (0, alloc)
        | Some first =>
            bm ← bitmap_set_region (bitmap a) first blocks;
            let a' := set_state a bm (wrap (free_blocks a - blocks)) (next_fit_block a) in
            Some (bitmap_alloc_to_ptr a' first, Some a')
        end
  end.

(** [for (i = 0; i < blocks; i++) if (!bitmap_get(...)) return false;] *)
Fixpoint all_used (n : nat) (bm : list Z) (block : Z) : option bool :=
  match n with
  | O => Some true
  | S n' => b ← bitmap_get bm block; if b : bool then all_used n' bm (block + 1) else Some false
  end.

Definition bitmap_alloc_free (alloc : option bitmap_allocator_t) (p blocks : Z)
  : option (bool * option bitmap_allocator_t) :=
  match alloc with
  | None => Some (false, None)
  | Some a =>
      if (p =? 0) || (blocks =? 0)
         || ((block_size a =? 0) || (block_count a =? 0) || (chunk_size a =? 0))
      then Some (false, alloc)
      else
        let start := chunk_start a in
        let end_ := wrap (start + chunk_size a) in
        let out_of_range := (end_ <=? start) || (p <? start) || (end_ <=? p) in
        let invalid_layout := chunk_size a / block_size a <? block_count a in
        if out_of_range || invalid_layout then Some (false, alloc)
        else if negb (wrap (p - start) mod block_size a =? 0) then Some (false, alloc)
        else
          let first := bitmap_alloc_to_block a p in
          if (block_count a <=? first) || (wrap (block_count a - first) <? blocks)
          then Some (false, alloc)
          else
            ok ← all_used (Z.to_nat blocks) (bitmap a) first;
            if negb ok then Some (false, alloc)
            else
              bm ← bitmap_clear_region (bitmap a) first blocks;
              let next := if first <? next_fit_block a then first else next_fit_block a in
              let free := if wrap (block_count a - free_blocks a) <? blocks then block_count a
                          else wrap (free_blocks a + blocks) in
              Some (true, Some (set_state a bm free next))
  end.

(** ** Specification *)

(** The blocks [b .. b + n - 1] are free. *)
Definition free_run (bm : list Z) (b n : Z) : Prop :=
  forall i, b <= i < b + n -> bm_bit bm i = false.

(** Number of free blocks among the first [n]. *)
Fixpoint nfree (bm : list Z) (n : nat) : Z :=
  match n with
  | O => 0
  | S n' => nfree bm n' + if bm_bit bm (Z.of_nat n') then 0 else 1
  end.

Definition alloc_inv alloc : Prop :=
  0 < chunk_start alloc /\ chunk_start alloc + chunk_size alloc < SIZE_MOD /\
  chunk_size alloc + 64 <= SIZE_MOD /\
  0 < block_size alloc /\ 0 < block_count alloc /\
  block_count alloc * block_size alloc <= chunk_size alloc /\
  word_count alloc = zlen (bitmap alloc) /\
  block_count alloc <= 32 * word_count alloc < block_count alloc + 32 /\
  bm_ok (bitmap alloc) /\
  free_blocks alloc = nfree (bitmap alloc) (Z.to_nat (block_count alloc)) /\
  0 <= usable_blocks alloc < block_count alloc /\ 0 <= next_fit_block alloc.

(** The answer of a search for the lowest free run of [n] blocks inside [lo .. hi - 1]. *)
Definition lowest_run (bm : list Z) (n lo hi : Z) (r : option Z) : Prop :=
  match r with
  | Some b => lo <= b /\ b + n <= hi /\ free_run bm b n /\
              forall b', lo <= b' -> b' + n <= hi -> free_run bm b' n -> b <= b'
  | None => forall b', lo <= b' -> b' + n <= hi -> ~ free_run bm b' n
  end.

(** The answer of a search for the highest one. *)
Definition highest_run (bm : list Z) (n hi : Z) (r : option Z) : Prop :=
  match r with
  | Some b => 0 <= b /\ b + n <= hi /\ free_run bm b n /\
              forall b', 0 <= b' -> b' + n <= hi -> free_run bm b' n -> b' <= b
  | None => forall b', 0 <= b' -> b' + n <= hi -> ~ free_run bm b' n
  end.

(** ** Lemmas on runs *)

Lemma free_run_0 bm b : free_run bm b 0.
Proof. intros i Hi. lia. Qed.

Lemma free_run_snoc bm b n :
  0 <= n -> free_run bm b n -> bm_bit bm (b + n) = false -> free_run bm b (n + 1).
Proof.
  intros Hn Hr Hb i Hi. destruct (Z.eq_dec i (b + n)) as [->|]; [done|apply Hr; lia].
Qed.

Lemma free_run_cons bm b n :
  0 <= n -> free_run bm b n -> bm_bit bm (b - 1) = false -> free_run bm (b - 1) (n + 1).
Proof.
  intros Hn Hr Hb i Hi. destruct (Z.eq_dec i (b - 1)) as [->|]; [done|apply Hr; lia].
Qed.

(** A free run does not contain a used block. *)
Lemma free_run_used bm b n i : free_run bm b n -> bm_bit bm i = true -> i < b \/ b + n <= i.
Proof.
  intros Hr Hu. destruct (decide (b <= i < b + n)) as [Hin|]; [|lia].
  rewrite Hr in Hu by done. done.
Qed.

Lemma bm_bit_word bm block w :
  0 <= block < 32 * zlen bm -> mload bm (block / 32) = Some w ->
  bm_bit bm block = Z.testbit w (block mod 32).
Proof. intros Hb [_ Hl]%mload_Some. unfold bm_bit. by rewrite Hl. Qed.

Lemma bm_bit_full_word bm block w i :
  mload bm (block / 32) = Some w -> block mod 32 = 0 -> w = BITMAP_WORD_MAX ->
  block <= i < block + 32 -> bm_bit bm i = true.
Proof.
  intros [_ Hl]%mload_Some Hm Hw Hi. pose proof (div_mod_32 block) as [Hd _].
  pose proof (div_mod_32 i) as [Hdi Hmi]. unfold bm_bit.
  replace (i / 32) with (block / 32) by lia. rewrite Hl. by apply all_ones_bit.
Qed.

(** ** First fit *)

Lemma first_fit_loop_spec fuel bm n lo hi block bottom size :
  0 <= lo -> hi <= 32 * zlen bm -> 0 < n -> lo <= block ->
  0 <= size < n -> size <= block - lo -> (0 < size -> bottom = block - size) ->
  block <= hi -> free_run bm (block - size) size ->
  (forall b', lo <= b' -> b' + n <= hi -> free_run bm b' n -> block - size <= b') ->
  (Z.to_nat (hi - block) <= fuel)%nat ->
  exists r, first_fit_loop fuel bm n block hi bottom size = Some r /\ lowest_run bm n lo hi r.
Proof.
  revert block bottom size. induction fuel as [|f IH];
    intros block bottom size Hlo Hhi Hn Hb Hs Hsz Hbot Hbh Hrun Hmin Hfuel; cbn [first_fit_loop].
  all: destruct (Z.leb_spec hi block) as [Hge|Hlt];
    [exists None; split; [done|]; intros b' ?? Hr'; specialize (Hmin b' ltac:(lia) ltac:(lia) Hr'); lia|].
  { lia. }
  unfold BITMAP_WORD_SIZE. pose proof (div_mod_32 block) as [Hd Hm].
  destruct (bm_load bm (block / 32)) as (w&Hl&_); [lia|]. rewrite Hl. cbn [mbind option_bind].
  (* a used block pushes every candidate run behind it *)
  assert (forall u, block < u -> (forall i, block <= i < u -> bm_bit bm i = true) ->
    forall b', lo <= b' -> b' + n <= hi -> free_run bm b' n -> u <= b') as Hpush.
  { intros u Hu Hused b' H1 H2 Hr'. specialize (Hmin b' H1 H2 Hr').
    destruct (decide (u <= b')); [done|]. exfalso.
    destruct (decide (block <= b')).
    - specialize (Hused b' ltac:(lia)). specialize (Hr' b' ltac:(lia)). congruence.
    - specialize (Hused block ltac:(lia)). specialize (Hr' block ltac:(lia)). congruence. }
  destruct ((block mod 32 =? 0) && (w =? BITMAP_WORD_MAX) && (32 <=? hi - block)) eqn:Efull.
  { bool_facts. replace (block + (32 - 1) + 1) with (block + 32) by lia.
    apply IH; try lia; [rewrite Z.sub_0_r; apply free_run_0|].
    rewrite Z.sub_0_r. apply Hpush; [lia|]. intros i Hi. by eapply bm_bit_full_word. }
  rewrite test_bit, negb_involutive, <- (bm_bit_word bm block w) by (done || lia).
  destruct (bm_bit bm block) eqn:Ebit.
  { apply IH; try lia; [rewrite Z.sub_0_r; apply free_run_0|].
    rewrite Z.sub_0_r. apply Hpush; [lia|]. intros i Hi. by replace i with block by lia. }
  set (bottom' := if size =? 0 then block else bottom).
  assert (bottom' = block - size) as Hbot' by (unfold bottom'; case_test; lia).
  assert (free_run bm (block - size) (size + 1)) as Hrun'.
  { apply free_run_snoc; [lia|done|]. by replace (block - size + size) with block by lia. }
  destruct (Z.eqb_spec (size + 1) n) as [<-|Hne].
  - exists (Some bottom'). split; [done|]. rewrite Hbot'. simpl. repeat split; [lia..|done|done].
  - apply IH; try lia; [by replace (block + 1 - (size + 1)) with (block - size) by lia|].
    intros b' ???. specialize (Hmin b'). replace (block + 1 - (size + 1)) with (block - size) by lia. auto.
Qed.

Lemma first_fit_in_range_spec alloc n lo hi :
  0 < n -> 0 <= lo -> hi <= 32 * zlen (bitmap alloc) ->
  exists r, first_fit_in_range alloc n lo hi = Some r /\ lowest_run (bitmap alloc) n lo hi r.
Proof.
  intros Hn Hlo Hhi. unfold first_fit_in_range. test_lia.
  destruct (Z.leb_spec hi lo); [exists None; split; [done|]; simpl; intros; lia|].
  apply first_fit_loop_spec; try lia.
  rewrite Z.sub_0_r. apply free_run_0.
Qed.

(** First fit finds a free run whenever the chunk has one. *)
Lemma first_fit_spec alloc n :
  0 < n -> block_count alloc <= 32 * zlen (bitmap alloc) -> 0 <= next_fit_block alloc ->
  exists r, _first_fit alloc n = Some r /\
    match r with
    | Some b => 0 <= b /\ b + n <= block_count alloc /\ free_run (bitmap alloc) b n
    | None => forall b, 0 <= b -> b + n <= block_count alloc -> ~ free_run (bitmap alloc) b n
    end.
Proof.
  intros Hn Hc Hnext. unfold _first_fit. test_lia.
  set (start := if _ <=? _ then 0 else _).
  assert (0 <= start) as Hst by (unfold start; case_test; lia).
  assert (start = 0 \/ start < block_count alloc) as Hst2 by (unfold start; case_test; lia). clearbody start.
  destruct (first_fit_in_range_spec alloc n start (block_count alloc)) as (r1&->&H1); [lia..|].
  cbn [mbind option_bind]. destruct r1 as [b|].
  { exists (Some b). split; [done|]. destruct H1 as (?&?&?&_). repeat split; try done; lia. }
  assert (exists r2, (if negb (start =? 0) then first_fit_in_range alloc n 0 start else Some None) = Some r2 /\
    match r2 with Some b => 0 <= b /\ b + n <= start /\ free_run (bitmap alloc) b n | None => True end)
    as (r2&->&H2).
  { destruct (Z.eqb_spec start 0); cbn [negb]; [by exists None|].
    destruct (first_fit_in_range_spec alloc n 0 start) as (r2&->&H2); [lia..|].
    exists r2. split; [done|]. destruct r2; [|done]. destruct H2 as (?&?&?&_). done. }
  cbn [mbind option_bind]. destruct r2 as [b|].
  { exists (Some b). split; [done|]. destruct H2 as (?&?&?). repeat split; try done; lia. }
  destruct (first_fit_in_range_spec alloc n 0 (block_count alloc)) as (r3&->&H3); [lia..|].
  exists r3. split; [done|]. destruct r3; [|done]. destruct H3 as (?&?&?&_). done.
Qed.

(** ** Last fit *)

(** What holds when every block at or above [cur] has been looked at. *)
Definition lf_inv (bm : list Z) (n bcount cur size top : Z) : Prop :=
  0 <= size < n /\ (bcount <= cur -> size = 0) /\
  (cur <= bcount -> top = cur + size /\ cur + size <= bcount) /\ free_run bm cur size /\
  forall b', 0 <= b' -> b' + n <= bcount -> free_run bm b' n -> b' + n <= cur + size.

Lemma last_fit_bits_spec (k : nat) bm w word_index bcount n size top :
  (k <= 32)%nat -> 0 <= word_index -> bm !! Z.to_nat word_index = Some w -> 0 < n -> bcount < SIZE_MOD ->
  lf_inv bm n bcount (word_index * 32 + Z.of_nat k) size top ->
  match last_fit_bits k w word_index bcount n size top with
  | inl b => highest_run bm n bcount (Some b)
  | inr (size', top') => lf_inv bm n bcount (word_index * 32) size' top'
  end.
Proof.
  revert size top. induction k as [|k IH]; intros size top Hk Hw Hlk Hn Hmax Hinv;
    cbn [last_fit_bits].
  { by rewrite Z.add_0_r in Hinv. }
  unfold BITMAP_WORD_SIZE. set (block := word_index * 32 + Z.of_nat k) in *.
  replace (word_index * 32 + Z.of_nat (S k)) with (block + 1) in Hinv by lia.
  assert (bm_bit bm block = Z.testbit w (Z.of_nat k)) as Hbit.
  { unfold bm_bit, block. rewrite Z.div_add_l, (Z.div_small (Z.of_nat k)), Z.add_0_r, Hlk by lia.
    by rewrite Z.add_comm, Z.mod_add, Z.mod_small by lia. }
  destruct Hinv as (Hs&Hbeyond&Htop&Hrun&Hmax').
  destruct (Z.leb_spec bcount block) as [Hge|Hlt].
  { apply IH; try done; try lia. repeat split; try lia. apply free_run_0. }
  rewrite test_bit, negb_involutive, <- Hbit by lia.
  destruct (bm_bit bm block) eqn:Eb.
  { apply IH; try done; try lia. repeat split; try lia; [apply free_run_0|].
    intros b' ? ? Hr'. specialize (Hmax' b' ltac:(lia) ltac:(lia) Hr').
    destruct (free_run_used _ _ _ _ Hr' Eb); lia. }
  assert (free_run bm block (size + 1)) as Hrun'.
  { replace block with (block + 1 - 1) by lia. apply free_run_cons; [lia|done|].
    by replace (block + 1 - 1) with block by lia. }
  destruct (Htop ltac:(lia)) as [-> Hfit].
  destruct (Z.eqb_spec (size + 1) n) as [En|Hne].
  - replace (wrap (block + 1 + size - n)) with block by (rewrite wrap_small; lia).
    simpl. rewrite <- En. repeat split; [lia..|done|].
    intros b' ? ? Hr'. rewrite En in *. specialize (Hmax' b' ltac:(lia) ltac:(lia) Hr'). lia.
  - apply IH; try done; try lia. repeat split; try lia; [done|].
    intros b' ? ? Hr'. specialize (Hmax' b' ltac:(lia) ltac:(lia) Hr'). lia.
Qed.

Lemma last_fit_words_spec (word : nat) bm bcount n size top :
  Z.of_nat word <= zlen bm -> 0 < n -> bcount < SIZE_MOD -> 32 * Z.of_nat word < bcount + 32 ->
  lf_inv bm n bcount (Z.of_nat word * 32) size top ->
  exists r, last_fit_words word bm bcount n size top = Some r /\ highest_run bm n bcount r.
Proof.
  revert size top. induction word as [|wi IH]; intros size top Hw Hn Hmax Hwc Hinv;
    cbn [last_fit_words].
  { exists None. split; [done|]. intros b' ? ? Hr'. destruct Hinv as (?&?&?&_&Hm).
    specialize (Hm b' ltac:(lia) ltac:(lia) Hr'). lia. }
  destruct (bm_load bm (Z.of_nat wi)) as (w&Hl&Hlk); [lia|]. rewrite Hl. cbn [mbind option_bind].
  unfold BITMAP_WORD_SIZE. case_test.
  - apply IH; try lia. destruct Hinv as (?&?&?&_&Hm).
    repeat split; try lia; [apply free_run_0|].
    intros b' ? ? Hr'. specialize (Hm b' ltac:(lia) ltac:(lia) Hr'). rewrite Z.add_0_r.
    assert (forall i, 32 * Z.of_nat wi <= i < 32 * Z.of_nat wi + 32 -> bm_bit bm i = true) as Hfull.
    { intros i Hi. apply (bm_bit_full_word bm (32 * Z.of_nat wi) w); try done.
      - by replace (32 * Z.of_nat wi / 32) with (Z.of_nat wi) by (rewrite Z.mul_comm, Z.div_mul; lia).
      - rewrite Z.mul_comm. apply Z.mod_mul. lia. }
    destruct (decide (b' + n <= Z.of_nat wi * 32)); [done|]. exfalso.
    destruct (decide (32 * Z.of_nat wi <= b')).
    + specialize (Hfull b' ltac:(lia)). specialize (Hr' b' ltac:(lia)). congruence.
    + specialize (Hfull (32 * Z.of_nat wi) ltac:(lia)).
      specialize (Hr' (32 * Z.of_nat wi) ltac:(lia)). congruence.
  - pose proof (last_fit_bits_spec 32 bm w (Z.of_nat wi) bcount n size top) as Hbits.
    replace (Z.of_nat wi * 32 + Z.of_nat 32) with (Z.of_nat (S wi) * 32) in Hbits by lia.
    specialize (Hbits ltac:(lia) ltac:(lia) Hlk Hn Hmax Hinv).
    destruct (last_fit_bits 32 w (Z.of_nat wi) bcount n size top) as [b|[size' top']]; [eauto|].
    apply IH; try done; lia.
Qed.

Lemma last_fit_spec alloc n :
  alloc_inv alloc -> 0 < n ->
  exists r, _last_fit alloc n = Some r /\ highest_run (bitmap alloc) n (block_count alloc) r.
Proof.
  intros (?&?&?&?&?&?&Hwc&?&?&?&?&?) Hn. unfold _last_fit. test_lia.
  assert (block_count alloc < SIZE_MOD) by nia.
  apply last_fit_words_spec; try lia.
  repeat split; try lia. apply free_run_0.
Qed.

(** ** Counting *)

Lemma nfree_range bm n : 0 <= nfree bm n <= Z.of_nat n.
Proof. induction n as [|n IH]; cbn [nfree]; [lia|]. case_test; lia. Qed.

(** Flipping a uniform region changes the count by its length. *)
Lemma nfree_region bm bm' a k (v : bool) n :
  0 <= a -> 0 <= k ->
  (forall i, a <= i < a + k -> bm_bit bm i = negb v) ->
  (forall i, 0 <= i -> bm_bit bm' i = if (a <=? i) && (i <? a + k) then v else bm_bit bm i) ->
  nfree bm n - nfree bm' n =
    (if v then 1 else -1) * Z.max 0 (Z.min (Z.of_nat n) (a + k) - a).
Proof.
  intros Ha Hk Hbm Hbm'. induction n as [|n IH]; cbn [nfree]; [case_test; lia|].
  rewrite Hbm' by lia. destruct ((a <=? Z.of_nat n) && (Z.of_nat n <? a + k)) eqn:E.
  - bool_facts. rewrite Hbm by lia. destruct v; cbn [negb]; lia.
  - apply andb_false_iff in E as [E|E]; bool_facts; destruct v; lia.
Qed.

Lemma nfree_ge_run bm a k n :
  0 <= a -> 0 <= k -> a + k <= Z.of_nat n -> free_run bm a k -> k <= nfree bm n.
Proof.
  intros Ha Hk Hn Hr.
  enough (Z.max 0 (Z.min (Z.of_nat n) (a + k) - a) <= nfree bm n) by lia. clear Hn.
  induction n as [|n IH]; cbn [nfree]; [lia|].
  destruct (bm_bit bm (Z.of_nat n)) eqn:E; [|lia].
  destruct (free_run_used _ _ _ _ Hr E); lia.
Qed.

(** ** Reserving *)

Definition same_layout (a a' : bitmap_allocator_t) : Prop :=
  chunk_start a' = chunk_start a /\ chunk_size a' = chunk_size a /\
  block_size a' = block_size a /\ block_count a' = block_count a /\
  usable_blocks a' = usable_blocks a.

Lemma to_ptr_ok a b n :
  alloc_inv a -> 0 <= b -> 0 < n -> b + n <= block_count a ->
  bitmap_alloc_to_ptr a b = chunk_start a + b * block_size a.
Proof.
  intros (?&?&?&?&?&?&_) Hb Hn Hfit. unfold bitmap_alloc_to_ptr.
  assert ((b + n) * block_size a <= block_count a * block_size a) by nia.
  rewrite (wrap_small (b * block_size a)) by nia. apply wrap_small. nia.
Qed.

(** Marking a free run used keeps the invariant and the accounting. *)
Lemma take_run_spec a b n next :
  alloc_inv a -> 0 <= b -> 0 < n -> b + n <= block_count a -> free_run (bitmap a) b n -> 0 <= next ->
  exists bm, bitmap_set_region (bitmap a) b n = Some bm /\
    let a' := set_state a bm (wrap (free_blocks a - n)) next in
    alloc_inv a' /\ free_blocks a' = free_blocks a - n /\
    bitmap_alloc_to_ptr a' b = chunk_start a + b * block_size a /\
    forall i, 0 <= i -> bm_bit (bitmap a') i =
      if (b <=? i) && (i <? b + n) then true else bm_bit (bitmap a) i.
Proof.
  intros Hinv Hb Hn Hfit Hrun Hnext.
  pose proof Hinv as (?&?&?&?&?&?&Hwc&?&Hok&Hfree&?&?).
  destruct (write_region_spec (bitmap a) b n true) as (bm&Hw&Hok'&Hl'&Hbits); [done|lia..|].
  exists bm. split; [done|].
  pose proof (nfree_region (bitmap a) bm b n true (Z.to_nat (block_count a)) ltac:(lia) ltac:(lia)
    Hrun Hbits) as Hcount.
  pose proof (nfree_ge_run (bitmap a) b n (Z.to_nat (block_count a)) ltac:(lia) ltac:(lia) ltac:(lia) Hrun).
  pose proof (nfree_range (bitmap a) (Z.to_nat (block_count a))).
  assert (block_count a < SIZE_MOD) by nia.
  rewrite (wrap_small (free_blocks a - n)) by lia.
  set (a' := set_state a bm (free_blocks a - n) next). cbn zeta.
  assert (alloc_inv a') as Hinv'.
  { repeat split; simpl; try done; try lia. unfold zlen in *. lia. }
  split; [done|]. split; [done|]. split; [|done]. by apply (to_ptr_ok a' b n).
Qed.

(** The outcome both allocation calls promise: [NULL] with the allocator unchanged when no
    free run of [n] blocks exists, and otherwise the address of a run that was free, now
    marked used and accounted for, every other block unchanged. *)
Definition reserve_outcome (a : bitmap_allocator_t) (n p : Z) (a' : bitmap_allocator_t) : Prop :=
  (p = 0 /\ a' = a /\ (forall b, 0 <= b -> b + n <= block_count a -> ~ free_run (bitmap a) b n)) \/
  (exists b, p = chunk_start a + b * block_size a /\ 0 <= b /\ b + n <= block_count a /\
     free_run (bitmap a) b n /\ alloc_inv a' /\ same_layout a a' /\
     free_blocks a' = free_blocks a - n /\
     forall i, 0 <= i -> bm_bit (bitmap a') i =
       if (b <=? i) && (i <? b + n) then true else bm_bit (bitmap a) i).

Lemma too_few_free a n :
  alloc_inv a -> free_blocks a < n ->
  forall b, 0 <= b -> b + n <= block_count a -> ~ free_run (bitmap a) b n.
Proof.
  intros (?&?&?&?&?&?&Hwc&?&Hok&Hfree&?&?) Hlt b Hb Hfit Hrun.
  pose proof (nfree_range (bitmap a) (Z.to_nat (block_count a))).
  pose proof (nfree_ge_run (bitmap a) b n (Z.to_nat (block_count a)) ltac:(lia) ltac:(lia) ltac:(lia) Hrun).
  lia.
Qed.

Lemma reserve_spec a n :
  alloc_inv a -> 0 < n ->
  exists p a', bitmap_alloc_reserve (Some a) n = Some (p, Some a') /\ reserve_outcome a n p a'.
Proof.
  intros Hinv Hn. pose proof (too_few_free a n Hinv) as Hfew.
  pose proof Hinv as (?&?&?&?&?&?&Hwc&?&Hok&Hfree&?&?).
  unfold bitmap_alloc_reserve. test_lia. case_test.
  { exists 0, a. split; [done|]. left. auto. }
  destruct (first_fit_spec a n) as (r&->&Hr); [lia..|]. cbn [mbind option_bind].
  destruct r as [b|]; [|exists 0, a; split; [done|]; left; auto].
  destruct Hr as (Hb&Hfit&Hrun).
  set (next := if _ <=? wrap (b + n) then 0 else wrap (b + n)).
  assert (0 <= next) by (unfold next; pose proof (wrap_range (b + n)); case_test; lia).
  destruct (take_run_spec a b n next) as (bm&->&Hinv'&Hf&Hp&Hbits); [done|lia..|done|lia|].
  cbn [mbind option_bind]. do 2 eexists. split; [reflexivity|]. right.
  exists b. rewrite Hp. repeat (split; [done|]). done.
Qed.

Lemma high_spec a n :
  alloc_inv a -> 0 < n ->
  exists p a', bitmap_alloc_high (Some a) n = Some (p, Some a') /\ reserve_outcome a n p a' /\
    (forall b, 0 <= b -> b + n <= block_count a -> free_run (bitmap a) b n ->
       chunk_start a + b * block_size a <= p).
Proof.
  intros Hinv Hn. pose proof (too_few_free a n Hinv) as Hfew.
  pose proof Hinv as (?&?&?&?&?&?&Hwc&?&Hok&Hfree&?&?).
  unfold bitmap_alloc_high. test_lia. case_test.
  { exists 0, a. split; [done|]. split; [left; auto|]. intros b ???. destruct (Hfew E b); done. }
  destruct (last_fit_spec a n) as (r&->&Hr); [done..|]. cbn [mbind option_bind].
  destruct r as [b|].
  2: { exists 0, a; split; [done|]. split; [left; auto|]. intros b ???. by destruct (Hr b). }
  destruct Hr as (Hb&Hfit&Hrun&Hmax).
  destruct (take_run_spec a b n (next_fit_block a)) as (bm&->&Hinv'&Hf&Hp&Hbits); [done|lia..|done|lia|].
  cbn [mbind option_bind]. do 2 eexists. split; [reflexivity|]. rewrite Hp. split.
  - right. exists b. repeat (split; [done|]). done.
  - intros b' ???. apply Z.add_le_mono_l, Z.mul_le_mono_nonneg_r; [lia|auto].
Qed.

(** ** Freeing *)

Definition used_run (bm : list Z) (b n : Z) : Prop := forall i, b <= i < b + n -> bm_bit bm i = true.

Lemma all_used_spec k bm block :
  0 <= block -> block + Z.of_nat k <= 32 * zlen bm ->
  exists r, all_used k bm block = Some r /\ (r = true <-> used_run bm block (Z.of_nat k)).
Proof.
  revert block. induction k as [|k IH]; intros block Hb Hfit; cbn [all_used].
  { exists true. split; [done|]. split; [intros _ i Hi; lia|done]. }
  rewrite bitmap_get_spec by lia. cbn [mbind option_bind].
  destruct (bm_bit bm block) eqn:E.
  - destruct (IH (block + 1)) as (r&->&Hr); [lia..|]. exists r. split; [done|]. rewrite Hr.
    split; intros Hu i Hi.
    + destruct (Z.eq_dec i block) as [->|]; [done|]. apply Hu. lia.
    + apply Hu. lia.
  - exists false. split; [done|]. split; [done|]. intros Hu. specialize (Hu block ltac:(lia)). congruence.
Qed.

(** The pointer designates block [b] and the run fits in the chunk. *)
Definition run_at (a : bitmap_allocator_t) (p b n : Z) : Prop :=
  p = chunk_start a + b * block_size a /\ 0 <= b /\ 0 < n /\ b + n <= block_count a.

Lemma free_guards a p n b :
  alloc_inv a -> run_at a p b n ->
  chunk_start a <= p < chunk_start a + chunk_size a /\
  wrap (chunk_start a + chunk_size a) = chunk_start a + chunk_size a /\
  wrap (p - chunk_start a) mod block_size a = 0 /\ bitmap_alloc_to_block a p = b /\
  wrap (block_count a - b) = block_count a - b /\
  block_count a <= chunk_size a / block_size a.
Proof.
  intros (?&?&?&?&?&?&_) (->&Hb&Hn&Hfit).
  assert ((b + n) * block_size a <= block_count a * block_size a) by nia.
  assert (block_count a < SIZE_MOD) by nia.
  unfold bitmap_alloc_to_block.
  replace (chunk_start a + b * block_size a - chunk_start a) with (b * block_size a) by lia.
  rewrite !wrap_small by nia. rewrite Z.mod_mul, Z.div_mul by lia.
  repeat split; try nia. apply Z.div_le_lower_bound; lia.
Qed.

(** Freeing a run of the chunk succeeds exactly when all its blocks are in use. *)
Lemma free_spec a p n b :
  alloc_inv a -> run_at a p b n ->
  (used_run (bitmap a) b n /\
   exists a', bitmap_alloc_free (Some a) p n = Some (true, Some a') /\ alloc_inv a' /\
     same_layout a a' /\ free_blocks a' = free_blocks a + n /\
     forall i, 0 <= i -> bm_bit (bitmap a') i =
       if (b <=? i) && (i <? b + n) then false else bm_bit (bitmap a) i) \/
  (~ used_run (bitmap a) b n /\ bitmap_alloc_free (Some a) p n = Some (false, Some a)).
Proof.
  intros Hinv Hrun. destruct (free_guards a p n b Hinv Hrun) as (Hp&He&Hm&Hblk&Hleft&Hlay).
  pose proof Hinv as (?&?&?&?&?&?&Hwc&?&Hok&Hfree&?&?). destruct Hrun as (Hp0&Hb&Hn&Hfit).
  unfold bitmap_alloc_free. rewrite He, Hm, Hblk, Hleft.
  assert (0 < chunk_size a) by nia. clear Hp0. test_lia.
  destruct (all_used_spec (Z.to_nat n) (bitmap a) b) as (r&->&Hr); [lia..|].
  rewrite Z2Nat.id in Hr by lia. cbn [mbind option_bind].
  destruct r; cbn [negb]; [left|right; split; [|done]; intros Hu; by apply Hr in Hu].
  assert (used_run (bitmap a) b n) as Hu by (by apply Hr). split; [done|].
  destruct (write_region_spec (bitmap a) b n false) as (bm&Hw&Hok'&Hl'&Hbits); [done|lia..|].
  unfold bitmap_clear_region. rewrite Hw. cbn [mbind option_bind].
  pose proof (nfree_region (bitmap a) bm b n false (Z.to_nat (block_count a)) ltac:(lia) ltac:(lia)
    Hu Hbits) as Hcount.
  pose proof (nfree_range (bitmap a) (Z.to_nat (block_count a))).
  pose proof (nfree_range bm (Z.to_nat (block_count a))).
  assert (block_count a < SIZE_MOD) by nia.
  rewrite (wrap_small (block_count a - free_blocks a)) by lia. test_lia.
  rewrite (wrap_small (free_blocks a + n)) by lia.
  eexists. split; [reflexivity|]. split; [|repeat (split; [done|]); done].
  repeat split; simpl; try done; try lia; [unfold zlen in *; lia|]. case_test; lia.
Qed.

(** A pointer that does not designate a run of the chunk is refused. *)
Lemma free_rejects a p n :
  alloc_inv a -> 0 <= p < SIZE_MOD -> 0 <= n < SIZE_MOD -> (forall b, ~ run_at a p b n) ->
  bitmap_alloc_free (Some a) p n = Some (false, Some a).
Proof.
  intros Hinv Hp Hn Hno. pose proof Hinv as (?&?&?&?&?&?&Hwc&?&Hok&Hfree&?&?).
  unfold bitmap_alloc_free, bitmap_alloc_to_block.
  assert (0 < chunk_size a) by nia. assert (block_count a < SIZE_MOD) by nia.
  rewrite (wrap_small (chunk_start a + chunk_size a)) by lia.
  destruct (Z.eq_dec p 0) as [->|]; [done|]. destruct (Z.eq_dec n 0) as [->|]; [by rewrite orb_true_r|].
  test_lia. destruct (decide (chunk_start a <= p < chunk_start a + chunk_size a)) as [Hin|Hout].
  2: { replace (_ || _ || _) with true; [done|]. symmetry.
       destruct (Z.ltb_spec p (chunk_start a)); [done|].
       destruct (Z.leb_spec (chunk_start a + chunk_size a) p); [done|lia]. }
  test_lia. assert (block_count a <= chunk_size a / block_size a) by (apply Z.div_le_lower_bound; lia).
  test_lia. rewrite (wrap_small (p - chunk_start a)) by lia.
  destruct (Z.eqb_spec ((p - chunk_start a) mod block_size a) 0) as [E|E]; cbn [negb]; [|done].
  set (b := (p - chunk_start a) / block_size a).
  assert (p = chunk_start a + b * block_size a /\ 0 <= b) as [Hpb Hb0].
  { unfold b. pose proof (Z.div_mod (p - chunk_start a) (block_size a) ltac:(lia)).
    split; [lia|]. apply Z.div_pos; lia. }
  destruct (Z.leb_spec (block_count a) b); [done|]. cbn [orb].
  rewrite (wrap_small (block_count a - b)) by lia.
  destruct (Z.ltb_spec (block_count a - b) n); [done|].
  exfalso. apply (Hno b). repeat split; done || lia.
Qed.

(** ** Initialisation *)

Lemma div_round_up a b :
  0 < a -> 0 < b -> a + b < SIZE_MOD ->
  let q := DIV_ROUND_UP a b in a <= q * b < a + b /\ 0 < q.
Proof.
  intros Ha Hb Hmax q. unfold q, DIV_ROUND_UP.
  rewrite (wrap_small (a + b)) by lia. rewrite wrap_small by lia.
  pose proof (Z.div_mod (a + b - 1) b ltac:(lia)) as Hd.
  pose proof (Z.mod_pos_bound (a + b - 1) b Hb) as Hm.
  assert (0 < (a + b - 1) / b) by (apply Z.div_str_pos; lia). nia.
Qed.

Lemma bm_bit_zero k i : bm_bit (replicate k 0) i = false.
Proof.
  unfold bm_bit. destruct (replicate k 0 !! Z.to_nat (i / 32)) eqn:E; [|done].
  apply lookup_replicate in E as [-> _]. apply Z.bits_0.
Qed.

Lemma nfree_prefix bm k n :
  0 <= k <= Z.of_nat n -> (forall i, 0 <= i -> bm_bit bm i = (i <? k)) -> nfree bm n = Z.of_nat n - k.
Proof.
  intros Hk Hb. enough (nfree bm n = Z.max 0 (Z.of_nat n - k)) by lia. destruct Hk as [Hk _].
  induction n as [|n IH]; cbn [nfree]; [lia|]. rewrite Hb, IH by lia. case_test; lia.
Qed.

(** The blocks that hold the bitmap itself. *)
Definition bitmap_blocks (a : bitmap_allocator_t) : Z := block_count a - usable_blocks a.

Lemma init_spec a0 start size bsize a :
  0 < start -> start + size < SIZE_MOD -> size + 64 <= SIZE_MOD -> 0 <= size -> 0 <= bsize ->
  bitmap_alloc_init (Some a0) start size bsize = Some (true, Some a) ->
  alloc_inv a /\ chunk_start a = start /\ chunk_size a = size /\ block_size a = bsize /\
  0 < bitmap_blocks a /\ 4 * word_count a <= bitmap_blocks a * bsize /\
  free_blocks a = usable_blocks a /\
  forall i, 0 <= i -> bm_bit (bitmap a) i = (i <? bitmap_blocks a).
Proof.
  intros Hs Hend Hmax Hsz Hbs. unfold bitmap_alloc_init.
  destruct ((start =? 0) || (size =? 0) || (bsize =? 0)) eqn:E0; [done|]. bool_facts.
  set (bc := size / bsize). destruct (Z.eqb_spec bc 0) as [|Hbc]; [done|].
  assert (0 <= bc) by (apply Z.div_pos; lia).
  assert (bc * bsize <= size) by (rewrite Z.mul_comm; apply Z.mul_div_le; lia).
  clearbody bc. assert (bc <= size) by nia.
  destruct (div_round_up bc 32) as [Hwc Hwc0]; [lia..|]. unfold BITMAP_WORD_SIZE.
  set (wc := DIV_ROUND_UP bc 32) in *. clearbody wc.
  destruct (Z.ltb_spec (SIZE_MAX / 4) wc) as [|Hov]; [done|].
  assert (wc * 4 < SIZE_MOD).
  { unfold SIZE_MAX in Hov. pose proof (Z.mul_div_le (SIZE_MOD - 1) 4 ltac:(lia)). lia. }
  rewrite (wrap_small (wc * 4)) by lia.
  destruct (div_round_up (wc * 4) bsize) as [Hbb Hbb0]; [lia|lia|nia|].
  set (bb := DIV_ROUND_UP (wc * 4) bsize) in *. clearbody bb.
  destruct ((bb =? 0) || (bc <=? bb)) eqn:E1; [done|]. bool_facts.
  rewrite (wrap_small (bc - bb)) by lia.
  assert (zlen (replicate (Z.to_nat wc) 0) = wc) as Hz by (unfold zlen; rewrite length_replicate; lia).
  destruct (write_region_spec (replicate (Z.to_nat wc) 0) 0 bb true) as (bm&Hw&Hok&Hl&Hbits);
    [apply Forall_replicate; unfold word_ok; lia|lia..|].
  unfold bitmap_set_region. rewrite Hw. cbn [mbind option_bind]. intros [= <-].
  assert (forall i, 0 <= i -> bm_bit bm i = (i <? bb)) as Hb.
  { intros i Hi. rewrite Hbits, bm_bit_zero by done. rewrite Z.add_0_l, (proj2 (Z.leb_le 0 i)) by done. by destruct (i <? bb). }
  unfold alloc_inv, bitmap_blocks; simpl.
  replace (bc - (bc - bb)) with bb by lia.
  pose proof (nfree_prefix bm bb (Z.to_nat bc) ltac:(lia) Hb) as Hnf.
  repeat split; try done; try lia; unfold zlen in *; lia.
Qed.

(** ** Histories of an allocator

    A client holds a list of live runs [(pointer, blocks)]; it may allocate either way and
    free what it holds. *)
Abbreviation heap := (bitmap_allocator_t * list (Z * Z))%type.

Inductive heap_step : heap -> heap -> Prop :=
  | step_reserve a live n p a' :
      0 < n -> bitmap_alloc_reserve (Some a) n = Some (p, Some a') ->
      heap_step (a, live) (a', if p =? 0 then live else (p, n) :: live)
  | step_high a live n p a' :
      0 < n -> bitmap_alloc_high (Some a) n = Some (p, Some a') ->
      heap_step (a, live) (a', if p =? 0 then live else (p, n) :: live)
  | step_free a live p n live' ok a' :
      live ≡ₚ (p, n) :: live' -> bitmap_alloc_free (Some a) p n = Some (ok, Some a') ->
      heap_step (a, live) (a', live').

(** The states an allocator can reach after [bitmap_alloc_init]. *)
Inductive reachable (start size bsize : Z) : heap -> Prop :=
  | reach_init a0 a :
      0 < start -> start + size < SIZE_MOD -> size + 64 <= SIZE_MOD -> 0 <= size -> 0 <= bsize ->
      bitmap_alloc_init (Some a0) start size bsize = Some (true, Some a) ->
      reachable start size bsize (a, [])
  | reach_step h h' : reachable start size bsize h -> heap_step h h' -> reachable start size bsize h'.

Definition in_run (start bsize : Z) (r : Z * Z) (i : Z) : bool :=
  let b := (r.1 - start) / bsize in (b <=? i) && (i <? b + r.2).

(** How many live runs contain block [i]. *)
Fixpoint cover (start bsize : Z) (live : list (Z * Z)) (i : Z) : Z :=
  match live with
  | [] => 0
  | r :: l => (if in_run start bsize r i then 1 else 0) + cover start bsize l i
  end.

Fixpoint total (live : list (Z * Z)) : Z :=
  match live with [] => 0 | r :: l => r.2 + total l end.

(** The bitmap is exactly the bitmap's own blocks and the live runs, each block counted once. *)
Definition heap_inv (start size bsize : Z) (h : heap) : Prop :=
  let '(a, live) := h in
  alloc_inv a /\ chunk_start a = start /\ chunk_size a = size /\ block_size a = bsize /\
  0 < bitmap_blocks a /\ 4 * word_count a <= bitmap_blocks a * bsize /\
  free_blocks a + total live = usable_blocks a /\
  (forall i, 0 <= i < block_count a ->
     (if bm_bit (bitmap a) i then 1 else 0) =
     (if i <? bitmap_blocks a then 1 else 0) + cover start bsize live i) /\
  Forall (fun r => exists b, run_at a r.1 b r.2) live.

Lemma in_run_block a p b n i :
  alloc_inv a -> run_at a p b n ->
  in_run (chunk_start a) (block_size a) (p, n) i = (b <=? i) && (i <? b + n).
Proof.
  intros (_&_&_&?&_) (->&_). unfold in_run. simpl.
  replace (chunk_start a + b * block_size a - chunk_start a) with (b * block_size a) by lia.
  by rewrite Z.div_mul by lia.
Qed.

Lemma cover_perm start bsize l l' i : l ≡ₚ l' -> cover start bsize l i = cover start bsize l' i.
Proof. induction 1; simpl; lia. Qed.

Lemma total_perm l l' : l ≡ₚ l' -> total l = total l'.
Proof. induction 1; simpl; lia. Qed.

Lemma cover_nonneg start bsize l i : 0 <= cover start bsize l i.
Proof. induction l; simpl; [lia|]. case_test; lia. Qed.

Lemma run_at_layout a a' p b n : same_layout a a' -> run_at a p b n -> run_at a' p b n.
Proof. intros (E1&E2&E3&E4&E5) (?&?&?&?). unfold run_at. rewrite E1, E3, E4. done. Qed.

Lemma heap_alloc_step start size bsize a live n p a' :
  heap_inv start size bsize (a, live) -> 0 < n -> word_count a' = word_count a ->
  reserve_outcome a n p a' ->
  heap_inv start size bsize (a', if p =? 0 then live else (p, n) :: live).
Proof.
  intros (Hinv&<-&<-&<-&Hbb&Hfit4&Htot&Hbits&Hlive) Hn Hwc [(->&->&_)|Hgot].
  { simpl. repeat (split; [done|]). done. }
  destruct Hgot as (b&->&Hb&Hfit&Hrun&Hinv'&Hlay&Hfree&Hbits').
  assert (run_at a (chunk_start a + b * block_size a) b n) as Hat by (repeat split; done || lia).
  pose proof Hinv as (?&_&_&?&_).
  rewrite (proj2 (Z.eqb_neq _ 0)) by nia.
  destruct Hlay as (E1&E2&E3&E4&E5). unfold heap_inv, bitmap_blocks in *.
  rewrite E1, E2, E3, E4, E5, Hwc, Hfree. cbn [total snd cover].
  repeat (split; [done || lia|]). split.
  - intros i Hi. rewrite Hbits', (in_run_block a _ b) by (done || lia).
    specialize (Hbits i Hi). specialize (Hrun i).
    destruct ((b <=? i) && (i <? b + n)) eqn:E; [bool_facts; rewrite Hrun in Hbits by lia|]; lia.
  - constructor.
    + exists b. apply (run_at_layout a); [by repeat split|done].
    + eapply Forall_impl; [|exact Hlive]. intros r [b' ?]. exists b'.
      apply (run_at_layout a); [by repeat split|done].
Qed.

(** What a client holds is marked used, so freeing it succeeds. *)
Lemma live_used start size bsize a live p n live' b :
  heap_inv start size bsize (a, live) -> live ≡ₚ (p, n) :: live' -> run_at a p b n ->
  used_run (bitmap a) b n.
Proof.
  intros (Hinv&<-&<-&<-&Hbb&_&_&Hbits&_) Hperm Hat i Hi.
  pose proof Hat as (_&?&?&?). specialize (Hbits i ltac:(lia)).
  rewrite (cover_perm _ _ _ _ _ Hperm) in Hbits. cbn [cover] in Hbits.
  rewrite (in_run_block a p b n) in Hbits by done.
  pose proof (cover_nonneg (chunk_start a) (block_size a) live' i) as Hc.
  rewrite (proj2 (andb_true_iff (b <=? i) _)) in Hbits
    by (split; [apply Z.leb_le|apply Z.ltb_lt]; lia).
  destruct (bm_bit (bitmap a) i); [done|]. exfalso. revert Hbits. case_test; lia.
Qed.

Lemma heap_free_step start size bsize a live p n live' ok a' :
  heap_inv start size bsize (a, live) -> live ≡ₚ (p, n) :: live' ->
  bitmap_alloc_free (Some a) p n = Some (ok, Some a') ->
  ok = true /\ heap_inv start size bsize (a', live').
Proof.
  intros Hh Hperm Hf. pose proof Hh as (Hinv&<-&<-&<-&Hbb&Hfit4&Htot&Hbits&Hlive).
  rewrite Hperm in Hlive. apply Forall_cons_1 in Hlive as [[b Hat] Hlive]. simpl in Hat.
  pose proof (live_used _ _ _ _ _ _ _ _ _ Hh Hperm Hat) as Hused.
  destruct (free_spec a p n b Hinv Hat) as [(_&a1&Hf1&Hinv'&Hlay&Hfree&Hbits')|[Hno _]]; [|done].
  rewrite Hf in Hf1. injection Hf1 as -> ->. split; [done|].
  assert (word_count a1 = word_count a) as Hwc.
  { destruct Hinv as (?&?&?&?&?&?&?&?&?). destruct Hinv' as (?&?&?&?&?&?&?&?&?).
    destruct Hlay as (?&?&?&?&?). lia. }
  pose proof Hlay as (E1&E2&E3&E4&E5). unfold heap_inv, bitmap_blocks in *.
  rewrite (total_perm _ _ Hperm) in Htot. cbn [total snd] in Htot.
  rewrite E1, E2, E3, E4, E5, Hwc, Hfree.
  repeat (split; [done || lia|]). split.
  - intros i Hi. rewrite Hbits' by lia. specialize (Hbits i Hi). specialize (Hused i).
    rewrite (cover_perm _ _ _ _ _ Hperm) in Hbits. cbn [cover] in Hbits.
    rewrite (in_run_block a p b n) in Hbits by done.
    destruct ((b <=? i) && (i <? b + n)) eqn:E; [bool_facts; rewrite Hused in Hbits by lia|]; lia.
  - eapply Forall_impl; [|exact Hlive]. intros r [b' ?]. exists b'. by apply (run_at_layout a).
Qed.

Lemma outcome_words a n p a' :
  alloc_inv a -> reserve_outcome a n p a' -> word_count a' = word_count a.
Proof.
  intros (?&?&?&?&?&?&?&?&_) [(_&->&_)|(b&_&_&_&_&(?&?&?&?&?&?&?&?&_)&(?&?&?&?&?)&_)]; [done|]. lia.
Qed.

Lemma reachable_inv start size bsize h : reachable start size bsize h -> heap_inv start size bsize h.
Proof.
  induction 1 as [a0 a ? ? ? ? ? Hi|h h' _ IH Hs].
  - destruct (init_spec a0 start size bsize a) as (Hinv&?&?&?&?&?&?&Hb); [done..|].
    simpl. repeat (split; [done || lia|]). split; [|constructor].
    intros i Hij. rewrite Hb by lia. lia.
  - destruct Hs as [a live n p a' Hn Hr|a live n p a' Hn Hr|a live p n live' ok a' Hperm Hf].
    + destruct (reserve_spec a n) as (p1&a1&Hr1&Ho); [apply IH|done|]. rewrite Hr in Hr1. simplify_eq.
      eapply heap_alloc_step; eauto using outcome_words. eapply outcome_words; eauto; apply IH.
    + destruct (high_spec a n) as (p1&a1&Hr1&Ho&_); [apply IH|done|]. rewrite Hr in Hr1. simplify_eq.
      eapply heap_alloc_step; eauto using outcome_words. eapply outcome_words; eauto; apply IH.
    + by eapply heap_free_step.
Qed.

(** ** Theorems *)

(** C23: In every history of allocations and frees that starts from [bitmap_alloc_init], two
    live allocations never share a byte, each lies inside the chunk and behind the blocks the
    bitmap itself occupies, the free counter is exact, and freeing any live allocation
    succeeds. *)
Theorem live_allocations_disjoint start size bsize a live p n live' :
  reachable start size bsize (a, live) -> live ≡ₚ (p, n) :: live' ->
  (forall q m, (q, m) ∈ live' -> p + n * bsize <= q \/ q + m * bsize <= p) /\
  start + 4 * word_count a <= p /\ p + n * bsize <= start + size /\
  free_blocks a = usable_blocks a - total live /\
  exists a', bitmap_alloc_free (Some a) p n = Some (true, Some a').
Proof.
  intros Hreach Hperm. apply reachable_inv in Hreach as Hh.
  pose proof Hh as (Hinv&Es&Ez&Eb&Hbb&Hfit4&Htot&Hbits&Hlive).
  rewrite Hperm in Hlive. apply Forall_cons_1 in Hlive as [[b Hat] Hlive]. simpl in Hat.
  pose proof Hinv as (_&_&_&?&_&?&_). pose proof Hat as (Hp&Hb&Hn&Hfit).
  assert (bitmap_blocks a <= b) as Hbehind.
  { destruct (decide (bitmap_blocks a <= b)); [done|]. exfalso.
    specialize (Hbits b ltac:(lia)). rewrite (cover_perm _ _ _ _ _ Hperm), <- Es, <- Eb in Hbits.
    cbn [cover] in Hbits. rewrite (in_run_block a p b n) in Hbits by done. test_lia.
    pose proof (cover_nonneg (chunk_start a) (block_size a) live' b).
    revert Hbits. test_lia. destruct (bm_bit (bitmap a) b); lia. }
  rewrite <- Es, <- Ez, <- Eb. split; [|split; [|split; [|split]]].
  - intros q m Hq. apply list_elem_of_In in Hq. rewrite Forall_forall in Hlive. destruct (Hlive _ Hq) as [c Hc].
    simpl in Hc. pose proof Hc as (Hqc&Hc0&Hm&Hcfit).
    assert (b + n <= c \/ c + m <= b) as Hdisj.
    { destruct (decide (b + n <= c)); [by left|]. destruct (decide (c + m <= b)); [by right|]. exfalso.
      apply in_split in Hq as (l1&l2&->).
      specialize (Hbits (Z.max b c) ltac:(lia)).
      rewrite (cover_perm _ _ _ ((p, n) :: (q, m) :: l1 ++ l2)), <- Es, <- Eb in Hbits
        by (rewrite Hperm; by rewrite <- Permutation_middle).
      cbn [cover] in Hbits.
      rewrite (in_run_block a p b n), (in_run_block a q c m) in Hbits by done.
      pose proof (cover_nonneg (chunk_start a) (block_size a) (l1 ++ l2) (Z.max b c)).
      revert Hbits. test_lia. repeat case_test; lia. }
    destruct Hdisj; [left|right]; nia.
  - nia.
  - nia.
  - lia.
  - destruct (free_spec a p n b Hinv Hat) as [(_&a1&Hf&_)|[Hno _]]; [eauto|].
    destruct Hno. by eapply live_used.
Qed.

(** [bitmap_alloc_reserve] and [bitmap_alloc_high] never fail spuriously: they answer
    [NULL], changing nothing, only when no run of [n] free blocks exists; otherwise they hand
    out a run that was free, mark exactly its blocks used and count them.  The high variant
    hands out the run with the highest address. *)
Theorem reserve_complete a n :
  alloc_inv a -> 0 < n ->
  (exists p a', bitmap_alloc_reserve (Some a) n = Some (p, Some a') /\ reserve_outcome a n p a') /\
  (exists p a', bitmap_alloc_high (Some a) n = Some (p, Some a') /\ reserve_outcome a n p a' /\
     forall b, 0 <= b -> b + n <= block_count a -> free_run (bitmap a) b n ->
       chunk_start a + b * block_size a <= p).
Proof. intros. split; [by apply reserve_spec|by apply high_spec]. Qed.

(** C40: [bitmap_alloc_free] accepts a pointer and a length exactly when they designate whole
    blocks of the chunk that are all in use; it then clears exactly those blocks and counts
    them.  Any other call, a double free or a wild pointer, is refused and changes nothing. *)
Theorem free_exact a p n :
  alloc_inv a -> 0 <= p < SIZE_MOD -> 0 <= n < SIZE_MOD ->
  (exists b a', run_at a p b n /\ used_run (bitmap a) b n /\
     bitmap_alloc_free (Some a) p n = Some (true, Some a') /\ alloc_inv a' /\
     free_blocks a' = free_blocks a + n /\
     forall i, 0 <= i -> bm_bit (bitmap a') i =
       if (b <=? i) && (i <? b + n) then false else bm_bit (bitmap a) i) \/
  ((forall b, run_at a p b n -> ~ used_run (bitmap a) b n) /\
   bitmap_alloc_free (Some a) p n = Some (false, Some a)).
Proof.
  intros Hinv Hp Hn. set (b := (p - chunk_start a) / block_size a).
  pose proof Hinv as (_&_&_&?&_).
  assert (forall b', run_at a p b' n -> b' = b) as Huniq.
  { intros b' (->&_). unfold b.
    replace (chunk_start a + b' * block_size a - chunk_start a) with (b' * block_size a) by lia.
    by rewrite Z.div_mul by lia. }
  destruct (decide (p = chunk_start a + b * block_size a /\ 0 <= b /\ 0 < n /\ b + n <= block_count a))
    as [Hat|Hno].
  - destruct (free_spec a p n b Hinv Hat) as [(Hu&a'&Hf&?&_&?&?)|[Hnu Hf]].
    + left. exists b, a'. repeat (split; [done|]). done.
    + right. split; [|done]. intros b' Hat'. by rewrite (Huniq b' Hat').
  - right. assert (forall b', ~ run_at a p b' n) as Hnone.
    { intros b' Hat'. apply Hno. rewrite <- (Huniq b' Hat'). exact Hat'. }
    split; [intros b' Hat'; by destruct (Hnone b')|]. by apply free_rejects.
Qed.
End Defs.

(** A chunk of 8 blocks of 16 bytes at address 4096. *)
Definition demo_alloc : bitmap_allocator_t :=
  {| chunk_start := 4096; chunk_size := 128; block_size := 16; block_count := 8;
     usable_blocks := 7; free_blocks := 7; word_count := 1; bitmap := [1]; next_fit_block := 1 |}.

Lemma demo_alloc_init :
  @bitmap_alloc_init arch64 (Some demo_alloc) 4096 128 16 = Some (true, Some demo_alloc).
Proof. reflexivity. Defined.

Lemma demo_alloc_inv : @alloc_inv arch64 demo_alloc.
Proof.
  apply (@init_spec arch64 demo_alloc 4096 128 16 demo_alloc);
    [vm_compute; congruence..|exact demo_alloc_init].
Defined.

Lemma live_allocations_disjoint_witness :
  exists a, @reachable arch64 4096 128 16 (a, [(4176, 3); (4112, 2)]) /\
    4096 + 4 * word_count a <= 4176 /\ free_blocks a = 2.
Proof.
  set (a1 := {| chunk_start := 4096; chunk_size := 128; block_size := 16; block_count := 8;
                usable_blocks := 7; free_blocks := 5; word_count := 1; bitmap := [7];
                next_fit_block := 3 |}).
  set (a2 := {| chunk_start := 4096; chunk_size := 128; block_size := 16; block_count := 8;
                usable_blocks := 7; free_blocks := 2; word_count := 1; bitmap := [231];
                next_fit_block := 3 |}).
  assert (@reachable arch64 4096 128 16 (a2, [(4176, 3); (4112, 2)])) as Hreach.
  { apply (@reach_step arch64 4096 128 16 (a1, [(4112, 2)]));
      [apply (@reach_step arch64 4096 128 16 (demo_alloc, []))|].
    - apply (@reach_init arch64 4096 128 16 demo_alloc demo_alloc); vm_compute; congruence.
    - apply (@step_reserve arch64 demo_alloc [] 2 4112 a1); vm_compute; reflexivity.
    - apply (@step_high arch64 a1 [(4112, 2)] 3 4176 a2); vm_compute; reflexivity. }
  exists a2. split; [exact Hreach|].
  destruct (@live_allocations_disjoint arch64 4096 128 16 a2 _ 4176 3 [(4112, 2)] Hreach
    (Permutation_refl _)) as (_&H1&_&H2&_).
  split; [exact H1|exact H2].
Defined.

Lemma reserve_complete_witness :
  exists p a', @bitmap_alloc_high arch64 (Some demo_alloc) 2 = Some (p, Some a') /\ p = 4192.
Proof.
  destruct (@reserve_complete arch64 demo_alloc 2 demo_alloc_inv eq_refl) as [_ (p&a'&Hr&_)].
  exists p, a'. split; [exact Hr|]. vm_compute in Hr. congruence.
Defined.

Lemma free_exact_witness :
  @bitmap_alloc_free arch64 (Some demo_alloc) 4128 1 = Some (false, Some demo_alloc).
Proof.
  destruct (@free_exact arch64 demo_alloc 4128 1 demo_alloc_inv) as [(b&a'&_&_&Hf&_)|[_ Hf]].
  - vm_compute. intuition congruence.
  - vm_compute. intuition congruence.
  - exfalso. vm_compute in Hf. congruence.
  - exact Hf.
Defined.
End BitmapAlloc.
