(* ===== verification/Pmm.v ===== *)
(** * Physical frames: [kernel/arch/x86/mm/physical.c]

    The page frame allocator is a block allocator of 4 KiB blocks with a table of 16-bit reference
    counts beside it.  A frame shared by several address spaces is given back to the block allocator
    by the last of them.  Every function runs under the allocator's spin lock; addresses are physical. *)

From S2P Require Import Prelude Memory Outcome Bitmap BitmapAlloc.
From stdpp Require Import relations list.
Import Bitmap BitmapAlloc.
Open Scope Z_scope.

Module Pmm.

Definition PAGE_4KIB : Z := 4096.
Definition UINT16_MAX : Z := 65535.

(** The table is absent, here empty, until [refs_ready]. *)
Record pmm_state_t := mk_pmm {
  frames : bitmap_allocator_t; refs : list Z; ref_count : Z; refs_ready : bool
}.

Definition set_frames (a : bitmap_allocator_t) (st : pmm_state_t) : pmm_state_t :=
  mk_pmm a (refs st) (ref_count st) (refs_ready st).
Definition set_refs (r : list Z) (st : pmm_state_t) : pmm_state_t :=
  mk_pmm (frames st) r (ref_count st) (refs_ready st).

Section Defs.
Context `{Arch}.
Implicit Types (st : pmm_state_t).

Definition _pmm_block_index st (p : Z) : Z := bitmap_alloc_to_block (frames st) p.

(** The loop of [_pmm_ref_set_range], [i] upwards. *)
Fixpoint set_loop (n : nat) (i start value count : Z) (r : list Z) : option (list Z) :=
  match n with
  | O => Some r
  | S n =>
      let index := wrap (start + i) in
      r ← (if index <? count then mstore r index value else Some r);
      set_loop n (i + 1) start value count r
  end.

Definition _pmm_ref_set_range st (p blocks value : Z) : option pmm_state_t :=
  if negb (refs_ready st) || (p =? 0) || (blocks =? 0) then Some st
  else
    r ← set_loop (Z.to_nat blocks) 0 (_pmm_block_index st p) value (ref_count st) (refs st);
    Some (set_refs r st).

(** [for (i = 0; i < block_count; i++) if (bitmap_get(bitmap, i)) refs[i] = 1;] *)
Fixpoint seed_loop (n : nat) (i : Z) (bm r : list Z) : option (list Z) :=
  match n with
  | O => Some r
  | S n =>
      used ← bitmap_get bm i;
      r ← (if used : bool then mstore r i 1 else Some r);
      seed_loop n (i + 1) bm r
  end.

(** [malloc] tells whether the block below [calloc] is found. *)
Definition pmm_ref_init (malloc : Z -> bool) st : option pmm_state_t :=
  if refs_ready st || (block_count (frames st) =? 0) then Some st
  else if negb (calloc malloc (block_count (frames st)) 2) then Some st
  else
    let n := block_count (frames st) in
    r ← seed_loop (Z.to_nat n) 0 (bitmap (frames st)) (replicate (Z.to_nat n) 0);
    Some (mk_pmm (frames st) r n true).

Definition pmm_ref_ready st : bool := refs_ready st.

Definition pmm_total_mem st : Z := wrap (usable_blocks (frames st) * block_size (frames st)).
Definition pmm_free_mem st : Z := wrap (free_blocks (frames st) * block_size (frames st)).

Definition pmm_alloc_frames st (count : Z) (high : bool) : run (Z * pmm_state_t) :=
  if count =? 0 then panic
  else
    '(p, a) ← lift (if high then bitmap_alloc_high (Some (frames st)) count
                    else bitmap_alloc_reserve (Some (frames st)) count);
    let st := match a with Some a => set_frames a st | None => st end in
    if negb (p =? 0) then st ← lift (_pmm_ref_set_range st p count 1); ret (p, st)
    else ret (p, st).

(** [alloc_frames] and [alloc_frames_high]. *)
Definition alloc_frames_at (high : bool) st (count : Z) : run (Z * pmm_state_t) :=
  '(p, st) ← pmm_alloc_frames st count high;
  if p =? 0 then panic else ret (p, st).
Definition alloc_frames := alloc_frames_at false.
Definition alloc_frames_high := alloc_frames_at true.

(** User frames come from the top of memory in the [i386] and RISC-V builds: [user_high]. *)
Definition alloc_frames_user (user_high : bool) st (count : Z) : run (Z * pmm_state_t) :=
  pmm_alloc_frames st count user_high.

(** The loop of [free_frames]. *)
Fixpoint free_loop (n : nat) (i start : Z) st : option pmm_state_t :=
  match n with
  | O => Some st
  | S n =>
      let index := wrap (start + i) in
      if ref_count st <=? index then free_loop n (i + 1) start st
      else
        c ← mload (refs st) index;
        r ← (if 0 <? c then mstore (refs st) index (c - 1) else Some (refs st));
        c ← mload r index;
        let st := set_refs r st in
        st ← (if c =? 0 then
                '(_, a) ← bitmap_alloc_free (Some (frames st)) (bitmap_alloc_to_ptr (frames st) index) 1;
                match a with Some a => Some (set_frames a st) | None => Some st end
              else Some st);
        free_loop n (i + 1) start st
  end.

Definition free_frames st (p size : Z) : option pmm_state_t :=
  if negb (refs_ready st) then
    '(_, a) ← bitmap_alloc_free (Some (frames st)) p size;
    match a with Some a => Some (set_frames a st) | None => Some st end
  else if (p =? 0) || (size =? 0) then Some st
  else free_loop (Z.to_nat size) 0 (_pmm_block_index st p) st.

Fixpoint hold_loop (n : nat) (i start count : Z) (r : list Z) : option (list Z) :=
  match n with
  | O => Some r
  | S n =>
      let index := wrap (start + i) in
      r ← (if index <? count then
             c ← mload r index; if c <? UINT16_MAX then mstore r index (c + 1) else Some r
           else Some r);
      hold_loop n (i + 1) start count r
  end.

Definition pmm_ref_hold st (p blocks : Z) : option pmm_state_t :=
  if negb (refs_ready st) || (p =? 0) || (blocks =? 0) then Some st
  else
    r ← hold_loop (Z.to_nat blocks) 0 (_pmm_block_index st p) (ref_count st) (refs st);
    Some (set_refs r st).

Definition pmm_refcount st (p : Z) : option Z :=
  if negb (refs_ready st) || (p =? 0) then Some 1
  else
    let index := _pmm_block_index st p in
    if ref_count st <=? index then Some 1 else mload (refs st) index.

(** ** Specification *)

(** The count of frame [i], 0 outside the table. *)
Definition cnt (r : list Z) (i : Z) : Z := if 0 <=? i then default 0 (r !! Z.to_nat i) else 0.
Definition frame_ref st (i : Z) : Z := cnt (refs st) i.

(** The allocator and the table agree: a frame is in use exactly when its count is positive. *)
Record pmm_inv st : Prop := {
  p_alloc : alloc_inv (frames st);
  p_block : block_size (frames st) = PAGE_4KIB;
  p_ready : refs_ready st = true;
  p_count : ref_count st = block_count (frames st);
  p_len : zlen (refs st) = ref_count st;
  p_range : forall i, 0 <= frame_ref st i <= UINT16_MAX;
  p_used : forall i, 0 <= i < block_count (frames st) ->
             bm_bit (bitmap (frames st)) i = (0 <? frame_ref st i)
}.

Definition inside (b n i : Z) : bool := (b <=? i) && (i <? b + n).

(** Two states of one machine: the chunk of memory is the same. *)
Definition same_chunk st st' : Prop := same_layout (frames st) (frames st').

(** The state after a call that sets the counts of the frames [b .. b + n - 1] to [f]. *)
Definition counts_to st st' (b n : Z) (f : Z -> Z) : Prop :=
  pmm_inv st' /\ same_chunk st st' /\
  forall i, frame_ref st' i = if inside b n i then f (frame_ref st i) else frame_ref st i.

(** ** The table *)

Lemma cnt_load r i : 0 <= i < zlen r -> mload r i = Some (cnt r i).
Proof.
  intros Hi. rewrite mload_ok by done. unfold cnt. rewrite (proj2 (Z.leb_le 0 i)) by lia.
  destruct (r !! Z.to_nat i) eqn:E; [done|]. apply lookup_ge_None in E. unfold zlen in Hi. lia.
Qed.

Lemma cnt_insert r i c j : 0 <= i < zlen r -> cnt (<[Z.to_nat i := c]> r) j = if j =? i then c else cnt r j.
Proof.
  intros Hi. unfold cnt. destruct (Z.eqb_spec j i) as [->|Hne].
  - rewrite (proj2 (Z.leb_le 0 i)) by lia. rewrite list_lookup_insert_eq by (unfold zlen in Hi; lia). done.
  - destruct (Z.leb_spec 0 j); [|done]. by rewrite list_lookup_insert_ne by lia.
Qed.

Lemma cnt_zeros n i : cnt (replicate n 0) i = 0.
Proof.
  unfold cnt. case_test; [|done]. destruct (replicate n 0 !! Z.to_nat i) eqn:El; [|done].
  by apply lookup_replicate in El as [-> _].
Qed.

(** An update of a run of entries. *)
Definition run_to (r r' : list Z) (b n : Z) (f : Z -> Z) : Prop :=
  zlen r' = zlen r /\ forall j, cnt r' j = if inside b n j then f (cnt r j) else cnt r j.

Lemma run_to_nil r b f : run_to r r b 0 f.
Proof. split; [done|]. intros j. unfold inside. tests_lia. Qed.

Lemma run_to_cons r r1 r2 b n f : 0 <= n -> run_to r r1 b 1 f -> run_to r1 r2 (b + 1) n f -> run_to r r2 b (n + 1) f.
Proof.
  intros Hn [Hl1 H1] [Hl2 H2]. split; [congruence|]. intros j. rewrite H2, H1. unfold inside. tests_lia.
Qed.

Lemma run_to_store r i c f : 0 <= i < zlen r -> c = f (cnt r i) ->
  mstore r i c = Some (<[Z.to_nat i := c]> r) /\ run_to r (<[Z.to_nat i := c]> r) i 1 f.
Proof.
  intros Hi ->. split; [by apply mstore_ok|]. split; [unfold zlen; by rewrite length_insert|].
  intros j. rewrite cnt_insert by done. unfold inside. destruct (Z.eqb_spec j i) as [->|]; tests_lia.
Qed.

Lemma set_loop_spec n i start value count r :
  0 <= start -> 0 <= i -> start + i + Z.of_nat n <= count -> zlen r = count -> count < SIZE_MOD ->
  exists r', set_loop n i start value count r = Some r' /\ run_to r r' (start + i) (Z.of_nat n) (fun _ => value).
Proof.
  revert i r. induction n as [|n IH]; intros i r Hs Hi Hle Hl Hc; cbn [set_loop].
  { exists r. split; [done|apply run_to_nil]. }
  rewrite wrap_small, (proj2 (Z.ltb_lt _ count)) by lia.
  destruct (run_to_store r (start + i) value (fun _ => value)) as [-> H1]; [lia|done|]. cbn [mbind option_bind].
  destruct (IH (i + 1) (<[Z.to_nat (start + i) := value]> r)) as (r' & -> & H2);
    [done|lia|lia|by rewrite (proj1 H1)|done|].
  exists r'. split; [done|]. rewrite Z.add_assoc in H2. rewrite Nat2Z.inj_succ, <- Z.add_1_r.
  eapply run_to_cons; [lia|exact H1|exact H2].
Qed.

Definition held (c : Z) : Z := if c <? UINT16_MAX then c + 1 else c.

Lemma hold_loop_spec n i start count r :
  0 <= start -> 0 <= i -> start + i + Z.of_nat n <= count -> zlen r = count -> count < SIZE_MOD ->
  exists r', hold_loop n i start count r = Some r' /\ run_to r r' (start + i) (Z.of_nat n) held.
Proof.
  revert i r. induction n as [|n IH]; intros i r Hs Hi Hle Hl Hc; cbn [hold_loop].
  { exists r. split; [done|apply run_to_nil]. }
  rewrite wrap_small, (proj2 (Z.ltb_lt _ count)) by lia. rewrite cnt_load by lia. cbn [mbind option_bind].
  assert (exists r1, (if cnt r (start + i) <? UINT16_MAX then mstore r (start + i) (cnt r (start + i) + 1) else Some r)
            = Some r1 /\ run_to r r1 (start + i) 1 held) as (r1 & -> & H1).
  { unfold held. destruct (Z.ltb_spec (cnt r (start + i)) UINT16_MAX).
    - eexists. apply run_to_store; [lia|]. test_lia. done.
    - exists r. split; [done|]. split; [done|]. intros j. unfold inside.
      destruct (Z.eq_dec j (start + i)) as [->|]; [|tests_lia]. test_lia. done. }
  cbn [mbind option_bind].
  destruct (IH (i + 1) r1) as (r' & -> & H2); [done|lia|lia|by rewrite (proj1 H1)|done|].
  exists r'. split; [done|]. rewrite Z.add_assoc in H2. rewrite Nat2Z.inj_succ, <- Z.add_1_r.
  eapply run_to_cons; [lia|exact H1|exact H2].
Qed.

Lemma seed_loop_spec n i bm r :
  0 <= i -> i + Z.of_nat n <= zlen r -> i + Z.of_nat n <= 32 * zlen bm -> bm_ok bm ->
  (forall j, i <= j -> cnt r j = 0) ->
  exists r', seed_loop n i bm r = Some r' /\ zlen r' = zlen r /\
    forall j, cnt r' j = if inside i (Z.of_nat n) j then (if bm_bit bm j then 1 else 0) else cnt r j.
Proof.
  revert i r. induction n as [|n IH]; intros i r Hi Hl Hb Hok H0; cbn [seed_loop].
  { exists r. split_and!; [done|done|]. intros j. unfold inside. tests_lia. }
  rewrite bitmap_get_spec by (done || lia). cbn [mbind option_bind].
  assert (exists r1, (if bm_bit bm i then mstore r i 1 else Some r) = Some r1 /\
            run_to r r1 i 1 (fun _ => if bm_bit bm i then 1 else 0)) as (r1 & -> & Hl1 & H1).
  { destruct (bm_bit bm i).
    - eexists. by apply run_to_store; [lia|].
    - exists r. split; [done|]. split; [done|]. intros j. unfold inside.
      destruct (Z.eq_dec j i) as [->|]; [rewrite H0 by lia|]; tests_lia. }
  cbn [mbind option_bind]. destruct (IH (i + 1) r1) as (r' & -> & Hl2 & H2); [lia|lia|lia|done| |].
  { intros j Hj. rewrite H1. unfold inside. rewrite (H0 j) by lia. tests_lia. }
  exists r'. split_and!; [done|lia|]. intros j. rewrite H2, H1. unfold inside.
  destruct (Z.eq_dec j i) as [->|]; tests_lia.
Qed.

(** ** The calls *)

(** The pointer designates the frames [b .. b + n - 1]. *)
Definition frames_at st (p b n : Z) : Prop := run_at (frames st) p b n.

Lemma frame_index st p b n : pmm_inv st -> frames_at st p b n ->
  _pmm_block_index st p = b /\ p <> 0 /\ 0 <= b /\ 0 < n /\ b + n <= ref_count st /\ ref_count st < SIZE_MOD.
Proof.
  intros Hinv Hr. destruct (free_guards _ _ _ _ (p_alloc _ Hinv) Hr) as (Hp & _ & _ & Hb & _).
  pose proof (p_alloc _ Hinv) as (?&?&?&?&?&?&_). rewrite (p_count _ Hinv). destruct Hr as (->&?&?&?).
  split_and!; [done|lia|done|done|done|nia].
Qed.

Lemma same_chunk_refl st : same_chunk st st.
Proof. by repeat split. Qed.

Lemma same_chunk_trans st1 st2 st3 : same_chunk st1 st2 -> same_chunk st2 st3 -> same_chunk st1 st3.
Proof. intros (?&?&?&?&?) (?&?&?&?&?). repeat split; congruence. Qed.

Lemma frames_at_chunk st st' p b n : same_chunk st st' -> frames_at st p b n -> frames_at st' p b n.
Proof. apply run_at_layout. Qed.

Lemma counts_to_nil st b f : pmm_inv st -> counts_to st st b 0 f.
Proof. intros Hinv. split; [done|]. split; [apply same_chunk_refl|]. intros j. unfold inside. tests_lia. Qed.

Lemma counts_to_cons st st1 st2 b n f : 0 <= n ->
  counts_to st st1 b 1 f -> counts_to st1 st2 (b + 1) n f -> counts_to st st2 b (n + 1) f.
Proof.
  intros Hn (_ & Hc1 & H1) (Hi2 & Hc2 & H2). split; [done|]. split; [eauto using same_chunk_trans|].
  intros j. rewrite H2, H1. unfold inside. tests_lia.
Qed.

(** Replacing the counts of a run of frames in use by positive counts. *)
Lemma set_counts st r b n f : pmm_inv st -> run_to (refs st) r b n f ->
  (forall i, inside b n i = true -> bm_bit (bitmap (frames st)) i = true) ->
  (forall c, 0 <= c <= UINT16_MAX -> 0 < f c <= UINT16_MAX) -> counts_to st (set_refs r st) b n f.
Proof.
  intros Hinv [Hl Hr] Hused Hf. destruct Hinv as [Ha Hb Hrd Hc Hlen Hrg Hus].
  assert (Hx : forall i, frame_ref (set_refs r st) i = if inside b n i then f (frame_ref st i) else frame_ref st i) by exact Hr.
  split; [|split; [by repeat split|exact Hx]].
  constructor; try done.
  - cbn in *; congruence.
  - intros i. rewrite Hx. specialize (Hrg i). destruct (inside b n i); [|done]. specialize (Hf _ Hrg). lia.
  - intros i Hi. rewrite Hx. cbn [frames set_refs]. destruct (inside b n i) eqn:E; [|by apply Hus].
    rewrite (Hused i E). specialize (Hf _ (Hrg i)). symmetry. apply Z.ltb_lt. lia.
Qed.

(** Holding frames that are in use. *)
Lemma hold_ok st p b n : pmm_inv st -> frames_at st p b n -> n < SIZE_MOD ->
  (forall i, inside b n i = true -> 0 < frame_ref st i) ->
  exists st', pmm_ref_hold st p n = Some st' /\ counts_to st st' b n held.
Proof.
  intros Hinv Hr Hn Huse. destruct (frame_index st p b n Hinv Hr) as (Hb & Hp & Hb0 & Hn0 & Hfit & Hs).
  unfold pmm_ref_hold. rewrite (p_ready _ Hinv), Hb. test_lia.
  destruct (hold_loop_spec (Z.to_nat n) 0 b (ref_count st) (refs st)) as (r & -> & Hrun);
    [lia|lia|lia|apply Hinv|lia|].
  rewrite Z.add_0_r, Z2Nat.id in Hrun by lia. cbn [mbind option_bind]. eexists. split; [done|].
  apply set_counts; [done|done| |].
  - intros i Hi. rewrite (p_used _ Hinv) by (pose proof (p_count _ Hinv); unfold inside in Hi; bool_facts; lia).
    apply Z.ltb_lt. by apply Huse.
  - intros c Hc. unfold held, UINT16_MAX in *. tests_lia || (case_test; lia).
Qed.

Lemma refcount_ok st p b n : pmm_inv st -> frames_at st p b n -> pmm_refcount st p = Some (frame_ref st b).
Proof.
  intros Hinv Hr. destruct (frame_index st p b n Hinv Hr) as (Hb & Hp & Hb0 & Hn0 & Hfit & Hs).
  unfold pmm_refcount. rewrite (p_ready _ Hinv), Hb. test_lia. apply cnt_load. rewrite (p_len _ Hinv). lia.
Qed.

(** An allocation finds frames nobody holds. *)
Lemma alloc_ok st n high : pmm_inv st -> 0 < n < SIZE_MOD ->
  exists p st', pmm_alloc_frames st n high = ret (p, st') /\
    ((p = 0 /\ st' = st /\ forall b, 0 <= b -> b + n <= block_count (frames st) ->
        ~ (forall i, inside b n i = true -> frame_ref st i = 0)) \/
     (exists b, frames_at st p b n /\ (forall i, inside b n i = true -> frame_ref st i = 0) /\
        counts_to st st' b n (fun _ => 1))).
Proof.
  intros Hinv Hn. pose proof Hinv as [Ha Hbs Hrd Hc Hlen Hrg Hus]. unfold pmm_alloc_frames. test_lia.
  assert (exists p a', (if high then bitmap_alloc_high (Some (frames st)) n else bitmap_alloc_reserve (Some (frames st)) n)
            = Some (p, Some a') /\ reserve_outcome (frames st) n p a') as (p & a' & -> & Hout).
  { destruct high.
    - destruct (high_spec (frames st) n) as (p & a' & He & Ho & _); [done|lia|]. by exists p, a'.
    - apply reserve_spec; [done|lia]. }
  change (lift (Some (p, Some a'))) with (ret (p, Some a')). unfold mbind at 1. cbn [run_bind ret].
  destruct Hout as [(-> & -> & Hno)|(b & Hp & Hb & Hfit & Hfree & Ha' & Hlay & Hfb & Hbits)].
  { exists 0, st. split; [by destruct st|left]. split_and!; [done|done|]. intros b Hb Hf Hz. apply (Hno b Hb Hf).
    intros i Hi. rewrite Hus by lia. rewrite Hz; [done|]. unfold inside. by test_lia. }
  assert (Hrun : frames_at st p b n) by (repeat split; [done|done|lia|done]).
  destruct (frame_index st p b n Hinv Hrun) as (Hbi & Hp0 & _ & _ & Hfit2 & Hs). test_lia.
  assert (Hfr : forall i, inside b n i = true -> frame_ref st i = 0).
  { intros i Hi. assert (b <= i < b + n) by (unfold inside in Hi; bool_facts; lia).
    specialize (Hfree i ltac:(done)). rewrite Hus in Hfree by lia. apply Z.ltb_ge in Hfree.
    pose proof (Hrg i). lia. }
  unfold _pmm_ref_set_range. cbn [refs_ready set_frames refs ref_count]. rewrite Hrd. test_lia.
  assert (Hbi' : _pmm_block_index (set_frames a' st) p = b).
  { rewrite <- Hbi. unfold _pmm_block_index, bitmap_alloc_to_block. cbn [frames set_frames].
    destruct Hlay as (-> & _ & -> & _). done. }
  rewrite Hbi'. destruct (set_loop_spec (Z.to_nat n) 0 b 1 (ref_count st) (refs st)) as (r & -> & [Hl Hrn]);
    [lia|lia|lia|done|lia|]. rewrite Z.add_0_r, Z2Nat.id in Hrn by lia.
  exists p, (set_refs r (set_frames a' st)). split; [reflexivity|]. right. exists b. split; [done|]. split; [done|].
  assert (Hx : forall i, frame_ref (set_refs r (set_frames a' st)) i = if inside b n i then 1 else frame_ref st i) by exact Hrn.
  split; [|split; [exact Hlay|exact Hx]].
  pose proof Hlay as (Hl1 & Hl2 & Hl3 & Hl4 & Hl5). constructor; cbn [frames refs ref_count refs_ready set_refs set_frames]; try done; try congruence.
  - intros i. rewrite Hx. specialize (Hrg i). unfold UINT16_MAX in *. destruct (inside b n i); lia.
  - intros i Hi. rewrite Hx, Hbits by lia. fold (inside b n i). destruct (inside b n i); [done|]. apply Hus. congruence.
Qed.

(** Dropping one hold of a frame; a frame nobody holds stays free. *)
Definition dropped (c : Z) : Z := if 0 <? c then c - 1 else c.

Lemma free_one_ok st i : pmm_inv st -> 0 <= i < ref_count st ->
  exists r, (c ← mload (refs st) i; if 0 <? c then mstore (refs st) i (c - 1) else Some (refs st)) = Some r /\
    mload r i = Some (dropped (frame_ref st i)) /\
    exists st', (if dropped (frame_ref st i) =? 0 then
        '(_, a) ← bitmap_alloc_free (Some (frames (set_refs r st))) (bitmap_alloc_to_ptr (frames (set_refs r st)) i) 1;
        match a with Some a => Some (set_frames a (set_refs r st)) | None => Some (set_refs r st) end
      else Some (set_refs r st)) = Some st' /\ counts_to st st' i 1 dropped.
Proof.
  intros Hinv Hi. pose proof Hinv as [Ha Hbs Hrd Hc Hlen Hrg Hus]. rewrite cnt_load by lia. cbn [mbind option_bind].
  fold (frame_ref st i). assert (exists r, (if 0 <? frame_ref st i then mstore (refs st) i (frame_ref st i - 1) else Some (refs st))
    = Some r /\ run_to (refs st) r i 1 dropped) as (r & -> & [Hl Hr]).
  { unfold dropped. destruct (Z.ltb_spec 0 (frame_ref st i)) as [Hp|Hp].
    - eexists. apply run_to_store; [lia|]. fold (frame_ref st i). by test_lia.
    - exists (refs st). split; [done|]. split; [done|]. intros j. unfold inside.
      destruct (Z.eq_dec j i) as [->|]; [|tests_lia]. fold (frame_ref st i). by test_lia. }
  assert (Hx : forall j, cnt r j = if inside i 1 j then dropped (frame_ref st j) else frame_ref st j) by exact Hr.
  assert (Hri : cnt r i = dropped (frame_ref st i)) by (rewrite Hx; unfold inside; by test_lia).
  exists r. split; [done|]. split; [rewrite cnt_load by lia; by rewrite Hri|].
  assert (Hd : 0 <= dropped (frame_ref st i) <= UINT16_MAX /\ frame_ref st i - 1 <= dropped (frame_ref st i) <= frame_ref st i)
    by (pose proof (Hrg i); unfold dropped; case_test; lia).
  assert (Hptr : frames_at st (bitmap_alloc_to_ptr (frames st) i) i 1).
  { unfold frames_at, run_at. rewrite (to_ptr_ok (frames st) i 1) by (done || lia). lia. }
  assert (Hrange : forall j, 0 <= cnt r j <= UINT16_MAX).
  { intros j. rewrite Hx. pose proof (Hrg j). destruct (inside i 1 j) eqn:E; [|done].
    replace j with i by (unfold inside in E; bool_facts; lia). lia. }
  cbn [frames set_refs]. destruct (Z.eqb_spec (dropped (frame_ref st i)) 0) as [Hz|Hz].
  - destruct (free_spec (frames st) _ 1 i Ha Hptr) as [(Hu & a' & -> & Ha' & Hlay & _ & Hbits)|[Hu ->]].
    + cbn [mbind option_bind]. eexists. split; [reflexivity|].
      pose proof Hlay as (Hl1 & Hl2 & Hl3 & Hl4 & Hl5).
      split; [|split; [exact Hlay|exact Hx]].
      constructor; cbn [frames refs ref_count refs_ready set_refs set_frames]; try done; try congruence.
      intros j Hj. rewrite Hbits by lia. fold (inside i 1 j). unfold frame_ref; cbn [refs set_refs set_frames]. rewrite Hx.
      destruct (inside i 1 j) eqn:E; [|apply Hus; congruence].
      replace j with i by (unfold inside in E; bool_facts; lia). by rewrite Hz.
    + (* the frame was free already *)
      cbn [mbind option_bind]. eexists. split; [reflexivity|].
      split; [|split; [by repeat split|exact Hx]].
      constructor; cbn [frames refs ref_count refs_ready set_refs set_frames]; try done; try congruence.
      intros j Hj. unfold frame_ref; cbn [refs set_refs set_frames]. rewrite Hx.
      destruct (inside i 1 j) eqn:E; [|by apply Hus].
      assert (j = i) as -> by (unfold inside in E; bool_facts; lia). rewrite Hz.
      destruct (bm_bit (bitmap (frames st)) i) eqn:Eb; [|done].
      exfalso. apply Hu. intros k Hk. by replace k with i by lia.
  - eexists. split; [reflexivity|]. split; [|split; [by repeat split|exact Hx]].
    constructor; cbn [frames refs ref_count refs_ready set_refs]; try done; try congruence.
    intros j Hj. unfold frame_ref; cbn [refs set_refs]. rewrite Hx. destruct (inside i 1 j) eqn:E; [|by apply Hus].
    assert (j = i) as -> by (unfold inside in E; bool_facts; lia). rewrite Hus by done. test_lia. done.
Qed.

Lemma free_loop_ok n i start st : pmm_inv st -> 0 <= start -> 0 <= i ->
  start + i + Z.of_nat n <= ref_count st -> ref_count st < SIZE_MOD ->
  exists st', free_loop n i start st = Some st' /\ counts_to st st' (start + i) (Z.of_nat n) dropped.
Proof.
  revert i st. induction n as [|n IH]; intros i st Hinv Hs Hi Hle Hc; cbn [free_loop].
  { exists st. split; [done|by apply counts_to_nil]. }
  rewrite wrap_small, (proj2 (Z.leb_gt _ (start + i))) by lia.
  destruct (free_one_ok st (start + i) Hinv) as (r & Hr & Hld & st1 & Hst & H1); [lia|].
  rewrite cnt_load in Hr |- * by (rewrite (p_len _ Hinv); lia). cbn [mbind option_bind] in Hr |- *.
  rewrite Hr. cbn [mbind option_bind]. rewrite Hld. cbn [mbind option_bind]. rewrite Hst. cbn [mbind option_bind].
  pose proof H1 as (Hinv1 & Hch & _). assert (Hcc : ref_count st1 = ref_count st).
  { rewrite (p_count _ Hinv1), (p_count _ Hinv). apply Hch. }
  destruct (IH (i + 1) st1) as (st2 & -> & H2); [done|lia|lia|lia|lia|]. exists st2. split; [done|].
  rewrite Z.add_assoc in H2. rewrite Nat2Z.inj_succ, <- Z.add_1_r. eapply counts_to_cons; [lia|exact H1|exact H2].
Qed.

Lemma free_ok st p b n : pmm_inv st -> frames_at st p b n ->
  exists st', free_frames st p n = Some st' /\ counts_to st st' b n dropped.
Proof.
  intros Hinv Hr. destruct (frame_index st p b n Hinv Hr) as (Hb & Hp & Hb0 & Hn0 & Hfit & Hs).
  unfold free_frames. rewrite (p_ready _ Hinv), Hb. test_lia.
  destruct (free_loop_ok (Z.to_nat n) 0 b st) as (st' & -> & Hc); [done|lia|lia|lia|lia|].
  rewrite Z.add_0_r, Z2Nat.id in Hc by lia. by exists st'.
Qed.

(** The table starts with one hold on every frame in use. *)
Lemma ref_init_ok malloc st : alloc_inv (frames st) -> block_size (frames st) = PAGE_4KIB -> refs_ready st = false ->
  calloc malloc (block_count (frames st)) 2 = true ->
  exists st', pmm_ref_init malloc st = Some st' /\ frames st' = frames st /\ pmm_inv st' /\
    forall i, frame_ref st' i = if inside 0 (block_count (frames st)) i
                                then (if bm_bit (bitmap (frames st)) i then 1 else 0) else 0.
Proof.
  intros Ha Hbs Hrd Hcal. pose proof Ha as (?&?&?&?&?&?&Hwc&?&Hok&_). unfold pmm_ref_init. rewrite Hrd, Hcal. test_lia.
  destruct (seed_loop_spec (Z.to_nat (block_count (frames st))) 0 (bitmap (frames st))
    (replicate (Z.to_nat (block_count (frames st))) 0)) as (r & -> & Hl & Hr);
    [lia|unfold zlen; rewrite length_replicate; lia|lia|done|intros; apply cnt_zeros|].
  cbn [mbind option_bind]. eexists. split; [reflexivity|]. split; [done|].
  assert (Hx : forall i, cnt r i = if inside 0 (block_count (frames st)) i then (if bm_bit (bitmap (frames st)) i then 1 else 0) else 0).
  { intros i. rewrite Hr, cnt_zeros, Z2Nat.id by lia. done. }
  split; [|exact Hx]. constructor; cbn [frames refs ref_count refs_ready]; try done.
  - rewrite Hl. unfold zlen. rewrite length_replicate. lia.
  - intros i. unfold frame_ref; cbn [refs]. rewrite Hx. unfold UINT16_MAX. repeat case_test; lia.
  - intros i Hi. unfold frame_ref; cbn [refs]. rewrite Hx. unfold inside. test_lia. by destruct (bm_bit _ i).
Qed.

(** Only frames of memory are counted. *)
Lemma pmm_ref_pos st i : pmm_inv st -> 0 < frame_ref st i -> 0 <= i < block_count (frames st).
Proof.
  intros Hp. rewrite <- (p_count _ Hp), <- (p_len _ Hp). unfold frame_ref, cnt. case_test; [|lia].
  destruct (refs st !! Z.to_nat i) eqn:El; cbn; [|lia]. apply lookup_lt_Some in El. unfold zlen. lia.
Qed.

(** ** Histories

    A history of allocations, holds and releases, with the number of holds on each frame.  A client
    holds and releases only frames it holds, and no frame is held more than 65535 times. *)
Definition add_run (b n d : Z) (h : Z -> Z) (i : Z) : Z := if inside b n i then h i + d else h i.

Inductive hold_step : pmm_state_t * (Z -> Z) -> pmm_state_t * (Z -> Z) -> Prop :=
  | step_alloc st h n high p st' h' :
      0 < n < SIZE_MOD -> pmm_alloc_frames st n high = ret (p, st') ->
      h' = (if p =? 0 then h else add_run (_pmm_block_index st p) n 1 h) -> hold_step (st, h) (st', h')
  | step_hold st h p b n st' :
      frames_at st p b n -> (forall i, inside b n i = true -> 0 < h i < UINT16_MAX) ->
      pmm_ref_hold st p n = Some st' -> hold_step (st, h) (st', add_run b n 1 h)
  | step_release st h p b n st' :
      frames_at st p b n -> (forall i, inside b n i = true -> 0 < h i) ->
      free_frames st p n = Some st' -> hold_step (st, h) (st', add_run b n (-1) h).

Definition holds_inv (st0 : pmm_state_t) (w : pmm_state_t * (Z -> Z)) : Prop :=
  pmm_inv w.1 /\ same_chunk st0 w.1 /\ forall i, frame_ref w.1 i = w.2 i.

Lemma counts_to_holds st0 st h st' b n f d :
  holds_inv st0 (st, h) -> counts_to st st' b n f -> (forall i, inside b n i = true -> f (h i) = h i + d) ->
  holds_inv st0 (st', add_run b n d h).
Proof.
  intros (Hinv & Hch & Hh) (Hinv' & Hch' & Hc) Hf. cbn in *. split; [done|]. split; [eauto using same_chunk_trans|].
  intros i. cbn. rewrite Hc, Hh. unfold add_run. destruct (inside b n i) eqn:E; [by apply Hf|done].
Qed.

Lemma hold_step_inv st0 w w' : holds_inv st0 w -> hold_step w w' -> holds_inv st0 w'.
Proof.
  intros Hw Hs. pose proof Hw as (Hinv & Hch & Hh). destruct Hs as [st h n high p st' h' Hn He ->|st h p b n st' Hr Hi He|st h p b n st' Hr Hi He];
    cbn in Hinv, Hch, Hh.
  - destruct (alloc_ok st n high Hinv Hn) as (p1 & st1 & He1 & Hout). rewrite He in He1. injection He1 as <- <-.
    destruct Hout as [(-> & -> & _)|(b & Hr & Hz & Hc)]; [done|].
    destruct (frame_index st p b n Hinv Hr) as (-> & Hp & _). rewrite (proj2 (Z.eqb_neq p 0)) by done.
    eapply counts_to_holds; [exact Hw|exact Hc|]. intros i E. rewrite <- Hh, Hz by done. done.
  - destruct (frame_index st p b n Hinv Hr) as (_ & _ & Hb & Hn & Hfit & Hs).
    destruct (hold_ok st p b n Hinv Hr) as (st1 & He1 & Hc); [lia|intros i E; rewrite Hh; by apply Hi|].
    rewrite He in He1. injection He1 as <-. eapply counts_to_holds; [exact Hw|exact Hc|].
    intros i E. specialize (Hi i E). unfold held. by rewrite (proj2 (Z.ltb_lt _ _)) by lia.
  - destruct (free_ok st p b n Hinv Hr) as (st1 & He1 & Hc). rewrite He in He1. injection He1 as <-.
    eapply counts_to_holds; [exact Hw|exact Hc|]. intros i E. specialize (Hi i E). unfold dropped.
    rewrite (proj2 (Z.ltb_lt _ _)) by lia. lia.
Qed.

(** C13: the physical memory allocator counts exactly.  After any history of allocations, holds and
    releases the table holds, for every frame, the number of its holders; a frame is free exactly when
    it has none; [pmm_refcount] answers the count; and the next allocation, of any size and from either
    end, is defined, hands out only frames nobody holds, and fails only when no run of that many frames
    is free. *)
Theorem frame_refcounts_exact st0 h0 st h :
  pmm_inv st0 -> (forall i, h0 i = frame_ref st0 i) -> rtc hold_step (st0, h0) (st, h) ->
  (forall i, 0 <= i < block_count (frames st0) ->
     0 <= h i /\ bm_bit (bitmap (frames st)) i = (0 <? h i) /\
     pmm_refcount st (chunk_start (frames st0) + i * PAGE_4KIB) = Some (h i)) /\
  (forall n high, 0 < n < SIZE_MOD -> exists p st', pmm_alloc_frames st n high = ret (p, st') /\
     ((p = 0 /\ st' = st /\ forall b, 0 <= b -> b + n <= block_count (frames st0) ->
         ~ (forall i, inside b n i = true -> h i = 0)) \/
      (exists b, p = chunk_start (frames st0) + b * PAGE_4KIB /\ 0 <= b /\ b + n <= block_count (frames st0) /\
         (forall i, inside b n i = true -> h i = 0) /\
         forall i, frame_ref st' i = if inside b n i then 1 else h i))).
Proof.
  intros Hinv0 Hh0 Hst.
  assert (Hw : holds_inv st0 (st, h)).
  { enough (Hgen : holds_inv st0 (st0, h0)).
    { revert Hst Hgen. generalize (st0, h0), (st, h). induction 1; eauto using hold_step_inv. }
    split; [done|]. split; [apply same_chunk_refl|]. intros i. by rewrite Hh0. }
  destruct Hw as (Hinv & Hch & Hh). cbn in *. pose proof Hch as (Hs1 & _ & Hs3 & Hs4 & _).
  pose proof (p_block _ Hinv) as Hbs. split.
  - intros i Hi. rewrite <- Hh. split; [apply Hinv|]. split; [apply Hinv; congruence|].
    apply (refcount_ok st _ i 1 Hinv). split_and!; [congruence|lia|lia|rewrite Hs4; lia].
  - intros n high Hn. destruct (alloc_ok st n high Hinv Hn) as (p & st' & -> & Hout). exists p, st'. split; [done|].
    destruct Hout as [(-> & -> & Hno)|(b & (-> & Hb & _ & Hfit) & Hz & (_ & _ & Hc))]; [left|right; exists b].
    + split_and!; [done|done|]. intros b Hb Hf Hzz. apply (Hno b Hb); [congruence|]. intros i E. rewrite Hh. by apply Hzz.
    + split_and!; [congruence|done|congruence| |].
      * intros i E. rewrite <- Hh. by apply Hz.
      * intros i. rewrite Hc, Hh. done.
Qed.
End Defs.

#[local] Existing Instance arch64.

(** Sixteen frames at 1 MiB, none in use. *)
Definition demo_frames : bitmap_allocator_t :=
  {| chunk_start := 1048576; chunk_size := 65536; block_size := 4096; block_count := 16; usable_blocks := 15;
     free_blocks := 16; word_count := 1; bitmap := [0]; next_fit_block := 0 |}.
Definition demo_pmm : pmm_state_t := mk_pmm demo_frames (replicate 16 0) 16 true.

Lemma demo_pmm_inv : pmm_inv demo_pmm.
Proof.
  constructor; try reflexivity.
  - unfold alloc_inv, demo_pmm, demo_frames. cbn [frames chunk_start chunk_size block_size block_count usable_blocks free_blocks word_count bitmap next_fit_block]. change SIZE_MOD with (2 ^ 64). change (zlen [0]) with 1. change (nfree [0] (Z.to_nat 16)) with 16. split_and!; try lia. repeat constructor; lia.
  - intros i. change (frame_ref demo_pmm i) with (cnt (replicate 16 0) i). rewrite cnt_zeros. unfold UINT16_MAX. lia.
  - intros i _. change (frame_ref demo_pmm i) with (cnt (replicate 16 0) i). rewrite cnt_zeros.
    apply (bm_bit_zero 1).
Qed.

(** Two frames are allocated, shared, and released once: one hold each is left. *)
Lemma frame_refcounts_exact_witness :
  exists st, rtc hold_step (demo_pmm, fun _ => 0) (st, add_run 0 2 (-1) (add_run 0 2 1 (add_run 0 2 1 (fun _ => 0)))) /\
    bm_bit (bitmap (frames st)) 1 = true /\ pmm_refcount st 1052672 = Some 1.
Proof.
  eexists. match goal with |- ?A /\ _ => assert (Hst : A) end.
  - eapply rtc_l. { eapply (step_alloc _ _ 2 false); [split; reflexivity|vm_compute; reflexivity|reflexivity]. }
    cbn [Z.eqb]. eapply rtc_l.
    { apply (step_hold _ _ 1048576 0 2); [repeat split; vm_compute; (reflexivity || discriminate)| |vm_compute; reflexivity].
      intros i Hi. change (add_run _ 2 1 (fun _ => 0) i) with (if inside 0 2 i then 1 else 0). rewrite Hi. split; reflexivity. }
    eapply rtc_l; [|apply rtc_refl].
    apply (step_release _ _ 1048576 0 2); [repeat split; vm_compute; (reflexivity || discriminate)| |vm_compute; reflexivity].
    intros i Hi. change (0 < if inside 0 2 i then (if inside 0 2 i then 1 else 0) + 1 else (if inside 0 2 i then 1 else 0)).
    rewrite Hi. reflexivity.
  - split; [exact Hst|].
    destruct (proj1 (frame_refcounts_exact demo_pmm (fun _ => 0) _ _ demo_pmm_inv
      (fun i => eq_sym (cnt_zeros 16 i)) Hst) 1) as (_ & Hb & Hr); [split; vm_compute; (reflexivity || discriminate)|].
    split; [exact Hb|exact Hr].
Defined.
End Pmm.
