(* ===== verification/Paging.v ===== *)
(** * Page tables: the interface

    The entries of [kernel/arch/x86/paging64.h] and what the memory management of threads relies on
    when it walks and changes the tables below one root ([arch_get_page], [arch_map_region],
    [unmap_page] of [kernel/arch/x86/arch_mm.h]).  A table value stands for the tables of one address
    space; the kernel half, which every address space shares, is outside of it.  Translation look-aside
    buffers are not represented: a change of an entry is seen at once. *)

From S2P Require Import Prelude Memory Outcome Bitmap BitmapAlloc Pmm.
From stdpp Require Import list.
Import Bitmap BitmapAlloc Pmm.
Open Scope Z_scope.

Module Paging.

Definition FLAGS_MASK : Z := 0x8000000000000fff.
Definition ADDR_MASK : Z := 0x000ffffffffff000.
Definition PT_PRESENT : Z := 2 ^ 0.
Definition PT_WRITE : Z := 2 ^ 1.
Definition PT_USER : Z := 2 ^ 2.
Definition PT_HUGE : Z := 2 ^ 7.
Definition PT_NO_EXECUTE : Z := 2 ^ 63.

(** [flags & bit] as a condition. *)
Definition has (flags bit : Z) : bool := negb (Z.land flags bit =? 0).

(** [x & ~bit] on 64 bits. *)
Definition without (x bit : Z) : Z := Z.ldiff x bit.

Definition page_get_paddr (entry : Z) : Z := Z.land entry ADDR_MASK.

(** [ALIGN_DOWN(x, PAGE_4KIB)]: the sum [x - 4095 + 4095] wraps back. *)
Definition ALIGN_DOWN (x : Z) : Z := x - x mod PAGE_4KIB.

(** [page_set_paddr] overwrites the whole entry. *)
Definition page_set_paddr (addr : Z) : Z := Z.land (ALIGN_DOWN addr) ADDR_MASK.

(** The leaf [map_page] writes. *)
Definition leaf (paddr flags : Z) : Z :=
  Z.lor (page_set_paddr paddr) (Z.land (Z.lor flags PT_PRESENT) FLAGS_MASK).

(** The page an address lies in. *)
Definition page (v : Z) : Z := v / PAGE_4KIB.

(** Frames in use stay as they are; a new table may take a free one. *)
Definition keeps_used `{Arch} (st st' : pmm_state_t) : Prop :=
  pmm_inv st' /\ same_chunk st st' /\ forall i, 0 < frame_ref st i -> frame_ref st' i = frame_ref st i.

(** Where the machine's memory for frames starts; it stays there. *)
Class MemoryMap := { mem_start : Z }.

(** Frames start on a page boundary and fit in the address bits of an entry. *)
Definition chunk_ok `{MemoryMap} (st : pmm_state_t) : Prop :=
  (chunk_start (frames st) = mem_start /\ chunk_start (frames st) mod PAGE_4KIB = 0) /\
  chunk_start (frames st) + chunk_size (frames st) <= 2 ^ 52.

(** The highest user address of the two [x86] builds. *)
Definition arch_user_stack_top `{Arch} : Z := if size_bits =? 64 then 0x80000000 else 0xB0000000.

(** What the tables promise.  [get_page] answers the size and the value of the leaf of an address;
    [set_entry] writes through the entry pointer [get_page] gave; [vm_create] makes the tables of a new
    address space and [vm_destroy] releases them; [map_page] may take frames for new
    tables, and stops the machine when there are none.  [pt_own] counts the holds of the tables on a
    frame. *)
Class PageTables `{Arch, MemoryMap} := {
  pt : Type;
  pt_ok : pt -> Prop;
  pt_own : pt -> Z -> Z;
  user_limit : Z;
  get_page : pt -> Z -> option (Z * Z);
  set_entry : pt -> Z -> Z -> pt;
  map_page : pmm_state_t -> pt -> Z -> Z -> Z -> run (pmm_state_t * pt);
  vm_create : pmm_state_t -> run (pmm_state_t * pt);
  vm_destroy : pmm_state_t -> pt -> option pmm_state_t;
  user_limit_ok : 0 < user_limit < SIZE_MOD;
  user_top_ok : arch_user_stack_top <= user_limit;
  pt_own_nonneg t i : 0 <= pt_own t i;
  get_page_same t v v' : page v = page v' -> get_page t v = get_page t v';
  vm_create_ok st : pmm_inv st -> chunk_ok st ->
    vm_create st = panic \/
    exists st' t, vm_create st = ret (st', t) /\ keeps_used st st' /\ pt_ok t /\
      (forall i, pt_own t i = frame_ref st' i - frame_ref st i) /\
      forall v, 0 <= v < user_limit -> get_page t v = None;
  vm_destroy_ok st t :
    pmm_inv st -> chunk_ok st -> pt_ok t -> (forall i, pt_own t i <= frame_ref st i) ->
    exists st', vm_destroy st t = Some st' /\ pmm_inv st' /\ same_chunk st st' /\
      forall i, frame_ref st' i = frame_ref st i - pt_own t i;
  map_page_ok st t v paddr flags :
    pmm_inv st -> chunk_ok st -> pt_ok t -> (forall i, pt_own t i <= frame_ref st i) ->
    0 <= v < user_limit -> has flags PT_HUGE = false ->
    map_page st t v paddr flags = panic \/
    exists st' t', map_page st t v paddr flags = ret (st', t') /\ keeps_used st st' /\ pt_ok t' /\
      (forall i, 0 <= pt_own t' i - pt_own t i /\ pt_own t' i - pt_own t i = frame_ref st' i - frame_ref st i) /\
      get_page t' v = Some (PAGE_4KIB, leaf paddr flags) /\
      forall v', 0 <= v' < user_limit -> page v' <> page v -> get_page t' v' = get_page t v';
  set_entry_ok t v e e' :
    pt_ok t -> 0 <= v < user_limit -> get_page t v = Some (PAGE_4KIB, e) ->
    pt_ok (set_entry t v e') /\ (forall i, pt_own (set_entry t v e') i = pt_own t i) /\
    get_page (set_entry t v e') v = (if has e' PT_PRESENT then Some (PAGE_4KIB, e') else None) /\
    forall v', 0 <= v' < user_limit -> page v' <> page v -> get_page (set_entry t v e') v' = get_page t v'
}.

(** ** Frames *)

Lemma frame_place `{Arch, MemoryMap} st b : pmm_inv st -> chunk_ok st -> 0 <= b < block_count (frames st) ->
  let p := chunk_start (frames st) + b * PAGE_4KIB in
  p mod PAGE_4KIB = 0 /\ 0 < p < 2 ^ 52 /\ p + PAGE_4KIB <= SIZE_MAX /\ frames_at st p b 1.
Proof.
  intros Hp [[_ Hm] Hc] Hb. cbn zeta. pose proof (p_alloc _ Hp) as (?&?&?&?&?&?&_). rewrite (p_block _ Hp) in *.
  unfold PAGE_4KIB, SIZE_MAX in *. split_and!; try lia.
  - rewrite Z.mod_add by lia. done.
  - split_and!; [by rewrite (p_block _ Hp)|lia|lia|lia].
Qed.

Lemma keeps_used_refl `{Arch} st : pmm_inv st -> keeps_used st st.
Proof. intros Hp. split_and!; [done|apply same_chunk_refl|done]. Qed.

Lemma keeps_used_trans `{Arch} st1 st2 st3 : keeps_used st1 st2 -> keeps_used st2 st3 -> keeps_used st1 st3.
Proof.
  intros (_ & S1 & K1) (P2 & S2 & K2). split_and!; [done|by eapply same_chunk_trans|].
  intros i Hi. rewrite K2, K1; [done|done|]. by rewrite K1.
Qed.

Lemma chunk_ok_same `{MemoryMap} st st' : same_chunk st st' -> chunk_ok st -> chunk_ok st'.
Proof. unfold chunk_ok. intros (-> & -> & _). done. Qed.

(** ** Entries *)

Lemma has_pow2 x k : 0 <= k -> has x (2 ^ k) = Z.testbit x k.
Proof. intros Hk. unfold has. by rewrite land_pow2_test, negb_involutive. Qed.

Lemma has_without x k : 0 <= k -> has (without x (2 ^ k)) (2 ^ k) = false.
Proof. intros Hk. rewrite has_pow2 by done. unfold without. by rewrite Z.ldiff_spec, Z.pow2_bits_true, andb_false_r. Qed.

Lemma has_without_ne x j k : 0 <= j -> 0 <= k -> j <> k -> has (without x (2 ^ k)) (2 ^ j) = has x (2 ^ j).
Proof.
  intros Hj Hk Hne. rewrite !has_pow2 by done. unfold without. rewrite Z.ldiff_spec, Z.pow2_bits_false by lia.
  by rewrite andb_true_r.
Qed.

Lemma has_lor x y k : 0 <= k -> has (Z.lor x y) (2 ^ k) = has x (2 ^ k) || has y (2 ^ k).
Proof. intros Hk. by rewrite !has_pow2, Z.lor_spec by done. Qed.

(** The low twelve bits of the address mask are clear, the next forty set. *)
Lemma addr_mask_bit k : 0 <= k -> Z.testbit ADDR_MASK k = (12 <=? k) && (k <? 52).
Proof.
  intros Hk. change ADDR_MASK with (Z.shiftl (Z.ones 40) 12). rewrite Z.shiftl_spec by done.
  destruct (Z.leb_spec 12 k); [|by rewrite Z.testbit_neg_r by lia]. rewrite Z.testbit_ones_nonneg by lia.
  cbn [andb]. destruct (Z.ltb_spec (k - 12) 40), (Z.ltb_spec k 52); lia || done.
Qed.

Lemma flags_mask_bit k : 0 <= k < 63 -> Z.testbit FLAGS_MASK k = (k <? 12).
Proof.
  intros Hk. change FLAGS_MASK with (Z.lor (2 ^ 63) (Z.ones 12)).
  rewrite Z.lor_spec, Z.pow2_bits_false by lia. rewrite Z.testbit_ones_nonneg by lia. done.
Qed.

(** A frame address survives in an entry, whatever the flags. *)
Lemma frame_bits p k : p mod PAGE_4KIB = 0 -> 0 <= p < 2 ^ 52 -> 0 <= k -> Z.testbit p k = true -> 12 <= k < 52.
Proof.
  intros Hm Hp Hk Hb. split.
  - destruct (Z.le_gt_cases 12 k) as [|Hlt]; [done|]. exfalso. change PAGE_4KIB with (2 ^ 12) in Hm.
    assert (Z.testbit (p mod 2 ^ 12) k = true) as Hx by (by rewrite Z.mod_pow2_bits_low by lia).
    by rewrite Hm, Z.bits_0 in Hx.
  - destruct (Z.lt_ge_cases k 52) as [|Hge]; [done|]. exfalso.
    rewrite Z.bits_above_log2 in Hb; [done|lia|]. destruct (Z.eq_dec p 0) as [->|]; [cbn; lia|].
    apply Z.log2_lt_pow2; [lia|]. apply Z.lt_le_trans with (2 ^ 52); [lia|]. apply Z.pow_le_mono_r; lia.
Qed.

Lemma set_paddr_frame p : p mod PAGE_4KIB = 0 -> 0 <= p < 2 ^ 52 -> page_set_paddr p = p.
Proof.
  intros Hm Hp. unfold page_set_paddr, ALIGN_DOWN. rewrite Hm, Z.sub_0_r. apply Z.bits_inj'. intros k Hk.
  rewrite Z.land_spec, addr_mask_bit by done. destruct (Z.testbit p k) eqn:Hb; [|done].
  pose proof (frame_bits p k Hm Hp Hk Hb). cbn [andb]. by test_lia.
Qed.

Lemma leaf_paddr p fl : p mod PAGE_4KIB = 0 -> 0 <= p < 2 ^ 52 -> page_get_paddr (leaf p fl) = p.
Proof.
  intros Hm Hp. unfold page_get_paddr, leaf. rewrite set_paddr_frame by done. apply Z.bits_inj'. intros k Hk.
  rewrite Z.land_spec, Z.lor_spec, Z.land_spec, addr_mask_bit by done.
  destruct (Z.testbit p k) eqn:Hb.
  - pose proof (frame_bits p k Hm Hp Hk Hb). cbn [orb andb]. by test_lia.
  - cbn [orb]. destruct (Z.leb_spec 12 k); [|by rewrite andb_false_r].
    destruct (Z.ltb_spec k 52); [|by rewrite andb_false_r]. rewrite flags_mask_bit by lia.
    rewrite (proj2 (Z.ltb_ge k 12)), andb_false_r by lia. done.
Qed.

Lemma leaf_flag p fl k : p mod PAGE_4KIB = 0 -> 0 <= p < 2 ^ 52 -> 0 <= k < 12 ->
  has (leaf p fl) (2 ^ k) = has fl (2 ^ k) || (k =? 0).
Proof.
  intros Hm Hp Hk. rewrite !has_pow2 by lia. unfold leaf. rewrite set_paddr_frame by done.
  rewrite Z.lor_spec, Z.land_spec, Z.lor_spec, flags_mask_bit by lia. rewrite (proj2 (Z.ltb_lt k 12)), andb_true_r by lia.
  destruct (Z.testbit p k) eqn:Hb; [pose proof (frame_bits p k Hm Hp ltac:(lia) Hb); lia|]. cbn [orb]. f_equal.
Qed.

Lemma leaf_bits p fl : p mod PAGE_4KIB = 0 -> 0 <= p < 2 ^ 52 ->
  has (leaf p fl) PT_PRESENT = true /\ has (leaf p fl) PT_USER = has fl PT_USER /\
  has (leaf p fl) PT_WRITE = has fl PT_WRITE /\ page_get_paddr (leaf p fl) = p.
Proof.
  intros Hm Hp. split_and!; [| | |by apply leaf_paddr]; unfold PT_PRESENT, PT_USER, PT_WRITE;
    rewrite leaf_flag by (done || lia); [by rewrite orb_true_r|by rewrite orb_false_r..].
Qed.

Lemma without_paddr e k : 0 <= k < 12 -> page_get_paddr (without e (2 ^ k)) = page_get_paddr e.
Proof.
  intros Hk. unfold page_get_paddr, without. apply Z.bits_inj'. intros j Hj.
  rewrite !Z.land_spec, Z.ldiff_spec, addr_mask_bit by done. destruct (Z.leb_spec 12 j); [|by rewrite !andb_false_r].
  rewrite Z.pow2_bits_false by lia. by rewrite andb_true_r.
Qed.
End Paging.
