(* ===== verification/Paging64.v ===== *)
(** * Page tables of x86-64

    The four-level tables of [kernel/arch/x86/mm/virtual64.c] and the making and releasing of an
    address space in [kernel/arch/x86/vm.c].  The tables of one address space are the frames its user
    half is made of, by physical address; the linear map makes every frame readable at a fixed offset,
    which the addresses here leave out.  The upper half of the root is copied from the kernel's root
    when the space is made, and the tables below it, shared by all, are not part of the space.

    The tables implement the interface of [Paging]: the proof keeps a path from the root for every
    table, and shows that every table is reached by exactly one. *)

From S2P Require Import Prelude Memory Outcome Bitmap BitmapAlloc Pmm Paging.
From stdpp Require Import list gmap.
Import Bitmap BitmapAlloc Pmm Paging.
Open Scope Z_scope.

Module Paging64.
#[local] Existing Instance arch64.

Definition PAGE_2MIB : Z := 2 * 2 ^ 20.
Definition PAGE_1GIB : Z := 2 ^ 30.

Definition GET_LVL4_INDEX (addr : Z) : Z := Z.land (Z.shiftr addr 39) 0x1ff.
Definition GET_LVL3_INDEX (addr : Z) : Z := Z.land (Z.shiftr addr 30) 0x1ff.
Definition GET_LVL2_INDEX (addr : Z) : Z := Z.land (Z.shiftr addr 21) 0x1ff.
Definition GET_LVL1_INDEX (addr : Z) : Z := Z.land (Z.shiftr addr 12) 0x1ff.

(** The tables of an address space: the frame of the root, and the 512 entries of every table. *)
Record tables64 := mk_tables { lvl4_paddr : Z; tables : gmap Z (list Z) }.

(** The kernel's root table. *)
Class KernelRoot := { kernel_root : list Z; kernel_root_len : length kernel_root = 512%nat }.

Section Defs.
Context `{MemoryMap, KernelRoot}.
Implicit Types (t : tables64) (st : pmm_state_t) (a i v : Z).

Definition load_entry t a i : option Z := l ← tables t !! a; mload l i.
Definition store_entry t a i (e : Z) : option tables64 :=
  l ← tables t !! a; l ← mstore l i e; Some (mk_tables (lvl4_paddr t) (<[a := l]> (tables t))).

(** A frame filled with zeros becomes a table. *)
Definition add_table t a : tables64 := mk_tables (lvl4_paddr t) (<[a := replicate 512 0]> (tables t)).

Definition _walk_table_once st t (table index flags : Z) : run (pmm_state_t * tables64 * Z) :=
  e ← lift (load_entry t table index);
  '(st, t, e, next_table) ←
    (if has e PT_PRESENT then ret (st, t, e, page_get_paddr e)
     else
       '(next_table, st) ← alloc_frames st 1;
       ret (st, add_table t next_table, Z.lor (page_set_paddr next_table) PT_PRESENT, next_table));
  let e := Z.lor e (Z.land flags FLAGS_MASK) in
  let e := Z.lor e PT_WRITE in
  let e := without e PT_NO_EXECUTE in
  t ← lift (store_entry t table index e);
  ret (st, t, next_table).

(** [ALIGN_DOWN(x, n)] *)
Definition align_down (x n : Z) : Z := x - x mod n.

Definition map_page64 st t (size vaddr paddr flags : Z) : run (pmm_state_t * tables64) :=
  let finalize st t table index paddr flags :=
    t ← lift (store_entry t table index (leaf paddr flags)); ret (st, t) in
  '(st, t, lvl3) ← _walk_table_once st t (lvl4_paddr t) (GET_LVL4_INDEX vaddr) flags;
  if size =? PAGE_1GIB then
    finalize st t lvl3 (GET_LVL3_INDEX vaddr) (align_down paddr PAGE_1GIB) (Z.lor flags PT_HUGE)
  else
    '(st, t, lvl2) ← _walk_table_once st t lvl3 (GET_LVL3_INDEX vaddr) flags;
    if size =? PAGE_2MIB then
      finalize st t lvl2 (GET_LVL2_INDEX vaddr) (align_down paddr PAGE_2MIB) (Z.lor flags PT_HUGE)
    else
      '(st, t, lvl1) ← _walk_table_once st t lvl2 (GET_LVL2_INDEX vaddr) flags;
      finalize st t lvl1 (GET_LVL1_INDEX vaddr) paddr flags.

(** The size of the page, 0 without one, and where its entry is: the table and the position in it. *)
Definition get_page64 t (vaddr : Z) : option (Z * ptr (Z * Z)) :=
  if lvl4_paddr t =? 0 then Some (0, None)
  else
    lvl4e ← load_entry t (lvl4_paddr t) (GET_LVL4_INDEX vaddr);
    if negb (has lvl4e PT_PRESENT) || has lvl4e PT_HUGE then Some (0, None)
    else
      let lvl3 := page_get_paddr lvl4e in
      let lvl3_index := GET_LVL3_INDEX vaddr in
      lvl3e ← load_entry t lvl3 lvl3_index;
      if negb (has lvl3e PT_PRESENT) then Some (0, None)
      else if has lvl3e PT_HUGE then Some (PAGE_1GIB, Some (lvl3, lvl3_index))
      else
        let lvl2 := page_get_paddr lvl3e in
        let lvl2_index := GET_LVL2_INDEX vaddr in
        lvl2e ← load_entry t lvl2 lvl2_index;
        if negb (has lvl2e PT_PRESENT) then Some (0, None)
        else if has lvl2e PT_HUGE then Some (PAGE_2MIB, Some (lvl2, lvl2_index))
        else
          let lvl1 := page_get_paddr lvl2e in
          let lvl1_index := GET_LVL1_INDEX vaddr in
          lvl1e ← load_entry t lvl1 lvl1_index;
          if has lvl1e PT_PRESENT then Some (PAGE_4KIB, Some (lvl1, lvl1_index)) else Some (0, None).

(** The entry [get_page64] finds, read and written through its pointer; an access outside of the space
    has no answer. *)
Definition read_page t v : option (Z * Z) :=
  match get_page64 t v with
  | Some (size, Some (a, i)) => e ← load_entry t a i; Some (size, e)
  | _ => None
  end.

Definition write_page t v (e : Z) : tables64 :=
  match get_page64 t v with
  | Some (_, Some (a, i)) => default t (store_entry t a i e)
  | _ => t
  end.

(** A new root: the user half empty, the kernel half copied; a frame can always be mapped. *)
Definition _clone_root64 st : run (pmm_state_t * tables64) :=
  '(root, st) ← alloc_frames st 1;
  half ← lift (mread kernel_root 256 256);
  l ← lift (mwrite (replicate 512 0) 256 half);
  ret (st, mk_tables root {[root := l]}).

(** [for (size_t i = 0; i < n; i++)] *)
Fixpoint for_each (n : nat) (i : Z) (body : Z -> pmm_state_t -> option pmm_state_t) st : option pmm_state_t :=
  match n with
  | O => Some st
  | S n => st ← body i st; for_each n (i + 1) body st
  end.

(** The bodies of the three loops of [_free_tables_64], the inner ones first. *)
Definition free_lvl1 t (lvl2_map k : Z) st : option pmm_state_t :=
  e ← load_entry t lvl2_map k;
  if negb (has e PT_PRESENT) then Some st
  else if has e PT_HUGE then Some st
  else free_frames st (page_get_paddr e) 1.

Definition free_lvl2 t (lvl3_map j : Z) st : option pmm_state_t :=
  e ← load_entry t lvl3_map j;
  if negb (has e PT_PRESENT) then Some st
  else if has e PT_HUGE then Some st
  else
    let lvl2 := page_get_paddr e in
    st ← for_each 512 0 (free_lvl1 t lvl2) st;
    free_frames st lvl2 1.

Definition free_lvl3 t (root_map i : Z) st : option pmm_state_t :=
  e ← load_entry t root_map i;
  if negb (has e PT_PRESENT) then Some st
  else
    let lvl3 := page_get_paddr e in
    st ← for_each 512 0 (free_lvl2 t lvl3) st;
    free_frames st lvl3 1.

Definition _free_tables_64 st t : option pmm_state_t := for_each 256 0 (free_lvl3 t (lvl4_paddr t)) st.

(** [arch_vm_destroy] of a user space. *)
Definition arch_vm_destroy st t : option pmm_state_t :=
  st ← _free_tables_64 st t;
  free_frames st (lvl4_paddr t) 1.
End Defs.

Section Proofs.
Context `{MemoryMap, KernelRoot}.
Implicit Types (t : tables64) (st : pmm_state_t) (a i v e b p : Z) (q : list Z) (R : gmap Z (list Z)).

(** ** Indices *)

Lemma index_div addr k : 0 <= k -> Z.land (Z.shiftr addr k) 0x1ff = addr / 2 ^ k mod 512.
Proof.
  intros Hk. change 0x1ff with (Z.ones 9). rewrite Z.land_ones, Z.shiftr_div_pow2 by lia. done.
Qed.

(** The path to the table of an address' leaf, the last step first. *)
Definition path4 v : list Z := [GET_LVL4_INDEX v].
Definition path3 v : list Z := GET_LVL3_INDEX v :: path4 v.
Definition path2 v : list Z := GET_LVL2_INDEX v :: path3 v.

(** The paths of the user half. *)
Fixpoint path_ok q : Prop :=
  match q with
  | [] => True
  | i :: q => 0 <= i < (if decide (q = []) then 256 else 512) /\ path_ok q
  end.

Lemma index_range v : 0 <= v < 2 ^ 47 ->
  0 <= GET_LVL4_INDEX v < 256 /\ 0 <= GET_LVL3_INDEX v < 512 /\ 0 <= GET_LVL2_INDEX v < 512 /\ 0 <= GET_LVL1_INDEX v < 512.
Proof.
  intros Hv. unfold GET_LVL4_INDEX, GET_LVL3_INDEX, GET_LVL2_INDEX, GET_LVL1_INDEX. rewrite !index_div by lia.
  split; [|split_and!; apply Z.mod_pos_bound; lia].
  rewrite Z.mod_small; (split; [apply Z.div_pos; lia|apply Z.div_lt_upper_bound; lia]).
Qed.

Lemma path2_ok v : 0 <= v < 2 ^ 47 -> path_ok (path2 v).
Proof. intros Hv. destruct (index_range v Hv) as (? & ? & ? & _). cbn. rewrite !decide_False by done. done. Qed.

Lemma path_ok_index i q : path_ok (i :: q) -> 0 <= i < 512.
Proof. cbn. case_decide; lia. Qed.

(** The four indices are the page. *)
Lemma page_indices v : 0 <= v < 2 ^ 47 ->
  page v = GET_LVL1_INDEX v + 512 * (GET_LVL2_INDEX v + 512 * (GET_LVL3_INDEX v + 512 * GET_LVL4_INDEX v)).
Proof.
  intros Hv. unfold page, PAGE_4KIB, GET_LVL4_INDEX, GET_LVL3_INDEX, GET_LVL2_INDEX, GET_LVL1_INDEX. rewrite !index_div by lia.
  change 4096 with (2 ^ 12). replace (2 ^ 21) with (2 ^ 12 * 512) by done. replace (2 ^ 30) with (2 ^ 12 * 512 * 512) by done.
  replace (2 ^ 39) with (2 ^ 12 * 512 * 512 * 512) by done. rewrite <- !Z.div_div by lia.
  set (w := v / 2 ^ 12). assert (0 <= w < 2 ^ 35) by (unfold w; split; [apply Z.div_pos|apply Z.div_lt_upper_bound]; lia).
  rewrite (Z.mod_small (w / 512 / 512 / 512)).
  - pose proof (Z.div_mod w 512). pose proof (Z.div_mod (w / 512) 512). pose proof (Z.div_mod (w / 512 / 512) 512). lia.
  - rewrite !Z.div_div by lia. split; [apply Z.div_pos|apply Z.div_lt_upper_bound]; lia.
Qed.

Lemma same_indices v v' : page v = page v' -> GET_LVL4_INDEX v = GET_LVL4_INDEX v' /\ GET_LVL3_INDEX v = GET_LVL3_INDEX v' /\
  GET_LVL2_INDEX v = GET_LVL2_INDEX v' /\ GET_LVL1_INDEX v = GET_LVL1_INDEX v'.
Proof.
  unfold page, PAGE_4KIB, GET_LVL4_INDEX, GET_LVL3_INDEX, GET_LVL2_INDEX, GET_LVL1_INDEX. rewrite !index_div by lia.
  change 4096 with (2 ^ 12). replace (2 ^ 21) with (2 ^ 12 * 2 ^ 9) by done. replace (2 ^ 30) with (2 ^ 12 * 2 ^ 18) by done.
  replace (2 ^ 39) with (2 ^ 12 * 2 ^ 27) by done. rewrite <- !Z.div_div by lia. by intros ->.
Qed.

(** ** Roles

    Every table has a path from the root. *)

Definition frame_at b : Z := mem_start + b * PAGE_4KIB.

(** What an entry above the leaves means. *)
Definition child e : option Z := if has e PT_PRESENT then Some (page_get_paddr e) else None.

Lemma child_present e : has e PT_PRESENT = true -> child e = Some (page_get_paddr e).
Proof. intros He. unfold child. by rewrite He. Qed.
Lemma child_absent e : has e PT_PRESENT = false -> child e = None.
Proof. intros He. unfold child. by rewrite He. Qed.

Record role_ok t R : Prop := {
  ro_root : forall a, R !! a = Some [] <-> a = lvl4_paddr t;
  ro_dom : forall a, is_Some (R !! a) <-> is_Some (tables t !! a);
  ro_len : forall a l, tables t !! a = Some l -> zlen l = 512;
  ro_addr : forall a, is_Some (R !! a) -> 0 < a < 2 ^ 52 /\ a mod PAGE_4KIB = 0 /\ exists b, a = frame_at b;
  ro_path : forall a q, R !! a = Some q -> (length q <= 3)%nat /\ path_ok q;
  ro_child : forall a q i e, R !! a = Some q -> (length q < 3)%nat -> path_ok (i :: q) -> load_entry t a i = Some e ->
               has e PT_PRESENT = true -> has e PT_HUGE = false /\ R !! page_get_paddr e = Some (i :: q);
  ro_parent : forall a q i, R !! a = Some (i :: q) -> exists p e, R !! p = Some q /\ load_entry t p i = Some e /\ child e = Some a
}.

Lemma role_load t R a q i : role_ok t R -> R !! a = Some q -> 0 <= i < 512 -> exists e, load_entry t a i = Some e.
Proof.
  intros HR Ha Hi. destruct (proj1 (ro_dom _ _ HR a) (mk_is_Some _ _ Ha)) as [l Hl]. unfold load_entry. rewrite Hl. cbn.
  apply mload_is_Some. by rewrite (ro_len _ _ HR a l Hl).
Qed.

Lemma role_inj t R a a' q : role_ok t R -> R !! a = Some q -> R !! a' = Some q -> a = a'.
Proof.
  intros HR. revert a a'. induction q as [|i q IH]; intros a a' Ha Ha'.
  - apply (ro_root _ _ HR) in Ha, Ha'. congruence.
  - destruct (ro_parent _ _ HR a q i Ha) as (p & e & Hp & He & Hc). destruct (ro_parent _ _ HR a' q i Ha') as (p' & e' & Hp' & He' & Hc').
    rewrite (IH p p' Hp Hp') in He. congruence.
Qed.

(** The table at the end of a path. *)
Fixpoint walk t q : option Z :=
  match q with
  | [] => Some (lvl4_paddr t)
  | i :: q => a ← walk t q; e ← load_entry t a i; child e
  end.

Lemma walk_role t R q a : role_ok t R -> path_ok q -> (length q <= 3)%nat -> walk t q = Some a <-> R !! a = Some q.
Proof.
  intros HR. revert a. induction q as [|i q IH]; intros a Hq Hl; cbn [walk].
  - rewrite (ro_root _ _ HR). split; [by intros [= ->]|by intros ->].
  - cbn [length] in Hl. pose proof Hq as [_ Hq']. split.
    + destruct (walk t q) as [p|] eqn:Hp; [|done]. cbn [mbind option_bind]. pose proof (proj1 (IH p Hq' ltac:(lia)) eq_refl) as Hp'. clear Hp. rename Hp' into Hp.
      destruct (load_entry t p i) as [e|] eqn:He; [|done]. cbn [mbind option_bind]. unfold child.
      destruct (has e PT_PRESENT) eqn:Hpr; [|done]. intros [= <-]. by apply (ro_child _ _ HR p q i e).
    + intros Ha. destruct (ro_parent _ _ HR a q i Ha) as (p & e & Hp & He & Hc). apply IH in Hp; [|done|lia].
      rewrite Hp. cbn [mbind option_bind]. rewrite He. done.
Qed.

(** The leaf of an address of the user half. *)
Definition leaf_at t v : option Z :=
  a ← walk t (path2 v); e ← load_entry t a (GET_LVL1_INDEX v); if has e PT_PRESENT then Some e else None.

Lemma get_page_leaf t R v : role_ok t R -> 0 <= v < 2 ^ 47 ->
  match leaf_at t v with
  | Some e => exists a, walk t (path2 v) = Some a /\ load_entry t a (GET_LVL1_INDEX v) = Some e /\
                get_page64 t v = Some (PAGE_4KIB, Some (a, GET_LVL1_INDEX v))
  | None => get_page64 t v = Some (0, None)
  end.
Proof.
  intros HR Hv. destruct (index_range v Hv) as (I4 & I3 & I2 & I1). unfold leaf_at, get_page64. cbn [path2 path3 path4 walk].
  assert (Hroot : R !! lvl4_paddr t = Some []) by (by apply (ro_root _ _ HR)).
  rewrite (proj2 (Z.eqb_neq _ 0)) by (destruct (ro_addr _ _ HR _ (mk_is_Some _ _ Hroot)); lia).
  assert (Hstep : forall a q i, R !! a = Some q -> (length q < 3)%nat -> path_ok (i :: q) -> exists e, load_entry t a i = Some e /\
    (has e PT_PRESENT = true -> has e PT_HUGE = false /\ R !! page_get_paddr e = Some (i :: q))).
  { intros a q i Ha Hq Hi. destruct (role_load t R a q i HR Ha (path_ok_index i q Hi)) as [e He]. exists e. split; [done|].
    by apply (ro_child _ _ HR a). }
  destruct (Hstep (lvl4_paddr t) [] (GET_LVL4_INDEX v) Hroot) as (e4 & E4 & C4); [cbn; lia|done|]. cbn [mbind option_bind]. rewrite E4. cbn [mbind option_bind].
  destruct (has e4 PT_PRESENT) eqn:P4; [rewrite (child_present e4 P4)|by rewrite (child_absent e4 P4)]. destruct (C4 eq_refl) as [-> R3]. cbn [negb orb mbind option_bind].
  destruct (Hstep _ _ (GET_LVL3_INDEX v) R3) as (e3 & E3 & C3); [cbn; lia|cbn; rewrite decide_False by done; done|]. rewrite E3. cbn [mbind option_bind].
  destruct (has e3 PT_PRESENT) eqn:P3; [rewrite (child_present e3 P3)|by rewrite (child_absent e3 P3)]. destruct (C3 eq_refl) as [-> R2]. cbn [negb orb mbind option_bind].
  destruct (Hstep _ _ (GET_LVL2_INDEX v) R2) as (e2 & E2 & C2); [cbn; lia|cbn; rewrite !decide_False by done; done|]. rewrite E2. cbn [mbind option_bind].
  destruct (has e2 PT_PRESENT) eqn:P2; [rewrite (child_present e2 P2)|by rewrite (child_absent e2 P2)]. destruct (C2 eq_refl) as [-> R1]. cbn [negb orb mbind option_bind].
  destruct (role_load t R _ _ (GET_LVL1_INDEX v) HR R1 I1) as [e1 E1]. rewrite E1. cbn [mbind option_bind].
  destruct (has e1 PT_PRESENT); [by exists (page_get_paddr e2)|done].
Qed.

Lemma read_page_leaf t R v : role_ok t R -> 0 <= v < 2 ^ 47 -> read_page t v = (fun e => (PAGE_4KIB, e)) <$> leaf_at t v.
Proof.
  intros HR Hv. pose proof (get_page_leaf t R v HR Hv) as Hg. unfold read_page. destruct (leaf_at t v) as [e|].
  - destruct Hg as (a & _ & He & ->). by rewrite He.
  - by rewrite Hg.
Qed.

(** ** Changing a table *)

Lemma store_table t a i e l : tables t !! a = Some l -> 0 <= i < zlen l ->
  store_entry t a i e = Some (mk_tables (lvl4_paddr t) (<[a := <[Z.to_nat i := e]> l]> (tables t))).
Proof. intros Hl Hi. unfold store_entry. rewrite Hl. cbn [mbind option_bind]. by rewrite mstore_ok. Qed.

Lemma store_facts t R a q i e : role_ok t R -> R !! a = Some q -> 0 <= i < 512 ->
  exists t', store_entry t a i e = Some t' /\ lvl4_paddr t' = lvl4_paddr t /\
    (forall a', is_Some (tables t' !! a') <-> is_Some (tables t !! a')) /\
    (forall a' l, tables t' !! a' = Some l -> zlen l = 512) /\
    forall a' i', load_entry t' a' i' = if decide (a' = a /\ i' = i) then Some e else load_entry t a' i'.
Proof.
  intros HR Ha Hi. destruct (proj1 (ro_dom _ _ HR a) (mk_is_Some _ _ Ha)) as [l Hl]. pose proof (ro_len _ _ HR a l Hl) as Hlen.
  rewrite (store_table t a i e l Hl) by lia. eexists. split; [done|]. cbn [lvl4_paddr tables]. split; [done|]. split_and!.
  - intros a'. destruct (decide (a' = a)) as [->|Hne]; [rewrite lookup_insert_eq, Hl; naive_solver|by rewrite lookup_insert_ne].
  - intros a' l'. destruct (decide (a' = a)) as [->|Hne]; [rewrite lookup_insert_eq|rewrite lookup_insert_ne by done; apply (ro_len _ _ HR)].
    intros [= <-]. unfold zlen in *. by rewrite length_insert.
  - intros a' i'. unfold load_entry. cbn [tables]. destruct (decide (a' = a)) as [->|Hne].
    2:{ rewrite lookup_insert_ne by done. by rewrite decide_False by naive_solver. }
    rewrite lookup_insert_eq, Hl. cbn [mbind option_bind]. unfold mload, zlen in *. rewrite length_insert.
    destruct (Z.leb_spec 0 i'), (Z.ltb_spec i' (Z.of_nat (length l))); cbn [andb]; try (rewrite decide_False by lia; done).
    destruct (decide (i' = i)) as [->|Hni].
    + rewrite decide_True by done. apply list_lookup_insert_eq. lia.
    + rewrite decide_False by naive_solver. apply list_lookup_insert_ne. lia.
Qed.

(** A leaf is found as before when its table is and the entry did not change. *)
Lemma leaf_same t R t' R' v : role_ok t R -> role_ok t' R' -> 0 <= v < 2 ^ 47 ->
  (forall a, R' !! a = Some (path2 v) <-> R !! a = Some (path2 v)) ->
  (forall a, R !! a = Some (path2 v) -> load_entry t' a (GET_LVL1_INDEX v) = load_entry t a (GET_LVL1_INDEX v)) ->
  leaf_at t' v = leaf_at t v.
Proof.
  intros HR HR' Hv Hpath Hload. unfold leaf_at. pose proof (path2_ok v Hv) as Hp. assert (Hl : (length (path2 v) <= 3)%nat) by done.
  assert (walk t' (path2 v) = walk t (path2 v)) as ->.
  { apply option_eq. intros a. rewrite (walk_role t' R' _ a HR' Hp Hl), (walk_role t R _ a HR Hp Hl). apply Hpath. }
  destruct (walk t (path2 v)) as [a|] eqn:Ha; [|done]. cbn [mbind option_bind]. rewrite Hload; [done|].
  by apply (walk_role t R _ a HR Hp Hl).
Qed.

(** An entry above the leaves gets other flags. *)
Lemma recolour_ok t R a q i e e' : role_ok t R -> R !! a = Some q -> (length q < 3)%nat -> path_ok (i :: q) ->
  load_entry t a i = Some e -> has e PT_PRESENT = true -> has e' PT_PRESENT = true -> has e' PT_HUGE = has e PT_HUGE ->
  page_get_paddr e' = page_get_paddr e ->
  exists t', store_entry t a i e' = Some t' /\ role_ok t' R /\ (forall b, is_Some (tables t' !! b) <-> is_Some (tables t !! b)) /\
    forall v, 0 <= v < 2 ^ 47 -> leaf_at t' v = leaf_at t v.
Proof.
  intros HR Ha Hq Hi He Hp Hp' Hh Hpa. destruct (store_facts t R a q i e' HR Ha (path_ok_index _ _ Hi)) as (t' & Ht' & Hroot & Hdom & Hlen & Hload).
  exists t'. split; [done|]. assert (HR' : role_ok t' R).
  { destruct HR as [A1 A2 A3 A4 A5 A6 A7]. constructor; try done.
    - intros a'. by rewrite Hroot.
    - intros a'. by rewrite A2, Hdom.
    - intros a' q' i' e1 Ha' Hq' Hi'. rewrite Hload. case_decide as Hd; [|by apply A6]. destruct Hd as [-> ->]. intros [= <-] _.
      rewrite Ha in Ha'. injection Ha' as <-. rewrite Hh, Hpa. by eapply A6.
    - intros a' q' i' Ha'. destruct (A7 a' q' i' Ha') as (p & e1 & Hpp & He1 & Hc1). destruct (decide (p = a /\ i' = i)) as [[-> ->]|Hne].
      + exists a, e'. rewrite Hload, decide_True by done. split_and!; try done. rewrite He in He1. injection He1 as <-.
        rewrite (child_present e Hp) in Hc1. by rewrite (child_present e' Hp'), Hpa.
      + exists p, e1. by rewrite Hload, decide_False. }
  split; [done|]. split; [done|]. intros v Hv. apply (leaf_same t R t' R); try done.
  intros a' Ha'. rewrite Hload, decide_False; [done|]. intros [-> _]. rewrite Ha in Ha'. injection Ha' as ->. cbn in Hq. lia.
Qed.

Lemma load_add_table t n a i : tables t !! n = None ->
  load_entry (add_table t n) a i = if decide (a = n) then mload (replicate 512 0) i else load_entry t a i.
Proof.
  intros Hn. unfold load_entry, add_table. cbn [tables]. case_decide as Hd; [subst; by rewrite lookup_insert_eq|by rewrite lookup_insert_ne].
Qed.

Lemma zero_entry i e : mload (replicate 512 0) i = Some e -> e = 0.
Proof. unfold mload. case_test; [|done]. intros He. by apply lookup_replicate in He as [-> _]. Qed.

(** A table without entries is hung below an absent entry. *)
Section Hang.
Context t R a q i e e' n (HR : role_ok t R) (Ha : R !! a = Some q) (Hq : (length q < 3)%nat) (Hi : path_ok (i :: q))
  (He : load_entry t a i = Some e) (Habs : has e PT_PRESENT = false) (Hp' : has e' PT_PRESENT = true)
  (Hh' : has e' PT_HUGE = false) (Hpa : page_get_paddr e' = n) (Hn : R !! n = None).

Definition hung : tables64 :=
  mk_tables (lvl4_paddr t) (<[a := <[Z.to_nat i := e']> (default [] (tables t !! a))]> (<[n := replicate 512 0]> (tables t))).

Lemma hang_fresh : tables t !! n = None.
Proof. apply eq_None_not_Some. intros Hs. apply (ro_dom _ _ HR) in Hs. rewrite Hn in Hs. by destruct Hs. Qed.

Lemma hang_table : exists l, tables t !! a = Some l /\ zlen l = 512.
Proof. destruct (proj1 (ro_dom _ _ HR a) (mk_is_Some _ _ Ha)) as [l Hl]. exists l. split; [done|]. by apply (ro_len _ _ HR a). Qed.

Lemma hang_store : store_entry (add_table t n) a i e' = Some hung.
Proof.
  destruct hang_table as (l & Hl & Hlen). unfold hung. rewrite Hl. apply (store_table (add_table t n)).
  - cbn. rewrite lookup_insert_ne by congruence. done.
  - pose proof (path_ok_index _ _ Hi). cbn in Hlen |- *. unfold zlen in *. lia.
Qed.

Lemma hang_dom b : is_Some (tables hung !! b) <-> b = n \/ is_Some (tables t !! b).
Proof.
  destruct hang_table as (l & Hl & _). cbn [hung tables]. destruct (decide (b = a)) as [->|Hb]; [rewrite lookup_insert_eq, Hl; naive_solver|].
  rewrite lookup_insert_ne by done. destruct (decide (b = n)) as [->|]; [rewrite lookup_insert_eq; naive_solver|rewrite lookup_insert_ne by done; naive_solver].
Qed.

Lemma hang_load a' i' : load_entry hung a' i' =
  if decide (a' = a /\ i' = i) then Some e' else if decide (a' = n) then mload (replicate 512 0) i' else load_entry t a' i'.
Proof.
  destruct hang_table as (l & Hl & Hlen). unfold load_entry. cbn [hung tables]. rewrite Hl. change (default [] (Some l)) with l.
  destruct (decide (a' = a)) as [->|Hne].
  - rewrite lookup_insert_eq. cbn [mbind option_bind]. rewrite (decide_False (P := a = n)) by congruence. rewrite Hl. cbn [mbind option_bind].
    unfold mload, zlen in *. rewrite length_insert. pose proof (path_ok_index _ _ Hi).
    destruct (Z.leb_spec 0 i'), (Z.ltb_spec i' (Z.of_nat (length l))); cbn [andb]; try (rewrite decide_False by lia; done).
    destruct (decide (i' = i)) as [->|Hni]; [rewrite decide_True by done; apply list_lookup_insert_eq; lia|].
    rewrite decide_False by naive_solver. apply list_lookup_insert_ne. lia.
  - rewrite lookup_insert_ne by done. rewrite (decide_False (P := a' = a /\ _)) by naive_solver.
    destruct (decide (a' = n)) as [->|]; [by rewrite lookup_insert_eq|by rewrite lookup_insert_ne].
Qed.

Lemma hang_len a' l : tables hung !! a' = Some l -> zlen l = 512.
Proof.
  destruct hang_table as (l0 & Hl & Hlen). cbn [hung tables]. rewrite Hl. change (default [] (Some l0)) with l0.
  destruct (decide (a' = a)) as [->|Hb]; [rewrite lookup_insert_eq|rewrite lookup_insert_ne by done].
  { intros [= <-]. unfold zlen in *. by rewrite length_insert. }
  destruct (decide (a' = n)) as [->|]; [rewrite lookup_insert_eq; by intros [= <-]|rewrite lookup_insert_ne by done; apply (ro_len _ _ HR)].
Qed.

Context (Hn0 : 0 < n < 2 ^ 52) (Hna : n mod PAGE_4KIB = 0) (Hnb : exists b, n = frame_at b).

Lemma hang_roles : role_ok hung (<[n := i :: q]> R).
Proof.
  pose proof HR as [A1 A2 A3 A4 A5 A6 A7]. constructor.
  - intros a'. destruct (decide (a' = n)) as [->|Hne]; [|rewrite lookup_insert_ne by done; apply A1]. rewrite lookup_insert_eq. cbn [hung lvl4_paddr].
    split; [done|]. intros Hr. rewrite (proj2 (A1 n) Hr) in Hn. done.
  - intros a'. rewrite hang_dom, <- A2. destruct (decide (a' = n)) as [->|Hne]; [rewrite lookup_insert_eq; naive_solver|rewrite lookup_insert_ne by done; naive_solver].
  - apply hang_len.
  - intros a'. destruct (decide (a' = n)) as [->|Hne]; [done|rewrite lookup_insert_ne by done; apply A4].
  - intros a' q'. destruct (decide (a' = n)) as [->|Hne]; [rewrite lookup_insert_eq|rewrite lookup_insert_ne by done; apply A5].
    intros [= <-]. split; [cbn; lia|done].
  - intros a' q' i' e1 Ha' Hq' Hi'. rewrite hang_load. destruct (decide (a' = a /\ i' = i)) as [[-> ->]|Hd].
    { intros [= <-] _. rewrite lookup_insert_ne, Ha in Ha' by congruence. injection Ha' as <-. by rewrite Hpa, lookup_insert_eq. }
    destruct (decide (a' = n)) as [->|Hne]; [by intros ->%zero_entry|]. rewrite lookup_insert_ne in Ha' by done. intros He1 Hp1.
    destruct (A6 a' q' i' e1 Ha' Hq' Hi' He1 Hp1) as [? HR1]. split; [done|]. rewrite lookup_insert_ne; [done|congruence].
  - intros a' q' i'. destruct (decide (a' = n)) as [->|Hne].
    + rewrite lookup_insert_eq. intros [= <- <-]. exists a, e'. rewrite lookup_insert_ne by congruence. rewrite hang_load, decide_True by done.
      split_and!; try done. by rewrite (child_present e' Hp'), Hpa.
    + rewrite lookup_insert_ne by done. intros Ha'. destruct (A7 a' q' i' Ha') as (p & e1 & Hpp & He1 & Hc1).
      assert (p <> n) by congruence. exists p, e1. rewrite lookup_insert_ne by done. rewrite hang_load. rewrite (decide_False (P := p = n)) by done.
      rewrite decide_False; [done|]. intros [-> ->]. rewrite He in He1. injection He1 as <-. by rewrite (child_absent e Habs) in Hc1.
Qed.

Lemma hang_no_path a' : R !! a' = Some (i :: q) -> False.
Proof.
  intros Hr. destruct (ro_parent _ _ HR a' q i Hr) as (p & e1 & Hpp & He1 & Hc1). rewrite (role_inj t R p a q HR Hpp Ha) in He1.
  rewrite He in He1. injection He1 as <-. by rewrite (child_absent e Habs) in Hc1.
Qed.

(** The new table holds no leaf, and below the absent entry there was none. *)
Lemma hang_leaf v : 0 <= v < 2 ^ 47 -> leaf_at hung v = leaf_at t v.
Proof.
  intros Hv. pose proof hang_roles as HR'. assert (Hl3 : (length (path2 v) <= 3)%nat) by done.
  destruct (decide (path2 v = i :: q)) as [Hpv|Hpv].
  - assert (leaf_at t v = None) as ->.
    { unfold leaf_at. destruct (walk t (path2 v)) as [a1|] eqn:Hw; [|done]. apply (walk_role t R _ a1 HR (path2_ok v Hv) Hl3) in Hw.
      rewrite Hpv in Hw. by destruct (hang_no_path a1). }
    unfold leaf_at. rewrite (proj2 (walk_role hung _ (path2 v) n HR' (path2_ok v Hv) Hl3)) by (rewrite Hpv; apply lookup_insert_eq).
    cbn [mbind option_bind]. rewrite hang_load, decide_False by (intros [-> _]; congruence). rewrite decide_True by done.
    destruct (mload _ _) as [e1|] eqn:E1; [|done]. by apply zero_entry in E1 as ->.
  - apply (leaf_same t R hung (<[n := i :: q]> R)); try done.
    + intros a'. destruct (decide (a' = n)) as [->|]; [rewrite lookup_insert_eq, Hn|by rewrite lookup_insert_ne]. split; [intros Hx; exfalso; apply Hpv; congruence|done].
    + intros a' Ha'. rewrite hang_load. rewrite (decide_False (P := a' = n)) by congruence. rewrite decide_False; [done|].
      intros [-> _]. rewrite Ha in Ha'. injection Ha' as ->. cbn in Hq. lia.
Qed.
End Hang.

(** ** Walking down *)

(** The entry a walk leaves behind. *)
Definition walked e fl : Z := without (Z.lor (Z.lor e (Z.land fl FLAGS_MASK)) PT_WRITE) PT_NO_EXECUTE.

Lemma walked_paddr e fl : page_get_paddr (walked e fl) = page_get_paddr e.
Proof.
  unfold page_get_paddr, walked, without, PT_WRITE, PT_NO_EXECUTE. apply Z.bits_inj'. intros k Hk.
  rewrite !Z.land_spec, Z.ldiff_spec, !Z.lor_spec, Z.land_spec, addr_mask_bit by done.
  destruct (Z.leb_spec 12 k); [|by rewrite !andb_false_r]. destruct (Z.ltb_spec k 52); [|by rewrite !andb_false_r].
  rewrite flags_mask_bit, (proj2 (Z.ltb_ge k 12)), !Z.pow2_bits_false by lia. by rewrite !andb_false_r, !orb_false_r, !andb_true_r.
Qed.

Lemma walked_flag e fl k : 0 <= k < 12 -> k <> 1 -> has (walked e fl) (2 ^ k) = has e (2 ^ k) || has fl (2 ^ k).
Proof.
  intros Hk Hk1. unfold walked. unfold PT_NO_EXECUTE, PT_WRITE. rewrite has_without_ne, !has_lor by lia. rewrite !has_pow2 by lia.
  rewrite Z.land_spec, flags_mask_bit, (proj2 (Z.ltb_lt k 12)), Z.pow2_bits_false by lia. by rewrite andb_true_r, orb_false_r.
Qed.

(** The entry of a new table. *)
Lemma fresh_entry n : n mod PAGE_4KIB = 0 -> 0 <= n < 2 ^ 52 ->
  let e := Z.lor (page_set_paddr n) PT_PRESENT in has e PT_PRESENT = true /\ has e PT_HUGE = false /\ page_get_paddr e = n.
Proof.
  intros Hm Hn. cbn zeta. rewrite set_paddr_frame by done.
  assert (He : Z.lor n PT_PRESENT = leaf n 0) by (unfold leaf; rewrite set_paddr_frame by done; done).
  rewrite He. split_and!; [| |by apply leaf_paddr]; unfold PT_PRESENT, PT_HUGE; by rewrite leaf_flag by (done || lia).
Qed.

(** The tables' hold on a frame. *)
Definition own64 t b : Z := if tables t !! frame_at b then 1 else 0.

Lemma own64_nonneg t b : 0 <= own64 t b.
Proof. unfold own64. by case_match. Qed.

Lemma own64_same t t' b : (forall a, is_Some (tables t' !! a) <-> is_Some (tables t !! a)) -> own64 t' b = own64 t b.
Proof. intros Hd. specialize (Hd (frame_at b)). unfold own64. destruct (tables t' !! _), (tables t !! _); naive_solver. Qed.

Lemma frame_at_inj b b' : frame_at b = frame_at b' -> b = b'.
Proof. unfold frame_at, PAGE_4KIB. lia. Qed.

(** A new frame for a table. *)
Lemma alloc_table st : pmm_inv st -> chunk_ok st ->
  alloc_frames st 1 = panic \/
  exists b st', alloc_frames st 1 = ret (frame_at b, st') /\ keeps_used st st' /\ 0 < frame_at b < 2 ^ 52 /\ frame_at b mod PAGE_4KIB = 0 /\
    frame_ref st b = 0 /\ forall i, frame_ref st' i = frame_ref st i + (if decide (i = b) then 1 else 0).
Proof.
  intros Hp Hc. unfold alloc_frames, alloc_frames_at. destruct (alloc_ok st 1 false Hp) as (p & st' & -> & Hout); [by unfold SIZE_MOD|].
  unfold mbind. cbn [run_bind ret]. destruct (Z.eqb_spec p 0) as [->|Hp0]; [by left|]. right.
  destruct Hout as [(? & _)|(b & Hat & Hz & Hp' & Hs & Hcnt)]; [done|].
  assert (Hb : 0 <= b < block_count (frames st)) by (destruct Hat as (_ & ? & _ & ?); lia).
  pose proof (frame_place st b Hp Hc Hb) as (Hm & Hr & _). destruct Hat as (Hpe & _). rewrite (p_block _ Hp) in Hpe.
  assert (p = frame_at b) as ->. { rewrite Hpe. unfold frame_at. destruct Hc as [[-> _] _]. done. }
  rewrite <- Hpe in Hm, Hr. assert (Hb0 : frame_ref st b = 0) by (apply Hz; unfold inside; by test_lia).
  assert (Hcnt' : forall i, frame_ref st' i = frame_ref st i + (if decide (i = b) then 1 else 0)).
  { intros i. rewrite Hcnt. case_decide as Hi; [subst i; unfold inside; test_lia; lia|].
    unfold inside. destruct (Z.leb_spec b i), (Z.ltb_spec i (b + 1)); cbn [andb]; lia. }
  exists b, st'. split; [done|]. split; [|split_and!; done || lia].
  split; [done|]. split; [done|]. intros i Hi. rewrite Hcnt', decide_False; [lia|]. intros ->. lia.
Qed.

(** What changing the tables on the way to a leaf may do. *)
Record grown st t R st' t' R' : Prop := {
  g_used : keeps_used st st';
  g_roles : role_ok t' R';
  g_keeps : forall a q, R !! a = Some q -> R' !! a = Some q;
  g_root : lvl4_paddr t' = lvl4_paddr t;
  g_own : forall b, 0 <= own64 t' b - own64 t b /\ own64 t' b - own64 t b = frame_ref st' b - frame_ref st b;
  g_leaf : forall v, 0 <= v < 2 ^ 47 -> leaf_at t' v = leaf_at t v
}.

Lemma grown_trans st1 t1 R1 st2 t2 R2 st3 t3 R3 : grown st1 t1 R1 st2 t2 R2 -> grown st2 t2 R2 st3 t3 R3 -> grown st1 t1 R1 st3 t3 R3.
Proof.
  intros [A1 A2 A3 A4 A5 A6] [B1 B2 B3 B4 B5 B6]. constructor; try done.
  - by eapply keeps_used_trans.
  - intros a q Ha. by apply B3, A3.
  - congruence.
  - intros b. specialize (A5 b). specialize (B5 b). lia.
  - intros v Hv. rewrite B6 by done. by apply A6.
Qed.

(** A walk goes one step further down, or stops the machine. *)
Definition walk_done st t R q (res : run (pmm_state_t * tables64 * Z)) : Prop :=
  res = panic \/ exists st' t' R' next, res = ret (st', t', next) /\ grown st t R st' t' R' /\ R' !! next = Some q.

Lemma walk_once_ok st t R a q i fl : pmm_inv st -> chunk_ok st -> role_ok t R -> (forall b, own64 t b <= frame_ref st b) ->
  R !! a = Some q -> (length q < 3)%nat -> path_ok (i :: q) -> has fl PT_HUGE = false ->
  walk_done st t R (i :: q) (_walk_table_once st t a i fl).
Proof.
  intros Hp Hc HR Hown Ha Hq Hi Hfl. unfold _walk_table_once.
  destruct (role_load t R a q i HR Ha (path_ok_index i q Hi)) as [e He]. rewrite He. cbn [lift]. unfold mbind at 1. cbn [run_bind ret].
  destruct (has e PT_PRESENT) eqn:Hpr.
  - unfold mbind at 1. cbn [run_bind ret]. fold (walked e fl). destruct (ro_child _ _ HR a q i e Ha Hq Hi He Hpr) as [Hh Hnext].
    destruct (recolour_ok t R a q i e (walked e fl) HR Ha Hq Hi He Hpr) as (t' & -> & HR' & Hdom & Hleaf).
    + unfold PT_PRESENT in *. by rewrite walked_flag, Hpr by lia.
    + unfold PT_HUGE in *. by rewrite walked_flag, Hfl, orb_false_r by lia.
    + apply walked_paddr.
    + right. cbn [lift]. unfold mbind. cbn [run_bind ret]. exists st, t', R, (page_get_paddr e). split; [done|]. split; [|done].
      constructor; auto using keeps_used_refl.
      * symmetry. apply (ro_root _ _ HR'). by apply (ro_root _ _ HR).
      * intros b. rewrite (own64_same t t' b Hdom). lia.
  - destruct (alloc_table st Hp Hc) as [->|(n & st' & -> & Hkeep & Hn0 & Hnm & Hnz & Hcnt)]; [by left|].
    unfold mbind. cbn [run_bind ret].
    destruct (fresh_entry (frame_at n) Hnm ltac:(lia)) as (F1 & F2 & F3). set (e0 := Z.lor (page_set_paddr (frame_at n)) PT_PRESENT) in *. fold (walked e0 fl).
    assert (Hfree : R !! frame_at n = None).
    { apply eq_None_not_Some. intros Hs. apply (ro_dom _ _ HR) in Hs. specialize (Hown n). unfold own64 in Hown. rewrite Hnz in Hown.
      destruct (tables t !! frame_at n); [lia|by destruct Hs]. }
    assert (G1 : has (walked e0 fl) PT_PRESENT = true) by (unfold PT_PRESENT in *; by rewrite walked_flag, F1 by lia).
    assert (G2 : has (walked e0 fl) PT_HUGE = false) by (unfold PT_HUGE in *; by rewrite walked_flag, F2, Hfl by lia).
    assert (G3 : page_get_paddr (walked e0 fl) = frame_at n) by (by rewrite walked_paddr).
    rewrite (hang_store t R a q i (walked e0 fl) (frame_at n)) by done. cbn [lift]. unfold mbind. cbn [run_bind ret]. right.
    eexists st', _, (<[frame_at n := i :: q]> R), (frame_at n). split; [reflexivity|]. split; [|apply lookup_insert_eq].
    constructor; try done.
    + eapply (hang_roles t R a q i e); eauto.
    + intros a' q' Ha'. rewrite lookup_insert_ne; [done|congruence].
    + intros b. rewrite Hcnt. assert (Hd : is_Some (tables (hung t a i (walked e0 fl) (frame_at n)) !! frame_at b) <->
        frame_at b = frame_at n \/ is_Some (tables t !! frame_at b)) by (eapply hang_dom; eauto). unfold own64.
      pose proof (hang_fresh t R (frame_at n) HR Hfree) as Hf. case_decide as Hb.
      * subst b. rewrite Hf. destruct (tables (hung _ _ _ _ _) !! _); [lia|]. destruct (proj2 Hd (or_introl eq_refl)) as [? [=]].
      * assert (frame_at b <> frame_at n) by (by intros ?%frame_at_inj).
        destruct (tables (hung _ _ _ _ _) !! _), (tables t !! frame_at b); try lia; naive_solver.
    + intros v Hv. eapply (hang_leaf t R a q i e); eauto.
Qed.

(** ** Leaves *)

Lemma set_leaf_ok t R a v e : role_ok t R -> 0 <= v < 2 ^ 47 -> R !! a = Some (path2 v) ->
  exists t', store_entry t a (GET_LVL1_INDEX v) e = Some t' /\ role_ok t' R /\ (forall b, own64 t' b = own64 t b) /\
    leaf_at t' v = (if has e PT_PRESENT then Some e else None) /\
    forall v', 0 <= v' < 2 ^ 47 -> page v' <> page v -> leaf_at t' v' = leaf_at t v'.
Proof.
  intros HR Hv Ha. destruct (index_range v Hv) as (_ & _ & _ & I1).
  destruct (store_facts t R a _ (GET_LVL1_INDEX v) e HR Ha I1) as (t' & Ht' & Hroot & Hdom & Hlen & Hload).
  exists t'. split; [done|]. assert (HR' : role_ok t' R).
  { destruct HR as [A1 A2 A3 A4 A5 A6 A7]. constructor; try done.
    - intros a'. by rewrite Hroot.
    - intros a'. by rewrite A2, Hdom.
    - intros a' q' i' e1 Ha' Hq' Hi'. rewrite Hload. rewrite decide_False; [by apply A6|]. intros [-> _]. rewrite Ha in Ha'. injection Ha' as <-. cbn in Hq'. lia.
    - intros a' q' i' Ha'. destruct (A7 a' q' i' Ha') as (p & e1 & Hpp & He1 & Hc1). exists p, e1. rewrite Hload, decide_False; [done|].
      intros [-> _]. rewrite Ha in Hpp. injection Hpp as <-. destruct (A5 a' _ Ha') as [Hl _]. cbn in Hl. lia. }
  split; [done|]. split; [intros b; by apply own64_same|]. assert (Hl3 : (length (path2 v) <= 3)%nat) by done. split.
  - unfold leaf_at. rewrite (proj2 (walk_role t' R _ a HR' (path2_ok v Hv) Hl3) Ha). cbn [mbind option_bind]. by rewrite Hload, decide_True.
  - intros v' Hv' Hne. apply (leaf_same t R t' R); try done. intros a' Ha'. rewrite Hload, decide_False; [done|]. intros [-> Hi].
    rewrite Ha in Ha'. apply Hne. rewrite !page_indices by done. unfold path2, path3, path4 in Ha'. injection Ha' as -> -> ->. by rewrite Hi.
Qed.

Lemma leaf_present paddr fl : has (leaf paddr fl) PT_PRESENT = true.
Proof.
  unfold leaf, PT_PRESENT. rewrite has_lor, (has_pow2 (Z.land _ _)) by lia. rewrite Z.land_spec, Z.lor_spec, flags_mask_bit by lia.
  by rewrite Z.pow2_bits_true, !orb_true_r by lia.
Qed.

Definition map_done st t v (e : Z) (res : run (pmm_state_t * tables64)) : Prop :=
  res = panic \/
  exists st' t' R', res = ret (st', t') /\ keeps_used st st' /\ role_ok t' R' /\
    (forall b, 0 <= own64 t' b - own64 t b /\ own64 t' b - own64 t b = frame_ref st' b - frame_ref st b) /\
    leaf_at t' v = Some e /\ forall v', 0 <= v' < 2 ^ 47 -> page v' <> page v -> leaf_at t' v' = leaf_at t v'.

Lemma grown_own st t R st' t' R' : grown st t R st' t' R' -> (forall b, own64 t b <= frame_ref st b) -> forall b, own64 t' b <= frame_ref st' b.
Proof. intros Hg Ho b. specialize (Ho b). pose proof (g_own _ _ _ _ _ _ Hg b). lia. Qed.

Lemma map_page64_ok st t R v paddr fl : pmm_inv st -> chunk_ok st -> role_ok t R -> (forall b, own64 t b <= frame_ref st b) ->
  0 <= v < 2 ^ 47 -> has fl PT_HUGE = false -> map_done st t v (leaf paddr fl) (map_page64 st t PAGE_4KIB v paddr fl).
Proof.
  intros Hp Hc HR Hown Hv Hfl. destruct (path2_ok v Hv) as (O2 & O3 & O4 & _). rewrite decide_False in O2 by done. rewrite decide_False in O3 by done. rewrite decide_True in O4 by done.
  unfold map_page64. assert (Hroot : R !! lvl4_paddr t = Some []) by (by apply (ro_root _ _ HR)).
  destruct (walk_once_ok st t R (lvl4_paddr t) [] (GET_LVL4_INDEX v) fl Hp Hc HR Hown Hroot) as [->|(st3 & t3 & R3 & n3 & -> & G3 & N3)];
    [cbn; lia|done|done|by left|].
  unfold mbind at 1. cbn [run_bind ret]. change (PAGE_4KIB =? PAGE_1GIB) with false. cbn iota. pose proof (g_used _ _ _ _ _ _ G3) as (P3 & S3 & _).
  destruct (walk_once_ok st3 t3 R3 n3 _ (GET_LVL3_INDEX v) fl P3 (chunk_ok_same _ _ S3 Hc) (g_roles _ _ _ _ _ _ G3) (grown_own _ _ _ _ _ _ G3 Hown) N3)
    as [->|(st2 & t2 & R2 & n2 & -> & G2 & N2)]; [cbn; lia|cbn; rewrite decide_False by done; done|done|by left|].
  unfold mbind at 1. cbn [run_bind ret]. change (PAGE_4KIB =? PAGE_2MIB) with false. cbn iota. pose proof (grown_trans _ _ _ _ _ _ _ _ _ G3 G2) as G32.
  pose proof (g_used _ _ _ _ _ _ G32) as (P2 & S2 & _).
  destruct (walk_once_ok st2 t2 R2 n2 _ (GET_LVL2_INDEX v) fl P2 (chunk_ok_same _ _ S2 Hc) (g_roles _ _ _ _ _ _ G32) (grown_own _ _ _ _ _ _ G32 Hown) N2)
    as [->|(st1 & t1 & R1 & n1 & -> & G1 & N1)]; [cbn; lia|cbn; rewrite !decide_False by done; done|done|by left|].
  unfold mbind at 1. cbn [run_bind ret]. pose proof (grown_trans _ _ _ _ _ _ _ _ _ G32 G1) as [U1 U2 U3 U4 U5 U6].
  destruct (set_leaf_ok t1 R1 n1 v (leaf paddr fl) U2 Hv N1) as (t' & -> & HR' & Ho & Hlf & Hoth).
  right. cbn [lift]. unfold mbind. cbn [run_bind ret]. exists st1, t', R1. split; [done|]. split; [done|]. split; [done|]. split; [intros b; by rewrite Ho|].
  rewrite Hlf, leaf_present. split; [done|]. intros v' Hv' Hne. rewrite Hoth by done. by apply U6.
Qed.

(** ** A new space *)

Lemma clone_ok st : pmm_inv st -> chunk_ok st ->
  _clone_root64 st = panic \/
  exists st' t R, _clone_root64 st = ret (st', t) /\ keeps_used st st' /\ role_ok t R /\
    (forall b, own64 t b = frame_ref st' b - frame_ref st b) /\ forall v, 0 <= v < 2 ^ 47 -> leaf_at t v = None.
Proof.
  intros Hp Hc. unfold _clone_root64. destruct (alloc_table st Hp Hc) as [->|(n & st' & -> & Hkeep & Hn0 & Hnm & _ & Hcnt)]; [by left|].
  pose proof kernel_root_len as Hkl. unfold mbind. cbn [run_bind ret]. rewrite mread_ok by (unfold zlen; lia). cbn [lift run_bind ret].
  rewrite mwrite_ok by (unfold zlen; rewrite ?length_take, ?length_drop, ?length_replicate, ?Hkl; lia). cbn [lift run_bind ret]. right.
  change (Z.to_nat 256) with 256%nat. set (half := take 256 (drop 256 kernel_root)).
  assert (Hh : length half = 256%nat) by (unfold half; rewrite length_take, length_drop, Hkl; done).
  set (l := take 256 (replicate 512 0) ++ half ++ drop (256 + length half) (replicate 512 0)).
  assert (Hl : zlen l = 512) by (unfold zlen, l; rewrite !length_app, length_take, length_drop, Hh, length_replicate; done).
  set (t := mk_tables (frame_at n) {[frame_at n := l]}). exists st', t, {[frame_at n := []]}. split; [done|]. split; [done|].
  assert (Hlow : forall i e, 0 <= i < 256 -> load_entry t (frame_at n) i = Some e -> e = 0).
  { intros i e Hi. unfold load_entry. cbn [t tables]. rewrite lookup_singleton_eq. cbn [mbind option_bind]. rewrite mload_ok by lia. unfold l.
    rewrite lookup_app_l by (rewrite length_take, length_replicate; lia). intros He. apply lookup_take_Some in He as [He _].
    by apply lookup_replicate in He as [-> _]. }
  assert (HR : role_ok t {[frame_at n := []]}).
  { constructor; cbn [t tables lvl4_paddr].
    - intros a. rewrite lookup_singleton_Some. naive_solver.
    - intros a. destruct (decide (a = frame_at n)) as [->|]; [rewrite !lookup_singleton_eq|rewrite !lookup_singleton_ne by done]; naive_solver.
    - intros a l' Hl'. apply lookup_singleton_Some in Hl' as [_ <-]. done.
    - intros a [q [<- _]%lookup_singleton_Some]. eauto.
    - intros a q [_ <-]%lookup_singleton_Some. split; [cbn; lia|done].
    - intros a q i e [<- <-]%lookup_singleton_Some _ [Hi _] He Hpr. rewrite decide_True in Hi by done. rewrite (Hlow i e Hi He) in Hpr. done.
    - intros a q i Ha. apply lookup_singleton_Some in Ha as [_ ?]. done. }
  split; [done|]. split.
  - intros b. rewrite Hcnt. unfold own64. cbn [t tables]. case_decide as Hb; [subst b; rewrite lookup_singleton_eq; lia|].
    rewrite lookup_singleton_ne by (by intros ?%frame_at_inj). lia.
  - intros v Hv. unfold leaf_at. destruct (walk t (path2 v)) as [a|] eqn:Hw; [|done].
    apply (walk_role t _ _ a HR (path2_ok v Hv)) in Hw; [|done]. apply lookup_singleton_Some in Hw as [_ ?]. done.
Qed.

(** ** Releasing the tables *)

(** Where a path leaves the path [q] it goes through. *)
Fixpoint branch q (q' : list Z) : option Z :=
  match q' with
  | [] => None
  | k :: r => if decide (r = q) then Some k else branch q r
  end.

Lemma branch_len q q' k : branch q q' = Some k -> (length q < length q')%nat.
Proof.
  induction q' as [|x r IH]; [done|]. cbn. case_decide as Hr; [subst; lia|]. intros Hb. specialize (IH Hb). lia.
Qed.

Lemma branch_below q q' k j : branch (k :: q) q' = Some j -> branch q q' = Some k.
Proof.
  induction q' as [|x r IH]; [done|]. cbn. destruct (decide (r = k :: q)) as [->|Hne].
  - intros _. rewrite decide_False; [cbn; by rewrite decide_True|]. intros Hq. apply (f_equal length) in Hq. cbn in Hq. lia.
  - intros Hb. specialize (IH Hb). case_decide as Hr; [subst r; apply branch_len in IH; lia|done].
Qed.

Lemma branch_cases q q' k : branch q q' = Some k -> q' = k :: q \/ exists j, branch (k :: q) q' = Some j.
Proof.
  induction q' as [|x r IH]; [done|]. cbn. case_decide as Hr; [intros Hx; left; congruence|]. intros Hb.
  destruct (IH Hb) as [->|[j Hj]]; right; [exists x; by rewrite decide_True|]. exists (if decide (r = k :: q) then x else j). by case_decide.
Qed.

Lemma branch_range q q' k : path_ok q' -> branch q q' = Some k -> 0 <= k < (if decide (q = []) then 256 else 512).
Proof.
  induction q' as [|x r IH]; [done|]. intros [Hx Hr]. cbn [branch]. destruct (decide (r = q)) as [He|He]; [|by apply IH]. intros Hk. injection Hk as <-. by subst q.
Qed.

Lemma branch_root q' : q' <> [] -> exists k, branch [] q' = Some k.
Proof.
  induction q' as [|x r IH]; [done|]. intros _. cbn. case_decide as He; [eauto|by apply IH].
Qed.

(** The tables that hang below entries [i .. i + n - 1] of the table at [q]. *)
Definition below R q i (n : nat) b : Z :=
  match R !! frame_at b with
  | Some q' => match branch q q' with Some k => if (i <=? k) && (k <? i + Z.of_nat n) then 1 else 0 | None => 0 end
  | None => 0
  end.

Definition one_frame a b : Z := if decide (frame_at b = a) then 1 else 0.

(** Code that gives back [g b] holds of every frame [b]. *)
Definition frees (f : pmm_state_t -> option pmm_state_t) (g : Z -> Z) : Prop :=
  forall st, pmm_inv st -> chunk_ok st -> (forall b, g b <= frame_ref st b) ->
    exists st', f st = Some st' /\ pmm_inv st' /\ same_chunk st st' /\ forall b, frame_ref st' b = frame_ref st b - g b.

Lemma frees_nothing g : (forall b, g b = 0) -> frees Some g.
Proof.
  intros Hg st Hp Hc _. exists st. split; [done|]. split; [done|]. split; [apply same_chunk_refl|]. intros b. rewrite Hg. lia.
Qed.

Lemma frees_seq f1 f2 g1 g2 g : frees f1 g1 -> frees f2 g2 -> (forall b, 0 <= g2 b) -> (forall b, g1 b + g2 b = g b) ->
  frees (fun st => st ← f1 st; f2 st) g.
Proof.
  intros F1 F2 Hpos Hg st Hp Hc Hle.
  destruct (F1 st Hp Hc) as (st1 & -> & P1 & S1 & C1). { intros b. specialize (Hle b). specialize (Hg b). specialize (Hpos b). lia. }
  destruct (F2 st1 P1 (chunk_ok_same _ _ S1 Hc)) as (st2 & E2 & P2 & S2 & C2). { intros b. rewrite C1. specialize (Hle b). specialize (Hg b). lia. }
  exists st2. split; [done|]. split; [done|]. split; [by eapply same_chunk_trans|]. intros b. rewrite C2, C1, <- Hg. lia.
Qed.

Lemma frees_one b0 : frees (fun st => free_frames st (frame_at b0) 1) (one_frame (frame_at b0)).
Proof.
  intros st Hp Hc Hle. assert (Hr : 1 <= frame_ref st b0) by (specialize (Hle b0); unfold one_frame in Hle; by rewrite decide_True in Hle).
  pose proof (frame_place st b0 Hp Hc (pmm_ref_pos st b0 Hp ltac:(lia))) as (_ & _ & _ & Hat).
  replace (chunk_start (frames st) + b0 * PAGE_4KIB) with (frame_at b0) in Hat by (unfold frame_at; by destruct Hc as [[-> _] _]).
  destruct (free_ok st (frame_at b0) b0 1 Hp Hat) as (st' & -> & Hp' & Hs & Hcnt). exists st'. split; [done|]. split; [done|]. split; [done|].
  intros b. rewrite Hcnt. unfold one_frame, inside, dropped. destruct (decide (frame_at b = frame_at b0)) as [Hb%frame_at_inj|Hb].
  - subst b. test_lia. by test_lia.
  - assert (b <> b0) by congruence. destruct (Z.leb_spec b0 b), (Z.ltb_spec b (b0 + 1)); cbn [andb]; lia.
Qed.

Lemma below_nonneg R q i n b : 0 <= below R q i n b.
Proof. unfold below. repeat case_match; lia. Qed.

Lemma frees_loop R q body n : forall i, (forall k, i <= k < i + Z.of_nat n -> frees (body k) (below R q k 1)) ->
  frees (for_each n i body) (below R q i n).
Proof.
  induction n as [|n IH]; intros i Hb; cbn [for_each].
  - apply frees_nothing. intros b. unfold below. repeat case_match; try done. bool_facts. lia.
  - eapply frees_seq; [apply (Hb i); lia|apply (IH (i + 1)); intros k Hk; apply Hb; lia|apply below_nonneg|].
    intros b. unfold below. destruct (R !! frame_at b) as [q'|]; [|done]. destruct (branch q q') as [z|]; [|done].
    destruct (Z.leb_spec i z), (Z.leb_spec (i + 1) z), (Z.ltb_spec z (i + Z.of_nat 1)), (Z.ltb_spec z (i + 1 + Z.of_nat n)),
      (Z.ltb_spec z (i + Z.of_nat (S n))); cbn [andb]; lia.
Qed.

(** Every table on the way to a table is there. *)
Lemma role_above t R a q q' k : role_ok t R -> R !! a = Some q' -> branch q q' = Some k -> exists a', R !! a' = Some (k :: q).
Proof.
  intros HR. revert a. induction q' as [|x r IH]; intros a Ha; [done|]. cbn. case_decide as Hr; [intros [= ->]; subst; eauto|].
  intros Hb. destruct (ro_parent _ _ HR a r x Ha) as (p & _ & Hp & _). by eapply IH.
Qed.

Lemma below_absent t R a q k e b : role_ok t R -> R !! a = Some q -> load_entry t a k = Some e -> has e PT_PRESENT = false -> below R q k 1 b = 0.
Proof.
  intros HR Ha He Habs. unfold below. destruct (R !! frame_at b) as [q'|] eqn:Hb; [|done]. destruct (branch q q') as [z|] eqn:Hz; [|done].
  destruct (Z.leb_spec k z), (Z.ltb_spec z (k + Z.of_nat 1)); cbn [andb]; try done. assert (z = k) as -> by lia. exfalso.
  destruct (role_above t R _ q q' k HR Hb Hz) as [a' Ha']. by eapply (hang_no_path t R a q k e).
Qed.

(** The tables below an entry: its table and those further down. *)
Lemma below_entry t R q k n b : role_ok t R -> R !! n = Some (k :: q) -> below R (k :: q) 0 512 b + one_frame n b = below R q k 1 b.
Proof.
  intros HR Hn. unfold below, one_frame. destruct (R !! frame_at b) as [q'|] eqn:Hb.
  2:{ rewrite decide_False; [done|]. intros Hx. congruence. }
  destruct (branch (k :: q) q') as [j|] eqn:Hj.
  - rewrite (branch_below q q' k j Hj). rewrite decide_False.
    2:{ intros Hx. rewrite Hx, Hn in Hb. injection Hb as <-. apply branch_len in Hj. lia. }
    destruct (ro_path _ _ HR _ _ Hb) as [_ Hpo]. pose proof (branch_range _ _ _ Hpo Hj) as Hr. rewrite decide_False in Hr by done.
    destruct (Z.leb_spec 0 j), (Z.ltb_spec j (0 + Z.of_nat 512)), (Z.leb_spec k k), (Z.ltb_spec k (k + Z.of_nat 1)); cbn [andb]; lia.
  - case_decide as Hx.
    + rewrite Hx, Hn in Hb. injection Hb as <-. cbn [branch]. rewrite decide_True by done.
      destruct (Z.leb_spec k k), (Z.ltb_spec k (k + Z.of_nat 1)); cbn [andb]; lia.
    + destruct (branch q q') as [z|] eqn:Hz; [|done]. destruct (Z.leb_spec k z), (Z.ltb_spec z (k + Z.of_nat 1)); cbn [andb]; try done.
      assert (z = k) as -> by lia. destruct (branch_cases q q' k Hz) as [->|[j Hj']]; [|congruence]. by rewrite (role_inj t R _ n _ HR Hb Hn) in Hx.
Qed.

Lemma below_leaves t R q b : role_ok t R -> length q = 3%nat -> below R q 0 512 b = 0.
Proof.
  intros HR Hq. unfold below. destruct (R !! frame_at b) as [q'|] eqn:Hb; [|done]. destruct (branch q q') as [z|] eqn:Hz; [|done].
  apply branch_len in Hz. destruct (ro_path _ _ HR _ _ Hb). lia.
Qed.

(** Releasing what hangs below one entry, given how to release what hangs below its table. *)
Lemma frees_entry t R a q k lower f : role_ok t R -> R !! a = Some q -> (length q < 3)%nat -> path_ok (k :: q) ->
  (forall e, load_entry t a k = Some e -> has e PT_PRESENT = false -> forall st, f st = Some st) ->
  (forall e, load_entry t a k = Some e -> has e PT_PRESENT = true -> has e PT_HUGE = false ->
     forall st, f st = (st ← lower (page_get_paddr e) st; free_frames st (page_get_paddr e) 1)) ->
  (forall n, R !! n = Some (k :: q) -> frees (lower n) (below R (k :: q) 0 512)) ->
  frees f (below R q k 1).
Proof.
  intros HR Ha Hq Hk Hno Hyes Hlow. destruct (role_load t R a q k HR Ha (path_ok_index k q Hk)) as [e He].
  destruct (has e PT_PRESENT) eqn:Hpr.
  - destruct (ro_child _ _ HR a q k e Ha Hq Hk He Hpr) as [Hh Hn]. destruct (ro_addr _ _ HR _ (mk_is_Some _ _ Hn)) as (_ & _ & b0 & Hb0).
    intros st Hp Hc Hle. rewrite (Hyes e He Hpr Hh). revert st Hp Hc Hle. rewrite Hb0 in *.
    apply (frees_seq _ _ _ _ _ (Hlow _ Hn) (frees_one b0)); [intros b; unfold one_frame; by case_decide|].
    intros b. by eapply below_entry.
  - intros st Hp Hc Hle. rewrite (Hno e He Hpr). apply (frees_nothing (below R q k 1)); try done. intros b. by eapply below_absent.
Qed.

Lemma frees_lvl1 t R a q k : role_ok t R -> R !! a = Some q -> length q = 2%nat -> path_ok (k :: q) -> frees (free_lvl1 t a k) (below R q k 1).
Proof.
  intros HR Ha Hq Hk. eapply (frees_entry t R a q k (fun _ => Some)); try done; [lia| | |].
  - intros e He Hp st. unfold free_lvl1. rewrite He. cbn [mbind option_bind]. by rewrite Hp.
  - intros e He Hp Hh st. unfold free_lvl1. rewrite He. cbn [mbind option_bind]. by rewrite Hp, Hh.
  - intros n Hn. apply frees_nothing. intros b. eapply below_leaves; [done|]. cbn. lia.
Qed.

Lemma frees_lvl2 t R a q k : role_ok t R -> R !! a = Some q -> length q = 1%nat -> path_ok (k :: q) -> frees (free_lvl2 t a k) (below R q k 1).
Proof.
  intros HR Ha Hq Hk. eapply (frees_entry t R a q k (fun n => for_each 512 0 (free_lvl1 t n))); try done; [lia| | |].
  - intros e He Hp st. unfold free_lvl2. rewrite He. cbn [mbind option_bind]. by rewrite Hp.
  - intros e He Hp Hh st. unfold free_lvl2. rewrite He. cbn [mbind option_bind]. by rewrite Hp, Hh.
  - intros n Hn. apply frees_loop. intros j Hj. apply (frees_lvl1 t R n (k :: q) j HR Hn); [cbn; lia|]. split; [|done]. rewrite decide_False by done. lia.
Qed.

Lemma frees_lvl3 t R a k : role_ok t R -> R !! a = Some [] -> 0 <= k < 256 -> frees (free_lvl3 t a k) (below R [] k 1).
Proof.
  intros HR Ha Hk. eapply (frees_entry t R a [] k (fun n => for_each 512 0 (free_lvl2 t n))); try done; [cbn; lia| | |].
  - intros e He Hp st. unfold free_lvl3. rewrite He. cbn [mbind option_bind]. by rewrite Hp.
  - intros e He Hp Hh st. unfold free_lvl3. rewrite He. cbn [mbind option_bind]. by rewrite Hp.
  - intros n Hn. apply frees_loop. intros j Hj. apply (frees_lvl2 t R n [k] j HR Hn); [done|]. split; [|done]. rewrite decide_False by done. lia.
Qed.

Lemma destroy64_ok t R : role_ok t R -> frees (fun st => arch_vm_destroy st t) (own64 t).
Proof.
  intros HR. assert (Hroot : R !! lvl4_paddr t = Some []) by (by apply (ro_root _ _ HR)).
  destruct (ro_addr _ _ HR _ (mk_is_Some _ _ Hroot)) as (_ & _ & b0 & Hb0). unfold arch_vm_destroy, _free_tables_64.
  eapply (frees_seq (fun st => for_each 256 0 (free_lvl3 t (lvl4_paddr t)) st) (fun st => free_frames st (lvl4_paddr t) 1)).
  - apply (frees_loop R []). intros k Hk. by apply frees_lvl3.
  - rewrite Hb0. apply frees_one.
  - intros b. unfold one_frame. by case_decide.
  - intros b. unfold below, own64, one_frame. pose proof (ro_dom _ _ HR (frame_at b)) as Hd. rewrite <- Hb0.
    destruct (R !! frame_at b) as [q'|] eqn:Hb.
    + destruct (proj1 Hd ltac:(eauto)) as [l ->]. case_decide as Hx; [rewrite Hx, Hroot in Hb; by injection Hb as <-|].
      destruct (branch_root q') as [k Hk]; [intros ->; apply (ro_root _ _ HR) in Hb; congruence|]. rewrite Hk.
      destruct (ro_path _ _ HR _ _ Hb) as [_ Hpo]. pose proof (branch_range _ _ _ Hpo Hk) as Hr. rewrite decide_True in Hr by done.
      destruct (Z.leb_spec 0 k), (Z.ltb_spec k (0 + Z.of_nat 256)); cbn [andb]; lia.
    + rewrite decide_False by congruence. destruct (tables t !! frame_at b); [|done]. destruct (proj2 Hd ltac:(eauto)) as [? [=]].
Qed.

(** ** The interface *)

Lemma read_page_same t v v' : page v = page v' -> read_page t v = read_page t v'.
Proof. intros Hp. destruct (same_indices v v' Hp) as (E4 & E3 & E2 & E1). unfold read_page, get_page64. by rewrite E4, E3, E2, E1. Qed.

Lemma write_page_ok t R v e e' : role_ok t R -> 0 <= v < 2 ^ 47 -> read_page t v = Some (PAGE_4KIB, e) ->
  role_ok (write_page t v e') R /\ (forall b, own64 (write_page t v e') b = own64 t b) /\
  read_page (write_page t v e') v = (if has e' PT_PRESENT then Some (PAGE_4KIB, e') else None) /\
  forall v', 0 <= v' < 2 ^ 47 -> page v' <> page v -> read_page (write_page t v e') v' = read_page t v'.
Proof.
  intros HR Hv Hrd. pose proof (get_page_leaf t R v HR Hv) as Hg. rewrite (read_page_leaf t R v HR Hv) in Hrd.
  destruct (leaf_at t v) as [e0|]; [|done]. destruct Hg as (a & Hw & He & Hg). unfold write_page. rewrite Hg.
  apply (walk_role t R _ a HR (path2_ok v Hv)) in Hw; [|done]. destruct (set_leaf_ok t R a v e' HR Hv Hw) as (t' & -> & HR' & Ho & Hlf & Hoth).
  cbn [default]. change (id t') with t'. split; [done|]. split; [done|]. split.
  - rewrite (read_page_leaf t' R v HR' Hv), Hlf. by destruct (has e' PT_PRESENT).
  - intros v' Hv' Hne. rewrite (read_page_leaf t' R v' HR' Hv'), (read_page_leaf t R v' HR Hv'). by rewrite Hoth.
Qed.

#[refine] Instance x86_64 : PageTables := {
  pt := tables64;
  pt_ok t := exists R, role_ok t R;
  pt_own := own64;
  user_limit := 2 ^ 47;
  get_page := read_page;
  set_entry := write_page;
  map_page st t v paddr flags := map_page64 st t PAGE_4KIB v paddr flags;
  vm_create := _clone_root64;
  vm_destroy := arch_vm_destroy
}.
Proof.
  - done.
  - done.
  - apply own64_nonneg.
  - apply read_page_same.
  - intros st Hp Hc. destruct (clone_ok st Hp Hc) as [->|(st' & t & R & -> & Hk & HR & Ho & Hl)]; [by left|right].
    exists st', t. split_and!; eauto. intros v Hv. by rewrite (read_page_leaf t R v HR Hv), Hl.
  - intros st t Hp Hc [R HR] Ho. by apply (destroy64_ok t R HR st).
  - intros st t v paddr flags Hp Hc [R HR] Ho Hv Hfl.
    destruct (map_page64_ok st t R v paddr flags Hp Hc HR Ho Hv Hfl) as [->|(st' & t' & R' & -> & Hk & HR' & Ho' & Hl & Hoth)]; [by left|right].
    exists st', t'. split; [done|]. split; [done|]. split; [eauto|]. split; [done|]. split; [by rewrite (read_page_leaf t' R' v HR' Hv), Hl|].
    intros v' Hv' Hne. rewrite (read_page_leaf t' R' v' HR' Hv'), (read_page_leaf t R v' HR Hv'). by rewrite Hoth.
  - intros t v e e' [R HR] Hv Hrd. destruct (write_page_ok t R v e e' HR Hv Hrd) as (HR' & ?). eauto.
Defined.

(** ** Histories of one address space

    The tables beside the map they stand for, from pages to entries. *)

Definition set_page (M : Z -> option Z) v (oe : option Z) : Z -> option Z := fun k => if decide (k = page v) then oe else M k.

Inductive tables_reach (st0 : pmm_state_t) : pmm_state_t -> tables64 -> (Z -> option Z) -> Prop :=
  | reach_clone st t : _clone_root64 st0 = ret (st, t) -> tables_reach st0 st t (fun _ => None)
  | reach_map st t M v paddr fl st' t' : tables_reach st0 st t M -> 0 <= v < 2 ^ 47 -> has fl PT_HUGE = false ->
      map_page64 st t PAGE_4KIB v paddr fl = ret (st', t') -> tables_reach st0 st' t' (set_page M v (Some (leaf paddr fl)))
  | reach_write st t M v size a i e t' : tables_reach st0 st t M -> 0 <= v < 2 ^ 47 ->
      get_page64 t v = Some (size, Some (a, i)) -> store_entry t a i e = Some t' ->
      tables_reach st0 st t' (set_page M v (if has e PT_PRESENT then Some e else None)).

Lemma tables_reach_ok st0 st t M : pmm_inv st0 -> chunk_ok st0 -> tables_reach st0 st t M ->
  keeps_used st0 st /\ (exists R, role_ok t R) /\ (forall b, own64 t b = frame_ref st b - frame_ref st0 b) /\
  forall v, 0 <= v < 2 ^ 47 -> leaf_at t v = M (page v).
Proof.
  intros Hp Hc. induction 1 as [st t He|st t M v paddr fl st' t' _ (Hk & [R HR] & Ho & Hl) Hv Hfl He|st t M v size a i e t' _ (Hk & [R HR] & Ho & Hl) Hv Hg Hs].
  - destruct (clone_ok st0 Hp Hc) as [Hx|(st1 & t1 & R & Hx & ?)]; rewrite He in Hx; [done|]. injection Hx as <- <-. naive_solver.
  - assert (Hown : forall b, own64 t b <= frame_ref st b) by (intros b; rewrite Ho; pose proof (p_range _ Hp b); lia).
    destruct (map_page64_ok st t R v paddr fl (proj1 Hk) (chunk_ok_same _ _ (proj1 (proj2 Hk)) Hc) HR Hown Hv Hfl)
      as [Hx|(st1 & t1 & R1 & Hx & Hk1 & HR1 & Ho1 & Hl1 & Hoth)]; rewrite He in Hx; [done|]. injection Hx as <- <-.
    split; [by eapply keeps_used_trans|]. split; [eauto|]. split; [intros b; specialize (Ho b); specialize (Ho1 b); lia|].
    intros v' Hv'. unfold set_page. case_decide as Hpg; [|rewrite Hoth by done; by apply Hl].
    unfold leaf_at, path2, path3, path4 in *. destruct (same_indices v' v Hpg) as (-> & -> & -> & ->). done.
  - pose proof (get_page_leaf t R v HR Hv) as Hgl. rewrite Hg in Hgl. destruct (leaf_at t v) as [e0|] eqn:Hlv; [|done].
    destruct Hgl as (a0 & Hw & He0 & Hx). injection Hx as -> -> ->.
    apply (walk_role t R _ a0 HR (path2_ok v Hv)) in Hw; [|done]. destruct (set_leaf_ok t R a0 v e HR Hv Hw) as (t1 & Hx & HR' & Ho' & Hlf & Hoth).
    rewrite Hs in Hx. injection Hx as <-. split; [done|]. split; [eauto|]. split; [intros b; by rewrite Ho'|].
    intros v' Hv'. unfold set_page. case_decide as Hpg; [|rewrite Hoth by done; by apply Hl].
    unfold leaf_at, path2, path3, path4 in *. destruct (same_indices v' v Hpg) as (-> & -> & -> & ->). done.
Qed.

(** C3: the four-level tables of an address space are a map from pages to entries.  After any history
    of mappings and of writes through entry pointers, [get_page] finds the entry last put there for the
    page of any user address, and nothing for the other pages; the walk never leaves the tables, mapping
    another page succeeds or stops the machine for want of frames, and releasing the space gives back
    every frame that went into its tables, once. *)
Theorem tables_refine_map st0 st t M : pmm_inv st0 -> chunk_ok st0 -> tables_reach st0 st t M ->
  (forall v, 0 <= v < 2 ^ 47 ->
     match M (page v) with
     | Some e => exists a i, get_page64 t v = Some (PAGE_4KIB, Some (a, i)) /\ load_entry t a i = Some e
     | None => get_page64 t v = Some (0, None)
     end) /\
  (forall v paddr fl, 0 <= v < 2 ^ 47 -> has fl PT_HUGE = false -> map_page64 st t PAGE_4KIB v paddr fl <> None) /\
  exists st', arch_vm_destroy st t = Some st' /\ forall b, frame_ref st' b = frame_ref st0 b.
Proof.
  intros Hp Hc Hr. destruct (tables_reach_ok st0 st t M Hp Hc Hr) as (Hk & [R HR] & Ho & Hl).
  pose proof (chunk_ok_same _ _ (proj1 (proj2 Hk)) Hc) as Hc'.
  assert (Hown : forall b, own64 t b <= frame_ref st b) by (intros b; rewrite Ho; pose proof (p_range _ Hp b); lia). split_and!.
  - intros v Hv. rewrite <- Hl by done. pose proof (get_page_leaf t R v HR Hv) as Hg. destruct (leaf_at t v) as [e|]; [|done].
    destruct Hg as (a & _ & He & ->). eauto.
  - intros v paddr fl Hv Hfl. by destruct (map_page64_ok st t R v paddr fl (proj1 Hk) Hc' HR Hown Hv Hfl) as [->|(? & ? & ? & -> & _)].
  - destruct (destroy64_ok t R HR st (proj1 Hk) Hc' Hown) as (st' & Hd & _ & _ & Hcnt). exists st'. split; [done|].
    intros b. rewrite Hcnt, Ho. lia.
Qed.
End Proofs.

(** ** An example *)

#[local] Instance demo_map : MemoryMap := {| mem_start := 1048576 |}.
#[local] Instance demo_kernel : KernelRoot := {| kernel_root := replicate 512 0; kernel_root_len := eq_refl |}.

Lemma demo_chunk_ok : chunk_ok demo_pmm.
Proof. by vm_compute. Qed.

Definition demo_space : option (pmm_state_t * tables64) :=
  match _clone_root64 demo_pmm with Some (Done x) => Some x | _ => None end.
Definition demo_mapped (s : pmm_state_t * tables64) : option (pmm_state_t * tables64) :=
  match map_page64 s.1 s.2 PAGE_4KIB 0x400000 0x108000 6 with Some (Done x) => Some x | _ => None end.

(** A page is mapped: it is found, its neighbour is not, and the four tables are given back. *)
Lemma tables_refine_map_witness :
  exists st t M, tables_reach demo_pmm st t M /\ M (page 0x400abc) = Some (leaf 0x108000 6) /\
    (exists a i, get_page64 t 0x400abc = Some (PAGE_4KIB, Some (a, i)) /\ load_entry t a i = Some (leaf 0x108000 6)) /\
    get_page64 t 0x401000 = Some (0, None) /\
    exists st', arch_vm_destroy st t = Some st' /\ forall b, frame_ref st' b = frame_ref demo_pmm b.
Proof.
  destruct demo_space as [s0|] eqn:E0; [|by vm_compute in E0]. destruct (demo_mapped s0) as [s1|] eqn:E1; [|vm_compute in E0; injection E0 as <-; by vm_compute in E1].
  exists s1.1, s1.2, (set_page (fun _ => None) 0x400000 (Some (leaf 0x108000 6))).
  assert (Hr : tables_reach demo_pmm s1.1 s1.2 (set_page (fun _ => None) 0x400000 (Some (leaf 0x108000 6)))).
  { apply (reach_map demo_pmm s0.1 s0.2 (fun _ => None) 0x400000 0x108000 6).
    - apply reach_clone. unfold demo_space in E0. destruct (_clone_root64 demo_pmm) as [[[]|]|]; [by injection E0 as <-|done|done].
    - done.
    - by vm_compute.
    - unfold demo_mapped in E1. destruct (map_page64 _ _ _ _ _ _) as [[[]|]|]; [by injection E1 as <-|done|done]. }
  destruct (tables_refine_map demo_pmm s1.1 s1.2 _ demo_pmm_inv demo_chunk_ok Hr) as (Hg & _ & Hd).
  split; [exact Hr|]. split; [by vm_compute|]. split; [exact (Hg 0x400abc ltac:(done))|]. split; [exact (Hg 0x401000 ltac:(done))|exact Hd].
Defined.
End Paging64.
