(* ===== verification/UserMem.v ===== *)
(** * The memory of user threads

    [kernel/sched/mem.c], the address-space half of [fork] in [kernel/sched/create.c], and
    [kernel/sys/usercopy.c].  A thread's memory is a list of regions beside its page tables; a region
    maps consecutive pages to consecutive frames.  After a fork the two threads share frames: writable
    pages become read only and the regions are marked copy on write, and a write fault gives the writer
    a frame of its own.  Physical memory is a function from addresses to bytes.  The region a pointer
    designates is its position in the list.  The thread's [vm_lock] makes each fault atomic. *)

From S2P Require Import Prelude Errno Memory Outcome Bitmap BitmapAlloc Pmm Paging.
From stdpp Require Import list.
Import Bitmap BitmapAlloc Pmm Paging.
Open Scope Z_scope.

Module UserMem.

Definition SCHED_REGION_COW : Z := 2 ^ 62.
Definition KIB : Z := 1024.

Record sched_user_region_t := mk_region { vaddr : Z; paddr : Z; pages : Z; flags : Z }.

Section Defs.
Context `{PT : PageTables}.

(** The fields of a thread that describe its memory; [root] is null without an address space. *)
Record space := mk_space {
  user_thread : bool; root : ptr pt; regions : list sched_user_region_t; user_mem_kib : Z
}.

Definition set_root (t : pt) (sp : space) : space :=
  mk_space (user_thread sp) (Some t) (regions sp) (user_mem_kib sp).
Definition set_regions (l : list sched_user_region_t) (sp : space) : space :=
  mk_space (user_thread sp) (root sp) l (user_mem_kib sp).
Definition set_kib (k : Z) (sp : space) : space :=
  mk_space (user_thread sp) (root sp) (regions sp) k.

Implicit Types (sp : space) (r region : sched_user_region_t) (st : pmm_state_t) (m : Z -> Z) (t : pt).

(** ** Regions: [mem.c] *)

Definition _pages_to_kib (n : Z) : Z := u64_wrap (n * PAGE_4KIB) / KIB.

Definition region_span (base n : Z) : option Z :=
  if (n =? 0) || (SIZE_MAX / PAGE_4KIB <? n) then None
  else
    let size := wrap (n * PAGE_4KIB) in
    if SIZE_MAX - base <? size then None else Some (wrap (base + size)).

Definition region_bounds_ok (va pa n : Z) : bool :=
  match region_span va n with
  | None => false
  | Some _ => match region_span pa n with Some _ => true | None => false end
  end.

Definition sched_user_mem_add sp (n : Z) : space :=
  if n =? 0 then sp
  else
    let delta := _pages_to_kib n in
    if delta =? 0 then sp else set_kib (u64_wrap (user_mem_kib sp + delta)) sp.

(** The compare-and-exchange succeeds at once when nobody else changes the counter. *)
Definition sched_user_mem_sub sp (n : Z) : space :=
  if n =? 0 then sp
  else
    let delta := _pages_to_kib n in
    if delta =? 0 then sp
    else
      let current := user_mem_kib sp in
      if 0 <? current then set_kib (if delta <? current then current - delta else 0) sp else sp.

Definition sched_set_user_mem sp (kib : Z) : space := set_kib kib sp.

(** [node] tells whether [calloc] finds a region node. *)
Definition sched_add_user_region (node : bool) sp (va pa n fl : Z) : bool * space :=
  if negb (region_bounds_ok va pa n) then (false, sp)
  else if negb node then (false, sp)
  else (true, sched_user_mem_add (set_regions (mk_region va pa n fl :: regions sp) sp) n).

Fixpoint clear_loop (l : list sched_user_region_t) st : option pmm_state_t :=
  match l with
  | [] => Some st
  | r :: l =>
      st ← (if negb (paddr r =? 0) && negb (pages r =? 0) then free_frames st (paddr r) (pages r) else Some st);
      clear_loop l st
  end.

Definition sched_clear_user_regions st sp : option (pmm_state_t * space) :=
  st ← clear_loop (regions sp) st;
  Some (st, sched_set_user_mem (set_regions [] sp) 0).

Fixpoint find_region (l : list sched_user_region_t) (addr : Z) : option nat :=
  match l with
  | [] => None
  | r :: l =>
      match region_span (vaddr r) (pages r) with
      | Some e => if (vaddr r <=? addr) && (addr <? e) then Some O else S <$> find_region l addr
      | None => S <$> find_region l addr
      end
  end.

Definition find_user_region sp (addr : Z) : option nat := find_region (regions sp) addr.

(** The loop of [sched_mark_cow]: clears the write bit of every page. *)
Fixpoint mark_loop (n : nat) (i : Z) (va : Z) t (updated : bool) : pt * bool :=
  match n with
  | O => (t, updated)
  | S n =>
      let v := wrap (va + wrap (i * PAGE_4KIB)) in
      match get_page t v with
      | Some (size, e) =>
          if negb (size =? PAGE_4KIB) then mark_loop n (i + 1) va t updated
          else if has e PT_WRITE then mark_loop n (i + 1) va (set_entry t v (without e PT_WRITE)) true
          else mark_loop n (i + 1) va t updated
      | None => mark_loop n (i + 1) va t updated
      end
  end.

Definition sched_mark_cow sp region : bool * space :=
  if pages region =? 0 then (false, sp)
  else if negb (region_bounds_ok (vaddr region) (paddr region) (pages region)) then (false, sp)
  else
    match root sp with
    | None => (false, sp)
    | Some t =>
        let '(t, updated) := mark_loop (Z.to_nat (pages region)) 0 (vaddr region) t false in
        (updated, set_root t sp)
    end.

(** One page of region [k] gets a region of its own; [node1] and [node2] tell whether the first and
    the second [calloc] find a node. *)
Definition split_page_region (node1 node2 : bool) (l : list sched_user_region_t) (k : nat)
    (page_index new_page_paddr new_flags : Z) : bool * list sched_user_region_t :=
  match l !! k with
  | None => (false, l)
  | Some r =>
      if (pages r =? 0) || (pages r <=? page_index) then (false, l)
      else if negb (region_bounds_ok (vaddr r) (paddr r) (pages r)) then (false, l)
      else
        let before := page_index in
        let after := wrap (wrap (pages r - page_index) - 1) in
        let page_vaddr := wrap (vaddr r + wrap (page_index * PAGE_4KIB)) in
        let old_page_paddr := wrap (paddr r + wrap (page_index * PAGE_4KIB)) in
        let new := mk_region page_vaddr new_page_paddr 1 new_flags in
        let rest := mk_region (wrap (page_vaddr + PAGE_4KIB)) (wrap (old_page_paddr + PAGE_4KIB)) after (flags r) in
        let front := take k l in
        let back := drop (S k) l in
        if (before =? 0) && (after =? 0) then (true, front ++ new :: back)
        else if before =? 0 then
          if negb node1 then (false, l) else (true, front ++ new :: rest :: back)
        else if negb node1 then (false, l)
        else if after =? 0 then
          (true, front ++ mk_region (vaddr r) (paddr r) before (flags r) :: new :: back)
        else if negb node2 then (false, l)
        else (true, front ++ mk_region (vaddr r) (paddr r) before (flags r) :: new :: rest :: back)
  end.

(** [arch_phys_copy]: [copied] bytes reach the destination, all of them when it succeeds. *)
Definition phys_copy m (dst src copied : Z) : Z -> Z :=
  fun a => if (dst <=? a) && (a <? dst + copied) then m (a - dst + src) else m a.

(** [map_region]: page after page, in 64-bit arithmetic. *)
Fixpoint map_loop (n : nat) (i : Z) st t (va pa fl : Z) : run (pmm_state_t * pt) :=
  match n with
  | O => ret (st, t)
  | S n =>
      '(st, t) ← map_page st t (u64_wrap (va + i * PAGE_4KIB)) (u64_wrap (pa + i * PAGE_4KIB)) fl;
      map_loop n (i + 1) st t va pa fl
  end.
Definition arch_map_region st t (n va pa fl : Z) : run (pmm_state_t * pt) := map_loop (Z.to_nat n) 0 st t va pa fl.

(** What a fault meets: how many bytes [arch_phys_copy] copies before it fails, if it does, and
    whether nodes are found.  [user_high] is the end of memory user frames come from. *)
Record cow_env := mk_env { user_high : bool; copy_stops : option Z; node1 : bool; node2 : bool }.

Record phys := mk_phys { pmm : pmm_state_t; mem : Z -> Z }.

Definition sched_handle_cow_fault (env : cow_env) (w : phys) sp (addr : Z) (write : bool) : run (bool * phys * space) :=
  if negb (user_thread sp) || negb write then ret (false, w, sp)
  else
    let page_addr := ALIGN_DOWN addr in
    match find_user_region sp page_addr with
    | None => ret (false, w, sp)
    | Some k =>
        region ← lift (regions sp !! k);
        if negb (has (flags region) SCHED_REGION_COW) then ret (false, w, sp)
        else
          match root sp with
          | None => ret (false, w, sp)
          | Some t =>
              match get_page t page_addr with
              | None => ret (false, w, sp)
              | Some (size, e) =>
                  if negb (size =? PAGE_4KIB) then ret (false, w, sp)
                  else if has e PT_WRITE then ret (false, w, sp)
                  else
                    let old_paddr := page_get_paddr e in
                    refs ← lift (pmm_refcount (pmm w) old_paddr);
                    let new_flags := Z.lor (without (flags region) SCHED_REGION_COW) PT_WRITE in
                    let page_index := wrap (page_addr - vaddr region) / PAGE_4KIB in
                    let refs := if negb (pmm_ref_ready (pmm w)) then 2 else refs in
                    if 1 <? refs then
                      '(new_paddr, st) ← alloc_frames_user (user_high env) (pmm w) 1;
                      if new_paddr =? 0 then ret (false, mk_phys st (mem w), sp)
                      else
                        match copy_stops env with
                        | Some copied =>
                            let m := phys_copy (mem w) new_paddr old_paddr copied in
                            st ← lift (free_frames st new_paddr 1);
                            ret (false, mk_phys st m, sp)
                        | None =>
                            let m := phys_copy (mem w) new_paddr old_paddr PAGE_4KIB in
                            let '(split_ok, l) :=
                              split_page_region (node1 env) (node2 env) (regions sp) k page_index new_paddr new_flags in
                            if negb split_ok then
                              st ← lift (free_frames st new_paddr 1); ret (false, mk_phys st m, sp)
                            else
                              '(st, t) ← arch_map_region st t 1 page_addr new_paddr new_flags;
                              st ← lift (free_frames st old_paddr 1);
                              ret (true, mk_phys st m, set_root t (set_regions l sp))
                        end
                    else
                      let '(split_ok, l) :=
                        split_page_region (node1 env) (node2 env) (regions sp) k page_index old_paddr new_flags in
                      if negb split_ok then ret (false, w, sp)
                      else
                        '(st, t) ← arch_map_region (pmm w) t 1 page_addr old_paddr new_flags;
                        ret (true, mk_phys st (mem w), set_root t (set_regions l sp))
              end
          end
    end.

(** ** Forking an address space: [create.c] *)

Definition region_bytes region : option Z :=
  let size := wrap (pages region * PAGE_4KIB) in
  if SIZE_MAX / PAGE_4KIB <? pages region then None
  else if SIZE_MAX - size <? vaddr region then None
  else Some size.

(** [unmap_page]: clears the entry, if the address has one. *)
Definition unmap_page t (v : Z) : pt :=
  match get_page t v with Some _ => set_entry t v 0 | None => t end.

(** The loop of [unmap_child_region], also that of [_unmap_user_pages] in [syscall.c]. *)
Fixpoint unmap_loop (n : nat) (i va : Z) t : pt :=
  match n with
  | O => t
  | S n => unmap_loop n (i + 1) va (unmap_page t (wrap (va + wrap (i * PAGE_4KIB))))
  end.
Definition unmap_child_region t (va n : Z) : pt := unmap_loop (Z.to_nat n) 0 va t.

(** Where an address leads: the hardware's walk, without the permission checks. *)
Definition translate t (v : Z) : option Z :=
  match get_page t v with
  | Some (size, e) => if has e PT_PRESENT then Some (page_get_paddr e + v mod size) else None
  | None => None
  end.

Fixpoint mapped_pages (n : nat) t (p : Z) : bool :=
  match n with
  | O => true
  | S n => match translate t p with Some _ => mapped_pages n t (p + PAGE_4KIB) | None => false end
  end.

(** The pages a range of addresses touches. *)
Definition touched (va size : Z) : nat := Z.to_nat ((va + size - 1) / PAGE_4KIB - va / PAGE_4KIB + 1).

(** [memcpy] to physical memory from virtual memory: undefined when a page is missing. *)
Definition copy_from_space m t (dst va size : Z) : option (Z -> Z) :=
  if mapped_pages (touched va size) t (ALIGN_DOWN va)
  then Some (fun a => if (dst <=? a) && (a <? dst + size)
                      then default 0 (m <$> translate t (va + (a - dst))) else m a)
  else None.

(** What the copy of a region meets: whether a node is found and [arch_phys_map] succeeds. *)
Record fork_env := mk_fork { fork_high : bool; fork_node : bool; fork_map : bool }.

(** The parent is the running thread: its tables are the ones the copy reads through. *)
Definition fork_copy_region (env : fork_env) (w : phys) (parent child : space) region
  : run (Z * phys * space) :=
  match region_bytes region with
  | None => ret (- ENOMEM, w, child)
  | Some size =>
      '(new_paddr, st) ← alloc_frames_user (fork_high env) (pmm w) (pages region);
      if new_paddr =? 0 then ret (- ENOMEM, mk_phys st (mem w), child)
      else
        t ← lift (root child);
        '(st, t) ← arch_map_region st t (pages region) (vaddr region) new_paddr (flags region);
        let '(added, child) := sched_add_user_region (fork_node env) (set_root t child) (vaddr region) new_paddr
                                 (pages region) (flags region) in
        if negb added then
          st ← lift (free_frames st new_paddr (pages region));
          ret (- ENOMEM, mk_phys st (mem w), set_root (unmap_child_region t (vaddr region) (pages region)) child)
        else if negb (fork_map env) then ret (- ENOMEM, mk_phys st (mem w), child)
        else
          pt0 ← lift (root parent);
          m ← lift (copy_from_space (mem w) pt0 new_paddr (vaddr region) size);
          ret (0, mk_phys st m, child)
  end.

Definition fork_cow_region (env : fork_env) (w : phys) (parent child : space) (k : nat) (flush : bool)
  : run (Z * phys * space * space * bool) :=
  region ← lift (regions parent !! k);
  let writable := has (flags region) PT_WRITE in
  let fl := if writable then Z.lor (flags region) SCHED_REGION_COW else flags region in
  let region := mk_region (vaddr region) (paddr region) (pages region) fl in
  let parent := set_regions (<[k := region]> (regions parent)) parent in
  let map_flags := if writable then without fl PT_WRITE else fl in
  t ← lift (root child);
  '(st, t) ← arch_map_region (pmm w) t (pages region) (vaddr region) (paddr region) map_flags;
  let '(added, child) := sched_add_user_region (fork_node env) (set_root t child) (vaddr region) (paddr region)
                           (pages region) fl in
  if negb added then ret (- ENOMEM, mk_phys st (mem w), parent, child, flush)
  else
    st ← lift (pmm_ref_hold st (paddr region) (pages region));
    if writable then
      let '(updated, parent) := sched_mark_cow parent region in
      ret (0, mk_phys st (mem w), parent, child, flush || updated)
    else ret (0, mk_phys st (mem w), parent, child, flush).

(** The loop over the parent's regions, from the [k]-th on; [envs] gives each round its environment. *)
Fixpoint fork_loop (n : nat) (k : nat) (cow_enabled : bool) (envs : nat -> fork_env) (w : phys)
    (parent child : space) (flush : bool) : run (Z * phys * space * space * bool) :=
  match n with
  | O => ret (0, w, parent, child, flush)
  | S n =>
      '(status, w, parent, child, flush) ←
        (if cow_enabled then fork_cow_region (envs k) w parent child k flush
         else region ← lift (regions parent !! k);
              '(status, w, child) ← fork_copy_region (envs k) w parent child region;
              ret (status, w, parent, child, flush));
      if status <? 0 then ret (status, w, parent, child, flush)
      else fork_loop n (S k) cow_enabled envs w parent child flush
  end.

Definition fork_user_space (envs : nat -> fork_env) (w : phys) (parent child : space)
  : run (Z * phys * space * space * bool) :=
  match root child with
  | None => ret (- ENOMEM, w, parent, child, false)
  | Some _ => fork_loop (length (regions parent)) 0 (pmm_ref_ready (pmm w)) envs w parent child false
  end.

(** The memory half of [thread_destroy]: the regions are released, then the tables; [kernel_vm] is not
    the space of a user thread. *)
Definition destroy_memory st sp : option pmm_state_t :=
  '(st, sp) ← sched_clear_user_regions st sp;
  match root sp with
  | Some t => vm_destroy st t
  | None => Some st
  end.

(** The memory of [sched_fork]: a new address space for the child, if [space_found], the copy, and,
    when the copy fails, the release of the child's memory by [sched_discard_thread]. *)
Definition fork_memory (space_found : bool) (envs : nat -> fork_env) (w : phys) (parent : space)
  : run (Z * phys * space * ptr space) :=
  if negb space_found then ret (- ENOMEM, w, parent, None)
  else
    '(st, t) ← vm_create (pmm w);
    '(status, w, parent, child, _) ← fork_user_space envs (mk_phys st (mem w)) parent (mk_space true (Some t) [] 0);
    if status <? 0 then
      st ← lift (destroy_memory (pmm w) child);
      ret (- ENOMEM, mk_phys st (mem w), parent, None)
    else ret (0, w, parent, Some child).

(** ** Access to user memory from the kernel: [usercopy.c] *)

Definition user_page_ok sp (addr : Z) (write : bool) : bool :=
  match root sp with
  | None => false
  | Some t =>
      match get_page t addr with
      | None => false
      | Some (size, e) =>
          if negb (negb (size =? 0) && has e PT_PRESENT) || negb (has e PT_USER) then false
          else if write && negb (has e PT_WRITE) then false
          else true
      end
  end.

(** The inner loop of [user_range_ok]: the first region around the cursor, with its end; a malformed
    region on the way refuses the range. *)
Fixpoint range_region (l : list sched_user_region_t) (cursor : Z) : option (sched_user_region_t * Z) :=
  match l with
  | [] => None
  | r :: l =>
      if SIZE_MAX / PAGE_4KIB <? pages r then None
      else
        let region_end := wrap (vaddr r + wrap (pages r * PAGE_4KIB)) in
        if region_end <=? vaddr r then None
        else if (vaddr r <=? cursor) && (cursor <? region_end) then Some (r, region_end)
        else range_region l cursor
  end.

(** [for (page = ...; page < segment_end; page += PAGE_4KIB)] *)
Fixpoint pages_ok (n : nat) sp (p segment_end : Z) (write : bool) : option bool :=
  if negb (p <? segment_end) then Some true
  else
    match n with
    | O => None
    | S n => if negb (user_page_ok sp p write) then Some false
             else pages_ok n sp (wrap (p + PAGE_4KIB)) segment_end write
    end.

Definition page_rounds (p e : Z) : nat := Z.to_nat ((e - p) / PAGE_4KIB + 1).

(** The outer loop: a round passes the end of a region, so a region is used at most once. *)
Fixpoint range_loop (n : nat) sp (cursor end_ : Z) (write : bool) : option bool :=
  if negb (cursor <? end_) then Some true
  else
    match n with
    | O => None
    | S n =>
        match range_region (regions sp) cursor with
        | None => Some false
        | Some (r, match_end) =>
            if negb (has (flags r) PT_USER) then Some false
            else if write && negb (has (flags r) PT_WRITE) then Some false
            else
              let segment_end := if match_end <? end_ then match_end else end_ in
              let require_write := write && negb (has (flags r) SCHED_REGION_COW) in
              let start := ALIGN_DOWN cursor in
              ok ← pages_ok (page_rounds start segment_end) sp start segment_end require_write;
              if negb ok then Some false else range_loop n sp segment_end end_ write
        end
    end.

Definition user_range_ok sp (p len : Z) (write : bool) : option bool :=
  if len =? 0 then Some true
  else if negb (user_thread sp) || (p =? 0) then Some false
  else
    let end_ := wrap (p + len) in
    let user_top := arch_user_stack_top in
    if (end_ <=? p) || (user_top =? 0) || (user_top <? end_) then Some false
    else range_loop (S (length (regions sp))) sp p end_ write.

(** The loop of [user_write_prepare]; [env] gives each page the environment of its fault. *)
Fixpoint prepare_loop (n : nat) (env : Z -> cow_env) (w : phys) sp (p end_ : Z) : run (bool * phys * space) :=
  if negb (p <? end_) then ret (true, w, sp)
  else
    match n with
    | O => None
    | S n =>
        if user_page_ok sp p true then prepare_loop n env w sp (wrap (p + PAGE_4KIB)) end_
        else
          '(handled, w, sp) ← sched_handle_cow_fault (env p) w sp p true;
          if negb handled then ret (false, w, sp)
          else if negb (user_page_ok sp p true) then ret (false, w, sp)
          else prepare_loop n env w sp (wrap (p + PAGE_4KIB)) end_
    end.

Definition user_write_prepare (env : Z -> cow_env) (w : phys) sp (p len : Z) : run (bool * phys * space) :=
  ok ← lift (user_range_ok sp p len true);
  if negb ok then ret (false, w, sp)
  else if len =? 0 then ret (true, w, sp)
  else
    let start := ALIGN_DOWN p in
    let end_ := wrap (p + len) in
    prepare_loop (page_rounds start end_) env w sp start end_.

(** The bytes of a range of user memory; undefined when a page is missing. *)
Fixpoint read_user (n : nat) m t (v : Z) : option (list Z) :=
  match n with
  | O => Some []
  | S n => a ← translate t v; l ← read_user n m t (v + 1); Some (m a :: l)
  end.

Definition put m (a c : Z) : Z -> Z := fun x => if x =? a then c else m x.

(** Storing bytes through the tables: undefined when a page is missing or write protected. *)
Definition writable_at t (v : Z) : bool := match get_page t v with Some (_, e) => has e PT_WRITE | None => false end.

Fixpoint write_user m t (v : Z) (bytes : list Z) : option (Z -> Z) :=
  match bytes with
  | [] => Some m
  | b :: bytes =>
      a ← translate t v;
      if writable_at t v then write_user (put m a b) t (v + 1) bytes else None
  end.

Definition user_copy_from (w : phys) sp (dst : ptr (list Z)) (src len : Z) : option (bool * ptr (list Z)) :=
  if len =? 0 then Some (true, dst)
  else
    match dst with
    | None => Some (false, dst)
    | Some buf =>
        ok ← user_range_ok sp src len false;
        if negb ok then Some (false, dst)
        else
          t ← root sp;
          bytes ← read_user (Z.to_nat len) (mem w) t src;
          buf ← mwrite buf 0 bytes;
          Some (true, Some buf)
    end.

Definition user_copy_to (env : Z -> cow_env) (w : phys) sp (dst : Z) (src : ptr (list Z)) (len : Z)
  : run (bool * phys * space) :=
  if len =? 0 then ret (true, w, sp)
  else
    match src with
    | None => ret (false, w, sp)
    | Some buf =>
        '(ok, w, sp) ← user_write_prepare env w sp dst len;
        if negb ok then ret (false, w, sp)
        else
          t ← lift (root sp);
          bytes ← lift (mread buf 0 len);
          m ← lift (write_user (mem w) t dst bytes);
          ret (true, mk_phys (pmm w) m, sp)
    end.

(** [for (i = 0; i < dst_len; i++)] of [user_copy_string]; [inl] is a return from inside. *)
Fixpoint string_loop (n : nat) (i : Z) (w : phys) sp (src : Z) (dst : list Z) : option ((Z * list Z) + list Z) :=
  match n with
  | O => Some (inr dst)
  | S n =>
      let user_ch := wrap (src + i) in
      ok ← user_range_ok sp user_ch 1 false;
      if negb ok then Some (inl (- EFAULT, dst))
      else
        t ← root sp;
        a ← translate t user_ch;
        dst ← mstore dst i (mem w a);
        if mem w a =? 0 then Some (inl (0, dst)) else string_loop n (i + 1) w sp src dst
  end.

Definition user_copy_string (w : phys) sp (src : Z) (dst : ptr (list Z)) (dst_len : Z) : option (Z * ptr (list Z)) :=
  match dst with
  | None => Some (- EFAULT, dst)
  | Some buf =>
      if (src =? 0) || (dst_len =? 0) then Some (- EFAULT, dst)
      else
        r ← string_loop (Z.to_nat dst_len) 0 w sp src buf;
        match r with
        | inl (e, buf) => Some (e, Some buf)
        | inr buf => buf ← mstore buf (dst_len - 1) 0; Some (- ENAMETOOLONG, Some buf)
        end
  end.

(** ** A store from user mode: [_page_fault_handler] of [kernel/arch/x86/arch.c] *)

(** The hardware's write: the byte of memory, if the entry permits it. *)
Definition hw_store m sp (v c : Z) : option (Z -> Z) :=
  match root sp with
  | None => None
  | Some t =>
      match get_page t v with
      | Some (size, e) =>
          if has e PT_PRESENT && has e PT_USER && has e PT_WRITE then Some (put m (page_get_paddr e + v mod size) c) else None
      | None => None
      end
  end.

Definition present_at sp (v : Z) : bool :=
  match root sp with
  | None => false
  | Some t => match get_page t v with Some (_, e) => has e PT_PRESENT | None => false end
  end.

(** A store that faults on a present page is repeated once the handler has made room; otherwise the
    thread gets a signal and the byte is not written. *)
Definition user_store (env : cow_env) (w : phys) sp (v c : Z) : run (bool * phys * space) :=
  match hw_store (mem w) sp v c with
  | Some m => ret (true, mk_phys (pmm w) m, sp)
  | None =>
      if present_at sp v && user_thread sp then
        '(cow_handled, w, sp) ← sched_handle_cow_fault env w sp v true;
        if (cow_handled : bool) then
          match hw_store (mem w) sp v c with
          | Some m => ret (true, mk_phys (pmm w) m, sp)
          | None => ret (false, w, sp)
          end
        else ret (false, w, sp)
      else ret (false, w, sp)
  end.

End Defs.
End UserMem.
