(* ===== verification/CowMemory.v ===== *)
(** * Copy on write keeps address spaces apart

    The invariant of the memory of all user threads: every page of a region is mapped to its frame,
    nothing else is mapped, the reference count of a frame is at least the number of pages and tables
    that use it, and a page that can be written is the only user of its frame.  Copy-on-write faults,
    forks, stores, copies by the kernel and exits keep it, and each thread sees a memory of its own. *)

From S2P Require Import Prelude Errno Memory Outcome Bitmap BitmapAlloc Pmm Paging UserMem.
From stdpp Require Import list relations.
Import Bitmap BitmapAlloc Pmm Paging UserMem.
Open Scope Z_scope.

Module CowMemory.

(** ** Sums over lists *)

Section Sums.
Context {A : Type} (f : A -> Z).

Definition sumz (l : list A) : Z := foldr (fun a s => f a + s) 0 l.

Lemma sumz_cons a l : sumz (a :: l) = f a + sumz l.
Proof. done. Qed.

Lemma sumz_app l1 l2 : sumz (l1 ++ l2) = sumz l1 + sumz l2.
Proof. induction l1 as [|a l1 IH]; [done|]. cbn [app]. rewrite !sumz_cons, IH. lia. Qed.

Lemma sumz_split l i a : l !! i = Some a -> sumz l = sumz (take i l) + f a + sumz (drop (S i) l).
Proof. intros Hi. rewrite <- (take_drop_middle l i a Hi) at 1. rewrite sumz_app, sumz_cons. lia. Qed.

Lemma sumz_insert l i a b : l !! i = Some a -> sumz (<[i := b]> l) = sumz l - f a + f b.
Proof.
  intros Hi. rewrite insert_take_drop by (by eapply lookup_lt_Some). rewrite sumz_app, sumz_cons.
  rewrite (sumz_split l i a Hi). lia.
Qed.

Context (Hpos : forall a, 0 <= f a).

Lemma sumz_zero l : (forall a, a ∈ l -> f a = 0) -> sumz l = 0.
Proof.
  induction l as [|a l IH]; intros Hz; [done|]. rewrite sumz_cons, Hz, IH; [done| |by left].
  intros b Hb. apply Hz. by right.
Qed.

Lemma sumz_nonneg l : 0 <= sumz l.
Proof. induction l as [|a l IH]; [done|]. rewrite sumz_cons. specialize (Hpos a). lia. Qed.

Lemma sumz_lookup l i a : l !! i = Some a -> f a <= sumz l.
Proof.
  intros Hi. rewrite (sumz_split l i a Hi). pose proof (sumz_nonneg (take i l)). pose proof (sumz_nonneg (drop (S i) l)). lia.
Qed.

Lemma sumz_lookup2 l i j a b : l !! i = Some a -> l !! j = Some b -> i <> j -> f a + f b <= sumz l.
Proof.
  intros Hi Hj Hne. assert (Hw : forall i j a b, l !! i = Some a -> l !! j = Some b -> (i < j)%nat -> f a + f b <= sumz l).
  { clear i j a b Hi Hj Hne. intros i j a b Hi Hj Hlt. rewrite (sumz_split l i a Hi). pose proof (sumz_nonneg (take i l)).
    enough (f b <= sumz (drop (S i) l)) by lia. apply (sumz_lookup _ (j - S i)). rewrite lookup_drop.
    by replace (S i + (j - S i))%nat with j by lia. }
  destruct (Nat.lt_trichotomy i j) as [|[|]]; [by eapply Hw|done|]. rewrite Z.add_comm. by eapply Hw.
Qed.
End Sums.

Section Proofs.
Context `{PT : PageTables}.
Implicit Types (sp : space) (r : sched_user_region_t) (st : pmm_state_t) (t : pt) (v b : Z).

(** ** Regions *)

Definition vend r : Z := vaddr r + pages r * PAGE_4KIB.
Definition covers r v : bool := (vaddr r <=? v) && (v <? vend r).

(** The frames, counted from the start [c0] of memory. *)
Definition fidx (c0 p : Z) : Z := (p - c0) / PAGE_4KIB.
Definition uses (c0 : Z) r b : bool := inside (fidx c0 (paddr r)) (pages r) b.
Definition frame (c0 : Z) r v : Z := fidx c0 (paddr r) + (v - vaddr r) / PAGE_4KIB.

Definition bit (c : bool) : Z := if c then 1 else 0.
Definition cov (l : list sched_user_region_t) v : Z := sumz (fun r => bit (covers r v)) l.
Definition occ (c0 : Z) (l : list sched_user_region_t) b : Z := sumz (fun r => bit (uses c0 r b)) l.

Lemma bit_pos c : 0 <= bit c.
Proof. by destruct c. Qed.

Lemma bit_le c : bit c <= 1.
Proof. by destruct c. Qed.

Lemma cov_nonneg l v : 0 <= cov l v.
Proof. apply sumz_nonneg. intros r. apply bit_pos. Qed.

Lemma occ_nonneg c0 l b : 0 <= occ c0 l b.
Proof. apply sumz_nonneg. intros r. apply bit_pos. Qed.

Record region_ok st r : Prop := {
  r_align : vaddr r mod PAGE_4KIB = 0;
  r_low : 0 <= vaddr r;
  r_high : vend r <= user_limit;
  r_frames : frames_at st (paddr r) (fidx (chunk_start (frames st)) (paddr r)) (pages r);
  r_user : has (flags r) PT_USER = true;
  r_huge : has (flags r) PT_HUGE = false;
}.

Lemma covers_bounds r v : covers r v = true <-> vaddr r <= v < vend r.
Proof. unfold covers. rewrite andb_true_iff, Z.leb_le, Z.ltb_lt. done. Qed.

Lemma uses_frame c0 r v : covers r v = true -> uses c0 r (frame c0 r v) = true.
Proof.
  intros Hc. apply covers_bounds in Hc. unfold vend in Hc. unfold uses, inside, frame.
  assert (0 <= (v - vaddr r) / PAGE_4KIB < pages r).
  { split; [apply Z.div_pos; unfold PAGE_4KIB; lia|]. apply Z.div_lt_upper_bound; [done|]. lia. }
  by test_lia.
Qed.

(** One page of a region, and its frame. *)
Lemma frame_page c0 r v v' : vaddr r mod PAGE_4KIB = 0 -> frame c0 r v = frame c0 r v' <-> page v = page v'.
Proof.
  intros Ha. unfold frame, page, PAGE_4KIB in *. Z.to_euclidean_division_equations; lia.
Qed.

(** At most one region lies around an address. *)
Lemma cov_unique l v i j r r' : cov l v <= 1 -> l !! i = Some r -> l !! j = Some r' ->
  covers r v = true -> covers r' v = true -> i = j.
Proof.
  intros Hc Hi Hj Hr Hr'. destruct (decide (i = j)) as [|Hne]; [done|]. exfalso.
  pose proof (sumz_lookup2 (fun r => bit (covers r v)) (fun r => bit_pos _) l i j r r' Hi Hj Hne) as Hs.
  cbn in Hs. rewrite Hr, Hr' in Hs. fold (cov l v) in Hs. cbn in Hs. lia.
Qed.

Lemma cov_elem l v r : r ∈ l -> covers r v = true -> 1 <= cov l v.
Proof.
  intros [i Hi]%list_elem_of_lookup Hr.
  pose proof (sumz_lookup (fun r => bit (covers r v)) (fun r => bit_pos _) l i r Hi) as Hs. cbn in Hs. by rewrite Hr in Hs.
Qed.

Lemma uses_occ c0 l b r : r ∈ l -> uses c0 r b = true -> 1 <= occ c0 l b.
Proof.
  intros [i Hi]%list_elem_of_lookup Hr.
  pose proof (sumz_lookup (fun r => bit (uses c0 r b)) (fun r => bit_pos _) l i r Hi) as Hs. cbn in Hs. by rewrite Hr in Hs.
Qed.

(** ** Address spaces *)

Definition own sp b : Z := match root sp with Some t => pt_own t b | None => 0 end.
Definition holds (c0 : Z) sp b : Z := occ c0 (regions sp) b + own sp b.

(** The entry of a page of region [r]: it leads to the page's frame, it can be written only if the
    region can, and if the region can but the entry cannot, the region is marked copy on write. *)
Definition entry_ok r v (e : Z) : Prop :=
  has e PT_PRESENT = true /\ has e PT_USER = true /\
  page_get_paddr e = paddr r + (v - vaddr r) / PAGE_4KIB * PAGE_4KIB /\
  (has e PT_WRITE = true -> has (flags r) PT_WRITE = true) /\
  (has (flags r) PT_WRITE = true -> has e PT_WRITE = true \/ has (flags r) SCHED_REGION_COW = true).

Record space_ok st sp t : Prop := {
  s_root : root sp = Some t;
  s_pt : pt_ok t;
  s_regs : Forall (region_ok st) (regions sp);
  s_disj : forall v, cov (regions sp) v <= 1;
  s_map : forall r v, r ∈ regions sp -> covers r v = true ->
            exists e, get_page t v = Some (PAGE_4KIB, e) /\ entry_ok r v e;
  s_only : forall v x, 0 <= v < user_limit -> get_page t v = Some x -> exists r, r ∈ regions sp /\ covers r v = true
}.

(** A thread that has exited has no memory. *)
Definition dead sp : Prop := root sp = None /\ regions sp = [].
Definition live_or_dead st sp : Prop := dead sp \/ exists t, space_ok st sp t.

Definition total (c0 : Z) (sps : list space) b : Z := sumz (fun sp => holds c0 sp b) sps.

(** The frame of [v] in [sp], if [sp] may write it. *)
Definition writes (c0 : Z) sp v b : Prop :=
  exists r e t, root sp = Some t /\ r ∈ regions sp /\ covers r v = true /\ get_page t v = Some (PAGE_4KIB, e) /\
    has e PT_WRITE = true /\ b = frame c0 r v.

(** The invariant, with [x] holds outside the address spaces: tables of threads that are gone. *)
Record mem_inv (st : pmm_state_t) (sps : list space) (x : Z -> Z) : Prop := {
  i_pmm : pmm_inv st;
  i_chunk : chunk_ok st;
  i_spaces : Forall (live_or_dead st) sps;
  i_x : forall b, 0 <= x b;
  i_count : forall b, total (chunk_start (frames st)) sps b + x b = frame_ref st b;
  i_writes : forall sp v b, sp ∈ sps -> writes (chunk_start (frames st)) sp v b ->
               total (chunk_start (frames st)) sps b + x b = 1
}.

(** What a thread reads at an address. *)
Definition load (m : Z -> Z) sp v : option Z :=
  match root sp with
  | None => None
  | Some t =>
      match get_page t v with
      | Some (size, e) => if has e PT_PRESENT && has e PT_USER then Some (m (page_get_paddr e + v mod size)) else None
      | None => None
      end
  end.

Lemma own_nonneg sp b : 0 <= own sp b.
Proof. unfold own. destruct (root sp); [apply pt_own_nonneg|done]. Qed.

Lemma holds_nonneg c0 sp b : 0 <= holds c0 sp b.
Proof. unfold holds. pose proof (occ_nonneg c0 (regions sp) b). pose proof (own_nonneg sp b). lia. Qed.

Lemma total_nonneg c0 sps b : 0 <= total c0 sps b.
Proof. apply sumz_nonneg. intros sp. apply holds_nonneg. Qed.

Lemma total_elem c0 sps sp b : sp ∈ sps -> holds c0 sp b <= total c0 sps b.
Proof.
  intros [k Hk]%list_elem_of_lookup.
  exact (sumz_lookup (fun sp => holds c0 sp b) (fun sp => holds_nonneg c0 sp b) sps k sp Hk).
Qed.

Lemma total_insert c0 sps k sp sp' b : sps !! k = Some sp ->
  total c0 (<[k := sp']> sps) b = total c0 sps b - holds c0 sp b + holds c0 sp' b.
Proof. apply (sumz_insert (fun sp => holds c0 sp b)). Qed.

(** ** Reading a page of a region *)

Notation c0_of st := (chunk_start (frames st)).

Lemma region_frames st r : pmm_inv st -> region_ok st r ->
  paddr r = c0_of st + fidx (c0_of st) (paddr r) * PAGE_4KIB /\ 0 <= fidx (c0_of st) (paddr r) /\ 0 < pages r /\
  fidx (c0_of st) (paddr r) + pages r <= block_count (frames st).
Proof. intros Hp Hr. destruct (r_frames _ _ Hr) as (Hpa & ? & ? & ?). rewrite (p_block _ Hp) in Hpa. done. Qed.

(** The frames of memory as addresses. *)
Lemma frame_addr st b : pmm_inv st -> chunk_ok st -> 0 <= b < block_count (frames st) ->
  let p := c0_of st + b * PAGE_4KIB in
  p mod PAGE_4KIB = 0 /\ 0 < p < 2 ^ 52 /\ p + PAGE_4KIB <= SIZE_MAX /\ frames_at st p b 1 /\ fidx (c0_of st) p = b.
Proof.
  intros Hp Hc Hb. cbn zeta. pose proof (frame_place st b Hp Hc Hb) as (? & ? & ? & ?). split_and!; try done; try lia.
  unfold fidx. replace (c0_of st + b * PAGE_4KIB - c0_of st) with (b * PAGE_4KIB) by lia. by apply Z.div_mul.
Qed.

Lemma frame_range st r v : pmm_inv st -> region_ok st r -> covers r v = true ->
  0 <= frame (c0_of st) r v < block_count (frames st).
Proof.
  intros Hp Hr Hc. pose proof (region_frames st r Hp Hr) as (_ & ? & ? & ?).
  pose proof (uses_frame (c0_of st) r v Hc) as Hu. unfold uses, inside in Hu. bool_facts. lia.
Qed.

Lemma space_region st sp t r : space_ok st sp t -> r ∈ regions sp -> region_ok st r.
Proof. intros Hsp Hr. exact (proj1 (Forall_forall _ _) (s_regs _ _ _ Hsp) r Hr). Qed.

Lemma entry_frame st r v e : pmm_inv st -> region_ok st r -> entry_ok r v e ->
  page_get_paddr e = c0_of st + frame (c0_of st) r v * PAGE_4KIB.
Proof.
  intros Hp Hr (_ & _ & -> & _). pose proof (region_frames st r Hp Hr) as (Hpa & _). rewrite Hpa at 1. unfold frame. lia.
Qed.

Lemma load_region st sp t r v m : pmm_inv st -> space_ok st sp t -> r ∈ regions sp -> covers r v = true ->
  load m sp v = Some (m (c0_of st + frame (c0_of st) r v * PAGE_4KIB + v mod PAGE_4KIB)).
Proof.
  intros Hp Hsp Hr Hc. destruct (s_map _ _ _ Hsp r v Hr Hc) as (e & He & Hok).
  unfold load. rewrite (s_root _ _ _ Hsp), He. pose proof (entry_frame st r v e Hp (space_region _ _ _ _ Hsp Hr) Hok) as Ha.
  destruct Hok as (-> & -> & _). cbn [andb]. by rewrite Ha.
Qed.

(** An address is in a region, or nothing is there. *)
Lemma load_cases st sp v m : 0 <= v < user_limit -> live_or_dead st sp ->
  load m sp v = None /\ (forall m', load m' sp v = None) \/
  exists t r, space_ok st sp t /\ r ∈ regions sp /\ covers r v = true.
Proof.
  intros Hv [[Hd _]|[t Hsp]].
  - left. unfold load. by rewrite Hd.
  - destruct (get_page t v) as [x|] eqn:He.
    + right. destruct (s_only _ _ _ Hsp v x Hv He) as (r & Hr & Hc). by exists t, r.
    + left. unfold load. by rewrite (s_root _ _ _ Hsp), He.
Qed.

(** Two pages with one frame count twice. *)
Lemma two_users st sps x k k' sp sp' t t' r r' v v' :
  mem_inv st sps x -> sps !! k = Some sp -> sps !! k' = Some sp' -> space_ok st sp t -> space_ok st sp' t' ->
  r ∈ regions sp -> r' ∈ regions sp' -> covers r v = true -> covers r' v' = true ->
  frame (c0_of st) r v = frame (c0_of st) r' v' -> total (c0_of st) sps (frame (c0_of st) r v) <= 1 ->
  k = k' /\ page v = page v'.
Proof.
  intros Hinv Hk Hk' Hsp Hsp' Hr Hr' Hc Hc' Hf Ht. set (b := frame (c0_of st) r v) in *.
  pose proof (uses_frame (c0_of st) r v Hc) as Hu. fold b in Hu.
  assert (Hu' : uses (c0_of st) r' b = true) by (rewrite Hf; by apply uses_frame).
  assert (1 <= holds (c0_of st) sp b).
  { unfold holds. pose proof (uses_occ (c0_of st) _ b r Hr Hu). pose proof (own_nonneg sp b). lia. }
  assert (1 <= holds (c0_of st) sp' b).
  { unfold holds. pose proof (uses_occ (c0_of st) _ b r' Hr' Hu'). pose proof (own_nonneg sp' b). lia. }
  assert (k = k') as <-.
  { destruct (decide (k = k')) as [|Hne]; [done|]. exfalso.
    pose proof (sumz_lookup2 (fun sp => holds (c0_of st) sp b) (fun sp => holds_nonneg _ sp b) sps k k' sp sp' Hk Hk' Hne) as Hs.
    cbn beta in Hs. fold (total (c0_of st) sps b) in Hs. lia. }
  split; [done|]. rewrite Hk in Hk'. injection Hk' as <-.
  apply list_elem_of_lookup in Hr as [i Hi], Hr' as [j Hj].
  assert (i = j) as <-.
  { destruct (decide (i = j)) as [|Hne]; [done|]. exfalso.
    pose proof (sumz_lookup2 (fun r => bit (uses (c0_of st) r b)) (fun r => bit_pos _) (regions sp) i j r r' Hi Hj Hne) as Hs.
    fold (occ (c0_of st) (regions sp) b) in Hs. cbn in Hs. rewrite Hu, Hu' in Hs. cbn in Hs.
    pose proof (total_elem (c0_of st) sps sp b (list_elem_of_lookup_2 _ _ _ Hk)) as Hte. unfold holds in Hte.
    pose proof (own_nonneg sp b). lia. }
  rewrite Hi in Hj. injection Hj as <-. apply (frame_page (c0_of st) r); [|done].
  apply (space_region st sp t); [done|]. by eapply list_elem_of_lookup_2.
Qed.

(** ** Changing bytes *)

(** Bytes of a frame nobody uses can change unseen. *)
Lemma load_unused st sps x k sp v m m' f : mem_inv st sps x -> sps !! k = Some sp -> 0 <= v < user_limit ->
  total (c0_of st) sps f <= 0 -> 0 <= f ->
  (forall a, a < c0_of st + f * PAGE_4KIB \/ c0_of st + (f + 1) * PAGE_4KIB <= a -> m' a = m a) ->
  load m' sp v = load m sp v.
Proof.
  intros Hinv Hk Hv Ht Hf0 Hm. pose proof (list_elem_of_lookup_2 _ _ _ Hk) as Hin.
  pose proof (proj1 (Forall_forall _ _) (i_spaces _ _ _ Hinv) sp Hin) as Hld.
  destruct (load_cases st sp v m Hv Hld) as [[-> Hn]|(t & r & Hsp & Hr & Hc)]; [by rewrite Hn|].
  rewrite !(load_region st sp t r v) by (done || apply Hinv). f_equal. apply Hm.
  assert (frame (c0_of st) r v <> f).
  { intros <-. pose proof (uses_occ (c0_of st) _ _ r Hr (uses_frame (c0_of st) r v Hc)).
    pose proof (total_elem (c0_of st) sps sp (frame (c0_of st) r v) Hin) as Hte. unfold holds in Hte.
    pose proof (own_nonneg sp (frame (c0_of st) r v)). lia. }
  pose proof (Z.mod_pos_bound v PAGE_4KIB ltac:(done)). unfold PAGE_4KIB in *. lia.
Qed.

(** A store to a writable page changes one byte of one thread. *)
Lemma store_exact st sps x k sp v f m c :
  mem_inv st sps x -> sps !! k = Some sp -> writes (c0_of st) sp v f ->
  forall k' sp' v', sps !! k' = Some sp' -> 0 <= v' < user_limit ->
    load (put m (c0_of st + f * PAGE_4KIB + v mod PAGE_4KIB) c) sp' v' =
      if decide (k' = k /\ v' = v) then Some c else load m sp' v'.
Proof.
  intros Hinv Hk Hw k' sp' v' Hk' Hv'. pose proof Hw as (r & e & t & Hroot & Hr & Hc & He & Hwe & ->).
  pose proof (list_elem_of_lookup_2 _ _ _ Hk) as Hin. pose proof (list_elem_of_lookup_2 _ _ _ Hk') as Hin'.
  pose proof (i_writes _ _ _ Hinv sp v _ Hin Hw) as Ht1. pose proof (i_x _ _ _ Hinv (frame (c0_of st) r v)) as Hx.
  pose proof (proj1 (Forall_forall _ _) (i_spaces _ _ _ Hinv) sp Hin) as [[Hd _]|[t1 Hsp]]; [congruence|].
  pose proof (proj1 (Forall_forall _ _) (i_spaces _ _ _ Hinv) sp' Hin') as Hld'.
  destruct (load_cases st sp' v' m Hv' Hld') as [[-> Hn]|(t' & r' & Hsp' & Hr' & Hc')].
  { rewrite Hn, decide_False; [done|]. intros [-> ->]. assert (sp' = sp) as -> by congruence.
    specialize (Hn m). by rewrite (load_region st sp t1 r v) in Hn by (done || apply Hinv). }
  rewrite !(load_region st sp' t' r' v') by (done || apply Hinv). unfold put.
  pose proof (Z.mod_pos_bound v PAGE_4KIB ltac:(done)). pose proof (Z.mod_pos_bound v' PAGE_4KIB ltac:(done)).
  destruct (Z.eqb_spec (c0_of st + frame (c0_of st) r' v' * PAGE_4KIB + v' mod PAGE_4KIB)
                       (c0_of st + frame (c0_of st) r v * PAGE_4KIB + v mod PAGE_4KIB)) as [Heq|Hne].
  - assert (Hf : frame (c0_of st) r v = frame (c0_of st) r' v') by (unfold PAGE_4KIB in *; lia).
    destruct (two_users st sps x k k' sp sp' t1 t' r r' v v' Hinv Hk Hk' Hsp Hsp' Hr Hr' Hc Hc' Hf) as [<- Hpg]; [lia|].
    rewrite decide_True; [done|]. split; [done|]. unfold page in Hpg.
    rewrite (Z.div_mod v' PAGE_4KIB), (Z.div_mod v PAGE_4KIB) by done. unfold PAGE_4KIB in *. lia.
  - rewrite decide_False; [done|]. intros [-> ->]. apply Hne. assert (sp' = sp) as -> by congruence.
    assert (Hrr : r' = r); [|by rewrite Hrr]. apply list_elem_of_lookup in Hr as [i Hi], Hr' as [j Hj].
    assert (i = j) as <- by (eapply cov_unique; [apply (s_disj _ _ _ Hsp)|exact Hi|exact Hj|done|done]). congruence.
Qed.

(** ** Splitting a region *)

Lemma region_span_ok base n : 0 <= base -> 0 < n -> base + n * PAGE_4KIB <= SIZE_MAX ->
  region_span base n = Some (base + n * PAGE_4KIB).
Proof.
  intros Hb Hn Hle. unfold region_span. pose proof SIZE_MOD_pos. unfold SIZE_MAX, PAGE_4KIB in *.
  rewrite (proj2 (Z.eqb_neq n 0)) by lia. rewrite (proj2 (Z.ltb_ge _ n)) by (apply Z.div_le_lower_bound; lia). cbn [orb].
  rewrite (wrap_small (n * 4096)) by lia. rewrite (proj2 (Z.ltb_ge _ _)) by lia. by rewrite wrap_small by lia.
Qed.

Lemma region_fits st r : pmm_inv st -> region_ok st r ->
  vend r <= SIZE_MAX /\ paddr r + pages r * PAGE_4KIB <= SIZE_MAX /\ 0 <= paddr r.
Proof.
  intros Hp Hr. pose proof (region_frames st r Hp Hr) as (Hpa & ? & ? & ?). pose proof (r_high _ _ Hr).
  pose proof user_limit_ok. pose proof (p_alloc _ Hp) as (?&?&?&?&?&?&_). rewrite (p_block _ Hp) in *.
  unfold SIZE_MAX, PAGE_4KIB in *. lia.
Qed.

Lemma bounds_ok st r : pmm_inv st -> region_ok st r -> region_bounds_ok (vaddr r) (paddr r) (pages r) = true.
Proof.
  intros Hp Hr. pose proof (region_fits st r Hp Hr) as (? & ? & ?). pose proof (region_frames st r Hp Hr) as (_ & _ & ? & _).
  unfold region_bounds_ok. rewrite !region_span_ok by (done || apply Hr). done.
Qed.

(** A part of [r] that does not contain its page number [i]. *)
Record part r (i : Z) (x : sched_user_region_t) : Prop := {
  q_flags : flags x = flags r;
  q_shift : exists d, 0 <= d /\ vaddr x = vaddr r + d * PAGE_4KIB /\ paddr x = paddr r + d * PAGE_4KIB /\
              0 < pages x /\ d + pages x <= pages r /\ (d + pages x <= i \/ i < d)
}.

Lemma part_covers r i x v : vaddr r mod PAGE_4KIB = 0 -> part r i x -> covers x v = true ->
  covers r v = true /\ page v <> page (vaddr r + i * PAGE_4KIB) /\
  paddr x + (v - vaddr x) / PAGE_4KIB * PAGE_4KIB = paddr r + (v - vaddr r) / PAGE_4KIB * PAGE_4KIB.
Proof.
  intros Ha [_ (d & Hd & Hv & Hp & Hn & Hle & Hi)]. rewrite !covers_bounds. unfold vend, page, PAGE_4KIB in *.
  intros Hc. rewrite Hv, Hp in *. Z.to_euclidean_division_equations; lia.
Qed.

Lemma part_ok st r i x : pmm_inv st -> region_ok st r -> part r i x -> region_ok st x.
Proof.
  intros Hpi Hr [Hf (d & Hd & Hv & Hp & Hn & Hle & _)]. pose proof (region_frames st r Hpi Hr) as (Hpa & ? & ? & ?).
  destruct Hr as [Ha Hl Hh _ Hu Hg]. unfold vend in Hh.
  assert (Hfx : fidx (c0_of st) (paddr x) = fidx (c0_of st) (paddr r) + d).
  { unfold fidx, PAGE_4KIB in *. rewrite Hp. replace (paddr r + d * 4096 - c0_of st) with (paddr r - c0_of st + d * 4096) by lia.
    by rewrite Z.div_add by lia. }
  constructor.
  - rewrite Hv. by rewrite Z.mod_add.
  - unfold PAGE_4KIB in *. lia.
  - unfold vend, PAGE_4KIB in *. lia.
  - unfold frames_at, run_at. rewrite Hfx, (p_block _ Hpi), Hp. unfold PAGE_4KIB in *. lia.
  - by rewrite Hf.
  - by rewrite Hf.
Qed.

Definition before r (i : Z) : list sched_user_region_t :=
  if i =? 0 then [] else [mk_region (vaddr r) (paddr r) i (flags r)].
Definition after r (i : Z) : list sched_user_region_t :=
  if pages r - i - 1 =? 0 then []
  else [mk_region (vaddr r + (i + 1) * PAGE_4KIB) (paddr r + (i + 1) * PAGE_4KIB) (pages r - i - 1) (flags r)].

Lemma before_parts r i x : 0 <= i < pages r -> x ∈ before r i -> part r i x.
Proof.
  intros Hi. unfold before. destruct (Z.eqb_spec i 0); [intros []%not_elem_of_nil|]. intros ->%list_elem_of_singleton.
  split; [done|]. exists 0. cbn. lia.
Qed.

Lemma after_parts r i x : 0 <= i < pages r -> x ∈ after r i -> part r i x.
Proof.
  intros Hi. unfold after. destruct (Z.eqb_spec (pages r - i - 1) 0); [intros []%not_elem_of_nil|].
  intros ->%list_elem_of_singleton. split; [done|]. exists (i + 1). cbn. lia.
Qed.

Lemma split_spec st n1 n2 l k r i np nf l' : pmm_inv st -> region_ok st r -> l !! k = Some r -> 0 <= i < pages r ->
  split_page_region n1 n2 l k i np nf = (true, l') ->
  l' = take k l ++ before r i ++ mk_region (vaddr r + i * PAGE_4KIB) np 1 nf :: after r i ++ drop (S k) l.
Proof.
  intros Hp Hr Hk Hi. unfold split_page_region. rewrite Hk. rewrite (proj2 (Z.eqb_neq (pages r) 0)) by lia.
  rewrite (proj2 (Z.leb_gt (pages r) i)) by lia. cbn [orb]. rewrite (bounds_ok st) by done. cbn [negb].
  pose proof (region_fits st r Hp Hr) as (H1 & H2 & H3). pose proof (r_low _ _ Hr). pose proof SIZE_MOD_pos.
  unfold vend, SIZE_MAX in *.
  assert (pages r < SIZE_MOD) by (unfold PAGE_4KIB in *; lia).
  rewrite (wrap_small (pages r - i)), (wrap_small (pages r - i - 1)) by lia.
  rewrite (wrap_small (i * PAGE_4KIB)), (wrap_small (vaddr r + _)), (wrap_small (paddr r + _)) by (unfold PAGE_4KIB in *; lia).
  unfold before, after. destruct (Z.eqb_spec (pages r - i - 1) 0) as [Ha|Ha], (Z.eqb_spec i 0) as [Hi0|Hi0]; cbn [andb].
  - by intros [= <-].
  - destruct n1; [|done]. cbn [negb]. intros [= <-]. by rewrite <- ?app_assoc.
  - destruct n1; [|done]. cbn [negb]. intros [= <-]. cbn [app].
    rewrite !wrap_small by (unfold PAGE_4KIB in *; lia). do 3 f_equal. f_equal; lia.
  - destruct n1; [|done]. destruct n2; [|done]. cbn [negb]. intros [= <-].
    rewrite !wrap_small by (unfold PAGE_4KIB in *; lia). cbn [app]. do 4 f_equal. f_equal; lia.
Qed.

Lemma sumz_parts (g : sched_user_region_t -> Z) l k r xs new ys :
  l !! k = Some r -> sumz g (take k l ++ xs ++ new :: ys ++ drop (S k) l) = sumz g l - g r + (sumz g xs + g new + sumz g ys).
Proof. intros Hk. rewrite sumz_app, sumz_app, sumz_cons, sumz_app, (sumz_split g l k r Hk). lia. Qed.

(** The pieces cover what the region covered. *)
Lemma pieces_cov r i np nf v : 0 <= i < pages r ->
  cov (before r i) v + bit (covers (mk_region (vaddr r + i * PAGE_4KIB) np 1 nf) v) + cov (after r i) v = bit (covers r v).
Proof.
  intros Hi. unfold before, after, cov, covers, vend, bit, PAGE_4KIB.
  destruct (Z.eqb_spec i 0), (Z.eqb_spec (pages r - i - 1) 0); cbn [sumz foldr vaddr pages];
    repeat match goal with |- context [?a <=? ?b] => destruct (Z.leb_spec a b) | |- context [?a <? ?b] => destruct (Z.ltb_spec a b) end;
    cbn [andb]; lia.
Qed.

Lemma split_cov l k r i np nf v : l !! k = Some r -> 0 <= i < pages r ->
  cov (take k l ++ before r i ++ mk_region (vaddr r + i * PAGE_4KIB) np 1 nf :: after r i ++ drop (S k) l) v = cov l v.
Proof.
  intros Hk Hi. unfold cov at 1. rewrite (sumz_parts _ l k r) by done. fold (cov (before r i) v) (cov (after r i) v) (cov l v).
  cbn beta. rewrite (pieces_cov r i np nf v Hi). lia.
Qed.

(** One use moves from the page's old frame to the new one. *)
Lemma pieces_occ c0 r i np nf b : 0 <= i < pages r -> (paddr r - c0) mod PAGE_4KIB = 0 ->
  occ c0 (before r i) b + bit (uses c0 (mk_region (vaddr r + i * PAGE_4KIB) np 1 nf) b) + occ c0 (after r i) b =
  bit (uses c0 r b) - bit (b =? fidx c0 (paddr r) + i) + bit (b =? fidx c0 np).
Proof.
  intros Hi Hm. assert (Hf : fidx c0 (paddr r + (i + 1) * PAGE_4KIB) = fidx c0 (paddr r) + i + 1).
  { unfold fidx, PAGE_4KIB in *. replace (paddr r + (i + 1) * 4096 - c0) with (paddr r - c0 + (i + 1) * 4096) by lia.
    rewrite Z.div_add by lia. lia. }
  unfold before, after, occ, uses, inside, bit.
  destruct (Z.eqb_spec i 0), (Z.eqb_spec (pages r - i - 1) 0); cbn [sumz foldr paddr pages]; rewrite ?Hf;
    set (a := fidx c0 (paddr r)); set (f := fidx c0 np);
    destruct (Z.eqb_spec b (a + i)), (Z.eqb_spec b f);
    repeat match goal with |- context [?a <=? ?b] => destruct (Z.leb_spec a b) | |- context [?a <? ?b] => destruct (Z.ltb_spec a b) end;
    cbn [andb]; lia.
Qed.

Lemma split_occ c0 l k r i np nf b : l !! k = Some r -> 0 <= i < pages r -> (paddr r - c0) mod PAGE_4KIB = 0 ->
  occ c0 (take k l ++ before r i ++ mk_region (vaddr r + i * PAGE_4KIB) np 1 nf :: after r i ++ drop (S k) l) b =
  occ c0 l b - bit (b =? fidx c0 (paddr r) + i) + bit (b =? fidx c0 np).
Proof.
  intros Hk Hi Hm. unfold occ at 1. rewrite (sumz_parts _ l k r) by done.
  fold (occ c0 (before r i) b) (occ c0 (after r i) b) (occ c0 l b). cbn beta. rewrite (pieces_occ c0 r i np nf b Hi Hm). lia.
Qed.

(** Who is in the list after a split. *)
Lemma split_elem l k r i new x : l !! k = Some r -> 0 <= i < pages r ->
  x ∈ take k l ++ before r i ++ new :: after r i ++ drop (S k) l ->
  x = new \/ part r i x \/ exists j, l !! j = Some x /\ j <> k.
Proof.
  intros Hk Hi. rewrite !elem_of_app, elem_of_cons, elem_of_app. intros [Hx|[Hx|[Hx|[Hx|Hx]]]].
  - right; right. apply list_elem_of_lookup in Hx as [j Hj]. apply lookup_take_Some in Hj as [Hj Hlt]. exists j. split; [done|lia].
  - right; left. by apply before_parts.
  - by left.
  - right; left. by apply after_parts.
  - right; right. apply list_elem_of_lookup in Hx as [j Hj]. rewrite lookup_drop in Hj. exists (S k + j)%nat. split; [done|lia].
Qed.

(** ** Growing and shrinking the holds outside *)

Lemma region_ok_chunk st st' r : same_chunk st st' -> region_ok st r -> region_ok st' r.
Proof.
  intros Hs [Ha Hl Hh Hf Hu Hg]. pose proof Hs as (Hc & _). constructor; try done. rewrite Hc. by eapply frames_at_chunk.
Qed.

Lemma space_ok_chunk st st' sp t : same_chunk st st' -> space_ok st sp t -> space_ok st' sp t.
Proof.
  intros Hs [Hr Hp Hg Hd Hm Ho]. constructor; try done. eapply Forall_impl; [exact Hg|]. intros r. by apply region_ok_chunk.
Qed.

Lemma live_chunk st st' sp : same_chunk st st' -> live_or_dead st sp -> live_or_dead st' sp.
Proof. intros Hs [Hd|[t Ht]]; [by left|right; exists t; by eapply space_ok_chunk]. Qed.

(** A page that can be written uses its frame. *)
Lemma writes_uses c0 sps sp v b : sp ∈ sps -> writes c0 sp v b -> 1 <= total c0 sps b.
Proof.
  intros Hin (r & e & t & _ & Hr & Hc & _ & _ & ->). pose proof (uses_occ c0 _ _ r Hr (uses_frame c0 r v Hc)).
  pose proof (total_elem c0 sps sp (frame c0 r v) Hin) as Hte. unfold holds in Hte. pose proof (own_nonneg sp (frame c0 r v)). lia.
Qed.

Lemma inv_outside st st' sps x x' : mem_inv st sps x -> pmm_inv st' -> same_chunk st st' -> (forall b, 0 <= x' b) ->
  (forall b, total (c0_of st) sps b + x' b = frame_ref st' b) ->
  (forall b, x' b = x b \/ total (c0_of st) sps b = 0 \/ 1 <= x b) -> mem_inv st' sps x'.
Proof.
  intros [Hp Hc Hsp Hx Hn Hw] Hp' Hs Hx' Hn' Hch. pose proof Hs as (Hc0 & _). constructor.
  - done.
  - by eapply chunk_ok_same.
  - eapply Forall_impl; [exact Hsp|]. intros sp. by apply live_chunk.
  - done.
  - by rewrite Hc0.
  - rewrite Hc0. intros sp v b Hin Hwr. pose proof (Hw sp v b Hin Hwr) as H1. pose proof (writes_uses _ _ _ _ _ Hin Hwr) as Hu.
    pose proof (Hx b). destruct (Hch b) as [->|[|]]; lia.
Qed.

(** Taking frames for oneself. *)
Lemma inv_alloc st sps x n high p st' : mem_inv st sps x -> 0 < n < SIZE_MOD ->
  pmm_alloc_frames st n high = ret (p, st') -> p <> 0 ->
  exists f, frames_at st p f n /\ same_chunk st st' /\ fidx (c0_of st) p = f /\
    (forall b, inside f n b = true -> total (c0_of st) sps b = 0 /\ x b = 0) /\
    mem_inv st' sps (fun b => x b + bit (inside f n b)).
Proof.
  intros Hinv Hn He Hp. destruct (alloc_ok st n high (i_pmm _ _ _ Hinv) Hn) as (p1 & st1 & He1 & Hout).
  rewrite He in He1. injection He1 as <- <-. destruct Hout as [(-> & _)|(f & Hr & Hz & (Hp' & Hs & Hc))]; [done|].
  assert (Hzero : forall b, inside f n b = true -> total (c0_of st) sps b = 0 /\ x b = 0).
  { intros b Hb. pose proof (i_count _ _ _ Hinv b). pose proof (i_x _ _ _ Hinv b). rewrite Hz in * by done.
    pose proof (total_nonneg (c0_of st) sps b). lia. }
  exists f. split; [done|]. split; [done|]. split.
  { destruct Hr as (-> & _). rewrite (p_block _ (i_pmm _ _ _ Hinv)). unfold fidx.
    replace (c0_of st + f * PAGE_4KIB - c0_of st) with (f * PAGE_4KIB) by lia. by apply Z.div_mul. }
  split; [done|]. eapply inv_outside; [exact Hinv|done|done| | |].
  - intros b. pose proof (i_x _ _ _ Hinv b). pose proof (bit_pos (inside f n b)). lia.
  - intros b. rewrite Hc. pose proof (i_count _ _ _ Hinv b). destruct (inside f n b) eqn:Hb; cbn [bit]; [|lia].
    destruct (Hzero b Hb) as [-> ->]. lia.
  - intros b. destruct (inside f n b) eqn:Hb; cbn [bit]; [|left; lia]. right; left. by apply Hzero.
Qed.

(** Giving back frames one holds. *)
Lemma inv_release st sps x p f n : mem_inv st sps x -> frames_at st p f n ->
  (forall b, inside f n b = true -> 1 <= x b) ->
  exists st', free_frames st p n = Some st' /\ same_chunk st st' /\
    mem_inv st' sps (fun b => x b - bit (inside f n b)).
Proof.
  intros Hinv Hr Hx. destruct (free_ok st p f n (i_pmm _ _ _ Hinv) Hr) as (st' & -> & Hp' & Hs & Hc).
  exists st'. split; [done|]. split; [done|]. eapply inv_outside; [exact Hinv|done|done| | |].
  - intros b. pose proof (i_x _ _ _ Hinv b). destruct (inside f n b) eqn:Hb; cbn [bit]; [specialize (Hx b Hb)|]; lia.
  - intros b. rewrite Hc. pose proof (i_count _ _ _ Hinv b). destruct (inside f n b) eqn:Hb; cbn [bit]; [|lia].
    specialize (Hx b Hb). pose proof (total_nonneg (c0_of st) sps b). unfold dropped. test_lia. lia.
  - intros b. destruct (inside f n b) eqn:Hb; cbn [bit]; [|left; lia]. right; right. by apply Hx.
Qed.

(** ** Giving a page a frame of its own *)

Lemma cov_pos l v : 1 <= cov l v -> exists r, r ∈ l /\ covers r v = true.
Proof.
  induction l as [|r l IH]; [done|]. unfold cov. rewrite sumz_cons. fold (cov l v). destruct (covers r v) eqn:Hc; cbn [bit].
  - exists r. split; [apply list_elem_of_here|done].
  - intros Hl. destruct IH as (r' & Hr' & Hc'); [lia|]. exists r'. split; [by apply list_elem_of_further|done].
Qed.

Lemma covers_page r v v' : vaddr r mod PAGE_4KIB = 0 -> page v = page v' -> covers r v = true -> covers r v' = true.
Proof.
  intros Ha Hp. rewrite !covers_bounds. unfold vend, page, PAGE_4KIB in *. Z.to_euclidean_division_equations; lia.
Qed.

Lemma covers_single va p f v : va mod PAGE_4KIB = 0 -> covers (mk_region va p 1 f) v = true <-> page v = page va.
Proof.
  intros Ha. rewrite covers_bounds. unfold vend, page, PAGE_4KIB in *. cbn [vaddr pages]. Z.to_euclidean_division_equations; lia.
Qed.

Lemma entry_part r i x v e : vaddr r mod PAGE_4KIB = 0 -> part r i x -> covers x v = true -> entry_ok r v e -> entry_ok x v e.
Proof.
  intros Ha Hq Hc (H1 & H2 & H3 & H4 & H5). destruct (part_covers r i x v Ha Hq Hc) as (_ & _ & Heq).
  unfold entry_ok. rewrite Heq, (q_flags _ _ _ Hq). done.
Qed.

Lemma covers_limit st x0 v : region_ok st x0 -> covers x0 v = true -> 0 <= v < user_limit.
Proof. intros Hx Hc. apply covers_bounds in Hc. pose proof (r_low _ _ Hx). pose proof (r_high _ _ Hx). lia. Qed.

(** The state of a split: page [i] of region [r] of a space moves to frame [f]. *)
Record moved st sp t (kr : nat) r (i f nf : Z) (sp' : space) st' t' : Prop := {
  v_ok : space_ok st sp t;
  v_r : regions sp !! kr = Some r;
  v_i : 0 <= i < pages r;
  v_f : 0 <= f < block_count (frames st);
  v_user : has nf PT_USER = true;
  v_huge : has nf PT_HUGE = false;
  v_cow : has nf PT_WRITE = true;
  v_regs : regions sp' = take kr (regions sp) ++ before r i ++
             mk_region (vaddr r + i * PAGE_4KIB) (c0_of st + f * PAGE_4KIB) 1 nf :: after r i ++ drop (S kr) (regions sp);
  v_root : root sp' = Some t';
  v_keeps : keeps_used st st';
  v_pt : pt_ok t';
  v_own : forall b, 0 <= pt_own t' b - pt_own t b /\ pt_own t' b - pt_own t b = frame_ref st' b - frame_ref st b;
  v_get : get_page t' (vaddr r + i * PAGE_4KIB) = Some (PAGE_4KIB, leaf (c0_of st + f * PAGE_4KIB) nf);
  v_other : forall v, 0 <= v < user_limit -> page v <> page (vaddr r + i * PAGE_4KIB) -> get_page t' v = get_page t v
}.

Section Moved.
Context st sps x k sp t kr r i f nf sp' st' t'
  (Hinv : mem_inv st sps x) (Hk : sps !! k = Some sp) (Hmv : moved st sp t kr r i f nf sp' st' t').

Let pa := vaddr r + i * PAGE_4KIB.
Let o := fidx (c0_of st) (paddr r) + i.
Let np := c0_of st + f * PAGE_4KIB.
Let new := mk_region pa np 1 nf.

Lemma moved_region : r ∈ regions sp /\ region_ok st r.
Proof.
  assert (Hr : r ∈ regions sp) by (eapply list_elem_of_lookup_2; apply Hmv). split; [done|]. eapply space_region; [apply Hmv|done].
Qed.

Lemma moved_new : region_ok st new /\ pa mod PAGE_4KIB = 0 /\ 0 <= pa < user_limit.
Proof.
  destruct moved_region as [_ Hr]. pose proof (v_i _ _ _ _ _ _ _ _ _ _ _ Hmv) as Hi. pose proof (v_f _ _ _ _ _ _ _ _ _ _ _ Hmv) as Hf.
  pose proof (frame_addr st f (i_pmm _ _ _ Hinv) (i_chunk _ _ _ Hinv) Hf) as (Hm & Hp & _ & Hat & Hfx).
  pose proof (r_low _ _ Hr) as Hlo. pose proof (r_high _ _ Hr) as Hhi. unfold vend in Hhi.
  assert (Ha : pa mod PAGE_4KIB = 0) by (unfold pa; rewrite Z.mod_add by done; apply Hr).
  split; [|split; [done|unfold pa, PAGE_4KIB in *; lia]].
  constructor; cbn [vaddr paddr pages flags new]; try (apply Hmv); try done.
  - unfold pa, PAGE_4KIB in *; lia.
  - unfold vend, pa, PAGE_4KIB in *. cbn [vaddr pages new]. lia.
  - fold np in Hat, Hfx. by rewrite Hfx.
Qed.

Lemma moved_old v j x0 : regions sp !! j = Some x0 -> j <> kr -> covers x0 v = true -> page v <> page pa.
Proof.
  intros Hj Hne Hc Hpg. destruct moved_region as [Hin Hr]. apply Hne.
  eapply (cov_unique (regions sp) v j kr x0 r); [apply (v_ok _ _ _ _ _ _ _ _ _ _ _ Hmv)|done|apply Hmv|done|].
  apply (covers_page r pa); [apply Hr|done|]. apply covers_bounds. pose proof (v_i _ _ _ _ _ _ _ _ _ _ _ Hmv).
  unfold pa, vend, PAGE_4KIB. lia.
Qed.

Lemma moved_space : space_ok st' sp' t'.
Proof.
  pose proof (v_ok _ _ _ _ _ _ _ _ _ _ _ Hmv) as Hsp. destruct moved_region as [Hin Hr]. destruct moved_new as (Hnew & Ha & Hpa).
  pose proof (v_keeps _ _ _ _ _ _ _ _ _ _ _ Hmv) as (Hp' & Hs & _). pose proof (v_i _ _ _ _ _ _ _ _ _ _ _ Hmv) as Hi.
  pose proof (v_regs _ _ _ _ _ _ _ _ _ _ _ Hmv) as Hl. pose proof (v_r _ _ _ _ _ _ _ _ _ _ _ Hmv) as Hkr.
  pose proof (v_f _ _ _ _ _ _ _ _ _ _ _ Hmv) as Hf. fold pa np in Hl. fold new in Hl.
  pose proof (frame_addr st f (i_pmm _ _ _ Hinv) (i_chunk _ _ _ Hinv) Hf) as (Hm & Hp & _). fold np in Hm, Hp.
  assert (Hget : forall v, page v = page pa -> get_page t' v = Some (PAGE_4KIB, leaf np nf)).
  { intros v Hv. rewrite (get_page_same t' v pa Hv). apply Hmv. }
  assert (Helem : forall y, y ∈ regions sp' -> y = new \/ part r i y \/ exists j, regions sp !! j = Some y /\ j <> kr).
  { intros y Hy. rewrite Hl in Hy. by eapply split_elem. }
  constructor.
  - apply Hmv.
  - apply Hmv.
  - apply Forall_forall. intros y Hy. apply (region_ok_chunk st st' y Hs).
    destruct (Helem y Hy) as [->|[Hq|(j & Hj & _)]]; [done| |].
    + apply (part_ok st r i); [apply Hinv|done|done].
    + eapply space_region; [exact Hsp|]. by eapply list_elem_of_lookup_2.
  - intros v. rewrite Hl. unfold new, pa. rewrite split_cov by done. apply Hsp.
  - intros y v Hy Hc. destruct (Helem y Hy) as [->|[Hq|(j & Hj & Hne)]].
    + apply covers_single in Hc; [|done]. exists (leaf np nf). split; [by apply Hget|].
      destruct (leaf_bits np nf Hm ltac:(lia)) as (Hb1 & Hb2 & Hb3 & Hb4). unfold entry_ok. cbn [paddr vaddr flags new].
      rewrite Hb1, Hb2, Hb3, Hb4, (v_user _ _ _ _ _ _ _ _ _ _ _ Hmv). split_and!; try done; [|by left; apply Hmv].
      replace ((v - pa) / PAGE_4KIB) with 0; [lia|]. unfold page, PAGE_4KIB in *. Z.to_euclidean_division_equations; lia.
    + destruct (part_covers r i y v (r_align _ _ Hr) Hq Hc) as (Hcr & Hpg & _).
      destruct (s_map _ _ _ Hsp r v Hin Hcr) as (e & He & Hok). exists e. split; [|by eapply entry_part; [apply Hr|..]].
      rewrite (v_other _ _ _ _ _ _ _ _ _ _ _ Hmv); [done| |done]. by apply (covers_limit st r).
    + assert (Hyin : y ∈ regions sp) by (by eapply list_elem_of_lookup_2).
      destruct (s_map _ _ _ Hsp y v Hyin Hc) as (e & He & Hok). exists e. split; [|done].
      rewrite (v_other _ _ _ _ _ _ _ _ _ _ _ Hmv); [done| |by eapply moved_old].
      apply (covers_limit st y); [|done]. by eapply space_region.
  - intros v y Hv Hy. destruct (decide (page v = page pa)) as [Hpg|Hpg].
    + exists new. split; [|by apply covers_single]. rewrite Hl, !elem_of_app, elem_of_cons. auto.
    + rewrite (v_other _ _ _ _ _ _ _ _ _ _ _ Hmv) in Hy by done. destruct (s_only _ _ _ Hsp v y Hv Hy) as (y0 & Hy0 & Hc).
      apply cov_pos. rewrite Hl. unfold new, pa. rewrite split_cov by done. by eapply cov_elem.
Qed.

Lemma part_frame c0 y v : vaddr r mod PAGE_4KIB = 0 -> part r i y -> frame c0 y v = frame c0 r v.
Proof.
  intros Ha [_ (d & Hd & Hv & Hp & _)]. unfold frame, fidx. rewrite Hv, Hp.
  replace (paddr r + d * PAGE_4KIB - c0) with (paddr r - c0 + d * PAGE_4KIB) by lia.
  replace (v - (vaddr r + d * PAGE_4KIB)) with (v - vaddr r + (- d) * PAGE_4KIB) by lia.
  rewrite !Z.div_add by done. lia.
Qed.

(** Uses and holds outside move between the two frames; their sum only grows by new tables. *)
Lemma moved_total b :
  total (c0_of st) (<[k := sp']> sps) b + (x b + bit (b =? o) - bit (b =? f)) =
  total (c0_of st) sps b + x b + (pt_own t' b - pt_own t b).
Proof.
  destruct moved_region as [_ Hr]. pose proof (v_f _ _ _ _ _ _ _ _ _ _ _ Hmv) as Hf.
  pose proof (frame_addr st f (i_pmm _ _ _ Hinv) (i_chunk _ _ _ Hinv) Hf) as (_ & _ & _ & _ & Hfx). fold np in Hfx.
  rewrite (total_insert _ sps k sp sp' b Hk). unfold holds, own.
  rewrite (v_root _ _ _ _ _ _ _ _ _ _ _ Hmv), (s_root _ _ _ (v_ok _ _ _ _ _ _ _ _ _ _ _ Hmv)), (v_regs _ _ _ _ _ _ _ _ _ _ _ Hmv).
  rewrite split_occ; [|apply Hmv|apply Hmv|].
  - fold np. rewrite Hfx. fold o. lia.
  - destruct (region_frames st r (i_pmm _ _ _ Hinv) Hr) as (-> & _).
    replace (_ - _) with (fidx (c0_of st) (paddr r) * PAGE_4KIB) by lia. by apply Z.mod_mul.
Qed.

(** A frame somebody uses is not taken for a table. *)
Lemma moved_own_used b : 1 <= total (c0_of st) sps b + x b -> pt_own t' b - pt_own t b = 0.
Proof.
  intros Hu. pose proof (i_count _ _ _ Hinv b). destruct (v_keeps _ _ _ _ _ _ _ _ _ _ _ Hmv) as (_ & _ & Hkeep).
  pose proof (v_own _ _ _ _ _ _ _ _ _ _ _ Hmv b). rewrite Hkeep in * by lia. lia.
Qed.

(** A page other than the one that moved could be written before if it can be now. *)
Lemma moved_writes v b : writes (c0_of st) sp' v b -> b = f \/ writes (c0_of st) sp v b.
Proof.
  intros (y & e & t1 & Hroot & Hy & Hc & He & Hw & ->). destruct moved_region as [Hin Hr]. destruct moved_new as (Hnew & Ha & Hpa).
  pose proof (v_ok _ _ _ _ _ _ _ _ _ _ _ Hmv) as Hsp. rewrite (v_root _ _ _ _ _ _ _ _ _ _ _ Hmv) in Hroot. injection Hroot as <-.
  rewrite (v_regs _ _ _ _ _ _ _ _ _ _ _ Hmv) in Hy.
  apply split_elem in Hy as [->|[Hq|(j & Hj & Hne)]]; [| | |apply Hmv|apply Hmv].
  - left. pose proof (v_f _ _ _ _ _ _ _ _ _ _ _ Hmv) as Hf.
    pose proof (frame_addr st f (i_pmm _ _ _ Hinv) (i_chunk _ _ _ Hinv) Hf) as (_ & _ & _ & _ & Hfx).
    unfold frame. cbn [paddr vaddr]. rewrite Hfx. apply covers_single in Hc; [|done]. fold pa.
    replace ((v - pa) / PAGE_4KIB) with 0; [lia|]. unfold page, PAGE_4KIB in *. Z.to_euclidean_division_equations; lia.
  - right. destruct (part_covers r i y v (r_align _ _ Hr) Hq Hc) as (Hcr & Hpg & _). rewrite (part_frame _ y v (r_align _ _ Hr) Hq).
    rewrite (v_other _ _ _ _ _ _ _ _ _ _ _ Hmv) in He by (done || by apply (covers_limit st r)).
    exists r, e, t. split_and!; try done. apply Hsp.
  - right. assert (Hyin : y ∈ regions sp) by (by eapply list_elem_of_lookup_2).
    rewrite (v_other _ _ _ _ _ _ _ _ _ _ _ Hmv) in He;
      [|apply (covers_limit st y); [by eapply space_region|done]|by eapply moved_old].
    exists y, e, t. split_and!; try done. apply Hsp.
Qed.

Lemma moved_inv : total (c0_of st) sps f + x f = 1 -> (f <> o -> 1 <= x f) ->
  mem_inv st' (<[k := sp']> sps) (fun b => x b + bit (b =? o) - bit (b =? f)).
Proof.
  intros Hone Hxf. destruct (v_keeps _ _ _ _ _ _ _ _ _ _ _ Hmv) as (Hp' & Hs & Hkeep). pose proof Hs as (Hc0 & _).
  assert (Hin : sp ∈ sps) by (by eapply list_elem_of_lookup_2). constructor.
  - done.
  - eapply chunk_ok_same; [exact Hs|apply Hinv].
  - apply Forall_insert; [|right; exists t'; exact moved_space].
    eapply Forall_impl; [apply Hinv|]. intros y. by apply live_chunk.
  - intros b. pose proof (i_x _ _ _ Hinv b). unfold bit.
    destruct (Z.eqb_spec b o), (Z.eqb_spec b f); try lia. subst b. specialize (Hxf ltac:(done)). lia.
  - intros b. rewrite Hc0, moved_total. pose proof (i_count _ _ _ Hinv b). pose proof (v_own _ _ _ _ _ _ _ _ _ _ _ Hmv b). lia.
  - intros y v b Hy Hw. rewrite Hc0 in *. rewrite moved_total.
    assert (Hb : total (c0_of st) sps b + x b = 1).
    { apply list_elem_of_lookup in Hy as [j Hj]. destruct (decide (j = k)) as [->|Hne].
      - rewrite list_lookup_insert_eq in Hj by (by eapply lookup_lt_Some). injection Hj as <-.
        destruct (moved_writes v b Hw) as [->|Hw']; [done|]. by apply (i_writes _ _ _ Hinv sp v).
      - rewrite list_lookup_insert_ne in Hj by done. apply (i_writes _ _ _ Hinv y v); [|done]. by eapply list_elem_of_lookup_2. }
    rewrite moved_own_used by lia. lia.
Qed.

(** Nobody sees the move, when the new frame has the bytes of the old one. *)
Lemma moved_load m m' : total (c0_of st) sps f + x f = 1 -> (f <> o -> 1 <= x f) ->
  (forall off, 0 <= off < PAGE_4KIB -> m' (c0_of st + f * PAGE_4KIB + off) = m (c0_of st + o * PAGE_4KIB + off)) ->
  (forall a, a < c0_of st + f * PAGE_4KIB \/ c0_of st + (f + 1) * PAGE_4KIB <= a -> m' a = m a) ->
  forall k' s1 s2 v, sps !! k' = Some s1 -> <[k := sp']> sps !! k' = Some s2 -> 0 <= v < user_limit ->
    load m' s2 v = load m s1 v.
Proof.
  intros Hone Hxf Hcopy Hrest k' s1 s2 v Hs1 Hs2 Hv.
  pose proof (v_f _ _ _ _ _ _ _ _ _ _ _ Hmv) as Hf. pose proof (v_ok _ _ _ _ _ _ _ _ _ _ _ Hmv) as Hsp.
  assert (Hold : forall j s, sps !! j = Some s -> load m' s v = load m s v).
  { intros j s Hj. destruct (decide (f = o)) as [Hfo|Hfo].
    - assert (Hext : forall a, m' a = m a).
      { intros a. destruct (Z.lt_ge_cases a (c0_of st + f * PAGE_4KIB)); [apply Hrest; lia|].
        destruct (Z.lt_ge_cases a (c0_of st + (f + 1) * PAGE_4KIB)); [|apply Hrest; lia].
        specialize (Hcopy (a - (c0_of st + f * PAGE_4KIB)) ltac:(lia)). rewrite <- Hfo in Hcopy.
        by replace (c0_of st + f * PAGE_4KIB + (a - (c0_of st + f * PAGE_4KIB))) with a in Hcopy by lia. }
      unfold load. destruct (root s); [|done]. destruct (get_page _ v) as [[sz e]|]; [|done]. by rewrite Hext.
    - specialize (Hxf Hfo). pose proof (total_nonneg (c0_of st) sps f). eapply load_unused; [exact Hinv|exact Hj|done| | |exact Hrest]; lia. }
  destruct (decide (k' = k)) as [->|Hne].
  2:{ rewrite list_lookup_insert_ne in Hs2 by done. assert (s2 = s1) as -> by congruence. by eapply Hold. }
  rewrite list_lookup_insert_eq in Hs2 by (by eapply lookup_lt_Some). injection Hs2 as <-. assert (s1 = sp) as -> by congruence.
  destruct (decide (page v = page pa)) as [Hpg|Hpg].
  - destruct moved_region as [Hin Hr]. destruct moved_new as (Hnew & Ha & Hpa). pose proof (v_i _ _ _ _ _ _ _ _ _ _ _ Hmv) as Hi.
    destruct (v_keeps _ _ _ _ _ _ _ _ _ _ _ Hmv) as (Hp' & (Hc0 & _) & _).
    assert (Hcr : covers r v = true).
    { apply (covers_page r pa); [apply Hr|done|]. apply covers_bounds. unfold pa, vend, PAGE_4KIB. lia. }
    rewrite (load_region st sp t r v m (i_pmm _ _ _ Hinv) Hsp Hin Hcr).
    rewrite (load_region st' sp' t' new v m' Hp' moved_space); [| |by apply covers_single].
    2:{ rewrite (v_regs _ _ _ _ _ _ _ _ _ _ _ Hmv), !elem_of_app, elem_of_cons. auto. }
    rewrite Hc0. f_equal.
    assert (frame (c0_of st) new v = f) as ->.
    { pose proof (frame_addr st f (i_pmm _ _ _ Hinv) (i_chunk _ _ _ Hinv) Hf) as (_ & _ & _ & _ & Hfx). fold np in Hfx.
      unfold frame. cbn [paddr vaddr new]. rewrite Hfx.
      replace ((v - pa) / PAGE_4KIB) with 0; [lia|]. unfold page, PAGE_4KIB in *. Z.to_euclidean_division_equations; lia. }
    assert (frame (c0_of st) r v = o) as ->.
    { pose proof (r_align _ _ Hr) as Hal. unfold frame, o. f_equal. unfold pa, page, PAGE_4KIB in *. Z.to_euclidean_division_equations; lia. }
    apply Hcopy. by apply Z.mod_pos_bound.
  - rewrite <- (Hold k sp Hk). unfold load. rewrite (v_root _ _ _ _ _ _ _ _ _ _ _ Hmv), (s_root _ _ _ Hsp).
    by rewrite (v_other _ _ _ _ _ _ _ _ _ _ _ Hmv) by done.
Qed.

(** The page can be written now. *)
Lemma moved_writable v : page v = page pa -> writes (c0_of st) sp' v f.
Proof.
  intros Hpg. destruct moved_new as (Hnew & Ha & Hpa). pose proof (v_f _ _ _ _ _ _ _ _ _ _ _ Hmv) as Hf.
  pose proof (frame_addr st f (i_pmm _ _ _ Hinv) (i_chunk _ _ _ Hinv) Hf) as (Hm & Hp & _ & _ & Hfx). fold np in Hm, Hp, Hfx.
  exists new, (leaf np nf), t'. split_and!.
  - apply Hmv.
  - rewrite (v_regs _ _ _ _ _ _ _ _ _ _ _ Hmv), !elem_of_app, elem_of_cons. auto.
  - by apply covers_single.
  - rewrite (get_page_same t' v pa Hpg). apply Hmv.
  - destruct (leaf_bits np nf Hm ltac:(lia)) as (_ & _ & -> & _). apply Hmv.
  - unfold frame. cbn [paddr vaddr new]. rewrite Hfx.
    replace ((v - pa) / PAGE_4KIB) with 0; [lia|]. unfold page, PAGE_4KIB in *. Z.to_euclidean_division_equations; lia.
Qed.

(** What could be written can still be. *)
Lemma moved_keeps v b : writes (c0_of st) sp v b -> exists b', writes (c0_of st) sp' v b'.
Proof.
  intros (y & e & t1 & Hroot & Hy & Hc & He & Hw & ->). destruct (decide (page v = page pa)) as [Hpg|Hpg].
  { exists f. by apply moved_writable. }
  pose proof (v_ok _ _ _ _ _ _ _ _ _ _ _ Hmv) as Hsp. rewrite (s_root _ _ _ Hsp) in Hroot. injection Hroot as <-.
  assert (Hlim : 0 <= v < user_limit) by (apply (covers_limit st y); [by eapply space_region|done]).
  rewrite <- (v_other _ _ _ _ _ _ _ _ _ _ _ Hmv) in He by done.
  assert (Hcov : 1 <= cov (regions sp') v).
  { rewrite (v_regs _ _ _ _ _ _ _ _ _ _ _ Hmv), split_cov by apply Hmv. by eapply cov_elem. }
  apply cov_pos in Hcov as (z & Hz & Hcz). exists (frame (c0_of st) z v), z, e, t'. split_and!; try done. apply Hmv.
Qed.
End Moved.

(** ** The fault handler *)

Lemma find_region_spec st l a kr : pmm_inv st -> Forall (region_ok st) l -> find_region l a = Some kr ->
  exists r, l !! kr = Some r /\ covers r a = true.
Proof.
  intros Hp. revert kr. induction l as [|r l IH]; intros kr Hl; [done|]. apply Forall_cons in Hl as [Hr Hl]. cbn [find_region].
  pose proof (region_fits st r Hp Hr) as (Hf & _). pose proof (region_frames st r Hp Hr) as (_ & _ & ? & _).
  rewrite region_span_ok by (done || apply Hr). fold (vend r). fold (covers r a). destruct (covers r a) eqn:Hc.
  - intros [= <-]. by exists r.
  - destruct (find_region l a) as [j|]; [|done]. intros [= <-]. destruct (IH j Hl eq_refl) as (r' & Hj & Hr'). by exists r'.
Qed.

Lemma align_down_page a : 0 <= a -> ALIGN_DOWN a mod PAGE_4KIB = 0 /\ page (ALIGN_DOWN a) = page a /\ 0 <= ALIGN_DOWN a <= a.
Proof. intros Ha. unfold ALIGN_DOWN, page, PAGE_4KIB. Z.to_euclidean_division_equations; lia. Qed.

Lemma tables_held st sps x sp t b : mem_inv st sps x -> sp ∈ sps -> root sp = Some t -> pt_own t b <= frame_ref st b.
Proof.
  intros Hinv Hin Hr. pose proof (i_count _ _ _ Hinv b). pose proof (i_x _ _ _ Hinv b).
  pose proof (total_elem (c0_of st) sps sp b Hin) as Hte. unfold holds, own in Hte. rewrite Hr in Hte.
  pose proof (occ_nonneg (c0_of st) (regions sp) b). lia.
Qed.

(** [arch_map_region] of one page. *)
Lemma map_one st sps x sp t v p fl : mem_inv st sps x -> sp ∈ sps -> root sp = Some t -> pt_ok t -> 0 <= v < user_limit ->
  0 <= p < 2 ^ 52 -> has fl PT_HUGE = false ->
  arch_map_region st t 1 v p fl = panic \/
  exists st' t', arch_map_region st t 1 v p fl = ret (st', t') /\ keeps_used st st' /\ pt_ok t' /\
    (forall i, 0 <= pt_own t' i - pt_own t i /\ pt_own t' i - pt_own t i = frame_ref st' i - frame_ref st i) /\
    get_page t' v = Some (PAGE_4KIB, leaf p fl) /\
    forall v', 0 <= v' < user_limit -> page v' <> page v -> get_page t' v' = get_page t v'.
Proof.
  intros Hinv Hin Hr Hok Hv Hp Hh. unfold arch_map_region. change (Z.to_nat 1) with 1%nat. cbn [map_loop].
  rewrite !Z.mul_0_l, !Z.add_0_r. pose proof user_limit_ok. pose proof SIZE_MOD_le.
  rewrite !u64_wrap_small by lia.
  destruct (map_page_ok st t v p fl (i_pmm _ _ _ Hinv) (i_chunk _ _ _ Hinv) Hok) as [->|(st' & t' & -> & Hrest)]; try done.
  - intros i. by eapply tables_held.
  - by left.
  - right. by exists st', t'.
Qed.

Definition env_ok (env : cow_env) : Prop := forall c, copy_stops env = Some c -> 0 <= c <= PAGE_4KIB.

(** Two families of address spaces in which every thread reads the same bytes. *)
Definition same_views (m m' : Z -> Z) (sps sps' : list space) : Prop :=
  length sps' = length sps /\
  forall k s s' v, sps !! k = Some s -> sps' !! k = Some s' -> 0 <= v < user_limit -> load m' s' v = load m s v.

Lemma same_views_refl m sps : same_views m m sps sps.
Proof. split; [done|]. intros k s s' v H1 H2 _. congruence. Qed.

Lemma mem_inv_ext st sps x x' : (forall b, x b = x' b) -> mem_inv st sps x -> mem_inv st sps x'.
Proof.
  intros He [H1 H2 H3 H4 H5 H6]. constructor; try done; intros; rewrite <- ?He; eauto.
Qed.

(** The outcome of a fault. *)
Definition fault_done (w : phys) (sps : list space) (x : Z -> Z) (k : nat) sp (addr : Z) (res : run (bool * phys * space)) : Prop :=
  res = panic \/ exists ok w' sp', res = ret (ok, w', sp') /\ same_chunk (pmm w) (pmm w') /\
    mem_inv (pmm w') (<[k := sp']> sps) x /\ same_views (mem w) (mem w') sps (<[k := sp']> sps) /\
    user_thread sp' = user_thread sp /\
    (forall v b, writes (c0_of (pmm w)) sp v b -> exists b', writes (c0_of (pmm w)) sp' v b') /\
    (if ok then exists f, forall v, page v = page addr -> writes (c0_of (pmm w)) sp' v f else sp' = sp).

Lemma fault_refused w sps x k sp addr : mem_inv (pmm w) sps x -> sps !! k = Some sp ->
  fault_done w sps x k sp addr (ret (false, w, sp)).
Proof.
  intros Hinv Hk. right. exists false, w, sp. split; [done|]. split; [apply same_chunk_refl|].
  rewrite list_insert_id by done. split; [done|]. split; [apply same_views_refl|]. split_and!; try done. intros v b Hwr. by exists b.
Qed.

Lemma inside_one f b : inside f 1 b = (b =? f).
Proof. unfold inside. destruct (Z.leb_spec f b), (Z.ltb_spec b (f + 1)), (Z.eqb_spec b f); cbn [andb]; lia || done. Qed.

(** Giving back a frame that was only just taken. *)
Lemma fault_undone st m sps x k sp addr p f st1 c :
  mem_inv st sps x -> sps !! k = Some sp -> frames_at st p f 1 -> same_chunk st st1 -> total (c0_of st) sps f = 0 ->
  mem_inv st1 sps (fun b => x b + bit (inside f 1 b)) -> 0 <= c <= PAGE_4KIB -> forall old,
  fault_done (mk_phys st m) sps x k sp addr
    (st2 ← lift (free_frames st1 p 1); ret (false, mk_phys st2 (phys_copy m p old c), sp)).
Proof.
  intros Hinv Hk Hf Hs Ht Hinv1 Hc old. pose proof Hf as (Hp & Hf0 & _). rewrite (p_block _ (i_pmm _ _ _ Hinv)) in Hp.
  destruct (inv_release st1 sps _ p f 1 Hinv1 (frames_at_chunk _ _ _ _ _ Hs Hf)) as (st2 & -> & Hs2 & Hinv2).
  { intros b ->. pose proof (i_x _ _ _ Hinv b). cbn. lia. }
  right. exists false, (mk_phys st2 (phys_copy m p old c)), sp. split; [reflexivity|]. cbn [pmm mem].
  rewrite list_insert_id by done. split; [eauto using same_chunk_trans|].
  split; [eapply mem_inv_ext; [|exact Hinv2]; intros b; cbn beta; lia|].
  split; [|split_and!; try done; intros v b Hwr; by exists b].
  split; [done|]. intros k' s s' v Hs1 Hs1' Hv. assert (s' = s) as -> by congruence.
  eapply load_unused; [exact Hinv|exact Hs1|done| |exact Hf0|]; [lia|]. intros a Ha. unfold phys_copy.
  destruct (Z.leb_spec p a), (Z.ltb_spec a (p + c)); cbn [andb]; try done. unfold PAGE_4KIB in *. lia.
Qed.

Lemma cow_flags fl : has fl PT_USER = true -> has fl PT_HUGE = false ->
  let nf := Z.lor (without fl SCHED_REGION_COW) PT_WRITE in
  has nf PT_USER = true /\ has nf PT_HUGE = false /\ has nf PT_WRITE = true.
Proof.
  intros Hu Hh. cbn zeta. unfold PT_USER, PT_HUGE, PT_WRITE, SCHED_REGION_COW in *.
  rewrite !has_lor, !has_without_ne by lia. rewrite Hu, Hh. split_and!; [done|done|by rewrite orb_true_r].
Qed.

(** The last two steps of a fault: the region is split and the page mapped to frame [f]. *)
Lemma fault_commit st m m' sps x k sp t kr r i f nf n1 n2 l :
  mem_inv st sps x -> sps !! k = Some sp -> space_ok st sp t -> regions sp !! kr = Some r -> 0 <= i < pages r ->
  0 <= f < block_count (frames st) -> has nf PT_USER = true -> has nf PT_HUGE = false -> has nf PT_WRITE = true ->
  split_page_region n1 n2 (regions sp) kr i (c0_of st + f * PAGE_4KIB) nf = (true, l) ->
  let pa := vaddr r + i * PAGE_4KIB in let o := fidx (c0_of st) (paddr r) + i in
  total (c0_of st) sps f + x f = 1 -> (f <> o -> 1 <= x f) ->
  (forall off, 0 <= off < PAGE_4KIB -> m' (c0_of st + f * PAGE_4KIB + off) = m (c0_of st + o * PAGE_4KIB + off)) ->
  (forall a, a < c0_of st + f * PAGE_4KIB \/ c0_of st + (f + 1) * PAGE_4KIB <= a -> m' a = m a) ->
  arch_map_region st t 1 pa (c0_of st + f * PAGE_4KIB) nf = panic \/
  exists st' t', arch_map_region st t 1 pa (c0_of st + f * PAGE_4KIB) nf = ret (st', t') /\ same_chunk st st' /\
    let sp' := set_root t' (set_regions l sp) in
    mem_inv st' (<[k := sp']> sps) (fun b => x b + bit (b =? o) - bit (b =? f)) /\
    same_views m m' sps (<[k := sp']> sps) /\ (forall v, page v = page pa -> writes (c0_of st) sp' v f) /\
    (forall v b, writes (c0_of st) sp v b -> exists b', writes (c0_of st) sp' v b').
Proof.
  intros Hinv Hk Hsp Hr Hi Hf Hu Hh Hw Hsplit pa o Hone Hxf Hcopy Hrest.
  assert (Hin : sp ∈ sps) by (by eapply list_elem_of_lookup_2).
  assert (Hrok : region_ok st r) by (eapply space_region; [exact Hsp|by eapply list_elem_of_lookup_2]).
  pose proof (frame_addr st f (i_pmm _ _ _ Hinv) (i_chunk _ _ _ Hinv) Hf) as (Hm & Hp & _).
  assert (Hpa : 0 <= pa < user_limit).
  { pose proof (r_low _ _ Hrok). pose proof (r_high _ _ Hrok). unfold pa, vend, PAGE_4KIB in *. lia. }
  destruct (map_one st sps x sp t pa (c0_of st + f * PAGE_4KIB) nf Hinv Hin (s_root _ _ _ Hsp) (s_pt _ _ _ Hsp) Hpa ltac:(lia) Hh)
    as [->|(st' & t' & -> & Hkeep & Hpt & Hown & Hget & Hoth)]; [by left|].
  right. exists st', t'. split; [done|]. split; [apply Hkeep|]. cbn zeta.
  pose proof (split_spec st n1 n2 (regions sp) kr r i _ nf l (i_pmm _ _ _ Hinv) Hrok Hr Hi Hsplit) as Hl.
  assert (Hmv : moved st sp t kr r i f nf (set_root t' (set_regions l sp)) st' t') by (constructor; done).
  split; [|split; [|split]].
  - by eapply moved_inv.
  - split; [by rewrite length_insert|]. intros k' s1 s2 v Hs1 Hs2 Hv. by apply (moved_load st sps x k sp t kr r i f nf _ st' t' Hinv Hk Hmv m m' Hone Hxf Hcopy Hrest k').
  - intros v Hv. by eapply moved_writable.
  - intros v b Hwr. by eapply moved_keeps.
Qed.

(** A fault never changes what any thread reads; handled, it leaves the page writable. *)
Lemma cow_fault_ok env w sps x k sp addr write : mem_inv (pmm w) sps x -> sps !! k = Some sp -> env_ok env ->
  0 <= addr < user_limit ->
  fault_done w sps x k sp addr (sched_handle_cow_fault env w sp addr write).
Proof.
  intros Hinv Hk Henv Haddr. destruct w as [st m]. cbn [pmm mem] in *. unfold sched_handle_cow_fault.
  destruct (negb (user_thread sp) || negb write); [by apply (fault_refused (mk_phys st m) sps x)|].
  assert (Hin : sp ∈ sps) by (by eapply list_elem_of_lookup_2).
  destruct (align_down_page addr ltac:(lia)) as (Hal & Hpg & Hle). set (pa := ALIGN_DOWN addr) in *.
  pose proof (proj1 (Forall_forall _ _) (i_spaces _ _ _ Hinv) sp Hin) as [[_ Hd]|[t Hsp]].
  { unfold find_user_region. rewrite Hd. by apply (fault_refused (mk_phys st m) sps x). }
  destruct (find_user_region sp pa) as [kr|] eqn:Hfind; [|by apply (fault_refused (mk_phys st m) sps x)].
  destruct (find_region_spec st (regions sp) pa kr (i_pmm _ _ _ Hinv) (s_regs _ _ _ Hsp) Hfind) as (r & Hr & Hc).
  rewrite Hr. cbn [lift]. unfold mbind at 1. cbn [run_bind ret].
  destruct (has (flags r) SCHED_REGION_COW) eqn:Hcow; cbn [negb]; [|by apply (fault_refused (mk_phys st m) sps x)].
  rewrite (s_root _ _ _ Hsp). assert (Hrin : r ∈ regions sp) by (by eapply list_elem_of_lookup_2).
  pose proof (space_region _ _ _ _ Hsp Hrin) as Hrok.
  destruct (s_map _ _ _ Hsp r pa Hrin Hc) as (e & He & Hent). rewrite He, Z.eqb_refl. cbn [negb].
  destruct (has e PT_WRITE); [by apply (fault_refused (mk_phys st m) sps x)|].
  rewrite (entry_frame st r pa e (i_pmm _ _ _ Hinv) Hrok Hent).
  pose proof (frame_range st r pa (i_pmm _ _ _ Hinv) Hrok Hc) as Hor. set (o := frame (c0_of st) r pa) in *.
  pose proof (frame_addr st o (i_pmm _ _ _ Hinv) (i_chunk _ _ _ Hinv) Hor) as (Hom & Hop & _ & Hoat & _).
  cbn [pmm mem]. rewrite (refcount_ok st _ o 1 (i_pmm _ _ _ Hinv) Hoat). cbn [lift]. unfold mbind at 1. cbn [run_bind ret].
  unfold pmm_ref_ready. rewrite (p_ready _ (i_pmm _ _ _ Hinv)). cbn [negb].
  set (nf := Z.lor (without (flags r) SCHED_REGION_COW) PT_WRITE).
  destruct (cow_flags (flags r) (r_user _ _ Hrok) (r_huge _ _ Hrok)) as (Hu & Hh & Hw). fold nf in Hu, Hh, Hw.
  pose proof Hc as Hcb. apply covers_bounds in Hcb. pose proof (r_low _ _ Hrok). pose proof (r_align _ _ Hrok) as Hra.
  rewrite wrap_small by (pose proof (region_fits st r (i_pmm _ _ _ Hinv) Hrok); unfold vend, SIZE_MAX in *; lia).
  set (i := (pa - vaddr r) / PAGE_4KIB).
  assert (Hi : 0 <= i < pages r /\ pa = vaddr r + i * PAGE_4KIB).
  { unfold i, vend, PAGE_4KIB in *. Z.to_euclidean_division_equations; lia. }
  destruct Hi as [Hi Hpai]. assert (Ho : o = fidx (c0_of st) (paddr r) + i) by done.
  pose proof (uses_occ (c0_of st) _ _ r Hrin (uses_frame (c0_of st) r pa Hc)) as Hocc. fold o in Hocc.
  pose proof (total_elem (c0_of st) sps sp o Hin) as Hto. unfold holds in Hto. pose proof (own_nonneg sp o) as Hown0.
  pose proof (i_count _ _ _ Hinv o) as Hcnt. pose proof (i_x _ _ _ Hinv o) as Hxo.
  destruct (Z.ltb_spec 1 (frame_ref st o)) as [Href|Href].
  - (* the frame is shared: copy it *)
    unfold alloc_frames_user. destruct (alloc_ok st 1 (user_high env) (i_pmm _ _ _ Hinv)) as (p & st1 & Hal1 & Hout);
      [pose proof SIZE_MOD_ge; lia|]. rewrite Hal1. unfold mbind at 1. cbn [run_bind ret].
    destruct (Z.eqb_spec p 0) as [->|Hp0].
    { destruct Hout as [(_ & -> & _)|(b & Hb & _)]; [by apply (fault_refused (mk_phys st m) sps x)|].
      by destruct (frame_index st 0 b 1 (i_pmm _ _ _ Hinv) Hb) as (_ & [] & _). }
    destruct (inv_alloc st sps x 1 (user_high env) p st1 Hinv) as (f & Hf & Hs1 & Hfx & Hz & Hinv1);
      [pose proof SIZE_MOD_ge; lia|done|done|].
    destruct (Hz f) as [Htf Hxf]; [unfold inside; by test_lia|].
    destruct (copy_stops env) as [c|] eqn:Hcs.
    { apply (fault_undone st m sps x k sp addr p f st1 c Hinv Hk Hf Hs1 Htf Hinv1). by apply Henv. }
    destruct (split_page_region _ _ _ _ _ _ _) as [ok l] eqn:Hsplit. destruct ok; cbn [negb].
    2:{ apply (fault_undone st m sps x k sp addr p f st1 PAGE_4KIB Hinv Hk Hf Hs1 Htf Hinv1). done. }
    pose proof Hf as (Hpe & Hf0 & _ & Hf1). rewrite (p_block _ (i_pmm _ _ _ Hinv)) in Hpe. pose proof Hs1 as (Hc1 & _ & _ & Hbc & _).
    assert (Hfo : f <> o) by (intros ->; lia).
    destruct (fault_commit st1 m (phys_copy m p (c0_of st + o * PAGE_4KIB) PAGE_4KIB) sps _ k sp t kr r i f nf (node1 env) (node2 env) l
                Hinv1 Hk (space_ok_chunk _ _ _ _ Hs1 Hsp) Hr Hi) as [Hmap|(st2 & t2 & Hmap & Hs2 & Hinv2 & Hview & Hwr & Hkw)];
      rewrite ?Hc1, ?Hbc, <- ?Hpe, <- ?Hpai, <- ?Ho in *; try done; try lia.
    + unfold inside, bit. test_lia. lia.
    + intros _. unfold inside, bit. test_lia. lia.
    + intros off Hoff. unfold phys_copy. test_lia. f_equal. lia.
    + intros a Ha. unfold phys_copy. destruct (Z.leb_spec p a), (Z.ltb_spec a (p + PAGE_4KIB)); cbn [andb]; try done. unfold PAGE_4KIB in *; lia.
    + left. rewrite Hmap. done.
    + rewrite Hmap. unfold mbind at 1. cbn [run_bind ret]. cbn zeta in Hinv2. pose proof (same_chunk_trans _ _ _ Hs1 Hs2) as Hs12.
      edestruct (inv_release st2 _ _ (c0_of st + o * PAGE_4KIB) o 1 Hinv2) as (st3 & -> & Hs3 & Hinv3).
      { by apply (frames_at_chunk st). }
      { intros b Hb. assert (b = o) as -> by (unfold inside in Hb; bool_facts; lia). unfold bit, inside. test_lia.
        destruct (Z.leb_spec f o), (Z.ltb_spec o (f + 1)); cbn [andb]; lia. }
      right. eexists true, _, _. split; [reflexivity|]. cbn [pmm mem]. split; [eauto using same_chunk_trans|].
      split; [eapply mem_inv_ext; [|exact Hinv3]; intros b; cbn beta; rewrite !inside_one; lia|]. split; [exact Hview|]. split; [done|]. split; [exact Hkw|]. exists f. intros v Hv. apply Hwr. congruence.
  - (* the last user keeps it *)
    assert (Hone : total (c0_of st) sps o + x o = 1) by lia.
    destruct (split_page_region _ _ _ _ _ _ _) as [ok l] eqn:Hsplit. destruct ok; cbn [negb]; [|by apply (fault_refused (mk_phys st m) sps x)].
    destruct (fault_commit st m m sps x k sp t kr r i o nf (node1 env) (node2 env) l Hinv Hk Hsp Hr Hi)
      as [Hmap|(st2 & t2 & Hmap & Hs2 & Hinv2 & Hview & Hwr & Hkw)]; rewrite <- ?Hpai, <- ?Ho in *; try done.
    + left. rewrite Hmap. done.
    + rewrite Hmap. right. eexists true, _, _. split; [reflexivity|]. cbn [pmm mem]. split; [done|].
      split; [eapply mem_inv_ext; [|exact Hinv2]; intros b; cbn beta; lia|]. split; [exact Hview|]. split; [done|]. split; [exact Hkw|]. exists o. intros v Hv. apply Hwr. congruence.
Qed.

(** ** Sharing a region *)

(** Two regions with the same pages and frames. *)
Definition same_place r r' : Prop := vaddr r' = vaddr r /\ paddr r' = paddr r /\ pages r' = pages r.

Lemma same_place_facts r r' c0 v b : same_place r r' ->
  covers r' v = covers r v /\ uses c0 r' b = uses c0 r b /\ frame c0 r' v = frame c0 r v.
Proof. unfold covers, vend, uses, frame. by intros (-> & -> & ->). Qed.

Lemma cov_insert l j r r' v : l !! j = Some r -> same_place r r' -> cov (<[j := r']> l) v = cov l v.
Proof.
  intros Hj Hs. unfold cov. rewrite (sumz_insert _ l j r) by done. cbn beta.
  destruct (same_place_facts r r' 0 v 0 Hs) as (-> & _). lia.
Qed.

Lemma occ_insert c0 l j r r' b : l !! j = Some r -> same_place r r' -> occ c0 (<[j := r']> l) b = occ c0 l b.
Proof.
  intros Hj Hs. unfold occ. rewrite (sumz_insert _ l j r) by done. cbn beta.
  destruct (same_place_facts r r' c0 0 b Hs) as (_ & -> & _). lia.
Qed.

(** A space that holds what another held and may write no more can take its place. *)
Lemma inv_replace st sps x k sp sp' t' : mem_inv st sps x -> sps !! k = Some sp -> space_ok st sp' t' ->
  (forall b, holds (c0_of st) sp' b = holds (c0_of st) sp b) ->
  (forall v b, writes (c0_of st) sp' v b -> writes (c0_of st) sp v b) -> mem_inv st (<[k := sp']> sps) x.
Proof.
  intros Hinv Hk Hok Hh Hw. assert (Ht : forall b, total (c0_of st) (<[k := sp']> sps) b = total (c0_of st) sps b).
  { intros b. rewrite (total_insert _ sps k sp sp' b Hk), Hh. lia. }
  destruct Hinv as [H1 H2 H3 H4 H5 H6]. constructor; try done.
  - apply Forall_insert; [done|]. right. by exists t'.
  - intros b. by rewrite Ht.
  - intros y v b Hy Hwr. rewrite Ht. apply list_elem_of_lookup in Hy as [j Hj]. destruct (decide (j = k)) as [->|Hne].
    + rewrite list_lookup_insert_eq in Hj by (by eapply lookup_lt_Some). injection Hj as <-.
      apply (H6 sp v); [by eapply list_elem_of_lookup_2|by apply Hw].
    + rewrite list_lookup_insert_ne in Hj by done. apply (H6 y v); [by eapply list_elem_of_lookup_2|done].
Qed.

(** Marking a region copy on write. *)
Definition cow_of r : sched_user_region_t :=
  mk_region (vaddr r) (paddr r) (pages r)
    (if has (flags r) PT_WRITE then Z.lor (flags r) SCHED_REGION_COW else flags r).

Lemma cow_of_flags r : has (flags (cow_of r)) PT_WRITE = has (flags r) PT_WRITE /\
  has (flags (cow_of r)) PT_USER = has (flags r) PT_USER /\ has (flags (cow_of r)) PT_HUGE = has (flags r) PT_HUGE /\
  (has (flags r) PT_WRITE = true -> has (flags (cow_of r)) SCHED_REGION_COW = true) /\
  (has (flags r) SCHED_REGION_COW = true -> has (flags (cow_of r)) SCHED_REGION_COW = true).
Proof.
  cbn [cow_of flags]. destruct (has (flags r) PT_WRITE) eqn:E; [|by rewrite E]. unfold PT_WRITE, PT_USER, PT_HUGE, SCHED_REGION_COW in *.
  rewrite !has_lor by lia. rewrite E. split_and!; try done; by rewrite ?orb_false_r, ?orb_true_r.
Qed.

Lemma cow_of_ok st r : region_ok st r -> region_ok st (cow_of r).
Proof.
  intros [Ha Hl Hh Hf Hu Hg]. destruct (cow_of_flags r) as (_ & H2 & H3 & _). constructor; try done; [by rewrite H2|by rewrite H3].
Qed.

Lemma entry_cow_of r v e : entry_ok r v e -> entry_ok (cow_of r) v e.
Proof.
  intros (H1 & H2 & H3 & H4 & H5). destruct (cow_of_flags r) as (Hw & _ & _ & _ & Hc). unfold entry_ok. rewrite Hw.
  split_and!; try done. intros Hx. destruct (H5 Hx); auto.
Qed.

Lemma reflag_ok st sp t j r : space_ok st sp t -> regions sp !! j = Some r ->
  space_ok st (set_regions (<[j := cow_of r]> (regions sp)) sp) t.
Proof.
  intros [Hr Hp Hg Hd Hm Ho] Hj. assert (Hpl : same_place r (cow_of r)) by done.
  assert (Hlt : (j < length (regions sp))%nat) by (by eapply lookup_lt_Some).
  assert (Hrin : r ∈ regions sp) by (by eapply list_elem_of_lookup_2). constructor; cbn [root regions set_regions]; try done.
  - apply Forall_insert; [done|]. apply cow_of_ok. exact (proj1 (Forall_forall _ _) Hg r Hrin).
  - intros v. by rewrite (cov_insert _ j r).
  - intros y v Hy Hc. apply list_elem_of_lookup in Hy as [i Hi]. destruct (decide (i = j)) as [->|Hne].
    + rewrite list_lookup_insert_eq in Hi by done. injection Hi as <-.
      destruct (Hm r v Hrin) as (e & He & Hent); [by rewrite <- (proj1 (same_place_facts r (cow_of r) 0 v 0 Hpl))|].
      exists e. split; [done|by apply entry_cow_of].
    + rewrite list_lookup_insert_ne in Hi by done. apply Hm; [by eapply list_elem_of_lookup_2|done].
  - intros v y Hv Hy. apply cov_pos. rewrite (cov_insert _ j r) by done.
    destruct (Ho v y Hv Hy) as (r0 & Hr0 & Hc0). by eapply cov_elem.
Qed.

Lemma reflag_inv st sps x k sp t j r : mem_inv st sps x -> sps !! k = Some sp -> space_ok st sp t -> regions sp !! j = Some r ->
  mem_inv st (<[k := set_regions (<[j := cow_of r]> (regions sp)) sp]> sps) x.
Proof.
  intros Hinv Hk Hsp Hj. assert (Hpl : same_place r (cow_of r)) by done.
  eapply inv_replace; [exact Hinv|exact Hk|by eapply reflag_ok| |].
  - intros b. unfold holds, own. cbn [regions root set_regions]. by rewrite (occ_insert _ _ j r).
  - intros v b (y & e & t1 & Hr & Hy & Hc & He & Hw & ->). cbn [regions root set_regions] in *.
    apply list_elem_of_lookup in Hy as [i Hi]. destruct (decide (i = j)) as [->|Hne].
    + rewrite list_lookup_insert_eq in Hi by (by eapply lookup_lt_Some). injection Hi as <-.
      destruct (same_place_facts r (cow_of r) (c0_of st) v 0 Hpl) as (Hcc & _ & Hff). rewrite Hff. rewrite Hcc in Hc.
      exists r, e, t1. split_and!; try done. by eapply list_elem_of_lookup_2.
    + rewrite list_lookup_insert_ne in Hi by done. exists y, e, t1. split_and!; try done. by eapply list_elem_of_lookup_2.
Qed.

(** ** Mapping and write-protecting a run of pages *)

Definition in_pages (va i n v : Z) : bool := (va + i * PAGE_4KIB <=? v) && (v <? va + (i + n) * PAGE_4KIB).

Lemma in_pages_covers r v : in_pages (vaddr r) 0 (pages r) v = covers r v.
Proof. unfold in_pages, covers, vend. by rewrite Z.mul_0_l, !Z.add_0_r, Z.add_0_l. Qed.

Lemma in_pages_step va i n v : va mod PAGE_4KIB = 0 -> 0 <= n ->
  in_pages va i (n + 1) v = (page v =? page (va + i * PAGE_4KIB)) || in_pages va (i + 1) n v.
Proof.
  intros Ha Hn. unfold in_pages, page, PAGE_4KIB in *.
  repeat match goal with |- context [?a <=? ?b] => destruct (Z.leb_spec a b) | |- context [?a <? ?b] => destruct (Z.ltb_spec a b)
    | |- context [?a =? ?b] => destruct (Z.eqb_spec a b) end; cbn [andb orb]; try done; exfalso;
    Z.to_euclidean_division_equations; lia.
Qed.

Lemma map_loop_ok n i st t va pa fl : pmm_inv st -> chunk_ok st -> pt_ok t -> (forall b, pt_own t b <= frame_ref st b) ->
  va mod PAGE_4KIB = 0 -> 0 <= va -> 0 <= i -> va + (i + Z.of_nat n) * PAGE_4KIB <= user_limit ->
  0 <= pa -> pa + (i + Z.of_nat n) * PAGE_4KIB <= 2 ^ 52 -> has fl PT_HUGE = false ->
  map_loop n i st t va pa fl = panic \/
  exists st' t', map_loop n i st t va pa fl = ret (st', t') /\ keeps_used st st' /\ pt_ok t' /\
    (forall b, 0 <= pt_own t' b - pt_own t b /\ pt_own t' b - pt_own t b = frame_ref st' b - frame_ref st b) /\
    forall v, 0 <= v < user_limit -> get_page t' v =
      if in_pages va i (Z.of_nat n) v then Some (PAGE_4KIB, leaf (pa + (v - va) / PAGE_4KIB * PAGE_4KIB) fl) else get_page t v.
Proof.
  revert i st t. induction n as [|n IH]; intros i st t Hp Hc Hpt Hown Ha Hva Hi Hlim Hpa Hpl Hh.
  { right. exists st, t. split; [done|]. split; [by apply keeps_used_refl|]. split; [done|]. split; [intros; lia|].
    intros v _. unfold in_pages. change (Z.of_nat 0) with 0. rewrite Z.add_0_r.
    destruct (Z.leb_spec (va + i * PAGE_4KIB) v); [|done]. cbn [andb]. by rewrite (proj2 (Z.ltb_ge _ _)) by lia. }
  cbn [map_loop]. rewrite Nat2Z.inj_succ, <- Z.add_1_r in *. pose proof user_limit_ok. pose proof SIZE_MOD_le.
  rewrite !u64_wrap_small by (unfold PAGE_4KIB in *; lia).
  destruct (map_page_ok st t (va + i * PAGE_4KIB) (pa + i * PAGE_4KIB) fl Hp Hc Hpt Hown) as [->|(st1 & t1 & -> & Hk1 & Hpt1 & Ho1 & Hg1 & Hr1)];
    [unfold PAGE_4KIB in *; lia|done|by left|]. unfold mbind at 1. cbn [run_bind ret].
  destruct (IH (i + 1) st1 t1) as [Hpan|(st2 & t2 & Heq & Hk2 & Hpt2 & Ho2 & Hg2)]; try done; try lia.
  - apply Hk1.
  - eapply chunk_ok_same; [apply Hk1|done].
  - intros b. specialize (Ho1 b). specialize (Hown b). lia.
  - unfold mbind. cbn [run_bind ret]. rewrite Hpan. by left.
  - unfold mbind. cbn [run_bind ret]. rewrite Heq. right. exists st2, t2. split; [done|]. split; [by eapply keeps_used_trans|]. split; [done|].
    split; [intros b; specialize (Ho1 b); specialize (Ho2 b); lia|].
    intros v Hv. rewrite Hg2 by done. rewrite (in_pages_step va i (Z.of_nat n) v) by (done || lia).
    destruct (in_pages va (i + 1) (Z.of_nat n) v); [by rewrite orb_true_r|]. rewrite orb_false_r.
    destruct (Z.eqb_spec (page v) (page (va + i * PAGE_4KIB))) as [Hpg|Hpg]; [|by apply Hr1].
    rewrite (get_page_same t1 v _ Hpg), Hg1. do 3 f_equal.
    unfold page, PAGE_4KIB in *. Z.to_euclidean_division_equations; lia.
Qed.

(** What [sched_mark_cow] leaves of an entry. *)
Definition protect (e : Z) : Z := if has e PT_WRITE then without e PT_WRITE else e.

Lemma protect_facts e : has (protect e) PT_WRITE = false /\ has (protect e) PT_PRESENT = has e PT_PRESENT /\
  has (protect e) PT_USER = has e PT_USER /\ page_get_paddr (protect e) = page_get_paddr e.
Proof.
  unfold protect. destruct (has e PT_WRITE) eqn:E; [|done]. unfold PT_WRITE, PT_PRESENT, PT_USER.
  rewrite has_without, !has_without_ne, without_paddr by lia. done.
Qed.

Lemma mark_loop_ok n i t va u : pt_ok t -> va mod PAGE_4KIB = 0 -> 0 <= va -> 0 <= i ->
  va + (i + Z.of_nat n) * PAGE_4KIB <= user_limit ->
  (forall v, in_pages va i (Z.of_nat n) v = true -> exists e, get_page t v = Some (PAGE_4KIB, e) /\ has e PT_PRESENT = true) ->
  exists t' u', mark_loop n i va t u = (t', u') /\ pt_ok t' /\ (forall b, pt_own t' b = pt_own t b) /\
    (forall v, 0 <= v < user_limit -> get_page t' v =
      if in_pages va i (Z.of_nat n) v then (fun x => (x.1, protect x.2)) <$> get_page t v else get_page t v).
Proof.
  revert i t u. induction n as [|n IH]; intros i t u Hpt Ha Hva Hi Hlim Hmap; cbn [mark_loop].
  { exists t, u. split_and!; try done. intros v _. unfold in_pages. change (Z.of_nat 0) with 0. rewrite Z.add_0_r.
    destruct (Z.leb_spec (va + i * PAGE_4KIB) v); [|done]. cbn [andb]. by rewrite (proj2 (Z.ltb_ge _ _)) by lia. }
  rewrite Nat2Z.inj_succ, <- Z.add_1_r in *. pose proof user_limit_ok.
  rewrite (wrap_small (i * PAGE_4KIB)), wrap_small by (unfold PAGE_4KIB in *; lia).
  set (p := va + i * PAGE_4KIB). assert (Hp : 0 <= p < user_limit) by (unfold p, PAGE_4KIB in *; lia).
  assert (Hpage : page p = page (va + i * PAGE_4KIB)) by done.
  destruct (Hmap p) as (e & He & Hpr).
  { rewrite in_pages_step by (done || lia). by rewrite Hpage, Z.eqb_refl. }
  rewrite He, Z.eqb_refl. cbn [negb].
  (* one page *)
  assert (exists t1 u1, (if has e PT_WRITE then mark_loop n (i + 1) va (set_entry t p (without e PT_WRITE)) true
                         else mark_loop n (i + 1) va t u) = mark_loop n (i + 1) va t1 u1 /\ pt_ok t1 /\
            (forall b, pt_own t1 b = pt_own t b) /\ get_page t1 p = Some (PAGE_4KIB, protect e) /\
            forall v, 0 <= v < user_limit -> page v <> page p -> get_page t1 v = get_page t v) as (t1 & u1 & -> & Hpt1 & Ho1 & Hg1 & Hr1).
  { destruct (protect_facts e) as (_ & Hpp & _). unfold protect in *. destruct (has e PT_WRITE).
    - destruct (set_entry_ok t p e (without e PT_WRITE) Hpt Hp He) as (Hq1 & Hq2 & Hq3 & Hq4). rewrite Hpp, Hpr in Hq3.
      exists (set_entry t p (without e PT_WRITE)), true. done.
    - exists t, u. done. }
  destruct (IH (i + 1) t1 u1) as (t2 & u2 & -> & Hpt2 & Ho2 & Hg2); try done; try lia.
  { intros v Hv. assert (Hin : in_pages va i (Z.of_nat n + 1) v = true) by (rewrite in_pages_step, Hv by (done || lia); apply orb_true_r).
    assert (Hne : page v <> page p) by (unfold in_pages, page, p, PAGE_4KIB in *; bool_facts; Z.to_euclidean_division_equations; lia).
    rewrite Hr1; [by apply Hmap| |done]. unfold in_pages, PAGE_4KIB in *. bool_facts. lia. }
  exists t2, u2. split_and!; try done; [intros b; by rewrite Ho2|]. intros v Hv. rewrite Hg2 by done.
  rewrite (in_pages_step va i (Z.of_nat n) v) by (done || lia). fold p.
  destruct (Z.eqb_spec (page v) (page p)) as [Hpg|Hpg]; cbn [orb].
  - assert (in_pages va (i + 1) (Z.of_nat n) v = false) as ->.
    { destruct (in_pages _ _ _ v) eqn:E; [|done]. exfalso. unfold in_pages, page, p, PAGE_4KIB in *. bool_facts.
      Z.to_euclidean_division_equations; lia. }
    rewrite (get_page_same t1 v p Hpg), Hg1, (get_page_same t v p Hpg), He. done.
  - by rewrite Hr1.
Qed.
End Proofs.
End CowMemory.
