(* ===== verification/ForkMemory.v ===== *)
(** * Forking, exiting, and the memory of a process

    One round of the loop of [fork_user_space] shares a region between parent and child; the child is
    built beside the other address spaces, its holds counted outside of them until it is complete. *)

From S2P Require Import Prelude Errno Memory Outcome Bitmap BitmapAlloc Pmm Paging UserMem CowMemory.
From stdpp Require Import list relations.
Import Bitmap BitmapAlloc Pmm Paging UserMem CowMemory.
Open Scope Z_scope.

Module ForkMemory.
Section Proofs.
Context `{PT : PageTables}.
Implicit Types (sp : space) (r : sched_user_region_t) (st : pmm_state_t) (t : pt) (v b : Z).

Notation c0_of st := (chunk_start (frames st)).

(** ** Write-protecting a region *)

Lemma uses_page c0 r b : uses c0 r b = true -> exists v, covers r v = true /\ frame c0 r v = b.
Proof.
  unfold uses, inside. intros Hu. bool_facts. exists (vaddr r + (b - fidx c0 (paddr r)) * PAGE_4KIB). split.
  - apply covers_bounds. unfold vend, PAGE_4KIB. lia.
  - unfold frame. replace (vaddr r + (b - fidx c0 (paddr r)) * PAGE_4KIB - vaddr r) with ((b - fidx c0 (paddr r)) * PAGE_4KIB) by lia.
    rewrite Z.div_mul by done. lia.
Qed.

(** Who may write a frame of a region is the thread the region belongs to, through that region. *)
Lemma writes_through st sps x k sp t r y v b : mem_inv st sps x -> sps !! k = Some sp -> space_ok st sp t -> r ∈ regions sp ->
  uses (c0_of st) r b = true -> y ∈ sps -> writes (c0_of st) y v b -> sps !! k = Some y /\ covers r v = true.
Proof.
  intros Hinv Hk Hsp Hr Hu Hy Hw. pose proof (i_writes _ _ _ Hinv y v b Hy Hw) as Hone. pose proof (i_x _ _ _ Hinv b) as Hx.
  destruct (uses_page _ r b Hu) as (v0 & Hc0 & Hf0). pose proof Hw as (r' & e & t' & Hroot & Hr' & Hc' & _ & _ & Hb).
  pose proof (proj1 (Forall_forall _ _) (i_spaces _ _ _ Hinv) y Hy) as [[Hd _]|[t1 Hyok]]; [congruence|].
  apply list_elem_of_lookup in Hy as [j Hj].
  destruct (two_users st sps x k j sp y t t1 r r' v0 v Hinv Hk Hj Hsp Hyok Hr Hr' Hc0 Hc') as [<- Hpg]; [congruence|rewrite Hf0; lia|].
  split; [done|]. apply (covers_page r v0); [|done|done]. by apply (space_region st sp t).
Qed.

Lemma unwrite_ok st sps x k sp t r : mem_inv st sps x -> sps !! k = Some sp -> space_ok st sp t -> r ∈ regions sp ->
  (has (flags r) PT_WRITE = true -> has (flags r) SCHED_REGION_COW = true) ->
  exists u sp' t', sched_mark_cow sp r = (u, sp') /\ space_ok st sp' t' /\ regions sp' = regions sp /\
    user_thread sp' = user_thread sp /\ mem_inv st (<[k := sp']> sps) x /\
    (forall v b, writes (c0_of st) sp' v b -> writes (c0_of st) sp v b /\ covers r v = false) /\
    forall m v, 0 <= v < user_limit -> load m sp' v = load m sp v.
Proof.
  intros Hinv Hk Hsp Hr Hcow. pose proof (space_region _ _ _ _ Hsp Hr) as Hrok. pose proof (i_pmm _ _ _ Hinv) as Hp.
  pose proof (region_frames st r Hp Hrok) as (_ & _ & Hpg & _). unfold sched_mark_cow.
  rewrite (proj2 (Z.eqb_neq (pages r) 0)) by lia. rewrite (bounds_ok st) by done. cbn [negb]. rewrite (s_root _ _ _ Hsp).
  destruct (mark_loop_ok (Z.to_nat (pages r)) 0 t (vaddr r) false) as (t' & u & -> & Hpt & Hown & Hget).
  { apply Hsp. } { apply Hrok. } { apply Hrok. } { done. }
  { rewrite Z2Nat.id by lia. apply Hrok. }
  { rewrite Z2Nat.id by lia. intros v Hv. rewrite in_pages_covers in Hv.
    destruct (s_map _ _ _ Hsp r v Hr Hv) as (e & He & Hok). exists e. split; [done|apply Hok]. }
  rewrite Z2Nat.id in Hget by lia.
  assert (Hg : forall v, 0 <= v < user_limit -> get_page t' v = if covers r v then (fun x => (x.1, protect x.2)) <$> get_page t v else get_page t v).
  { intros v Hv. rewrite Hget by done. by rewrite in_pages_covers. }
  assert (Hlim : forall y v, y ∈ regions sp -> covers y v = true -> 0 <= v < user_limit).
  { intros y v Hy Hc. eapply covers_limit; [|exact Hc]. by apply (space_region st sp t). }
  exists u, (set_root t' sp), t'. split; [done|].
  assert (Hok : space_ok st (set_root t' sp) t').
  { destruct Hsp as [H1 H2 H3 H4 H5 H6]. constructor; cbn [root regions set_root]; try done.
    - intros y v Hy Hc. destruct (H5 y v Hy Hc) as (e & He & Hent). rewrite Hg by eauto. rewrite He.
      destruct (covers r v) eqn:Hcr; [|by exists e]. cbn [fmap option_fmap option_map fst snd]. exists (protect e). split; [done|].
      assert (y = r) as ->.
      { apply list_elem_of_lookup in Hy as [i1 Hi1], Hr as [i2 Hi2].
        assert (i1 = i2) as <- by (by eapply cov_unique). congruence. }
      destruct (protect_facts e) as (Hw & Hpr & Hus & Hpa). destruct Hent as (E1 & E2 & E3 & E4 & E5).
      unfold entry_ok. rewrite Hpr, Hus, Hpa, Hw. split_and!; try done. intros Hx. right. by apply Hcow.
    - intros v y Hv Hy. rewrite Hg in Hy by done. destruct (get_page t v) as [z|] eqn:Ez; [by eapply H6|].
      by destruct (covers r v). }
  assert (Hwr : forall v b, writes (c0_of st) (set_root t' sp) v b -> writes (c0_of st) sp v b /\ covers r v = false).
  { intros v b (y & e & t1 & Hroot & Hy & Hc & He & Hw & ->). cbn [root regions set_root] in *. injection Hroot as <-.
    rewrite Hg in He by eauto. destruct (covers r v) eqn:Hcr.
    - exfalso. destruct (get_page t v) as [[s e0]|]; [|done]. cbn in He. injection He as _ <-.
      by rewrite (proj1 (protect_facts e0)) in Hw.
    - split; [|done]. exists y, e, t. split_and!; try done. apply Hsp. }
  split_and!; try done.
  - eapply inv_replace; [exact Hinv|exact Hk|exact Hok| |].
    + intros b. unfold holds, own. cbn [root regions set_root]. rewrite (s_root _ _ _ Hsp). by rewrite Hown.
    + intros v b Hw. by apply Hwr.
  - intros m v Hv. unfold load. cbn [root set_root]. rewrite (s_root _ _ _ Hsp), Hg by done. destruct (covers r v); [|done].
    destruct (get_page t v) as [[s e]|]; [|done]. cbn [fmap option_fmap option_map fst snd].
    destruct (protect_facts e) as (_ & -> & -> & ->). done.
Qed.

(** ** Building the child *)

(** The child of region [r] of the parent: its tables after the pages are mapped without write access. *)
Definition map_flags_of r : Z := if has (flags r) PT_WRITE then without (flags (cow_of r)) PT_WRITE else flags (cow_of r).

Lemma map_flags_facts r : has (flags r) PT_USER = true -> has (flags r) PT_HUGE = false ->
  has (map_flags_of r) PT_WRITE = false /\ has (map_flags_of r) PT_USER = true /\ has (map_flags_of r) PT_HUGE = false.
Proof.
  intros Hu Hh. destruct (cow_of_flags r) as (Hw & Hu' & Hh' & _). unfold map_flags_of. rewrite Hu in Hu'. rewrite Hh in Hh'.
  destruct (has (flags r) PT_WRITE); unfold PT_WRITE, PT_USER, PT_HUGE in *; [|done].
  rewrite has_without, !has_without_ne by lia. done.
Qed.

Lemma mem_add_fields sp n : regions (sched_user_mem_add sp n) = regions sp /\ root (sched_user_mem_add sp n) = root sp /\
  user_thread (sched_user_mem_add sp n) = user_thread sp.
Proof. unfold sched_user_mem_add. by repeat case_test. Qed.

(** The leaf [map_region] writes for a page of a region. *)
Lemma leaf_of_page st r v mf : pmm_inv st -> chunk_ok st -> region_ok st r -> covers r v = true ->
  let e := leaf (paddr r + (v - vaddr r) / PAGE_4KIB * PAGE_4KIB) mf in
  has e PT_PRESENT = true /\ has e PT_USER = has mf PT_USER /\ has e PT_WRITE = has mf PT_WRITE /\
  page_get_paddr e = paddr r + (v - vaddr r) / PAGE_4KIB * PAGE_4KIB.
Proof.
  intros Hp Hck Hr Hc. pose proof (frame_addr st _ Hp Hck (frame_range st r v Hp Hr Hc)) as (Hm & Hpa & _).
  assert (Heq : c0_of st + frame (c0_of st) r v * PAGE_4KIB = paddr r + (v - vaddr r) / PAGE_4KIB * PAGE_4KIB).
  { destruct (region_frames st r Hp Hr) as (E & _). rewrite E at 1. unfold frame. lia. }
  rewrite Heq in Hm, Hpa. apply leaf_bits; [done|lia].
Qed.

(** A region joins a space: its pages are mapped to its frames with the flags [mf]. *)
Lemma region_added st st' sp sp' t t' r mf : pmm_inv st -> chunk_ok st -> space_ok st sp t -> region_ok st r ->
  (forall v, covers r v = true -> cov (regions sp) v = 0) -> same_chunk st st' -> pt_ok t' ->
  has mf PT_USER = true -> (has mf PT_WRITE = true -> has (flags r) PT_WRITE = true) ->
  (has (flags r) PT_WRITE = true -> has mf PT_WRITE = true \/ has (flags r) SCHED_REGION_COW = true) ->
  (forall v, 0 <= v < user_limit -> get_page t' v =
     if covers r v then Some (PAGE_4KIB, leaf (paddr r + (v - vaddr r) / PAGE_4KIB * PAGE_4KIB) mf) else get_page t v) ->
  root sp' = Some t' -> regions sp' = r :: regions sp -> space_ok st' sp' t'.
Proof.
  intros Hp Hck [C1 C2 C3 C4 C5 C6] Hr Hdis Hs Hpt Fu Fw Fc Hget Hroot Hregs. apply (space_ok_chunk st st' _ _ Hs).
  constructor; rewrite ?Hregs; try done.
  - constructor; done.
  - intros v. unfold cov. rewrite sumz_cons. fold (cov (regions sp) v). destruct (covers r v) eqn:Hc; cbn [bit].
    + rewrite Hdis by done. lia.
    + apply C4.
  - intros y v Hy Hc. apply elem_of_cons in Hy as [->|Hy].
    + rewrite Hget, Hc by (by apply (covers_limit st r)). eexists. split; [reflexivity|].
      destruct (leaf_of_page st r v mf Hp Hck Hr Hc) as (B1 & B2 & B3 & B4). unfold entry_ok. rewrite B1, B2, B3, B4. done.
    + destruct (C5 y v Hy Hc) as (e & He & Hent). exists e. split; [|done].
      assert (Hlim : 0 <= v < user_limit) by (apply (covers_limit st y); [by eapply Forall_forall in C3|done]).
      rewrite Hget by done. destruct (covers r v) eqn:Hcr; [|done]. exfalso.
      pose proof (cov_elem _ v y Hy Hc). rewrite Hdis in * by done. lia.
  - intros v y Hv Hy. rewrite Hget in Hy by done. destruct (covers r v) eqn:Hcr.
    + exists r. split; [apply list_elem_of_here|done].
    + destruct (C6 v y Hv Hy) as (z & Hz & Hc). exists z. split; [by apply list_elem_of_further|done].
Qed.

(** What holds between two rounds: the child is complete for the regions seen so far, cannot write,
    and its holds are counted outside. *)
Record forking st (sps : list space) (x : Z -> Z) (k : nat) (parent child : space) (tp tc : pt) : Prop := {
  f_parent : sps !! k = Some parent;
  f_pok : space_ok st parent tp;
  f_inv : mem_inv st sps (fun b => x b + holds (c0_of st) child b);
  f_child : space_ok st child tc;
  f_read : forall v s e, 0 <= v < user_limit -> get_page tc v = Some (s, e) -> has e PT_WRITE = false;
  f_x : forall b, 0 <= x b;
  f_user : user_thread child = true
}.

(** The outcome of one round. *)
Definition round_done st sps x k parent child r (j : nat) (res : run (Z * phys * space * space * bool)) (m : Z -> Z) : Prop :=
  res = panic \/
  exists status st' parent' child' flush', res = ret (status, mk_phys st' m, parent', child', flush') /\
    same_chunk st st' /\ regions parent' = <[j := cow_of r]> (regions parent) /\ user_thread parent' = user_thread parent /\
    (forall mm v, 0 <= v < user_limit -> load mm parent' v = load mm parent v) /\
    (forall b, 0 < frame_ref st b -> frame_ref st' b <= frame_ref st b + bit (uses (c0_of st) r b)) /\
    (exists tp', space_ok st' parent' tp') /\
    ((status < 0 /\ regions child' = regions child /\ (exists tc', root child' = Some tc' /\ pt_ok tc') /\
      mem_inv st' (<[k := parent']> sps) (fun b => x b + holds (c0_of st) child' b)) \/
     (status = 0 /\ regions child' = cow_of r :: regions child /\
      exists tp' tc', forking st' (<[k := parent']> sps) x k parent' child' tp' tc')).

Lemma own_grows st st1 tc tc1 b :
  keeps_used st st1 -> (forall i, 0 <= pt_own tc1 i - pt_own tc i /\ pt_own tc1 i - pt_own tc i = frame_ref st1 i - frame_ref st i) ->
  0 < frame_ref st b -> pt_own tc1 b = pt_own tc b.
Proof. intros (_ & _ & Hk) Ho Hr. specialize (Ho b). rewrite Hk in Ho by done. lia. Qed.

(** Removing write access from the parent's region, whichever way the code takes. *)
Lemma parent_protected st sps x k parent tp r : mem_inv st sps x -> sps !! k = Some parent -> space_ok st parent tp ->
  cow_of r ∈ regions parent ->
  exists u parent' t', (if has (flags r) PT_WRITE then sched_mark_cow parent (cow_of r) else (false, parent)) = (u, parent') /\
    space_ok st parent' t' /\ regions parent' = regions parent /\ user_thread parent' = user_thread parent /\
    mem_inv st (<[k := parent']> sps) x /\
    (forall v b, writes (c0_of st) parent' v b -> covers r v = false) /\
    forall m v, 0 <= v < user_limit -> load m parent' v = load m parent v.
Proof.
  intros Hinv Hk Hsp Hr. destruct (cow_of_flags r) as (Hw & _ & _ & Hc & _). destruct (has (flags r) PT_WRITE) eqn:Ew.
  - destruct (unwrite_ok st sps x k parent tp (cow_of r) Hinv Hk Hsp Hr) as (u & p' & t' & He & H1' & H2' & H3' & H4' & H5' & H6');
      [intros _; by apply Hc|]. exists u, p', t'. split_and!; try done. intros v b Hwr. by destruct (H5' v b Hwr) as [_ Hcv].
  - exists false, parent, tp. split_and!; try done; [by rewrite list_insert_id|].
    intros v b (y & e & t1 & Hroot & Hy & Hcv & He & Hwe & _). destruct (covers r v) eqn:Hcr; [|done]. exfalso.
    rewrite (s_root _ _ _ Hsp) in Hroot. injection Hroot as <-.
    destruct (s_map _ _ _ Hsp (cow_of r) v Hr Hcr) as (e' & He' & Hent). rewrite He in He'. injection He' as <-.
    destruct Hent as (_ & _ & _ & Hx & _). rewrite Hw in Hx. specialize (Hx Hwe). done.
Qed.

Lemma fork_round env st m sps x k parent child tp tc j r flush :
  forking st sps x k parent child tp tc -> regions parent !! j = Some r ->
  (forall v, covers r v = true -> cov (regions child) v = 0) ->
  (forall b, uses (c0_of st) r b = true -> frame_ref st b < UINT16_MAX) ->
  round_done st sps x k parent child r j (fork_cow_region env (mk_phys st m) parent child j flush) m.
Proof.
  intros Hfk Hj Hdis Hmax. pose proof Hfk as [Hk Hpok Hinv Hcok Hread Hx Huser].
  pose proof (i_pmm _ _ _ Hinv) as Hp. pose proof (i_chunk _ _ _ Hinv) as Hck.
  assert (Hrin : r ∈ regions parent) by (by eapply list_elem_of_lookup_2).
  pose proof (space_region _ _ _ _ Hpok Hrin) as Hrok. pose proof (region_frames st r Hp Hrok) as (Hpa & Hf0 & Hpg & Hfit).
  unfold fork_cow_region. rewrite Hj. cbn [lift]. unfold mbind at 1. cbn [run_bind ret vaddr paddr pages flags].
  fold (cow_of r). change (if has (flags r) PT_WRITE then Z.lor (flags r) SCHED_REGION_COW else flags r) with (flags (cow_of r)).
  fold (map_flags_of r). set (p1 := set_regions (<[j := cow_of r]> (regions parent)) parent).
  pose proof (reflag_ok st parent tp j r Hpok Hj) as Hp1. pose proof (reflag_inv _ _ _ k parent tp j r Hinv Hk Hpok Hj) as Hinv1. fold p1 in Hp1, Hinv1.
  rewrite (s_root _ _ _ Hcok). cbn [lift]. unfold mbind at 1. cbn [run_bind ret pmm mem].
  destruct (map_flags_facts r (r_user _ _ Hrok) (r_huge _ _ Hrok)) as (Fw & Fu & Fh).
  assert (Hown : forall b, pt_own tc b <= frame_ref st b).
  { intros b. pose proof (i_count _ _ _ Hinv b) as Hcb. cbn beta in Hcb. pose proof (total_nonneg (c0_of st) sps b). specialize (Hx b).
    unfold holds, own in Hcb. rewrite (s_root _ _ _ Hcok) in Hcb. pose proof (occ_nonneg (c0_of st) (regions child) b). lia. }
  assert (Hend : paddr r + pages r * PAGE_4KIB <= 2 ^ 52).
  { pose proof (p_alloc _ Hp) as (?&?&?&?&?&?&_). rewrite (p_block _ Hp) in *. destruct Hck as [_ Hck2]. unfold PAGE_4KIB in *. lia. }
  unfold arch_map_region. pose proof (r_high _ _ Hrok) as Hhi. unfold vend in Hhi.
  destruct (map_loop_ok (Z.to_nat (pages r)) 0 st tc (vaddr r) (paddr r) (map_flags_of r)) as [Hpan|(st1 & tc1 & Hmap & Hkeep & Hpt1 & Hown1 & Hget)];
    rewrite ?Z2Nat.id, ?Z.add_0_l by lia; try done; try apply Hcok; try apply Hrok; try (rewrite Hpa; pose proof (p_alloc _ Hp) as (?&_); unfold PAGE_4KIB in *; lia).
  { rewrite Hpan. by left. }
  rewrite Z2Nat.id in Hget by lia. rewrite Hmap. unfold mbind at 1. cbn [run_bind ret].
  assert (Hget' : forall v, 0 <= v < user_limit -> get_page tc1 v =
     if covers r v then Some (PAGE_4KIB, leaf (paddr r + (v - vaddr r) / PAGE_4KIB * PAGE_4KIB) (map_flags_of r)) else get_page tc v).
  { intros v Hv. rewrite Hget by done. by rewrite in_pages_covers. }
  pose proof Hkeep as (Hpm1 & Hs1 & Hkp). pose proof Hs1 as (Hc01 & _ & _ & Hbc1 & _).
  unfold sched_add_user_region. pose proof (bounds_ok st r Hp Hrok) as Hbo. rewrite Hbo. cbn [negb].
  destruct (fork_node env); cbn [negb].
  2:{ (* no node for the child's region *)
    right. exists (- ENOMEM), st1, p1, (set_root tc1 child), flush. split; [reflexivity|]. split; [done|]. split; [done|]. split; [done|].
    split; [done|]. split; [intros b Hb; rewrite Hkp by done; pose proof (bit_pos (uses (c0_of st) r b)); lia|].
    split; [exists tp; by eapply space_ok_chunk|]. left. split; [done|]. split; [done|]. split; [by exists tc1|].
    eapply inv_outside; [exact Hinv1|done|done| | |]; unfold holds, own; cbn [root regions set_root]; rewrite ?(s_root _ _ _ Hcok).
    - intros b. pose proof (occ_nonneg (c0_of st) (regions child) b). pose proof (pt_own_nonneg tc1 b). specialize (Hx b). lia.
    - intros b. pose proof (i_count _ _ _ Hinv1 b) as Hcb. cbn beta in Hcb. unfold holds, own in Hcb. rewrite (s_root _ _ _ Hcok) in Hcb.
      specialize (Hown1 b). lia.
    - intros b. destruct (Z.eq_dec (frame_ref st b) 0) as [Hz|Hz].
      + right; left. pose proof (i_count _ _ _ Hinv1 b) as Hcb. cbn beta in Hcb. pose proof (holds_nonneg (c0_of st) child b).
        pose proof (total_nonneg (c0_of st) (<[k := p1]> sps) b). specialize (Hx b). lia.
      + left. pose proof (p_range _ Hp b). rewrite (own_grows st st1 tc tc1 b Hkeep Hown1) by lia. done. }
  (* the frames are held once more *)
  change (paddr (cow_of r)) with (paddr r). change (pages (cow_of r)) with (pages r).
  assert (Hused : forall b, uses (c0_of st) r b = true -> 0 < frame_ref st b).
  { intros b Hb. pose proof (i_count _ _ _ Hinv b) as Hcb. cbn beta in Hcb. pose proof (uses_occ (c0_of st) _ b r Hrin Hb).
    pose proof (total_elem (c0_of st) sps parent b (list_elem_of_lookup_2 _ _ _ Hk)) as Hte. unfold holds at 1 in Hte.
    pose proof (own_nonneg parent b). pose proof (holds_nonneg (c0_of st) child b). specialize (Hx b). lia. }
  destruct (hold_ok st1 (paddr r) (fidx (c0_of st) (paddr r)) (pages r)) as (st2 & Hhold & Hp2 & Hs2 & Hc2).
  { done. } { apply (frames_at_chunk st); [done|]. apply Hrok. }
  { pose proof (region_fits st r Hp Hrok) as (Hv & _). pose proof (r_low _ _ Hrok). unfold vend, SIZE_MAX, PAGE_4KIB in *. lia. }
  { intros b Hb. rewrite Hkp; by apply Hused. }
  rewrite Hhold. cbn [lift]. unfold mbind at 1. cbn [run_bind ret].
  assert (Hkp1 : <[k := p1]> sps !! k = Some p1) by (apply list_lookup_insert_eq; by eapply lookup_lt_Some).
  destruct (parent_protected st _ _ k p1 tp r Hinv1 Hkp1 Hp1) as (u & p2 & t2 & Hmk & Hp2ok & Hreg2 & Hut2 & Hinv2 & Hnw & Hld2).
  { cbn [p1 regions set_regions]. eapply list_elem_of_lookup_2. apply list_lookup_insert_eq. by eapply lookup_lt_Some. }
  rewrite list_insert_insert_eq in Hinv2.
  set (child2 := sched_user_mem_add _ (pages r)).
  assert (Hres : (if has (flags r) PT_WRITE
           then let '(updated, parent0) := sched_mark_cow p1 (cow_of r) in ret (0, mk_phys st2 m, parent0, child2, flush || updated)
           else ret (0, mk_phys st2 m, p1, child2, flush)) = ret (0, mk_phys st2 m, p2, child2, flush || u)).
  { destruct (has (flags r) PT_WRITE); [by rewrite Hmk|]. injection Hmk as <- <-. by rewrite orb_false_r. }
  rewrite Hres. clear Hres. destruct (mem_add_fields (set_regions (cow_of r :: regions child) (set_root tc1 child)) (pages r)) as (Hcr & Hct & Hcu).
  change (sched_user_mem_add (set_regions (cow_of r :: regions child) (set_root tc1 child)) (pages r)) with child2 in Hcr, Hct, Hcu.
  cbn [regions root user_thread set_regions set_root] in Hcr, Hct, Hcu.
  pose proof (same_chunk_trans _ _ _ Hs1 Hs2) as Hs12. pose proof Hs12 as (Hc02 & _).
  right. exists 0, st2, p2, child2, (flush || u). split; [reflexivity|]. split; [done|]. split; [by rewrite Hreg2|]. split; [by rewrite Hut2|].
  split; [intros mm v Hv; by rewrite Hld2|].
  split.
  { intros b Hb. rewrite Hc2. fold (uses (c0_of st) r b). rewrite Hkp by done. unfold held, bit.
    destruct (uses (c0_of st) r b); [case_test; lia|lia]. }
  split; [exists t2; by eapply space_ok_chunk|]. right. split; [done|]. split; [done|]. exists t2, tc1. constructor.
  - apply list_lookup_insert_eq. by eapply lookup_lt_Some.
  - by eapply space_ok_chunk.
  - assert (Hho : forall b, holds (c0_of st) child2 b = bit (uses (c0_of st) r b) + occ (c0_of st) (regions child) b + pt_own tc1 b).
    { intros b. unfold holds, own, occ. rewrite Hcr, Hct, sumz_cons. done. }
    assert (Hhc : forall b, holds (c0_of st) child b = occ (c0_of st) (regions child) b + pt_own tc b).
    { intros b. unfold holds, own. by rewrite (s_root _ _ _ Hcok). }
    pose proof Hinv2 as [I1 I2 I3 I4 I5 I6]. rewrite Hc02. constructor.
    + done.
    + by eapply chunk_ok_same.
    + eapply Forall_impl; [exact I3|]. intros y. by apply live_chunk.
    + intros b. pose proof (holds_nonneg (c0_of st) child2 b). specialize (Hx b). lia.
    + intros b. rewrite Hc02. specialize (I5 b). cbn beta in I5. rewrite Hhc in I5. rewrite Hho, Hc2. fold (uses (c0_of st) r b).
      specialize (Hown1 b). destruct (uses (c0_of st) r b) eqn:Hu; cbn [bit]; [|lia].
      rewrite Hkp in * by (by apply Hused). specialize (Hmax b Hu). unfold held. test_lia. lia.
    + intros y v b Hy Hwr. rewrite Hc02 in *. specialize (I6 y v b Hy Hwr). cbn beta in I6. rewrite Hhc in I6.
      assert (Hk2 : <[k := p2]> sps !! k = Some p2) by (apply list_lookup_insert_eq; by eapply lookup_lt_Some).
      assert (Hnu : uses (c0_of st) r b = false).
      { destruct (uses (c0_of st) r b) eqn:Hu; [|done]. exfalso.
        destruct (writes_through st _ _ k p2 t2 (cow_of r) y v b Hinv2 Hk2 Hp2ok) as [Hy2 Hcv]; [|done|done|done|].
        - rewrite Hreg2. cbn [p1 regions set_regions]. eapply list_elem_of_lookup_2. apply list_lookup_insert_eq. by eapply lookup_lt_Some.
        - assert (y = p2) as -> by congruence. specialize (Hnw v b Hwr). change (covers r v = true) in Hcv. congruence. }
      rewrite Hho, Hnu. cbn [bit]. specialize (I5 b). cbn beta in I5. rewrite Hhc in I5.
      rewrite (own_grows st st1 tc tc1 b Hkeep Hown1) by lia. lia.
  - destruct (cow_of_flags r) as (G1 & _ & _ & G4 & _).
    eapply (region_added st st2 child child2 tc tc1 (cow_of r) (map_flags_of r)); try done.
    + by apply cow_of_ok.
    + by rewrite Fw.
    + rewrite G1. intros Hw. right. by apply G4.
  - intros v s e Hv He. rewrite Hget' in He by done. destruct (covers r v) eqn:Hcv; [|by eapply Hread].
    injection He as _ <-. destruct (leaf_of_page st r v (map_flags_of r) Hp Hck Hrok Hcv) as (_ & _ & -> & _). done.
  - done.
  - congruence.
Qed.

(** ** The loop over the parent's regions *)

Lemma sumz_rev {A} (f : A -> Z) (l : list A) : sumz f (rev l) = sumz f l.
Proof. induction l as [|a l IH]; [done|]. cbn [rev]. rewrite sumz_app, IH, !sumz_cons. cbn. lia. Qed.

(** There is room for one more hold on each use of the frames of [l]. *)
Definition countable st (l : list sched_user_region_t) : Prop :=
  forall b, 1 <= occ (c0_of st) l b -> frame_ref st b + occ (c0_of st) l b <= UINT16_MAX.

Lemma occ_drop c0 l j r b : l !! j = Some r -> occ c0 (drop j l) b = bit (uses c0 r b) + occ c0 (drop (S j) l) b.
Proof. intros Hj. rewrite (drop_S _ r) by done. done. Qed.

Lemma cov_take l j r v : l !! j = Some r -> cov (take j l) v + bit (covers r v) <= cov l v.
Proof.
  intros Hj. pose proof (sumz_split (fun r => bit (covers r v)) l j r Hj) as Hs. unfold cov. cbn beta in Hs. rewrite Hs.
  pose proof (cov_nonneg (drop (S j) l) v) as Hd. unfold cov in Hd. lia.
Qed.

Definition loop_done st sps x k parent (res : run (Z * phys * space * space * bool)) (m : Z -> Z) : Prop :=
  res = panic \/
  exists status st' parent' child' flush', res = ret (status, mk_phys st' m, parent', child', flush') /\
    same_chunk st st' /\ user_thread parent' = user_thread parent /\
    (forall mm v, 0 <= v < user_limit -> load mm parent' v = load mm parent v) /\
    (exists tp', space_ok st' parent' tp') /\
    ((status < 0 /\ Forall (region_ok st') (regions child') /\ (exists tc', root child' = Some tc' /\ pt_ok tc') /\
      mem_inv st' (<[k := parent']> sps) (fun b => x b + holds (c0_of st) child' b)) \/
     (status = 0 /\ regions child' = rev (regions parent') /\
      exists tp' tc', forking st' (<[k := parent']> sps) x k parent' child' tp' tc')).

Lemma fork_loop_ok envs n : forall j st m sps x k parent child tp tc flush,
  forking st sps x k parent child tp tc -> (j + n)%nat = length (regions parent) ->
  regions child = rev (take j (regions parent)) -> countable st (drop j (regions parent)) ->
  loop_done st sps x k parent (fork_loop n j true envs (mk_phys st m) parent child flush) m.
Proof.
  induction n as [|n IH]; intros j st m sps x k parent child tp tc flush Hfk Hlen Hch Hcnt; cbn [fork_loop].
  { right. exists 0, st, parent, child, flush. split; [done|]. split; [apply same_chunk_refl|]. split_and!; try done.
    { exists tp. apply Hfk. }
    right. split; [done|]. rewrite (list_insert_id sps) by apply Hfk. split; [|by exists tp, tc].
    by rewrite Hch, take_ge by lia. }
  destruct (lookup_lt_is_Some_2 (regions parent) j ltac:(lia)) as [r Hj].
  assert (Hdis : forall v, covers r v = true -> cov (regions child) v = 0).
  { intros v Hc. pose proof (cov_take (regions parent) j r v Hj) as Hct. rewrite Hc in Hct. cbn [bit] in Hct.
    pose proof (s_disj _ _ _ (f_pok _ _ _ _ _ _ _ _ Hfk) v). pose proof (cov_nonneg (regions child) v).
    rewrite Hch in *. unfold cov in *. rewrite sumz_rev in *. lia. }
  assert (Hmax : forall b, uses (c0_of st) r b = true -> frame_ref st b < UINT16_MAX).
  { intros b Hb. specialize (Hcnt b). rewrite (occ_drop _ _ j r b Hj), Hb in Hcnt. cbn [bit] in Hcnt.
    pose proof (occ_nonneg (c0_of st) (drop (S j) (regions parent)) b). lia. }
  destruct (fork_round (envs j) st m sps x k parent child tp tc j r flush Hfk Hj Hdis Hmax)
    as [->|(status & st1 & p1 & c1 & fl1 & -> & Hs1 & Hr1 & Hu1 & Hl1 & Hrf & [tp1 Hpo1] & Hcase)]; [by left|].
  unfold mbind at 1. cbn [run_bind ret]. pose proof Hs1 as (Hc0 & _). destruct Hcase as [(Hneg & Hrc & Hct & Hinv)|(-> & Hrc & tp2 & tc2 & Hfk1)].
  - rewrite (proj2 (Z.ltb_lt status 0)) by done. right. exists status, st1, p1, c1, fl1. split; [done|]. split_and!; try done.
    { by exists tp1. } left. split_and!; try done. rewrite Hrc. eapply Forall_impl; [apply (s_regs _ _ _ (f_child _ _ _ _ _ _ _ _ Hfk))|].
    intros y. by apply region_ok_chunk.
  - cbn [Z.ltb Z.compare]. destruct (IH (S j) st1 m (<[k := p1]> sps) x k p1 c1 tp2 tc2 fl1 Hfk1)
      as [->|(status & st2 & p2 & c2 & fl2 & -> & Hs2 & Hu2 & Hl2 & Hpo2 & Hcase)].
    + rewrite Hr1, length_insert. lia.
    + rewrite Hrc, Hch, Hr1. rewrite (take_S_r _ j (cow_of r)) by (apply list_lookup_insert_eq; lia).
      rewrite take_insert_ge by lia. by rewrite rev_app_distr.
    + intros b. rewrite Hr1, drop_insert_lt by lia. rewrite Hc0. intros Hb. specialize (Hcnt b).
      rewrite (occ_drop _ _ j r b Hj) in Hcnt. pose proof (bit_pos (uses (c0_of st) r b)). specialize (Hcnt ltac:(lia)).
      enough (0 < frame_ref st b) by (specialize (Hrf b ltac:(done)); lia).
      pose proof (i_count _ _ _ (f_inv _ _ _ _ _ _ _ _ Hfk) b) as Hcb. cbn beta in Hcb. pose proof (f_x _ _ _ _ _ _ _ _ Hfk b).
      pose proof (holds_nonneg (c0_of st) child b).
      pose proof (total_elem (c0_of st) sps parent b (list_elem_of_lookup_2 _ _ _ (f_parent _ _ _ _ _ _ _ _ Hfk))) as Hte.
      unfold holds at 1 in Hte. pose proof (own_nonneg parent b).
      assert (occ (c0_of st) (drop (S j) (regions parent)) b <= occ (c0_of st) (regions parent) b); [|lia].
      unfold occ. rewrite <- (take_drop (S j) (regions parent)) at 2. rewrite sumz_app.
      pose proof (occ_nonneg (c0_of st) (take (S j) (regions parent)) b) as Hn0. unfold occ in Hn0. lia.
    + by left.
    + right. exists status, st2, p2, c2, fl2. split; [done|]. split; [eauto using same_chunk_trans|]. split; [congruence|].
      split; [intros mm v Hv; rewrite Hl2 by done; by apply Hl1|]. split; [done|]. rewrite list_insert_insert_eq in Hcase. by rewrite Hc0 in Hcase.
Qed.

(** ** Releasing an address space *)

Lemma clear_ok l : forall st sps x, mem_inv st sps (fun b => x b + occ (c0_of st) l b) -> (forall b, 0 <= x b) ->
  Forall (region_ok st) l -> exists st', clear_loop l st = Some st' /\ same_chunk st st' /\ mem_inv st' sps x.
Proof.
  induction l as [|r l IH]; intros st sps x Hinv Hx Hl; cbn [clear_loop].
  { exists st. split; [done|]. split; [apply same_chunk_refl|]. eapply mem_inv_ext; [|exact Hinv]. intros b. cbn. lia. }
  apply Forall_cons in Hl as [Hr Hl]. pose proof (region_frames st r (i_pmm _ _ _ Hinv) Hr) as (Hpa & Hf & Hpg & _).
  pose proof (p_alloc _ (i_pmm _ _ _ Hinv)) as (Hst & _).
  rewrite (proj2 (Z.eqb_neq (paddr r) 0)), (proj2 (Z.eqb_neq (pages r) 0)) by (unfold PAGE_4KIB in *; lia). cbn [negb andb].
  destruct (inv_release st sps _ (paddr r) (fidx (c0_of st) (paddr r)) (pages r) Hinv (r_frames _ _ Hr)) as (st1 & -> & Hs & Hinv1).
  { intros b Hb. fold (uses (c0_of st) r b) in Hb. unfold occ. rewrite sumz_cons, Hb. fold (occ (c0_of st) l b).
    pose proof (occ_nonneg (c0_of st) l b). specialize (Hx b). cbn. lia. }
  cbn [mbind option_bind]. pose proof Hs as (Hc0 & _). destruct (IH st1 sps x) as (st2 & -> & Hs2 & Hinv2).
  - eapply mem_inv_ext; [|exact Hinv1]. intros b. rewrite Hc0. unfold occ. rewrite sumz_cons. fold (uses (c0_of st) r b). lia.
  - done.
  - eapply Forall_impl; [exact Hl|]. intros y. by apply region_ok_chunk.
  - exists st2. split; [done|]. split; [eauto using same_chunk_trans|done].
Qed.

(** A complete child that cannot write joins the address spaces. *)
Lemma inv_join st sps x child : mem_inv st sps (fun b => x b + holds (c0_of st) child b) -> (forall b, 0 <= x b) ->
  live_or_dead st child -> (forall v b, ~ writes (c0_of st) child v b) -> mem_inv st (sps ++ [child]) x.
Proof.
  intros [H1' H2' H3' H4' H5' H6'] Hx Hl Hnw.
  assert (Ht : forall b, total (c0_of st) (sps ++ [child]) b = total (c0_of st) sps b + holds (c0_of st) child b).
  { intros b. unfold total. rewrite sumz_app, sumz_cons. cbn. lia. }
  constructor; try done.
  - apply Forall_app. split; [done|]. by apply Forall_singleton.
  - intros b. rewrite Ht. specialize (H5' b). cbn beta in H5'. lia.
  - intros y v b Hy Hw. rewrite Ht. apply elem_of_app in Hy as [Hy|Hy]; [specialize (H6' y v b Hy Hw); cbn beta in H6'; lia|].
    apply list_elem_of_singleton in Hy as ->. by destruct (Hnw v b).
Qed.

(** The memory of a thread that nobody counts any more is released. *)
Lemma destroy_memory_ok st sps x sp : mem_inv st sps (fun b => x b + holds (c0_of st) sp b) -> (forall b, 0 <= x b) ->
  Forall (region_ok st) (regions sp) -> (forall t, root sp = Some t -> pt_ok t) ->
  exists st', destroy_memory st sp = Some st' /\ same_chunk st st' /\ mem_inv st' sps x.
Proof.
  intros Hinv Hx Hr Ht. unfold destroy_memory, sched_clear_user_regions.
  destruct (clear_ok (regions sp) st sps (fun b => x b + own sp b)) as (st1 & -> & Hs1 & Hinv1); [|intros b; specialize (Hx b); pose proof (own_nonneg sp b); lia|done|].
  { eapply mem_inv_ext; [|exact Hinv]. intros b. unfold holds. lia. }
  cbn [mbind option_bind root set_regions sched_set_user_mem set_kib]. unfold own in Hinv1. destruct (root sp) as [t|].
  2:{ exists st1. split_and!; try done. eapply mem_inv_ext; [|exact Hinv1]. intros b. cbn beta. lia. }
  destruct (vm_destroy_ok st1 t (i_pmm _ _ _ Hinv1) (i_chunk _ _ _ Hinv1) (Ht t eq_refl)) as (st2 & -> & Hp2 & Hs2 & Hc2).
  { intros b. pose proof (i_count _ _ _ Hinv1 b) as Hcb. cbn beta in Hcb. pose proof (total_nonneg (c0_of st1) sps b). specialize (Hx b). lia. }
  exists st2. split; [done|]. split; [eauto using same_chunk_trans|]. pose proof Hs2 as (Hc0 & _). destruct Hinv1 as [I1 I2 I3 I4 I5 I6].
  constructor; try done.
  - by eapply chunk_ok_same.
  - eapply Forall_impl; [exact I3|]. intros y. by apply live_chunk.
  - intros b. rewrite Hc0, Hc2. specialize (I5 b). lia.
  - intros y v b Hy Hw. rewrite Hc0 in *. specialize (I6 y v b Hy Hw). cbn beta in I6. 
    pose proof (writes_uses (c0_of st1) sps y v b Hy Hw). specialize (Hx b). pose proof (pt_own_nonneg t b). lia.
Qed.

(** A thread leaves: what it holds is counted outside. *)
Lemma inv_leave st sps x k sp sp' : mem_inv st sps x -> sps !! k = Some sp -> dead sp' ->
  mem_inv st (<[k := sp']> sps) (fun b => x b + holds (c0_of st) sp b).
Proof.
  intros [H1' H2' H3' H4' H5' H6'] Hk Hd.
  assert (Hz : forall b, holds (c0_of st) sp' b = 0) by (intros b; unfold holds, own; destruct Hd as [-> ->]; done).
  assert (Ht : forall b, total (c0_of st) (<[k := sp']> sps) b + (x b + holds (c0_of st) sp b) = total (c0_of st) sps b + x b).
  { intros b. rewrite (total_insert _ sps k sp sp' b Hk), Hz. lia. }
  constructor; try done.
  - apply Forall_insert; [done|by left].
  - intros b. pose proof (holds_nonneg (c0_of st) sp b). specialize (H4' b). lia.
  - intros b. rewrite Ht. apply H5'.
  - intros y v b Hy Hw. rewrite Ht. apply list_elem_of_lookup in Hy as [j Hj]. destruct (decide (j = k)) as [->|Hne].
    + rewrite list_lookup_insert_eq in Hj by (by eapply lookup_lt_Some). injection Hj as <-.
      destruct Hw as (r & e & t & Hroot & _). destruct Hd as [Hd _]. congruence.
    + rewrite list_lookup_insert_ne in Hj by done. eapply H6'; [by eapply list_elem_of_lookup_2|done].
Qed.


(** Two spaces with the same regions on the same frames read the same. *)
Lemma load_same_regions st a c ta tc m v : pmm_inv st -> space_ok st a ta -> space_ok st c tc ->
  (forall r, r ∈ regions a <-> r ∈ regions c) -> 0 <= v < user_limit -> load m c v = load m a v.
Proof.
  intros Hp Ha Hc Hrr Hv. destruct (decide (1 <= cov (regions a) v)) as [Hcov|Hcov].
  - apply cov_pos in Hcov as (r & Hr & Hcv). rewrite (load_region st a ta r v m Hp Ha Hr Hcv).
    apply (load_region st c tc r v m Hp Hc); [by apply Hrr|done].
  - assert (Hnone : forall s t, space_ok st s t -> (forall r, r ∈ regions a <-> r ∈ regions s) -> load m s v = None).
    { intros s t Hs Hreq. unfold load. rewrite (s_root _ _ _ Hs). destruct (get_page t v) as [y|] eqn:Ey; [|done].
      destruct (s_only _ _ _ Hs v y Hv Ey) as (r & Hr & Hcv). destruct Hcov. apply Hreq in Hr. by eapply cov_elem. }
    rewrite (Hnone a ta Ha) by done. by rewrite (Hnone c tc Hc).
Qed.

Lemma same_views_insert sps k sp sp' m : sps !! k = Some sp ->
  (forall v, 0 <= v < user_limit -> load m sp' v = load m sp v) -> same_views m m sps (<[k := sp']> sps).
Proof.
  intros Hk Hl. split; [by rewrite length_insert|]. intros j s s' v Hs Hs' Hv. destruct (decide (j = k)) as [->|Hne].
  - rewrite list_lookup_insert_eq in Hs' by (by eapply lookup_lt_Some). assert (s = sp) as -> by congruence.
    injection Hs' as <-. by apply Hl.
  - rewrite list_lookup_insert_ne in Hs' by done. congruence.
Qed.

(** ** The whole of a fork *)

Lemma fork_start st sps x k parent tp st1 t0 : mem_inv st sps x -> sps !! k = Some parent -> space_ok st parent tp ->
  keeps_used st st1 -> pt_ok t0 -> (forall i, pt_own t0 i = frame_ref st1 i - frame_ref st i) ->
  (forall v, 0 <= v < user_limit -> get_page t0 v = None) ->
  forking st1 sps x k parent (mk_space true (Some t0) [] 0) tp t0.
Proof.
  intros Hinv Hk Hpok Hkeep Hpt Hown Hnone. pose proof Hkeep as (Hp1 & Hs & Hkp). pose proof Hs as (Hc0 & _). constructor; try done.
  - by eapply space_ok_chunk.
  - eapply inv_outside; [exact Hinv|done|done| | |]; rewrite ?Hc0; unfold holds, own; cbn [root regions].
    + intros b. pose proof (i_x _ _ _ Hinv b). pose proof (pt_own_nonneg t0 b). change (occ (c0_of st) [] b) with 0. lia.
    + intros b. pose proof (i_count _ _ _ Hinv b). specialize (Hown b). change (occ (c0_of st) [] b) with 0. lia.
    + intros b. change (occ (c0_of st) [] b) with 0. pose proof (i_count _ _ _ Hinv b). pose proof (i_x _ _ _ Hinv b).
      pose proof (total_nonneg (c0_of st) sps b). pose proof (pt_own_nonneg t0 b). specialize (Hown b).
      destruct (Z.eq_dec (frame_ref st b) 0); [right; left; lia|]. left. pose proof (p_range _ (i_pmm _ _ _ Hinv) b).
      rewrite Hkp in Hown by lia. lia.
  - constructor; cbn [root regions]; try done.
    + intros r v Hr. by apply not_elem_of_nil in Hr.
    + intros v y Hv Hy. by rewrite Hnone in Hy.
  - intros v s e Hv He. by rewrite Hnone in He.
  - intros b. apply Hinv.
Qed.

Definition fork_done (w : phys) sps (x : Z -> Z) k parent (res : run (Z * phys * space * ptr space)) : Prop :=
  res = panic \/
  exists status w' parent' oc, res = ret (status, w', parent', oc) /\ same_chunk (pmm w) (pmm w') /\ mem w' = mem w /\
    user_thread parent' = user_thread parent /\ same_views (mem w) (mem w) sps (<[k := parent']> sps) /\
    match oc with
    | Some child =>
        status = 0 /\ mem_inv (pmm w') (<[k := parent']> sps ++ [child]) x /\ user_thread child = true /\
        forall v, 0 <= v < user_limit -> load (mem w) child v = load (mem w) parent v
    | None => status < 0 /\ mem_inv (pmm w') (<[k := parent']> sps) x
    end.

Lemma fork_ok found envs w sps x k parent tp : mem_inv (pmm w) sps x -> sps !! k = Some parent -> space_ok (pmm w) parent tp ->
  countable (pmm w) (regions parent) -> fork_done w sps x k parent (fork_memory found envs w parent).
Proof.
  intros Hinv Hk Hpok Hcnt. destruct w as [st m]. cbn [pmm mem] in *. unfold fork_memory. cbn [pmm mem].
  destruct found; cbn [negb].
  2:{ right. exists (- ENOMEM), (mk_phys st m), parent, None. rewrite list_insert_id by done. split_and!; auto using same_chunk_refl, same_views_refl. done. }
  destruct (vm_create_ok st (i_pmm _ _ _ Hinv) (i_chunk _ _ _ Hinv)) as [->|(st1 & t0 & -> & Hkeep & Hpt & Hown & Hnone)]; [by left|].
  unfold mbind at 1. cbn [run_bind ret].
  pose proof (fork_start st sps x k parent tp st1 t0 Hinv Hk Hpok Hkeep Hpt Hown Hnone) as Hfk.
  pose proof Hkeep as (Hp1 & Hs1 & Hkp). pose proof Hs1 as (Hc1 & _).
  unfold fork_user_space. cbn [root pmm]. unfold pmm_ref_ready. rewrite (p_ready _ Hp1).
  destruct (fork_loop_ok envs (length (regions parent)) 0 st1 m sps x k parent _ tp t0 false Hfk)
    as [->|(status & st2 & p2 & c2 & fl2 & -> & Hs2 & Hu2 & Hl2 & [tp2 Hpo2] & Hcase)]; [done|done| |by left|].
  { intros b Hb. rewrite Hc1, drop_0 in *. specialize (Hcnt b Hb). rewrite Hkp; [done|].
    pose proof (i_count _ _ _ Hinv b). pose proof (i_x _ _ _ Hinv b). pose proof (own_nonneg parent b).
    pose proof (total_elem (c0_of st) sps parent b (list_elem_of_lookup_2 _ _ _ Hk)) as Hte. unfold holds at 1 in Hte. lia. }
  unfold mbind at 1. cbn [run_bind ret pmm mem]. pose proof (same_chunk_trans _ _ _ Hs1 Hs2) as Hs12. pose proof Hs2 as (Hc2 & _).
  assert (Hviews : same_views m m sps (<[k := p2]> sps)) by (eapply same_views_insert; [exact Hk|by intros; apply Hl2]).
  destruct Hcase as [(Hneg & Hreg & Hct & Hinv2)|(-> & Hrev & tp3 & tc3 & Hfk3)].
  - rewrite (proj2 (Z.ltb_lt status 0)) by done.
    destruct (destroy_memory_ok st2 (<[k := p2]> sps) x c2) as (st3 & -> & Hs3 & Hinv3); [by rewrite Hc2|apply Hinv|done| |].
    { destruct Hct as (tc & Hr & Hpc). intros t. rewrite Hr. by intros [= <-]. }
    right. eexists (- ENOMEM), (mk_phys st3 m), p2, None. split; [reflexivity|]. split; [cbn [pmm]; eauto using same_chunk_trans|].
    split_and!; done.
  - cbn [Z.ltb Z.compare]. right. exists 0, (mk_phys st2 m), p2, (Some c2). split; [reflexivity|].
    destruct Hfk3 as [F1 F2 F3 F4 F5 F6 F7]. cbn [pmm mem]. split_and!; try done.
    + apply inv_join; [done|done|right; by exists tc3|]. intros v b (r & e & t & Hroot & Hr & Hcv & He & Hw & _).
      rewrite (s_root _ _ _ F4) in Hroot. injection Hroot as <-.
      assert (Hlim : 0 <= v < user_limit); [|by rewrite (F5 v _ e Hlim He) in Hw]. apply (covers_limit st2 r); [by eapply space_region|done].
    + intros v Hv. rewrite <- (Hl2 m v Hv). eapply (load_same_regions st2 p2 c2 tp3 tc3); try done; [apply F3|].
      intros r. rewrite Hrev. rewrite !list_elem_of_In. apply in_rev.
Qed.
End Proofs.
End ForkMemory.
