(* ===== verification/UserAccess.v ===== *)
(** * The kernel's access to user memory: [kernel/sys/usercopy.c]

    In a well-formed address space the range check accepts exactly the ranges inside the thread's
    regions that permit the access, and always returns; what the copy functions then read is what the
    thread would read, and what they write only the thread sees. *)

From S2P Require Import Prelude Errno Memory Outcome Bitmap BitmapAlloc Pmm Paging UserMem CowMemory ForkMemory.
From stdpp Require Import list relations.
Import Bitmap BitmapAlloc Pmm Paging UserMem CowMemory ForkMemory.
Open Scope Z_scope.

Module UserAccess.
Section Proofs.
Context `{PT : PageTables}.
Implicit Types (sp : space) (r : sched_user_region_t) (st : pmm_state_t) (t : pt) (v b : Z).

Notation c0_of st := (chunk_start (frames st)).

(** The thread may read, or write, the byte at [v]. *)
Definition permitted sp (write : bool) v : Prop :=
  exists r, r ∈ regions sp /\ covers r v = true /\ (write = true -> has (flags r) PT_WRITE = true).

(** ** The range check *)

Lemma region_end_ok st r : pmm_inv st -> region_ok st r ->
  (SIZE_MAX / PAGE_4KIB <? pages r) = false /\ wrap (vaddr r + wrap (pages r * PAGE_4KIB)) = vend r /\ vaddr r < vend r.
Proof.
  intros Hp Hr. pose proof (region_fits st r Hp Hr) as (Hf & _). pose proof (region_frames st r Hp Hr) as (_ & _ & Hpg & _).
  pose proof (r_low _ _ Hr). unfold vend in *. pose proof SIZE_MOD_pos. unfold SIZE_MAX in *. split_and!.
  - apply Z.ltb_ge. apply Z.div_le_lower_bound; unfold PAGE_4KIB in *; lia.
  - rewrite (wrap_small (pages r * PAGE_4KIB)), wrap_small by (unfold PAGE_4KIB in *; lia). done.
  - unfold PAGE_4KIB in *. lia.
Qed.

Lemma range_region_spec st l c : pmm_inv st -> Forall (region_ok st) l ->
  match range_region l c with
  | Some (r, e) => r ∈ l /\ covers r c = true /\ e = vend r
  | None => forall r, r ∈ l -> covers r c = false
  end.
Proof.
  intros Hp Hl. induction Hl as [|r l Hr Hl IH]; cbn [range_region]; [by intros r Hr%not_elem_of_nil|].
  destruct (region_end_ok st r Hp Hr) as (-> & -> & Hlt). rewrite (proj2 (Z.leb_gt (vend r) (vaddr r))) by done.
  fold (covers r c). destruct (covers r c) eqn:Hc; [split_and!; [apply list_elem_of_here|done|done]|].
  destruct (range_region l c) as [[r' e]|].
  - destruct IH as (? & ? & ?). split_and!; [by apply list_elem_of_further|done|done].
  - intros r' [->|Hr']%elem_of_cons; [done|by apply IH].
Qed.

(** Every page of a region passes the page check. *)
Lemma page_ok_region st sp t r v write : space_ok st sp t -> r ∈ regions sp -> covers r v = true ->
  (write = true -> has (flags r) PT_WRITE = true /\ has (flags r) SCHED_REGION_COW = false) -> user_page_ok sp v write = true.
Proof.
  intros Hsp Hr Hc Hw. destruct (s_map _ _ _ Hsp r v Hr Hc) as (e & He & (E1 & E2 & _ & _ & E5)).
  unfold user_page_ok. rewrite (s_root _ _ _ Hsp), He, E1, E2. change (PAGE_4KIB =? 0) with false. cbn [negb andb orb].
  destruct write; [|done]. destruct (Hw eq_refl) as [Hf Hn]. destruct (E5 Hf) as [->|Hcow]; [done|congruence].
Qed.

Lemma pages_ok_true st sp t r write n : space_ok st sp t -> r ∈ regions sp -> pmm_inv st ->
  (write = true -> has (flags r) PT_WRITE = true /\ has (flags r) SCHED_REGION_COW = false) ->
  forall p e, p mod PAGE_4KIB = 0 -> vaddr r <= p -> e <= vend r -> (page_rounds p e <= n)%nat -> 0 <= p ->
  pages_ok n sp p e write = Some true.
Proof.
  intros Hsp Hr Hp Hw. pose proof (space_region _ _ _ _ Hsp Hr) as Hrok. pose proof (r_align _ _ Hrok) as Hal.
  pose proof (region_fits st r Hp Hrok) as (Hfit & _). pose proof SIZE_MOD_pos.
  induction n as [|n IH]; intros p e Ha Hlo Hhi Hn Hp0; cbn [pages_ok]; destruct (Z.ltb_spec p e) as [Hlt|]; cbn [negb]; try done.
  - unfold page_rounds in Hn. assert (0 <= (e - p) / PAGE_4KIB) by (apply Z.div_pos; unfold PAGE_4KIB; lia). lia.
  - rewrite (page_ok_region st sp t r p write Hsp Hr) by (done || (apply covers_bounds; lia)). cbn [negb].
    assert (p + PAGE_4KIB <= vend r) by (unfold vend, PAGE_4KIB in *; Z.to_euclidean_division_equations; lia).
    rewrite wrap_small by (unfold SIZE_MAX, PAGE_4KIB in *; lia). apply IH.
    + unfold PAGE_4KIB in *. Z.to_euclidean_division_equations; lia.
    + unfold PAGE_4KIB. lia.
    + done.
    + unfold page_rounds in *. replace (e - p) with (e - (p + PAGE_4KIB) + 1 * PAGE_4KIB) in Hn by lia.
      rewrite Z.div_add in Hn by done.
      assert (-1 <= (e - (p + PAGE_4KIB)) / PAGE_4KIB) by (apply Z.div_le_lower_bound; unfold PAGE_4KIB; lia). lia.
    + unfold PAGE_4KIB. lia.
Qed.

(** Regions that reach beyond the cursor: a round uses one up. *)
Definition ahead (l : list sched_user_region_t) (c : Z) : Z := sumz (fun r => bit (c <? vend r)) l.

Lemma ahead_le l c : 0 <= ahead l c <= Z.of_nat (length l).
Proof.
  induction l as [|r l IH]; [done|]. unfold ahead. rewrite sumz_cons. fold (ahead l c). cbn [length].
  pose proof (bit_pos (c <? vend r)). pose proof (bit_le (c <? vend r)). lia.
Qed.

Lemma ahead_mono l c c' : c <= c' -> ahead l c' <= ahead l c.
Proof.
  intros Hc. induction l as [|r l IH]; [done|]. unfold ahead. rewrite !sumz_cons. fold (ahead l c) (ahead l c').
  unfold bit. destruct (Z.ltb_spec c (vend r)), (Z.ltb_spec c' (vend r)); lia.
Qed.

Lemma ahead_next l c r : r ∈ l -> c < vend r -> ahead l (vend r) < ahead l c.
Proof.
  intros Hr Hc. induction l as [|y l IH]; [by apply not_elem_of_nil in Hr|]. unfold ahead. rewrite !sumz_cons.
  fold (ahead l c) (ahead l (vend r)). apply elem_of_cons in Hr as [<-|Hr].
  - pose proof (ahead_mono l c (vend r) ltac:(lia)). unfold bit. test_lia. lia.
  - specialize (IH Hr). unfold bit. destruct (Z.ltb_spec c (vend y)), (Z.ltb_spec (vend r) (vend y)); lia.
Qed.

Lemma range_loop_done n sp c e write : e <= c -> range_loop n sp c e write = Some true.
Proof. intros Hle. destruct n; cbn [range_loop]; by rewrite (proj2 (Z.ltb_ge c e)). Qed.

Lemma range_loop_exact st sp t write n : pmm_inv st -> space_ok st sp t ->
  forall c e, 0 <= c -> ahead (regions sp) c < Z.of_nat n ->
  exists ok, range_loop n sp c e write = Some ok /\ (ok = true <-> forall v, c <= v < e -> permitted sp write v).
Proof.
  intros Hp Hsp. induction n as [|n IH]; intros c e Hc Hn; cbn [range_loop]; destruct (Z.ltb_spec c e) as [Hlt|Hge]; cbn [negb].
  - pose proof (ahead_le (regions sp) c). lia.
  - exists true. split; [done|]. split; [intros _ v Hv; lia|done].
  - pose proof (range_region_spec st (regions sp) c Hp (s_regs _ _ _ Hsp)) as Hrr.
    destruct (range_region (regions sp) c) as [[r re]|].
    2:{ exists false. split; [done|]. split; [done|]. intros Hall. destruct (Hall c ltac:(lia)) as (r & Hr & Hcv & _).
        by rewrite Hrr in Hcv. }
    destruct Hrr as (Hr & Hcv & ->). pose proof (space_region _ _ _ _ Hsp Hr) as Hrok. rewrite (r_user _ _ Hrok). cbn [negb].
    assert (Huniq : forall y v, y ∈ regions sp -> covers y v = true -> covers r v = true -> y = r).
    { intros y v Hy Hy1 Hy2. apply list_elem_of_lookup in Hy as [i Hi], Hr as [j Hj].
      assert (i = j) as <- by (eapply cov_unique; [apply (s_disj _ _ _ Hsp)|done..]). congruence. }
    destruct (write && negb (has (flags r) PT_WRITE)) eqn:Hww.
    { bool_facts. exists false. split; [done|]. split; [done|]. intros Hall. destruct (Hall c ltac:(lia)) as (y & Hy & Hyc & Hyw).
      rewrite (Huniq y c Hy Hyc Hcv) in Hyw. specialize (Hyw ltac:(done)). congruence. }
    pose proof (proj1 (covers_bounds r c) Hcv) as Hb. destruct (align_down_page c Hc) as (Hal & Hpg & Hle).
    set (s := if vend r <? e then vend r else e). assert (Hs : c < s <= vend r /\ s <= e) by (unfold s; case_test; lia).
    assert (Hlo : vaddr r <= ALIGN_DOWN c).
    { pose proof (r_align _ _ Hrok). unfold ALIGN_DOWN, PAGE_4KIB in *. Z.to_euclidean_division_equations; lia. }
    rewrite (pages_ok_true st sp t r) with (n := page_rounds (ALIGN_DOWN c) s); try done; try lia.
    2:{ intros Hx. apply andb_true_iff in Hx as [Hx1 Hx2]. subst write. cbn [andb] in Hww. bool_facts. done. }
    cbn [mbind option_bind negb].
    assert (exists ok, range_loop n sp s e write = Some ok /\ (ok = true <-> forall v, s <= v < e -> permitted sp write v)) as (ok & -> & Hok).
    { destruct (Z.ltb_spec (vend r) e) as [Hve|Hve]; unfold s in *.
      - apply IH; [lia|]. pose proof (ahead_next (regions sp) c r Hr ltac:(lia)). lia.
      - exists true. rewrite range_loop_done by lia. split; [done|]. split; [intros _ v Hv; lia|done]. }
    exists ok. split; [done|]. rewrite Hok. split.
    + intros Hall v Hv. destruct (Z.lt_ge_cases v s) as [Hvs|Hvs]; [|apply Hall; lia].
      exists r. split; [done|]. split; [apply covers_bounds; lia|]. intros ->. cbn [andb] in Hww. by bool_facts.
    + intros Hall v Hv. apply Hall. lia.
  - exists true. split; [done|]. split; [intros _ v Hv; lia|done].
Qed.

Definition range_spec sp (p len : Z) (write : bool) : Prop :=
  len = 0 \/ (user_thread sp = true /\ p <> 0 /\ p + len <= arch_user_stack_top /\ forall v, p <= v < p + len -> permitted sp write v).

Lemma top_fits : 0 < arch_user_stack_top /\ arch_user_stack_top + PAGE_4KIB < SIZE_MOD.
Proof. unfold arch_user_stack_top, PAGE_4KIB, SIZE_MOD. destruct size_bits_ok as [-> | ->]; cbn; lia. Qed.

Lemma user_range_exact st sp t p len write : pmm_inv st -> space_ok st sp t -> 0 <= p < SIZE_MOD -> 0 <= len < SIZE_MOD ->
  exists ok, user_range_ok sp p len write = Some ok /\ (ok = true <-> range_spec sp p len write).
Proof.
  intros Hp Hsp Hp0 Hlen. unfold user_range_ok, range_spec. destruct (Z.eqb_spec len 0) as [->|Hl].
  { exists true. split; [done|]. split; [by left|done]. }
  destruct (user_thread sp) eqn:Hu; cbn [negb orb].
  2:{ exists false. split; [done|]. split; [done|]. intros [?|(? & _)]; [lia|done]. }
  destruct (Z.eqb_spec p 0) as [->|Hpz].
  { exists false. split; [done|]. split; [done|]. intros [?|(_ & ? & _)]; lia. }
  destruct top_fits as [Ht0 Ht1]. unfold PAGE_4KIB in *.
  destruct ((wrap (p + len) <=? p) || (arch_user_stack_top =? 0) || (arch_user_stack_top <? wrap (p + len))) eqn:Hg.
  { exists false. split; [done|]. split; [done|]. intros [?|(_ & _ & Hle & _)]; [lia|]. exfalso.
    rewrite wrap_small in Hg by lia. rewrite (proj2 (Z.leb_gt _ p)), (proj2 (Z.eqb_neq _ 0)), (proj2 (Z.ltb_ge _ _)) in Hg by lia. done. }
  bool_facts. assert (Hw : wrap (p + len) = p + len).
  { destruct (Z.lt_ge_cases (p + len) SIZE_MOD); [apply wrap_small; lia|]. exfalso.
    assert (wrap (p + len) = p + len - SIZE_MOD) by (unfold wrap; symmetry; apply Z.mod_unique with 1; lia). lia. }
  rewrite Hw in *. destruct (range_loop_exact st sp t write (S (length (regions sp))) Hp Hsp p (p + len)) as (ok & -> & Hok);
    [lia|pose proof (ahead_le (regions sp) p); lia|].
  exists ok. split; [done|]. rewrite Hok. split; [intros Hall; right; done|]. intros [?|(_ & _ & _ & Hall)]; [lia|done].
Qed.

(** ** Making a range writable *)

Lemma writes_same_page st sp t v v' b : space_ok st sp t -> writes (c0_of st) sp v b -> page v = page v' -> writes (c0_of st) sp v' b.
Proof.
  intros Hsp (r & e & t1 & Hroot & Hr & Hc & He & Hw & ->) Hpg. pose proof (space_region _ _ _ _ Hsp Hr) as Hrok.
  exists r, e, t1. split_and!; try done.
  - by apply (covers_page r v); [apply Hrok| |].
  - by rewrite <- (get_page_same t1 v v').
  - by apply frame_page; [apply Hrok|].
Qed.

Lemma page_ok_writes st sp t v : space_ok st sp t -> 0 <= v < user_limit ->
  user_page_ok sp v true = true <-> exists b, writes (c0_of st) sp v b.
Proof.
  intros Hsp Hv. unfold user_page_ok. rewrite (s_root _ _ _ Hsp). split.
  - destruct (get_page t v) as [[s e]|] eqn:He; [|done]. destruct (s_only _ _ _ Hsp v _ Hv He) as (r & Hr & Hc).
    destruct (s_map _ _ _ Hsp r v Hr Hc) as (e' & He' & _). rewrite He in He'. injection He' as -> <-.
    destruct (_ || _); [done|]. cbn [andb]. destruct (has e PT_WRITE) eqn:Hw; [|done]. intros _.
    exists (frame (c0_of st) r v), r, e, t. split_and!; try done. apply Hsp.
  - intros (b & r & e & t1 & Hroot & Hr & Hc & He & Hw & _). rewrite (s_root _ _ _ Hsp) in Hroot. injection Hroot as <-.
    destruct (s_map _ _ _ Hsp r v Hr Hc) as (e' & He' & (E1 & E2 & _)). rewrite He in He'. injection He' as <-.
    rewrite He, E1, E2, Hw. done.
Qed.

(** The outcome of an operation of thread [k] that lets everybody's bytes alone. *)
Record quiet (w : phys) (sps : list space) (k : nat) sp (w' : phys) (sp' : space) (x' : Z -> Z) : Prop := {
  q_chunk : same_chunk (pmm w) (pmm w');
  q_inv : mem_inv (pmm w') (<[k := sp']> sps) x';
  q_views : same_views (mem w) (mem w') sps (<[k := sp']> sps);
  q_user : user_thread sp' = user_thread sp;
  q_keeps : forall v b, writes (c0_of (pmm w)) sp v b -> exists b', writes (c0_of (pmm w)) sp' v b'
}.

Lemma quiet_refl w sps k sp x : mem_inv (pmm w) sps x -> sps !! k = Some sp -> quiet w sps k sp w sp x.
Proof.
  intros Hinv Hk. constructor; rewrite ?list_insert_id by done; auto using same_chunk_refl, same_views_refl.
  intros v b Hw. by exists b.
Qed.

Lemma quiet_trans w sps k sp w1 sp1 x1 w2 sp2 x2 : sps !! k = Some sp ->
  quiet w sps k sp w1 sp1 x1 -> quiet w1 (<[k := sp1]> sps) k sp1 w2 sp2 x2 -> quiet w sps k sp w2 sp2 x2.
Proof.
  intros Hk [A1 A2 A3 A4 A5] [B1 B2 B3 B4 B5]. rewrite list_insert_insert_eq in *. pose proof A1 as (Hc & _). constructor.
  - eauto using same_chunk_trans.
  - done.
  - destruct A3 as [L1 V1], B3 as [L2 V2]. split; [congruence|]. intros j s s2 v Hs Hs2 Hv.
    destruct (lookup_lt_is_Some_2 (<[k := sp1]> sps) j) as [s1 Hs1]; [rewrite L1; by eapply lookup_lt_Some|].
    rewrite (V2 j s1 s2 v Hs1 Hs2 Hv). by apply (V1 j).
  - congruence.
  - intros v b Hw. destruct (A5 v b Hw) as [b1 Hw1]. rewrite Hc in *. by apply (B5 v b1).
Qed.

Lemma fault_quiet env w sps x k sp addr : mem_inv (pmm w) sps x -> sps !! k = Some sp -> env_ok env -> 0 <= addr < user_limit ->
  sched_handle_cow_fault env w sp addr true = panic \/
  exists ok w' sp', sched_handle_cow_fault env w sp addr true = ret (ok, w', sp') /\ quiet w sps k sp w' sp' x /\
    (if ok then exists f, forall v, page v = page addr -> writes (c0_of (pmm w)) sp' v f else sp' = sp).
Proof.
  intros Hinv Hk He Ha. destruct (cow_fault_ok env w sps x k sp addr true Hinv Hk He Ha)
    as [->|(ok & w' & sp' & -> & H1' & H2' & H3' & H4' & H5' & H6')]; [by left|]. right. by exists ok, w', sp'.
Qed.

Lemma live_of st sps x k sp : mem_inv st sps x -> sps !! k = Some sp -> root sp <> None -> exists t, space_ok st sp t.
Proof.
  intros Hinv Hk Hr. pose proof (list_elem_of_lookup_2 _ _ _ Hk) as Hin.
  by destruct (proj1 (Forall_forall _ _) (i_spaces _ _ _ Hinv) sp Hin) as [[Hd _]|Hl].
Qed.

Lemma writes_root c0 sp v b : writes c0 sp v b -> root sp <> None.
Proof. intros (r & e & t & Hr & _). congruence. Qed.

Lemma prepare_ok env n : (forall p, env_ok (env p)) -> forall w sps x k sp p e,
  mem_inv (pmm w) sps x -> sps !! k = Some sp -> p mod PAGE_4KIB = 0 -> 0 <= p -> e <= user_limit -> e + PAGE_4KIB < SIZE_MOD ->
  (page_rounds p e <= n)%nat ->
  prepare_loop n env w sp p e = panic \/
  exists ok w' sp', prepare_loop n env w sp p e = ret (ok, w', sp') /\ quiet w sps k sp w' sp' x /\
    (ok = true -> forall v, p <= v < e -> exists b, writes (c0_of (pmm w)) sp' v b).
Proof.
  intros Henv. induction n as [|n IH]; intros w sps x k sp p e Hinv Hk Ha Hp He Hs Hn; cbn [prepare_loop];
    destruct (Z.ltb_spec p e) as [Hlt|Hge]; cbn [negb].
  - unfold page_rounds in Hn. assert (0 <= (e - p) / PAGE_4KIB) by (apply Z.div_pos; unfold PAGE_4KIB; lia). lia.
  - right. exists true, w, sp. split; [done|]. split; [by apply quiet_refl|]. intros _ v Hv. lia.
  - (* one page, then the others *)
    assert (Hstep : forall w1 sp1, quiet w sps k sp w1 sp1 x -> user_page_ok sp1 p true = true ->
      prepare_loop n env w1 sp1 (wrap (p + PAGE_4KIB)) e = panic \/
      exists ok w' sp', prepare_loop n env w1 sp1 (wrap (p + PAGE_4KIB)) e = ret (ok, w', sp') /\ quiet w sps k sp w' sp' x /\
        (ok = true -> forall v, p <= v < e -> exists b, writes (c0_of (pmm w)) sp' v b)).
    { intros w1 sp1 Hq Hpo. pose proof Hq as [Q1 Q2 _ _ _]. pose proof Q1 as (Hc & _). rewrite wrap_small by (unfold PAGE_4KIB in *; lia).
      assert (Hk1 : <[k := sp1]> sps !! k = Some sp1) by (apply list_lookup_insert_eq; by eapply lookup_lt_Some).
      assert (exists t1, space_ok (pmm w1) sp1 t1) as [t1 Hsp1].
      { eapply live_of; [exact Q2|exact Hk1|]. intros Hn0. unfold user_page_ok in Hpo. by rewrite Hn0 in Hpo. }
      destruct (proj1 (page_ok_writes _ sp1 t1 p Hsp1 ltac:(lia)) Hpo) as [b0 Hw0].
      destruct (IH w1 (<[k := sp1]> sps) x k sp1 (p + PAGE_4KIB) e Q2 Hk1) as [->|(ok & w2 & sp2 & -> & Hq2 & Hall)].
      - unfold PAGE_4KIB in *. Z.to_euclidean_division_equations; lia.
      - unfold PAGE_4KIB; lia.
      - done.
      - done.
      - unfold page_rounds in *. replace (e - p) with (e - (p + PAGE_4KIB) + 1 * PAGE_4KIB) in Hn by lia. rewrite Z.div_add in Hn by done.
        assert (-1 <= (e - (p + PAGE_4KIB)) / PAGE_4KIB) by (apply Z.div_le_lower_bound; unfold PAGE_4KIB; lia). lia.
      - by left.
      - right. exists ok, w2, sp2. split; [done|]. split; [by eapply quiet_trans|]. intros Hok v Hv. rewrite Hc in *.
        destruct (Z.lt_ge_cases v (p + PAGE_4KIB)); [|apply Hall; [done|lia]].
        destruct (q_keeps _ _ _ _ _ _ _ Hq2 v b0) as [b2 Hb2]; [|rewrite Hc in Hb2; by exists b2].
        apply (writes_same_page _ sp1 t1 p v b0 Hsp1); [by rewrite Hc|]. unfold page, PAGE_4KIB in *. Z.to_euclidean_division_equations; lia. }
    destruct (user_page_ok sp p true) eqn:Hpo; [by apply (Hstep w sp); [apply quiet_refl|]|].
    destruct (fault_quiet (env p) w sps x k sp p Hinv Hk (Henv p) ltac:(lia)) as [->|(ok & w1 & sp1 & -> & Hq & Hok)]; [by left|].
    unfold mbind. cbn [run_bind ret]. destruct ok; cbn [negb].
    2:{ right. exists false, w1, sp1. done. }
    destruct Hok as [f Hf]. pose proof Hq as [Q1 Q2 _ _ _]. pose proof Q1 as (Hc & _).
    assert (Hk1 : <[k := sp1]> sps !! k = Some sp1) by (apply list_lookup_insert_eq; by eapply lookup_lt_Some).
    assert (exists t1, space_ok (pmm w1) sp1 t1) as [t1 Hsp1] by (eapply live_of; [exact Q2|exact Hk1|eapply writes_root, (Hf p eq_refl)]).
    assert (Hpo1 : user_page_ok sp1 p true = true).
    { apply (page_ok_writes _ sp1 t1 p Hsp1 ltac:(lia)). rewrite Hc. exists f. by apply Hf. }
    unfold mbind. cbn [run_bind ret]. rewrite Hpo1. cbn [negb]. by apply (Hstep w1 sp1).
  - right. exists true, w, sp. split; [done|]. split; [by apply quiet_refl|]. intros _ v Hv. lia.
Qed.

(** ** Reading and writing *)

Lemma translate_region st sp t r v : pmm_inv st -> space_ok st sp t -> r ∈ regions sp -> covers r v = true ->
  translate t v = Some (c0_of st + frame (c0_of st) r v * PAGE_4KIB + v mod PAGE_4KIB).
Proof.
  intros Hp Hsp Hr Hc. destruct (s_map _ _ _ Hsp r v Hr Hc) as (e & He & Hok). unfold translate. rewrite He.
  rewrite (entry_frame st r v e Hp (space_region _ _ _ _ Hsp Hr) Hok). by destruct Hok as (-> & _).
Qed.

(** The kernel reads through the tables what the thread reads. *)
Lemma translate_load st sp t v m : pmm_inv st -> space_ok st sp t -> permitted sp false v ->
  exists a, translate t v = Some a /\ load m sp v = Some (m a).
Proof.
  intros Hp Hsp (r & Hr & Hc & _). eexists. split; [by eapply translate_region|]. by apply (load_region st sp t r).
Qed.

Lemma read_user_ok st sp t m n : pmm_inv st -> space_ok st sp t -> forall v,
  (forall v', v <= v' < v + Z.of_nat n -> permitted sp false v') ->
  exists l, read_user n m t v = Some l /\ length l = n /\ forall i, (i < n)%nat -> load m sp (v + Z.of_nat i) = l !! i.
Proof.
  intros Hp Hsp. induction n as [|n IH]; intros v Hperm; cbn [read_user].
  { exists []. split_and!; [done|done|lia]. }
  destruct (translate_load st sp t v m Hp Hsp) as (a & -> & Hl); [apply Hperm; lia|]. cbn [mbind option_bind].
  destruct (IH (v + 1)) as (l & -> & Hlen & Hall); [intros v' Hv'; apply Hperm; lia|]. cbn [mbind option_bind].
  exists (m a :: l). split; [done|]. split; [cbn; lia|]. intros [|i] Hi; cbn [lookup list_lookup].
  - by rewrite Z.add_0_r.
  - rewrite <- Hall by lia. f_equal. lia.
Qed.

Lemma write_user_ok st sps x k sp t : mem_inv st sps x -> sps !! k = Some sp -> space_ok st sp t ->
  forall bytes m v, (forall v', v <= v' < v + zlen bytes -> exists b, writes (c0_of st) sp v' b) ->
  exists m', write_user m t v bytes = Some m' /\ forall k' sp' v', sps !! k' = Some sp' -> 0 <= v' < user_limit ->
    load m' sp' v' = if decide (k' = k /\ v <= v' < v + zlen bytes) then bytes !! Z.to_nat (v' - v) else load m sp' v'.
Proof.
  intros Hinv Hk Hsp. induction bytes as [|c bytes IH]; intros m v Hw; cbn [write_user].
  { exists m. split; [done|]. intros. rewrite decide_False; [done|]. unfold zlen. cbn [length]. lia. }
  assert (Hz : zlen (c :: bytes) = zlen bytes + 1) by (unfold zlen; cbn [length]; lia). rewrite Hz in *. pose proof (zlen_nonneg bytes).
  destruct (Hw v ltac:(lia)) as [f Hwf]. pose proof Hwf as (r & e & t1 & Hroot & Hr & Hc & He & Hwe & Hf).
  rewrite (s_root _ _ _ Hsp) in Hroot. injection Hroot as <-.
  rewrite (translate_region st sp t r v (i_pmm _ _ _ Hinv) Hsp Hr Hc), <- Hf. cbn [mbind option_bind].
  unfold writable_at. rewrite He, Hwe.
  destruct (IH (put m (c0_of st + f * PAGE_4KIB + v mod PAGE_4KIB) c) (v + 1)) as (m' & -> & Hv');
    [intros v' Hv'; apply Hw; lia|].
  exists m'. split; [done|]. intros k' sp' v' Hk' Hlim. rewrite (Hv' k' sp' v' Hk' Hlim).
  rewrite (store_exact st sps x k sp v f m c Hinv Hk Hwf k' sp' v' Hk' Hlim).
  destruct (decide (k' = k /\ v + 1 <= v' < v + 1 + zlen bytes)) as [[-> Hr1]|Hn1].
  - rewrite decide_True by lia. replace (Z.to_nat (v' - v)) with (S (Z.to_nat (v' - (v + 1)))) by lia. done.
  - destruct (decide (k' = k /\ v' = v)) as [[-> ->]|Hn2].
    + rewrite decide_True by lia. by replace (v - v) with 0 by lia.
    + by rewrite decide_False by lia.
Qed.

Lemma range_spec_read st sp p len : range_spec sp p len false -> len <> 0 ->
  forall v, p <= v < p + len -> permitted sp false v.
Proof. intros [?|(_ & _ & _ & Hall)] Hne; [lia|]. done. Qed.

Lemma permitted_root st sp w v : live_or_dead st sp -> permitted sp w v -> exists t, space_ok st sp t.
Proof. intros [[_ Hd]|Hl] (r & Hr & _); [|done]. rewrite Hd in Hr. by apply not_elem_of_nil in Hr. Qed.

(** A thread without memory passes no check. *)
Lemma range_dead sp p len write : dead sp -> len <> 0 -> user_range_ok sp p len write = Some false.
Proof.
  intros [_ Hr] Hl. unfold user_range_ok. rewrite (proj2 (Z.eqb_neq len 0)) by done. destruct (_ || _); [done|].
  destruct ((_ <=? _) || _ || _) eqn:Hg; [done|]. bool_facts. rewrite Hr. cbn [length range_loop].
  rewrite (proj2 (Z.ltb_lt _ _)) by done. cbn [negb]. by rewrite Hr.
Qed.

(** Reading from user memory. *)
Lemma copy_from_ok w sps x k sp buf src len : mem_inv (pmm w) sps x -> sps !! k = Some sp -> 0 <= src < SIZE_MOD ->
  0 < len < SIZE_MOD -> len <= zlen buf ->
  exists ok buf', user_copy_from w sp (Some buf) src len = Some (ok, Some buf') /\ (ok = true <-> range_spec sp src len false) /\
    if ok then exists l, zlen l = len /\ buf' = l ++ drop (Z.to_nat len) buf /\
                 forall i, 0 <= i < len -> load (mem w) sp (src + i) = l !! Z.to_nat i
    else buf' = buf.
Proof.
  intros Hinv Hk Hsrc Hlen Hbuf. unfold user_copy_from. rewrite (proj2 (Z.eqb_neq len 0)) by lia.
  pose proof (list_elem_of_lookup_2 _ _ _ Hk) as Hin.
  destruct (proj1 (Forall_forall _ _) (i_spaces _ _ _ Hinv) sp Hin) as [Hd|[t Hsp]].
  { assert (Hno : ~ range_spec sp src len false).
    { intros Hrs. destruct Hd as [_ Hd]. destruct (range_spec_read (pmm w) sp src len Hrs ltac:(lia) src ltac:(lia)) as (r & Hr & _).
      rewrite Hd in Hr. by apply not_elem_of_nil in Hr. }
    exists false, buf. rewrite range_dead by (done || lia). done. }
  destruct (user_range_exact (pmm w) sp t src len false (i_pmm _ _ _ Hinv) Hsp Hsrc ltac:(lia)) as (ok & -> & Hok).
  cbn [mbind option_bind]. destruct ok; cbn [negb]; [|by exists false, buf].
  rewrite (s_root _ _ _ Hsp). cbn [mbind option_bind]. pose proof (proj1 Hok eq_refl) as Hrs.
  destruct (read_user_ok (pmm w) sp t (mem w) (Z.to_nat len) (i_pmm _ _ _ Hinv) Hsp src) as (l & -> & Hl & Hall).
  { rewrite Z2Nat.id by lia. apply (range_spec_read (pmm w) sp src len Hrs). lia. }
  cbn [mbind option_bind]. rewrite mwrite_ok by (unfold zlen in *; lia). cbn [mbind option_bind].
  eexists true, _. split; [reflexivity|]. split; [done|]. exists l. split; [unfold zlen; lia|]. split; [by rewrite Hl|].
  intros i Hi. rewrite <- Hall by lia. f_equal. lia.
Qed.

(** Writing to user memory. *)
Lemma copy_to_ok env w sps x k sp dst bytes : (forall p, env_ok (env p)) -> mem_inv (pmm w) sps x -> sps !! k = Some sp ->
  0 <= dst < SIZE_MOD -> 0 < zlen bytes < SIZE_MOD ->
  user_copy_to env w sp dst (Some bytes) (zlen bytes) = panic \/
  exists ok w' sp', user_copy_to env w sp dst (Some bytes) (zlen bytes) = ret (ok, w', sp') /\
    same_chunk (pmm w) (pmm w') /\ mem_inv (pmm w') (<[k := sp']> sps) x /\ user_thread sp' = user_thread sp /\
    (ok = true -> range_spec sp dst (zlen bytes) true) /\
    forall k' s s' v, sps !! k' = Some s -> <[k := sp']> sps !! k' = Some s' -> 0 <= v < user_limit ->
      load (mem w') s' v = if decide (ok = true /\ k' = k /\ dst <= v < dst + zlen bytes) then bytes !! Z.to_nat (v - dst)
                           else load (mem w) s v.
Proof.
  intros Henv Hinv Hk Hdst Hlen. set (n := zlen bytes) in *. unfold user_copy_to, user_write_prepare. rewrite (proj2 (Z.eqb_neq n 0)) by lia.
  pose proof (list_elem_of_lookup_2 _ _ _ Hk) as Hin.
  assert (Hno : forall w' sp', quiet w sps k sp w' sp' x -> forall k' s s' v, sps !! k' = Some s -> <[k := sp']> sps !! k' = Some s' -> 0 <= v < user_limit ->
      load (mem w') s' v = if decide (false = true /\ k' = k /\ dst <= v < dst + n) then bytes !! Z.to_nat (v - dst) else load (mem w) s v).
  { intros w' sp' Hq k' s s' v Hs Hs' Hv. rewrite decide_False by naive_solver. destruct (q_views _ _ _ _ _ _ _ Hq) as [_ Hqv]. by apply (Hqv k'). }
  assert (Hrefuse : exists ok w' sp', ret (false, w, sp) = ret (ok, w', sp') /\ same_chunk (pmm w) (pmm w') /\ mem_inv (pmm w') (<[k := sp']> sps) x /\ user_thread sp' = user_thread sp /\
    (ok = true -> range_spec sp dst n true) /\
    forall k' s s' v, sps !! k' = Some s -> <[k := sp']> sps !! k' = Some s' -> 0 <= v < user_limit ->
      load (mem w') s' v = if decide (ok = true /\ k' = k /\ dst <= v < dst + n) then bytes !! Z.to_nat (v - dst) else load (mem w) s v).
  { pose proof (quiet_refl w sps k sp x Hinv Hk) as Hq. exists false, w, sp. split; [done|]. split; [apply same_chunk_refl|].
    split; [apply Hq|]. split; [done|]. split; [done|]. by apply (Hno w sp). }
  destruct (proj1 (Forall_forall _ _) (i_spaces _ _ _ Hinv) sp Hin) as [Hd|[t Hsp]].
  { rewrite range_dead by (done || lia). right. exact Hrefuse. }
  destruct (user_range_exact (pmm w) sp t dst n true (i_pmm _ _ _ Hinv) Hsp Hdst ltac:(lia)) as (ok & -> & Hok).
  cbn [lift]. unfold mbind. cbn [run_bind ret]. destruct ok; cbn [negb]; [|right; exact Hrefuse].
  destruct (proj1 Hok eq_refl) as [?|(Hu & Hd0 & Htop & Hperm)]; [lia|]. destruct top_fits as [_ Htf].
  assert (Hlim : dst + n <= user_limit).
  { destruct (Hperm (dst + n - 1) ltac:(lia)) as (r & Hr & Hc & _).
    pose proof (covers_limit (pmm w) r _ (space_region _ _ _ _ Hsp Hr) Hc). lia. }
  rewrite wrap_small by (unfold PAGE_4KIB in *; lia). destruct (align_down_page dst ltac:(lia)) as (Hal & _ & Hle).
  destruct (prepare_ok env _ Henv w sps x k sp (ALIGN_DOWN dst) (dst + n) Hinv Hk Hal ltac:(lia) Hlim ltac:(lia) (le_n _))
    as [->|(ok2 & w1 & sp1 & -> & Hq & Hall)]; [by left|].
  pose proof Hq as [Q1 Q2 Q3 Q4 Q5]. pose proof Q1 as (Hc0 & _). destruct ok2; cbn [negb].
  2:{ right. exists false, w1, sp1. split_and!; try done. by apply (Hno w1 sp1). }
  specialize (Hall eq_refl). assert (Hk1 : <[k := sp1]> sps !! k = Some sp1) by (apply list_lookup_insert_eq; by eapply lookup_lt_Some).
  assert (exists t1, space_ok (pmm w1) sp1 t1) as [t1 Hsp1].
  { destruct (Hall dst ltac:(lia)) as [b Hb]. eapply live_of; [exact Q2|exact Hk1|by eapply writes_root]. }
  cbn [run_bind ret negb]. rewrite (s_root _ _ _ Hsp1). cbn [lift]. unfold mbind. cbn [run_bind ret].
  rewrite mread_ok by (unfold n in *; lia). cbn [lift run_bind ret]. change (Z.to_nat 0) with 0%nat. rewrite drop_0, take_ge by (unfold n, zlen; rewrite Nat2Z.id; done).
  destruct (write_user_ok (pmm w1) (<[k := sp1]> sps) x k sp1 t1 Q2 Hk1 Hsp1 bytes (mem w1) dst) as (m' & -> & Hv).
  { intros v Hv. rewrite Hc0. apply Hall. lia. }
  right. exists true, (mk_phys (pmm w1) m'), sp1. split_and!; try done; [by right|].
  intros k' s s' v Hs Hs' Hvl. cbn [mem]. rewrite (Hv k' s' v Hs' Hvl). fold n. destruct Q3 as [_ Q3].
  destruct (decide (k' = k /\ dst <= v < dst + n)) as [Hy|Hy].
  - by rewrite decide_True.
  - rewrite decide_False by tauto. by apply (Q3 k').
Qed.

(** ** Strings *)

(** The byte of a thread at an address the kernel may read. *)
Definition readable sp v : Prop := range_spec sp (wrap v) 1 false.
Definition byte_at (m : Z -> Z) sp v : option Z := load m sp (wrap v).

(** The bytes [l] were read from [src] on, and none is the end of the string. *)
Definition read_so_far (m : Z -> Z) sp src (l : list Z) : Prop :=
  forall j, 0 <= j < zlen l -> readable sp (src + j) /\ byte_at m sp (src + j) = l !! Z.to_nat j /\ l !! Z.to_nat j <> Some 0.

(** One character: it is read when it may be. *)
Lemma char_ok w sps x k sp v : mem_inv (pmm w) sps x -> sps !! k = Some sp ->
  exists ok, user_range_ok sp (wrap v) 1 false = Some ok /\ (ok = true <-> readable sp v) /\
    (ok = true -> exists t a, root sp = Some t /\ translate t (wrap v) = Some a /\ byte_at (mem w) sp v = Some (mem w a)).
Proof.
  intros Hinv Hk. pose proof SIZE_MOD_ge. assert (Hv : 0 <= wrap v < SIZE_MOD) by apply wrap_range. assert (Hself : wrap v <= wrap v < wrap v + 1) by lia.
  destruct (proj1 (Forall_lookup _ _) (i_spaces _ _ _ Hinv) k sp Hk) as [Hd|[t Hsp]].
  - exists false. rewrite range_dead by done. split; [done|]. split; [|done]. split; [done|]. intros Hr.
    destruct (range_spec_read (pmm w) sp (wrap v) 1 Hr ltac:(done) (wrap v) Hself) as (r & Hin & _). destruct Hd as [_ Hd]. rewrite Hd in Hin. by apply not_elem_of_nil in Hin.
  - destruct (user_range_exact (pmm w) sp t (wrap v) 1 false (i_pmm _ _ _ Hinv) Hsp Hv ltac:(lia)) as (ok & -> & Hok).
    exists ok. split; [done|]. split; [done|]. intros ->. pose proof (range_spec_read (pmm w) sp (wrap v) 1 (proj1 Hok eq_refl) ltac:(done) (wrap v) Hself) as Hp.
    destruct (translate_load (pmm w) sp t (wrap v) (mem w) (i_pmm _ _ _ Hinv) Hsp Hp) as (a & Ha & Hl). exists t, a. split; [apply Hsp|done].
Qed.

(** How the copy of a string ends. *)
Definition string_end (m : Z -> Z) sp src (n : Z) (buf l : list Z) (e : Z) (buf' : list Z) : Prop :=
  (e = - EFAULT /\ zlen l < n /\ ~ readable sp (src + zlen l) /\ buf' = l ++ drop (length l) buf) \/
  (e = 0 /\ zlen l < n /\ readable sp (src + zlen l) /\ byte_at m sp (src + zlen l) = Some 0 /\ buf' = l ++ 0 :: drop (S (length l)) buf) \/
  (e = - ENAMETOOLONG /\ zlen l = n /\ buf' = take (Z.to_nat (n - 1)) l ++ 0 :: drop (Z.to_nat n) buf).

Lemma string_loop_ok w sps x k sp src n : mem_inv (pmm w) sps x -> sps !! k = Some sp ->
  forall l buf, read_so_far (mem w) sp src l -> zlen l + Z.of_nat n <= zlen buf ->
  exists res l', string_loop n (zlen l) w sp src (l ++ drop (length l) buf) = Some res /\ read_so_far (mem w) sp src l' /\
    match res with
    | inl (e, d) => string_end (mem w) sp src (zlen l + Z.of_nat n) buf l' e d
    | inr d => zlen l' = zlen l + Z.of_nat n /\ d = l' ++ drop (length l') buf
    end.
Proof.
  intros Hinv Hk. induction n as [|n IH]; intros l buf Hl Hb; cbn [string_loop].
  { exists (inr (l ++ drop (length l) buf)), l. split; [done|]. split; [done|]. split; [lia|done]. }
  destruct (char_ok w sps x k sp (src + zlen l) Hinv Hk) as (ok & -> & Hok & Hread). cbn [mbind option_bind]. destruct ok; cbn [negb].
  2:{ eexists (inl (_, _)), l. split; [reflexivity|]. split; [done|]. left. split_and!; try done; [lia|]. intros Hr. by apply Hok in Hr. }
  destruct (Hread eq_refl) as (t & a & -> & Ha & Hba). cbn [mbind option_bind]. rewrite Ha. cbn [mbind option_bind].
  assert (Hst : mstore (l ++ drop (length l) buf) (zlen l) (mem w a) = Some (l ++ mem w a :: drop (S (length l)) buf)).
  { rewrite mstore_ok by (unfold zlen in *; rewrite length_app, length_drop; lia). unfold zlen in *. rewrite Nat2Z.id. f_equal.
    rewrite insert_app_r_alt by lia. rewrite Nat.sub_diag. destruct (lookup_lt_is_Some_2 buf (length l) ltac:(lia)) as [c Hc]. by rewrite (drop_S _ _ _ Hc). }
  rewrite Hst. cbn [mbind option_bind]. destruct (Z.eqb_spec (mem w a) 0) as [Hz|Hz].
  { rewrite Hz in *. eexists (inl (_, _)), l. split; [reflexivity|]. split; [done|]. right; left. split_and!; try done; [lia|]. by apply Hok. }
  assert (Hl' : read_so_far (mem w) sp src (l ++ [mem w a])).
  { intros j Hj. unfold zlen in *. rewrite length_app in Hj. cbn in Hj. destruct (Z.eq_dec j (Z.of_nat (length l))) as [->|Hne].
    - rewrite Nat2Z.id, lookup_app_r, Nat.sub_diag by lia. cbn. split_and!; [by apply Hok|done|congruence].
    - rewrite lookup_app_l by lia. apply Hl. unfold zlen. lia. }
  assert (Hz1 : zlen (l ++ [mem w a]) = zlen l + 1) by (unfold zlen; rewrite length_app; cbn; lia).
  destruct (IH (l ++ [mem w a]) buf Hl') as (res & l' & Hr & Hl2 & He); [lia|].
  rewrite Hz1 in *. exists res, l'. split.
  - rewrite <- Hr. f_equal. rewrite length_app, Nat.add_1_r. by rewrite <- app_assoc.
  - split; [done|]. replace (zlen l + Z.of_nat (S n)) with (zlen l + 1 + Z.of_nat n) by lia. done.
Qed.

Lemma copy_string_ok w sps x k sp src buf n : mem_inv (pmm w) sps x -> sps !! k = Some sp -> src <> 0 -> 0 < n -> n <= zlen buf ->
  exists e buf' l, user_copy_string w sp src (Some buf) n = Some (e, Some buf') /\ read_so_far (mem w) sp src l /\
    string_end (mem w) sp src n buf l e buf'.
Proof.
  intros Hinv Hk Hs Hn Hb. unfold user_copy_string. rewrite (proj2 (Z.eqb_neq src 0)), (proj2 (Z.eqb_neq n 0)) by lia. cbn [orb].
  destruct (string_loop_ok w sps x k sp src (Z.to_nat n) Hinv Hk [] buf) as (res & l & Hr & Hl & He); [intros j Hj; unfold zlen in Hj; cbn in Hj; lia|change (zlen (@nil Z)) with 0; lia|].
  change (zlen (@nil Z)) with 0 in *. cbn [app length] in Hr. rewrite drop_0 in Hr. rewrite Hr. cbn [mbind option_bind]. rewrite Z2Nat.id in He by lia.
  destruct res as [[e d]|d]; [by exists e, d, l|]. destruct He as [Hlen ->]. assert (Hln : length l = Z.to_nat n) by (unfold zlen in *; lia).
  rewrite mstore_ok by (unfold zlen in *; rewrite length_app, length_drop; lia). cbn [mbind option_bind].
  eexists _, _, l. split; [reflexivity|]. split; [done|]. right; right. split_and!; [done|lia|]. rewrite insert_app_l by lia.
  assert (l = take (Z.to_nat (n - 1)) l ++ drop (Z.to_nat (n - 1)) l) as Hsp by (by rewrite take_drop). rewrite Hsp at 1.
  rewrite insert_app_r_alt by (rewrite length_take; lia). rewrite length_take, Nat.min_l, Nat.sub_diag by lia. rewrite <- app_assoc. f_equal.
  destruct (lookup_lt_is_Some_2 l (Z.to_nat (n - 1)) ltac:(lia)) as [c Hc]. rewrite (drop_S _ _ _ Hc). cbn [insert list_insert app]. f_equal.
  rewrite drop_ge by lia. by rewrite Hln.
Qed.
End Proofs.
End UserAccess.
