(* ===== verification/MapCalls.v ===== *)
(** * Mapping and unmapping memory

    The system calls [mmap] and [munmap] of [kernel/sys/syscall.c]: checking the request, choosing a
    place, and changing the regions and tables of the thread.  A request is the structure as it was
    copied from user memory; what the file system does for a mapping of a file (finding the open file,
    reading its bytes) is an argument. *)

From S2P Require Import Prelude Errno Memory Outcome Bitmap BitmapAlloc Pmm Paging UserMem.
From stdpp Require Import list.
Import Bitmap BitmapAlloc Pmm Paging UserMem.
Open Scope Z_scope.

Module MapCalls.

Definition PROT_NONE : Z := 0.
Definition PROT_READ : Z := 1.
Definition PROT_WRITE : Z := 2.
Definition PROT_EXEC : Z := 4.
Definition MAP_SHARED : Z := 0x01.
Definition MAP_PRIVATE : Z := 0x02.
Definition MAP_FIXED : Z := 0x10.
Definition MAP_ANON : Z := 0x20.

Record mmap_args_t := mk_args { addr : Z; len : Z; prot : Z; mflags : Z; fd : Z; offset : Z }.

Section Defs.
Context `{PT : PageTables}.
Implicit Types (sp : space) (r region : sched_user_region_t) (st : pmm_state_t) (m : Z -> Z) (t : pt) (req : mmap_args_t)
  (l : list sched_user_region_t).

(** [ALIGN(x, PAGE_4KIB)] *)
Definition ALIGN (x : Z) : Z := let y := wrap (x + (PAGE_4KIB - 1)) in y - y mod PAGE_4KIB.

(** ** Places *)

Definition _region_bounds r : option (Z * Z) :=
  if pages r =? 0 then None
  else if SIZE_MAX / PAGE_4KIB <? pages r then None
  else
    let start := vaddr r in
    let size := wrap (pages r * PAGE_4KIB) in
    let end_ := wrap (start + size) in
    if end_ <=? start then None else Some (start, end_).

Definition _region_end r : Z := match _region_bounds r with Some (_, end_) => end_ | None => 0 end.

Definition _region_overlaps r (start end_ : Z) : bool :=
  if end_ <=? start then false
  else
    match _region_bounds r with
    | None => false
    | Some (region_start, region_end) => (start <? region_end) && (region_start <? end_)
    end.

(** The first loop of [_pick_mmap_base]: above every region but those of the stack. *)
Fixpoint base_loop l (stack_base stack_end base : Z) : Z :=
  match l with
  | [] => base
  | r :: l =>
      match _region_bounds r with
      | None => base_loop l stack_base stack_end base
      | Some (region_start, region_end) =>
          if negb (stack_base =? 0) && (stack_base <=? region_start) && (region_end <=? stack_end)
          then base_loop l stack_base stack_end base
          else base_loop l stack_base stack_end (if base <? region_end then region_end else base)
      end
  end.

(** One pass over the regions: [inl] for [return 0], [inr None] when none is in the way, [inr (Some a)]
    when the place moves to [a]. *)
Fixpoint advance l (a size : Z) : unit + option Z :=
  match l with
  | [] => inr None
  | r :: l =>
      if SIZE_MAX - a <? size then inl tt
      else if negb (_region_overlaps r a (wrap (a + size))) then advance l a size
      else
        let region_end := _region_end r in
        if (region_end =? 0) || (SIZE_MAX - (PAGE_4KIB - 1) <? region_end) then inl tt
        else inr (Some (ALIGN region_end))
  end.

(** [while (advanced)]: the place moves past one region each time. *)
Fixpoint advance_loop (n : nat) l (a size : Z) : option (unit + Z) :=
  match advance l a size with
  | inl tt => Some (inl tt)
  | inr None => Some (inr a)
  | inr (Some a') => match n with O => None | S n => advance_loop n l a' size end
  end.

(** The place for [size] bytes, 0 without one; [stack_base] and [stack_size] are the thread's stack. *)
Definition _pick_mmap_base l (user_stack_base user_stack_size size : Z) : option Z :=
  let stack_base := if user_stack_base =? 0 then arch_user_stack_top else user_stack_base in
  let stack_end := wrap (stack_base + user_stack_size) in
  let stack_end := if stack_end <? stack_base then SIZE_MAX else stack_end in
  let base := base_loop l stack_base stack_end 0x00400000 in
  if SIZE_MAX - (PAGE_4KIB - 1) <? base then Some 0
  else
    r ← advance_loop (length l) l (ALIGN base) size;
    match r with
    | inl tt => Some 0
    | inr a => if (SIZE_MAX - a <? size) || (stack_base <? wrap (a + size)) then Some 0 else Some a
    end.

Definition _mmap_prot_flags (nx : bool) (p : Z) : Z :=
  let flags := PT_USER in
  let flags := if has p PROT_WRITE then Z.lor flags PT_WRITE else flags in
  if nx && negb (has p PROT_EXEC) then Z.lor flags PT_NO_EXECUTE else flags.

Definition _mmap_prot_valid (p : Z) : bool :=
  let known := Z.lor (Z.lor PROT_READ PROT_WRITE) PROT_EXEC in
  negb (p =? PROT_NONE) && (Z.ldiff p known =? 0).

Definition _mmap_flags_valid (f : Z) : bool :=
  let known := Z.lor (Z.lor (Z.lor MAP_SHARED MAP_PRIVATE) MAP_FIXED) MAP_ANON in
  Z.ldiff f known =? 0.

(** The checks of [_mmap_read_args]: an error, or the size and the number of pages.  An offset that is not
    negative always fits a [size_t]. *)
Definition _mmap_read_args req : Z + (Z * Z) :=
  if len req =? 0 then inl (- EINVAL)
  else if SIZE_MAX - (PAGE_4KIB - 1) <? len req then inl (- EINVAL)
  else if (offset req <? 0) || negb (Z.rem (offset req) PAGE_4KIB =? 0) then inl (- EINVAL)
  else if negb (_mmap_prot_valid (prot req)) || negb (_mmap_flags_valid (mflags req)) then inl (- EINVAL)
  else
    let map_type := Z.land (mflags req) (Z.lor MAP_SHARED MAP_PRIVATE) in
    if negb (map_type =? MAP_SHARED) && negb (map_type =? MAP_PRIVATE) then inl (- EINVAL)
    else if map_type =? MAP_SHARED then inl (- ENOTSUP)
    else if has (mflags req) MAP_ANON && negb (fd req =? -1) then inl (- EINVAL)
    else
      let size := ALIGN (len req) in
      inr (size, size / PAGE_4KIB).

(** The loop of [_mmap_place]: is a region in the way? *)
Fixpoint in_the_way l (a end_ : Z) : bool :=
  match l with
  | [] => false
  | r :: l => if _region_overlaps r a end_ then true else in_the_way l a end_
  end.

(** An error or an address. *)
Definition _mmap_place l (user_stack_base user_stack_size : Z) req (size : Z) : option (Z + Z) :=
  let a := addr req in
  if negb (a =? 0) && negb (a mod PAGE_4KIB =? 0) then Some (inl (- EINVAL))
  else
    let fixed := has (mflags req) MAP_FIXED in
    if (a =? 0) && fixed then Some (inl (- EINVAL))
    else
      a ← (if a =? 0 then _pick_mmap_base l user_stack_base user_stack_size size else Some a);
      if (a =? 0) || (SIZE_MAX - a <? size) then Some (inl (- ENOMEM))
      else
        let end_ := wrap (a + size) in
        let stack_top := if user_stack_base =? 0 then arch_user_stack_top else user_stack_base in
        if stack_top <? end_ then Some (inl (- ENOMEM))
        else if negb (in_the_way l a end_) then Some (inr a)
        else if fixed then Some (inl (- ENOMEM))
        else
          a ← _pick_mmap_base l user_stack_base user_stack_size size;
          if (a =? 0) || (SIZE_MAX - a <? size) then Some (inl (- ENOMEM))
          else
            let end_ := wrap (a + size) in
            if (a =? 0) || (stack_top <? end_) then Some (inl (- ENOMEM)) else Some (inr a).

(** ** [mmap] *)

Fixpoint find_exact l (a n : Z) : option nat :=
  match l with
  | [] => None
  | r :: l => if (vaddr r =? a) && (pages r =? n) then Some O else S <$> find_exact l a n
  end.

Definition _drop_region_exact sp (a n : Z) : space :=
  match find_exact (regions sp) a n with
  | None => sp
  | Some k => sched_user_mem_sub (set_regions (take k (regions sp) ++ drop (S k) (regions sp)) sp) n
  end.

Definition _unmap_user_pages t (a n : Z) : pt := unmap_loop (Z.to_nat n) 0 a t.

Definition _mmap_undo_alloc st sp t (a pa n : Z) (drop_region : bool) : option (pmm_state_t * space) :=
  let sp := if drop_region then _drop_region_exact sp a n else sp in
  let sp := set_root (_unmap_user_pages t a n) sp in
  st ← (if negb (pa =? 0) then free_frames st pa n else Some st);
  Some (st, sp).

(** What [memset] and the bytes of a file leave in the frames: the bytes, then zeros. *)
Definition content (bytes : list Z) (off : Z) : Z := default 0 (bytes !! Z.to_nat off).
Definition fill_range m (pa size : Z) (bytes : list Z) : Z -> Z :=
  fun a => if (pa <=? a) && (a <? pa + size) then content bytes (a - pa) else m a.

(** What the call meets: whether pages can be made non-executable, the thread's stack, the end of memory
    frames come from, whether a node is found, whether [arch_phys_map] succeeds; for a file, what
    [_mmap_file_node] answers, and the result of [vfs_read] with the bytes it wrote. *)
Record mmap_env := mk_mmap {
  map_nx : bool; stack_base : Z; stack_size : Z; map_high : bool; map_node : bool; map_phys : bool;
  file_node : Z; file_read : Z * list Z
}.

(** [sys_mmap] from the allocation on; [file] says whether a file is mapped. *)
Definition mmap_commit (env : mmap_env) (w : phys) sp (a n page_flags : Z) (file : bool) : run (Z * phys * space) :=
  match root sp with
  | None => ret (- ENOMEM, w, sp)
  | Some t =>
      '(pa, st) ← alloc_frames_user (map_high env) (pmm w) n;
      if pa =? 0 then ret (- ENOMEM, mk_phys st (mem w), sp)
      else
        '(st, t) ← arch_map_region st t n a pa page_flags;
        let '(added, sp) := sched_add_user_region (map_node env) (set_root t sp) a pa n page_flags in
        if negb added then
          '(st, sp) ← lift (_mmap_undo_alloc st sp t a pa n false); ret (- ENOMEM, mk_phys st (mem w), sp)
        else if negb (map_phys env) then
          '(st, sp) ← lift (_mmap_undo_alloc st sp t a pa n true); ret (- ENOMEM, mk_phys st (mem w), sp)
        else
          let '(read_len, bytes) := if file then file_read env else (0, []) in
          let m := fill_range (mem w) pa (n * PAGE_4KIB) bytes in
          if read_len <? 0 then
            '(st, sp) ← lift (_mmap_undo_alloc st sp t a pa n true); ret (read_len, mk_phys st m, sp)
          else ret (a, mk_phys st m, sp)
  end.

Definition sys_mmap (env : mmap_env) (w : phys) sp req : run (Z * phys * space) :=
  match root sp with
  | None => ret (- EINVAL, w, sp)
  | Some _ =>
      match _mmap_read_args req with
      | inl e => ret (e, w, sp)
      | inr (size, n) =>
          place ← lift (_mmap_place (regions sp) (stack_base env) (stack_size env) req size);
          match place with
          | inl e => ret (e, w, sp)
          | inr a =>
              let file := negb (has (mflags req) MAP_ANON) in
              if file && (file_node env <? 0) then ret (file_node env, w, sp)
              else mmap_commit env w sp a n (_mmap_prot_flags (map_nx env) (prot req)) file
          end
      end
  end.

(** ** [munmap] *)

Record munmap_cut_t := mk_cut { cstart : Z; cend : Z; before_pages : Z; overlap_pages : Z; after_pages : Z; page_index : Z }.

Definition _munmap_req sp (a n : Z) : Z + (Z * Z) :=
  if (a =? 0) || (n =? 0) || (SIZE_MAX - (PAGE_4KIB - 1) <? n) then inl (- EINVAL)
  else
    match root sp with
    | None => inl (- EINVAL)
    | Some _ =>
        if negb (a mod PAGE_4KIB =? 0) then inl (- EINVAL)
        else
          let size := ALIGN n in
          let end_ := wrap (a + size) in
          if end_ <? a then inl (- EINVAL) else inr (a, end_)
    end.

Definition _munmap_cut (base end_ : Z) r : option munmap_cut_t :=
  let start := vaddr r in
  let finish := _region_end r in
  let cut_start := if start <? base then base else start in
  let cut_end := if end_ <? finish then end_ else finish in
  if cut_end <=? cut_start then None
  else
    let before := wrap (cut_start - start) / PAGE_4KIB in
    Some (mk_cut cut_start cut_end before (wrap (cut_end - cut_start) / PAGE_4KIB)
            (wrap (finish - cut_end) / PAGE_4KIB) before).

Definition _munmap_pages st sp t r (cut : munmap_cut_t) : option (pmm_state_t * space) :=
  let sp := set_root (unmap_loop (Z.to_nat (overlap_pages cut)) 0 (cstart cut) t) sp in
  let pa := wrap (paddr r + wrap (page_index cut * PAGE_4KIB)) in
  st ← free_frames st pa (overlap_pages cut);
  Some (st, sched_user_mem_sub sp (overlap_pages cut)).

(** What is left of a region: the pages before the cut and those after it. *)
Definition pieces r (cut : munmap_cut_t) : list sched_user_region_t :=
  (if before_pages cut =? 0 then [] else [mk_region (vaddr r) (paddr r) (before_pages cut) (flags r)]) ++
  (if after_pages cut =? 0 then []
   else [mk_region (cend cut) (wrap (paddr r + wrap ((page_index cut + overlap_pages cut) * PAGE_4KIB))) (after_pages cut) (flags r)]).

(** The loop over the regions; [nodes] tells whether the [i]-th new node is found.  The answer is the
    status, the memory, and the regions from here on. *)
Fixpoint munmap_loop (nodes : nat -> bool) (i : nat) (base end_ : Z) l st sp (unmapped : bool)
  : run (Z * pmm_state_t * space * list sched_user_region_t) :=
  match l with
  | [] => ret (if unmapped then 0 else - EINVAL, st, sp, [])
  | r :: l =>
      match _munmap_cut base end_ r with
      | None =>
          '(status, st, sp, l) ← munmap_loop nodes i base end_ l st sp unmapped;
          ret (status, st, sp, r :: l)
      | Some cut =>
          let tail := negb (before_pages cut =? 0) && negb (after_pages cut =? 0) in
          if tail && negb (nodes i) then ret (- ENOMEM, st, sp, r :: l)
          else
            t ← lift (root sp);
            '(st, sp) ← lift (_munmap_pages st sp t r cut);
            '(status, st, sp, l) ← munmap_loop nodes (if tail then S i else i) base end_ l st sp true;
            ret (status, st, sp, pieces r cut ++ l)
      end
  end.

Definition sys_munmap (nodes : nat -> bool) (w : phys) sp (a n : Z) : run (Z * phys * space) :=
  match _munmap_req sp a n with
  | inl e => ret (e, w, sp)
  | inr (base, end_) =>
      '(status, st, sp, l) ← munmap_loop nodes 0 base end_ (regions sp) (pmm w) sp false;
      ret (status, mk_phys st (mem w), set_regions l sp)
  end.
End Defs.
End MapCalls.
