(* ===== verification/MapMemory.v ===== *)
(** * Mapping and unmapping keep the memories apart

    [mmap] finds a free place in the thread's memory and fills it; [munmap] takes away exactly the pages
    of its range; both keep the invariant of [CowMemory] and the bytes of every other page. *)

From S2P Require Import Prelude Errno Memory Outcome Bitmap BitmapAlloc Pmm Paging UserMem CowMemory ForkMemory UserAccess MapCalls.
From stdpp Require Import list sets.
Import Bitmap BitmapAlloc Pmm Paging UserMem CowMemory ForkMemory UserAccess MapCalls.
Open Scope Z_scope.

Module MapMemory.
Section Proofs.
Context `{PT : PageTables}.
Implicit Types (sp : space) (r : sched_user_region_t) (st : pmm_state_t) (t : pt) (v b : Z).

Notation c0_of st := (chunk_start (frames st)).

(** ** New memory *)

(** A space takes the place of another; what it holds more, and the new tables, were paid for. *)
Lemma inv_regrow st st' sps x x' k sp sp' t t' : mem_inv st sps x -> sps !! k = Some sp -> keeps_used st st' ->
  space_ok st' sp' t' -> (forall b, 0 <= x' b) ->
  (forall b, 0 <= pt_own t' b - pt_own t b /\ pt_own t' b - pt_own t b = frame_ref st' b - frame_ref st b) ->
  (forall b, holds (c0_of st) sp' b + x' b = holds (c0_of st) sp b + x b + (pt_own t' b - pt_own t b)) ->
  (forall v b, writes (c0_of st) sp' v b -> total (c0_of st) sps b + x b = 1) ->
  mem_inv st' (<[k := sp']> sps) x'.
Proof.
  intros [I1 I2 I3 I4 I5 I6] Hk Hkeep Hok Hx Hown Hh Hw. pose proof Hkeep as (Hp & Hs & Hkp). pose proof Hs as (Hc0 & _).
  assert (Ht : forall b, total (c0_of st) (<[k := sp']> sps) b + x' b = total (c0_of st) sps b + x b + (pt_own t' b - pt_own t b)).
  { intros b. rewrite (total_insert _ sps k sp sp' b Hk). specialize (Hh b). lia. }
  constructor.
  - done.
  - by eapply chunk_ok_same.
  - apply Forall_insert; [|right; by exists t']. eapply Forall_impl; [exact I3|]. intros y. by apply live_chunk.
  - done.
  - intros b. rewrite Hc0, Ht. specialize (I5 b). specialize (Hown b). lia.
  - intros y v b Hy Hwr. rewrite Hc0 in *. rewrite Ht. assert (Hone : total (c0_of st) sps b + x b = 1).
    { apply list_elem_of_lookup in Hy as [j Hj]. destruct (decide (j = k)) as [->|Hne].
      - rewrite list_lookup_insert_eq in Hj by (by eapply lookup_lt_Some). injection Hj as <-. by eapply Hw.
      - rewrite list_lookup_insert_ne in Hj by done. eapply I6; [by eapply list_elem_of_lookup_2|done]. }
    specialize (I5 b). rewrite (own_grows st st' t t' b Hkeep Hown) by lia. lia.
Qed.

Lemma unmap_loop_ok n i t va : pt_ok t -> va mod PAGE_4KIB = 0 -> 0 <= va -> 0 <= i ->
  va + (i + Z.of_nat n) * PAGE_4KIB <= user_limit ->
  (forall v, in_pages va i (Z.of_nat n) v = true -> exists e, get_page t v = Some (PAGE_4KIB, e)) ->
  pt_ok (unmap_loop n i va t) /\ (forall b, pt_own (unmap_loop n i va t) b = pt_own t b) /\
  forall v, 0 <= v < user_limit -> get_page (unmap_loop n i va t) v = if in_pages va i (Z.of_nat n) v then None else get_page t v.
Proof.
  revert i t. induction n as [|n IH]; intros i t Hpt Ha Hva Hi Hlim Hmap; cbn [unmap_loop].
  { split_and!; try done. intros v _. unfold in_pages. change (Z.of_nat 0) with 0. rewrite Z.add_0_r.
    destruct (Z.leb_spec (va + i * PAGE_4KIB) v); [|done]. cbn [andb]. by rewrite (proj2 (Z.ltb_ge _ _)) by lia. }
  rewrite Nat2Z.inj_succ, <- Z.add_1_r in *. pose proof user_limit_ok.
  rewrite (wrap_small (i * PAGE_4KIB)), wrap_small by (unfold PAGE_4KIB in *; lia).
  set (p := va + i * PAGE_4KIB). assert (Hp : 0 <= p < user_limit) by (unfold p, PAGE_4KIB in *; lia).
  destruct (Hmap p) as (e & He); [rewrite in_pages_step by (done || lia); unfold p; by rewrite Z.eqb_refl|].
  unfold unmap_page. rewrite He. destruct (set_entry_ok t p e 0 Hpt Hp He) as (S1 & S2 & S3 & S4).
  change (has 0 PT_PRESENT) with false in S3. cbn iota in S3.
  destruct (IH (i + 1) (set_entry t p 0)) as (U1 & U2 & U3); try done; try lia.
  { intros v Hv. assert (Hin : in_pages va i (Z.of_nat n + 1) v = true) by (rewrite in_pages_step, Hv by (done || lia); apply orb_true_r).
    assert (Hne : page v <> page p) by (unfold in_pages, page, p, PAGE_4KIB in *; bool_facts; Z.to_euclidean_division_equations; lia).
    rewrite S4; [by apply Hmap| |done]. unfold in_pages, PAGE_4KIB in *. bool_facts. lia. }
  split_and!; [done|intros b; by rewrite U2|]. intros v Hv. rewrite U3 by done.
  rewrite (in_pages_step va i (Z.of_nat n) v) by (done || lia). fold p.
  destruct (in_pages va (i + 1) (Z.of_nat n) v); [by rewrite orb_true_r|]. rewrite orb_false_r.
  destruct (Z.eqb_spec (page v) (page p)) as [Hpg|Hpg]; [by rewrite (get_page_same _ v p Hpg)|by apply S4].
Qed.

(** Bytes of frames nobody uses can change unseen. *)
Lemma load_unused_run st sps x k sp v m m' f n : mem_inv st sps x -> sps !! k = Some sp -> 0 <= v < user_limit ->
  (forall b, inside f n b = true -> total (c0_of st) sps b = 0) ->
  (forall a, a < c0_of st + f * PAGE_4KIB \/ c0_of st + (f + n) * PAGE_4KIB <= a -> m' a = m a) ->
  load m' sp v = load m sp v.
Proof.
  intros Hinv Hk Hv Ht Hm. pose proof (list_elem_of_lookup_2 _ _ _ Hk) as Hin.
  pose proof (proj1 (Forall_forall _ _) (i_spaces _ _ _ Hinv) sp Hin) as Hld.
  destruct (load_cases st sp v m Hv Hld) as [[-> Hn]|(t & r & Hsp & Hr & Hc)]; [by rewrite Hn|].
  rewrite !(load_region st sp t r v) by (done || apply Hinv). f_equal. apply Hm.
  assert (inside f n (frame (c0_of st) r v) = false).
  { destruct (inside f n _) eqn:E; [|done]. exfalso. pose proof (uses_occ (c0_of st) _ _ r Hr (uses_frame (c0_of st) r v Hc)).
    pose proof (total_elem (c0_of st) sps sp (frame (c0_of st) r v) Hin) as Hte. unfold holds in Hte.
    pose proof (own_nonneg sp (frame (c0_of st) r v)). specialize (Ht _ E). lia. }
  pose proof (Z.mod_pos_bound v PAGE_4KIB ltac:(done)). unfold inside in *. unfold PAGE_4KIB in *.
  destruct (Z.leb_spec f (frame (c0_of st) r v)), (Z.ltb_spec (frame (c0_of st) r v) (f + n)); cbn [andb] in *; try done; lia.
Qed.

(** A free place for [n] pages, as [_mmap_place] finds it. *)
Record place_ok sp (addr n fl : Z) : Prop := {
  l_align : addr mod PAGE_4KIB = 0;
  l_low : 0 <= addr;
  l_pages : 0 < n < SIZE_MOD;
  l_high : addr + n * PAGE_4KIB <= user_limit;
  l_free : forall v, addr <= v < addr + n * PAGE_4KIB -> cov (regions sp) v = 0;
  l_user : has fl PT_USER = true;
  l_huge : has fl PT_HUGE = false
}.

Definition in_range (addr n v : Z) : bool := (addr <=? v) && (v <? addr + n * PAGE_4KIB).

Definition mmap_done (w : phys) sps (x : Z -> Z) k sp (addr n : Z) (bytes : list Z) (res : run (Z * phys * space)) : Prop :=
  res = panic \/
  exists status w' sp', res = ret (status, w', sp') /\ same_chunk (pmm w) (pmm w') /\
    mem_inv (pmm w') (<[k := sp']> sps) x /\ user_thread sp' = user_thread sp /\ (status = addr \/ status < 0) /\
    forall k' s s' v, sps !! k' = Some s -> <[k := sp']> sps !! k' = Some s' -> 0 <= v < user_limit ->
      load (mem w') s' v = if decide (0 <= status /\ k' = k /\ in_range addr n v = true) then Some (content bytes (v - addr)) else load (mem w) s v.

Section Mmap.
Context st sps x k sp t addr n fl pa f st1 st2 t2
  (Hinv : mem_inv st sps x) (Hk : sps !! k = Some sp) (Hsp : space_ok st sp t) (Hpl : place_ok sp addr n fl)
  (Hf : frames_at st pa f n) (Hs1 : same_chunk st st1) (Hfx : fidx (c0_of st) pa = f)
  (Hz : forall b, inside f n b = true -> total (c0_of st) sps b = 0 /\ x b = 0)
  (Hinv1 : mem_inv st1 sps (fun b => x b + bit (inside f n b)))
  (Hkeep : keeps_used st1 st2) (Hpt : pt_ok t2)
  (Hown : forall b, 0 <= pt_own t2 b - pt_own t b /\ pt_own t2 b - pt_own t b = frame_ref st2 b - frame_ref st1 b)
  (Hget : forall v, 0 <= v < user_limit -> get_page t2 v =
     if in_pages addr 0 n v then Some (PAGE_4KIB, leaf (pa + (v - addr) / PAGE_4KIB * PAGE_4KIB) fl) else get_page t v).

Let r := mk_region addr pa n fl.

Lemma mmap_region : region_ok st r /\ region_bounds_ok addr pa n = true.
Proof.
  assert (Hr : region_ok st r).
  { destruct Hpl as [P1 P2 P3 P4 P5 P6 P7]. constructor; try done. cbn [r paddr pages]. by rewrite Hfx. }
  split; [done|]. exact (bounds_ok st r (i_pmm _ _ _ Hinv) Hr).
Qed.

Lemma mmap_covers v : covers r v = in_range addr n v.
Proof. done. Qed.

Lemma mmap_c0 : c0_of st1 = c0_of st /\ c0_of st2 = c0_of st.
Proof. destruct Hs1 as (H1' & _). destruct Hkeep as (_ & (H2' & _) & _). split; congruence. Qed.

Lemma mmap_used b : uses (c0_of st) r b = inside f n b.
Proof. unfold uses. cbn [r paddr pages]. by rewrite Hfx. Qed.

(** The new region is in place. *)
(** The new frames can be filled unseen. *)
Lemma mmap_unseen m bytes j s v : sps !! j = Some s -> 0 <= v < user_limit -> load (fill_range m pa (n * PAGE_4KIB) bytes) s v = load m s v.
Proof.
  intros Hj Hv. destruct mmap_region as [Hr _]. pose proof (region_frames st r (i_pmm _ _ _ Hinv) Hr) as (Hpa & _).
  cbn [r paddr] in Hpa. rewrite Hfx in Hpa. eapply (load_unused_run st sps x j s v m _ f n); try done; [by intros b Hb; apply Hz|].
  intros a Ha. unfold fill_range. destruct (Z.leb_spec pa a), (Z.ltb_spec a (pa + n * PAGE_4KIB)); cbn [andb]; try done. lia.
Qed.

Lemma mmap_added sp' m bytes : regions sp' = r :: regions sp -> root sp' = Some t2 ->
  mem_inv st2 (<[k := sp']> sps) x /\
  forall k' s s' v, sps !! k' = Some s -> <[k := sp']> sps !! k' = Some s' -> 0 <= v < user_limit ->
    load (fill_range m pa (n * PAGE_4KIB) bytes) s' v =
      if decide (k' = k /\ in_range addr n v = true) then Some (content bytes (v - addr)) else load m s v.
Proof.
  intros Hregs Hroot. destruct mmap_region as [Hr _]. destruct mmap_c0 as [Hc1 Hc2].
  pose proof (region_ok_chunk _ _ _ Hs1 Hr) as Hr1. pose proof (space_ok_chunk _ _ _ _ Hs1 Hsp) as Hsp1.
  assert (Hdis : forall v, covers r v = true -> cov (regions sp) v = 0).
  { intros v Hc. apply (l_free _ _ _ _ Hpl). by apply covers_bounds in Hc. }
  assert (Hg : forall v, 0 <= v < user_limit -> get_page t2 v =
     if covers r v then Some (PAGE_4KIB, leaf (paddr r + (v - vaddr r) / PAGE_4KIB * PAGE_4KIB) fl) else get_page t v).
  { intros v Hv. rewrite Hget by done. change addr with (vaddr r) at 1. change n with (pages r) at 1. by rewrite in_pages_covers. }
  assert (Hok : space_ok st2 sp' t2).
  { eapply (region_added st1 st2 sp sp' t t2 r fl); try done; try apply Hinv1; try apply Hkeep; [apply Hpl|by left]. }
  assert (Hcase : forall v b, writes (c0_of st) sp' v b -> inside f n b = true \/ writes (c0_of st) sp v b).
  { intros v b (y & e & t1 & Hr0 & Hy & Hc & He & Hw & ->). rewrite Hroot in Hr0. injection Hr0 as <-. rewrite Hregs in Hy.
    apply elem_of_cons in Hy as [->|Hy]; [left; rewrite <- mmap_used; by apply uses_frame|right].
    assert (Hlim : 0 <= v < user_limit) by (apply (covers_limit st y); [by eapply space_region|done]).
    rewrite Hg in He by done. destruct (covers r v) eqn:Hcr.
    - pose proof (cov_elem _ v y Hy Hc). rewrite Hdis in * by done. lia.
    - exists y, e, t. split_and!; try done. apply Hsp. }
  split.
  - eapply (inv_regrow st1 st2 sps _ x k sp sp' t t2 Hinv1 Hk Hkeep Hok); [apply Hinv|done| |]; rewrite Hc1.
    + intros b. unfold holds, own. rewrite Hroot, (s_root _ _ _ Hsp), Hregs. unfold occ. rewrite sumz_cons, mmap_used. lia.
    + intros v b Hw. destruct (Hcase v b Hw) as [Hb|Hw0].
      * destruct (Hz b Hb) as [-> ->]. by rewrite Hb.
      * pose proof (i_writes _ _ _ Hinv1 sp v b (list_elem_of_lookup_2 _ _ _ Hk)) as Hi. rewrite Hc1 in Hi. by apply Hi.
  - pose proof (region_frames st r (i_pmm _ _ _ Hinv) Hr) as (Hpa & _). cbn [r paddr] in Hpa. rewrite Hfx in Hpa.
    pose proof (mmap_unseen m bytes) as Hold.
    intros k' s s' v Hs Hs' Hv. destruct (decide (k' = k)) as [->|Hne].
    2:{ rewrite list_lookup_insert_ne in Hs' by done. rewrite decide_False by tauto. assert (s' = s) as -> by congruence. by eapply Hold. }
    rewrite list_lookup_insert_eq in Hs' by (by eapply lookup_lt_Some). injection Hs' as <-. assert (s = sp) as -> by congruence.
    destruct (in_range addr n v) eqn:Hin.
    + rewrite decide_True by done. rewrite <- mmap_covers in Hin.
      rewrite (load_region st2 sp' t2 r v _ (proj1 Hkeep) Hok) by (done || (rewrite Hregs; apply list_elem_of_here)).
      f_equal. unfold fill_range. rewrite Hc2. pose proof (uses_frame (c0_of st) r v Hin) as Hu. rewrite mmap_used in Hu. unfold inside in Hu. bool_facts.
      pose proof (Z.mod_pos_bound v PAGE_4KIB ltac:(done)). rewrite (proj2 (Z.leb_le pa _)), (proj2 (Z.ltb_lt _ _)) by (unfold PAGE_4KIB in *; lia). cbn [andb]. f_equal.
      unfold frame. cbn [r paddr vaddr]. rewrite Hfx. pose proof (l_align _ _ _ _ Hpl). unfold PAGE_4KIB in *. Z.to_euclidean_division_equations; lia.
    + rewrite decide_False by naive_solver. rewrite <- (Hold k sp v Hk Hv). unfold load. rewrite Hroot, (s_root _ _ _ Hsp), Hg by done.
      rewrite mmap_covers, Hin. done.
Qed.

(** The call failed after the pages were mapped: they are unmapped and the frames given back. *)
Lemma mmap_undone sp' m m' : regions sp' = regions sp -> root sp' = Some (_unmap_user_pages t2 addr n) ->
  (forall j s v, sps !! j = Some s -> 0 <= v < user_limit -> load m' s v = load m s v) ->
  exists st3, free_frames st2 pa n = Some st3 /\ same_chunk st st3 /\ mem_inv st3 (<[k := sp']> sps) x /\
    same_views m m' sps (<[k := sp']> sps).
Proof.
  intros Hregs Hroot Hm. destruct mmap_c0 as [Hc1 Hc2]. pose proof Hpl as [P1 P2 P3 P4 P5 P6 P7].
  destruct (unmap_loop_ok (Z.to_nat n) 0 t2 addr) as (U1 & U2 & U3); try done.
  { rewrite Z2Nat.id by lia. done. }
  { rewrite Z2Nat.id by lia. intros v Hv. assert (0 <= v < user_limit) by (unfold in_pages in Hv; bool_facts; unfold PAGE_4KIB in *; lia).
    rewrite Hget, Hv by done. by eexists. }
  rewrite Z2Nat.id in U3 by lia. fold (_unmap_user_pages t2 addr n) in U1, U2, U3. set (t3 := _unmap_user_pages t2 addr n) in *.
  assert (Hin : forall v, in_pages addr 0 n v = true -> cov (regions sp) v = 0).
  { intros v Hv. apply P5. unfold in_pages in Hv. bool_facts. unfold PAGE_4KIB in *. lia. }
  assert (Hsame : forall v, 0 <= v < user_limit -> get_page t3 v = get_page t v).
  { intros v Hv. rewrite U3, Hget by done. destruct (in_pages addr 0 n v) eqn:E; [|done].
    destruct (get_page t v) as [y|] eqn:Ey; [|done]. destruct (s_only _ _ _ Hsp v y Hv Ey) as (z & Hzz & Hc).
    pose proof (cov_elem _ v z Hzz Hc). rewrite Hin in * by done. lia. }
  assert (Hlim : forall y v, y ∈ regions sp -> covers y v = true -> 0 <= v < user_limit).
  { intros y v Hy Hc. apply (covers_limit st y); [by eapply space_region|done]. }
  assert (Hok : space_ok st2 sp' t3).
  { apply (space_ok_chunk st1 st2); [apply Hkeep|]. apply (space_ok_chunk st st1 _ _ Hs1). destruct Hsp as [S1 S2 S3 S4 S5 S6].
    constructor; rewrite ?Hregs; try done.
    - intros y v Hy Hc. rewrite Hsame by eauto. by apply S5.
    - intros v y Hv. rewrite Hsame by done. by apply S6. }
  assert (Hinv2 : mem_inv st2 (<[k := sp']> sps) (fun b => x b + bit (inside f n b))).
  { eapply (inv_regrow st1 st2 sps _ _ k sp sp' t t3 Hinv1 Hk Hkeep Hok).
    - apply Hinv1.
    - intros b. rewrite U2. apply Hown.
    - intros b. unfold holds, own. rewrite Hroot, (s_root _ _ _ Hsp), Hregs. lia.
    - rewrite Hc1. intros v b (y & e & ty & Hr0 & Hy & Hc & He & Hw & ->). rewrite Hroot in Hr0. injection Hr0 as <-. rewrite Hregs in Hy.
      rewrite Hsame in He by eauto. pose proof (i_writes _ _ _ Hinv1 sp v (frame (c0_of st) y v) (list_elem_of_lookup_2 _ _ _ Hk)) as Hi.
      rewrite Hc1 in Hi. apply Hi. exists y, e, t. split_and!; try done. apply Hsp. }
  destruct (inv_release st2 _ _ pa f n Hinv2) as (st3 & -> & Hs3 & Hinv3).
  { apply (frames_at_chunk st1); [apply Hkeep|]. by apply (frames_at_chunk st). }
  { intros b Hb. rewrite Hb. pose proof (i_x _ _ _ Hinv b). cbn. lia. }
  exists st3. split; [done|]. split; [eapply same_chunk_trans; [exact Hs1|]; eapply same_chunk_trans; [apply Hkeep|done]|].
  split; [eapply mem_inv_ext; [|exact Hinv3]; intros b; cbn beta; lia|].
  split; [by rewrite length_insert|]. intros j s s' v Hs Hs' Hv. rewrite <- (Hm j s v Hs Hv). destruct (decide (j = k)) as [->|Hne].
  - rewrite list_lookup_insert_eq in Hs' by (by eapply lookup_lt_Some). injection Hs' as <-. assert (s = sp) as -> by congruence.
    unfold load. by rewrite Hroot, (s_root _ _ _ Hsp), Hsame by done.
  - rewrite list_lookup_insert_ne in Hs' by done. congruence.
Qed.
End Mmap.

Lemma add_region_fields node sp addr pa n fl : region_bounds_ok addr pa n = true ->
  sched_add_user_region node sp addr pa n fl = (node, if node then sched_user_mem_add (set_regions (mk_region addr pa n fl :: regions sp) sp) n else sp).
Proof. intros Hb. unfold sched_add_user_region. rewrite Hb. by destruct node. Qed.

Lemma drop_exact_head sp addr pa n fl l : regions sp = mk_region addr pa n fl :: l ->
  regions (_drop_region_exact sp addr n) = l /\ root (_drop_region_exact sp addr n) = root sp /\
  user_thread (_drop_region_exact sp addr n) = user_thread sp.
Proof.
  intros Hr. unfold _drop_region_exact. rewrite Hr. cbn [find_exact vaddr pages]. rewrite !Z.eqb_refl. cbn [andb take drop app].
  unfold sched_user_mem_sub. by repeat case_test.
Qed.

Lemma mmap_failed w sps x k sp addr n bytes e st' m' sp' : e < 0 -> same_chunk (pmm w) st' -> mem_inv st' (<[k := sp']> sps) x ->
  same_views (mem w) m' sps (<[k := sp']> sps) -> user_thread sp' = user_thread sp ->
  mmap_done w sps x k sp addr n bytes (ret (e, mk_phys st' m', sp')).
Proof.
  intros He Hs' Hi' [_ Hv'] Hu'. right. exists e, (mk_phys st' m'), sp'. split_and!; try done; [by right|].
  intros k' s s' v Hs1 Hs2 Hvl. rewrite decide_False by lia. by apply (Hv' k').
Qed.

(** The bytes a mapping shows. *)
Definition mapped_bytes (env : mmap_env) (file : bool) : list Z := if file then (file_read env).2 else [].

Lemma mmap_ok env w sps x k sp t addr n fl file : mem_inv (pmm w) sps x -> sps !! k = Some sp -> space_ok (pmm w) sp t ->
  place_ok sp addr n fl -> mmap_done w sps x k sp addr n (mapped_bytes env file) (mmap_commit env w sp addr n fl file).
Proof.
  intros Hinv Hk Hsp Hpl. destruct w as [st m]. cbn [pmm mem] in *. unfold mmap_commit. rewrite (s_root _ _ _ Hsp). cbn [pmm mem].
  pose proof Hpl as [P1 P2 P3 P4 P5 P6 P7].
  unfold alloc_frames_user. destruct (alloc_ok st n (map_high env) (i_pmm _ _ _ Hinv) P3) as (pa & st1 & Hal & Hout). rewrite Hal.
  unfold mbind at 1. cbn [run_bind ret]. destruct (Z.eqb_spec pa 0) as [->|Hpa0].
  { destruct Hout as [(_ & -> & _)|(b & Hb & _)]; [|by destruct (frame_index st 0 b n (i_pmm _ _ _ Hinv) Hb) as (_ & [] & _)].
    apply mmap_failed; rewrite ?list_insert_id by done; auto using same_chunk_refl, same_views_refl. done. }
  destruct (inv_alloc st sps x n (map_high env) pa st1 Hinv P3 Hal Hpa0) as (f & Hf & Hs1 & Hfx & Hz & Hinv1).
  destruct (mmap_region st sps x sp addr n fl pa f Hinv Hpl Hf Hfx) as [Hr Hbo].
  pose proof Hf as (Hpae & Hf0 & _ & Hfb). rewrite (p_block _ (i_pmm _ _ _ Hinv)) in Hpae.
  pose proof (p_alloc _ (i_pmm _ _ _ Hinv)) as (?&?&?&?&?&?&_). destruct (i_chunk _ _ _ Hinv) as [_ Hck2]. rewrite (p_block _ (i_pmm _ _ _ Hinv)) in *.
  unfold arch_map_region.
  destruct (map_loop_ok (Z.to_nat n) 0 st1 t addr pa fl) as [Hpan|(st2 & t2 & Hmap & Hkeep & Hpt & Hown & Hget)];
    rewrite ?Z2Nat.id, ?Z.add_0_l by lia; try done; try apply Hinv1; try apply Hsp; try (unfold PAGE_4KIB in *; nia).
  { intros b. by eapply (tables_held st1 sps _ sp); [exact Hinv1|by eapply list_elem_of_lookup_2|apply Hsp]. }
  { rewrite Hpan. by left. }
  rewrite Z2Nat.id in Hget by lia. rewrite Hmap. unfold mbind at 1. cbn [run_bind ret].
  (* taking everything back *)
  assert (Hundo : forall sp1 drop e m', e < 0 -> (forall j s v, sps !! j = Some s -> 0 <= v < user_limit -> load m' s v = load m s v) ->
    regions (if (drop : bool) then _drop_region_exact sp1 addr n else sp1) = regions sp ->
    user_thread (if drop then _drop_region_exact sp1 addr n else sp1) = user_thread sp ->
    mmap_done (mk_phys st m) sps x k sp addr n (mapped_bytes env file)
      ('(st, sp) ← lift (_mmap_undo_alloc st2 sp1 t2 addr pa n drop); ret (e, mk_phys st m', sp))).
  { intros sp1 drop e m' He Hm' Hreg Hut. unfold _mmap_undo_alloc. rewrite (proj2 (Z.eqb_neq pa 0)) by done. cbn [negb].
    set (sp3 := set_root _ _).
    destruct (mmap_undone st sps x k sp t addr n fl pa f st1 st2 t2 Hinv Hk Hsp Hpl Hf Hs1 Hinv1 Hkeep Hpt Hown Hget sp3 m m' Hreg eq_refl Hm')
      as (st3 & -> & Hs3 & Hinv3 & Hv3). cbn [mbind option_bind lift]. by apply mmap_failed. }
  rewrite (add_region_fields _ _ _ _ _ _ Hbo). destruct (map_node env); cbn [negb]; [|by apply Hundo].
  destruct (mem_add_fields (set_regions (mk_region addr pa n fl :: regions (set_root t2 sp)) (set_root t2 sp)) n) as (A1 & A2 & A3).
  set (sp2 := sched_user_mem_add _ n) in *. cbn [regions root user_thread set_regions set_root] in A1, A2, A3.
  destruct (drop_exact_head sp2 addr pa n fl (regions sp) A1) as (D1 & D2 & D3).
  destruct (map_phys env); cbn [negb]; [|apply Hundo; try done; congruence].
  pose proof (mmap_unseen st sps x sp addr n fl pa f Hinv Hpl Hf Hfx Hz m) as Hun.
  destruct (if file then file_read env else (0, [])) as [read_len bytes] eqn:Hfile.
  assert (Hb : mapped_bytes env file = bytes) by (unfold mapped_bytes; destruct file; [by rewrite Hfile|by injection Hfile]).
  destruct (Z.ltb_spec read_len 0); [apply Hundo; try done; [intros; by apply (Hun bytes j)|congruence]|].
  destruct (mmap_added st sps x k sp t addr n fl pa f st1 st2 t2 Hinv Hk Hsp Hpl Hf Hs1 Hfx Hz Hinv1 Hkeep Hpt Hown Hget sp2 m bytes A1 A2) as [Hinv2 Hv].
  right. eexists addr, (mk_phys st2 _), sp2. split; [reflexivity|]. cbn [pmm mem].
  split; [eapply same_chunk_trans; [exact Hs1|apply Hkeep]|]. split; [done|]. split; [done|]. split; [by left|].
  intros k' s s' v Hs Hs' Hvl. rewrite (Hv k' s s' v Hs Hs' Hvl), Hb. destruct (decide (k' = k /\ in_range addr n v = true)).
  - by rewrite decide_True.
  - by rewrite decide_False by tauto.
Qed.

(** ** Placing *)

Lemma bounds_region st r : pmm_inv st -> region_ok st r -> _region_bounds r = Some (vaddr r, vend r) /\ vaddr r < vend r.
Proof.
  intros Hp Hr. destruct (region_end_ok st r Hp Hr) as (Hpg & He & Hlt). unfold _region_bounds. rewrite Hpg, He.
  pose proof (region_frames st r Hp Hr) as (_ & _ & Hn & _). rewrite (proj2 (Z.eqb_neq (pages r) 0)), (proj2 (Z.leb_gt _ _)) by lia. done.
Qed.

Lemma overlaps_region st r a e : pmm_inv st -> region_ok st r ->
  _region_overlaps r a e = true <-> a < e /\ a < vend r /\ vaddr r < e.
Proof.
  intros Hp Hr. unfold _region_overlaps. destruct (bounds_region st r Hp Hr) as [-> Hlt].
  destruct (Z.leb_spec e a), (Z.ltb_spec a (vend r)), (Z.ltb_spec (vaddr r) e); cbn [andb]; split; intros; try done; lia.
Qed.

(** No region in the way means no byte covered. *)
Lemma clear_cov st l a e : pmm_inv st -> Forall (region_ok st) l -> (forall r, r ∈ l -> _region_overlaps r a e = false) ->
  forall v, a <= v < e -> cov l v = 0.
Proof.
  intros Hp Hl Hno v Hv. apply sumz_zero. intros r Hr. pose proof (proj1 (Forall_forall _ _) Hl r Hr) as Hrok. unfold bit.
  destruct (covers r v) eqn:Hc; [|done]. apply covers_bounds in Hc. specialize (Hno r Hr).
  assert (_region_overlaps r a e = true) by (apply (overlaps_region st r a e Hp Hrok); lia). congruence.
Qed.

Lemma in_the_way_false l a e : in_the_way l a e = false -> forall r, r ∈ l -> _region_overlaps r a e = false.
Proof.
  induction l as [|y l IH]; intros Hw r Hr; [by apply not_elem_of_nil in Hr|]. cbn in Hw. destruct (_region_overlaps y a e) eqn:Hy; [done|].
  apply elem_of_cons in Hr as [->|Hr]; [done|by apply IH].
Qed.

Lemma align_up_ok y : 0 <= y <= SIZE_MAX - (PAGE_4KIB - 1) ->
  ALIGN y mod PAGE_4KIB = 0 /\ y <= ALIGN y < y + PAGE_4KIB /\ (y mod PAGE_4KIB = 0 -> ALIGN y = y).
Proof.
  intros Hy. unfold ALIGN. rewrite wrap_small by (unfold SIZE_MAX, PAGE_4KIB in *; lia). unfold PAGE_4KIB in *.
  Z.to_euclidean_division_equations; lia.
Qed.

Lemma vend_aligned st r : region_ok st r -> vend r mod PAGE_4KIB = 0.
Proof. intros Hr. pose proof (r_align _ _ Hr) as Ha. unfold vend. by rewrite Z.mod_add. Qed.

(** The end of a region leaves room below the end of the address space. *)
Lemma vend_room st r : pmm_inv st -> region_ok st r -> 0 < vend r <= SIZE_MAX - (PAGE_4KIB - 1).
Proof.
  intros Hp Hr. destruct (bounds_region st r Hp Hr) as [_ Hlt]. pose proof (r_low _ _ Hr). pose proof (r_high _ _ Hr). pose proof user_limit_ok.
  pose proof (vend_aligned st r Hr) as Ha. split; [lia|]. unfold SIZE_MAX, PAGE_4KIB in *.
  assert (SIZE_MOD mod 4096 = 0) by (unfold SIZE_MOD; destruct size_bits_ok as [-> | ->]; done).
  Z.to_euclidean_division_equations; lia.
Qed.

Lemma advance_ok st l a size : pmm_inv st -> Forall (region_ok st) l -> 0 <= a -> 0 < size ->
  match advance l a size with
  | inl tt => True
  | inr None => forall r, r ∈ l -> _region_overlaps r a (a + size) = false
  | inr (Some a') => exists r, r ∈ l /\ a' = vend r /\ a < a'
  end.
Proof.
  intros Hp Hl Ha Hs. induction l as [|y l IH]; cbn [advance]; [intros r Hr; by apply not_elem_of_nil in Hr|].
  apply Forall_cons in Hl as [Hy Hl]. destruct (Z.ltb_spec (SIZE_MAX - a) size); [done|]. unfold SIZE_MAX in *. rewrite wrap_small by lia.
  destruct (_region_overlaps y a (a + size)) eqn:Ho; cbn [negb].
  - unfold _region_end. destruct (bounds_region st y Hp Hy) as [-> _]. pose proof (vend_room st y Hp Hy) as Hr. unfold SIZE_MAX in Hr.
    rewrite (proj2 (Z.eqb_neq (vend y) 0)), (proj2 (Z.ltb_ge _ (vend y))) by lia. cbn [orb].
    exists y. split; [apply list_elem_of_here|]. apply (overlaps_region st y a (a + size) Hp Hy) in Ho as (_ & Ho & _).
    pose proof (vend_aligned st y Hy). destruct (align_up_ok (vend y)) as (_ & _ & He); [unfold SIZE_MAX; lia|]. rewrite He by done. done.
  - specialize (IH Hl). destruct (advance l a size) as [[]|[a'|]]; [done| |].
    + destruct IH as (r & Hr & ?). exists r. split; [by apply list_elem_of_further|done].
    + intros r Hr. apply elem_of_cons in Hr as [->|Hr]; [done|by apply IH].
Qed.

Lemma advance_loop_ok st l size n : pmm_inv st -> Forall (region_ok st) l -> 0 < size -> forall a, 0 <= a -> a mod PAGE_4KIB = 0 ->
  ahead l a <= Z.of_nat n ->
  exists res, advance_loop n l a size = Some res /\
    match res with inl tt => True | inr a' => a <= a' /\ a' mod PAGE_4KIB = 0 /\ forall r, r ∈ l -> _region_overlaps r a' (a' + size) = false end.
Proof.
  intros Hp Hl Hs. induction n as [|n IH]; intros a Ha Hm Hn; cbn [advance_loop]; pose proof (advance_ok st l a size Hp Hl Ha Hs) as Hadv;
    destruct (advance l a size) as [[]|[a'|]]; try (by exists (inl tt)); try (exists (inr a); split; [done|]; split_and!; [lia|done|done]).
  - destruct Hadv as (r & Hr & -> & Hlt). pose proof (ahead_next l a r Hr Hlt). pose proof (ahead_le l (vend r)). lia.
  - destruct Hadv as (r & Hr & -> & Hlt). pose proof (ahead_next l a r Hr Hlt).
    destruct (IH (vend r)) as (res & -> & Hres); [lia|eapply vend_aligned; by apply (proj1 (Forall_forall _ _) Hl)|lia|].
    exists res. split; [done|]. destruct res as [[]|a2]; [done|]. destruct Hres as (? & ? & ?). split_and!; [lia|done|done].
Qed.

Lemma base_loop_ok st l sb se base : pmm_inv st -> Forall (region_ok st) l -> base <= base_loop l sb se base.
Proof.
  intros Hp. revert base. induction l as [|y l IH]; intros base Hl; cbn [base_loop]; [lia|]. apply Forall_cons in Hl as [Hy Hl].
  destruct (bounds_region st y Hp Hy) as [-> _]. destruct (_ && _); [by apply IH|]. destruct (Z.ltb_spec base (vend y)).
  - specialize (IH (vend y) Hl). lia.
  - by apply IH.
Qed.

(** Choosing a place always comes to an end; the place is free and below the stack. *)
Lemma pick_ok st l sb ss size : pmm_inv st -> Forall (region_ok st) l -> 0 <= sb -> 0 < size ->
  exists a, _pick_mmap_base l sb ss size = Some a /\
    (a <> 0 -> 0 < a /\ a mod PAGE_4KIB = 0 /\ a + size <= (if sb =? 0 then arch_user_stack_top else sb) /\
               forall r, r ∈ l -> _region_overlaps r a (a + size) = false).
Proof.
  intros Hp Hl Hsb Hs. unfold _pick_mmap_base. set (stack := if sb =? 0 then arch_user_stack_top else sb). set (se := if wrap (stack + ss) <? stack then SIZE_MAX else wrap (stack + ss)).
  pose proof (base_loop_ok st l stack se 0x00400000 Hp Hl) as Hb. set (base := base_loop _ _ _ _) in *.
  destruct (Z.ltb_spec (SIZE_MAX - (PAGE_4KIB - 1)) base); [by exists 0|].
  destruct (align_up_ok base ltac:(lia)) as (Hm & Hr & _).
  destruct (advance_loop_ok st l size (length l) Hp Hl Hs (ALIGN base)) as (res & -> & Hres); [lia|done|apply ahead_le|].
  cbn [mbind option_bind]. destruct res as [[]|a]; [by exists 0|]. destruct Hres as (Ha & Ham & Hno).
  destruct (Z.ltb_spec (SIZE_MAX - a) size); cbn [orb]; [by exists 0|]. unfold SIZE_MAX in *. rewrite wrap_small by lia.
  destruct (Z.ltb_spec stack (a + size)); [by exists 0|]. exists a. split; [done|]. intros _. split_and!; try done; lia.
Qed.

Lemma place_found st l sb ss req size : pmm_inv st -> Forall (region_ok st) l -> 0 <= sb -> 0 < size -> 0 <= addr req ->
  exists res, _mmap_place l sb ss req size = Some res /\
    match res with
    | inl e => e < 0
    | inr a => 0 < a /\ a mod PAGE_4KIB = 0 /\ a + size <= (if sb =? 0 then arch_user_stack_top else sb) /\
               (forall r, r ∈ l -> _region_overlaps r a (a + size) = false) /\
               (has (mflags req) MAP_FIXED = true -> a = addr req)
    end.
Proof.
  intros Hp Hl Hsb Hs Ha. unfold _mmap_place.
  destruct (Z.eqb_spec (addr req) 0) as [Hz|Hz]; cbn [negb andb].
  - destruct (has (mflags req) MAP_FIXED) eqn:Hf; [by exists (inl (- EINVAL))|].
    destruct (pick_ok st l sb ss size Hp Hl Hsb Hs) as (a & -> & Hpick). cbn [mbind option_bind].
    destruct (Z.eqb_spec a 0) as [->|Ha0]; cbn [orb]; [by exists (inl (- ENOMEM))|].
    destruct (Hpick Ha0) as (P1 & P2 & P3 & P4). destruct (Z.ltb_spec (SIZE_MAX - a) size); [by exists (inl (- ENOMEM))|].
    unfold SIZE_MAX in *. rewrite wrap_small by lia. rewrite (proj2 (Z.ltb_ge _ (a + size))) by lia.
    destruct (in_the_way l a (a + size)) eqn:Hw; cbn [negb]; [|by exists (inr a)].
    exfalso. clear -Hw P4. induction l as [|y l IH]; [done|]. cbn in Hw. rewrite P4 in Hw by apply list_elem_of_here.
    apply IH; [|done]. intros r Hr. apply P4. by apply list_elem_of_further.
  - destruct (Z.eqb_spec (addr req mod PAGE_4KIB) 0) as [Hm|Hm]; cbn [negb]; [|by exists (inl (- EINVAL))].
    cbn [mbind option_bind]. rewrite (proj2 (Z.eqb_neq (addr req) 0)) by done. cbn [orb].
    destruct (Z.ltb_spec (SIZE_MAX - addr req) size); [by exists (inl (- ENOMEM))|].
    unfold SIZE_MAX in *. rewrite wrap_small by lia. destruct (Z.ltb_spec (if sb =? 0 then arch_user_stack_top else sb) (addr req + size)); [by exists (inl (- ENOMEM))|].
    destruct (in_the_way l (addr req) (addr req + size)) eqn:Hw; cbn [negb].
    2:{ exists (inr (addr req)). split; [done|]. split_and!; try done; [lia|]. by apply in_the_way_false. }
    destruct (has (mflags req) MAP_FIXED) eqn:Hf; [by exists (inl (- ENOMEM))|].
    destruct (pick_ok st l sb ss size Hp Hl Hsb Hs) as (a & -> & Hpick). cbn [mbind option_bind].
    destruct (Z.eqb_spec a 0) as [->|Ha0]; cbn [orb]; [by exists (inl (- ENOMEM))|].
    destruct (Hpick Ha0) as (P1 & P2 & P3 & P4). destruct (Z.ltb_spec (SIZE_MOD - 1 - a) size); [by exists (inl (- ENOMEM))|].
    rewrite wrap_small by lia. rewrite (proj2 (Z.ltb_ge _ (a + size))) by lia. by exists (inr a).
Qed.

Lemma read_args_ok req size n : 0 <= len req < SIZE_MOD -> _mmap_read_args req = inr (size, n) ->
  size = n * PAGE_4KIB /\ 0 < n < SIZE_MOD /\ len req <= size < len req + PAGE_4KIB.
Proof.
  intros Hl. unfold _mmap_read_args. destruct (Z.eqb_spec (len req) 0); [done|].
  destruct (Z.ltb_spec (SIZE_MAX - (PAGE_4KIB - 1)) (len req)); [done|].
  destruct (_ || _); [done|]. destruct (_ || _); [done|]. destruct (_ && _); [done|]. destruct (_ =? MAP_SHARED); [done|]. destruct (_ && _); [done|].
  intros He. injection He as <- <-. destruct (align_up_ok (len req) ltac:(lia)) as (Hm & Hr & _). unfold SIZE_MAX, PAGE_4KIB in *.
  split_and!; Z.to_euclidean_division_equations; lia.
Qed.

Lemma read_args_error req e : _mmap_read_args req = inl e -> e < 0.
Proof. unfold _mmap_read_args. repeat case_match; intros; simplify_eq; done. Qed.

Lemma prot_flags_ok nx p : has (_mmap_prot_flags nx p) PT_USER = true /\ has (_mmap_prot_flags nx p) PT_HUGE = false.
Proof. unfold _mmap_prot_flags. by destruct (has p PROT_WRITE), nx, (has p PROT_EXEC). Qed.

(** ** Unmapping *)

Ltac split_tests :=
  repeat match goal with |- context [?a <=? ?b] => destruct (Z.leb_spec a b) | |- context [?a <? ?b] => destruct (Z.ltb_spec a b) end; cbn [andb].

(** A cut as its caller sees it: pages [i], ..., [i + n - 1] of the region. *)
Record cut_at r (i n : Z) (cut : munmap_cut_t) : Prop := {
  u_low : 0 <= i;
  u_some : 0 < n;
  u_high : i + n <= pages r;
  u_start : cstart cut = vaddr r + i * PAGE_4KIB;
  u_end : cend cut = vaddr r + (i + n) * PAGE_4KIB;
  u_before : before_pages cut = i;
  u_overlap : overlap_pages cut = n;
  u_after : after_pages cut = pages r - i - n;
  u_index : page_index cut = i
}.

Lemma cut_spec st r base end_ : pmm_inv st -> region_ok st r -> base mod PAGE_4KIB = 0 -> end_ mod PAGE_4KIB = 0 ->
  match _munmap_cut base end_ r with
  | None => forall v, covers r v = true -> ~ base <= v < end_
  | Some cut => exists i n, cut_at r i n cut /\ cstart cut = Z.max base (vaddr r) /\ cend cut = Z.min end_ (vend r)
  end.
Proof.
  intros Hp Hr Hb He. unfold _munmap_cut, _region_end. destruct (bounds_region st r Hp Hr) as [-> Hlt].
  pose proof (r_align _ _ Hr) as Ha. pose proof (r_low _ _ Hr). pose proof (vend_room st r Hp Hr) as Hroom.
  assert (Hmax : (if vaddr r <? base then base else vaddr r) = Z.max base (vaddr r)) by (destruct (Z.ltb_spec (vaddr r) base); lia).
  assert (Hmin : (if end_ <? vend r then end_ else vend r) = Z.min end_ (vend r)) by (destruct (Z.ltb_spec end_ (vend r)); lia).
  rewrite Hmax, Hmin. set (cs := Z.max base (vaddr r)) in *. set (ce := Z.min end_ (vend r)) in *.
  assert (Hcs : cs mod PAGE_4KIB = 0) by (unfold cs; destruct (Z.max_spec base (vaddr r)) as [[_ ->]|[_ ->]]; done).
  assert (Hce : ce mod PAGE_4KIB = 0) by (unfold ce; destruct (Z.min_spec end_ (vend r)) as [[_ ->]|[_ ->]]; [done|by eapply vend_aligned]).
  destruct (Z.leb_spec ce cs); [intros v Hc; apply covers_bounds in Hc; lia|].
  unfold SIZE_MAX in *. rewrite !wrap_small by (unfold PAGE_4KIB in *; lia).
  exists ((cs - vaddr r) / PAGE_4KIB), ((ce - cs) / PAGE_4KIB). split; [|done].
  assert (vend r = vaddr r + pages r * PAGE_4KIB) by done.
  constructor; cbn [cstart cend before_pages overlap_pages after_pages page_index]; try done; unfold PAGE_4KIB in *;
    Z.to_euclidean_division_equations; lia.
Qed.

Section Cut.
Context st sps x k sp t pre r l cut i n
  (Hinv : mem_inv st sps x) (Hk : sps !! k = Some sp) (Hsp : space_ok st sp t) (Hregs : regions sp = pre ++ r :: l)
  (Hcut : cut_at r i n cut).

Let f := fidx (c0_of st) (paddr r) + i.
Let t' := unmap_loop (Z.to_nat n) 0 (cstart cut) t.
Let gone v := (cstart cut <=? v) && (v <? cend cut).

Lemma cut_region : r ∈ regions sp /\ region_ok st r /\ pmm_inv st.
Proof.
  assert (Hr : r ∈ regions sp) by (rewrite Hregs; set_solver). split; [done|]. split; [by eapply space_region|apply Hinv].
Qed.

Lemma cut_gone v : gone v = in_pages (cstart cut) 0 n v.
Proof.
  unfold gone, in_pages. rewrite (u_end _ _ _ _ Hcut), (u_start _ _ _ _ Hcut), Z.mul_0_l, Z.add_0_r.
  f_equal. f_equal. lia.
Qed.

Lemma cut_inside v : gone v = true -> covers r v = true.
Proof.
  unfold gone. rewrite (u_end _ _ _ _ Hcut), (u_start _ _ _ _ Hcut). intros Hv. bool_facts. apply covers_bounds. unfold vend.
  destruct Hcut. unfold PAGE_4KIB in *. nia.
Qed.

Lemma cut_pieces y : y ∈ pieces r cut -> part r i y.
Proof.
  destruct cut_region as (_ & Hr & Hp). pose proof (region_fits st r Hp Hr) as (? & ? & ?). pose proof (region_frames st r Hp Hr) as (_ & ? & ? & _).
  unfold pieces. destruct Hcut as [C1 C2 C3 C4 C5 -> -> -> ->]. unfold SIZE_MAX in *.
  rewrite elem_of_app. intros [Hy|Hy].
  - destruct (Z.eqb_spec i 0); [by apply not_elem_of_nil in Hy|]. apply list_elem_of_singleton in Hy as ->. split; [done|]. exists 0. cbn. lia.
  - destruct (Z.eqb_spec (pages r - i - n) 0); [by apply not_elem_of_nil in Hy|]. apply list_elem_of_singleton in Hy as ->. split; [done|].
    exists (i + n). cbn [vaddr paddr pages]. rewrite (wrap_small ((i + n) * PAGE_4KIB)), wrap_small by (unfold PAGE_4KIB in *; nia). lia.
Qed.

Lemma cut_cov v : cov (pieces r cut) v + bit (gone v) = bit (covers r v).
Proof.
  destruct cut_region as (_ & Hr & Hp). unfold pieces, gone. destruct Hcut as [C1 C2 C3 -> -> -> -> -> ->].
  unfold cov. rewrite sumz_app. unfold covers, vend, bit, PAGE_4KIB in *.
  destruct (Z.eqb_spec i 0), (Z.eqb_spec (pages r - i - n) 0); cbn [sumz foldr vaddr pages]; split_tests; lia.
Qed.
Lemma cut_occ b : occ (c0_of st) (pieces r cut) b + bit (inside f n b) = bit (uses (c0_of st) r b).
Proof.
  destruct cut_region as (_ & Hr & Hp). pose proof (region_fits st r Hp Hr) as (? & ? & ?). pose proof (region_frames st r Hp Hr) as (Hpa & ? & ? & _).
  unfold pieces, f. destruct Hcut as [C1 C2 C3 C4 C5 -> -> -> ->]. unfold SIZE_MAX in *.
  rewrite (wrap_small ((i + n) * PAGE_4KIB)), wrap_small by (unfold PAGE_4KIB in *; nia).
  assert (Hf : fidx (c0_of st) (paddr r + (i + n) * PAGE_4KIB) = fidx (c0_of st) (paddr r) + i + n).
  { unfold fidx, PAGE_4KIB in *. replace (paddr r + (i + n) * 4096 - c0_of st) with (paddr r - c0_of st + (i + n) * 4096) by lia.
    rewrite Z.div_add by lia. lia. }
  unfold occ. rewrite sumz_app. unfold uses, inside, bit.
  destruct (Z.eqb_spec i 0), (Z.eqb_spec (pages r - i - n) 0); cbn [sumz foldr paddr pages]; rewrite ?Hf;
    set (a := fidx (c0_of st) (paddr r)) in *; split_tests; lia.
Qed.

Lemma cut_tables : pt_ok t' /\ (forall b, pt_own t' b = pt_own t b) /\
  forall v, 0 <= v < user_limit -> get_page t' v = if gone v then None else get_page t v.
Proof.
  destruct cut_region as (Hin & Hr & Hp). pose proof Hcut as [C1 C2 C3 C4 C5 _ _ _ _]. pose proof (r_align _ _ Hr) as Ha.
  pose proof (r_low _ _ Hr) as Hl. pose proof (r_high _ _ Hr) as Hh. unfold vend in Hh.
  destruct (unmap_loop_ok (Z.to_nat n) 0 t (cstart cut)) as (U1 & U2 & U3); rewrite ?Z2Nat.id by lia; try done.
  - apply Hsp.
  - rewrite C4. by rewrite Z.mod_add.
  - rewrite C4. unfold PAGE_4KIB in *. lia.
  - rewrite C4. unfold PAGE_4KIB in *. lia.
  - intros v Hv. rewrite <- cut_gone in Hv. destruct (s_map _ _ _ Hsp r v Hin (cut_inside v Hv)) as (e & He & _). by exists e.
  - rewrite Z2Nat.id in U3 by lia. split_and!; try done. intros v Hv. rewrite cut_gone. by apply U3.
Qed.

Lemma cut_cov_all v : cov (pre ++ pieces r cut ++ l) v + bit (gone v) = cov (regions sp) v.
Proof.
  rewrite Hregs. unfold cov. rewrite !sumz_app, sumz_cons. pose proof (cut_cov v) as Hc. unfold cov in Hc. lia.
Qed.

Context sp' (Hregs' : regions sp' = pre ++ pieces r cut ++ l) (Hroot' : root sp' = Some t').

(** A region afterwards is a region before, or a part of [r]. *)
Lemma cut_elem y v : y ∈ regions sp' -> covers y v = true -> gone v = false /\
  exists z, z ∈ regions sp /\ region_ok st y /\ covers z v = true /\ frame (c0_of st) y v = frame (c0_of st) z v /\
    forall e, entry_ok z v e -> entry_ok y v e.
Proof.
  destruct cut_region as (Hin & Hr & Hp). intros Hy Hc. rewrite Hregs' in Hy.
  split.
  { pose proof (cov_elem _ v y Hy Hc) as H1. pose proof (cut_cov_all v) as H2. pose proof (s_disj _ _ _ Hsp v).
    destruct (gone v); [cbn [bit] in H2; lia|done]. }
  rewrite !elem_of_app in Hy. destruct Hy as [Hy|[Hy|Hy]].
  2:{ pose proof (cut_pieces y Hy) as Hq. pose proof (part_covers r i y v (r_align _ _ Hr) Hq Hc) as (Hcr & _).
      exists r. split_and!; try done; [by eapply part_ok|by apply (part_frame st r i 0); [apply Hr|]|].
      intros e. apply (entry_part r i y v e (r_align _ _ Hr) Hq Hc). }
  all: assert (y ∈ regions sp) by (rewrite Hregs; set_solver); exists y; split_and!; try done; by eapply space_region.
Qed.

Lemma cut_space : space_ok st sp' t'.
Proof.
  destruct cut_tables as (T1 & T2 & T3). destruct cut_region as (Hin & Hr & Hp). constructor; try done.
  - apply Forall_forall. intros y Hy. assert (region_ok st y -> region_ok st y) by done. rewrite Hregs', !elem_of_app in Hy.
    destruct Hy as [Hy|[Hy|Hy]]; [|by eapply part_ok; [done|done|apply cut_pieces]|];
      (eapply space_region; [exact Hsp|]; rewrite Hregs; set_solver).
  - intros v. rewrite Hregs'. pose proof (cut_cov_all v). pose proof (s_disj _ _ _ Hsp v). pose proof (bit_pos (gone v)). lia.
  - intros y v Hy Hc. destruct (cut_elem y v Hy Hc) as (Hg & z & Hz & Hyok & Hcz & _ & He). rewrite T3 by (by apply (covers_limit st y)). rewrite Hg.
    destruct (s_map _ _ _ Hsp z v Hz Hcz) as (e & Hge & Hent). exists e. split; [done|by apply He].
  - intros v y Hv. rewrite T3 by done. destruct (gone v) eqn:Hg; [done|]. intros Hy. destruct (s_only _ _ _ Hsp v y Hv Hy) as (z & Hz & Hc).
    pose proof (cov_elem _ v z Hz Hc) as H1. pose proof (cut_cov_all v) as H2. rewrite Hg in H2. cbn [bit] in H2.
    rewrite Hregs'. apply cov_pos. lia.
Qed.

Lemma cut_inv : mem_inv st (<[k := sp']> sps) (fun b => x b + bit (inside f n b)).
Proof.
  destruct cut_tables as (T1 & T2 & T3). destruct cut_region as (Hin & Hr & Hp).
  eapply (inv_regrow st st sps x _ k sp sp' t t' Hinv Hk); [by apply keeps_used_refl|exact cut_space| | | |].
  - intros b. pose proof (i_x _ _ _ Hinv b). pose proof (bit_pos (inside f n b)). lia.
  - intros b. rewrite T2. lia.
  - intros b. unfold holds, own. rewrite Hroot', (s_root _ _ _ Hsp), Hregs', Hregs, T2. unfold occ. rewrite !sumz_app, sumz_cons.
    pose proof (cut_occ b) as Ho. unfold occ in Ho. lia.
  - intros v b (y & e & t1 & H1 & Hy & Hc & He & Hw & ->). rewrite Hroot' in H1. injection H1 as <-.
    destruct (cut_elem y v Hy Hc) as (Hg & z & Hz & Hyok & Hcz & Hfr & _). rewrite T3, Hg in He by (by apply (covers_limit st y)).
    apply (i_writes _ _ _ Hinv sp v); [by eapply list_elem_of_lookup_2|]. exists z, e, t. split_and!; try done. apply Hsp.
Qed.

Lemma cut_loads m v : 0 <= v < user_limit -> load m sp' v = if gone v then None else load m sp v.
Proof.
  intros Hv. destruct cut_tables as (_ & _ & T3). unfold load. rewrite Hroot', (s_root _ _ _ Hsp), T3 by done. by destruct (gone v).
Qed.
End Cut.

Lemma mem_sub_fields sp n : regions (sched_user_mem_sub sp n) = regions sp /\ root (sched_user_mem_sub sp n) = root sp /\
  user_thread (sched_user_mem_sub sp n) = user_thread sp.
Proof. unfold sched_user_mem_sub. by repeat case_test. Qed.

(** One cut: the pages go, their frames are given back, what is left of the region stays. *)
Lemma cut_ok st sps x k sp L t pre r l cut i n : mem_inv st sps x -> L = pre ++ r :: l -> sps !! k = Some (set_regions L sp) ->
  space_ok st (set_regions L sp) t -> cut_at r i n cut ->
  exists st' sp' t', _munmap_pages st sp t r cut = Some (st', sp') /\ same_chunk st st' /\ user_thread sp' = user_thread sp /\
    let S' := set_regions (pre ++ pieces r cut ++ l) sp' in
    space_ok st' S' t' /\ mem_inv st' (<[k := S']> sps) x /\
    forall m v, 0 <= v < user_limit ->
      load m S' v = if (cstart cut <=? v) && (v <? cend cut) then None else load m (set_regions L sp) v.
Proof.
  intros Hinv HL Hk Hsp Hcut. pose proof Hcut as [C1 C2 C3 C4 C5 C6 C7 C8 C9].
  unfold _munmap_pages. rewrite C7, C9. set (t' := unmap_loop (Z.to_nat n) 0 (cstart cut) t).
  destruct (mem_sub_fields (set_root t' sp) n) as (M1 & M2 & M3). set (sp' := sched_user_mem_sub _ n) in *.
  set (S' := set_regions (pre ++ pieces r cut ++ l) sp').
  destruct (cut_region st sps x k _ t pre r l cut i n Hinv Hk Hsp HL Hcut) as (Hin & Hr & Hp).
  pose proof (region_fits st r Hp Hr) as (? & ? & ?). pose proof (region_frames st r Hp Hr) as (Hpa & ? & ? & Hfb).
  pose proof (cut_inv st sps x k _ t pre r l cut i n Hinv Hk Hsp HL Hcut S' eq_refl M2) as Hinv1.
  pose proof (cut_space st sps x k _ t pre r l cut i n Hinv Hk Hsp HL Hcut S' eq_refl M2) as Hsp1.
  unfold SIZE_MAX in *. rewrite (wrap_small (i * PAGE_4KIB)), wrap_small by (unfold PAGE_4KIB in *; nia).
  destruct (inv_release st _ _ (paddr r + i * PAGE_4KIB) (fidx (c0_of st) (paddr r) + i) n Hinv1) as (st' & -> & Hs & Hinv2).
  { unfold frames_at, run_at. rewrite (p_block _ Hp). unfold PAGE_4KIB in *. lia. }
  { intros b ->. pose proof (i_x _ _ _ Hinv b). cbn [bit]. lia. }
  cbn [mbind option_bind]. exists st', sp', t'. split; [done|]. split; [done|]. split; [done|]. cbn zeta. fold S'. split_and!.
  - by eapply space_ok_chunk.
  - eapply mem_inv_ext; [|exact Hinv2]. intros b. cbn beta. lia.
  - intros m v. apply (cut_loads st sps x k _ t pre r l cut i n Hinv Hk Hsp HL Hcut S' M2).
Qed.

(** What a cut leaves lies outside the range, and the cut lies inside it. *)
Lemma cut_leaves st sps x k S t pre r l base end_ cut i n v : mem_inv st sps x -> sps !! k = Some S -> space_ok st S t ->
  regions S = pre ++ r :: l -> cut_at r i n cut -> cstart cut = Z.max base (vaddr r) -> cend cut = Z.min end_ (vend r) ->
  base <= v < end_ -> cov (pieces r cut) v = 0.
Proof.
  intros Hinv Hk HS HL Hcut Hs He Hv. pose proof (cut_cov st sps x k S t pre r l cut i n Hinv Hk HS HL Hcut v) as Hc.
  pose proof (cov_nonneg (pieces r cut) v). destruct (covers r v) eqn:Hcr.
  - apply covers_bounds in Hcr. rewrite (proj2 (Z.leb_le (cstart cut) v)), (proj2 (Z.ltb_lt v (cend cut))) in Hc by lia. cbn [bit andb] in Hc. lia.
  - pose proof (bit_pos ((cstart cut <=? v) && (v <? cend cut))). cbn [bit] in Hc. lia.
Qed.

Lemma load_uncovered st S t m v : space_ok st S t -> 0 <= v < user_limit -> cov (regions S) v = 0 -> load m S v = None.
Proof.
  intros HS Hv Hc. unfold load. rewrite (s_root _ _ _ HS). destruct (get_page t v) as [y|] eqn:He; [|done].
  destruct (s_only _ _ _ HS v y Hv He) as (z & Hz & Hcz). pose proof (cov_elem _ v z Hz Hcz). lia.
Qed.

(** Why the loop answers what it does: something was mapped in the range, nothing was, or the
    range lies inside one region that goes on at both sides. *)
Definition munmap_reason S (base end_ : Z) (unmapped : bool) (status : Z) : Prop :=
  (status = 0 /\ (unmapped = true \/ exists v, base <= v < end_ /\ 1 <= cov (regions S) v)) \/
  (status = - EINVAL /\ unmapped = false /\ forall v, base <= v < end_ -> cov (regions S) v = 0) \/
  (status = - ENOMEM /\ unmapped = false /\ 1 <= cov (regions S) (base - 1) /\ 1 <= cov (regions S) end_).

(** What the loop leaves of a thread's memory: the whole range is gone, or, when the call fails, nothing is. *)
Definition munmap_done st sps (x : Z -> Z) k S (base end_ : Z) (unmapped : bool) pre
    (res : run (Z * pmm_state_t * space * list sched_user_region_t)) : Prop :=
  exists status st' sp' l', res = ret (status, st', sp', l') /\ same_chunk st st' /\
    let S' := set_regions (pre ++ l') sp' in
    mem_inv st' (<[k := S']> sps) x /\ user_thread S' = user_thread S /\
    munmap_reason S base end_ unmapped status /\
    forall m v, 0 <= v < user_limit -> load m S' v = if decide (status = 0 /\ base <= v < end_) then None else load m S v.

Lemma munmap_loop_ok nodes base end_ k x : base mod PAGE_4KIB = 0 -> end_ mod PAGE_4KIB = 0 ->
  forall l j st sps sp t pre unmapped, let S := set_regions (pre ++ l) sp in
  mem_inv st sps x -> sps !! k = Some S -> space_ok st S t ->
  (forall v, base <= v < end_ -> cov pre v = 0) ->
  (unmapped = true -> exists v, base <= v < end_ /\ cov (pre ++ l) v = 0) ->
  munmap_done st sps x k S base end_ unmapped pre (munmap_loop nodes j base end_ l st sp unmapped).
Proof.
  intros Hb He. induction l as [|r l IH]; intros j st sps sp t pre unm S Hinv Hk HS Hpre Hun; cbn [munmap_loop].
  { exists (if unm then 0 else - EINVAL), st, sp, []. cbn zeta. fold S. rewrite list_insert_id by done. split_and!; try done.
    { destruct unm; [left; by auto|]. right; left. split_and!; try done. intros v Hv. unfold S. cbn [set_regions regions]. rewrite app_nil_r. by apply Hpre. }
    intros m v Hv. case_decide as Hd; [|done]. apply (load_uncovered st S t); [done|done|]. unfold S. cbn [set_regions regions].
    rewrite app_nil_r. apply Hpre. tauto. }
  assert (Hr : region_ok st r) by (eapply space_region; [exact HS|]; cbn [S set_regions regions]; set_solver).
  pose proof (cut_spec st r base end_ (i_pmm _ _ _ Hinv) Hr Hb He) as Hcs. destruct (_munmap_cut base end_ r) as [cut|].
  2:{ assert (HSe : S = set_regions ((pre ++ [r]) ++ l) sp) by (unfold S; by rewrite <- app_assoc).
      destruct (IH j st sps sp t (pre ++ [r]) unm) as (status & st' & sp' & l' & -> & Q); rewrite <- ?HSe; try done.
      { intros v Hv. unfold cov. rewrite sumz_app, sumz_cons. fold (cov pre v). rewrite Hpre by done. cbn [sumz foldr].
        destruct (covers r v) eqn:Hc; [by destruct (Hcs v Hc)|done]. }
      { by rewrite <- app_assoc. }
      unfold mbind. cbn [run_bind ret]. exists status, st', sp', (r :: l'). split; [done|]. rewrite <- HSe, <- app_assoc in Q. exact Q. }
  destruct Hcs as (i & n & Hcut & Hstart & Hend). pose proof Hcut as [C1 C2 C3 C4 C5 C6 C7 C8 C9].
  assert (Hcase : forall v, cov (pre ++ pieces r cut ++ l) v + bit ((cstart cut <=? v) && (v <? cend cut)) = cov (pre ++ r :: l) v).
  { apply (cut_cov_all st sps x k S t pre r l cut i n Hinv Hk HS eq_refl Hcut). }
  destruct (negb (before_pages cut =? 0) && negb (after_pages cut =? 0) && negb (nodes j)) eqn:Hnode.
  { exists (- ENOMEM), st, sp, (r :: l). cbn zeta. fold S. rewrite list_insert_id by done. split_and!; try done.
    assert (Hall : forall v, base - 1 <= v <= end_ -> 1 <= cov (regions S) v).
    { intros v Hv. bool_facts. apply (cov_elem (pre ++ r :: l) v r); [set_solver|]. apply covers_bounds. unfold vend, PAGE_4KIB in *. lia. }
    assert (base <= end_) by (unfold PAGE_4KIB in *; lia).
    right; right. split; [done|]. split; [|split; apply Hall; lia]. destruct unm; [|done]. destruct Hun as (v & Hv & Hc0); [done|].
    specialize (Hall v). cbn [S set_regions regions] in Hall. lia. }
  destruct (cut_ok st sps x k sp (pre ++ r :: l) t pre r l cut i n Hinv eq_refl Hk HS Hcut) as (st1 & sp1 & t1 & Hpg & Hs1 & Hu1 & HS1 & Hinv1 & Hl1).
  pose proof (s_root _ _ _ HS) as Hroot. cbn [S set_regions root] in Hroot. rewrite Hroot. cbn [lift]. unfold mbind at 1. cbn [run_bind ret].
  rewrite Hpg. cbn [lift]. unfold mbind at 1. cbn [run_bind ret]. set (S1 := set_regions (pre ++ pieces r cut ++ l) sp1) in *.
  set (j' := if _ : bool then _ else _).
  assert (HSe : S1 = set_regions ((pre ++ pieces r cut) ++ l) sp1) by (unfold S1; by rewrite <- app_assoc).
  assert (Hin : base <= cstart cut < end_ /\ cstart cut < cend cut) by (unfold PAGE_4KIB in *; lia).
  destruct (IH j' st1 (<[k := S1]> sps) sp1 t1 (pre ++ pieces r cut) true) as (status & st2 & sp2 & l2 & -> & Hs2 & Hinv2 & Hu2 & Hst & Hl2); rewrite <- ?HSe; try done.
  { apply list_lookup_insert_eq. by eapply lookup_lt_Some. }
  { intros v Hv. unfold cov. rewrite sumz_app. fold (cov pre v). fold (cov (pieces r cut) v). rewrite Hpre by done.
    by rewrite (cut_leaves st sps x k S t pre r l base end_ cut i n v). }
  { intros _. exists (cstart cut). split; [lia|]. rewrite <- app_assoc. specialize (Hcase (cstart cut)).
    rewrite Z.leb_refl, (proj2 (Z.ltb_lt _ _)) in Hcase by lia. cbn [andb bit] in Hcase. pose proof (s_disj _ _ _ HS (cstart cut)) as Hd.
    cbn [S set_regions regions] in Hd. pose proof (cov_nonneg (pre ++ pieces r cut ++ l) (cstart cut)). lia. }
  unfold mbind. cbn [run_bind ret]. exists status, st2, sp2, (pieces r cut ++ l2). rewrite list_insert_insert_eq in Hinv2.
  rewrite <- HSe, <- app_assoc in *. split; [done|]. split; [by eapply same_chunk_trans|]. cbn zeta. split; [done|].
  assert (status = 0) as -> by (by destruct Hst as [[? _]|[(_ & ? & _)|(_ & ? & _)]]). split; [rewrite Hu2; cbn; done|].
  split; [left; split; [done|right]; exists (cstart cut); split; [lia|]; apply (cov_elem (pre ++ r :: l) _ r); [set_solver|apply covers_bounds; lia]|].
  intros m v Hv. rewrite Hl2 by done. destruct (decide (base <= v < end_)); [by rewrite !decide_True|]. rewrite !decide_False by tauto. rewrite Hl1 by done.
  destruct (Z.leb_spec (cstart cut) v), (Z.ltb_spec v (cend cut)); cbn [andb]; try done. lia.
Qed.

(** The range lies inside a region that goes on at both sides. *)
Definition splits r (base end_ : Z) : Prop := vaddr r < base /\ end_ < vend r.

Lemma splits_covers r base end_ v : splits r base end_ -> base <= v < end_ -> covers r v = true.
Proof. intros [? ?] ?. apply covers_bounds. lia. Qed.

(** A cut needs a node for its tail exactly in such a region. *)
Lemma cut_tail st r base end_ cut : pmm_inv st -> region_ok st r -> base mod PAGE_4KIB = 0 -> end_ mod PAGE_4KIB = 0 -> _munmap_cut base end_ r = Some cut ->
  (negb (before_pages cut =? 0) && negb (after_pages cut =? 0) = true <-> splits r base end_) /\ exists v, base <= v < end_ /\ covers r v = true.
Proof.
  intros Hp Hr Hb He Hcut. pose proof (cut_spec st r base end_ Hp Hr Hb He) as Hc. rewrite Hcut in Hc. destruct Hc as (i & n & [C1 C2 C3 C4 C5 C6 C7 C8 C9] & Hs & Hf). unfold splits, vend in *. split.
  - rewrite andb_true_iff, !negb_true_iff, !Z.eqb_neq, C6, C8. unfold PAGE_4KIB in *. lia.
  - exists (cstart cut). rewrite covers_bounds. unfold vend, PAGE_4KIB in *. lia.
Qed.

(** The loop runs out of memory exactly when the range splits a region and the first node is missing. *)
Lemma loop_enomem st0 nodes base end_ l : pmm_inv st0 -> base mod PAGE_4KIB = 0 -> end_ mod PAGE_4KIB = 0 -> base < end_ ->
  Forall (region_ok st0) l -> (forall v, cov l v <= 1) ->
  forall i st sp unm status st' sp' l', munmap_loop nodes i base end_ l st sp unm = ret (status, st', sp', l') ->
  status = - ENOMEM <-> nodes i = false /\ exists r, r ∈ l /\ splits r base end_.
Proof.
  intros Hp Hb He Hlt. induction l as [|r l IH]; intros Hok Hd i st sp unm status st' sp' l'; cbn [munmap_loop].
  { intros [= <- _ _ _]. split; [by destruct unm|]. by intros (_ & r & Hr%elem_of_nil & _). }
  apply Forall_cons in Hok as [Hr Hok].
  assert (Hcons : forall v, bit (covers r v) + cov l v <= 1) by (intros v; specialize (Hd v); unfold cov in Hd |- *; by rewrite sumz_cons in Hd).
  assert (Hd' : forall v, cov l v <= 1) by (intros v; specialize (Hcons v); pose proof (bit_pos (covers r v)); lia). specialize (IH Hok Hd').
  assert (Hapart : forall v, base <= v < end_ -> covers r v = true -> forall r', r' ∈ l -> ~ splits r' base end_).
  { intros v Hv Hc r' Hr' Hs. pose proof (cov_elem l v r' Hr' (splits_covers r' base end_ v Hs Hv)). specialize (Hcons v). rewrite Hc in Hcons. cbn in Hcons. lia. }
  assert (Hhead : (exists r', r' ∈ r :: l /\ splits r' base end_) <-> splits r base end_ \/ exists r', r' ∈ l /\ splits r' base end_) by (setoid_rewrite elem_of_cons; naive_solver).
  rewrite Hhead. destruct (_munmap_cut base end_ r) as [cut|] eqn:Hcut.
  - destruct (cut_tail st0 r base end_ cut Hp Hr Hb He Hcut) as [Ht (v & Hv & Hc)]. pose proof (Hapart v Hv Hc) as Hno.
    destruct (negb (before_pages cut =? 0) && negb (after_pages cut =? 0)) eqn:Htail; cbn [andb].
    + destruct (nodes i) eqn:Hi; cbn [negb]; [|intros [= <- _ _ _]; split; [intros _; split; [done|left; by apply Ht]|done]].
      destruct (root sp) as [t|]; [|done]. cbn [lift]. unfold mbind at 1. cbn [run_bind ret]. destruct (_munmap_pages st sp t r cut) as [[st1 sp1]|]; [|done].
      cbn [lift]. unfold mbind at 1. cbn [run_bind ret]. destruct (munmap_loop nodes (S i) base end_ l st1 sp1 true) as [[[[[s2 st2] sp2] l2]|]|] eqn:Hl; [|done|done].
      unfold mbind. cbn [run_bind ret]. intros [= <- _ _ _]. rewrite (IH _ _ _ _ _ _ _ _ Hl). naive_solver.
    + destruct (root sp) as [t|]; [|done]. cbn [lift]. unfold mbind at 1. cbn [run_bind ret]. destruct (_munmap_pages st sp t r cut) as [[st1 sp1]|]; [|done].
      cbn [lift]. unfold mbind at 1. cbn [run_bind ret]. destruct (munmap_loop nodes i base end_ l st1 sp1 true) as [[[[[s2 st2] sp2] l2]|]|] eqn:Hl; [|done|done].
      unfold mbind. cbn [run_bind ret]. intros [= <- _ _ _]. rewrite (IH _ _ _ _ _ _ _ _ Hl). naive_solver.
  - destruct (munmap_loop nodes i base end_ l st sp unm) as [[[[[s2 st2] sp2] l2]|]|] eqn:Hl; [|done|done]. unfold mbind. cbn [run_bind ret].
    intros [= <- _ _ _]. rewrite (IH _ _ _ _ _ _ _ _ Hl). pose proof (cut_spec st0 r base end_ Hp Hr Hb He) as Hc. rewrite Hcut in Hc.
    assert (~ splits r base end_) by (intros Hs; apply (Hc base); [apply (splits_covers r base end_ base Hs)|]; lia). naive_solver.
Qed.

(** A range [munmap] accepts: not at zero, not empty, aligned, and its end, rounded up to a page, still an address. *)
Definition range_ok sp (a n : Z) : Prop :=
  root sp <> None /\ 0 < a /\ 0 < n <= SIZE_MAX - (PAGE_4KIB - 1) /\ a mod PAGE_4KIB = 0 /\ a + ALIGN n < SIZE_MOD.

Lemma munmap_req_range sp a n : 0 <= a < SIZE_MOD -> 0 <= n < SIZE_MOD ->
  range_ok sp a n /\ _munmap_req sp a n = inr (a, a + ALIGN n) \/ ~ range_ok sp a n /\ _munmap_req sp a n = inl (- EINVAL).
Proof.
  intros Ha Hn. unfold range_ok, _munmap_req. destruct (Z.eqb_spec a 0); cbn [orb]; [right; split; [lia|done]|]. destruct (Z.eqb_spec n 0); cbn [orb]; [right; split; [lia|done]|].
  destruct (Z.ltb_spec (SIZE_MAX - (PAGE_4KIB - 1)) n); [right; split; [lia|done]|]. destruct (root sp) as [t0|]; [|right; split; [by intros [? _]|done]].
  destruct (Z.eqb_spec (a mod PAGE_4KIB) 0) as [Hm|Hm]; cbn [negb]; [|right; split; [tauto|done]]. destruct (align_up_ok n ltac:(lia)) as (Hm' & Hr' & _).
  destruct (Z_lt_le_dec (a + ALIGN n) SIZE_MOD) as [Hs|Hs].
  - left. split; [split_and!; done || lia|]. unfold wrap. rewrite Z.mod_small by (unfold PAGE_4KIB in *; lia). rewrite (proj2 (Z.ltb_ge _ _)) by (unfold PAGE_4KIB in *; lia). done.
  - right. split; [lia|]. assert (Hw : wrap (a + ALIGN n) = a + ALIGN n - SIZE_MOD) by (unfold wrap, SIZE_MAX in *; symmetry; apply (Z.mod_unique _ _ 1); unfold PAGE_4KIB in *; lia).
    rewrite Hw, (proj2 (Z.ltb_lt _ _)); [done|]. unfold SIZE_MAX, PAGE_4KIB in *. lia.
Qed.

Lemma munmap_req_ok sp a n base end_ : 0 <= a < SIZE_MOD -> 0 <= n < SIZE_MOD -> _munmap_req sp a n = inr (base, end_) ->
  base = a /\ end_ = a + ALIGN n /\ root sp <> None /\ a mod PAGE_4KIB = 0 /\ (a + ALIGN n) mod PAGE_4KIB = 0 /\ a < a + ALIGN n.
Proof.
  intros Ha Hn. unfold _munmap_req. destruct (Z.eqb_spec a 0); cbn [orb]; [done|]. destruct (Z.eqb_spec n 0); cbn [orb]; [done|].
  destruct (Z.ltb_spec (SIZE_MAX - (PAGE_4KIB - 1)) n); [done|].
  destruct (root sp) as [t0|] eqn:Hroot; [|done]. destruct (Z.eqb_spec (a mod PAGE_4KIB) 0) as [Hm|]; cbn [negb]; [|done].
  destruct (align_up_ok n ltac:(lia)) as (Hm' & Hr' & _).
  destruct (Z.ltb_spec (wrap (a + ALIGN n)) a) as [|Hw]; [done|]. intros Hreq. injection Hreq as <- <-.
  assert (He : wrap (a + ALIGN n) = a + ALIGN n).
  { unfold wrap, SIZE_MAX in *. destruct (Z_lt_le_dec (a + ALIGN n) SIZE_MOD); [by apply Z.mod_small; lia|].
    exfalso. assert ((a + ALIGN n) mod SIZE_MOD = a + ALIGN n - SIZE_MOD) by (symmetry; apply (Z.mod_unique _ _ 1); unfold PAGE_4KIB in *; lia). unfold PAGE_4KIB in *. lia. }
  split_and!; try done; [by rewrite Z.add_mod, Hm, Hm' by done|unfold PAGE_4KIB in *; lia].
Qed.

(** [munmap] takes away the whole range or, when it fails, nothing. *)
Definition munmapped (nodes : nat -> bool) w sps (x : Z -> Z) k sp (a n : Z) (res : run (Z * phys * space)) : Prop :=
  exists status w' sp', res = ret (status, w', sp') /\ mem w' = mem w /\ same_chunk (pmm w) (pmm w') /\
    mem_inv (pmm w') (<[k := sp']> sps) x /\ user_thread sp' = user_thread sp /\
    (status = - EINVAL /\ _munmap_req sp a n = inl (- EINVAL) \/
     _munmap_req sp a n = inr (a, a + ALIGN n) /\ munmap_reason sp a (a + ALIGN n) false status /\
       (status = - ENOMEM <-> nodes 0%nat = false /\ exists r, r ∈ regions sp /\ splits r a (a + ALIGN n))) /\
    forall m v, 0 <= v < user_limit -> load m sp' v = if decide (status = 0 /\ a <= v < a + ALIGN n) then None else load m sp v.

Lemma munmap_ok nodes w sps x k sp a n : mem_inv (pmm w) sps x -> sps !! k = Some sp -> 0 <= a < SIZE_MOD -> 0 <= n < SIZE_MOD ->
  munmapped nodes w sps x k sp a n (sys_munmap nodes w sp a n).
Proof.
  intros Hinv Hk Ha Hn. unfold sys_munmap.
  destruct (_munmap_req sp a n) as [e|[base end_]] eqn:Hreq.
  { assert (e = - EINVAL) as -> by (revert Hreq; unfold _munmap_req; repeat case_match; intros; simplify_eq; done).
    exists (- EINVAL), w, sp. rewrite list_insert_id by done. split_and!; try done. by left. }
  destruct (munmap_req_ok sp a n base end_ Ha Hn Hreq) as (-> & -> & Hr & Hm & Hm' & Hlt).
  destruct (live_of _ _ _ _ _ Hinv Hk Hr) as [t Hsp]. assert (Hsame : set_regions ([] ++ regions sp) sp = sp) by (by destruct sp).
  destruct (munmap_loop_ok nodes a (a + ALIGN n) k x Hm Hm' (regions sp) 0%nat (pmm w) sps sp t [] false)
    as (status & st' & sp' & l' & Hloop & Hs' & Hi' & Hu' & Hst & Hl'); rewrite ?Hsame; try done.
  assert (Hno := loop_enomem (pmm w) nodes a (a + ALIGN n) (regions sp) (i_pmm _ _ _ Hinv) Hm Hm' Hlt (s_regs _ _ _ Hsp) (s_disj _ _ _ Hsp) _ _ _ _ _ _ _ _ Hloop).
  rewrite Hloop. unfold mbind. cbn [run_bind ret]. exists status, (mk_phys st' (mem w)), (set_regions l' sp'). cbn [app] in *. rewrite Hsame in *.
  split_and!; try done. by right.
Qed.

(** [mmap] fills a free place with the bytes asked for or, when it fails, changes nothing. *)
Definition mmapped env w sps (x : Z -> Z) k sp req (res : run (Z * phys * space)) : Prop :=
  res = panic \/
  exists status w' sp', res = ret (status, w', sp') /\ same_chunk (pmm w) (pmm w') /\
    mem_inv (pmm w') (<[k := sp']> sps) x /\ user_thread sp' = user_thread sp /\
    (0 <= status -> status mod PAGE_4KIB = 0 /\ 0 < len req /\ (has (mflags req) MAP_FIXED = true -> status = addr req) /\
       forall v, status <= v < status + ALIGN (len req) -> 0 <= v < user_limit /\ load (mem w) sp v = None) /\
    forall k' s s' v, sps !! k' = Some s -> <[k := sp']> sps !! k' = Some s' -> 0 <= v < user_limit ->
      load (mem w') s' v =
        if decide (0 <= status /\ k' = k /\ status <= v < status + ALIGN (len req))
        then Some (content (mapped_bytes env (negb (has (mflags req) MAP_ANON))) (v - status)) else load (mem w) s v.

Lemma sys_mmap_ok env w sps x k sp req : mem_inv (pmm w) sps x -> sps !! k = Some sp -> 0 <= addr req -> 0 <= len req < SIZE_MOD ->
  0 <= stack_base env <= user_limit -> mmapped env w sps x k sp req (sys_mmap env w sp req).
Proof.
  intros Hinv Hk Ha Hl Hsb. unfold sys_mmap.
  assert (Herr : forall e, e < 0 -> mmapped env w sps x k sp req (ret (e, w, sp))).
  { intros e He. right. exists e, w, sp. rewrite list_insert_id by done. split_and!; try done; [lia|]. intros k' s s' v Hs Hs' _.
    rewrite decide_False by lia. congruence. }
  destruct (root sp) as [t0|] eqn:Hroot; [|by apply Herr]. destruct (live_of _ _ _ _ _ Hinv Hk ltac:(congruence)) as [t Hsp].
  destruct (_mmap_read_args req) as [e|[size n]] eqn:Hargs; [by apply Herr, (read_args_error req)|].
  assert (Hsz : size = ALIGN (len req)).
  { revert Hargs. unfold _mmap_read_args. repeat case_match; intros; simplify_eq; done. }
  destruct (read_args_ok req size n Hl Hargs) as (Hs & Hn & Hlen).
  destruct (place_found (pmm w) (regions sp) (stack_base env) (stack_size env) req size) as (res & -> & Hres); try done; try apply Hinv; try apply Hsp; try lia.
  { unfold PAGE_4KIB in *. lia. }
  cbn [lift]. unfold mbind at 1. cbn [run_bind ret]. destruct res as [e|a]; [by apply Herr|]. destruct Hres as (P1 & P2 & P3 & P4 & P5).
  set (file := negb (has (mflags req) MAP_ANON)). destruct (file && (file_node env <? 0)) eqn:Hfn; [apply Herr; bool_facts; lia|].
  assert (Hlim : a + size <= user_limit) by (pose proof user_top_ok; destruct (stack_base env =? 0); lia).
  destruct (prot_flags_ok (map_nx env) (prot req)) as [F1 F2].
  pose proof (clear_cov (pmm w) (regions sp) a (a + size) (i_pmm _ _ _ Hinv) (s_regs _ _ _ Hsp) P4) as Hfree.
  assert (Hpl : place_ok sp a n (_mmap_prot_flags (map_nx env) (prot req))) by (constructor; try done; try lia; intros v Hv; apply Hfree; lia).
  destruct (mmap_ok env w sps x k sp t a n _ file Hinv Hk Hsp Hpl) as [->|(status & w' & sp' & -> & M1 & M2 & M3 & M4 & M5)]; [by left|].
  right. exists status, w', sp'. split_and!; try done.
  - intros Hst. assert (status = a) as -> by lia. split_and!; try done; [unfold PAGE_4KIB in *; lia|]. intros v Hv. rewrite <- Hsz in Hv. split; [lia|].
    apply (load_uncovered (pmm w) sp t); [done|lia|by apply Hfree].
  - intros k' s s' v H1 H2 Hv. rewrite (M5 k' s s' v H1 H2 Hv). unfold in_range. rewrite <- Hs, <- Hsz. destruct M4 as [->|].
    + destruct (decide (k' = k /\ a <= v < a + size)) as [[-> Hin]|Hout].
      * rewrite (proj2 (Z.leb_le a v)), (proj2 (Z.ltb_lt v (a + size))) by lia. rewrite !decide_True; [done| |]; split_and!; done || lia.
      * rewrite !decide_False; [done| |]; intros (_ & -> & Hr); bool_facts; lia.
    + by rewrite !decide_False by lia.
Qed.
End Proofs.
End MapMemory.
