(* ===== verification/PrivateMemory.v ===== *)
(** * Private memory

    Every user thread has a memory of its own: new mappings, stores with their faults, copies by the
    kernel, forks and exits, in any order, act on the bytes the threads see as the same operations on
    separate memories do. *)

From S2P Require Import Prelude Errno Memory Outcome Bitmap BitmapAlloc Pmm Paging Paging64 UserMem CowMemory ForkMemory UserAccess MapCalls MapMemory.
From stdpp Require Import list relations.
Import Bitmap BitmapAlloc Pmm Paging Paging64 UserMem CowMemory ForkMemory UserAccess MapCalls MapMemory.
Open Scope Z_scope.

Module PrivateMemory.
Section Proofs.
Context `{PT : PageTables}.
Implicit Types (sp : space) (r : sched_user_region_t) (st : pmm_state_t) (t : pt) (v b : Z).

Notation c0_of st := (chunk_start (frames st)).

(** ** Stores *)

Lemma hw_store_cases st sp t m v c : pmm_inv st -> space_ok st sp t -> 0 <= v < user_limit ->
  match hw_store m sp v c with
  | Some m' => exists f, writes (c0_of st) sp v f /\ m' = put m (c0_of st + f * PAGE_4KIB + v mod PAGE_4KIB) c
  | None => forall f, ~ writes (c0_of st) sp v f
  end.
Proof.
  intros Hp Hsp Hv. unfold hw_store. rewrite (s_root _ _ _ Hsp).
  assert (Hnw : forall e f, (get_page t v = Some (PAGE_4KIB, e) -> has e PT_WRITE = false) -> get_page t v = Some (PAGE_4KIB, e) \/ get_page t v = None ->
    ~ writes (c0_of st) sp v f).
  { intros e f Hw Hor (r & e' & t' & Hroot & Hr & Hc & He & Hwe & _). rewrite (s_root _ _ _ Hsp) in Hroot. injection Hroot as <-.
    destruct Hor as [Hg|Hg]; rewrite Hg in He; [|done]. injection He as <-. rewrite Hw in Hwe; done. }
  destruct (get_page t v) as [[s e]|] eqn:He; [|intros f; apply (Hnw 0 f); [done|by right]].
  destruct (s_only _ _ _ Hsp v _ Hv He) as (r & Hr & Hc). destruct (s_map _ _ _ Hsp r v Hr Hc) as (e' & He' & Hent).
  rewrite He in He'. injection He' as -> <-. pose proof (entry_frame st r v e Hp (space_region _ _ _ _ Hsp Hr) Hent) as Hpa.
  destruct Hent as (-> & -> & _). cbn [andb]. destruct (has e PT_WRITE) eqn:Hw.
  - exists (frame (c0_of st) r v). split; [|by rewrite Hpa]. exists r, e, t. split_and!; try done. apply Hsp.
  - intros f. apply (Hnw e f); [done|by left].
Qed.

Lemma store_ok env w sps x k sp v c : mem_inv (pmm w) sps x -> sps !! k = Some sp -> env_ok env -> 0 <= v < user_limit ->
  user_store env w sp v c = panic \/
  exists ok w' sp', user_store env w sp v c = ret (ok, w', sp') /\ same_chunk (pmm w) (pmm w') /\
    mem_inv (pmm w') (<[k := sp']> sps) x /\ user_thread sp' = user_thread sp /\
    forall k' s s' v', sps !! k' = Some s -> <[k := sp']> sps !! k' = Some s' -> 0 <= v' < user_limit ->
      load (mem w') s' v' = if decide (ok = true /\ k' = k /\ v' = v) then Some c else load (mem w) s v'.
Proof.
  intros Hinv Hk Henv Hv. unfold user_store.
  (* a permitted store after a quiet step *)
  assert (Hhit : forall w1 sp1 m1, quiet w sps k sp w1 sp1 x -> hw_store (mem w1) sp1 v c = Some m1 ->
    exists ok w' sp', ret (true, mk_phys (pmm w1) m1, sp1) = ret (ok, w', sp') /\ same_chunk (pmm w) (pmm w') /\
      mem_inv (pmm w') (<[k := sp']> sps) x /\ user_thread sp' = user_thread sp /\
      forall k' s s' v', sps !! k' = Some s -> <[k := sp']> sps !! k' = Some s' -> 0 <= v' < user_limit ->
        load (mem w') s' v' = if decide (ok = true /\ k' = k /\ v' = v) then Some c else load (mem w) s v').
  { intros w1 sp1 m1 [Q1 Q2 [_ Q3] Q4 _] Hst. assert (Hk1 : <[k := sp1]> sps !! k = Some sp1) by (apply list_lookup_insert_eq; by eapply lookup_lt_Some).
    assert (exists t1, space_ok (pmm w1) sp1 t1) as [t1 Hsp1].
    { eapply live_of; [exact Q2|exact Hk1|]. intros Hn. unfold hw_store in Hst. by rewrite Hn in Hst. }
    pose proof (hw_store_cases (pmm w1) sp1 t1 (mem w1) v c (i_pmm _ _ _ Q2) Hsp1 Hv) as Hc. rewrite Hst in Hc. destruct Hc as (f & Hw & ->).
    exists true, (mk_phys (pmm w1) (put (mem w1) (c0_of (pmm w1) + f * PAGE_4KIB + v mod PAGE_4KIB) c)), sp1. cbn [pmm mem].
    split_and!; try done. intros k' s s' v' Hs Hs' Hv'.
    rewrite (store_exact (pmm w1) (<[k := sp1]> sps) x k sp1 v f (mem w1) c Q2 Hk1 Hw k' s' v' Hs' Hv').
    destruct (decide (k' = k /\ v' = v)); [by rewrite decide_True|]. rewrite decide_False by tauto. by apply (Q3 k'). }
  assert (Hmiss : forall w1 sp1, quiet w sps k sp w1 sp1 x ->
    exists ok w' sp', ret (false, w1, sp1) = ret (ok, w', sp') /\ same_chunk (pmm w) (pmm w') /\
      mem_inv (pmm w') (<[k := sp']> sps) x /\ user_thread sp' = user_thread sp /\
      forall k' s s' v', sps !! k' = Some s -> <[k := sp']> sps !! k' = Some s' -> 0 <= v' < user_limit ->
        load (mem w') s' v' = if decide (ok = true /\ k' = k /\ v' = v) then Some c else load (mem w) s v').
  { intros w1 sp1 [Q1 Q2 [_ Q3] Q4 _]. exists false, w1, sp1. by split_and!. }
  destruct (hw_store (mem w) sp v c) as [m1|] eqn:Hst.
  { right. apply (Hhit w sp m1); [by apply quiet_refl|done]. }
  destruct (present_at sp v && user_thread sp); [|right; apply (Hmiss w sp); by apply quiet_refl].
  destruct (fault_quiet env w sps x k sp v Hinv Hk Henv Hv) as [->|(ok & w1 & sp1 & -> & Hq & Hok)]; [by left|].
  unfold mbind. cbn [run_bind ret]. right. destruct ok; [|by apply (Hmiss w1 sp1)].
  destruct (hw_store (mem w1) sp1 v c) as [m1|] eqn:Hst1; [by apply (Hhit w1 sp1 m1)|by apply (Hmiss w1 sp1)].
Qed.

(** ** The memory of all threads *)

Record world := mk_world { wp : phys; wsp : list space }.

(** What threads do to memory, each with what it meets on the way. *)
Inductive uop :=
  | UNew
  | UMap (k : nat) (req : mmap_args_t) (env : mmap_env)
  | UUnmap (k : nat) (addr n : Z) (nodes : nat -> bool)
  | UStore (k : nat) (v c : Z) (env : cow_env)
  | UCopy (k : nat) (dst : Z) (bytes : list Z) (env : Z -> cow_env)
  | UFork (k : nat) (space_found : bool) (envs : nat -> fork_env)
  | UExit (k : nat).

Definition gone : space := mk_space false None [] 0.

(** Running an operation: its result and the memory after. *)
Definition exec (op : uop) (w : world) : run (Z * world) :=
  match op with
  | UNew =>
      '(st, t) ← vm_create (pmm (wp w));
      ret (0, mk_world (mk_phys st (mem (wp w))) (wsp w ++ [mk_space true (Some t) [] 0]))
  | UMap k req env =>
      sp ← lift (wsp w !! k);
      '(r, p, sp) ← sys_mmap env (wp w) sp req;
      ret (r, mk_world p (<[k := sp]> (wsp w)))
  | UUnmap k addr n nodes =>
      sp ← lift (wsp w !! k);
      '(r, p, sp) ← sys_munmap nodes (wp w) sp addr n;
      ret (r, mk_world p (<[k := sp]> (wsp w)))
  | UStore k v c env =>
      sp ← lift (wsp w !! k);
      '(ok, p, sp) ← user_store env (wp w) sp v c;
      ret (bit ok, mk_world p (<[k := sp]> (wsp w)))
  | UCopy k dst bytes env =>
      sp ← lift (wsp w !! k);
      '(ok, p, sp) ← user_copy_to env (wp w) sp dst (Some bytes) (zlen bytes);
      ret (bit ok, mk_world p (<[k := sp]> (wsp w)))
  | UFork k found envs =>
      sp ← lift (wsp w !! k);
      '(status, p, sp, child) ← fork_memory found envs (wp w) sp;
      ret (status, mk_world p (<[k := sp]> (wsp w) ++ option_list child))
  | UExit k =>
      sp ← lift (wsp w !! k);
      st ← lift (destroy_memory (pmm (wp w)) sp);
      ret (0, mk_world (mk_phys st (mem (wp w))) (<[k := gone]> (wsp w)))
  end.

(** When an operation makes sense: the thread exists, the arguments have their types' range, the stack
    lies in user memory, and the frames of a parent can be counted once more. *)
Definition op_ok (w : world) (op : uop) : Prop :=
  match op with
  | UNew => True
  | UMap k req env => (k < length (wsp w))%nat /\ 0 <= addr req /\ 0 <= len req < SIZE_MOD /\ 0 <= stack_base env <= user_limit
  | UUnmap k a n _ => (k < length (wsp w))%nat /\ 0 <= a < SIZE_MOD /\ 0 <= n < SIZE_MOD
  | UStore k v _ env => (k < length (wsp w))%nat /\ 0 <= v < user_limit /\ env_ok env
  | UCopy k dst bytes env =>
      (k < length (wsp w))%nat /\ 0 <= dst < SIZE_MOD /\ 0 < zlen bytes < SIZE_MOD /\ forall p, env_ok (env p)
  | UFork k _ _ => exists sp, wsp w !! k = Some sp /\ root sp <> None /\ countable (pmm (wp w)) (regions sp)
  | UExit k => (k < length (wsp w))%nat
  end.

(** ** Separate memories: the specification *)

Abbreviation memory := (Z -> option Z).

Definition overwrite (M : memory) (a n : Z) (f : Z -> option Z) : memory := fun v => if (a <=? v) && (v <? a + n) then f v else M v.

(** The same operation on one memory per thread, given the result the kernel answered. *)
Definition spec_step (op : uop) (r : Z) (A : list memory) : list memory :=
  match op with
  | UNew => A ++ [fun _ => None]
  | UMap k req env =>
      let bytes := mapped_bytes env (negb (has (mflags req) MAP_ANON)) in
      if 0 <=? r then alter (fun M => overwrite M r (ALIGN (len req)) (fun v => Some (content bytes (v - r)))) k A else A
  | UUnmap k a n _ => if r =? 0 then alter (fun M => overwrite M a (ALIGN n) (fun _ => None)) k A else A
  | UStore k v c _ => if r =? 1 then alter (fun M => overwrite M v 1 (fun _ => Some c)) k A else A
  | UCopy k dst bytes _ =>
      if r =? 1 then alter (fun M => overwrite M dst (zlen bytes) (fun v => bytes !! Z.to_nat (v - dst))) k A else A
  | UFork k _ _ => if r =? 0 then A ++ option_list (A !! k) else A
  | UExit k => alter (fun _ => fun _ => None) k A
  end.

(** The threads see exactly these memories. *)
Definition shows (w : world) (A : list memory) : Prop :=
  length A = length (wsp w) /\
  forall k sp M v, wsp w !! k = Some sp -> A !! k = Some M -> 0 <= v < user_limit -> load (mem (wp w)) sp v = M v.

(** The frames held beside the threads are [x]. *)
Definition world_inv (x : Z -> Z) (w : world) : Prop := mem_inv (pmm (wp w)) (wsp w) x.

(** A history, with the result of every operation. *)
Inductive history (w0 : world) : list (uop * Z) -> world -> Prop :=
  | history_nil : history w0 [] w0
  | history_snoc tr w op z w' : history w0 tr w -> op_ok w op -> exec op w = ret (z, w') -> history w0 (tr ++ [(op, z)]) w'.

Definition spec_run (tr : list (uop * Z)) : list memory := foldl (fun A e => spec_step e.1 e.2 A) [] tr.

(** ** One operation *)

(** What every operation does: it goes wrong only by stopping the machine. *)
Definition step_done (x : Z -> Z) (w : world) (op : uop) (res : run (Z * world)) : Prop :=
  res = panic \/
  exists z w', res = ret (z, w') /\ world_inv x w' /\ forall A, shows w A -> shows w' (spec_step op z A).

(** The memory of one thread changes on a range, or not at all. *)
Lemma shows_range w p k sp (hit : bool) a n f A :
  (forall k' s s' v, wsp w !! k' = Some s -> <[k := sp]> (wsp w) !! k' = Some s' -> 0 <= v < user_limit ->
     load (mem p) s' v = if decide (hit = true /\ k' = k /\ a <= v < a + n) then f v else load (mem (wp w)) s v) ->
  shows w A -> shows (mk_world p (<[k := sp]> (wsp w))) (if hit then alter (fun M => overwrite M a n f) k A else A).
Proof.
  intros Hl [Hlen Hs]. split; cbn [wsp wp].
  { rewrite length_insert. destruct hit; rewrite ?length_alter; done. }
  intros k' s' M v Hk' HM Hv. assert (exists s, wsp w !! k' = Some s) as [s Hks].
  { apply lookup_lt_is_Some. apply lookup_lt_Some in Hk'. by rewrite length_insert in Hk'. }
  rewrite (Hl k' s s' v Hks Hk' Hv). destruct hit; [|rewrite decide_False by naive_solver; by eapply Hs].
  destruct (decide (k' = k)) as [->|Hne].
  - rewrite list_lookup_alter_eq in HM. destruct (A !! k) as [M0|] eqn:HA; [|done]. injection HM as <-. unfold overwrite.
    destruct (Z.leb_spec a v), (Z.ltb_spec v (a + n)); cbn [andb];
      [rewrite decide_True by done; done|rewrite decide_False by lia..]; by eapply Hs.
  - rewrite list_lookup_alter_ne in HM by done. rewrite decide_False by naive_solver. by eapply Hs.
Qed.


Lemma new_step x w : world_inv x w -> step_done x w UNew (exec UNew w).
Proof.
  intros Hinv. destruct w as [[st m] sps]. unfold world_inv in Hinv. cbn [exec wp wsp pmm mem] in *.
  destruct (vm_create_ok st (i_pmm _ _ _ Hinv) (i_chunk _ _ _ Hinv)) as [->|(st1 & t & -> & Hkeep & Hpt & Hown & Hnone)]; [by left|].
  right. unfold mbind. cbn [run_bind ret]. eexists 0, _. split; [reflexivity|].
  set (sp := mk_space true (Some t) [] 0). pose proof Hkeep as (Hp & Hs & Hkp). pose proof Hs as (Hc0 & _).
  assert (Hho : forall b, holds (c0_of st) sp b = pt_own t b) by (intros b; unfold holds, own; cbn [root regions sp]; change (occ (c0_of st) [] b) with 0; lia).
  split.
  - unfold world_inv. cbn [pmm wp wsp]. apply inv_join.
    + eapply inv_outside; [exact Hinv|done|done|intros b..].
      * pose proof (i_x _ _ _ Hinv b). rewrite Hc0, Hho. pose proof (pt_own_nonneg t b). lia.
      * pose proof (i_count _ _ _ Hinv b). rewrite Hc0, Hho. specialize (Hown b). lia.
      * rewrite Hc0, Hho. pose proof (pt_own_nonneg t b). specialize (Hown b). pose proof (p_range _ (i_pmm _ _ _ Hinv) b).
        pose proof (i_count _ _ _ Hinv b). pose proof (i_x _ _ _ Hinv b). pose proof (total_nonneg (c0_of st) sps b).
        destruct (Z.eq_dec (frame_ref st b) 0); [right; left; lia|]. left. rewrite Hkp in Hown by lia. lia.
    + apply Hinv.
    + right. exists t. constructor; try done.
      * intros r v Hr. by apply not_elem_of_nil in Hr.
      * intros v y Hv Hy. by rewrite Hnone in Hy.
    + intros v b (r & _ & _ & _ & Hr & _). by apply not_elem_of_nil in Hr.
  - intros A [Hlen Hsh]. cbn [spec_step]. split; [cbn [wsp] in *; by rewrite !length_app, Hlen|].
    intros k sp' M v Hk HM Hv. cbn [wsp wp mem] in *. apply lookup_app_Some in Hk as [Hk|[Hge Hk]].
    + rewrite lookup_app_l in HM by (rewrite Hlen; by eapply lookup_lt_Some). by eapply Hsh.
    + rewrite lookup_app_r in HM by (cbn [wsp] in Hlen; lia). cbn [wsp] in Hlen. rewrite Hlen in HM.
      apply list_lookup_singleton_Some in Hk as [Hz <-]. rewrite Hz in HM. injection HM as <-.
      unfold load. cbn [root sp]. by rewrite Hnone.
Qed.

Lemma map_step x w k req env : world_inv x w -> op_ok w (UMap k req env) -> step_done x w (UMap k req env) (exec (UMap k req env) w).
Proof.
  intros Hinv (Hlt & Ha & Hn & Hb). destruct (lookup_lt_is_Some_2 _ _ Hlt) as [sp Hk]. cbn [exec].
  rewrite Hk. cbn [lift]. unfold mbind at 1. cbn [run_bind ret].
  destruct (sys_mmap_ok env (wp w) (wsp w) x k sp req Hinv Hk Ha Hn Hb) as [->|(z & p & sp' & -> & _ & Hi & _ & _ & Hl)]; [by left|].
  right. unfold mbind. cbn [run_bind ret]. eexists z, _. split; [reflexivity|]. split; [exact Hi|].
  intros A HA. cbn [spec_step]. apply (shows_range w p k sp' (0 <=? z)); [|done]. intros k' s s' v Hs Hs' Hv.
  rewrite (Hl k' s s' v Hs Hs' Hv). by apply decide_ext; rewrite Z.leb_le.
Qed.

Lemma unmap_step x w k a n nodes : world_inv x w -> op_ok w (UUnmap k a n nodes) ->
  step_done x w (UUnmap k a n nodes) (exec (UUnmap k a n nodes) w).
Proof.
  intros Hinv (Hlt & Ha & Hn). destruct (lookup_lt_is_Some_2 _ _ Hlt) as [sp Hk]. cbn [exec].
  rewrite Hk. cbn [lift]. unfold mbind at 1. cbn [run_bind ret].
  destruct (munmap_ok nodes (wp w) (wsp w) x k sp a n Hinv Hk Ha Hn) as (z & p & sp' & -> & Hm & _ & Hi & _ & Hz & Hl).
  right. unfold mbind. cbn [run_bind ret]. eexists z, _. split; [reflexivity|]. split; [exact Hi|].
  intros A HA. cbn [spec_step]. apply (shows_range w p k sp' (z =? 0)); [|done]. intros k' s s' v Hs Hs' Hv.
  rewrite Hm. destruct (decide (k' = k)) as [->|Hne].
  - rewrite list_lookup_insert_eq in Hs' by done. injection Hs' as <-. assert (s = sp) as -> by congruence.
    rewrite Hl by done. apply decide_ext. rewrite Z.eqb_eq. tauto.
  - rewrite list_lookup_insert_ne in Hs' by done. rewrite decide_False by tauto. congruence.
Qed.

Lemma store_step x w k v c env : world_inv x w -> op_ok w (UStore k v c env) ->
  step_done x w (UStore k v c env) (exec (UStore k v c env) w).
Proof.
  intros Hinv (Hlt & Hv & Henv). destruct (lookup_lt_is_Some_2 _ _ Hlt) as [sp Hk]. cbn [exec].
  rewrite Hk. cbn [lift]. unfold mbind at 1. cbn [run_bind ret].
  destruct (store_ok env (wp w) (wsp w) x k sp v c Hinv Hk Henv Hv) as [->|(ok & p & sp' & -> & _ & Hi & _ & Hl)]; [by left|].
  right. unfold mbind. cbn [run_bind ret]. eexists (bit ok), _. split; [reflexivity|]. split; [exact Hi|].
  intros A HA. cbn [spec_step]. replace (bit ok =? 1) with ok by (by destruct ok). apply (shows_range w p k sp' ok); [|done].
  intros k' s s' v' Hs Hs' Hv'. rewrite (Hl k' s s' v' Hs Hs' Hv').
  destruct (decide (ok = true /\ k' = k /\ v' = v)) as [(-> & -> & ->)|Hne]; [by rewrite decide_True by (split_and!; lia || done)|].
  rewrite decide_False; [done|]. intros (-> & -> & ?). apply Hne. split_and!; lia || done.
Qed.

Lemma copy_step x w k dst bytes env : world_inv x w -> op_ok w (UCopy k dst bytes env) ->
  step_done x w (UCopy k dst bytes env) (exec (UCopy k dst bytes env) w).
Proof.
  intros Hinv (Hlt & Hd & Hn & Henv). destruct (lookup_lt_is_Some_2 _ _ Hlt) as [sp Hk]. cbn [exec].
  rewrite Hk. cbn [lift]. unfold mbind at 1. cbn [run_bind ret].
  destruct (copy_to_ok env (wp w) (wsp w) x k sp dst bytes Henv Hinv Hk Hd Hn) as [->|(ok & p & sp' & -> & _ & Hi & _ & _ & Hl)]; [by left|].
  right. unfold mbind. cbn [run_bind ret]. eexists (bit ok), _. split; [reflexivity|]. split; [exact Hi|].
  intros A HA. cbn [spec_step]. replace (bit ok =? 1) with ok by (by destruct ok). by apply (shows_range w p k sp' ok).
Qed.

Lemma fork_step x w k found envs : world_inv x w -> op_ok w (UFork k found envs) ->
  step_done x w (UFork k found envs) (exec (UFork k found envs) w).
Proof.
  intros Hinv (sp & Hk & Hr & Hcnt). destruct (live_of _ _ _ _ _ Hinv Hk Hr) as [t Hsp]. cbn [exec].
  rewrite Hk. cbn [lift]. unfold mbind at 1. cbn [run_bind ret].
  destruct (fork_ok found envs (wp w) (wsp w) x k sp t Hinv Hk Hsp Hcnt) as [->|(z & p & sp' & oc & -> & _ & Hm & _ & [Hlv Hv] & Hoc)]; [by left|].
  right. unfold mbind. cbn [run_bind ret]. eexists z, _. split; [reflexivity|].
  assert (Hold : forall A k' s M v, shows w A -> <[k := sp']> (wsp w) !! k' = Some s -> A !! k' = Some M -> 0 <= v < user_limit -> load (mem p) s v = M v).
  { intros A k' s M v [HlA HA] Hs HM Hvl. destruct (lookup_lt_is_Some_2 (wsp w) k') as [s0 Hs0]; [apply lookup_lt_Some in HM; lia|].
    rewrite Hm, (Hv k' s0 s v Hs0 Hs Hvl). by eapply HA. }
  destruct oc as [child|]; cbn [option_list]; [destruct Hoc as (-> & Hi & _ & Hch)|destruct Hoc as (Hneg & Hi)]; (split; [unfold world_inv; cbn [wp wsp]; by rewrite ?app_nil_r|]);
    intros A HA; pose proof HA as [HlA HsA]; cbn [spec_step].
  - cbn [Z.eqb]. destruct (lookup_lt_is_Some_2 A k) as [M0 HM0]; [rewrite HlA; by eapply lookup_lt_Some|]. rewrite HM0. cbn [option_list].
    split; cbn [wsp wp]; [rewrite !length_app, length_insert, HlA; done|]. intros k' s M v Hs HM Hvl.
    apply lookup_app_Some in Hs as [Hs|[Hge Hs]].
    + rewrite lookup_app_l in HM by (apply lookup_lt_Some in Hs; rewrite length_insert in Hs; lia). by eapply Hold.
    + rewrite length_insert in *. rewrite lookup_app_r in HM by lia. rewrite HlA in HM.
      apply list_lookup_singleton_Some in Hs as [Hz <-]. rewrite Hz in HM. injection HM as <-. rewrite Hm, Hch by done. by eapply HsA.
  - rewrite (proj2 (Z.eqb_neq z 0)) by lia. split; cbn [wsp wp]; rewrite app_nil_r; [by rewrite length_insert|].
    intros k' s M v Hs HM Hvl. by eapply Hold.
Qed.

Lemma exit_step x w k : world_inv x w -> op_ok w (UExit k) -> step_done x w (UExit k) (exec (UExit k) w).
Proof.
  intros Hinv Hlt. destruct (lookup_lt_is_Some_2 _ _ Hlt) as [sp Hk]. cbn [exec].
  rewrite Hk. cbn [lift]. unfold mbind at 1. cbn [run_bind ret].
  assert (Hgone : dead gone) by done. pose proof (inv_leave _ _ _ _ _ gone Hinv Hk Hgone) as Hinv1.
  pose proof (proj1 (Forall_lookup _ _) (i_spaces _ _ _ Hinv) k sp Hk) as Hlive.
  destruct (destroy_memory_ok _ _ x sp Hinv1) as (st & -> & _ & Hinv2).
  { apply Hinv. } { destruct Hlive as [[_ ->]|[t Hsp]]; [done|apply Hsp]. }
  { destruct Hlive as [[-> _]|[t Hsp]]; [done|]. intros t'. rewrite (s_root _ _ _ Hsp). intros [= <-]. apply Hsp. }
  cbn [lift]. right. unfold mbind. cbn [run_bind ret]. eexists 0, _. split; [reflexivity|]. split; [exact Hinv2|].
  intros A [HlA HA]. cbn [spec_step]. split; cbn [wsp wp mem]; [by rewrite length_alter, length_insert|].
  intros k' s M v Hs HM Hv. destruct (decide (k' = k)) as [->|Hne].
  - rewrite list_lookup_insert_eq in Hs by done. injection Hs as <-. rewrite list_lookup_alter_eq in HM.
    destruct (A !! k); [|done]. by injection HM as <-.
  - rewrite list_lookup_insert_ne in Hs by done. rewrite list_lookup_alter_ne in HM by done. by eapply HA.
Qed.

Lemma exec_ok x w op : world_inv x w -> op_ok w op -> step_done x w op (exec op w).
Proof. destruct op; intros Hw Hop; auto using new_step, map_step, unmap_step, store_step, copy_step, fork_step, exit_step. Qed.

Lemma history_ok x w0 tr w : world_inv x w0 -> shows w0 [] -> history w0 tr w -> world_inv x w /\ shows w (spec_run tr).
Proof.
  intros Hi0 Hs0. induction 1 as [|tr w op z w' _ [Hi Hs] Hop Hex]; [done|].
  destruct (exec_ok x w op Hi Hop) as [Hp|(z' & w1 & He & Hi' & Hsh)]; [by rewrite Hex in Hp|].
  rewrite Hex in He. injection He as <- <-. split; [done|]. unfold spec_run. rewrite foldl_app. cbn [foldl fst snd]. by apply Hsh.
Qed.

(** A machine without user threads. *)
Definition boot st m : world := mk_world (mk_phys st m) [].

Lemma boot_ok st m : pmm_inv st -> chunk_ok st -> world_inv (frame_ref st) (boot st m) /\ shows (boot st m) [].
Proof.
  intros Hp Hc. split; [|done]. constructor; try done; cbn [wp wsp pmm mem boot].
  - intros b. apply (p_range _ Hp).
  - intros sp v b Hsp. by apply not_elem_of_nil in Hsp.
Qed.

(** C1: every thread has a memory of its own.  Whatever the threads do, in any order - make address
    spaces, map and unmap memory, store with copy-on-write faults, have the kernel copy into them, fork, exit -
    and whatever allocations and copies fail on the way, the bytes each thread reads are those of a
    machine with one separate memory per thread: a new mapping shows zeros or the file's bytes, an unmapped
    range is gone and nothing else is, a fork gives the child the parent's bytes, a later store of either
    is never seen by the other, failed operations change nothing; and the next operation either completes or stops the machine for want of memory, but
    never runs into undefined behaviour. *)
Theorem private_memories st m tr w : pmm_inv st -> chunk_ok st -> history (boot st m) tr w ->
  shows w (spec_run tr) /\ forall op, op_ok w op -> exec op w = panic \/ exists z w', exec op w = ret (z, w').
Proof.
  intros Hp Hc Hh. destruct (boot_ok st m Hp Hc) as [Hi0 Hs0]. destruct (history_ok _ _ tr w Hi0 Hs0 Hh) as [Hi Hs].
  split; [done|]. intros op Hop. destruct (exec_ok _ w op Hi Hop) as [He|(z & w' & He & _)]; [by left|right; eauto].
Qed.

(** C5: the count of a frame is exact: at every moment of every history it is the count at the start
    plus one for every page of a region and every page table of a thread that lies in the frame.  So
    memory is never released while a thread can reach it, and once the threads have exited every frame
    they used, for pages, copies or tables, failed forks and mappings included, is free again. *)
Theorem frames_accounted st m tr w : pmm_inv st -> chunk_ok st -> history (boot st m) tr w ->
  (forall b, frame_ref (pmm (wp w)) b = frame_ref st b + total (c0_of st) (wsp w) b) /\
  ((forall sp, sp ∈ wsp w -> dead sp) -> forall b, frame_ref (pmm (wp w)) b = frame_ref st b).
Proof.
  intros Hp Hc Hh. destruct (boot_ok st m Hp Hc) as [Hi0 Hs0]. destruct (history_ok _ _ tr w Hi0 Hs0 Hh) as [Hi _].
  assert (Hall : forall b, frame_ref (pmm (wp w)) b = frame_ref st b + total (c0_of st) (wsp w) b).
  { intros b. pose proof (i_count _ _ _ Hi b) as Hb. destruct (i_chunk _ _ _ Hi) as [[Hs _] _], Hc as [[Hs' _] _].
    rewrite Hs, <- Hs' in Hb. lia. }
  split; [done|]. intros Hd b. rewrite Hall. enough (total (c0_of st) (wsp w) b = 0) by lia.
  apply sumz_zero. intros sp Hsp. unfold holds, own. by destruct (Hd sp Hsp) as [-> ->].
Qed.
End Proofs.

(** ** An example

    Sixteen frames: a thread maps a page and stores a byte, forks, and stores another byte, which the
    child does not see; both exit. *)

Section Example.
#[local] Existing Instance arch64.
#[local] Existing Instance demo_map.
#[local] Existing Instance demo_kernel.
#[local] Existing Instance x86_64.

Definition after (op : uop) (w : world) : world := match exec op w with Some (Done (_, w')) => w' | _ => w end.
Definition answer (op : uop) (w : world) : Z := match exec op w with Some (Done (z, _)) => z | _ => - 1 end.
Definition completes (op : uop) (w : world) : bool := match exec op w with Some (Done _) => true | _ => false end.

Lemma snoc_after w0 tr w op : history w0 tr w -> op_ok w op -> completes op w = true -> history w0 (tr ++ [(op, answer op w)]) (after op w).
Proof.
  intros Hh Hop Hc. apply (history_snoc w0 tr w); [done|done|]. unfold completes, answer, after in *. by destruct (exec op w) as [[[]|]|].
Qed.

Lemma few_holds st l : forallb (fun c => c <=? 100) (refs st) = true -> zlen l <= 100 -> countable st l.
Proof.
  intros Hr Hl b _. rewrite forallb_forall in Hr. assert (frame_ref st b <= 100).
  { unfold frame_ref, cnt. case_test; [|lia]. destruct (refs st !! Z.to_nat b) eqn:El; cbn; [|lia]. apply Z.leb_le, Hr. apply list_elem_of_In. by eapply list_elem_of_lookup_2. }
  assert (occ (chunk_start (frames st)) l b <= zlen l); [|unfold UINT16_MAX; lia]. clear Hl. unfold occ, zlen.
  induction l as [|r l IH]; [done|]. rewrite sumz_cons. cbn [length]. unfold bit at 1. case_match; lia.
Qed.

(** Facts about a world that can be evaluated. *)
Definition alive (w : world) (k : nat) : bool := match wsp w !! k with Some sp => if root sp then true else false | None => false end.
Definition regions_of (w : world) (k : nat) : list sched_user_region_t := match wsp w !! k with Some sp => regions sp | None => [] end.
Definition byte_of (w : world) (k : nat) (v : Z) : option Z := match wsp w !! k with Some sp => load (mem (wp w)) sp v | None => None end.
Definition all_gone (w : world) : bool := forallb (fun sp => match root sp, regions sp with None, [] => true | _, _ => false end) (wsp w).

Lemma alive_ok w k : alive w k = true -> exists sp, wsp w !! k = Some sp /\ root sp <> None /\ regions sp = regions_of w k.
Proof. unfold alive, regions_of. destruct (wsp w !! k) as [sp|]; [|done]. intros Hr. exists sp. split_and!; try done. by destruct (root sp). Qed.

Lemma all_gone_ok w : all_gone w = true -> forall sp, sp ∈ wsp w -> dead sp.
Proof.
  unfold all_gone. rewrite forallb_forall. intros Ha sp Hsp. specialize (Ha sp (proj1 (list_elem_of_In _ _) Hsp)). unfold dead.
  by destruct (root sp), (regions sp).
Qed.

Lemma shown_byte w A k v c : shows w A -> alive w k = true -> 0 <= v < user_limit ->
  match A !! k with Some M => M v | None => None end = Some c -> byte_of w k v = Some c.
Proof.
  intros [_ Hs] Ha Hv HM. destruct (alive_ok w k Ha) as (sp & Hk & _). unfold byte_of. rewrite Hk.
  destruct (A !! k) as [M|] eqn:HA; [|done]. by rewrite (Hs k sp M v Hk HA Hv).
Qed.

Definition ops : list uop :=
  let env := mk_env false None true true in
  let req := mk_args 0 4096 (Z.lor PROT_READ PROT_WRITE) (Z.lor MAP_PRIVATE MAP_ANON) (-1) 0 in
  [UNew; UMap 0 req (mk_mmap false 0 0 false true true 0 (0, [])); UStore 0 0x400010 7 env;
   UFork 0 true (fun _ => mk_fork false true true); UStore 0 0x400010 8 env].

Definition demo_boot : world := boot demo_pmm (fun _ => 0).
Definition demo_world (n : nat) : world := foldl (fun w op => after op w) demo_boot (take n ops).
Definition demo_trace : list (uop * Z) := imap (fun i op => (op, answer op (demo_world i))) ops.

Lemma user_limit_47 : user_limit = 2 ^ 47.
Proof. done. Qed.

Lemma demo_history : history demo_boot demo_trace (demo_world 5).
Proof.
  assert (H1 : history demo_boot (take 1 demo_trace) (demo_world 1)) by (apply (snoc_after _ [] _ UNew); [constructor|done|by vm_compute]).
  assert (H2 : history demo_boot (take 2 demo_trace) (demo_world 2)).
  { apply (snoc_after _ _ _ _ H1); [|by vm_compute]. split_and!; rewrite ?user_limit_47; try done. vm_compute; lia. }
  assert (H3 : history demo_boot (take 3 demo_trace) (demo_world 3)).
  { apply (snoc_after _ _ _ _ H2); [|by vm_compute]. split; [vm_compute; lia|]. split; [by rewrite user_limit_47|]. by intros c [=]. }
  assert (H4 : history demo_boot (take 4 demo_trace) (demo_world 4)).
  { apply (snoc_after _ _ _ _ H3); [|by vm_compute]. destruct (alive_ok (demo_world 3) 0) as (sp & Hk & Hr & Hg); [by vm_compute|].
    exists sp. split; [done|]. split; [done|]. apply few_holds; [by vm_compute|rewrite Hg; by vm_compute]. }
  apply (snoc_after _ _ _ _ H4); [|by vm_compute]. split; [vm_compute; lia|]. split; [by rewrite user_limit_47|]. by intros c [=].
Qed.

Lemma private_memories_witness :
  history demo_boot demo_trace (demo_world 5) /\ (snd <$> demo_trace) = [0; 0x400000; 1; 0; 1] /\
  byte_of (demo_world 5) 0 0x400010 = Some 8 /\ byte_of (demo_world 5) 1 0x400010 = Some 7.
Proof.
  split; [exact demo_history|]. split; [by vm_compute|].
  destruct (private_memories demo_pmm (fun _ => 0) demo_trace (demo_world 5) demo_pmm_inv demo_chunk_ok demo_history) as [Hs _].
  split; (eapply shown_byte; [exact Hs|by vm_compute|by rewrite user_limit_47|by vm_compute]).
Defined.

(** Both exit: all frames are free again. *)
Definition demo_half : world := after (UExit 0) (demo_world 5).
Definition demo_end : world := after (UExit 1) demo_half.
Definition demo_exits : list (uop * Z) := (demo_trace ++ [(UExit 0, answer (UExit 0) (demo_world 5))]) ++ [(UExit 1, answer (UExit 1) demo_half)].

Lemma demo_exits_history : history demo_boot demo_exits demo_end.
Proof. apply snoc_after; [apply snoc_after; [exact demo_history|vm_compute; lia|by vm_compute]|vm_compute; lia|by vm_compute]. Qed.

Lemma frames_accounted_witness :
  history demo_boot demo_exits demo_end /\ (forall b, frame_ref (pmm (wp demo_end)) b = frame_ref demo_pmm b).
Proof.
  split; [exact demo_exits_history|].
  apply (frames_accounted demo_pmm (fun _ => 0) demo_exits demo_end demo_pmm_inv demo_chunk_ok demo_exits_history).
  apply all_gone_ok. by vm_compute.
Defined.
End Example.
End PrivateMemory.
