(* ===== verification/Mappings.v ===== *)
(** * What [mmap] and [munmap] answer

    The two system calls as their callers meet them, at any moment of any history of [PrivateMemory]. *)

From S2P Require Import Prelude Errno Memory Outcome Bitmap BitmapAlloc Pmm Paging Paging64 UserMem CowMemory ForkMemory UserAccess MapCalls MapMemory PrivateMemory.
From stdpp Require Import list.
Import Bitmap BitmapAlloc Pmm Paging Paging64 UserMem CowMemory ForkMemory UserAccess MapCalls MapMemory PrivateMemory.
Open Scope Z_scope.

Module Mappings.
Section Proofs.
Context `{PT : PageTables}.
Implicit Types (sp : space) (r : sched_user_region_t) (st : pmm_state_t) (t : pt) (v b : Z).

(** A thread of a history. *)
Definition lives st m tr w (k : nat) sp : Prop := history (boot st m) tr w /\ wsp w !! k = Some sp.

Lemma mapping_inv st m tr w : pmm_inv st -> chunk_ok st -> history (boot st m) tr w -> mem_inv (pmm (wp w)) (wsp w) (frame_ref st).
Proof.
  intros Hp Hc Hh. destruct (boot_ok st m Hp Hc) as [Hi0 Hs0]. by destruct (history_ok _ _ tr w Hi0 Hs0 Hh).
Qed.

(** An address is mapped when a region lies around it. *)
Lemma mapped_cov st sps x k sp m v : mem_inv st sps x -> sps !! k = Some sp -> root sp <> None -> 1 <= cov (regions sp) v -> load m sp v <> None.
Proof.
  intros Hinv Hk Hr Hc. destruct (live_of _ _ _ _ _ Hinv Hk Hr) as [t Hsp]. destruct (cov_pos _ v Hc) as (r & Hin & Hcov).
  by rewrite (load_region st sp t r v m (i_pmm _ _ _ Hinv) Hsp Hin Hcov).
Qed.

(** C27: [mmap] either fails and changes no byte of the thread, or answers an aligned address, the one
    asked for when it is fixed, with room below the user limit for the whole length, where nothing was
    mapped before; there it shows the bytes of the file followed by zeros, and all other bytes stay as
    they were.  The search for a place always ends; the machine stops only for want of memory for
    page tables. *)
Theorem mmap_exact st m tr w k sp req env : pmm_inv st -> chunk_ok st -> lives st m tr w k sp ->
  0 <= addr req -> 0 <= len req < SIZE_MOD -> 0 <= stack_base env <= user_limit ->
  sys_mmap env (wp w) sp req = panic \/
  exists status w' sp', sys_mmap env (wp w) sp req = ret (status, w', sp') /\
    (status < 0 -> forall v, 0 <= v < user_limit -> load (mem w') sp' v = load (mem (wp w)) sp v) /\
    (0 <= status ->
       status mod PAGE_4KIB = 0 /\ 0 < len req /\ (has (mflags req) MAP_FIXED = true -> status = addr req) /\
       forall v, if decide (status <= v < status + ALIGN (len req))
         then 0 <= v < user_limit /\ load (mem (wp w)) sp v = None /\
              load (mem w') sp' v = Some (content (mapped_bytes env (negb (has (mflags req) MAP_ANON))) (v - status))
         else 0 <= v < user_limit -> load (mem w') sp' v = load (mem (wp w)) sp v).
Proof.
  intros Hp Hc [Hh Hk] Ha Hn Hb. pose proof (mapping_inv st m tr w Hp Hc Hh) as Hinv.
  destruct (sys_mmap_ok env (wp w) (wsp w) _ k sp req Hinv Hk Ha Hn Hb) as [->|(status & w' & sp' & -> & _ & _ & _ & Hat & Hl)]; [by left|].
  right. exists status, w', sp'. split; [done|].
  assert (Hv : forall v, 0 <= v < user_limit -> load (mem w') sp' v = if decide (0 <= status /\ k = k /\ status <= v < status + ALIGN (len req))
    then Some (content (mapped_bytes env (negb (has (mflags req) MAP_ANON))) (v - status)) else load (mem (wp w)) sp v).
  { intros v Hv. apply (Hl k); [done| |done]. apply list_lookup_insert_eq. by eapply lookup_lt_Some. }
  split; [intros Hneg v Hlim; rewrite Hv by done; by rewrite decide_False by lia|]. intros Hpos. destruct (Hat Hpos) as (M1 & M2 & M3 & M4).
  split_and!; try done. intros v. destruct (decide (status <= v < status + ALIGN (len req))) as [Hin|Hin].
  - destruct (M4 v Hin) as [Hlim Hnone]. split_and!; try done; try lia. rewrite Hv by lia. by rewrite decide_True.
  - intros Hlim. rewrite Hv by lia. by rewrite decide_False by tauto.
Qed.

(** Some address of the range is mapped. *)
Definition some_mapped (m : Z -> Z) sp (a n : Z) : Prop := exists v, a <= v < a + ALIGN n /\ 0 <= v < user_limit /\ load m sp v <> None.

(** C28: [munmap] takes away the whole range or nothing, and what it answers is determined.  It refuses a
    range that is empty, at zero, not aligned, or whose end is no address any more, and a range without a mapped page;
    when the range lies inside one region that goes on at both sides it succeeds exactly if the node for the second half
    is found, and otherwise fails for want of memory; in every other case it succeeds.  After a success no address of the
    range is mapped any more and every other byte is as before; after a failure every byte is. *)
Theorem munmap_exact st m tr w k sp a n nodes : pmm_inv st -> chunk_ok st -> lives st m tr w k sp ->
  0 <= a < SIZE_MOD -> 0 <= n < SIZE_MOD ->
  exists status w' sp', sys_munmap nodes (wp w) sp a n = ret (status, w', sp') /\
    (forall v, 0 <= v < user_limit ->
       load (mem w') sp' v = if decide (status = 0 /\ a <= v < a + ALIGN n) then None else load (mem (wp w)) sp v) /\
    (~ range_ok sp a n \/ ~ some_mapped (mem (wp w)) sp a n -> status = - EINVAL) /\
    (range_ok sp a n -> some_mapped (mem (wp w)) sp a n -> (exists r, r ∈ regions sp /\ splits r a (a + ALIGN n)) ->
       status = if nodes 0%nat then 0 else - ENOMEM) /\
    (range_ok sp a n -> some_mapped (mem (wp w)) sp a n -> ~ (exists r, r ∈ regions sp /\ splits r a (a + ALIGN n)) -> status = 0).
Proof.
  intros Hp Hc [Hh Hk] Ha Hn. pose proof (mapping_inv st m tr w Hp Hc Hh) as Hinv.
  destruct (munmap_ok nodes (wp w) (wsp w) _ k sp a n Hinv Hk Ha Hn) as (status & w' & sp' & -> & Hm & _ & _ & _ & Hst & Hl).
  exists status, w', sp'. split; [done|]. split; [intros v Hv; rewrite Hm; by apply Hl|].
  destruct (munmap_req_range sp a n Ha Hn) as [[Hok Hreq]|[Hok Hreq]]; rewrite Hreq in Hst; [|by destruct Hst as [[-> _]|[? _]]; [split_and!|]].
  destruct Hst as [[_ ?]|[_ [Hst Hno]]]; [done|]. destruct (live_of _ _ _ _ _ Hinv Hk (proj1 Hok)) as [t Hsp].
  assert (Hcov : some_mapped (mem (wp w)) sp a n <-> exists v, a <= v < a + ALIGN n /\ 1 <= cov (regions sp) v).
  { split; intros (v & Hv & Hx); exists v; (split; [done|]).
    - destruct Hx as [Hlim Hx]. pose proof (cov_nonneg (regions sp) v). destruct (decide (cov (regions sp) v = 0)) as [Hz0|]; [|lia]. by destruct Hx; apply (load_uncovered (pmm (wp w)) sp t).
    - split; [|by eapply mapped_cov; [..|apply Hok|]]. destruct (cov_pos _ v Hx) as (r & Hr & Hc'). apply covers_bounds in Hc'.
      pose proof (proj1 (Forall_forall _ _) (s_regs _ _ _ Hsp) r Hr) as [_ ? ? _ _ _]. lia. }
  rewrite Hcov. destruct Hst as [(-> & [?|Hx])|[(-> & _ & Hz)|(-> & _ & _)]]; [done| | |].
  - split_and!; [tauto| |done]. intros _ _ Hs. destruct (nodes 0%nat) eqn:E; [done|]. by destruct (proj2 Hno (conj eq_refl Hs)).
  - assert (Hemp : ~ exists v, a <= v < a + ALIGN n /\ 1 <= cov (regions sp) v) by (intros (v & Hv & Hx); specialize (Hz v Hv); lia). split_and!; tauto.
  - destruct (proj1 Hno eq_refl) as [E (r & Hr & Hs)]. rewrite E. split_and!; [|done|intros _ _ Hns; destruct Hns; eauto].
    intros [?|Hx]; [tauto|]. destruct Hx. exists a. destruct Hok as (_ & _ & Hn0 & _ & _). destruct (align_up_ok n) as (_ & Hr' & _); [lia|].
    assert (a <= a < a + ALIGN n) by (unfold PAGE_4KIB in *; lia). split; [done|]. apply (cov_elem _ a r Hr). by eapply splits_covers.
Qed.
End Proofs.

(** ** An example: the memory of [PrivateMemory]'s example *)

Section Example.
#[local] Existing Instance arch64.
#[local] Existing Instance demo_map.
#[local] Existing Instance demo_kernel.
#[local] Existing Instance x86_64.

(** Two pages of a file of three bytes. *)
Definition file_req : mmap_args_t := mk_args 0x500000 4097 PROT_READ (Z.lor MAP_PRIVATE MAP_FIXED) 3 0.
Definition file_env : mmap_env := mk_mmap false 0 0 false true true 0 (3, [65; 66; 67]).

Definition byte_after (res : run (Z * phys * space)) (v : Z) : option Z := match res with Some (Done (_, w, sp)) => load (mem w) sp v | _ => None end.
Definition status_of (res : run (Z * phys * space)) : option Z := match res with Some (Done (z, _, _)) => Some z | _ => None end.

Lemma byte_after_ret z w sp v : byte_after (ret (z, w, sp)) v = load (mem w) sp v.
Proof. done. Qed.

Lemma mmap_exact_witness : exists sp, wsp (demo_world 5) !! 0%nat = Some sp /\
  status_of (sys_mmap file_env (wp (demo_world 5)) sp file_req) = Some 0x500000 /\
  byte_after (sys_mmap file_env (wp (demo_world 5)) sp file_req) 0x500002 = Some 67 /\
  byte_after (sys_mmap file_env (wp (demo_world 5)) sp file_req) 0x500003 = Some 0.
Proof.
  destruct (alive_ok (demo_world 5) 0) as (sp & Hk & Hr & Hg); [by vm_compute|]. exists sp. split; [done|].
  assert (Hz : (sp ← wsp (demo_world 5) !! 0%nat; status_of (sys_mmap file_env (wp (demo_world 5)) sp file_req)) = Some 0x500000) by (by vm_compute).
  rewrite Hk in Hz. cbn [mbind option_bind] in Hz. split; [done|].
  destruct (mmap_exact demo_pmm (fun _ => 0) demo_trace (demo_world 5) 0 sp file_req file_env demo_pmm_inv demo_chunk_ok (conj demo_history Hk)
    ltac:(cbn; lia) ltac:(split; [cbn; lia|done]) ltac:(rewrite user_limit_47; cbn; lia)) as [Hpanic|(status & w' & sp' & He & _ & Hok)].
  { rewrite Hpanic in Hz. discriminate Hz. }
  rewrite He in *. injection Hz as ->. destruct (Hok ltac:(lia)) as (_ & _ & _ & Hv). rewrite !byte_after_ret.
  split; [specialize (Hv 0x500002)|specialize (Hv 0x500003)]; rewrite decide_True in Hv by (split; vm_compute; congruence); destruct Hv as (_ & _ & ->); by vm_compute.
Defined.

Lemma munmap_exact_witness : exists sp, wsp (demo_world 5) !! 0%nat = Some sp /\
  status_of (sys_munmap (fun _ => true) (wp (demo_world 5)) sp 0x400000 1) = Some 0 /\
  byte_after (sys_munmap (fun _ => true) (wp (demo_world 5)) sp 0x400000 1) 0x400010 = None.
Proof.
  destruct (alive_ok (demo_world 5) 0) as (sp & Hk & Hr & Hg); [by vm_compute|]. exists sp. split; [done|].
  assert (Hz : (sp ← wsp (demo_world 5) !! 0%nat; status_of (sys_munmap (fun _ => true) (wp (demo_world 5)) sp 0x400000 1)) = Some 0) by (by vm_compute).
  rewrite Hk in Hz. cbn [mbind option_bind] in Hz. split; [done|].
  destruct (munmap_exact demo_pmm (fun _ => 0) demo_trace (demo_world 5) 0 sp 0x400000 1 (fun _ => true) demo_pmm_inv demo_chunk_ok (conj demo_history Hk)
    ltac:(split; [lia|done]) ltac:(split; [lia|done])) as (status & w' & sp' & He & Hv & _).
  rewrite He in *. injection Hz as ->. rewrite !byte_after_ret. rewrite Hv by (rewrite user_limit_47; lia).
  rewrite decide_True by (split; [lia|]; split; vm_compute; congruence). reflexivity.
Defined.
End Example.
End Mappings.
