(* ===== verification/UserCopies.v ===== *)
(** * Copies between kernel and user memory

    What [kernel/sys/usercopy.c] promises to system calls, in every state the threads can bring memory
    to: the check of a range answers, and answers right; a copy from user memory gives the bytes the
    thread would read itself, or refuses; a string is copied up to its end, within the buffer. *)

From S2P Require Import Prelude Errno Memory Outcome Bitmap BitmapAlloc Pmm Paging Paging64 UserMem CowMemory ForkMemory UserAccess PrivateMemory.
From stdpp Require Import list.
Import Bitmap BitmapAlloc Pmm Paging Paging64 UserMem CowMemory ForkMemory UserAccess PrivateMemory.
Open Scope Z_scope.

Module UserCopies.
Section Proofs.
Context `{PT : PageTables} (st : pmm_state_t) (m : Z -> Z) (Hst : pmm_inv st) (Hck : chunk_ok st).
Implicit Types (sp : space) (w : world) (src len n : Z) (buf : list Z).

(** A thread of a history. *)
Definition thread_of tr w (k : nat) sp : Prop := history (boot st m) tr w /\ wsp w !! k = Some sp.

Lemma thread_inv tr w k sp : thread_of tr w k sp -> mem_inv (pmm (wp w)) (wsp w) (frame_ref st).
Proof. intros [Hh _]. destruct (boot_ok st m Hst Hck) as [Hi0 Hs0]. by destruct (history_ok _ _ tr w Hi0 Hs0 Hh) as [Hi _]. Qed.

(** C14: the check of a user range always comes to an answer, within one round per region and one per
    page, and the answer is exact: a range is accepted if and only if it is empty, or the thread is a
    user thread, the range starts above address zero, ends at or below the highest user address
    without wrapping around, and every byte of it lies in a region of the thread, a writable one when
    the access is a write. *)
Theorem range_check_exact tr w k sp p len write : thread_of tr w k sp -> 0 <= p < SIZE_MOD -> 0 <= len < SIZE_MOD ->
  exists ok, user_range_ok sp p len write = Some ok /\
    (ok = true <-> len = 0 \/ (user_thread sp = true /\ p <> 0 /\ p + len <= arch_user_stack_top /\
                               forall v, p <= v < p + len -> permitted sp write v)).
Proof.
  intros Ht Hp Hl. pose proof (thread_inv _ _ _ _ Ht) as Hinv. destruct Ht as [_ Hk].
  destruct (proj1 (Forall_lookup _ _) (i_spaces _ _ _ Hinv) k sp Hk) as [Hd|[t Hsp]].
  - destruct (Z.eq_dec len 0) as [->|Hne]; [exists true; split; [done|]; split; [by left|done]|].
    exists false. rewrite range_dead by done. split; [done|]. split; [done|]. intros [?|(_ & _ & _ & Hall)]; [done|].
    destruct (Hall p ltac:(lia)) as (r & Hr & _). destruct Hd as [_ Hd]. rewrite Hd in Hr. by apply not_elem_of_nil in Hr.
  - apply (user_range_exact _ sp t p len write (i_pmm _ _ _ Hinv) Hsp Hp Hl).
Qed.

(** C25: a copy from user memory is exact: it succeeds if and only if the range may be read; then the
    first [len] bytes of the buffer are the bytes the thread itself reads at these addresses and the
    rest of the buffer is as before; otherwise the buffer is untouched.  It never touches a missing
    page. *)
Theorem copy_from_exact tr w k sp buf src len : thread_of tr w k sp -> 0 <= src < SIZE_MOD -> 0 < len < SIZE_MOD -> len <= zlen buf ->
  exists ok buf', user_copy_from (wp w) sp (Some buf) src len = Some (ok, Some buf') /\ (ok = true <-> range_spec sp src len false) /\
    if ok then exists l, zlen l = len /\ buf' = l ++ drop (Z.to_nat len) buf /\
                 forall i, 0 <= i < len -> load (mem (wp w)) sp (src + i) = l !! Z.to_nat i
    else buf' = buf.
Proof. intros Ht Hs Hl Hb. pose proof (thread_inv _ _ _ _ Ht) as Hinv. destruct Ht as [_ Hk]. by eapply copy_from_ok. Qed.

(** C26: the copy of a string from user memory ends in exactly one of three ways, with the bytes the
    thread itself reads in the buffer: the string with its end, when it ends within the buffer; the
    bytes before the first address that may not be read, with the error for a bad address; or, when
    neither comes before the buffer is full, the bytes that fit with a final zero, and the error for a
    name that is too long.  It never writes outside of the buffer and never reads past the end of the
    string. *)
Theorem copy_string_exact tr w k sp src buf n : thread_of tr w k sp -> src <> 0 -> 0 < n -> n <= zlen buf ->
  exists e buf' l, user_copy_string (wp w) sp src (Some buf) n = Some (e, Some buf') /\ read_so_far (mem (wp w)) sp src l /\
    string_end (mem (wp w)) sp src n buf l e buf' /\ zlen buf' = zlen buf.
Proof.
  intros Ht Hs Hn Hb. pose proof (thread_inv _ _ _ _ Ht) as Hinv. destruct Ht as [_ Hk].
  destruct (copy_string_ok (wp w) _ _ k sp src buf n Hinv Hk Hs Hn Hb) as (e & buf' & l & He & Hl & Hend). exists e, buf', l.
  split_and!; try done. pose proof (zlen_nonneg l). unfold zlen in *.
  destruct Hend as [(_ & ? & _ & ->)|[(_ & ? & _ & _ & ->)|(_ & ? & ->)]]; unfold zlen in *;
    rewrite length_app; cbn [length]; rewrite ?length_take, length_drop; lia.
Qed.
End Proofs.

(** ** Examples

    The thread that forked in the example of [PrivateMemory]: one page at [0x400000], with 8 at offset
    16. *)
Section Example.
#[local] Existing Instance arch64.
#[local] Existing Instance demo_map.
#[local] Existing Instance demo_kernel.
#[local] Existing Instance x86_64.

Lemma demo_thread : exists sp, thread_of demo_pmm (fun _ => 0) demo_trace (demo_world 5) 0 sp /\ regions sp = regions_of (demo_world 5) 0.
Proof.
  destruct (alive_ok (demo_world 5) 0) as (sp & Hk & _ & Hr); [by vm_compute|]. exists sp. split; [|done]. split; [exact demo_history|done].
Qed.

(** A range across the end of the page is refused. *)
Lemma range_check_exact_witness : exists sp, thread_of demo_pmm (fun _ => 0) demo_trace (demo_world 5) 0 sp /\
  exists ok, user_range_ok sp 0x400ff0 32 false = Some ok /\
    (ok = true <-> 32 = 0 \/ (user_thread sp = true /\ 0x400ff0 <> 0 /\ 0x400ff0 + 32 <= arch_user_stack_top /\
                              forall v, 0x400ff0 <= v < 0x400ff0 + 32 -> permitted sp false v)).
Proof.
  destruct demo_thread as (sp & Ht & _). exists sp. split; [exact Ht|].
  apply (range_check_exact demo_pmm (fun _ => 0) demo_pmm_inv demo_chunk_ok demo_trace (demo_world 5) 0 sp 0x400ff0 32 false Ht); by vm_compute.
Defined.

Lemma copy_from_exact_witness : exists sp, thread_of demo_pmm (fun _ => 0) demo_trace (demo_world 5) 0 sp /\
  exists ok buf', user_copy_from (wp (demo_world 5)) sp (Some [1; 2; 3]) 0x400010 2 = Some (ok, Some buf') /\
    (ok = true <-> range_spec sp 0x400010 2 false) /\
    if ok then exists l, zlen l = 2 /\ buf' = l ++ drop (Z.to_nat 2) [1; 2; 3] /\
                 forall i, 0 <= i < 2 -> load (mem (wp (demo_world 5))) sp (0x400010 + i) = l !! Z.to_nat i
    else buf' = [1; 2; 3].
Proof.
  destruct demo_thread as (sp & Ht & _). exists sp. split; [exact Ht|].
  apply (copy_from_exact demo_pmm (fun _ => 0) demo_pmm_inv demo_chunk_ok demo_trace (demo_world 5) 0 sp [1; 2; 3] 0x400010 2 Ht); by vm_compute.
Defined.

Lemma copy_string_exact_witness : exists sp, thread_of demo_pmm (fun _ => 0) demo_trace (demo_world 5) 0 sp /\
  exists e buf' l, user_copy_string (wp (demo_world 5)) sp 0x400010 (Some [1; 2; 3]) 3 = Some (e, Some buf') /\
    read_so_far (mem (wp (demo_world 5))) sp 0x400010 l /\ string_end (mem (wp (demo_world 5))) sp 0x400010 3 [1; 2; 3] l e buf' /\
    zlen buf' = zlen [1; 2; 3].
Proof.
  destruct demo_thread as (sp & Ht & _). exists sp. split; [exact Ht|].
  apply (copy_string_exact demo_pmm (fun _ => 0) demo_pmm_inv demo_chunk_ok demo_trace (demo_world 5) 0 sp 0x400010 [1; 2; 3] 3 Ht); by vm_compute.
Defined.
End Example.
End UserCopies.
