(* ===== verification/BinHeap.v ===== *)
(** * Array-backed binary heaps

    The scheduler keeps two intrusive binary heaps, one run queue per core and the queue of
    sleepers.  This file has the part of their correctness that does not depend on what is
    stored: the order a comparison must satisfy ([HeapOrder]), the two repair loops on a list,
    and the theorems that they restore the heap property and only permute the elements.  The
    heaps of [RunQueue] and [SleepHeap] are shown to follow these loops cell by cell. *)

From S2P Require Import Prelude.
From stdpp Require Import sorting.

(** What both comparisons of the scheduler promise: a strict weak order. *)
Class HeapOrder {A} (less : A -> A -> bool) := {
  less_irrefl : forall a, less a a = false;
  less_asym : forall a b, less a b = true -> less b a = false;
  nless_trans : forall a b c, less a b = false -> less b c = false -> less a c = false
}.

Lemma insert_Permutation {A} (l : list A) i a b :
  l !! i = Some a -> a :: <[i := b]> l ≡ₚ b :: l.
Proof.
  revert i. induction l as [|x l IH]; intros [|i] Hi; simplify_eq/=; [constructor|].
  rewrite (Permutation_swap x a), (Permutation_swap x b). constructor. by apply IH.
Qed.

Section Heap.
Context {A : Type} (less : A -> A -> bool) `{HO : !HeapOrder less}.
Implicit Types (h : list A) (i j p c n : nat) (a b : A).
Local Open Scope nat_scope.

Definition parent i := (i - 1) / 2.

Lemma parent_lt i : 0 < i -> parent i < i.
Proof. intros. unfold parent. apply Nat.Div0.div_lt_upper_bound; lia. Qed.

Lemma parent_children c i : 0 < c -> parent c = i <-> c = 2 * i + 1 \/ c = 2 * i + 2.
Proof.
  intros Hc. unfold parent. split.
  - intros <-. pose proof (Nat.div_mod_eq (c - 1) 2).
    pose proof (Nat.mod_upper_bound (c - 1) 2). lia.
  - intros Hi. symmetry. destruct Hi as [-> | ->].
    + apply Nat.div_unique with 0; lia.
    + apply Nat.div_unique with 1; lia.
Qed.

(** [edge h c p]: the element at [c] does not go before the one at [p]. *)
Definition edge h c p := forall a b, h !! c = Some a -> h !! p = Some b -> less a b = false.

Definition heap_ok h := forall c, 0 < c -> edge h c (parent c).

(** Every edge that does not touch [i] is in order, and so are the edges that skip [i]. *)
Definition hole_inv h i :=
  (forall c, 0 < c -> c <> i -> parent c <> i -> edge h c (parent c)) /\
  (0 < i -> forall c, 0 < c -> parent c = i -> edge h c (parent i)).

Definition up_inv h i := hole_inv h i /\ forall c, 0 < c -> parent c = i -> edge h c i.
Definition down_inv h i := hole_inv h i /\ (0 < i -> edge h i (parent i)).

Definition hswap h i j : list A :=
  match h !! i, h !! j with
  | Some a, Some b => <[j := a]> (<[i := b]> h)
  | _, _ => h
  end.

Lemma hswap_length h i j : length (hswap h i j) = length h.
Proof. unfold hswap. repeat case_match; by rewrite ?length_insert. Qed.

Lemma hswap_lookup h i j a b k :
  h !! i = Some a -> h !! j = Some b -> i <> j ->
  hswap h i j !! k = if decide (k = i) then Some b else if decide (k = j) then Some a else h !! k.
Proof.
  intros Hi Hj Hij. unfold hswap. rewrite Hi, Hj.
  pose proof (lookup_lt_Some _ _ _ Hi). pose proof (lookup_lt_Some _ _ _ Hj).
  repeat case_decide; subst; try done.
  - rewrite list_lookup_insert_ne by done. apply list_lookup_insert_eq; lia.
  - apply list_lookup_insert_eq. rewrite length_insert. lia.
  - by rewrite !list_lookup_insert_ne by done.
Qed.

Lemma hswap_Permutation h i j : i <> j -> hswap h i j ≡ₚ h.
Proof.
  intros Hij. unfold hswap. destruct (h !! i) as [a|] eqn:Hi; [|done].
  destruct (h !! j) as [b|] eqn:Hj; [|done].
  apply (Permutation_cons_inv (a := b)).
  rewrite (insert_Permutation (<[i:=b]> h) j b a) by (by rewrite list_lookup_insert_ne).
  by apply insert_Permutation.
Qed.

(** ** The repair loops *)

Fixpoint hup (fuel : nat) h i : option (list A) :=
  match fuel with
  | O => None
  | S fuel =>
      if decide (i = 0) then Some h
      else
        a ← h !! i; b ← h !! parent i;
        if less a b then hup fuel (hswap h i (parent i)) (parent i) else Some h
  end.

(** The child of [i] that goes first, when one goes before the element at [i]. *)
Definition pick_child h best c : option nat :=
  match h !! c with
  | None => Some best
  | Some a => b ← h !! best; Some (if less a b then c else best)
  end.

Fixpoint hdown (fuel : nat) h i : option (list A) :=
  match fuel with
  | O => None
  | S fuel =>
      best ← pick_child h i (2 * i + 1);
      best ← pick_child h best (2 * i + 2);
      if decide (best = i) then Some h else hdown fuel (hswap h i best) best
  end.

Lemma edge_None h c p : h !! c = None -> edge h c p.
Proof. intros Hc a b Ha. congruence. Qed.

(** The edges of a swapped heap, in terms of the elements before the swap. *)
Ltac swap_edges Hl :=
  let a := fresh "a" in let b := fresh "b" in let Ha := fresh "Ha" in let Hb := fresh "Hb" in
  intros a b Ha Hb; rewrite Hl in Ha; rewrite Hl in Hb;
  repeat case_decide; simplify_eq/=; try (exfalso; lia).

Lemma hup_spec fuel h i :
  i < fuel -> i < length h -> up_inv h i ->
  exists h', hup fuel h i = Some h' /\ h' ≡ₚ h /\ heap_ok h'.
Proof.
  revert h i. induction fuel as [|fuel IH]; intros h i Hf Hi [[Hout Hskip] Hdown]; [lia|].
  simpl. case_decide as Hi0.
  { exists h. split_and!; [done..|]. intros c Hc. subst i.
    destruct (decide (parent c = 0)) as [Hp|Hp]; [rewrite Hp; by apply Hdown|].
    apply Hout; lia. }
  pose proof (parent_lt i ltac:(lia)) as Hpi.
  destruct (lookup_lt_is_Some_2 h i Hi) as [x Hx].
  destruct (lookup_lt_is_Some_2 h (parent i) ltac:(lia)) as [y Hy].
  rewrite Hx, Hy. cbn [mbind option_bind]. destruct (less x y) eqn:Hlt.
  - assert (Hl := fun k => hswap_lookup h i (parent i) x y k Hx Hy ltac:(lia)).
    destruct (IH (hswap h i (parent i)) (parent i)) as (h' & Hr & Hperm & Hok);
      [lia | by rewrite hswap_length; lia | | ].
    { split; [split|].
      - intros c Hc Hc1 Hc2. pose proof (parent_lt c Hc).
        assert (c <> i) by (intros ->; done).
        swap_edges Hl; [eapply Hskip; eauto; lia|]. eapply Hout; eauto.
      - intros Hpp c Hc Hc1. pose proof (parent_lt (parent i) Hpp).
        pose proof (parent_lt c Hc).
        assert (edge h (parent i) (parent (parent i))) as Hpar by (apply Hout; lia).
        swap_edges Hl; [by eapply Hpar|].
        eapply nless_trans; [|by eapply Hpar]. rewrite <- Hc1 in *. eapply (Hout c); eauto; lia.
      - intros c Hc Hc1. pose proof (parent_lt c Hc).
        swap_edges Hl; [by apply less_asym|].
        eapply nless_trans; [|by apply less_asym; exact Hlt].
        rewrite <- Hc1 in Hy. eapply (Hout c); eauto; lia. }
    exists h'. split_and!; [done | rewrite Hperm; apply hswap_Permutation; lia | done].
  - exists h. split_and!; [done..|]. intros c Hc. destruct (decide (c = i)) as [->|Hci].
    + intros a b Ha Hb. congruence.
    + destruct (decide (parent c = i)) as [Hp|Hp]; [rewrite Hp; by apply Hdown | by apply Hout].
Qed.

Lemma pick_child_spec h best c b :
  h !! best = Some b ->
  exists best' b', pick_child h best c = Some best' /\ h !! best' = Some b' /\
    less b b' = false /\ edge h c best' /\
    (best' = best /\ b' = b \/ best' = c /\ less b' b = true).
Proof.
  intros Hb. unfold pick_child. destruct (h !! c) as [a|] eqn:Hc.
  - rewrite Hb. cbn [mbind option_bind]. destruct (less a b) eqn:Hlt.
    + exists c, a. split_and!; auto using less_asym. intros ????. simplify_eq. apply less_irrefl.
    + exists best, b. split_and!; auto using less_irrefl. intros ????. by simplify_eq.
  - exists best, b. split_and!; auto using less_irrefl, edge_None.
Qed.

Lemma pick_children_spec h i x :
  h !! i = Some x ->
  exists best y,
    (best ← pick_child h i (2 * i + 1); pick_child h best (2 * i + 2)) = Some best /\
    h !! best = Some y /\ less x y = false /\
    (forall c, 0 < c -> parent c = i -> edge h c best) /\
    (best = i \/ 0 < best /\ parent best = i /\ less y x = true).
Proof.
  intros Hx.
  destruct (pick_child_spec h i (2 * i + 1) x Hx) as (k & y & -> & Hk & Hxy & He1 & Hd1).
  cbn [mbind option_bind].
  destruct (pick_child_spec h k (2 * i + 2) y Hk) as (k' & z & -> & Hk' & Hyz & He2 & Hd2).
  exists k', z. split_and!; [done..|by eapply nless_trans| |].
  - intros c Hc [-> | ->]%parent_children; [|done|done].
    intros a b Ha Hb. eapply nless_trans; [by eapply He1|]. congruence.
  - destruct Hd2 as [[-> ->]|[-> Hzy]].
    + destruct Hd1 as [[-> ->]|[-> ?]]; [by left | right]. split_and!; [lia | | done].
      apply parent_children; lia.
    + right. split_and!; [lia | apply parent_children; lia |].
      destruct (less z x) eqn:Hzx; [done|].
      by rewrite (nless_trans z x y Hzx Hxy) in Hzy.
Qed.

Lemma hdown_spec fuel h i :
  length h - i <= fuel -> i < length h -> down_inv h i ->
  exists h', hdown fuel h i = Some h' /\ h' ≡ₚ h /\ heap_ok h'.
Proof.
  revert h i. induction fuel as [|fuel IH]; intros h i Hf Hi [[Hout Hskip] Hup]; [lia|].
  destruct (lookup_lt_is_Some_2 h i Hi) as [x Hx].
  destruct (pick_children_spec h i x Hx) as (best & y & Hpick & Hy & Hxy & Hch & Hbest).
  cbn [hdown]. destruct (pick_child h i (2 * i + 1)) as [k|]; [|done].
  cbn [mbind option_bind] in *. rewrite Hpick. cbn [mbind option_bind].
  case_decide as Hbi.
  - subst best. exists h. split_and!; [done..|]. intros c Hc.
    destruct (decide (c = i)) as [->|Hci]; [by apply Hup|].
    destruct (decide (parent c = i)) as [Hp|Hp]; [rewrite Hp; by apply Hch | by apply Hout].
  - destruct Hbest as [|(Hb0 & Hbp & Hlt)]; [done|].
    pose proof (parent_lt best Hb0). pose proof (lookup_lt_Some _ _ _ Hy).
    assert (Hl := fun k => hswap_lookup h i best x y k Hx Hy ltac:(lia)).
    destruct (IH (hswap h i best) best) as (h' & Hr & Hperm & Hok);
      [rewrite hswap_length; lia | by rewrite hswap_length; lia | | ].
    { split; [split|].
      - intros c Hc Hc1 Hc2. pose proof (parent_lt c Hc).
        swap_edges Hl; [by eapply (Hch c) | by eapply (Hskip ltac:(lia) best) |].
        by eapply (Hout c).
      - intros _ c Hc Hc1. pose proof (parent_lt c Hc). rewrite Hbp.
        swap_edges Hl. eapply (Hout c); eauto; lia.
      - intros _. rewrite Hbp. swap_edges Hl. done. }
    exists h'. split_and!; [done | rewrite Hperm; apply hswap_Permutation; lia | done].
Qed.

(** ** The states the loops start from *)

(** Appending an element breaks at most the edge above it. *)
Lemma up_inv_snoc h x : heap_ok h -> up_inv (h ++ [x]) (length h).
Proof.
  intros Hok. split; [split|].
  - intros c Hc Hc1 Hc2 a b Ha Hb. pose proof (parent_lt c Hc).
    pose proof (lookup_lt_Some _ _ _ Ha) as Hlen. rewrite length_app in Hlen. simpl in Hlen.
    rewrite lookup_app_l in Ha, Hb by lia. by eapply Hok.
  - intros _ c Hc Hp. apply edge_None, lookup_ge_None_2. rewrite length_app. simpl.
    pose proof (parent_lt c Hc). lia.
  - intros c Hc Hp. apply edge_None, lookup_ge_None_2. rewrite length_app. simpl.
    pose proof (parent_lt c Hc). lia.
Qed.

Lemma heap_ok_take h n : heap_ok h -> heap_ok (take n h).
Proof.
  intros Hok c Hc a b Ha Hb. apply lookup_take_Some in Ha as [Ha _], Hb as [Hb _].
  by eapply Hok.
Qed.

(** Replacing an element leaves every edge that does not touch it. *)
Lemma hole_inv_insert h i x : heap_ok h -> hole_inv (<[i := x]> h) i.
Proof.
  intros Hok. split.
  - intros c Hc Hc1 Hc2 a b Ha Hb. rewrite list_lookup_insert_ne in Ha, Hb by done.
    by eapply Hok.
  - intros Hi c Hc Hp a b Ha Hb. pose proof (parent_lt c Hc). pose proof (parent_lt i Hi).
    rewrite list_lookup_insert_ne in Ha, Hb by lia.
    assert (is_Some (h !! i)) as [m Hm].
    { apply lookup_lt_is_Some_2. apply lookup_lt_Some in Ha. lia. }
    eapply nless_trans; [eapply (Hok c Hc a m) | by eapply (Hok i Hi)]; [done | by rewrite Hp].
Qed.

(** The new element goes before its parent: only the edge above it is out of order. *)
Lemma hole_up h i a b :
  hole_inv h i -> 0 < i -> h !! i = Some a -> h !! parent i = Some b -> less a b = true ->
  up_inv h i.
Proof.
  intros Hh Hi Ha Hb Hlt. split; [done|]. intros c Hc Hp x y Hx Hy. simplify_eq.
  eapply nless_trans; [by eapply (proj2 Hh Hi c Hc) | by apply less_asym].
Qed.

Lemma hole_down h i a :
  hole_inv h i -> h !! i = Some a ->
  (0 < i -> forall b, h !! parent i = Some b -> less a b = false) -> down_inv h i.
Proof. intros Hh Ha Hb. split; [done|]. intros Hi x y Hx Hy. simplify_eq. by apply Hb. Qed.

(** On an ordered neighbourhood the loops stop at once. *)
Lemma hdown_stop fuel h i x :
  h !! i = Some x -> (forall c, 0 < c -> parent c = i -> edge h c i) ->
  hdown (S fuel) h i = Some h.
Proof.
  intros Hx Hch. destruct (pick_children_spec h i x Hx) as (best & y & Hp & Hy & _ & _ & Hb).
  cbn [hdown]. destruct (pick_child h i (2 * i + 1)) as [k|]; [|done].
  cbn [mbind option_bind] in *. rewrite Hp. cbn [mbind option_bind].
  case_decide; [done|]. destruct Hb as [|(H0 & Hp' & Hlt)]; [done|].
  by rewrite (Hch best H0 Hp' y x Hy Hx) in Hlt.
Qed.

Lemma hup_stop fuel h i : heap_ok h -> i < length h -> hup (S fuel) h i = Some h.
Proof.
  intros Hok Hi. simpl. case_decide as Hi0; [done|]. pose proof (parent_lt i ltac:(lia)).
  destruct (lookup_lt_is_Some_2 h i Hi) as [x Hx].
  destruct (lookup_lt_is_Some_2 h (parent i) ltac:(lia)) as [y Hy].
  rewrite Hx, Hy. cbn [mbind option_bind]. by rewrite (Hok i ltac:(lia) x y Hx Hy).
Qed.

(** The root goes no later than any element. *)
Lemma heap_root_min h r x : heap_ok h -> h !! 0 = Some r -> x ∈ h -> less x r = false.
Proof.
  intros Hok Hr [k Hk]%list_elem_of_lookup. revert x Hk.
  induction (lt_wf k) as [k _ IH]. intros x Hk. destruct (decide (k = 0)) as [->|Hk0].
  - simplify_eq. apply less_irrefl.
  - pose proof (parent_lt k ltac:(lia)) as Hp.
    destruct (lookup_lt_is_Some_2 h (parent k)) as [y Hy].
    { apply lookup_lt_Some in Hk. lia. }
    eapply nless_trans; [eapply (Hok k ltac:(lia)); eauto | by eapply (IH (parent k) Hp)].
Qed.
End Heap.

Lemma heap_ok_ext {A} (f g : A -> A -> bool) (h : list A) :
  (forall a b, a ∈ h -> b ∈ h -> f a b = g a b) -> heap_ok f h -> heap_ok g h.
Proof.
  intros Hfg Hok c Hc a b Ha Hb.
  rewrite <- Hfg by (eapply list_elem_of_lookup_2; eassumption). by eapply Hok.
Qed.

Lemma hole_inv_ext {A} (f g : A -> A -> bool) (h : list A) i :
  (forall a b, a ∈ h -> b ∈ h -> f a b = g a b) -> hole_inv f h i -> hole_inv g h i.
Proof.
  intros Hfg [Ho Hs]. split; [intros c Hc H1 H2 | intros Hi c Hc Hp]; intros a b Ha Hb;
    rewrite <- Hfg by (eapply list_elem_of_lookup_2; eassumption).
  - by eapply Ho.
  - by eapply Hs.
Qed.
