(* ===== verification/IntrusiveHeap.v ===== *)
(** * Intrusive heaps of threads

    A run queue ([kernel/sched/runqueue.c]) and the sleep queue ([kernel/sched/state.c]) are
    arrays of [sched_thread_t *] ordered as a binary heap, in which every queued thread also
    stores its own position ([rq_index], [sleep_index]).  The two source files have the same
    swap and repair loops on different fields; [HeapOps] names what differs, the loops are
    transcribed once, and [HeapLaws] is the interface through which both heaps get their
    theorems. *)

From S2P Require Import Prelude Memory BinHeap.
From stdpp Require Import functions.
Open Scope Z_scope.

(** A thread is named by its address; a thread store maps addresses to [sched_thread_t]. *)
Abbreviation tid := Z (only parsing).

Class HeapOps (T : Type) := {
  hword : Z -> Z;                              (* wrap-around of the index type *)
  get_index : T -> Z;
  set_index : Z -> T -> T;
  hless : (tid -> T) -> ptr tid -> ptr tid -> bool
}.

Section Code.
Context {T : Type} `{!HeapOps T}.
Implicit Types (ts : tid -> T) (heap : list (ptr tid)).

Definition store_index ts (p : ptr tid) (i : Z) : tid -> T :=
  match p with
  | Some t => <[t := set_index i (ts t)]> ts
  | None => ts
  end.

Definition heap_swap ts heap (left right : Z) : option ((tid -> T) * list (ptr tid)) :=
  saved ← mload heap left;
  other ← mload heap right;
  heap ← mstore heap left other;
  heap ← mstore heap right saved;
  l ← mload heap left;
  let ts := store_index ts l left in
  r ← mload heap right;
  let ts := store_index ts r right in
  Some (ts, heap).

Fixpoint heap_sift_up (fuel : nat) ts heap (index : Z)
  : option ((tid -> T) * list (ptr tid)) :=
  match fuel with
  | O => None
  | S fuel =>
      if 0 <? index then
        let parent := hword (index - 1) / 2 in
        a ← mload heap index;
        b ← mload heap parent;
        if negb (hless ts a b) then Some (ts, heap)
        else
          '(ts, heap) ← heap_swap ts heap index parent;
          heap_sift_up fuel ts heap parent
      else Some (ts, heap)
  end.

(** [if (child < count && less(heap[child], heap[best])) best = child;] *)
Definition better_child ts heap (count child best : Z) : option Z :=
  if child <? count then
    a ← mload heap child;
    b ← mload heap best;
    Some (if hless ts a b then child else best)
  else Some best.

Fixpoint heap_sift_down (fuel : nat) ts heap (count index : Z)
  : option ((tid -> T) * list (ptr tid)) :=
  match fuel with
  | O => None
  | S fuel =>
      let left := hword (hword (index * 2) + 1) in
      let right := hword (left + 1) in
      best ← better_child ts heap count left index;
      best ← better_child ts heap count right best;
      if best =? index then Some (ts, heap)
      else
        '(ts, heap) ← heap_swap ts heap index best;
        heap_sift_down fuel ts heap count best
  end.

(** The first index below [i + n] whose cell is [t]; [-1] when there is none. *)
Fixpoint heap_find (n : nat) heap (i : Z) (t : tid) : option Z :=
  match n with
  | O => Some (-1)
  | S n =>
      c ← mload heap i;
      if bool_decide (c = Some t) then Some i else heap_find n heap (i + 1) t
  end.
End Code.

(** ** The interface *)

Definition same_keys {T} `{!HeapOps T} (ts ts' : tid -> T) : Prop :=
  forall t, set_index 0 (ts t) = set_index 0 (ts' t).

Class HeapLaws (T : Type) `{!HeapOps T} := {
  hword_small : forall z, 0 <= z < 2 ^ 32 -> hword z = z;
  get_set : forall i (x : T), get_index (set_index i x) = i;
  set_set : forall i j (x : T), set_index i (set_index j x) = set_index i x;
  set_get : forall x : T, set_index (get_index x) x = x;
  hless_keys : forall ts ts' : tid -> T, same_keys ts ts' ->
    forall a b, hless ts a b = hless ts' a b;
  #[global] hless_order :: forall ts : tid -> T, HeapOrder (fun a b => hless ts (Some a) (Some b))
}.

Section Theory.
Context {T : Type} `{HL : HeapLaws T}.
Implicit Types (ts : tid -> T) (heap rest : list (ptr tid)) (live : list tid) (t : tid).

Definition tless ts (a b : tid) : bool := hless ts (Some a) (Some b).

#[global] Instance tless_order ts : HeapOrder (tless ts) := hless_order ts.

#[global] Instance same_keys_equiv : Equivalence (same_keys (T := T)).
Proof.
  split; [by intros ? ?|by intros ? ? H t; symmetry; apply H|].
  intros ? ? ? H1 H2 t. by rewrite (H1 t), (H2 t).
Qed.

(** Every live cell holds a thread that knows its position. *)
Definition indexed ts live : Prop :=
  forall i t, live !! i = Some t -> get_index (ts t) = Z.of_nat i.

(** Only members of [live] changed, and only in their index field. *)
Definition moves live ts ts' : Prop :=
  (forall t, t ∉ live -> ts' t = ts t) /\ same_keys ts ts'.

Lemma moves_refl live ts : moves live ts ts.
Proof. done. Qed.

Lemma moves_trans live live' ts1 ts2 ts3 :
  (forall t, t ∈ live' -> t ∈ live) ->
  moves live ts1 ts2 -> moves live' ts2 ts3 -> moves live ts1 ts3.
Proof.
  intros Hsub [Ho1 Hk1] [Ho2 Hk2]. split; [|by etrans].
  intros t Ht. rewrite Ho2, Ho1; auto.
Qed.

Lemma moves_keys live ts ts' : moves live ts ts' -> same_keys ts ts'.
Proof. by intros []. Qed.

Lemma indexed_NoDup ts live : indexed ts live -> NoDup live.
Proof.
  intros Hix. apply NoDup_alt. intros i j x Hi Hj.
  apply Hix in Hi, Hj. lia.
Qed.

Lemma store_index_moves live ts t i : t ∈ live -> moves live ts (store_index ts (Some t) i).
Proof.
  intros Ht. split.
  - intros u Hu. simpl. by rewrite fn_lookup_insert_ne by (intros ->; done).
  - intros u. simpl. destruct (decide (t = u)) as [->|Hne].
    + by rewrite fn_lookup_insert, set_set.
    + by rewrite fn_lookup_insert_ne.
Qed.

Lemma cell_live live rest (i : nat) t :
  live !! i = Some t -> mload ((Some <$> live) ++ rest) (Z.of_nat i) = Some (Some t).
Proof.
  intros Hi. pose proof (lookup_lt_Some _ _ _ Hi). rewrite mload_ok.
  - rewrite Nat2Z.id, lookup_app_l by (rewrite length_fmap; lia). by rewrite list_lookup_fmap, Hi.
  - unfold zlen. rewrite length_app, length_fmap. lia.
Qed.

Lemma store_live live rest (i : nat) t :
  (i < length live)%nat ->
  mstore ((Some <$> live) ++ rest) (Z.of_nat i) (Some t) = Some ((Some <$> <[i := t]> live) ++ rest).
Proof.
  intros Hi. rewrite mstore_ok.
  - rewrite Nat2Z.id, insert_app_l by (rewrite length_fmap; lia). by rewrite list_fmap_insert.
  - unfold zlen. rewrite length_app, length_fmap. lia.
Qed.

(** The live elements after [heap[i] = t; t->index = i]. *)
Lemma indexed_store ts live (i : nat) t :
  indexed ts live -> t ∉ live \/ live !! i = Some t ->
  forall k u, <[i := t]> live !! k = Some u ->
  get_index (store_index ts (Some t) (Z.of_nat i) u) = Z.of_nat k.
Proof.
  intros Hix Hfresh k u Hk. simpl. pose proof (indexed_NoDup _ _ Hix) as Hnd.
  destruct (decide (i = k)) as [<-|Hik].
  - rewrite list_lookup_insert_eq in Hk.
    + simplify_eq. by rewrite fn_lookup_insert, get_set.
    + apply lookup_lt_Some in Hk. by rewrite length_insert in Hk.
  - rewrite list_lookup_insert_ne in Hk by done.
    rewrite fn_lookup_insert_ne; [by apply Hix|]. intros ->.
    destruct Hfresh as [Hu|Hu]; [by apply Hu, list_elem_of_lookup; exists k|].
    apply Hik. by eapply NoDup_lookup.
Qed.

Lemma heap_swap_spec ts live rest (i j : nat) :
  indexed ts live -> (i < length live)%nat -> (j < length live)%nat -> i <> j ->
  exists ts', heap_swap ts ((Some <$> live) ++ rest) (Z.of_nat i) (Z.of_nat j)
              = Some (ts', (Some <$> hswap live i j) ++ rest) /\
    indexed ts' (hswap live i j) /\ moves live ts ts'.
Proof.
  intros Hix Hi Hj Hij.
  destruct (lookup_lt_is_Some_2 live i Hi) as [a Ha].
  destruct (lookup_lt_is_Some_2 live j Hj) as [b Hb].
  assert (a <> b) as Hab by (intros ->; apply Hij; by eapply NoDup_lookup; eauto using indexed_NoDup).
  assert (Hl := fun k => hswap_lookup live i j a b k Ha Hb Hij).
  assert (hswap live i j = <[j:=a]> (<[i:=b]> live)) as Hsw by (unfold hswap; by rewrite Ha, Hb).
  unfold heap_swap.
  rewrite (cell_live live rest i a), (cell_live live rest j b) by done. cbn [mbind option_bind].
  rewrite store_live by done. cbn [mbind option_bind].
  rewrite store_live by (rewrite length_insert; lia). cbn [mbind option_bind].
  rewrite <- Hsw. rewrite (cell_live _ rest i b), (cell_live _ rest j a).
  2: { rewrite Hl. by rewrite decide_False, decide_True by done. }
  2: { rewrite Hl. by rewrite decide_True by done. }
  cbn [mbind option_bind]. eexists. split_and!; [done| |].
  - intros k u Hk. rewrite Hl in Hk. simpl.
    destruct (decide (k = i)) as [Hki|Hki];
      [subst k | destruct (decide (k = j)) as [Hkj|Hkj]; [subst k|]]; simplify_eq.
    + rewrite fn_lookup_insert_ne by done. by rewrite fn_lookup_insert, get_set.
    + by rewrite fn_lookup_insert, get_set.
    + rewrite !fn_lookup_insert_ne; [by apply Hix| |]; intros ->;
        [apply Hkj | apply Hki]; eapply NoDup_lookup; eauto using indexed_NoDup.
  - eapply (moves_trans live live); [done| |];
      apply store_index_moves, list_elem_of_lookup; eauto.
Qed.

Lemma hparent (i : nat) : (0 < i)%nat -> Z.of_nat i < 2 ^ 32 ->
  hword (Z.of_nat i - 1) / 2 = Z.of_nat (parent i).
Proof.
  intros. rewrite hword_small by lia. unfold parent. rewrite Nat2Z.inj_div. f_equal. lia.
Qed.

Lemma tless_keys ts ts' a b : same_keys ts ts' -> tless ts a b = tless ts' a b.
Proof. intros Hk. by apply hless_keys. Qed.

(** Every step of the code's loop is the same step of the loop on the list of threads; [ls] is
    the comparison, which the index updates do not change. *)
Lemma heap_sift_up_sim ls fuel ts live rest (i : nat) live' :
  indexed ts live -> (i < length live)%nat -> Z.of_nat (length live) < 2 ^ 32 ->
  (forall a b, tless ts a b = ls a b) -> hup ls fuel live i = Some live' ->
  exists ts', heap_sift_up fuel ts ((Some <$> live) ++ rest) (Z.of_nat i)
              = Some (ts', (Some <$> live') ++ rest) /\
    indexed ts' live' /\ moves live ts ts'.
Proof.
  revert ts live i. induction fuel as [|fuel IH]; intros ts live i Hix Hi Hlen Hls Hup; [done|].
  simpl in *. case_decide as Hi0.
  { subst i. simplify_eq. exists ts. by test_lia. }
  pose proof (parent_lt i ltac:(lia)). test_lia. rewrite hparent by lia.
  destruct (lookup_lt_is_Some_2 live i Hi) as [a Ha].
  destruct (lookup_lt_is_Some_2 live (parent i) ltac:(lia)) as [b Hb].
  rewrite (cell_live live rest i a), (cell_live live rest (parent i) b) by done.
  rewrite Ha, Hb in Hup. cbn [mbind option_bind] in *.
  change (hless ts (Some a) (Some b)) with (tless ts a b). rewrite Hls.
  destruct (ls a b); cbn [negb]; [|simplify_eq; by exists ts].
  destruct (heap_swap_spec ts live rest i (parent i)) as (ts1 & -> & Hix1 & Hm1); try done; try lia.
  cbn [mbind option_bind].
  destruct (IH ts1 (hswap live i (parent i)) (parent i)) as (ts2 & Hr & Hix2 & Hm2);
    rewrite ?hswap_length; try done; try lia.
  { intros. rewrite <- (tless_keys ts); [done | by eapply moves_keys]. }
  exists ts2. split_and!; [done..|]. eapply moves_trans; [|done|done].
  intros t. by rewrite hswap_Permutation by lia.
Qed.

Lemma better_child_sim ls ts live rest (c best : nat) (best' : nat) :
  (best < length live)%nat -> (forall a b, tless ts a b = ls a b) ->
  pick_child ls live best c = Some best' ->
  better_child ts ((Some <$> live) ++ rest) (zlen live) (Z.of_nat c) (Z.of_nat best)
    = Some (Z.of_nat best') /\ (best' < length live)%nat.
Proof.
  intros Hb Hls. unfold pick_child, better_child, zlen.
  destruct (lookup_lt_is_Some_2 live best Hb) as [b Hbb].
  destruct (live !! c) as [a|] eqn:Hc.
  - pose proof (lookup_lt_Some _ _ _ Hc). test_lia. rewrite Hbb.
    rewrite (cell_live live rest c a), (cell_live live rest best b) by done.
    cbn [mbind option_bind]. intros ?; simplify_eq.
    change (hless ts (Some a) (Some b)) with (tless ts a b). rewrite Hls. by destruct (ls a b).
  - apply lookup_ge_None in Hc. test_lia. intros; by simplify_eq.
Qed.

Lemma heap_sift_down_sim ls fuel ts live rest (i : nat) live' :
  indexed ts live -> (i < length live)%nat -> Z.of_nat (length live) < 2 ^ 30 ->
  (forall a b, tless ts a b = ls a b) -> hdown ls fuel live i = Some live' ->
  exists ts', heap_sift_down fuel ts ((Some <$> live) ++ rest) (zlen live) (Z.of_nat i)
              = Some (ts', (Some <$> live') ++ rest) /\
    indexed ts' live' /\ moves live ts ts'.
Proof.
  revert ts live i. induction fuel as [|fuel IH]; intros ts live i Hix Hi Hlen Hls Hdn; [done|].
  cbn [hdown heap_sift_down] in *.
  destruct (pick_child ls live i (2 * i + 1)) as [k|] eqn:Hk; [|done].
  cbn [mbind option_bind] in *.
  destruct (pick_child ls live k (2 * i + 2)) as [best|] eqn:Hbest; [|done].
  cbn [mbind option_bind] in *.
  rewrite (hword_small (Z.of_nat i * 2)), (hword_small (_ * 2 + 1)), (hword_small (_ + 1 + 1)) by lia.
  replace (Z.of_nat i * 2 + 1 + 1) with (Z.of_nat (2 * i + 2)) by lia.
  replace (Z.of_nat i * 2 + 1) with (Z.of_nat (2 * i + 1)) by lia.
  destruct (better_child_sim ls ts live rest _ _ _ Hi Hls Hk) as [-> Hk'].
  cbn [mbind option_bind].
  destruct (better_child_sim ls ts live rest _ _ _ Hk' Hls Hbest) as [-> Hbl].
  cbn [mbind option_bind]. case_decide as Hbi.
  { simplify_eq. exists ts. by test_lia. }
  test_lia.
  destruct (heap_swap_spec ts live rest i best) as (ts1 & -> & Hix1 & Hm1); try done.
  cbn [mbind option_bind].
  replace (zlen live) with (zlen (hswap live i best)) by (unfold zlen; by rewrite hswap_length).
  destruct (IH ts1 (hswap live i best) best) as (ts2 & Hr & Hix2 & Hm2);
    rewrite ?hswap_length; try done; try lia.
  { intros. rewrite <- (tless_keys ts); [done | by eapply moves_keys]. }
  exists ts2. split_and!; [done..|]. eapply moves_trans; [|done|done].
  intros t. by rewrite hswap_Permutation by lia.
Qed.

(** What a finished repair leaves: the same threads, indexed and ordered, nothing else touched. *)
Definition repaired ts live ts' live' : Prop :=
  live' ≡ₚ live /\ indexed ts' live' /\ heap_ok (tless ts') live' /\ moves live ts ts'.

Lemma heap_ok_keys ts ts' live :
  same_keys ts ts' -> heap_ok (tless ts) live -> heap_ok (tless ts') live.
Proof. intros Hk. apply heap_ok_ext. intros. by apply tless_keys. Qed.

Lemma sift_up_heap fuel ts live rest (i : nat) :
  indexed ts live -> (i < length live)%nat -> Z.of_nat (length live) < 2 ^ 30 -> (i < fuel)%nat ->
  up_inv (tless ts) live i ->
  exists ts' live', heap_sift_up fuel ts ((Some <$> live) ++ rest) (Z.of_nat i)
                    = Some (ts', (Some <$> live') ++ rest) /\ repaired ts live ts' live'.
Proof.
  intros Hix Hi Hlen Hf Hinv.
  destruct (hup_spec (tless ts) fuel live i Hf Hi Hinv) as (live' & Hup & Hperm & Hok).
  destruct (heap_sift_up_sim (tless ts) fuel ts live rest i live') as (ts' & Hr & Hix' & Hm);
    try done; [lia|].
  exists ts', live'. split; [done|]. split_and!; try done.
  by eapply heap_ok_keys; [eapply moves_keys|].
Qed.

Lemma sift_down_heap fuel ts live rest (i : nat) :
  indexed ts live -> (i < length live)%nat -> Z.of_nat (length live) < 2 ^ 30 ->
  (length live - i <= fuel)%nat -> down_inv (tless ts) live i ->
  exists ts' live', heap_sift_down fuel ts ((Some <$> live) ++ rest) (zlen live) (Z.of_nat i)
                    = Some (ts', (Some <$> live') ++ rest) /\ repaired ts live ts' live'.
Proof.
  intros Hix Hi Hlen Hf Hinv.
  destruct (hdown_spec (tless ts) fuel live i Hf Hi Hinv) as (live' & Hdn & Hperm & Hok).
  destruct (heap_sift_down_sim (tless ts) fuel ts live rest i live') as (ts' & Hr & Hix' & Hm);
    try done.
  exists ts', live'. split; [done|]. split_and!; try done.
  by eapply heap_ok_keys; [eapply moves_keys|].
Qed.

(** Appending a thread and sifting it up. *)
Lemma heap_push ts live rest t fuel :
  indexed ts live -> heap_ok (tless ts) live -> t ∉ live ->
  Z.of_nat (length live) + 1 < 2 ^ 30 -> (length live < fuel)%nat ->
  exists ts' live',
    heap_sift_up fuel (store_index ts (Some t) (zlen live)) ((Some <$> (live ++ [t])) ++ rest) (zlen live)
      = Some (ts', (Some <$> live') ++ rest) /\
    live' ≡ₚ t :: live /\ indexed ts' live' /\ heap_ok (tless ts') live' /\
    moves (t :: live) ts ts'.
Proof.
  intros Hix Hok Ht Hlen Hf. unfold zlen. set (ts1 := store_index ts (Some t) (Z.of_nat (length live))).
  assert (moves (t :: live) ts ts1) as Hm1 by (apply store_index_moves; constructor).
  assert (indexed ts1 (live ++ [t])) as Hix1.
  { intros k u Hk. apply lookup_app_Some in Hk as [Hk|[Hk Hu]].
    - unfold ts1. simpl. rewrite fn_lookup_insert_ne; [by apply Hix|].
      intros ->. by apply Ht, list_elem_of_lookup; exists k.
    - apply list_lookup_singleton_Some in Hu as [Hu <-]. unfold ts1. simpl.
      rewrite fn_lookup_insert, get_set. lia. }
  destruct (sift_up_heap fuel ts1 (live ++ [t]) rest (length live)) as (ts' & live' & Hr & Hp & Hix' & Hok' & Hm');
    try done.
  - rewrite length_app. simpl. lia.
  - rewrite length_app. simpl. lia.
  - apply up_inv_snoc. by eapply heap_ok_keys; [eapply moves_keys|].
  - exists ts', live'. split_and!; try done.
    + rewrite Hp. symmetry. apply Permutation_cons_append.
    + eapply moves_trans; [|done|done]. intros u. rewrite <- Permutation_cons_append. done.
Qed.

(** Putting thread [l] into the cell [i] of an ordered heap leaves a hole around [i]. *)
Lemma heap_fill ts live (i : nat) l :
  indexed ts live -> heap_ok (tless ts) live -> l ∉ live -> (i < length live)%nat ->
  let ts1 := store_index ts (Some l) (Z.of_nat i) in
  indexed ts1 (<[i := l]> live) /\ hole_inv (tless ts1) (<[i := l]> live) i /\
  moves (l :: live) ts ts1.
Proof.
  intros Hix Hok Hl Hi ts1.
  assert (moves (l :: live) ts ts1) as Hm by (apply store_index_moves; constructor).
  split_and!; [intros k u; by apply indexed_store; auto| |done].
  apply hole_inv_insert; [apply _|]. by eapply heap_ok_keys; [eapply moves_keys|].
Qed.

(** The sleep queue repairs a hole by sifting down and then up. *)
Lemma sift_down_up_heap fuel1 fuel2 ts live rest (i : nat) :
  indexed ts live -> (i < length live)%nat -> Z.of_nat (length live) < 2 ^ 30 ->
  (length live - i <= fuel1)%nat -> (i < fuel2)%nat -> hole_inv (tless ts) live i ->
  exists ts1 heap1 ts' live',
    heap_sift_down fuel1 ts ((Some <$> live) ++ rest) (zlen live) (Z.of_nat i) = Some (ts1, heap1) /\
    heap_sift_up fuel2 ts1 heap1 (Z.of_nat i) = Some (ts', (Some <$> live') ++ rest) /\
    repaired ts live ts' live'.
Proof.
  intros Hix Hi Hlen Hf1 Hf2 Hh. destruct (lookup_lt_is_Some_2 live i Hi) as [a Ha].
  destruct (lookup_lt_is_Some_2 live (parent i)) as [b Hb].
  { destruct i as [|i]; [done|]. pose proof (parent_lt (S i)). lia. }
  destruct ((0 <? Z.of_nat i) && tless ts a b) eqn:Htest.
  - apply andb_true_iff in Htest as [Hi0%Z.ltb_lt Hlt].
    assert (up_inv (tless ts) live i) as Hup by (apply (hole_up (tless ts) live i a b); done || lia).
    destruct fuel1 as [|fuel1]; [lia|].
    pose proof (hdown_stop (tless ts) fuel1 live i a Ha (proj2 Hup)) as Hdn.
    destruct (heap_sift_down_sim (tless ts) (S fuel1) ts live rest i live) as (ts1 & -> & Hix1 & Hm1);
      try done.
    destruct (sift_up_heap fuel2 ts1 live rest i) as (ts' & live' & Hr & Hp & Hix' & Hok' & Hm');
      try done.
    { destruct Hup as [[Ho Hs] Hd].
      assert (forall c p, edge (tless ts) live c p -> edge (tless ts1) live c p) as Hext.
      { intros c p He x y Hx Hy. rewrite <- (tless_keys ts); [by eapply He | by eapply moves_keys]. }
      split; [split|]; intros; apply Hext; auto. }
    exists ts1, ((Some <$> live) ++ rest), ts', live'. split_and!; try done.
    split_and!; try done. by eapply moves_trans.
  - destruct (sift_down_heap fuel1 ts live rest i) as (ts1 & live1 & Hr1 & Hp1 & Hix1 & Hok1 & Hm1);
      try done.
    { eapply hole_down; [done..|]. intros Hi0 b' Hb'. simplify_eq.
      apply andb_false_iff in Htest as [?%Z.ltb_ge|?]; [lia|done]. }
    destruct fuel2 as [|fuel2]; [lia|].
    assert (length live1 = length live) as Hl1 by by rewrite Hp1.
    assert (hup (tless ts1) (S fuel2) live1 i = Some live1) as Hst by (apply hup_stop; [done|lia]).
    destruct (heap_sift_up_sim (tless ts1) (S fuel2) ts1 live1 rest i live1) as (ts' & Hr & Hix' & Hm');
      try done; try lia.
    exists ts1, ((Some <$> live1) ++ rest), ts', live1. split_and!; try done.
    split_and!; try done; [by eapply heap_ok_keys; [eapply moves_keys|]|].
    eapply moves_trans; [|done|done]. intros t. by rewrite Hp1.
Qed.

(** [heap_find] answers the position of a queued thread and [-1] for any other. *)
Lemma heap_find_spec ts live rest t (k : nat) n :
  indexed ts live -> (k + n = length live)%nat ->
  (forall j, (j < k)%nat -> live !! j <> Some t) ->
  heap_find n ((Some <$> live) ++ rest) (Z.of_nat k) t
    = Some (if bool_decide (t ∈ live) then get_index (ts t) else -1).
Proof.
  intros Hix. revert k. induction n as [|n IH]; intros k Hk Hbefore; cbn [heap_find].
  - rewrite bool_decide_eq_false_2; [done|]. intros [j Hj]%list_elem_of_lookup.
    apply (Hbefore j); [|done]. apply lookup_lt_Some in Hj. lia.
  - destruct (lookup_lt_is_Some_2 live k ltac:(lia)) as [u Hu].
    rewrite (cell_live live rest k u) by done. cbn [mbind option_bind].
    destruct (bool_decide_reflect (Some u = Some t)) as [Heq|Heq].
    + simplify_eq. rewrite bool_decide_eq_true_2 by (apply list_elem_of_lookup; eauto).
      by rewrite (Hix k t).
    + replace (Z.of_nat k + 1) with (Z.of_nat (S k)) by lia. apply IH; [lia|].
      intros j Hj. destruct (decide (j = k)) as [->|]; [congruence|]. apply Hbefore. lia.
Qed.
End Theory.
