(* ===== verification/Sched.v ===== *)
(** * The scheduler's data and CPU selection

    [kernel/sched/internal.h] and [kernel/sched/select.c].  A thread is named by the address of
    its [sched_thread_t]; [threads] is the store of thread objects.  The records carry the
    fields the run queues, the sleep queue and CPU selection read or write.  Spin locks are not
    represented: each definition is one critical section. *)

From S2P Require Import Prelude Memory BinHeap IntrusiveHeap.
From stdpp Require Import functions.
Open Scope Z_scope.

Definition MAX_CORES : Z := 64.

Inductive thread_state_t :=
  | THREAD_READY | THREAD_RUNNING | THREAD_SLEEPING | THREAD_STOPPED | THREAD_ZOMBIE.

#[global] Instance thread_state_eq_dec : EqDecision thread_state_t.
Proof. solve_decision. Defined.

Record sched_thread_t := mk_thread {
  pid : Z;
  state : thread_state_t;
  affinity_core : Z;
  last_cpu : Z;
  allowed_cpu_mask : Z;
  vruntime_ns : Z;
  sum_exec_ns : Z;
  in_run_queue : bool;
  on_rq : bool;
  rq_index : Z;
  in_wait_queue : bool;
  context : Z;
  wake_tick : Z;
  sleep_queued : bool;
  sleep_index : Z;
  running_cpu : Z
}.

Definition set_state (v : thread_state_t) (th : sched_thread_t) : sched_thread_t :=
  mk_thread (pid th) v (affinity_core th) (last_cpu th) (allowed_cpu_mask th) (vruntime_ns th)
    (sum_exec_ns th) (in_run_queue th) (on_rq th) (rq_index th) (in_wait_queue th) (context th)
    (wake_tick th) (sleep_queued th) (sleep_index th) (running_cpu th).
Definition set_affinity_core (v : Z) (th : sched_thread_t) : sched_thread_t :=
  mk_thread (pid th) (state th) v (last_cpu th) (allowed_cpu_mask th) (vruntime_ns th)
    (sum_exec_ns th) (in_run_queue th) (on_rq th) (rq_index th) (in_wait_queue th) (context th)
    (wake_tick th) (sleep_queued th) (sleep_index th) (running_cpu th).
Definition set_last_cpu (v : Z) (th : sched_thread_t) : sched_thread_t :=
  mk_thread (pid th) (state th) (affinity_core th) v (allowed_cpu_mask th) (vruntime_ns th)
    (sum_exec_ns th) (in_run_queue th) (on_rq th) (rq_index th) (in_wait_queue th) (context th)
    (wake_tick th) (sleep_queued th) (sleep_index th) (running_cpu th).
Definition set_vruntime_ns (v : Z) (th : sched_thread_t) : sched_thread_t :=
  mk_thread (pid th) (state th) (affinity_core th) (last_cpu th) (allowed_cpu_mask th) v
    (sum_exec_ns th) (in_run_queue th) (on_rq th) (rq_index th) (in_wait_queue th) (context th)
    (wake_tick th) (sleep_queued th) (sleep_index th) (running_cpu th).
Definition set_sum_exec_ns (v : Z) (th : sched_thread_t) : sched_thread_t :=
  mk_thread (pid th) (state th) (affinity_core th) (last_cpu th) (allowed_cpu_mask th)
    (vruntime_ns th) v (in_run_queue th) (on_rq th) (rq_index th) (in_wait_queue th) (context th)
    (wake_tick th) (sleep_queued th) (sleep_index th) (running_cpu th).
Definition set_in_run_queue (v : bool) (th : sched_thread_t) : sched_thread_t :=
  mk_thread (pid th) (state th) (affinity_core th) (last_cpu th) (allowed_cpu_mask th)
    (vruntime_ns th) (sum_exec_ns th) v (on_rq th) (rq_index th) (in_wait_queue th) (context th)
    (wake_tick th) (sleep_queued th) (sleep_index th) (running_cpu th).
Definition set_on_rq (v : bool) (th : sched_thread_t) : sched_thread_t :=
  mk_thread (pid th) (state th) (affinity_core th) (last_cpu th) (allowed_cpu_mask th)
    (vruntime_ns th) (sum_exec_ns th) (in_run_queue th) v (rq_index th) (in_wait_queue th)
    (context th) (wake_tick th) (sleep_queued th) (sleep_index th) (running_cpu th).
Definition set_rq_index (v : Z) (th : sched_thread_t) : sched_thread_t :=
  mk_thread (pid th) (state th) (affinity_core th) (last_cpu th) (allowed_cpu_mask th)
    (vruntime_ns th) (sum_exec_ns th) (in_run_queue th) (on_rq th) v (in_wait_queue th)
    (context th) (wake_tick th) (sleep_queued th) (sleep_index th) (running_cpu th).
Definition set_in_wait_queue (v : bool) (th : sched_thread_t) : sched_thread_t :=
  mk_thread (pid th) (state th) (affinity_core th) (last_cpu th) (allowed_cpu_mask th)
    (vruntime_ns th) (sum_exec_ns th) (in_run_queue th) (on_rq th) (rq_index th) v (context th)
    (wake_tick th) (sleep_queued th) (sleep_index th) (running_cpu th).
Definition set_context (v : Z) (th : sched_thread_t) : sched_thread_t :=
  mk_thread (pid th) (state th) (affinity_core th) (last_cpu th) (allowed_cpu_mask th)
    (vruntime_ns th) (sum_exec_ns th) (in_run_queue th) (on_rq th) (rq_index th)
    (in_wait_queue th) v (wake_tick th) (sleep_queued th) (sleep_index th) (running_cpu th).
Definition set_wake_tick (v : Z) (th : sched_thread_t) : sched_thread_t :=
  mk_thread (pid th) (state th) (affinity_core th) (last_cpu th) (allowed_cpu_mask th)
    (vruntime_ns th) (sum_exec_ns th) (in_run_queue th) (on_rq th) (rq_index th)
    (in_wait_queue th) (context th) v (sleep_queued th) (sleep_index th) (running_cpu th).
Definition set_sleep_queued (v : bool) (th : sched_thread_t) : sched_thread_t :=
  mk_thread (pid th) (state th) (affinity_core th) (last_cpu th) (allowed_cpu_mask th)
    (vruntime_ns th) (sum_exec_ns th) (in_run_queue th) (on_rq th) (rq_index th)
    (in_wait_queue th) (context th) (wake_tick th) v (sleep_index th) (running_cpu th).
Definition set_sleep_index (v : Z) (th : sched_thread_t) : sched_thread_t :=
  mk_thread (pid th) (state th) (affinity_core th) (last_cpu th) (allowed_cpu_mask th)
    (vruntime_ns th) (sum_exec_ns th) (in_run_queue th) (on_rq th) (rq_index th)
    (in_wait_queue th) (context th) (wake_tick th) (sleep_queued th) v (running_cpu th).
Definition set_running_cpu (v : Z) (th : sched_thread_t) : sched_thread_t :=
  mk_thread (pid th) (state th) (affinity_core th) (last_cpu th) (allowed_cpu_mask th)
    (vruntime_ns th) (sum_exec_ns th) (in_run_queue th) (on_rq th) (rq_index th)
    (in_wait_queue th) (context th) (wake_tick th) (sleep_queued th) (sleep_index th) v.

(** A run queue: [heap] is the array of [capacity] thread pointers. *)
Record sched_rq_t := mk_rq {
  heap : ptr (list (ptr tid));
  capacity : Z;
  nr_running : Z;
  min_vruntime : Z
}.

Definition set_heap (v : ptr (list (ptr tid))) (rq : sched_rq_t) : sched_rq_t :=
  mk_rq v (capacity rq) (nr_running rq) (min_vruntime rq).
Definition set_nr_running (v : Z) (rq : sched_rq_t) : sched_rq_t :=
  mk_rq (heap rq) (capacity rq) v (min_vruntime rq).
Definition set_min_vruntime (v : Z) (rq : sched_rq_t) : sched_rq_t :=
  mk_rq (heap rq) (capacity rq) (nr_running rq) v.

Record sched_cpu_t := mk_cpu {
  current : ptr tid;
  idle_thread : ptr tid;
  handoff_ready : ptr tid;
  preempt_depth : Z;
  sched_lock_depth : Z;
  slice_ns : Z;
  need_resched : bool;
  force_resched : bool;
  resched_irq : bool
}.

Definition set_current (v : ptr tid) (c : sched_cpu_t) : sched_cpu_t :=
  mk_cpu v (idle_thread c) (handoff_ready c) (preempt_depth c) (sched_lock_depth c) (slice_ns c)
    (need_resched c) (force_resched c) (resched_irq c).
Definition set_handoff_ready (v : ptr tid) (c : sched_cpu_t) : sched_cpu_t :=
  mk_cpu (current c) (idle_thread c) v (preempt_depth c) (sched_lock_depth c) (slice_ns c)
    (need_resched c) (force_resched c) (resched_irq c).
Definition set_slice_ns (v : Z) (c : sched_cpu_t) : sched_cpu_t :=
  mk_cpu (current c) (idle_thread c) (handoff_ready c) (preempt_depth c) (sched_lock_depth c) v
    (need_resched c) (force_resched c) (resched_irq c).
Definition set_need_resched (v : bool) (c : sched_cpu_t) : sched_cpu_t :=
  mk_cpu (current c) (idle_thread c) (handoff_ready c) (preempt_depth c) (sched_lock_depth c)
    (slice_ns c) v (force_resched c) (resched_irq c).
Definition set_force_resched (v : bool) (c : sched_cpu_t) : sched_cpu_t :=
  mk_cpu (current c) (idle_thread c) (handoff_ready c) (preempt_depth c) (sched_lock_depth c)
    (slice_ns c) (need_resched c) v (resched_irq c).
Definition set_resched_irq (v : bool) (c : sched_cpu_t) : sched_cpu_t :=
  mk_cpu (current c) (idle_thread c) (handoff_ready c) (preempt_depth c) (sched_lock_depth c)
    (slice_ns c) (need_resched c) (force_resched c) v.

Record cpu_core_t := mk_core { valid : bool; online : bool }.

Record sched_state_t := mk_state {
  running : bool;
  threads : tid -> sched_thread_t;
  runqueues : list sched_rq_t;
  wake_rr_cursor : Z;
  cpus : list sched_cpu_t;
  cores_local : list cpu_core_t;
  core_count : Z;
  migrations : Z;
  steals : Z;
  wake_ipi : Z;
  runqueue_max : Z;
  balance_runs : Z
}.

Definition set_threads (v : tid -> sched_thread_t) (st : sched_state_t) : sched_state_t :=
  mk_state (running st) v (runqueues st) (wake_rr_cursor st) (cpus st) (cores_local st)
    (core_count st) (migrations st) (steals st) (wake_ipi st) (runqueue_max st) (balance_runs st).
Definition set_runqueues (v : list sched_rq_t) (st : sched_state_t) : sched_state_t :=
  mk_state (running st) (threads st) v (wake_rr_cursor st) (cpus st) (cores_local st)
    (core_count st) (migrations st) (steals st) (wake_ipi st) (runqueue_max st) (balance_runs st).
Definition set_wake_rr_cursor (v : Z) (st : sched_state_t) : sched_state_t :=
  mk_state (running st) (threads st) (runqueues st) v (cpus st) (cores_local st) (core_count st)
    (migrations st) (steals st) (wake_ipi st) (runqueue_max st) (balance_runs st).
Definition set_cpus (v : list sched_cpu_t) (st : sched_state_t) : sched_state_t :=
  mk_state (running st) (threads st) (runqueues st) (wake_rr_cursor st) v (cores_local st)
    (core_count st) (migrations st) (steals st) (wake_ipi st) (runqueue_max st) (balance_runs st).
Definition set_migrations (v : Z) (st : sched_state_t) : sched_state_t :=
  mk_state (running st) (threads st) (runqueues st) (wake_rr_cursor st) (cpus st) (cores_local st)
    (core_count st) v (steals st) (wake_ipi st) (runqueue_max st) (balance_runs st).
Definition set_steals (v : Z) (st : sched_state_t) : sched_state_t :=
  mk_state (running st) (threads st) (runqueues st) (wake_rr_cursor st) (cpus st) (cores_local st)
    (core_count st) (migrations st) v (wake_ipi st) (runqueue_max st) (balance_runs st).
Definition set_wake_ipi (v : Z) (st : sched_state_t) : sched_state_t :=
  mk_state (running st) (threads st) (runqueues st) (wake_rr_cursor st) (cpus st) (cores_local st)
    (core_count st) (migrations st) (steals st) v (runqueue_max st) (balance_runs st).
Definition set_runqueue_max (v : Z) (st : sched_state_t) : sched_state_t :=
  mk_state (running st) (threads st) (runqueues st) (wake_rr_cursor st) (cpus st) (cores_local st)
    (core_count st) (migrations st) (steals st) (wake_ipi st) v (balance_runs st).
Definition set_balance_runs (v : Z) (st : sched_state_t) : sched_state_t :=
  mk_state (running st) (threads st) (runqueues st) (wake_rr_cursor st) (cpus st) (cores_local st)
    (core_count st) (migrations st) (steals st) (wake_ipi st) (runqueue_max st) v.

(** [thread->field = v] *)
Definition upd_thread (t : tid) (f : sched_thread_t -> sched_thread_t) (st : sched_state_t)
  : sched_state_t :=
  set_threads (<[t := f (threads st t)]> (threads st)) st.

Definition is_state (th : sched_thread_t) (s : thread_state_t) : bool :=
  bool_decide (state th = s).

Section Defs.
Context `{Arch}.
Implicit Types (st : sched_state_t) (t : tid) (p : ptr tid).

(** ** [internal.h] *)

(** [for (size_t i = 0; i < core_count && i < MAX_CORES && i < 64; i++)] *)
Fixpoint online_mask_loop (fuel : nat) st (i mask : Z) : option Z :=
  match fuel with
  | O => None
  | S fuel =>
      if (i <? core_count st) && (i <? MAX_CORES) && (i <? 64) then
        c ← mload (cores_local st) i;
        let mask := if valid c && online c then Z.lor mask (Z.shiftl 1 i) else mask in
        online_mask_loop fuel st (i + 1) mask
      else Some mask
  end.

Definition sched_online_cpu_mask st : option Z :=
  mask ← online_mask_loop 65 st 0 0;
  Some (if mask =? 0 then 1 else mask).

Definition sched_cpu_allowed st p (cpu_id : Z) : option bool :=
  match p with
  | None => Some false
  | Some t =>
      if 64 <=? cpu_id then Some false
      else
        let mask := allowed_cpu_mask (threads st t) in
        mask ← (if mask =? 0 then sched_online_cpu_mask st else Some mask);
        Some (negb (Z.land mask (Z.shiftl 1 cpu_id) =? 0))
  end.

Definition thread_cpu st p : Z :=
  match p with None => -1 | Some t => running_cpu (threads st t) end.

(** [(size_t)running_cpu >= MAX_CORES] for a non-negative [int]. *)
Definition thread_on_local_cpu st p : option bool :=
  let running_cpu := thread_cpu st p in
  match p with
  | None => Some false
  | Some t =>
      if (running_cpu <? 0) || (MAX_CORES <=? running_cpu) then Some false
      else c ← mload (cpus st) running_cpu; Some (bool_decide (current c = Some t))
  end.

Definition thread_in_handoff st p : option bool :=
  let running_cpu := thread_cpu st p in
  match p with
  | None => Some false
  | Some t =>
      if (running_cpu <? 0) || (MAX_CORES <=? running_cpu) then Some false
      else c ← mload (cpus st) running_cpu; Some (bool_decide (handoff_ready c = Some t))
  end.

Definition thread_is_owned st p : option bool :=
  l ← thread_on_local_cpu st p;
  if (l : bool) then Some true else thread_in_handoff st p.

(** ** [select.c] *)

Definition sched_cpu_load st (cpu_id : Z) : option Z :=
  if MAX_CORES <=? cpu_id then Some 0
  else
    rq ← mload (runqueues st) cpu_id;
    c ← mload (cpus st) cpu_id;
    let load := nr_running rq in
    Some (if bool_decide (current c <> None) && bool_decide (current c <> idle_thread c)
          then wrap (load + 1) else load).

Definition sched_rq_depth st (cpu_id : Z) : option Z :=
  if MAX_CORES <=? cpu_id then Some 0
  else rq ← mload (runqueues st) cpu_id; Some (nr_running rq).

Definition cpu_needs_ipi st (cpu_id : Z) : option bool :=
  if MAX_CORES <=? cpu_id then Some false
  else
    c ← mload (cpus st) cpu_id;
    Some (bool_decide (current c = None) || bool_decide (current c = idle_thread c)).

Definition sched_cpu_distance (from_cpu to_cpu cpu_count : Z) : Z :=
  if (cpu_count =? 0) || (cpu_count <=? from_cpu) || (cpu_count <=? to_cpu) then SIZE_MAX
  else
    let direct := if to_cpu <? from_cpu then from_cpu - to_cpu else to_cpu - from_cpu in
    let around := wrap (cpu_count - direct) in
    if direct <? around then direct else around.

(** The search for the least loaded allowed core. *)
Fixpoint pick_cpu_loop (fuel : nat) st (ncpu allowed fallback_cpu cpu best_cpu best_load : Z)
  : option (Z * Z) :=
  match fuel with
  | O => None
  | S fuel =>
      if cpu <? ncpu then
        if Z.land allowed (Z.shiftl 1 cpu) =? 0 then
          pick_cpu_loop fuel st ncpu allowed fallback_cpu (cpu + 1) best_cpu best_load
        else
          c ← mload (cores_local st) cpu;
          if negb (valid c) || negb (online c) then
            pick_cpu_loop fuel st ncpu allowed fallback_cpu (cpu + 1) best_cpu best_load
          else
            load ← sched_cpu_load st cpu;
            let better := (MAX_CORES <=? best_cpu) || (load <? best_load) in
            let better := if negb better && (load =? best_load) then cpu =? fallback_cpu else better in
            if better then pick_cpu_loop fuel st ncpu allowed fallback_cpu (cpu + 1) cpu load
            else pick_cpu_loop fuel st ncpu allowed fallback_cpu (cpu + 1) best_cpu best_load
      else Some (best_cpu, best_load)
  end.

(** The first allowed core, online or not. *)
Fixpoint first_allowed (fuel : nat) (ncpu allowed cpu : Z) : option Z :=
  match fuel with
  | O => None
  | S fuel =>
      if cpu <? ncpu then
        if negb (Z.land allowed (Z.shiftl 1 cpu) =? 0) then Some cpu
        else first_allowed fuel ncpu allowed (cpu + 1)
      else Some 0
  end.

Definition pick_cpu st p (fallback_cpu : Z) : option Z :=
  let ncpu := core_count st in
  let ncpu := if MAX_CORES <? ncpu then MAX_CORES else ncpu in
  let ncpu := if ncpu =? 0 then 1 else ncpu in
  online ← sched_online_cpu_mask st;
  let allowed := match p with Some t => allowed_cpu_mask (threads st t) | None => 0 end in
  let allowed := if allowed =? 0 then online else allowed in
  let allowed := Z.land allowed online in
  if allowed =? 0 then Some (if fallback_cpu <? ncpu then fallback_cpu else 0)
  else
    '(best_cpu, _) ← pick_cpu_loop 65 st ncpu allowed fallback_cpu 0 MAX_CORES SIZE_MAX;
    if best_cpu <? MAX_CORES then Some best_cpu
    else if (fallback_cpu <? ncpu) && negb (Z.land allowed (Z.shiftl 1 fallback_cpu) =? 0)
    then Some fallback_cpu
    else first_allowed 65 ncpu allowed 0.

(** The compare-and-swap loop, run without interference: [runqueue_max] becomes the maximum. *)
Definition rq_note_depth st (depth : Z) : sched_state_t :=
  let prior := runqueue_max st in
  if prior <? depth then set_runqueue_max depth st else st.
End Defs.

(** ** Selection theorems *)

Lemma land_bit m c : 0 <= c -> (Z.land m (Z.shiftl 1 c) =? 0) = negb (Z.testbit m c).
Proof.
  intros Hc. rewrite Z.shiftl_1_l. destruct (Z.testbit m c) eqn:Hb; cbn [negb].
  - apply Z.eqb_neq. intros Hz. apply (f_equal (fun x => Z.testbit x c)) in Hz.
    rewrite Z.land_spec, Z.pow2_bits_true, Hb, Z.bits_0 in Hz by done. done.
  - apply Z.eqb_eq, Z.bits_inj'. intros n Hn. rewrite Z.land_spec, Z.bits_0.
    destruct (decide (n = c)) as [->|Hne]; [by rewrite Hb|].
    rewrite Z.pow2_bits_false by lia. apply andb_false_r.
Qed.

Section Select.
Context `{Arch}.
Implicit Types (st : sched_state_t) (t : tid) (p : ptr tid).

(** The arrays have their declared sizes and the counters do not overflow. *)
Record shaped st : Prop := {
  shape_rq : zlen (runqueues st) = MAX_CORES;
  shape_cpu : zlen (cpus st) = MAX_CORES;
  shape_core : zlen (cores_local st) = MAX_CORES;
  shape_count : 0 < core_count st;
  shape_load : Forall (fun rq => 0 <= nr_running rq < SIZE_MAX) (runqueues st)
}.

(** Core [c] exists and runs. *)
Definition core_up st (c : Z) : bool :=
  (0 <=? c) && (c <? core_count st) &&
  match mload (cores_local st) c with Some k => valid k && online k | None => false end.

(** The mask of [p] allows core [c]; an empty mask allows every core. *)
Definition mask_allows st p (c : Z) : bool :=
  match p with
  | Some t => (allowed_cpu_mask (threads st t) =? 0) || Z.testbit (allowed_cpu_mask (threads st t)) c
  | None => true
  end.

Definition eligible st p c : bool := core_up st c && mask_allows st p c.

Lemma core_up_range st c : zlen (cores_local st) = MAX_CORES -> core_up st c = true -> 0 <= c < 64.
Proof.
  unfold core_up, MAX_CORES. intros Hlen Hup. bool_facts.
  destruct (mload _ c) eqn:Hc; [|done]. apply mload_Some in Hc. lia.
Qed.

Lemma eligible_range st p c :
  zlen (cores_local st) = MAX_CORES -> eligible st p c = true -> 0 <= c < Z.min (core_count st) 64.
Proof.
  unfold eligible. intros Hlen [Hup _]%andb_true_iff. pose proof (core_up_range _ _ Hlen Hup).
  unfold core_up in Hup. bool_facts. lia.
Qed.

Lemma online_mask_loop_spec st fuel i mask :
  shaped st -> 0 <= i <= 64 -> 64 - i < Z.of_nat fuel ->
  (forall c, 0 <= c -> Z.testbit mask c = (c <? i) && core_up st c) ->
  exists m, online_mask_loop fuel st i mask = Some m /\
    forall c, 0 <= c -> Z.testbit m c = core_up st c.
Proof.
  intros Hs. revert i mask. induction fuel as [|fuel IH]; intros i mask Hi Hf Hm; [lia|].
  pose proof (shape_core _ Hs) as Hlen. unfold MAX_CORES in *.
  cbn [online_mask_loop]. unfold MAX_CORES. case_test.
  - destruct (mload_is_Some (cores_local st) i) as [k Hk]; [lia|].
    rewrite Hk. cbn [mbind option_bind]. apply IH; [lia..|]. intros c Hc.
    assert (Z.testbit (if valid k && online k then Z.lor mask (Z.shiftl 1 i) else mask) c
            = Z.testbit mask c || ((c =? i) && (valid k && online k))) as ->.
    { destruct (valid k && online k); rewrite ?andb_true_r, ?andb_false_r, ?orb_false_r; [|done].
      rewrite Z.lor_spec, Z.shiftl_1_l. f_equal. destruct (Z.eqb_spec c i) as [->|];
        [by apply Z.pow2_bits_true | by apply Z.pow2_bits_false]. }
    rewrite Hm by done. destruct (Z.eqb_spec c i) as [->|Hne].
    + test_lia. unfold core_up. rewrite Hk. by test_lia.
    + rewrite andb_false_l, orb_false_r. f_equal.
      destruct (Z.ltb_spec c i), (Z.ltb_spec c (i + 1)); lia || done.
  - exists mask. split; [done|]. intros c Hc. rewrite Hm by done.
    destruct (core_up st c) eqn:Hup; [|apply andb_false_r].
    pose proof (core_up_range _ _ Hlen Hup). unfold core_up in Hup. bool_facts.
    apply andb_false_iff in E as [E|E]; [apply andb_false_iff in E as [E|E]|]; bool_facts;
      rewrite andb_true_r; apply Z.ltb_lt; lia.
Qed.

Lemma online_mask_spec st :
  shaped st -> exists m, sched_online_cpu_mask st = Some m /\ m <> 0 /\
    forall c, 0 <= c ->
      Z.testbit m c = core_up st c \/ c = 0 /\ m = 1 /\ forall k, core_up st k = false.
Proof.
  intros Hs. unfold sched_online_cpu_mask.
  destruct (online_mask_loop_spec st 65 0 0) as (m & -> & Hm); [done|lia|lia| |].
  { intros c Hc. rewrite Z.bits_0. by test_lia. }
  cbn [mbind option_bind]. eexists. split; [done|]. destruct (Z.eqb_spec m 0) as [->|Hm0].
  - assert (forall k, core_up st k = false) as Hno.
    { intros k. destruct (Z.ltb_spec k 0).
      - unfold core_up. by test_lia.
      - by rewrite <- Hm, Z.bits_0. }
    split; [done|]. intros c Hc. destruct (decide (c = 0)) as [->|Hc0]; [by right|].
    left. rewrite Hno. change 1 with (2 ^ 0). apply Z.pow2_bits_false. lia.
  - split; [done|]. intros c Hc. left. by apply Hm.
Qed.

Lemma cpu_load_spec st c :
  shaped st -> 0 <= c < 64 ->
  exists l, sched_cpu_load st c = Some l /\ 0 <= l <= SIZE_MAX.
Proof.
  intros Hs Hc. unfold sched_cpu_load, MAX_CORES. test_lia.
  pose proof (shape_rq _ Hs). pose proof (shape_cpu _ Hs). unfold MAX_CORES in *.
  destruct (mload_is_Some (runqueues st) c) as [rq Hrq]; [lia|].
  destruct (mload_is_Some (cpus st) c) as [k Hk]; [lia|].
  rewrite Hrq, Hk. cbn [mbind option_bind]. eexists. split; [done|].
  apply mload_Some in Hrq as [_ Hrq].
  pose proof (Forall_lookup_1 _ _ _ _ (shape_load _ Hs) Hrq) as Hl. simpl in Hl.
  case_test; [|lia]. unfold SIZE_MAX in *. rewrite wrap_small by lia. lia.
Qed.

(** [best] is the least loaded core of [can] below [cpu], with ties going to [fb]. *)
Definition best_below st (can : Z -> bool) (fb cpu best bl : Z) : Prop :=
  (best = MAX_CORES /\ forall c, 0 <= c < cpu -> can c = false) \/
  (0 <= best < cpu /\ can best = true /\ sched_cpu_load st best = Some bl /\
   (forall c l, 0 <= c < cpu -> can c = true -> sched_cpu_load st c = Some l -> bl <= l) /\
   (0 <= fb < cpu -> can fb = true -> sched_cpu_load st fb = Some bl -> best = fb)).

Lemma best_below_skip st can fb cpu best bl :
  can cpu = false -> best_below st can fb cpu best bl -> best_below st can fb (cpu + 1) best bl.
Proof.
  intros Hno [[-> Hb]|(Hr & Hcan & Hld & Hmin & Htie)].
  - left. split; [done|]. intros c Hc. destruct (decide (c = cpu)) as [->|]; [done|]. apply Hb. lia.
  - right. split_and!; [lia..|done|done| |].
    + intros c l Hc Hcc. destruct (decide (c = cpu)) as [->|]; [congruence|]. apply Hmin; [lia|done].
    + intros Hfb Hcf. destruct (decide (fb = cpu)) as [->|]; [congruence|]. apply Htie; [lia|done].
Qed.

Lemma best_below_take st (can : Z -> bool) fb cpu best bl l :
  0 <= cpu < 64 -> can cpu = true -> sched_cpu_load st cpu = Some l ->
  best_below st can fb cpu best bl ->
  let better := (MAX_CORES <=? best) || (l <? bl) in
  let better := if negb better && (l =? bl) then cpu =? fb else better in
  if better then best_below st can fb (cpu + 1) cpu l
  else best_below st can fb (cpu + 1) best bl.
Proof.
  intros Hcpu Hcan Hl Hb. unfold MAX_CORES. cbn zeta.
  destruct Hb as [[-> Hb]|(Hr & Hcb & Hld & Hmin & Htie)].
  - cbn. right. split_and!; [lia..|done|done| |].
    + intros c l' Hc Hcc Hl'. destruct (decide (c = cpu)) as [->|]; [simplify_eq; lia|].
      rewrite Hb in Hcc; [done|lia].
    + intros Hfb Hcf _. destruct (decide (fb = cpu)) as [->|]; [done|]. rewrite Hb in Hcf; [done|lia].
  - rewrite (proj2 (Z.leb_gt 64 best)) by lia. cbn [orb].
    destruct (Z.ltb_spec l bl) as [Hlt|Hge]; cbn [negb andb].
    + right. split_and!; [lia..|done|done| |].
      * intros c l' Hc Hcc Hl'. destruct (decide (c = cpu)) as [->|]; [simplify_eq; lia|].
        specialize (Hmin c l' ltac:(lia) Hcc Hl'). lia.
      * intros Hfb Hcf Hlf. destruct (decide (fb = cpu)) as [->|]; [done|].
        specialize (Hmin fb l ltac:(lia) Hcf Hlf). lia.
    + destruct (Z.eqb_spec l bl) as [->|Hne]; [destruct (Z.eqb_spec cpu fb) as [->|Hcf]|].
      * right. split_and!; [lia..|done|done| |done].
        intros c l' Hc Hcc Hl'. destruct (decide (c = fb)) as [->|]; [simplify_eq; lia|].
        by apply (Hmin c); [lia|..].
      * right. split_and!; [lia..|done|done| |].
        -- intros c l' Hc Hcc Hl'. destruct (decide (c = cpu)) as [->|]; [simplify_eq; lia|].
           by apply (Hmin c); [lia|..].
        -- intros Hfb. apply Htie. lia.
      * right. split_and!; [lia..|done|done| |].
        -- intros c l' Hc Hcc Hl'. destruct (decide (c = cpu)) as [->|]; [simplify_eq; lia|].
           by apply (Hmin c); [lia|..].
        -- intros Hfb Hcf Hlf. destruct (decide (fb = cpu)) as [->|]; [simplify_eq; lia|].
           apply Htie; [lia|done..].
Qed.

Lemma pick_cpu_loop_spec st allowed fb ncpu fuel cpu best bl :
  shaped st -> 0 <= cpu <= ncpu -> ncpu = Z.min (core_count st) 64 -> ncpu - cpu < Z.of_nat fuel ->
  let can c := Z.testbit allowed c && core_up st c in
  best_below st can fb cpu best bl ->
  exists b l, pick_cpu_loop fuel st ncpu allowed fb cpu best bl = Some (b, l) /\
    best_below st can fb ncpu b l.
Proof.
  intros Hs. revert cpu best bl. induction fuel as [|fuel IH]; intros cpu best bl Hc Hn Hf can Hb; [lia|].
  cbn [pick_cpu_loop]. case_test.
  2: { replace cpu with ncpu in * by lia. eauto. }
  rewrite land_bit by lia. pose proof (shape_core _ Hs) as Hcore. unfold MAX_CORES in Hcore.
  destruct (mload_is_Some (cores_local st) cpu) as [k Hk]; [lia|].
  assert (core_up st cpu = valid k && online k) as Hup.
  { unfold core_up. rewrite Hk. by test_lia. }
  destruct (Z.testbit allowed cpu) eqn:Hbit; cbn [negb].
  2: { apply IH; [lia..|]. apply best_below_skip; [|done]. unfold can. by rewrite Hbit. }
  rewrite Hk. cbn [mbind option_bind]. rewrite <- negb_andb, <- Hup.
  destruct (core_up st cpu) eqn:Hcu; cbn [negb].
  2: { apply IH; [lia..|]. apply best_below_skip; [|done]. unfold can. by rewrite Hbit, Hcu. }
  destruct (cpu_load_spec st cpu Hs ltac:(lia)) as (l & Hl & _). rewrite Hl. cbn [mbind option_bind].
  assert (can cpu = true) as Hcan by (unfold can; by rewrite Hbit, Hcu).
  pose proof (best_below_take st can fb cpu best bl l ltac:(lia) Hcan Hl Hb) as Ht. cbn zeta in Ht.
  destruct (if negb _ && _ then _ else _); apply IH; done || lia.
Qed.

Lemma first_allowed_bound fuel ncpu allowed cpu :
  0 < ncpu -> 0 <= cpu <= ncpu -> ncpu - cpu < Z.of_nat fuel ->
  exists c, first_allowed fuel ncpu allowed cpu = Some c /\ 0 <= c < ncpu.
Proof.
  intros Hn. revert cpu. induction fuel as [|fuel IH]; intros cpu Hc Hf; [lia|].
  cbn [first_allowed]. case_test; [|exists 0; split; [done|lia]].
  case_test; [exists cpu; split; [done|lia]|]. apply IH; lia.
Qed.

(** [pick_cpu] stated as a choice: what the answer is when some core is eligible. *)
Lemma pick_cpu_spec st p fb :
  shaped st -> 0 <= fb ->
  exists c, pick_cpu st p fb = Some c /\ 0 <= c < Z.min (core_count st) 64 /\
    forall e, eligible st p e = true ->
      eligible st p c = true /\
      (forall l l', sched_cpu_load st c = Some l -> sched_cpu_load st e = Some l' -> l <= l') /\
      (e = fb -> sched_cpu_load st e = sched_cpu_load st c -> c = fb).
Proof.
  intros Hs Hfb. pose proof (shape_count _ Hs) as Hcount. pose proof (shape_core _ Hs) as Hcore.
  unfold pick_cpu, MAX_CORES.
  replace (if 64 <? core_count st then 64 else core_count st) with (Z.min (core_count st) 64)
    by (case_test; lia).
  set (ncpu := Z.min (core_count st) 64). rewrite (proj2 (Z.eqb_neq ncpu 0)) by lia.
  destruct (online_mask_spec st Hs) as (m & -> & Hm0 & Hm). cbn [mbind option_bind].
  set (mask := match p with Some t => allowed_cpu_mask (threads st t) | None => 0 end).
  set (allowed := Z.land (if mask =? 0 then m else mask) m).
  assert (forall e, eligible st p e = true -> Z.testbit allowed e && core_up st e = true) as Hin.
  { intros e He. unfold eligible in He. apply andb_true_iff in He as [Hup Hma].
    pose proof (core_up_range _ _ Hcore Hup). apply andb_true_iff. split; [|done].
    destruct (Hm e) as [Hb|(-> & -> & Hno)]; [lia| |by rewrite Hno in Hup].
    rewrite Hup in Hb. unfold allowed. rewrite Z.land_spec, Hb, andb_true_r.
    unfold mask_allows, mask in *. destruct p as [t|]; [|done].
    destruct (allowed_cpu_mask (threads st t) =? 0); done. }
  assert (forall e, Z.testbit allowed e && core_up st e = true -> eligible st p e = true) as Hout.
  { intros e [Hb Hup]%andb_true_iff. unfold eligible. rewrite Hup. cbn [andb].
    unfold allowed in Hb. rewrite Z.land_spec in Hb. apply andb_true_iff in Hb as [Hb _].
    unfold mask_allows, mask in *. destruct p as [t|]; [|done].
    destruct (allowed_cpu_mask (threads st t) =? 0); done. }
  destruct (Z.eqb_spec allowed 0) as [Ha0|Ha0].
  { eexists. split; [done|]. split; [case_test; lia|]. intros e He%Hin.
    by rewrite Ha0, Z.bits_0 in He. }
  destruct (pick_cpu_loop_spec st allowed fb ncpu 65 0 64 SIZE_MAX Hs) as (b & l & -> & Hbest);
    [lia|done|lia|by left; split; [|intros; lia]|].
  cbn [mbind option_bind]. destruct Hbest as [[-> Hnone]|(Hr & Hcan & Hld & Hmin & Htie)].
  - unfold MAX_CORES. cbn [Z.ltb Z.compare Pos.compare Pos.compare_cont].
    assert (exists c, (if (fb <? ncpu) && negb (Z.land allowed (Z.shiftl 1 fb) =? 0) then Some fb
                       else first_allowed 65 ncpu allowed 0) = Some c /\ 0 <= c < ncpu) as (c & -> & Hc).
    { case_test; [exists fb; split; [done|lia]|]. apply first_allowed_bound; lia. }
    exists c. split_and!; [done|lia..|]. intros e He. pose proof (eligible_range _ _ _ Hcore He).
    apply Hin in He. by rewrite Hnone in He by lia.
  - test_lia. exists b. split_and!; [done|lia..|]. intros e He. pose proof (eligible_range _ _ _ Hcore He). apply Hin in He.
    split_and!; [by apply Hout| |].
    + intros l1 l2 H1 H2. simplify_eq. by apply (Hmin e); [lia|..].
    + intros -> Heq. rewrite Hld in Heq. by apply Htie; [lia|..].
Qed.
End Select.

(** [pick_cpu] always answers a core number, in range.  When some online core is allowed by
    the thread's affinity mask (an empty mask allows all), the answer is such a core, with the
    least load among them, and it is the fallback core whenever that one is equally good. *)
Theorem pick_cpu_least_loaded `{Arch} st p fb :
  shaped st -> 0 <= fb ->
  exists c, pick_cpu st p fb = Some c /\ 0 <= c < Z.min (core_count st) MAX_CORES /\
    forall e, eligible st p e = true ->
      eligible st p c = true /\
      (forall l l', sched_cpu_load st c = Some l -> sched_cpu_load st e = Some l' -> l <= l') /\
      (e = fb -> sched_cpu_load st e = sched_cpu_load st c -> c = fb).
Proof. apply pick_cpu_spec. Qed.

Definition demo_state : sched_state_t :=
  mk_state true (fun t => mk_thread t THREAD_READY 0 0 6 0 0 false false UINT32_MAX false 1 0 false 0 (-1))
    (mk_rq None 0 0 0 :: mk_rq None 0 3 0 :: mk_rq None 0 2 0 :: replicate 61 (mk_rq None 0 0 0)) 0
    (replicate 64 (mk_cpu None None None 0 0 0 false false false))
    (replicate 3 (mk_core true true) ++ replicate 61 (mk_core false false)) 3 0 0 0 0 0.

Lemma pick_cpu_least_loaded_witness :
  eligible demo_state (Some 1) 1 = true /\ @pick_cpu arch64 demo_state (Some 1) 0 = Some 2 /\
  exists c, @pick_cpu arch64 demo_state (Some 1) 0 = Some c /\ 0 <= c < 3.
Proof.
  split_and!; [done|by vm_compute|].
  destruct (@pick_cpu_least_loaded arch64 demo_state (Some 1) 0) as (c & Hc & Hr & _); [|done|eauto].
  split; try done. cbn. repeat constructor; cbn; done.
Defined.
