(* ===== verification/RunQueue.v ===== *)
(** * Run queues: [kernel/sched/runqueue.c]

    Each core has a queue of runnable threads, a binary heap ordered by virtual runtime.  The
    definitions follow the source function by function; a null or out-of-bounds dereference is
    [None].  The theorems show that the queues stay consistent with the fields the threads carry
    (no thread is queued twice, on two cores, or without knowing it), that the thread popped is
    the one with the least virtual runtime among those allowed on the core, and that the
    queue's [min_vruntime] never goes back. *)

From S2P Require Import Prelude Memory BinHeap IntrusiveHeap Sched.
From stdpp Require Import functions relations.
Open Scope Z_scope.

Module RunQueue.

Abbreviation thread_store := (tid -> sched_thread_t).

(** ** Order *)

Definition rq_less (ts : thread_store) (a b : ptr tid) : bool :=
  match a with
  | None => false
  | Some a =>
      match b with
      | None => true
      | Some b =>
          let a := ts a in
          let b := ts b in
          if negb (vruntime_ns a =? vruntime_ns b) then vruntime_ns a <? vruntime_ns b
          else if negb (sum_exec_ns a =? sum_exec_ns b) then sum_exec_ns a <? sum_exec_ns b
          else pid a <? pid b
      end
  end.

#[local] Instance rq_ops : HeapOps sched_thread_t := {|
  hword := u32_wrap; get_index := rq_index; set_index := set_rq_index; hless := rq_less |}.

Definition rq_runnable (ts : thread_store) (thread : ptr tid) : bool :=
  match thread with
  | None => false
  | Some t =>
      if negb (is_state (ts t) THREAD_READY) then false
      else negb (context (ts t) =? 0) && negb (pid (ts t) =? 0)
  end.

Definition rq_worse_than (ts : thread_store) (thread : tid) (best : ptr tid) : bool :=
  match best with
  | None => true
  | Some best =>
      if negb (vruntime_ns (ts thread) =? vruntime_ns (ts best))
      then vruntime_ns (ts best) <? vruntime_ns (ts thread)
      else pid (ts best) <? pid (ts thread)
  end.

(** ** One queue *)

Section Queue.
Context `{Arch}.
Implicit Types (ts : thread_store) (rq : sched_rq_t) (t : tid).

Definition rq_swap ts rq (left right : Z) : option (thread_store * sched_rq_t) :=
  h ← heap rq;
  '(ts, h) ← heap_swap ts h left right;
  Some (ts, set_heap (Some h) rq).

(** Each turn of the loop halves [index]. *)
Definition rq_sift_up ts rq (index : Z) : option (thread_store * sched_rq_t) :=
  h ← heap rq;
  '(ts, h) ← heap_sift_up (S (Z.to_nat index)) ts h index;
  Some (ts, set_heap (Some h) rq).

(** Each turn of the loop moves [index] down, below [nr_running]. *)
Definition rq_sift_down ts rq (index : Z) : option (thread_store * sched_rq_t) :=
  h ← heap rq;
  '(ts, h) ← heap_sift_down (S (Z.to_nat (nr_running rq))) ts h (nr_running rq) index;
  Some (ts, set_heap (Some h) rq).

(** The callers pass an element of [runqueues] and a thread they have tested. *)
Definition rq_insert ts rq t : option (bool * thread_store * sched_rq_t) :=
  match heap rq with
  | None => Some (false, ts, rq)
  | Some h =>
      if capacity rq <=? nr_running rq then Some (false, ts, rq)
      else
        let index := u32_wrap (nr_running rq) in
        h ← mstore h index (Some t);
        let ts := <[t := set_rq_index index (ts t)]> ts in
        let rq := set_nr_running (wrap (nr_running rq + 1)) (set_heap (Some h) rq) in
        '(ts, rq) ← rq_sift_up ts rq index;
        Some (true, ts, rq)
  end.

Definition rq_find_index rq t : option Z :=
  match heap rq with
  | None => Some (-1)
  | Some h => heap_find (Z.to_nat (nr_running rq)) h 0 t
  end.

(** [if (rq->nr_running > 0 && rq->heap[0]) rq->min_vruntime = rq->heap[0]->vruntime_ns;] *)
Definition rq_refresh_min ts rq : option sched_rq_t :=
  if 0 <? nr_running rq then
    h ← heap rq;
    root ← mload h 0;
    Some (match root with
          | Some r => set_min_vruntime (vruntime_ns (ts r)) rq
          | None => rq
          end)
  else Some rq.

(** The thread at [index] goes before its parent. *)
Definition rq_goes_up ts rq (index : Z) : option bool :=
  if 0 <? index then
    let parent := u32_wrap (index - 1) / 2 in
    h ← heap rq;
    a ← mload h index;
    b ← mload h parent;
    Some (rq_less ts a b)
  else Some false.

Definition rq_clear (th : sched_thread_t) : sched_thread_t :=
  set_in_run_queue false (set_on_rq false (set_rq_index UINT32_MAX th)).

Definition rq_remove_index ts rq (index : Z) : option (bool * thread_store * sched_rq_t) :=
  match heap rq with
  | None => Some (false, ts, rq)
  | Some h =>
      if nr_running rq <=? index then Some (false, ts, rq)
      else
        let last := wrap (nr_running rq - 1) in
        removed ← mload h index;
        match removed with
        | None => Some (false, ts, rq)
        | Some r =>
            '(ts, h) ← (if negb (index =? last) then
                          l ← mload h last;
                          h ← mstore h index l;
                          Some (store_index ts l index, h)
                        else Some (ts, h));
            h ← mstore h last None;
            let rq := set_nr_running last (set_heap (Some h) rq) in
            let ts := <[r := rq_clear (ts r)]> ts in
            '(ts, rq) ← (if index <? nr_running rq then
                           up ← rq_goes_up ts rq index;
                           if (up : bool) then rq_sift_up ts rq index else rq_sift_down ts rq index
                         else Some (ts, rq));
            rq ← rq_refresh_min ts rq;
            Some (true, ts, rq)
        end
  end.

Definition rq_remove_cpu ts rq t : option (bool * thread_store * sched_rq_t) :=
  if negb (on_rq (ts t)) then Some (false, ts, rq)
  else
    match heap rq with
    | None => Some (false, <[t := rq_clear (ts t)]> ts, rq)
    | Some h =>
        stale ← (if (rq_index (ts t) =? UINT32_MAX) || (nr_running rq <=? rq_index (ts t))
                 then Some true
                 else c ← mload h (rq_index (ts t)); Some (negb (bool_decide (c = Some t))));
        if (stale : bool) then
          found ← rq_find_index rq t;
          if found <? 0 then Some (false, <[t := rq_clear (ts t)]> ts, rq)
          else
            let ts := <[t := set_rq_index (u32_wrap found) (ts t)]> ts in
            rq_remove_index ts rq (rq_index (ts t))
        else rq_remove_index ts rq (rq_index (ts t))
    end.
End Queue.

(** ** The queues of all cores *)

Section World.
Context `{Arch}.
Implicit Types (st : sched_state_t) (t : tid).

(** Run [f] on [runqueues[cpu_id]] and store the queue back. *)
Definition on_queue {R} st (cpu_id : Z)
    (f : thread_store -> sched_rq_t -> option (R * thread_store * sched_rq_t))
  : option (R * sched_state_t) :=
  rq ← mload (runqueues st) cpu_id;
  '(r, ts, rq) ← f (threads st) rq;
  rqs ← mstore (runqueues st) cpu_id rq;
  Some (r, set_runqueues rqs (set_threads ts st)).

(** [&runqueues[thread->last_cpu]] is taken without a bounds test. *)
Definition rq_remove_thread st (thread : ptr tid) : option (bool * sched_state_t) :=
  match thread with
  | None => Some (false, st)
  | Some t =>
      if negb (on_rq (threads st t)) then Some (false, st)
      else on_queue st (last_cpu (threads st t)) (fun ts rq => rq_remove_cpu ts rq t)
  end.

(** The core a thread is enqueued on: [None] when [rq_enqueue_cpu] gives up. *)
Definition rq_target st t (cpu_id : Z) : option (option Z) :=
  allowed ← sched_cpu_allowed st (Some t) cpu_id;
  c ← mload (cores_local st) cpu_id;
  if negb allowed || negb (online c) then
    allowed_cpu ← pick_cpu st (Some t) cpu_id;
    valid_cpu ← (if allowed_cpu <? MAX_CORES
                 then c ← mload (cores_local st) allowed_cpu; Some (online c)
                 else Some false);
    if negb valid_cpu then Some None
    else
      ok ← sched_cpu_allowed st (Some t) allowed_cpu;
      Some (if negb ok then None else Some allowed_cpu)
  else Some (Some cpu_id).

(** Insert a thread that is on no queue; the queue may be full. *)
Definition rq_enqueue_new st t (cpu_id : Z) : option sched_state_t :=
  rq ← mload (runqueues st) cpu_id;
  let st := if vruntime_ns (threads st t) <? min_vruntime rq
            then upd_thread t (set_vruntime_ns (min_vruntime rq)) st else st in
  '(inserted, ts, rq) ← rq_insert (threads st) rq t;
  if negb inserted then Some (set_threads ts st)
  else
    let ts := <[t := set_affinity_core cpu_id (set_last_cpu cpu_id
                       (set_in_run_queue true (set_on_rq true (ts t))))]> ts in
    rq ← rq_refresh_min ts rq;
    rqs ← mstore (runqueues st) cpu_id rq;
    Some (rq_note_depth (set_runqueues rqs (set_threads ts st)) (nr_running rq)).

(** The critical section of [rq_enqueue_cpu]. *)
Definition rq_enqueue_locked st t (cpu_id : Z) : option sched_state_t :=
  rq ← mload (runqueues st) cpu_id;
  let th := threads st t in
  if on_rq th || negb (rq_index th =? UINT32_MAX) then
    let same_cpu := last_cpu th =? cpu_id in
    let valid_index := rq_index th <? nr_running rq in
    queued ← (if same_cpu && valid_index
              then h ← heap rq; c ← mload h (rq_index th); Some (bool_decide (c = Some t))
              else Some false);
    if (queued : bool) then Some st
    else
      found ← rq_find_index rq t;
      if 0 <=? found then
        Some (upd_thread t (fun th => set_last_cpu cpu_id (set_in_run_queue true
                              (set_on_rq true (set_rq_index (u32_wrap found) th)))) st)
      else rq_enqueue_new (upd_thread t rq_clear st) t cpu_id
  else rq_enqueue_new st t cpu_id.

Definition rq_enqueue_cpu st (thread : ptr tid) (cpu_id : Z) : option sched_state_t :=
  match thread with
  | None => Some st
  | Some t =>
      if MAX_CORES <=? cpu_id then Some st
      else
        target ← rq_target st t cpu_id;
        match target with
        | None => Some st
        | Some cpu_id =>
            if negb (rq_runnable (threads st) thread) then Some st
            else
              st ← (if on_rq (threads st t) && negb (last_cpu (threads st t) =? cpu_id)
                    then '(_, st) ← rq_remove_thread st thread; Some st else Some st);
              if 0 <=? thread_cpu st thread then
                owned ← thread_is_owned st thread;
                if owned || is_state (threads st t) THREAD_RUNNING then Some st
                else rq_enqueue_locked (upd_thread t (set_running_cpu (-1)) st) t cpu_id
              else rq_enqueue_locked st t cpu_id
        end
  end.

(** The scan of the heap for the best allowed thread; answers [(best, best_index)]. *)
Fixpoint best_loop (n : nat) st (cpu_id : Z) (h : list (ptr tid)) (i : Z) (best : ptr tid) (best_index : Z)
  : option (ptr tid * Z) :=
  match n with
  | O => Some (best, best_index)
  | S n =>
      thread ← mload h i;
      allowed ← sched_cpu_allowed st thread cpu_id;
      match thread with
      | Some t =>
          if (allowed : bool) && (bool_decide (best = None) || rq_less (threads st) thread best)
          then best_loop n st cpu_id h (i + 1) (Some t) i
          else best_loop n st cpu_id h (i + 1) best best_index
      | None => best_loop n st cpu_id h (i + 1) best best_index
      end
  end.

(** The root when it may run on [cpu_id]: the common case of pop and peek. *)
Definition rq_root_allowed st (cpu_id : Z) rq : option (ptr tid) :=
  if negb (nr_running rq =? 0) then
    h ← heap rq;
    root ← mload h 0;
    allowed ← sched_cpu_allowed st root cpu_id;
    Some (if (allowed : bool) then root else None)
  else Some None.

Definition rq_pop_best_allowed st (cpu_id : Z) : option (ptr tid * sched_state_t) :=
  if MAX_CORES <=? cpu_id then Some (None, st)
  else
    rq ← mload (runqueues st) cpu_id;
    root ← rq_root_allowed st cpu_id rq;
    match root with
    | Some r =>
        '(_, st) ← on_queue st cpu_id (fun ts rq => rq_remove_index ts rq 0);
        Some (Some r, st)
    | None =>
        '(best, best_index) ← (if nr_running rq =? 0 then Some (None, UINT32_MAX)
                               else h ← heap rq;
                                    best_loop (Z.to_nat (nr_running rq)) st cpu_id h 0 None UINT32_MAX);
        match best with
        | Some b =>
            if negb (best_index =? UINT32_MAX) then
              '(_, st) ← on_queue st cpu_id (fun ts rq => rq_remove_index ts rq best_index);
              Some (Some b, st)
            else Some (None, st)
        | None => Some (None, st)
        end
    end.

Definition rq_peek_best st (cpu_id : Z) : option (ptr tid) :=
  if MAX_CORES <=? cpu_id then Some None
  else
    rq ← mload (runqueues st) cpu_id;
    root ← rq_root_allowed st cpu_id rq;
    match root with
    | Some r => Some (Some r)
    | None =>
        if nr_running rq =? 0 then Some None
        else
          h ← heap rq;
          '(best, _) ← best_loop (Z.to_nat (nr_running rq)) st cpu_id h 0 None UINT32_MAX;
          Some best
    end.

(** The scan for the worst thread that passes the test [ok]. *)
Fixpoint worst_loop (n : nat) (ts : thread_store) (ok : ptr tid -> option bool) (h : list (ptr tid))
    (i : Z) (worst : ptr tid) (worst_i : Z) : option (ptr tid * Z) :=
  match n with
  | O => Some (worst, worst_i)
  | S n =>
      thread ← mload h i;
      can ← ok thread;
      match thread with
      | Some t =>
          if (can : bool) && rq_worse_than ts t worst
          then worst_loop n ts ok h (i + 1) (Some t) i
          else worst_loop n ts ok h (i + 1) worst worst_i
      | None => worst_loop n ts ok h (i + 1) worst worst_i
      end
  end.

(** [rq_take_worst] and [rq_take_unfit] differ in the threads they consider. *)
Definition rq_take st (source_cpu : Z) (ok : ptr tid -> option bool) : option (ptr tid * sched_state_t) :=
  rq ← mload (runqueues st) source_cpu;
  '(worst, worst_i) ← (if nr_running rq =? 0 then Some (None, UINT32_MAX)
                       else h ← heap rq;
                            worst_loop (Z.to_nat (nr_running rq)) (threads st) ok h 0 None UINT32_MAX);
  match worst with
  | Some w =>
      if negb (worst_i =? UINT32_MAX) then
        '(_, st) ← on_queue st source_cpu (fun ts rq => rq_remove_index ts rq worst_i);
        Some (Some w, st)
      else Some (None, st)
  | None => Some (None, st)
  end.

Definition rq_take_worst st (source_cpu target_cpu : Z) : option (ptr tid * sched_state_t) :=
  if (MAX_CORES <=? source_cpu) || (MAX_CORES <=? target_cpu) then Some (None, st)
  else rq_take st source_cpu (fun thread =>
         if rq_runnable (threads st) thread then sched_cpu_allowed st thread target_cpu
         else Some false).

Definition rq_take_unfit st (source_cpu disallowed_cpu : Z) : option (ptr tid * sched_state_t) :=
  if (MAX_CORES <=? source_cpu) || (MAX_CORES <=? disallowed_cpu) then Some (None, st)
  else rq_take st source_cpu (fun thread =>
         if rq_runnable (threads st) thread
         then allowed ← sched_cpu_allowed st thread disallowed_cpu; Some (negb allowed)
         else Some false).
End World.

(** ** The heap laws of a run queue *)

Lemma rq_less_key (ts ts' : thread_store) a b :
  (forall t, vruntime_ns (ts t) = vruntime_ns (ts' t) /\ sum_exec_ns (ts t) = sum_exec_ns (ts' t) /\
             pid (ts t) = pid (ts' t)) ->
  rq_less ts a b = rq_less ts' a b.
Proof.
  intros Hk. unfold rq_less. destruct a as [a|], b as [b|]; try done.
  destruct (Hk a) as (-> & -> & ->), (Hk b) as (-> & -> & ->). done.
Qed.

(** The comparison is the lexicographic order of the three keys. *)
Lemma rq_less_lex (ts : thread_store) a b :
  rq_less ts (Some a) (Some b) = true <->
  vruntime_ns (ts a) < vruntime_ns (ts b) \/
  vruntime_ns (ts a) = vruntime_ns (ts b) /\
    (sum_exec_ns (ts a) < sum_exec_ns (ts b) \/
     sum_exec_ns (ts a) = sum_exec_ns (ts b) /\ pid (ts a) < pid (ts b)).
Proof. cbn. repeat case_test; rewrite Z.ltb_lt; lia. Qed.

#[local] Instance rq_laws : HeapLaws sched_thread_t.
Proof.
  split; try done.
  - apply u32_wrap_small.
  - by intros [].
  - intros ts ts' Hk a b. apply rq_less_key. intros t. specialize (Hk t).
    by repeat split; [apply (f_equal vruntime_ns) in Hk | apply (f_equal sum_exec_ns) in Hk
                     | apply (f_equal pid) in Hk].
  - intros ts. split; intros *; rewrite <- ?not_true_iff_false; cbn [hless rq_ops];
      rewrite ?rq_less_lex; lia.
Qed.

Lemma tless_vruntime (ts : thread_store) a b :
  tless ts a b = false -> vruntime_ns (ts b) <= vruntime_ns (ts a).
Proof.
  unfold tless. rewrite <- not_true_iff_false. cbn [hless rq_ops]. rewrite rq_less_lex. lia.
Qed.

Section QueueSpec.
Context `{Arch}.
Implicit Types (ts : thread_store) (rq : sched_rq_t) (t : tid) (live : list tid).

Definition SCHED_RQ_CAPACITY : Z := 4096.

(** A queue that holds the threads [live]. *)
Record rq_ok ts rq live : Prop := {
  ok_heap : heap rq = Some ((Some <$> live) ++ replicate (Z.to_nat (capacity rq) - length live) None);
  ok_count : nr_running rq = zlen live;
  ok_fits : zlen live <= capacity rq <= SCHED_RQ_CAPACITY;
  ok_index : indexed ts live;
  ok_order : heap_ok (tless ts) live;
  ok_min : forall t, t ∈ live -> min_vruntime rq <= vruntime_ns (ts t)
}.

(** What queue operations leave of a thread: everything but its position. *)
Definition kept ts ts' t : Prop := set_rq_index 0 (ts' t) = set_rq_index 0 (ts t).

Lemma kept_key ts ts' t : kept ts ts' t -> vruntime_ns (ts' t) = vruntime_ns (ts t) /\
  sum_exec_ns (ts' t) = sum_exec_ns (ts t) /\ pid (ts' t) = pid (ts t) /\
  on_rq (ts' t) = on_rq (ts t) /\ in_run_queue (ts' t) = in_run_queue (ts t) /\
  last_cpu (ts' t) = last_cpu (ts t) /\ allowed_cpu_mask (ts' t) = allowed_cpu_mask (ts t).
Proof.
  unfold kept. intros Hk. repeat split;
    [ by apply (f_equal vruntime_ns) in Hk | by apply (f_equal sum_exec_ns) in Hk
    | by apply (f_equal pid) in Hk | by apply (f_equal on_rq) in Hk
    | by apply (f_equal in_run_queue) in Hk | by apply (f_equal last_cpu) in Hk
    | by apply (f_equal allowed_cpu_mask) in Hk ].
Qed.

Lemma kept_trans ts1 ts2 ts3 t : kept ts1 ts2 t -> kept ts2 ts3 t -> kept ts1 ts3 t.
Proof. unfold kept. by intros <- ->. Qed.

Lemma moves_kept live ts ts' t : moves live ts ts' -> kept ts ts' t.
Proof. intros [_ Hk]. symmetry. apply Hk. Qed.

Lemma rq_refresh_min_spec ts rq live :
  heap rq = Some ((Some <$> live) ++ replicate (Z.to_nat (capacity rq) - length live) None) ->
  nr_running rq = zlen live -> heap_ok (tless ts) live ->
  (forall t, t ∈ live -> min_vruntime rq <= vruntime_ns (ts t)) ->
  exists m, rq_refresh_min ts rq = Some (set_min_vruntime m rq) /\ min_vruntime rq <= m /\
    forall t, t ∈ live -> m <= vruntime_ns (ts t).
Proof.
  intros Hh Hn Hok Hmin. unfold rq_refresh_min. rewrite Hn, Hh. unfold zlen.
  destruct live as [|r live].
  - exists (min_vruntime rq). cbn. split_and!; [by destruct rq|lia|by intros ? ?%elem_of_nil].
  - rewrite (proj2 (Z.ltb_lt _ _)) by (cbn; lia). cbn [mbind option_bind].
    rewrite (cell_live (r :: live) _ 0 r) by done. cbn [mbind option_bind].
    exists (vruntime_ns (ts r)). split_and!; [done|apply Hmin; constructor|].
    intros t Ht. apply tless_vruntime. by eapply (heap_root_min (tless ts)).
Qed.

Lemma replicate_pred {A} (x : A) n : (0 < n)%nat -> replicate n x = x :: replicate (n - 1) x.
Proof. intros. destruct n; [lia|]. simpl. by rewrite Nat.sub_0_r. Qed.

(** [rq_insert] of a thread that is not in the queue. *)
Lemma rq_insert_spec ts rq live t :
  rq_ok ts rq live -> t ∉ live -> min_vruntime rq <= vruntime_ns (ts t) ->
  if capacity rq <=? zlen live then rq_insert ts rq t = Some (false, ts, rq)
  else exists ts' rq' live',
    rq_insert ts rq t = Some (true, ts', rq') /\ rq_ok ts' rq' live' /\ live' ≡ₚ t :: live /\
    capacity rq' = capacity rq /\ min_vruntime rq' = min_vruntime rq /\
    moves (t :: live) ts ts'.
Proof.
  intros [Hh Hn [Hf1 Hf2] Hix Hok Hmin] Ht Hv. unfold rq_insert. rewrite Hh, Hn.
  unfold SCHED_RQ_CAPACITY in Hf2. pose proof SIZE_MOD_ge. pose proof (zlen_nonneg live).
  case_test; [done|]. rewrite u32_wrap_small by lia. rewrite wrap_small by lia.
  assert (Z.to_nat (capacity rq) - length live = S (Z.to_nat (capacity rq) - S (length live)))%nat as Hr
    by (unfold zlen in *; lia).
  rewrite mstore_ok. 2: { rewrite zlen_app. unfold zlen in *. rewrite length_fmap, length_replicate. lia. }
  cbn [mbind option_bind]. unfold rq_sift_up. cbn [heap set_nr_running set_heap mbind option_bind].
  rewrite Hr. cbn [replicate].
  replace (<[Z.to_nat (zlen live):=Some t]> ((Some <$> live) ++ None :: replicate (Z.to_nat (capacity rq) - S (length live)) None))
    with ((Some <$> (live ++ [t])) ++ replicate (Z.to_nat (capacity rq) - S (length live)) (None : ptr tid)).
  2: { unfold zlen. rewrite Nat2Z.id, fmap_app, <- app_assoc. symmetry.
       replace (length live) with (length (Some <$> live) + 0)%nat by (rewrite length_fmap; lia).
       by rewrite insert_app_r. }
  destruct (heap_push ts live (replicate (Z.to_nat (capacity rq) - S (length live)) None) t
              (S (Z.to_nat (zlen live)))) as (ts' & live' & Hs & Hp & Hix' & Hok' & Hm);
    try done; try (unfold zlen in *; lia).
  change (<[t:=set_rq_index (zlen live) (ts t)]> ts) with (store_index ts (Some t) (zlen live)).
  rewrite Hs. cbn [mbind option_bind]. do 3 eexists. split; [done|].
  assert (length live' = S (length live)) as Hl' by by rewrite Hp.
  split_and!; try done. split; cbn; try done.
  - by rewrite Hl'.
  - unfold zlen. rewrite Hl'. lia.
  - unfold zlen, SCHED_RQ_CAPACITY in *. lia.
  - intros u Hu. rewrite Hp in Hu. destruct (kept_key _ _ u (moves_kept _ _ _ u Hm)) as (-> & _).
    apply elem_of_cons in Hu as [->|Hu]; auto.
Qed.

(** The repair after a removal: up when the moved thread goes before its parent, else down. *)
Lemma rq_repair_spec ts rq live rest (i : nat) :
  heap rq = Some ((Some <$> live) ++ rest) -> nr_running rq = zlen live ->
  zlen live <= SCHED_RQ_CAPACITY -> indexed ts live ->
  ((i < length live)%nat -> hole_inv (tless ts) live i) ->
  ((length live <= i)%nat -> heap_ok (tless ts) live) ->
  exists ts' live',
    (if Z.of_nat i <? nr_running rq then
       up ← rq_goes_up ts rq (Z.of_nat i);
       if (up : bool) then rq_sift_up ts rq (Z.of_nat i) else rq_sift_down ts rq (Z.of_nat i)
     else Some (ts, rq)) = Some (ts', set_heap (Some ((Some <$> live') ++ rest)) rq) /\
    repaired ts live ts' live'.
Proof.
  intros Hh Hn Hlen Hix Hhole Hok. unfold SCHED_RQ_CAPACITY, zlen in *. rewrite Hn. case_test.
  2: { exists ts, live. split; [|split_and!; try done; apply Hok; lia].
       rewrite <- Hh. by destruct rq. }
  specialize (Hhole ltac:(lia)). destruct (lookup_lt_is_Some_2 live i ltac:(lia)) as [a Ha].
  destruct (lookup_lt_is_Some_2 live (parent i)) as [b Hb].
  { destruct i as [|i]; [by cbn; lia|]. pose proof (parent_lt (S i)). lia. }
  assert (rq_goes_up ts rq (Z.of_nat i) = Some ((0 <? Z.of_nat i) && tless ts a b)) as ->.
  { unfold rq_goes_up. case_test; [|done]. rewrite Hh. cbn [mbind option_bind].
    rewrite (hparent (T := sched_thread_t) i ltac:(lia) ltac:(lia) : u32_wrap _ / 2 = _).
    by rewrite (cell_live live rest i a), (cell_live live rest (parent i) b). }
  cbn [mbind option_bind]. destruct ((0 <? Z.of_nat i) && tless ts a b) eqn:Htest.
  - apply andb_true_iff in Htest as [Hi0%Z.ltb_lt Hlt].
    destruct (sift_up_heap (S i) ts live rest i) as (ts' & live' & Hs & Hrep); try done; try lia.
    { apply (hole_up (tless ts) live i a b); done || lia. }
    unfold rq_sift_up. rewrite Hh. cbn [mbind option_bind]. rewrite Nat2Z.id, Hs.
    cbn [mbind option_bind]. eauto.
  - destruct (sift_down_heap (S (length live)) ts live rest i) as (ts' & live' & Hs & Hrep);
      try done; try lia.
    { eapply hole_down; [done..|]. intros Hi0 b' Hb'. simplify_eq.
      apply andb_false_iff in Htest as [?%Z.ltb_ge|?]; [lia|done]. }
    unfold rq_sift_down. rewrite Hh, Hn. cbn [mbind option_bind]. rewrite Nat2Z.id.
    unfold zlen in Hs. rewrite Hs. cbn [mbind option_bind]. eauto.
Qed.

(** Detaching thread [t] at position [i]: the last thread [l] takes its cell.  [live1] is what
    is left in the heap, with a hole around [i] unless [t] was last. *)
Lemma detach_spec ts init (l : tid) (i : nat) t ts1 :
  indexed ts (init ++ [l]) -> heap_ok (tless ts) (init ++ [l]) -> (init ++ [l]) !! i = Some t ->
  let live1 := <[i := l]> init in
  (ts1 = if decide (i = length init) then ts else store_index ts (Some l) (Z.of_nat i)) ->
  let ts2 := <[t := rq_clear (ts1 t)]> ts1 in
  indexed ts2 live1 /\ init ++ [l] ≡ₚ t :: live1 /\ ts2 t = rq_clear (ts t) /\
  (forall u, u <> t -> kept ts ts2 u) /\ (forall u, u ∉ init ++ [l] -> ts2 u = ts u) /\
  (forall a b, tless ts2 a b = tless ts a b) /\
  ((i < length live1)%nat -> hole_inv (tless ts2) live1 i) /\
  ((length live1 <= i)%nat -> heap_ok (tless ts2) live1).
Proof.
  intros Hix Hok Hi live1 Hts1 ts2. pose proof (indexed_NoDup _ _ Hix) as Hnd.
  apply list.NoDup_app in Hnd as (Hnd & Hl & _).
  assert (l ∉ init) as Hli by (intros Hin; eapply Hl; [exact Hin | constructor]).
  assert (indexed ts init) as Hix0.
  { intros k u Hk. apply Hix. by apply lookup_app_l_Some. }
  assert (heap_ok (tless ts) init) as Hok0.
  { rewrite <- (take_app_length init [l]). by apply heap_ok_take. }
  assert (set_rq_index UINT32_MAX (ts1 t) = set_rq_index UINT32_MAX (ts t)) as Hct.
  { subst ts1. case_decide; [done|]. simpl. destruct (decide (t = l)) as [->|].
    - by rewrite fn_lookup_insert.
    - by rewrite fn_lookup_insert_ne. }
  assert (Hkey : forall u, u <> t -> kept ts ts2 u).
  { intros u Hu. unfold kept, ts2. rewrite fn_lookup_insert_ne by done. subst ts1.
    case_decide; [done|]. simpl. destruct (decide (u = l)) as [->|].
    - by rewrite fn_lookup_insert.
    - by rewrite fn_lookup_insert_ne. }
  assert (ts2 t = rq_clear (ts t)) as H2t.
  { unfold ts2. rewrite fn_lookup_insert. unfold rq_clear. by rewrite Hct. }
  assert (Hless : forall a b, tless ts2 a b = tless ts a b).
  { intros a b. apply rq_less_key. intros u. destruct (decide (u = t)) as [->|Hu].
    - by rewrite H2t.
    - by destruct (kept_key _ _ u (Hkey u Hu)) as (-> & -> & -> & _). }
  apply lookup_app_Some in Hi as [Hi|[Hge Hi]].
  - pose proof (lookup_lt_Some _ _ _ Hi) as Hlt. rewrite decide_False in Hts1 by lia.
    destruct (heap_fill ts init i l) as (Hix1 & Hh1 & Hm1); try done.
    assert (t <> l) as Htl by (intros ->; apply Hli, list_elem_of_lookup; eauto).
    assert (init ++ [l] ≡ₚ t :: live1) as Hperm.
    { rewrite <- Permutation_cons_append. symmetry. by apply insert_Permutation. }
    assert (t ∉ live1) as Htn.
    { apply indexed_NoDup in Hix. rewrite Hperm in Hix. by apply list.NoDup_cons in Hix as []. }
    split_and!; try done.
    + intros k u Hk. unfold ts2. rewrite fn_lookup_insert_ne.
      * subst ts1. by apply Hix1.
      * intros ->. apply Htn, list_elem_of_lookup. eauto.
    + intros u Hu. unfold ts2. rewrite fn_lookup_insert_ne.
      * subst ts1. apply Hm1. rewrite <- (Permutation_cons_append init l) in Hu. done.
      * intros ->. apply Hu, elem_of_app. left. apply list_elem_of_lookup. eauto.
    + intros _. eapply hole_inv_ext; [|exact Hh1]. intros a b _ _. rewrite Hless.
      symmetry. apply tless_keys. by eapply moves_keys.
    + unfold live1. rewrite length_insert. lia.
  - apply list_lookup_singleton_Some in Hi as [Hi0 <-]. assert (i = length init) as -> by lia.
    rewrite decide_True in Hts1 by done.
    assert (live1 = init) as Hl1 by (apply list_insert_ge; lia).
    rewrite Hl1. split_and!; try done.
    + intros k u Hk. unfold ts2. subst ts1. rewrite fn_lookup_insert_ne; [by apply Hix0|].
      intros ->. apply Hli, list_elem_of_lookup. eauto.
    + symmetry. apply Permutation_cons_append.
    + intros u Hu. unfold ts2. subst ts1. rewrite fn_lookup_insert_ne; [done|].
      intros ->. apply Hu, elem_of_app. right. constructor.
    + lia.
    + intros _. eapply heap_ok_ext; [|exact Hok0]. done.
Qed.

Lemma store_last_null (live1 : list tid) l (rest : list (ptr tid)) :
  mstore ((Some <$> (live1 ++ [l])) ++ rest) (zlen live1) None = Some ((Some <$> live1) ++ None :: rest).
Proof.
  rewrite mstore_ok.
  - unfold zlen. rewrite Nat2Z.id, fmap_app, <- app_assoc.
    replace (length live1) with (length (Some <$> live1) + 0)%nat by (rewrite length_fmap; lia).
    by rewrite insert_app_r.
  - unfold zlen. rewrite length_app, length_fmap, length_app. simpl. lia.
Qed.

(** [rq_remove_index] takes out exactly the thread at the index. *)
Lemma rq_remove_index_spec ts rq live (i : nat) t :
  rq_ok ts rq live -> live !! i = Some t ->
  exists ts' rq' live',
    rq_remove_index ts rq (Z.of_nat i) = Some (true, ts', rq') /\ rq_ok ts' rq' live' /\
    live ≡ₚ t :: live' /\ capacity rq' = capacity rq /\ min_vruntime rq <= min_vruntime rq' /\
    ts' t = rq_clear (ts t) /\ (forall u, u <> t -> kept ts ts' u) /\
    (forall u, u ∉ live -> ts' u = ts u).
Proof.
  intros [Hh Hn [Hf1 Hf2] Hix Hok Hmin] Hi. unfold SCHED_RQ_CAPACITY in Hf2.
  destruct (exists_last (l := live)) as (init & l & ->); [by intros ->|].
  pose proof (lookup_lt_Some _ _ _ Hi) as Hlt. rewrite length_app in Hlt. simpl in Hlt.
  pose proof SIZE_MOD_ge. pose proof (zlen_nonneg init).
  rewrite zlen_app in *. change (zlen [l]) with 1 in *.
  set (rest := replicate _ _) in Hh.
  unfold rq_remove_index. rewrite Hh, Hn. rewrite (proj2 (Z.leb_gt _ _)) by (unfold zlen in *; lia).
  rewrite wrap_small by lia. replace (zlen init + 1 - 1) with (zlen init) by lia.
  rewrite (cell_live _ rest i t) by done. cbn [mbind option_bind].
  set (ts1 := if decide (i = length init) then ts else store_index ts (Some l) (Z.of_nat i)).
  set (live1 := <[i := l]> init).
  assert (zlen init = zlen live1) as Hzl by (unfold zlen, live1; by rewrite length_insert).
  assert ((if negb (Z.of_nat i =? zlen init) then
             l' ← mload ((Some <$> (init ++ [l])) ++ rest) (zlen init);
             h ← mstore ((Some <$> (init ++ [l])) ++ rest) (Z.of_nat i) l';
             Some (store_index ts l' (Z.of_nat i), h)
           else Some (ts, (Some <$> (init ++ [l])) ++ rest))
          = Some (ts1, (Some <$> (live1 ++ [l])) ++ rest)) as ->.
  { unfold ts1, live1, zlen. case_decide as Hd; test_lia.
    - by rewrite list_insert_ge by lia.
    - rewrite (cell_live _ rest (length init) l) by (by rewrite list_lookup_middle).
      cbn [mbind option_bind]. rewrite store_live by (rewrite length_app; simpl; lia).
      cbn [mbind option_bind]. by rewrite insert_app_l by lia. }
  cbn [mbind option_bind]. rewrite Hzl, store_last_null. cbn [mbind option_bind].
  destruct (detach_spec ts init l i t ts1 Hix Hok Hi eq_refl)
    as (Hix2 & Hperm & H2t & Hkept & Hout & Hless & Hhole & Hok2).
  set (ts2 := <[t:=rq_clear (ts1 t)]> ts1) in *.
  set (rq1 := set_nr_running (zlen live1) (set_heap (Some ((Some <$> live1) ++ None :: rest)) rq)).
  destruct (rq_repair_spec ts2 rq1 live1 (None :: rest) i) as (ts3 & live3 & -> & Hp3 & Hix3 & Hok3 & Hm3);
    try done; [unfold SCHED_RQ_CAPACITY in *; lia|].
  cbn [mbind option_bind].
  assert (length live3 = length live1) as Hl3 by by rewrite Hp3.
  assert (Hkey : forall u, vruntime_ns (ts3 u) = vruntime_ns (ts u)).
  { intros u. destruct (kept_key _ _ u (moves_kept _ _ _ u Hm3)) as (-> & _).
    destruct (decide (u = t)) as [->|Hu]; [by rewrite H2t|].
    by destruct (kept_key _ _ u (Hkept u Hu)) as (-> & _). }
  assert (None :: rest = replicate (Z.to_nat (capacity rq) - length live3) None) as Hrest.
  { unfold rest. rewrite Hl3. unfold live1. rewrite length_insert, length_app. simpl.
    rewrite (replicate_pred _ (Z.to_nat (capacity rq) - length init)) by (unfold zlen in *; lia).
    f_equal. f_equal. lia. }
  assert (forall u, u ∈ live3 -> u ∈ init ++ [l]) as Hsub.
  { intros u Hu. rewrite Hperm. rewrite Hp3 in Hu. by right. }
  destruct (rq_refresh_min_spec ts3 (set_heap (Some ((Some <$> live3) ++ None :: rest)) rq1) live3)
    as (m & -> & Hm & Hmin'); cbn; [by rewrite Hrest|unfold zlen; by rewrite Hl3|done| |].
  { intros u Hu. rewrite Hkey. apply Hmin, Hsub, Hu. }
  cbn [mbind option_bind]. eexists _, _, live3. split; [done|].
  assert (t ∉ live1) as Htn.
  { apply indexed_NoDup in Hix. rewrite Hperm in Hix. by apply list.NoDup_cons in Hix as []. }
  split_and!; try done.
  - split; cbn; try done.
    + by rewrite Hrest.
    + unfold zlen. by rewrite Hl3.
    + unfold zlen, SCHED_RQ_CAPACITY in *. rewrite Hl3. lia.
  - rewrite Hperm. by apply Permutation_skip.
  - destruct Hm3 as [Ho3 _]. by rewrite Ho3.
  - intros u Hu. unfold kept. rewrite <- (Hkept u Hu). apply (moves_kept _ _ _ u Hm3).
  - intros u Hu. destruct Hm3 as [Ho3 _]. rewrite Ho3; [by apply Hout|].
    intros Hin. apply Hu. rewrite Hperm. by right.
Qed.

(** The fields of a thread that its queue depends on. *)
Definition qkey (th : sched_thread_t) := (rq_index th, vruntime_ns th, sum_exec_ns th, pid th).

Lemma rq_ok_ext ts ts' rq live :
  (forall u, u ∈ live -> qkey (ts' u) = qkey (ts u)) -> rq_ok ts rq live -> rq_ok ts' rq live.
Proof.
  intros He [Hh Hn Hf Hix Hok Hmin]. unfold qkey in He. split; try done.
  - intros k u Hk. assert (u ∈ live) as Hu by (apply list_elem_of_lookup; eauto).
    specialize (He u Hu). specialize (Hix k u Hk). cbn in *. congruence.
  - eapply heap_ok_ext; [|exact Hok]. intros a b Ha Hb. unfold tless. cbn.
    injection (He a Ha) as _ -> -> ->. by injection (He b Hb) as _ -> -> ->.
  - intros u Hu. specialize (He u Hu). specialize (Hmin u Hu). simplify_eq. congruence.
Qed.

(** The threads a queue holds, read off its array. *)
Definition rq_threads rq : list tid := omap id (default [] (heap rq)).

Lemma rq_threads_ok ts rq live : rq_ok ts rq live -> rq_threads rq = live.
Proof.
  intros [Hh _ _ _ _ _]. unfold rq_threads. rewrite Hh. cbn [default from_option id].
  generalize (Z.to_nat (capacity rq) - length live)%nat as n. intros n. clear Hh.
  induction live as [|t live IH]; simpl; [|by f_equal]. by induction n.
Qed.
End QueueSpec.

(** ** The invariant of all queues *)

Section WorldSpec.
Context `{Arch}.
Implicit Types (st : sched_state_t) (ts : thread_store) (rq : sched_rq_t) (t : tid) (c : nat).

(** The arrays have their sizes, every queue is an ordered heap of threads that know their
    position, and a thread is in a queue exactly when its fields say so. *)
Record rq_inv st : Prop := {
  inv_rqs : zlen (runqueues st) = MAX_CORES;
  inv_cpus : zlen (cpus st) = MAX_CORES;
  inv_cores : zlen (cores_local st) = MAX_CORES;
  inv_count : 0 < core_count st;
  inv_ok : forall c rq, runqueues st !! c = Some rq -> rq_ok (threads st) rq (rq_threads rq);
  inv_in : forall c rq t, runqueues st !! c = Some rq -> t ∈ rq_threads rq ->
    on_rq (threads st t) = true /\ in_run_queue (threads st t) = true /\
    last_cpu (threads st t) = Z.of_nat c;
  inv_on : forall t, on_rq (threads st t) = true ->
    exists c rq, runqueues st !! c = Some rq /\ t ∈ rq_threads rq;
  inv_off : forall t, on_rq (threads st t) = false ->
    in_run_queue (threads st t) = false /\ rq_index (threads st t) = UINT32_MAX
}.

Lemma inv_shaped st : rq_inv st -> shaped st.
Proof.
  intros Hinv. split; try apply Hinv. apply Forall_lookup. intros c rq Hrq.
  destruct (inv_ok _ Hinv c rq Hrq) as [_ Hn Hf _ _ _]. unfold SCHED_RQ_CAPACITY in Hf.
  pose proof SIZE_MOD_ge. unfold SIZE_MAX. pose proof (zlen_nonneg (rq_threads rq)). lia.
Qed.

(** A thread is in one queue only. *)
Lemma inv_unique st c1 c2 rq1 rq2 t :
  rq_inv st -> runqueues st !! c1 = Some rq1 -> runqueues st !! c2 = Some rq2 ->
  t ∈ rq_threads rq1 -> t ∈ rq_threads rq2 -> c1 = c2.
Proof.
  intros Hinv H1 H2 Hi1 Hi2. destruct (inv_in _ Hinv _ _ _ H1 Hi1) as (_ & _ & E1).
  destruct (inv_in _ Hinv _ _ _ H2 Hi2) as (_ & _ & E2). lia.
Qed.

(** Replacing one queue and the fields of thread [t]. *)
Lemma inv_update st c rq ts' rq' live' t :
  rq_inv st -> runqueues st !! c = Some rq -> rq_ok ts' rq' live' ->
  (t ∈ rq_threads rq \/ on_rq (threads st t) = false) ->
  (forall u, u <> t -> u ∈ live' <-> u ∈ rq_threads rq) ->
  (forall u, u <> t -> kept (threads st) ts' u) ->
  (forall u, u <> t -> u ∉ rq_threads rq -> ts' u = threads st u) ->
  (if bool_decide (t ∈ live')
   then on_rq (ts' t) = true /\ in_run_queue (ts' t) = true /\ last_cpu (ts' t) = Z.of_nat c
   else on_rq (ts' t) = false /\ in_run_queue (ts' t) = false /\ rq_index (ts' t) = UINT32_MAX) ->
  rq_inv (set_runqueues (<[c := rq']> (runqueues st)) (set_threads ts' st)).
Proof.
  intros Hinv Hrq Hok' Ht Hmem Hkept Hsame Hflags.
  pose proof (rq_threads_ok _ _ _ Hok') as Hlive'.
  assert (Hother : forall k rqk, runqueues st !! k = Some rqk -> k <> c -> t ∉ rq_threads rqk).
  { intros k rqk Hk Hne Hin. destruct Ht as [Ht|Ht].
    - by apply Hne, (inv_unique st k c rqk rq t).
    - destruct (inv_in _ Hinv _ _ _ Hk Hin). congruence. }
  assert (c < length (runqueues st))%nat as Hc by by eapply lookup_lt_Some.
  split; cbn; try apply Hinv.
  - unfold zlen. rewrite length_insert. apply Hinv.
  - intros k rqk [(<- & <- & _)|[Hne Hk]]%list_lookup_insert_Some; [by rewrite Hlive'|].
    eapply rq_ok_ext; [|by eapply inv_ok]. intros u Hu.
    assert (u <> t) as Hut by (intros ->; eapply Hother; eauto).
    rewrite Hsame; [done|done|]. intros Hin. by apply Hne, (inv_unique st c k rq rqk u).
  - intros k rqk u [(<- & <- & _)|[Hne Hk]]%list_lookup_insert_Some Hu.
    + rewrite Hlive' in Hu. destruct (decide (u = t)) as [->|Hut].
      * by rewrite bool_decide_eq_true_2 in Hflags.
      * destruct (kept_key _ _ u (Hkept u Hut)) as (_ & _ & _ & -> & -> & -> & _).
        eapply inv_in; [done..|]. by apply Hmem.
    + assert (u <> t) as Hut by (intros ->; eapply Hother; eauto).
      destruct (kept_key _ _ u (Hkept u Hut)) as (_ & _ & _ & -> & -> & -> & _). by eapply inv_in.
  - intros u Hu. destruct (decide (u = t)) as [->|Hut].
    + case_bool_decide; [|destruct Hflags; congruence]. exists c, rq'.
      rewrite list_lookup_insert_eq by done. by rewrite Hlive'.
    + destruct (kept_key _ _ u (Hkept u Hut)) as (_ & _ & _ & Ho & _). rewrite Ho in Hu.
      destruct (inv_on _ Hinv u Hu) as (k & rqk & Hk & Hin).
      destruct (decide (k = c)) as [->|Hne].
      * assert (rqk = rq) as -> by congruence. exists c, rq'. rewrite list_lookup_insert_eq by done. rewrite Hlive'.
        split; [done|]. by apply Hmem.
      * exists k, rqk. by rewrite list_lookup_insert_ne by done.
  - intros u Hu. destruct (decide (u = t)) as [->|Hut].
    + case_bool_decide; [destruct Hflags; congruence|]. by destruct Hflags as (_ & ? & ?).
    + destruct (kept_key _ _ u (Hkept u Hut)) as (_ & _ & _ & Ho & _). rewrite Ho in Hu.
      rewrite Hsame; [by apply inv_off|done|]. intros Hin.
      destruct (inv_in _ Hinv _ _ _ Hrq Hin). congruence.
Qed.

(** ** Removal *)

(** The state outside the run queues and the thread objects. *)
Definition same_env st st' : Prop :=
  cpus st' = cpus st /\ cores_local st' = cores_local st /\ core_count st' = core_count st.

Lemma same_env_trans st1 st2 st3 : same_env st1 st2 -> same_env st2 st3 -> same_env st1 st3.
Proof. unfold same_env. intros (-> & -> & ->) (-> & -> & ->). done. Qed.

(** No queue's [min_vruntime] goes back. *)
Definition min_le rq rq' : Prop := min_vruntime rq <= min_vruntime rq'.

#[local] Instance min_le_preorder : PreOrder min_le.
Proof. unfold min_le. split; [intros ?; lia | intros ? ? ?; lia]. Qed.

Definition mins_grow st st' : Prop := Forall2 min_le (runqueues st) (runqueues st').

Lemma mins_grow_refl st st' : runqueues st' = runqueues st -> mins_grow st st'.
Proof. unfold mins_grow. by intros ->. Qed.

Lemma mins_grow_trans st1 st2 st3 : mins_grow st1 st2 -> mins_grow st2 st3 -> mins_grow st1 st3.
Proof. apply (transitivity (R := Forall2 min_le)). Qed.

Lemma mins_grow_insert st st' c rq rq' :
  runqueues st !! c = Some rq -> runqueues st' = <[c := rq']> (runqueues st) ->
  min_vruntime rq <= min_vruntime rq' -> mins_grow st st'.
Proof.
  intros Hrq Hst Hmin. unfold mins_grow. rewrite Hst, <- (list_insert_id (runqueues st) c rq) at 1 by done.
  by apply Forall2_insert.
Qed.

Record removed st st' c t : Prop := {
  rem_queue : exists rq rq', runqueues st !! c = Some rq /\
    runqueues st' = <[c := rq']> (runqueues st) /\
    rq_threads rq ≡ₚ t :: rq_threads rq' /\ min_vruntime rq <= min_vruntime rq';
  rem_thread : threads st' t = rq_clear (threads st t);
  rem_kept : forall u, u <> t -> kept (threads st) (threads st') u;
  rem_env : same_env st st'
}.

Lemma removed_grow st st' c t : removed st st' c t -> mins_grow st st'.
Proof. intros [(rq & rq' & Hrq & Hst & _ & Hmin) _ _ _]. by eapply mins_grow_insert. Qed.

Lemma mload_nat {A} (l : list A) (c : nat) x : l !! c = Some x -> mload l (Z.of_nat c) = Some x.
Proof.
  intros Hc. pose proof (lookup_lt_Some _ _ _ Hc).
  rewrite mload_ok by (unfold zlen; lia). by rewrite Nat2Z.id.
Qed.

Lemma mstore_nat {A} (l : list A) (c : nat) x :
  (c < length l)%nat -> mstore l (Z.of_nat c) x = Some (<[c := x]> l).
Proof. intros Hc. rewrite mstore_ok by (unfold zlen; lia). by rewrite Nat2Z.id. Qed.

Lemma inv_remove st c rq (i : nat) t :
  rq_inv st -> runqueues st !! c = Some rq -> rq_threads rq !! i = Some t ->
  exists st', on_queue st (Z.of_nat c) (fun ts rq => rq_remove_index ts rq (Z.of_nat i))
              = Some (true, st') /\ rq_inv st' /\ removed st st' c t.
Proof.
  intros Hinv Hrq Hi. pose proof (inv_ok _ Hinv c rq Hrq) as Hok.
  assert (c < length (runqueues st))%nat as Hc by by eapply lookup_lt_Some.
  destruct (rq_remove_index_spec _ _ _ i t Hok Hi)
    as (ts' & rq' & live' & Hr & Hok' & Hperm & Hcap & Hmin & Ht & Hkept & Hsame).
  unfold on_queue. rewrite (mload_nat _ c rq) by done. cbn [mbind option_bind].
  rewrite Hr. cbn [mbind option_bind]. rewrite mstore_nat by done. cbn [mbind option_bind].
  pose proof (rq_threads_ok _ _ _ Hok') as Hlive'.
  assert (t ∉ live') as Htn.
  { pose proof (indexed_NoDup _ _ (ok_index _ _ _ Hok)) as Hnd. rewrite Hperm in Hnd.
    by apply list.NoDup_cons in Hnd as []. }
  eexists. split_and!; [done| |].
  - apply (inv_update st c rq ts' rq' live' t); try done.
    + left. apply list_elem_of_lookup. eauto.
    + intros u Hu. rewrite Hperm, elem_of_cons. split; [by right | by intros [->|]].
    + auto.
    + rewrite bool_decide_eq_false_2 by done. by rewrite Ht.
  - split; [|done..]. exists rq, rq'. by rewrite Hlive'.
Qed.

(** Where a queued thread is. *)
Lemma inv_locate st t :
  rq_inv st -> on_rq (threads st t) = true ->
  exists c i rq, runqueues st !! c = Some rq /\ rq_threads rq !! i = Some t /\
    last_cpu (threads st t) = Z.of_nat c /\ rq_index (threads st t) = Z.of_nat i /\
    (i < length (rq_threads rq))%nat.
Proof.
  intros Hinv Hon. destruct (inv_on _ Hinv t Hon) as (c & rq & Hrq & Hin).
  pose proof Hin as [i Hi]%list_elem_of_lookup. exists c, i, rq. split_and!; try done.
  - by apply (inv_in _ Hinv c rq t).
  - by apply (ok_index _ _ _ (inv_ok _ Hinv c rq Hrq)).
  - by eapply lookup_lt_Some.
Qed.

Lemma queue_cell st c rq (i : nat) t :
  rq_inv st -> runqueues st !! c = Some rq -> rq_threads rq !! i = Some t ->
  exists h, heap rq = Some h /\ mload h (Z.of_nat i) = Some (Some t) /\
    nr_running rq = zlen (rq_threads rq) /\ zlen (rq_threads rq) <= SCHED_RQ_CAPACITY.
Proof.
  intros Hinv Hrq Hi. destruct (inv_ok _ Hinv c rq Hrq) as [Hh Hn Hf _ _ _].
  eexists. split_and!; [exact Hh | by apply cell_live | done | lia].
Qed.

Lemma rq_remove_thread_spec st t :
  rq_inv st -> on_rq (threads st t) = true ->
  exists st' c, rq_remove_thread st (Some t) = Some (true, st') /\ rq_inv st' /\
    removed st st' c t /\ last_cpu (threads st t) = Z.of_nat c.
Proof.
  intros Hinv Hon. destruct (inv_locate st t Hinv Hon) as (c & i & rq & Hrq & Hi & Hcpu & Hidx & Hlt).
  destruct (inv_remove st c rq i t Hinv Hrq Hi) as (st' & Hr & Hinv' & Hrem).
  exists st', c. split_and!; try done. unfold rq_remove_thread. rewrite Hon, Hcpu. cbn [negb].
  rewrite <- Hr. unfold on_queue. rewrite (mload_nat _ c rq) by done. cbn [mbind option_bind].
  destruct (queue_cell st c rq i t Hinv Hrq Hi) as (h & Hh & Hcell & Hn & Hcap).
  unfold rq_remove_cpu. rewrite Hon, Hh, Hidx, Hn. cbn [negb].
  unfold SCHED_RQ_CAPACITY, UINT32_MAX, zlen in *. test_lia. rewrite Hcell. cbn [mbind option_bind].
  rewrite bool_decide_eq_true_2 by done. done.
Qed.

(** ** CPU masks *)

Definition allowed_on st (p : ptr tid) (cpu_id : Z) : bool :=
  default false (sched_cpu_allowed st p cpu_id).

Lemma allowed_total st p cpu_id :
  rq_inv st -> sched_cpu_allowed st p cpu_id = Some (allowed_on st p cpu_id).
Proof.
  intros Hinv. unfold allowed_on, sched_cpu_allowed. destruct p as [t|]; [|done].
  case_test; [done|]. destruct (online_mask_spec st (inv_shaped _ Hinv)) as (m & -> & _).
  by case_test.
Qed.

Lemma eligible_allowed st t (c : Z) : rq_inv st -> eligible st (Some t) c = true ->
  allowed_on st (Some t) c = true /\ exists k, mload (cores_local st) c = Some k /\ online k = true.
Proof.
  intros Hinv He. pose proof (eligible_range _ _ _ (inv_cores _ Hinv) He).
  unfold eligible in He. apply andb_true_iff in He as [Hup Hma]. split.
  - unfold allowed_on, sched_cpu_allowed. test_lia.
    destruct (online_mask_spec st (inv_shaped _ Hinv)) as (m & -> & _ & Hm).
    assert (Z.testbit m c = true) as Hbit.
    { destruct (Hm c) as [->|(_ & _ & Hno)]; [lia|done|]. by rewrite Hno in Hup. }
    unfold mask_allows in Hma. case_test; cbn [mbind option_bind default from_option id];
      rewrite land_bit by lia; [by rewrite Hbit|].
    cbn [orb] in Hma. by rewrite Hma.
  - unfold core_up in Hup. apply andb_true_iff in Hup as [_ Hup].
    destruct (mload _ c) as [k|]; [|done]. exists k. by apply andb_true_iff in Hup as [_ ?].
Qed.

(** The target core is online and allowed; giving up means that no core is eligible. *)
Lemma rq_target_spec st t cpu_id :
  rq_inv st -> 0 <= cpu_id < MAX_CORES ->
  exists r, rq_target st t cpu_id = Some r /\
    match r with
    | Some c => 0 <= c < MAX_CORES /\ allowed_on st (Some t) c = true /\
        exists k, mload (cores_local st) c = Some k /\ online k = true
    | None => forall e, eligible st (Some t) e = false
    end.
Proof.
  intros Hinv Hc. unfold rq_target. rewrite !allowed_total by done. cbn [mbind option_bind].
  pose proof (inv_cores _ Hinv) as Hcores. unfold MAX_CORES in *.
  destruct (mload_is_Some (cores_local st) cpu_id) as [k Hk]; [lia|].
  rewrite Hk. cbn [mbind option_bind]. destruct (negb _ || negb _) eqn:E.
  2: { eexists. split; [done|]. apply orb_false_iff in E as [E1 E2].
       split_and!; [lia..|by destruct (allowed_on _ _ _)|].
       exists k. by destruct (online k). }
  destruct (pick_cpu_spec st (Some t) cpu_id (inv_shaped _ Hinv)) as (c & -> & Hr & Hbest); [lia|].
  cbn [mbind option_bind]. test_lia.
  destruct (mload_is_Some (cores_local st) c) as [kc Hkc]; [lia|].
  rewrite Hkc. cbn [mbind option_bind].
  destruct (online kc) eqn:Hon; cbn [negb].
  - rewrite allowed_total by done. cbn [mbind option_bind]. eexists. split; [done|].
    destruct (allowed_on st (Some t) c) eqn:Hal; cbn [negb].
    + split_and!; [lia..|done|eauto].
    + intros e. destruct (eligible st (Some t) e) eqn:He; [|done].
      destruct (Hbest e He) as [Hel _]. apply eligible_allowed in Hel as [Ha _]; [|done]. congruence.
  - eexists. split; [done|]. intros e. destruct (eligible st (Some t) e) eqn:He; [|done].
    destruct (Hbest e He) as [Hel _]. apply eligible_allowed in Hel as (_ & k' & Hk' & ?); [|done].
    congruence.
Qed.

(** ** Enqueue *)

(** Changing fields of a thread that the queues do not depend on. *)
Lemma inv_touch st t f :
  rq_inv st ->
  (forall th, on_rq (f th) = on_rq th /\ in_run_queue (f th) = in_run_queue th /\
              rq_index (f th) = rq_index th /\ last_cpu (f th) = last_cpu th) ->
  (on_rq (threads st t) = false \/ forall th, qkey (f th) = qkey th) ->
  rq_inv (upd_thread t f st).
Proof.
  intros Hinv Hf Ht.
  assert (Hg : forall u (g : sched_thread_t -> bool), (forall th, g (f th) = g th) ->
    g (threads (upd_thread t f st) u) = g (threads st u)).
  { intros u g Hg. cbn. destruct (decide (u = t)) as [->|].
    - by rewrite fn_lookup_insert.
    - by rewrite fn_lookup_insert_ne. }
  assert (Hz : forall u (g : sched_thread_t -> Z), (forall th, g (f th) = g th) ->
    g (threads (upd_thread t f st) u) = g (threads st u)).
  { intros u g Hg'. cbn. destruct (decide (u = t)) as [->|].
    - by rewrite fn_lookup_insert.
    - by rewrite fn_lookup_insert_ne. }
  split; try apply Hinv.
  - intros c rq Hrq. eapply rq_ok_ext; [|by apply (inv_ok _ Hinv c)]. intros u Hu. cbn.
    destruct (decide (u = t)) as [->|]; [rewrite fn_lookup_insert | by rewrite fn_lookup_insert_ne].
    destruct Ht as [Ht|Ht]; [|done]. destruct (inv_in _ Hinv c rq t Hrq Hu). congruence.
  - intros c rq u Hrq Hu. rewrite (Hg u on_rq), (Hg u in_run_queue), (Hz u last_cpu) by apply Hf.
    by apply (inv_in _ Hinv c rq u).
  - intros u. rewrite (Hg u on_rq) by apply Hf. apply (inv_on _ Hinv).
  - intros u. rewrite (Hg u on_rq), (Hg u in_run_queue), (Hz u rq_index) by apply Hf.
    apply (inv_off _ Hinv).
Qed.

(** A thread but for the fields of its place in a queue. *)
Definition qrest (th : sched_thread_t) : sched_thread_t :=
  set_on_rq false (set_in_run_queue false (set_last_cpu 0 (set_affinity_core 0 (set_vruntime_ns 0 (set_rq_index 0 th))))).

Lemma kept_qrest ts ts' t : kept ts ts' t -> qrest (ts' t) = qrest (ts t).
Proof. unfold kept, qrest. by intros ->. Qed.

(** What [rq_enqueue_new] does to the queue of core [c]. *)
Record enqueued st st' c t : Prop := {
  enq_queue : exists rq, runqueues st !! c = Some rq /\
    vruntime_ns (threads st' t) = Z.max (vruntime_ns (threads st t)) (min_vruntime rq) /\
    if capacity rq <=? zlen (rq_threads rq)
    then runqueues st' = runqueues st
    else exists rq', runqueues st' = <[c := rq']> (runqueues st) /\
      rq_threads rq' ≡ₚ t :: rq_threads rq /\ min_vruntime rq <= min_vruntime rq';
  enq_kept : forall u, u <> t -> kept (threads st) (threads st') u;
  enq_env : same_env st st';
  enq_self : qrest (threads st' t) = qrest (threads st t);
  enq_last : last_cpu (threads st' t) = last_cpu (threads st t) \/ last_cpu (threads st' t) = Z.of_nat c
}.

Lemma enqueued_grow st st' c t : enqueued st st' c t -> mins_grow st st'.
Proof.
  intros [(rq & Hrq & _ & Hcase) _ _ _ _]. destruct (_ <=? _); [by apply mins_grow_refl|].
  destruct Hcase as (rq' & Hst & _ & Hmin). by eapply mins_grow_insert.
Qed.

Lemma rq_note_depth_inv st d : rq_inv st -> rq_inv (rq_note_depth st d).
Proof. intros Hinv. unfold rq_note_depth. case_test; [|done]. split; apply Hinv. Qed.

Lemma rq_note_depth_frame st d :
  runqueues (rq_note_depth st d) = runqueues st /\ threads (rq_note_depth st d) = threads st /\
  same_env st (rq_note_depth st d).
Proof. unfold rq_note_depth. by case_test. Qed.

(** The clamp before the insertion: no newcomer starts behind the queue. *)
Definition rq_clamp st t rq : sched_state_t :=
  if vruntime_ns (threads st t) <? min_vruntime rq
  then upd_thread t (set_vruntime_ns (min_vruntime rq)) st else st.

Lemma rq_clamp_spec st t rq :
  rq_inv st -> on_rq (threads st t) = false ->
  rq_inv (rq_clamp st t rq) /\
  threads (rq_clamp st t rq) t =
    set_vruntime_ns (Z.max (vruntime_ns (threads st t)) (min_vruntime rq)) (threads st t) /\
  (forall u, u <> t -> threads (rq_clamp st t rq) u = threads st u) /\
  runqueues (rq_clamp st t rq) = runqueues st /\ same_env st (rq_clamp st t rq).
Proof.
  intros Hinv Hoff. unfold rq_clamp. case_test.
  - split_and!; try done.
    + apply inv_touch; auto.
    + cbn. rewrite fn_lookup_insert. by rewrite Z.max_r by lia.
    + intros u Hu. cbn. by rewrite fn_lookup_insert_ne.
  - split_and!; try done. rewrite Z.max_l by lia. by destruct (threads st t).
Qed.

Lemma rq_enqueue_new_spec st t c rq :
  rq_inv st -> on_rq (threads st t) = false -> runqueues st !! c = Some rq ->
  exists st', rq_enqueue_new st t (Z.of_nat c) = Some st' /\ rq_inv st' /\ enqueued st st' c t.
Proof.
  intros Hinv Hoff Hrq. unfold rq_enqueue_new. rewrite (mload_nat _ c rq) by done.
  cbn [mbind option_bind]. change (if _ <? _ then _ else st) with (rq_clamp st t rq).
  destruct (rq_clamp_spec st t rq Hinv Hoff) as (Hinv1 & Ht1 & Hu1 & Hrq1 & Henv1).
  set (st1 := rq_clamp st t rq) in *.
  assert (runqueues st1 !! c = Some rq) as Hrqc by by rewrite Hrq1.
  pose proof (inv_ok _ Hinv1 c rq Hrqc) as Hok.
  assert (on_rq (threads st1 t) = false) as Hoff1 by by rewrite Ht1.
  assert (t ∉ rq_threads rq) as Htn.
  { intros Hin. destruct (inv_in _ Hinv1 c rq t Hrqc Hin). congruence. }
  assert (c < length (runqueues st1))%nat as Hc by by eapply lookup_lt_Some.
  pose proof (rq_insert_spec _ rq _ t Hok Htn) as Hins. rewrite Ht1 in Hins. cbn in Hins.
  specialize (Hins ltac:(lia)). destruct (capacity rq <=? zlen (rq_threads rq)) eqn:Hfull.
  - rewrite Hins. cbn [mbind option_bind negb]. eexists. split_and!; [done| |].
    + by destruct st1.
    + split; cbn; [|intros u Hu; unfold kept; by rewrite Hu1|done|by rewrite Ht1|left; by rewrite Ht1].
      exists rq. rewrite Hfull, Ht1. done.
  - destruct Hins as (ts' & rq' & live' & -> & Hok' & Hperm & Hcap & Hmin & Hm).
    cbn [mbind option_bind negb].
    set (ts2 := <[t := set_affinity_core _ _]> ts').
    assert (ts2 t = set_affinity_core (Z.of_nat c) (set_last_cpu (Z.of_nat c)
              (set_in_run_queue true (set_on_rq true (ts' t))))) as H2t by apply fn_lookup_insert.
    assert (forall u, u <> t -> ts2 u = ts' u) as H2u.
    { intros u Hu. unfold ts2. by rewrite fn_lookup_insert_ne. }
    assert (rq_ok ts2 rq' live') as Hok2.
    { eapply rq_ok_ext; [|exact Hok']. intros u _. destruct (decide (u = t)) as [->|Hu].
      - by rewrite H2t.
      - by rewrite H2u. }
    destruct (rq_refresh_min_spec ts2 rq' live') as (m & -> & Hm1 & Hm2); try apply Hok2.
    cbn [mbind option_bind]. rewrite mstore_nat by done. cbn [mbind option_bind].
    eexists. split; [done|].
    assert (rq_ok ts2 (set_min_vruntime m rq') live') as Hok3 by (split; try apply Hok2; done).
    pose proof (rq_threads_ok _ _ _ Hok3) as Hl3. split.
    + apply rq_note_depth_inv. apply (inv_update st1 c rq ts2 _ live' t); try done.
      * by right.
      * intros u Hu. rewrite Hperm, elem_of_cons. split; [by intros [->|] | by right].
      * intros u Hu. unfold kept. rewrite H2u by done. apply (moves_kept _ _ _ u Hm).
      * intros u Hu Hn. rewrite H2u by done. apply Hm. by intros [->|]%elem_of_cons.
      * rewrite bool_decide_eq_true_2 by (rewrite Hperm; by left). by rewrite H2t.
    + destruct (rq_note_depth_frame (set_runqueues (<[c := set_min_vruntime m rq']> (runqueues st1))
                  (set_threads ts2 st1)) (nr_running (set_min_vruntime m rq'))) as (Hf1 & Hf2 & Hf3).
      split; rewrite ?Hf1, ?Hf2; cbn.
      * exists rq. rewrite Hfull, H2t. split_and!; [done| |].
        -- cbn. destruct (kept_key _ _ t (moves_kept _ _ _ t Hm)) as (-> & _). by rewrite Ht1.
        -- exists (set_min_vruntime m rq'). rewrite Hrq1, Hl3. split_and!; [done..|cbn; lia].
      * intros u Hu. unfold kept. rewrite H2u, <- (Hu1 u Hu) by done. apply (moves_kept _ _ _ u Hm).
      * by eapply same_env_trans; [exact Henv1 | exact Hf3].
      * rewrite H2t. change (qrest (ts' t) = qrest (threads st t)).
        rewrite (kept_qrest _ _ t (moves_kept _ _ _ t Hm)). by rewrite Ht1.
      * right. by rewrite H2t.
Qed.

Lemma rq_enqueue_locked_spec st t c rq :
  rq_inv st -> runqueues st !! c = Some rq ->
  (on_rq (threads st t) = true -> last_cpu (threads st t) = Z.of_nat c) ->
  exists st', rq_enqueue_locked st t (Z.of_nat c) = Some st' /\ rq_inv st' /\
    if on_rq (threads st t) then st' = st else enqueued st st' c t.
Proof.
  intros Hinv Hrq Hcpu. unfold rq_enqueue_locked. rewrite (mload_nat _ c rq) by done.
  cbn [mbind option_bind]. destruct (on_rq (threads st t)) eqn:Hon; cbn [orb].
  - destruct (inv_locate st t Hinv Hon) as (c' & i & rq' & Hrq' & Hi & Hc' & Hidx & Hlt).
    rewrite (Hcpu eq_refl) in *. assert (c' = c) as -> by lia. simplify_eq.
    destruct (queue_cell st c rq i t Hinv Hrq Hi) as (h & Hh & Hcell & Hn & Hcap).
    rewrite Hidx, Hn. unfold zlen. test_lia. rewrite Hh. cbn [mbind option_bind].
    rewrite Hcell. cbn [mbind option_bind]. rewrite bool_decide_eq_true_2 by done. eauto.
  - destruct (inv_off _ Hinv t Hon) as [_ Hidx]. rewrite Hidx, Z.eqb_refl. cbn [negb].
    destruct (rq_enqueue_new_spec st t c rq Hinv Hon Hrq) as (st' & Hr & Hinv' & Henq). eauto.
Qed.

(** Either way the thread is in the queue afterwards, unless the queue was full. *)
Lemma rq_enqueue_locked_member st t c rq :
  rq_inv st -> runqueues st !! c = Some rq ->
  (on_rq (threads st t) = true -> last_cpu (threads st t) = Z.of_nat c) ->
  exists st' rq', rq_enqueue_locked st t (Z.of_nat c) = Some st' /\ rq_inv st' /\ same_env st st' /\
    mins_grow st st' /\
    (forall u, u <> t -> kept (threads st) (threads st') u) /\ runqueues st' !! c = Some rq' /\
    (t ∈ rq_threads rq' \/ capacity rq' <= zlen (rq_threads rq')).
Proof.
  intros Hinv Hrq Hlast.
  destruct (rq_enqueue_locked_spec st t c rq Hinv Hrq Hlast) as (st' & Hr & Hinv' & Hcase).
  destruct (on_rq (threads st t)) eqn:Ho.
  - subst st'. exists st, rq. split_and!; try done; [by apply mins_grow_refl|]. left.
    destruct (inv_locate st t Hinv Ho) as (c' & i & rq' & Hrq' & Hi & Hc' & _).
    rewrite Hlast in Hc' by done. assert (c' = c) as -> by lia.
    simplify_eq. apply list_elem_of_lookup. eauto.
  - pose proof (enqueued_grow _ _ _ _ Hcase) as Hgrow.
    destruct Hcase as [(rq0 & Hrq0 & _ & Hq) Hk3 He3 _]. simplify_eq.
    destruct (capacity rq <=? zlen (rq_threads rq)) eqn:Hfull; bool_facts.
    + exists st', rq. rewrite Hq. split_and!; try done. right. lia.
    + destruct Hq as (rq' & Hrq' & Hp & _). exists st', rq'. rewrite Hrq', list_lookup_insert_eq
        by (by eapply lookup_lt_Some). split_and!; try done. left. rewrite Hp. by left.
Qed.

Lemma thread_is_owned_frame st st' t :
  cpus st' = cpus st -> running_cpu (threads st' t) = running_cpu (threads st t) ->
  thread_is_owned st' (Some t) = thread_is_owned st (Some t).
Proof.
  intros Hc Hr. unfold thread_is_owned, thread_on_local_cpu, thread_in_handoff, thread_cpu.
  by rewrite Hc, Hr.
Qed.

Lemma thread_is_owned_total st t :
  rq_inv st -> exists b, thread_is_owned st (Some t) = Some b.
Proof.
  intros Hinv. unfold thread_is_owned, thread_on_local_cpu, thread_in_handoff, thread_cpu.
  pose proof (inv_cpus _ Hinv) as Hc. case_test; [by eexists|].
  destruct (mload_is_Some (cpus st) (running_cpu (threads st t))) as [k ->]; [lia|].
  cbn [mbind option_bind]. case_bool_decide; eauto.
Qed.

(** The first part of [rq_enqueue_cpu]: a thread queued on another core leaves that queue. *)
Lemma rq_leave_other st t cpu_id :
  rq_inv st ->
  exists st1, (if on_rq (threads st t) && negb (last_cpu (threads st t) =? cpu_id)
               then '(_, st) ← rq_remove_thread st (Some t); Some st else Some st) = Some st1 /\
    rq_inv st1 /\ same_env st st1 /\ mins_grow st st1 /\ (forall u, u <> t -> kept (threads st) (threads st1) u) /\
    running_cpu (threads st1 t) = running_cpu (threads st t) /\
    state (threads st1 t) = state (threads st t) /\
    (on_rq (threads st1 t) = true -> last_cpu (threads st1 t) = cpu_id).
Proof.
  intros Hinv. case_test.
  - destruct (rq_remove_thread_spec st t Hinv) as (st1 & c & -> & Hinv1 & Hrem & _); [done|].
    cbn [mbind option_bind]. exists st1. pose proof (removed_grow _ _ _ _ Hrem) as Hgrow.
    destruct Hrem as [_ Ht Hkept Henv]. rewrite Ht. done.
  - exists st. split_and!; try done; [by apply mins_grow_refl|]. intros Hon. rewrite Hon in E. cbn [andb] in E. bool_facts. done.
Qed.

(** Enqueueing keeps the invariant, and a runnable thread that no core holds ends up in the
    queue of an online core its mask allows, unless that queue is full. *)
Lemma rq_enqueue_cpu_spec st t cpu_id :
  rq_inv st -> 0 <= cpu_id < MAX_CORES ->
  exists st', rq_enqueue_cpu st (Some t) cpu_id = Some st' /\ rq_inv st' /\ same_env st st' /\
    mins_grow st st' /\
    (forall u, u <> t -> kept (threads st) (threads st') u) /\
    (rq_runnable (threads st) (Some t) = true -> thread_is_owned st (Some t) = Some false ->
     (exists e, eligible st (Some t) e = true) ->
     exists c rq k, runqueues st' !! c = Some rq /\ allowed_on st (Some t) (Z.of_nat c) = true /\
       cores_local st !! c = Some k /\ online k = true /\
       (t ∈ rq_threads rq \/ capacity rq <= zlen (rq_threads rq))).
Proof.
  intros Hinv Hc. unfold rq_enqueue_cpu. rewrite (proj2 (Z.leb_gt _ _)) by lia.
  destruct (rq_target_spec st t cpu_id Hinv Hc) as (r & -> & Hr). cbn [mbind option_bind].
  destruct r as [cz|].
  2: { exists st. split_and!; try done; [by apply mins_grow_refl|]. intros _ _ [e He]. by rewrite Hr in He. }
  destruct Hr as (Hcz & Hal & k & Hk & Hkon).
  destruct (rq_runnable (threads st) (Some t)) eqn:Hrun; cbn [negb];
    [|exists st; split_and!; try done; by apply mins_grow_refl].
  destruct (rq_leave_other st t cz Hinv) as (st1 & -> & Hinv1 & Henv1 & Hgrow1 & Hkept1 & Hrc & Hst & Hlast).
  cbn [mbind option_bind].
  destruct (thread_is_owned_total st t Hinv) as [own Hown].
  assert (thread_is_owned st1 (Some t) = Some own) as Hown1.
  { rewrite <- Hown. apply thread_is_owned_frame; [apply Henv1|done]. }
  assert (is_state (threads st1 t) THREAD_RUNNING = false) as Hnr.
  { unfold rq_runnable, is_state in *. rewrite Hst. apply bool_decide_eq_false_2. intros Heq.
    rewrite Heq in Hrun. done. }
  assert (Hlocked : forall st2, rq_inv st2 -> same_env st1 st2 -> runqueues st2 = runqueues st1 ->
    (forall u, u <> t -> kept (threads st1) (threads st2) u) ->
    on_rq (threads st2 t) = on_rq (threads st1 t) -> last_cpu (threads st2 t) = last_cpu (threads st1 t) ->
    exists st', rq_enqueue_locked st2 t cz = Some st' /\ rq_inv st' /\ same_env st st' /\ mins_grow st st' /\
      (forall u, u <> t -> kept (threads st) (threads st') u) /\
      exists c rq k, runqueues st' !! c = Some rq /\ allowed_on st (Some t) (Z.of_nat c) = true /\
        cores_local st !! c = Some k /\ online k = true /\
        (t ∈ rq_threads rq \/ capacity rq <= zlen (rq_threads rq))).
  { intros st2 Hinv2 Henv2 Hrqs2 Hkept2 Hon2 Hl2. apply mload_Some in Hk as [_ Hk].
    pose proof (inv_rqs _ Hinv2) as Hrqs. assert (cz = Z.of_nat (Z.to_nat cz)) as Hczn by lia.
    destruct (lookup_lt_is_Some_2 (runqueues st2) (Z.to_nat cz)) as [rq Hrq];
      [unfold zlen in Hrqs; lia|].
    destruct (rq_enqueue_locked_member st2 t (Z.to_nat cz) rq Hinv2 Hrq)
      as (st3 & rq3 & Hr3 & Hinv3 & Henv3 & Hgrow3 & Hkept3 & Hrq3 & Hmem).
    { intros Ho. rewrite Hl2, <- Hczn. apply Hlast. congruence. }
    exists st3. rewrite <- Hczn in Hr3. split_and!; try done.
    - eapply same_env_trans; [|done]. by eapply same_env_trans.
    - eapply mins_grow_trans; [done|]. by eapply mins_grow_trans; [apply mins_grow_refl|].
    - intros u Hu. eapply kept_trans; [by apply Hkept1|]. eapply kept_trans; [by apply Hkept2|].
      by apply Hkept3.
    - exists (Z.to_nat cz), rq3, k. by rewrite <- Hczn. }
  case_test.
  - rewrite Hown1. cbn [mbind option_bind]. rewrite Hnr, orb_false_r. destruct own.
    + exists st1. split_and!; try done. intros _ Hf. congruence.
    + destruct (Hlocked (upd_thread t (set_running_cpu (-1)) st1)) as (st3 & ? & ? & ? & ? & ? & ?); try done.
      * apply inv_touch; auto.
      * intros u Hu. unfold kept. cbn. by rewrite fn_lookup_insert_ne.
      * cbn. by rewrite fn_lookup_insert.
      * cbn. by rewrite fn_lookup_insert.
      * exists st3. auto 10.
  - destruct (Hlocked st1) as (st3 & ? & ? & ? & ? & ? & ?); try done. exists st3. auto 10.
Qed.

(** ** Scans *)

(** [best] at index [bi] is a choice among the threads of [l] that pass [ok]: no other one
    beats it. *)
Definition chosen (ok : tid -> bool) (beats : tid -> tid -> bool) (l : list tid) (best : ptr tid) (bi : Z)
  : Prop :=
  match best with
  | None => forall u, u ∈ l -> ok u = false
  | Some b => exists j, bi = Z.of_nat j /\ l !! j = Some b /\ ok b = true /\
      forall u, u ∈ l -> ok u = true -> beats u b = false
  end.

Lemma chosen_step ok beats `{!HeapOrder beats} l best bi t :
  chosen ok beats l best bi ->
  if ok t && match best with Some b => beats t b | None => true end
  then chosen ok beats (l ++ [t]) (Some t) (zlen l) else chosen ok beats (l ++ [t]) best bi.
Proof.
  intros Hch. assert (Hin : forall u, u ∈ l ++ [t] -> u ∈ l \/ u = t).
  { intros u [?|?%list_elem_of_singleton]%elem_of_app; auto. }
  destruct (ok t) eqn:Hok; cbn [andb].
  2: { destruct best as [b|]; cbn in *.
       - destruct Hch as (j & -> & Hj & Hb & Hall). exists j. split_and!; try done.
         + by apply lookup_app_l_Some.
         + intros u [Hu| ->]%Hin Hu'; [auto|congruence].
       - intros u [Hu| ->]%Hin; auto. }
  assert ((l ++ [t]) !! length l = Some t) as Hlast by by rewrite list_lookup_middle.
  destruct best as [b|]; cbn in *; [destruct (beats t b) eqn:Hbt|].
  - destruct Hch as (j & -> & Hj & Hb & Hall). exists (length l). split_and!; try done.
    intros u [Hu| ->]%Hin Hu'; [|apply less_irrefl].
    apply (nless_trans u b t); [auto|]. by apply less_asym.
  - destruct Hch as (j & -> & Hj & Hb & Hall). exists j. split_and!; try done.
    + by apply lookup_app_l_Some.
    + intros u [Hu| ->]%Hin Hu'; auto.
  - exists (length l). split_and!; try done.
    intros u [Hu| ->]%Hin Hu'; [|apply less_irrefl]. rewrite Hch in Hu'; done.
Qed.

Lemma best_loop_spec st cpu_id live rest n (k : nat) best bi :
  rq_inv st -> (k + n = length live)%nat ->
  chosen (fun u => allowed_on st (Some u) cpu_id) (tless (threads st)) (take k live) best bi ->
  exists b j, best_loop n st cpu_id ((Some <$> live) ++ rest) (Z.of_nat k) best bi = Some (b, j) /\
    chosen (fun u => allowed_on st (Some u) cpu_id) (tless (threads st)) live b j.
Proof.
  intros Hinv. revert k best bi. induction n as [|n IH]; intros k best bi Hk Hch.
  - rewrite firstn_all2 in Hch by lia. eexists _, _. split; [reflexivity | exact Hch].
  - destruct (lookup_lt_is_Some_2 live k ltac:(lia)) as [t Ht]. cbn [best_loop].
    rewrite (cell_live live rest k t) by done. cbn [mbind option_bind].
    rewrite allowed_total by done. cbn [mbind option_bind].
    replace (Z.of_nat k + 1) with (Z.of_nat (S k)) by lia.
    pose proof (chosen_step _ (tless (threads st)) _ _ _ t Hch) as Hstep.
    rewrite <- (take_S_r live k t Ht) in Hstep.
    replace (zlen (take k live)) with (Z.of_nat k) in Hstep by (unfold zlen; rewrite length_take; lia).
    replace (bool_decide (best = None) || rq_less (threads st) (Some t) best)
      with (match best with Some b => tless (threads st) t b | None => true end) by by destruct best.
    destruct (_ && _); apply IH; done || lia.
Qed.

Lemma rq_worse_lex (ts : thread_store) a b :
  rq_worse_than ts a (Some b) = true <->
  vruntime_ns (ts b) < vruntime_ns (ts a) \/
  vruntime_ns (ts a) = vruntime_ns (ts b) /\ pid (ts b) < pid (ts a).
Proof. cbn. repeat case_test; rewrite Z.ltb_lt; lia. Qed.

#[local] Instance worse_order ts : HeapOrder (fun a b => rq_worse_than ts a (Some b)).
Proof.
  split; intros *; rewrite <- ?not_true_iff_false; rewrite ?rq_worse_lex; lia.
Qed.

Lemma worst_loop_spec ts okf ok live rest n (k : nat) worst wi :
  (forall t, okf (Some t) = Some (ok t)) -> (k + n = length live)%nat ->
  chosen ok (fun a b => rq_worse_than ts a (Some b)) (take k live) worst wi ->
  exists w j, worst_loop n ts okf ((Some <$> live) ++ rest) (Z.of_nat k) worst wi = Some (w, j) /\
    chosen ok (fun a b => rq_worse_than ts a (Some b)) live w j.
Proof.
  intros Hokf. revert k worst wi. induction n as [|n IH]; intros k worst wi Hk Hch.
  - rewrite firstn_all2 in Hch by lia. eexists _, _. split; [reflexivity | exact Hch].
  - destruct (lookup_lt_is_Some_2 live k ltac:(lia)) as [t Ht]. cbn [worst_loop].
    rewrite (cell_live live rest k t) by done. cbn [mbind option_bind].
    rewrite Hokf. cbn [mbind option_bind].
    replace (Z.of_nat k + 1) with (Z.of_nat (S k)) by lia.
    pose proof (chosen_step _ _ _ _ _ t Hch) as Hstep.
    rewrite <- (take_S_r live k t Ht) in Hstep.
    replace (zlen (take k live)) with (Z.of_nat k) in Hstep by (unfold zlen; rewrite length_take; lia).
    replace (rq_worse_than ts t worst)
      with (match worst with Some b => rq_worse_than ts t (Some b) | None => true end) by by destruct worst.
    destruct (_ && _); apply IH; done || lia.
Qed.

(** ** Pop, peek and take *)

Lemma rq_root_allowed_spec st c rq cpu_id :
  rq_inv st -> runqueues st !! c = Some rq ->
  rq_root_allowed st cpu_id rq =
    Some (match rq_threads rq with
          | r :: _ => if allowed_on st (Some r) cpu_id then Some r else None
          | [] => None
          end).
Proof.
  intros Hinv Hrq. unfold rq_root_allowed. destruct (inv_ok _ Hinv c rq Hrq) as [Hh Hn _ _ _ _].
  rewrite Hn. destruct (rq_threads rq) as [|r l] eqn:Hl; [done|].
  rewrite (proj2 (Z.eqb_neq _ _)) by (unfold zlen; cbn; lia). cbn [negb]. rewrite Hh.
  cbn [mbind option_bind]. rewrite (cell_live (r :: l) _ 0 r) by done. cbn [mbind option_bind].
  rewrite allowed_total by done. done.
Qed.

(** The scan of a whole queue. *)
Lemma best_scan st c rq cpu_id :
  rq_inv st -> runqueues st !! c = Some rq ->
  exists b j,
    (if nr_running rq =? 0 then Some (None, UINT32_MAX)
     else h ← heap rq; best_loop (Z.to_nat (nr_running rq)) st cpu_id h 0 None UINT32_MAX) = Some (b, j) /\
    chosen (fun u => allowed_on st (Some u) cpu_id) (tless (threads st)) (rq_threads rq) b j.
Proof.
  intros Hinv Hrq. destruct (inv_ok _ Hinv c rq Hrq) as [Hh Hn _ _ _ _]. rewrite Hn, Hh.
  unfold zlen. case_test.
  - exists None, UINT32_MAX. split; [done|]. destruct (rq_threads rq); [|done].
    by intros u ?%elem_of_nil.
  - cbn [mbind option_bind]. rewrite Nat2Z.id. apply (best_loop_spec st cpu_id _ _ _ 0); try done.
    by intros u ?%elem_of_nil.
Qed.

Lemma worst_scan st c rq okf ok :
  rq_inv st -> runqueues st !! c = Some rq -> (forall t, okf (Some t) = Some (ok t)) ->
  exists w j,
    (if nr_running rq =? 0 then Some (None, UINT32_MAX)
     else h ← heap rq; worst_loop (Z.to_nat (nr_running rq)) (threads st) okf h 0 None UINT32_MAX)
    = Some (w, j) /\
    chosen ok (fun a b => rq_worse_than (threads st) a (Some b)) (rq_threads rq) w j.
Proof.
  intros Hinv Hrq Hok. destruct (inv_ok _ Hinv c rq Hrq) as [Hh Hn _ _ _ _]. rewrite Hn, Hh.
  unfold zlen. case_test.
  - exists None, UINT32_MAX. split; [done|]. destruct (rq_threads rq); [|done].
    by intros u ?%elem_of_nil.
  - cbn [mbind option_bind]. rewrite Nat2Z.id.
    apply (worst_loop_spec (threads st) okf ok _ _ _ 0); try done. by intros u ?%elem_of_nil.
Qed.

(** The index a scan answers is never the sentinel. *)
Lemma chosen_index st c rq ok beats b j :
  rq_inv st -> runqueues st !! c = Some rq -> chosen ok beats (rq_threads rq) (Some b) j ->
  exists i, j = Z.of_nat i /\ rq_threads rq !! i = Some b /\ (j =? UINT32_MAX) = false.
Proof.
  intros Hinv Hrq (i & -> & Hi & _). exists i. split_and!; try done. apply Z.eqb_neq.
  destruct (inv_ok _ Hinv c rq Hrq) as [_ _ Hf _ _ _]. apply lookup_lt_Some in Hi.
  unfold SCHED_RQ_CAPACITY, UINT32_MAX, zlen in *. lia.
Qed.

(** What popping means: [r] is an allowed thread of the queue that no allowed thread beats,
    and it has left the queue; or no thread of the queue may run on the core. *)
Definition popped st st' c (ok : tid -> bool) (beats : tid -> tid -> bool) (r : ptr tid) : Prop :=
  exists rq, runqueues st !! c = Some rq /\
    match r with
    | Some t => t ∈ rq_threads rq /\ ok t = true /\
        (forall u, u ∈ rq_threads rq -> ok u = true -> beats u t = false) /\ removed st st' c t
    | None => (forall u, u ∈ rq_threads rq -> ok u = false) /\ st' = st
    end.

(** The second half of pop: take out what the scan found. *)
Lemma pop_scanned st c rq ok beats b j :
  rq_inv st -> runqueues st !! c = Some rq -> chosen ok beats (rq_threads rq) b j ->
  exists st',
    match b with
    | Some b =>
        if negb (j =? UINT32_MAX) then
          '(_, st) ← on_queue st (Z.of_nat c) (fun ts rq => rq_remove_index ts rq j);
          Some (Some b, st)
        else Some (None, st)
    | None => Some (None, st)
    end = Some (b, st') /\ rq_inv st' /\ popped st st' c ok beats b.
Proof.
  intros Hinv Hrq Hch. destruct b as [b|]; [|exists st; split_and!; try done; by exists rq].
  destruct (chosen_index st c rq _ _ b j Hinv Hrq Hch) as (i & -> & Hi & ->). cbn [negb].
  destruct (inv_remove st c rq i b Hinv Hrq Hi) as (st' & -> & Hinv' & Hrem).
  cbn [mbind option_bind]. exists st'. split_and!; try done. exists rq.
  destruct Hch as (_ & _ & _ & Hok & Hall). split_and!; try done. apply list_elem_of_lookup. eauto.
Qed.

Lemma pop_spec st c :
  rq_inv st -> (c < 64)%nat ->
  exists r st', rq_pop_best_allowed st (Z.of_nat c) = Some (r, st') /\ rq_inv st' /\
    rq_peek_best st (Z.of_nat c) = Some r /\
    popped st st' c (fun u => allowed_on st (Some u) (Z.of_nat c)) (tless (threads st)) r.
Proof.
  intros Hinv Hc. unfold rq_pop_best_allowed, rq_peek_best, MAX_CORES. test_lia.
  pose proof (inv_rqs _ Hinv) as Hrqs. unfold MAX_CORES, zlen in Hrqs.
  destruct (lookup_lt_is_Some_2 (runqueues st) c ltac:(lia)) as [rq Hrq].
  rewrite (mload_nat _ c rq) by done. cbn [mbind option_bind].
  rewrite (rq_root_allowed_spec st c rq) by done. cbn [mbind option_bind].
  destruct (best_scan st c rq (Z.of_nat c) Hinv Hrq) as (b & j & Hscan & Hch).
  destruct (pop_scanned st c rq _ _ b j Hinv Hrq Hch) as (st1 & Hpop & Hinv1 & Hp1).
  assert (Hpeek : (if nr_running rq =? 0 then Some None
                   else h ← heap rq;
                        '(best, _) ← best_loop (Z.to_nat (nr_running rq)) st (Z.of_nat c) h 0 None UINT32_MAX;
                        Some best) = Some b).
  { destruct (nr_running rq =? 0); [by simplify_eq|]. destruct (heap rq) as [h|]; [|done].
    cbn [mbind option_bind] in *. by rewrite Hscan. }
  destruct (rq_threads rq) as [|r l] eqn:Hl;
    [|destruct (allowed_on st (Some r) (Z.of_nat c)) eqn:Hal].
  - rewrite Hscan. cbn [mbind option_bind]. exists b, st1. by split_and!.
  - assert (rq_threads rq !! 0%nat = Some r) as H0 by by rewrite Hl.
    destruct (inv_remove st c rq 0 r Hinv Hrq H0) as (st' & Hr & Hinv' & Hrem).
    change (Z.of_nat 0) with 0 in Hr. rewrite Hr. cbn [mbind option_bind].
    exists (Some r), st'. split_and!; try done. exists rq. rewrite Hl. split_and!; try done; [by left|].
    intros u Hu _. eapply (heap_root_min (tless (threads st))); [|done|by rewrite Hl].
    apply (ok_order _ _ _ (inv_ok _ Hinv c rq Hrq)).
  - rewrite Hscan. cbn [mbind option_bind]. exists b, st1. by split_and!.
Qed.

Lemma take_spec st c okf ok :
  rq_inv st -> (c < 64)%nat -> (forall t, okf (Some t) = Some (ok t)) ->
  exists r st', rq_take st (Z.of_nat c) okf = Some (r, st') /\ rq_inv st' /\
    popped st st' c ok (fun a b => rq_worse_than (threads st) a (Some b)) r.
Proof.
  intros Hinv Hc Hok. unfold rq_take. pose proof (inv_rqs _ Hinv) as Hrqs. unfold MAX_CORES, zlen in Hrqs.
  destruct (lookup_lt_is_Some_2 (runqueues st) c ltac:(lia)) as [rq Hrq].
  rewrite (mload_nat _ c rq) by done. cbn [mbind option_bind].
  destruct (worst_scan st c rq okf ok Hinv Hrq Hok) as (w & j & -> & Hch). cbn [mbind option_bind].
  destruct (pop_scanned st c rq _ _ w j Hinv Hrq Hch) as (st' & Hpop & ? & ?). eauto.
Qed.

(** ** Histories *)

Definition op_total st : Prop :=
  (forall p cpu, 0 <= cpu -> is_Some (rq_enqueue_cpu st p cpu)) /\
  (forall cpu, 0 <= cpu -> is_Some (rq_pop_best_allowed st cpu)) /\
  (forall s d, 0 <= s -> is_Some (rq_take_worst st s d) /\ is_Some (rq_take_unfit st s d)) /\
  (forall p, is_Some (rq_remove_thread st p)).

(** The steps of a history: the queue operations, and changes of a thread made elsewhere, which
    leave the queue fields alone and do not touch the keys of a queued thread. *)
Inductive rq_step st : sched_state_t -> Prop :=
  | step_enqueue p cpu st' : 0 <= cpu -> rq_enqueue_cpu st p cpu = Some st' -> rq_step st st'
  | step_remove p r st' : rq_remove_thread st p = Some (r, st') -> rq_step st st'
  | step_pop cpu r st' : 0 <= cpu -> rq_pop_best_allowed st cpu = Some (r, st') -> rq_step st st'
  | step_worst s d r st' : 0 <= s -> rq_take_worst st s d = Some (r, st') -> rq_step st st'
  | step_unfit s d r st' : 0 <= s -> rq_take_unfit st s d = Some (r, st') -> rq_step st st'
  | step_thread t f :
      (forall th, on_rq (f th) = on_rq th /\ in_run_queue (f th) = in_run_queue th /\
                  rq_index (f th) = rq_index th /\ last_cpu (f th) = last_cpu th) ->
      (on_rq (threads st t) = false \/ forall th, qkey (f th) = qkey th) ->
      rq_step st (upd_thread t f st).

Lemma popped_grow st st' c ok beats r : popped st st' c ok beats r -> mins_grow st st'.
Proof.
  intros (rq & _ & Hr). destruct r; [by eapply removed_grow; apply Hr|].
  destruct Hr as [_ ->]. by apply mins_grow_refl.
Qed.

Lemma pop_any st cpu :
  rq_inv st -> 0 <= cpu -> exists r st', rq_pop_best_allowed st cpu = Some (r, st') /\
    rq_inv st' /\ mins_grow st st'.
Proof.
  intros Hinv Hc. destruct (Z.leb_spec MAX_CORES cpu) as [Hge|Hlt].
  - exists None, st. unfold rq_pop_best_allowed. rewrite (proj2 (Z.leb_le _ _)) by done.
    split_and!; try done. by apply mins_grow_refl.
  - unfold MAX_CORES in Hlt. rewrite <- (Z2Nat.id cpu) by done.
    destruct (pop_spec st (Z.to_nat cpu) Hinv ltac:(lia)) as (r & st' & ? & ? & _ & ?%popped_grow). eauto.
Qed.

(** The test of [rq_take_worst] and [rq_take_unfit] on a queued thread. *)
Definition can_move st (d : Z) (t : tid) : bool :=
  rq_runnable (threads st) (Some t) && allowed_on st (Some t) d.
Definition must_move st (d : Z) (t : tid) : bool :=
  rq_runnable (threads st) (Some t) && negb (allowed_on st (Some t) d).

Lemma take_worst_spec st c d :
  rq_inv st -> (c < 64)%nat -> d < MAX_CORES ->
  exists r st', rq_take_worst st (Z.of_nat c) d = Some (r, st') /\ rq_inv st' /\
    popped st st' c (can_move st d) (fun a b => rq_worse_than (threads st) a (Some b)) r.
Proof.
  intros Hinv Hc Hd. unfold rq_take_worst, MAX_CORES in *. test_lia.
  apply take_spec; [done..|]. intros t. unfold can_move.
  destruct (rq_runnable (threads st) (Some t)); [|done]. by rewrite allowed_total.
Qed.

Lemma take_unfit_spec st c d :
  rq_inv st -> (c < 64)%nat -> d < MAX_CORES ->
  exists r st', rq_take_unfit st (Z.of_nat c) d = Some (r, st') /\ rq_inv st' /\
    popped st st' c (must_move st d) (fun a b => rq_worse_than (threads st) a (Some b)) r.
Proof.
  intros Hinv Hc Hd. unfold rq_take_unfit, MAX_CORES in *. test_lia.
  apply take_spec; [done..|]. intros t. unfold must_move.
  destruct (rq_runnable (threads st) (Some t)); [|done]. by rewrite allowed_total.
Qed.

Lemma take_any st s d :
  rq_inv st -> 0 <= s ->
  (exists r st', rq_take_worst st s d = Some (r, st') /\ rq_inv st' /\ mins_grow st st') /\
  (exists r st', rq_take_unfit st s d = Some (r, st') /\ rq_inv st' /\ mins_grow st st').
Proof.
  intros Hinv Hs.
  destruct ((MAX_CORES <=? s) || (MAX_CORES <=? d)) eqn:E.
  - unfold rq_take_worst, rq_take_unfit. rewrite E.
    split; exists None, st; split_and!; try done; by apply mins_grow_refl.
  - apply orb_false_iff in E as [Hs' Hd]. bool_facts. unfold MAX_CORES in Hs'.
    rewrite <- (Z2Nat.id s) by done. split.
    + destruct (take_worst_spec st (Z.to_nat s) d Hinv ltac:(lia) Hd) as (r & st' & ? & ? & ?%popped_grow).
      eauto.
    + destruct (take_unfit_spec st (Z.to_nat s) d Hinv ltac:(lia) Hd) as (r & st' & ? & ? & ?%popped_grow).
      eauto.
Qed.

Lemma enqueue_any st p cpu :
  rq_inv st -> 0 <= cpu -> exists st', rq_enqueue_cpu st p cpu = Some st' /\ rq_inv st' /\ mins_grow st st'.
Proof.
  intros Hinv Hc. destruct p as [t|]; [|exists st; split_and!; try done; by apply mins_grow_refl].
  destruct (Z.leb_spec MAX_CORES cpu) as [Hge|Hlt].
  - exists st. unfold rq_enqueue_cpu. rewrite (proj2 (Z.leb_le _ _)) by done.
    split_and!; try done. by apply mins_grow_refl.
  - destruct (rq_enqueue_cpu_spec st t cpu Hinv ltac:(lia)) as (st' & ? & ? & _ & ? & _). eauto.
Qed.

Lemma remove_any st p :
  rq_inv st -> exists r st', rq_remove_thread st p = Some (r, st') /\ rq_inv st' /\ mins_grow st st'.
Proof.
  intros Hinv. destruct p as [t|]; [|exists false, st; split_and!; try done; by apply mins_grow_refl].
  destruct (on_rq (threads st t)) eqn:Hon.
  - destruct (rq_remove_thread_spec st t Hinv Hon) as (st' & c & ? & ? & ?%removed_grow & _). eauto.
  - unfold rq_remove_thread. rewrite Hon. exists false, st. split_and!; try done.
    by apply mins_grow_refl.
Qed.

Lemma inv_total st : rq_inv st -> op_total st.
Proof.
  intros Hinv. split_and!.
  - intros p cpu Hc. destruct (enqueue_any st p cpu Hinv Hc) as (? & -> & _). done.
  - intros cpu Hc. destruct (pop_any st cpu Hinv Hc) as (? & ? & -> & _). done.
  - intros s d Hs. destruct (take_any st s d Hinv Hs) as [(? & ? & -> & _) (? & ? & -> & _)]. done.
  - intros p. destruct (remove_any st p Hinv) as (? & ? & -> & _). done.
Qed.

Lemma rq_step_inv st st' : rq_inv st -> rq_step st st' -> rq_inv st' /\ mins_grow st st'.
Proof.
  intros Hinv Hstep. inversion Hstep as [p cpu ? Hc Hr|p r ? Hr|cpu r ? Hc Hr|s d r ? Hs Hr|s d r ? Hs Hr|t f Hf Hk]; subst.
  - destruct (enqueue_any st p cpu Hinv Hc) as (st1 & ? & ?). by simplify_eq.
  - destruct (remove_any st p Hinv) as (r1 & st1 & ? & ?). by simplify_eq.
  - destruct (pop_any st cpu Hinv Hc) as (r1 & st1 & ? & ?). by simplify_eq.
  - destruct (take_any st s d Hinv Hs) as [(r1 & st1 & ? & ?) _]. by simplify_eq.
  - destruct (take_any st s d Hinv Hs) as [_ (r1 & st1 & ? & ?)]. by simplify_eq.
  - split; [by apply inv_touch | by apply mins_grow_refl].
Qed.

Lemma rq_steps_inv st st' : rq_inv st -> rtc rq_step st st' -> rq_inv st' /\ mins_grow st st'.
Proof.
  intros Hinv Hsteps. induction Hsteps as [st|st st1 st2 Hs _ IH].
  - split; [done|]. by apply mins_grow_refl.
  - destruct (rq_step_inv _ _ Hinv Hs) as [Hinv1 Hg]. destruct (IH Hinv1) as [Hinv2 Hg2].
    split; [done|]. by eapply mins_grow_trans.
Qed.

(** ** Boot *)

(** The queue [scheduler_init] sets up; its array comes zeroed from [calloc]. *)
Definition rq_boot : sched_rq_t :=
  mk_rq (Some (replicate (Z.to_nat SCHED_RQ_CAPACITY) None)) SCHED_RQ_CAPACITY 0 0.

(** The state [scheduler_init] leaves: empty queues, no thread queued. *)
Record rq_fresh st : Prop := {
  fresh_rqs : runqueues st = replicate (Z.to_nat MAX_CORES) rq_boot;
  fresh_cpus : zlen (cpus st) = MAX_CORES;
  fresh_cores : zlen (cores_local st) = MAX_CORES;
  fresh_count : 0 < core_count st;
  fresh_threads : forall t, on_rq (threads st t) = false /\ in_run_queue (threads st t) = false /\
    rq_index (threads st t) = UINT32_MAX
}.

Lemma rq_boot_ok ts : rq_ok ts rq_boot [].
Proof.
  split; [change (length (A := tid) []) with 0%nat; by rewrite Nat.sub_0_r|done..| |].
  - intros c _ a b Ha. by rewrite lookup_nil in Ha.
  - by intros t ?%elem_of_nil.
Qed.

Lemma fresh_inv st : rq_fresh st -> rq_inv st.
Proof.
  intros [Hrqs Hcpus Hcores Hcount Hth].
  assert (Hq : forall c rq, runqueues st !! c = Some rq -> rq = rq_boot).
  { intros c rq. rewrite Hrqs. by intros [-> _]%lookup_replicate. }
  pose proof (rq_threads_ok (threads st) rq_boot [] (rq_boot_ok _)) as Hnil.
  split; try done.
  - rewrite Hrqs. unfold zlen. by rewrite length_replicate.
  - intros c rq ->%Hq. rewrite Hnil. apply rq_boot_ok.
  - intros c rq t ->%Hq. rewrite Hnil. by intros ?%elem_of_nil.
  - intros t Ht. destruct (Hth t). congruence.
  - intros t _. by destruct (Hth t) as (_ & ? & ?).
Qed.
End WorldSpec.

(** ** The theorems *)

Section Claims.
Context `{Arch}.

(** C9: In every history after boot, the run queues and the fields of the threads agree.  No
    operation reaches a null or out-of-bounds access; each queue is a heap ordered by virtual
    runtime without duplicates; a thread in the queue of a core stores its position, that core
    and the flag [on_rq], so it is in no other queue; and a thread whose flag is set is in a
    queue. *)
Theorem run_queues_consistent st st' :
  rq_fresh st -> rtc rq_step st st' ->
  op_total st' /\
  (forall c rq, runqueues st' !! c = Some rq ->
     NoDup (rq_threads rq) /\ heap_ok (tless (threads st')) (rq_threads rq) /\
     nr_running rq = zlen (rq_threads rq) /\
     forall i t, rq_threads rq !! i = Some t ->
       rq_index (threads st' t) = Z.of_nat i /\ last_cpu (threads st' t) = Z.of_nat c /\
       on_rq (threads st' t) = true) /\
  (forall t, on_rq (threads st' t) = true ->
     exists c rq, runqueues st' !! c = Some rq /\ t ∈ rq_threads rq).
Proof.
  intros Hfresh Hsteps.
  destruct (rq_steps_inv st st' (fresh_inv _ Hfresh) Hsteps) as [Hinv _].
  split_and!; [by apply inv_total| |by apply inv_on].
  intros c rq Hrq. destruct (inv_ok _ Hinv c rq Hrq) as [_ Hn _ Hix Hok _].
  split_and!; [by eapply indexed_NoDup|done..|]. intros i t Hi.
  assert (t ∈ rq_threads rq) as Hin by (apply list_elem_of_lookup; eauto).
  destruct (inv_in _ Hinv c rq t Hrq Hin) as (? & _ & ?). split_and!; try done. by apply Hix.
Qed.

(** C22: Popping from the queue of core [c] answers the thread with the least virtual runtime
    (ties by accumulated time, then pid) among the queued threads that may run on [c], and takes
    exactly that thread out of the queue; it answers no thread only when none may run there.
    Peeking answers the same thread and changes nothing. *)
Theorem pop_takes_best st c :
  rq_inv st -> (c < 64)%nat ->
  exists rq r st', runqueues st !! c = Some rq /\
    rq_pop_best_allowed st (Z.of_nat c) = Some (r, st') /\ rq_inv st' /\
    rq_peek_best st (Z.of_nat c) = Some r /\
    match r with
    | Some t => t ∈ rq_threads rq /\ allowed_on st (Some t) (Z.of_nat c) = true /\
        (forall u, u ∈ rq_threads rq -> allowed_on st (Some u) (Z.of_nat c) = true ->
           rq_less (threads st) (Some u) (Some t) = false) /\
        (exists rq', runqueues st' = <[c := rq']> (runqueues st) /\ rq_threads rq ≡ₚ t :: rq_threads rq') /\
        on_rq (threads st' t) = false
    | None => (forall u, u ∈ rq_threads rq -> allowed_on st (Some u) (Z.of_nat c) = false) /\ st' = st
    end.
Proof.
  intros Hinv Hc. destruct (pop_spec st c Hinv Hc) as (r & st' & Hr & Hinv' & Hpeek & rq & Hrq & Hp).
  exists rq, r, st'. split_and!; try done. destruct r as [t|]; [|done].
  destruct Hp as (Hin & Hal & Hbest & Hrem). split_and!; try done.
  - destruct Hrem as [(rq0 & rq' & ? & ? & ? & _) _ _ _]. simplify_eq. eauto.
  - by rewrite (rem_thread _ _ _ _ Hrem).
Qed.

(** Enqueueing a runnable thread that no core owns puts it in the queue of an online core
    its affinity mask allows, whenever such a core exists and that core's queue has room; all
    other threads keep every field but their position. *)
Theorem enqueue_reaches_queue st t cpu_id :
  rq_inv st -> 0 <= cpu_id < MAX_CORES ->
  rq_runnable (threads st) (Some t) = true -> thread_is_owned st (Some t) = Some false ->
  (exists e, eligible st (Some t) e = true) ->
  exists st' c rq k, rq_enqueue_cpu st (Some t) cpu_id = Some st' /\ rq_inv st' /\
    (forall u, u <> t -> kept (threads st) (threads st') u) /\
    runqueues st' !! c = Some rq /\ allowed_on st (Some t) (Z.of_nat c) = true /\
    cores_local st !! c = Some k /\ online k = true /\
    (t ∈ rq_threads rq \/ capacity rq <= zlen (rq_threads rq)).
Proof.
  intros Hinv Hc Hrun Hown Hel.
  destruct (rq_enqueue_cpu_spec st t cpu_id Hinv Hc) as (st' & Hr & Hinv' & _ & _ & Hk & Hput).
  destruct (Hput Hrun Hown Hel) as (c & rq & k & ? & ? & ? & ? & ?). exists st', c, rq, k. done.
Qed.

(** Work stealing takes from a queue the runnable thread allowed on the target core that
    has the greatest virtual runtime (the one furthest from running), and rescue takes the
    worst thread that may not run on the core; nothing is taken only when no thread qualifies. *)
Theorem take_picks_worst st c d :
  rq_inv st -> (c < 64)%nat -> d < MAX_CORES ->
  (exists r st', rq_take_worst st (Z.of_nat c) d = Some (r, st') /\ rq_inv st' /\
     popped st st' c (can_move st d) (fun a b => rq_worse_than (threads st) a (Some b)) r) /\
  (exists r st', rq_take_unfit st (Z.of_nat c) d = Some (r, st') /\ rq_inv st' /\
     popped st st' c (must_move st d) (fun a b => rq_worse_than (threads st) a (Some b)) r).
Proof. intros. split; [by apply take_worst_spec | by apply take_unfit_spec]. Qed.

(** The [min_vruntime] of a queue never decreases, and every queued thread is at or past
    it: a thread that slept cannot come back with a virtual runtime behind the queue. *)
Theorem min_vruntime_monotone st st' :
  rq_inv st -> rtc rq_step st st' ->
  Forall2 (fun rq rq' => min_vruntime rq <= min_vruntime rq') (runqueues st) (runqueues st') /\
  forall c rq t, runqueues st' !! c = Some rq -> t ∈ rq_threads rq ->
    min_vruntime rq <= vruntime_ns (threads st' t).
Proof.
  intros Hinv Hsteps. destruct (rq_steps_inv st st' Hinv Hsteps) as [Hinv' Hg].
  split; [done|]. intros c rq t Hrq Hin. by apply (ok_min _ _ _ (inv_ok _ Hinv' c rq Hrq)).
Qed.
End Claims.

(** ** A concrete machine: two cores, every thread ready *)

#[local] Existing Instance arch64.

Definition demo_thread (t : tid) : sched_thread_t :=
  mk_thread t THREAD_READY 0 0 0 (100 * t) 0 false false UINT32_MAX false 1 0 false 0 (-1).

Definition demo : sched_state_t :=
  mk_state true demo_thread (replicate (Z.to_nat MAX_CORES) rq_boot) 0
    (replicate (Z.to_nat MAX_CORES) (mk_cpu None None None 0 0 0 false false false))
    (mk_core true true :: mk_core true true :: replicate 62 (mk_core false false)) 2 0 0 0 0 0.

Lemma demo_fresh : rq_fresh demo.
Proof. split; try done. Qed.

(** The machine after thread 5 was enqueued on core 0. *)
Definition demo1 : sched_state_t := default demo (rq_enqueue_cpu demo (Some 5) 0).

Lemma demo1_step : rq_step demo demo1.
Proof.
  destruct (enqueue_any demo (Some 5) 0 (fresh_inv _ demo_fresh)) as (st & Hr & _); [lia|].
  apply (step_enqueue demo (Some 5) 0); [lia|]. unfold demo1. by rewrite Hr.
Qed.

Lemma demo1_inv : rq_inv demo1.
Proof. by apply (rq_step_inv demo), demo1_step; apply fresh_inv, demo_fresh. Qed.

Lemma run_queues_consistent_witness :
  rq_fresh demo /\ rtc rq_step demo demo1 /\ op_total demo1.
Proof.
  assert (rtc rq_step demo demo1) as Hs by (apply rtc_once, demo1_step).
  split_and!; [apply demo_fresh|done|]. apply (run_queues_consistent demo demo1 demo_fresh Hs).
Defined.

Lemma pop_takes_best_witness :
  rq_inv demo1 /\ fst <$> rq_pop_best_allowed demo1 (Z.of_nat 0) = Some (Some 5) /\
  exists r st', rq_pop_best_allowed demo1 (Z.of_nat 0) = Some (r, st') /\ rq_inv st'.
Proof.
  split_and!; [apply demo1_inv|vm_compute; reflexivity|].
  destruct (pop_takes_best demo1 0 demo1_inv) as (rq & r & st' & _ & Hr & Hinv & _); [lia|]. eauto.
Defined.

Lemma enqueue_reaches_queue_witness :
  rq_runnable (threads demo) (Some 5) = true /\ thread_is_owned demo (Some 5) = Some false /\
  eligible demo (Some 5) 1 = true /\
  exists st', rq_enqueue_cpu demo (Some 5) 0 = Some st' /\ rq_inv st'.
Proof.
  split_and!; try done.
  destruct (enqueue_reaches_queue demo 5 0 (fresh_inv _ demo_fresh)) as (st' & _ & _ & _ & Hr & Hinv & _);
    try done. { by exists 1. } eauto.
Defined.

Lemma take_picks_worst_witness :
  rq_inv demo1 /\ fst <$> rq_take_worst demo1 (Z.of_nat 0) 1 = Some (Some 5) /\
  exists r st', rq_take_unfit demo1 (Z.of_nat 0) 1 = Some (r, st') /\ rq_inv st'.
Proof.
  split_and!; [apply demo1_inv|vm_compute; reflexivity|].
  destruct (take_picks_worst demo1 0 1 demo1_inv) as [_ (r & st' & Hr & Hinv & _)]; [lia|done|]. eauto.
Defined.

Lemma min_vruntime_monotone_witness :
  rtc rq_step demo demo1 /\
  Forall2 (fun rq rq' => min_vruntime rq <= min_vruntime rq') (runqueues demo) (runqueues demo1).
Proof.
  assert (rtc rq_step demo demo1) as Hs by (apply rtc_once, demo1_step).
  split; [done|]. apply (min_vruntime_monotone demo demo1 (fresh_inv _ demo_fresh) Hs).
Defined.
End RunQueue.
