(* ===== verification/Dispatch.v ===== *)
(** * Handing threads to cores

    What [kernel/sched/select.c], [create.c] and [internal.h] do when a thread becomes runnable: choose
    a core, put the thread in its queue and tell the core, or leave the thread to the core that still
    holds it.  A core holds the thread it runs and the one it is switching away from; both know it in
    [running_cpu].  The theorems of this file are the lemmas the wait queues and the switch share: a
    thread that a core holds is in no run queue, and no thread is held twice. *)

From S2P Require Import Prelude Memory Outcome BinHeap IntrusiveHeap Sched RunQueue.
From stdpp Require Import functions list.
Import RunQueue.
Open Scope Z_scope.

Module Dispatch.

Definition SCHED_WAKE_LOAD_SLOP : Z := 2.

(** The core that runs the code, whether its interrupts are on, and which cores the interrupt
    controller reaches. *)
Record env := mk_env { me : Z; irqs_on : bool; ipi_ok : Z -> bool }.

Section Defs.
Context `{Arch}.
Implicit Types (st : sched_state_t) (t : tid) (p : ptr tid) (e : env).

(** ** [internal.h] *)

Definition upd_cpu (c : Z) (f : sched_cpu_t -> sched_cpu_t) st : option sched_state_t :=
  k ← mload (cpus st) c; ks ← mstore (cpus st) c (f k); Some (set_cpus ks st).

Definition local e st : option sched_cpu_t := mload (cpus st) (me e).

Definition thread_ctx_ok st t : bool := negb (context (threads st t) =? 0).

Definition thread_unclaim t st : sched_state_t := upd_thread t (set_running_cpu (-1)) st.
Definition thread_set_state t (s : thread_state_t) st : sched_state_t := upd_thread t (set_state s) st.
Definition thread_claim t (cpu_id : Z) st : sched_state_t :=
  thread_set_state t THREAD_RUNNING (upd_thread t (set_running_cpu cpu_id) st).

Definition sched_set_resched_cpu (c : Z) (b : bool) st : option sched_state_t :=
  if MAX_CORES <=? c then Some st else upd_cpu c (set_need_resched b) st.

Definition sched_mark_resched_cpu (c : Z) st : option (bool * sched_state_t) :=
  if MAX_CORES <=? c then Some (false, st)
  else
    k ← mload (cpus st) c;
    st ← upd_cpu c (set_need_resched true) st;
    Some (negb (need_resched k), st).

(** [sched_resched_local] of [tick.c]; the interrupt [arch_resched_self] raises is taken later. *)
Definition sched_resched_local e st : option sched_state_t :=
  if negb (running st) then Some st
  else
    st ← upd_cpu (me e) (set_need_resched true) st;
    k ← local e st;
    if negb (preempt_depth k =? 0) || negb (sched_lock_depth k =? 0) || negb (irqs_on e) then Some st
    else
      let idle := bool_decide (current k = idle_thread k) in
      let runs := match current k with Some t => is_state (threads st t) THREAD_RUNNING | None => false end in
      if runs && negb idle then Some st
      else if resched_irq k then Some st
      else upd_cpu (me e) (set_resched_irq true) st.

(** ** Waking cores: [create.c] *)

Definition wake_cpu e (c : Z) st : option (bool * sched_state_t) :=
  if MAX_CORES <=? c then Some (false, st)
  else
    '(fresh, st) ← sched_mark_resched_cpu c st;
    if negb fresh then Some (false, st)
    else if c =? me e then Some (false, st)
    else
      needs ← cpu_needs_ipi st c;
      if negb needs then Some (false, st)
      else if negb (ipi_ok e c) then Some (false, st)
      else Some (true, st).

(** [if (wake_cpu(c)) wake_ipi++] *)
Definition wake_counted e (c : Z) st : option sched_state_t :=
  '(sent, st) ← wake_cpu e c st;
  Some (if (sent : bool) then set_wake_ipi (u64_wrap (wake_ipi st + 1)) st else st).

(** ** Choosing a core for a woken thread: [create.c] *)

Definition wake_cpu_count st : Z :=
  let ncpu := core_count st in
  let ncpu := if MAX_CORES <? ncpu then MAX_CORES else ncpu in
  let ncpu := if 64 <? ncpu then 64 else ncpu in
  if ncpu =? 0 then 1 else ncpu.

Definition wake_mask st p (online_mask : Z) : Z :=
  let allowed := match p with Some t => allowed_cpu_mask (threads st t) | None => 0 end in
  let allowed := if allowed =? 0 then online_mask else allowed in
  let allowed := Z.land allowed online_mask in
  if allowed =? 0 then (if negb (online_mask =? 0) then online_mask else 1) else allowed.

Definition in_mask (mask cpu : Z) : bool := negb (Z.land mask (Z.shiftl 1 cpu) =? 0).

Fixpoint first_cpu_loop (n : nat) (mask cpu : Z) : Z :=
  match n with
  | O => 0
  | S n => if in_mask mask cpu then cpu else first_cpu_loop n mask (cpu + 1)
  end.
Definition first_cpu_in_mask (mask ncpu : Z) : Z := first_cpu_loop (Z.to_nat ncpu) mask 0.

Fixpoint idle_loop (n : nat) (idle_mask base_cpu ncpu cpu best_cpu best_distance : Z) : Z :=
  match n with
  | O => best_cpu
  | S n =>
      if negb (in_mask idle_mask cpu) then idle_loop n idle_mask base_cpu ncpu (cpu + 1) best_cpu best_distance
      else
        let distance := sched_cpu_distance base_cpu cpu ncpu in
        if (MAX_CORES <=? best_cpu) || (distance <? best_distance) || ((distance =? best_distance) && (cpu <? best_cpu))
        then idle_loop n idle_mask base_cpu ncpu (cpu + 1) cpu distance
        else idle_loop n idle_mask base_cpu ncpu (cpu + 1) best_cpu best_distance
  end.
Definition pick_idle_cpu (idle_mask base_cpu ncpu : Z) : Z :=
  idle_loop (Z.to_nat ncpu) idle_mask base_cpu ncpu 0 MAX_CORES SIZE_MAX.

Fixpoint min_loop (n : nat) (min_mask ncpu start step : Z) : Z :=
  match n with
  | O => 0
  | S n =>
      let cpu := wrap (start + step) mod ncpu in
      if in_mask min_mask cpu then cpu else min_loop n min_mask ncpu start (step + 1)
  end.
Definition pick_min_cpu (min_mask ncpu : Z) st : Z * sched_state_t :=
  let start := wake_rr_cursor st in
  (min_loop (Z.to_nat ncpu) min_mask ncpu start 0, set_wake_rr_cursor (u32_wrap (start + 1)) st).

Definition wake_can_prefer st t (ncpu allowed : Z) : bool :=
  if ncpu <=? last_cpu (threads st t) then false else in_mask allowed (last_cpu (threads st t)).

(** The scan of the cores: the least load, the cores that have it, those without load, and whether
    there is one. *)
Fixpoint load_scan (n : nat) st (allowed cpu min_load : Z) (found : bool) (idle_mask min_mask : Z)
  : option (Z * bool * Z * Z) :=
  match n with
  | O => Some (min_load, found, idle_mask, min_mask)
  | S n =>
      if negb (in_mask allowed cpu) then load_scan n st allowed (cpu + 1) min_load found idle_mask min_mask
      else
        load ← sched_cpu_load st cpu;
        let idle_mask := if load =? 0 then Z.lor idle_mask (Z.shiftl 1 cpu) else idle_mask in
        if negb found || (load <? min_load)
        then load_scan n st allowed (cpu + 1) load true idle_mask (Z.shiftl 1 cpu)
        else if load =? min_load
        then load_scan n st allowed (cpu + 1) min_load found idle_mask (Z.lor min_mask (Z.shiftl 1 cpu))
        else load_scan n st allowed (cpu + 1) min_load found idle_mask min_mask
  end.

Definition pick_target_cpu t st : option (Z * sched_state_t) :=
  let ncpu := wake_cpu_count st in
  online_mask ← sched_online_cpu_mask st;
  let allowed := wake_mask st (Some t) online_mask in
  '(min_load, found, idle_mask, min_mask) ← load_scan (Z.to_nat ncpu) st allowed 0 SIZE_MAX false 0 0;
  if negb found then Some (0, st)
  else
    let preferred_cpu := if wake_can_prefer st t ncpu allowed then last_cpu (threads st t) else MAX_CORES in
    let best_idle :=
      if idle_mask =? 0 then MAX_CORES
      else
        let base_cpu := if (ncpu <=? preferred_cpu) || negb (in_mask allowed preferred_cpu)
                        then first_cpu_in_mask min_mask ncpu else preferred_cpu in
        pick_idle_cpu idle_mask base_cpu ncpu in
    if best_idle <? MAX_CORES then Some (best_idle, st)
    else
      near ← (if preferred_cpu <? ncpu
              then preferred_load ← sched_cpu_load st preferred_cpu;
                   Some (preferred_load <=? wrap (min_load + SCHED_WAKE_LOAD_SLOP))
              else Some false);
      if (near : bool) then Some (preferred_cpu, st)
      else if min_mask =? 0 then Some (0, st)
      else Some (pick_min_cpu min_mask ncpu st).

Definition enqueue_ipi e t (allow_remote_ipi : bool) st : option sched_state_t :=
  k ← local e st;
  if bool_decide (idle_thread k = Some t) then Some st
  else if context (threads st t) =? 0 then Some st
  else if negb (is_state (threads st t) THREAD_READY) then Some st
  else if pid (threads st t) =? 0 then Some st
  else
    '(target_cpu, st) ← pick_target_cpu t st;
    let prev_cpu := last_cpu (threads st t) in
    st ← (if on_rq (threads st t) && negb (prev_cpu =? target_cpu)
          then '(_, st) ← rq_remove_thread st (Some t); Some st else Some st);
    st ← rq_enqueue_cpu st (Some t) target_cpu;
    let st := if negb (prev_cpu =? target_cpu) then set_migrations (u64_wrap (migrations st + 1)) st else st in
    if negb (target_cpu =? me e) then
      '(sent, st) ← (if allow_remote_ipi then wake_cpu e target_cpu st else Some (false, st));
      if (sent : bool) then Some (set_wake_ipi (u64_wrap (wake_ipi st + 1)) st)
      else sched_set_resched_cpu target_cpu true st
    else sched_resched_local e st.

Definition enqueue_thread e t st : option sched_state_t := enqueue_ipi e t true st.

(** ** Threads a core holds: [select.c], [internal.h] *)

Definition sched_nudge_thread e t st : option sched_state_t :=
  let cpu := thread_cpu st (Some t) in
  if (cpu <? 0) || (MAX_CORES <=? cpu) then Some st
  else
    on_cpu ← thread_on_local_cpu st (Some t);
    handoff ← thread_in_handoff st (Some t);
    if negb on_cpu && negb handoff then Some st
    else
      let st := if (on_cpu : bool) && is_state (threads st t) THREAD_SLEEPING then thread_set_state t THREAD_RUNNING st else st in
      if cpu =? me e then sched_resched_local e st else wake_counted e cpu st.

Definition sched_repair_thread e t (send_ipi : bool) st : option (bool * sched_state_t) :=
  if negb (is_state (threads st t) THREAD_RUNNING) then Some (false, st)
  else
    on_cpu ← thread_on_local_cpu st (Some t);
    if (on_cpu : bool) then st ← sched_nudge_thread e t st; Some (true, st)
    else
      handoff ← thread_in_handoff st (Some t);
      if (handoff : bool) then st ← sched_nudge_thread e t st; Some (true, st)
      else
        st ← enqueue_ipi e t send_ipi (thread_set_state t THREAD_READY (thread_unclaim t st));
        Some (true, st).

(** A thread whose registers are saved: what becomes of it depends on what happened to it since it was
    switched away from. *)
Definition publish_state st t : sched_state_t :=
  if is_state (threads st t) THREAD_RUNNING then thread_set_state t THREAD_READY st
  else
    let asleep := is_state (threads st t) THREAD_SLEEPING in
    let detached := negb (in_wait_queue (threads st t)) && negb (sleep_queued (threads st t)) in
    if asleep && detached then thread_set_state t THREAD_READY st else st.

Definition sched_publish_handoff e t (owner_cpu : Z) st : run sched_state_t :=
  if MAX_CORES <=? owner_cpu then ret st
  else if negb (owner_cpu =? me e) then panic
  else
    let st := publish_state (thread_unclaim t st) t in
    let th := threads st t in
    if is_state th THREAD_ZOMBIE || is_state th THREAD_STOPPED then ret st
    else if (context th =? 0) || on_rq th then ret st
    else if is_state th THREAD_SLEEPING && (in_wait_queue th || sleep_queued th) then ret st
    else
      let st := if negb (is_state th THREAD_READY) then thread_set_state t THREAD_READY st else st in
      if negb (is_state (threads st t) THREAD_READY) then ret st
      else
        allowed ← lift (sched_cpu_allowed st (Some t) owner_cpu);
        target_cpu ← lift (if negb allowed then pick_cpu st (Some t) owner_cpu else Some owner_cpu);
        st ← lift (rq_enqueue_cpu st (Some t) target_cpu);
        if negb (target_cpu =? owner_cpu) then lift (wake_counted e target_cpu st) else ret st.

Definition sched_flush_handoff e (cpu_id : Z) st : run sched_state_t :=
  if MAX_CORES <=? cpu_id then ret st
  else
    k ← lift (mload (cpus st) cpu_id);
    match handoff_ready k with
    | None => ret st
    | Some t =>
        st ← lift (upd_cpu cpu_id (set_handoff_ready None) st);
        sched_publish_handoff e t cpu_id st
    end.
End Defs.

(** ** Who holds a thread *)

Section Proofs.
Context `{Arch}.
Implicit Types (st : sched_state_t) (t u : tid) (x : option tid) (c : nat) (e : env).

Definition holds st c t : Prop :=
  exists k, cpus st !! c = Some k /\ (current k = Some t \/ handoff_ready k = Some t).

(** What a thread in a run queue is. *)
Definition queueable (th : sched_thread_t) : Prop := state th = THREAD_READY /\ context th <> 0.

(** A core holds the threads that say so, one core each; they are in no run queue; a run queue has ready
    threads with a context; idle threads stay on their cores.  [x] is a thread in the middle of its exit, which no longer says so. *)
Record own_inv x st : Prop := {
  o_cpu : forall c t, holds st c t -> running_cpu (threads st t) = Z.of_nat c \/ x = Some t;
  o_one : forall c c' t, holds st c t -> holds st c' t -> c = c';
  o_rq : forall t, on_rq (threads st t) = true -> (forall c, ~ holds st c t) /\ pid (threads st t) <> 0;
  o_idle : forall c k t, cpus st !! c = Some k -> idle_thread k = Some t ->
    pid (threads st t) = 0 /\ forall c', holds st c' t -> c' = c;
  o_idles : forall c c' k k' t, cpus st !! c = Some k -> cpus st !! c' = Some k' ->
    idle_thread k = Some t -> idle_thread k' = Some t -> c = c';
  o_exit : forall t, x = Some t -> state (threads st t) = THREAD_ZOMBIE;
  o_apart : forall c k t, cpus st !! c = Some k -> current k = Some t -> handoff_ready k = Some t -> x = Some t;
  o_known : forall t, 0 <= last_cpu (threads st t);
  o_ready : forall t, on_rq (threads st t) = true -> queueable (threads st t)
}.

Definition dinv x st : Prop := rq_inv st /\ own_inv x st.

(** A thread but for its state, its core and its place in a queue. *)
Definition drest (th : sched_thread_t) : sched_thread_t := set_state THREAD_READY (set_running_cpu 0 (qrest th)).

(** The threads a core knows. *)
Definition core_threads (k : sched_cpu_t) : ptr tid * ptr tid * ptr tid := (current k, idle_thread k, handoff_ready k).

(** What an operation on thread [t] leaves alone. *)
Record touched t st st' : Prop := {
  tc_other : forall u, u <> t -> kept (threads st) (threads st') u;
  tc_self : drest (threads st' t) = drest (threads st t);
  tc_cores : core_threads <$> cpus st' = core_threads <$> cpus st;
  tc_local : cores_local st' = cores_local st;
  tc_count : core_count st' = core_count st
}.

Lemma touched_refl t st : touched t st st.
Proof. by constructor. Qed.

Lemma touched_trans t st1 st2 st3 : touched t st1 st2 -> touched t st2 st3 -> touched t st1 st3.
Proof.
  intros [A1 A2 A3 A4 A5] [B1 B2 B3 B4 B5]. constructor; try congruence.
  intros u Hu. eapply kept_trans; [by apply A1|by apply B1].
Qed.

Lemma kept_drest ts ts' t : kept ts ts' t -> drest (ts' t) = drest (ts t).
Proof. intros Hk. unfold drest. by rewrite (kept_qrest _ _ _ Hk). Qed.

Lemma drest_fields th th' : drest th' = drest th ->
  pid th' = pid th /\ allowed_cpu_mask th' = allowed_cpu_mask th /\ sum_exec_ns th' = sum_exec_ns th /\
  in_wait_queue th' = in_wait_queue th /\ context th' = context th /\ wake_tick th' = wake_tick th /\
  sleep_queued th' = sleep_queued th /\ sleep_index th' = sleep_index th.
Proof. destruct th, th'. unfold drest, qrest. cbn. intros [=]. by subst. Qed.

Lemma kept_fields ts ts' t : kept ts ts' t -> state (ts' t) = state (ts t) /\ running_cpu (ts' t) = running_cpu (ts t) /\
  on_rq (ts' t) = on_rq (ts t) /\ last_cpu (ts' t) = last_cpu (ts t) /\ drest (ts' t) = drest (ts t).
Proof.
  intros Hk. split_and!; [unfold kept in Hk..|by apply kept_drest].
  - by apply (f_equal state) in Hk.
  - by apply (f_equal running_cpu) in Hk.
  - by apply (f_equal on_rq) in Hk.
  - by apply (f_equal last_cpu) in Hk.
Qed.

Lemma touched_drest t st st' u : touched t st st' -> drest (threads st' u) = drest (threads st u).
Proof. intros Ht. destruct (decide (u = t)) as [->|Hu]; [apply Ht|]. by apply kept_drest, (tc_other _ _ _ Ht). Qed.

Lemma touched_context t st st' u : touched t st st' -> context (threads st' u) = context (threads st u).
Proof. intros Ht. apply (drest_fields (threads st u)). by eapply touched_drest. Qed.

Lemma cores_at st st' c : core_threads <$> cpus st' = core_threads <$> cpus st ->
  core_threads <$> cpus st' !! c = core_threads <$> cpus st !! c.
Proof. intros Hc. by rewrite <- !list_lookup_fmap, Hc. Qed.

Lemma cores_core st st' c k : core_threads <$> cpus st' = core_threads <$> cpus st -> cpus st' !! c = Some k ->
  exists k0, cpus st !! c = Some k0 /\ current k = current k0 /\ idle_thread k = idle_thread k0 /\ handoff_ready k = handoff_ready k0.
Proof.
  intros Hc Hk. pose proof (cores_at st st' c Hc) as He. rewrite Hk in He. cbn in He. destruct (cpus st !! c) as [k0|]; [|done].
  injection He as ? ? ?. eauto.
Qed.

Lemma cores_holds st st' c t : core_threads <$> cpus st' = core_threads <$> cpus st -> holds st' c t <-> holds st c t.
Proof.
  intros Hc. split; intros (k & Hk & Ht).
  - destruct (cores_core st st' c k Hc Hk) as (k0 & H0 & E1 & _ & E3). exists k0. by rewrite <- E1, <- E3.
  - destruct (cores_core st' st c k (eq_sym Hc) Hk) as (k0 & H0 & E1 & _ & E3). exists k0. by rewrite <- E1, <- E3.
Qed.

(** The invariant depends on the cores, the queues and a few fields. *)
Lemma own_frame x st st' t : own_inv x st -> touched t st st' ->
  (forall c, holds st c t -> running_cpu (threads st' t) = running_cpu (threads st t) \/ x = Some t) ->
  (on_rq (threads st' t) = true -> on_rq (threads st t) = true \/ (forall c, ~ holds st c t) /\ pid (threads st t) <> 0) ->
  (x = Some t -> state (threads st' t) = state (threads st t)) -> 0 <= last_cpu (threads st' t) ->
  (on_rq (threads st' t) = true -> queueable (threads st' t)) -> own_inv x st'.
Proof.
  intros [O1 O2 O3 O4 O5 O6 O7 O8 O9] Ht Hr Hon Hs Hl Hy. pose proof (tc_cores _ _ _ Ht) as Hc.
  assert (Hpid : forall u, pid (threads st' u) = pid (threads st u)).
  { intros u. by apply (drest_fields (threads st u)), (touched_drest t). }
  constructor.
  - intros c u Hh. apply (cores_holds _ _ _ _ Hc) in Hh. destruct (O1 c u Hh) as [Hcpu|]; [|by right].
    destruct (decide (u = t)) as [->|Hu]; [destruct (Hr c Hh) as [-> |]; auto|]. left. rewrite <- Hcpu. apply (kept_fields _ _ _ (tc_other _ _ _ Ht u Hu)).
  - intros c c' u H1 H2. apply (cores_holds _ _ _ _ Hc) in H1, H2. by eapply O2.
  - intros u Hu. rewrite Hpid. setoid_rewrite (cores_holds _ _ _ _ Hc). destruct (decide (u = t)) as [->|Hne].
    + destruct (Hon Hu) as [Ho|Ho]; [by apply O3|done].
    + apply O3. rewrite <- Hu. symmetry. apply (kept_fields _ _ _ (tc_other _ _ _ Ht u Hne)).
  - intros c k u Hk Hi. destruct (cores_core _ _ _ _ Hc Hk) as (k0 & H0 & _ & E2 & _). rewrite Hpid. setoid_rewrite (cores_holds _ _ _ _ Hc).
    apply (O4 c k0); congruence.
  - intros c c' k k' u Hk Hk' Hi Hi'. destruct (cores_core _ _ _ _ Hc Hk) as (k0 & H0 & _ & E2 & _).
    destruct (cores_core _ _ _ _ Hc Hk') as (k1 & H1 & _ & E3 & _). eapply (O5 c c' k0 k1 u); congruence.
  - intros u Hu. destruct (decide (u = t)) as [->|Hne]; [rewrite Hs by done; by apply O6|].
    rewrite <- (O6 u Hu). apply (kept_fields _ _ _ (tc_other _ _ _ Ht u Hne)).
  - intros c k u Hk Hcur Hho. destruct (cores_core _ _ _ _ Hc Hk) as (k0 & H0 & E1 & _ & E3). apply (O7 c k0); congruence.
  - intros u. destruct (decide (u = t)) as [->|Hne]; [done|].
    destruct (kept_fields _ _ _ (tc_other _ _ _ Ht u Hne)) as (_ & _ & _ & -> & _). apply O8.
  - intros u. destruct (decide (u = t)) as [->|Hne]; [done|]. unfold queueable.
    destruct (kept_fields _ _ _ (tc_other _ _ _ Ht u Hne)) as (-> & _ & -> & _ & (_ & _ & _ & _ & -> & _)%drest_fields). apply O9.
Qed.

(** ** Reading the holder *)

Lemma holds_core x st c t : dinv x st -> holds st c t -> (c < 64)%nat.
Proof.
  intros [Hq _] (k & Hk & _). apply lookup_lt_Some in Hk. pose proof (inv_cpus _ Hq) as Hl. unfold zlen, MAX_CORES in Hl. lia.
Qed.

(** The tests of a thread's holder, for a thread that is not on its way out. *)
Lemma slot_spec (sel : sched_cpu_t -> ptr tid) x st t : (forall k, sel k = Some t -> current k = Some t \/ handoff_ready k = Some t) ->
  dinv x st -> x <> Some t ->
  exists b, (if (running_cpu (threads st t) <? 0) || (MAX_CORES <=? running_cpu (threads st t)) then Some false
             else c ← mload (cpus st) (running_cpu (threads st t)); Some (bool_decide (sel c = Some t))) = Some b /\
    (b = true <-> exists c k, cpus st !! c = Some k /\ sel k = Some t).
Proof.
  intros Hsel Hd Hx. pose proof Hd as [Hq Ho].
  assert (Hrun : forall c k, cpus st !! c = Some k -> sel k = Some t -> running_cpu (threads st t) = Z.of_nat c /\ (c < 64)%nat).
  { intros c k Hk Hc. assert (Hh : holds st c t) by (exists k; auto). destruct (o_cpu _ _ Ho c t Hh) as [->|]; [|done].
    split; [done|]. by eapply holds_core. }
  destruct ((_ <? 0) || _) eqn:E.
  { exists false. split; [done|]. split; [done|]. intros (c & k & Hk & Hc). destruct (Hrun c k Hk Hc) as [Hr Hlt]. rewrite Hr in E.
    unfold MAX_CORES in E. apply orb_true_iff in E as [E|E]; bool_facts; lia. }
  apply orb_false_iff in E as [E1 E2]. bool_facts.
  destruct (mload_is_Some (cpus st) (running_cpu (threads st t))) as [k Hk]; [rewrite (inv_cpus _ Hq); lia|].
  rewrite Hk. cbn [mbind option_bind]. eexists. split; [done|]. rewrite bool_decide_eq_true. apply mload_Some in Hk as [_ Hk]. split.
  - intros Hc. eauto.
  - intros (c & k' & Hk' & Hc). destruct (Hrun c k' Hk' Hc) as [Hr _]. rewrite Hr, Nat2Z.id in Hk. congruence.
Qed.

Lemma on_cpu_spec x st t : dinv x st -> x <> Some t ->
  exists b, thread_on_local_cpu st (Some t) = Some b /\ (b = true <-> exists c k, cpus st !! c = Some k /\ current k = Some t).
Proof. apply (slot_spec current). auto. Qed.

Lemma handoff_spec x st t : dinv x st -> x <> Some t ->
  exists b, thread_in_handoff st (Some t) = Some b /\ (b = true <-> exists c k, cpus st !! c = Some k /\ handoff_ready k = Some t).
Proof. apply (slot_spec handoff_ready). auto. Qed.

Lemma owned_spec x st t : dinv x st -> x <> Some t ->
  exists b, thread_is_owned st (Some t) = Some b /\ (b = true <-> exists c, holds st c t).
Proof.
  intros Hd Hx. unfold thread_is_owned. destruct (on_cpu_spec x st t Hd Hx) as (b1 & -> & H1). cbn [mbind option_bind].
  destruct (handoff_spec x st t Hd Hx) as (b2 & H2e & H2). destruct b1.
  - exists true. split; [done|]. split; [|done]. intros _. destruct H1 as [H1 _]. destruct (H1 eq_refl) as (c & k & Hk & Hc).
    exists c, k. auto.
  - exists b2. split; [done|]. rewrite H2. split.
    + intros (c & k & Hk & Hc). exists c, k. auto.
    + intros (c & k & Hk & [Hc|Hc]); [|eauto]. assert (false = true) by (apply H1; eauto). done.
Qed.

(** Not held, as [thread_cpu] tells it. *)
Lemma unheld_cpu x st t : dinv x st -> x <> Some t -> running_cpu (threads st t) < 0 -> forall c, ~ holds st c t.
Proof. intros [_ Ho] Hx Hr c Hh. destruct (o_cpu _ _ Ho c t Hh) as [Hc|]; [lia|done]. Qed.

(** ** Flags of a core *)

Lemma inv_set_cpus st ks : rq_inv st -> zlen ks = MAX_CORES -> rq_inv (set_cpus ks st).
Proof. intros [I1 I2 I3 I4 I5 I6 I7 I8] Hl. by constructor. Qed.

Lemma upd_cpu_ok (c : Z) f st : rq_inv st -> 0 <= c < MAX_CORES ->
  exists k, cpus st !! Z.to_nat c = Some k /\ upd_cpu c f st = Some (set_cpus (<[Z.to_nat c := f k]> (cpus st)) st) /\
    rq_inv (set_cpus (<[Z.to_nat c := f k]> (cpus st)) st).
Proof.
  intros Hq Hc. pose proof (inv_cpus _ Hq) as Hl. destruct (mload_is_Some (cpus st) c) as [k Hk]; [lia|]. unfold upd_cpu. rewrite Hk.
  cbn [mbind option_bind]. rewrite mstore_ok by lia. apply mload_Some in Hk as [_ Hk]. exists k. split; [done|]. split; [done|].
  apply inv_set_cpus; [done|]. unfold zlen in *. by rewrite length_insert.
Qed.

Definition quiet_flag (f : sched_cpu_t -> sched_cpu_t) : Prop := forall k, core_threads (f k) = core_threads k.

Lemma flag_ok x t (c : Z) f st : dinv x st -> 0 <= c < MAX_CORES -> quiet_flag f ->
  exists st', upd_cpu c f st = Some st' /\ dinv x st' /\ touched t st st' /\ threads st' = threads st.
Proof.
  intros [Hq Ho] Hc Hf. destruct (upd_cpu_ok c f st Hq Hc) as (k & Hk & -> & Hq'). eexists. split; [done|].
  assert (Ht : touched t st (set_cpus (<[Z.to_nat c := f k]> (cpus st)) st)).
  { constructor; try done. cbn. rewrite list_fmap_insert, Hf. apply list_insert_id. by rewrite list_lookup_fmap, Hk. }
  split; [|done]. split; [done|]. apply (own_frame x st _ t Ho Ht); [by auto..|apply (o_known _ _ Ho)|apply (o_ready _ _ Ho)].
Qed.

(** ** Entering a run queue *)

Lemma thread_is_owned_negative st t : running_cpu (threads st t) < 0 -> thread_is_owned st (Some t) = Some false.
Proof.
  intros Hr. unfold thread_is_owned, thread_on_local_cpu, thread_in_handoff, thread_cpu.
  by rewrite (proj2 (Z.ltb_lt _ _)) by done.
Qed.

(** What [rq_enqueue_cpu] does to the thread itself. *)
Definition entered st st' t : Prop :=
  set_running_cpu 0 (qrest (threads st' t)) = set_running_cpu 0 (qrest (threads st t)) /\
  (running_cpu (threads st' t) = running_cpu (threads st t) \/ thread_is_owned st (Some t) = Some false) /\
  (on_rq (threads st' t) = true -> on_rq (threads st t) = true \/
     thread_is_owned st (Some t) = Some false /\ rq_runnable (threads st) (Some t) = true) /\
  (0 <= last_cpu (threads st t) -> 0 <= last_cpu (threads st' t)).

Lemma entered_refl st t : entered st st t.
Proof. split_and!; auto. Qed.

Lemma enqueue_self st t (cpu : Z) st' : rq_inv st -> 0 <= cpu < MAX_CORES -> rq_enqueue_cpu st (Some t) cpu = Some st' -> entered st st' t.
Proof.
  intros Hq Hc. unfold rq_enqueue_cpu. rewrite (proj2 (Z.leb_gt _ _)) by lia.
  destruct (rq_target_spec st t cpu Hq Hc) as (r & -> & Hr). cbn [mbind option_bind].
  destruct r as [cz|]; [|intros [= <-]; apply entered_refl]. destruct Hr as (Hcz & _).
  destruct (rq_runnable (threads st) (Some t)) eqn:Hrun; cbn [negb]; [|intros [= <-]; apply entered_refl].
  assert (Hleave : exists st1, (if on_rq (threads st t) && negb (last_cpu (threads st t) =? cz)
      then '(_, st) ← rq_remove_thread st (Some t); Some st else Some st) = Some st1 /\ rq_inv st1 /\ cpus st1 = cpus st /\
      (threads st1 t = threads st t \/ threads st1 t = rq_clear (threads st t)) /\ (on_rq (threads st1 t) = true -> last_cpu (threads st1 t) = cz)).
  { destruct (on_rq (threads st t)) eqn:Hon; cbn [andb].
    2:{ exists st. split_and!; auto. by rewrite Hon. }
    destruct (Z.eqb_spec (last_cpu (threads st t)) cz) as [Hl|Hl]; cbn [negb]; [exists st; split_and!; auto|].
    destruct (rq_remove_thread_spec st t Hq Hon) as (st1 & c & -> & Hq1 & [_ Ht _ (He & _)] & _). cbn [mbind option_bind].
    exists st1. split_and!; auto. by rewrite Ht. }
  destruct Hleave as (st1 & -> & Hq1 & Hcpus & Ht1 & Hlast). cbn [mbind option_bind].
  assert (Hq1r : qrest (threads st1 t) = qrest (threads st t) /\ running_cpu (threads st1 t) = running_cpu (threads st t) /\
    (on_rq (threads st1 t) = true -> on_rq (threads st t) = true) /\ last_cpu (threads st1 t) = last_cpu (threads st t)) by (by destruct Ht1 as [-> | ->]).
  destruct Hq1r as (Hqr & Hrc & Hon1 & Hlc).
  assert (Hown : thread_is_owned st1 (Some t) = thread_is_owned st (Some t)) by (by apply thread_is_owned_frame).
  (* the critical section, on a thread that no core holds *)
  assert (Hlock : forall st2, rq_inv st2 -> thread_is_owned st (Some t) = Some false ->
    set_running_cpu 0 (qrest (threads st2 t)) = set_running_cpu 0 (qrest (threads st t)) ->
    (on_rq (threads st2 t) = true -> last_cpu (threads st2 t) = cz) -> last_cpu (threads st2 t) = last_cpu (threads st t) ->
    rq_enqueue_locked st2 t cz = Some st' -> entered st st' t).
  { intros st2 Hq2 Ho Hr2 Hl2 Hl2' He. assert (cz = Z.of_nat (Z.to_nat cz)) as Hczn by lia. pose proof (inv_rqs _ Hq2) as Hrqs.
    destruct (lookup_lt_is_Some_2 (runqueues st2) (Z.to_nat cz)) as [rq Hrq]; [unfold zlen in Hrqs; lia|].
    destruct (rq_enqueue_locked_spec st2 t (Z.to_nat cz) rq Hq2 Hrq) as (st3 & He3 & _ & Hcase); [by rewrite <- Hczn|].
    rewrite <- Hczn, He in He3. injection He3 as <-. destruct (on_rq (threads st2 t)); [subst st'; split_and!; auto; by rewrite Hl2'|].
    split_and!; auto; [by rewrite (enq_self _ _ _ _ Hcase)|]. destruct (enq_last _ _ _ _ Hcase) as [-> | ->]; [by rewrite Hl2'|lia]. }
  unfold thread_cpu. destruct (Z.leb_spec 0 (running_cpu (threads st1 t))) as [Hpos|Hneg].
  - rewrite Hown. destruct (thread_is_owned_total st t Hq) as [b Hb]. rewrite Hb. cbn [mbind option_bind].
    destruct (b || _) eqn:Hor; [intros [= <-]; split_and!; auto; [by rewrite Hqr|by rewrite Hlc]|]. apply orb_false_iff in Hor as [-> _].
    intros He. refine (Hlock _ _ Hb _ _ _ He).
    + apply inv_touch; [exact Hq1|intros th; by destruct th|right; intros th; by destruct th].
    + cbn [upd_thread threads set_threads]. rewrite fn_lookup_insert, <- Hqr. reflexivity.
    + cbn [upd_thread threads set_threads]. rewrite fn_lookup_insert. exact Hlast.
    + cbn [upd_thread threads set_threads]. rewrite fn_lookup_insert. exact Hlc.
  - intros He. refine (Hlock _ Hq1 _ _ Hlast Hlc He); [|by rewrite Hqr]. rewrite <- Hown. by apply thread_is_owned_negative.
Qed.

Lemma enqueue_cpu_ok x t (cpu : Z) st : dinv x st -> 0 <= cpu < MAX_CORES -> context (threads st t) <> 0 ->
  exists st', rq_enqueue_cpu st (Some t) cpu = Some st' /\ dinv x st' /\ touched t st st' /\ state (threads st' t) = state (threads st t) /\
    forall u, u <> t -> on_rq (threads st' u) = on_rq (threads st u).
Proof.
  intros Hd Hc Hctx. pose proof Hd as [Hq Ho]. destruct (rq_enqueue_cpu_spec st t cpu Hq Hc) as (st' & He & Hq' & (E1 & E2 & E3) & _ & Hk & _).
  destruct (enqueue_self st t cpu st' Hq Hc He) as (S1 & S2 & S3 & S4). specialize (S4 (o_known _ _ Ho t)). exists st'. split; [done|].
  assert (Hst : state (threads st' t) = state (threads st t)) by (by apply (f_equal state) in S1).
  assert (Ht : touched t st st').
  { constructor; [exact Hk|exact (f_equal (set_state THREAD_READY) S1)|by rewrite E1|exact E2|exact E3]. }
  split; [|split_and!; try done; intros u Hu; apply (kept_fields _ _ _ (Hk u Hu))]. split; [done|].
  assert (Hy : on_rq (threads st' t) = true -> queueable (threads st' t)).
  { intros Hon. unfold queueable. rewrite Hst. destruct (drest_fields _ _ (tc_self _ _ _ Ht)) as (_ & _ & _ & _ & -> & _). split; [|done].
    destruct (S3 Hon) as [Hon0|[_ Hrun]]; [apply (o_ready _ _ Ho t Hon0)|]. unfold rq_runnable, is_state in Hrun. by case_bool_decide. }
  assert (Hx : rq_runnable (threads st) (Some t) = true -> x <> Some t).
  { intros Hrun ->. unfold rq_runnable, is_state in Hrun. rewrite (o_exit _ _ Ho t eq_refl) in Hrun. done. }
  destruct (decide (x = Some t)) as [->|Hne].
  - apply (own_frame _ st st' t Ho Ht).
    + intros c Hh. by right.
    + intros Hon. destruct (S3 Hon) as [|[_ Hrun]]; [by left|]. by destruct (Hx Hrun).
    + done.
    + done.
    + done.
  - destruct (owned_spec x st t Hd Hne) as (b & Hb & Hiff).
    assert (Hun : thread_is_owned st (Some t) = Some false -> forall c, ~ holds st c t).
    { intros Hf c Hh. rewrite Hf in Hb. injection Hb as <-. assert (false = true) by (apply Hiff; eauto). done. }
    apply (own_frame _ st st' t Ho Ht); [|intros Hon|done|done|done].
    + intros c Hh. left. destruct S2 as [->|Hf]; [done|]. by destruct (Hun Hf c).
    + destruct (S3 Hon) as [|[Hf Hrun]]; [by left|]. right. split; [by apply Hun|]. unfold rq_runnable in Hrun.
      destruct (is_state _ _); cbn [negb] in Hrun; [|done]. bool_facts. lia.
Qed.

(** ** Steps that only set flags *)

Record flags_only st st' : Prop := {
  fl_threads : threads st' = threads st;
  fl_queues : runqueues st' = runqueues st;
  fl_cores : core_threads <$> cpus st' = core_threads <$> cpus st;
  fl_local : cores_local st' = cores_local st;
  fl_count : core_count st' = core_count st
}.

Lemma flags_refl st : flags_only st st.
Proof. by constructor. Qed.

Lemma flags_trans st1 st2 st3 : flags_only st1 st2 -> flags_only st2 st3 -> flags_only st1 st3.
Proof. intros [] []. constructor; congruence. Qed.

Lemma flags_touched t st st' : flags_only st st' -> touched t st st'.
Proof. intros [F1 F2 F3 F4 F5]. constructor; try done; rewrite F1; done. Qed.

Lemma flags_len st st' : flags_only st st' -> zlen (cpus st') = zlen (cpus st).
Proof. intros F. unfold zlen. f_equal. rewrite <- (length_fmap core_threads (cpus st')), (fl_cores _ _ F). apply length_fmap. Qed.

Lemma flags_dinv x st st' : dinv x st -> flags_only st st' -> dinv x st'.
Proof.
  intros [Hq Ho] F. split.
  - destruct Hq as [I1 I2 I3 I4 I5 I6 I7 I8]. pose proof (flags_len _ _ F). destruct F as [F1 F2 F3 F4 F5].
    constructor; rewrite ?F1, ?F2, ?F4, ?F5; try done. congruence.
  - apply (own_frame x st st' 0 Ho (flags_touched _ _ _ F)); rewrite (fl_threads _ _ F); auto; [apply (o_known _ _ Ho)|apply (o_ready _ _ Ho)].
Qed.

Lemma set_flag_ok x (c : Z) f st : dinv x st -> 0 <= c < MAX_CORES -> quiet_flag f -> exists st', upd_cpu c f st = Some st' /\ flags_only st st'.
Proof.
  intros [Hq Ho] Hc Hf. destruct (upd_cpu_ok c f st Hq Hc) as (k & Hk & -> & _). eexists. split; [done|]. constructor; try done.
  cbn. rewrite list_fmap_insert, Hf. apply list_insert_id. by rewrite list_lookup_fmap, Hk.
Qed.

Lemma local_ok x e st : dinv x st -> 0 <= me e < MAX_CORES -> exists k, local e st = Some k /\ cpus st !! Z.to_nat (me e) = Some k.
Proof.
  intros [Hq _] Hc. pose proof (inv_cpus _ Hq). destruct (mload_is_Some (cpus st) (me e)) as [k Hk]; [lia|]. exists k. split; [done|].
  by apply mload_Some in Hk as [_ ?].
Qed.

Lemma resched_local_ok x e st : dinv x st -> 0 <= me e < MAX_CORES -> exists st', sched_resched_local e st = Some st' /\ flags_only st st'.
Proof.
  intros Hd Hc. unfold sched_resched_local. destruct (running st); cbn [negb]; [|eauto using flags_refl].
  destruct (set_flag_ok x (me e) (set_need_resched true) st Hd Hc) as (st1 & -> & F1); [done|]. cbn [mbind option_bind].
  pose proof (flags_dinv _ _ _ Hd F1) as Hd1. destruct (local_ok x e st1 Hd1 Hc) as (k & -> & _). cbn [mbind option_bind].
  destruct (_ || _ || _); [eauto|]. destruct (_ && _); [eauto|]. destruct (resched_irq k); [eauto|].
  destruct (set_flag_ok x (me e) (set_resched_irq true) st1 Hd1 Hc) as (st2 & -> & F2); [done|]. eauto using flags_trans.
Qed.

Lemma set_resched_ok x (c : Z) b st : dinv x st -> 0 <= c -> exists st', sched_set_resched_cpu c b st = Some st' /\ flags_only st st'.
Proof.
  intros Hd Hc. unfold sched_set_resched_cpu. destruct (Z.leb_spec MAX_CORES c); [eauto using flags_refl|].
  by eapply set_flag_ok; [exact Hd|lia|].
Qed.

Lemma wake_cpu_ok x e (c : Z) st : dinv x st -> 0 <= c -> exists b st', wake_cpu e c st = Some (b, st') /\ flags_only st st'.
Proof.
  intros Hd Hc. unfold wake_cpu, sched_mark_resched_cpu. destruct (Z.leb_spec MAX_CORES c); [eauto using flags_refl|].
  pose proof Hd as [Hq _]. pose proof (inv_cpus _ Hq). destruct (mload_is_Some (cpus st) c) as [k Hk]; [lia|]. rewrite Hk. cbn [mbind option_bind].
  destruct (set_flag_ok x c (set_need_resched true) st Hd) as (st1 & -> & F1); [lia|done|]. cbn [mbind option_bind].
  destruct (negb (need_resched k)); cbn [negb]; [|eauto]. destruct (c =? me e); [eauto|]. unfold cpu_needs_ipi. rewrite (proj2 (Z.leb_gt _ _)) by lia.
  pose proof (flags_dinv _ _ _ Hd F1) as [Hq1 _]. pose proof (inv_cpus _ Hq1). destruct (mload_is_Some (cpus st1) c) as [k1 ->]; [lia|]. cbn [mbind option_bind].
  destruct (negb _); [eauto|]. destruct (negb _); eauto.
Qed.

Lemma wake_counted_ok x e (c : Z) st : dinv x st -> 0 <= c -> exists st', wake_counted e c st = Some st' /\ flags_only st st'.
Proof.
  intros Hd Hc. unfold wake_counted. destruct (wake_cpu_ok x e c st Hd Hc) as (b & st1 & -> & F1). cbn [mbind option_bind].
  eexists. split; [done|]. destruct b; [|done]. eapply flags_trans; [exact F1|by constructor].
Qed.

(** ** Steps that change a thread's state or core *)

Definition state_only (f : sched_thread_t -> sched_thread_t) : Prop :=
  forall th, drest (f th) = drest th /\ qkey (f th) = qkey th /\ on_rq (f th) = on_rq th /\ in_run_queue (f th) = in_run_queue th /\
    rq_index (f th) = rq_index th /\ last_cpu (f th) = last_cpu th.

Lemma touch_ok x t f st : dinv x st -> state_only f ->
  (forall c, holds st c t -> running_cpu (f (threads st t)) = running_cpu (threads st t) \/ x = Some t) ->
  (x = Some t -> state (f (threads st t)) = state (threads st t)) ->
  (on_rq (threads st t) = true -> state (f (threads st t)) = THREAD_READY) ->
  dinv x (upd_thread t f st) /\ touched t st (upd_thread t f st).
Proof.
  intros [Hq Ho] Hf Hr Hs Hy.
  assert (Ht : touched t st (upd_thread t f st)).
  { constructor; try done; cbn.
    - intros u Hu. unfold kept. by rewrite fn_lookup_insert_ne.
    - rewrite fn_lookup_insert. apply Hf. }
  split; [|done]. split.
  - apply inv_touch; [done|intros th; by apply Hf|right; intros th; apply Hf].
  - destruct (Hf (threads st t)) as ((_ & _ & _ & _ & F5 & _)%drest_fields & _ & F3 & _ & _ & F6).
    apply (own_frame x st _ t Ho Ht); cbn; rewrite fn_lookup_insert; auto; [rewrite F3; by left|rewrite F6; apply (o_known _ _ Ho)|].
    rewrite F3. unfold queueable. rewrite F5. intros Hon. split; [by apply Hy|apply (o_ready _ _ Ho t Hon)].
Qed.

Lemma set_state_only s : state_only (set_state s).
Proof. by intros []. Qed.

Lemma set_cpu_only v : state_only (set_running_cpu v).
Proof. by intros []. Qed.

Lemma set_state_ok x t s st : dinv x st -> x <> Some t -> (on_rq (threads st t) = true -> s = THREAD_READY) ->
  dinv x (thread_set_state t s st) /\ touched t st (thread_set_state t s st) /\ state (threads (thread_set_state t s st) t) = s.
Proof.
  intros Hd Hx Hy. destruct (touch_ok x t (set_state s) st Hd (set_state_only s)) as [Hd' Ht]; [by left|done|done|].
  split_and!; [done|done|]. cbn. by rewrite fn_lookup_insert.
Qed.

Lemma unclaim_ok x t st : dinv x st -> (forall c, holds st c t -> x = Some t) -> dinv x (thread_unclaim t st) /\ touched t st (thread_unclaim t st) /\
  state (threads (thread_unclaim t st) t) = state (threads st t).
Proof.
  intros Hd Hno. destruct (touch_ok x t (set_running_cpu (-1)) st Hd (set_cpu_only _)) as [Hd' Ht]; [intros c Hh; right; by eapply Hno|done|apply (o_ready _ _ (proj2 Hd))|].
  split_and!; [done|done|]. cbn. by rewrite fn_lookup_insert.
Qed.

Lemma rq_take_out_ok x t st : dinv x st ->
  exists b st', rq_remove_thread st (Some t) = Some (b, st') /\ dinv x st' /\ touched t st st' /\ state (threads st' t) = state (threads st t) /\
    on_rq (threads st' t) = false.
Proof.
  intros Hd. pose proof Hd as [Hq Ho]. destruct (on_rq (threads st t)) eqn:Hon.
  2:{ unfold rq_remove_thread. rewrite Hon. exists false, st. split_and!; auto using touched_refl. }
  destruct (rq_remove_thread_spec st t Hq Hon) as (st' & c & He & Hq' & [_ Hself Hk (E1 & E2 & E3)] & _).
  exists true, st'. split; [done|]. assert (Ht : touched t st st') by (constructor; [exact Hk|by rewrite Hself|by rewrite E1|exact E2|exact E3]).
  split_and!; [split; [done|]|done|by rewrite Hself|by rewrite Hself].
  apply (own_frame x st st' t Ho Ht); rewrite Hself; auto; [apply (o_known _ _ Ho)|done].
Qed.

(** ** Choosing a core *)

Lemma in_mask_bit m (c : Z) : 0 <= c -> in_mask m c = Z.testbit m c.
Proof. intros Hc. unfold in_mask. rewrite land_bit by done. apply negb_involutive. Qed.

Lemma first_cpu_range n m (c : Z) : 0 <= c -> 0 <= first_cpu_loop n m c < Z.max 1 (c + Z.of_nat n).
Proof.
  revert c. induction n as [|n IH]; intros c Hc; cbn [first_cpu_loop]; [lia|]. destruct (in_mask m c); [lia|].
  specialize (IH (c + 1)). lia.
Qed.

Lemma idle_loop_range n m b k (c best d : Z) : 0 <= c -> 0 <= best -> (best < c \/ best = MAX_CORES) ->
  let r := idle_loop n m b k c best d in 0 <= r /\ (r < c + Z.of_nat n \/ r = MAX_CORES).
Proof.
  revert c best d. induction n as [|n IH]; intros c best d Hc H0 Hb; cbn [idle_loop]; [lia|].
  destruct (negb _); [specialize (IH (c + 1) best d); cbn in *; lia|].
  destruct (_ || _ || _); [specialize (IH (c + 1) c (sched_cpu_distance b c k))|specialize (IH (c + 1) best d)]; cbn in *; lia.
Qed.

Lemma min_loop_range n m k s i : 0 < k -> 0 <= min_loop n m k s i < k.
Proof.
  intros Hk. revert i. induction n as [|n IH]; intros i; cbn [min_loop]; [lia|]. destruct (in_mask _ _); [|apply IH].
  by apply Z.mod_pos_bound.
Qed.

Lemma load_scan_ok n st allowed (c : Z) ml found im mm : rq_inv st -> 0 <= c -> c + Z.of_nat n <= 64 ->
  exists r, load_scan n st allowed c ml found im mm = Some r.
Proof.
  intros Hq. revert c ml found im mm. induction n as [|n IH]; intros c ml found im mm Hc Hn; cbn [load_scan]; [eauto|].
  destruct (negb (in_mask allowed c)); [apply IH; lia|].
  destruct (cpu_load_spec st c (inv_shaped _ Hq)) as (l & -> & _); [lia|]. cbn [mbind option_bind].
  destruct (_ || _); [apply IH; lia|]. destruct (_ =? _); apply IH; lia.
Qed.

Lemma pick_target_ok x t st : dinv x st -> 0 <= last_cpu (threads st t) ->
  exists (c : Z) st', pick_target_cpu t st = Some (c, st') /\ 0 <= c < MAX_CORES /\ flags_only st st'.
Proof.
  intros [Hq _] Hlast. unfold pick_target_cpu. destruct (online_mask_spec st (inv_shaped _ Hq)) as (m & -> & _). cbn [mbind option_bind].
  pose proof (inv_count _ Hq) as Hcount. set (ncpu := wake_cpu_count st).
  assert (Hn : 0 < ncpu <= 64) by (unfold ncpu, wake_cpu_count, MAX_CORES; repeat case_match; bool_facts; lia).
  destruct (load_scan_ok (Z.to_nat ncpu) st (wake_mask st (Some t) m) 0 SIZE_MAX false 0 0 Hq) as ([[[ml found] im] mm] & ->); [lia|lia|].
  cbn [mbind option_bind]. unfold MAX_CORES in *. destruct found; cbn [negb]; [|exists 0, st; eauto using flags_refl with lia].
  set (pref := if wake_can_prefer _ _ _ _ then _ else _). set (idle := if im =? 0 then _ else _).
  assert (Hidle : 0 <= idle) by (unfold idle, pick_idle_cpu, MAX_CORES; destruct (im =? 0); [lia|]; apply idle_loop_range; unfold MAX_CORES; lia).
  destruct (Z.ltb_spec idle 64); [exists idle, st; split_and!; auto using flags_refl|].
  assert (Hpref : 0 <= pref) by (unfold pref; destruct (wake_can_prefer _ _ _ _); lia).
  assert (Hnear : exists b, (if pref <? ncpu then preferred_load ← sched_cpu_load st pref; Some (preferred_load <=? wrap (ml + SCHED_WAKE_LOAD_SLOP)) else Some false) = Some b /\
    (b = true -> pref < ncpu)).
  { destruct (Z.ltb_spec pref ncpu); [|exists false; done]. destruct (cpu_load_spec st pref (inv_shaped _ Hq)) as (l & -> & _); [lia|].
    cbn [mbind option_bind]. eauto. }
  destruct Hnear as (b & -> & Hb). cbn [mbind option_bind]. destruct b; [exists pref, st; specialize (Hb eq_refl); split_and!; auto using flags_refl; lia|].
  destruct (mm =? 0); [exists 0, st; split_and!; auto using flags_refl; lia|]. unfold pick_min_cpu.
  eexists _, _. split; [reflexivity|]. pose proof (min_loop_range (Z.to_nat ncpu) mm ncpu (wake_rr_cursor st) 0 ltac:(lia)). split; [lia|by constructor].
Qed.

(** ** Making a thread runnable *)

Lemma enqueue_ipi_ok x e t b st : dinv x st -> 0 <= me e < MAX_CORES ->
  exists st', enqueue_ipi e t b st = Some st' /\ dinv x st' /\ touched t st st' /\ state (threads st' t) = state (threads st t).
Proof.
  intros Hd He. pose proof (o_known _ _ (proj2 Hd) t) as Hkn. unfold enqueue_ipi. destruct (local_ok x e st Hd He) as (k & -> & _). cbn [mbind option_bind].
  assert (Hsame : exists st', Some st = Some st' /\ dinv x st' /\ touched t st st' /\ state (threads st' t) = state (threads st t)) by eauto using touched_refl.
  destruct (bool_decide _); [done|]. destruct (Z.eqb_spec (context (threads st t)) 0) as [|Hctx]; [done|].
  destruct (negb _); [done|]. destruct (_ =? 0); [done|]. clear Hsame.
  destruct (pick_target_ok x t st Hd Hkn) as (c & st1 & -> & Hc & F1). cbn [mbind option_bind]. pose proof (flags_dinv _ _ _ Hd F1) as Hd1.
  assert (Hrem : exists st2, (if on_rq (threads st1 t) && negb (last_cpu (threads st1 t) =? c)
      then '(_, st) ← rq_remove_thread st1 (Some t); Some st else Some st1) = Some st2 /\ dinv x st2 /\ touched t st st2 /\ state (threads st2 t) = state (threads st t)).
  { pose proof (fl_threads _ _ F1) as Hth. destruct (_ && _).
    - destruct (rq_take_out_ok x t st1 Hd1) as (b' & st2 & -> & Hd2 & Ht2 & Hs2 & _). cbn [mbind option_bind]. exists st2.
      split_and!; [done|done|by eapply touched_trans; [apply flags_touched|]|by rewrite Hs2, Hth].
    - exists st1. split_and!; [done|done|by apply flags_touched|by rewrite Hth]. }
  destruct Hrem as (st2 & -> & Hd2 & Ht2 & Hs2). cbn [mbind option_bind].
  destruct (enqueue_cpu_ok x t c st2 Hd2 Hc) as (st3 & -> & Hd3 & Ht3 & Hs3 & _); [by rewrite (touched_context _ _ _ t Ht2)|]. cbn [mbind option_bind].
  set (st4 := if negb _ then _ else st3). assert (F4 : flags_only st3 st4) by (unfold st4; destruct (negb _); by constructor).
  pose proof (flags_dinv _ _ _ Hd3 F4) as Hd4.
  assert (Hdone : forall st5, flags_only st4 st5 -> dinv x st5 /\ touched t st st5 /\ state (threads st5 t) = state (threads st t)).
  { intros st5 F5. pose proof (flags_trans _ _ _ F4 F5) as F. split_and!; [by eapply flags_dinv| |by rewrite (fl_threads _ _ F), Hs3].
    eapply touched_trans; [exact Ht2|]. eapply touched_trans; [exact Ht3|]. by apply flags_touched. }
  destruct (negb (c =? me e)).
  2:{ destruct (resched_local_ok x e st4 Hd4 He) as (st5 & -> & F5). exists st5. by split; [|apply Hdone]. }
  assert (Hw : exists sent st5, (if b then wake_cpu e c st4 else Some (false, st4)) = Some (sent, st5) /\ flags_only st4 st5).
  { destruct b; [eapply wake_cpu_ok; [exact Hd4|lia]|eauto using flags_refl]. }
  destruct Hw as (sent & st5 & -> & F5). cbn [mbind option_bind]. destruct sent.
  - eexists. split; [done|]. apply Hdone. eapply flags_trans; [exact F5|by constructor].
  - destruct (set_resched_ok x c true st5 (flags_dinv _ _ _ Hd4 F5)) as (st6 & -> & F6); [lia|]. exists st6. split; [done|]. apply Hdone.
    by eapply flags_trans.
Qed.
(** ** Threads that a core holds *)

(** Running on some core. *)
Definition on_core st t : Prop := exists c k, cpus st !! c = Some k /\ current k = Some t.

Lemma nudge_ok x e t st : dinv x st -> 0 <= me e < MAX_CORES -> x <> Some t ->
  exists st', sched_nudge_thread e t st = Some st' /\ dinv x st' /\ touched t st st' /\
    (state (threads st t) = THREAD_SLEEPING -> on_core st t -> state (threads st' t) = THREAD_RUNNING) /\
    (state (threads st t) <> THREAD_SLEEPING -> state (threads st' t) = state (threads st t)).
Proof.
  intros Hd He Hx. unfold sched_nudge_thread.
  destruct (on_cpu_spec x st t Hd Hx) as (b1 & Hb1 & H1). destruct (_ || _) eqn:Hr.
  { exists st. split_and!; auto using touched_refl. intros _ Hc. apply H1 in Hc as ->. unfold thread_on_local_cpu in Hb1. by rewrite Hr in Hb1. }
  destruct (handoff_spec x st t Hd Hx) as (b2 & -> & H2). rewrite Hb1. cbn [mbind option_bind].
  destruct (negb b1 && negb b2) eqn:Hb.
  { exists st. split_and!; auto using touched_refl. intros _ Hc. apply H1 in Hc as ->. done. }
  set (st1 := if b1 && _ then _ else st).
  assert (Hst1 : dinv x st1 /\ touched t st st1 /\ (state (threads st t) = THREAD_SLEEPING -> on_core st t -> state (threads st1 t) = THREAD_RUNNING) /\
    (state (threads st t) <> THREAD_SLEEPING -> state (threads st1 t) = state (threads st t))).
  { unfold st1, is_state. destruct (bool_decide_reflect (state (threads st t) = THREAD_SLEEPING)) as [Hs|Hs]; destruct b1; cbn [andb];
      [|split_and!; auto using touched_refl; intros _ Hc; by apply H1 in Hc|split_and!; auto using touched_refl; done..].
    destruct (set_state_ok x t THREAD_RUNNING st Hd Hx) as (? & ? & ?); [|by split_and!].
    intros Hon. destruct (o_ready _ _ (proj2 Hd) t Hon). congruence. }
  destruct Hst1 as (Hd1 & Ht1 & Hs1 & Hs1'). clearbody st1.
  assert (Hend : exists st', (if thread_cpu st (Some t) =? me e then sched_resched_local e st1 else wake_counted e (thread_cpu st (Some t)) st1) = Some st' /\ flags_only st1 st').
  { apply orb_false_iff in Hr as [Hr _]. bool_facts. destruct (_ =? me e); [by eapply resched_local_ok|by eapply wake_counted_ok; [exact Hd1|lia]]. }
  destruct Hend as (st2 & -> & F). exists st2. rewrite (fl_threads _ _ F). split_and!; [done|by eapply flags_dinv| |done|done].
  eapply touched_trans; [exact Ht1|by apply flags_touched].
Qed.

(** A thread that no core holds is released and queued. *)
Lemma release_ok x e t b st : dinv x st -> 0 <= me e < MAX_CORES -> x <> Some t -> (forall c, ~ holds st c t) ->
  exists st', enqueue_ipi e t b (thread_set_state t THREAD_READY (thread_unclaim t st)) = Some st' /\ dinv x st' /\ touched t st st' /\
    state (threads st' t) = THREAD_READY.
Proof.
  intros Hd He Hx Hno. destruct (unclaim_ok x t st Hd) as (Hd1 & Ht1 & _); [intros c Hh; by destruct (Hno c)|].
  destruct (set_state_ok x t THREAD_READY _ Hd1 Hx) as (Hd2 & Ht2 & Hs2); [done|].
  destruct (enqueue_ipi_ok x e t b _ Hd2 He) as (st' & -> & Hd3 & Ht3 & Hs3). exists st'. split_and!; [done|done| |congruence].
  eapply touched_trans; [exact Ht1|]. by eapply touched_trans.
Qed.

Lemma held_slot st c t : holds st c t -> on_core st t \/ exists c k, cpus st !! c = Some k /\ handoff_ready k = Some t.
Proof. intros (k & Hk & [Hc|Hc]); [left|right]; by exists c, k. Qed.

Lemma repair_ok x e t b st : dinv x st -> 0 <= me e < MAX_CORES -> x <> Some t ->
  exists r st', sched_repair_thread e t b st = Some (r, st') /\ dinv x st' /\ touched t st st'.
Proof.
  intros Hd He Hx. unfold sched_repair_thread. destruct (negb _); [exists false, st; auto using touched_refl|].
  destruct (on_cpu_spec x st t Hd Hx) as (b1 & -> & H1). cbn [mbind option_bind].
  destruct (nudge_ok x e t st Hd He Hx) as (st1 & Hn & Hd1 & Ht1 & _). destruct b1; [rewrite Hn; cbn [mbind option_bind]; eauto|].
  destruct (handoff_spec x st t Hd Hx) as (b2 & -> & H2). cbn [mbind option_bind]. destruct b2; [rewrite Hn; cbn [mbind option_bind]; eauto|].
  destruct (release_ok x e t b st Hd He Hx) as (st2 & -> & Hd2 & Ht2 & _); [|cbn [mbind option_bind]; eauto].
  intros c Hh. destruct (held_slot _ _ _ Hh) as [Hc|Hc]; [apply H1 in Hc|apply H2 in Hc]; done.
Qed.

(** ** Publishing the thread that was switched away from *)

Lemma publish_state_ok x t st : dinv x st -> dinv x (publish_state st t) /\ touched t st (publish_state st t).
Proof.
  intros Hd. unfold publish_state.
  assert (Hz : forall s, s <> THREAD_ZOMBIE -> is_state (threads st t) s = true -> x <> Some t).
  { intros s Hs Hb ->. apply bool_decide_eq_true in Hb. rewrite (o_exit _ _ (proj2 Hd) t eq_refl) in Hb. by subst. }
  destruct (is_state (threads st t) THREAD_RUNNING) eqn:Hr.
  { destruct (set_state_ok x t THREAD_READY st Hd) as (? & ? & _); [by eapply Hz; [|exact Hr]|done|]. done. }
  destruct (is_state (threads st t) THREAD_SLEEPING) eqn:Hs; cbn [andb]; [|auto using touched_refl].
  destruct (_ && _); [|auto using touched_refl]. destruct (set_state_ok x t THREAD_READY st Hd) as (? & ? & _); [by eapply Hz; [|exact Hs]|done|]. done.
Qed.

Lemma publish_ok x e t st : dinv x st -> 0 <= me e < MAX_CORES -> (forall c, holds st c t -> x = Some t) ->
  exists st', sched_publish_handoff e t (me e) st = ret st' /\ dinv x st' /\ touched t st st'.
Proof.
  intros Hd He Hno. unfold sched_publish_handoff. rewrite (proj2 (Z.leb_gt _ _)) by lia. rewrite Z.eqb_refl. cbn [negb].
  destruct (unclaim_ok x t st Hd Hno) as (Hd1 & Ht1 & _). destruct (publish_state_ok x t _ Hd1) as (Hd2 & Ht2).
  set (st2 := publish_state _ t) in *. clearbody st2. pose proof (touched_trans _ _ _ _ Ht1 Ht2) as Ht.
  destruct (is_state _ THREAD_ZOMBIE) eqn:Hz; [by exists st2|]. cbn [orb].
  assert (Hx : x <> Some t). { intros ->. apply bool_decide_eq_false in Hz. apply Hz, (o_exit _ _ (proj2 Hd2) t eq_refl). }
  destruct (is_state _ THREAD_STOPPED); [by exists st2|]. destruct (_ || _) eqn:Hctx; [by exists st2|]. apply orb_false_iff in Hctx as [Hctx _]. bool_facts. destruct (_ && _); [by exists st2|].
  set (st3 := if negb _ then _ else st2).
  assert (Hst3 : dinv x st3 /\ touched t st st3 /\ is_state (threads st3 t) THREAD_READY = true /\ context (threads st3 t) <> 0).
  { unfold st3. destruct (is_state (threads st2 t) THREAD_READY) eqn:Hr; cbn [negb]; [done|].
    destruct (set_state_ok x t THREAD_READY st2 Hd2 Hx) as (? & ? & Hs); [done|]. split_and!; [done|by eapply touched_trans|by apply bool_decide_eq_true|]. cbn. by rewrite fn_lookup_insert. }
  destruct Hst3 as (Hd3 & Ht3 & -> & Hctx3). clearbody st3. cbn [negb]. pose proof Hd3 as [Hq3 _].
  rewrite (allowed_total st3 (Some t) (me e) Hq3). set (b := allowed_on _ _ _). unfold mbind at 1. cbn [lift run_bind ret].
  assert (Htgt : exists c : Z, (if negb b then pick_cpu st3 (Some t) (me e) else Some (me e)) = Some c /\ 0 <= c < MAX_CORES).
  { destruct b; cbn [negb]; [by exists (me e)|]. destruct (pick_cpu_spec st3 (Some t) (me e)) as (c & -> & Hc & _); [by apply inv_shaped|lia|].
    exists c. split; [done|]. unfold MAX_CORES. lia. }
  destruct Htgt as (c & -> & Hc). unfold mbind at 1. cbn [lift run_bind ret].
  destruct (enqueue_cpu_ok x t c st3 Hd3 Hc Hctx3) as (st4 & -> & Hd4 & Ht4 & _). unfold mbind at 1. cbn [lift run_bind ret].
  pose proof (touched_trans _ _ _ _ Ht3 Ht4). destruct (negb _); [|by exists st4].
  destruct (wake_counted_ok x e c st4 Hd4) as (st5 & -> & F); [lia|]. exists st5. split_and!; [done|by eapply flags_dinv|].
  eapply touched_trans; [done|by apply flags_touched].
Qed.
(** ** What a core holds *)

(** A thread core [c] may take: it holds it already, or no core does and it is marked as its own. *)
Definition may_hold x st c t : Prop :=
  holds st c t \/
  (running_cpu (threads st t) = Z.of_nat c \/ x = Some t) /\ (forall c', ~ holds st c' t) /\ on_rq (threads st t) = false /\
  (forall c' k, cpus st !! c' = Some k -> idle_thread k = Some t -> c' = c).

Definition put_core c (k : sched_cpu_t) st : sched_state_t := set_cpus (<[c := k]> (cpus st)) st.

Lemma put_core_holds c k0 k st c' t : cpus st !! c = Some k0 ->
  holds (put_core c k st) c' t -> c' = c /\ (current k = Some t \/ handoff_ready k = Some t) \/ c' <> c /\ holds st c' t.
Proof.
  intros H0 (k1 & Hk & Ht). unfold put_core in Hk. cbn in Hk. apply lookup_lt_Some in H0. destruct (decide (c' = c)) as [->|Hne].
  - rewrite list_lookup_insert_eq in Hk by done. injection Hk as <-. by left.
  - rewrite list_lookup_insert_ne in Hk by done. right. split; [done|]. by exists k1.
Qed.

Lemma put_core_idle c k0 k st c' k' : cpus st !! c = Some k0 -> idle_thread k = idle_thread k0 -> cpus (put_core c k st) !! c' = Some k' ->
  exists k1, cpus st !! c' = Some k1 /\ idle_thread k1 = idle_thread k' /\ (c' <> c -> k' = k1) /\ (c' = c -> k' = k).
Proof.
  intros H0 Hi Hk. unfold put_core in Hk. cbn in Hk. pose proof (lookup_lt_Some _ _ _ H0). destruct (decide (c' = c)) as [->|Hne].
  - rewrite list_lookup_insert_eq in Hk by done. injection Hk as <-. by exists k0.
  - rewrite list_lookup_insert_ne in Hk by done. by exists k'.
Qed.

Lemma put_core_ok x c k0 k st : dinv x st -> cpus st !! c = Some k0 -> idle_thread k = idle_thread k0 ->
  (forall t, current k = Some t \/ handoff_ready k = Some t -> may_hold x st c t) ->
  (forall t, current k = Some t -> handoff_ready k = Some t -> x = Some t) -> dinv x (put_core c k st).
Proof.
  intros [Hq [O1 O2 O3 O4 O5 O6 O7 O8 O9]] H0 Hi Hm Ha. split.
  { apply inv_set_cpus; [done|]. unfold zlen. rewrite length_insert. apply (inv_cpus _ Hq). }
  assert (Hnew : forall c' t, holds (put_core c k st) c' t -> c' = c /\ may_hold x st c t \/ c' <> c /\ holds st c' t).
  { intros c' t Hh. destruct (put_core_holds _ _ _ _ _ _ H0 Hh) as [[-> Ht]|?]; [left; auto|by right]. }
  constructor.
  - intros c' t Hh. destruct (Hnew c' t Hh) as [[-> [Hc|([Hc|Hc] & _)]]|[_ Hc]]; auto; by apply O1.
  - intros c1 c2 t H1 H2. destruct (Hnew _ _ H1) as [[-> M1]|[N1 M1]], (Hnew _ _ H2) as [[-> M2]|[N2 M2]]; [done| | |by eapply O2].
    + destruct M1 as [M1|(_ & M1 & _)]; [by eapply O2|by destruct (M1 c2)].
    + destruct M2 as [M2|(_ & M2 & _)]; [by eapply O2|by destruct (M2 c1)].
  - intros t Hon. cbn in Hon. destruct (O3 t Hon) as [Hno Hp]. split; [|done]. intros c' Hh.
    destruct (Hnew _ _ Hh) as [[-> [M|(_ & _ & M & _)]]|[_ M]]; [by destruct (Hno c)|cbn in *; congruence|by destruct (Hno c')].
  - intros c1 k1 t H1 Hid. destruct (put_core_idle c k0 k st c1 k1 H0 Hi H1) as (k2 & H2 & E2 & _). rewrite <- E2 in Hid.
    destruct (O4 c1 k2 t H2 Hid) as [Hp Hc]. split; [done|]. intros c' Hh.
    destruct (Hnew _ _ Hh) as [[-> [M|(_ & _ & _ & M)]]|[_ M]]; [by apply Hc|symmetry; by eapply M|by apply Hc].
  - intros c1 c2 k1 k2 t H1 H2 Hi1 Hi2. destruct (put_core_idle c k0 k st c1 k1 H0 Hi H1) as (k3 & H3 & E3 & _).
    destruct (put_core_idle c k0 k st c2 k2 H0 Hi H2) as (k4 & H4 & E4 & _). eapply (O5 c1 c2 k3 k4 t); congruence.
  - exact O6.
  - intros c1 k1 t H1 Hc1 Hh1. destruct (put_core_idle c k0 k st c1 k1 H0 Hi H1) as (k2 & H2 & _ & E & E').
    destruct (decide (c1 = c)) as [->|Hne]; [rewrite (E' eq_refl) in *; by apply Ha|rewrite (E Hne) in *; by eapply O7].
  - exact O8.
  - exact O9.
Qed.

(** The state after the core published the thread it had switched away from. *)
Record flushed e st st' : Prop := {
  fs_rest : forall u, drest (threads st' u) = drest (threads st u);
  fs_cores : exists k, cpus st !! Z.to_nat (me e) = Some k /\
    core_threads <$> cpus st' = <[Z.to_nat (me e) := (current k, idle_thread k, None)]> (core_threads <$> cpus st);
  fs_local : cores_local st' = cores_local st;
  fs_count : core_count st' = core_count st
}.

Lemma flush_ok x e st : dinv x st -> 0 <= me e < MAX_CORES ->
  exists st', sched_flush_handoff e (me e) st = ret st' /\ dinv x st' /\ flushed e st st'.
Proof.
  intros Hd He. unfold sched_flush_handoff. rewrite (proj2 (Z.leb_gt _ _)) by lia.
  destruct (local_ok x e st Hd He) as (k & Hk & Hck). unfold local in Hk. rewrite Hk. unfold mbind at 1. cbn [lift run_bind ret].
  destruct (handoff_ready k) as [t|] eqn:Hh.
  2:{ exists st. split_and!; [done|done|]. constructor; try done. exists k. split; [done|]. symmetry. apply list_insert_id.
      rewrite list_lookup_fmap, Hck. unfold core_threads. cbn. by rewrite Hh. }
  destruct (upd_cpu_ok (me e) (set_handoff_ready None) st (proj1 Hd) He) as (k' & Hck' & -> & _). assert (k' = k) as -> by congruence.
  unfold mbind at 1. cbn [lift run_bind ret]. change (set_cpus _ st) with (put_core (Z.to_nat (me e)) (set_handoff_ready None k) st).
  set (st1 := put_core _ _ st).
  assert (Hd1 : dinv x st1).
  { apply (put_core_ok x _ k); [done|done|done| |done]. intros u [Hu|Hu]; [|done]. left. exists k. auto. }
  assert (Hno : forall c, holds st1 c t -> x = Some t).
  { intros c Hc. pose proof (put_core_holds _ k _ st c t Hck Hc) as [[-> [Hu|Hu]]|[Hne Hu]]; [|done|].
    - by eapply (o_apart _ _ (proj2 Hd)).
    - destruct Hne. eapply (o_one _ _ (proj2 Hd)); [exact Hu|]. exists k. auto. }
  destruct (publish_ok x e t st1 Hd1 He Hno) as (st' & -> & Hd' & Ht). exists st'. split_and!; [done|done|].
  destruct Ht as [T1 T2 T3 T4 T5]. constructor; [|exists k; split; [done|]|done|done].
  - intros u. destruct (decide (u = t)) as [->|Hu]; [done|]. by apply (kept_drest (threads st1)), T1.
  - rewrite T3. unfold st1, put_core. cbn. by rewrite list_fmap_insert.
Qed.
End Proofs.
End Dispatch.
