(* ===== verification/SchedState.v ===== *)
(** * Scheduler state: [kernel/sched/state.c]

    [SleepHeap] is the queue of sleeping threads, a binary heap ordered by wake-up tick;
    [Pids] allocates process identifiers; [SchedLock] is the recursive, interrupt-disabling
    scheduler lock. *)

From S2P Require Import Prelude Memory BinHeap IntrusiveHeap Sched.
From stdpp Require Import functions relations.
Open Scope Z_scope.

Module SleepHeap.

Abbreviation thread_store := (tid -> sched_thread_t).

Definition SCHED_SLEEP_CAPACITY : Z := 4096.

(** [sched_sleep_t]; the wake-up tick it caches belongs to the timer code. *)
Record sched_sleep_t := mk_sleep {
  sheap : list (ptr tid);
  scount : Z
}.

(** The comparison of [sleep_heap_less] on the two pointers it loads. *)
Definition sleep_less (ts : thread_store) (a b : ptr tid) : bool :=
  match a with
  | None => false
  | Some a =>
      match b with
      | None => true
      | Some b =>
          if negb (wake_tick (ts a) =? wake_tick (ts b)) then wake_tick (ts a) <? wake_tick (ts b)
          else pid (ts a) <? pid (ts b)
      end
  end.

Section Defs.
Context `{Arch}.
Implicit Types (ts : thread_store) (sl : sched_sleep_t) (t : tid) (thread : ptr tid).

#[local] Instance sleep_ops : HeapOps sched_thread_t := {|
  hword := wrap; get_index := sleep_index; set_index := set_sleep_index; hless := sleep_less |}.

Definition sleep_heap_less ts sl (left right : Z) : option bool :=
  a ← mload (sheap sl) left;
  b ← mload (sheap sl) right;
  Some (sleep_less ts a b).

Definition sleep_heap_contains ts sl thread : option bool :=
  match thread with
  | None => Some false
  | Some t =>
      if negb (sleep_queued (ts t)) then Some false
      else if scount sl <=? sleep_index (ts t) then Some false
      else c ← mload (sheap sl) (sleep_index (ts t)); Some (bool_decide (c = Some t))
  end.

Definition sleep_heap_swap ts sl (left right : Z) : option (thread_store * sched_sleep_t) :=
  '(ts, h) ← heap_swap ts (sheap sl) left right;
  Some (ts, mk_sleep h (scount sl)).

Definition sleep_heap_sift_up ts sl (index : Z) : option (thread_store * sched_sleep_t) :=
  '(ts, h) ← heap_sift_up (S (Z.to_nat index)) ts (sheap sl) index;
  Some (ts, mk_sleep h (scount sl)).

Definition sleep_heap_sift_down ts sl (index : Z) : option (thread_store * sched_sleep_t) :=
  '(ts, h) ← heap_sift_down (S (Z.to_nat (scount sl))) ts (sheap sl) (scount sl) index;
  Some (ts, mk_sleep h (scount sl)).

Definition sleep_heap_find sl thread : option Z :=
  match thread with
  | None => Some (-1)
  | Some t => heap_find (Z.to_nat (scount sl)) (sheap sl) 0 t
  end.

Definition sleep_clear (th : sched_thread_t) : sched_thread_t :=
  set_sleep_index 0 (set_sleep_queued false th).

Definition sleep_heap_remove_at ts sl (index : Z) : option (thread_store * sched_sleep_t) :=
  if scount sl <=? index then Some (ts, sl)
  else
    removed ← mload (sheap sl) index;
    let sl := mk_sleep (sheap sl) (wrap (scount sl - 1)) in
    '(ts, sl) ← (if negb (index =? scount sl) then
                   let last := scount sl in
                   l ← mload (sheap sl) last;
                   h ← mstore (sheap sl) index l;
                   let ts := store_index ts l index in
                   '(ts, sl) ← sleep_heap_sift_down ts (mk_sleep h (scount sl)) index;
                   sleep_heap_sift_up ts sl index
                 else Some (ts, sl));
    h ← mstore (sheap sl) (scount sl) None;
    let ts := match removed with
              | Some r => <[r := sleep_clear (ts r)]> ts
              | None => ts
              end in
    Some (ts, mk_sleep h (scount sl)).

(** A thread still marked as queued is taken out before it is inserted again. *)
Definition sleep_heap_insert ts sl thread : option (bool * thread_store * sched_sleep_t) :=
  match thread with
  | None => Some (true, ts, sl)
  | Some t =>
      '(ts, sl) ← (if sleep_queued (ts t) then
                     contains ← sleep_heap_contains ts sl thread;
                     '(ts, sl) ← (if (contains : bool)
                                  then sleep_heap_remove_at ts sl (sleep_index (ts t))
                                  else found ← sleep_heap_find sl thread;
                                       if 0 <=? found then sleep_heap_remove_at ts sl found
                                       else Some (ts, sl));
                     Some (<[t := sleep_clear (ts t)]> ts, sl)
                   else Some (ts, sl));
      found ← sleep_heap_find sl thread;
      '(ts, sl) ← (if 0 <=? found then sleep_heap_remove_at ts sl found else Some (ts, sl));
      if SCHED_SLEEP_CAPACITY <=? scount sl then Some (false, ts, sl)
      else
        let index := scount sl in
        h ← mstore (sheap sl) index (Some t);
        let ts := <[t := set_sleep_queued true (ts t)]> ts in
        let ts := <[t := set_sleep_index index (ts t)]> ts in
        '(ts, sl) ← sleep_heap_sift_up ts (mk_sleep h (wrap (index + 1))) index;
        Some (true, ts, sl)
  end.

Definition sleep_heap_remove ts sl thread : option (thread_store * sched_sleep_t) :=
  match thread with
  | None => Some (ts, sl)
  | Some t =>
      contains ← sleep_heap_contains ts sl thread;
      if (contains : bool) then sleep_heap_remove_at ts sl (sleep_index (ts t))
      else
        found ← sleep_heap_find sl thread;
        if 0 <=? found then
          sleep_heap_remove_at (<[t := set_sleep_index found (set_sleep_queued true (ts t))]> ts) sl found
        else Some (<[t := sleep_clear (ts t)]> ts, sl)
  end.

Definition sleep_heap_top sl : option (ptr tid) :=
  if scount sl =? 0 then Some None else mload (sheap sl) 0.

(** ** Correctness *)

Lemma sleep_less_lex ts a b :
  sleep_less ts (Some a) (Some b) = true <->
  wake_tick (ts a) < wake_tick (ts b) \/ wake_tick (ts a) = wake_tick (ts b) /\ pid (ts a) < pid (ts b).
Proof. cbn. repeat case_test; rewrite Z.ltb_lt; lia. Qed.

#[local] Instance sleep_laws : HeapLaws sched_thread_t.
Proof.
  split; try done.
  - intros z Hz. apply wrap_small. pose proof SIZE_MOD_ge. lia.
  - by intros [].
  - intros ts ts' Hk a b. cbn. unfold sleep_less. destruct a as [a|], b as [b|]; try done.
    pose proof (Hk a) as Ha. pose proof (Hk b) as Hb.
    assert (forall t, wake_tick (ts t) = wake_tick (ts' t) /\ pid (ts t) = pid (ts' t)) as Hf.
    { intros t. specialize (Hk t). split; [by apply (f_equal wake_tick) in Hk | by apply (f_equal pid) in Hk]. }
    destruct (Hf a) as [-> ->], (Hf b) as [-> ->]. done.
  - intros ts. split; intros *; rewrite <- ?not_true_iff_false; cbn [hless sleep_ops];
      rewrite ?sleep_less_lex; lia.
Qed.

(** The sleepers, read off the array. *)
Definition sleepers sl : list tid := omap id (sheap sl).

Definition sleep_cells (live : list tid) : list (ptr tid) :=
  (Some <$> live) ++ replicate (Z.to_nat SCHED_SLEEP_CAPACITY - length live) None.

(** The heap holds exactly the threads marked as queued, each at the position it stores. *)
Record sleep_inv ts sl : Prop := {
  si_cells : sheap sl = sleep_cells (sleepers sl);
  si_count : scount sl = zlen (sleepers sl);
  si_fits : zlen (sleepers sl) <= SCHED_SLEEP_CAPACITY;
  si_index : indexed ts (sleepers sl);
  si_order : heap_ok (tless ts) (sleepers sl);
  si_queued : forall t, sleep_queued (ts t) = true <-> t ∈ sleepers sl
}.

Lemma sleepers_cells live n : sleepers (mk_sleep (sleep_cells live) n) = live.
Proof.
  unfold sleepers, sleep_cells. cbn [sheap].
  generalize (Z.to_nat SCHED_SLEEP_CAPACITY - length live)%nat as k. intros k.
  induction live as [|t live IH]; simpl; [by induction k | by f_equal].
Qed.

(** What a heap operation leaves of a thread other than its position. *)
Definition skept ts ts' t : Prop := set_sleep_index 0 (ts' t) = set_sleep_index 0 (ts t).

Lemma skept_queued ts ts' t : skept ts ts' t -> sleep_queued (ts' t) = sleep_queued (ts t).
Proof. unfold skept. intros Hk. by apply (f_equal sleep_queued) in Hk. Qed.

Lemma tless_wake ts ts' :
  (forall t, wake_tick (ts' t) = wake_tick (ts t) /\ pid (ts' t) = pid (ts t)) ->
  forall a b, tless ts' a b = tless ts a b.
Proof.
  intros Hk a b. unfold tless. cbn. destruct (Hk a) as [-> ->], (Hk b) as [-> ->]. done.
Qed.

Lemma skept_wake ts ts' t :
  skept ts ts' t -> wake_tick (ts' t) = wake_tick (ts t) /\ pid (ts' t) = pid (ts t).
Proof.
  unfold skept. intros Hk. split; [by apply (f_equal wake_tick) in Hk | by apply (f_equal pid) in Hk].
Qed.

(** Moving the last thread into the cell of the removed one and repairing the heap. *)
Lemma sleep_refill ts init (l : tid) (i : nat) rest :
  indexed ts (init ++ [l]) -> heap_ok (tless ts) (init ++ [l]) -> (i < length init)%nat ->
  zlen init < SCHED_SLEEP_CAPACITY ->
  exists ts' live',
    (let sl := mk_sleep ((Some <$> (<[i := l]> init)) ++ rest) (zlen init) in
     '(ts, sl) ← sleep_heap_sift_down (store_index ts (Some l) (Z.of_nat i)) sl (Z.of_nat i);
     sleep_heap_sift_up ts sl (Z.of_nat i))
    = Some (ts', mk_sleep ((Some <$> live') ++ rest) (zlen init)) /\
    live' ≡ₚ <[i := l]> init /\ indexed ts' live' /\ heap_ok (tless ts') live' /\
    moves (init ++ [l]) ts ts'.
Proof.
  intros Hix Hok Hi Hlen. unfold SCHED_SLEEP_CAPACITY in Hlen.
  pose proof (indexed_NoDup _ _ Hix) as Hnd. apply list.NoDup_app in Hnd as (_ & Hl & _).
  assert (l ∉ init) as Hli by (intros Hin; eapply Hl; [exact Hin | constructor]).
  assert (indexed ts init) as Hix0 by (intros k u Hk; apply Hix; by apply lookup_app_l_Some).
  assert (heap_ok (tless ts) init) as Hok0
    by (rewrite <- (take_app_length init [l]); by apply heap_ok_take).
  destruct (heap_fill ts init i l Hix0 Hok0 Hli Hi) as (Hix1 & Hh1 & Hm1).
  set (ts1 := store_index ts (Some l) (Z.of_nat i)) in *. set (live1 := <[i := l]> init) in *.
  assert (length live1 = length init) as Hl1 by apply length_insert.
  assert (zlen live1 = zlen init) as Hz by (unfold zlen; by rewrite Hl1).
  destruct (sift_down_up_heap (S (Z.to_nat (zlen init))) (S (Z.to_nat (Z.of_nat i))) ts1 live1 rest i)
    as (ts2 & h2 & ts3 & live3 & Hd & Hu & Hp & Hix3 & Hok3 & Hm3); try done; unfold zlen in *; try lia.
  exists ts3, live3. unfold sleep_heap_sift_down, sleep_heap_sift_up. cbn [sheap scount].
  rewrite Hz in Hd. rewrite Hd. cbn [mbind option_bind sheap scount]. rewrite Hu. cbn [mbind option_bind]. split_and!; try done.
  eapply moves_trans; [| |exact Hm3].
  - intros t Ht. rewrite <- Permutation_cons_append. unfold live1 in Ht.
    apply list_elem_of_lookup in Ht as [k Hk]. apply list_lookup_insert_Some in Hk as [(_ & -> & _)|[_ Hk]].
    + by left.
    + right. apply list_elem_of_lookup. eauto.
  - eapply moves_trans; [|apply moves_refl|exact Hm1]. intros t. by rewrite <- Permutation_cons_append.
Qed.

Lemma sleep_inv_ext ts ts' sl :
  (forall u, ts' u = ts u) -> sleep_inv ts sl -> sleep_inv ts' sl.
Proof.
  intros He [Hc Hn Hf Hix Hok Hq]. split; try done.
  - intros k u Hk. rewrite He. by apply Hix.
  - eapply heap_ok_ext; [|exact Hok]. intros a b _ _. symmetry. apply tless_wake. intros u. by rewrite He.
  - intros u. rewrite He. apply Hq.
Qed.

Lemma sleep_cell ts sl (i : nat) t :
  sleep_inv ts sl -> sleepers sl !! i = Some t -> mload (sheap sl) (Z.of_nat i) = Some (Some t).
Proof. intros [-> _ _ _ _ _] Hi. by apply cell_live. Qed.

(** A heap with the cells [live], whose threads are the queued ones. *)
Lemma sleep_inv_build ts live :
  zlen live <= SCHED_SLEEP_CAPACITY -> indexed ts live -> heap_ok (tless ts) live ->
  (forall t, sleep_queued (ts t) = true <-> t ∈ live) ->
  sleep_inv ts (mk_sleep (sleep_cells live) (zlen live)).
Proof. intros. split; rewrite sleepers_cells; done. Qed.

Lemma sleep_cells_pop init (l : tid) rest live :
  length live = length init ->
  sleep_cells (init ++ [l]) = (Some <$> (init ++ [l])) ++ rest ->
  zlen init < SCHED_SLEEP_CAPACITY ->
  mstore ((Some <$> live) ++ Some l :: rest) (zlen init) None = Some (sleep_cells live).
Proof.
  intros Hlen Hc%app_inv_head Hz. unfold zlen in *. rewrite mstore_ok.
  2: { unfold zlen. rewrite length_app, length_fmap. simpl. lia. }
  rewrite Nat2Z.id. f_equal. replace (length init) with (length (Some <$> live) + 0)%nat
    by (rewrite length_fmap; lia).
  rewrite insert_app_r. simpl. unfold sleep_cells. f_equal. rewrite Hlen.
  rewrite length_app in Hc. simpl in Hc. rewrite <- Hc. unfold SCHED_SLEEP_CAPACITY in *.
  replace (Z.to_nat 4096 - length init)%nat with (S (Z.to_nat 4096 - (length init + 1))) by lia. done.
Qed.

(** The heap after the repair, before the flags of the removed thread [t] are cleared; the
    last thread [l] is still in the cell behind the heap. *)
Lemma sleep_detach ts init (l : tid) (i : nat) t rest :
  indexed ts (init ++ [l]) -> heap_ok (tless ts) (init ++ [l]) -> (init ++ [l]) !! i = Some t ->
  zlen init < SCHED_SLEEP_CAPACITY ->
  exists ts1 live1,
    (if negb (Z.of_nat i =? zlen init) then
       l' ← mload ((Some <$> (init ++ [l])) ++ rest) (zlen init);
       h ← mstore ((Some <$> (init ++ [l])) ++ rest) (Z.of_nat i) l';
       '(ts, sl) ← sleep_heap_sift_down (store_index ts l' (Z.of_nat i)) (mk_sleep h (zlen init)) (Z.of_nat i);
       sleep_heap_sift_up ts sl (Z.of_nat i)
     else Some (ts, mk_sleep ((Some <$> (init ++ [l])) ++ rest) (zlen init)))
    = Some (ts1, mk_sleep ((Some <$> live1) ++ Some l :: rest) (zlen init)) /\
    init ++ [l] ≡ₚ t :: live1 /\ indexed ts1 live1 /\ heap_ok (tless ts1) live1 /\
    moves (init ++ [l]) ts ts1.
Proof.
  intros Hix Hok Hi Hcap.
  assert ((Some <$> (init ++ [l])) ++ rest = (Some <$> init) ++ Some l :: rest) as Hsplit
    by (by rewrite fmap_app, <- app_assoc).
  pose proof (lookup_lt_Some _ _ _ Hi) as Hlt. rewrite length_app in Hlt. simpl in Hlt.
  destruct (Z.eqb_spec (Z.of_nat i) (zlen init)) as [Heq|Hne]; cbn [negb].
  - exists ts, init. unfold zlen in Heq. assert (i = length init) as -> by lia.
    rewrite list_lookup_middle in Hi by done. simplify_eq. rewrite Hsplit. split_and!; try done.
    + symmetry. apply Permutation_cons_append.
    + intros k u Hk. apply Hix. by apply lookup_app_l_Some.
    + rewrite <- (take_app_length init [t]). by apply heap_ok_take.
  - unfold zlen in Hne. rewrite lookup_app_l in Hi by lia.
    change (zlen init) with (Z.of_nat (length init)) at 1.
    rewrite (cell_live _ rest (length init) l) by (by rewrite list_lookup_middle).
    cbn [mbind option_bind]. rewrite Hsplit, store_live by lia. cbn [mbind option_bind].
    destruct (sleep_refill ts init l i (Some l :: rest)) as (ts1 & live1 & Hr & Hp & ? & ? & ?);
      try done; [lia|].
    exists ts1, live1. split_and!; try done. rewrite Hp, <- Permutation_cons_append.
    symmetry. by apply insert_Permutation.
Qed.

Lemma sleep_remove_at_spec ts sl (i : nat) t :
  sleep_inv ts sl -> sleepers sl !! i = Some t ->
  exists ts' sl', sleep_heap_remove_at ts sl (Z.of_nat i) = Some (ts', sl') /\ sleep_inv ts' sl' /\
    sleepers sl ≡ₚ t :: sleepers sl' /\ ts' t = sleep_clear (ts t) /\
    (forall u, u <> t -> skept ts ts' u).
Proof.
  intros [Hc Hn Hf Hix Hok Hq] Hi. pose proof SIZE_MOD_ge.
  destruct (exists_last (l := sleepers sl)) as (init & l & Hl); [by intros E; rewrite E in Hi|].
  rewrite Hl in *. rewrite zlen_app in Hf, Hn. change (zlen [l]) with 1 in *.
  pose proof (zlen_nonneg init). unfold SCHED_SLEEP_CAPACITY in Hf.
  pose proof (lookup_lt_Some _ _ _ Hi) as Hlt. rewrite length_app in Hlt. simpl in Hlt.
  set (rest := replicate (Z.to_nat SCHED_SLEEP_CAPACITY - length (init ++ [l])) (None : ptr tid)).
  assert (sleep_cells (init ++ [l]) = (Some <$> (init ++ [l])) ++ rest) as Hcr by done.
  unfold sleep_heap_remove_at. rewrite Hn, (proj2 (Z.leb_gt _ _)) by (unfold zlen; lia).
  rewrite Hc, Hcr, (cell_live _ rest i t) by done. cbn [mbind option_bind sheap scount].
  rewrite wrap_small by lia. replace (zlen init + 1 - 1) with (zlen init) by lia.
  pose proof (indexed_NoDup _ _ Hix) as Hnd.
  destruct (sleep_detach ts init l i t rest Hix Hok Hi) as (ts1 & live1 & -> & Hperm & Hix1 & Hok1 & Hm1);
    [unfold SCHED_SLEEP_CAPACITY; lia|].
  cbn [mbind option_bind sheap scount].
  assert (length live1 = length init) as Hlen1.
  { pose proof (Permutation_length Hperm) as HH. rewrite length_app in HH. simpl in HH. lia. }
  rewrite (sleep_cells_pop init l rest live1) by (done || (unfold SCHED_SLEEP_CAPACITY; lia)).
  cbn [mbind option_bind].
  assert (t ∉ live1) as Htn by (rewrite Hperm in Hnd; by apply list.NoDup_cons in Hnd as []).
  assert (zlen init = zlen live1) as Hz by (unfold zlen; by rewrite Hlen1). rewrite Hz.
  set (ts2 := <[t := sleep_clear (ts1 t)]> ts1).
  assert (Hkept : forall u, u <> t -> skept ts ts2 u).
  { intros u Hu. unfold skept, ts2. rewrite fn_lookup_insert_ne by done. symmetry. apply Hm1. }
  assert (ts2 t = sleep_clear (ts t)) as H2t.
  { unfold ts2, sleep_clear. rewrite fn_lookup_insert. destruct Hm1 as [_ Hk1]. specialize (Hk1 t).
    cbn in Hk1. apply (f_equal (fun th => set_sleep_queued false th)) in Hk1. symmetry. exact Hk1. }
  eexists _, _. split_and!; [done| |by rewrite sleepers_cells|done|done].
  apply sleep_inv_build.
  - unfold SCHED_SLEEP_CAPACITY. lia.
  - intros k u Hk. unfold ts2. rewrite fn_lookup_insert_ne; [by apply Hix1|].
    intros ->. apply Htn, list_elem_of_lookup. eauto.
  - eapply heap_ok_ext; [|exact Hok1]. intros a b _ _. symmetry. apply tless_wake. intros u.
    unfold ts2. destruct (decide (u = t)) as [->|]; [by rewrite fn_lookup_insert | by rewrite fn_lookup_insert_ne].
  - intros u. destruct (decide (u = t)) as [->|Hu].
    + rewrite H2t. cbn. split; [done|]. intros ?. done.
    + rewrite (skept_queued _ _ u (Hkept u Hu)), Hq, Hperm, elem_of_cons.
      split; [by intros [->|] | by right].
Qed.

Lemma sleep_find_spec ts sl t :
  sleep_inv ts sl ->
  sleep_heap_find sl (Some t) = Some (if bool_decide (t ∈ sleepers sl) then sleep_index (ts t) else -1).
Proof.
  intros [Hc Hn _ Hix _ _]. unfold sleep_heap_find. rewrite Hn, Hc. unfold sleep_cells, zlen.
  rewrite Nat2Z.id. refine (heap_find_spec ts (sleepers sl) _ t 0 _ Hix _ _); [done|]. lia.
Qed.

Lemma sleep_locate ts sl t :
  sleep_inv ts sl -> t ∈ sleepers sl ->
  exists i, sleepers sl !! i = Some t /\ sleep_index (ts t) = Z.of_nat i.
Proof.
  intros Hinv [i Hi]%list_elem_of_lookup. exists i. split; [done|]. by apply (si_index _ _ Hinv).
Qed.

Lemma sleep_contains_spec ts sl t :
  sleep_inv ts sl -> sleep_heap_contains ts sl (Some t) = Some (bool_decide (t ∈ sleepers sl)).
Proof.
  intros Hinv. unfold sleep_heap_contains. destruct (sleep_queued (ts t)) eqn:Hq; cbn [negb].
  - apply (si_queued _ _ Hinv) in Hq. rewrite bool_decide_eq_true_2 by done.
    destruct (sleep_locate ts sl t Hinv Hq) as (i & Hi & Hidx).
    rewrite Hidx, (si_count _ _ Hinv). pose proof (lookup_lt_Some _ _ _ Hi).
    rewrite (proj2 (Z.leb_gt _ _)) by (unfold zlen; lia).
    rewrite (sleep_cell ts sl i t) by done. cbn [mbind option_bind].
    by rewrite bool_decide_eq_true_2.
  - rewrite bool_decide_eq_false_2; [done|]. intros Hin%(si_queued _ _ Hinv). congruence.
Qed.

(** What an operation on thread [t] may change. *)
Definition touches ts ts' t : Prop := forall u, u <> t -> skept ts ts' u.

Lemma touches_trans ts1 ts2 ts3 t : touches ts1 ts2 t -> touches ts2 ts3 t -> touches ts1 ts3 t.
Proof. intros H1 H2 u Hu. unfold skept. by rewrite (H2 u Hu), (H1 u Hu). Qed.

(** Removing a thread, queued or not. *)
Lemma sleep_remove_spec ts sl t :
  sleep_inv ts sl ->
  exists ts' sl', sleep_heap_remove ts sl (Some t) = Some (ts', sl') /\ sleep_inv ts' sl' /\
    (forall u, u ∈ sleepers sl' <-> u ∈ sleepers sl /\ u <> t) /\
    ts' t = sleep_clear (ts t) /\ touches ts ts' t.
Proof.
  intros Hinv. unfold sleep_heap_remove. rewrite (sleep_contains_spec ts sl t Hinv).
  cbn [mbind option_bind]. destruct (bool_decide_reflect (t ∈ sleepers sl)) as [Hin|Hout].
  - destruct (sleep_locate ts sl t Hinv Hin) as (i & Hi & ->).
    destruct (sleep_remove_at_spec ts sl i t Hinv Hi) as (ts' & sl' & -> & Hinv' & Hp & Ht & Hk).
    exists ts', sl'. split_and!; try done. intros u.
    pose proof (indexed_NoDup _ _ (si_index _ _ Hinv)) as Hnd. rewrite Hp in Hnd |- *.
    apply list.NoDup_cons in Hnd as [Hn _]. rewrite elem_of_cons. split.
    + intros Hu. split; [by right|]. by intros ->.
    + by intros [[->|?] ?].
  - rewrite (sleep_find_spec ts), bool_decide_eq_false_2 by done. cbn [mbind option_bind Z.leb Z.compare].
    eexists _, _. split_and!; [done| | |by rewrite fn_lookup_insert|].
    + assert (sleep_queued (ts t) = false) as Hq.
      { destruct (sleep_queued (ts t)) eqn:E; [|done]. by apply (si_queued _ _ Hinv) in E. }
      destruct Hinv as [Hc Hn Hf Hix Hok Hqs]. split; try done.
      * intros k u Hk. rewrite fn_lookup_insert_ne; [by apply Hix|].
        intros ->. apply Hout, list_elem_of_lookup. eauto.
      * eapply heap_ok_ext; [|exact Hok]. intros a b _ _. symmetry. apply tless_wake. intros u.
        destruct (decide (u = t)) as [->|]; [by rewrite fn_lookup_insert | by rewrite fn_lookup_insert_ne].
      * intros u. destruct (decide (u = t)) as [->|]; [|by rewrite fn_lookup_insert_ne].
        rewrite fn_lookup_insert. cbn. split; [done|]. by intros ?%Hout.
    + intros u. split; [intros Hu; split; [done|by intros ->] | by intros []].
    + intros u Hu. unfold skept. by rewrite fn_lookup_insert_ne.
Qed.

(** Inserting a thread that is not queued. *)
Lemma sleep_push_spec ts sl t :
  sleep_inv ts sl -> t ∉ sleepers sl -> zlen (sleepers sl) < SCHED_SLEEP_CAPACITY ->
  exists ts' sl',
    (h ← mstore (sheap sl) (scount sl) (Some t);
     let ts := <[t := set_sleep_queued true (ts t)]> ts in
     let ts := <[t := set_sleep_index (scount sl) (ts t)]> ts in
     sleep_heap_sift_up ts (mk_sleep h (wrap (scount sl + 1))) (scount sl)) = Some (ts', sl') /\
    sleep_inv ts' sl' /\ sleepers sl' ≡ₚ t :: sleepers sl /\ touches ts ts' t /\
    sleep_clear (ts' t) = sleep_clear (ts t).
Proof.
  intros [Hc Hn Hf Hix Hok Hq] Ht Hlt. pose proof SIZE_MOD_ge. unfold SCHED_SLEEP_CAPACITY in Hlt.
  set (live := sleepers sl) in *. pose proof (zlen_nonneg live).
  set (rest := replicate (Z.to_nat 4096 - S (length live)) (None : ptr tid)).
  assert (sheap sl = (Some <$> live) ++ None :: rest) as ->.
  { rewrite Hc. unfold sleep_cells, rest, SCHED_SLEEP_CAPACITY. f_equal.
    replace (Z.to_nat 4096 - length live)%nat with (S (Z.to_nat 4096 - S (length live))) by (unfold zlen in *; lia).
    done. }
  rewrite Hn, mstore_ok by (rewrite zlen_app; unfold zlen; rewrite length_fmap; simpl; lia).
  cbn [mbind option_bind].
  replace (<[Z.to_nat (zlen live):=Some t]> ((Some <$> live) ++ None :: rest))
    with ((Some <$> (live ++ [t])) ++ rest).
  2: { unfold zlen. rewrite Nat2Z.id, fmap_app, <- app_assoc. symmetry.
       replace (length live) with (length (Some <$> live) + 0)%nat by (rewrite length_fmap; lia).
       by rewrite insert_app_r. }
  set (ts0 := <[t := set_sleep_queued true (ts t)]> ts).
  assert (forall u, u <> t -> ts0 u = ts u) as H0u by (intros u Hu; unfold ts0; by rewrite fn_lookup_insert_ne).
  assert (indexed ts0 live) as Hix0.
  { intros k u Hk. rewrite H0u; [by apply Hix|]. intros ->. apply Ht, list_elem_of_lookup. eauto. }
  assert (heap_ok (tless ts0) live) as Hok0.
  { eapply heap_ok_ext; [|exact Hok]. intros a b _ _. symmetry. apply tless_wake. intros u.
    unfold ts0. destruct (decide (u = t)) as [->|]; [by rewrite fn_lookup_insert | by rewrite fn_lookup_insert_ne]. }
  destruct (heap_push ts0 live rest t (S (Z.to_nat (zlen live)))) as (ts' & live' & Hs & Hp & Hix' & Hok' & Hm);
    try done; try (unfold zlen in *; lia).
  assert (length live' = S (length live)) as Hl' by by rewrite Hp.
  unfold sleep_heap_sift_up. cbn [sheap scount].
  change (<[t:=set_sleep_index (zlen live) (ts0 t)]> ts0) with (store_index ts0 (Some t) (zlen live)).
  rewrite Hs. cbn [mbind option_bind]. rewrite wrap_small by lia.
  assert ((Some <$> live') ++ rest = sleep_cells live') as -> by (unfold sleep_cells; by rewrite Hl').
  replace (zlen live + 1) with (zlen live') by (unfold zlen; lia).
  assert (forall u, sleep_queued (ts' u) = sleep_queued (ts0 u)) as Hq'.
  { intros u. destruct Hm as [_ Hk]. specialize (Hk u). symmetry. by apply (f_equal sleep_queued) in Hk. }
  eexists _, _. split_and!; [done| |by rewrite sleepers_cells| |].
  - apply sleep_inv_build; [unfold SCHED_SLEEP_CAPACITY, zlen in *; lia|done|done|].
    intros u. rewrite Hq', Hp, elem_of_cons. destruct (decide (u = t)) as [->|Hu].
    + unfold ts0. rewrite fn_lookup_insert. cbn. split; auto.
    + rewrite H0u by done. rewrite Hq. split; [by right | by intros [->|]].
  - intros u Hu. destruct Hm as [_ Hk]. unfold skept. specialize (Hk u). cbn in Hk.
    by rewrite <- Hk, H0u.
  - destruct Hm as [_ Hk]. specialize (Hk t). apply (f_equal sleep_clear) in Hk. cbn in Hk.
    etransitivity; [symmetry; exact Hk|]. unfold ts0. by rewrite fn_lookup_insert.
Qed.

(** The first part of an insertion: the thread is out of the heap. *)
Lemma sleep_eject_spec ts sl t :
  sleep_inv ts sl ->
  exists ts1 sl1,
    (if sleep_queued (ts t) then
       contains ← sleep_heap_contains ts sl (Some t);
       '(ts, sl) ← (if (contains : bool)
                    then sleep_heap_remove_at ts sl (sleep_index (ts t))
                    else found ← sleep_heap_find sl (Some t);
                         if 0 <=? found then sleep_heap_remove_at ts sl found
                         else Some (ts, sl));
       Some (<[t := sleep_clear (ts t)]> ts, sl)
     else Some (ts, sl)) = Some (ts1, sl1) /\
    sleep_inv ts1 sl1 /\ touches ts ts1 t /\ sleep_clear (ts1 t) = sleep_clear (ts t) /\
    (forall u, u ∈ sleepers sl1 <-> u ∈ sleepers sl /\ u <> t).
Proof.
  intros Hinv. destruct (sleep_queued (ts t)) eqn:Hq.
  - apply (si_queued _ _ Hinv) in Hq. rewrite (sleep_contains_spec ts sl t Hinv).
    rewrite bool_decide_eq_true_2 by done. cbn [mbind option_bind].
    destruct (sleep_locate ts sl t Hinv Hq) as (i & Hi & ->).
    destruct (sleep_remove_at_spec ts sl i t Hinv Hi) as (ts1 & sl1 & -> & Hinv1 & Hp & Ht & Hk).
    cbn [mbind option_bind].
    assert (Hsame : forall u, <[t := sleep_clear (ts1 t)]> ts1 u = ts1 u).
    { intros u. destruct (decide (u = t)) as [->|]; [|by rewrite fn_lookup_insert_ne].
      rewrite fn_lookup_insert, Ht. done. }
    eexists _, sl1. split_and!; [done|by eapply sleep_inv_ext| | |].
    + intros u Hu. unfold skept. rewrite Hsame. by apply Hk.
    + rewrite Hsame, Ht. done.
    + intros u. pose proof (indexed_NoDup _ _ (si_index _ _ Hinv)) as Hnd. rewrite Hp in Hnd |- *.
      apply list.NoDup_cons in Hnd as [Hn _]. rewrite elem_of_cons. split.
      * intros Hu. split; [by right|]. by intros ->.
      * by intros [[->|?] ?].
  - exists ts, sl. split_and!; try done. intros u. split; [|by intros []].
    intros Hu. split; [done|]. intros ->. apply (si_queued _ _ Hinv) in Hu. congruence.
Qed.

Lemma sleep_insert_spec ts sl t :
  sleep_inv ts sl ->
  exists ok ts' sl', sleep_heap_insert ts sl (Some t) = Some (ok, ts', sl') /\ sleep_inv ts' sl' /\
    touches ts ts' t /\ sleep_clear (ts' t) = sleep_clear (ts t) /\
    (forall u, u ∈ sleepers sl' <-> u ∈ sleepers sl /\ u <> t \/ ok = true /\ u = t) /\
    (ok = false -> zlen (sleepers sl') = SCHED_SLEEP_CAPACITY).
Proof.
  intros Hinv. unfold sleep_heap_insert.
  destruct (sleep_eject_spec ts sl t Hinv) as (ts1 & sl1 & -> & Hinv1 & Htch & Hw & Hmem).
  cbn [mbind option_bind].
  assert (t ∉ sleepers sl1) as Hn by (rewrite Hmem; by intros []).
  rewrite (sleep_find_spec ts1), bool_decide_eq_false_2 by done. cbn [mbind option_bind Z.leb Z.compare].
  destruct (SCHED_SLEEP_CAPACITY <=? scount sl1) eqn:Hcap; bool_facts;
    rewrite (si_count _ _ Hinv1) in Hcap.
  - exists false, ts1, sl1. split_and!; try done.
    + intros u. rewrite Hmem. split; [by left | by intros [?|[? _]]].
    + intros _. pose proof (si_fits _ _ Hinv1). lia.
  - destruct (sleep_push_spec ts1 sl1 t Hinv1 Hn Hcap) as (ts2 & sl2 & Hr & Hinv2 & Hp & Htch2 & Hw2).
    destruct (mstore (sheap sl1) (scount sl1) (Some t)) as [h|]; [|done].
    cbn [mbind option_bind] in *. cbv zeta in *. rewrite Hr. cbn [mbind option_bind].
    exists true, ts2, sl2. split_and!; try done.
    + by eapply touches_trans.
    + congruence.
    + intros u. rewrite Hp, elem_of_cons, Hmem. split; [intros [->|]; auto|].
      intros [?|[_ ->]]; auto.
Qed.

Lemma sleep_top_spec ts sl :
  sleep_inv ts sl ->
  exists r, sleep_heap_top sl = Some r /\
    match r with
    | Some t => t ∈ sleepers sl /\ forall u, u ∈ sleepers sl -> wake_tick (ts t) <= wake_tick (ts u)
    | None => sleepers sl = []
    end.
Proof.
  intros Hinv. unfold sleep_heap_top. rewrite (si_count _ _ Hinv). unfold zlen.
  destruct (sleepers sl) as [|t l] eqn:Hl; [by exists None|].
  rewrite (proj2 (Z.eqb_neq _ _)) by (cbn; lia).
  exists (Some t). split; [apply (sleep_cell ts sl 0); [done|by rewrite Hl]|]. split; [by left|].
  intros u Hu. assert (tless ts u t = false) as Hless.
  { eapply (heap_root_min (tless ts)); [apply (si_order _ _ Hinv)|by rewrite Hl|by rewrite Hl]. }
  unfold tless in Hless. rewrite <- not_true_iff_false in Hless. cbn [hless sleep_ops] in Hless.
  rewrite sleep_less_lex in Hless. lia.
Qed.

(** ** Histories *)

Inductive sleep_step : thread_store * sched_sleep_t -> thread_store * sched_sleep_t -> Prop :=
  | sstep_insert ts sl thread ok ts' sl' :
      sleep_heap_insert ts sl thread = Some (ok, ts', sl') -> sleep_step (ts, sl) (ts', sl')
  | sstep_remove ts sl thread ts' sl' :
      sleep_heap_remove ts sl thread = Some (ts', sl') -> sleep_step (ts, sl) (ts', sl')
  | sstep_remove_top ts sl ts' sl' :
      sleep_heap_remove_at ts sl 0 = Some (ts', sl') -> sleep_step (ts, sl) (ts', sl')
  | sstep_thread ts sl t f :
      (forall th, sleep_queued (f th) = sleep_queued th /\ sleep_index (f th) = sleep_index th) ->
      (sleep_queued (ts t) = false \/ forall th, wake_tick (f th) = wake_tick th /\ pid (f th) = pid th) ->
      sleep_step (ts, sl) (<[t := f (ts t)]> ts, sl).

Lemma sleep_touch ts sl t f :
  sleep_inv ts sl ->
  (forall th, sleep_queued (f th) = sleep_queued th /\ sleep_index (f th) = sleep_index th) ->
  (sleep_queued (ts t) = false \/ forall th, wake_tick (f th) = wake_tick th /\ pid (f th) = pid th) ->
  sleep_inv (<[t := f (ts t)]> ts) sl.
Proof.
  intros [Hc Hn Hf Hix Hok Hq] Hfl Hk.
  assert (Hins : forall u, u <> t -> <[t := f (ts t)]> ts u = ts u) by (intros; by rewrite fn_lookup_insert_ne).
  split; try done.
  - intros k u Hu. cbn. destruct (decide (u = t)) as [->|Hne]; [|rewrite Hins by done; by apply Hix].
    rewrite fn_lookup_insert. destruct (Hfl (ts t)) as [_ ->]. by apply Hix.
  - eapply heap_ok_ext; [|exact Hok]. intros a b Ha Hb. unfold tless. cbn.
    assert (forall u, u ∈ sleepers sl -> wake_tick (<[t := f (ts t)]> ts u) = wake_tick (ts u) /\
              pid (<[t := f (ts t)]> ts u) = pid (ts u)) as Hkey.
    { intros u Hu. destruct (decide (u = t)) as [->|Hne]; [|by rewrite Hins].
      rewrite fn_lookup_insert. destruct Hk as [Hk|Hk]; [|done]. apply Hq in Hu. congruence. }
    destruct (Hkey a Ha) as [-> ->], (Hkey b Hb) as [-> ->]. done.
  - intros u. destruct (decide (u = t)) as [->|Hne]; [|by rewrite Hins].
    rewrite fn_lookup_insert. destruct (Hfl (ts t)) as [-> _]. apply Hq.
Qed.

Lemma sleep_step_inv s s' : sleep_inv s.1 s.2 -> sleep_step s s' -> sleep_inv s'.1 s'.2.
Proof.
  intros Hinv Hs. destruct Hs as [ts sl [t|] ok ts' sl' Hr|ts sl [t|] ts' sl' Hr|ts sl ts' sl' Hr|]; cbn [fst snd] in *.
  - destruct (sleep_insert_spec ts sl t Hinv) as (? & ? & ? & ? & ? & _). by simplify_eq.
  - cbn in Hr. by simplify_eq.
  - destruct (sleep_remove_spec ts sl t Hinv) as (? & ? & ? & ? & _). by simplify_eq.
  - cbn in Hr. by simplify_eq.
  - destruct (sleepers sl) as [|t l] eqn:Hl.
    + unfold sleep_heap_remove_at in Hr. rewrite (si_count _ _ Hinv), Hl in Hr.
      change (zlen [] <=? 0) with true in Hr. cbv iota in Hr. by injection Hr as <- <-.
    + destruct (sleep_remove_at_spec ts sl 0 t Hinv) as (? & ? & Hr' & ? & _); [by rewrite Hl|].
      change (Z.of_nat 0) with 0 in Hr'. by simplify_eq.
  - by apply sleep_touch.
Qed.

Lemma sleep_empty_inv ts : (forall t, sleep_queued (ts t) = false) -> sleep_inv ts (mk_sleep (sleep_cells []) 0).
Proof.
  intros Hq. apply (sleep_inv_build ts []); [by vm_compute|done| |].
  - intros c _ a b Ha. by rewrite lookup_nil in Ha.
  - intros t. rewrite Hq. split; [done|]. by intros ?%elem_of_nil.
Qed.

(** In every history from the empty heap, the sleep queue is an ordered heap that holds
    exactly the threads whose [sleep_queued] flag is set, each once and at the position it
    stores; insertion, removal and removal of the top never leave the array; and the top is a
    thread with the earliest wake-up tick. *)
Theorem sleep_heap_consistent ts sl s' :
  (forall t, sleep_queued (ts t) = false) -> sl = mk_sleep (replicate (Z.to_nat SCHED_SLEEP_CAPACITY) None) 0 ->
  rtc sleep_step (ts, sl) s' ->
  NoDup (sleepers s'.2) /\ heap_ok (tless s'.1) (sleepers s'.2) /\
  (forall t, sleep_queued (s'.1 t) = true <-> t ∈ sleepers s'.2) /\
  (forall i t, sleepers s'.2 !! i = Some t -> sleep_index (s'.1 t) = Z.of_nat i) /\
  (forall p, is_Some (sleep_heap_insert s'.1 s'.2 p) /\ is_Some (sleep_heap_remove s'.1 s'.2 p)) /\
  exists r, sleep_heap_top s'.2 = Some r /\
    match r with
    | Some t => t ∈ sleepers s'.2 /\
        forall u, u ∈ sleepers s'.2 -> wake_tick (s'.1 t) <= wake_tick (s'.1 u)
    | None => sleepers s'.2 = []
    end.
Proof.
  intros Hq -> Hs.
  assert (sleep_inv s'.1 s'.2) as Hinv.
  { assert (sleep_inv ts (mk_sleep (sleep_cells []) 0)) as H0 by by apply sleep_empty_inv.
    remember (ts, mk_sleep (replicate (Z.to_nat SCHED_SLEEP_CAPACITY) None) 0) as s eqn:Es.
    assert (sleep_inv s.1 s.2) as H1.
    { subst s. cbn [fst snd]. unfold sleep_cells in H0. change (length []) with 0%nat in H0.
      rewrite Nat.sub_0_r in H0. exact H0. }
    clear Es H0. induction Hs as [|s s1 s2 Hstep _ IH]; [done|]. by eapply IH, sleep_step_inv. }
  split_and!.
  - by eapply indexed_NoDup, si_index.
  - by apply si_order.
  - by apply si_queued.
  - by apply si_index.
  - intros [t|]; [|done]. destruct (sleep_insert_spec _ _ t Hinv) as (? & ? & ? & -> & _).
    destruct (sleep_remove_spec _ _ t Hinv) as (? & ? & -> & _). done.
  - by apply sleep_top_spec.
Qed.

(** Inserting a sleeper adds exactly that thread, also when it was already queued with
    another wake-up tick, and fails only when the heap is full; removing takes out exactly that
    thread; all other threads keep every field but their position. *)
Theorem sleep_insert_remove_exact ts sl t :
  sleep_inv ts sl ->
  (exists ok ts' sl', sleep_heap_insert ts sl (Some t) = Some (ok, ts', sl') /\ sleep_inv ts' sl' /\
     (forall u, u <> t -> skept ts ts' u) /\
     (forall u, u ∈ sleepers sl' <-> u ∈ sleepers sl /\ u <> t \/ ok = true /\ u = t) /\
     (ok = false -> zlen (sleepers sl') = SCHED_SLEEP_CAPACITY)) /\
  (exists ts' sl', sleep_heap_remove ts sl (Some t) = Some (ts', sl') /\ sleep_inv ts' sl' /\
     (forall u, u <> t -> skept ts ts' u) /\ ts' t = sleep_clear (ts t) /\
     (forall u, u ∈ sleepers sl' <-> u ∈ sleepers sl /\ u <> t)).
Proof.
  intros Hinv. split.
  - destruct (sleep_insert_spec ts sl t Hinv) as (ok & ts' & sl' & ? & ? & ? & _ & ? & ?).
    by exists ok, ts', sl'.
  - destruct (sleep_remove_spec ts sl t Hinv) as (ts' & sl' & ? & ? & ? & ? & ?). by exists ts', sl'.
Qed.
End Defs.

Definition demo_ts (t : tid) : sched_thread_t :=
  mk_thread t THREAD_SLEEPING 0 0 0 0 0 false false UINT32_MAX false 1 (100 - t) false 0 (-1).

Definition demo_sl : sched_sleep_t := mk_sleep (replicate (Z.to_nat SCHED_SLEEP_CAPACITY) None) 0.

Lemma sleep_heap_consistent_witness :
  exists ok ts' sl', @sleep_heap_insert arch64 demo_ts demo_sl (Some 7) = Some (ok, ts', sl') /\
    sleep_heap_top sl' = Some (Some 7) /\ sleep_queued (ts' 7) = true /\ NoDup (sleepers sl').
Proof.
  destruct (@sleep_heap_insert arch64 demo_ts demo_sl (Some 7)) as [[[ok ts'] sl']|] eqn:Hr; [|by vm_compute in Hr].
  exists ok, ts', sl'. split; [done|]. split; [|split].
  - vm_compute in Hr. by injection Hr as _ _ <-.
  - vm_compute in Hr. by injection Hr as _ <- _.
  - assert (rtc (@sleep_step arch64) (demo_ts, demo_sl) (ts', sl')) as Hs
      by (apply rtc_once; by apply (@sstep_insert arch64 demo_ts demo_sl (Some 7) ok)).
    apply (@sleep_heap_consistent arch64 demo_ts demo_sl (ts', sl') (fun t => eq_refl) eq_refl Hs).
Defined.

Lemma sleep_insert_remove_exact_witness :
  exists ts' sl', @sleep_heap_remove arch64 demo_ts demo_sl (Some 7) = Some (ts', sl') /\
    ts' 7 = sleep_clear (demo_ts 7).
Proof.
  assert (@sleep_inv arch64 demo_ts demo_sl) as Hinv by (apply (@sleep_empty_inv arch64); done).
  destruct (@sleep_insert_remove_exact arch64 demo_ts demo_sl 7 Hinv) as [_ (ts' & sl' & ? & _ & _ & ? & _)].
  by exists ts', sl'.
Defined.
End SleepHeap.

(** ** Process identifiers *)

Module Pids.

Inductive sched_pid_class_t := SCHED_PID_IDLE | SCHED_PID_USER | SCHED_PID_KERNEL.

Definition INT_MAX : Z := 2 ^ 31 - 1.
Definition INT_MIN : Z := - 2 ^ 31.

Record pid_counters := mk_pids { next_user_pid : Z; next_kernel_pid : Z }.

(** [None] is a panic. *)
Definition sched_next_pid (procs : pid_counters) (pid_class : sched_pid_class_t) : option (Z * pid_counters) :=
  match pid_class with
  | SCHED_PID_IDLE => Some (0, procs)
  | SCHED_PID_USER =>
      if (next_user_pid procs <=? 0) || (next_user_pid procs =? INT_MAX) then None
      else Some (next_user_pid procs, mk_pids (next_user_pid procs + 1) (next_kernel_pid procs))
  | SCHED_PID_KERNEL =>
      if (0 <=? next_kernel_pid procs) || (next_kernel_pid procs =? INT_MIN) then None
      else Some (next_kernel_pid procs, mk_pids (next_user_pid procs) (next_kernel_pid procs - 1))
  end.

Fixpoint alloc_pids (procs : pid_counters) (cs : list sched_pid_class_t)
  : option (list (sched_pid_class_t * Z) * pid_counters) :=
  match cs with
  | [] => Some ([], procs)
  | c :: cs =>
      '(p, procs) ← sched_next_pid procs c;
      '(ps, procs) ← alloc_pids procs cs;
      Some ((c, p) :: ps, procs)
  end.

Definition class_ok (c : sched_pid_class_t) (p : Z) : Prop :=
  match c with SCHED_PID_IDLE => p = 0 | SCHED_PID_USER => 0 < p | SCHED_PID_KERNEL => p < 0 end.

(** What is known of the identifiers handed out from the counters [procs] on. *)
Definition fresh_from (procs : pid_counters) (c : sched_pid_class_t) (p : Z) : Prop :=
  match c with
  | SCHED_PID_IDLE => p = 0
  | SCHED_PID_USER => next_user_pid procs <= p
  | SCHED_PID_KERNEL => p <= next_kernel_pid procs
  end.

Lemma alloc_pids_spec cs procs ps procs' :
  0 < next_user_pid procs -> next_kernel_pid procs < 0 ->
  alloc_pids procs cs = Some (ps, procs') ->
  ps.*1 = cs /\ Forall (fun cp => class_ok cp.1 cp.2 /\ fresh_from procs cp.1 cp.2) ps /\
  forall i j c c' p, c <> SCHED_PID_IDLE -> ps !! i = Some (c, p) -> ps !! j = Some (c', p) -> i = j.
Proof.
  revert procs ps. induction cs as [|c cs IH]; intros procs ps Hu Hk Hr; cbn in Hr.
  { by simplify_eq; split_and!. }
  destruct (sched_next_pid procs c) as [[p procs1]|] eqn:Hn; [|done]. cbn [mbind option_bind] in Hr.
  destruct (alloc_pids procs1 cs) as [[ps1 procs2]|] eqn:Ha; [|done]. simplify_eq/=.
  assert (0 < next_user_pid procs1 /\ next_kernel_pid procs1 < 0 /\
          class_ok c p /\ fresh_from procs c p /\
          (forall c' p', class_ok c' p' -> fresh_from procs1 c' p' ->
             fresh_from procs c' p' /\ (c <> SCHED_PID_IDLE \/ c' <> SCHED_PID_IDLE -> p' <> p)))
    as (Hu1 & Hk1 & Hok & Hfr & Hstep).
  { unfold sched_next_pid in Hn. destruct c; try (case_match eqn:E; [done|]); simplify_eq/=.
    all: bool_facts; split_and!; try done; try lia; intros [] p'; cbn; intros; split; try lia.
    all: intros [?|?]; try done; lia. }
  destruct (IH procs1 ps1 Hu1 Hk1 Ha) as (Hcs & Hall & Hinj). split_and!.
  - cbn. by rewrite Hcs.
  - constructor; [done|]. eapply Forall_impl; [exact Hall|]. intros [c' p'] [? ?]. cbn in *.
    split; [done|]. by apply Hstep.
  - rewrite Forall_lookup in Hall.
    intros [|i] [|j] d d' q Hd Hi Hj; simplify_eq/=; try done.
    + exfalso. destruct (Hall j _ Hj) as [Hc' Hf']. by apply (proj2 (Hstep d' q Hc' Hf')); [left|].
    + exfalso. destruct (Hall i _ Hi) as [Hc' Hf']. by apply (proj2 (Hstep d q Hc' Hf')); [right|].
    + f_equal. by eapply Hinj.
Qed.

(** Process identifiers are never reused: in any sequence of allocations after boot, user
    threads get positive identifiers, kernel threads negative ones, idle threads 0, and no two
    allocations for non-idle threads answer the same identifier; the counters stop with a panic
    before they wrap. *)
Theorem pids_unique cs ps procs :
  alloc_pids (mk_pids 1 (-1)) cs = Some (ps, procs) ->
  ps.*1 = cs /\ Forall (fun cp => class_ok cp.1 cp.2) ps /\
  (forall i j c c' p, c <> SCHED_PID_IDLE -> ps !! i = Some (c, p) -> ps !! j = Some (c', p) -> i = j).
Proof.
  intros Hr. apply alloc_pids_spec in Hr as (? & Hall & ?); [|cbn; lia..].
  split_and!; try done. eapply Forall_impl; [exact Hall|]. by intros ? [].
Qed.

Lemma pids_unique_witness :
  alloc_pids (mk_pids 1 (-1)) [SCHED_PID_USER; SCHED_PID_KERNEL; SCHED_PID_USER]
    = Some ([(SCHED_PID_USER, 1); (SCHED_PID_KERNEL, -1); (SCHED_PID_USER, 2)], mk_pids 3 (-2)) /\
  Forall (fun cp => class_ok cp.1 cp.2) [(SCHED_PID_USER, 1); (SCHED_PID_KERNEL, -1); (SCHED_PID_USER, 2)].
Proof.
  split; [reflexivity|].
  apply (pids_unique [SCHED_PID_USER; SCHED_PID_KERNEL; SCHED_PID_USER] _ (mk_pids 3 (-2))). reflexivity.
Defined.
End Pids.

(** ** The scheduler lock *)

Module SchedLock.

(** The part of [sched_cpu_t] the lock uses, and whether the core takes interrupts.  The flags
    word is its interrupt bit; [0] is "disabled". *)
Record cpu_lock := mk_lock { depth : Z; irq_flags : bool; irq : bool }.

(** [core.lock.state] and the cores. *)
Record lock_state := mk_locks { held : bool; locals : list cpu_lock }.

Section Defs.
Context `{Arch}.
Implicit Types (s : lock_state) (c : nat).

(** A depth left behind after the lock was released elsewhere is dropped. *)
Definition sched_reconcile_lock (held : bool) (local : cpu_lock) : bool * cpu_lock :=
  if depth local =? 0 then (false, local)
  else if held then (true, local)
  else (false, mk_lock 0 false (irq local)).

(** The flags [arch_irq_save] answers, and the core with interrupts off. *)
Definition arch_irq_save (local : cpu_lock) : bool * cpu_lock :=
  (irq local, mk_lock (depth local) (irq_flags local) false).
Definition arch_irq_restore (flags : bool) (local : cpu_lock) : cpu_lock :=
  mk_lock (depth local) (irq_flags local) flags.

(** [None]: the core has found the lock taken and is back at the head of its loop, with its
    interrupts as before the call. *)
Definition sched_lock_save s c : option (bool * lock_state) :=
  local ← locals s !! c;
  let '(flags, local) := arch_irq_save local in
  let '(_, local) := sched_reconcile_lock (held s) local in
  if negb (depth local =? 0) then
    Some (false, mk_locks (held s)
                   (<[c := mk_lock (wrap (depth local + 1)) (irq_flags local) (irq local)]> (locals s)))
  else if negb (held s) then
    Some (flags, mk_locks true (<[c := mk_lock 1 flags (irq local)]> (locals s)))
  else None.

(** The flags are written through [flags_out] only on success. *)
Definition sched_lock_try_save s c (flags_out : ptr bool) : option (bool * ptr bool * lock_state) :=
  match flags_out with
  | None => Some (false, None, s)
  | Some _ =>
      local ← locals s !! c;
      let '(flags, local) := arch_irq_save local in
      let '(_, local) := sched_reconcile_lock (held s) local in
      if negb (depth local =? 0) then
        Some (true, Some false,
              mk_locks (held s)
                (<[c := mk_lock (wrap (depth local + 1)) (irq_flags local) (irq local)]> (locals s)))
      else if held s then
        Some (false, flags_out, mk_locks (held s) (<[c := arch_irq_restore flags local]> (locals s)))
      else
        Some (true, Some flags, mk_locks true (<[c := mk_lock 1 flags (irq local)]> (locals s)))
  end.

Definition sched_lock_restore s c (flags : bool) : option lock_state :=
  local ← locals s !! c;
  if 1 <? depth local then
    Some (mk_locks (held s) (<[c := mk_lock (depth local - 1) (irq_flags local) (irq local)]> (locals s)))
  else if depth local =? 1 then
    let flags := irq_flags local in
    Some (mk_locks false (<[c := arch_irq_restore flags (mk_lock 0 false (irq local))]> (locals s)))
  else Some (mk_locks (held s) (<[c := arch_irq_restore flags local]> (locals s))).

(** ** Mutual exclusion *)

(** The lock is taken exactly when one core has a depth, and that core runs with interrupts
    off. *)
Record lock_inv s : Prop := {
  lk_range : forall c l, locals s !! c = Some l -> 0 <= depth l;
  lk_one : forall c c' l l', locals s !! c = Some l -> locals s !! c' = Some l' ->
    0 < depth l -> 0 < depth l' -> c = c';
  lk_held : held s = true <-> exists c l, locals s !! c = Some l /\ 0 < depth l;
  lk_irq : forall c l, locals s !! c = Some l -> 0 < depth l -> irq l = false
}.

(** The steps: the three operations on any core, and interrupts switched on or off by a core
    that is outside the lock. *)
Inductive lock_step s : lock_state -> Prop :=
  | lstep_save c f s' : sched_lock_save s c = Some (f, s') ->
      (forall l, locals s !! c = Some l -> depth l < SIZE_MAX) -> lock_step s s'
  | lstep_try c o r o' s' : sched_lock_try_save s c o = Some (r, o', s') ->
      (forall l, locals s !! c = Some l -> depth l < SIZE_MAX) -> lock_step s s'
  | lstep_restore c f s' : sched_lock_restore s c f = Some s' -> lock_step s s'
  | lstep_irq c l b : locals s !! c = Some l -> depth l = 0 ->
      lock_step s (mk_locks (held s) (<[c := arch_irq_restore b l]> (locals s))).

(** Updating the fields of core [c] from [l] to [l']. *)
Lemma lock_inv_update s c l l' h :
  lock_inv s -> locals s !! c = Some l -> 0 <= depth l' ->
  (0 < depth l' -> irq l' = false) ->
  (if decide (0 < depth l') then h = true /\ (0 < depth l \/ held s = false)
   else if decide (0 < depth l) then h = false else h = held s) ->
  lock_inv (mk_locks h (<[c := l']> (locals s))).
Proof.
  intros [Hr Ho Hh Hi] Hc Hd Hirq Hcase.
  assert (Hlt : (c < length (locals s))%nat) by by eapply lookup_lt_Some.
  assert (Hother : 0 < depth l' -> forall k lk, locals s !! k = Some lk -> k <> c -> depth lk = 0).
  { intros Hpos k lk Hk Hne. rewrite decide_True in Hcase by done. specialize (Hr k lk Hk).
    destruct (decide (0 < depth lk)); [|lia]. destruct Hcase as [_ [Hl|Hl]].
    - exfalso. by apply Hne, (Ho k c lk l).
    - assert (held s = true) by (apply Hh; eauto). congruence. }
  split; cbn.
  - intros k lk [(<- & <- & _)|[_ Hk]]%list_lookup_insert_Some; eauto.
  - intros k k' lk lk' Hk Hk' Hp Hp'.
    apply list_lookup_insert_Some in Hk as [(<- & <- & _)|[Hne Hk]],
      Hk' as [(<- & <- & _)|[Hne' Hk']]; try done.
    + rewrite (Hother Hp k' lk') in Hp'; done || lia.
    + rewrite (Hother Hp' k lk) in Hp; done || lia.
    + by eapply Ho.
  - destruct (decide (0 < depth l')) as [Hp|Hp].
    + destruct Hcase as [-> _]. split; [|done]. intros _. exists c, l'.
      by rewrite list_lookup_insert_eq.
    + split.
      * intros ->. destruct (decide (0 < depth l)); [done|].
        destruct (proj1 Hh (eq_sym Hcase)) as (k & lk & Hk & Hpk). exists k, lk.
        rewrite list_lookup_insert_ne; [done|]. intros ->. by simplify_eq.
      * intros (k & lk & Hk & Hpk). apply list_lookup_insert_Some in Hk as [(_ & <- & _)|[Hne Hk]]; [done|].
        destruct (decide (0 < depth l)) as [Hl|Hl].
        -- exfalso. by apply Hne, (Ho c k l lk).
        -- rewrite Hcase. apply Hh. eauto.
  - intros k lk [(<- & <- & _)|[_ Hk]]%list_lookup_insert_Some; eauto.
Qed.

(** Reconciliation never fires: a depth means that the lock is held. *)
Lemma reconcile_noop s c l :
  lock_inv s -> locals s !! c = Some l ->
  sched_reconcile_lock (held s) (mk_lock (depth l) (irq_flags l) false)
    = (negb (depth l =? 0), mk_lock (depth l) (irq_flags l) false).
Proof.
  intros Hinv Hc. unfold sched_reconcile_lock. cbn. destruct (Z.eqb_spec (depth l) 0); [done|].
  pose proof (lk_range _ Hinv c l Hc).
  assert (held s = true) as -> by (apply (lk_held _ Hinv); exists c, l; split; [done|lia]). done.
Qed.

Lemma lock_step_inv s s' : lock_inv s -> lock_step s s' -> lock_inv s'.
Proof.
  intros Hinv Hs. pose proof SIZE_MOD_ge.
  destruct Hs as [c f s' Hr Hd|c o r o' s' Hr Hd|c f s' Hr|c l b Hc Hd].
  - unfold sched_lock_save in Hr. destruct (locals s !! c) as [l|] eqn:Hc; [|done].
    cbn in Hr. rewrite (reconcile_noop s c l Hinv Hc) in Hr. cbn in Hr.
    specialize (Hd l eq_refl). pose proof (lk_range _ Hinv c l Hc). unfold SIZE_MAX in Hd.
    destruct (Z.eqb_spec (depth l) 0); cbn in Hr.
    + destruct (held s) eqn:Hh; simplify_eq/=. apply (lock_inv_update s c l); try done.
      rewrite decide_True by (cbn; lia). auto.
    + rewrite wrap_small in Hr by lia. simplify_eq.
      apply (lock_inv_update s c l); try done; cbn [depth irq]; [lia|]. rewrite decide_True by lia.
      split; [|left; lia]. apply (lk_held _ Hinv). exists c, l. split; [done|lia].
  - destruct o as [o|]; [|cbn in Hr; by simplify_eq]. cbn in Hr.
    destruct (locals s !! c) as [l|] eqn:Hc; [|done].
    cbn in Hr. rewrite (reconcile_noop s c l Hinv Hc) in Hr. cbn in Hr.
    specialize (Hd l eq_refl). pose proof (lk_range _ Hinv c l Hc). unfold SIZE_MAX in Hd.
    destruct (Z.eqb_spec (depth l) 0) as [Hd0|]; cbn in Hr.
    + destruct (held s) eqn:Hh; simplify_eq; apply (lock_inv_update s c l); try done; cbn [depth arch_irq_restore irq]; try lia.
      * by rewrite !decide_False by lia.
      * rewrite decide_True by lia. auto.
    + rewrite wrap_small in Hr by lia. simplify_eq.
      apply (lock_inv_update s c l); try done; cbn [depth irq]; [lia|]. rewrite decide_True by lia.
      split; [|left; lia]. apply (lk_held _ Hinv). exists c, l. split; [done|lia].
  - unfold sched_lock_restore in Hr. destruct (locals s !! c) as [l|] eqn:Hc; [|done].
    cbn [mbind option_bind] in Hr. pose proof (lk_range _ Hinv c l Hc).
    destruct (Z.ltb_spec 1 (depth l)); [|destruct (Z.eqb_spec (depth l) 1)]; simplify_eq;
      apply (lock_inv_update s c l); try done; cbn [depth arch_irq_restore irq]; try lia.
    + intros _. eapply lk_irq; [done..|lia].
    + rewrite decide_True by lia. split; [|left; lia]. apply (lk_held _ Hinv). exists c, l. split; [done|lia].
    + by rewrite decide_False, decide_True by lia.
    + by rewrite !decide_False by lia.
  - apply (lock_inv_update s c l); try done; cbn [depth arch_irq_restore irq]; [lia..|]. by rewrite !decide_False by lia.
Qed.

(** Nested critical sections: [n] saves, then as many restores with the saved flags. *)
Fixpoint nest (n : nat) s c : option lock_state :=
  match n with
  | O => Some s
  | S n => '(f, s1) ← sched_lock_save s c; s2 ← nest n s1 c; sched_lock_restore s2 c f
  end.

Lemma nest_inner n s c l :
  held s = true -> locals s !! c = Some l -> irq l = false -> 0 < depth l ->
  depth l + Z.of_nat n < SIZE_MOD -> nest n s c = Some s.
Proof.
  revert s l. induction n as [|n IH]; intros s l Hh Hc Hi Hd Hlt; [done|].
  assert (c < length (locals s))%nat as Hlen by by eapply lookup_lt_Some.
  cbn [nest]. unfold sched_lock_save. rewrite Hc. cbn. unfold sched_reconcile_lock. cbn [depth].
  rewrite (proj2 (Z.eqb_neq (depth l) 0)) by lia. rewrite Hh. cbn.
  rewrite (proj2 (Z.eqb_neq (depth l) 0)) by lia. cbn. rewrite wrap_small by lia.
  erewrite IH; [|done|cbn; by rewrite list_lookup_insert_eq|done|cbn; lia|cbn; lia].
  cbn. unfold sched_lock_restore. cbn [locals held]. rewrite list_lookup_insert_eq by done.
  cbn [mbind option_bind depth irq_flags irq]. test_lia. rewrite list_insert_insert_eq.
  destruct s as [h ls]. cbn in *. subst h. do 2 f_equal. rewrite list_insert_id; [done|].
  rewrite Hc. f_equal. destruct l; cbn in *. subst. f_equal. lia.
Qed.

(** C30: The scheduler lock is mutually exclusive and recursive.  In every history of saves, try-saves and
    restores on any cores, at most one core is inside, it runs with interrupts off, and the
    lock word is set exactly when some core is inside; and a core that enters a free lock
    [n + 1] times and leaves as often is back in the state it started from, with its
    interrupts as before. *)
Theorem sched_lock_exclusive s s' :
  held s = false -> Forall (fun l => depth l = 0) (locals s) -> rtc lock_step s s' ->
  (forall c c' l l', locals s' !! c = Some l -> locals s' !! c' = Some l' ->
     0 < depth l -> 0 < depth l' -> c = c' /\ irq l = false) /\
  (held s' = true <-> exists c l, locals s' !! c = Some l /\ 0 < depth l) /\
  (forall n c l, held s' = false -> locals s' !! c = Some l -> irq_flags l = false ->
     Z.of_nat n + 1 < SIZE_MOD -> nest (S n) s' c = Some s').
Proof.
  intros Hh Hz Hs. rewrite Forall_lookup in Hz.
  assert (lock_inv s') as Hinv.
  { assert (lock_inv s) as H0.
    { split.
      - intros c l Hc. rewrite (Hz c l Hc). lia.
      - intros c c' l l' Hc _ Hp. rewrite (Hz c l Hc) in Hp. lia.
      - rewrite Hh. split; [done|]. intros (c & l & Hc & Hp). rewrite (Hz c l Hc) in Hp. lia.
      - intros c l Hc Hp. rewrite (Hz c l Hc) in Hp. lia. }
    clear Hh Hz. induction Hs; [done|]. by eapply IHHs, lock_step_inv. }
  split_and!.
  - intros c c' l l' Hc Hc' Hp Hp'. split; [by eapply (lk_one _ Hinv) | by eapply (lk_irq _ Hinv c l)].
  - apply (lk_held _ Hinv).
  - intros n c l Hf Hc Hfl Hn. pose proof SIZE_MOD_ge.
    assert (depth l = 0) as Hd.
    { pose proof (lk_range _ Hinv c l Hc). destruct (decide (0 < depth l)); [|lia].
      assert (held s' = true) by (apply (lk_held _ Hinv); eauto). congruence. }
    assert (c < length (locals s'))%nat as Hlen by by eapply lookup_lt_Some.
    cbn [nest]. unfold sched_lock_save. rewrite Hc. cbn. unfold sched_reconcile_lock. cbn [depth].
    rewrite Hd. cbn. rewrite Hf. cbn.
    erewrite nest_inner; [|done|cbn; by rewrite list_lookup_insert_eq|done|cbn; lia|cbn; lia].
    cbn. unfold sched_lock_restore. cbn [locals held]. rewrite list_lookup_insert_eq by done. cbn.
    rewrite list_insert_insert_eq. destruct s' as [h ls]. cbn in *. subst h. do 2 f_equal.
    unfold arch_irq_restore. cbn. rewrite list_insert_id; [done|]. rewrite Hc. f_equal.
    destruct l; cbn in *. by subst.
Qed.
End Defs.

Definition idle_core : cpu_lock := mk_lock 0 false true.

Lemma sched_lock_exclusive_witness :
  held (mk_locks false [idle_core; idle_core]) = false /\
  @nest arch64 3 (mk_locks false [idle_core; idle_core]) 1 = Some (mk_locks false [idle_core; idle_core]).
Proof.
  split; [done|].
  apply (proj2 (proj2 (@sched_lock_exclusive arch64 (mk_locks false [idle_core; idle_core]) _ eq_refl
    ltac:(repeat constructor) (rtc_refl _ _))) 2%nat 1%nat idle_core); reflexivity.
Defined.
End SchedLock.
