(* ===== verification/FdTable.v ===== *)
(** * File descriptors and pipes: [kernel/sched/fd.c]

    A thread has a table of [SCHED_FD_MAX] descriptors; a descriptor points to a shared,
    reference-counted [sched_file_t], and a pipe is shared by the files of its two ends and by
    sleeping readers and writers.  The heap of these objects is explicit ([files], [pipes]):
    using a freed or null object is [None], so a theorem that an operation answers [Some _]
    includes the absence of use after free.  Calls into the VFS, the pseudo-terminals, the wait
    queues and procfs are recorded in [trace], in order. *)

From stdpp Require Import gmap.
From Stdlib Require Import Strings.Byte.
From S2P Require Import Prelude Errno Memory Ring.
From stdpp Require Import relations.
Import RingIo.
Open Scope Z_scope.

Module FdTable.

Definition SCHED_FD_MAX : Z := 256.
Definition SCHED_PIPE_CAPACITY : Z := 4096.
Definition SCHED_FD_FLAG_CLOEXEC : Z := 1.

Inductive sched_fd_kind_t :=
  | SCHED_FD_NONE | SCHED_FD_VFS | SCHED_FD_PIPE_READ | SCHED_FD_PIPE_WRITE.

#[global] Instance fd_kind_eq_dec : EqDecision sched_fd_kind_t.
Proof. solve_decision. Defined.

(** The wait queues of a pipe are always owned by it and live as long. *)
Record sched_pipe_t := mk_pipe {
  p_ring : ring_io_t;
  readers : Z;
  writers : Z;
  wake_refs : Z;
  destroying : bool
}.

Record sched_fd_spec_t := mk_spec {
  sp_kind : sched_fd_kind_t; sp_node : ptr Z; sp_pipe : ptr Z; sp_offset : Z;
  sp_pty_index : Z; sp_pty_master : bool; sp_tty_index : Z; sp_flags : Z; sp_fd_flags : Z
}.

Record sched_file_t := mk_file {
  refs : Z;
  f_kind : sched_fd_kind_t; f_node : ptr Z; f_pipe : ptr Z; f_offset : Z;
  f_pty_index : Z; f_pty_master : bool; f_tty_index : Z; f_flags : Z
}.

Record sched_fd_t := mk_fd { file : ptr Z; fd_flags : Z }.

(** One entry of the arrays [fd_used] and [fds] of a thread. *)
Record slot := mk_slot { fd_used : bool; fd : sched_fd_t }.

Inductive event :=
  | VfsNodeOpen (node : ptr Z) | VfsNodeClose (node : ptr Z)
  | PtyHold (index : Z) (master : bool) | PtyPut (index : Z) (master : bool)
  | WakeReaders (p : Z) | WakeWriters (p : Z) | ProcfsSweepDead.

Record world := mk_world {
  files : gmap Z sched_file_t;
  pipes : gmap Z sched_pipe_t;
  tables : list (list slot);
  trace : list event
}.

Definition set_files (m : gmap Z sched_file_t) (w : world) : world :=
  mk_world m (pipes w) (tables w) (trace w).
Definition set_pipes (m : gmap Z sched_pipe_t) (w : world) : world :=
  mk_world (files w) m (tables w) (trace w).
Definition set_tables (l : list (list slot)) (w : world) : world :=
  mk_world (files w) (pipes w) l (trace w).
Definition emit (e : event) (w : world) : world :=
  mk_world (files w) (pipes w) (tables w) (trace w ++ [e]).

Section Defs.
Context `{Arch}.
Implicit Types (w : world) (p f : Z) (t : nat) (spec : sched_fd_spec_t).

(** ** Pipes *)

(** [destroying] is set and the pipe freed in one step: nobody else holds a reference. *)
Definition pipe_try_destroy w (pipe : ptr Z) : option world :=
  match pipe with
  | None => Some w
  | Some p =>
      q ← pipes w !! p;
      let in_use := negb (readers q =? 0) || negb (writers q =? 0) || negb (wake_refs q =? 0)
                    || destroying q in
      Some (if in_use then w else set_pipes (delete p (pipes w)) w)
  end.

(** [alloc] is the address of the new pipe, or null when one of the four allocations fails. *)
Definition sched_pipe_create w (capacity : Z) (alloc : ptr Z) : ptr Z * world :=
  let capacity := if capacity =? 0 then SCHED_PIPE_CAPACITY else capacity in
  match alloc with
  | None => (None, w)
  | Some p =>
      let buffer := replicate (Z.to_nat capacity) x00 in
      let ring := ring_io_init (Some (Build_ring_io_t None 0 0 0 0)) (Some buffer) capacity in
      match ring with
      | Some r => (Some p, set_pipes (<[p := mk_pipe r 0 0 0 false]> (pipes w)) w)
      | None => (None, w)
      end
  end.

(** Run [f] on the pipe under its lock. *)
Definition on_pipe w p (f : sched_pipe_t -> sched_pipe_t) : option world :=
  q ← pipes w !! p; Some (set_pipes (<[p := f q]> (pipes w)) w).

Definition sched_pipe_get_reader w (pipe : ptr Z) : option world :=
  match pipe with
  | None => Some w
  | Some p => on_pipe w p (fun q => mk_pipe (p_ring q) (wrap (readers q + 1)) (writers q) (wake_refs q) (destroying q))
  end.

Definition sched_pipe_get_writer w (pipe : ptr Z) : option world :=
  match pipe with
  | None => Some w
  | Some p => on_pipe w p (fun q => mk_pipe (p_ring q) (readers q) (wrap (writers q + 1)) (wake_refs q) (destroying q))
  end.

Definition pin (q : sched_pipe_t) : sched_pipe_t :=
  mk_pipe (p_ring q) (readers q) (writers q) (wrap (wake_refs q + 1)) (destroying q).
Definition unpin (q : sched_pipe_t) : sched_pipe_t :=
  mk_pipe (p_ring q) (readers q) (writers q)
    (if 0 <? wake_refs q then wake_refs q - 1 else wake_refs q) (destroying q).

Definition sched_pipe_begin w (pipe : ptr Z) : option (bool * world) :=
  match pipe with
  | None => Some (false, w)
  | Some p =>
      q ← pipes w !! p;
      if destroying q then Some (false, w)
      else w ← on_pipe w p pin; Some (true, w)
  end.

Definition sched_pipe_end w (pipe : ptr Z) : option world :=
  match pipe with
  | None => Some w
  | Some p => w ← on_pipe w p unpin; pipe_try_destroy w pipe
  end.

Definition drop_end (is_reader : bool) (q : sched_pipe_t) : sched_pipe_t :=
  if is_reader
  then mk_pipe (p_ring q) (if 0 <? readers q then readers q - 1 else readers q) (writers q) (wake_refs q) (destroying q)
  else mk_pipe (p_ring q) (readers q) (if 0 <? writers q then writers q - 1 else writers q) (wake_refs q) (destroying q).

(** The pipe is pinned while both ends are woken, and unpinned after. *)
Definition _pipe_release w (pipe : ptr Z) (is_reader : bool) : option world :=
  match pipe with
  | None => Some w
  | Some p =>
      w ← on_pipe w p (fun q => pin (drop_end is_reader q));
      let w := emit (WakeWriters p) (emit (WakeReaders p) w) in
      w ← on_pipe w p unpin;
      pipe_try_destroy w pipe
  end.

Definition sched_pipe_put_reader w (pipe : ptr Z) : option world := _pipe_release w pipe true.
Definition sched_pipe_put_writer w (pipe : ptr Z) : option world := _pipe_release w pipe false.

(** ** Files *)

Definition file_spec_valid (spec : ptr sched_fd_spec_t) : bool :=
  match spec with
  | None => false
  | Some s =>
      match sp_kind s with
      | SCHED_FD_VFS => bool_decide (sp_node s <> None)
      | SCHED_FD_PIPE_READ | SCHED_FD_PIPE_WRITE => bool_decide (sp_pipe s <> None)
      | SCHED_FD_NONE => false
      end
  end.

Definition file_hold_resources w (x : sched_file_t) : option world :=
  let w := if bool_decide (f_kind x = SCHED_FD_VFS) then emit (VfsNodeOpen (f_node x)) w else w in
  let w := if 0 <=? f_pty_index x then emit (PtyHold (f_pty_index x) (f_pty_master x)) w else w in
  match f_kind x with
  | SCHED_FD_PIPE_READ => sched_pipe_get_reader w (f_pipe x)
  | SCHED_FD_PIPE_WRITE => sched_pipe_get_writer w (f_pipe x)
  | _ => Some w
  end.

Definition file_of_spec (s : sched_fd_spec_t) : sched_file_t :=
  mk_file 1 (sp_kind s) (sp_node s) (sp_pipe s) (sp_offset s) (sp_pty_index s) (sp_pty_master s)
    (sp_tty_index s) (sp_flags s).

Definition file_create w (spec : ptr sched_fd_spec_t) (alloc : ptr Z) : option (ptr Z * world) :=
  if negb (file_spec_valid spec) then Some (None, w)
  else
    match spec, alloc with
    | Some s, Some f =>
        let x := file_of_spec s in
        w ← file_hold_resources (set_files (<[f := x]> (files w)) w) x;
        Some (Some f, w)
    | _, _ => Some (None, w)
    end.

Definition with_refs (n : Z) (x : sched_file_t) : sched_file_t :=
  mk_file n (f_kind x) (f_node x) (f_pipe x) (f_offset x) (f_pty_index x) (f_pty_master x)
    (f_tty_index x) (f_flags x).

Definition file_get w (file : ptr Z) : option world :=
  match file with
  | None => Some w
  | Some f => x ← files w !! f; Some (set_files (<[f := with_refs (u32_wrap (refs x + 1)) x]> (files w)) w)
  end.

(** The file is read until its resources are given back, then freed. *)
Definition file_put w (file : ptr Z) : option world :=
  match file with
  | None => Some w
  | Some f =>
      x ← files w !! f;
      let old := refs x in
      let w := set_files (<[f := with_refs (u32_wrap (old - 1)) x]> (files w)) w in
      if negb (old =? 1) then Some w
      else
        let w := if bool_decide (f_kind x = SCHED_FD_VFS) then emit (VfsNodeClose (f_node x)) w else w in
        let w := if 0 <=? f_pty_index x then emit (PtyPut (f_pty_index x) (f_pty_master x)) w else w in
        w ← match f_kind x with
            | SCHED_FD_PIPE_READ => sched_pipe_put_reader w (f_pipe x)
            | SCHED_FD_PIPE_WRITE => sched_pipe_put_writer w (f_pipe x)
            | _ => Some w
            end;
        Some (set_files (delete f (files w)) w)
  end.

Definition fd_retain w (d : sched_fd_t) : option world := file_get w (file d).
Definition fd_release_value w (d : sched_fd_t) : option world := file_put w (file d).

(** ** Descriptor tables *)

Definition get_slot w t (n : Z) : option slot := T ← tables w !! t; mload T n.

Definition put_slot w t (n : Z) (s : slot) : option world :=
  T ← tables w !! t; T ← mstore T n s; Some (set_tables (<[t := T]> (tables w)) w).

Definition reset_slot : slot := mk_slot false (mk_fd None 0).

(** [for (slot = start; slot < SCHED_FD_MAX && used[slot]; slot++)] *)
Fixpoint find_free (fuel : nat) w t (n : Z) : option Z :=
  match fuel with
  | O => None
  | S fuel =>
      if n <? SCHED_FD_MAX then
        s ← get_slot w t n;
        if fd_used s then find_free fuel w t (n + 1) else Some n
      else Some n
  end.

Definition sched_fd_open w t (spec : ptr sched_fd_spec_t) (min_fd : Z) (alloc : ptr Z)
  : option (Z * world) :=
  if negb (file_spec_valid spec) then Some (- EINVAL, w)
  else
    let start := if min_fd <? 0 then 0 else min_fd in
    if SCHED_FD_MAX <=? start then Some (- EMFILE, w)
    else
      n ← find_free (S (Z.to_nat SCHED_FD_MAX)) w t start;
      if SCHED_FD_MAX <=? n then Some (- EMFILE, w)
      else
        '(file, w) ← file_create w spec alloc;
        match file, spec with
        | Some f, Some s =>
            w ← put_slot w t n (mk_slot true (mk_fd (Some f) (sp_fd_flags s)));
            Some (n, w)
        | _, _ => Some (- ENOMEM, w)
        end.

(** The descriptor is copied into the slot before the file is retained. *)
Definition sched_fd_alloc w t (d : ptr sched_fd_t) (min_fd : Z) : option (Z * world) :=
  match d with
  | None => Some (- EINVAL, w)
  | Some d =>
      if bool_decide (file d = None) then Some (- EINVAL, w)
      else
        let start := if min_fd <? 0 then 0 else min_fd in
        if SCHED_FD_MAX <=? start then Some (- EMFILE, w)
        else
          n ← find_free (S (Z.to_nat SCHED_FD_MAX)) w t start;
          if SCHED_FD_MAX <=? n then Some (- EMFILE, w)
          else
            w ← put_slot w t n (mk_slot true d);
            w ← fd_retain w d;
            Some (n, w)
  end.

Definition sched_fd_close w t (n : Z) : option (Z * world) :=
  if (n <? 0) || (SCHED_FD_MAX <=? n) then Some (- EBADF, w)
  else
    s ← get_slot w t n;
    if negb (fd_used s) then Some (- EBADF, w)
    else
      let old := fd s in
      was_vfs ← match file old with
                | Some f => x ← files w !! f; Some (bool_decide (f_kind x = SCHED_FD_VFS))
                | None => Some false
                end;
      w ← put_slot w t n reset_slot;
      w ← fd_release_value w old;
      Some (0, if (was_vfs : bool) then emit ProcfsSweepDead w else w).

Definition sched_fd_install w t (target_fd : Z) (d : ptr sched_fd_t) : option (Z * world) :=
  match d with
  | None => Some (- EINVAL, w)
  | Some d =>
      if bool_decide (file d = None) then Some (- EINVAL, w)
      else if (target_fd <? 0) || (SCHED_FD_MAX <=? target_fd) then Some (- EBADF, w)
      else
        w ← fd_retain w d;
        s ← get_slot w t target_fd;
        w ← (if fd_used s then '(_, w) ← sched_fd_close w t target_fd; Some w else Some w);
        w ← put_slot w t target_fd (mk_slot true d);
        Some (target_fd, w)
  end.

Definition sched_fd_dup w t (oldfd newfd : Z) : option (Z * world) :=
  if (oldfd <? 0) || (SCHED_FD_MAX <=? oldfd) then Some (- EBADF, w)
  else
    s ← get_slot w t oldfd;
    if negb (fd_used s) then Some (- EBADF, w)
    else if (newfd <? 0) || (SCHED_FD_MAX <=? newfd) then Some (- EBADF, w)
    else if oldfd =? newfd then Some (newfd, w)
    else
      let source := mk_fd (file (fd s)) (Z.ldiff (fd_flags (fd s)) SCHED_FD_FLAG_CLOEXEC) in
      sched_fd_install w t newfd (Some source).

(** One turn of the copy loop, and the loop over the descriptors from [n] on. *)
Fixpoint clone_loop (fuel : nat) w (dst src : nat) (n : Z) : option world :=
  match fuel with
  | O => None
  | S fuel =>
      if n <? SCHED_FD_MAX then
        s ← get_slot w src n;
        if negb (fd_used s) then clone_loop fuel w dst src (n + 1)
        else
          w ← put_slot w dst n (mk_slot true (fd s));
          w ← fd_retain w (fd s);
          clone_loop fuel w dst src (n + 1)
      else Some w
  end.

Definition sched_fd_clone_table w (dst src : nat) : option (bool * world) :=
  w ← clone_loop (S (Z.to_nat SCHED_FD_MAX)) w dst src 0; Some (true, w).

(** The loop of [sched_fd_close_all] and of [sched_fd_close_cloexec], which close the used
    descriptors that pass [test]. *)
Fixpoint close_loop (fuel : nat) w t (test : sched_fd_t -> bool) (n : Z) : option world :=
  match fuel with
  | O => None
  | S fuel =>
      if n <? SCHED_FD_MAX then
        s ← get_slot w t n;
        if fd_used s && test (fd s) then
          '(_, w) ← sched_fd_close w t n; close_loop fuel w t test (n + 1)
        else close_loop fuel w t test (n + 1)
      else Some w
  end.

Definition sched_fd_close_all w t : option world :=
  close_loop (S (Z.to_nat SCHED_FD_MAX)) w t (fun _ => true) 0.

Definition sched_fd_close_cloexec w t : option world :=
  close_loop (S (Z.to_nat SCHED_FD_MAX)) w t
    (fun d => negb (Z.land (fd_flags d) SCHED_FD_FLAG_CLOEXEC =? 0)) 0.

(** [sys_pipe]: the two ends of a new pipe.  [prepared] and [copied] are the outcomes of the
    accesses to the user's array; the allocators' answers are arguments. *)
Definition sys_pipe w t (prepared copied : bool) (pipe_alloc read_alloc write_alloc : ptr Z)
    (TTY_NONE O_RDONLY O_WRONLY : Z) : option (Z * world) :=
  if negb prepared then Some (- EFAULT, w)
  else
    let '(pipe, w) := sched_pipe_create w SCHED_PIPE_CAPACITY pipe_alloc in
    match pipe with
    | None => Some (- ENOMEM, w)
    | Some _ =>
        let read_end := mk_spec SCHED_FD_PIPE_READ None pipe 0 (-1) false TTY_NONE O_RDONLY 0 in
        let write_end := mk_spec SCHED_FD_PIPE_WRITE None pipe 0 (-1) false TTY_NONE O_WRONLY 0 in
        '(read_fd, w) ← sched_fd_open w t (Some read_end) 3 read_alloc;
        if read_fd <? 0 then
          w ← sched_pipe_put_reader w pipe; Some (read_fd, w)
        else
          '(write_fd, w) ← sched_fd_open w t (Some write_end) 3 write_alloc;
          if write_fd <? 0 then
            '(_, w) ← sched_fd_close w t read_fd; Some (write_fd, w)
          else if negb copied then
            '(_, w) ← sched_fd_close w t write_fd;
            '(_, w) ← sched_fd_close w t read_fd;
            Some (- EFAULT, w)
          else Some (0, w)
    end.
End Defs.

(** ** Counting *)

Definition holds (f : Z) (s : slot) : nat :=
  if fd_used s && bool_decide (file (fd s) = Some f) then 1 else 0.
Definition table_cnt (f : Z) (T : list slot) : nat := sum_list (holds f <$> T).

(** How many descriptors of all tables point to the file [f]. *)
Definition cnt (f : Z) (ts : list (list slot)) : nat := sum_list (table_cnt f <$> ts).

(** How often [x] occurs in [l]. *)
Definition occ (x : Z) (l : list Z) : nat := sum_list ((fun y => if decide (y = x) then 1%nat else 0%nat) <$> l).

#[global] Arguments cnt : simpl never.
#[global] Arguments occ : simpl never.

Lemma sum_insert {A} (g : A -> nat) (l : list A) i x y :
  l !! i = Some x -> (sum_list (g <$> <[i := y]> l) + g x = sum_list (g <$> l) + g y)%nat.
Proof.
  revert i. induction l as [|z l IH]; intros [|i] Hi; simplify_eq/=; [lia|].
  specialize (IH i Hi). lia.
Qed.

Lemma sum_bound {A} (g : A -> nat) (l : list A) b :
  (forall x, x ∈ l -> (g x <= b)%nat) -> (sum_list (g <$> l) <= b * length l)%nat.
Proof.
  induction l as [|x l IH]; intros Hb; cbn; [lia|].
  specialize (Hb x ltac:(by left)) as Hx. specialize (IH ltac:(intros; apply Hb; by right)). lia.
Qed.

Lemma sum_pos {A} (g : A -> nat) (l : list A) i x :
  l !! i = Some x -> (g x <= sum_list (g <$> l))%nat.
Proof.
  revert i. induction l as [|z l IH]; intros [|i] Hi; simplify_eq/=; [lia|].
  specialize (IH i Hi). lia.
Qed.

Lemma holds_le f s : (holds f s <= 1)%nat.
Proof. unfold holds. by destruct (_ && _); lia. Qed.

Lemma occ_cons x y l : occ x (y :: l) = ((if decide (y = x) then 1 else 0) + occ x l)%nat.
Proof. done. Qed.

Lemma occ_elem x l : x ∈ l <-> (0 < occ x l)%nat.
Proof.
  induction l as [|y l IH]; [split; [by intros ?%elem_of_nil | unfold occ; cbn; lia]|].
  rewrite elem_of_cons, occ_cons, IH. case_decide as Hd; split.
  - lia.
  - by left.
  - intros [->|?]; [done|lia].
  - right. lia.
Qed.

(** The outside resources a file holds. *)
Inductive resource := RReader (p : Z) | RWriter (p : Z) | RNode (n : ptr Z) | RPty (i : Z) (m : bool).

Definition weight (r : resource) (x : sched_file_t) : Z :=
  match r with
  | RReader p => if bool_decide (f_kind x = SCHED_FD_PIPE_READ) && bool_decide (f_pipe x = Some p) then 1 else 0
  | RWriter p => if bool_decide (f_kind x = SCHED_FD_PIPE_WRITE) && bool_decide (f_pipe x = Some p) then 1 else 0
  | RNode n => if bool_decide (f_kind x = SCHED_FD_VFS) && bool_decide (f_node x = n) then 1 else 0
  | RPty i m => if (0 <=? f_pty_index x) && (f_pty_index x =? i) && eqb (f_pty_master x) m then 1 else 0
  end.

(** How many live files hold [r]. *)
Definition tally (r : resource) (fs : gmap Z sched_file_t) : Z :=
  map_fold (fun _ x acc => weight r x + acc) 0 fs.

Lemma weight_range r x : 0 <= weight r x <= 1.
Proof. destruct r; cbn; case_match; lia. Qed.

Lemma tally_insert r fs f x : fs !! f = None -> tally r (<[f := x]> fs) = weight r x + tally r fs.
Proof. intros Hf. unfold tally. rewrite map_fold_insert_L; [done | intros; lia | done]. Qed.

Lemma tally_delete r fs f x : fs !! f = Some x -> tally r fs = weight r x + tally r (delete f fs).
Proof.
  intros Hf. rewrite <- (insert_delete_id fs f x Hf) at 1. apply tally_insert, lookup_delete_eq.
Qed.

Lemma tally_update r fs f x y :
  fs !! f = Some x -> weight r y = weight r x -> tally r (<[f := y]> fs) = tally r fs.
Proof.
  intros Hf Hw. rewrite (tally_delete r fs f x Hf), <- insert_delete_eq, tally_insert, Hw; [done|].
  apply lookup_delete_eq.
Qed.

Lemma tally_range r fs : 0 <= tally r fs <= Z.of_nat (size fs).
Proof.
  unfold tally. apply (map_fold_weak_ind (fun acc m => 0 <= acc <= Z.of_nat (size m))); [by rewrite map_size_empty|].
  intros f x m acc Hm Hacc. rewrite map_size_insert_None by done. pose proof (weight_range r x). lia.
Qed.

#[global] Arguments tally : simpl never.

(** Opens minus closes of a resource in the trace. *)
Definition event_weight (r : resource) (e : event) : Z :=
  match r, e with
  | RNode n, VfsNodeOpen m => if bool_decide (m = n) then 1 else 0
  | RNode n, VfsNodeClose m => if bool_decide (m = n) then -1 else 0
  | RPty i m, PtyHold j k => if (j =? i) && eqb k m then 1 else 0
  | RPty i m, PtyPut j k => if (j =? i) && eqb k m then -1 else 0
  | _, _ => 0
  end.

Fixpoint balance (r : resource) (tr : list event) : Z :=
  match tr with [] => 0 | e :: tr => event_weight r e + balance r tr end.

Lemma balance_snoc r tr e : balance r (tr ++ [e]) = balance r tr + event_weight r e.
Proof. induction tr as [|a tr IH]; cbn; [lia|]. rewrite IH. lia. Qed.

Definition external (r : resource) : bool :=
  match r with RNode _ | RPty _ _ => true | _ => false end.

(** ** The invariant *)

Definition slot_ok (s : slot) : Prop :=
  if fd_used s then file (fd s) <> None else s = reset_slot.

Lemma slot_ok_file s : slot_ok s -> fd_used s = true -> file (fd s) <> None.
Proof. unfold slot_ok. intros Hs Hu. by rewrite Hu in Hs. Qed.

Definition kind_ok (pm : gmap Z sched_pipe_t) (x : sched_file_t) : Prop :=
  match f_kind x with
  | SCHED_FD_NONE => False
  | SCHED_FD_VFS => f_node x <> None
  | _ => exists p, f_pipe x = Some p /\ is_Some (pm !! p)
  end.

(** [pend] are references held by a running operation, [pins] the pipes pinned by sleeping
    readers and writers, [news] a pipe that no descriptor has been opened for yet. *)
Record fd_inv (w : world) (pend pins : list Z) (news : ptr Z) : Prop := {
  i_len : Forall (fun T => zlen T = SCHED_FD_MAX) (tables w);
  i_slots : Forall (Forall slot_ok) (tables w);
  i_refs : forall f x, files w !! f = Some x ->
    refs x = Z.of_nat (cnt f (tables w) + occ f pend) /\ 1 <= refs x;
  i_live : forall f, (0 < cnt f (tables w) + occ f pend)%nat -> is_Some (files w !! f);
  i_kind : forall f x, files w !! f = Some x -> kind_ok (pipes w) x;
  i_pipe : forall p q, pipes w !! p = Some q ->
    readers q = tally (RReader p) (files w) /\ writers q = tally (RWriter p) (files w) /\
    wake_refs q = Z.of_nat (occ p pins) /\ destroying q = false /\
    (0 < readers q + writers q + wake_refs q \/ news = Some p);
  i_pins : forall p, p ∈ pins -> is_Some (pipes w !! p);
  i_trace : forall r, external r = true -> balance r (trace w) = tally r (files w);
  i_bound : SCHED_FD_MAX * zlen (tables w) < 2 ^ 31
}.

Section Inv.
Context `{Arch}.
Implicit Types (w : world) (p f : Z) (t : nat) (pend pins : list Z) (news : ptr Z).

Lemma cnt_bound w pend pins news f :
  fd_inv w pend pins news -> Z.of_nat (cnt f (tables w)) < 2 ^ 31.
Proof.
  intros Hinv. pose proof (i_bound _ _ _ _ Hinv) as Hb. unfold SCHED_FD_MAX, zlen in Hb.
  assert (cnt f (tables w) <= 256 * length (tables w))%nat; [|lia].
  apply sum_bound. intros T HT. pose proof (i_len _ _ _ _ Hinv) as Hl. rewrite Forall_forall in Hl.
  specialize (Hl T HT). unfold zlen, SCHED_FD_MAX in Hl.
  pose proof (sum_bound (holds f) T 1 (fun s _ => holds_le f s)). unfold table_cnt. lia.
Qed.

Lemma get_slot_ok w pend pins news t n :
  fd_inv w pend pins news -> (t < length (tables w))%nat -> 0 <= n < SCHED_FD_MAX ->
  exists T s, tables w !! t = Some T /\ T !! Z.to_nat n = Some s /\ zlen T = SCHED_FD_MAX /\
    get_slot w t n = Some s /\ slot_ok s.
Proof.
  intros Hinv Ht Hn. destruct (lookup_lt_is_Some_2 (tables w) t Ht) as [T HT].
  pose proof (Forall_lookup_1 _ _ _ _ (i_len _ _ _ _ Hinv) HT) as Hlen. cbn in Hlen.
  destruct (mload_is_Some T n) as [s Hs]; [lia|]. pose proof (mload_Some _ _ _ Hs) as [_ Hs'].
  exists T, s. split_and!; try done.
  - unfold get_slot. by rewrite HT.
  - by apply (Forall_lookup_1 _ _ _ _ (Forall_lookup_1 _ _ _ _ (i_slots _ _ _ _ Hinv) HT) Hs').
Qed.

(** Writing a slot moves [cnt] by the difference of the two slots. *)
Lemma put_slot_cnt w t n T s s' :
  tables w !! t = Some T -> T !! Z.to_nat n = Some s -> zlen T = SCHED_FD_MAX -> 0 <= n < SCHED_FD_MAX ->
  exists w', put_slot w t n s' = Some w' /\
    w' = set_tables (<[t := <[Z.to_nat n := s']> T]> (tables w)) w /\
    forall f, (cnt f (tables w') + holds f s = cnt f (tables w) + holds f s')%nat.
Proof.
  intros HT Hs Hlen Hn. unfold put_slot. rewrite HT. cbn [mbind option_bind].
  rewrite mstore_ok by lia. cbn [mbind option_bind]. eexists. split_and!; [done..|].
  intros f. cbn. unfold cnt.
  pose proof (sum_insert (table_cnt f) (tables w) t T (<[Z.to_nat n := s']> T) HT) as H1.
  pose proof (sum_insert (holds f) T (Z.to_nat n) s s' Hs) as H2. unfold table_cnt in *. lia.
Qed.

(** Replacing a slot and the references in flight so that every count stays the same. *)
Lemma inv_put_slot w pend pend' pins news t n T s s' :
  fd_inv w pend pins news -> tables w !! t = Some T -> T !! Z.to_nat n = Some s ->
  zlen T = SCHED_FD_MAX -> 0 <= n < SCHED_FD_MAX -> slot_ok s' ->
  (forall f, (holds f s' + occ f pend' = holds f s + occ f pend)%nat) ->
  exists w', put_slot w t n s' = Some w' /\ fd_inv w' pend' pins news /\
    w' = set_tables (<[t := <[Z.to_nat n := s']> T]> (tables w)) w.
Proof.
  intros Hinv HT Hs Hlen Hn Hok Hcnt.
  destruct (put_slot_cnt w t n T s s' HT Hs Hlen Hn) as (w' & Hput & Hw' & Hc).
  exists w'. split_and!; try done.
  assert (Hsum : forall f, (cnt f (tables w') + occ f pend' = cnt f (tables w) + occ f pend)%nat).
  { intros f. specialize (Hc f). specialize (Hcnt f). lia. }
  destruct Hinv as [Hl Hs0 Hr Hlv Hk Hp Hpi Htr Hb]. subst w'. cbn in *.
  split; cbn; try done.
  - apply Forall_insert; [done|]. unfold zlen. rewrite length_insert. exact Hlen.
  - apply Forall_insert; [done|]. apply Forall_insert; [|done]. by eapply (Forall_lookup_1 _ _ _ _ Hs0).
  - intros f x Hx. rewrite Hsum. by apply Hr.
  - intros f. rewrite Hsum. apply Hlv.
  - unfold zlen. rewrite length_insert. exact Hb.
Qed.

Lemma tally_pos r fs f x : fs !! f = Some x -> weight r x <= tally r fs.
Proof. intros Hf. rewrite (tally_delete r fs f x Hf). pose proof (tally_range r (delete f fs)). lia. Qed.

Lemma holds_used f fl g : holds g (mk_slot true (mk_fd (Some f) fl)) = if decide (f = g) then 1%nat else 0%nat.
Proof.
  unfold holds. cbn. destruct (decide (f = g)) as [->|Hne].
  - by rewrite bool_decide_eq_true_2.
  - by rewrite bool_decide_eq_false_2 by congruence.
Qed.

Lemma holds_free g s : fd_used s = false -> holds g s = 0%nat.
Proof. unfold holds. by intros ->. Qed.

(** *** References *)

Lemma with_refs_weight r n x : weight r (with_refs n x) = weight r x.
Proof. by destruct r. Qed.

(** Changing the count of a file together with the references in flight. *)
Lemma inv_set_refs w pend pend' pins news f x n :
  fd_inv w pend pins news -> files w !! f = Some x ->
  n = Z.of_nat (cnt f (tables w) + occ f pend') -> 1 <= n ->
  (forall g, g <> f -> occ g pend' = occ g pend) ->
  fd_inv (set_files (<[f := with_refs n x]> (files w)) w) pend' pins news.
Proof.
  intros [Hl Hs Hr Hlv Hk Hp Hpi Htr Hb] Hf Hn Hn1 Hocc. split; cbn; try done.
  - intros g y Hg. destruct (decide (g = f)) as [->|Hne].
    + rewrite lookup_insert_eq in Hg. by simplify_eq/=.
    + rewrite lookup_insert_ne in Hg by done. rewrite Hocc by done. by apply Hr.
  - intros g Hg. destruct (decide (g = f)) as [->|Hne]; [by rewrite lookup_insert_eq|].
    rewrite lookup_insert_ne by done. rewrite Hocc in Hg by done. by apply Hlv.
  - intros g y Hg. destruct (decide (g = f)) as [->|Hne].
    + rewrite lookup_insert_eq in Hg. simplify_eq. by apply (Hk f x).
    + rewrite lookup_insert_ne in Hg by done. by apply (Hk g).
  - intros p q Hq. rewrite !(tally_update _ _ f x) by (done || apply with_refs_weight). by apply Hp.
  - intros r Hr'. rewrite (tally_update _ _ f x) by (done || apply with_refs_weight). by apply Htr.
Qed.

Lemma file_get_spec w pend pins news f :
  fd_inv w pend pins news -> is_Some (files w !! f) -> zlen pend < 2 ^ 20 ->
  exists w', file_get w (Some f) = Some w' /\ fd_inv w' (f :: pend) pins news /\
    tables w' = tables w /\ pipes w' = pipes w /\ is_Some (files w' !! f).
Proof.
  intros Hinv [x Hf] Hlen. cbn. rewrite Hf. cbn [mbind option_bind].
  destruct (i_refs _ _ _ _ Hinv f x Hf) as [Hr H1].
  pose proof (cnt_bound w pend pins news f Hinv).
  assert (occ f pend <= length pend)%nat as Hocc.
  { unfold occ. pose proof (sum_bound (fun y => if decide (y = f) then 1%nat else 0%nat) pend 1) as Hsb.
    rewrite Nat.mul_1_l in Hsb. apply Hsb. intros y _. case_decide; lia. }
  unfold zlen in Hlen. rewrite u32_wrap_small by lia. eexists. split_and!; [done| |done|done|].
  - eapply inv_set_refs; [done..| | |].
    + rewrite occ_cons, decide_True by done. lia.
    + lia.
    + intros g Hg. by rewrite occ_cons, decide_False.
  - cbn. by rewrite lookup_insert_eq.
Qed.

(** Filling a free slot with a reference in flight, and emptying a used slot into one. *)
Lemma slot_fill_spec w pend pins news t n s f fl :
  fd_inv w (f :: pend) pins news -> (t < length (tables w))%nat -> 0 <= n < SCHED_FD_MAX ->
  get_slot w t n = Some s -> fd_used s = false ->
  exists w' T, put_slot w t n (mk_slot true (mk_fd (Some f) fl)) = Some w' /\ fd_inv w' pend pins news /\
    tables w !! t = Some T /\
    w' = set_tables (<[t := <[Z.to_nat n := mk_slot true (mk_fd (Some f) fl)]> T]> (tables w)) w.
Proof.
  intros Hinv Ht Hn Hs Hfree. destruct (get_slot_ok _ _ _ _ t n Hinv Ht Hn) as (T & s' & HT & HTs & Hlen & Hs' & _).
  simplify_eq. destruct (inv_put_slot w (f :: pend) pend pins news t n T s (mk_slot true (mk_fd (Some f) fl)))
    as (w' & ? & ? & ?); try done.
  - intros g. rewrite holds_used, holds_free, occ_cons by done. lia.
  - by exists w', T.
Qed.

Lemma slot_clear_spec w pend pins news t n s f :
  fd_inv w pend pins news -> (t < length (tables w))%nat -> 0 <= n < SCHED_FD_MAX ->
  get_slot w t n = Some s -> fd_used s = true -> file (fd s) = Some f ->
  exists w' T, put_slot w t n reset_slot = Some w' /\ fd_inv w' (f :: pend) pins news /\
    tables w !! t = Some T /\ w' = set_tables (<[t := <[Z.to_nat n := reset_slot]> T]> (tables w)) w.
Proof.
  intros Hinv Ht Hn Hs Hused Hf.
  destruct (get_slot_ok _ _ _ _ t n Hinv Ht Hn) as (T & s' & HT & HTs & Hlen & Hs' & _). simplify_eq.
  destruct (inv_put_slot w pend (f :: pend) pins news t n T s reset_slot) as (w' & ? & ? & ?); try done.
  - intros g. rewrite (holds_free g reset_slot), occ_cons by done. unfold holds. rewrite Hused, Hf. cbn [andb].
    destruct (decide (f = g)) as [->|Hne];
      [by rewrite bool_decide_eq_true_2 | by rewrite bool_decide_eq_false_2 by congruence].
  - by exists w', T.
Qed.

(** *** The last reference *)

(** The pipe after an operation that lowered its counters to those of [q]. *)
Definition settle (p : Z) (q : sched_pipe_t) (pm : gmap Z sched_pipe_t) : gmap Z sched_pipe_t :=
  if (readers q =? 0) && (writers q =? 0) && (wake_refs q =? 0) then delete p pm else <[p := q]> pm.

Lemma try_destroy_settle w p q :
  pipes w !! p = Some q -> destroying q = false ->
  pipe_try_destroy w (Some p) = Some (set_pipes (settle p q (pipes w)) w).
Proof.
  intros Hq Hd. cbn. rewrite Hq. cbn [mbind option_bind]. rewrite Hd, orb_false_r. unfold settle.
  destruct (readers q =? 0), (writers q =? 0), (wake_refs q =? 0); cbn [negb orb andb];
    try done; rewrite insert_id by done; by destruct w.
Qed.

Lemma settle_insert p q q' pm : settle p q (<[p := q']> pm) = settle p q pm.
Proof. unfold settle. case_match; [by rewrite delete_insert_eq | by rewrite insert_insert_eq]. Qed.

Lemma pipe_release_settle w p q rd :
  pipes w !! p = Some q -> destroying q = false -> 0 <= wake_refs q < SIZE_MAX ->
  _pipe_release w (Some p) rd = Some (mk_world (files w) (settle p (drop_end rd q) (pipes w)) (tables w)
                                        ((trace w ++ [WakeReaders p]) ++ [WakeWriters p])).
Proof.
  intros Hq Hd Hk. unfold _pipe_release, on_pipe. rewrite Hq. cbn [mbind option_bind emit set_pipes pipes].
  rewrite lookup_insert_eq. cbn [mbind option_bind].
  assert (unpin (pin (drop_end rd q)) = drop_end rd q) as Hup.
  { unfold unpin, pin, drop_end. destruct rd; cbn; rewrite wrap_small by (unfold SIZE_MAX in Hk; lia);
      test_lia; f_equal; lia. }
  rewrite Hup. erewrite try_destroy_settle with (q := drop_end rd q).
  - cbn. by rewrite !settle_insert.
  - cbn. by rewrite lookup_insert_eq.
  - by destruct rd.
Qed.

(** Freeing a file without references: [pm'] and [tr'] are the pipes and the trace after its
    resources were given back. *)
Lemma inv_free_file w pend pins f x pm' tr' :
  fd_inv w (f :: pend) pins None -> files w !! f = Some x -> refs x = 1 ->
  (forall p q, pm' !! p = Some q ->
     readers q = tally (RReader p) (delete f (files w)) /\
     writers q = tally (RWriter p) (delete f (files w)) /\
     wake_refs q = Z.of_nat (occ p pins) /\ destroying q = false /\
     0 < readers q + writers q + wake_refs q) ->
  (forall p, is_Some (pipes w !! p) ->
     0 < tally (RReader p) (delete f (files w)) + tally (RWriter p) (delete f (files w)) + Z.of_nat (occ p pins) ->
     is_Some (pm' !! p)) ->
  (forall r, external r = true -> balance r tr' = tally r (delete f (files w))) ->
  fd_inv (mk_world (delete f (files w)) pm' (tables w) tr') pend pins None.
Proof.
  intros [Hl Hs Hr Hlv Hk Hp Hpi Htr Hb] Hf Hr1 Hpm Hkeep Htr'. split; cbn; try done.
  - intros g y Hg. apply lookup_delete_Some in Hg as [Hne Hg]. destruct (Hr g y Hg) as [E ?].
    by rewrite occ_cons, decide_False in E.
  - intros g Hg. destruct (decide (g = f)) as [->|Hne].
    + destruct (Hr f x Hf) as [E _]. rewrite occ_cons, decide_True in E by done. lia.
    + rewrite lookup_delete_ne by done. apply Hlv. rewrite occ_cons. lia.
  - intros g y Hg. pose proof Hg as [Hne Hg']%lookup_delete_Some. specialize (Hk g y Hg').
    unfold kind_ok in *. destruct (f_kind y) eqn:Ek; try done; destruct Hk as (p & Hpy & Hps);
      exists p; split; [done| |done|]; (apply Hkeep; [done|]).
    + pose proof (tally_pos (RReader p) _ g y Hg) as Hw. cbn in Hw. rewrite Ek, Hpy in Hw.
      rewrite !bool_decide_eq_true_2 in Hw by done. cbn in Hw.
      pose proof (tally_range (RWriter p) (delete f (files w))). lia.
    + pose proof (tally_pos (RWriter p) _ g y Hg) as Hw. cbn in Hw. rewrite Ek, Hpy in Hw.
      rewrite !bool_decide_eq_true_2 in Hw by done. cbn in Hw.
      pose proof (tally_range (RReader p) (delete f (files w))). lia.
  - intros p q Hq. destruct (Hpm p q Hq) as (?&?&?&?&?). auto 10.
  - intros p Hpin. apply Hkeep; [by apply Hpi|]. apply occ_elem in Hpin.
    pose proof (tally_range (RReader p) (delete f (files w))).
    pose proof (tally_range (RWriter p) (delete f (files w))). lia.
Qed.

Lemma tally_drop r fs f x : fs !! f = Some x -> tally r (delete f fs) = tally r fs - weight r x.
Proof. intros Hf. rewrite (tally_delete r fs f x Hf). lia. Qed.

(** Giving back the end of a pipe that a file of kind [kd] holds. *)
Lemma settle_spec w pend pins f x p q rd :
  fd_inv w (f :: pend) pins None -> files w !! f = Some x -> pipes w !! p = Some q ->
  f_kind x = (if rd : bool then SCHED_FD_PIPE_READ else SCHED_FD_PIPE_WRITE) -> f_pipe x = Some p ->
  let pm' := settle p (drop_end rd q) (pipes w) in
  (forall p q, pm' !! p = Some q ->
     readers q = tally (RReader p) (delete f (files w)) /\
     writers q = tally (RWriter p) (delete f (files w)) /\
     wake_refs q = Z.of_nat (occ p pins) /\ destroying q = false /\
     0 < readers q + writers q + wake_refs q) /\
  (forall p, is_Some (pipes w !! p) ->
     0 < tally (RReader p) (delete f (files w)) + tally (RWriter p) (delete f (files w)) + Z.of_nat (occ p pins) ->
     is_Some (pm' !! p)).
Proof.
  intros Hinv Hf Hq Hk Hp pm'.
  destruct (i_pipe _ _ _ _ Hinv p q Hq) as (Hrd & Hwr & Hwk & Hd & _).
  assert (Hw : weight (RReader p) x = (if rd then 1 else 0) /\ weight (RWriter p) x = (if rd then 0 else 1)).
  { unfold weight. rewrite Hk, Hp. destruct rd; split; repeat case_bool_decide; cbn; congruence. }
  assert (Hother : forall k, k <> p -> weight (RReader k) x = 0 /\ weight (RWriter k) x = 0).
  { intros k Hne. cbn. rewrite Hp. rewrite (bool_decide_eq_false_2 (Some p = Some k)) by congruence.
    by rewrite !andb_false_r. }
  pose proof (tally_pos (RReader p) _ f x Hf) as Hp1. pose proof (tally_pos (RWriter p) _ f x Hf) as Hp2.
  pose proof (tally_range (RReader p) (files w)). pose proof (tally_range (RWriter p) (files w)).
  assert (Hqd : readers (drop_end rd q) = tally (RReader p) (delete f (files w)) /\
                writers (drop_end rd q) = tally (RWriter p) (delete f (files w)) /\
                wake_refs (drop_end rd q) = Z.of_nat (occ p pins) /\ destroying (drop_end rd q) = false).
  { rewrite !(tally_drop _ _ f x Hf). destruct Hw as [Hw1 Hw2]. rewrite Hw1, Hw2 in *.
    destruct rd; cbn; test_lia; split_and!; done || lia. }
  pose proof (tally_range (RReader p) (delete f (files w))).
  pose proof (tally_range (RWriter p) (delete f (files w))).
  split.
  - intros k qk Hk'. unfold pm', settle in Hk'. destruct (decide (k = p)) as [->|Hne].
    + destruct (_ && _) eqn:E in Hk'; [by rewrite lookup_delete_eq in Hk'|].
      rewrite lookup_insert_eq in Hk'. simplify_eq. destruct Hqd as (E1 & E2 & E3 & E4).
      split_and!; try done. rewrite E1, E2, E3 in *.
      apply andb_false_iff in E as [E|E]; [apply andb_false_iff in E as [E|E]|]; bool_facts; lia.
    + assert (pipes w !! k = Some qk) as Hqk.
      { destruct (_ && _) in Hk'; [by rewrite lookup_delete_ne in Hk' | by rewrite lookup_insert_ne in Hk']. }
      rewrite !(tally_drop _ _ f x Hf). destruct (Hother k Hne) as [-> ->]. rewrite !Z.sub_0_r.
      destruct (i_pipe _ _ _ _ Hinv k qk Hqk) as (?&?&?&?&[?|?]); done.
  - intros k Hs Hpos. unfold pm', settle. destruct (decide (k = p)) as [->|Hne].
    + destruct Hqd as (E1 & E2 & E3 & E4). rewrite E1, E2, E3.
      destruct (_ && _) eqn:E; [bool_facts; lia|]. by rewrite lookup_insert_eq.
    + destruct (_ && _); [by rewrite lookup_delete_ne | by rewrite lookup_insert_ne].
Qed.

(** Without a pipe end the pipes stay as they are. *)
Lemma no_end_spec w pend pins f x :
  fd_inv w (f :: pend) pins None -> files w !! f = Some x ->
  (forall p, weight (RReader p) x = 0 /\ weight (RWriter p) x = 0) ->
  (forall p q, pipes w !! p = Some q ->
     readers q = tally (RReader p) (delete f (files w)) /\
     writers q = tally (RWriter p) (delete f (files w)) /\
     wake_refs q = Z.of_nat (occ p pins) /\ destroying q = false /\
     0 < readers q + writers q + wake_refs q).
Proof.
  intros Hinv Hf Hw p q Hq. rewrite !(tally_drop _ _ f x Hf). destruct (Hw p) as [-> ->].
  rewrite !Z.sub_0_r. destruct (i_pipe _ _ _ _ Hinv p q Hq) as (?&?&?&?&[?|?]); done.
Qed.

(** The trace of a teardown balances the resources the file held. *)
Definition put_trace (x : sched_file_t) (tr : list event) : list event :=
  let tr := if bool_decide (f_kind x = SCHED_FD_VFS) then tr ++ [VfsNodeClose (f_node x)] else tr in
  if 0 <=? f_pty_index x then tr ++ [PtyPut (f_pty_index x) (f_pty_master x)] else tr.

Definition hold_trace (x : sched_file_t) (tr : list event) : list event :=
  let tr := if bool_decide (f_kind x = SCHED_FD_VFS) then tr ++ [VfsNodeOpen (f_node x)] else tr in
  if 0 <=? f_pty_index x then tr ++ [PtyHold (f_pty_index x) (f_pty_master x)] else tr.

Lemma put_trace_balance r x tr :
  external r = true -> balance r (put_trace x tr) = balance r tr - weight r x.
Proof.
  intros Hr. unfold put_trace. destruct r as [| |n|i m]; try done; cbn.
  - case_bool_decide as Hk; case_test; rewrite ?balance_snoc; cbn; try case_match; lia.
  - case_bool_decide as Hk; case_test; rewrite ?balance_snoc; cbn; try case_match; lia.
Qed.

Lemma hold_trace_balance r x tr :
  external r = true -> balance r (hold_trace x tr) = balance r tr + weight r x.
Proof.
  intros Hr. unfold hold_trace. destruct r as [| |n|i m]; try done; cbn.
  - case_bool_decide as Hk; case_test; rewrite ?balance_snoc; cbn; try case_match; lia.
  - case_bool_decide as Hk; case_test; rewrite ?balance_snoc; cbn; try case_match; lia.
Qed.

Lemma occ_le x l : (occ x l <= length l)%nat.
Proof.
  unfold occ. pose proof (sum_bound (fun y => if decide (y = x) then 1%nat else 0%nat) l 1) as Hsb.
  rewrite Nat.mul_1_l in Hsb. apply Hsb. intros y _. case_decide; lia.
Qed.

Lemma file_put_spec w pend pins f :
  fd_inv w (f :: pend) pins None -> zlen pins < 2 ^ 20 -> zlen pend < 2 ^ 20 ->
  exists w', file_put w (Some f) = Some w' /\ fd_inv w' pend pins None /\ tables w' = tables w /\
    (forall g, g <> f -> files w' !! g = files w !! g).
Proof.
  intros Hinv Hpins Hpend.
  destruct (i_live _ _ _ _ Hinv f) as [x Hf]; [rewrite occ_cons, decide_True by done; lia|].
  destruct (i_refs _ _ _ _ Hinv f x Hf) as [Hr H1]. rewrite occ_cons, decide_True in Hr by done.
  pose proof SIZE_MOD_ge. unfold file_put. rewrite Hf. cbn [mbind option_bind].
  destruct (Z.eqb_spec (refs x) 1) as [E1|E1]; cbn [negb].
  2: { pose proof (occ_le f pend). pose proof (cnt_bound w _ _ _ f Hinv). unfold zlen in *.
       rewrite u32_wrap_small by lia. eexists. split_and!; [done| |done|].
       - eapply (inv_set_refs w (f :: pend)); [done..|lia|lia|].
         intros g Hg. by rewrite occ_cons, decide_False.
       - intros g Hg. cbn. by rewrite lookup_insert_ne. }
  pose proof (i_kind _ _ _ _ Hinv f x Hf) as Hkind. unfold kind_ok in Hkind.
  assert (Htr : forall r, external r = true -> balance r (put_trace x (trace w)) = tally r (delete f (files w))).
  { intros r Hr'. rewrite put_trace_balance, (tally_drop _ _ f x Hf) by done.
    by rewrite (i_trace _ _ _ _ Hinv r Hr'). }
  assert (Hout : forall g, g <> f -> delete f (files w) !! g = files w !! g)
    by (intros; by rewrite lookup_delete_ne).
  set (w1 := set_files (<[f := with_refs (u32_wrap (refs x - 1)) x]> (files w)) w).
  set (w2 := if 0 <=? f_pty_index x then _ else _).
  assert (w2 = mk_world (files w1) (pipes w) (tables w) (put_trace x (trace w))) as ->.
  { unfold w2, put_trace, emit, w1. by case_bool_decide; case_test. }
  assert (delete f (files w1) = delete f (files w)) as Hdel by (cbn; by rewrite delete_insert_eq).
  assert (Hpipe : forall rd p, f_kind x = (if rd : bool then SCHED_FD_PIPE_READ else SCHED_FD_PIPE_WRITE) ->
    f_pipe x = Some p -> is_Some (pipes w !! p) ->
    exists w', (w' ← _pipe_release (mk_world (files w1) (pipes w) (tables w) (put_trace x (trace w))) (Some p) rd;
                Some (set_files (delete f (files w')) w')) = Some w' /\
      fd_inv w' pend pins None /\ tables w' = tables w /\ (forall g, g <> f -> files w' !! g = files w !! g)).
  { intros rd p Hk Hp [q Hq]. destruct (i_pipe _ _ _ _ Hinv p q Hq) as (_ & _ & Hwk & Hd & _).
    pose proof (occ_le p pins). unfold zlen, SIZE_MAX in *.
    erewrite pipe_release_settle; [|done|done|unfold SIZE_MAX; lia]. cbn [mbind option_bind].
    eexists. split; [done|]. unfold set_files. cbn [files pipes tables trace]. rewrite Hdel. split_and!; try done.
    destruct (settle_spec w pend pins f x p q rd) as [Hs1 Hs2]; try done.
    eapply inv_free_file; try done. intros r Hr'. rewrite !balance_snoc, Htr by done. destruct r; cbn; lia. }
  destruct (f_kind x) eqn:Ek.
  - done.
  - cbn [mbind option_bind]. eexists. split; [done|]. unfold set_files. cbn [files pipes tables trace].
    rewrite Hdel. split_and!; try done. eapply inv_free_file; try done.
    apply (no_end_spec w pend pins f x); try done. intros p. unfold weight. rewrite Ek.
    by split; case_bool_decide.
  - destruct Hkind as (p & Hp & Hs). rewrite Hp. by apply (Hpipe true).
  - destruct Hkind as (p & Hp & Hs). rewrite Hp. by apply (Hpipe false).
Qed.

(** *** New files *)

Lemma inv_new_file w pend pins news f x pm' tr' :
  fd_inv w pend pins news -> files w !! f = None -> refs x = 1 -> kind_ok (pipes w) x ->
  (forall p, is_Some (pipes w !! p) -> is_Some (pm' !! p)) ->
  (forall p q, pm' !! p = Some q ->
     readers q = weight (RReader p) x + tally (RReader p) (files w) /\
     writers q = weight (RWriter p) x + tally (RWriter p) (files w) /\
     wake_refs q = Z.of_nat (occ p pins) /\ destroying q = false /\
     0 < readers q + writers q + wake_refs q) ->
  (forall r, external r = true -> balance r tr' = balance r (trace w) + weight r x) ->
  fd_inv (mk_world (<[f := x]> (files w)) pm' (tables w) tr') (f :: pend) pins None.
Proof.
  intros [Hl Hs Hr Hlv Hk Hp Hpi Htr Hb] Hf Hr1 Hkx Hkeep Hpm Htr'.
  assert (Hkm : forall y, kind_ok (pipes w) y -> kind_ok pm' y).
  { intros y. unfold kind_ok. destruct (f_kind y); try done; intros (p & ? & ?); exists p; auto. }
  assert (cnt f (tables w) + occ f pend = 0)%nat as H0.
  { destruct (decide (0 < cnt f (tables w) + occ f pend)%nat) as [Hpos|]; [|lia].
    destruct (Hlv f Hpos). congruence. }
  split; cbn; try done.
  - intros g y Hg. rewrite occ_cons. destruct (decide (f = g)) as [<-|Hne].
    + rewrite lookup_insert_eq in Hg. simplify_eq. lia.
    + rewrite lookup_insert_ne in Hg by done. by apply Hr.
  - intros g Hg. rewrite occ_cons in Hg. destruct (decide (f = g)) as [<-|Hne]; [by rewrite lookup_insert_eq|].
    rewrite lookup_insert_ne by done. by apply Hlv.
  - intros g y Hg. destruct (decide (g = f)) as [->|Hne].
    + rewrite lookup_insert_eq in Hg. simplify_eq. auto.
    + rewrite lookup_insert_ne in Hg by done. eauto.
  - intros p q Hq. rewrite !tally_insert by done. destruct (Hpm p q Hq) as (?&?&?&?&?). auto 10.
  - auto.
  - intros r Hr'. rewrite tally_insert, Htr', Htr by done. lia.
Qed.

Definition spec_ready w news (s : sched_fd_spec_t) : Prop :=
  match sp_kind s with
  | SCHED_FD_PIPE_READ | SCHED_FD_PIPE_WRITE =>
      exists p, sp_pipe s = Some p /\ is_Some (pipes w !! p) /\ (news = None \/ news = Some p)
  | _ => news = None
  end.

(** One more file on the end [rd] of pipe [p]. *)
Definition add_end (rd : bool) (q : sched_pipe_t) : sched_pipe_t :=
  if rd then mk_pipe (p_ring q) (wrap (readers q + 1)) (writers q) (wake_refs q) (destroying q)
  else mk_pipe (p_ring q) (readers q) (wrap (writers q + 1)) (wake_refs q) (destroying q).

Lemma add_end_spec w pend pins news x p q (rd : bool) :
  fd_inv w pend pins news -> Z.of_nat (size (files w)) < SIZE_MAX -> pipes w !! p = Some q ->
  f_kind x = (if rd then SCHED_FD_PIPE_READ else SCHED_FD_PIPE_WRITE) -> f_pipe x = Some p ->
  (news = None \/ news = Some p) ->
  forall k qk, <[p := add_end rd q]> (pipes w) !! k = Some qk ->
     readers qk = weight (RReader k) x + tally (RReader k) (files w) /\
     writers qk = weight (RWriter k) x + tally (RWriter k) (files w) /\
     wake_refs qk = Z.of_nat (occ k pins) /\ destroying qk = false /\
     0 < readers qk + writers qk + wake_refs qk.
Proof.
  intros Hinv Hsz Hq Hk Hp Hnews k qk Hqk. unfold SIZE_MAX in Hsz.
  pose proof (tally_range (RReader k) (files w)). pose proof (tally_range (RWriter k) (files w)).
  destruct (decide (k = p)) as [->|Hne].
  - rewrite lookup_insert_eq in Hqk. simplify_eq.
    destruct (i_pipe _ _ _ _ Hinv p q Hq) as (Hrd & Hwr & Hwk & Hd & _).
    assert (weight (RReader p) x = (if rd then 1 else 0) /\ weight (RWriter p) x = (if rd then 0 else 1)) as [-> ->].
    { unfold weight. rewrite Hk, Hp. destruct rd; split; repeat case_bool_decide; cbn; congruence. }
    destruct rd; cbn; rewrite wrap_small by lia; split_and!; done || lia.
  - rewrite lookup_insert_ne in Hqk by done.
    assert (weight (RReader k) x = 0 /\ weight (RWriter k) x = 0) as [-> ->].
    { unfold weight. rewrite Hp, (bool_decide_eq_false_2 (Some p = Some k)) by congruence. by rewrite !andb_false_r. }
    destruct (i_pipe _ _ _ _ Hinv k qk Hqk) as (?&?&?&?&[?|Hn]); [done|].
    destruct Hnews; congruence.
Qed.

Lemma file_create_spec w pend pins news s f :
  fd_inv w pend pins news -> file_spec_valid (Some s) = true -> files w !! f = None ->
  Z.of_nat (size (files w)) < SIZE_MAX -> spec_ready w news s ->
  exists w', file_create w (Some s) (Some f) = Some (Some f, w') /\ fd_inv w' (f :: pend) pins None /\
    tables w' = tables w /\ files w' = <[f := file_of_spec s]> (files w) /\
    (forall p, is_Some (pipes w !! p) -> is_Some (pipes w' !! p)).
Proof.
  intros Hinv Hv Hf Hsz Hready. unfold file_create. rewrite Hv. cbn [negb]. set (x := file_of_spec s).
  assert (file_hold_resources (set_files (<[f := x]> (files w)) w) x
    = match f_kind x with
      | SCHED_FD_PIPE_READ => sched_pipe_get_reader (mk_world (<[f := x]> (files w)) (pipes w) (tables w) (hold_trace x (trace w))) (f_pipe x)
      | SCHED_FD_PIPE_WRITE => sched_pipe_get_writer (mk_world (<[f := x]> (files w)) (pipes w) (tables w) (hold_trace x (trace w))) (f_pipe x)
      | _ => Some (mk_world (<[f := x]> (files w)) (pipes w) (tables w) (hold_trace x (trace w)))
      end) as ->.
  { unfold file_hold_resources, hold_trace, emit. by case_bool_decide; case_test. }
  assert (Htr : forall r, external r = true -> balance r (hold_trace x (trace w)) = balance r (trace w) + weight r x)
    by (intros; by apply hold_trace_balance).
  assert (Hpipe : forall (rd : bool) p, f_kind x = (if rd then SCHED_FD_PIPE_READ else SCHED_FD_PIPE_WRITE) ->
    sp_pipe s = Some p -> is_Some (pipes w !! p) -> (news = None \/ news = Some p) ->
    exists w', ('w1 ← on_pipe (mk_world (<[f := x]> (files w)) (pipes w) (tables w) (hold_trace x (trace w))) p (add_end rd);
                Some (Some f, w1)) = Some (Some f, w') /\ fd_inv w' (f :: pend) pins None /\
      tables w' = tables w /\ files w' = <[f := x]> (files w) /\
      (forall p, is_Some (pipes w !! p) -> is_Some (pipes w' !! p))).
  { intros rd p Hk Hp [q Hq] Hn. unfold on_pipe. cbn [pipes]. rewrite Hq. cbn [mbind option_bind].
    assert (Hkeep : forall k, is_Some (pipes w !! k) -> is_Some (<[p := add_end rd q]> (pipes w) !! k)).
    { intros k Hks. destruct (decide (k = p)) as [->|]; [by rewrite lookup_insert_eq | by rewrite lookup_insert_ne]. }
    eexists. split_and!; [done| |done|done|exact Hkeep]. apply (inv_new_file w pend pins news); try done.
    - unfold kind_ok. rewrite Hk. destruct rd; exists p; eauto.
    - by apply (add_end_spec w pend pins news x p q rd). }
  unfold spec_ready in Hready. cbn in Hv. unfold x in *. cbn [f_kind file_of_spec f_pipe] in *.
  destruct (sp_kind s) eqn:Ek; try done.
  - subst news. cbn [mbind option_bind]. eexists. split_and!; [done| |done|done|done].
    apply (inv_new_file w pend pins None); try done.
    + unfold kind_ok. cbn. rewrite Ek. by apply bool_decide_eq_true in Hv.
    + intros p q Hq. assert (weight (RReader p) (file_of_spec s) = 0 /\ weight (RWriter p) (file_of_spec s) = 0) as [-> ->].
      { cbn. rewrite Ek. by split; case_bool_decide. }
      destruct (i_pipe _ _ _ _ Hinv p q Hq) as (?&?&?&?&[?|?]); done.
  - destruct Hready as (p & Hp & Hs & Hn). rewrite Hp. by apply (Hpipe true p).
  - destruct Hready as (p & Hp & Hs & Hn). rewrite Hp. by apply (Hpipe false p).
Qed.

(** *** Operations on descriptors *)

(** The tables after slot [n] of thread [t] was set to [s]. *)
Definition upd_slot w t (n : Z) (s : slot) : list (list slot) :=
  alter (fun T => <[Z.to_nat n := s]> T) t (tables w).

Lemma upd_slot_eq w t n s T :
  tables w !! t = Some T -> <[t := <[Z.to_nat n := s]> T]> (tables w) = upd_slot w t n s.
Proof.
  intros HT. unfold upd_slot. apply list_eq. intros k. destruct (decide (k = t)) as [->|Hne].
  - rewrite list_lookup_alter_eq, HT, list_lookup_insert_eq; [done|]. by eapply lookup_lt_Some.
  - by rewrite list_lookup_alter_ne, list_lookup_insert_ne.
Qed.

Lemma upd_slot_length w t n s : length (upd_slot w t n s) = length (tables w).
Proof. apply length_alter. Qed.

Lemma get_upd_slot w w' t n s :
  tables w' = upd_slot w t n s -> is_Some (get_slot w t n) ->
  get_slot w' t n = Some s /\
  (forall u k, u <> t \/ Z.to_nat k <> Z.to_nat n -> get_slot w' u k = get_slot w u k).
Proof.
  intros Ht [s0 H0]. unfold get_slot in *. rewrite Ht. unfold upd_slot.
  destruct (tables w !! t) as [T|] eqn:HT; [|done]. cbn [mbind option_bind] in H0.
  apply mload_Some in H0 as [Hr H0]. split.
  - rewrite list_lookup_alter_eq, HT. cbn [fmap option_fmap option_map mbind option_bind].
    rewrite mload_ok by (unfold zlen in *; rewrite length_insert; lia).
    apply list_lookup_insert_eq. unfold zlen in Hr. lia.
  - intros u k Hne. destruct (decide (u = t)) as [->|Hut].
    + rewrite list_lookup_alter_eq, HT. cbn [fmap option_fmap option_map mbind option_bind].
      destruct Hne as [?|Hk]; [done|]. unfold mload, zlen. rewrite length_insert.
      by rewrite list_lookup_insert_ne.
    + by rewrite list_lookup_alter_ne.
Qed.

Lemma find_free_spec w pend pins news t fuel n :
  fd_inv w pend pins news -> (t < length (tables w))%nat -> 0 <= n <= SCHED_FD_MAX ->
  SCHED_FD_MAX - n < Z.of_nat fuel ->
  exists m, find_free fuel w t n = Some m /\ n <= m <= SCHED_FD_MAX /\
    (forall k, n <= k < m -> exists s, get_slot w t k = Some s /\ fd_used s = true) /\
    (m < SCHED_FD_MAX -> exists s, get_slot w t m = Some s /\ fd_used s = false).
Proof.
  intros Hinv Ht. revert n. induction fuel as [|fuel IH]; intros n Hn Hf; [lia|].
  cbn [find_free]. case_test.
  2: { exists n. split_and!; [done|lia..|intros; lia|lia]. }
  destruct (get_slot_ok w pend pins news t n Hinv Ht ltac:(lia)) as (T & s & _ & _ & _ & Hs & _).
  rewrite Hs. cbn [mbind option_bind]. destruct (fd_used s) eqn:Hu.
  - destruct (IH (n + 1) ltac:(lia) ltac:(lia)) as (m & -> & Hm & Hbelow & Hfree).
    exists m. split_and!; [done|lia..| |done]. intros k Hk.
    destruct (decide (k = n)) as [->|]; [eauto|]. apply Hbelow. lia.
  - exists n. split_and!; [done|lia..|intros; lia|eauto].
Qed.

(** What opening a descriptor promises. *)
Definition opened w w' t (min_fd r : Z) (s : slot) : Prop :=
  Z.max 0 min_fd <= r < SCHED_FD_MAX /\
  (forall k, Z.max 0 min_fd <= k < r -> exists s, get_slot w t k = Some s /\ fd_used s = true) /\
  (exists s, get_slot w t r = Some s /\ fd_used s = false) /\
  tables w' = upd_slot w t r s.

Lemma open_spec w pins news t s min_fd alloc :
  fd_inv w [] pins news -> (t < length (tables w))%nat -> file_spec_valid (Some s) = true ->
  Z.of_nat (size (files w)) < SIZE_MAX -> spec_ready w news s ->
  (forall f, alloc = Some f -> files w !! f = None) ->
  exists r w', sched_fd_open w t (Some s) min_fd alloc = Some (r, w') /\
    ((exists f, alloc = Some f /\ opened w w' t min_fd r (mk_slot true (mk_fd (Some f) (sp_fd_flags s))) /\
        fd_inv w' [] pins None /\ files w' = <[f := file_of_spec s]> (files w) /\
        (forall p, is_Some (pipes w !! p) -> is_Some (pipes w' !! p)))
     \/ (r < 0 /\ w' = w /\ (alloc = None \/
           forall k, Z.max 0 min_fd <= k < SCHED_FD_MAX -> exists s, get_slot w t k = Some s /\ fd_used s = true))).
Proof.
  intros Hinv Ht Hv Hsz Hready Hfresh. unfold sched_fd_open. rewrite Hv. cbn [negb].
  replace (if min_fd <? 0 then 0 else min_fd) with (Z.max 0 min_fd) by (case_test; lia).
  case_test. { eexists _, _. split; [done|]. right. split_and!; [done..|]. right. intros. lia. }
  destruct (find_free_spec w [] pins news t (S (Z.to_nat SCHED_FD_MAX)) (Z.max 0 min_fd) Hinv Ht)
    as (m & -> & Hm & Hbelow & Hfree); [unfold SCHED_FD_MAX in *; lia..|].
  cbn [mbind option_bind]. case_test.
  { eexists _, _. split; [done|]. right. split_and!; [done..|]. right. intros. apply Hbelow. lia. }
  destruct alloc as [f|].
  2: { unfold file_create. rewrite Hv. cbn. eexists _, _. split; [done|]. right. split_and!; try done. by left. }
  destruct (file_create_spec w [] pins news s f Hinv Hv (Hfresh f eq_refl) Hsz Hready)
    as (w1 & -> & Hinv1 & Ht1 & Hf1 & Hp1).
  cbn [mbind option_bind]. destruct (Hfree ltac:(lia)) as (s0 & Hs0 & Hu0).
  assert (get_slot w1 t m = Some s0) as Hs1 by (unfold get_slot; by rewrite Ht1).
  destruct (slot_fill_spec w1 [] pins None t m s0 f (sp_fd_flags s) Hinv1) as (w2 & T & -> & Hinv2 & HT & Hw2);
    [by rewrite Ht1|lia|done|done|].
  cbn [mbind option_bind]. exists m, w2. split; [done|]. left. exists f. subst w2. cbn [files pipes set_tables].
  split_and!; try done. unfold opened. split_and!; [lia..|done|eauto|].
  cbn. rewrite Ht1 in *. by apply upd_slot_eq.
Qed.

Lemma close_spec w pend pins t n :
  fd_inv w pend pins None -> (t < length (tables w))%nat -> zlen pins < 2 ^ 20 -> zlen pend < 2 ^ 20 ->
  exists r w', sched_fd_close w t n = Some (r, w') /\ fd_inv w' pend pins None /\
    ((r = 0 /\ 0 <= n < SCHED_FD_MAX /\ tables w' = upd_slot w t n reset_slot /\
      exists s f, get_slot w t n = Some s /\ fd_used s = true /\ file (fd s) = Some f /\
        forall g, g <> f -> files w' !! g = files w !! g)
     \/ (r = - EBADF /\ w' = w /\ forall s, 0 <= n < SCHED_FD_MAX -> get_slot w t n = Some s -> fd_used s = false)).
Proof.
  intros Hinv Ht Hpins Hpend. unfold sched_fd_close.
  destruct ((n <? 0) || (SCHED_FD_MAX <=? n)) eqn:E.
  { eexists _, _. split_and!; [done|done|]. right. split_and!; [done..|]. intros s Hn.
    apply orb_true_iff in E as [?|?]; bool_facts; lia. }
  apply orb_false_iff in E as [E1 E2]. bool_facts.
  destruct (get_slot_ok w pend pins None t n Hinv Ht ltac:(lia)) as (T & s & HT & HTs & Hlen & Hs & Hok).
  rewrite Hs. cbn [mbind option_bind]. destruct (fd_used s) eqn:Hu; cbn [negb].
  2: { eexists _, _. split_and!; [done|done|]. right. split_and!; [done..|]. intros s' _ Hs'. congruence. }
  destruct (file (fd s)) as [f|] eqn:Hf; [|by destruct (slot_ok_file _ Hok Hu)].
  destruct (slot_clear_spec w pend pins None t n s f Hinv Ht ltac:(lia) Hs Hu Hf) as (w1 & T' & Hput & Hinv1 & HT' & Hw1).
  assert (is_Some (files w !! f)) as [x Hx].
  { destruct (i_live _ _ _ _ Hinv1 f) as [x Hx]; [rewrite occ_cons, decide_True by done; lia|].
    subst w1. eauto. }
  rewrite Hx. cbn [mbind option_bind]. rewrite Hput. cbn [mbind option_bind].
  unfold fd_release_value. rewrite Hf.
  destruct (file_put_spec w1 pend pins f Hinv1 Hpins Hpend) as (w2 & -> & Hinv2 & Ht2 & Hg2).
  cbn [mbind option_bind]. eexists _, _. split; [done|].
  assert (Htab : tables w2 = upd_slot w t n reset_slot).
  { rewrite Ht2, Hw1. cbn. by apply upd_slot_eq. }
  assert (Hsweep : forall b : bool, fd_inv (if b then emit ProcfsSweepDead w2 else w2) pend pins None).
  { intros []; [|done]. destruct Hinv2. split; cbn; try done. intros r Hr. rewrite balance_snoc.
    rewrite (i_trace0 r Hr). destruct r; cbn; lia. }
  split; [apply Hsweep|]. left. split_and!; try lia.
  - by destruct (bool_decide _).
  - exists s, f. split_and!; try done. intros g Hg. subst w1. transitivity (files w2 !! g); [by destruct (bool_decide _)|].
    by rewrite (Hg2 g Hg).
Qed.

Lemma upd_upd w w1 t n a b : tables w1 = upd_slot w t n a -> upd_slot w1 t n b = upd_slot w t n b.
Proof.
  intros Ht. unfold upd_slot at 1. rewrite Ht. unfold upd_slot. apply list_eq. intros k.
  destruct (decide (k = t)) as [->|Hne].
  - rewrite !list_lookup_alter_eq. destruct (tables w !! t); cbn; [|done]. by rewrite list_insert_insert_eq.
  - by rewrite !list_lookup_alter_ne.
Qed.

Lemma install_spec w pins t n f fl :
  fd_inv w [] pins None -> (t < length (tables w))%nat -> zlen pins < 2 ^ 20 ->
  is_Some (files w !! f) -> 0 <= n < SCHED_FD_MAX ->
  exists w', sched_fd_install w t n (Some (mk_fd (Some f) fl)) = Some (n, w') /\
    fd_inv w' [] pins None /\ tables w' = upd_slot w t n (mk_slot true (mk_fd (Some f) fl)).
Proof.
  intros Hinv Ht Hpins Hf Hn. unfold sched_fd_install. rewrite bool_decide_eq_false_2 by done.
  rewrite (proj2 (Z.ltb_ge _ _)), (proj2 (Z.leb_gt _ _)) by lia. cbn [orb].
  unfold fd_retain. cbn [file].
  destruct (file_get_spec w [] pins None f Hinv Hf) as (w1 & -> & Hinv1 & Ht1 & _ & _); [done|].
  cbn [mbind option_bind]. rewrite <- Ht1 in Ht.
  destruct (get_slot_ok w1 _ _ _ t n Hinv1 Ht Hn) as (T & s & _ & _ & _ & Hs & _).
  rewrite Hs. cbn [mbind option_bind].
  (* the slot is free after the old descriptor was closed *)
  assert (exists w2 s2, (if fd_used s then '(_, w) ← sched_fd_close w1 t n; Some w else Some w1) = Some w2 /\
    fd_inv w2 [f] pins None /\ length (tables w2) = length (tables w1) /\ get_slot w2 t n = Some s2 /\ fd_used s2 = false /\
    upd_slot w2 t n (mk_slot true (mk_fd (Some f) fl)) = upd_slot w1 t n (mk_slot true (mk_fd (Some f) fl)))
    as (w2 & s2 & -> & Hinv2 & Hlen2 & Hs2 & Hfree2 & Hupd).
  { destruct (fd_used s) eqn:Hu; [|by exists w1, s].
    destruct (close_spec w1 [f] pins t n Hinv1 Ht Hpins) as (r & w2 & -> & Hinv2 & Hcase); [done|].
    cbn [mbind option_bind]. destruct Hcase as [(_ & _ & Htab & _)|(_ & _ & Hno)].
    - destruct (get_upd_slot w1 w2 t n reset_slot Htab) as [Hg _]; [eauto|].
      exists w2, reset_slot. split_and!; try done; [by rewrite Htab, upd_slot_length|]. by eapply upd_upd.
    - specialize (Hno s Hn Hs). congruence. }
  cbn [mbind option_bind].
  destruct (slot_fill_spec w2 [] pins None t n s2 f fl Hinv2) as (w3 & T3 & -> & Hinv3 & HT3 & Hw3); try done; [lia|].
  cbn [mbind option_bind]. exists w3. split_and!; try done. subst w3. cbn.
  rewrite (upd_slot_eq w2 t n _ T3 HT3), Hupd. unfold upd_slot. by rewrite Ht1.
Qed.

Lemma put_get_commute w t n s f :
  (w1 ← put_slot w t n s; file_get w1 (Some f)) = (w1 ← file_get w (Some f); put_slot w1 t n s).
Proof.
  unfold put_slot, file_get. destruct (tables w !! t) as [T|] eqn:HT; cbn.
  - destruct (mstore T n s) as [T'|] eqn:Hm; cbn.
    + destruct (files w !! f) as [x|] eqn:Hx; cbn; [|done]. by rewrite HT; cbn; rewrite Hm.
    + destruct (files w !! f) as [x|] eqn:Hx; cbn; [|done]. by rewrite HT; cbn; rewrite Hm.
  - destruct (files w !! f) as [x|] eqn:Hx; cbn; [|done]. by rewrite HT.
Qed.

(** Copying a descriptor into a free slot and retaining its file. *)
Lemma share_spec w pins news t n s f fl :
  fd_inv w [] pins news -> (t < length (tables w))%nat -> 0 <= n < SCHED_FD_MAX ->
  get_slot w t n = Some s -> fd_used s = false -> is_Some (files w !! f) ->
  exists w', (w1 ← put_slot w t n (mk_slot true (mk_fd (Some f) fl)); file_get w1 (Some f)) = Some w' /\
    fd_inv w' [] pins news /\ tables w' = upd_slot w t n (mk_slot true (mk_fd (Some f) fl)) /\
    (forall g, is_Some (files w !! g) -> is_Some (files w' !! g)).
Proof.
  intros Hinv Ht Hn Hs Hfree Hf. rewrite put_get_commute.
  destruct (file_get_spec w [] pins news f Hinv Hf) as (w1 & Hg & Hinv1 & Ht1 & _ & Hf1); [done|].
  rewrite Hg. cbn [mbind option_bind]. assert (get_slot w1 t n = Some s) as Hs1 by (unfold get_slot; by rewrite Ht1).
  destruct (slot_fill_spec w1 [] pins news t n s f fl Hinv1) as (w2 & T & -> & Hinv2 & HT & Hw2);
    try done; [by rewrite Ht1|].
  exists w2. split_and!; try done.
  - subst w2. cbn. rewrite Ht1 in *. by apply upd_slot_eq.
  - subst w2. cbn. intros g Hgs. unfold file_get in Hg. destruct Hf as [x Hx]. rewrite Hx in Hg. cbn in Hg.
    simplify_eq. cbn. destruct (decide (g = f)) as [->|]; [by rewrite lookup_insert_eq | by rewrite lookup_insert_ne].
Qed.

Lemma alloc_spec w pins t f fl min_fd :
  fd_inv w [] pins None -> (t < length (tables w))%nat -> is_Some (files w !! f) ->
  exists r w', sched_fd_alloc w t (Some (mk_fd (Some f) fl)) min_fd = Some (r, w') /\ fd_inv w' [] pins None /\
    (opened w w' t min_fd r (mk_slot true (mk_fd (Some f) fl))
     \/ (r = - EMFILE /\ w' = w /\
         forall k, Z.max 0 min_fd <= k < SCHED_FD_MAX -> exists s, get_slot w t k = Some s /\ fd_used s = true)).
Proof.
  intros Hinv Ht Hf. unfold sched_fd_alloc. rewrite bool_decide_eq_false_2 by done.
  replace (if min_fd <? 0 then 0 else min_fd) with (Z.max 0 min_fd) by (case_test; lia).
  case_test. { eexists _, _. split_and!; [done|done|]. right. split_and!; [done..|]. intros. lia. }
  destruct (find_free_spec w [] pins None t (S (Z.to_nat SCHED_FD_MAX)) (Z.max 0 min_fd) Hinv Ht)
    as (m & -> & Hm & Hbelow & Hfree); [unfold SCHED_FD_MAX in *; lia..|].
  cbn [mbind option_bind]. case_test.
  { eexists _, _. split_and!; [done|done|]. right. split_and!; [done..|]. intros. apply Hbelow. lia. }
  destruct (Hfree ltac:(lia)) as (s0 & Hs0 & Hu0).
  destruct (share_spec w pins None t m s0 f fl Hinv Ht ltac:(lia) Hs0 Hu0 Hf) as (w' & Hr & Hinv' & Htab & _).
  destruct (put_slot w t m _) as [w1|]; [|done]. cbn [mbind option_bind] in *.
  unfold fd_retain. cbn [file]. rewrite Hr. cbn [mbind option_bind]. eexists _, _. split_and!; [done|done|].
  left. unfold opened. split_and!; [lia..|done|eauto|done].
Qed.

Lemma slot_file_live w pend pins news t n s f :
  fd_inv w pend pins news -> get_slot w t n = Some s -> fd_used s = true -> file (fd s) = Some f ->
  is_Some (files w !! f).
Proof.
  intros Hinv Hs Hu Hf. apply (i_live _ _ _ _ Hinv). unfold get_slot in Hs.
  destruct (tables w !! t) as [T|] eqn:HT; [|done]. cbn in Hs. apply mload_Some in Hs as [_ Hs].
  pose proof (sum_pos (table_cnt f) (tables w) t T HT) as H1.
  pose proof (sum_pos (holds f) T (Z.to_nat n) s Hs) as H2. unfold cnt.
  unfold holds in H2 at 1. rewrite Hu, Hf, bool_decide_eq_true_2 in H2 by done. cbn in H2.
  unfold table_cnt in H1. unfold table_cnt. lia.
Qed.

Lemma dup_spec w pins t oldfd newfd :
  fd_inv w [] pins None -> (t < length (tables w))%nat -> zlen pins < 2 ^ 20 ->
  exists r w', sched_fd_dup w t oldfd newfd = Some (r, w') /\ fd_inv w' [] pins None /\
    ((r = - EBADF /\ w' = w) \/
     (r = newfd /\ 0 <= oldfd < SCHED_FD_MAX /\ 0 <= newfd < SCHED_FD_MAX /\
      exists s, get_slot w t oldfd = Some s /\ fd_used s = true /\
        if oldfd =? newfd then w' = w
        else tables w' = upd_slot w t newfd (mk_slot true (mk_fd (file (fd s))
                           (Z.ldiff (fd_flags (fd s)) SCHED_FD_FLAG_CLOEXEC))))).
Proof.
  intros Hinv Ht Hpins. unfold sched_fd_dup.
  destruct ((oldfd <? 0) || (SCHED_FD_MAX <=? oldfd)) eqn:E; [eauto 10|].
  apply orb_false_iff in E as [E1 E2]. bool_facts.
  destruct (get_slot_ok w [] pins None t oldfd Hinv Ht ltac:(lia)) as (T & s & _ & _ & _ & Hs & Hok).
  rewrite Hs. cbn [mbind option_bind]. destruct (fd_used s) eqn:Hu; cbn [negb]; [|eauto 10].
  destruct ((newfd <? 0) || (SCHED_FD_MAX <=? newfd)) eqn:E; [eauto 10|].
  apply orb_false_iff in E as [E3 E4]. bool_facts.
  destruct (Z.eqb_spec oldfd newfd) as [->|Hne].
  { eexists _, _. split_and!; [done|done|]. right. split_and!; [done|lia..|]. eauto. }
  destruct (file (fd s)) as [f|] eqn:Hf; [|by destruct (slot_ok_file _ Hok Hu)].
  assert (is_Some (files w !! f)) as Hlive by by eapply slot_file_live.
  destruct (install_spec w pins t newfd f (Z.ldiff (fd_flags (fd s)) SCHED_FD_FLAG_CLOEXEC) Hinv Ht Hpins Hlive)
    as (w' & -> & Hinv' & Htab); [lia|].
  eexists _, _. split_and!; [done|done|]. right. split_and!; [done|lia..|]. exists s. by rewrite Hf.
Qed.

Lemma close_loop_spec w pins t test fuel n :
  fd_inv w [] pins None -> (t < length (tables w))%nat -> zlen pins < 2 ^ 20 -> 0 <= n <= SCHED_FD_MAX ->
  SCHED_FD_MAX - n < Z.of_nat fuel ->
  exists w', close_loop fuel w t test n = Some w' /\ fd_inv w' [] pins None /\
    length (tables w') = length (tables w) /\
    (forall u k, 0 <= k -> get_slot w' u k =
       if bool_decide (u = t) && (n <=? k)
       then (s ← get_slot w u k; Some (if fd_used s && test (fd s) then reset_slot else s))
       else get_slot w u k).
Proof.
  intros Hinv. revert w n Hinv. induction fuel as [|fuel IH]; intros w n Hinv Ht Hpins Hn Hf; [lia|].
  cbn [close_loop]. case_test.
  2: { exists w. split_and!; try done. intros u k Hk. case_bool_decide as Hut; cbn [andb]; [|done].
       destruct (n <=? k) eqn:E'; [|done]. bool_facts. subst u. unfold get_slot.
       destruct (lookup_lt_is_Some_2 (tables w) t Ht) as [T HT]. rewrite HT. cbn [mbind option_bind].
       pose proof (Forall_lookup_1 _ _ _ _ (i_len _ _ _ _ Hinv) HT) as Hlen. cbn in Hlen.
       unfold mload. by rewrite (proj2 (Z.ltb_ge k (zlen T))), andb_false_r by lia. }
  destruct (get_slot_ok w [] pins None t n Hinv Ht ltac:(lia)) as (T & s & _ & _ & _ & Hs & _).
  rewrite Hs. cbn [mbind option_bind].
  assert (Hstep : exists w1, (if fd_used s && test (fd s) then '(_, w) ← sched_fd_close w t n; Some w else Some w) = Some w1 /\
    fd_inv w1 [] pins None /\ length (tables w1) = length (tables w) /\
    forall u k, 0 <= k -> get_slot w1 u k = if bool_decide (u = t) && (k =? n)
      then Some (if fd_used s && test (fd s) then reset_slot else s) else get_slot w u k).
  { destruct (fd_used s && test (fd s)) eqn:Hc.
    - apply andb_true_iff in Hc as [Hu Htest].
      destruct (close_spec w [] pins t n Hinv Ht Hpins) as (r & w1 & -> & Hinv1 & Hcase); [done|].
      cbn [mbind option_bind]. exists w1. destruct Hcase as [(_ & _ & Htab & _)|(_ & _ & Hno)].
      + destruct (get_upd_slot w w1 t n reset_slot Htab) as [Hg Hg']; [eauto|].
        split_and!; try done; [by rewrite Htab, upd_slot_length|]. intros u k Hk.
        case_bool_decide as Hut; cbn [andb]; [|apply Hg'; by left].
        destruct (Z.eqb_spec k n) as [->|Hkn]; [by subst u|]. apply Hg'. right. lia.
      + specialize (Hno s ltac:(lia) Hs). congruence.
    - exists w. split_and!; try done. intros u k Hk. case_bool_decide as Hut; cbn [andb]; [|done].
      destruct (Z.eqb_spec k n) as [->|Hkn]; [|done]. by subst u. }
  destruct Hstep as (w1 & Hr1 & Hinv1 & Hlen1 & Hg1).
  destruct (IH w1 (n + 1) Hinv1) as (w' & Hr' & Hinv' & Hlen' & Hg'); try done; try lia.
  exists w'. split_and!; try done; [|lia|].
  - destruct (fd_used s && test (fd s)); [|by simplify_eq].
    destruct (sched_fd_close w t n) as [[r w0]|]; [|done]. cbn [mbind option_bind] in *. by simplify_eq.
  - intros u k Hk. rewrite Hg', Hg1 by done. case_bool_decide as Hut; cbn [andb]; [|done]. subst u.
    destruct (Z.eqb_spec k n) as [->|Hkn].
    + rewrite (proj2 (Z.leb_gt (n + 1) n)), (proj2 (Z.leb_le n n)) by lia. by rewrite Hs.
    + destruct (Z.leb_spec (n + 1) k), (Z.leb_spec n k); done || lia.
Qed.

Lemma clone_loop_spec w pins dst src fuel n :
  fd_inv w [] pins None -> (dst < length (tables w))%nat -> (src < length (tables w))%nat -> dst <> src ->
  0 <= n <= SCHED_FD_MAX -> SCHED_FD_MAX - n < Z.of_nat fuel ->
  (forall k s, n <= k -> get_slot w dst k = Some s -> fd_used s = false) ->
  exists w', clone_loop fuel w dst src n = Some w' /\ fd_inv w' [] pins None /\
    length (tables w') = length (tables w) /\
    (forall u k, 0 <= k -> get_slot w' u k =
       match get_slot w src k with
       | Some s => if bool_decide (u = dst) && (n <=? k) && fd_used s then Some s else get_slot w u k
       | None => get_slot w u k
       end).
Proof.
  intros Hinv Hd Hs Hne. revert w n Hinv Hd Hs.
  induction fuel as [|fuel IH]; intros w n Hinv Hd Hs Hn Hf Hfree; [lia|]. cbn [clone_loop]. case_test.
  2: { exists w. split_and!; try done. intros u k Hk. destruct (get_slot w src k) as [s|] eqn:Hsk; [|done].
       destruct (Z.leb_spec n k); [|by rewrite andb_false_r]. exfalso. unfold get_slot in Hsk.
       destruct (tables w !! src) as [T|] eqn:HT; [|done]. cbn in Hsk. apply mload_Some in Hsk as [Hr _].
       pose proof (Forall_lookup_1 _ _ _ _ (i_len _ _ _ _ Hinv) HT) as Hlen. cbn in Hlen. lia. }
  destruct (get_slot_ok w [] pins None src n Hinv Hs ltac:(lia)) as (T & s & _ & _ & _ & Hsn & Hok).
  rewrite Hsn. cbn [mbind option_bind]. destruct (fd_used s) eqn:Hu; cbn [negb].
  - destruct s as [us [fo fl]]. cbn in Hu. subst us. cbn [fd]. destruct fo as [f|]; [|by destruct (slot_ok_file _ Hok eq_refl)].
    assert (is_Some (files w !! f)) as Hlive by by eapply slot_file_live.
    destruct (get_slot_ok w [] pins None dst n Hinv Hd ltac:(lia)) as (T' & sd & _ & _ & _ & Hdn & _).
    assert (fd_used sd = false) as Hdf by (by eapply (Hfree n); [lia|]).
    destruct (share_spec w pins None dst n sd f fl Hinv Hd ltac:(lia) Hdn Hdf Hlive) as (w1 & Hr & Hinv1 & Htab & _).
    destruct (put_slot w dst n _) as [w0|]; [|done]. cbn [mbind option_bind] in *.
    unfold fd_retain. cbn [file]. rewrite Hr. cbn [mbind option_bind].
    destruct (get_upd_slot w w1 dst n _ Htab) as [Hg Hg']; [eauto|].
    assert (length (tables w1) = length (tables w)) as Hlen1 by (by rewrite Htab, upd_slot_length).
    destruct (IH w1 (n + 1) Hinv1) as (w' & -> & Hinv' & Hlen' & Hgw); try lia.
    { intros k s' Hk. rewrite Hg' by (right; lia). apply Hfree. lia. }
    exists w'. split_and!; try done; [lia|]. intros u k Hk. rewrite Hgw by done.
    rewrite (Hg' src k) by (by left). destruct (get_slot w src k) as [s'|] eqn:Hsk.
    + case_bool_decide as Hu; cbn [andb]; [subst u|apply Hg'; by left].
      destruct (decide (k = n)) as [->|Hkn].
      * rewrite (proj2 (Z.leb_gt (n + 1) n)), (proj2 (Z.leb_le n n)) by lia. cbn [andb].
        rewrite Hsn in Hsk. simplify_eq. cbn. done.
      * rewrite (Hg' dst k) by (right; lia). destruct (Z.leb_spec (n + 1) k), (Z.leb_spec n k); done || lia.
    + destruct (decide (k = n)) as [->|Hkn]; [congruence|]. apply Hg'. destruct (decide (u = dst)); [right; lia|by left].
  - destruct (IH w (n + 1) Hinv Hd Hs) as (w' & -> & Hinv' & Hlen' & Hgw); try lia.
    { intros k s' Hk. apply Hfree. lia. }
    exists w'. split_and!; try done. intros u k Hk. rewrite Hgw by done.
    destruct (get_slot w src k) as [s'|] eqn:Hsk; [|done].
    case_bool_decide as Hu'; cbn [andb]; [|done].
    destruct (decide (k = n)) as [->|Hkn].
    + rewrite Hsn in Hsk. simplify_eq. rewrite Hu. by rewrite !andb_false_r.
    + destruct (Z.leb_spec (n + 1) k), (Z.leb_spec n k); done || lia.
Qed.

(** *** Pins *)

Lemma pipe_begin_spec w pins p :
  fd_inv w [] pins None -> is_Some (pipes w !! p) -> zlen pins < 2 ^ 20 ->
  exists w', sched_pipe_begin w (Some p) = Some (true, w') /\ fd_inv w' [] (p :: pins) None /\
    tables w' = tables w /\ files w' = files w.
Proof.
  intros Hinv [q Hq] Hpins. pose proof SIZE_MOD_ge.
  destruct (i_pipe _ _ _ _ Hinv p q Hq) as (Hrd & Hwr & Hwk & Hd & Hpos).
  unfold sched_pipe_begin, on_pipe. rewrite Hq. cbn [mbind option_bind]. rewrite Hd. cbn [mbind option_bind].
  eexists. split; [done|]. pose proof (occ_le p pins). unfold zlen in Hpins.
  destruct Hinv as [Hl Hs Hr Hlv Hk Hp Hpi Htr Hb]. split_and!; try done. split; cbn; try done.
  - intros f x Hx. specialize (Hk f x Hx). unfold kind_ok in *. destruct (f_kind x); try done;
      destruct Hk as (p' & ? & ?); exists p'; (split; [done|]);
      (destruct (decide (p' = p)) as [->|]; [by rewrite lookup_insert_eq | by rewrite lookup_insert_ne]).
  - intros p' q' Hq'. rewrite occ_cons. destruct (decide (p' = p)) as [->|Hne].
    + rewrite lookup_insert_eq in Hq'. simplify_eq. cbn. rewrite wrap_small by lia. rewrite decide_True by done.
      pose proof (tally_range (RReader p) (files w)). pose proof (tally_range (RWriter p) (files w)).
      split_and!; try done; lia.
    + rewrite lookup_insert_ne in Hq' by done. rewrite decide_False by done. by apply Hp.
  - intros p' [->|Hp']%elem_of_cons; [by rewrite lookup_insert_eq|].
    destruct (decide (p' = p)) as [->|]; [by rewrite lookup_insert_eq | rewrite lookup_insert_ne by done; auto].
Qed.

Lemma pipe_end_spec w pins p :
  fd_inv w [] (p :: pins) None ->
  exists w', sched_pipe_end w (Some p) = Some w' /\ fd_inv w' [] pins None /\
    tables w' = tables w /\ files w' = files w.
Proof.
  intros Hinv. destruct (i_pins _ _ _ _ Hinv p) as [q Hq]; [by left|].
  destruct (i_pipe _ _ _ _ Hinv p q Hq) as (Hrd & Hwr & Hwk & Hd & _). rewrite occ_cons, decide_True in Hwk by done.
  unfold sched_pipe_end, on_pipe. rewrite Hq. cbn [mbind option_bind].
  erewrite try_destroy_settle with (q := unpin q); [|cbn; by rewrite lookup_insert_eq|done].
  cbn [pipes set_pipes]. rewrite settle_insert. eexists. split; [done|].
  assert (Hu : unpin q = mk_pipe (p_ring q) (readers q) (writers q) (Z.of_nat (occ p pins)) false).
  { unfold unpin. rewrite Hd. test_lia. f_equal. lia. }
  pose proof (tally_range (RReader p) (files w)). pose proof (tally_range (RWriter p) (files w)).
  assert (Hlook : forall k, k <> p -> settle p (unpin q) (pipes w) !! k = pipes w !! k).
  { intros k Hk. unfold settle. case_match; [by rewrite lookup_delete_ne | by rewrite lookup_insert_ne]. }
  assert (Hself : 0 < readers q + writers q + Z.of_nat (occ p pins) -> settle p (unpin q) (pipes w) !! p = Some (unpin q)).
  { intros Hpos. unfold settle. rewrite Hu. cbn. destruct (_ && _) eqn:E; [bool_facts; lia|].
    by rewrite lookup_insert_eq. }
  destruct Hinv as [Hl Hs Hr Hlv Hk Hp Hpi Htr Hb]. split_and!; try done. split; cbn; try done.
  - intros f x Hx. specialize (Hk f x Hx). unfold kind_ok in *. destruct (f_kind x) eqn:Ek; try done;
      destruct Hk as (p' & Hp' & Hps); exists p'; (split; [done|]);
      (destruct (decide (p' = p)) as [->|]; [|by rewrite Hlook]); rewrite Hself; try done.
    + pose proof (tally_pos (RReader p) _ f x Hx) as Hw. unfold weight in Hw. rewrite Ek, Hp' in Hw.
      rewrite !bool_decide_eq_true_2 in Hw by done. cbn in Hw. lia.
    + pose proof (tally_pos (RWriter p) _ f x Hx) as Hw. unfold weight in Hw. rewrite Ek, Hp' in Hw.
      rewrite !bool_decide_eq_true_2 in Hw by done. cbn in Hw. lia.
  - intros p' q' Hq'. destruct (decide (p' = p)) as [->|Hne].
    + unfold settle in Hq'. destruct (_ && _) eqn:E in Hq'; [by rewrite lookup_delete_eq in Hq'|].
      rewrite lookup_insert_eq in Hq'. simplify_eq. rewrite Hu in E |- *. cbn in *. split_and!; try done. left.
      apply andb_false_iff in E as [E|E]; [apply andb_false_iff in E as [E|E]|]; bool_facts; lia.
    + rewrite Hlook in Hq' by done. specialize (Hp p' q' Hq'). by rewrite occ_cons, decide_False in Hp.
  - intros p' Hp'. destruct (decide (p' = p)) as [->|Hne].
    + rewrite Hself; [done|]. apply occ_elem in Hp'. lia.
    + rewrite Hlook by done. apply Hpi. by right.
Qed.

(** *** Creating a pipe *)

Lemma tally_zero r fs : (forall f x, fs !! f = Some x -> weight r x = 0) -> tally r fs = 0.
Proof.
  unfold tally. apply (map_fold_weak_ind (fun acc m => (forall f x, m !! f = Some x -> weight r x = 0) -> acc = 0)); [done|].
  intros f x m acc Hm IH Hw. rewrite (Hw f x) by apply lookup_insert_eq. rewrite IH; [done|].
  intros g y Hg. apply (Hw g). rewrite lookup_insert_ne; [done|]. intros ->. congruence.
Qed.

(** No file is on a pipe that does not exist. *)
Lemma no_pipe_tally w pend pins news p :
  fd_inv w pend pins news -> pipes w !! p = None ->
  tally (RReader p) (files w) = 0 /\ tally (RWriter p) (files w) = 0 /\ occ p pins = 0%nat.
Proof.
  intros Hinv Hp. split_and!.
  - apply tally_zero. intros f x Hx. pose proof (i_kind _ _ _ _ Hinv f x Hx) as Hk. unfold kind_ok, weight in *.
    destruct (f_kind x); try (by case_bool_decide). destruct Hk as (p' & Hp' & [q Hq]). rewrite Hp'.
    repeat case_bool_decide; cbn; congruence.
  - apply tally_zero. intros f x Hx. pose proof (i_kind _ _ _ _ Hinv f x Hx) as Hk. unfold kind_ok, weight in *.
    destruct (f_kind x); try (by case_bool_decide). destruct Hk as (p' & Hp' & [q Hq]). rewrite Hp'.
    repeat case_bool_decide; cbn; congruence.
  - destruct (decide (0 < occ p pins)%nat) as [Hpos|]; [|lia]. apply occ_elem in Hpos.
    destruct (i_pins _ _ _ _ Hinv p Hpos). congruence.
Qed.

Lemma pipe_create_eq w cap p :
  exists ring, sched_pipe_create w cap (Some p) = (Some p, set_pipes (<[p := mk_pipe ring 0 0 0 false]> (pipes w)) w).
Proof. by eexists. Qed.

Lemma pipe_create_spec w pins p r :
  fd_inv w [] pins None -> pipes w !! p = None ->
  fd_inv (set_pipes (<[p := mk_pipe r 0 0 0 false]> (pipes w)) w) [] pins (Some p).
Proof.
  intros Hinv Hp. destruct (no_pipe_tally _ _ _ _ p Hinv Hp) as (H1 & H2 & H3).
  destruct Hinv as [Hl Hs Hr Hlv Hk Hpp Hpi Htr Hb].
  assert (Hkeep : forall k, is_Some (pipes w !! k) -> is_Some (<[p := mk_pipe r 0 0 0 false]> (pipes w) !! k)).
  { intros k Hks. destruct (decide (k = p)) as [->|]; [by rewrite lookup_insert_eq | by rewrite lookup_insert_ne]. }
  split; cbn; try done; [| |auto].
  - intros f x Hx. specialize (Hk f x Hx). unfold kind_ok in *. destruct (f_kind x); try done;
      destruct Hk as (p' & ? & ?); exists p'; auto.
  - intros k q Hq. destruct (decide (k = p)) as [->|Hne].
    + rewrite lookup_insert_eq in Hq. simplify_eq. cbn. rewrite H1, H2, H3. auto 10.
    + rewrite lookup_insert_ne in Hq by done. destruct (Hpp k q Hq) as (?&?&?&?&[?|?]); [auto 10|done].
Qed.

(** An operation on one pipe leaves the others alone. *)
Lemma on_pipe_frame w p g w' : on_pipe w p g = Some w' -> delete p (pipes w') = delete p (pipes w) /\ files w' = files w.
Proof. unfold on_pipe. destruct (pipes w !! p); [|done]. cbn. intros [= <-]. cbn. by rewrite delete_insert_eq. Qed.

Lemma try_destroy_frame w p w' : pipe_try_destroy w (Some p) = Some w' -> delete p (pipes w') = delete p (pipes w).
Proof. cbn. destruct (pipes w !! p); [|done]. cbn. case_match; intros [= <-]; [done|]. cbn. by rewrite delete_delete_eq. Qed.

Lemma release_frame w p rd w' : _pipe_release w (Some p) rd = Some w' -> delete p (pipes w') = delete p (pipes w).
Proof.
  unfold _pipe_release. destruct (on_pipe w p _) as [w1|] eqn:H1; [|done]. cbn [mbind option_bind].
  destruct (on_pipe (emit _ _) p unpin) as [w2|] eqn:H2; [|done]. cbn [mbind option_bind]. intros H3%try_destroy_frame.
  apply on_pipe_frame in H1 as [H1 _], H2 as [H2 _]. cbn in H2. congruence.
Qed.

Lemma open_frame w t sp m alloc r w' p : sched_fd_open w t (Some sp) m alloc = Some (r, w') -> sp_pipe sp = Some p -> delete p (pipes w') = delete p (pipes w).
Proof.
  intros Ho Hp. unfold sched_fd_open in Ho. destruct (file_spec_valid (Some sp)) eqn:Hv; cbn [negb] in Ho; [|by simplify_eq].
  destruct (SCHED_FD_MAX <=? _); [by simplify_eq|]. destruct (find_free _ w t _) as [n|]; [|done]. cbn [mbind option_bind] in Ho.
  destruct (SCHED_FD_MAX <=? n); [by simplify_eq|]. unfold file_create in Ho. rewrite Hv in Ho. cbn [negb] in Ho.
  destruct alloc as [f|]; [|by simplify_eq/=]. destruct (file_hold_resources _ _) as [w1|] eqn:Hh; [|done]. cbn [mbind option_bind] in Ho.
  assert (H1 : delete p (pipes w1) = delete p (pipes w)).
  { unfold file_hold_resources in Hh. cbn [file_of_spec f_kind f_pty_index f_pipe] in Hh. rewrite Hp in Hh.
    destruct (sp_kind sp), (0 <=? sp_pty_index sp); cbn in Hh; simplify_eq; try done; by apply on_pipe_frame in Hh as [? _]. }
  destruct (put_slot w1 t n _) as [w2|] eqn:Hs; [|done]. cbn in Ho. simplify_eq.
  unfold put_slot in Hs. destruct (tables w1 !! t) as [T|]; [|done]. cbn in Hs. destruct (mstore T _ _); [|done]. cbn in Hs. by simplify_eq.
Qed.

Lemma close_frame w t n r w' sl f x p : sched_fd_close w t n = Some (r, w') -> get_slot w t n = Some sl -> file (fd sl) = Some f -> files w !! f = Some x ->
  f_pipe x = Some p -> delete p (pipes w') = delete p (pipes w).
Proof.
  intros Hc Hsl Hf Hx Hp. unfold sched_fd_close in Hc. destruct (_ || _); [by simplify_eq|]. rewrite Hsl in Hc. cbn [mbind option_bind] in Hc.
  destruct (negb _); [by simplify_eq|]. rewrite Hf, Hx in Hc. cbn [mbind option_bind] in Hc. destruct (put_slot w t n _) as [w1|] eqn:Hs; [|done]. cbn [mbind option_bind] in Hc.
  assert (H1 : files w1 = files w /\ pipes w1 = pipes w).
  { unfold put_slot in Hs. destruct (tables w !! t) as [T|]; [|done]. cbn in Hs. destruct (mstore T _ _); [|done]. cbn in Hs. by simplify_eq. }
  destruct H1 as [Hf1 Hp1]. destruct (fd_release_value w1 (fd sl)) as [w2|] eqn:Hr; [|done]. cbn [mbind option_bind] in Hc.
  assert (H2 : delete p (pipes w2) = delete p (pipes w1)).
  { unfold fd_release_value, file_put in Hr. rewrite Hf, Hf1, Hx in Hr. cbn [mbind option_bind] in Hr. destruct (refs x =? 1); cbn [negb] in Hr; [|by simplify_eq].
    rewrite Hp in Hr. destruct (f_kind x), (0 <=? f_pty_index x); cbn [bool_decide] in Hr; unfold sched_pipe_put_reader, sched_pipe_put_writer in Hr;
      (destruct (_pipe_release _ (Some p) _) as [w3|] eqn:H3; [|done]; apply release_frame in H3; cbn in Hr; simplify_eq; exact H3) || (cbn in Hr; by simplify_eq). }
  rewrite Hp1 in H2. destruct (bool_decide _); cbn in Hc; by simplify_eq.
Qed.

(** Closing a descriptor just opened takes everything back. *)
Lemma close_undo w w' pins nw t m r f fl x :
  fd_inv w [] pins nw -> fd_inv w' [] pins None -> (t < length (tables w))%nat -> zlen pins < 2 ^ 20 ->
  opened w w' t m r (mk_slot true (mk_fd (Some f) fl)) -> files w !! f = None -> files w' = <[f := x]> (files w) ->
  exists w'', sched_fd_close w' t r = Some (0, w'') /\ fd_inv w'' [] pins None /\
    tables w'' = tables w /\ files w'' = files w /\ forall p, f_pipe x = Some p -> delete p (pipes w'') = delete p (pipes w').
Proof.
  intros Hinv Hinv' Ht Hpins (Hr & _ & (s0 & Hs0 & Hu0) & Htab) Hf Hfs.
  destruct (get_upd_slot w w' t r _ Htab) as [Hg _]; [eauto|].
  destruct (close_spec w' [] pins t r Hinv') as (c & w'' & Hc & Hinv'' & Hcase); try done.
  { by rewrite Htab, upd_slot_length. }
  destruct Hcase as [(-> & _ & Htab'' & s & f' & Hs & _ & Hf' & Hother)|(_ & _ & Hno)].
  2: { specialize (Hno _ ltac:(lia) Hg). done. }
  rewrite Hg in Hs. simplify_eq. cbn in Hf'. simplify_eq.
  assert (tables w'' = tables w) as Htb.
  { rewrite Htab'', (upd_upd w w' t r _ _ Htab). unfold upd_slot. apply list_eq. intros k.
    destruct (decide (k = t)) as [->|]; [|by rewrite list_lookup_alter_ne]. rewrite list_lookup_alter_eq.
    unfold get_slot in Hs0. destruct (tables w !! t) as [T|] eqn:HT; [|done]. cbn in *. f_equal.
    apply mload_Some in Hs0 as [_ Hs0]. apply list_insert_id.
    pose proof (Forall_lookup_1 _ _ _ _ (Forall_lookup_1 _ _ _ _ (i_slots _ _ _ _ Hinv) HT) Hs0) as Hok.
    unfold slot_ok in Hok. rewrite Hu0 in Hok. by rewrite Hs0, Hok. }
  exists w''. split_and!; try done; [|intros p Hp; eapply close_frame; [exact Hc|exact Hg|done|by rewrite Hfs, lookup_insert_eq|done]].
  apply map_eq. intros g. destruct (decide (g = f')) as [->|Hne].
  - rewrite Hf. destruct (files w'' !! f') as [y|] eqn:Hy; [|done]. exfalso.
    destruct (i_refs _ _ _ _ Hinv'' f' y Hy) as [E1 E2]. rewrite Htb in E1.
    destruct (i_live _ _ _ _ Hinv f'); [lia|congruence].
  - rewrite (Hother g Hne), Hfs. by rewrite lookup_insert_ne.
Qed.

Lemma pipe_gone w w' pins p :
  fd_inv w [] pins None -> fd_inv w' [] pins None -> files w' = files w -> pipes w !! p = None -> pipes w' !! p = None.
Proof.
  intros Hinv Hinv' Hf Hp. destruct (no_pipe_tally _ _ _ _ p Hinv Hp) as (H1 & H2 & H3).
  destruct (pipes w' !! p) as [q|] eqn:Hq; [|done]. exfalso.
  destruct (i_pipe _ _ _ _ Hinv' p q Hq) as (E1 & E2 & E3 & _ & [?|?]); [|done].
  rewrite Hf, H1 in E1. rewrite Hf, H2 in E2. rewrite H3 in E3. lia.
Qed.

(** Both ends are open, or nothing is left of the attempt. *)
Definition pipe_opened w w' t p f1 f2 : Prop :=
  exists w1 r1 r2 x1 x2, opened w w1 t 3 r1 (mk_slot true (mk_fd (Some f1) 0)) /\
    opened w1 w' t 3 r2 (mk_slot true (mk_fd (Some f2) 0)) /\
    files w' = <[f2 := x2]> (<[f1 := x1]> (files w)) /\
    f_kind x1 = SCHED_FD_PIPE_READ /\ f_pipe x1 = Some p /\ f_kind x2 = SCHED_FD_PIPE_WRITE /\ f_pipe x2 = Some p /\
    is_Some (pipes w' !! p) /\ delete p (pipes w') = pipes w.

Lemma sys_pipe_spec w pins t prepared copied pa ra wa tn ro wo :
  fd_inv w [] pins None -> (t < length (tables w))%nat -> zlen pins < 2 ^ 20 ->
  Z.of_nat (size (files w)) + 1 < SIZE_MAX ->
  (forall p, pa = Some p -> pipes w !! p = None) -> (forall f, ra = Some f -> files w !! f = None) ->
  (forall f, wa = Some f -> files w !! f = None) -> (ra = None \/ ra <> wa) ->
  exists r w', sys_pipe w t prepared copied pa ra wa tn ro wo = Some (r, w') /\ fd_inv w' [] pins None /\
    ((r = 0 /\ exists p f1 f2, pa = Some p /\ ra = Some f1 /\ wa = Some f2 /\ pipe_opened w w' t p f1 f2)
     \/ (r < 0 /\ tables w' = tables w /\ files w' = files w /\ pipes w' = pipes w)).
Proof.
  intros Hinv Ht Hpins Hsz Hpa Hra Hwa Hne. pose proof SIZE_MOD_ge. unfold sys_pipe.
  destruct prepared; cbn [negb].
  2: { eexists _, _. split_and!; [done|done|]. right. split_and!; done. }
  destruct pa as [p|].
  2: { eexists _, _. split_and!; [done|done|]. right. split_and!; done. }
  specialize (Hpa p eq_refl). destruct (pipe_create_eq w SCHED_PIPE_CAPACITY p) as [ring ->].
  pose proof (pipe_create_spec w pins p ring Hinv Hpa) as Hinv0.
  set (w0 := set_pipes _ w) in *. set (rs := mk_spec SCHED_FD_PIPE_READ _ _ _ _ _ _ _ _).
  assert (is_Some (pipes w0 !! p)) as Hp0 by (cbn; by rewrite lookup_insert_eq).
  destruct (open_spec w0 pins (Some p) t rs 3 ra Hinv0) as (r1 & w1 & Ho1 & Hcase1); try done; [cbn; lia|exists p; auto|].
  assert (F1 : delete p (pipes w1) = pipes w) by (rewrite (open_frame _ _ _ _ _ _ _ p Ho1 eq_refl); cbn; by rewrite delete_insert_eq, delete_id).
  rewrite Ho1. cbn [mbind option_bind].
  destruct Hcase1 as [(f1 & -> & Hop1 & Hinv1 & Hf1 & Hp1)|(Hr1 & -> & _)].
  2: { rewrite (proj2 (Z.ltb_lt _ _)) by done. unfold sched_pipe_put_reader.
       erewrite pipe_release_settle; [|cbn; apply lookup_insert_eq|done|cbn; unfold SIZE_MAX; lia].
       cbn [mbind option_bind]. unfold settle. cbn. rewrite delete_insert_eq, delete_id by done.
       eexists _, _. split_and!; [done| |right; by split_and!].
       destruct Hinv. split; cbn; try done. intros r Hr. rewrite !balance_snoc, (i_trace0 r Hr). destruct r; cbn; lia. }
  assert (0 <= r1 < SCHED_FD_MAX) as Hr1 by (destruct Hop1; lia).
  rewrite (proj2 (Z.ltb_ge _ _)) by lia.
  assert (length (tables w1) = length (tables w)) as Hl1 by (destruct Hop1 as (_ & _ & _ & ->); by rewrite upd_slot_length).
  specialize (Hra f1 eq_refl).
  assert (Hundo : forall w3, fd_inv w3 [] pins None -> tables w3 = tables w1 -> files w3 = files w1 ->
    delete p (pipes w3) = pipes w -> exists w'', sched_fd_close w3 t r1 = Some (0, w'') /\ fd_inv w'' [] pins None /\ tables w'' = tables w /\
      files w'' = files w /\ pipes w'' = pipes w).
  { intros w3 Hinv3 Ht3 Hf3 F3.
    destruct (close_undo w0 w3 pins (Some p) t 3 r1 f1 0 (file_of_spec rs)) as (w'' & ? & ? & Htw & Hfw & Hpw); try done.
    - unfold opened in *. by rewrite Ht3.
    - congruence.
    - exists w''. split_and!; try done. rewrite <- F3, <- (Hpw p eq_refl). symmetry. apply delete_id. by apply (pipe_gone w w'' pins). }
  set (ws := mk_spec SCHED_FD_PIPE_WRITE _ _ _ _ _ _ _ _).
  destruct (open_spec w1 pins None t ws 3 wa Hinv1) as (r2 & w2 & Ho2 & Hcase2); try done.
  - by rewrite Hl1.
  - rewrite Hf1, map_size_insert_None by done. change (files w0) with (files w). lia.
  - exists p. split_and!; try done; [|by left]. by apply Hp1.
  - intros f Hf. rewrite Hf1. cbn. rewrite lookup_insert_ne; [by apply Hwa|]. intros ->. destruct Hne; congruence.
  - assert (F2 : delete p (pipes w2) = pipes w) by (by rewrite (open_frame _ _ _ _ _ _ _ p Ho2 eq_refl)). rewrite Ho2. cbn [mbind option_bind]. destruct Hcase2 as [(f2 & -> & Hop2 & Hinv2 & Hf2 & Hp2)|(Hr2 & -> & _)].
    2: { rewrite (proj2 (Z.ltb_lt _ _)) by done.
         destruct (Hundo w1 Hinv1 eq_refl eq_refl F1) as (w'' & -> & Hi & Htt & Hff & Hpg). cbn [mbind option_bind].
         eexists _, _. split_and!; [done|done|]. right. by split_and!. }
    assert (0 <= r2 < SCHED_FD_MAX) as Hr2 by (destruct Hop2; lia).
    rewrite (proj2 (Z.ltb_ge _ _)) by lia. destruct copied; cbn [negb].
    + eexists _, _. split_and!; [done|done|]. left. split; [done|]. exists p, f1, f2. split_and!; try done.
      exists w1, r1, r2, (file_of_spec rs), (file_of_spec ws). split_and!; try done; [|auto]. by rewrite Hf2, Hf1.
    + destruct (close_undo w1 w2 pins None t 3 r2 f2 0 (file_of_spec ws)) as (w3 & -> & Hinv3 & Ht3 & Hf3 & Hp3); try done.
      * by rewrite Hl1.
      * rewrite Hf1. cbn. rewrite lookup_insert_ne; [by apply Hwa|]. intros ->. destruct Hne; congruence.
      * cbn [mbind option_bind].
        destruct (Hundo w3 Hinv3 Ht3 Hf3 ltac:(by rewrite (Hp3 p eq_refl))) as (w'' & -> & Hi & Htt & Hff & Hpg). cbn [mbind option_bind].
        eexists _, _. split_and!; [done|done|]. right. by split_and!.
Qed.

(** ** Histories *)

(** The steps of the system: a world and the pipes pinned by readers and writers that sleep.
    Allocators answer addresses that are not in use; the address space bounds the number of
    files.  A clone goes to a fresh table, as [sched_fork] calls it. *)
Inductive fd_step : world * list Z -> world * list Z -> Prop :=
  | fstep_open w pins t s m alloc r w' :
      (t < length (tables w))%nat -> sp_kind s = SCHED_FD_VFS -> Z.of_nat (size (files w)) < SIZE_MAX ->
      (forall f, alloc = Some f -> files w !! f = None) ->
      sched_fd_open w t (Some s) m alloc = Some (r, w') -> fd_step (w, pins) (w', pins)
  | fstep_pipe w pins t b1 b2 pa ra wa tn ro wo r w' :
      (t < length (tables w))%nat -> zlen pins < 2 ^ 20 -> Z.of_nat (size (files w)) + 1 < SIZE_MAX ->
      (forall p, pa = Some p -> pipes w !! p = None) -> (forall f, ra = Some f -> files w !! f = None) ->
      (forall f, wa = Some f -> files w !! f = None) -> (ra = None \/ ra <> wa) ->
      sys_pipe w t b1 b2 pa ra wa tn ro wo = Some (r, w') -> fd_step (w, pins) (w', pins)
  | fstep_close w pins t n r w' :
      (t < length (tables w))%nat -> zlen pins < 2 ^ 20 ->
      sched_fd_close w t n = Some (r, w') -> fd_step (w, pins) (w', pins)
  | fstep_dup w pins t a b r w' :
      (t < length (tables w))%nat -> zlen pins < 2 ^ 20 ->
      sched_fd_dup w t a b = Some (r, w') -> fd_step (w, pins) (w', pins)
  | fstep_alloc w pins t u n s m r w' :
      (t < length (tables w))%nat -> get_slot w u n = Some s -> fd_used s = true ->
      sched_fd_alloc w t (Some (fd s)) m = Some (r, w') -> fd_step (w, pins) (w', pins)
  | fstep_clone w pins dst src b w' :
      (dst < length (tables w))%nat -> (src < length (tables w))%nat -> dst <> src ->
      (forall k s, get_slot w dst k = Some s -> fd_used s = false) ->
      sched_fd_clone_table w dst src = Some (b, w') -> fd_step (w, pins) (w', pins)
  | fstep_close_all w pins t w' :
      (t < length (tables w))%nat -> zlen pins < 2 ^ 20 ->
      sched_fd_close_all w t = Some w' -> fd_step (w, pins) (w', pins)
  | fstep_cloexec w pins t w' :
      (t < length (tables w))%nat -> zlen pins < 2 ^ 20 ->
      sched_fd_close_cloexec w t = Some w' -> fd_step (w, pins) (w', pins)
  | fstep_begin w pins p b w' :
      is_Some (pipes w !! p) -> zlen pins < 2 ^ 20 ->
      sched_pipe_begin w (Some p) = Some (b, w') -> fd_step (w, pins) (w', p :: pins)
  | fstep_end w pins p w' :
      sched_pipe_end w (Some p) = Some w' -> fd_step (w, p :: pins) (w', pins).

Lemma fd_step_inv a b : fd_inv a.1 [] a.2 None -> fd_step a b -> fd_inv b.1 [] b.2 None.
Proof.
  intros Hinv Hs. destruct Hs; cbn [fst snd] in *.
  - destruct (file_spec_valid (Some s)) eqn:Hv.
    + destruct (open_spec w pins None t s m alloc Hinv) as (r' & w'' & Hr & Hc); try done.
      { unfold spec_ready. by destruct (sp_kind s). }
      simplify_eq. destruct Hc as [(f & _ & _ & ? & _)|(_ & -> & _)]; done.
    + unfold sched_fd_open in *. rewrite Hv in *. cbn [negb] in *. by simplify_eq.
  - destruct (sys_pipe_spec w pins t b1 b2 pa ra wa tn ro wo) as (? & ? & ? & ? & _); try done. by simplify_eq.
  - destruct (close_spec w [] pins t n Hinv) as (? & ? & ? & ? & _); try done. by simplify_eq.
  - destruct (dup_spec w pins t a b Hinv) as (? & ? & ? & ? & _); try done. by simplify_eq.
  - destruct s as [us [fo fl]]. cbn [fd_used fd] in *. subst us. destruct fo as [f|].
    + assert (is_Some (files w !! f)) as Hl by by eapply slot_file_live.
      destruct (alloc_spec w pins t f fl m Hinv) as (? & ? & ? & ? & _); try done. by simplify_eq.
    + unfold sched_fd_alloc in *. rewrite bool_decide_eq_true_2 in * by done. by simplify_eq.
  - unfold sched_fd_clone_table in *.
    destruct (clone_loop_spec w pins dst src (S (Z.to_nat SCHED_FD_MAX)) 0 Hinv) as (? & Hr & ? & _); try done; eauto.
    rewrite Hr in *. cbn [mbind option_bind] in *. by simplify_eq.
  - destruct (close_loop_spec w pins t (fun _ => true) (S (Z.to_nat SCHED_FD_MAX)) 0 Hinv) as (? & Hr & ? & _); try done.
    unfold sched_fd_close_all in *. by simplify_eq.
  - destruct (close_loop_spec w pins t (fun d => negb (Z.land (fd_flags d) SCHED_FD_FLAG_CLOEXEC =? 0))
      (S (Z.to_nat SCHED_FD_MAX)) 0 Hinv) as (? & Hr & ? & _); try done.
    unfold sched_fd_close_cloexec in *. by simplify_eq.
  - destruct (pipe_begin_spec w pins p Hinv) as (? & ? & ? & _); try done. by simplify_eq.
  - destruct (pipe_end_spec w pins p Hinv) as (? & ? & ? & _). by simplify_eq.
Qed.

(** The world at boot: [n] empty tables. *)
Definition boot (n : nat) : world :=
  mk_world ∅ ∅ (replicate n (replicate (Z.to_nat SCHED_FD_MAX) reset_slot)) [].

Lemma boot_cnt n f : cnt f (tables (boot n)) = 0%nat.
Proof.
  unfold cnt, boot. cbn [tables].
  assert (forall k, sum_list (holds f <$> replicate k reset_slot) = 0%nat) as Hz by (induction k; cbn; auto).
  induction n as [|n IH]; [done|]. cbn [replicate fmap list_fmap sum_list]. unfold table_cnt at 1.
  rewrite Hz. exact IH.
Qed.

Lemma boot_inv n : SCHED_FD_MAX * Z.of_nat n < 2 ^ 31 -> fd_inv (boot n) [] [] None.
Proof.
  intros Hn. split.
  - apply Forall_replicate. unfold zlen. by rewrite length_replicate.
  - by apply Forall_replicate, Forall_replicate.
  - intros f x Hx. cbn in Hx. by rewrite lookup_empty in Hx.
  - intros f Hf. rewrite boot_cnt in Hf. unfold occ in Hf. cbn in Hf. lia.
  - intros f x Hx. cbn in Hx. by rewrite lookup_empty in Hx.
  - intros p q Hq. cbn in Hq. by rewrite lookup_empty in Hq.
  - by intros p ?%elem_of_nil.
  - intros r _. done.
  - cbn. unfold zlen. by rewrite length_replicate.
Qed.

Lemma history_inv n w pins :
  SCHED_FD_MAX * Z.of_nat n < 2 ^ 31 -> rtc fd_step (boot n, []) (w, pins) -> fd_inv w [] pins None.
Proof.
  intros Hn Hs. change (fd_inv (w, pins).1 [] (w, pins).2 None). pose proof (boot_inv n Hn) as H0.
  change (fd_inv (boot n, [] : list Z).1 [] (boot n, [] : list Z).2 None) in H0. revert H0.
  induction Hs as [|a b c Hab _ IH]; [done|]. intros H0. by eapply IH, fd_step_inv.
Qed.

(** ** The theorems *)

(** C2: Reference counts are exact.  In every history of opens, pipes, dups, closes, table
    clones and blocking pipe operations, the count of a file is the number of descriptors
    that point to it, a used descriptor points to a live file, a pipe's reader and writer
    counts are the numbers of live files on its ends and it is gone as soon as nothing uses
    it, and the VFS and pseudo-terminal opens minus closes equal the live files that hold
    them. *)
Theorem fd_refcounts_exact n w pins :
  SCHED_FD_MAX * Z.of_nat n < 2 ^ 31 -> rtc fd_step (boot n, []) (w, pins) ->
  (forall f x, files w !! f = Some x -> refs x = Z.of_nat (cnt f (tables w)) /\ 1 <= refs x) /\
  (forall t k s, get_slot w t k = Some s -> fd_used s = true ->
     exists f x, file (fd s) = Some f /\ files w !! f = Some x) /\
  (forall p q, pipes w !! p = Some q ->
     readers q = tally (RReader p) (files w) /\ writers q = tally (RWriter p) (files w) /\
     wake_refs q = Z.of_nat (occ p pins) /\ 0 < readers q + writers q + wake_refs q) /\
  (forall f x p, files w !! f = Some x -> f_pipe x = Some p ->
     f_kind x = SCHED_FD_PIPE_READ \/ f_kind x = SCHED_FD_PIPE_WRITE -> is_Some (pipes w !! p)) /\
  (forall r, external r = true -> balance r (trace w) = tally r (files w)).
Proof.
  intros Hn Hs. pose proof (history_inv n w pins Hn Hs) as Hinv. split_and!.
  - intros f x Hx. destruct (i_refs _ _ _ _ Hinv f x Hx) as [E ?]. by rewrite Nat.add_0_r in E.
  - intros t k s Hk Hu. unfold get_slot in Hk. destruct (tables w !! t) as [T|] eqn:HT; [|done]. cbn in Hk.
    pose proof (mload_Some _ _ _ Hk) as [_ Hk'].
    pose proof (Forall_lookup_1 _ _ _ _ (Forall_lookup_1 _ _ _ _ (i_slots _ _ _ _ Hinv) HT) Hk') as Hok.
    pose proof (slot_ok_file _ Hok Hu). destruct (file (fd s)) as [f|] eqn:Hf; [|done].
    destruct (slot_file_live w [] pins None t k s f Hinv) as [x Hx]; try done; [|by eauto].
    unfold get_slot. by rewrite HT.
  - intros p q Hq. destruct (i_pipe _ _ _ _ Hinv p q Hq) as (?&?&?&_&[?|?]); done.
  - intros f x p Hx Hp Hk. pose proof (i_kind _ _ _ _ Hinv f x Hx) as Hok. unfold kind_ok in Hok.
    destruct Hk as [Hk|Hk]; rewrite Hk in Hok; destruct Hok as (p' & ? & ?); by simplify_eq.
  - apply (i_trace _ _ _ _ Hinv).
Qed.

(** With no descriptor in use no file is left, and a pipe only while an operation on it is in progress. *)
Lemma all_free_empty w pins : fd_inv w [] pins None -> (forall t k s, get_slot w t k = Some s -> fd_used s = false) ->
  files w = ∅ /\ (forall p, is_Some (pipes w !! p) <-> p ∈ pins) /\ forall r, external r = true -> balance r (trace w) = 0.
Proof.
  intros Hinv Hfree.
  assert (Hcnt : forall f, cnt f (tables w) = 0%nat).
  { intros f. unfold cnt.
    assert (sum_list (table_cnt f <$> tables w) <= 0 * length (tables w))%nat; [|lia].
    apply sum_bound. intros T [t HT]%list_elem_of_lookup. unfold table_cnt.
    assert (sum_list (holds f <$> T) <= 0 * length T)%nat; [|lia].
    apply sum_bound. intros s [k Hk]%list_elem_of_lookup. rewrite holds_free; [done|].
    apply (Hfree t (Z.of_nat k)). unfold get_slot. rewrite HT. cbn [mbind option_bind].
    pose proof (lookup_lt_Some _ _ _ Hk). rewrite mload_ok by (unfold zlen; lia). by rewrite Nat2Z.id. }
  assert (files w = ∅) as Hf.
  { apply map_empty. intros f. destruct (files w !! f) as [x|] eqn:Hx; [|done].
    destruct (i_refs _ _ _ _ Hinv f x Hx) as [E ?]. rewrite Hcnt in E. unfold occ in E. cbn in E. lia. }
  split_and!; [done| |].
  - intros p. split; [|apply (i_pins _ _ _ _ Hinv)]. intros [q Hq].
    destruct (i_pipe _ _ _ _ Hinv p q Hq) as (E1 & E2 & E3 & _ & [Hpos|?]); [|done].
    rewrite Hf in E1, E2. unfold tally in E1, E2. rewrite map_fold_empty in E1, E2. apply occ_elem. lia.
  - intros r Hr. rewrite (i_trace _ _ _ _ Hinv r Hr), Hf. done.
Qed.

(** The threads exit, one after the other: each closes all its descriptors. *)
Fixpoint exit_all w (ts : list nat) : option world :=
  match ts with [] => Some w | t :: ts => w ← sched_fd_close_all w t; exit_all w ts end.

Definition table_free w t : Prop := forall k s, get_slot w t k = Some s -> fd_used s = false.

Lemma close_all_frees w pins t : fd_inv w [] pins None -> (t < length (tables w))%nat -> zlen pins < 2 ^ 20 ->
  exists w', sched_fd_close_all w t = Some w' /\ fd_inv w' [] pins None /\ length (tables w') = length (tables w) /\
    forall u, u = t \/ table_free w u -> table_free w' u.
Proof.
  intros Hinv Ht Hp. destruct (close_loop_spec w pins t (fun _ => true) (S (Z.to_nat SCHED_FD_MAX)) 0 Hinv Ht Hp) as (w' & Hr & Hinv' & Hl & Hg); [done..|].
  exists w'. split_and!; try done. intros u Hu k s Hk.
  assert (0 <= k) by (unfold get_slot in Hk; destruct (tables w' !! u); [|done]; cbn in Hk; by apply mload_Some in Hk as [? _]; lia).
  rewrite Hg, (proj2 (Z.leb_le 0 k)), andb_true_r in Hk by done. case_bool_decide; [|destruct Hu as [?|Hu]; [done|by apply (Hu k)]].
  destruct (get_slot w u k) as [s0|]; [|done]. cbn in Hk. rewrite andb_true_r in Hk. injection Hk as <-. by destruct (fd_used s0) eqn:E.
Qed.

Lemma exit_all_spec ts w pins (D : nat -> Prop) : fd_inv w [] pins None -> Forall (fun t => (t < length (tables w))%nat) ts -> zlen pins < 2 ^ 20 ->
  (forall u, D u -> table_free w u) ->
  exists w', exit_all w ts = Some w' /\ fd_inv w' [] pins None /\ length (tables w') = length (tables w) /\ forall u, u ∈ ts \/ D u -> table_free w' u.
Proof.
  revert w D. induction ts as [|t ts IH]; intros w D Hinv Hts Hp HD; cbn [exit_all].
  { exists w. split_and!; try done. intros u [Hu|Hu]; [by apply elem_of_nil in Hu|by apply HD]. }
  apply Forall_cons in Hts as [Ht Hts]. destruct (close_all_frees w pins t Hinv Ht Hp) as (w1 & -> & Hinv1 & Hl1 & Hf1). cbn [mbind option_bind].
  destruct (IH w1 (fun u => u = t \/ D u) Hinv1) as (w' & Hr & Hinv' & Hl & Hf); [by rewrite Hl1|done| |].
  { intros u [->|Hu]; apply Hf1; [by left|right; by apply HD]. }
  exists w'. split_and!; [done|done|congruence|]. intros u [[->|Hu]%elem_of_cons|Hu]; apply Hf; auto.
Qed.

(** C12: Nothing leaks.  After any history, the exit of every thread succeeds, whatever the threads share,
    and frees every open file; the pipes that are left are those pinned by an operation in progress
    ([pins]), so none without such operations; and every VFS node and pseudo-terminal end has been closed as often as
    it was opened. *)
Theorem fd_no_leak n w pins :
  SCHED_FD_MAX * Z.of_nat n < 2 ^ 31 -> rtc fd_step (boot n, []) (w, pins) -> zlen pins < 2 ^ 20 ->
  exists w', exit_all w (seq 0 (length (tables w))) = Some w' /\
    files w' = ∅ /\ (forall p, is_Some (pipes w' !! p) <-> p ∈ pins) /\ forall r, external r = true -> balance r (trace w') = 0.
Proof.
  intros Hn Hs Hp. pose proof (history_inv n w pins Hn Hs) as Hinv.
  destruct (exit_all_spec (seq 0 (length (tables w))) w pins (fun _ => False) Hinv) as (w' & Hr & Hinv' & Hl & Hf); [|done|done|].
  { apply Forall_forall. intros t Ht%elem_of_seq. lia. }
  exists w'. split; [done|]. apply all_free_empty; [done|]. intros t k s Hk. apply (Hf t) with (k := k); [|done]. left. apply elem_of_seq.
  unfold get_slot in Hk. destruct (tables w' !! t) as [T|] eqn:HT; [|done]. apply lookup_lt_Some in HT. lia.
Qed.

(** Opening a file takes the lowest free descriptor at or above the requested one and
    points it at a new file with the requested attributes; it fails, changing nothing, only
    when memory or descriptors run out. *)
Theorem open_lowest_free w pins t s min_fd alloc :
  fd_inv w [] pins None -> (t < length (tables w))%nat -> sp_kind s = SCHED_FD_VFS -> sp_node s <> None ->
  Z.of_nat (size (files w)) < SIZE_MAX -> (forall f, alloc = Some f -> files w !! f = None) ->
  exists r w', sched_fd_open w t (Some s) min_fd alloc = Some (r, w') /\
    ((exists f, alloc = Some f /\ Z.max 0 min_fd <= r < SCHED_FD_MAX /\
        (forall k, Z.max 0 min_fd <= k < r -> exists s, get_slot w t k = Some s /\ fd_used s = true) /\
        (exists s, get_slot w t r = Some s /\ fd_used s = false) /\
        tables w' = upd_slot w t r (mk_slot true (mk_fd (Some f) (sp_fd_flags s))) /\
        files w' = <[f := file_of_spec s]> (files w) /\ fd_inv w' [] pins None)
     \/ (r < 0 /\ w' = w /\ (alloc = None \/
           forall k, Z.max 0 min_fd <= k < SCHED_FD_MAX -> exists s, get_slot w t k = Some s /\ fd_used s = true))).
Proof.
  intros Hinv Ht Hk Hn Hsz Hfresh.
  destruct (open_spec w pins None t s min_fd alloc Hinv Ht) as (r & w' & Hr & Hc); try done.
  - cbn. rewrite Hk. by apply bool_decide_eq_true_2.
  - unfold spec_ready. by rewrite Hk.
  - exists r, w'. split; [done|]. destruct Hc as [(f & ? & (? & ? & ? & ?) & ? & ? & _)|Hc]; [left|by right].
    exists f. done.
Qed.

(** Duplicating a descriptor makes the new one an alias of the same file without the
    close-on-exec flag, closing what it pointed to before; duplicating onto itself changes
    nothing, and a bad descriptor is refused without effect. *)
Theorem dup_aliases w pins t oldfd newfd :
  fd_inv w [] pins None -> (t < length (tables w))%nat -> zlen pins < 2 ^ 20 ->
  exists r w', sched_fd_dup w t oldfd newfd = Some (r, w') /\ fd_inv w' [] pins None /\
    ((r = - EBADF /\ w' = w) \/
     (r = newfd /\ exists s, get_slot w t oldfd = Some s /\ fd_used s = true /\
        if oldfd =? newfd then w' = w
        else tables w' = upd_slot w t newfd (mk_slot true (mk_fd (file (fd s))
                           (Z.ldiff (fd_flags (fd s)) SCHED_FD_FLAG_CLOEXEC))))).
Proof.
  intros Hinv Ht Hp. destruct (dup_spec w pins t oldfd newfd Hinv Ht Hp) as (r & w' & ? & ? & Hc).
  exists r, w'. split_and!; try done. destruct Hc as [?|(? & _ & _ & ?)]; [by left | by right].
Qed.

(** C35: [sys_pipe] is all or nothing: it opens both ends of a new pipe, or, whichever
    allocation, descriptor or user copy fails, it leaves the tables, the files and the pipes exactly
    as they were (an attempt may have woken sleepers of the new pipe, which has none).  A success leaves every
    other pipe as it was. *)
Theorem sys_pipe_atomic w pins t prepared copied pa ra wa tn ro wo :
  fd_inv w [] pins None -> (t < length (tables w))%nat -> zlen pins < 2 ^ 20 ->
  Z.of_nat (size (files w)) + 1 < SIZE_MAX ->
  (forall p, pa = Some p -> pipes w !! p = None) -> (forall f, ra = Some f -> files w !! f = None) ->
  (forall f, wa = Some f -> files w !! f = None) -> (ra = None \/ ra <> wa) ->
  exists r w', sys_pipe w t prepared copied pa ra wa tn ro wo = Some (r, w') /\ fd_inv w' [] pins None /\
    ((r = 0 /\ exists p f1 f2, pa = Some p /\ ra = Some f1 /\ wa = Some f2 /\ pipe_opened w w' t p f1 f2)
     \/ (r < 0 /\ tables w' = tables w /\ files w' = files w /\ pipes w' = pipes w)).
Proof. apply sys_pipe_spec. Qed.

(** [exec] closes exactly the descriptors marked close-on-exec of the one thread, and exit
    closes all of them; every other descriptor is untouched. *)
Theorem close_cloexec_exact w pins t :
  fd_inv w [] pins None -> (t < length (tables w))%nat -> zlen pins < 2 ^ 20 ->
  (exists w', sched_fd_close_cloexec w t = Some w' /\ fd_inv w' [] pins None /\
     forall u k, 0 <= k -> get_slot w' u k =
       if bool_decide (u = t)
       then (s ← get_slot w u k;
             Some (if fd_used s && negb (Z.land (fd_flags (fd s)) SCHED_FD_FLAG_CLOEXEC =? 0) then reset_slot else s))
       else get_slot w u k) /\
  (exists w', sched_fd_close_all w t = Some w' /\ fd_inv w' [] pins None /\
     forall u k, 0 <= k -> get_slot w' u k =
       if bool_decide (u = t) then (s ← get_slot w u k; Some (if fd_used s then reset_slot else s))
       else get_slot w u k).
Proof.
  intros Hinv Ht Hp. split.
  - destruct (close_loop_spec w pins t (fun d => negb (Z.land (fd_flags d) SCHED_FD_FLAG_CLOEXEC =? 0))
      (S (Z.to_nat SCHED_FD_MAX)) 0 Hinv Ht Hp) as (w' & Hr & Hinv' & _ & Hg); [done..|].
    exists w'. split_and!; try done. intros u k Hk. rewrite Hg by done.
    by rewrite (proj2 (Z.leb_le 0 k)), andb_true_r.
  - destruct (close_loop_spec w pins t (fun _ => true) (S (Z.to_nat SCHED_FD_MAX)) 0 Hinv Ht Hp)
      as (w' & Hr & Hinv' & _ & Hg); [done..|].
    exists w'. split_and!; try done. intros u k Hk. rewrite Hg by done.
    rewrite (proj2 (Z.leb_le 0 k)), andb_true_r by done. case_bool_decide; [|done].
    destruct (get_slot w u k) as [s|]; cbn; [|done]. by rewrite andb_true_r.
Qed.
End Inv.

(** ** Witnesses: two threads, one open file *)

Definition vfs_spec : sched_fd_spec_t := mk_spec SCHED_FD_VFS (Some 7) None 0 (-1) false (-1) 0 1.

Definition demo : world :=
  match @sched_fd_open arch64 (boot 2) 0 (Some vfs_spec) 3 (Some 100) with Some (_, w) => w | None => boot 2 end.

Lemma demo_step : rtc (@fd_step arch64) (boot 2, []) (demo, []).
Proof.
  apply rtc_once. apply (@fstep_open arch64 (boot 2) [] 0 vfs_spec 3 (Some 100) 3); try done.
  cbn; lia.
Qed.

Lemma demo_inv : @fd_inv demo [] [] None.
Proof. by apply (@history_inv arch64 2 demo []), demo_step. Qed.

Lemma fd_refcounts_exact_witness :
  rtc (@fd_step arch64) (boot 2, []) (demo, []) /\
  forall f x, files demo !! f = Some x -> refs x = Z.of_nat (cnt f (tables demo)) /\ 1 <= refs x.
Proof. split; [apply demo_step|]. by apply (@fd_refcounts_exact arch64 2 demo []), demo_step. Defined.

(** Thread 0 has a file and both ends of a pipe, thread 1 a copy of its table; somebody reads from the pipe. *)
Definition demo_pipe : world :=
  match @sys_pipe arch64 demo 0 true true (Some 300) (Some 301) (Some 302) (-1) 0 1 with Some (_, w) => w | None => demo end.
Definition demo_fork : world := match sched_fd_clone_table demo_pipe 1 0 with Some (_, w) => w | None => demo end.
Definition demo_pinned : world := match @sched_pipe_begin arch64 demo_fork (Some 300) with Some (_, w) => w | None => demo end.

Lemma demo_pinned_steps : rtc (@fd_step arch64) (boot 2, []) (demo_pinned, [300]).
Proof.
  eapply rtc_r; [eapply rtc_r; [eapply rtc_r; [exact demo_step|]|]|].
  - apply (@fstep_pipe arch64 demo [] 0 true true (Some 300) (Some 301) (Some 302) (-1) 0 1 0 demo_pipe);
      [vm_compute; lia|done|vm_compute; reflexivity|by intros f [= <-]|by intros f [= <-]|by intros f [= <-]|by right|vm_compute; reflexivity].
  - apply (@fstep_clone arch64 demo_pipe [] 1 0 true demo_fork); [vm_compute; lia|vm_compute; lia|done| |vm_compute; reflexivity].
    intros k s. change (get_slot demo_pipe 1 k) with (mload (replicate (Z.to_nat SCHED_FD_MAX) reset_slot) k). intros [_ Hs]%mload_Some.
    by apply lookup_replicate in Hs as [-> _].
  - apply (@fstep_begin arch64 demo_fork [] 300 true demo_pinned); [vm_compute; by eexists|done|vm_compute; reflexivity].
Qed.

Lemma fd_no_leak_witness :
  size (files demo_pinned) = 3%nat /\ (refs <$> files demo_pinned !! 301) = Some 2 /\
  exists w', @exit_all arch64 demo_pinned (seq 0 2) = Some w' /\ files w' = ∅ /\ forall p, is_Some (pipes w' !! p) <-> p ∈ [300].
Proof.
  split; [vm_compute; reflexivity|]. split; [vm_compute; reflexivity|].
  destruct (@fd_no_leak arch64 2 demo_pinned [300]) as (w' & Hr & Hf & Hp & _); [done|exact demo_pinned_steps|done|].
  exists w'. split; [exact Hr|]. split; [exact Hf|exact Hp].
Defined.

Lemma open_lowest_free_witness :
  exists w', @sched_fd_open arch64 demo 0 (Some vfs_spec) 3 (Some 200) = Some (4, w') /\ fd_inv w' [] [] None.
Proof.
  destruct (@open_lowest_free arch64 demo [] 0 vfs_spec 3 (Some 200) demo_inv) as (r & w' & Hr & Hc); try done.
  - vm_compute; lia.
  - by intros f [= <-].
  - assert (r = 4) as -> by (vm_compute in Hr; congruence). exists w'. split; [done|].
    destruct Hc as [(f & _ & _ & _ & _ & _ & _ & Hi)|(? & _)]; [exact Hi | lia].
Defined.

Lemma dup_aliases_witness :
  exists w', @sched_fd_dup arch64 demo 0 3 9 = Some (9, w') /\ fd_inv w' [] [] None.
Proof.
  destruct (@dup_aliases arch64 demo [] 0 3 9 demo_inv) as (r & w' & Hr & Hi & _); [vm_compute; lia|done|].
  assert (r = 9) as -> by (vm_compute in Hr; congruence). by exists w'.
Defined.

(** A success, and a failure to copy the two numbers out. *)
Lemma sys_pipe_atomic_witness :
  (exists w', @sys_pipe arch64 demo 0 true true (Some 300) (Some 301) (Some 302) (-1) 0 1 = Some (0, w') /\ fd_inv w' [] [] None) /\
  exists w', @sys_pipe arch64 demo 0 true false (Some 300) (Some 301) (Some 302) (-1) 0 1 = Some (- EFAULT, w') /\
    tables w' = tables demo /\ files w' = files demo /\ pipes w' = pipes demo.
Proof.
  split; [destruct (@sys_pipe_atomic arch64 demo [] 0 true true (Some 300) (Some 301) (Some 302) (-1) 0 1 demo_inv) as (r & w' & Hr & Hi & Hc)
         |destruct (@sys_pipe_atomic arch64 demo [] 0 true false (Some 300) (Some 301) (Some 302) (-1) 0 1 demo_inv) as (r & w' & Hr & Hi & Hc)];
    try (by intros f [= <-]); [vm_compute; lia|done|vm_compute; reflexivity|by right| |vm_compute; lia|done|vm_compute; reflexivity|by right|].
  - assert (r = 0) as -> by (vm_compute in Hr; congruence). by exists w'.
  - assert (r = - EFAULT) as -> by (vm_compute in Hr; injection Hr as <- _; reflexivity). exists w'. split; [exact Hr|]. destruct Hc as [[Hz _]|(_ & Hc)]; [discriminate Hz|exact Hc].
Defined.

Lemma close_cloexec_exact_witness :
  exists w', @sched_fd_close_cloexec arch64 demo 0 = Some w' /\ fd_inv w' [] [] None.
Proof.
  destruct (@close_cloexec_exact arch64 demo [] 0 demo_inv) as [(w' & ? & ? & _) _]; [vm_compute; lia|done|]. by exists w'.
Defined.
End FdTable.
