(* ===== verification/CString.v ===== *)
(** * C strings: [libs/libc/string.c], [libs/libc/ctype.c]

    A NUL-terminated string is the list of the bytes before its terminator; [*s] is the first of them
    or the terminator.  The functions are the read-only ones of the C library that the rest of the
    development uses. *)

From S2P Require Import Prelude Memory.
From stdpp Require Import list.
Open Scope Z_scope.

(** The bytes of a string before its terminator. *)
Abbreviation text := (list Z).

Definition text_ok (s : text) : Prop := Forall (fun c => 0 < c < 256) s.

(** [*s] *)
Definition peek (s : text) : Z := match s with [] => 0 | c :: _ => c end.

(** [while ( *str) { len++; str++; }] *)
Fixpoint strlen (s : text) : Z := match s with [] => 0 | _ :: s => 1 + strlen s end.

Lemma strlen_length s : strlen s = Z.of_nat (length s).
Proof. induction s as [|c s IH]; simpl; [done|]. rewrite IH. lia. Qed.

(** [while ( *s1 && ( *s1 == *s2)) { s1++; s2++; }], then the difference of the two bytes. *)
Fixpoint strcmp (s1 s2 : text) : Z :=
  match s1, s2 with
  | c1 :: t1, c2 :: t2 => if c1 =? c2 then strcmp t1 t2 else c1 - c2
  | _, _ => peek s1 - peek s2
  end.

Lemma strcmp_0 s1 s2 : text_ok s1 -> text_ok s2 -> strcmp s1 s2 = 0 <-> s1 = s2.
Proof.
  revert s2. induction s1 as [|c1 s1 IH]; intros [|c2 s2] H1 H2; cbn [strcmp peek]; [done| | |].
  - apply Forall_cons in H2 as [? _]. split; [lia|done].
  - apply Forall_cons in H1 as [? _]. split; [lia|done].
  - apply Forall_cons in H1 as [? H1]. apply Forall_cons in H2 as [? H2].
    specialize (IH s2 H1 H2). case_test; [subst; rewrite IH; naive_solver|]. split; [lia|].
    intros [= -> ->]. done.
Qed.
