(* ===== verification/Path.v ===== *)
(** * Path resolution: [kernel/sys/path.c]

    Absolute and relative paths are turned into canonical absolute ones in a caller's buffer.  The
    buffer and the table of segment positions are arrays with explicit bounds; an input string is the
    list of bytes before its terminator and a [char *] into it is a suffix.  [PATH_MAX] is 256. *)

From S2P Require Import Prelude Memory CString.
From stdpp Require Import sets list.
Open Scope Z_scope.

Module Path.

Definition PATH_MAX : Z := 256.
Definition SLASH : Z := 47.
Definition DOT : Z := 46.

Record path_build_t := mk_build {
  out : list Z; out_len : Z; len : Z; seg_pos : list Z; seg_count : Z; seg_cap : Z
}.

Section Defs.
Context `{Arch}.
Implicit Types (p : path_build_t) (cursor seg : text).

(** The pointers in the structure are never null in the calls below. *)
Definition _pop p : option path_build_t :=
  if seg_count p =? 0 then
    o ← mstore (out p) 1 0;
    Some (mk_build o (out_len p) 1 (seg_pos p) (seg_count p) (seg_cap p))
  else
    pos ← mload (seg_pos p) (seg_count p - 1);
    let len' := if 1 <? pos then pos - 1 else 1 in
    o ← mstore (out p) len' 0;
    Some (mk_build o (out_len p) len' (seg_pos p) (seg_count p - 1) (seg_cap p)).

Definition _push p seg (seg_len : Z) : option (bool * path_build_t) :=
  if seg_cap p <=? seg_count p then Some (false, p)
  else
    let extra := if 1 <? len p then 1 else 0 in
    if out_len p <=? wrap (wrap (len p + extra) + seg_len) then Some (false, p)
    else
      '(o, l) ← (if 1 <? len p then o ← mstore (out p) (len p) SLASH; Some (o, wrap (len p + 1))
                 else Some (out p, len p));
      sp ← mstore (seg_pos p) (seg_count p) l;
      let count := wrap (seg_count p + 1) in
      o ← memcpy o l seg 0 seg_len;
      let l := wrap (l + seg_len) in
      o ← mstore o l 0;
      Some (true, mk_build o (out_len p) l sp count (seg_cap p)).

(** [while ( *cursor == '/') cursor++] *)
Fixpoint skip_slashes (cursor : text) : text :=
  match cursor with
  | [] => []
  | c :: rest => if c =? SLASH then skip_slashes rest else cursor
  end.

(** [while ( *cursor && *cursor != '/') cursor++]: how far the cursor moved, and the cursor. *)
Fixpoint seg_end (cursor : text) : Z * text :=
  match cursor with
  | [] => (0, [])
  | c :: rest => if c =? SLASH then (0, cursor) else let '(n, rest) := seg_end rest in (n + 1, rest)
  end.

(** The loop of [_apply]: each round consumes at least one byte. *)
Fixpoint apply_loop (fuel : nat) p cursor : option (bool * path_build_t) :=
  match fuel with
  | O => None
  | S fuel =>
      if peek cursor =? 0 then Some (true, p)
      else
        let cursor := skip_slashes cursor in
        if peek cursor =? 0 then Some (true, p)
        else
          let start := cursor in
          let '(seg_len, cursor) := seg_end cursor in
          if (seg_len =? 1) && (peek start =? DOT) then apply_loop fuel p cursor
          else if (seg_len =? 2) && (peek start =? DOT) && (peek (drop 1 start) =? DOT) then
            p ← _pop p; apply_loop fuel p cursor
          else
            '(pushed, p) ← _push p start seg_len;
            if negb pushed then Some (false, p) else apply_loop fuel p cursor
  end.

Definition _apply p (input : ptr text) : option (bool * path_build_t) :=
  match input with
  | None => Some (false, p)
  | Some input => apply_loop (S (length input)) p input
  end.

Definition path_resolve (cwd path : ptr text) (buf : ptr (list Z)) (buf_len : Z)
  : option (bool * ptr (list Z)) :=
  match buf, path with
  | Some o, Some s =>
      if (buf_len <? 2) || (peek s =? 0) then Some (false, buf)
      else
        let seg_pos := replicate (Z.to_nat (PATH_MAX / 2)) 0 in
        o ← mstore o 0 SLASH;
        o ← mstore o 1 0;
        let built := mk_build o buf_len 1 seg_pos 0 (PATH_MAX / 2) in
        '(ok, built) ← (if negb (peek s =? SLASH) then
                          let base := match cwd with
                                      | Some c => if negb (peek c =? 0) then c else [SLASH]
                                      | None => [SLASH]
                                      end in
                          _apply built (Some base)
                        else
                          o ← mstore (out built) 0 SLASH;
                          o ← mstore o 1 0;
                          Some (true, mk_build o buf_len 1 seg_pos 0 (PATH_MAX / 2)));
        if negb ok then Some (false, Some (out built))
        else
          '(ok, built) ← _apply built path;
          if negb ok then Some (false, Some (out built))
          else if len built =? 0 then
            o ← mstore (out built) 0 SLASH;
            o ← mstore o 1 0;
            Some (true, Some o)
          else Some (true, Some (out built))
  | _, _ => Some (false, buf)
  end.
End Defs.

(** ** What a path means *)

(** The segments of a path: what lies between slashes, less empty segments and [.]. *)
Fixpoint split_loop (cursor seg : text) : list text :=
  match cursor with
  | [] => [seg]
  | c :: rest => if c =? SLASH then seg :: split_loop rest [] else split_loop rest (seg ++ [c])
  end.

Definition segments (s : text) : list text := filter (fun g => g <> [] /\ g <> [DOT]) (split_loop s []).

(** A canonical path: a slash before each segment; the root is a slash. *)
Definition body (stack : list text) : text := concat (map (cons SLASH) stack).
Definition render (stack : list text) : text := match stack with [] => [SLASH] | _ => body stack end.

(** Following segments from a directory, as long as every path on the way fits in [lim] bytes with
    its terminator and in the table of segments. *)
Fixpoint walk (lim : Z) (stack segs : list text) : option (list text) :=
  match segs with
  | [] => Some stack
  | g :: segs =>
      if decide (g = [DOT; DOT]) then walk lim (removelast stack) segs
      else if (zlen (render (stack ++ [g])) <? lim) && (zlen stack <? PATH_MAX / 2)
      then walk lim (stack ++ [g]) segs else None
  end.

(** A segment that can stand in a canonical path. *)
Definition plain (g : text) : Prop := g <> [] /\ g <> [DOT] /\ g <> [DOT; DOT] /\ SLASH ∉ g /\ text_ok g.

(** ** Scanning *)

Lemma skip_slashes_segments s : segments (skip_slashes s) = segments s.
Proof.
  induction s as [|c s IH]; [done|]. cbn [skip_slashes]. destruct (c =? SLASH) eqn:E; [|done].
  rewrite IH. unfold segments at 2. cbn [split_loop]. rewrite E, filter_cons, decide_False by (by intros [[] _]). done.
Qed.

Lemma skip_slashes_suffix s : exists l, s = l ++ skip_slashes s /\ peek (skip_slashes s) <> SLASH.
Proof.
  induction s as [|c s [l [IH Hp]]]; [by exists []|]. cbn [skip_slashes]. destruct (c =? SLASH) eqn:E.
  - exists (c :: l). split; [cbn; by f_equal|done].
  - exists []. split; [done|]. cbn. by apply Z.eqb_neq.
Qed.

(** The cursor stops at a slash or at the end. *)
Definition at_end (r : text) : Prop := r = [] \/ exists r', r = SLASH :: r'.

Lemma seg_end_spec s : exists g r, seg_end s = (zlen g, r) /\ s = g ++ r /\ SLASH ∉ g /\ at_end r.
Proof.
  induction s as [|c s (g & r & He & Hs & Hn & Hr)].
  { exists [], []. split_and!; [done|done|set_solver|by left]. }
  cbn [seg_end]. case_test.
  - subst. exists [], (SLASH :: g ++ r). split_and!; [done|done|set_solver|by right; eexists].
  - rewrite He. exists (c :: g), r. split_and!; [|by subst|set_solver|done]. f_equal. unfold zlen. cbn [length]. lia.
Qed.

Lemma split_loop_app g r acc : SLASH ∉ g -> split_loop (g ++ r) acc = split_loop r (acc ++ g).
Proof.
  revert acc. induction g as [|c g IH]; intros acc Hg; cbn [app split_loop]; [by rewrite app_nil_r|].
  rewrite (proj2 (Z.eqb_neq c SLASH)) by set_solver. rewrite IH by set_solver. by rewrite <- app_assoc.
Qed.

(** The first segment and the rest. *)
Lemma segments_app g r :
  SLASH ∉ g -> at_end r -> segments (g ++ r) = filter (fun g => g <> [] /\ g <> [DOT]) [g] ++ segments r.
Proof.
  intros Hg Hr. unfold segments. rewrite split_loop_app by done. cbn [app]. destruct Hr as [->|[r' ->]].
  - cbn [split_loop]. rewrite (filter_cons _ []), decide_False by (by intros [[] _]). by rewrite filter_nil, app_nil_r.
  - cbn [split_loop]. rewrite Z.eqb_refl, <- filter_app. cbn [app].
    rewrite !(filter_cons _ g), (filter_cons _ []), (decide_False (P := [] <> [] /\ _)) by (by intros [[] _]). done.
Qed.

Lemma peek_0 s : text_ok s -> peek s = 0 <-> s = [].
Proof. destruct s as [|c s]; [done|]. intros [Hc _]%Forall_cons. cbn. split; [lia|done]. Qed.

(** ** Rendering *)

Lemma body_app a b : body (a ++ b) = body a ++ body b.
Proof. unfold body. by rewrite map_app, concat_app. Qed.

Lemma body_one g : body [g] = SLASH :: g.
Proof. unfold body. cbn. by rewrite app_nil_r. Qed.

Lemma render_body st : st <> [] -> render st = body st.
Proof. by destruct st. Qed.

Lemma render_snoc st g : render (st ++ [g]) = body st ++ SLASH :: g.
Proof. rewrite render_body by (by destruct st). by rewrite body_app, body_one. Qed.

Lemma body_length st : zlen st <= zlen (body st).
Proof.
  induction st as [|g st IH]; [done|]. change (g :: st) with ([g] ++ st). rewrite body_app, body_one, !zlen_app.
  unfold zlen in *. cbn [length]. lia.
Qed.

Lemma render_length st : 1 <= zlen (render st) /\ (st <> [] -> zlen (render st) = zlen (body st)) /\
  (zlen (render st) <= 1 -> Forall (fun g => g <> []) st -> st = []).
Proof.
  destruct st as [|g st]; [done|]. rewrite render_body by done. change (g :: st) with ([g] ++ st).
  rewrite body_app, body_one, zlen_app. unfold zlen. cbn [length]. split_and!; [lia|lia|].
  intros Hl [Hg _]%Forall_cons. destruct g; [done|]. cbn in Hl. lia.
Qed.

Lemma render_max st : zlen (render st) = Z.max 1 (zlen (body st)).
Proof.
  destruct st as [|g st]; [done|]. rewrite render_body by done. pose proof (body_length (g :: st)) as Hb.
  unfold zlen in *. cbn [length] in Hb. lia.
Qed.

(** ** The builder *)

Section Proofs.
Context `{Arch}.

Record build_ok (p : path_build_t) (st : list text) : Prop := {
  b_room : out_len p <= zlen (out p);
  b_len : len p = zlen (render st);
  b_fits : len p < out_len p;
  b_text : take (Z.to_nat (len p)) (out p) = render st;
  b_end : out p !! Z.to_nat (len p) = Some 0;
  b_count : seg_count p = zlen st;
  b_cap : seg_cap p = PATH_MAX / 2 /\ zlen (seg_pos p) = PATH_MAX / 2 /\ zlen st <= PATH_MAX / 2;
  b_pos : forall i, (i < length st)%nat -> seg_pos p !! i = Some (zlen (body (take i st)) + 1);
  b_plain : Forall plain st
}.

Lemma take_store (l : list Z) (i : nat) x : (i < length l)%nat -> take (S i) (<[i := x]> l) = take i l ++ [x].
Proof.
  intros Hi. rewrite (take_S_r _ _ x) by (by apply list_lookup_insert_eq). by rewrite take_insert_ge by lia.
Qed.

Lemma removelast_take {A} (l : list A) : removelast l = take (length l - 1) l.
Proof.
  destruct (decide (l = [])) as [->|Hne]; [done|]. destruct (exists_last Hne) as (l' & x & ->).
  rewrite removelast_last, length_app. cbn [length]. by rewrite Nat.add_sub, take_app_length.
Qed.

Lemma removelast_snoc {A} (l : list A) : l <> [] -> exists x, l = removelast l ++ [x].
Proof. intros Hne. destruct (exists_last Hne) as (l' & x & ->). exists x. by rewrite removelast_last. Qed.

Lemma take_render st g : take (Z.to_nat (Z.max 1 (zlen (body st)))) (render (st ++ [g])) = render st.
Proof.
  rewrite render_snoc. destruct st as [|h st]; [done|]. pose proof (body_length (h :: st)) as Hb.
  rewrite Z.max_r by (unfold zlen in *; cbn [length] in Hb; lia). rewrite render_body by done.
  unfold zlen. rewrite Nat2Z.id. apply take_app_length.
Qed.

Lemma path_pop_ok p st : build_ok p st -> exists p', _pop p = Some p' /\ build_ok p' (removelast st) /\
  out_len p' = out_len p /\ length (out p') = length (out p).
Proof.
  intros [Hroom Hlen Hfits Htext Hend Hcount (Hcap & Hspl & Hst) Hpos Hplain]. unfold _pop. rewrite Hcount.
  pose proof (render_length st) as (Hr1 & Hr2 & _). destruct (decide (st = [])) as [->|Hne].
  - change (zlen [] =? 0) with true. cbn iota. rewrite mstore_ok by (cbn in *; unfold zlen in *; cbn in *; lia).
    cbn [mbind option_bind]. eexists. split; [reflexivity|]. split; [|split; [done|cbn; by rewrite length_insert]].
    assert (Hl1 : len p = 1) by (rewrite Hlen; done). rewrite Hl1 in *. constructor; cbn [out out_len len seg_pos seg_count seg_cap];
      try done; unfold zlen in *; rewrite ?length_insert; try done.
    + by rewrite take_insert_ge by (cbn; lia).
    + apply list_lookup_insert_eq. cbn in *. lia.
  - destruct (removelast_snoc st Hne) as [g Hg]. set (st' := removelast st) in *.
    assert (Hz : zlen st = zlen st' + 1) by (rewrite Hg, zlen_app; done). pose proof (zlen_nonneg st').
    rewrite (proj2 (Z.eqb_neq (zlen st) 0)) by lia. replace (zlen st - 1) with (zlen st') by lia.
    assert (Hp : seg_pos p !! length st' = Some (zlen (body st') + 1)).
    { rewrite Hpos by (unfold zlen in Hz; lia). do 2 f_equal. rewrite Hg, take_app_length. done. }
    rewrite mload_ok by lia. replace (Z.to_nat (zlen st')) with (length st') by (unfold zlen; lia). rewrite Hp.
    cbn [mbind option_bind].
    assert (Hl : (if 1 <? zlen (body st') + 1 then zlen (body st') + 1 - 1 else 1) = zlen (render st'))
      by (rewrite render_max; pose proof (zlen_nonneg (body st')); case_test; lia).
    rewrite Hl. rewrite Hg in Hplain. apply Forall_app in Hplain as [Hpl' [Hg0 _]%Forall_singleton].
    assert (Hlt : zlen (render st') < len p).
    { rewrite Hlen, Hg, render_snoc, zlen_app, render_max. unfold zlen at 3. cbn [length].
      destruct g; [done|]. cbn [length]. pose proof (zlen_nonneg (body st')). lia. }
    pose proof (render_length st') as [Hr0 _].
    rewrite mstore_ok by lia. cbn [mbind option_bind]. eexists. split; [reflexivity|].
    split; [|split; [done|cbn; by rewrite length_insert]].
    constructor; cbn [out out_len len seg_pos seg_count seg_cap]; try done; try lia.
    + unfold zlen. rewrite length_insert. exact Hroom.
    + rewrite take_insert_ge by lia. transitivity (take (Z.to_nat (zlen (render st'))) (render st)).
      * rewrite <- Htext, take_take. f_equal. lia.
      * rewrite Hg, render_max. apply take_render.
    + apply list_lookup_insert_eq. unfold zlen in *. lia.
    + intros i Hi. rewrite Hpos by (unfold zlen in *; lia). do 2 f_equal. rewrite Hg. by rewrite take_app_le by lia.
Qed.

(** Pushing a segment that fits. *)
Lemma path_push_ok p st g r :
  build_ok p st -> plain g -> zlen (g ++ r) + out_len p < SIZE_MOD ->
  exists p', _push p (g ++ r) (zlen g) =
      Some ((zlen (render (st ++ [g])) <? out_len p) && (zlen st <? PATH_MAX / 2), p') /\
    out_len p' = out_len p /\ length (out p') = length (out p) /\
    ((zlen (render (st ++ [g])) <? out_len p) && (zlen st <? PATH_MAX / 2) = true -> build_ok p' (st ++ [g])).
Proof.
  intros Hok Hg Hsz. pose proof Hok as [Hroom Hlen Hfits Htext Hend Hcount (Hcap & Hspl & Hst) Hpos Hplain].
  unfold _push. rewrite Hcap, Hcount. rewrite zlen_app in Hsz. pose proof (zlen_nonneg g). pose proof (zlen_nonneg r).
  pose proof (render_length st) as (Hr1 & _ & Hr3).
  destruct (Z.leb_spec (PATH_MAX / 2) (zlen st)) as [Hc|Hc].
  { rewrite (proj2 (Z.ltb_ge (zlen st) _)), andb_false_r by lia. by exists p. }
  rewrite (proj2 (Z.ltb_lt (zlen st) _)), andb_true_r by lia.
  assert (Hnew : zlen (render (st ++ [g])) = len p + (if 1 <? len p then 1 else 0) + zlen g).
  { rewrite Hlen, render_snoc, zlen_app, render_max. unfold zlen at 2. cbn [length]. fold (zlen g). rewrite Nat2Z.inj_succ.
    destruct (decide (st = [])) as [->|Hne]; [unfold zlen; cbn [body map concat length]; change (Z.max 1 (Z.of_nat 0)) with 1; change (1 <? 1) with false; cbn iota; lia|].
    assert (1 < Z.max 1 (zlen (body st))); [|rewrite (proj2 (Z.ltb_lt _ _)) by lia; fold (zlen g); lia].
    rewrite <- render_max. apply Z.nle_gt. intros Hle. apply Hne, Hr3; [done|].
    eapply Forall_impl; [exact Hplain|]. by intros x [Hx _]. }
  assert (Hn0 : 0 <= len p + (if 1 <? len p then 1 else 0) + zlen g < SIZE_MOD) by (case_test; lia).
  assert (Hw : wrap (wrap (len p + (if 1 <? len p then 1 else 0)) + zlen g) = zlen (render (st ++ [g]))).
  { rewrite Hnew, (wrap_small (len p + _)) by (case_test; lia). by apply wrap_small. }
  rewrite Hw. destruct (Z.leb_spec (out_len p) (zlen (render (st ++ [g])))) as [Ho|Ho].
  { rewrite (proj2 (Z.ltb_ge _ (out_len p))) by lia. by exists p. }
  rewrite (proj2 (Z.ltb_lt _ (out_len p))) by lia.
  assert (Hl0 : 1 <= len p + (if 1 <? len p then 1 else 0)) by (case_test; lia).
  set (l := len p + (if 1 <? len p then 1 else 0)) in *.
  assert (Hsl : exists o1, (if 1 <? len p then o ← mstore (out p) (len p) SLASH; Some (o, wrap (len p + 1)) else Some (out p, len p)) = Some (o1, l) /\
            length o1 = length (out p) /\ take (Z.to_nat l) o1 = body st ++ [SLASH]).
  { unfold l in *. case_test.
    - rewrite mstore_ok by lia. cbn [mbind option_bind]. rewrite wrap_small by lia. eexists. split; [reflexivity|].
      rewrite length_insert. split; [done|]. replace (Z.to_nat (len p + 1)) with (S (Z.to_nat (len p))) by lia.
      rewrite take_store, Htext by (unfold zlen in *; lia). f_equal. apply render_body. intros ->. cbn in Hlen. unfold zlen in Hlen. cbn in Hlen. lia.
    - exists (out p). rewrite Z.add_0_r. split; [done|]. split; [done|].
      assert (st = []) as ->; [|by rewrite Htext]. apply Hr3; [lia|]. eapply Forall_impl; [exact Hplain|]. by intros x [Hx _]. }
  destruct Hsl as (o1 & -> & Hlo & Hto). cbn [mbind option_bind].
  rewrite mstore_ok by (pose proof (zlen_nonneg st); lia). cbn [mbind option_bind].
  destruct (memcpy_ok o1 l (g ++ r) 0 (zlen g)) as (gs & o2 & Hrd & Hwr & ->); [lia|lia|lia|rewrite zlen_app; lia|unfold zlen in *; lia|].
  assert (gs = g) as ->.
  { apply mread_Some in Hrd as (_ & _ & _ & ->). unfold zlen. rewrite Nat2Z.id. cbn [Z.to_nat drop]. apply take_app_length. }
  cbn [mbind option_bind]. pose proof (mwrite_len _ _ _ _ Hwr) as Hl2. apply mwrite_Some in Hwr as (_ & _ & Ho2).
  rewrite (wrap_small (l + zlen g)), <- Hnew by lia.
  rewrite mstore_ok by (unfold zlen in *; lia). cbn [mbind option_bind]. eexists. split; [reflexivity|].
  cbn [out out_len]. rewrite length_insert. split; [done|]. split; [lia|]. intros _.
  rewrite (wrap_small (zlen st + 1)) by (pose proof (zlen_nonneg st); pose proof SIZE_MOD_ge; change (PATH_MAX / 2) with 128 in *; lia).
  constructor; cbn [out out_len len seg_pos seg_count seg_cap]; try done.
  - unfold zlen in *. rewrite length_insert. lia.
  - rewrite take_insert_ge by lia. rewrite Hnew, Ho2, app_assoc.
    assert (Hlp : length (take (Z.to_nat l) o1 ++ g) = Z.to_nat (l + zlen g)).
    { rewrite length_app, length_take. unfold zlen in *. lia. }
    rewrite <- Hlp, take_app_length, Hto, render_snoc, <- app_assoc. done.
  - apply list_lookup_insert_eq. unfold zlen in *. lia.
  - rewrite zlen_app. done.
  - rewrite zlen_app. unfold zlen in *. rewrite length_insert. split_and!; [done|done|cbn [length]; lia].
  - intros i Hi. rewrite length_app in Hi. cbn [length] in Hi. destruct (decide (i = length st)) as [->|Hne].
    + rewrite take_app_length. replace (Z.to_nat (zlen st)) with (length st) by (unfold zlen; lia).
      rewrite list_lookup_insert_eq by (unfold zlen in *; lia). f_equal.
      apply (f_equal length) in Hto. rewrite length_take, length_app in Hto. cbn [length] in Hto. unfold zlen in *. lia.
    + rewrite list_lookup_insert_ne by (unfold zlen; lia). rewrite Hpos by lia. do 2 f_equal. by rewrite take_app_le by lia.
  - apply Forall_app. split; [done|]. by apply Forall_singleton.
Qed.

(** The comparisons with [.] and [..]. *)
Lemma dot_test g r : (zlen g =? 1) && (peek (g ++ r) =? DOT) = bool_decide (g = [DOT]).
Proof.
  destruct g as [|a [|b g]]; [done| |].
  - cbn. destruct (Z.eqb_spec a DOT) as [->|Hn]; [done|]. symmetry. apply bool_decide_eq_false. congruence.
  - rewrite bool_decide_eq_false_2 by done. unfold zlen. cbn [length]. rewrite (proj2 (Z.eqb_neq _ 1)) by lia. done.
Qed.

Lemma dotdot_test g r :
  (zlen g =? 2) && (peek (g ++ r) =? DOT) && (peek (drop 1 (g ++ r)) =? DOT) = bool_decide (g = [DOT; DOT]).
Proof.
  destruct g as [|a [|b [|c g]]]; [done|by rewrite bool_decide_eq_false_2| |].
  - cbn. destruct (Z.eqb_spec a DOT) as [->|Hn], (Z.eqb_spec b DOT) as [->|Hm]; [done|..]; symmetry;
      apply bool_decide_eq_false; congruence.
  - rewrite bool_decide_eq_false_2 by done. unfold zlen. cbn [length].
    rewrite (proj2 (Z.eqb_neq _ 2)) by lia. done.
Qed.

Lemma walk_cons lim st g segs : g <> [DOT; DOT] ->
  walk lim st (g :: segs) = if (zlen (render (st ++ [g])) <? lim) && (zlen st <? PATH_MAX / 2)
                            then walk lim (st ++ [g]) segs else None.
Proof. intros Hg. cbn [walk]. by rewrite decide_False. Qed.

(** What a round of the loop must deliver: the path it was given is followed to its end. *)
Definition applied (p : path_build_t) (st : list text) (cursor : text) (res : option (bool * path_build_t)) : Prop :=
  exists r p', res = Some (r, p') /\ out_len p' = out_len p /\ length (out p') = length (out p) /\
    match walk (out_len p) st (segments cursor) with
    | Some st' => r = true /\ build_ok p' st'
    | None => r = false
    end.

Lemma applied_change p p1 st1 s s1 res :
  segments s = segments s1 -> out_len p1 = out_len p -> length (out p1) = length (out p) ->
  applied p1 st1 s1 res -> applied p st1 s res.
Proof. unfold applied. by intros -> -> ->. Qed.

(** A nonempty segment and what follows it. *)
Lemma apply_segment fuel p st g r :
  (forall p st, build_ok p st -> zlen r + out_len p < SIZE_MOD -> applied p st r (apply_loop fuel p r)) ->
  build_ok p st -> text_ok g -> g <> [] -> SLASH ∉ g -> at_end r -> zlen (g ++ r) + out_len p < SIZE_MOD ->
  applied p st (g ++ r)
    (if (zlen g =? 1) && (peek (g ++ r) =? DOT) then apply_loop fuel p r
     else if (zlen g =? 2) && (peek (g ++ r) =? DOT) && (peek (drop 1 (g ++ r)) =? DOT) then
       p ← _pop p; apply_loop fuel p r
     else
       '(pushed, p) ← _push p (g ++ r) (zlen g);
       if negb pushed then Some (false, p) else apply_loop fuel p r).
Proof.
  intros IH Hok Htg Hg0 Hng Hend Hsz. assert (Hsz' : zlen r + out_len p < SIZE_MOD)
    by (rewrite zlen_app in Hsz; pose proof (zlen_nonneg g); lia).
  pose proof (segments_app g r Hng Hend) as Hseg. rewrite filter_cons, filter_nil in Hseg.
  rewrite dot_test, dotdot_test. case_bool_decide as Hd; [|case_bool_decide as Hdd].
  - rewrite decide_False in Hseg by naive_solver. eapply applied_change; [exact Hseg|done|done|]. by apply IH.
  - subst g. rewrite decide_True in Hseg by done. destruct (path_pop_ok p st Hok) as (p1 & -> & Hok1 & Ho1 & Hl1).
    cbn [mbind option_bind]. destruct (IH p1 _ Hok1) as (rr & p' & -> & Ho & Hl & Hw); [by rewrite Ho1|].
    exists rr, p'. rewrite Hseg, <- Ho1. split_and!; [done|done|congruence|exact Hw].
  - rewrite decide_True in Hseg by done. cbn [app] in Hseg.
    destruct (path_push_ok p st g r Hok) as (p1 & -> & Ho1 & Hl1 & Hok1); [|done|].
    { by split_and!. }
    unfold applied. rewrite Hseg, walk_cons by done. cbn [mbind option_bind]. destruct (_ && _); cbn [negb].
    + destruct (IH p1 _ (Hok1 eq_refl)) as (rr & p' & -> & Ho & Hl & Hw); [by rewrite Ho1|].
      exists rr, p'. rewrite <- Ho1. split_and!; [done|done|congruence|exact Hw].
    + by exists false, p1.
Qed.

(** The loop follows the segments of its input; it ends, since each round consumes a byte. *)
Lemma apply_loop_ok fuel p st cursor :
  build_ok p st -> text_ok cursor -> (length cursor < fuel)%nat -> zlen cursor + out_len p < SIZE_MOD ->
  applied p st cursor (apply_loop fuel p cursor).
Proof.
  revert p st cursor. induction fuel as [|fuel IH]; [lia|]. intros p st cursor Hok Htx Hfu Hsz. cbn [apply_loop].
  destruct (Z.eqb_spec (peek cursor) 0) as [Hc|_].
  { apply peek_0 in Hc as ->; [|done]. by exists true, p. }
  destruct (skip_slashes_suffix cursor) as (sl & Hsl & Hps).
  assert (Hs : text_ok (skip_slashes cursor)) by (rewrite Hsl in Htx; by apply Forall_app in Htx as [_ Hs]).
  assert (Hlen : (length (skip_slashes cursor) <= length cursor)%nat)
    by (rewrite Hsl at 2; rewrite length_app; lia).
  eapply (applied_change p p st); [symmetry; apply skip_slashes_segments|done|done|].
  clear Hsl. set (s := skip_slashes cursor) in *. clearbody s.
  destruct (Z.eqb_spec (peek s) 0) as [H0|H0].
  { apply peek_0 in H0 as ->; [|done]. by exists true, p. }
  destruct (seg_end_spec s) as (g & r & -> & Hsr & Hng & Hend). subst s.
  assert (Hg0 : g <> []) by (intros ->; destruct Hend as [->|[r' ->]]; cbn in *; congruence).
  apply Forall_app in Hs as [Htg Htr]. rewrite length_app in Hlen.
  assert (0 < length g)%nat by (destruct g; [done|cbn; lia]).
  apply apply_segment; try done; [|rewrite zlen_app; unfold zlen in *; lia].
  intros p1 st1 Hok1 Hsz1. apply IH; [done|done|lia|done].
Qed.

(** Where a path starts: the root, or the current directory for a relative path. *)
Definition origin (cwd : ptr text) (s : text) : list text :=
  if peek s =? SLASH then [] else match cwd with Some c => segments c | None => [] end.

(** The directory a path names, if every path on the way fits. *)
Definition target (lim : Z) (cwd : ptr text) (s : text) : option (list text) :=
  st ← walk lim [] (origin cwd s); walk lim st (segments s).

Lemma start_ok (buf : list Z) buf_len : 2 <= buf_len <= zlen buf ->
  build_ok (mk_build (<[1%nat := 0]> (<[0%nat := SLASH]> buf)) buf_len 1
              (replicate (Z.to_nat (PATH_MAX / 2)) 0) 0 (PATH_MAX / 2)) [].
Proof.
  intros Hb. destruct buf as [|b0 [|b1 buf]]; [unfold zlen in Hb; cbn in Hb; lia..|].
  constructor; cbn; try done; try lia. unfold zlen in *. cbn in *. lia.
Qed.

Lemma start_again (buf : list Z) : 2 <= zlen buf ->
  <[1%nat := 0]> (<[0%nat := SLASH]> (<[1%nat := 0]> (<[0%nat := SLASH]> buf))) = <[1%nat := 0]> (<[0%nat := SLASH]> buf).
Proof. intros Hb. by destruct buf as [|b0 [|b1 buf]]; [unfold zlen in Hb; cbn in Hb; lia..|]. Qed.

Lemma build_answer p st : build_ok p st -> exists rest, out p = render st ++ 0 :: rest.
Proof.
  intros [_ _ _ Ht He _ _ _ _]. exists (drop (S (Z.to_nat (len p))) (out p)).
  rewrite <- Ht. symmetry. by apply take_drop_middle.
Qed.

(** The call as a whole, on a path that is there. *)
Lemma path_resolve_ok cwd s buf buf_len :
  (forall c, cwd = Some c -> text_ok c /\ zlen c + buf_len < SIZE_MOD) ->
  text_ok s -> s <> [] -> zlen s + buf_len < SIZE_MOD -> 2 <= buf_len <= zlen buf ->
  exists r out', path_resolve cwd (Some s) (Some buf) buf_len = Some (r, Some out') /\ length out' = length buf /\
    match target buf_len cwd s with
    | Some st => r = true /\ Forall plain st /\ zlen (render st) < buf_len /\ zlen st <= PATH_MAX / 2 /\
                 exists rest, out' = render st ++ 0 :: rest
    | None => r = false
    end.
Proof.
  intros Hcwd Hs Hne Hsz Hb. unfold path_resolve. rewrite (proj2 (Z.ltb_ge buf_len 2)) by lia.
  rewrite (proj2 (Z.eqb_neq (peek s) 0)) by (by rewrite peek_0). cbn [orb].
  rewrite mstore_ok by lia. cbn [mbind option_bind]. rewrite mstore_ok by (unfold zlen in *; rewrite length_insert; lia).
  change (Z.to_nat 0) with 0%nat. change (Z.to_nat 1) with 1%nat. cbn [mbind option_bind].
  pose proof (start_ok buf buf_len Hb) as Hok0. set (p0 := mk_build _ _ _ _ _ _) in *.
  assert (Hl0 : length (out p0) = length buf) by (cbn; by rewrite !length_insert).
  assert (Hfirst : applied p0 [] (if peek s =? SLASH then [] else default [] cwd)
    (if negb (peek s =? SLASH) then
       _apply p0 (Some (match cwd with Some c => if negb (peek c =? 0) then c else [SLASH] | None => [SLASH] end))
     else o ← mstore (out p0) 0 SLASH; o ← mstore o 1 0;
          Some (true, mk_build o buf_len 1 (replicate (Z.to_nat (PATH_MAX / 2)) 0) 0 (PATH_MAX / 2)))).
  { destruct (peek s =? SLASH); cbn [negb].
    - rewrite mstore_ok by (unfold zlen in *; lia). cbn [mbind option_bind].
      rewrite mstore_ok by (unfold zlen in *; rewrite length_insert; lia). cbn [mbind option_bind].
      change (Z.to_nat 0) with 0%nat. change (Z.to_nat 1) with 1%nat. cbn [out p0].
      rewrite start_again by lia. by exists true, p0.
    - assert (Hroot : applied p0 [] [] (_apply p0 (Some [SLASH]))) by (by exists true, p0).
      destruct cwd as [c|]; [|exact Hroot]. destruct (Hcwd c eq_refl) as [Hc Hcs]. cbn [default].
      destruct (Z.eqb_spec (peek c) 0) as [Hc0|Hc0]; cbn [negb].
      + by apply peek_0 in Hc0 as ->.
      + apply apply_loop_ok; [done|done|lia|exact Hcs]. }
  destruct Hfirst as (r1 & p1 & -> & Ho1 & Hl1 & Hw1). cbn [mbind option_bind].
  unfold target. replace (origin cwd s) with (segments (if peek s =? SLASH then [] else default [] cwd))
    by (unfold origin; destruct (peek s =? SLASH); [done|]; by destruct cwd).
  change (out_len p0) with buf_len in Hw1, Ho1. destruct (walk buf_len [] _) as [st1|]; cbn [mbind option_bind].
  2:{ subst r1. cbn [negb]. exists false, (out p1). split_and!; [done|congruence|done]. }
  destruct Hw1 as [-> Hok1]. cbn [negb].
  destruct (apply_loop_ok (S (length s)) p1 st1 s) as (r2 & p2 & Hap & Ho2 & Hl2 & Hw2); [done|done|lia|by rewrite Ho1|].
  cbn [_apply]. rewrite Hap. cbn [mbind option_bind]. rewrite Ho1 in Hw2.
  destruct (walk buf_len st1 (segments s)) as [st2|].
  2:{ subst r2. cbn [negb]. exists false, (out p2). split_and!; [done|congruence|done]. }
  destruct Hw2 as [-> Hok2]. cbn [negb]. pose proof (render_length st2) as [Hr _].
  rewrite (proj2 (Z.eqb_neq (len p2) 0)) by (rewrite (b_len _ _ Hok2); lia).
  exists true, (out p2). split_and!; [done|congruence|done|apply Hok2| | |by apply build_answer].
  - pose proof (b_len _ _ Hok2). pose proof (b_fits _ _ Hok2). lia.
  - apply Hok2.
Qed.

(** A canonical path names itself. *)
Lemma segments_body st : Forall plain st -> segments (body st) = st.
Proof.
  induction st as [|g st IH]; [done|]. intros [(Hg0 & Hd & Hdd & Hsl & _) Hst]%Forall_cons.
  change (g :: st) with ([g] ++ st) at 1. rewrite body_app, body_one. cbn [app].
  change (SLASH :: g ++ body st) with ([] ++ SLASH :: g ++ body st).
  rewrite segments_app; [|set_solver|right; by eexists]. rewrite filter_cons, decide_False by (by intros [[] _]).
  rewrite filter_nil. cbn [app]. transitivity (segments (g ++ body st)).
  { unfold segments. cbn [split_loop]. rewrite Z.eqb_refl, filter_cons, decide_False by (by intros [[] _]). done. }
  rewrite segments_app; [|done|]. 2:{ destruct st as [|h st]; [by left|]. right. by eexists. }
  rewrite filter_cons, decide_True, filter_nil, IH by done. done.
Qed.

Lemma walk_plain lim base st : Forall plain st ->
  zlen (render (base ++ st)) < lim -> zlen (base ++ st) <= PATH_MAX / 2 -> walk lim base st = Some (base ++ st).
Proof.
  revert base. induction st as [|g st IH]; intros base Hst Hl Hc; [by rewrite app_nil_r|].
  apply Forall_cons in Hst as [(_ & _ & Hdd & _) Hst]. rewrite walk_cons by done.
  replace (base ++ g :: st) with ((base ++ [g]) ++ st) in * by (by rewrite <- app_assoc).
  assert (zlen (render (base ++ [g])) <= zlen (render ((base ++ [g]) ++ st))).
  { rewrite !render_max, (body_app (base ++ [g])), zlen_app. pose proof (zlen_nonneg (body st)). lia. }
  rewrite !zlen_app in Hc. pose proof (zlen_nonneg st). change (zlen [g]) with 1 in Hc.
  rewrite (proj2 (Z.ltb_lt _ lim)), (proj2 (Z.ltb_lt (zlen base) _)) by lia. cbn [andb].
  apply IH; [done|lia|rewrite !zlen_app; change (zlen [g]) with 1; lia].
Qed.

Lemma target_render lim cwd st : Forall plain st -> zlen (render st) < lim -> zlen st <= PATH_MAX / 2 ->
  target lim cwd (render st) = Some st.
Proof.
  intros Hst Hl Hc. assert (Hp : peek (render st) = SLASH).
  { destruct st as [|g st]; [done|]. done. }
  unfold target, origin. rewrite Hp, Z.eqb_refl. cbn [walk mbind option_bind].
  assert (segments (render st) = st) as ->.
  { destruct st as [|g st]; [done|]. rewrite render_body by done. by apply segments_body. }
  by apply (walk_plain lim []).
Qed.

Lemma path_resolve_absolute cwd s buf buf_len : peek s = SLASH ->
  path_resolve cwd (Some s) buf buf_len = path_resolve None (Some s) buf buf_len.
Proof. intros Hs. unfold path_resolve. by rewrite Hs. Qed.

Lemma render_text_ok st : Forall plain st -> text_ok (render st).
Proof.
  intros Hst. assert (Hb : text_ok (body st)).
  { induction Hst as [|g st (_ & _ & _ & _ & Hg) _ IH]; [constructor|]. change (g :: st) with ([g] ++ st).
    rewrite body_app, body_one. apply Forall_app. split; [|done]. constructor; [done|exact Hg]. }
  destruct st; [by repeat constructor|]. by rewrite render_body.
Qed.

(** C24: [path_resolve] never leaves the caller's buffer and always returns.  It succeeds exactly when
    every directory on the way, starting at the root or at the current directory, fits in the buffer
    with its terminator and in the table of segments, and then the buffer holds the canonical path of
    the directory the segments lead to: [.] and empty segments vanish, [..] removes the segment before
    it and stays at the root.  Resolving the answer again, from any directory, gives the same answer. *)
Theorem path_resolve_exact cwd s buf buf_len :
  (forall c, cwd = Some c -> text_ok c /\ zlen c + buf_len < SIZE_MOD) ->
  text_ok s -> s <> [] -> zlen s + buf_len < SIZE_MOD -> 2 <= buf_len <= zlen buf ->
  exists r out', path_resolve cwd (Some s) (Some buf) buf_len = Some (r, Some out') /\ length out' = length buf /\
    match target buf_len cwd s with
    | None => r = false
    | Some st =>
        r = true /\ Forall plain st /\ (exists rest, out' = render st ++ 0 :: rest) /\
        (2 * buf_len < SIZE_MOD -> forall cwd', exists rest',
           path_resolve cwd' (Some (render st)) (Some buf) buf_len = Some (true, Some (render st ++ 0 :: rest')))
    end.
Proof.
  intros Hcwd Hs Hne Hsz Hb. destruct (path_resolve_ok cwd s buf buf_len Hcwd Hs Hne Hsz Hb) as (r & o & -> & Hl & Hm).
  exists r, o. split_and!; [done|done|]. destruct (target buf_len cwd s) as [st|]; [|done].
  destruct Hm as (-> & Hpl & Hfit & Hcap & Hr). split_and!; [done|done|done|]. intros Hbb cwd'.
  rewrite path_resolve_absolute by (by destruct st).
  destruct (path_resolve_ok None (render st) buf buf_len) as (r2 & o2 & -> & _ & Hm2);
    [done|by apply render_text_ok|by destruct st|lia|lia|]. rewrite target_render in Hm2 by done.
  destruct Hm2 as (-> & _ & _ & _ & rest & ->). by exists rest.
Qed.

End Proofs.

#[local] Existing Instance arch64.

(** [/home/u] and [../v//./w] in a buffer of 16 bytes. *)
Lemma path_resolve_exact_witness :
  exists out', path_resolve (Some [47; 104; 111; 109; 101; 47; 117]) (Some [46; 46; 47; 118; 47; 47; 46; 47; 119])
      (Some (replicate 16 255)) 16 = Some (true, Some out') /\
    exists rest, out' = [47; 104; 111; 109; 101; 47; 118; 47; 119] ++ 0 :: rest.
Proof.
  destruct (path_resolve_exact (Some [47; 104; 111; 109; 101; 47; 117]) [46; 46; 47; 118; 47; 47; 46; 47; 119]
              (replicate 16 255) 16) as (r & o & He & _ & Hm).
  - intros c [= <-]. split; [repeat constructor; lia|vm_compute; reflexivity].
  - repeat constructor; lia.
  - discriminate.
  - vm_compute; reflexivity.
  - vm_compute. split; discriminate.
  - vm_compute in Hm. destruct Hm as (-> & _ & Hr & _). exists o. split; [exact He|exact Hr].
Defined.
End Path.
