(* ===== verification/Hashmap.v ===== *)
(** * Hash maps: [libs/data/hashmap.c]

    [Hashmap] is the open-addressing table from [u64] to [u64] with linear probing and tombstones;
    [StrMap] the map keyed by strings, a [Hashmap] from hash codes to linked buckets.  The kernel's
    process table, the pseudo file systems and the user programs look things up through them. *)

From S2P Require Import Prelude Memory.
From stdpp Require Import gmap fin_maps.
Open Scope Z_scope.

Module Hashmap.

Inductive slot_state := SLOT_EMPTY | SLOT_FULL | SLOT_TOMBSTONE.

#[export] Instance slot_state_eq_dec : EqDecision slot_state.
Proof. solve_decision. Defined.

Definition HASHMAP_LOAD_NUM : Z := 7.
Definition HASHMAP_LOAD_DEN : Z := 10.
Definition HASHMAP_INITIAL_CAPACITY : Z := 16.

Record hashmap_entry_t := mk_entry { key : Z; value : Z; state : slot_state }.

Record hashmap_t := mk_map { size : Z; capacity : Z; entries : ptr (list hashmap_entry_t) }.

(** A cell of a block that [calloc] answered or [memset] cleared. *)
Definition zero_entry : hashmap_entry_t := mk_entry 0 0 SLOT_EMPTY.

(** [sizeof(hashmap_entry_t)]: two [u64] and a byte, padded to 20 bytes where [u64] is aligned to
    four bytes (x86_32) and to 24 elsewhere. *)
Class EntryLayout := { entry_bytes : Z; entry_bytes_ok : entry_bytes = 20 \/ entry_bytes = 24 }.

#[export] Instance layout24 : EntryLayout := {| entry_bytes := 24; entry_bytes_ok := or_intror eq_refl |}.

Definition hashmap_hash_u64 (value : Z) : Z :=
  let value := Z.lxor value (Z.shiftr value 33) in
  let value := u64_wrap (value * 0xff51afd7ed558ccd) in
  let value := Z.lxor value (Z.shiftr value 33) in
  let value := u64_wrap (value * 0xc4ceb9fe1a85ec53) in
  Z.lxor value (Z.shiftr value 33).

Section Defs.
Context `{Arch} `{EntryLayout}.
Implicit Types (map : hashmap_t) (es : list hashmap_entry_t) (malloc : Z -> bool).

Definition _is_power_of_two (value : Z) : bool :=
  negb (value =? 0) && (Z.land value (wrap (value - 1)) =? 0).

Fixpoint round_up_loop (fuel : nat) (value rounded : Z) : option Z :=
  match fuel with
  | O => None
  | S fuel =>
      if rounded <? value then
        let grown := wrap (Z.shiftl rounded 1) in
        if grown <=? rounded then Some rounded else round_up_loop fuel value grown
      else Some rounded
  end.

(** [rounded] doubles at every iteration, so the loop runs at most [size_bits] times. *)
Definition _next_power_of_two (value : Z) : option Z :=
  if value <=? 1 then Some 1 else round_up_loop 65 value 1.

(** [(size_t)hashmap_hash_u64(key) & mask] *)
Definition home (key mask : Z) : Z := Z.land (wrap (hashmap_hash_u64 key)) mask.

Definition next (index mask : Z) : Z := Z.land (wrap (index + 1)) mask.

(** [entry->state = FULL; entry->key = key; entry->value = value; map->size++] *)
Definition fill map (index key value : Z) : option hashmap_t :=
  es ← entries map;
  es ← mstore es index (mk_entry key value SLOT_FULL);
  Some (mk_map (wrap (size map + 1)) (capacity map) (Some es)).

(** The [for (;;)] of [_hashmap_insert_raw] and what follows it; [SIZE_MAX] is the [(size_t)-1] that
    says that no tombstone was met. *)
Fixpoint insert_loop (fuel : nat) map es (mask start index tombstone key' value' : Z)
  : option (bool * hashmap_t) :=
  match fuel with
  | O => None
  | S fuel =>
      entry ← mload es index;
      let continue tombstone :=
        let index := next index mask in
        if index =? start then
          if negb (tombstone =? SIZE_MAX) then
            map ← fill map tombstone key' value'; Some (true, map)
          else Some (false, map)
        else insert_loop fuel map es mask start index tombstone key' value' in
      match state entry with
      | SLOT_FULL =>
          if key entry =? key' then
            es ← mstore es index (mk_entry (key entry) value' SLOT_FULL);
            Some (true, mk_map (size map) (capacity map) (Some es))
          else continue tombstone
      | SLOT_EMPTY =>
          let target := if negb (tombstone =? SIZE_MAX) then tombstone else index in
          map ← fill map target key' value'; Some (true, map)
      | SLOT_TOMBSTONE => continue (if tombstone =? SIZE_MAX then index else tombstone)
      end
  end.

Definition _hashmap_insert_raw (map : ptr hashmap_t) (key value : Z) : option (bool * ptr hashmap_t) :=
  match map with
  | None => Some (false, None)
  | Some m =>
      match entries m with
      | None => Some (false, Some m)
      | Some es =>
          if capacity m =? 0 then Some (false, Some m)
          else
            let mask := wrap (capacity m - 1) in
            let index := home key mask in
            '(b, m) ← insert_loop (Z.to_nat (capacity m)) m es mask index index SIZE_MAX key value;
            Some (b, Some m)
      end
  end.

(** The probe loop that [_hashmap_update], [hashmap_get] and [hashmap_remove] share: the index of
    the full slot with the key, or [None] at an empty slot or after a whole round. *)
Fixpoint probe_loop (fuel : nat) es (mask start index key' : Z) : option (ptr Z) :=
  match fuel with
  | O => None
  | S fuel =>
      entry ← mload es index;
      if bool_decide (state entry = SLOT_EMPTY) then Some None
      else if bool_decide (state entry = SLOT_FULL) && (key entry =? key') then Some (Some index)
      else
        let index := next index mask in
        if index =? start then Some None else probe_loop fuel es mask start index key'
  end.

(** [probe_loop] behind the three functions' common guard and prologue. *)
Definition probe map (key : Z) : option (ptr Z) :=
  match entries map with
  | None => Some None
  | Some es =>
      if capacity map =? 0 then Some None
      else
        let mask := wrap (capacity map - 1) in
        let index := home key mask in
        probe_loop (Z.to_nat (capacity map)) es mask index index key
  end.

Definition _hashmap_update map (key' value' : Z) : option (bool * hashmap_t) :=
  i ← probe map key';
  match i with
  | None => Some (false, map)
  | Some i =>
      es ← entries map; entry ← mload es i;
      es ← mstore es i (mk_entry (key entry) value' (state entry));
      Some (true, mk_map (size map) (capacity map) (Some es))
  end.

(** [hashmap_get]; the second component is what [*value_out] receives. *)
Definition hashmap_get (map : ptr hashmap_t) (key : Z) : option (bool * ptr Z) :=
  match map with
  | None => Some (false, None)
  | Some map =>
      i ← probe map key;
      match i with
      | None => Some (false, None)
      | Some i => es ← entries map; entry ← mload es i; Some (true, Some (value entry))
      end
  end.

Definition hashmap_remove map (key : Z) : option (bool * hashmap_t) :=
  i ← probe map key;
  match i with
  | None => Some (false, map)
  | Some i =>
      es ← entries map;
      es ← mstore es i (mk_entry 0 0 SLOT_TOMBSTONE);
      Some (true, mk_map (if size map =? 0 then size map else size map - 1) (capacity map) (Some es))
  end.

(** [for (i = 0; i < map->capacity; i++)] of [_hashmap_rehash], over the cells left; the answer says
    whether every insertion succeeded. *)
Fixpoint rehash_loop (cells : list hashmap_entry_t) (grown : hashmap_t) : option (bool * hashmap_t) :=
  match cells with
  | [] => Some (true, grown)
  | entry :: cells =>
      if negb (bool_decide (state entry = SLOT_FULL)) then rehash_loop cells grown
      else
        '(b, g) ← _hashmap_insert_raw (Some grown) (key entry) (value entry);
        grown ← g;
        if b : bool then rehash_loop cells grown else Some (false, grown)
  end.

Definition _hashmap_rehash malloc map (new_capacity : Z) : option (bool * hashmap_t) :=
  new_capacity ← (if negb (_is_power_of_two new_capacity)
                  then _next_power_of_two new_capacity else Some new_capacity);
  if new_capacity =? 0 then Some (false, map)
  else if negb (calloc malloc new_capacity entry_bytes) then Some (false, map)
  else
    let new_entries := replicate (Z.to_nat new_capacity) zero_entry in
    cells ← (if capacity map =? 0 then Some []
             else es ← entries map; mread es 0 (capacity map));
    '(b, grown) ← rehash_loop cells (mk_map 0 new_capacity (Some new_entries));
    if b : bool then Some (true, grown) else Some (false, map).

(** [map_block]: whether the allocation of the [hashmap_t] itself succeeded. *)
Definition hashmap_create_sized malloc (map_block : bool) (capacity : Z) : option (ptr hashmap_t) :=
  let capacity := if capacity =? 0 then HASHMAP_INITIAL_CAPACITY else capacity in
  capacity ← (if negb (_is_power_of_two capacity)
              then _next_power_of_two capacity else Some capacity);
  if negb map_block then Some None
  else if negb (calloc malloc capacity entry_bytes) then Some None
  else Some (Some (mk_map 0 capacity (Some (replicate (Z.to_nat capacity) zero_entry)))).

Definition hashmap_create malloc (map_block : bool) : option (ptr hashmap_t) :=
  hashmap_create_sized malloc map_block HASHMAP_INITIAL_CAPACITY.

Definition hashmap_clear map : option hashmap_t :=
  match entries map with
  | None => Some map
  | Some es =>
      if capacity map =? 0 then Some map
      else
        es ← mwrite es 0 (replicate (Z.to_nat (capacity map)) zero_entry);
        Some (mk_map 0 (capacity map) (Some es))
  end.

Definition hashmap_reserve malloc map (capacity' : Z) : option (bool * hashmap_t) :=
  let min_capacity :=
    if 0 <? size map then
      let needed := wrap (wrap (wrap (size map * HASHMAP_LOAD_DEN) + HASHMAP_LOAD_NUM) - 1)
                    / HASHMAP_LOAD_NUM in
      if capacity' <? needed then needed else capacity'
    else capacity' in
  if min_capacity <=? capacity map then Some (true, map)
  else _hashmap_rehash malloc map min_capacity.

Definition double_or_initial map : Z :=
  if negb (capacity map =? 0) then wrap (Z.shiftl (capacity map) 1) else HASHMAP_INITIAL_CAPACITY.

(** [hashmap_set] behind the test for a missing table: update in place, or grow when the load factor
    is reached and insert. *)
Definition set_in_table malloc map (key value : Z) : option (bool * hashmap_t) :=
  '(updated, map) ← _hashmap_update map key value;
  if updated : bool then Some (true, map)
  else
    let limit := wrap (capacity map * HASHMAP_LOAD_NUM) / HASHMAP_LOAD_DEN in
    '(grown, map) ← (if limit <? wrap (size map + 1)
                     then _hashmap_rehash malloc map (double_or_initial map)
                     else Some (true, map));
    if negb grown then Some (false, map)
    else
      '(b, m) ← _hashmap_insert_raw (Some map) key value;
      map ← m;
      if b : bool then Some (true, map)
      else
        '(grown, map) ← _hashmap_rehash malloc map (double_or_initial map);
        if negb grown then Some (false, map)
        else '(b, m) ← _hashmap_insert_raw (Some map) key value; map ← m; Some (b, map).

Definition hashmap_set malloc map (key value : Z) : option (bool * hashmap_t) :=
  if bool_decide (entries map = None) || (capacity map =? 0) then
    '(b, map) ← _hashmap_rehash malloc map HASHMAP_INITIAL_CAPACITY;
    if b : bool then set_in_table malloc map key value else Some (false, map)
  else set_in_table malloc map key value.

End Defs.

(** ** Contents of a table *)

Definition full (e : hashmap_entry_t) : option (Z * Z) :=
  if decide (state e = SLOT_FULL) then Some (key e, value e) else None.

(** The finite map a table stands for. *)
Definition contents (es : list hashmap_entry_t) : gmap Z Z := list_to_map (omap full es).

Definition full_at (es : list hashmap_entry_t) (i : nat) (k v : Z) : Prop :=
  es !! i = Some (mk_entry k v SLOT_FULL).

Definition absent (es : list hashmap_entry_t) (k : Z) : Prop := forall i v, ~ full_at es i k v.

(** A key is in at most one full slot. *)
Definition unique_keys (es : list hashmap_entry_t) : Prop :=
  forall i j k v v', full_at es i k v -> full_at es j k v' -> i = j.

Lemma elem_of_full es k v : (k, v) ∈ omap full es <-> exists i, full_at es i k v.
Proof.
  rewrite list_elem_of_omap. split.
  - intros ([k' v' s] & Hin & Hf). unfold full in Hf. case_decide as Hs; simplify_eq/=.
    apply list_elem_of_lookup in Hin as [i Hi]. by exists i.
  - intros [i Hi]. exists (mk_entry k v SLOT_FULL). split; [by eapply list_elem_of_lookup_2|].
    unfold full. by rewrite decide_True.
Qed.

Lemma unique_keys_cons e es :
  unique_keys (e :: es) -> unique_keys es /\ (state e = SLOT_FULL -> absent es (key e)).
Proof.
  intros Hu. split.
  - intros i j k v v' Hi Hj. by injection (Hu (S i) (S j) k v v' Hi Hj).
  - intros Hs i v Hi. destruct e as [k v0 s]; simpl in *; subst.
    discriminate (Hu 0%nat (S i) k v0 v eq_refl Hi).
Qed.

Lemma unique_NoDup es : unique_keys es -> NoDup (omap full es).*1.
Proof.
  induction es as [|e es IH]; intros Hu; [constructor|].
  apply unique_keys_cons in Hu as [Hu Ha]. simpl.
  unfold full at 1. case_decide as Hs; [|by apply IH].
  simpl. apply list.NoDup_cons. split; [|by apply IH].
  intros ([k v] & Heq & [i Hi]%elem_of_full)%list_elem_of_fmap. simpl in Heq.
  apply (Ha Hs i v). by rewrite Heq.
Qed.

Lemma contents_lookup es k v :
  unique_keys es -> contents es !! k = Some v <-> exists i, full_at es i k v.
Proof.
  intros Hu. unfold contents. rewrite <- elem_of_list_to_map by by apply unique_NoDup.
  apply elem_of_full.
Qed.

Lemma contents_absent es k : unique_keys es -> contents es !! k = None <-> absent es k.
Proof.
  intros Hu. rewrite eq_None_not_Some. split.
  - intros Hn i v Hi. apply Hn. exists v. apply contents_lookup; eauto.
  - intros Ha [v [i Hi]%contents_lookup]; [by apply (Ha i v)|done].
Qed.

Lemma contents_size es : unique_keys es -> base.size (contents es) = length (omap full es).
Proof.
  intros Hu. unfold contents. rewrite map_size_list_to_map by by apply unique_NoDup.
  done.
Qed.

Lemma full_cons e es :
  omap full (e :: es) = match full e with Some kv => kv :: omap full es | None => omap full es end.
Proof. done. Qed.

Lemma omap_full_length es : (length (omap full es) <= length es)%nat.
Proof.
  induction es as [|e es IH]; [done|]. rewrite full_cons.
  destruct (full e); rewrite ?length_cons; lia.
Qed.

(** A table with fewer entries than slots has a slot that is not full. *)
Lemma free_slot_exists es :
  (length (omap full es) < length es)%nat -> exists i e, es !! i = Some e /\ state e <> SLOT_FULL.
Proof.
  induction es as [|e es IH]; [simpl; lia|]. rewrite full_cons.
  unfold full at 1. case_decide as Hs; rewrite !length_cons; intros Hl.
  - destruct IH as (i & e' & Hi & He); [lia|]. by exists (S i), e'.
  - by exists 0%nat, e.
Qed.

(** *** Overwriting one slot *)

Lemma full_at_insert es i e j k v :
  (i < length es)%nat ->
  full_at (<[i := e]> es) j k v <-> (j = i /\ e = mk_entry k v SLOT_FULL) \/ (j <> i /\ full_at es j k v).
Proof.
  intros Hi. unfold full_at. destruct (decide (j = i)) as [->|Hne].
  - rewrite list_lookup_insert_eq by done. naive_solver.
  - rewrite list_lookup_insert_ne by done. naive_solver.
Qed.

(** Writing a full slot for [k] over the old one, or over a free slot when [k] is absent. *)
Lemma unique_keys_put es i k v e0 :
  unique_keys es -> es !! i = Some e0 ->
  (absent es k \/ exists v0, e0 = mk_entry k v0 SLOT_FULL) ->
  unique_keys (<[i := mk_entry k v SLOT_FULL]> es).
Proof.
  intros Hu Hi Hk j1 j2 k' v1 v2. pose proof (lookup_lt_Some _ _ _ Hi) as Hlt.
  rewrite !full_at_insert by done.
  assert (Hother : forall j u, j <> i -> ~ full_at es j k u).
  { intros j u Hne Hj. destruct Hk as [Hk|[v0 ->]]; [by apply (Hk j u)|].
    apply Hne. by eapply Hu. }
  intros [[-> ?]|[Hn1 H1]] [[-> ?]|[Hn2 H2]]; simplify_eq; try done.
  - by destruct (Hother j2 v2).
  - by destruct (Hother j1 v1).
  - by eapply Hu.
Qed.

Lemma contents_put es i k v e0 :
  unique_keys es -> es !! i = Some e0 ->
  ((state e0 <> SLOT_FULL /\ absent es k) \/ exists v0, e0 = mk_entry k v0 SLOT_FULL) ->
  contents (<[i := mk_entry k v SLOT_FULL]> es) = <[k := v]> (contents es).
Proof.
  intros Hu Hi Hk. pose proof (lookup_lt_Some _ _ _ Hi) as Hlt.
  assert (Hu' : unique_keys (<[i := mk_entry k v SLOT_FULL]> es)).
  { eapply unique_keys_put; naive_solver. }
  apply map_eq. intros k'. apply option_eq. intros v'.
  rewrite contents_lookup by done. setoid_rewrite full_at_insert; [|done].
  rewrite lookup_insert_Some, contents_lookup by done. split.
  - intros [j [[-> Heq]|[Hne Hj]]]; [simplify_eq; by left|]. right. split; [|by exists j].
    intros <-. destruct Hk as [[_ Ha]|[v0 ->]]; [by apply (Ha j v')|].
    apply Hne. by eapply Hu.
  - intros [[-> ->]|[Hne [j Hj]]]; [exists i; by left|]. exists j. right. split; [|done].
    intros ->. unfold full_at in Hj. destruct Hk as [[Hs _]|[v0 ->]]; simplify_eq/=.
Qed.

Lemma unique_keys_drop es i e : unique_keys es -> state e <> SLOT_FULL -> (i < length es)%nat ->
  unique_keys (<[i := e]> es).
Proof.
  intros Hu Hs Hi j1 j2 k v1 v2. rewrite !full_at_insert by done.
  intros [[-> ->]|[_ H1]] [[-> ?]|[_ H2]]; simplify_eq/=. by eapply Hu.
Qed.

Lemma contents_drop es i k v e :
  unique_keys es -> full_at es i k v -> state e <> SLOT_FULL ->
  contents (<[i := e]> es) = delete k (contents es).
Proof.
  intros Hu Hi Hs. pose proof (lookup_lt_Some _ _ _ Hi) as Hlt.
  apply map_eq. intros k'. apply option_eq. intros v'.
  rewrite contents_lookup by by apply unique_keys_drop.
  setoid_rewrite full_at_insert; [|done].
  rewrite lookup_delete_Some, contents_lookup by done. split.
  - intros [j [[-> ->]|[Hne Hj]]]; [done|]. split; [|by exists j].
    intros <-. apply Hne. by eapply Hu.
  - intros [Hne [j Hj]]. exists j. right. split; [|done].
    intros ->. unfold full_at in *. simplify_eq.
Qed.

(** ** Probing *)

Section Probing.
Context `{Arch} `{EntryLayout}.
Implicit Types (map : hashmap_t) (es : list hashmap_entry_t) (malloc : Z -> bool).

(** The slot [j] steps after [h] in a table of [cap] slots. *)
Definition pos (cap h j : Z) : Z := (h + j) mod cap.

Definition cell es (cap h j : Z) : option hashmap_entry_t := es !! Z.to_nat (pos cap h j).

(** [cap] slots, a power of two that [calloc] could answer; keys are unique; and no empty slot lies
    between the home of a key and the slot that holds it. *)
Record table_ok (cap : Z) es : Prop := {
  tk_pow : exists k, 0 <= k < size_bits /\ cap = 2 ^ k;
  tk_fits : cap * entry_bytes <= SIZE_MAX;
  tk_len : zlen es = cap;
  tk_unique : unique_keys es;
  tk_probe : forall i k v j, full_at es i k v ->
    0 <= j < (Z.of_nat i - home k (cap - 1)) mod cap ->
    exists e, cell es cap (home k (cap - 1)) j = Some e /\ state e <> SLOT_EMPTY
}.

Section Positions.
Context (cap : Z) (Hcap : exists k, 0 <= k < size_bits /\ cap = 2 ^ k).

Lemma cap_range : 0 < cap < SIZE_MOD.
Proof.
  destruct Hcap as (k & Hk & ->). split; [apply Z.pow_pos_nonneg; lia|].
  apply Z.pow_lt_mono_r; lia.
Qed.

Lemma pos_range h j : 0 <= pos cap h j < cap.
Proof. apply Z.mod_pos_bound, cap_range. Qed.

Lemma home_range k : 0 <= home k (cap - 1) < cap.
Proof.
  destruct Hcap as (n & Hn & ->). unfold home. rewrite land_mask by lia.
  apply Z.mod_pos_bound. apply Z.pow_pos_nonneg; lia.
Qed.

Lemma next_pos h j : next (pos cap h j) (cap - 1) = pos cap h (j + 1).
Proof.
  unfold next, pos. destruct Hcap as (n & Hn & ->).
  rewrite land_mask, wrap_mod_pow2, Zplus_mod_idemp_l by lia. f_equal. lia.
Qed.

Lemma pos_0 h : 0 <= h < cap -> pos cap h 0 = h.
Proof. intros. unfold pos. rewrite Z.add_0_r. by apply Z.mod_small. Qed.

(** The walk comes back to its start after exactly [cap] steps. *)
Lemma pos_back h j : 0 <= h < cap -> 0 <= j < cap -> pos cap h (j + 1) = h <-> j + 1 = cap.
Proof.
  intros Hh Hj. unfold pos. rewrite mod_once by lia. case_test; lia.
Qed.

Lemma pos_dist h i : 0 <= i < cap -> pos cap h ((i - h) mod cap) = i.
Proof.
  intros Hi. unfold pos. rewrite Zplus_mod_idemp_r.
  replace (h + (i - h)) with i by lia. by apply Z.mod_small.
Qed.

Lemma dist_pos h j : 0 <= j < cap -> (pos cap h j - h) mod cap = j.
Proof.
  intros Hj. unfold pos. rewrite Zminus_mod_idemp_l.
  replace (h + j - h) with j by lia. by apply Z.mod_small.
Qed.

Lemma cell_Some es h j : zlen es = cap -> exists e, cell es cap h j = Some e.
Proof.
  intros Hl. unfold cell. apply lookup_lt_is_Some_2.
  pose proof (pos_range h j). unfold zlen in Hl. lia.
Qed.

Lemma mload_cell es h j : zlen es = cap -> mload es (pos cap h j) = cell es cap h j.
Proof. intros Hl. rewrite mload_ok; [done|]. rewrite Hl. apply pos_range. Qed.

End Positions.

(** The slots a probe for [k] walks over. *)
Definition skipped (k : Z) (e : hashmap_entry_t) : Prop :=
  state e <> SLOT_EMPTY /\ (state e = SLOT_FULL -> key e <> k).

(** The walk from [h] passed [n] slots without meeting [k] or an empty slot. *)
Definition walked es (cap h n k : Z) : Prop :=
  forall j, 0 <= j < n -> exists e, cell es cap h j = Some e /\ skipped k e.

Lemma walked_0 es cap h k : walked es cap h 0 k.
Proof. intros j Hj. lia. Qed.

Lemma walked_step es cap h n k e :
  walked es cap h n k -> cell es cap h n = Some e -> skipped k e -> walked es cap h (n + 1) k.
Proof.
  intros Hw Hc Hs j Hj. destruct (decide (j = n)) as [->|Hne]; [by exists e|]. apply Hw. lia.
Qed.

(** The walk ended: at an empty slot, or all the way round. *)
Definition walk_ended es (cap h n k : Z) : Prop :=
  walked es cap h n k /\ 0 <= n <= cap /\
  (n = cap \/ exists e, cell es cap h n = Some e /\ state e = SLOT_EMPTY).

Lemma walk_ended_absent cap es n k :
  table_ok cap es -> walk_ended es cap (home k (cap - 1)) n k -> absent es k.
Proof.
  intros Hok (Hw & Hn & Hend) i v Hi.
  assert (Hr : 0 <= Z.of_nat i < cap).
  { apply lookup_lt_Some in Hi. pose proof (tk_len _ _ Hok). unfold zlen in *. lia. }
  set (h := home k (cap - 1)) in *. set (d := (Z.of_nat i - h) mod cap).
  assert (Hd : 0 <= d < cap) by (apply Z.mod_pos_bound, cap_range, Hok).
  assert (Hcell : cell es cap h d = Some (mk_entry k v SLOT_FULL)).
  { unfold cell, d. rewrite pos_dist by done. by rewrite Nat2Z.id. }
  destruct (Z_lt_le_dec d n) as [Hlt|Hge].
  - destruct (Hw d ltac:(lia)) as (e & He & _ & Hk). simplify_eq. by apply Hk.
  - destruct Hend as [->|(e & He & Hs)]; [lia|].
    destruct (decide (n = d)) as [->|Hne]; [by simplify_eq|].
    destruct (tk_probe _ _ Hok i k v n Hi ltac:(fold h d; lia)) as (e' & He' & Hs').
    fold h in He'. congruence.
Qed.

Lemma probe_loop_spec cap es h k fuel n :
  table_ok cap es -> 0 <= h < cap -> 0 <= n < cap -> Z.of_nat fuel = cap - n ->
  walked es cap h n k ->
  exists r, probe_loop fuel es (cap - 1) h (pos cap h n) k = Some r /\
    match r with
    | Some i => 0 <= i < cap /\ exists v, full_at es (Z.to_nat i) k v
    | None => exists n, walk_ended es cap h n k
    end.
Proof.
  intros Hok Hh. pose proof (tk_pow _ _ Hok) as Hp. revert n.
  induction fuel as [|fuel IH]; intros n Hn Hf Hw; [lia|]. cbn [probe_loop].
  rewrite mload_cell by (done || apply Hok).
  destruct (cell_Some cap Hp es h n (tk_len _ _ Hok)) as [[k0 v0 s0] He]. rewrite He.
  cbn [mbind option_bind state key].
  destruct (decide (s0 = SLOT_EMPTY)) as [->|Hs].
  { rewrite bool_decide_true by done. exists None. split; [done|]. exists n.
    split; [done|]. split; [lia|]. right. by eexists. }
  rewrite bool_decide_false by done.
  destruct (bool_decide (s0 = SLOT_FULL) && (k0 =? k)) eqn:Hm.
  { bool_facts. case_bool_decide; [|done]. subst. exists (Some (pos cap h n)). split; [done|].
    split; [by apply pos_range|]. exists v0. done. }
  assert (Hsk : skipped k (mk_entry k0 v0 s0)).
  { split; [done|]. simpl. intros -> ->. by rewrite bool_decide_true, Z.eqb_refl in Hm. }
  rewrite next_pos by done.
  pose proof (walked_step _ _ _ _ _ _ Hw He Hsk) as Hw'.
  pose proof (pos_back cap h n Hh Hn) as Hback.
  case_test.
  - exists None. split; [done|]. exists (n + 1). split; [done|]. split; [lia|]. left. tauto.
  - apply IH; [|lia|done]. assert (n + 1 <> cap) by tauto. lia.
Qed.

Lemma mask_eq cap : (exists k, 0 <= k < size_bits /\ cap = 2 ^ k) -> wrap (cap - 1) = cap - 1.
Proof. intros Hp. pose proof (cap_range cap Hp). apply wrap_small. lia. Qed.

(** A map is well formed when its table is and [size] counts its entries. *)
Definition map_ok map (M : gmap Z Z) : Prop :=
  exists es, entries map = Some es /\ table_ok (capacity map) es /\
    contents es = M /\ size map = Z.of_nat (base.size M).

Lemma probe_spec map M k :
  map_ok map M ->
  exists r, probe map k = Some r /\
    match r with
    | Some i => exists es v, entries map = Some es /\ 0 <= i < zlen es /\
                  full_at es (Z.to_nat i) k v /\ M !! k = Some v
    | None => M !! k = None
    end.
Proof.
  intros (es & He & Hok & HM & _). pose proof (tk_pow _ _ Hok) as Hp.
  pose proof (cap_range _ Hp). unfold probe. rewrite He. test_lia. cbv beta zeta.
  rewrite mask_eq by done. set (h := home k _).
  assert (Hh : 0 <= h < capacity map) by by apply home_range.
  destruct (probe_loop_spec (capacity map) es h k (Z.to_nat (capacity map)) 0)
    as (r & Hr & Hpost); [done|done|lia|lia|apply walked_0|].
  rewrite pos_0 in Hr by done. rewrite Hr. exists r. split; [done|].
  rewrite <- HM. destruct r as [i|].
  - destruct Hpost as (Hi & v & Hv). exists es, v. rewrite (tk_len _ _ Hok).
    split_and!; try done; try lia. apply contents_lookup; [apply Hok|]. by eexists.
  - destruct Hpost as [n Hend]. apply contents_absent; [apply Hok|].
    by eapply walk_ended_absent.
Qed.

(** ** Writing a slot *)

Definition occupied es (cap h j : Z) : Prop :=
  exists e, cell es cap h j = Some e /\ state e <> SLOT_EMPTY.

Lemma occupied_insert es cap h j i e :
  state e <> SLOT_EMPTY -> (i < length es)%nat -> occupied es cap h j -> occupied (<[i := e]> es) cap h j.
Proof.
  intros Hs Hi (e0 & He & Hs0). unfold occupied, cell in *.
  destruct (decide (Z.to_nat (pos cap h j) = i)) as [->|Hne].
  - exists e. by rewrite list_lookup_insert_eq.
  - exists e0. by rewrite list_lookup_insert_ne.
Qed.

Lemma walked_occupied es cap h n k j : walked es cap h n k -> 0 <= j < n -> occupied es cap h j.
Proof. intros Hw Hj. destruct (Hw j Hj) as (e & He & Hs & _). by exists e. Qed.

(** Storing [k] in slot [i]: over its old value, or in a free slot that its walk reached. *)
Definition may_put es (cap : Z) (i : nat) (k : Z) (e0 : hashmap_entry_t) : Prop :=
  es !! i = Some e0 /\
  ((exists v0, e0 = mk_entry k v0 SLOT_FULL) \/
   (state e0 <> SLOT_FULL /\ absent es k /\
    walked es cap (home k (cap - 1)) ((Z.of_nat i - home k (cap - 1)) mod cap) k)).

Lemma table_put cap es i k v e0 :
  table_ok cap es -> may_put es cap i k e0 ->
  table_ok cap (<[i := mk_entry k v SLOT_FULL]> es) /\
  contents (<[i := mk_entry k v SLOT_FULL]> es) = <[k := v]> (contents es).
Proof.
  intros Hok [Hi Hput]. pose proof (lookup_lt_Some _ _ _ Hi) as Hlt.
  split; [|eapply contents_put; [apply Hok|done|naive_solver]].
  constructor; try apply Hok.
  - unfold zlen. rewrite length_insert. apply Hok.
  - eapply unique_keys_put; [apply Hok|done|naive_solver].
  - intros i' k' v' j. rewrite full_at_insert by done. intros Hcase Hj.
    apply occupied_insert; [done|done|].
    destruct Hcase as [[-> ?]|[_ Hi']]; [|by eapply tk_probe]. simplify_eq.
    destruct Hput as [[v0 ->]|(_ & _ & Hw)]; [by eapply tk_probe|].
    by eapply walked_occupied.
Qed.

Lemma table_drop cap es i k v :
  table_ok cap es -> full_at es i k v ->
  table_ok cap (<[i := mk_entry 0 0 SLOT_TOMBSTONE]> es) /\
  contents (<[i := mk_entry 0 0 SLOT_TOMBSTONE]> es) = delete k (contents es).
Proof.
  intros Hok Hi. pose proof (lookup_lt_Some _ _ _ Hi) as Hlt.
  split; [|eapply contents_drop; [apply Hok|done|done]].
  constructor; try apply Hok.
  - unfold zlen. rewrite length_insert. apply Hok.
  - apply unique_keys_drop; [apply Hok|done|done].
  - intros i' k' v' j. rewrite full_at_insert by done. intros [[_ ?]|[_ Hi']] Hj; [done|].
    apply occupied_insert; [done|done|]. by eapply tk_probe.
Qed.

Lemma contents_bound cap es : table_ok cap es -> Z.of_nat (base.size (contents es)) <= cap.
Proof.
  intros Hok. rewrite contents_size by apply Hok. pose proof (omap_full_length es).
  rewrite <- (tk_len _ _ Hok). unfold zlen. lia.
Qed.

(** ** Insertion *)

(** What the loop of [_hashmap_insert_raw] remembers of the walk: the first tombstone, if any. *)
Definition tombstone_seen es (cap h n tomb : Z) : Prop :=
  (tomb = SIZE_MAX /\ forall j, 0 <= j < n -> exists e, cell es cap h j = Some e /\ state e = SLOT_FULL) \/
  (exists d e, 0 <= d < n /\ tomb = pos cap h d /\ cell es cap h d = Some e /\ state e = SLOT_TOMBSTONE).

Lemma fill_ok map M es k v i e0 :
  entries map = Some es -> table_ok (capacity map) es -> contents es = M ->
  size map = Z.of_nat (base.size M) -> M !! k = None ->
  0 <= i -> may_put es (capacity map) (Z.to_nat i) k e0 ->
  exists map', fill map i k v = Some map' /\ map_ok map' (<[k := v]> M) /\ capacity map' = capacity map.
Proof.
  intros He Hok HM Hsz HN Hi Hput. pose proof (proj1 Hput) as Hl. apply lookup_lt_Some in Hl as Hlt.
  unfold fill. rewrite He. cbn [mbind option_bind].
  rewrite mstore_ok by (unfold zlen; lia). cbn [mbind option_bind].
  destruct (table_put _ _ _ _ v _ Hok Hput) as [Hok' HM'].
  eexists. split; [done|]. split; [|done]. eexists. split; [done|]. simpl.
  split; [done|]. rewrite HM', HM. split; [done|].
  rewrite map_size_insert_None by done. rewrite Hsz.
  pose proof (contents_bound _ _ Hok). pose proof (cap_range _ (tk_pow _ _ Hok)).
  rewrite HM in *. pose proof (tk_fits _ _ Hok). destruct entry_bytes_ok; unfold SIZE_MAX in *.
  all: rewrite wrap_small; lia.
Qed.

Lemma may_put_here cap es h n k e0 :
  h = home k (cap - 1) -> table_ok cap es -> 0 <= n < cap -> walked es cap h n k -> absent es k ->
  cell es cap h n = Some e0 -> state e0 <> SLOT_FULL ->
  may_put es cap (Z.to_nat (pos cap h n)) k e0.
Proof.
  intros -> Hok Hn Hw Ha He Hs. split; [done|]. right. split_and!; [done..|].
  pose proof (pos_range cap (tk_pow _ _ Hok) (home k (cap - 1)) n).
  by rewrite Z2Nat.id, dist_pos by lia.
Qed.

Lemma walked_le es cap h n m k : walked es cap h n k -> m <= n -> walked es cap h m k.
Proof. intros Hw Hm j Hj. apply Hw. lia. Qed.

(** The outcome of an insertion: the entry is in the map, or every slot is full. *)
Definition inserted map (M : gmap Z Z) (k v : Z) (r : bool * hashmap_t) : Prop :=
  capacity r.2 = capacity map /\
  if r.1 then map_ok r.2 (<[k := v]> M)
  else r.2 = map /\ M !! k = None /\ Z.of_nat (base.size M) = capacity map.

Section Insert.
Context (map : hashmap_t) (M : gmap Z Z) (es : list hashmap_entry_t) (k v : Z).
Context (He : entries map = Some es) (Hok : table_ok (capacity map) es) (HM : contents es = M).
Context (Hsz : size map = Z.of_nat (base.size M)).
Let cap := capacity map.
Let h := home k (cap - 1).

Lemma pos_not_max j : pos cap h j <> SIZE_MAX.
Proof.
  pose proof (tk_pow _ _ Hok) as Hp. pose proof (pos_range cap Hp h j). pose proof (cap_range cap Hp).
  pose proof (tk_fits _ _ Hok) as Hfit. fold cap in Hfit.
  destruct entry_bytes_ok as [Hb|Hb]; rewrite Hb in Hfit; lia.
Qed.

Lemma fill_free_slot n d e0 :
  walk_ended es cap h n k -> 0 <= d <= n -> d < cap -> cell es cap h d = Some e0 ->
  state e0 <> SLOT_FULL ->
  exists map', fill map (pos cap h d) k v = Some map' /\ inserted map M k v (true, map').
Proof.
  intros Hend Hd Hdc Hc Hs. pose proof (walk_ended_absent _ _ _ _ Hok Hend) as Ha.
  assert (HN : M !! k = None) by (rewrite <- HM; apply contents_absent; [apply Hok|done]).
  destruct (fill_ok map M es k v (pos cap h d) e0) as (map' & Hf & Hm & Hc'); try done.
  - by apply pos_range, Hok.
  - apply may_put_here; try done; [lia|]. eapply walked_le; [apply Hend|]. lia.
  - exists map'. split; [done|]. by split.
Qed.

(** A whole round over full slots: the table is full. *)
Lemma round_full : (forall j, 0 <= j < cap -> exists e, cell es cap h j = Some e /\ state e = SLOT_FULL) ->
  Z.of_nat (base.size M) = cap.
Proof.
  intros Hall. pose proof (tk_pow _ _ Hok) as Hp. pose proof (tk_len _ _ Hok) as Hl. fold cap in Hp, Hl.
  rewrite <- HM, contents_size by apply Hok. unfold zlen in Hl. rewrite <- Hl. f_equal.
  pose proof (omap_full_length es).
  destruct (decide (length (omap full es) = length es)) as [?|Hne]; [done|].
  destruct (free_slot_exists es) as (i & e & Hi & Hs); [lia|].
  pose proof (lookup_lt_Some _ _ _ Hi).
  destruct (Hall ((Z.of_nat i - h) mod cap)) as (e' & Hc & Hs').
  { apply Z.mod_pos_bound, cap_range, Hp. }
  unfold cell in Hc. rewrite pos_dist, Nat2Z.id in Hc by lia. congruence.
Qed.

(** The two exits of the loop that do not overwrite an old value. *)
Lemma insert_at_empty n tomb e :
  walked es cap h n k -> tombstone_seen es cap h n tomb -> 0 <= n < cap ->
  cell es cap h n = Some e -> state e = SLOT_EMPTY ->
  exists map', fill map (if negb (tomb =? SIZE_MAX) then tomb else pos cap h n) k v = Some map' /\
    inserted map M k v (true, map').
Proof.
  intros Hw Ht Hn Hc Hs.
  assert (Hend : walk_ended es cap h n k).
  { split; [done|]. split; [lia|]. right. by exists e. }
  destruct Ht as [[-> _]|(d & e' & Hd & -> & Hc' & Hs')].
  - rewrite Z.eqb_refl. cbn [negb]. eapply fill_free_slot; try done; try lia. by rewrite Hs.
  - pose proof (pos_not_max d). test_lia. eapply fill_free_slot; try done; try lia. by rewrite Hs'.
Qed.

Lemma insert_after_round tomb :
  walked es cap h cap k -> tombstone_seen es cap h cap tomb ->
  exists r, (if negb (tomb =? SIZE_MAX) then map ← fill map tomb k v; Some (true, map)
             else Some (false, map)) = Some r /\ inserted map M k v r.
Proof.
  intros Hw Ht. pose proof (cap_range cap (tk_pow _ _ Hok)).
  assert (Hend : walk_ended es cap h cap k) by (split; [done|]; split; [lia|]; by left).
  destruct Ht as [[-> Hall]|(d & e' & Hd & -> & Hc' & Hs')].
  - rewrite Z.eqb_refl. cbn [negb]. eexists. split; [done|]. split; [done|]. simpl.
    split; [done|]. split; [|by apply round_full].
    rewrite <- HM. apply contents_absent; [apply Hok|]. by eapply walk_ended_absent.
  - pose proof (pos_not_max d). test_lia.
    destruct (fill_free_slot cap d e') as (map' & Hf & Hi); try done; try lia; [by rewrite Hs'|].
    rewrite Hf. by eexists.
Qed.

Lemma tombstone_seen_step n tomb e :
  tombstone_seen es cap h n tomb -> cell es cap h n = Some e -> state e <> SLOT_EMPTY -> 0 <= n ->
  tombstone_seen es cap h (n + 1)
    (if bool_decide (state e = SLOT_FULL) then tomb
     else if tomb =? SIZE_MAX then pos cap h n else tomb).
Proof.
  intros Ht Hc Hs Hn. destruct Ht as [[-> Hall]|(d & e' & Hd & -> & Hc' & Hs')].
  - case_bool_decide as Hf.
    + left. split; [done|]. intros j Hj.
      destruct (decide (j = n)) as [->|]; [by exists e|]. apply Hall. lia.
    + rewrite Z.eqb_refl. right. exists n, e. split_and!; try done; try lia. by destruct (state e).
  - right. exists d, e'. split_and!; try done; try lia.
    case_bool_decide; [done|]. pose proof (pos_not_max d). by test_lia.
Qed.

Lemma insert_loop_spec fuel n tomb :
  0 <= n < cap -> Z.of_nat fuel = cap - n -> walked es cap h n k -> tombstone_seen es cap h n tomb ->
  exists r, insert_loop fuel map es (cap - 1) h (pos cap h n) tomb k v = Some r /\ inserted map M k v r.
Proof.
  pose proof (tk_pow _ _ Hok) as Hp. fold cap in Hp.
  assert (Hh : 0 <= h < cap) by by apply home_range.
  revert n tomb. induction fuel as [|fuel IH]; intros n tomb Hn Hf Hw Ht; [lia|]. cbn [insert_loop].
  rewrite mload_cell by (done || apply Hok).
  destruct (cell_Some cap Hp es h n (tk_len _ _ Hok)) as [e Hc]. rewrite Hc. cbn [mbind option_bind].
  assert (Hcont : skipped k e -> forall tomb', tombstone_seen es cap h (n + 1) tomb' ->
    exists r, (let index := next (pos cap h n) (cap - 1) in
       if index =? h
       then if negb (tomb' =? SIZE_MAX) then map ← fill map tomb' k v; Some (true, map)
            else Some (false, map)
       else insert_loop fuel map es (cap - 1) h index tomb' k v) = Some r /\ inserted map M k v r).
  { intros Hsk tomb' Ht'. cbv zeta. rewrite next_pos by done.
    pose proof (walked_step _ _ _ _ _ _ Hw Hc Hsk) as Hw'.
    pose proof (pos_back cap h n Hh Hn) as Hback. destruct (Z.eqb_spec (pos cap h (n + 1)) h).
    - assert (Hn1 : n + 1 = cap) by tauto. rewrite Hn1 in Hw', Ht'. by apply insert_after_round.
    - assert (n + 1 <> cap) by tauto. apply IH; [lia|lia|done|done]. }
  pose proof (tombstone_seen_step n tomb e Ht Hc) as Hstep.
  destruct e as [k0 v0 s0]. cbn [state key] in *. destruct s0.
  - destruct (insert_at_empty n tomb _ Hw Ht Hn Hc eq_refl) as (map' & Hfill & Hi).
    rewrite Hfill. by eexists.
  - destruct (Z.eqb_spec k0 k) as [->|Hne].
    + pose proof (pos_range cap Hp h n). rewrite mstore_ok by (rewrite (tk_len _ _ Hok); done).
      cbn [mbind option_bind]. eexists. split; [done|]. split; [done|]. simpl. eexists. split; [done|].
      destruct (table_put cap es (Z.to_nat (pos cap h n)) k v (mk_entry k v0 SLOT_FULL))
        as [Hok' HM']; [done|split; [done|left; by eexists]|].
      split; [done|]. rewrite HM', HM. split; [done|]. simpl. rewrite Hsz.
      rewrite map_size_insert_Some; [done|]. rewrite <- HM. exists v0. apply contents_lookup; [apply Hok|].
      by eexists.
    + apply Hcont; [split; simpl; naive_solver|]. specialize (Hstep ltac:(done) ltac:(lia)).
      by rewrite bool_decide_true in Hstep.
  - apply Hcont; [split; simpl; naive_solver|]. specialize (Hstep ltac:(done) ltac:(lia)).
    by rewrite bool_decide_false in Hstep.
Qed.
End Insert.

Lemma insert_raw_spec map M k v :
  map_ok map M ->
  exists b map', _hashmap_insert_raw (Some map) k v = Some (b, Some map') /\ inserted map M k v (b, map').
Proof.
  intros (es & He & Hok & HM & Hsz). pose proof (tk_pow _ _ Hok) as Hp.
  pose proof (cap_range _ Hp). unfold _hashmap_insert_raw. rewrite He. test_lia. cbv zeta.
  rewrite mask_eq by done.
  destruct (insert_loop_spec map M es k v He Hok HM Hsz (Z.to_nat (capacity map)) 0 SIZE_MAX)
    as ([b map'] & Hr & Hi); try lia; [apply walked_0|left; split; [done|lia]|].
  rewrite pos_0 in Hr by by apply home_range. rewrite Hr. cbn [mbind option_bind]. by eauto.
Qed.

(** ** Capacities *)

Lemma power_of_two_inv n :
  0 <= n < SIZE_MOD -> _is_power_of_two n = true -> exists k, 0 <= k < size_bits /\ n = 2 ^ k.
Proof.
  intros Hn. unfold _is_power_of_two. intros Hp. bool_facts. rewrite wrap_small in * by lia.
  exists (Z.log2 n). split; [|apply land_pred_pow2; lia].
  split; [apply Z.log2_nonneg|]. apply Z.log2_lt_pow2; unfold SIZE_MOD in *; lia.
Qed.

(** [c] is the least power of two at or above [n], or the greatest one a [size_t] holds. *)
Definition rounded_to (n c : Z) : Prop :=
  (exists k, 0 <= k < size_bits /\ c = 2 ^ k) /\ (n <= c < 2 * n \/ (c = 2 ^ (size_bits - 1) /\ c < n)).

Lemma round_up_loop_spec n fuel k :
  0 <= k < size_bits -> 2 ^ k < 2 * n -> size_bits - k < Z.of_nat fuel ->
  exists c, round_up_loop fuel n (2 ^ k) = Some c /\ rounded_to n c.
Proof.
  revert k. induction fuel as [|fuel IH]; intros k Hk Hlt Hf; [lia|]. cbn [round_up_loop].
  assert (0 < 2 ^ k) by (apply Z.pow_pos_nonneg; lia).
  case_test; [|eexists; split; [done|]; split; [by exists k|lia]].
  rewrite Z.shiftl_mul_pow2, Z.pow_1_r by lia.
  replace (2 ^ k * 2) with (2 ^ (k + 1)) by (rewrite Z.pow_add_r; lia).
  destruct (decide (k + 1 = size_bits)) as [He|Hne].
  - rewrite He. unfold wrap, SIZE_MOD. rewrite Z.mod_same by (apply Z.pow_nonzero; pose proof size_bits_pos; lia).
    test_lia. eexists. split; [done|]. split; [by exists k|]. right.
    replace (size_bits - 1) with k by lia. lia.
  - rewrite wrap_small; [|split; [apply Z.pow_nonneg; lia|apply Z.pow_lt_mono_r; lia]].
    rewrite (Z.pow_add_r 2 k 1) by lia. rewrite Z.pow_1_r. test_lia.
    replace (2 ^ k * 2) with (2 ^ (k + 1)) by (rewrite Z.pow_add_r; lia).
    apply IH; [lia| |lia]. rewrite Z.pow_add_r; lia.
Qed.

Lemma round_capacity n :
  0 < n < SIZE_MOD ->
  exists c, (if negb (_is_power_of_two n) then _next_power_of_two n else Some n) = Some c /\ rounded_to n c.
Proof.
  intros Hn. destruct (_is_power_of_two n) eqn:Hp; cbn [negb].
  - exists n. split; [done|]. split; [apply power_of_two_inv; [lia|done]|lia].
  - unfold _next_power_of_two. case_test.
    + exists 1. split; [done|]. pose proof size_bits_pos. split; [exists 0; lia|lia].
    + apply (round_up_loop_spec n 65 0); pose proof size_bits_pos; lia.
Qed.

Lemma rounded_to_pow n c : (exists k, 0 <= k < size_bits /\ n = 2 ^ k) -> rounded_to n c -> c = n.
Proof.
  intros (k & Hk & ->) [(j & Hj & ->) [Hr|Hr]].
  - destruct (decide (j = k)) as [->|Hne]; [done|]. exfalso.
    destruct (Z_lt_le_dec j k) as [Hlt|Hle]; [apply (Z.pow_lt_mono_r 2) in Hlt; lia|].
    assert (Hm : 2 ^ (k + 1) <= 2 ^ j) by (apply Z.pow_le_mono_r; lia).
    rewrite Z.pow_add_r in Hm by lia. lia.
  - assert (2 ^ k <= 2 ^ (size_bits - 1)) by (apply Z.pow_le_mono_r; lia). lia.
Qed.

(** A capacity that [calloc] answered is not the saturated one. *)
Lemma calloc_rounded malloc n c :
  0 < n -> rounded_to n c -> calloc malloc c entry_bytes = true ->
  n <= c < 2 * n /\ c * entry_bytes <= SIZE_MAX.
Proof.
  intros Hn [(k & Hk & Hc) Hr] Hal.
  assert (0 < c) by (rewrite Hc; apply Z.pow_pos_nonneg; lia).
  assert (Hb : 20 <= entry_bytes) by (destruct entry_bytes_ok as [-> | ->]; lia).
  apply calloc_fits in Hal as [_ Hfit]; [|lia|lia]. split; [|done].
  destruct Hr as [?|[Hs _]]; [done|]. exfalso.
  assert (SIZE_MOD = 2 * c).
  { rewrite Hs. unfold SIZE_MOD. rewrite <- Z.pow_succ_r by lia. f_equal. lia. }
  unfold SIZE_MAX in *. nia.
Qed.

(** ** Fresh tables and rehashing *)

Lemma omap_full_replicate n : omap full (replicate n zero_entry) = [].
Proof. by induction n. Qed.

Lemma fresh_table c :
  (exists k, 0 <= k < size_bits /\ c = 2 ^ k) -> c * entry_bytes <= SIZE_MAX ->
  map_ok (mk_map 0 c (Some (replicate (Z.to_nat c) zero_entry))) ∅.
Proof.
  intros Hp Hfit. pose proof (cap_range _ Hp).
  assert (Hno : forall i k v, ~ full_at (replicate (Z.to_nat c) zero_entry) i k v).
  { intros i k v Hi. apply lookup_replicate in Hi as [? _]. done. }
  eexists. split; [done|]. cbn [capacity size]. split_and!; [|by unfold contents; rewrite omap_full_replicate|done].
  constructor; try done.
  - unfold zlen. rewrite length_replicate. lia.
  - intros i j k v v' Hi. by destruct (Hno i k v).
  - intros i k v j Hi. by destruct (Hno i k v).
Qed.

Lemma contents_cons_full e es :
  state e = SLOT_FULL -> contents (e :: es) = <[key e := value e]> (contents es).
Proof. intros Hs. unfold contents. rewrite full_cons. unfold full at 1. by rewrite decide_True. Qed.

Lemma contents_cons_free e es : state e <> SLOT_FULL -> contents (e :: es) = contents es.
Proof. intros Hs. unfold contents. rewrite full_cons. unfold full at 1. by rewrite decide_False. Qed.

Lemma size_insert_le (M : gmap Z Z) k v : (base.size (<[k := v]> M) <= S (base.size M))%nat.
Proof. rewrite map_size_insert. case_match; simpl; lia. Qed.

Lemma rehash_loop_spec cells grown M :
  unique_keys cells -> map_ok grown M ->
  Z.of_nat (base.size M + length (omap full cells)) <= capacity grown ->
  exists grown', rehash_loop cells grown = Some (true, grown') /\
    map_ok grown' (contents cells ∪ M) /\ capacity grown' = capacity grown.
Proof.
  revert grown M. induction cells as [|e cells IH]; intros grown M Hu Hok Hroom; cbn [rehash_loop].
  { exists grown. split; [done|]. split; [|done]. unfold contents. simpl. by rewrite map_empty_union. }
  apply unique_keys_cons in Hu as [Hu Ha]. rewrite full_cons in Hroom. unfold full in Hroom at 1.
  case_bool_decide as Hs; cbn [negb].
  - rewrite decide_True in Hroom by done. rewrite length_cons in Hroom.
    destruct (insert_raw_spec grown M (key e) (value e) Hok) as (b & g & Hr & Hcap & Hins).
    rewrite Hr. cbn [mbind option_bind]. cbn [fst snd] in *. destruct b; [|lia].
    pose proof (size_insert_le M (key e) (value e)).
    destruct (IH g _ Hu Hins) as (g' & Hg & Hok' & Hcap'); [lia|].
    exists g'. rewrite Hg. split; [done|]. split; [|lia].
    rewrite contents_cons_full by done.
    rewrite <- insert_union_l, insert_union_r; [done|].
    apply contents_absent; [done|]. by apply Ha.
  - rewrite decide_False in Hroom by done. rewrite contents_cons_free by done. by apply IH.
Qed.

(** Rehashing keeps the contents; it fails only when [calloc] refuses the new table. *)
Lemma rehash_spec malloc map M n :
  map_ok map M -> 0 < n < SIZE_MOD -> Z.of_nat (base.size M) <= n ->
  exists c b map', rounded_to n c /\ _hashmap_rehash malloc map n = Some (b, map') /\
    b = calloc malloc c entry_bytes /\
    if b : bool then map_ok map' M /\ capacity map' = c /\ n <= c < 2 * n else map' = map.
Proof.
  intros Hok Hn Hroom. destruct (round_capacity n Hn) as (c & Hc & Hr).
  exists c. unfold _hashmap_rehash. rewrite Hc. cbn [mbind option_bind].
  pose proof (cap_range c (proj1 Hr)). test_lia.
  destruct (calloc malloc c entry_bytes) eqn:Hal; cbn [negb]; [|by eexists _, _].
  destruct (calloc_rounded malloc n c) as [Hcn Hfit]; [lia|done|done|].
  destruct Hok as (es & He & Htab & HM & Hsz). rewrite He.
  pose proof (cap_range _ (tk_pow _ _ Htab)). test_lia. cbn [mbind option_bind].
  pose proof (tk_len _ _ Htab) as Hl. rewrite <- Hl, mread_ok by lia.
  rewrite drop_0, take_ge by (unfold zlen; lia). cbn [mbind option_bind].
  destruct (rehash_loop_spec es (mk_map 0 c (Some (replicate (Z.to_nat c) zero_entry))) ∅)
    as (g & Hg & Hok' & Hcap); [apply Htab|apply fresh_table; [apply Hr|done]| |].
  { rewrite map_size_empty. rewrite <- contents_size by apply Htab. rewrite HM. cbn [capacity]. lia. }
  rewrite Hg. cbn [mbind option_bind]. eexists _, _. split_and!; [done..|].
  rewrite map_union_empty, HM in Hok'. done.
Qed.

(** ** The operations *)

Lemma create_sized_spec malloc block n :
  0 <= n < SIZE_MOD ->
  exists r, hashmap_create_sized malloc block n = Some r /\
    forall map, r = Some map -> map_ok map ∅ /\ n <= capacity map.
Proof.
  intros Hn. unfold hashmap_create_sized.
  set (n' := if n =? 0 then HASHMAP_INITIAL_CAPACITY else n).
  assert (Hn' : 0 < n' < SIZE_MOD /\ n <= n').
  { unfold n', HASHMAP_INITIAL_CAPACITY. pose proof SIZE_MOD_ge. case_test; lia. }
  destruct (round_capacity n') as (c & Hc & Hr); [lia|]. rewrite Hc. cbn [mbind option_bind].
  destruct block; cbn [negb]; [|by eexists].
  destruct (calloc malloc c entry_bytes) eqn:Hal; cbn [negb]; [|by eexists].
  eexists. split; [done|]. intros map [= <-].
  destruct (calloc_rounded malloc n' c) as [Hcn Hfit]; [lia|done|done|].
  split; [|simpl; lia]. apply fresh_table; [apply Hr|done].
Qed.

Lemma update_spec map M k v :
  map_ok map M ->
  exists b map', _hashmap_update map k v = Some (b, map') /\
    if b : bool then is_Some (M !! k) /\ map_ok map' (<[k := v]> M) else M !! k = None /\ map' = map.
Proof.
  intros Hok. destruct (probe_spec map M k Hok) as (r & Hr & Hpost).
  unfold _hashmap_update. rewrite Hr. cbn [mbind option_bind].
  destruct r as [i|]; [|by eexists _, _].
  destruct Hpost as (es & v0 & He & Hi & Hf & HMk). rewrite He. cbn [mbind option_bind].
  rewrite mload_ok by done. rewrite Hf. cbn [mbind option_bind key state].
  rewrite mstore_ok by done. cbn [mbind option_bind]. eexists _, _. split; [done|].
  split; [done|]. destruct Hok as (es' & He' & Htab & HM & Hsz). simplify_eq.
  eexists. split; [done|]. cbn [capacity size].
  destruct (table_put _ _ _ k v _ Htab (conj Hf (or_introl (ex_intro _ v0 eq_refl)))) as [Hok' HM'].
  split; [done|]. split; [done|]. rewrite Hsz. by rewrite map_size_insert_Some.
Qed.

Lemma get_spec map M k : map_ok map M -> hashmap_get (Some map) k = Some (bool_decide (is_Some (M !! k)), M !! k).
Proof.
  intros Hok. destruct (probe_spec map M k Hok) as (r & Hr & Hpost).
  unfold hashmap_get. rewrite Hr. cbn [mbind option_bind].
  destruct r as [i|]; [|by rewrite Hpost].
  destruct Hpost as (es & v0 & He & Hi & Hf & HMk). rewrite He. cbn [mbind option_bind].
  rewrite mload_ok by done. rewrite Hf, HMk. done.
Qed.

Lemma remove_spec map M k :
  map_ok map M ->
  exists map', hashmap_remove map k = Some (bool_decide (is_Some (M !! k)), map') /\
    map_ok map' (delete k M) /\ capacity map' = capacity map.
Proof.
  intros Hok. destruct (probe_spec map M k Hok) as (r & Hr & Hpost).
  unfold hashmap_remove. rewrite Hr. cbn [mbind option_bind].
  destruct r as [i|]; [|rewrite Hpost, delete_id by done; by eexists].
  destruct Hpost as (es & v0 & He & Hi & Hf & HMk). rewrite He, HMk. cbn [mbind option_bind].
  rewrite mstore_ok by done. cbn [mbind option_bind]. eexists. split; [done|]. split; [|done].
  assert (base.size M <> 0%nat) by (apply (map_size_ne_0_lookup_2 M k); by exists v0).
  destruct Hok as (es' & He' & Htab & HM & Hsz). simplify_eq.
  eexists. split; [done|]. cbn [capacity size].
  destruct (table_drop _ _ _ k v0 Htab Hf) as [Hok' HM'].
  split; [done|]. split; [done|]. rewrite map_size_delete, HMk, Hsz.
  case_test; simpl; lia.
Qed.

Lemma clear_spec map M : map_ok map M -> exists map', hashmap_clear map = Some map' /\ map_ok map' ∅.
Proof.
  intros (es & He & Htab & HM & Hsz). unfold hashmap_clear. rewrite He.
  pose proof (cap_range _ (tk_pow _ _ Htab)). test_lia.
  pose proof (tk_len _ _ Htab) as Hl.
  rewrite mwrite_ok by (unfold zlen in *; rewrite ?length_replicate; lia). cbn [mbind option_bind].
  eexists. split; [done|]. rewrite length_replicate, drop_ge, app_nil_r by (unfold zlen in *; lia).
  apply fresh_table; apply Htab.
Qed.

Lemma set_spec malloc map M k v :
  map_ok map M ->
  exists b map', hashmap_set malloc map k v = Some (b, map') /\
    b = bool_decide (is_Some (M !! k)) || (size map + 1 <=? capacity map * 7 / 10)
        || calloc malloc (2 * capacity map) entry_bytes /\
    if b : bool then map_ok map' (<[k := v]> M) else map' = map.
Proof.
  intros Hok. pose proof Hok as (es & He & Htab & HM & Hsz). unfold hashmap_set. rewrite He.
  pose proof (cap_range _ (tk_pow _ _ Htab)) as Hcr. pose proof (tk_fits _ _ Htab) as Hfit.
  pose proof (contents_bound _ _ Htab) as Hbound. rewrite HM in Hbound.
  assert (Hb : 20 <= entry_bytes) by (destruct entry_bytes_ok as [-> | ->]; lia).
  assert (Hsmall : capacity map * 20 < SIZE_MOD) by (unfold SIZE_MAX in *; nia).
  rewrite bool_decide_false by done. test_lia. unfold set_in_table.
  destruct (update_spec map M k v Hok) as (u & map1 & Hu & Hpost). rewrite Hu. cbn [mbind option_bind].
  destruct u.
  { destruct Hpost as [Hsome Hok1]. rewrite bool_decide_true by done. by eexists _, _. }
  destruct Hpost as [HN ->]. rewrite HN. rewrite (bool_decide_false (is_Some None)) by by intros [? ?].
  cbn [orb]. unfold HASHMAP_LOAD_NUM, HASHMAP_LOAD_DEN. rewrite !wrap_small by lia.
  pose proof (Z.div_lt_upper_bound (capacity map * 7) 10 (capacity map) ltac:(lia) ltac:(lia)) as Hlim.
  rewrite Z.leb_antisym. case_test; cbn [negb orb mbind option_bind].
  - unfold double_or_initial. test_lia. rewrite Z.shiftl_mul_pow2, Z.pow_1_r, wrap_small by lia.
    destruct (rehash_spec malloc map M (capacity map * 2) Hok) as (c & b & map2 & Hrnd & Hre & Hbc & Hgrown);
      [lia|lia|].
    assert (Hpow : exists n, 0 <= n < size_bits /\ capacity map * 2 = 2 ^ n).
    { destruct (tk_pow _ _ Htab) as (n & Hn & Hcap). exists (n + 1).
      assert (Hm : 2 ^ (n + 1) = capacity map * 2) by (rewrite Hcap, Z.pow_add_r; lia).
      split; [|done]. split; [lia|]. apply (Z.pow_lt_mono_r_iff 2); [lia..|].
      unfold SIZE_MOD in Hsmall. lia. }
    rewrite (rounded_to_pow _ _ Hpow Hrnd) in *. rewrite Hre. cbn [mbind option_bind].
    rewrite (Z.mul_comm 2). rewrite <- Hbc. destruct b; cbn [negb]; [|by eexists _, _].
    destruct Hgrown as (Hok2 & Hcap2 & _).
    destruct (insert_raw_spec map2 M k v Hok2) as (b & map3 & Hi & Hc3 & Hins). cbn [fst snd] in *.
    rewrite Hi. cbn [mbind option_bind]. destruct b; [by eexists _, _|lia].
  - destruct (insert_raw_spec map M k v Hok) as (b & map3 & Hi & Hc3 & Hins). cbn [fst snd] in *.
    rewrite Hi. cbn [mbind option_bind]. destruct b; [by eexists _, _|lia].
Qed.

Lemma map_reserve_spec malloc map M n :
  map_ok map M -> 0 <= n < SIZE_MOD ->
  exists b map', hashmap_reserve malloc map n = Some (b, map') /\
    if b : bool then map_ok map' M /\ n <= capacity map' else map' = map.
Proof.
  intros Hok Hn. pose proof Hok as (es & He & Htab & HM & Hsz). unfold hashmap_reserve.
  pose proof (cap_range _ (tk_pow _ _ Htab)) as Hcr. pose proof (tk_fits _ _ Htab) as Hfit.
  pose proof (contents_bound _ _ Htab) as Hbound. rewrite HM in Hbound.
  assert (Hb : 20 <= entry_bytes) by (destruct entry_bytes_ok as [-> | ->]; lia).
  assert (Hsmall : capacity map * 20 < SIZE_MOD) by (unfold SIZE_MAX in *; nia).
  pose proof SIZE_MOD_ge. set (m := if 0 <? size map then _ else n).
  assert (Hm : n <= m < SIZE_MOD).
  { unfold m, HASHMAP_LOAD_DEN, HASHMAP_LOAD_NUM. case_test; [|lia].
    rewrite (wrap_small (size map * 10)) by lia. rewrite (wrap_small (size map * 10 + 7)) by lia.
    rewrite wrap_small by lia.
    pose proof (Z.div_le_upper_bound (size map * 10 + 7 - 1) 7 (size map * 10 + 6)).
    case_test; lia. }
  case_test; [eexists _, _; split; [done|]; split; [done|lia]|].
  destruct (rehash_spec malloc map M m Hok) as (c & b & map2 & Hrnd & Hre & Hbc & Hgrown); [lia|lia|].
  exists b, map2. split; [done|]. destruct b; [|done]. destruct Hgrown as (Hok2 & Hcap & Hge).
  split; [done|lia].
Qed.

(** ** Histories against the abstract map *)

Inductive op :=
| OpSet (malloc : Z -> bool) (k v : Z)
| OpGet (k : Z)
| OpRemove (k : Z)
| OpClear
| OpReserve (malloc : Z -> bool) (n : Z).

Inductive answer := ABool (b : bool) | AGet (b : bool) (value_out : ptr Z) | AUnit.

Definition op_valid (o : op) : Prop :=
  match o with OpReserve _ n => 0 <= n < SIZE_MOD | _ => True end.

Definition exec map (o : op) : option (answer * hashmap_t) :=
  match o with
  | OpSet malloc k v => '(b, map) ← hashmap_set malloc map k v; Some (ABool b, map)
  | OpGet k => '(b, out) ← hashmap_get (Some map) k; Some (AGet b out, map)
  | OpRemove k => '(b, map) ← hashmap_remove map k; Some (ABool b, map)
  | OpClear => map ← hashmap_clear map; Some (AUnit, map)
  | OpReserve malloc n => '(b, map) ← hashmap_reserve malloc map n; Some (ABool b, map)
  end.

(** What a map promises: only storing a new key may fail, and then nothing changes. *)
Definition spec_step (M : gmap Z Z) (o : op) (a : answer) (M' : gmap Z Z) : Prop :=
  match o with
  | OpSet _ k v => (a = ABool true /\ M' = <[k := v]> M) \/ (a = ABool false /\ M !! k = None /\ M' = M)
  | OpGet k => a = AGet (bool_decide (is_Some (M !! k))) (M !! k) /\ M' = M
  | OpRemove k => a = ABool (bool_decide (is_Some (M !! k))) /\ M' = delete k M
  | OpClear => a = AUnit /\ M' = ∅
  | OpReserve _ _ => (exists b, a = ABool b) /\ M' = M
  end.

Fixpoint exec_all map (ops : list op) : option (list answer * hashmap_t) :=
  match ops with
  | [] => Some ([], map)
  | o :: ops => '(a, map) ← exec map o; '(l, map) ← exec_all map ops; Some (a :: l, map)
  end.

Inductive spec_run : gmap Z Z -> list op -> list answer -> gmap Z Z -> Prop :=
| spec_nil M : spec_run M [] [] M
| spec_cons M o a M' ops l M'' :
    spec_step M o a M' -> spec_run M' ops l M'' -> spec_run M (o :: ops) (a :: l) M''.

Lemma exec_spec map M o :
  map_ok map M -> op_valid o ->
  exists a map' M', exec map o = Some (a, map') /\ spec_step M o a M' /\ map_ok map' M'.
Proof.
  intros Hok Hv. destruct o as [malloc k v|k|k| |malloc n]; cbn [exec spec_step].
  - destruct (set_spec malloc map M k v Hok) as (b & map' & Hs & Hb & Hpost). rewrite Hs.
    cbn [mbind option_bind]. destruct b; [by eexists _, _, _; eauto|]. subst map'.
    eexists _, _, _. split; [done|]. split; [|done]. right.
    symmetry in Hb. bool_facts. case_bool_decide as Hk; [done|]. by rewrite eq_None_not_Some.
  - rewrite (get_spec map M k Hok). cbn [mbind option_bind]. by eexists _, _, _.
  - destruct (remove_spec map M k Hok) as (map' & Hr & Hok' & _). rewrite Hr.
    cbn [mbind option_bind]. by eexists _, _, _.
  - destruct (clear_spec map M Hok) as (map' & Hc & Hok'). rewrite Hc.
    cbn [mbind option_bind]. by eexists _, _, _.
  - destruct (map_reserve_spec malloc map M n Hok Hv) as (b & map' & Hr & Hpost). rewrite Hr.
    cbn [mbind option_bind]. eexists _, _, M. split; [done|]. split; [by eauto|].
    destruct b; [apply Hpost|by subst].
Qed.

Lemma exec_all_spec ops map M :
  map_ok map M -> Forall op_valid ops ->
  exists l map' M', exec_all map ops = Some (l, map') /\ spec_run M ops l M' /\ map_ok map' M'.
Proof.
  revert map M. induction ops as [|o ops IH]; intros map M Hok Hv.
  { exists [], map, M. split; [done|]. split; [constructor|done]. }
  apply Forall_cons in Hv as [Ho Hv].
  destruct (exec_spec map M o Hok Ho) as (a & map1 & M1 & He & Hs & Hok1).
  destruct (IH map1 M1 Hok1 Hv) as (l & map2 & M2 & He2 & Hs2 & Hok2).
  exists (a :: l), map2, M2. cbn [exec_all]. rewrite He. cbn [mbind option_bind]. rewrite He2.
  split; [done|]. split; [by econstructor|done].
Qed.

(** C31: The table refines a finite map.  From a freshly created table, every history of set, get,
    remove, clear and reserve terminates without leaving the array and answers as a finite map
    would, whatever collisions, tombstones and rehashes occur and whenever allocation fails; [size]
    is the number of keys. *)
Theorem hashmap_refines_map malloc block n map ops :
  0 <= n < SIZE_MOD -> hashmap_create_sized malloc block n = Some (Some map) -> Forall op_valid ops ->
  exists answers map' M,
    exec_all map ops = Some (answers, map') /\ spec_run ∅ ops answers M /\
    size map' = Z.of_nat (base.size M) /\
    forall k, hashmap_get (Some map') k = Some (bool_decide (is_Some (M !! k)), M !! k).
Proof.
  intros Hn Hc Hv. destruct (create_sized_spec malloc block n Hn) as (r & Hr & Hpost).
  rewrite Hc in Hr. injection Hr as <-. destruct (Hpost map eq_refl) as [Hok _].
  destruct (exec_all_spec ops map ∅ Hok Hv) as (l & map' & M & He & Hs & Hok').
  exists l, map', M. split_and!; [done|done|by destruct Hok' as (? & _ & _ & _ & ?)|].
  intros k. by apply get_spec.
Qed.

(** Storing succeeds exactly when the key is present, or the load factor of seven tenths leaves
    room, or the table of twice the capacity can be allocated; a failed store changes nothing. *)
Theorem hashmap_set_exact malloc map M k v :
  map_ok map M ->
  exists b map', hashmap_set malloc map k v = Some (b, map') /\
    (b = true <-> is_Some (M !! k) \/ size map + 1 <= capacity map * 7 / 10 \/
                  calloc malloc (2 * capacity map) entry_bytes = true) /\
    (b = true -> forall k', hashmap_get (Some map') k' =
       if decide (k' = k) then Some (true, Some v) else hashmap_get (Some map) k') /\
    (b = false -> map' = map).
Proof.
  intros Hok. destruct (set_spec malloc map M k v Hok) as (b & map' & Hs & Hb & Hpost).
  exists b, map'. split; [done|]. split_and!.
  - rewrite Hb, !orb_true_iff, bool_decide_eq_true, Z.leb_le. tauto.
  - intros -> k'. rewrite (get_spec _ _ _ Hpost), (get_spec _ _ _ Hok).
    case_decide as Hk; [subst; by rewrite lookup_insert_eq|by rewrite lookup_insert_ne].
  - by intros ->.
Qed.

End Probing.

(** ** Witnesses *)

Definition demo_ops : list op :=
  [OpSet (fun _ => true) 1 10; OpSet (fun _ => false) 4 40; OpSet (fun _ => true) 2 20;
   OpSet (fun _ => true) 3 30; OpRemove 2; OpGet 1; OpGet 2; OpReserve (fun _ => true) 100; OpGet 3; OpClear].

Definition demo_map : hashmap_t := mk_map 0 2 (Some [zero_entry; zero_entry]).

#[local] Existing Instance arch64.

Lemma hashmap_refines_map_witness :
  exists answers map' M,
    exec_all demo_map demo_ops = Some (answers, map') /\ spec_run ∅ demo_ops answers M /\
    size map' = Z.of_nat (base.size M) /\
    forall k, hashmap_get (Some map') k = Some (bool_decide (is_Some (M !! k)), M !! k).
Proof.
  apply (hashmap_refines_map (fun _ => true) true 2 demo_map demo_ops).
  - split; [lia|]. reflexivity.
  - vm_compute. reflexivity.
  - repeat constructor; vm_compute; discriminate.
Defined.

Example demo_answers :
  fst <$> exec_all demo_map demo_ops =
  Some [ABool true; ABool false; ABool true; ABool true; ABool true; AGet true (Some 10);
        AGet false None; ABool true; AGet true (Some 30); AUnit].
Proof. vm_compute. reflexivity. Qed.

Lemma hashmap_set_exact_witness :
  map_ok demo_map ∅ /\
  exists b map', hashmap_set (fun _ => false) demo_map 5 6 = Some (b, map') /\
    (b = true <-> is_Some ((∅ : gmap Z Z) !! 5) \/ size demo_map + 1 <= capacity demo_map * 7 / 10 \/
                  calloc (fun _ => false) (2 * capacity demo_map) entry_bytes = true) /\
    (b = true -> forall k', hashmap_get (Some map') k' =
       if decide (k' = 5) then Some (true, Some 6) else hashmap_get (Some demo_map) k') /\
    (b = false -> map' = demo_map).
Proof.
  assert (Hok : map_ok demo_map ∅).
  { apply (fresh_table 2); [exists 1; vm_compute; split; [split; discriminate || reflexivity|reflexivity]|].
    vm_compute. discriminate. }
  split; [exact Hok|]. apply (hashmap_set_exact (fun _ => false) demo_map ∅ 5 6 Hok).
Defined.

End Hashmap.
