(* ===== verification/StrMap.v ===== *)
(** * String-keyed maps: second half of [libs/data/hashmap.c]

    A [hashmap_str_t] is a [Hashmap] from the hash of a key to the first node of a linked bucket.
    The nodes live in a store indexed by their addresses, so that freeing, sharing and the in-place
    updates of the code are explicit.  A key is kept by reference; its bytes are assumed not to
    change while it is in the map, as the callers arrange. *)

From S2P Require Import Prelude Memory CString Hashmap.
From stdpp Require Import gmap fin_maps.
Open Scope Z_scope.

Module StrMap.
Import Hashmap.

Record hashmap_str_entry_t := mk_node { nkey : text; nvalue : Z; nnext : ptr Z }.

Record hashmap_str_t := mk_str {
  index : ptr hashmap_t;
  ssize : Z;
  hash_fn : ptr (text -> Z);
  cmp_fn : ptr (text -> text -> bool)
}.

(** The live nodes, by address. *)
Abbreviation node_store := (gmap Z hashmap_str_entry_t).

(** The loop of [hashmap_hash_bytes]. *)
Fixpoint hash_loop (bytes : list Z) (hash : Z) : Z :=
  match bytes with
  | [] => hash
  | b :: bytes => hash_loop bytes (u64_wrap (Z.lxor hash b * 1099511628211))
  end.

Definition hashmap_hash_bytes (data : ptr (list Z)) (len : Z) : Z :=
  match data with
  | None => if negb (len =? 0) then 0 else 1469598103934665603
  | Some bytes => hash_loop (take (Z.to_nat len) bytes) 1469598103934665603
  end.

Definition hashmap_hash_str (s : ptr text) : Z :=
  match s with None => 0 | Some s => hashmap_hash_bytes (Some s) (strlen s) end.

Definition _str_hash_default (s : text) : Z := hashmap_hash_str (Some s).
Definition _str_cmp_default (left right : text) : bool := strcmp left right =? 0.

Section Defs.
Context `{Arch} `{EntryLayout}.
Implicit Types (ns : node_store) (map : hashmap_str_t) (malloc : Z -> bool).

(** [(hashmap_str_entry_t * )(uintptr_t)encoded] *)
Definition decode_ptr (encoded : Z) : ptr Z :=
  if wrap encoded =? 0 then None else Some (wrap encoded).

Definition str_bucket_head map (hash : Z) : option (ptr Z) :=
  match index map with
  | None => Some None
  | Some ix =>
      '(b, out) ← hashmap_get (Some ix) hash;
      if negb b then Some None else encoded ← out; Some (decode_ptr encoded)
  end.

Definition set_str_index map (ix : hashmap_t) : hashmap_str_t :=
  mk_str (Some ix) (ssize map) (hash_fn map) (cmp_fn map).
Definition set_ssize map (n : Z) : hashmap_str_t := mk_str (index map) n (hash_fn map) (cmp_fn map).

Definition str_bucket_store malloc map (hash : Z) (head : ptr Z) : option (bool * hashmap_str_t) :=
  match index map with
  | None => Some (false, map)
  | Some ix =>
      match head with
      | None => '(_, ix) ← hashmap_remove ix hash; Some (true, set_str_index map ix)
      | Some a => '(b, ix) ← hashmap_set malloc ix hash a; Some (b, set_str_index map ix)
      end
  end.

(** [ix_block], [malloc]: the answers of the allocations of the two tables. *)
Definition hashmap_str_create_with malloc (block ix_block : bool) (hf : ptr (text -> Z))
  (cf : ptr (text -> text -> bool)) : option (ptr hashmap_str_t) :=
  if negb block then Some None
  else
    ix ← hashmap_create malloc ix_block;
    match ix with
    | None => Some None
    | Some ix =>
        Some (Some (mk_str (Some ix) 0
          (Some match hf with Some f => f | None => _str_hash_default end)
          (Some match cf with Some f => f | None => _str_cmp_default end)))
    end.

Definition hashmap_str_create malloc (block ix_block : bool) : option (ptr hashmap_str_t) :=
  hashmap_str_create_with malloc block ix_block None None.

Definition hashmap_str_size (map : ptr hashmap_str_t) : Z :=
  match map with Some map => ssize map | None => 0 end.

(** The walk along a bucket: the node with the key and the one before it. *)
Fixpoint bucket_find (fuel : nat) ns (cmp : text -> text -> bool) (key : text) (prev node : ptr Z)
  : option (ptr (ptr Z * Z)) :=
  match node with
  | None => Some None
  | Some a =>
      match fuel with
      | O => None
      | S fuel =>
          n ← ns !! a;
          if cmp (nkey n) key then Some (Some (prev, a))
          else bucket_find fuel ns cmp key (Some a) (nnext n)
      end
  end.

(** The hash of the key and the walk along its bucket; a bucket has at most all nodes. *)
Definition lookup_node ns map (hf : text -> Z) (cf : text -> text -> bool) (key : text)
  : option (ptr Z * ptr (ptr Z * Z)) :=
  head ← str_bucket_head map (hf key);
  r ← bucket_find (S (base.size ns)) ns cf key None head;
  Some (head, r).

(** [block]: the address [calloc] answers for a new node. *)
Definition hashmap_str_set malloc ns map (key : ptr text) (value : Z) (block : ptr Z)
  : option (bool * (node_store * hashmap_str_t)) :=
  match index map, cmp_fn map, hash_fn map, key with
  | Some _, Some cf, Some hf, Some key =>
      '(head, r) ← lookup_node ns map hf cf key;
      match r with
      | Some (_, a) =>
          n ← ns !! a;
          Some (true, (<[a := mk_node (nkey n) value (nnext n)]> ns, map))
      | None =>
          match block with
          | None => Some (false, (ns, map))
          | Some a =>
              let ns' := <[a := mk_node key value head]> ns in
              '(stored, map) ← str_bucket_store malloc map (hf key) (Some a);
              if negb stored then Some (false, (delete a ns', map))
              else Some (true, (ns', set_ssize map (wrap (ssize map + 1))))
          end
      end
  | _, _, _, _ => Some (false, (ns, map))
  end.

Definition hashmap_str_get ns map (key : ptr text) : option (bool * ptr Z) :=
  match index map, cmp_fn map, hash_fn map, key with
  | Some _, Some cf, Some hf, Some key =>
      '(_, r) ← lookup_node ns map hf cf key;
      match r with
      | Some (_, a) => n ← ns !! a; Some (true, Some (nvalue n))
      | None => Some (false, None)
      end
  | _, _, _, _ => Some (false, None)
  end.

Definition hashmap_str_remove malloc ns map (key : ptr text)
  : option (bool * (node_store * hashmap_str_t)) :=
  match index map, cmp_fn map, hash_fn map, key with
  | Some _, Some cf, Some hf, Some key =>
      '(_, r) ← lookup_node ns map hf cf key;
      match r with
      | None => Some (false, (ns, map))
      | Some (prev, a) =>
          n ← ns !! a;
          '(ok, (ns, map)) ←
            match prev with
            | None => '(b, map) ← str_bucket_store malloc map (hf key) (nnext n); Some (b, (ns, map))
            | Some p =>
                m ← ns !! p;
                Some (true, (<[p := mk_node (nkey m) (nvalue m) (nnext n)]> ns, map))
            end;
          if negb ok then Some (false, (ns, map))
          else Some (true, (delete a ns,
                 if ssize map =? 0 then map else set_ssize map (ssize map - 1)))
      end
  | _, _, _, _ => Some (false, (ns, map))
  end.

(** [while (node) { next = node->next; free(node); node = next; }] *)
Fixpoint free_chain (fuel : nat) ns (node : ptr Z) : option node_store :=
  match node with
  | None => Some ns
  | Some a =>
      match fuel with
      | O => None
      | S fuel => n ← ns !! a; free_chain fuel (delete a ns) (nnext n)
      end
  end.

Fixpoint clear_loop (cells : list hashmap_entry_t) ns : option node_store :=
  match cells with
  | [] => Some ns
  | entry :: cells =>
      if negb (bool_decide (state entry = SLOT_FULL)) then clear_loop cells ns
      else
        ns ← free_chain (S (base.size ns)) ns (decode_ptr (value entry));
        clear_loop cells ns
  end.

Definition hashmap_str_clear ns map : option (node_store * hashmap_str_t) :=
  match index map with
  | None => Some (ns, map)
  | Some ix =>
      cells ← (if capacity ix =? 0 then Some [] else es ← entries ix; mread es 0 (capacity ix));
      ns ← clear_loop cells ns;
      ix ← hashmap_clear ix;
      Some (ns, set_ssize (set_str_index map ix) 0)
  end.

End Defs.

(** ** Chains of nodes *)

Section Chains.
Implicit Types (ns : node_store) (l : list Z) (p : ptr Z).

Fixpoint chain ns p l : Prop :=
  match l with
  | [] => p = None
  | a :: l => p = Some a /\ exists n, ns !! a = Some n /\ chain ns (nnext n) l
  end.

Lemma chain_insert_out ns p l a n : a ∉ l -> chain ns p l -> chain (<[a := n]> ns) p l.
Proof.
  revert p. induction l as [|b l IH]; intros p Ha; [done|]. apply not_elem_of_cons in Ha as [Hne Ha].
  intros (-> & m & Hm & Hc). split; [done|]. exists m. rewrite lookup_insert_ne by done. eauto.
Qed.

Lemma chain_delete_out ns p l a : a ∉ l -> chain ns p l -> chain (delete a ns) p l.
Proof.
  revert p. induction l as [|b l IH]; intros p Ha; [done|]. apply not_elem_of_cons in Ha as [Hne Ha].
  intros (-> & m & Hm & Hc). split; [done|]. exists m. rewrite lookup_delete_ne by done. eauto.
Qed.

(** Changing a node's value keeps every chain. *)
Lemma chain_update ns p l a n n' :
  ns !! a = Some n -> nnext n' = nnext n -> chain ns p l -> chain (<[a := n']> ns) p l.
Proof.
  intros Ha Hn. revert p. induction l as [|b l IH]; intros p; [done|].
  intros (-> & m & Hm & Hc). split; [done|]. destruct (decide (b = a)) as [->|Hne].
  - exists n'. rewrite lookup_insert_eq. simplify_eq. rewrite Hn. eauto.
  - exists m. rewrite lookup_insert_ne by done. eauto.
Qed.

Lemma chain_nodes ns p l a : chain ns p l -> a ∈ l -> exists n, ns !! a = Some n.
Proof.
  revert p. induction l as [|b l IH]; intros p; [by intros _ ?%not_elem_of_nil|].
  intros (-> & m & Hm & Hc) [->|Ha]%elem_of_cons; [by exists m|by eapply IH].
Qed.

Lemma chain_length ns p l : chain ns p l -> NoDup l -> (length l <= base.size ns)%nat.
Proof.
  intros Hc Hnd. rewrite <- size_dom. rewrite <- (size_list_to_set (C := gset Z) l) by done.
  apply subseteq_size. intros a Ha. apply elem_of_list_to_set in Ha.
  apply elem_of_dom. by eapply chain_nodes.
Qed.

Lemma chain_app ns p l1 a l2 :
  chain ns p (l1 ++ a :: l2) -> exists n, ns !! a = Some n /\ chain ns (nnext n) l2.
Proof.
  revert p. induction l1 as [|b l1 IH]; intros p; [by intros [_ Hc]|].
  intros (_ & m & _ & Hc). by eapply IH.
Qed.

(** Unlinking [a] by redirecting its predecessor. *)
Lemma chain_unlink ns p0 l1 (p : Z) a l2 m n :
  NoDup (l1 ++ p :: a :: l2) -> chain ns p0 (l1 ++ p :: a :: l2) -> ns !! p = Some m -> ns !! a = Some n ->
  chain (delete a (<[p := mk_node (nkey m) (nvalue m) (nnext n)]> ns)) p0 (l1 ++ p :: l2).
Proof.
  intros Hnd Hc Hp Ha. revert p0 Hnd Hc. induction l1 as [|b l1 IH]; intros p0 Hnd Hc.
  - cbn [app chain] in *. destruct Hc as (-> & m' & Hm' & Hm'' & n' & Hn' & Hc). simplify_eq.
    apply list.NoDup_cons in Hnd as [Hpn Hnd]. apply list.NoDup_cons in Hnd as [Han Hnd].
    apply not_elem_of_cons in Hpn as [Hpa Hpn]. split; [done|].
    eexists. rewrite lookup_delete_ne, lookup_insert_eq by done. split; [done|].
    apply chain_delete_out; [done|]. apply chain_insert_out; done.
  - cbn [app chain] in *. destruct Hc as (-> & m' & Hm' & Hc). split; [done|].
    apply list.NoDup_cons in Hnd as [Hb Hnd].
    exists m'. split; [|by apply IH].
    rewrite lookup_delete_ne, lookup_insert_ne; [done|set_solver|set_solver].
Qed.

Lemma bucket_find_spec ns (cmp : text -> text -> bool) key l fuel prev node :
  (forall a n, a ∈ l -> ns !! a = Some n -> cmp (nkey n) key = bool_decide (nkey n = key)) ->
  chain ns node l -> (length l < fuel)%nat ->
  exists r, bucket_find fuel ns cmp key prev node = Some r /\
    match r with
    | None => forall a n, a ∈ l -> ns !! a = Some n -> nkey n <> key
    | Some (prev', a) => exists l1 l2 n, l = l1 ++ a :: l2 /\ ns !! a = Some n /\ nkey n = key /\
        prev' = match last l1 with Some p => Some p | None => prev end
    end.
Proof.
  revert fuel prev node. induction l as [|b l IH]; intros fuel prev node Hcmp Hc Hf.
  { simpl in Hc. subst. destruct fuel; (exists None; split; [done|set_solver]). }
  destruct Hc as (-> & m & Hm & Hc). destruct fuel as [|fuel]; [simpl in Hf; lia|].
  cbn [bucket_find]. rewrite Hm. cbn [mbind option_bind].
  rewrite (Hcmp b m) by (done || set_solver). case_bool_decide as Hk.
  { exists (Some (prev, b)). split; [done|]. by exists [], l, m. }
  destruct (IH fuel (Some b) (nnext m)) as (r & Hr & Hpost); [|done|simpl in Hf; lia|].
  { intros a n Ha. apply Hcmp. set_solver. }
  exists r. split; [done|]. destruct r as [[p a]|].
  - destruct Hpost as (l1 & l2 & n & -> & Ha & Hkey & Hp). exists (b :: l1), l2, n. split_and!; try done.
    rewrite Hp. rewrite last_cons. by destruct (last l1).
  - intros a n [->|Ha]%elem_of_cons Hn; [by simplify_eq|by eapply Hpost].
Qed.

End Chains.

(** ** The invariant *)

Section Proofs.
Context `{Arch} `{EntryLayout}.
Context (hf : text -> Z) (cf : text -> text -> bool).
Context (Hcf : forall a b, text_ok a -> text_ok b -> cf a b = bool_decide (a = b)).
Implicit Types (ns : node_store) (map : hashmap_str_t) (malloc : Z -> bool) (M : gmap Z Z) (S : gmap text Z).

Definition head_of M (h : Z) : ptr Z := e ← M !! h; decode_ptr e.

(** The bucket of [h] lists exactly the nodes whose keys hash to [h]. *)
Definition bucket_ok ns M (h : Z) (l : list Z) : Prop :=
  chain ns (head_of M h) l /\ NoDup l /\
  forall a, a ∈ l <-> exists n, ns !! a = Some n /\ hf (nkey n) = h.

(** The node store and the index [M] represent the map [S]. *)
Record nodes_ok ns M S : Prop := {
  no_addr : forall a n, ns !! a = Some n -> 0 < a < SIZE_MOD /\ text_ok (nkey n);
  no_unique : forall a b n m, ns !! a = Some n -> ns !! b = Some m -> nkey n = nkey m -> a = b;
  no_map : forall k v, S !! k = Some v <-> exists a nx, ns !! a = Some (mk_node k v nx);
  no_size : base.size S = base.size ns;
  no_heads : forall h e, M !! h = Some e -> 0 < e < SIZE_MOD;
  no_buckets : forall h, exists l, bucket_ok ns M h l
}.

Definition str_ok ns map S : Prop :=
  exists ix M, index map = Some ix /\ hash_fn map = Some hf /\ cmp_fn map = Some cf /\
    map_ok ix M /\ nodes_ok ns M S /\ ssize map = Z.of_nat (base.size ns).

Lemma decode_ptr_id e : 0 < e < SIZE_MOD -> decode_ptr e = Some e.
Proof. intros. unfold decode_ptr. rewrite wrap_small by lia. by test_lia. Qed.

Lemma store_bound ns M S : nodes_ok ns M S -> Z.of_nat (base.size ns) < SIZE_MOD.
Proof.
  intros Hok. rewrite <- size_dom.
  assert (Hsub : dom ns ⊆ list_to_set (C := gset Z) (seqZ 1 (SIZE_MOD - 1))).
  { intros a [n Hn]%elem_of_dom. apply elem_of_list_to_set, elem_of_seqZ.
    destruct (no_addr _ _ _ Hok a n Hn). lia. }
  apply subseteq_size in Hsub. rewrite size_list_to_set in Hsub by apply NoDup_seqZ.
  rewrite length_seqZ in Hsub. pose proof SIZE_MOD_pos. lia.
Qed.

(** An address without a node is in no bucket. *)
Lemma bucket_fresh ns M h l a : bucket_ok ns M h l -> ns !! a = None -> a ∉ l.
Proof. intros (_ & _ & Hl) Ha (n & Hn & _)%Hl. congruence. Qed.

Lemma bucket_head map ix M ns S h :
  index map = Some ix -> map_ok ix M -> nodes_ok ns M S -> str_bucket_head map h = Some (head_of M h).
Proof.
  intros Hix Hm Hok. unfold str_bucket_head, head_of. rewrite Hix, (get_spec ix M h Hm).
  cbn [mbind option_bind]. by destruct (M !! h) as [e|].
Qed.

Lemma lookup_node_spec map ix M ns S key :
  index map = Some ix -> map_ok ix M -> nodes_ok ns M S -> text_ok key ->
  exists l r, bucket_ok ns M (hf key) l /\ lookup_node ns map hf cf key = Some (head_of M (hf key), r) /\
    match r with
    | None => S !! key = None
    | Some (prev, a) => exists l1 l2 n, l = l1 ++ a :: l2 /\ ns !! a = Some n /\ nkey n = key /\
        S !! key = Some (nvalue n) /\ prev = last l1
    end.
Proof.
  intros Hix Hm Hok Hkey. destruct (no_buckets _ _ _ Hok (hf key)) as (l & Hb). exists l.
  pose proof Hb as (Hc & Hnd & Hl). unfold lookup_node. rewrite (bucket_head map ix M ns S) by done.
  cbn [mbind option_bind].
  destruct (bucket_find_spec ns cf key l (Datatypes.S (base.size ns)) None (head_of M (hf key)))
    as (r & Hr & Hpost); [|done|pose proof (chain_length _ _ _ Hc Hnd); lia|].
  { intros a n _ Hn. apply Hcf; [|done]. by apply (no_addr _ _ _ Hok a n). }
  rewrite Hr. exists r. split; [done|]. split; [done|]. destruct r as [[prev a]|].
  - destruct Hpost as (l1 & l2 & n & -> & Hn & Hk & Hp). exists l1, l2, n. split_and!; try done.
    + apply (no_map _ _ _ Hok). destruct n as [k v nx]. simpl in Hk. subst. by exists a, nx.
    + rewrite Hp. by destruct (last l1).
  - apply eq_None_not_Some. intros [v (a & nx & Ha)%(no_map _ _ _ Hok)].
    apply (Hpost a (mk_node key v nx)); [|done|done]. apply Hl. by exists (mk_node key v nx).
Qed.

(** Same nodes up to values: the part of the invariant that does not mention values. *)
Lemma nodes_update ns M S a n v :
  nodes_ok ns M S -> ns !! a = Some n ->
  nodes_ok (<[a := mk_node (nkey n) v (nnext n)]> ns) M (<[nkey n := v]> S).
Proof.
  intros Hok Ha. set (n' := mk_node (nkey n) v (nnext n)).
  assert (Hlk : forall b m, <[a := n']> ns !! b = Some m -> exists m0, ns !! b = Some m0 /\ nkey m0 = nkey m).
  { intros b m [[<- <-]|[_ Hb]]%lookup_insert_Some; eauto. }
  assert (HSk : S !! nkey n = Some (nvalue n)).
  { apply (no_map _ _ _ Hok). exists a, (nnext n). by destruct n. }
  constructor.
  - intros b m (m0 & Hb & <-)%Hlk. by eapply (no_addr _ _ _ Hok).
  - intros b1 b2 m1 m2 (m3 & Hb1 & E1)%Hlk (m4 & Hb2 & E2)%Hlk Heq.
    eapply (no_unique _ _ _ Hok); [done|done|congruence].
  - intros k v'. rewrite lookup_insert_Some, (no_map _ _ _ Hok). split.
    + intros [[<- <-]|[Hne (b & nx & Hb)]]; [exists a, (nnext n); by rewrite lookup_insert_eq|].
      exists b, nx. rewrite lookup_insert_ne; [done|]. intros <-. by simplify_eq.
    + intros (b & nx & [[<- Heq]|[Hne Hb]]%lookup_insert_Some); [left; by simplify_eq|].
      right. split; [|by exists b, nx]. intros <-. apply Hne. by eapply (no_unique _ _ _ Hok).
  - rewrite !map_size_insert_Some by done. apply Hok.
  - apply Hok.
  - intros h. destruct (no_buckets _ _ _ Hok h) as (l & Hc & Hnd & Hl). exists l. split_and!.
    + by eapply chain_update.
    + done.
    + intros b. rewrite Hl. split.
      * intros (m & Hb & <-). destruct (decide (b = a)) as [->|Hne].
        -- exists n'. rewrite lookup_insert_eq. simplify_eq. done.
        -- exists m. by rewrite lookup_insert_ne.
      * intros (m & (m0 & Hb & E)%Hlk & <-). exists m0. by rewrite E.
Qed.

(** A new node at the head of its bucket. *)
Lemma nodes_add ns M S a key v :
  nodes_ok ns M S -> ns !! a = None -> 0 < a < SIZE_MOD -> text_ok key -> S !! key = None ->
  nodes_ok (<[a := mk_node key v (head_of M (hf key))]> ns) (<[hf key := a]> M) (<[key := v]> S).
Proof.
  intros Hok Ha Har Hkey HS. set (n' := mk_node key v _).
  assert (Hno : forall b m, ns !! b = Some m -> nkey m <> key).
  { intros b [k v' nx] Hb Hk. simpl in Hk. subst k.
    assert (S !! key = Some v') by (apply (no_map _ _ _ Hok); eauto). congruence. }
  constructor.
  - intros b m [[<- <-]|[_ Hb]]%lookup_insert_Some; [done|by eapply (no_addr _ _ _ Hok)].
  - intros b1 b2 m1 m2 [[<- <-]|[Hn1 Hb1]]%lookup_insert_Some [[<- <-]|[Hn2 Hb2]]%lookup_insert_Some Heq;
      [done| | |by eapply (no_unique _ _ _ Hok)].
    + by destruct (Hno _ _ Hb2).
    + by destruct (Hno _ _ Hb1).
  - intros k v'. rewrite lookup_insert_Some, (no_map _ _ _ Hok). split.
    + intros [[<- <-]|[Hne (b & nx & Hb)]]; [exists a; eexists; by rewrite lookup_insert_eq|].
      exists b, nx. rewrite lookup_insert_ne; [done|congruence].
    + intros (b & nx & [[<- Heq]|[Hne Hb]]%lookup_insert_Some); [left; by simplify_eq|].
      right. split; [|by exists b, nx]. intros <-. by destruct (Hno _ _ Hb).
  - rewrite !map_size_insert_None by done. f_equal. apply Hok.
  - intros h e [[_ <-]|[_ He]]%lookup_insert_Some; [done|by eapply (no_heads _ _ _ Hok)].
  - intros h. destruct (no_buckets _ _ _ Hok h) as (l & Hb). pose proof (bucket_fresh _ _ _ _ _ Hb Ha) as Hal.
    destruct Hb as (Hc & Hnd & Hl). unfold bucket_ok, head_of. destruct (decide (hf key = h)) as [<-|Hne].
    + exists (a :: l). rewrite lookup_insert_eq. cbn [mbind option_bind]. rewrite decode_ptr_id by done.
      split_and!; [|by constructor|].
      * split; [done|]. exists n'. rewrite lookup_insert_eq. split; [done|]. by apply chain_insert_out.
      * intros b. rewrite elem_of_cons, Hl. split.
        -- intros [->|(m & Hm & Hh)]; [exists n'; by rewrite lookup_insert_eq|].
           exists m. rewrite lookup_insert_ne by congruence. done.
        -- intros (m & [[<- <-]|[_ Hm]]%lookup_insert_Some & Hh); eauto.
    + exists l. rewrite lookup_insert_ne by done. split_and!; [by apply chain_insert_out|done|].
      intros b. rewrite Hl. split.
      * intros (m & Hm & Hh). exists m. by rewrite lookup_insert_ne by congruence.
      * intros (m & [[<- <-]|[_ Hm]]%lookup_insert_Some & Hh); [done|eauto].
Qed.

(** *** Removal *)

Definition node_kv (n : hashmap_str_entry_t) : text * Z := (nkey n, nvalue n).

Lemma node_kv_lookup ns ns' b m :
  node_kv <$> ns' !! b = node_kv <$> ns !! b -> ns' !! b = Some m ->
  exists m0, ns !! b = Some m0 /\ nkey m0 = nkey m /\ nvalue m0 = nvalue m.
Proof.
  intros Heq Hb. rewrite Hb in Heq. symmetry in Heq.
  apply fmap_Some in Heq as (m0 & Hm0 & Hkv). unfold node_kv in Hkv. simplify_eq. eauto.
Qed.

(** [ns'] and [M'] are the nodes and the index without node [a]. *)
Lemma nodes_drop ns ns' M M' S a n :
  nodes_ok ns M S -> ns !! a = Some n -> ns' !! a = None ->
  (forall b, b <> a -> node_kv <$> ns' !! b = node_kv <$> ns !! b) ->
  (forall h e, M' !! h = Some e -> 0 < e < SIZE_MOD) ->
  (forall h l, bucket_ok ns M h l -> chain ns' (head_of M' h) (filter (fun b => b <> a) l)) ->
  nodes_ok ns' M' (delete (nkey n) S) /\ Datatypes.S (base.size ns') = base.size ns.
Proof.
  intros Hok Ha Ha' Hkv HM' Hch.
  assert (Hne : forall b m, ns' !! b = Some m -> b <> a) by (intros b m Hb ->; congruence).
  assert (Hto : forall b m, ns' !! b = Some m -> exists m0, ns !! b = Some m0 /\ nkey m0 = nkey m /\ nvalue m0 = nvalue m).
  { intros b m Hb. apply (node_kv_lookup ns ns'); [|done]. apply Hkv. by eapply Hne. }
  assert (Hfrom : forall b m, b <> a -> ns !! b = Some m -> exists m0, ns' !! b = Some m0 /\ nkey m0 = nkey m /\ nvalue m0 = nvalue m).
  { intros b m Hb. apply (node_kv_lookup ns' ns). symmetry. by apply Hkv. }
  assert (HSk : S !! nkey n = Some (nvalue n)).
  { apply (no_map _ _ _ Hok). exists a, (nnext n). by destruct n. }
  assert (Hsz : Datatypes.S (base.size ns') = base.size ns).
  { assert (Hdom : dom ns' = dom (delete a ns)).
    { apply set_eq. intros b. rewrite !elem_of_dom. split.
      - intros [m Hb]. rewrite lookup_delete_ne by (symmetry; by eapply Hne).
        destruct (Hto b m Hb) as (m0 & ? & _). by exists m0.
      - intros [m [Hba Hb]%lookup_delete_Some]. destruct (Hfrom b m) as (m0 & ? & _); [done|done|]. by exists m0. }
    rewrite <- size_dom, Hdom, size_dom, map_size_delete, Ha.
    assert (base.size ns <> 0%nat) by (apply (map_size_ne_0_lookup_2 ns a); by exists n). simpl. lia. }
  split; [|done]. constructor.
  - intros b m (m0 & Hb & <- & _)%Hto. by eapply (no_addr _ _ _ Hok).
  - intros b1 b2 m1 m2 (m3 & Hb1 & E1 & _)%Hto (m4 & Hb2 & E2 & _)%Hto Heq.
    eapply (no_unique _ _ _ Hok); [done|done|congruence].
  - intros k v. rewrite lookup_delete_Some, (no_map _ _ _ Hok). split.
    + intros [Hk (b & nx & Hb)]. assert (Hba : b <> a) by (intros ->; by simplify_eq).
      destruct (Hfrom b _ Hba Hb) as ([k' v' nx'] & Hb' & E1 & E2).
      simpl in *. subst. eauto.
    + intros (b & nx & Hb). pose proof (Hne _ _ Hb) as Hba. apply Hto in Hb as ([k' v' nx'] & Hb & E1 & E2).
      simpl in *. subst. split; [|eauto]. intros <-. apply Hba. by eapply (no_unique _ _ _ Hok).
  - rewrite map_size_delete, HSk. pose proof (no_size _ _ _ Hok). lia.
  - done.
  - intros h. destruct (no_buckets _ _ _ Hok h) as (l & Hb). exists (filter (fun b => b <> a) l).
    pose proof (Hch h l Hb) as Hc. destruct Hb as (_ & Hnd & Hl).
    split_and!; [done|by apply NoDup_filter|]. intros b. rewrite list_elem_of_filter, Hl. split.
    + intros [Hba (m & Hm & Hh)]. destruct (Hfrom b m Hba Hm) as (m0 & Hm0 & E & _).
      exists m0. by rewrite E.
    + intros (m & Hm & Hh). pose proof (Hne _ _ Hm). apply Hto in Hm as (m0 & Hm0 & E & _).
      split; [done|]. exists m0. by rewrite E.
Qed.

Lemma filter_not_in (l : list Z) a : a ∉ l -> filter (fun b => b <> a) l = l.
Proof.
  induction l as [|b l IH]; [done|]. intros [Hb Hl]%not_elem_of_cons.
  rewrite filter_cons_True by done. f_equal. by apply IH.
Qed.

Lemma filter_middle (l1 l2 : list Z) a :
  NoDup (l1 ++ a :: l2) -> filter (fun b => b <> a) (l1 ++ a :: l2) = l1 ++ l2.
Proof.
  intros (Hnd1 & Hdis & [Ha Hnd2]%list.NoDup_cons)%list.NoDup_app. rewrite filter_app, filter_cons_False by tauto.
  rewrite !filter_not_in; [done|done|]. intros Hin. apply (Hdis a Hin). set_solver.
Qed.

(** A node of one bucket is in no other. *)
Lemma bucket_disjoint ns M h l a n :
  bucket_ok ns M h l -> ns !! a = Some n -> hf (nkey n) <> h -> a ∉ l.
Proof. intros (_ & _ & Hl) Ha Hh (m & Hm & Hmh)%Hl. congruence. Qed.

Lemma bucket_det ns p l l' : chain ns p l -> chain ns p l' -> l = l'.
Proof.
  revert p l'. induction l as [|a l IH]; intros p [|a' l']; cbn [chain]; try naive_solver.
Qed.

(** Removing the first node of a bucket: the index gets its successor. *)
Lemma nodes_drop_head ns M M' S a n l2 :
  nodes_ok ns M S -> bucket_ok ns M (hf (nkey n)) (a :: l2) -> ns !! a = Some n ->
  (forall h e, M' !! h = Some e -> 0 < e < SIZE_MOD) ->
  (forall h, head_of M' h = if decide (h = hf (nkey n)) then nnext n else head_of M h) ->
  nodes_ok (delete a ns) M' (delete (nkey n) S) /\ Datatypes.S (base.size (delete a ns)) = base.size ns.
Proof.
  intros Hok Hb Ha HM' Hhd. eapply (nodes_drop _ _ M); try done; [by rewrite lookup_delete_eq| |].
  { intros b Hne. by rewrite lookup_delete_ne. }
  intros h l Hbl. rewrite Hhd. case_decide as Hh.
  - subst h. pose proof (bucket_det _ _ _ _ (proj1 Hb) (proj1 Hbl)) as <-.
    destruct Hb as ((_ & n' & Hn' & Hc) & [Hal Hnd]%list.NoDup_cons & _). simplify_eq.
    rewrite filter_cons_False by tauto. rewrite filter_not_in by done. by apply chain_delete_out.
  - pose proof (bucket_disjoint _ _ _ _ _ _ Hbl Ha ltac:(congruence)) as Hal.
    rewrite filter_not_in by done. apply chain_delete_out; [done|apply Hbl].
Qed.

(** Removing a later node: its predecessor is redirected. *)
Lemma nodes_drop_later ns M S a n l1 p m l2 :
  nodes_ok ns M S -> bucket_ok ns M (hf (nkey n)) (l1 ++ p :: a :: l2) ->
  ns !! a = Some n -> ns !! p = Some m ->
  let ns' := delete a (<[p := mk_node (nkey m) (nvalue m) (nnext n)]> ns) in
  nodes_ok ns' M (delete (nkey n) S) /\ Datatypes.S (base.size ns') = base.size ns.
Proof.
  intros Hok Hb Ha Hp ns'. eapply (nodes_drop _ _ M); try done; [by unfold ns'; rewrite lookup_delete_eq| |apply Hok|].
  { intros b Hne. unfold ns'. rewrite lookup_delete_ne by done.
    destruct (decide (b = p)) as [->|Hbp]; [by rewrite lookup_insert_eq, Hp|by rewrite lookup_insert_ne]. }
  intros h l Hbl. destruct (decide (h = hf (nkey n))) as [->|Hh].
  - pose proof (bucket_det _ _ _ _ (proj1 Hb) (proj1 Hbl)) as <-. pose proof Hb as (Hc & Hnd & _).
    rewrite (assoc (++) l1 [p] (a :: l2) : l1 ++ p :: a :: l2 = (l1 ++ [p]) ++ a :: l2) at 1.
    rewrite filter_middle by by rewrite <- (assoc (++)). rewrite <- (assoc (++)). by apply chain_unlink.
  - pose proof (bucket_disjoint _ _ _ _ _ _ Hbl Ha ltac:(congruence)) as Hal.
    assert (Hpl : p ∉ l).
    { eapply bucket_disjoint; [done|done|]. destruct Hb as (_ & _ & Hl).
      destruct (proj1 (Hl p)) as (m' & Hm' & Heq); [set_solver|]. congruence. }
    rewrite filter_not_in by done. apply chain_delete_out; [done|]. apply chain_insert_out; [done|apply Hbl].
Qed.

(** ** The operations *)

(** The address of a new node is free and not null. *)
Definition fresh_block ns (block : ptr Z) : Prop :=
  match block with Some a => ns !! a = None /\ 0 < a < SIZE_MOD | None => True end.

(** Open the map of a [str_ok] state; the guards of the three keyed operations pass. *)
Ltac open_str Hok ix M Hix Hhf Hcmp Hm Hno Hsz :=
  destruct Hok as (ix & M & Hix & Hhf & Hcmp & Hm & Hno & Hsz); rewrite ?Hix, ?Hhf, ?Hcmp.

Lemma str_set_spec malloc ns map S key v block :
  str_ok ns map S -> text_ok key -> fresh_block ns block ->
  exists b ns' map', hashmap_str_set malloc ns map (Some key) v block = Some (b, (ns', map')) /\
    if b : bool then str_ok ns' map' (<[key := v]> S) else ns' = ns /\ str_ok ns map' S /\ S !! key = None.
Proof.
  intros Hok Hkey Hfr. pose proof Hok as Hok0. unfold hashmap_str_set.
  open_str Hok ix M Hix Hhf Hcmp Hm Hno Hsz.
  destruct (lookup_node_spec map ix M ns S key Hix Hm Hno Hkey) as (l & r & Hb & Hr & Hpost).
  rewrite Hr. cbn [mbind option_bind]. destruct r as [[prev a]|].
  - destruct Hpost as (l1 & l2 & n & -> & Hn & <- & HS & Hp). rewrite Hn. cbn [mbind option_bind].
    eexists _, _, _. split; [done|]. exists ix, M. split_and!; try done; [by apply nodes_update|].
    by rewrite map_size_insert_Some.
  - destruct block as [a|]; [|by eexists _, _, _]. destruct Hfr as [Hfree Har].
    unfold str_bucket_store. rewrite Hix.
    destruct (set_spec malloc ix M (hf key) a Hm) as (b & ix' & Hset & _ & Hpost').
    rewrite Hset. cbn [mbind option_bind]. destruct b; cbn [negb].
    + eexists _, _, _. split; [done|]. exists ix', (<[hf key := a]> M). split_and!; try done.
      * by apply nodes_add.
      * cbn [ssize set_ssize set_str_index]. rewrite map_size_insert_None by done.
        pose proof (nodes_add ns M S a key v Hno Hfree Har Hkey Hpost) as Hno'.
        apply store_bound in Hno'. rewrite map_size_insert_None in Hno' by done.
        rewrite wrap_small; lia.
    + subst ix'. eexists _, _, _. split; [done|]. rewrite delete_insert_id by done. split_and!; try done.
      by exists ix, M.
Qed.

Lemma str_get_spec ns map S key :
  str_ok ns map S -> text_ok key ->
  hashmap_str_get ns map (Some key) = Some (bool_decide (is_Some (S !! key)), S !! key).
Proof.
  intros Hok Hkey. unfold hashmap_str_get. open_str Hok ix M Hix Hhf Hcmp Hm Hno Hsz.
  destruct (lookup_node_spec map ix M ns S key Hix Hm Hno Hkey) as (l & r & Hb & Hr & Hpost).
  rewrite Hr. cbn [mbind option_bind]. destruct r as [[prev a]|]; [|by rewrite Hpost].
  destruct Hpost as (l1 & l2 & n & -> & Hn & Hk & -> & Hp). by rewrite Hn.
Qed.

(** Storing the rest of a bucket in the index cannot fail: its hash is present. *)
Lemma bucket_store_rest malloc map ix M S ns a n l2 :
  index map = Some ix -> map_ok ix M -> nodes_ok ns M S ->
  bucket_ok ns M (hf (nkey n)) (a :: l2) -> ns !! a = Some n ->
  exists ix' M', str_bucket_store malloc map (hf (nkey n)) (nnext n) = Some (true, set_str_index map ix') /\
    map_ok ix' M' /\ (forall h e, M' !! h = Some e -> 0 < e < SIZE_MOD) /\
    (forall h, head_of M' h = if decide (h = hf (nkey n)) then nnext n else head_of M h).
Proof.
  intros Hix Hm Hno Hb Ha. unfold str_bucket_store. rewrite Hix.
  assert (Hin : is_Some (M !! hf (nkey n))).
  { destruct Hb as ((Hhd & _) & _). unfold head_of in Hhd. by destruct (M !! _). }
  destruct (nnext n) as [b|] eqn:Hnx.
  - destruct (set_spec malloc ix M (hf (nkey n)) b Hm) as (r & ix' & Hset & Hr & Hpost).
    rewrite bool_decide_true in Hr by done. subst r. rewrite Hset. cbn [mbind option_bind orb].
    assert (Hbr : 0 < b < SIZE_MOD).
    { destruct Hb as ((_ & n' & Hn' & Hc) & _). simplify_eq. rewrite Hnx in Hc.
      destruct l2 as [|b' l2]; [done|]. destruct Hc as (E & m & Hm' & _). simplify_eq.
      by eapply (no_addr _ _ _ Hno). }
    exists ix', (<[hf (nkey n) := b]> M). split_and!; try done.
    + intros h e [[_ <-]|[_ He]]%lookup_insert_Some; [done|by eapply (no_heads _ _ _ Hno)].
    + intros h. unfold head_of. case_decide as Hh; [subst; rewrite lookup_insert_eq; by apply decode_ptr_id|].
      by rewrite lookup_insert_ne.
  - destruct (remove_spec ix M (hf (nkey n)) Hm) as (ix' & Hrem & Hok' & _). rewrite Hrem. cbn [mbind option_bind].
    exists ix', (delete (hf (nkey n)) M). split_and!; try done.
    + intros h e [_ He]%lookup_delete_Some. by eapply (no_heads _ _ _ Hno).
    + intros h. unfold head_of. case_decide as Hh; [subst; by rewrite lookup_delete_eq|].
      by rewrite lookup_delete_ne.
Qed.

Lemma str_remove_spec malloc ns map S key :
  str_ok ns map S -> text_ok key ->
  exists ns' map', hashmap_str_remove malloc ns map (Some key)
      = Some (bool_decide (is_Some (S !! key)), (ns', map')) /\ str_ok ns' map' (delete key S).
Proof.
  intros Hok Hkey. pose proof Hok as Hok0. unfold hashmap_str_remove.
  open_str Hok ix M Hix Hhf Hcmp Hm Hno Hsz.
  destruct (lookup_node_spec map ix M ns S key Hix Hm Hno Hkey) as (l & r & Hb & Hr & Hpost).
  rewrite Hr. cbn [mbind option_bind].
  destruct r as [[prev a]|]; [|rewrite Hpost; eexists _, _; split; [done|]; by rewrite delete_id].
  destruct Hpost as (l1 & l2 & n & -> & Hn & <- & -> & ->). rewrite Hn. cbn [mbind option_bind].
  rewrite bool_decide_true by done.
  assert (Hdec : forall ns' (m : hashmap_str_t), Datatypes.S (base.size ns') = base.size ns ->
    ssize m = ssize map -> ssize (if ssize m =? 0 then m else set_ssize m (ssize m - 1)) = Z.of_nat (base.size ns')).
  { intros ns' m Hs ->. rewrite Hsz. case_test; cbn [ssize set_ssize]; lia. }
  destruct (last l1) as [p|] eqn:Hlast.
  - apply last_Some in Hlast as [l1' ->]. rewrite <- (assoc (++)) in Hb. cbn [app] in Hb.
    assert (Hp : exists m, ns !! p = Some m) by (eapply chain_nodes; [apply Hb|set_solver]).
    destruct Hp as [m Hp]. rewrite Hp. cbn [mbind option_bind negb].
    destruct (nodes_drop_later _ _ _ _ _ _ _ m _ Hno Hb Hn Hp) as [Hno' Hs'].
    eexists _, _. split; [done|]. exists ix, M. split_and!; try done; [by case_test..|]. by apply Hdec.
  - apply last_None in Hlast as ->. cbn [app] in Hb.
    destruct (bucket_store_rest malloc map ix M S ns a n l2 Hix Hm Hno Hb Hn) as (ix' & M' & Hst & Hm' & Hhd & Hhead).
    rewrite Hst. cbn [mbind option_bind negb].
    destruct (nodes_drop_head _ _ M' _ _ _ _ Hno Hb Hn Hhd Hhead) as [Hno' Hs'].
    eexists _, _. split; [done|]. exists ix', M'. split_and!; try done; [by case_test..|]. by apply Hdec.
Qed.

(** *** Clearing *)

Lemma free_chain_spec l fuel ns p :
  chain ns p l -> NoDup l -> (length l < fuel)%nat ->
  exists ns', free_chain fuel ns p = Some ns' /\ forall b, ns' !! b = if decide (b ∈ l) then None else ns !! b.
Proof.
  revert fuel ns p. induction l as [|a l IH]; intros fuel ns p Hc Hnd Hf.
  { simpl in Hc. subst. exists ns. split; [by destruct fuel|]. intros b. by rewrite decide_False by set_solver. }
  destruct Hc as (-> & n & Hn & Hc). apply list.NoDup_cons in Hnd as [Ha Hnd].
  destruct fuel as [|fuel]; [simpl in Hf; lia|]. cbn [free_chain]. rewrite Hn. cbn [mbind option_bind].
  destruct (IH fuel (delete a ns) (nnext n)) as (ns' & Hr & Hlk); [by apply chain_delete_out|done|simpl in Hf; lia|].
  exists ns'. split; [done|]. intros b. rewrite Hlk. destruct (decide (b = a)) as [->|Hne].
  - rewrite (decide_True (P := a ∈ a :: l)) by set_solver. case_decide; [done|]. by rewrite lookup_delete_eq.
  - rewrite lookup_delete_ne by done. repeat case_decide; set_solver.
Qed.

(** The nodes are those of the buckets that the full cells point to. *)
Definition cells_cover (cells : list hashmap_entry_t) ns : Prop :=
  (forall i h e, full_at cells i h e -> exists l, chain ns (decode_ptr e) l /\ NoDup l /\
     forall a, a ∈ l <-> exists n, ns !! a = Some n /\ hf (nkey n) = h) /\
  (forall a n, ns !! a = Some n -> exists i e, full_at cells i (hf (nkey n)) e).

Lemma clear_loop_spec cells ns : unique_keys cells -> cells_cover cells ns -> clear_loop cells ns = Some ∅.
Proof.
  revert ns. induction cells as [|[h e st] cells IH]; intros ns Hu [Hch Hcov]; cbn [clear_loop].
  { f_equal. apply map_empty. intros a. apply eq_None_not_Some. intros [n Hn].
    by destruct (Hcov a n Hn) as (i & e & Hi). }
  apply unique_keys_cons in Hu as [Hu Ha]. cbn [state key value] in *.
  case_bool_decide as Hs; cbn [negb].
  - subst st. destruct (Hch 0%nat h e eq_refl) as (l & Hc & Hnd & Hl).
    destruct (free_chain_spec l (Datatypes.S (base.size ns)) ns (decode_ptr e)) as (ns' & Hr & Hlk);
      [done|done|pose proof (chain_length _ _ _ Hc Hnd); lia|].
    rewrite Hr. cbn [mbind option_bind].
    assert (Hlk' : forall b n, ns' !! b = Some n <-> ns !! b = Some n /\ hf (nkey n) <> h).
    { intros b n. rewrite Hlk. case_decide as Hb.
      - apply Hl in Hb as (m & Hm & Hh). split; [done|]. intros [? ?]. congruence.
      - split; [|tauto]. intros Hn. split; [done|]. intros Hh. apply Hb, Hl. eauto. }
    apply IH; [done|]. split.
    + intros i h' e' Hi. destruct (Hch (Datatypes.S i) h' e' Hi) as (l' & Hc' & Hnd' & Hl'). exists l'.
      assert (Hhh : h' <> h) by (intros ->; by apply (Ha eq_refl i e')).
      split_and!; [|done|].
      * clear Hnd'. assert (Hsub : forall b, b ∈ l' -> ns' !! b = ns !! b).
        { intros b (n & Hn & Hh)%Hl'. rewrite Hn. apply Hlk'. naive_solver. }
        clear Hl'. revert Hc' Hsub. generalize (decode_ptr e'). induction l' as [|b l' IHl]; intros q; [done|].
        intros (-> & n & Hn & Hc') Hsub. split; [done|]. exists n. rewrite Hsub by set_solver.
        split; [done|]. apply IHl; [done|]. intros b' Hb'. apply Hsub. set_solver.
      * intros b. rewrite Hl'. split; intros (n & Hn & Hh); exists n; [rewrite Hlk'; naive_solver|].
        apply Hlk' in Hn. naive_solver.
    + intros a n [Hn Hh]%Hlk'. destruct (Hcov a n Hn) as ([|i] & e' & Hi); [|by exists i, e'].
      unfold full_at in Hi. simplify_eq/=.
  - apply IH; [done|]. split.
    + intros i h' e' Hi. by apply (Hch (Datatypes.S i) h' e').
    + intros a n Hn. destruct (Hcov a n Hn) as ([|i] & e' & Hi); [|by exists i, e'].
      unfold full_at in Hi. simplify_eq/=.
Qed.

Lemma nodes_empty : nodes_ok ∅ ∅ ∅.
Proof.
  constructor; try done.
  - intros k v. split; [done|]. intros (a & nx & ?). done.
  - intros h. exists []. split; [done|]. split; [constructor|]. intros a. split; [set_solver|].
    intros (n & ? & _). done.
Qed.

Lemma str_clear_spec ns map S :
  str_ok ns map S -> exists map', hashmap_str_clear ns map = Some (∅, map') /\ str_ok ∅ map' ∅.
Proof.
  intros Hok. unfold hashmap_str_clear. open_str Hok ix M Hix Hhf Hcmp Hm Hno Hsz.
  destruct (clear_spec ix M Hm) as (ix' & Hclr & Hm').
  pose proof Hm as (es & He & Htab & HM & _). rewrite He.
  pose proof (cap_range _ (tk_pow _ _ Htab)). test_lia. cbn [mbind option_bind].
  pose proof (tk_len _ _ Htab) as Hl. rewrite <- Hl, mread_ok by lia.
  rewrite drop_0, take_ge by (unfold zlen; lia). cbn [mbind option_bind].
  rewrite clear_loop_spec; [|apply Htab|].
  - cbn [mbind option_bind]. rewrite Hclr. cbn [mbind option_bind]. eexists. split; [done|].
    exists ix', ∅. split_and!; try done. apply nodes_empty.
  - split.
    + intros i h e Hi. destruct (no_buckets _ _ _ Hno h) as (l & Hc & Hnd & Hls). exists l.
      split_and!; try done. unfold head_of in Hc. rewrite <- HM in Hc.
      rewrite (proj2 (contents_lookup es h e (tk_unique _ _ Htab))) in Hc by eauto. done.
    + intros a n Hn. destruct (no_buckets _ _ _ Hno (hf (nkey n))) as (l & Hc & Hnd & Hls).
      assert (Hal : a ∈ l) by (apply Hls; eauto). destruct l as [|b l]; [set_solver|].
      destruct Hc as (Hhd & _). unfold head_of in Hhd. destruct (M !! _) as [e|] eqn:HMe; [|done].
      rewrite <- HM in HMe. apply contents_lookup in HMe as [i Hi]; [by exists i, e|apply Htab].
Qed.

(** ** Histories *)

Inductive sop :=
| SSet (malloc : Z -> bool) (k : text) (v : Z) (block : ptr Z)
| SGet (k : text)
| SRemove (malloc : Z -> bool) (k : text)
| SClear.

Inductive sanswer := SBool (b : bool) | SValue (b : bool) (value_out : ptr Z) | SUnit.

Definition sexec ns map (o : sop) : option (sanswer * (node_store * hashmap_str_t)) :=
  match o with
  | SSet malloc k v block => '(b, st) ← hashmap_str_set malloc ns map (Some k) v block; Some (SBool b, st)
  | SGet k => '(b, out) ← hashmap_str_get ns map (Some k); Some (SValue b out, (ns, map))
  | SRemove malloc k => '(b, st) ← hashmap_str_remove malloc ns map (Some k); Some (SBool b, st)
  | SClear => st ← hashmap_str_clear ns map; Some (SUnit, st)
  end.

(** What the callers and the allocator guarantee of one call. *)
Definition sop_valid ns (o : sop) : Prop :=
  match o with
  | SSet _ k _ block => text_ok k /\ fresh_block ns block
  | SGet k | SRemove _ k => text_ok k
  | SClear => True
  end.

Definition sspec S (o : sop) (a : sanswer) (S' : gmap text Z) : Prop :=
  match o with
  | SSet _ k v _ => (a = SBool true /\ S' = <[k := v]> S) \/ (a = SBool false /\ S !! k = None /\ S' = S)
  | SGet k => a = SValue (bool_decide (is_Some (S !! k))) (S !! k) /\ S' = S
  | SRemove _ k => a = SBool (bool_decide (is_Some (S !! k))) /\ S' = delete k S
  | SClear => a = SUnit /\ S' = ∅
  end.

(** Every valid history from this state runs to its end and agrees with the abstract map; a node is
    allocated for each key and no other. *)
Fixpoint agrees ns map S (ops : list sop) : Prop :=
  ssize map = Z.of_nat (base.size S) /\ base.size ns = base.size S /\
  match ops with
  | [] => True
  | o :: ops => sop_valid ns o -> exists a ns' map' S',
      sexec ns map o = Some (a, (ns', map')) /\ sspec S o a S' /\ agrees ns' map' S' ops
  end.

Lemma sexec_spec ns map S o :
  str_ok ns map S -> sop_valid ns o ->
  exists a ns' map' S', sexec ns map o = Some (a, (ns', map')) /\ sspec S o a S' /\ str_ok ns' map' S'.
Proof.
  intros Hok Hv. destruct o as [malloc k v block|k|malloc k|]; cbn [sexec sspec sop_valid] in *.
  - destruct Hv as [Hk Hfr]. destruct (str_set_spec malloc ns map S k v block Hok Hk Hfr) as (b & ns' & map' & Hr & Hpost).
    rewrite Hr. cbn [mbind option_bind]. destruct b; [by eexists _, _, _, _; eauto|].
    destruct Hpost as (-> & Hok' & HS). eexists _, _, _, _. split; [done|]. split; [|done]. right. done.
  - rewrite (str_get_spec ns map S k Hok Hv). cbn [mbind option_bind]. by eexists _, _, _, _.
  - destruct (str_remove_spec malloc ns map S k Hok Hv) as (ns' & map' & Hr & Hok'). rewrite Hr.
    cbn [mbind option_bind]. by eexists _, _, _, _.
  - destruct (str_clear_spec ns map S Hok) as (map' & Hr & Hok'). rewrite Hr.
    cbn [mbind option_bind]. by eexists _, _, _, _.
Qed.

Lemma str_ok_agrees ops ns map S : str_ok ns map S -> agrees ns map S ops.
Proof.
  revert ns map S. induction ops as [|o ops IH]; intros ns map S Hok; cbn [agrees].
  all: pose proof Hok as (ix & M & _ & _ & _ & _ & Hno & Hsz).
  all: rewrite (no_size _ _ _ Hno); split; [done|split; [done|]].
  { done. }
  intros Hv. destruct (sexec_spec ns map S o Hok Hv) as (a & ns' & map' & S' & He & Hs & Hok').
  exists a, ns', map', S'. split_and!; [done|done|]. by apply IH.
Qed.

End Proofs.

Lemma cmp_default_ok a b : text_ok a -> text_ok b -> _str_cmp_default a b = bool_decide (a = b).
Proof.
  intros Ha Hb. unfold _str_cmp_default. pose proof (strcmp_0 a b Ha Hb).
  case_bool_decide; [rewrite Z.eqb_eq|rewrite Z.eqb_neq]; tauto.
Qed.

(** C37: A string map with the default hash and comparison refines a finite map keyed by strings,
    whatever hash collisions occur: from creation on, every history of set, get, remove and clear
    terminates and answers as the finite map; a store fails only for a new key, changing nothing;
    and the nodes allocated are exactly one per key, so none leaks. *)
Theorem str_map_refines `{Arch} `{EntryLayout} malloc block ix_block map ops :
  hashmap_str_create malloc block ix_block = Some (Some map) -> agrees ∅ map ∅ ops.
Proof.
  unfold hashmap_str_create, hashmap_str_create_with, hashmap_create.
  destruct block; cbn [negb]; [|done].
  destruct (create_sized_spec malloc ix_block HASHMAP_INITIAL_CAPACITY) as (r & Hr & Hpost).
  { unfold HASHMAP_INITIAL_CAPACITY. pose proof SIZE_MOD_ge. lia. }
  rewrite Hr. cbn [mbind option_bind]. destruct r as [ix|]; [|done]. intros [= <-].
  destruct (Hpost ix eq_refl) as [Hix _].
  apply (str_ok_agrees _str_hash_default _str_cmp_default cmp_default_ok).
  exists ix, ∅. split_and!; try done. apply (nodes_empty _ _ cmp_default_ok).
Qed.

(** ** Witness *)

#[local] Existing Instance arch64.

Definition demo_str : hashmap_str_t :=
  mk_str (Some (mk_map 0 16 (Some (replicate 16 zero_entry)))) 0
    (Some _str_hash_default) (Some _str_cmp_default).

Definition demo_sops : list sop :=
  [SSet (fun _ => true) [102; 111; 111] 1 (Some 4096); SSet (fun _ => true) [98; 97; 114] 2 (Some 8192);
   SRemove (fun _ => true) [102; 111; 111]; SGet [98; 97; 114]; SClear].

Lemma str_map_refines_witness :
  hashmap_str_create (fun _ => true) true true = Some (Some demo_str) /\ agrees ∅ demo_str ∅ demo_sops.
Proof.
  assert (Hc : hashmap_str_create (fun _ => true) true true = Some (Some demo_str)) by reflexivity.
  split; [exact Hc|]. apply (str_map_refines (fun _ => true) true true demo_str demo_sops Hc).
Defined.

End StrMap.
