(* ===== verification/LinkedList.v ===== *)
(** * Doubly linked lists: [libs/data/list.c]

    Nodes and list heads are objects of one store; a node names its list as its [owner].  The model
    is the release build ([LIST_VALIDATE_NODES] is 0).  Dereferencing an address that holds no object
    answers [None].  The kernel's lists of threads ([Procs]) and its queues rely on the contract
    stated here: a list is a sequence of nodes, and a node is in at most one list. *)

From S2P Require Import Prelude Memory.
From stdpp Require Import gmap list.
Open Scope Z_scope.

(** A list as a sequence: appending a node that is in no list, removing a node. *)
Definition ll_append (l : list Z) (t : Z) : list Z := if decide (t ∈ l) then l else l ++ [t].
Definition ll_remove (l : list Z) (t : Z) : list Z := filter (fun u => u <> t) l.

Module LinkedList.

Record list_node_t := mk_node { data : Z; nnext : ptr Z; nprev : ptr Z; owner : ptr Z }.
Record linked_list_t := mk_list { llength : Z; lhead : ptr Z; ltail : ptr Z }.

Record heap := mk_heap { nodes : gmap Z list_node_t; lists : gmap Z linked_list_t }.

Definition set_next (v : ptr Z) (n : list_node_t) := mk_node (data n) v (nprev n) (owner n).
Definition set_prev (v : ptr Z) (n : list_node_t) := mk_node (data n) (nnext n) v (owner n).
Definition set_owner (v : ptr Z) (n : list_node_t) := mk_node (data n) (nnext n) (nprev n) v.
Definition set_head (v : ptr Z) (l : linked_list_t) := mk_list (llength l) v (ltail l).
Definition set_tail (v : ptr Z) (l : linked_list_t) := mk_list (llength l) (lhead l) v.
Definition set_length (v : Z) (l : linked_list_t) := mk_list v (lhead l) (ltail l).

Section Defs.
Context `{Arch}.
Implicit Types (h : heap) (l n : Z) (list node : ptr Z).

(** [node->field = v] and [list->field = v]. *)
Definition put_node h n (f : list_node_t -> list_node_t) : option heap :=
  nd ← nodes h !! n; Some (mk_heap (<[n := f nd]> (nodes h)) (lists h)).
Definition put_list h l (f : linked_list_t -> linked_list_t) : option heap :=
  ls ← lists h !! l; Some (mk_heap (nodes h) (<[l := f ls]> (lists h))).

(** [calloc] answered the zeroed block [fresh], if any. *)
Definition list_create h (fresh : ptr Z) : ptr Z * heap :=
  match fresh with
  | None => (None, h)
  | Some a => (Some a, mk_heap (nodes h) (<[a := mk_list 0 None None]> (lists h)))
  end.

Definition list_create_node h (fresh : ptr Z) (d : Z) : ptr Z * heap :=
  match fresh with
  | None => (None, h)
  | Some a => (Some a, mk_heap (<[a := mk_node d None None None]> (nodes h)) (lists h))
  end.

(** The refusal of a node that is in a list, shared by [list_append] and [list_push]. *)
Definition node_busy (ls : linked_list_t) (nd : list_node_t) n : bool :=
  bool_decide (owner nd <> None) ||
  (bool_decide (nnext nd <> None) || bool_decide (nprev nd <> None) ||
   bool_decide (lhead ls = Some n) || bool_decide (ltail ls = Some n)).

Definition list_append h list node : option (bool * heap) :=
  match node, list with
  | Some n, Some l =>
      nd ← nodes h !! n;
      ls ← lists h !! l;
      if node_busy ls nd n then Some (false, h)
      else
        h ← put_node h n (set_next None);
        h ← (if llength ls =? 0 then
               h ← put_node h n (set_prev None);
               h ← put_list h l (set_head (Some n));
               put_list h l (set_tail (Some n))
             else
               match ltail ls with
               | None => None
               | Some t =>
                   h ← put_node h t (set_next (Some n));
                   h ← put_node h n (set_prev (ltail ls));
                   put_list h l (set_tail (Some n))
               end);
        h ← put_node h n (set_owner (Some l));
        h ← put_list h l (fun ls => set_length (wrap (llength ls + 1)) ls);
        Some (true, h)
  | _, _ => Some (false, h)
  end.

Definition list_push h list node : option (bool * heap) :=
  match node, list with
  | Some n, Some l =>
      nd ← nodes h !! n;
      ls ← lists h !! l;
      if node_busy ls nd n then Some (false, h)
      else
        h ← put_node h n (set_prev None);
        h ← (if llength ls =? 0 then
               h ← put_node h n (set_next None);
               h ← put_list h l (set_head (Some n));
               put_list h l (set_tail (Some n))
             else
               match lhead ls with
               | None => None
               | Some t =>
                   h ← put_node h t (set_prev (Some n));
                   h ← put_node h n (set_next (lhead ls));
                   put_list h l (set_head (Some n))
               end);
        h ← put_node h n (set_owner (Some l));
        h ← put_list h l (fun ls => set_length (wrap (llength ls + 1)) ls);
        Some (true, h)
  | _, _ => Some (false, h)
  end.

Definition links_valid h l n : option bool :=
  nd ← nodes h !! n;
  ls ← lists h !! l;
  if negb (bool_decide (owner nd = Some l)) then Some false
  else
    bad ← match nprev nd with
          | None => Some false
          | Some p => pd ← nodes h !! p; Some (negb (bool_decide (nnext pd = Some n)))
          end;
    if bad : bool then Some false
    else
      bad ← match nnext nd with
            | None => Some false
            | Some x => xd ← nodes h !! x; Some (negb (bool_decide (nprev xd = Some n)))
            end;
      if bad : bool then Some false
      else if negb (bool_decide (lhead ls = Some n)) && bool_decide (nprev nd = None) then Some false
      else if negb (bool_decide (ltail ls = Some n)) && bool_decide (nnext nd = None) then Some false
      else Some true.

(** [while (next && next != node && limit--)]: the walk from the head, answering [prev] and [next]. *)
Fixpoint remove_walk (limit : nat) h n (prev next : ptr Z) : option (ptr Z * ptr Z) :=
  match next with
  | None => Some (prev, next)
  | Some x =>
      if x =? n then Some (prev, next)
      else
        match limit with
        | O => Some (prev, next)
        | S limit => xd ← nodes h !! x; remove_walk limit h n next (nnext xd)
        end
  end.

(** Taking the node out from between [prev] and [next]. *)
Definition unlink h l n (prev next : ptr Z) : option heap :=
  h ← match prev with
      | Some p => put_node h p (set_next next)
      | None => put_list h l (set_head next)
      end;
  h ← match next with
      | Some x => put_node h x (set_prev prev)
      | None => put_list h l (set_tail prev)
      end;
  h ← put_node h n (set_prev None);
  h ← put_node h n (set_next None);
  h ← put_node h n (set_owner None);
  put_list h l (fun ls => set_length (wrap (llength ls - 1)) ls).

Definition list_remove h list node : option (bool * heap) :=
  match node, list with
  | Some n, Some l =>
      ls ← lists h !! l;
      if llength ls =? 0 then Some (false, h)
      else
        nd ← nodes h !! n;
        ok ← links_valid h l n;
        if ok : bool then h ← unlink h l n (nprev nd) (nnext nd); Some (true, h)
        else
          '(prev, next) ← remove_walk (Z.to_nat (llength ls)) h n None (lhead ls);
          if negb (bool_decide (next = Some n)) then Some (false, h)
          else h ← unlink h l n prev (nnext nd); Some (true, h)
  | _, _ => Some (false, h)
  end.

(** The four relinkings at the end of [list_swap], for one of the two nodes. *)
Definition relink h l n : option heap :=
  nd ← nodes h !! n;
  h ← match nprev nd with
      | Some p => put_node h p (set_next (Some n))
      | None => put_list h l (set_head (Some n))
      end;
  nd ← nodes h !! n;
  match nnext nd with
  | Some x => put_node h x (set_prev (Some n))
  | None => put_list h l (set_tail (Some n))
  end.

Definition set_links (p x : ptr Z) (nd : list_node_t) : list_node_t := set_next x (set_prev p nd).

Definition list_swap h (left right : ptr Z) : option (bool * heap) :=
  match left, right with
  | Some a, Some b =>
      if a =? b then Some (false, h)
      else
        na ← nodes h !! a;
        nb ← nodes h !! b;
        match owner na with
        | None => Some (false, h)
        | Some l =>
            if negb (bool_decide (owner nb = Some l)) then Some (false, h)
            else
              let lp := nprev na in let ln := nnext na in
              let rp := nprev nb in let rn := nnext nb in
              h ← (if bool_decide (ln = Some b) then
                     h ← put_node h a (set_links (Some b) rn);
                     put_node h b (set_links lp (Some a))
                   else if bool_decide (rn = Some a) then
                     h ← put_node h b (set_links (Some a) ln);
                     put_node h a (set_links rp (Some b))
                   else
                     h ← put_node h a (set_links rp rn);
                     put_node h b (set_links lp ln));
              h ← relink h l a;
              h ← relink h l b;
              Some (true, h)
        end
  | _, _ => Some (false, h)
  end.

Definition list_pop h list : option (ptr Z * heap) :=
  match list with
  | None => Some (None, h)
  | Some l =>
      ls ← lists h !! l;
      if llength ls =? 0 then Some (None, h)
      else
        '(ok, h) ← list_remove h list (ltail ls);
        if ok : bool then Some (ltail ls, h) else Some (None, h)
  end.

Definition list_pop_front h list : option (ptr Z * heap) :=
  match list with
  | None => Some (None, h)
  | Some l =>
      ls ← lists h !! l;
      if llength ls =? 0 then Some (None, h)
      else
        '(ok, h) ← list_remove h list (lhead ls);
        if ok : bool then Some (lhead ls, h) else Some (None, h)
  end.

(** [ll_foreach]: no list is longer than the number of nodes there are. *)
Fixpoint find_loop (fuel : nat) h (d : Z) (node : ptr Z) : option (ptr Z) :=
  match node with
  | None => Some None
  | Some n =>
      match fuel with
      | O => None
      | S fuel => nd ← nodes h !! n; if data nd =? d then Some (Some n) else find_loop fuel h d (nnext nd)
      end
  end.

Definition list_find h l (d : Z) : option (ptr Z) :=
  ls ← lists h !! l; find_loop (S (size (nodes h))) h d (lhead ls).

(** [list_destroy] frees the nodes and the list; with [free_data] also what the nodes point to, here
    the answered addresses. *)
Fixpoint destroy_loop (fuel : nat) h (free_data : bool) (node : ptr Z) : option (list Z * heap) :=
  match node with
  | None => Some ([], h)
  | Some n =>
      match fuel with
      | O => None
      | S fuel =>
          nd ← nodes h !! n;
          '(freed, h') ← destroy_loop fuel (mk_heap (delete n (nodes h)) (lists h)) free_data (nnext nd);
          Some ((if free_data && negb (data nd =? 0) then [data nd] else []) ++ freed, h')
      end
  end.

Definition list_destroy h list (free_data : bool) : option (Datatypes.list Z * heap) :=
  match list with
  | None => Some ([], h)
  | Some l =>
      ls ← lists h !! l;
      '(freed, h) ← destroy_loop (S (size (nodes h))) h free_data (lhead ls);
      Some (freed, mk_heap (nodes h) (delete l (lists h)))
  end.
End Defs.

(** ** Segments *)

Definition first_or (s : list Z) (q : ptr Z) : ptr Z := match s with [] => q | n :: _ => Some n end.
Definition last_or (s : list Z) (p : ptr Z) : ptr Z := match last s with None => p | Some n => Some n end.

(** The nodes of [s] are linked in order, come after [p] and before [q], and belong to list [o]. *)
Fixpoint linked (N : gmap Z list_node_t) (o : Z) (p : ptr Z) (s : list Z) (q : ptr Z) : Prop :=
  match s with
  | [] => True
  | n :: s' => (exists d, N !! n = Some (mk_node d (first_or s' q) p (Some o))) /\ linked N o (Some n) s' q
  end.

(** Setting [next] of the last node of a segment, [prev] of its first. *)
Definition upd_last (N : gmap Z list_node_t) (s : list Z) (q : ptr Z) : gmap Z list_node_t :=
  match last s with None => N | Some n => alter (set_next q) n N end.
Definition upd_first (N : gmap Z list_node_t) (s : list Z) (p : ptr Z) : gmap Z list_node_t :=
  match s with [] => N | n :: _ => alter (set_prev p) n N end.

Section Segments.
Implicit Types (N : gmap Z list_node_t) (o : Z) (p q : ptr Z) (s a b : list Z).

Lemma last_or_cons n s p : last_or (n :: s) p = last_or s (Some n).
Proof. unfold last_or. rewrite last_cons. by destruct (last s). Qed.

Lemma last_or_app a b p : last_or (a ++ b) p = last_or b (last_or a p).
Proof. unfold last_or. rewrite last_app. by destruct (last b). Qed.

Lemma first_or_app a b q : first_or (a ++ b) q = first_or a (first_or b q).
Proof. by destruct a. Qed.

Lemma linked_app N o p a b q :
  linked N o p (a ++ b) q <-> linked N o p a (first_or b q) /\ linked N o (last_or a p) b q.
Proof.
  revert p. induction a as [|n a IH]; intros p; cbn [app linked]; [naive_solver|].
  rewrite IH, last_or_cons, first_or_app. naive_solver.
Qed.

Lemma linked_agree N N' o p s q :
  (forall n, n ∈ s -> N' !! n = N !! n) -> linked N o p s q -> linked N' o p s q.
Proof.
  revert p. induction s as [|n s IH]; intros p Hag; [done|]. cbn [linked]. intros [[d Hd] Hs]. split.
  - exists d. rewrite Hag by set_solver. done.
  - apply IH; [set_solver|done].
Qed.

Lemma linked_elem N o p s q n : linked N o p s q -> n ∈ s -> exists d x y, N !! n = Some (mk_node d x y (Some o)).
Proof.
  revert p. induction s as [|m s IH]; intros p; [set_solver|]. intros [[d Hd] Hs] Hn.
  apply elem_of_cons in Hn as [->|Hn]; [eauto|by eapply IH].
Qed.

Lemma upd_last_other N s q n : n ∉ s -> upd_last N s q !! n = N !! n.
Proof.
  intros Hn. unfold upd_last. destruct (last s) as [m|] eqn:Hl; [|done].
  apply last_Some in Hl as [s' ->]. rewrite lookup_alter_ne by set_solver. done.
Qed.

Lemma upd_first_other N s p n : n ∉ s -> upd_first N s p !! n = N !! n.
Proof. intros Hn. unfold upd_first. destruct s; [done|]. rewrite lookup_alter_ne by set_solver. done. Qed.

Lemma linked_upd_last N o p s q q' : NoDup s -> linked N o p s q -> linked (upd_last N s q') o p s q'.
Proof.
  intros Hnd Hs. unfold upd_last. destruct (last s) as [m|] eqn:Hl.
  2: { apply last_None in Hl as ->. done. }
  apply last_Some in Hl as [s' ->]. apply linked_app in Hs as [Hs [[d Hd] _]].
  apply list.NoDup_app in Hnd as (_ & Hno & _). apply linked_app. split.
  - eapply linked_agree; [|exact Hs]. intros n Hn. apply lookup_alter_ne. intros ->. by apply (Hno n); [|constructor].
  - split; [|done]. exists d. rewrite lookup_alter_eq, Hd. done.
Qed.

Lemma linked_upd_first N o p p' s q : NoDup s -> linked N o p s q -> linked (upd_first N s p') o p' s q.
Proof.
  intros Hnd Hs. destruct s as [|n s]; [done|]. destruct Hs as [[d Hd] Hs]. apply list.NoDup_cons in Hnd as [Hn _].
  cbn [upd_first linked]. split.
  - exists d. rewrite lookup_alter_eq, Hd. done.
  - eapply linked_agree; [|exact Hs]. intros m Hm. apply lookup_alter_ne. by intros ->.
Qed.

Lemma linked_frame_last N o p s q t v : (forall n, n ∈ s -> n ∉ t) -> linked N o p s q -> linked (upd_last N t v) o p s q.
Proof. intros Hd. apply linked_agree. intros. by apply upd_last_other, Hd. Qed.

Lemma linked_frame_first N o p s q t v : (forall n, n ∈ s -> n ∉ t) -> linked N o p s q -> linked (upd_first N t v) o p s q.
Proof. intros Hd. apply linked_agree. intros. by apply upd_first_other, Hd. Qed.

Lemma linked_frame N o p s q n nd : n ∉ s -> linked N o p s q -> linked (<[n := nd]> N) o p s q.
Proof. intros Hd. apply linked_agree. intros. apply lookup_insert_ne. set_solver. Qed.
End Segments.

(** ** The state of all lists *)

Section Proofs.
Context `{Arch}.
Implicit Types (h : heap) (l n : Z) (s : list Z) (C : gmap Z (list Z)).

(** [C] gives the sequence of every list; a node is in the list it names as owner, or in none. *)
Record heap_ok h C : Prop := {
  ok_lists : forall l, lists h !! l = match C !! l with
               | Some s => Some (mk_list (zlen s) (first_or s None) (last_or s None))
               | None => None
               end;
  ok_linked : forall l s, C !! l = Some s -> NoDup s /\ linked (nodes h) l None s None;
  ok_free : forall n nd, nodes h !! n = Some nd -> owner nd = None -> nnext nd = None /\ nprev nd = None;
  ok_owned : forall n nd l, nodes h !! n = Some nd -> owner nd = Some l -> exists s, C !! l = Some s /\ n ∈ s;
  ok_range : forall n nd, nodes h !! n = Some nd -> 0 < n < SIZE_MOD
}.

Lemma bounded_length s M : NoDup s -> (forall n, n ∈ s -> 0 < n < M) -> 0 < M -> zlen s < M.
Proof.
  intros Hnd Hb HM. unfold zlen.
  assert (Hsub : s ⊆+ seqZ 1 (M - 1)).
  { apply NoDup_submseteq; [done|]. intros n Hn. apply elem_of_seqZ. apply Hb in Hn. lia. }
  apply submseteq_length in Hsub. rewrite length_seqZ in Hsub. lia.
Qed.

Lemma ok_length h C l s : heap_ok h C -> C !! l = Some s -> zlen s < SIZE_MOD.
Proof.
  intros Hok Hs. destruct (ok_linked _ _ Hok _ _ Hs) as [Hnd Hl]. apply bounded_length; [done| |apply SIZE_MOD_pos].
  intros n Hn. destruct (linked_elem _ _ _ _ _ _ Hl Hn) as (d & x & y & Hd). by eapply ok_range.
Qed.

Lemma in_list_owner h C l s n : heap_ok h C -> C !! l = Some s -> n ∈ s -> exists nd, nodes h !! n = Some nd /\ owner nd = Some l.
Proof.
  intros Hok Hs Hn. destruct (ok_linked _ _ Hok _ _ Hs) as [_ Hl].
  destruct (linked_elem _ _ _ _ _ _ Hl Hn) as (d & x & y & Hd). eauto.
Qed.

(** Lists share no node. *)
Lemma lists_disjoint h C l l' s s' n :
  heap_ok h C -> C !! l = Some s -> C !! l' = Some s' -> n ∈ s -> n ∈ s' -> l = l'.
Proof.
  intros Hok Hs Hs' Hn Hn'. destruct (in_list_owner _ _ _ _ _ Hok Hs Hn) as (nd & Hd & Ho).
  destruct (in_list_owner _ _ _ _ _ Hok Hs' Hn') as (nd' & Hd' & Ho'). congruence.
Qed.

(** The node at a known place of its list. *)
Lemma node_at h C l a n b :
  heap_ok h C -> C !! l = Some (a ++ n :: b) ->
  exists d, nodes h !! n = Some (mk_node d (first_or b None) (last_or a None) (Some l)).
Proof.
  intros Hok Hs. destruct (ok_linked _ _ Hok _ _ Hs) as [_ Hl]. apply linked_app in Hl as [_ [Hd _]]. done.
Qed.

(** A change of one list [l] from [s] to [s'] that touches only nodes of the two sequences. *)
Lemma heap_ok_change h C l s s' N' :
  heap_ok h C -> C !! l = Some s ->
  NoDup s' -> linked N' l None s' None ->
  (forall n, n ∉ s -> n ∉ s' -> N' !! n = nodes h !! n) ->
  (forall n, n ∈ s -> n ∉ s' -> exists d, N' !! n = Some (mk_node d None None None)) ->
  (forall n, n ∈ s' -> n ∈ s \/ exists nd, nodes h !! n = Some nd /\ owner nd = None) ->
  heap_ok (mk_heap N' (<[l := mk_list (zlen s') (first_or s' None) (last_or s' None)]> (lists h))) (<[l := s']> C).
Proof.
  intros Hok Hs Hnd Hlk Hsame Hout Hin.
  assert (Hkeep : forall l2 s2 n, C !! l2 = Some s2 -> l2 <> l -> n ∈ s2 -> n ∉ s /\ n ∉ s').
  { intros l2 s2 n H2 Hne Hn. assert (n ∉ s) by (intros Hn'; apply Hne; by eapply lists_disjoint).
    split; [done|]. intros Hn'. apply Hin in Hn' as [|(nd & Hnd' & Ho)]; [done|].
    destruct (in_list_owner _ _ _ _ _ Hok H2 Hn) as (nd2 & Hd2 & Ho2). congruence. }
  constructor; cbn [nodes lists].
  - intros l2. destruct (decide (l2 = l)) as [->|Hne].
    + rewrite !lookup_insert_eq. done.
    + rewrite !lookup_insert_ne by done. apply Hok.
  - intros l2 s2. destruct (decide (l2 = l)) as [->|Hne].
    + rewrite lookup_insert_eq. intros [= <-]. done.
    + rewrite lookup_insert_ne by done. intros H2. destruct (ok_linked _ _ Hok _ _ H2) as [Hnd2 Hl2].
      split; [done|]. eapply linked_agree; [|exact Hl2]. intros n Hn. apply Hsame; by eapply Hkeep.
  - intros n nd Hn Ho. destruct (decide (n ∈ s')) as [Hi|Hi].
    { destruct (linked_elem _ _ _ _ _ _ Hlk Hi) as (d & x & y & Hd). rewrite Hn in Hd. by injection Hd as ->. }
    destruct (decide (n ∈ s)) as [Hi'|Hi'].
    + destruct (Hout _ Hi' Hi) as [d Hd]. rewrite Hn in Hd. by injection Hd as ->.
    + rewrite Hsame in Hn by done. by eapply ok_free.
  - intros n nd l2 Hn Ho. destruct (decide (n ∈ s')) as [Hi|Hi].
    { destruct (linked_elem _ _ _ _ _ _ Hlk Hi) as (d & x & y & Hd). rewrite Hn in Hd. injection Hd as ->.
      injection Ho as <-. exists s'. by rewrite lookup_insert_eq. }
    destruct (decide (n ∈ s)) as [Hi'|Hi'].
    + destruct (Hout _ Hi' Hi) as [d Hd]. rewrite Hn in Hd. by injection Hd as ->.
    + rewrite Hsame in Hn by done. destruct (ok_owned _ _ Hok _ _ _ Hn Ho) as (s2 & H2 & Hi2).
      exists s2. rewrite lookup_insert_ne; [done|]. intros <-. congruence.
  - intros n nd Hn. destruct (decide (n ∈ s')) as [Hi|Hi].
    { apply Hin in Hi as [Hi|(nd' & Hnd' & _)]; [|by eapply ok_range].
      destruct (in_list_owner _ _ _ _ _ Hok Hs Hi) as (? & ? & _). by eapply ok_range. }
    destruct (decide (n ∈ s)) as [Hi'|Hi'].
    + destruct (in_list_owner _ _ _ _ _ Hok Hs Hi') as (? & ? & _). by eapply ok_range.
    + rewrite Hsame in Hn by done. by eapply ok_range.
Qed.

Lemma put_node_ok h n nd f :
  nodes h !! n = Some nd -> put_node h n f = Some (mk_heap (<[n := f nd]> (nodes h)) (lists h)).
Proof. intros Hn. unfold put_node. by rewrite Hn. Qed.

Lemma put_list_ok h l ls f :
  lists h !! l = Some ls -> put_list h l f = Some (mk_heap (nodes h) (<[l := f ls]> (lists h))).
Proof. intros Hl. unfold put_list. by rewrite Hl. Qed.

(** Evaluate one store, answering the object it finds by the rewriting tactic given. *)
Ltac store_step :=
  first [ erewrite put_node_ok by (cbn [nodes]; rewrite ?lookup_insert_eq; first [eassumption | reflexivity])
        | erewrite put_list_ok by (cbn [lists]; rewrite ?lookup_insert_eq; first [eassumption | reflexivity]) ];
  cbn [mbind option_bind nodes lists].

Lemma list_at h C l s : heap_ok h C -> C !! l = Some s ->
  lists h !! l = Some (mk_list (zlen s) (first_or s None) (last_or s None)).
Proof. intros Hok Hs. by rewrite (ok_lists _ _ Hok), Hs. Qed.

(** A node of no list passes the test of [list_append] and [list_push], any other fails it. *)
Lemma node_busy_spec h C l s n nd :
  heap_ok h C -> C !! l = Some s -> nodes h !! n = Some nd ->
  node_busy (mk_list (zlen s) (first_or s None) (last_or s None)) nd n = bool_decide (owner nd <> None).
Proof.
  intros Hok Hs Hn. unfold node_busy. destruct (decide (owner nd = None)) as [Ho|Ho].
  - rewrite (bool_decide_false (owner nd <> None)) by (by intros []).
    destruct (ok_free _ _ Hok _ _ Hn Ho) as [-> ->]. cbn [orb].
    assert (Hni : n ∉ s).
    { intros Hi. destruct (in_list_owner _ _ _ _ _ Hok Hs Hi) as (? & ? & ?). congruence. }
    rewrite (bool_decide_false (_ <> None)) by (by intros []). cbn [orb lhead ltail].
    rewrite !bool_decide_false; [done| |]; intros Heq; apply Hni.
    + unfold last_or in Heq. destruct (last s) as [m|] eqn:Hl; [|done]. injection Heq as ->.
      apply last_Some in Hl as [s' ->]. set_solver.
    + destruct s; [done|]. injection Heq as ->. set_solver.
  - by rewrite bool_decide_true.
Qed.

Lemma zlen_succ s n : zlen (s ++ [n]) = zlen s + 1.
Proof. rewrite zlen_app. done. Qed.

Lemma zlen_cons' s n : zlen (n :: s) = zlen s + 1.
Proof. unfold zlen. cbn [length]. lia. Qed.

(** The store after a node entered or left: keep the list record of the sequence. *)
Lemma free_node_notin h C l s n nd :
  heap_ok h C -> C !! l = Some s -> nodes h !! n = Some nd -> owner nd = None -> n ∉ s.
Proof. intros Hok Hs Hn Ho Hi. destruct (in_list_owner _ _ _ _ _ Hok Hs Hi) as (? & ? & ?). congruence. Qed.

Lemma grown_length h C l s s' n nd :
  heap_ok h C -> C !! l = Some s -> nodes h !! n = Some nd -> owner nd = None ->
  zlen s' = zlen s + 1 -> wrap (zlen s + 1) = zlen s'.
Proof.
  intros Hok Hs Hn Ho Hz. rewrite Hz. apply wrap_small. split; [pose proof (zlen_nonneg s); lia|].
  rewrite <- Hz. assert (Hz' : zlen s' = zlen (n :: s)) by (rewrite zlen_cons'; done). rewrite Hz'.
  destruct (ok_linked _ _ Hok _ _ Hs) as [Hnd Hl].
  apply bounded_length; [|intros m [->|Hm]%elem_of_cons|apply SIZE_MOD_pos].
  - constructor; [by eapply free_node_notin|done].
  - by eapply ok_range.
  - destruct (linked_elem _ _ _ _ _ _ Hl Hm) as (d & x & y & Hd). by eapply ok_range.
Qed.

(** Appending and pushing a node of no list put it at the end and at the front. *)
Lemma append_ok h C l s n nd :
  heap_ok h C -> C !! l = Some s -> nodes h !! n = Some nd -> owner nd = None ->
  exists h', list_append h (Some l) (Some n) = Some (true, h') /\ heap_ok h' (<[l := s ++ [n]]> C).
Proof.
  intros Hok Hs Hn Ho. pose proof (free_node_notin _ _ _ _ _ _ Hok Hs Hn Ho) as Hni.
  pose proof (grown_length _ _ _ _ (s ++ [n]) _ _ Hok Hs Hn Ho (zlen_succ s n)) as Hlen.
  destruct (ok_linked _ _ Hok _ _ Hs) as [Hnd Hlk]. unfold list_append.
  pose proof (list_at _ _ _ _ Hok Hs) as Hls. rewrite Hn, Hls. cbn [mbind option_bind].
  rewrite (node_busy_spec h C l) by done. rewrite bool_decide_false by (by intros []). cbn [llength].
  assert (Hnd' : NoDup (s ++ [n])) by (apply list.NoDup_app; split_and!; [done|set_solver|apply NoDup_singleton]).
  store_step. destruct s as [|t0 s0] eqn:Es.
  - change (zlen [] =? 0) with true. cbn iota. do 5 store_step.
    eexists. split; [reflexivity|]. rewrite !insert_insert_eq.
    unfold set_length, set_tail, set_head. cbn [llength lhead ltail first_or]. rewrite Hlen.
    apply (heap_ok_change h C l [] [n]); [done|done|exact Hnd'| | |set_solver|].
    + split; [|done]. rewrite lookup_insert_eq. by eexists.
    + intros m Hm1 Hm2. rewrite lookup_insert_ne by set_solver. done.
    + intros m Hm. right. assert (m = n) as -> by set_solver. eauto.
  - rewrite <- Es in *. assert (Hne : s <> []) by (by rewrite Es).
    assert ((zlen s =? 0) = false) as -> by (apply Z.eqb_neq; subst; rewrite zlen_cons'; pose proof (zlen_nonneg s0); lia).
    destruct (exists_last Hne) as (s' & t & Es'). clear Es t0 s0. subst s. cbn iota. cbn [ltail].
    rewrite last_or_app. change (last_or [t] _) with (Some t).
    assert (Htn : t <> n) by set_solver.
    pose proof Hlk as [Hl1 [[d Hd] _]]%linked_app. cbn [first_or] in Hd.
    rewrite (put_node_ok _ t (mk_node d None (last_or s' None) (Some l))) by (cbn [nodes]; by rewrite lookup_insert_ne).
    cbn [mbind option_bind nodes lists].
    rewrite (put_node_ok _ n (set_next None nd)) by (cbn [nodes]; by rewrite lookup_insert_ne, lookup_insert_eq).
    cbn [mbind option_bind nodes lists]. do 3 store_step.
    eexists. split; [reflexivity|]. rewrite !insert_insert_eq.
    unfold set_length, set_tail, set_head. cbn [llength lhead ltail]. rewrite Hlen.
    match goal with |- heap_ok (mk_heap ?N (<[l := mk_list _ ?a ?b]> _)) _ => 
      replace a with (first_or ((s' ++ [t]) ++ [n]) None) by (rewrite !first_or_app; by destruct s');
      replace b with (last_or ((s' ++ [t]) ++ [n]) None) by (by rewrite last_or_app) end.
    apply (heap_ok_change h C l (s' ++ [t])); [done|done|exact Hnd'| | | |].
    + apply linked_app. rewrite last_or_app. cbn [first_or linked last_or last]. split.
      * apply linked_app. split; cbn [linked first_or last_or last].
        -- eapply linked_agree; [|exact Hl1]. intros m Hm. apply list.NoDup_app in Hnd as (_ & Hd' & _).
           rewrite !lookup_insert_ne by (clear -Hni Hd' Hm; set_solver). done.
        -- split; [|done]. rewrite lookup_insert_ne, lookup_insert_eq by done. by eexists.
      * split; [|done]. rewrite lookup_insert_eq, last_or_app. by eexists.
    + intros m Hm1 Hm2. rewrite !lookup_insert_ne by set_solver. done.
    + set_solver.
    + intros m Hm. destruct (decide (m = n)) as [->|]; [right; eauto|left; set_solver].
Qed.

Lemma push_ok h C l s n nd :
  heap_ok h C -> C !! l = Some s -> nodes h !! n = Some nd -> owner nd = None ->
  exists h', list_push h (Some l) (Some n) = Some (true, h') /\ heap_ok h' (<[l := n :: s]> C).
Proof.
  intros Hok Hs Hn Ho. pose proof (free_node_notin _ _ _ _ _ _ Hok Hs Hn Ho) as Hni.
  pose proof (grown_length _ _ _ _ (n :: s) _ _ Hok Hs Hn Ho (zlen_cons' s n)) as Hlen.
  destruct (ok_linked _ _ Hok _ _ Hs) as [Hnd Hlk]. unfold list_push.
  pose proof (list_at _ _ _ _ Hok Hs) as Hls. rewrite Hn, Hls. cbn [mbind option_bind].
  rewrite (node_busy_spec h C l) by done. rewrite bool_decide_false by (by intros []). cbn [llength].
  assert (Hnd' : NoDup (n :: s)) by (by constructor).
  store_step. destruct s as [|t s].
  - change (zlen [] =? 0) with true. cbn iota. do 5 store_step.
    eexists. split; [reflexivity|]. rewrite !insert_insert_eq.
    unfold set_length, set_tail, set_head. cbn [llength lhead ltail first_or]. rewrite Hlen.
    apply (heap_ok_change h C l [] [n]); [done|done|exact Hnd'| | |set_solver|].
    + split; [|done]. rewrite lookup_insert_eq. by eexists.
    + intros m Hm1 Hm2. rewrite lookup_insert_ne by set_solver. done.
    + intros m Hm. right. assert (m = n) as -> by set_solver. eauto.
  - assert ((zlen (t :: s) =? 0) = false) as -> by (apply Z.eqb_neq; rewrite zlen_cons'; pose proof (zlen_nonneg s); lia).
    cbn iota. cbn [lhead first_or]. assert (Htn : t <> n) by set_solver.
    pose proof Hlk as [[d Hd] Hl1].
    rewrite (put_node_ok _ t (mk_node d (first_or s None) None (Some l))) by (cbn [nodes]; by rewrite lookup_insert_ne).
    cbn [mbind option_bind nodes lists].
    rewrite (put_node_ok _ n (set_prev None nd)) by (cbn [nodes]; by rewrite lookup_insert_ne, lookup_insert_eq).
    cbn [mbind option_bind nodes lists]. do 3 store_step.
    eexists. split; [reflexivity|]. rewrite !insert_insert_eq.
    unfold set_length, set_tail, set_head. cbn [llength lhead ltail]. rewrite Hlen.
    replace (last_or (t :: s) None) with (last_or (n :: t :: s) None) by (by rewrite !last_or_cons).
    apply (heap_ok_change h C l (t :: s) (n :: t :: s)); [done|done|exact Hnd'| | | |].
    + cbn [linked first_or]. split_and!.
      * rewrite lookup_insert_eq. by eexists.
      * rewrite lookup_insert_ne, lookup_insert_eq by done. by eexists.
      * apply list.NoDup_cons in Hnd as [Ht _]. do 3 (apply linked_frame; [set_solver|]). exact Hl1.
    + intros m Hm1 Hm2. rewrite !lookup_insert_ne by set_solver. done.
    + set_solver.
    + intros m Hm. destruct (decide (m = n)) as [->|]; [right; eauto|left; set_solver].
Qed.

Lemma alter_known (N : gmap Z list_node_t) n nd f : N !! n = Some nd -> alter f n N = <[n := f nd]> N.
Proof.
  intros Hn. apply map_eq. intros i. destruct (decide (n = i)) as [<-|Hne].
  - by rewrite lookup_alter_eq, lookup_insert_eq, Hn.
  - by rewrite lookup_alter_ne, lookup_insert_ne.
Qed.

Definition present (N : gmap Z list_node_t) (s : list Z) : Prop := forall n, n ∈ s -> is_Some (N !! n).

Lemma linked_present N o p s q : linked N o p s q -> present N s.
Proof. intros Hl n Hn. destruct (linked_elem _ _ _ _ _ _ Hl Hn) as (d & x & y & Hd). by eexists. Qed.

(** Setting the outer links of a segment, or the ends of the list when the segment is empty. *)
Lemma put_before h l ls s v :
  present (nodes h) s -> lists h !! l = Some ls ->
  match last_or s None with Some t => put_node h t (set_next v) | None => put_list h l (set_head v) end =
  Some (mk_heap (upd_last (nodes h) s v) (<[l := if decide (s = []) then set_head v ls else ls]> (lists h))).
Proof.
  intros Hl Hls. destruct (decide (s = [])) as [->|Hs].
  - cbn. by rewrite (put_list_ok _ _ _ _ Hls).
  - destruct (exists_last Hs) as (s' & t & ->). rewrite last_or_app, insert_id by done. cbn.
    destruct (Hl t) as [nd Hd]; [set_solver|]. unfold upd_last. rewrite last_snoc.
    by rewrite (alter_known _ _ _ _ Hd), (put_node_ok _ _ _ _ Hd).
Qed.

Lemma put_after h l ls s v :
  present (nodes h) s -> lists h !! l = Some ls ->
  match first_or s None with Some t => put_node h t (set_prev v) | None => put_list h l (set_tail v) end =
  Some (mk_heap (upd_first (nodes h) s v) (<[l := if decide (s = []) then set_tail v ls else ls]> (lists h))).
Proof.
  intros Hl Hls. destruct s as [|t s].
  - cbn. by rewrite (put_list_ok _ _ _ _ Hls).
  - rewrite decide_False, insert_id by done. destruct (Hl t) as [nd Hd]; [set_solver|]. cbn [first_or upd_first].
    by rewrite (alter_known _ _ _ _ Hd), (put_node_ok _ _ _ _ Hd).
Qed.

Lemma unlink_ok h C l a n b :
  heap_ok h C -> C !! l = Some (a ++ n :: b) ->
  exists h', unlink h l n (last_or a None) (first_or b None) = Some h' /\ heap_ok h' (<[l := a ++ b]> C).
Proof.
  intros Hok Hs. destruct (ok_linked _ _ Hok _ _ Hs) as [Hnd Hlk]. pose proof (list_at _ _ _ _ Hok Hs) as Hls.
  pose proof Hlk as [Ha [[d Hd] Hb]]%linked_app. cbn [first_or] in Ha.
  pose proof Hnd as (Hnda & Hab & Hndb)%list.NoDup_app. apply list.NoDup_cons in Hndb as [Hnb Hndb].
  unfold unlink. rewrite (put_before h l _ a _ (linked_present _ _ _ _ _ Ha) Hls). cbn [mbind option_bind].
  assert (Hb1 : linked (upd_last (nodes h) a (first_or b None)) l (Some n) b None)
    by (apply linked_frame_last; [set_solver|done]).
  erewrite (put_after _ l _ b); [|exact (linked_present _ _ _ _ _ Hb1)|cbn [lists]; apply lookup_insert_eq].
  cbn [mbind option_bind nodes lists].
  set (N1 := upd_first (upd_last (nodes h) a (first_or b None)) b (last_or a None)).
  assert (Hn1 : N1 !! n = Some (mk_node d (first_or b None) (last_or a None) (Some l))).
  { unfold N1. rewrite upd_first_other, upd_last_other by set_solver. done. }
  do 4 store_step. eexists. split; [reflexivity|]. rewrite !insert_insert_eq.
  match goal with |- heap_ok (mk_heap _ (<[l := ?r]> _)) _ =>
    replace r with (mk_list (zlen (a ++ b)) (first_or (a ++ b) None) (last_or (a ++ b) None)) end.
  - apply (heap_ok_change h C l (a ++ n :: b)); [done|done| | | | |].
    + apply list.NoDup_app. set_solver.
    + apply linked_app. split; (apply linked_frame; [set_solver|]); unfold N1.
      * apply linked_frame_first; [set_solver|]. by eapply linked_upd_last.
      * by eapply linked_upd_first.
    + intros m Hm1 _. rewrite lookup_insert_ne by set_solver. unfold N1.
      rewrite upd_first_other, upd_last_other by set_solver. done.
    + intros m Hm1 Hm2. assert (m = n) as -> by set_solver. rewrite lookup_insert_eq. by eexists.
    + set_solver.
  - assert (Hw : wrap (zlen (a ++ n :: b) - 1) = zlen (a ++ b)).
    { pose proof (ok_length _ _ _ _ Hok Hs) as Hlt. pose proof (zlen_nonneg a). pose proof (zlen_nonneg b).
      rewrite !zlen_app, zlen_cons' in *. replace (zlen a + (zlen b + 1) - 1) with (zlen a + zlen b) by lia.
      apply wrap_small. lia. }
    rewrite <- Hw. unfold set_length. rewrite first_or_app, last_or_app.
    destruct a as [|x a], b as [|y b]; rewrite ?decide_True, ?decide_False by done;
      unfold set_head, set_tail; cbn [llength lhead ltail]; f_equal; try done;
      by rewrite ?last_or_app, ?last_or_cons.
Qed.

(** *** Removing *)

Lemma ll_remove_split a n b : NoDup (a ++ n :: b) -> ll_remove (a ++ n :: b) n = a ++ b.
Proof.
  intros (_ & Hab & [Hnb _]%list.NoDup_cons)%list.NoDup_app. unfold ll_remove.
  assert (Hid : forall s, n ∉ s -> filter (fun u => u <> n) s = s).
  { intros s Hs. induction s as [|m s IH]; [done|]. rewrite filter_cons, decide_True by set_solver.
    f_equal. apply IH. set_solver. }
  rewrite filter_app, filter_cons, decide_False by (by intros []).
  rewrite !Hid by (done || (intros Hn; apply (Hab n Hn); set_solver)). done.
Qed.

Lemma ll_remove_other s n : n ∉ s -> ll_remove s n = s.
Proof.
  intros Hs. unfold ll_remove. induction s as [|m s IH]; [done|]. rewrite filter_cons, decide_True by set_solver.
  f_equal. apply IH. set_solver.
Qed.

Lemma links_valid_ok h C l a n b :
  heap_ok h C -> C !! l = Some (a ++ n :: b) -> links_valid h l n = Some true.
Proof.
  intros Hok Hs. destruct (ok_linked _ _ Hok _ _ Hs) as [Hnd Hlk]. pose proof (list_at _ _ _ _ Hok Hs) as Hls.
  pose proof Hlk as [Ha [[d Hd] Hb]]%linked_app. cbn [first_or] in Ha. unfold links_valid. rewrite Hd, Hls.
  cbn [mbind option_bind owner nprev nnext lhead ltail]. rewrite bool_decide_true by done. cbn [negb].
  assert (Hp : match last_or a None with None => Some false
               | Some p => pd ← nodes h !! p; Some (negb (bool_decide (nnext pd = Some n))) end = Some false).
  { destruct (decide (a = [])) as [->|Hne]; [done|]. destruct (exists_last Hne) as (a' & p & ->).
    rewrite last_or_app. cbn [last_or last]. apply linked_app in Ha as [_ [[d' Hd'] _]]. rewrite Hd'. cbn.
    by rewrite bool_decide_true. }
  assert (Hx : match first_or b None with None => Some false
               | Some x => xd ← nodes h !! x; Some (negb (bool_decide (nprev xd = Some n))) end = Some false).
  { destruct b as [|x b]; [done|]. destruct Hb as [[d' Hd'] _]. cbn [first_or]. rewrite Hd'. cbn.
    by rewrite bool_decide_true. }
  rewrite Hp. cbn [mbind option_bind]. rewrite Hx. cbn [mbind option_bind].
  rewrite first_or_app, last_or_app, last_or_cons. cbn [first_or].
  destruct (decide (a = [])) as [->|Hne].
  - cbn [first_or]. rewrite (bool_decide_true (Some n = Some n)) by done. cbn [negb andb].
    destruct b as [|x b]; [|by rewrite andb_comm]. cbn. by rewrite bool_decide_true.
  - destruct (exists_last Hne) as (a' & p & ->). rewrite (last_or_app a'). cbn [last_or last].
    rewrite (bool_decide_false (Some p = None)), andb_false_r by done.
    destruct b as [|x b]; [|by rewrite andb_comm]. cbn. by rewrite bool_decide_true.
Qed.

Lemma remove_walk_miss h o n s limit p p' :
  linked (nodes h) o p s None -> n ∉ s -> (length s <= limit)%nat ->
  exists q, remove_walk limit h n p' (first_or s None) = Some (q, None).
Proof.
  revert limit p p'. induction s as [|x s IH]; intros limit p p' Hl Hn Hlen.
  { exists p'. by destruct limit. }
  destruct Hl as [[d Hd] Hl]. cbn in Hlen. destruct limit as [|limit]; [lia|]. cbn [first_or remove_walk].
  rewrite (proj2 (Z.eqb_neq x n)) by set_solver. rewrite Hd. cbn [mbind option_bind nnext].
  eapply IH; [done|set_solver|lia].
Qed.

Lemma remove_ok h C l s n nd :
  heap_ok h C -> C !! l = Some s -> nodes h !! n = Some nd ->
  exists h', list_remove h (Some l) (Some n) = Some (bool_decide (n ∈ s), h') /\ heap_ok h' (<[l := ll_remove s n]> C).
Proof.
  intros Hok Hs Hn. unfold list_remove. rewrite (list_at _ _ _ _ Hok Hs). cbn [mbind option_bind llength].
  destruct (decide (n ∈ s)) as [Hi|Hi].
  - rewrite bool_decide_true by done. apply list_elem_of_split in Hi as (a & b & ->).
    assert ((zlen (a ++ n :: b) =? 0) = false) as ->.
    { apply Z.eqb_neq. rewrite zlen_app, zlen_cons'. pose proof (zlen_nonneg a). pose proof (zlen_nonneg b). lia. }
    destruct (node_at _ _ _ _ _ _ Hok Hs) as [d Hd]. rewrite Hd. cbn [mbind option_bind].
    rewrite (links_valid_ok _ _ _ _ _ _ Hok Hs). cbn [mbind option_bind nprev nnext].
    destruct (unlink_ok _ _ _ _ _ _ Hok Hs) as (h' & -> & Hok'). exists h'. split; [done|].
    rewrite ll_remove_split; [done|]. by apply (ok_linked _ _ Hok l).
  - rewrite bool_decide_false by done. rewrite ll_remove_other, insert_id by done. exists h. split; [|done].
    case_test; [done|]. rewrite Hn. cbn [mbind option_bind].
    assert (links_valid h l n = Some false) as ->.
    { unfold links_valid. rewrite Hn, (list_at _ _ _ _ Hok Hs). cbn [mbind option_bind].
      rewrite bool_decide_false; [done|]. intros Ho. destruct (ok_owned _ _ Hok _ _ _ Hn Ho) as (s' & Hs' & ?). congruence. }
    cbn [mbind option_bind lhead].
    destruct (remove_walk_miss h l n s (Z.to_nat (zlen s)) None None) as [q Hq];
      [by apply (ok_linked _ _ Hok)|done|unfold zlen; lia|].
    rewrite Hq. done.
Qed.

(** *** Finding and popping *)

Lemma seq_le_size h C l s : heap_ok h C -> C !! l = Some s -> (length s <= size (nodes h))%nat.
Proof.
  intros Hok Hs. destruct (ok_linked _ _ Hok _ _ Hs) as [Hnd Hl].
  rewrite <- (size_list_to_set (C := gset Z) s) by done. rewrite <- (size_dom (D := gset Z)).
  apply subseteq_size. intros n Hn. apply elem_of_list_to_set in Hn. apply elem_of_dom.
  destruct (linked_elem _ _ _ _ _ _ Hl Hn) as (d & x & y & Hd). by eexists.
Qed.

Definition has_data h (d n : Z) : Prop := data <$> nodes h !! n = Some d.
#[local] Instance has_data_dec h d n : Decision (has_data h d n).
Proof. unfold has_data. apply _. Defined.

Lemma find_loop_ok h o p s d fuel :
  linked (nodes h) o p s None -> (length s < fuel)%nat ->
  find_loop fuel h d (first_or s None) = Some (head (filter (has_data h d) s)).
Proof.
  revert fuel p. induction s as [|n s IH]; intros fuel p Hl Hf; destruct fuel as [|fuel]; try (cbn in Hf; lia); [done|].
  destruct Hl as [[x Hx] Hl]. cbn [first_or find_loop]. rewrite Hx. cbn [mbind option_bind data nnext].
  rewrite filter_cons. assert (Hh : has_data h d n <-> x = d) by (unfold has_data; rewrite Hx; cbn; naive_solver).
  case_test.
  - rewrite decide_True by (by apply Hh). done.
  - rewrite decide_False by (by rewrite Hh). eapply IH; [done|]. cbn in Hf. lia.
Qed.

Lemma find_ok h C l s d :
  heap_ok h C -> C !! l = Some s -> list_find h l d = Some (head (filter (has_data h d) s)).
Proof.
  intros Hok Hs. unfold list_find. rewrite (list_at _ _ _ _ Hok Hs). cbn [mbind option_bind lhead].
  eapply find_loop_ok; [by apply (ok_linked _ _ Hok)|]. pose proof (seq_le_size _ _ _ _ Hok Hs). lia.
Qed.

Lemma pop_ok h C l s :
  heap_ok h C -> C !! l = Some s ->
  exists h', list_pop h (Some l) = Some (last s, h') /\ heap_ok h' (<[l := removelast s]> C).
Proof.
  intros Hok Hs. unfold list_pop. rewrite (list_at _ _ _ _ Hok Hs). cbn [mbind option_bind llength ltail].
  destruct (decide (s = [])) as [->|Hne].
  { exists h. split; [done|]. cbn [removelast]. by rewrite insert_id. }
  destruct (exists_last Hne) as (a & n & ->). rewrite last_snoc, removelast_last, last_or_app. cbn [last_or last].
  assert ((zlen (a ++ [n]) =? 0) = false) as ->.
  { apply Z.eqb_neq. rewrite zlen_succ. pose proof (zlen_nonneg a). lia. }
  destruct (in_list_owner _ _ _ _ n Hok Hs) as (nd & Hn & _); [set_solver|].
  destruct (remove_ok _ _ _ _ _ _ Hok Hs Hn) as (h' & Hr & Hok'). rewrite bool_decide_true in Hr by set_solver.
  rewrite Hr. exists h'. split; [done|]. rewrite ll_remove_split, app_nil_r in Hok'; [done|]. by apply (ok_linked _ _ Hok l).
Qed.

Lemma pop_front_ok h C l s :
  heap_ok h C -> C !! l = Some s ->
  exists h', list_pop_front h (Some l) = Some (head s, h') /\ heap_ok h' (<[l := tail s]> C).
Proof.
  intros Hok Hs. unfold list_pop_front. rewrite (list_at _ _ _ _ Hok Hs). cbn [mbind option_bind llength lhead].
  destruct s as [|n b].
  { exists h. split; [done|]. cbn [tail]. by rewrite insert_id. }
  assert ((zlen (n :: b) =? 0) = false) as ->.
  { apply Z.eqb_neq. rewrite zlen_cons'. pose proof (zlen_nonneg b). lia. }
  destruct (in_list_owner _ _ _ _ n Hok Hs) as (nd & Hn & _); [set_solver|].
  destruct (remove_ok _ _ _ _ _ _ Hok Hs Hn) as (h' & Hr & Hok'). rewrite bool_decide_true in Hr by set_solver.
  cbn [first_or]. rewrite Hr. exists h'. split; [done|].
  pose proof (ll_remove_split [] n b) as Hrm. cbn [app] in Hrm. rewrite Hrm in Hok'; [done|]. by apply (ok_linked _ _ Hok l).
Qed.

(** *** Swapping *)

Lemma upd_last_present N t q s : present N s -> present (upd_last N t q) s.
Proof.
  intros Hp n Hn. unfold upd_last. destruct (last t) as [m|]; [|by apply Hp].
  destruct (decide (m = n)) as [->|]; [rewrite lookup_alter_eq|rewrite lookup_alter_ne by done; by apply Hp].
  apply fmap_is_Some. by apply Hp.
Qed.

Lemma relink_ok h l ls n d P Q :
  nodes h !! n = Some (mk_node d (first_or Q None) (last_or P None) (Some l)) -> lists h !! l = Some ls ->
  n ∉ P -> present (nodes h) P -> present (nodes h) Q ->
  relink h l n =
  Some (mk_heap (upd_first (upd_last (nodes h) P (Some n)) Q (Some n))
    (<[l := mk_list (llength ls) (if decide (P = []) then Some n else lhead ls)
              (if decide (Q = []) then Some n else ltail ls)]> (lists h))).
Proof.
  intros Hn Hls HnP HP HQ. unfold relink. rewrite Hn. cbn [mbind option_bind nprev].
  rewrite (put_before h l ls P) by done. cbn [mbind option_bind nodes].
  rewrite upd_last_other, Hn by done. cbn [mbind option_bind nnext].
  erewrite put_after; [|cbn [nodes]; by apply upd_last_present|cbn [lists]; apply lookup_insert_eq].
  cbn [nodes lists]. rewrite insert_insert_eq. do 3 f_equal. destruct ls. by repeat case_decide.
Qed.

Section Swap.
Variables (l x y : Z) (a b c : list Z).
Hypothesis (Hnd : NoDup (a ++ x :: b ++ y :: c)).

(** The five segments of the sequence with [x] and [y] exchanged, up to the outer links of three. *)
Definition seg5 (N : gmap Z list_node_t) (qa pb qb pc : ptr Z) : Prop :=
  linked N l None a qa /\
  (exists d, N !! y = Some (mk_node d (first_or b (Some x)) (last_or a None) (Some l))) /\
  linked N l pb b qb /\
  (exists d, N !! x = Some (mk_node d (first_or c None) (last_or b (Some y)) (Some l))) /\
  linked N l pc c None.

Lemma swap_facts :
  NoDup a /\ NoDup b /\ NoDup c /\ x <> y /\ x ∉ a /\ x ∉ b /\ x ∉ c /\ y ∉ a /\ y ∉ b /\ y ∉ c /\
  (forall n, n ∈ a -> n ∉ b /\ n ∉ c) /\ (forall n, n ∈ b -> n ∉ c).
Proof.
  apply list.NoDup_app in Hnd as (Ha & Hax & Hr). apply list.NoDup_cons in Hr as [Hx Hr].
  apply list.NoDup_app in Hr as (Hb & Hbx & Hr). apply list.NoDup_cons in Hr as [Hy Hc].
  split_and!; try done; set_solver.
Qed.

Lemma seg5_present N qa pb qb pc : seg5 N qa pb qb pc -> present N (a ++ y :: b ++ x :: c).
Proof.
  intros (Ha & [dy Hy] & Hb & [dx Hx] & Hc) n Hn.
  rewrite elem_of_app, elem_of_cons, elem_of_app, elem_of_cons in Hn.
  destruct Hn as [Hn|[->|[Hn|[->|Hn]]]]; [exact (linked_present _ _ _ _ _ Ha n Hn)|by eexists|exact (linked_present _ _ _ _ _ Hb n Hn)|by eexists|exact (linked_present _ _ _ _ _ Hc n Hn)].
Qed.

Lemma seg5_x_prev N qa pb qb pc :
  seg5 N qa pb qb pc -> seg5 (upd_last N (a ++ y :: b) (Some x)) qa pb (Some x) pc.
Proof.
  destruct swap_facts as (Ha & Hb & Hc & Hxy & Hxa & Hxb & Hxc & Hya & Hyb & Hyc & Hab & Hbc).
  intros (La & [dy Hy] & Lb & [dx Hx] & Lc). destruct (decide (b = [])) as [Eb|Hne].
  - assert (Hu : forall n, upd_last N (a ++ y :: b) (Some x) !! n = N !! n).
    { intros n. unfold upd_last. rewrite Eb, last_app. cbn [last]. destruct (decide (n = y)) as [->|].
      - rewrite lookup_alter_eq, Hy, Eb. done.
      - by rewrite lookup_alter_ne. }
    split_and!; [by apply (linked_agree N)|rewrite Hu; by eexists|by rewrite Eb|rewrite Hu; by eexists|by apply (linked_agree N)].
  - assert (Hu : upd_last N (a ++ y :: b) (Some x) = upd_last N b (Some x)).
    { destruct (exists_last Hne) as (b' & m & ->). unfold upd_last. by rewrite app_comm_cons, app_assoc, !last_snoc. }
    rewrite Hu. split_and!.
    + apply linked_frame_last; [set_solver|done].
    + rewrite upd_last_other by done. by eexists.
    + by eapply linked_upd_last.
    + rewrite upd_last_other by done. by eexists.
    + apply linked_frame_last; [set_solver|done].
Qed.

Lemma seg5_x_next N qa pb qb pc :
  seg5 N qa pb qb pc -> seg5 (upd_first N c (Some x)) qa pb qb (Some x).
Proof.
  destruct swap_facts as (Ha & Hb & Hc & Hxy & Hxa & Hxb & Hxc & Hya & Hyb & Hyc & Hab & Hbc).
  intros (La & [dy Hy] & Lb & [dx Hx] & Lc). split_and!.
  - apply linked_frame_first; [set_solver|done].
  - rewrite upd_first_other by done. by eexists.
  - apply linked_frame_first; [set_solver|done].
  - rewrite upd_first_other by done. by eexists.
  - by eapply linked_upd_first.
Qed.

Lemma seg5_y_prev N qa pb qb pc :
  seg5 N qa pb qb pc -> seg5 (upd_last N a (Some y)) (Some y) pb qb pc.
Proof.
  destruct swap_facts as (Ha & Hb & Hc & Hxy & Hxa & Hxb & Hxc & Hya & Hyb & Hyc & Hab & Hbc).
  intros (La & [dy Hy] & Lb & [dx Hx] & Lc). split_and!.
  - by eapply linked_upd_last.
  - rewrite upd_last_other by done. by eexists.
  - apply linked_frame_last; [set_solver|done].
  - rewrite upd_last_other by done. by eexists.
  - apply linked_frame_last; [set_solver|done].
Qed.

Lemma seg5_y_next N qa pb qb pc :
  seg5 N qa pb qb pc -> seg5 (upd_first N (b ++ x :: c) (Some y)) qa (Some y) qb pc.
Proof.
  destruct swap_facts as (Ha & Hb & Hc & Hxy & Hxa & Hxb & Hxc & Hya & Hyb & Hyc & Hab & Hbc).
  intros (La & [dy Hy] & Lb & [dx Hx] & Lc). destruct (decide (b = [])) as [Eb|Hne].
  - assert (Hu : forall n, upd_first N (b ++ x :: c) (Some y) !! n = N !! n).
    { intros n. rewrite Eb. cbn [app upd_first]. destruct (decide (n = x)) as [->|].
      - rewrite lookup_alter_eq, Hx, Eb. done.
      - by rewrite lookup_alter_ne. }
    split_and!; [by apply (linked_agree N)|rewrite Hu; by eexists|by rewrite Eb|rewrite Hu; by eexists|by apply (linked_agree N)].
  - assert (Hu : upd_first N (b ++ x :: c) (Some y) = upd_first N b (Some y)) by (by destruct b).
    rewrite Hu. split_and!.
    + apply linked_frame_first; [set_solver|done].
    + rewrite upd_first_other by done. by eexists.
    + by eapply linked_upd_first.
    + rewrite upd_first_other by done. by eexists.
    + apply linked_frame_first; [set_solver|done].
Qed.

Lemma seg5_done N : seg5 N (Some y) (Some y) (Some x) (Some x) -> linked N l None (a ++ y :: b ++ x :: c) None.
Proof.
  intros (La & Hy & Lb & Hx & Lc). apply linked_app. split; [done|]. cbn [linked]. rewrite first_or_app. split; [done|].
  apply linked_app. split; [done|]. by split.
Qed.
End Swap.

Lemma seg5_parts l x y a b c N qa pb qb pc :
  seg5 l x y a b c N qa pb qb pc -> present N (a ++ y :: b) /\ present N c /\ present N a /\ present N (b ++ x :: c).
Proof.
  intros Hn. pose proof (seg5_present _ _ _ _ _ _ _ _ _ _ _ Hn) as Hp. split_and!; intros n Hn'; apply Hp; set_solver.
Qed.

(** The list record after the exchange. *)
Lemma swap_record x y a b c :
  let s' := a ++ y :: b ++ x :: c in let s := a ++ x :: b ++ y :: c in
  mk_list (zlen s') (first_or s' None) (last_or s' None) =
  mk_list (zlen s) (if decide (a = []) then Some y else first_or s None) (if decide (c = []) then Some x else last_or s None).
Proof.
  cbn zeta. f_equal.
  - rewrite !zlen_app, !zlen_cons', !zlen_app, !zlen_cons'. lia.
  - by destruct a.
  - rewrite !last_or_app, !last_or_cons, !last_or_app, !last_or_cons. destruct (decide (c = [])) as [->|Hne]; [done|].
    destruct (exists_last Hne) as (c' & m & ->). by rewrite !last_or_app.
Qed.

Lemma swap_heap_ok h C l x y a b c (N1 N2 : gmap Z list_node_t) :
  heap_ok h C -> C !! l = Some (a ++ x :: b ++ y :: c) ->
  (forall n, n <> x -> n <> y -> N1 !! n = nodes h !! n) ->
  seg5 l x y a b c N2 (Some y) (Some y) (Some x) (Some x) ->
  (forall n, n ∉ a ++ y :: b ++ x :: c -> N2 !! n = N1 !! n) ->
  heap_ok (mk_heap N2 (<[l := mk_list (zlen (a ++ x :: b ++ y :: c))
      (if decide (a = []) then Some y else first_or (a ++ x :: b ++ y :: c) None)
      (if decide (c = []) then Some x else last_or (a ++ x :: b ++ y :: c) None)]> (lists h)))
    (<[l := a ++ y :: b ++ x :: c]> C).
Proof.
  intros Hok Hs Hoth H2 Ho2. destruct (ok_linked _ _ Hok _ _ Hs) as [Hnd _].
  destruct (swap_facts x y a b c Hnd) as (Ha & Hb & Hc & Hxy & Hxa & Hxb & Hxc & Hya & Hyb & Hyc & Hab & Hbc).
  rewrite <- swap_record.
  apply (heap_ok_change h C l (a ++ x :: b ++ y :: c)); [done|done| |by apply seg5_done| |set_solver|set_solver].
  - rewrite list.NoDup_app, list.NoDup_cons, list.NoDup_app, list.NoDup_cons. set_solver.
  - intros n Hn1 Hn2. rewrite Ho2 by done. apply Hoth; set_solver.
Qed.

(** From exchanged nodes to the exchanged list, in whichever order the neighbours are relinked. *)
Lemma swap_finish h C l x y a b c N1 (first second : Z) :
  heap_ok h C -> C !! l = Some (a ++ x :: b ++ y :: c) ->
  seg5 l x y a b c N1 (Some x) (Some x) (Some y) (Some y) ->
  (forall n, n <> x -> n <> y -> N1 !! n = nodes h !! n) ->
  (first = x /\ second = y) \/ (first = y /\ second = x) ->
  exists h', (h ← relink (mk_heap N1 (lists h)) l first; h ← relink h l second; Some (true, h)) = Some (true, h') /\
    heap_ok h' (<[l := a ++ y :: b ++ x :: c]> C).
Proof.
  intros Hok Hs Hseg Hoth Hord. destruct (ok_linked _ _ Hok _ _ Hs) as [Hnd _].
  pose proof (list_at _ _ _ _ Hok Hs) as Hls.
  destruct (swap_facts x y a b c Hnd) as (_ & _ & _ & Hxy & Hxa & Hxb & Hxc & Hya & Hyb & Hyc & _).
  assert (HPx : (a ++ y :: b) <> []) by (by destruct a). assert (HQy : (b ++ x :: c) <> []) by (by destruct b).
  pose proof Hseg as (_ & [dy Hy] & _ & [dx Hx] & _).
  destruct (seg5_parts _ _ _ _ _ _ _ _ _ _ _ Hseg) as (P1 & P2 & P3 & P4). destruct Hord as [[-> ->]|[-> ->]].
  - erewrite (relink_ok _ l _ x dx (a ++ y :: b) c);
      [|cbn [nodes]; rewrite Hx, last_or_app, last_or_cons; reflexivity|exact Hls|set_solver|done|done].
    cbn [mbind option_bind nodes lists llength lhead ltail]. rewrite (decide_False (P := a ++ y :: b = [])) by done.
    pose proof (seg5_x_next _ _ _ _ _ _ Hnd _ _ _ _ _ (seg5_x_prev _ _ _ _ _ _ Hnd _ _ _ _ _ Hseg)) as Hseg2.
    destruct (seg5_parts _ _ _ _ _ _ _ _ _ _ _ Hseg2) as (_ & _ & Q3 & Q4). pose proof Hseg2 as (_ & [dy2 Hy2] & _).
    erewrite (relink_ok _ l _ y dy2 a (b ++ x :: c));
      [|cbn [nodes]; rewrite Hy2, first_or_app; reflexivity|cbn [lists]; apply lookup_insert_eq|done|done|done].
    cbn [mbind option_bind nodes lists llength lhead ltail]. rewrite (decide_False (P := b ++ x :: c = [])) by done.
    rewrite insert_insert_eq. eexists. split; [reflexivity|]. eapply (swap_heap_ok h C l x y a b c N1); try done.
    + eapply seg5_y_next; [done|]. by eapply seg5_y_prev.
    + intros n Hn. rewrite upd_first_other, upd_last_other, upd_first_other, upd_last_other by set_solver. done.
  - erewrite (relink_ok _ l _ y dy a (b ++ x :: c));
      [|cbn [nodes]; rewrite Hy, first_or_app; reflexivity|exact Hls|done|done|done].
    cbn [mbind option_bind nodes lists llength lhead ltail]. rewrite (decide_False (P := b ++ x :: c = [])) by done.
    pose proof (seg5_y_next _ _ _ _ _ _ Hnd _ _ _ _ _ (seg5_y_prev _ _ _ _ _ _ Hnd _ _ _ _ _ Hseg)) as Hseg2.
    destruct (seg5_parts _ _ _ _ _ _ _ _ _ _ _ Hseg2) as (Q1 & Q2 & _). pose proof Hseg2 as (_ & _ & _ & [dx2 Hx2] & _).
    erewrite (relink_ok _ l _ x dx2 (a ++ y :: b) c);
      [|cbn [nodes]; rewrite Hx2, last_or_app, last_or_cons; reflexivity|cbn [lists]; apply lookup_insert_eq|set_solver|done|done].
    cbn [mbind option_bind nodes lists llength lhead ltail]. rewrite (decide_False (P := a ++ y :: b = [])) by done.
    rewrite insert_insert_eq. eexists. split; [reflexivity|]. eapply (swap_heap_ok h C l x y a b c N1); try done.
    + eapply seg5_x_next; [done|]. by eapply seg5_x_prev.
    + intros n Hn. rewrite upd_first_other, upd_last_other, upd_first_other, upd_last_other by set_solver. done.
Qed.

(** After the links of the two nodes are exchanged. *)
Lemma seg5_start h C l x y a b c (N1 : gmap Z list_node_t) dx dy :
  heap_ok h C -> C !! l = Some (a ++ x :: b ++ y :: c) ->
  N1 !! y = Some (mk_node dy (first_or b (Some x)) (last_or a None) (Some l)) ->
  N1 !! x = Some (mk_node dx (first_or c None) (last_or b (Some y)) (Some l)) ->
  (forall n, n <> x -> n <> y -> N1 !! n = nodes h !! n) ->
  seg5 l x y a b c N1 (Some x) (Some x) (Some y) (Some y).
Proof.
  intros Hok Hs Hy Hx Hoth. destruct (ok_linked _ _ Hok _ _ Hs) as [Hnd Hlk].
  destruct (swap_facts x y a b c Hnd) as (_ & _ & _ & Hxy & Hxa & Hxb & Hxc & Hya & Hyb & Hyc & _).
  apply linked_app in Hlk as [La [_ Lr]]. apply linked_app in Lr as [Lb [_ Lc]].
  split_and!; [|by eexists| |by eexists|];
    (eapply linked_agree; [|eassumption]); intros n Hn; apply Hoth; set_solver.
Qed.

(** The nodes at two known places of one list. *)
Lemma swap_nodes h C l x y a b c :
  heap_ok h C -> C !! l = Some (a ++ x :: b ++ y :: c) ->
  exists dx dy, nodes h !! x = Some (mk_node dx (first_or b (Some y)) (last_or a None) (Some l)) /\
    nodes h !! y = Some (mk_node dy (first_or c None) (last_or b (Some x)) (Some l)).
Proof.
  intros Hok Hs. destruct (node_at _ _ _ _ _ _ Hok Hs) as [dx Hx]. rewrite first_or_app in Hx. exists dx.
  assert (Hs' : C !! l = Some ((a ++ x :: b) ++ y :: c)) by (by rewrite <- app_assoc).
  destruct (node_at _ _ _ _ _ _ Hok Hs') as [dy Hy]. exists dy. rewrite last_or_app, last_or_cons in Hy. done.
Qed.

Lemma first_or_in (b : list Z) q n : first_or b q = Some n -> n ∈ b \/ q = Some n.
Proof. destruct b; [by right|]. intros [= ->]. left. set_solver. Qed.

Lemma swap_forward h C l x y a b c :
  heap_ok h C -> C !! l = Some (a ++ x :: b ++ y :: c) ->
  exists h', list_swap h (Some x) (Some y) = Some (true, h') /\ heap_ok h' (<[l := a ++ y :: b ++ x :: c]> C).
Proof.
  intros Hok Hs. destruct (ok_linked _ _ Hok _ _ Hs) as [Hnd _].
  destruct (swap_facts x y a b c Hnd) as (_ & _ & _ & Hxy & Hxa & Hxb & Hxc & Hya & Hyb & Hyc & _).
  destruct (swap_nodes _ _ _ _ _ _ _ _ Hok Hs) as (dx & dy & Hx & Hy).
  unfold list_swap. rewrite (proj2 (Z.eqb_neq x y)), Hx, Hy by done.
  cbn [mbind option_bind owner nprev nnext]. rewrite (bool_decide_true (Some l = Some l)) by done. cbn [negb].
  destruct b as [|b0 b].
  - cbn [first_or]. rewrite bool_decide_true by done. store_step.
    erewrite (put_node_ok _ y) by (cbn [nodes]; by rewrite lookup_insert_ne). cbn [mbind option_bind nodes lists].
    eapply (swap_finish h C l x y a [] c); [done|done| | |by left].
    + eapply (seg5_start h C); [done|done| | |].
      * rewrite lookup_insert_eq. reflexivity.
      * rewrite lookup_insert_ne, lookup_insert_eq by done. reflexivity.
      * intros n Hn1 Hn2. by rewrite !lookup_insert_ne.
    + intros n Hn1 Hn2. by rewrite !lookup_insert_ne.
  - rewrite bool_decide_false by (intros [= ->]; set_solver).
    rewrite bool_decide_false by (intros [Hi|?]%first_or_in; done). store_step.
    erewrite (put_node_ok _ y) by (cbn [nodes]; by rewrite lookup_insert_ne). cbn [mbind option_bind nodes lists].
    eapply (swap_finish h C l x y a (b0 :: b) c); [done|done| | |by left].
    + eapply (seg5_start h C); [done|done| | |].
      * rewrite lookup_insert_eq. reflexivity.
      * rewrite lookup_insert_ne, lookup_insert_eq, last_or_cons by done. rewrite last_or_cons. reflexivity.
      * intros n Hn1 Hn2. by rewrite !lookup_insert_ne.
    + intros n Hn1 Hn2. by rewrite !lookup_insert_ne.
Qed.

Lemma swap_backward h C l x y a b c :
  heap_ok h C -> C !! l = Some (a ++ x :: b ++ y :: c) ->
  exists h', list_swap h (Some y) (Some x) = Some (true, h') /\ heap_ok h' (<[l := a ++ y :: b ++ x :: c]> C).
Proof.
  intros Hok Hs. destruct (ok_linked _ _ Hok _ _ Hs) as [Hnd _].
  destruct (swap_facts x y a b c Hnd) as (_ & _ & _ & Hxy & Hxa & Hxb & Hxc & Hya & Hyb & Hyc & _).
  destruct (swap_nodes _ _ _ _ _ _ _ _ Hok Hs) as (dx & dy & Hx & Hy).
  unfold list_swap. rewrite (proj2 (Z.eqb_neq y x)), Hx, Hy by done.
  cbn [mbind option_bind owner nprev nnext]. rewrite (bool_decide_true (Some l = Some l)) by done. cbn [negb].
  rewrite (bool_decide_false (first_or c None = Some x)) by (intros [Hi|?]%first_or_in; done).
  destruct b as [|b0 b].
  - cbn [first_or]. rewrite bool_decide_true by done. store_step.
    erewrite (put_node_ok _ y) by (cbn [nodes]; by rewrite lookup_insert_ne). cbn [mbind option_bind nodes lists].
    eapply (swap_finish h C l x y a [] c); [done|done| | |by right].
    + eapply (seg5_start h C); [done|done| | |].
      * rewrite lookup_insert_eq. reflexivity.
      * rewrite lookup_insert_ne, lookup_insert_eq by done. reflexivity.
      * intros n Hn1 Hn2. by rewrite !lookup_insert_ne.
    + intros n Hn1 Hn2. by rewrite !lookup_insert_ne.
  - rewrite bool_decide_false by (intros [= ->]; set_solver). store_step.
    erewrite (put_node_ok _ x) by (cbn [nodes]; by rewrite lookup_insert_ne). cbn [mbind option_bind nodes lists].
    eapply (swap_finish h C l x y a (b0 :: b) c); [done|done| | |by right].
    + eapply (seg5_start h C); [done|done| | |].
      * rewrite lookup_insert_ne, lookup_insert_eq by done. reflexivity.
      * rewrite lookup_insert_eq, last_or_cons. rewrite last_or_cons. reflexivity.
      * intros n Hn1 Hn2. by rewrite !lookup_insert_ne.
    + intros n Hn1 Hn2. by rewrite !lookup_insert_ne.
Qed.

(** Exchanging two values everywhere in a sequence. *)
Definition exchange (x y n : Z) : Z := if n =? x then y else if n =? y then x else n.

Lemma exchange_other x y s : x ∉ s -> y ∉ s -> map (exchange x y) s = s.
Proof.
  intros Hx Hy. induction s as [|n s IH]; [done|]. cbn. f_equal; [|apply IH; set_solver].
  unfold exchange. rewrite !(proj2 (Z.eqb_neq _ _)); set_solver.
Qed.

Lemma exchange_split x y a b c :
  NoDup (a ++ x :: b ++ y :: c) -> map (exchange x y) (a ++ x :: b ++ y :: c) = a ++ y :: b ++ x :: c.
Proof.
  intros (_ & _ & _ & Hxy & Hxa & Hxb & Hxc & Hya & Hyb & Hyc & _)%swap_facts.
  rewrite map_app, map_cons, map_app, map_cons, !exchange_other by done. unfold exchange.
  rewrite !Z.eqb_refl, (proj2 (Z.eqb_neq y x)) by done. done.
Qed.

Lemma exchange_sym x y s : map (exchange x y) s = map (exchange y x) s.
Proof. apply map_ext. intros n. unfold exchange. repeat case_test; lia. Qed.

Lemma swap_ok h C l s x y :
  heap_ok h C -> C !! l = Some s -> x <> y -> x ∈ s -> y ∈ s ->
  exists h', list_swap h (Some x) (Some y) = Some (true, h') /\ heap_ok h' (<[l := map (exchange x y) s]> C).
Proof.
  intros Hok Hs Hxy Hx Hy. destruct (ok_linked _ _ Hok _ _ Hs) as [Hnd _].
  apply list_elem_of_split in Hx as (a & r & ->). rewrite elem_of_app, elem_of_cons in Hy.
  destruct Hy as [Hy|[->|Hy]]; [|done|].
  - apply list_elem_of_split in Hy as (a' & b & ->). rewrite <- app_assoc in *. cbn [app] in *.
    rewrite exchange_sym, exchange_split by done. by apply swap_backward.
  - apply list_elem_of_split in Hy as (b & c & ->). rewrite exchange_split by done. by apply swap_forward.
Qed.

(** *** Destroying *)

Definition freed_data (D : gmap Z Z) (free_data : bool) (s : list Z) : list Z :=
  if free_data then filter (fun d => d <> 0) (omap (fun n => D !! n) s) else [].

Lemma destroy_loop_ok h (D : gmap Z Z) o p s fuel fd :
  linked (nodes h) o p s None -> NoDup s -> (length s < fuel)%nat ->
  (forall n, n ∈ s -> data <$> nodes h !! n = D !! n) ->
  exists h', destroy_loop fuel h fd (first_or s None) = Some (freed_data D fd s, h') /\ lists h' = lists h /\
    forall n, nodes h' !! n = if decide (n ∈ s) then None else nodes h !! n.
Proof.
  revert fuel p h. induction s as [|n s IH]; intros fuel p h Hl Hnd Hf HD; destruct fuel as [|fuel]; try (cbn in Hf; lia).
  { exists h. split_and!; [by destruct fd|done|]. intros n. by rewrite decide_False by set_solver. }
  apply list.NoDup_cons in Hnd as [Hn Hnd]. destruct Hl as [[d Hd] Hl]. cbn [first_or destroy_loop]. rewrite Hd.
  cbn [mbind option_bind nnext data].
  destruct (IH fuel (Some n) (mk_heap (delete n (nodes h)) (lists h))) as (h' & Hr & Hls & Hns).
  { cbn [nodes]. eapply linked_agree; [|exact Hl]. intros m Hm. apply lookup_delete_ne. set_solver. }
  { done. } { cbn in Hf. lia. }
  { intros m Hm. cbn [nodes]. rewrite lookup_delete_ne by set_solver. apply HD. set_solver. }
  rewrite Hr. cbn [mbind option_bind]. exists h'. split_and!; [|done|].
  - do 2 f_equal. pose proof (HD n ltac:(set_solver)) as Hdn. rewrite Hd in Hdn. cbn in Hdn. unfold freed_data.
    destruct fd; [|done]. cbn [omap list_omap andb]. rewrite <- Hdn, filter_cons. case_test.
    + by rewrite decide_True.
    + by rewrite decide_False by (intros Hne; apply Hne; done).
  - intros m. rewrite Hns. cbn [nodes]. destruct (decide (m = n)) as [->|Hne].
    + rewrite (decide_True (P := n ∈ n :: s)) by set_solver. rewrite lookup_delete_eq. by case_decide.
    + rewrite lookup_delete_ne by done. destruct (decide (m ∈ s)).
      * by rewrite decide_True by set_solver.
      * by rewrite decide_False by set_solver.
Qed.

Lemma destroy_ok h C (D : gmap Z Z) l s fd :
  heap_ok h C -> (forall n, data <$> nodes h !! n = D !! n) -> C !! l = Some s ->
  exists h', list_destroy h (Some l) fd = Some (freed_data D fd s, h') /\ heap_ok h' (delete l C) /\
    forall n, nodes h' !! n = if decide (n ∈ s) then None else nodes h !! n.
Proof.
  intros Hok HD Hs. destruct (ok_linked _ _ Hok _ _ Hs) as [Hnd Hlk]. unfold list_destroy.
  rewrite (list_at _ _ _ _ Hok Hs). cbn [mbind option_bind lhead].
  destruct (destroy_loop_ok h D l None s (S (size (nodes h))) fd Hlk Hnd) as (h' & Hr & Hls & Hns).
  { pose proof (seq_le_size _ _ _ _ Hok Hs). lia. } { intros; apply HD. }
  rewrite Hr. cbn [mbind option_bind]. eexists. split; [reflexivity|]. split; [|exact Hns].
  assert (Hkeep : forall l2 s2 n, delete l C !! l2 = Some s2 -> n ∈ s2 -> l2 <> l /\ C !! l2 = Some s2 /\ n ∉ s).
  { intros l2 s2 n H2 Hn. apply lookup_delete_Some in H2 as [Hne H2]. split_and!; [done|done|].
    intros Hn'. apply Hne. by eapply lists_disjoint. }
  constructor; cbn [nodes lists].
  - intros l2. rewrite Hls. destruct (decide (l2 = l)) as [->|Hne].
    + by rewrite !lookup_delete_eq.
    + rewrite !lookup_delete_ne by done. apply Hok.
  - intros l2 s2 H2. pose proof H2 as [Hne H2']%lookup_delete_Some. destruct (ok_linked _ _ Hok _ _ H2') as [Hnd2 Hl2].
    split; [done|]. eapply linked_agree; [|exact Hl2]. intros n Hn. rewrite Hns, decide_False; [done|]. by eapply Hkeep.
  - intros n nd Hn. rewrite Hns in Hn. case_decide; [done|]. by eapply ok_free.
  - intros n nd l2 Hn Ho. rewrite Hns in Hn. case_decide as Hi; [done|].
    destruct (ok_owned _ _ Hok _ _ _ Hn Ho) as (s2 & H2 & Hi2). exists s2. split; [|done].
    rewrite lookup_delete_ne; [done|]. intros <-. congruence.
  - intros n nd Hn. rewrite Hns in Hn. case_decide; [done|]. by eapply ok_range.
Qed.

(** *** What nodes point to *)

Definition same_data h h' : Prop := forall n, data <$> nodes h' !! n = data <$> nodes h !! n.

Lemma same_data_trans h1 h2 h3 : same_data h1 h2 -> same_data h2 h3 -> same_data h1 h3.
Proof. intros H1 H2 n. by rewrite H2. Qed.

Lemma put_node_data h n f h' : put_node h n f = Some h' -> (forall nd, data (f nd) = data nd) -> same_data h h'.
Proof.
  unfold put_node. intros (nd & Hn & [= <-])%bind_Some Hf m. cbn [nodes]. destruct (decide (m = n)) as [->|].
  - rewrite lookup_insert_eq, Hn. cbn. by rewrite Hf.
  - by rewrite lookup_insert_ne.
Qed.

Lemma put_list_data h l f h' : put_list h l f = Some h' -> same_data h h'.
Proof. unfold put_list. by intros (ls & Hl & [= <-])%bind_Some m. Qed.

(** Follow a sequence of stores, none of which changes [data]. *)
Ltac data_steps :=
  repeat match goal with
  | |- same_data ?h ?h => done
  | H : (_ ≫= _) = Some _ |- _ => apply bind_Some in H as (? & ? & ?)
  | H : Some _ = Some _ |- _ => injection H as <- <- || injection H as <-
  | H : None = Some _ |- _ => done
  | H : put_node ?h _ _ = Some ?h1 |- same_data ?h _ =>
      apply (same_data_trans _ h1); [eapply put_node_data; [exact H|done]|clear H]
  | H : put_list ?h _ _ = Some ?h1 |- same_data ?h _ =>
      apply (same_data_trans _ h1); [eapply put_list_data; exact H|clear H]
  | H : match ?p with Some _ => _ | None => _ end = Some _ |- _ => destruct p
  | H : (if ?b then _ else _) = Some _ |- _ => destruct b
  end.

Lemma append_data h (l n : ptr Z) r h' : list_append h l n = Some (r, h') -> same_data h h'.
Proof. unfold list_append. intros. data_steps. Qed.
Lemma push_data h (l n : ptr Z) r h' : list_push h l n = Some (r, h') -> same_data h h'.
Proof. unfold list_push. intros. data_steps. Qed.


Lemma unlink_data h l n p q h' : unlink h l n p q = Some h' -> same_data h h'.
Proof. unfold unlink. intros. data_steps. Qed.

Lemma remove_data h (l n : ptr Z) r h' : list_remove h l n = Some (r, h') -> same_data h h'.
Proof.
  unfold list_remove. intros. destruct n as [n|], l as [l|]; data_steps; try (by eapply unlink_data).
  destruct x1 as [q t]. data_steps; by eapply unlink_data.
Qed.

Lemma relink_data h l n h' : relink h l n = Some h' -> same_data h h'.
Proof. unfold relink. intros. data_steps. Qed.

Lemma swap_data h (x y : ptr Z) r h' : list_swap h x y = Some (r, h') -> same_data h h'.
Proof.
  unfold list_swap. intros. destruct x as [x|], y as [y|]; data_steps;
    (eapply same_data_trans; [eapply relink_data; eassumption|by eapply relink_data]).
Qed.


(** ** Refinement of sequences *)

Inductive op :=
| NewList (fresh : ptr Z) | NewNode (fresh : ptr Z) (d : Z)
| Append (l n : ptr Z) | Push (l n : ptr Z) | Remove (l n : ptr Z) | Swap (x y : ptr Z)
| Pop (l : ptr Z) | PopFront (l : ptr Z) | Find (l d : Z) | Destroy (l : ptr Z) (free_data : bool).

Inductive result := RPtr (p : ptr Z) | RBool (b : bool) | RFreed (ds : list Z).

Definition exec h (o : op) : option (result * heap) :=
  match o with
  | NewList fresh => let '(p, h) := list_create h fresh in Some (RPtr p, h)
  | NewNode fresh d => let '(p, h) := list_create_node h fresh d in Some (RPtr p, h)
  | Append l n => '(b, h) ← list_append h l n; Some (RBool b, h)
  | Push l n => '(b, h) ← list_push h l n; Some (RBool b, h)
  | Remove l n => '(b, h) ← list_remove h l n; Some (RBool b, h)
  | Swap x y => '(b, h) ← list_swap h x y; Some (RBool b, h)
  | Pop l => '(p, h) ← list_pop h l; Some (RPtr p, h)
  | PopFront l => '(p, h) ← list_pop_front h l; Some (RPtr p, h)
  | Find l d => p ← list_find h l d; Some (RPtr p, h)
  | Destroy l fd => '(ds, h) ← list_destroy h l fd; Some (RFreed ds, h)
  end.

(** The abstract state: the sequence of every list, and what every node points to. *)
Record abs := mk_abs { seqs : gmap Z (list Z); values : gmap Z Z }.

Definition in_a_list (C : gmap Z (list Z)) n : Prop := map_Exists (fun _ s => n ∈ s) C.
Definition with_seq (A : abs) l s : abs := mk_abs (<[l := s]> (seqs A)) (values A).
Definition seq_of (A : abs) l : list Z := default [] (seqs A !! l).

Definition spec (A : abs) (o : op) : result * abs :=
  match o with
  | NewList fresh => (RPtr fresh, match fresh with None => A | Some a => with_seq A a [] end)
  | NewNode fresh d => (RPtr fresh, match fresh with None => A | Some a => mk_abs (seqs A) (<[a := d]> (values A)) end)
  | Append (Some l) (Some n) =>
      if decide (in_a_list (seqs A) n) then (RBool false, A) else (RBool true, with_seq A l (ll_append (seq_of A l) n))
  | Push (Some l) (Some n) =>
      if decide (in_a_list (seqs A) n) then (RBool false, A) else (RBool true, with_seq A l (n :: seq_of A l))
  | Remove (Some l) (Some n) => (RBool (bool_decide (n ∈ seq_of A l)), with_seq A l (ll_remove (seq_of A l) n))
  | Swap (Some x) (Some y) =>
      if decide (x <> y /\ map_Exists (fun _ s => x ∈ s /\ y ∈ s) (seqs A))
      then (RBool true, mk_abs (map (exchange x y) <$> seqs A) (values A)) else (RBool false, A)
  | Append _ _ | Push _ _ | Remove _ _ | Swap _ _ => (RBool false, A)
  | Pop (Some l) => (RPtr (last (seq_of A l)), with_seq A l (removelast (seq_of A l)))
  | PopFront (Some l) => (RPtr (head (seq_of A l)), with_seq A l (tail (seq_of A l)))
  | Pop None | PopFront None => (RPtr None, A)
  | Find l d => (RPtr (head (filter (fun n => values A !! n = Some d) (seq_of A l))), A)
  | Destroy None _ => (RFreed [], A)
  | Destroy (Some l) fd =>
      (RFreed (freed_data (values A) fd (seq_of A l)),
       mk_abs (delete l (seqs A)) (filter (fun p => fst p ∉ seq_of A l) (values A)))
  end.

Definition is_list (A : abs) (l : ptr Z) : Prop := match l with None => True | Some l => is_Some (seqs A !! l) end.
Definition is_node (A : abs) (n : ptr Z) : Prop := match n with None => True | Some n => is_Some (values A !! n) end.

(** The arguments point to live objects or are null; [calloc] answers addresses not in use. *)
Definition op_ok (A : abs) (o : op) : Prop :=
  match o with
  | NewList (Some a) => seqs A !! a = None
  | NewNode (Some a) _ => values A !! a = None /\ 0 < a < SIZE_MOD
  | NewList None | NewNode None _ => True
  | Append l n | Push l n | Remove l n => is_list A l /\ is_node A n
  | Swap x y => is_node A x /\ is_node A y
  | Pop l | PopFront l | Destroy l _ => is_list A l
  | Find l _ => is_list A (Some l)
  end.

Definition refines h (A : abs) : Prop := heap_ok h (seqs A) /\ forall n, data <$> nodes h !! n = values A !! n.

Lemma owner_in_list h C n nd : heap_ok h C -> nodes h !! n = Some nd -> (owner nd <> None <-> in_a_list C n).
Proof.
  intros Hok Hn. split.
  - intros Ho. destruct (owner nd) as [l|] eqn:El; [|done]. destruct (ok_owned _ _ Hok _ _ _ Hn El) as (s & Hs & Hi).
    by exists l, s.
  - intros (l & s & Hs & Hi). destruct (in_list_owner _ _ _ _ _ Hok Hs Hi) as (nd' & Hn' & Ho). congruence.
Qed.

Lemma refines_data h h' A C : refines h A -> heap_ok h' C -> same_data h h' -> refines h' (mk_abs C (values A)).
Proof. intros [_ HD] Hok Hsd. split; [done|]. intros n. cbn [values]. by rewrite Hsd. Qed.

Lemma refines_node h A n : refines h A -> is_Some (values A !! n) -> exists nd, nodes h !! n = Some nd.
Proof. intros [_ HD] [d Hd]. rewrite <- HD in Hd. destruct (nodes h !! n); [by eexists|done]. Qed.

Lemma busy_unchanged h C l s n nd :
  heap_ok h C -> C !! l = Some s -> nodes h !! n = Some nd -> owner nd <> None ->
  list_append h (Some l) (Some n) = Some (false, h) /\ list_push h (Some l) (Some n) = Some (false, h).
Proof.
  intros Hok Hs Hn Ho. unfold list_append, list_push. rewrite Hn, (list_at _ _ _ _ Hok Hs). cbn [mbind option_bind].
  rewrite (node_busy_spec h C l) by done. by rewrite bool_decide_true.
Qed.

Lemma swap_refused h C x y nx ny :
  heap_ok h C -> nodes h !! x = Some nx -> nodes h !! y = Some ny ->
  ~ (x <> y /\ map_Exists (fun _ s => x ∈ s /\ y ∈ s) C) -> list_swap h (Some x) (Some y) = Some (false, h).
Proof.
  intros Hok Hx Hy Hno. unfold list_swap. case_test; [done|]. rewrite Hx, Hy. cbn [mbind option_bind].
  destruct (owner nx) as [l|] eqn:Hl; [|done]. rewrite bool_decide_false; [done|]. intros Hl'.
  destruct (ok_owned _ _ Hok _ _ _ Hx Hl) as (s & Hs & Hi). destruct (ok_owned _ _ Hok _ _ _ Hy Hl') as (s' & Hs' & Hi').
  rewrite Hs in Hs'. injection Hs' as <-. apply Hno. split; [done|]. by exists l, s.
Qed.

(** Exchanging in every sequence changes only the one that holds both nodes. *)
Lemma exchange_one h C l s x y :
  heap_ok h C -> C !! l = Some s -> x ∈ s -> y ∈ s -> map (exchange x y) <$> C = <[l := map (exchange x y) s]> C.
Proof.
  intros Hok Hs Hx Hy. apply map_eq. intros l2. destruct (decide (l2 = l)) as [->|Hne].
  - by rewrite lookup_fmap, Hs, lookup_insert_eq.
  - rewrite lookup_fmap, lookup_insert_ne by done. destruct (C !! l2) as [s2|] eqn:H2; [|done]. cbn. f_equal.
    apply exchange_other; intros Hi; apply Hne; by eapply lists_disjoint.
Qed.


Lemma insert_refines h A h' l s :
  refines h A -> heap_ok h' (<[l := s]> (seqs A)) -> same_data h h' -> refines h' (with_seq A l s).
Proof. intros HR Hok Hsd. by apply (refines_data h). Qed.

(** The operations that put one node in or take one out. *)
Lemma member_step h A o l n :
  refines h A -> is_Some (seqs A !! l) -> is_Some (values A !! n) ->
  o = Append (Some l) (Some n) \/ o = Push (Some l) (Some n) \/ o = Remove (Some l) (Some n) ->
  exists h', exec h o = Some (fst (spec A o), h') /\ refines h' (snd (spec A o)).
Proof.
  intros HR [s Hs] Hn Ho. destruct (refines_node _ _ _ HR Hn) as [nd Hnd]. pose proof HR as [Hok _].
  pose proof (owner_in_list _ _ _ _ Hok Hnd) as Hbusy.
  destruct Ho as [->|[->| ->]]; cbn [spec exec]; unfold seq_of; rewrite Hs; cbn [default];
    [destruct (decide (in_a_list (seqs A) n)) as [Hi|Hi]..|].
  - destruct (busy_unchanged _ _ _ _ _ _ Hok Hs Hnd (proj2 Hbusy Hi)) as [-> _]. by exists h.
  - assert (Ho : owner nd = None) by (destruct (owner nd); [exfalso; apply Hi, Hbusy; done|done]).
    destruct (append_ok _ _ _ _ _ _ Hok Hs Hnd Ho) as (h' & Ha & Hok'). rewrite Ha. exists h'. split; [done|].
    apply (insert_refines h); [done| |by eapply append_data]. unfold ll_append.
    rewrite decide_False; [done|]. exact (free_node_notin _ _ _ _ _ _ Hok Hs Hnd Ho).
  - destruct (busy_unchanged _ _ _ _ _ _ Hok Hs Hnd (proj2 Hbusy Hi)) as [_ ->]. by exists h.
  - assert (Ho : owner nd = None) by (destruct (owner nd); [exfalso; apply Hi, Hbusy; done|done]).
    destruct (push_ok _ _ _ _ _ _ Hok Hs Hnd Ho) as (h' & Ha & Hok'). rewrite Ha. exists h'. split; [done|].
    apply (insert_refines h); [done|done|by eapply push_data].
  - destruct (remove_ok _ _ _ _ _ _ Hok Hs Hnd) as (h' & Ha & Hok'). rewrite Ha. exists h'. split; [done|].
    apply (insert_refines h); [done|done|by eapply remove_data].
Qed.

Lemma pop_data h (l : ptr Z) r h' : list_pop h l = Some (r, h') \/ list_pop_front h l = Some (r, h') -> same_data h h'.
Proof.
  unfold list_pop, list_pop_front. intros [Hp|Hp]; destruct l as [l|]; data_steps;
    repeat match goal with H : context [let '(_, _) := ?p in _] |- _ => destruct p end; data_steps; by eapply remove_data.
Qed.

Lemma swap_step h A x y :
  refines h A -> is_Some (values A !! x) -> is_Some (values A !! y) ->
  exists h', exec h (Swap (Some x) (Some y)) = Some (fst (spec A (Swap (Some x) (Some y))), h') /\
    refines h' (snd (spec A (Swap (Some x) (Some y)))).
Proof.
  intros HR Hx Hy. destruct (refines_node _ _ _ HR Hx) as [nx Hnx]. destruct (refines_node _ _ _ HR Hy) as [ny Hny].
  pose proof HR as [Hok _]. cbn [spec exec]. case_decide as Hd.
  - destruct Hd as [Hxy (l & s & Hs & Hix & Hiy)]. destruct (swap_ok _ _ _ _ _ _ Hok Hs Hxy Hix Hiy) as (h' & Ha & Hok').
    rewrite Ha. exists h'. split; [done|]. cbn [snd]. rewrite (exchange_one h _ l s) by done.
    apply (insert_refines h); [done|done|by eapply swap_data].
  - rewrite (swap_refused h (seqs A) x y nx ny) by done. by exists h.
Qed.

Lemma create_step h A o :
  refines h A -> op_ok A o -> (exists f, o = NewList f) \/ (exists f d, o = NewNode f d) ->
  exists h', exec h o = Some (fst (spec A o), h') /\ refines h' (snd (spec A o)).
Proof.
  intros [Hok HD] Ho [[[a|] ->]|([a|] & d & ->)]; cbn [exec spec list_create list_create_node op_ok fst snd] in *; try (by exists h).
  - eexists. split; [reflexivity|]. split; [|done]. destruct Hok as [Hl Hlk Hf Hw Hr]. constructor; cbn [nodes lists with_seq seqs]; try done.
    + intros l. destruct (decide (l = a)) as [->|]; [by rewrite !lookup_insert_eq|rewrite !lookup_insert_ne by done; apply Hl].
    + intros l s. destruct (decide (l = a)) as [->|]; [rewrite lookup_insert_eq|rewrite lookup_insert_ne by done; apply Hlk].
      intros [= <-]. split; [constructor|done].
    + intros n nd l Hn Hno. destruct (Hw _ _ _ Hn Hno) as (s & Hs & Hi). exists s. split; [|done].
      rewrite lookup_insert_ne; [done|]. intros ->. congruence.
  - destruct Ho as [Hfr Ha]. assert (Hna : nodes h !! a = None) by (specialize (HD a); rewrite Hfr in HD; by destruct (nodes h !! a)).
    eexists. split; [reflexivity|]. destruct Hok as [Hl Hlk Hf Hw Hr]. split.
    + constructor; cbn [nodes lists seqs]; [done| | | |].
      * intros l s Hs. destruct (Hlk _ _ Hs) as [Hnd Hk]. split; [done|]. apply linked_frame; [|done].
        intros Hi. destruct (linked_elem _ _ _ _ _ _ Hk Hi) as (? & ? & ? & ?). congruence.
      * intros n nd Hn. apply lookup_insert_Some in Hn as [[<- <-]|[_ Hn]]; [done|by eapply Hf].
      * intros n nd l Hn Hno. apply lookup_insert_Some in Hn as [[<- <-]|[_ Hn]]; [done|by eapply Hw].
      * intros n nd Hn. apply lookup_insert_Some in Hn as [[<- <-]|[_ Hn]]; [done|by eapply Hr].
    + intros n. cbn [nodes values]. destruct (decide (n = a)) as [->|]; [by rewrite !lookup_insert_eq|by rewrite !lookup_insert_ne].
Qed.

Lemma exec_step h A o :
  refines h A -> op_ok A o -> exists h', exec h o = Some (fst (spec A o), h') /\ refines h' (snd (spec A o)).
Proof.
  intros HR Ho. pose proof HR as [Hok HD].
  destruct o as [f|f d|[l|] [n|]|[l|] [n|]|[l|] [n|]|[x|] [y|]|[l|]|[l|]|l d|[l|] fd]; try (by exists h).
  - apply create_step; eauto.
  - apply create_step; eauto.
  - apply (member_step h A _ l n); [done|apply Ho|apply Ho|by left].
  - apply (member_step h A _ l n); [done|apply Ho|apply Ho|by right; left].
  - apply (member_step h A _ l n); [done|apply Ho|apply Ho|by right; right].
  - apply swap_step; [done|apply Ho|apply Ho].
  - destruct Ho as [s Hs]. cbn [exec spec]. unfold seq_of. rewrite Hs. cbn [default].
    destruct (pop_ok _ _ _ _ Hok Hs) as (h' & Ha & Hok'). rewrite Ha. exists h'. split; [done|].
    apply (insert_refines h); [done|done|eapply pop_data; by left].
  - destruct Ho as [s Hs]. cbn [exec spec]. unfold seq_of. rewrite Hs. cbn [default].
    destruct (pop_front_ok _ _ _ _ Hok Hs) as (h' & Ha & Hok'). rewrite Ha. exists h'. split; [done|].
    apply (insert_refines h); [done|done|eapply pop_data; by right].
  - destruct Ho as [s Hs]. cbn [exec spec]. unfold seq_of. rewrite Hs. cbn [default].
    rewrite (find_ok _ _ _ _ d Hok Hs). exists h. split; [|done]. cbn [mbind option_bind fst]. do 4 f_equal.
    apply list_filter_iff. intros n. unfold has_data. by rewrite HD.
  - destruct Ho as [s Hs]. cbn [exec spec]. unfold seq_of. rewrite Hs. cbn [default].
    destruct (destroy_ok _ _ _ _ _ fd Hok HD Hs) as (h' & Ha & Hok' & Hns). rewrite Ha. exists h'. split; [done|].
    split; [done|]. intros n. cbn [values snd]. rewrite Hns. destruct (decide (n ∈ s)) as [Hi|Hi].
    + symmetry. apply map_lookup_filter_None. right. intros d _. cbn. by intros [].
    + rewrite HD. symmetry. destruct (values A !! n) as [d|] eqn:Hd.
      * apply map_lookup_filter_Some. by split.
      * apply map_lookup_filter_None. by left.
Qed.


Fixpoint exec_all h (os : list op) : option (list result * heap) :=
  match os with
  | [] => Some ([], h)
  | o :: os => '(r, h) ← exec h o; '(rs, h) ← exec_all h os; Some (r :: rs, h)
  end.

Fixpoint spec_all (A : abs) (os : list op) : list result * abs :=
  match os with
  | [] => ([], A)
  | o :: os => let '(r, A) := spec A o in let '(rs, A) := spec_all A os in (r :: rs, A)
  end.

Fixpoint all_ok (A : abs) (os : list op) : Prop :=
  match os with [] => True | o :: os => op_ok A o /\ all_ok (snd (spec A o)) os end.

Definition empty_heap : heap := mk_heap ∅ ∅.
Definition empty_abs : abs := mk_abs ∅ ∅.

Lemma empty_refines : refines empty_heap empty_abs.
Proof. split; [|done]. by constructor. Qed.

Lemma exec_all_ok os h A :
  refines h A -> all_ok A os ->
  exists h', exec_all h os = Some (fst (spec_all A os), h') /\ refines h' (snd (spec_all A os)).
Proof.
  revert h A. induction os as [|o os IH]; intros h A HR Hok; [by exists h|]. destruct Hok as [Ho Hos].
  destruct (exec_step _ _ _ HR Ho) as (h1 & He & HR1). cbn [exec_all spec_all]. rewrite He. cbn [mbind option_bind].
  destruct (spec A o) as [r A1]. cbn [fst snd] in *. destruct (IH _ _ HR1 Hos) as (h2 & He2 & HR2). rewrite He2.
  cbn [mbind option_bind]. exists h2. by destruct (spec_all A1 os).
Qed.

(** C32: the linked lists are sequences.  Any history of creations, appends, pushes, removals, swaps,
    pops, searches and destructions on any number of lists, with live or null arguments, follows only
    pointers to live objects and answers exactly as sequences of nodes do: a node already in a list is
    refused, removal works from whatever list is named and only if the node is in it, [list_swap]
    exchanges two nodes of one list, [list_find] answers the first node with the data, and destroying
    frees exactly the nodes of the list.  Afterwards no sequence repeats a node, no two lists share
    one, and every list stores its true length, head and tail. *)
Theorem linked_list_refines os :
  all_ok empty_abs os ->
  exists h, exec_all empty_heap os = Some (fst (spec_all empty_abs os), h) /\
    let C := seqs (snd (spec_all empty_abs os)) in
    (forall l s, C !! l = Some s ->
       NoDup s /\ lists h !! l = Some (mk_list (zlen s) (head s) (last s)) /\ zlen s < SIZE_MOD) /\
    (forall l l' s s' n, C !! l = Some s -> C !! l' = Some s' -> n ∈ s -> n ∈ s' -> l = l').
Proof.
  intros Hok. destruct (exec_all_ok os _ _ empty_refines Hok) as (h & He & [HR _]). exists h. split; [done|]. split.
  - intros l s Hs. split_and!; [by apply (ok_linked _ _ HR l)| |by eapply ok_length].
    rewrite (list_at _ _ _ _ HR Hs). replace (first_or s None) with (head s) by (by destruct s).
    replace (last_or s None) with (last s) by (unfold last_or; by destruct (last s)). done.
  - intros l l' s s' n. by apply (lists_disjoint h).
Qed.

End Proofs.

(** ** Witness *)

#[local] Existing Instance arch64.

(** Three nodes in a list of which the outer two are swapped, a refused second append and a search. *)
Definition demo_ops : list op :=
  [NewList (Some 100); NewNode (Some 1) 11; NewNode (Some 2) 22; NewNode (Some 3) 33;
   Append (Some 100) (Some 1); Append (Some 100) (Some 2); Append (Some 100) (Some 3);
   Append (Some 100) (Some 2); Swap (Some 3) (Some 1); Find 100 22; Remove (Some 100) (Some 2);
   PopFront (Some 100); Push (Some 100) (Some 2); Destroy (Some 100) true].

Lemma linked_list_refines_witness :
  exists h, exec_all empty_heap demo_ops =
    Some ([RPtr (Some 100); RPtr (Some 1); RPtr (Some 2); RPtr (Some 3); RBool true; RBool true; RBool true;
           RBool false; RBool true; RPtr (Some 2); RBool true; RPtr (Some 3); RBool true; RFreed [22; 11]], h).
Proof.
  destruct (linked_list_refines demo_ops) as (h & Hx & _).
  - repeat (split; [vm_compute; repeat split; eexists; reflexivity|]). exact I.
  - exists h. rewrite Hx. vm_compute. reflexivity.
Defined.

End LinkedList.
