(* ===== verification/Procs.v ===== *)
(** * The process table: [kernel/sched/thread.c], [kernel/sched/cred.c], [kernel/sched/waitpid.c]

    The list of all threads, the index from process identifiers to threads, sessions and process
    groups, and the part of [waitpid] that is one critical section.  A thread is named by the
    address of its [sched_thread_t]; [proc_t] has the fields of that structure that this code reads
    or writes.  The intrusive lists of threads are lists of addresses: [list_append] refuses a node
    that has an owner, [list_remove] takes it out. *)

From S2P Require Import Prelude Errno Memory CString Hashmap LinkedList StrMap Sched Outcome.
From stdpp Require Import gmap fin_maps relations.
Open Scope Z_scope.

Module Procs.
Import Hashmap.

Record proc_t := mk_proc {
  user_thread : bool;
  tpid : Z;
  ppid : Z;
  pgid : Z;
  sid : Z;
  did_exec : bool;
  pstate : thread_state_t;
  in_all_list : bool;
  in_zombie_list : bool;
  in_reap_list : bool;
  refcount : Z;
  lifecycle_flags : Z;
  exit_code : Z;
  exit_signal : Z;
  stop_signal : Z;
  stop_reported : bool;
  tty_index : Z;
  cpu_time_ticks : Z;
  user_ticks : Z;
  sys_ticks : Z;
  child_cpu_time_ticks : Z;
  child_user_ticks : Z;
  child_sys_ticks : Z
}.

Definition set_pgid (v : Z) (p : proc_t) : proc_t :=
  mk_proc (user_thread p) (tpid p) (ppid p) v (sid p) (did_exec p) (pstate p) (in_all_list p)
    (in_zombie_list p) (in_reap_list p) (refcount p) (lifecycle_flags p) (exit_code p)
    (exit_signal p) (stop_signal p) (stop_reported p) (tty_index p) (cpu_time_ticks p)
    (user_ticks p) (sys_ticks p) (child_cpu_time_ticks p) (child_user_ticks p) (child_sys_ticks p).
Definition set_sid (v : Z) (p : proc_t) : proc_t :=
  mk_proc (user_thread p) (tpid p) (ppid p) (pgid p) v (did_exec p) (pstate p) (in_all_list p)
    (in_zombie_list p) (in_reap_list p) (refcount p) (lifecycle_flags p) (exit_code p)
    (exit_signal p) (stop_signal p) (stop_reported p) (tty_index p) (cpu_time_ticks p)
    (user_ticks p) (sys_ticks p) (child_cpu_time_ticks p) (child_user_ticks p) (child_sys_ticks p).
Definition set_in_all_list (v : bool) (p : proc_t) : proc_t :=
  mk_proc (user_thread p) (tpid p) (ppid p) (pgid p) (sid p) (did_exec p) (pstate p) v
    (in_zombie_list p) (in_reap_list p) (refcount p) (lifecycle_flags p) (exit_code p)
    (exit_signal p) (stop_signal p) (stop_reported p) (tty_index p) (cpu_time_ticks p)
    (user_ticks p) (sys_ticks p) (child_cpu_time_ticks p) (child_user_ticks p) (child_sys_ticks p).
Definition set_in_zombie_list (v : bool) (p : proc_t) : proc_t :=
  mk_proc (user_thread p) (tpid p) (ppid p) (pgid p) (sid p) (did_exec p) (pstate p)
    (in_all_list p) v (in_reap_list p) (refcount p) (lifecycle_flags p) (exit_code p)
    (exit_signal p) (stop_signal p) (stop_reported p) (tty_index p) (cpu_time_ticks p)
    (user_ticks p) (sys_ticks p) (child_cpu_time_ticks p) (child_user_ticks p) (child_sys_ticks p).
Definition set_in_reap_list (v : bool) (p : proc_t) : proc_t :=
  mk_proc (user_thread p) (tpid p) (ppid p) (pgid p) (sid p) (did_exec p) (pstate p)
    (in_all_list p) (in_zombie_list p) v (refcount p) (lifecycle_flags p) (exit_code p)
    (exit_signal p) (stop_signal p) (stop_reported p) (tty_index p) (cpu_time_ticks p)
    (user_ticks p) (sys_ticks p) (child_cpu_time_ticks p) (child_user_ticks p) (child_sys_ticks p).
Definition set_refcount (v : Z) (p : proc_t) : proc_t :=
  mk_proc (user_thread p) (tpid p) (ppid p) (pgid p) (sid p) (did_exec p) (pstate p)
    (in_all_list p) (in_zombie_list p) (in_reap_list p) v (lifecycle_flags p) (exit_code p)
    (exit_signal p) (stop_signal p) (stop_reported p) (tty_index p) (cpu_time_ticks p)
    (user_ticks p) (sys_ticks p) (child_cpu_time_ticks p) (child_user_ticks p) (child_sys_ticks p).
Definition set_lifecycle_flags (v : Z) (p : proc_t) : proc_t :=
  mk_proc (user_thread p) (tpid p) (ppid p) (pgid p) (sid p) (did_exec p) (pstate p)
    (in_all_list p) (in_zombie_list p) (in_reap_list p) (refcount p) v (exit_code p)
    (exit_signal p) (stop_signal p) (stop_reported p) (tty_index p) (cpu_time_ticks p)
    (user_ticks p) (sys_ticks p) (child_cpu_time_ticks p) (child_user_ticks p) (child_sys_ticks p).
Definition set_stop_reported (v : bool) (p : proc_t) : proc_t :=
  mk_proc (user_thread p) (tpid p) (ppid p) (pgid p) (sid p) (did_exec p) (pstate p)
    (in_all_list p) (in_zombie_list p) (in_reap_list p) (refcount p) (lifecycle_flags p)
    (exit_code p) (exit_signal p) (stop_signal p) v (tty_index p) (cpu_time_ticks p)
    (user_ticks p) (sys_ticks p) (child_cpu_time_ticks p) (child_user_ticks p) (child_sys_ticks p).
Definition set_tty_index (v : Z) (p : proc_t) : proc_t :=
  mk_proc (user_thread p) (tpid p) (ppid p) (pgid p) (sid p) (did_exec p) (pstate p)
    (in_all_list p) (in_zombie_list p) (in_reap_list p) (refcount p) (lifecycle_flags p)
    (exit_code p) (exit_signal p) (stop_signal p) (stop_reported p) v (cpu_time_ticks p)
    (user_ticks p) (sys_ticks p) (child_cpu_time_ticks p) (child_user_ticks p) (child_sys_ticks p).
Definition set_child_cpu_time_ticks (v : Z) (p : proc_t) : proc_t :=
  mk_proc (user_thread p) (tpid p) (ppid p) (pgid p) (sid p) (did_exec p) (pstate p)
    (in_all_list p) (in_zombie_list p) (in_reap_list p) (refcount p) (lifecycle_flags p)
    (exit_code p) (exit_signal p) (stop_signal p) (stop_reported p) (tty_index p)
    (cpu_time_ticks p) (user_ticks p) (sys_ticks p) v (child_user_ticks p) (child_sys_ticks p).
Definition set_child_user_ticks (v : Z) (p : proc_t) : proc_t :=
  mk_proc (user_thread p) (tpid p) (ppid p) (pgid p) (sid p) (did_exec p) (pstate p)
    (in_all_list p) (in_zombie_list p) (in_reap_list p) (refcount p) (lifecycle_flags p)
    (exit_code p) (exit_signal p) (stop_signal p) (stop_reported p) (tty_index p)
    (cpu_time_ticks p) (user_ticks p) (sys_ticks p) (child_cpu_time_ticks p) v (child_sys_ticks p).
Definition set_child_sys_ticks (v : Z) (p : proc_t) : proc_t :=
  mk_proc (user_thread p) (tpid p) (ppid p) (pgid p) (sid p) (did_exec p) (pstate p)
    (in_all_list p) (in_zombie_list p) (in_reap_list p) (refcount p) (lifecycle_flags p)
    (exit_code p) (exit_signal p) (stop_signal p) (stop_reported p) (tty_index p)
    (cpu_time_ticks p) (user_ticks p) (sys_ticks p) (child_cpu_time_ticks p) (child_user_ticks p)
    v.

(** [sched_procs_t]; the counters of [sched_next_pid] are in [SchedState.Pids]. *)
Record procs_t := mk_procs {
  threads : gmap Z proc_t;
  all_list : ptr (list Z);
  zombie_list : ptr (list Z);
  reap_list : ptr (list Z);
  pid_index : ptr hashmap_t
}.

Definition set_threads (v : gmap Z proc_t) (s : procs_t) : procs_t :=
  mk_procs v (all_list s) (zombie_list s) (reap_list s) (pid_index s).
Definition set_all_list (v : ptr (list Z)) (s : procs_t) : procs_t :=
  mk_procs (threads s) v (zombie_list s) (reap_list s) (pid_index s).
Definition set_zombie_list (v : ptr (list Z)) (s : procs_t) : procs_t :=
  mk_procs (threads s) (all_list s) v (reap_list s) (pid_index s).
Definition set_reap_list (v : ptr (list Z)) (s : procs_t) : procs_t :=
  mk_procs (threads s) (all_list s) (zombie_list s) v (pid_index s).
Definition set_pid_index (v : ptr hashmap_t) (s : procs_t) : procs_t :=
  mk_procs (threads s) (all_list s) (zombie_list s) (reap_list s) v.

Definition SCHED_DEFER_QUEUED : Z := 1.
Definition SCHED_DESTROYING : Z := 2.
Definition WNOHANG : Z := 1.
Definition WUNTRACED : Z := 2.
Definition TTY_NONE : Z := -1.

Section Defs.
Context `{Arch} `{EntryLayout}.
Implicit Types (s : procs_t) (t : Z) (thread : ptr Z) (malloc : Z -> bool).

Definition load s t : run proc_t := lift (threads s !! t).

Definition update s t (f : proc_t -> proc_t) : run procs_t :=
  p ← load s t; ret (set_threads (<[t := f p]> (threads s)) s).


(** ** The index of process identifiers *)

Definition _pid_index_key (pid : Z) : Z := u32_wrap pid.

Definition pid_get s (pid : Z) : run (ptr Z * procs_t) :=
  match pid_index s with
  | None => ret (None, s)
  | Some ix =>
      if pid <=? 0 then ret (None, s)
      else
        '(found, out) ← lift (hashmap_get (Some ix) (_pid_index_key pid));
        if negb found then ret (None, s)
        else
          encoded ← lift out;
          let drop_stale :=
            '(removed, ix) ← lift (hashmap_remove ix (_pid_index_key pid));
            if negb removed then panic else ret (None, set_pid_index (Some ix) s) in
          match StrMap.decode_ptr encoded with
          | None => drop_stale
          | Some t =>
              p ← load s t;
              if in_all_list p && (tpid p =? pid) then ret (Some t, s) else drop_stale
          end
  end.

Definition pid_set malloc s thread : run procs_t :=
  match pid_index s, thread with
  | Some ix, Some t =>
      p ← load s t;
      if tpid p <=? 0 then ret s
      else
        '(inserted, ix) ← lift (hashmap_set malloc ix (_pid_index_key (tpid p)) t);
        if negb inserted then panic else ret (set_pid_index (Some ix) s)
  | _, _ => ret s
  end.

Definition pid_remove s (pid : Z) : run procs_t :=
  match pid_index s with
  | None => ret s
  | Some ix =>
      if pid <=? 0 then ret s
      else
        '(found, _) ← lift (hashmap_get (Some ix) (_pid_index_key pid));
        if negb found then ret s
        else
          '(removed, ix) ← lift (hashmap_remove ix (_pid_index_key pid));
          if negb removed then panic else ret (set_pid_index (Some ix) s)
  end.

(** ** The list of all threads *)

Definition thread_add malloc s thread : run procs_t :=
  match thread, all_list s with
  | Some t, Some L =>
      p ← load s t;
      if in_all_list p then ret s
      else
        let s := set_all_list (Some (ll_append L t)) s in
        s ← update s t (set_in_all_list true);
        pid_set malloc s (Some t)
  | _, _ => ret s
  end.

(** [cleanup_thread]; [thread_cleanup] is the same behind the scheduler lock. *)
Definition cleanup_thread s thread : run procs_t :=
  match thread, all_list s with
  | Some t, Some L =>
      p ← load s t;
      if negb (in_all_list p) then ret s
      else
        s ← pid_remove s (tpid p);
        let s := set_all_list (Some (ll_remove L t)) s in
        update s t (set_in_all_list false)
  | _, _ => ret s
  end.

(** The [ll_foreach] loops: the first thread of the list that satisfies the test. *)
Fixpoint first_thread s (test : proc_t -> bool) (l : list Z) : run (ptr Z) :=
  match l with
  | [] => ret None
  | t :: l => p ← load s t; if test p then ret (Some t) else first_thread s test l
  end.

Definition find_thread malloc s (pid : Z) : run (ptr Z * procs_t) :=
  match all_list s with
  | None => ret (None, s)
  | Some L =>
      '(thread, s) ← pid_get s pid;
      match thread with
      | Some t => ret (Some t, s)
      | None =>
          thread ← first_thread s (fun p => tpid p =? pid) L;
          match thread with
          | None => ret (None, s)
          | Some t => s ← pid_set malloc s (Some t); ret (Some t, s)
          end
      end
  end.

Definition thread_get s thread : run procs_t :=
  match thread with
  | None => ret s
  | Some t => update s t (fun p => set_refcount (u32_wrap (refcount p + 1)) p)
  end.

Definition thread_put s thread : run procs_t :=
  match thread with
  | None => ret s
  | Some t =>
      p ← load s t;
      let old_refs := refcount p in
      s ← update s t (set_refcount (u32_wrap (old_refs - 1)));
      if old_refs =? 0 then update s t (fun p => set_refcount (u32_wrap (refcount p + 1)) p)
      else if negb (old_refs =? 1) then ret s
      else
        let old_flags := lifecycle_flags p in
        s ← update s t (set_lifecycle_flags (Z.lor old_flags SCHED_DEFER_QUEUED));
        if negb (Z.land old_flags SCHED_DEFER_QUEUED =? 0) then ret s
        else
          match reap_list s with
          | None => ret s
          | Some R =>
              if in_reap_list p then ret s
              else update (set_reap_list (Some (ll_append R t)) s) t (set_in_reap_list true)
          end
  end.

Definition sched_find_thread malloc s (pid : Z) : run (ptr Z * procs_t) :=
  '(thread, s) ← find_thread malloc s pid;
  match thread with
  | None => ret (None, s)
  | Some t =>
      p ← load s t;
      if in_all_list p && (tpid p =? pid) then s ← thread_get s (Some t); ret (Some t, s)
      else ret (None, s)
  end.

Definition sched_pid_alive malloc s (pid : Z) : run (bool * procs_t) :=
  if pid <=? 0 then ret (false, s)
  else
    '(thread, s) ← find_thread malloc s pid;
    match thread with
    | None => ret (false, s)
    | Some t =>
        p ← load s t;
        ret (in_all_list p && (tpid p =? pid) &&
             negb (bool_decide (pstate p = THREAD_ZOMBIE)) &&
             (Z.land (lifecycle_flags p) SCHED_DESTROYING =? 0), s)
    end.

(** ** Sessions and process groups *)

(** [pgid] and [sid] of a new thread, from [create_thread]. *)
Definition new_ids (parent : ptr proc_t) (user_thread' : bool) (pid : Z) : Z * Z :=
  if user_thread' then
    match parent with
    | Some q => if user_thread q && (0 <? tpid q) then (pgid q, sid q) else (pid, pid)
    | None => (pid, pid)
    end
  else (0, 0).

Definition sched_setpgid malloc s (self : ptr Z) (pid pgid' : Z) : run (Z * procs_t) :=
  match self with
  | None => ret (- EINVAL, s)
  | Some me =>
      p ← load s me;
      if negb (user_thread p) then ret (- EINVAL, s)
      else if (pid <? 0) || (pgid' <? 0) then ret (- EINVAL, s)
      else
        '(target, s) ← (if 0 <? pid then find_thread malloc s pid else ret (Some me, s));
        match target with
        | None => ret (- ESRCH, s)
        | Some t =>
            q ← load s t;
            if negb (user_thread q) then ret (- ESRCH, s)
            else if negb (tpid q =? tpid p) && negb (ppid q =? tpid p) then ret (- ESRCH, s)
            else if negb (t =? me) && did_exec q then ret (- EACCES, s)
            else if negb (sid q =? sid p) then ret (- EPERM, s)
            else if sid q =? tpid q then ret (- EPERM, s)
            else
              let pgid' := if pgid' =? 0 then tpid q else pgid' in
              found ← (if negb (pgid' =? tpid q)
                       then L ← lift (all_list s);
                            first_thread s (fun r => (pgid r =? pgid') && (sid r =? sid p)) L
                       else ret (Some t));
              match found with
              | None => ret (- EPERM, s)
              | Some _ => s ← update s t (set_pgid pgid'); ret (0, s)
              end
        end
  end.

Definition sched_setsid s (self : ptr Z) : run (Z * procs_t) :=
  match self with
  | None => ret (- EINVAL, s)
  | Some me =>
      p ← load s me;
      if negb (user_thread p) then ret (- EINVAL, s)
      else
        exists_group ← match all_list s with
                       | Some L => first_thread s (fun r => pgid r =? tpid p) L
                       | None => ret None
                       end;
        match exists_group with
        | Some _ => ret (- EPERM, s)
        | None =>
            s ← update s me (fun p => set_tty_index TTY_NONE (set_pgid (tpid p) (set_sid (tpid p) p)));
            ret (tpid p, s)
        end
  end.

Definition sched_pgrp_in_session s (pgid' sid' : Z) : run bool :=
  match all_list s with
  | None => ret false
  | Some L =>
      if (pgid' <=? 0) || (sid' <=? 0) then ret false
      else
        r ← first_thread s (fun p => negb (negb (pgid p =? pgid') || negb (sid p =? sid'))) L;
        ret (bool_decide (is_Some r))
  end.

(** ** Waiting for children *)

Definition waitpid_matches (parent child : proc_t) (pid : Z) : bool :=
  if negb (user_thread child) then false
  else if negb (ppid child =? tpid parent) then false
  else if 0 <? pid then tpid child =? pid
  else if pid =? 0 then pgid child =? pgid parent
  else if pid =? -1 then true
  else pgid child =? - pid.

Definition waitpid_find_zombie s (self : proc_t) (pid : Z) : run (ptr Z) :=
  zs ← lift (zombie_list s);
  first_thread s (fun p => waitpid_matches self p pid) zs.

Definition stopped_child (p : proc_t) : bool :=
  bool_decide (pstate p = THREAD_STOPPED) && negb (stop_reported p).

(** The scan for a stopped child also notes whether any child matched. *)
Fixpoint stopped_loop s (self : proc_t) (pid : Z) (l : list Z) (has_child : bool) : run (ptr Z * bool) :=
  match l with
  | [] => ret (None, has_child)
  | t :: l =>
      p ← load s t;
      if negb (waitpid_matches self p pid) then stopped_loop s self pid l has_child
      else if stopped_child p then ret (Some t, true)
      else stopped_loop s self pid l true
  end.

Definition waitpid_find_stopped s (self : proc_t) (pid : Z) (has_child : bool) : run (ptr Z * bool) :=
  L ← lift (all_list s); stopped_loop s self pid L has_child.

Definition waitpid_has_child s (self : proc_t) (pid : Z) : run bool :=
  L ← lift (all_list s);
  r ← first_thread s (fun p => waitpid_matches self p pid) L;
  ret (bool_decide (is_Some r)).

Definition waitpid_status (p : proc_t) : Z :=
  if negb (exit_signal p =? 0) then Z.land (exit_signal p) 0x7f
  else
    let code := exit_code p in
    let code := if code <? 0 then 1 else code in
    Z.shiftl (Z.land code 0xff) 8.

Definition UINT64_MAX : Z := 2 ^ 64 - 1.

Definition waitpid_add_ticks (counter ticks : Z) : Z :=
  if ticks =? 0 then counter
  else
    let next := u64_wrap (counter + ticks) in
    if next <? counter then UINT64_MAX else next.

Definition waitpid_sum_ticks (own_ticks child_ticks : Z) : Z :=
  let total_ticks := u64_wrap (own_ticks + child_ticks) in
  if total_ticks <? own_ticks then UINT64_MAX else total_ticks.

Definition charge (parent child : proc_t) : proc_t :=
  let parent := set_child_cpu_time_ticks (waitpid_add_ticks (child_cpu_time_ticks parent)
    (waitpid_sum_ticks (cpu_time_ticks child) (child_cpu_time_ticks child))) parent in
  let parent := set_child_user_ticks (waitpid_add_ticks (child_user_ticks parent)
    (waitpid_sum_ticks (user_ticks child) (child_user_ticks child))) parent in
  set_child_sys_ticks (waitpid_add_ticks (child_sys_ticks parent)
    (waitpid_sum_ticks (sys_ticks child) (child_sys_ticks child))) parent.

Definition _charge_child_time s (parent child : Z) : run procs_t :=
  c ← load s child; update s parent (fun p => charge p c).

Record waitpid_scan_t := mk_scan {
  zombie : ptr Z; stopped : ptr Z; active_zombie : ptr Z; has_child : bool
}.

(** The scan of the living children, once no zombie can be reaped. *)
Definition scan_children s (self : proc_t) (pid options : Z) (active : ptr Z) : run waitpid_scan_t :=
  if negb (Z.land options WUNTRACED =? 0) then
    '(st, hc) ← waitpid_find_stopped s self pid false; ret (mk_scan None st active hc)
  else hc ← waitpid_has_child s self pid; ret (mk_scan None None active hc).

(** [owned]: [thread_is_owned] of [kernel/sched/internal.h], whether a core still runs the thread. *)
Definition waitpid_scan s (owned : Z -> bool) (self : proc_t) (pid options : Z) : run waitpid_scan_t :=
  z ← waitpid_find_zombie s self pid;
  let active := match z with Some t => if owned t then Some t else None | None => None end in
  let z := match active with Some _ => None | None => z end in
  match z with
  | Some t => ret (mk_scan (Some t) None active true)
  | None => scan_children s self pid options active
  end.

(** [reap_zombie] up to the [thread_put] of the last reference; the status is what [*status] gets. *)
Definition reap_zombie s (self t : Z) : run (Z * Z * procs_t) :=
  z ← load s t;
  s ← _charge_child_time s self t;
  zs ← lift (zombie_list s);
  s ← update (set_zombie_list (Some (ll_remove zs t)) s) t (set_in_zombie_list false);
  s ← cleanup_thread s (Some t);
  s ← thread_put s (Some t);
  ret (tpid z, waitpid_status z, s).

Definition report_stopped s t : run (Z * Z * procs_t) :=
  p ← load s t;
  s ← update s t (set_stop_reported true);
  ret (tpid p, Z.lor 0x7f (Z.shiftl (Z.land (stop_signal p) 0xff) 8), s).

(** What one iteration of the [for (;;)] of [sched_waitpid] ends in: a result, waiting for the core
    that still runs a zombie, or sleeping until a child changes. *)
Inductive wait_out := WReturn (code : Z) (status : ptr Z) | WSpin (t : Z) | WSleep.

(** The rest of the round when neither a zombie nor a stopped child was found. *)
Definition wait_idle (running : bool) (options : Z) (scan : waitpid_scan_t) : wait_out :=
  if negb (has_child scan) then WReturn (- ECHILD) None
  else
    match active_zombie scan with
    | Some t => if negb (Z.land options WNOHANG =? 0) then WReturn 0 None else WSpin t
    | None =>
        if negb (Z.land options WNOHANG =? 0) then WReturn 0 None
        else if negb running then WReturn (- ECHILD) None
        else WSleep
    end.

Definition wait_decide s (running : bool) (me options : Z) (scan : waitpid_scan_t) : run (wait_out * procs_t) :=
  match zombie scan, stopped scan with
  | Some t, _ => '(code, status, s) ← reap_zombie s me t; ret (WReturn code (Some status), s)
  | None, Some t => '(code, status, s) ← report_stopped s t; ret (WReturn code (Some status), s)
  | None, None => ret (wait_idle running options scan, s)
  end.

Definition sched_waitpid_once s (owned : Z -> bool) (running : bool) (self : ptr Z) (pid options : Z)
  : run (wait_out * procs_t) :=
  match self with
  | None => ret (WReturn (- ECHILD) None, s)
  | Some me =>
      p ← load s me;
      if negb (user_thread p) then ret (WReturn (- ECHILD) None, s)
      else if negb (Z.land options (Z.lnot (Z.lor WNOHANG WUNTRACED)) =? 0)
      then ret (WReturn (- EINVAL) None, s)
      else
        match zombie_list s, all_list s with
        | Some _, Some _ =>
            scan ← waitpid_scan s owned p pid options; wait_decide s running me options scan
        | _, _ => ret (WReturn (- ECHILD) None, s)
        end
  end.

(** The macros of [sys/wait.h] by which a parent reads the status. *)
Definition WIFSTOPPED (status : Z) : bool := Z.land status 0xff =? 0x7f.
Definition WSTOPSIG (status : Z) : Z := Z.land (Z.shiftr status 8) 0xff.
Definition WIFSIGNALED (status : Z) : bool :=
  negb (Z.land status 0x7f =? 0) && negb (Z.land status 0x7f =? 0x7f).
Definition WTERMSIG (status : Z) : Z := Z.land status 0x7f.
Definition WIFEXITED (status : Z) : bool := Z.land status 0xff =? 0.
Definition WEXITSTATUS (status : Z) : Z := Z.land (Z.shiftr status 8) 0xff.

End Defs.

(** ** The table is exact *)

Section Table.
Context `{Arch} `{EntryLayout}.
Implicit Types (s : procs_t) (t : Z) (malloc : Z -> bool) (L : list Z) (M : gmap Z Z).

Definition listed s t (p : proc_t) : Prop := threads s !! t = Some p /\ in_all_list p = true.

(** The list holds exactly the threads marked as listed, the index exactly their positive
    identifiers, which are distinct. *)
Record table_inv s L M : Prop := {
  ti_list : all_list s = Some L;
  ti_nodup : NoDup L;
  ti_mem : forall t, t ∈ L <-> exists p, listed s t p;
  ti_addr : forall t p, threads s !! t = Some p -> 0 < t < SIZE_MOD /\ tpid p < 2 ^ 31;
  ti_pids : forall t u p q, listed s t p -> listed s u q -> tpid p = tpid q -> 0 < tpid p -> t = u;
  ti_index : exists ix, pid_index s = Some ix /\ map_ok ix M;
  ti_exact : forall k a, M !! k = Some a <-> exists p, listed s a p /\ 0 < tpid p /\ k = tpid p
}.

Definition procs_ok s : Prop := exists L M, table_inv s L M.

(** The answer of a lookup by identifier. *)
Definition names_pid s (pid : Z) (r : ptr Z) : Prop :=
  match r with
  | Some t => exists p, listed s t p /\ tpid p = pid
  | None => forall t p, listed s t p -> tpid p <> pid
  end.

Lemma first_thread_spec s test l :
  (forall t, t ∈ l -> exists p, threads s !! t = Some p) ->
  exists r, first_thread s test l = ret r /\
    match r with
    | Some t => t ∈ l /\ exists p, threads s !! t = Some p /\ test p = true
    | None => forall t p, t ∈ l -> threads s !! t = Some p -> test p = false
    end.
Proof.
  induction l as [|t l IH]; intros Hl; cbn [first_thread].
  { exists None. split; [done|]. set_solver. }
  destruct (Hl t) as [p Hp]; [set_solver|]. unfold load. rewrite Hp. cbn [lift ret mbind run_bind].
  destruct (test p) eqn:Ht.
  { exists (Some t). split; [done|]. split; [set_solver|eauto]. }
  destruct IH as (r & Hr & Hpost); [set_solver|]. exists r. split; [done|]. destruct r as [u|].
  - destruct Hpost as [Hu Hq]. split; [set_solver|done].
  - intros u q [->|Hu]%elem_of_cons Hq; [congruence|eauto].
Qed.

Lemma listed_first s L M test :
  table_inv s L M -> exists r, first_thread s test L = ret r /\
    match r with
    | Some t => exists p, listed s t p /\ test p = true
    | None => forall t p, listed s t p -> test p = false
    end.
Proof.
  intros Hok. destruct (first_thread_spec s test L) as (r & Hr & Hpost).
  { intros t (p & Hp & _)%(ti_mem _ _ _ Hok). by exists p. }
  exists r. split; [done|]. destruct r as [t|].
  - destruct Hpost as [(p & Hp)%(ti_mem _ _ _ Hok) (q & Hq & Ht)].
    exists q. split; [|done]. destruct Hp as [Hp1 Hp2]. simplify_eq. done.
  - intros t p Hp. apply (Hpost t p); [apply (ti_mem _ _ _ Hok); eauto|apply Hp].
Qed.

Lemma pid_key pid : 0 < pid < 2 ^ 31 -> _pid_index_key pid = pid.
Proof. intros. apply u32_wrap_small. lia. Qed.

Lemma find_thread_spec malloc s L M pid :
  table_inv s L M -> pid < 2 ^ 31 ->
  exists r, find_thread malloc s pid = ret (r, s) /\ names_pid s pid r.
Proof.
  intros Hok Hpid. unfold find_thread. rewrite (ti_list _ _ _ Hok). unfold pid_get.
  destruct (ti_index _ _ _ Hok) as (ix & Hix & Hm). rewrite Hix.
  destruct (listed_first s L M (fun p => tpid p =? pid) Hok) as (r & Hr & Hfirst).
  case_test.
  - cbn [ret mbind run_bind]. rewrite Hr. cbn [ret mbind run_bind]. destruct r as [t|].
    + destruct Hfirst as (p & Hp & Ht). bool_facts. unfold pid_set, load. rewrite Hix, (proj1 Hp).
      cbn [lift ret mbind run_bind]. test_lia. cbn [ret mbind run_bind].
      exists (Some t). split; [done|]. by exists p.
    + exists None. split; [done|]. intros t p Hp. specialize (Hfirst t p Hp). by bool_facts.
  - rewrite pid_key by lia. rewrite (get_spec ix M pid Hm). cbn [lift ret mbind run_bind].
    destruct (M !! pid) as [a|] eqn:HM.
    + rewrite bool_decide_true by done. cbn [negb lift ret mbind run_bind].
      apply (ti_exact _ _ _ Hok) in HM as (p & Hp & Hpos & ->).
      rewrite StrMap.decode_ptr_id by by apply (ti_addr _ _ _ Hok a p), Hp.
      unfold load. rewrite (proj1 Hp). cbn [lift ret mbind run_bind].
      rewrite (proj2 Hp), Z.eqb_refl. cbn [andb ret mbind run_bind].
      exists (Some a). split; [done|]. by exists p.
    + rewrite bool_decide_false by (by intros [? ?]). cbn [negb ret mbind run_bind].
      assert (Hno : forall t p, listed s t p -> tpid p <> pid).
      { intros t p Hp <-. assert (M !! tpid p = Some t); [|congruence].
        apply (ti_exact _ _ _ Hok). exists p. split_and!; [done|lia|done]. }
      rewrite Hr. cbn [ret mbind run_bind]. destruct r as [t|].
      * destruct Hfirst as (p & Hp & Ht). bool_facts. by destruct (Hno t p Hp).
      * exists None. split; [done|]. done.
Qed.

(** Changing other fields of a thread. *)
Lemma table_update s L M t p p' :
  table_inv s L M -> threads s !! t = Some p -> tpid p' = tpid p -> in_all_list p' = in_all_list p ->
  table_inv (set_threads (<[t := p']> (threads s)) s) L M.
Proof.
  intros Hok Hp Hpid Hin.
  assert (Hl : forall u q, listed (set_threads (<[t := p']> (threads s)) s) u q ->
    exists q0, listed s u q0 /\ tpid q0 = tpid q).
  { intros u q [Hq Hqi]. cbn [set_threads threads] in Hq.
    apply lookup_insert_Some in Hq as [[<- <-]|[_ Hq]]; [exists p; unfold listed; rewrite <- Hin; done|by exists q]. }
  assert (Hr : forall u q, listed s u q -> exists q0, listed (set_threads (<[t := p']> (threads s)) s) u q0 /\ tpid q0 = tpid q).
  { intros u q [Hq Hqi]. destruct (decide (u = t)) as [->|Hne].
    - exists p'. unfold listed. cbn [set_threads threads]. rewrite lookup_insert_eq. simplify_eq. by rewrite Hin.
    - exists q. unfold listed. cbn [set_threads threads]. by rewrite lookup_insert_ne. }
  constructor; try apply Hok.
  - intros u. rewrite (ti_mem _ _ _ Hok). split; intros (q & Hq); [apply Hr in Hq|apply Hl in Hq]; naive_solver.
  - intros u q. cbn [set_threads threads]. intros [[<- <-]|[_ Hq]]%lookup_insert_Some.
    + rewrite Hpid. by eapply (ti_addr _ _ _ Hok).
    + by eapply (ti_addr _ _ _ Hok).
  - intros u1 u2 q1 q2 (q3 & H3 & E3)%Hl (q4 & H4 & E4)%Hl Heq Hpos.
    eapply (ti_pids _ _ _ Hok); [done|done|congruence|lia].
  - intros k a. rewrite (ti_exact _ _ _ Hok). split; intros (q & Hq & Hpos & ->).
    + apply Hr in Hq as (q0 & Hq0 & E). exists q0. split_and!; [done|lia|done].
    + apply Hl in Hq as (q0 & Hq0 & E). exists q0. split_and!; [done|lia|done].
Qed.

(** The list part of adding and removing a thread: [b] is its new mark, [M'] the new index. *)
Lemma table_mark s L L' M M' t p b ix :
  table_inv s L M -> threads s !! t = Some p -> map_ok ix M' -> NoDup L' ->
  (forall u, u ∈ L' <-> (u = t /\ b = true) \/ (u <> t /\ u ∈ L)) ->
  (b = true -> forall u q, listed s u q -> u <> t -> 0 < tpid p -> tpid q <> tpid p) ->
  (forall k a, M' !! k = Some a <->
     (a = t /\ b = true /\ 0 < tpid p /\ k = tpid p) \/
     (a <> t /\ exists q, listed s a q /\ 0 < tpid q /\ k = tpid q)) ->
  table_inv (mk_procs (<[t := set_in_all_list b p]> (threads s)) (Some L') (zombie_list s)
               (reap_list s) (Some ix)) L' M'.
Proof.
  intros Hok Hp Hm Hnd HL Hfresh HM. set (s' := mk_procs _ _ _ _ _).
  assert (Hl : forall u q, listed s' u q <->
    (u = t /\ b = true /\ q = set_in_all_list b p) \/ (u <> t /\ listed s u q)).
  { intros u q. unfold listed, s'. cbn [threads]. destruct (decide (u = t)) as [->|Hne].
    - rewrite lookup_insert_eq. split; [intros [[= <-] E]; by left|]. intros [(_ & -> & ->)|[? _]]; done.
    - rewrite lookup_insert_ne by done. tauto. }
  constructor; [done|done| | |eauto|by exists ix|].
  - intros u. rewrite HL, (ti_mem _ _ _ Hok). setoid_rewrite Hl. naive_solver.
  - intros u q. unfold s'. cbn [threads]. intros [[<- <-]|[_ Hq]]%lookup_insert_Some.
    + by apply (ti_addr _ _ _ Hok t p).
    + by eapply (ti_addr _ _ _ Hok).
  - intros u1 u2 q1 q2 H1 H2 Heq Hpos. apply Hl in H1, H2.
    destruct H1 as [(-> & Hb & ->)|[Hn1 H1]], H2 as [(-> & Hb' & ->)|[Hn2 H2]]; [done| | |by eapply (ti_pids _ _ _ Hok)].
    + by destruct (Hfresh Hb u2 q2 H2 Hn2 Hpos).
    + destruct (Hfresh Hb' u1 q1 H1 Hn1); [simpl in *; lia|done].
  - intros k a. rewrite HM. setoid_rewrite Hl. split.
    + intros [(-> & -> & Hpos & ->)|[Hne (q & Hq & Hpos & ->)]]; [|by exists q; eauto].
      exists (set_in_all_list true p). split_and!; [by left|done|done].
    + intros (q & [(-> & -> & ->)|[Hne Hq]] & Hpos & ->); [by left|]. right. eauto.
Qed.

(** Adding a thread whose identifier is free; the machine panics only when the index cannot grow. *)
Lemma thread_add_spec malloc s L M t p :
  table_inv s L M -> threads s !! t = Some p -> in_all_list p = false ->
  (0 < tpid p -> forall u q, listed s u q -> tpid q <> tpid p) ->
  (thread_add malloc s (Some t) = panic /\ exists ix, pid_index s = Some ix /\
     calloc malloc (2 * Hashmap.capacity ix) entry_bytes = false) \/
  exists s' M', thread_add malloc s (Some t) = ret s' /\ table_inv s' (L ++ [t]) M' /\
    threads s' = <[t := set_in_all_list true p]> (threads s).
Proof.
  intros Hok Hp Hout Hfresh. destruct (ti_index _ _ _ Hok) as (ix & Hix & Hm).
  assert (HtL : t ∉ L) by (intros (q & Hq & Hqi)%(ti_mem _ _ _ Hok); congruence).
  pose proof (ti_addr _ _ _ Hok t p Hp) as [_ Hmax].
  unfold thread_add, update, load. rewrite (ti_list _ _ _ Hok), Hp. cbn [lift ret mbind run_bind].
  rewrite Hout. cbn [set_all_list threads]. rewrite Hp. cbn [lift ret mbind run_bind].
  unfold ll_append. rewrite decide_False by done.
  unfold pid_set, load. cbn [set_threads set_all_list pid_index threads]. rewrite Hix, lookup_insert_eq.
  cbn [lift ret mbind run_bind]. cbn [tpid set_in_all_list].
  assert (Hnd : NoDup (L ++ [t])).
  { apply list.NoDup_app. split; [apply Hok|]. split; [set_solver|apply NoDup_singleton]. }
  assert (HLt : forall u, u ∈ L ++ [t] <-> (u = t /\ true = true) \/ (u <> t /\ u ∈ L)) by set_solver.
  assert (Hothers : forall k a, M !! k = Some a <-> (a <> t /\ exists q, listed s a q /\ 0 < tpid q /\ k = tpid q)).
  { intros k a. rewrite (ti_exact _ _ _ Hok). split; [|naive_solver].
    intros (q & Hq & ?). split; [|eauto]. intros ->. destruct Hq. congruence. }
  case_test.
  - right. eexists _, M. split; [done|]. split; [|done].
    unfold set_threads, set_all_list. cbn [threads all_list zombie_list reap_list pid_index]. rewrite Hix.
    apply (table_mark s L _ M); try done; [intros; lia|]. intros k a. rewrite Hothers. split; [tauto|].
    intros [(? & ? & ? & ?)|?]; [lia|done].
  - rewrite pid_key by lia.
    destruct (set_spec malloc ix M (tpid p) t Hm) as (b & ix' & Hset & Hb & Hpost). rewrite Hset.
    cbn [lift ret mbind run_bind]. destruct b; cbn [negb].
    + right. eexists _, (<[tpid p := t]> M). split; [done|]. cbn [set_pid_index threads all_list zombie_list reap_list].
      split; [|done]. apply (table_mark s L _ M); try done; [intros _ u q Hq Hne Hpos; by eapply Hfresh|].
      intros k a. rewrite lookup_insert_Some, Hothers. split; [naive_solver lia|].
      intros [(-> & _ & _ & ->)|[Hne (q & Hq & Hpos & ->)]]; [by left|]. right.
      split; [|eauto]. intros Heq. by apply (Hfresh ltac:(lia) a q).
    + left. split; [done|]. exists ix. split; [done|]. symmetry in Hb. bool_facts. done.
Qed.

(** Removing a thread never panics. *)
Lemma cleanup_spec s L M t p :
  table_inv s L M -> listed s t p ->
  exists s' M', cleanup_thread s (Some t) = ret s' /\ table_inv s' (ll_remove L t) M' /\
    threads s' = <[t := set_in_all_list false p]> (threads s) /\
    zombie_list s' = zombie_list s /\ reap_list s' = reap_list s.
Proof.
  intros Hok [Hp Hin]. destruct (ti_index _ _ _ Hok) as (ix & Hix & Hm).
  unfold cleanup_thread, load. rewrite (ti_list _ _ _ Hok), Hp. cbn [lift ret mbind run_bind].
  rewrite Hin. cbn [negb].
  assert (Hrem : exists ix' M', pid_remove s (tpid p) = ret (set_pid_index (Some ix') s) /\ map_ok ix' M' /\
    forall k a, M' !! k = Some a <-> (a <> t /\ exists q, listed s a q /\ 0 < tpid q /\ k = tpid q)).
  { unfold pid_remove. rewrite Hix. pose proof (ti_addr _ _ _ Hok t p Hp) as [_ Hmax]. case_test.
    - exists ix, M. split; [destruct s; simpl in *; by subst|]. split; [done|]. intros k a. rewrite (ti_exact _ _ _ Hok).
      split; [|naive_solver]. intros (q & Hq & Hpos & ->). split; [|eauto]. intros ->.
      destruct Hq. simplify_eq. lia.
    - rewrite pid_key by lia. rewrite (get_spec ix M _ Hm). cbn [lift ret mbind run_bind].
      assert (HMt : M !! tpid p = Some t).
      { apply (ti_exact _ _ _ Hok). exists p. split_and!; [done|lia|done]. }
      destruct (remove_spec ix M (tpid p) Hm) as (ix' & Hr & Hm' & _). rewrite HMt in Hr |- *.
      rewrite bool_decide_true in Hr |- * by done. cbn [negb]. rewrite Hr. cbn [lift ret mbind run_bind negb].
      exists ix', (delete (tpid p) M). split; [done|]. split; [done|]. intros k a.
      rewrite lookup_delete_Some, (ti_exact _ _ _ Hok). split.
      + intros [Hne (q & Hq & Hpos & ->)]. split; [|eauto]. intros ->. destruct Hq. by simplify_eq.
      + intros [Hne (q & Hq & Hpos & ->)]. split; [|eauto]. intros Heq. apply Hne.
        by eapply (ti_pids _ _ _ Hok a t q p). }
  destruct Hrem as (ix' & M' & Hr & Hm' & HM'). rewrite Hr. cbn [ret mbind run_bind].
  unfold update, load. cbn [set_all_list set_pid_index threads]. rewrite Hp. cbn [lift ret mbind run_bind].
  eexists _, M'. split; [done|]. split_and!; [|done..].
  apply (table_mark s L _ M); try done.
  - by apply NoDup_filter, Hok.
  - intros u. unfold ll_remove. rewrite list_elem_of_filter. naive_solver.
  - intros k a. rewrite HM'. naive_solver.
Qed.

(** ** Sessions *)

(** A process group lies within one session, that of the process it is named after. *)
Record session_inv s : Prop := {
  si_group : forall t u p q, listed s t p -> listed s u q -> pgid p = pgid q -> sid p = sid q;
  si_leader : forall t u p q, listed s t p -> listed s u q -> 0 < tpid p -> tpid p = pgid q -> sid p = sid q;
  si_zero : forall t p, listed s t p -> pgid p = 0 -> sid p = 0;
  si_user : forall t p, listed s t p -> user_thread p = true -> 0 < tpid p
}.

(** The listed threads of [s'] are those of [s] with [t] replaced by [q']. *)
Lemma session_put s s' t q' :
  session_inv s ->
  (forall u r, listed s' u r <-> (u = t /\ r = q') \/ (u <> t /\ listed s u r)) ->
  (forall u r, listed s u r -> u <> t -> pgid r = pgid q' -> sid r = sid q') ->
  (forall u r, listed s u r -> u <> t -> 0 < tpid r -> tpid r = pgid q' -> sid r = sid q') ->
  (forall u r, listed s u r -> u <> t -> 0 < tpid q' -> tpid q' = pgid r -> sid q' = sid r) ->
  (pgid q' = 0 -> sid q' = 0) -> (user_thread q' = true -> 0 < tpid q') ->
  session_inv s'.
Proof.
  intros Hs Hl Hg Hlead Hmine Hz Hu. constructor.
  - intros t1 u1 p1 q1 [[-> ->]|[Hn1 H1]]%Hl [[-> ->]|[Hn2 H2]]%Hl Heq; [done| | |by eapply si_group].
    + symmetry. by eapply Hg.
    + by eapply Hg.
  - intros t1 u1 p1 q1 [[-> ->]|[Hn1 H1]]%Hl [[-> ->]|[Hn2 H2]]%Hl Hpos Heq; [done| | |by eapply si_leader].
    + by eapply Hmine.
    + by eapply Hlead.
  - intros t1 p1 [[-> ->]|[Hn1 H1]]%Hl; [done|by eapply si_zero].
  - intros t1 p1 [[-> ->]|[Hn1 H1]]%Hl; [done|by eapply si_user].
Qed.

Lemma listed_put s s' t q' :
  threads s' = <[t := q']> (threads s) -> in_all_list q' = true ->
  forall u r, listed s' u r <-> (u = t /\ r = q') \/ (u <> t /\ listed s u r).
Proof.
  intros Ht Hin u r. unfold listed. rewrite Ht. destruct (decide (u = t)) as [->|Hne].
  - rewrite lookup_insert_eq. split; [intros [[= <-] _]; by left|]. intros [[_ ->]|[? _]]; done.
  - rewrite lookup_insert_ne by done. naive_solver.
Qed.

(** Every listed thread of [s'] is listed in [s] with the same identity. *)
Definition ids_kept s s' : Prop :=
  forall u r, listed s' u r -> exists r0, listed s u r0 /\ tpid r0 = tpid r /\ pgid r0 = pgid r /\
    sid r0 = sid r /\ user_thread r0 = user_thread r.

Lemma ids_kept_refl s : ids_kept s s.
Proof. intros u r Hr. eauto 10. Qed.

(** Threads that only leave the list keep the session invariant. *)
Lemma session_sub s s' : session_inv s -> ids_kept s s' -> session_inv s'.
Proof.
  intros Hs Hl. constructor.
  - intros t1 u1 p1 q1 (? & H1 & _ & <- & <- & _)%Hl (? & H2 & _ & <- & <- & _)%Hl. by eapply si_group.
  - intros t1 u1 p1 q1 (? & H1 & <- & _ & <- & _)%Hl (? & H2 & _ & <- & <- & _)%Hl. by eapply si_leader.
  - intros t1 p1 (? & H1 & _ & <- & <- & _)%Hl. by eapply si_zero.
  - intros t1 p1 (? & H1 & <- & _ & _ & <-)%Hl. by eapply si_user.
Qed.

(** The target of [setpgid]. *)
Lemma setpgid_target malloc s L M me p pid :
  table_inv s L M -> listed s me p -> pid < 2 ^ 31 ->
  exists r, (if 0 <? pid then find_thread malloc s pid else ret (Some me, s)) = ret (r, s) /\
    match r with
    | Some t => exists q, listed s t q /\ (pid = 0 \/ pid < 0 \/ tpid q = pid)
    | None => names_pid s pid None
    end.
Proof.
  intros Hok Hme Hpid. case_test.
  - destruct (find_thread_spec malloc s L M pid Hok Hpid) as (r & Hr & Hn). exists r. split; [done|].
    destruct r as [t|]; [|done]. destruct Hn as (q & Hq & <-). eauto.
  - exists (Some me). split; [done|]. exists p. split; [done|lia].
Qed.

(** [setpgid] moves the target into a group of its session, or changes nothing. *)
Lemma setpgid_spec malloc s L M me p pid pgid' :
  table_inv s L M -> session_inv s -> listed s me p -> pid < 2 ^ 31 ->
  exists code s', sched_setpgid malloc s (Some me) pid pgid' = ret (code, s') /\
    table_inv s' L M /\ session_inv s' /\ (code <> 0 -> s' = s).
Proof.
  intros Hok Hs Hme Hpid. unfold sched_setpgid, load. rewrite (proj1 Hme). cbn [lift ret mbind run_bind].
  assert (Hsame : forall code, code <> 0 -> exists code' s', ret (code, s) = ret (code', s') /\
    table_inv s' L M /\ session_inv s' /\ (code' <> 0 -> s' = s)) by (intros; by eexists _, _).
  unfold EINVAL, ESRCH, EACCES, EPERM.
  case_test; [by apply Hsame|]. case_test; [by apply Hsame|].
  destruct (setpgid_target malloc s L M me p pid Hok Hme Hpid) as (r & Hr & Htgt). rewrite Hr.
  cbn [ret mbind run_bind]. destruct r as [t|]; [|by apply Hsame].
  destruct Htgt as (q & Hq & _). rewrite (proj1 Hq). cbn [lift ret mbind run_bind].
  do 5 (case_test; [by apply Hsame|]).
  set (g := if pgid' =? 0 then tpid q else pgid').
  assert (Hqpos : 0 < tpid q) by by eapply (si_user _ Hs).
  assert (Hg0 : g <> 0) by (unfold g; case_test; lia).
  assert (Hdone : (forall u r, listed s u r -> u <> t -> pgid r = g -> sid r = sid q) ->
    (forall u r, listed s u r -> u <> t -> 0 < tpid r -> tpid r = g -> sid r = sid q) ->
    exists code s', (s0 ← update s t (set_pgid g); ret (0, s0)) = ret (code, s') /\
      table_inv s' L M /\ session_inv s' /\ (code <> 0 -> s' = s)).
  { intros Hsame1 Hsame2. unfold update, load. rewrite (proj1 Hq). cbn [lift ret mbind run_bind].
    eexists _, _. split; [done|]. split; [by apply (table_update s L M t q); [|apply Hq| |]|]. split; [|done].
    apply (session_put s _ t (set_pgid g q)); try done; [apply listed_put; [done|apply Hq]|].
    intros u r0 Hu _ Hpos Heq. simpl in *. by eapply (si_leader _ Hs t u). }
  case_test; cbn [mbind run_bind ret].
  - rewrite (ti_list _ _ _ Hok). cbn [lift ret mbind run_bind].
    destruct (listed_first s L M (fun r => (pgid r =? g) && (sid r =? sid p)) Hok) as (r & Hrf & Hfound).
    rewrite Hrf. cbn [ret mbind run_bind]. destruct r as [v|]; [|by apply Hsame].
    destruct Hfound as (w & Hw & Ht). bool_facts. apply Hdone.
    + intros u r0 Hu _ Heq. transitivity (sid w); [|congruence]. eapply (si_group _ Hs u v); [done|done|congruence].
    + intros u r0 Hu _ Hpos Heq. transitivity (sid w); [|congruence].
      eapply (si_leader _ Hs u v); [done|done|done|congruence].
  - apply Hdone.
    + intros u r0 Hu _ Heq. symmetry. eapply (si_leader _ Hs t u); [done|done|done|congruence].
    + intros u r0 Hu Hne Hpos Heq. destruct Hne. eapply (ti_pids _ _ _ Hok); [done|done|congruence|done].
Qed.

(** [setsid] makes the caller the leader of a new session and group, unless a group has its name. *)
Lemma setsid_spec s L M me p :
  table_inv s L M -> session_inv s -> listed s me p -> user_thread p = true ->
  exists code s', sched_setsid s (Some me) = ret (code, s') /\ table_inv s' L M /\ session_inv s' /\
    ((code = - EPERM /\ s' = s /\ exists u r, listed s u r /\ pgid r = tpid p) \/
     (code = tpid p /\ (forall u r, listed s u r -> pgid r <> tpid p) /\
      threads s' = <[me := set_tty_index TTY_NONE (set_pgid (tpid p) (set_sid (tpid p) p))]> (threads s))).
Proof.
  intros Hok Hs Hme Hu. unfold sched_setsid, load. rewrite (proj1 Hme). cbn [lift ret mbind run_bind].
  rewrite Hu. cbn [negb]. rewrite (ti_list _ _ _ Hok).
  destruct (listed_first s L M (fun r => pgid r =? tpid p) Hok) as (r & Hr & Hfound).
  rewrite Hr. cbn [ret mbind run_bind]. destruct r as [v|].
  - destruct Hfound as (w & Hw & Ht). bool_facts. eexists _, _. split_and!; try done. left. split_and!; eauto.
  - assert (Hno : forall u r, listed s u r -> pgid r <> tpid p).
    { intros u r Hur. specialize (Hfound u r Hur). by bool_facts. }
    unfold update, load. rewrite (proj1 Hme). cbn [lift ret mbind run_bind].
    eexists _, _. split; [done|]. split; [by apply (table_update s L M me p); [|apply Hme| |]|].
    split; [|by right].
    apply (session_put s _ me (set_tty_index TTY_NONE (set_pgid (tpid p) (set_sid (tpid p) p)))); try done.
    + apply listed_put; [done|apply Hme].
    + intros u r Hur _ Heq. by destruct (Hno u r Hur).
    + intros u r Hur Hne Hpos Heq. simpl in Heq. destruct Hne. by eapply (ti_pids _ _ _ Hok).
    + intros u r Hur _ _ Heq. simpl in Heq. by destruct (Hno u r Hur).
    + intros _. simpl. by apply (si_user _ Hs me p).
Qed.

(** ** Waiting *)

(** The threads of a list that pass a test, in order. *)
Definition passing s (test : proc_t -> bool) (l : list Z) : list Z :=
  filter (fun t => default false (test <$> threads s !! t) = true) l.

Lemma passing_cons s test t q l : threads s !! t = Some q ->
  passing s test (t :: l) = if test q then t :: passing s test l else passing s test l.
Proof. intros Hq. unfold passing. rewrite filter_cons, Hq. cbn. by destruct (test q). Qed.

Lemma passing_in s test l t : t ∈ passing s test l -> t ∈ l /\ exists q, threads s !! t = Some q /\ test q = true.
Proof.
  unfold passing. rewrite list_elem_of_filter. intros [Ht Hl]. split; [done|]. destruct (threads s !! t) as [q|]; [|done]. by exists q.
Qed.

Lemma first_thread_passing s test l : (forall t, t ∈ l -> exists q, listed s t q) -> first_thread s test l = ret (head (passing s test l)).
Proof.
  induction l as [|t l IH]; intros Hl; [done|]. destruct (Hl t) as (q & Hq & _); [by left|]. rewrite (passing_cons s test t q l Hq).
  cbn [first_thread]. unfold load. rewrite Hq. cbn [lift ret mbind run_bind]. destruct (test q); [done|]. apply IH. intros u Hu. apply Hl. by right.
Qed.

(** The scan for a stopped child finds the first one; it has seen a matching child when there is one, or when it
    was told of one. *)
Lemma stopped_loop_passing s p pid l hc : (forall t, t ∈ l -> exists q, listed s t q) ->
  stopped_loop s p pid l hc = ret (head (passing s (fun q => waitpid_matches p q pid && stopped_child q) l),
    hc || bool_decide (passing s (fun q => waitpid_matches p q pid) l <> [])).
Proof.
  revert hc. induction l as [|t l IH]; intros hc Hl; cbn [stopped_loop].
  { unfold passing. rewrite bool_decide_false by (intros Hx; by apply Hx). by rewrite orb_false_r. }
  destruct (Hl t) as (q & Hq & _); [by left|]. rewrite !(passing_cons s _ t q l Hq). unfold load. rewrite Hq. cbn [lift ret mbind run_bind].
  assert (Hl' : forall u, u ∈ l -> exists q, listed s u q) by (intros u Hu; apply Hl; by right).
  destruct (waitpid_matches p q pid) eqn:Hm; cbn [negb andb]; [|by apply IH]. rewrite bool_decide_true by done. rewrite orb_true_r.
  destruct (stopped_child q); [done|]. by rewrite IH.
Qed.

Lemma scan_has_child s L M p pid : table_inv s L M ->
  waitpid_has_child s p pid = ret (bool_decide (passing s (fun q => waitpid_matches p q pid) L <> [])).
Proof.
  intros Hok. unfold waitpid_has_child. rewrite (ti_list _ _ _ Hok). cbn [lift ret mbind run_bind].
  rewrite first_thread_passing by (intros t; by apply (ti_mem _ _ _ Hok)). cbn [ret mbind run_bind]. f_equal.
  apply bool_decide_ext. destruct (passing s _ L); cbn; [|done]. split; [by intros []|done].
Qed.

Definition same_ids (p' p : proc_t) : Prop :=
  tpid p' = tpid p /\ in_all_list p' = in_all_list p /\ pgid p' = pgid p /\ sid p' = sid p /\
  user_thread p' = user_thread p.

(** Overwriting a thread by one of the same identity; [s0] is an earlier state. *)
Lemma put_ids s0 s L M t q p' :
  table_inv s L M -> ids_kept s0 s -> threads s !! t = Some q -> same_ids p' q ->
  let s' := set_threads (<[t := p']> (threads s)) s in table_inv s' L M /\ ids_kept s0 s' /\ threads s' !! t = Some p'.
Proof.
  intros Hok Hl Hq (E1 & E2 & E3 & E4 & E5) s'. split; [by apply (table_update s L M t q)|].
  split; [|apply lookup_insert_eq]. intros u r [Hr Hri]. unfold s' in Hr. simpl in Hr.
  apply lookup_insert_Some in Hr as [[<- <-]|[_ Hr]]; [|by apply Hl].
  destruct (Hl t q) as (r0 & Hr0 & ?); [split; [done|congruence]|]. exists r0. naive_solver congruence.
Qed.

(** The lists of zombies and of threads to free are not part of the table. *)
Lemma table_zombies s L M z : table_inv s L M -> table_inv (set_zombie_list z s) L M.
Proof. intros []. by constructor. Qed.

Lemma table_reap s L M r : table_inv s L M -> table_inv (set_reap_list r s) L M.
Proof. intros []. by constructor. Qed.

(** Dropping a reference only changes the bookkeeping of the thread's death. *)
Lemma thread_put_spec s0 s L M t p :
  table_inv s L M -> ids_kept s0 s -> threads s !! t = Some p ->
  exists s', thread_put s (Some t) = ret s' /\ table_inv s' L M /\ ids_kept s0 s' /\ zombie_list s' = zombie_list s /\
    forall u, u <> t -> threads s' !! u = threads s !! u.
Proof.
  intros Hok Hk Hp. unfold thread_put, update, load. rewrite Hp. cbn [lift ret mbind run_bind].
  destruct (put_ids s0 s L M t p (set_refcount (u32_wrap (refcount p - 1)) p)) as (Hok1 & Hk1 & Hp1); try done.
  set (s1 := set_threads _ s) in *. set (p1 := set_refcount _ p) in *.
  assert (O1 : forall u, u <> t -> threads s1 !! u = threads s !! u) by (intros u Hu; by apply lookup_insert_ne). case_test.
  { rewrite Hp1. cbn [lift ret mbind run_bind]. eexists. split; [done|].
    destruct (put_ids s0 s1 L M t p1 (set_refcount (u32_wrap (refcount p1 + 1)) p1)) as (? & ? & _); try done.
    split_and!; [done..|]. intros u Hu. rewrite <- O1 by done. by apply lookup_insert_ne. }
  case_test; [by eexists|]. rewrite Hp1. cbn [lift ret mbind run_bind].
  destruct (put_ids s0 s1 L M t p1 (set_lifecycle_flags (Z.lor (lifecycle_flags p) SCHED_DEFER_QUEUED) p1))
    as (Hok2 & Hk2 & Hp2); try done.
  set (s2 := set_threads _ s1) in *. set (p2 := set_lifecycle_flags _ p1) in *.
  assert (O2 : forall u, u <> t -> threads s2 !! u = threads s !! u) by (intros u Hu; rewrite <- O1 by done; by apply lookup_insert_ne).
  case_test; [by eexists|]. destruct (reap_list s2) as [R|]; [|by eexists]. destruct (in_reap_list p); [by eexists|].
  pose proof (table_reap s2 L M (Some (ll_append R t)) Hok2) as Hok3.
  cbn [set_reap_list threads]. rewrite Hp2. cbn [lift ret mbind run_bind]. eexists. split; [done|].
  destruct (put_ids s0 (set_reap_list (Some (ll_append R t)) s2) L M t p2 (set_in_reap_list true p2)) as (? & ? & _); try done.
  split_and!; [done..|]. intros u Hu. rewrite <- O2 by done. by apply lookup_insert_ne.
Qed.

(** Reaping removes the zombie from both lists. *)
Lemma reap_spec s L M Zs me p t q :
  table_inv s L M -> zombie_list s = Some Zs -> listed s me p -> listed s t q ->
  exists s' M', reap_zombie s me t = ret (tpid q, waitpid_status q, s') /\
    table_inv s' (ll_remove L t) M' /\ zombie_list s' = Some (ll_remove Zs t) /\ ids_kept s s' /\
    (t <> me -> threads s' !! me = Some (charge p q)) /\ forall u, u <> t -> u <> me -> threads s' !! u = threads s !! u.
Proof.
  intros Hok Hz Hme Hq. unfold reap_zombie, _charge_child_time, update, load.
  rewrite (proj1 Hq), (proj1 Hme). cbn [lift ret mbind run_bind].
  destruct (put_ids s s L M me p (charge p q) Hok (ids_kept_refl s) (proj1 Hme)) as (Hok1 & Hk1 & Hp1); [done|].
  set (s1 := set_threads _ s) in *. change (zombie_list s1) with (zombie_list s). rewrite Hz. cbn [lift ret mbind run_bind].
  assert (Hq1 : exists q1, threads s1 !! t = Some q1 /\ same_ids q1 q).
  { destruct (decide (t = me)) as [->|Hne].
    - exists (charge p q). split; [done|]. destruct Hme, Hq. by simplify_eq.
    - exists q. split; [|done]. unfold s1. cbn [set_threads threads]. rewrite lookup_insert_ne by done. apply Hq. }
  destruct Hq1 as (q1 & Hq1 & Hsame). cbn [set_zombie_list threads]. rewrite Hq1. cbn [lift ret mbind run_bind].
  pose proof (table_zombies s1 L M (Some (ll_remove Zs t)) Hok1) as Hok1'.
  destruct (put_ids s (set_zombie_list (Some (ll_remove Zs t)) s1) L M t q1 (set_in_zombie_list false q1))
    as (Hok2 & Hk2 & Hp2); try done.
  cbn [set_zombie_list threads] in Hok2, Hk2, Hp2.
  set (s2 := set_threads _ (set_zombie_list _ s1)) in *.
  assert (Hl2 : listed s2 t (set_in_zombie_list false q1)).
  { split; [done|]. destruct Hsame as (_ & E & _). simpl. rewrite E. apply Hq. }
  destruct (cleanup_spec s2 L M t _ Hok2 Hl2) as (s3 & M3 & Hc & Hok3 & Hth3 & Hz3 & _). rewrite Hc.
  cbn [ret mbind run_bind].
  assert (Hk3 : ids_kept s s3).
  { intros u r [Hr Hri]. rewrite Hth3 in Hr.
    apply lookup_insert_Some in Hr as [[<- <-]|[_ Hr]]; [done|]. by apply Hk2. }
  destruct (thread_put_spec s s3 (ll_remove L t) M3 t (set_in_all_list false (set_in_zombie_list false q1)))
    as (s4 & Hput & Hok4 & Hk4 & Hz4 & Hu4); [done|done|by rewrite Hth3; apply lookup_insert_eq|].
  rewrite Hput. cbn [ret mbind run_bind]. exists s4, M3.
  assert (Hoth : forall u, u <> t -> threads s4 !! u = threads s1 !! u) by (intros u Hu; rewrite Hu4, Hth3, lookup_insert_ne by done; apply lookup_insert_ne; done).
  split_and!; [done|done|by rewrite Hz4, Hz3|done|intros Hne; by rewrite Hoth by done|].
  intros u Hut Hum. rewrite Hoth by done. by apply lookup_insert_ne.
Qed.

(** ** Histories *)

(** The table [scheduler_init] sets up. *)
Definition procs_boot (ix : hashmap_t) : procs_t := mk_procs ∅ (Some []) (Some []) (Some []) (Some ix).

(** One call on the table.  A new thread has the identifier of [sched_next_pid], which names no
    thread and no group, and the group and session of [create_thread]; the calls of a process are
    made by a listed thread. *)
Inductive proc_step : procs_t -> procs_t -> Prop :=
| step_create malloc s s' t p parent :
    threads s !! t = None -> 0 < t < SIZE_MOD -> in_all_list p = false -> tpid p < 2 ^ 31 ->
    (user_thread p = true -> 0 < tpid p) ->
    (0 < tpid p -> forall u q, listed s u q -> tpid q <> tpid p /\ pgid q <> tpid p) ->
    (forall q, parent = Some q -> exists u, listed s u q) ->
    (pgid p, sid p) = new_ids parent (user_thread p) (tpid p) ->
    thread_add malloc (set_threads (<[t := p]> (threads s)) s) (Some t) = ret s' ->
    proc_step s s'
| step_cleanup s s' t p : listed s t p -> cleanup_thread s (Some t) = ret s' -> proc_step s s'
| step_free s t p :
    threads s !! t = Some p -> in_all_list p = false -> proc_step s (set_threads (delete t (threads s)) s)
| step_find malloc s s' pid r : pid < 2 ^ 31 -> sched_find_thread malloc s pid = ret (r, s') -> proc_step s s'
| step_put s s' t p : threads s !! t = Some p -> thread_put s (Some t) = ret s' -> proc_step s s'
| step_setpgid malloc s s' me p pid pgid' r :
    listed s me p -> pid < 2 ^ 31 -> sched_setpgid malloc s (Some me) pid pgid' = ret (r, s') -> proc_step s s'
| step_setsid s s' me p r :
    listed s me p -> user_thread p = true -> sched_setsid s (Some me) = ret (r, s') -> proc_step s s'.

Definition procs_inv s : Prop := exists L M, table_inv s L M /\ session_inv s.

Lemma procs_boot_inv ix : map_ok ix ∅ -> procs_inv (procs_boot ix).
Proof.
  intros Hm.
  assert (Hno : forall t p, ~ listed (procs_boot ix) t p) by (intros t p [Hp _]; cbn [procs_boot threads] in Hp; by rewrite lookup_empty in Hp).
  exists [], ∅. split; constructor; try done.
  all: try (intros t u p q Hp; by destruct (Hno t p)).
  all: try (intros t p Hp; by destruct (Hno t p)).
  - apply NoDup_nil_2.
  - intros t. split; [set_solver|]. intros (p & Hp). by destruct (Hno t p).
  - by exists ix.
  - intros k a. rewrite lookup_empty. split; [done|]. intros (p & Hp & _). by destruct (Hno a p).
Qed.

(** A thread object that is not listed yet. *)
Lemma table_alloc s L M t p :
  table_inv s L M -> threads s !! t = None -> 0 < t < SIZE_MOD -> in_all_list p = false -> tpid p < 2 ^ 31 ->
  table_inv (set_threads (<[t := p]> (threads s)) s) L M /\
  forall u r, listed (set_threads (<[t := p]> (threads s)) s) u r <-> listed s u r.
Proof.
  intros Hok Hn Ht Hin Hpid.
  assert (Hl : forall u r, listed (set_threads (<[t := p]> (threads s)) s) u r <-> listed s u r).
  { intros u r. unfold listed. cbn [set_threads threads]. destruct (decide (u = t)) as [->|Hne].
    - rewrite lookup_insert_eq. split; [|by rewrite Hn; intros [? _]]. intros [[= <-] ?]. congruence.
    - by rewrite lookup_insert_ne. }
  split; [|done]. constructor; try apply Hok.
  - intros u. rewrite (ti_mem _ _ _ Hok). by setoid_rewrite Hl.
  - intros u q. cbn [set_threads threads]. intros [[<- <-]|[_ Hq]]%lookup_insert_Some; [done|by eapply (ti_addr _ _ _ Hok)].
  - intros u1 u2 q1 q2. rewrite !Hl. apply Hok.
  - intros k a. rewrite (ti_exact _ _ _ Hok). by setoid_rewrite Hl.
Qed.

Lemma table_free s L M t p :
  table_inv s L M -> threads s !! t = Some p -> in_all_list p = false ->
  table_inv (set_threads (delete t (threads s)) s) L M /\ ids_kept s (set_threads (delete t (threads s)) s).
Proof.
  intros Hok Hp Hin. set (s' := set_threads _ s).
  assert (Hl : forall u r, listed s' u r <-> listed s u r).
  { intros u r. unfold listed, s'. cbn [set_threads threads]. destruct (decide (u = t)) as [->|Hne].
    - rewrite lookup_delete_eq. split; [by intros [? _]|]. intros [? ?]. congruence.
    - by rewrite lookup_delete_ne. }
  split.
  - constructor; try apply Hok.
    + intros u. rewrite (ti_mem _ _ _ Hok). by setoid_rewrite Hl.
    + intros u q. cbn [s' set_threads threads]. intros [_ Hq]%lookup_delete_Some. by eapply (ti_addr _ _ _ Hok).
    + intros u1 u2 q1 q2. rewrite !Hl. apply Hok.
    + intros k a. rewrite (ti_exact _ _ _ Hok). by setoid_rewrite Hl.
  - intros u r Hr. apply Hl in Hr. eauto 10.
Qed.

Lemma create_inv malloc s s' t p parent :
  procs_inv s ->
  threads s !! t = None -> 0 < t < SIZE_MOD -> in_all_list p = false -> tpid p < 2 ^ 31 ->
  (user_thread p = true -> 0 < tpid p) ->
  (0 < tpid p -> forall u q, listed s u q -> tpid q <> tpid p /\ pgid q <> tpid p) ->
  (forall q, parent = Some q -> exists u, listed s u q) ->
  (pgid p, sid p) = new_ids parent (user_thread p) (tpid p) ->
  thread_add malloc (set_threads (<[t := p]> (threads s)) s) (Some t) = ret s' -> procs_inv s'.
Proof.
  intros (L & M & Hok & Hs) Hn Ht Hin Hpid Huser Hfresh Hpar Hids Hadd.
  destruct (table_alloc s L M t p Hok Hn Ht Hin Hpid) as [Hok1 Hl1]. set (s1 := set_threads _ s) in *.
  destruct (thread_add_spec malloc s1 L M t p Hok1) as [[Hp _]|(s2 & M2 & Hr & Hok2 & Hth)];
    [by apply lookup_insert_eq|done|intros Hpos u q Hq; apply Hl1 in Hq; by apply (Hfresh Hpos u q)|by rewrite Hp in Hadd|].
  rewrite Hadd in Hr. injection Hr as <-. exists (L ++ [t]), M2. split; [done|].
  set (q' := set_in_all_list true p) in *.
  assert (Hl2 : forall u r, listed s' u r <-> (u = t /\ r = q') \/ (u <> t /\ listed s u r)).
  { intros u r. rewrite (listed_put s1 s' t q' Hth eq_refl). by setoid_rewrite Hl1. }
  (* the group is the parent's, the thread's own, or the kernel's *)
  assert (Hcase : (exists u q, listed s u q /\ pgid p = pgid q /\ sid p = sid q) \/
    (pgid p = tpid p /\ sid p = tpid p /\ 0 < tpid p) \/ (pgid p = 0 /\ sid p = 0)).
  { unfold new_ids in Hids. destruct (user_thread p) eqn:Hu; [|right; right; by simplify_eq].
    destruct parent as [q|]; [|right; left; simplify_eq; naive_solver].
    destruct (user_thread q && (0 <? tpid q)); [|right; left; simplify_eq; naive_solver].
    left. destruct (Hpar q eq_refl) as [u Hq]. exists u, q. simplify_eq. naive_solver. }
  apply (session_put s s' t q' Hs Hl2).
  - intros u r Hr _ Heq. simpl in *. destruct Hcase as [(v & q & Hq & Eg & Es)|[(Eg & Es & Hpos)|[Eg Es]]].
    + rewrite Es. eapply (si_group _ Hs); [done|done|congruence].
    + destruct (Hfresh Hpos u r Hr) as [_ Hne]. congruence.
    + rewrite Es. eapply (si_zero _ Hs); [done|congruence].
  - intros u r Hr _ Hpos Heq. simpl in *. destruct Hcase as [(v & q & Hq & Eg & Es)|[(Eg & Es & Hp0)|[Eg Es]]].
    + rewrite Es. eapply (si_leader _ Hs); [done|done|done|congruence].
    + destruct (Hfresh Hp0 u r Hr). congruence.
    + lia.
  - intros u r Hr _ Hpos Heq. simpl in *. destruct (Hfresh Hpos u r Hr). congruence.
  - simpl. destruct Hcase as [(v & q & Hq & -> & ->)|[(-> & -> & Hp0)|[-> ->]]]; [by eapply (si_zero _ Hs)|lia|done].
  - done.
Qed.

Lemma step_inv s s' : procs_inv s -> proc_step s s' -> procs_inv s'.
Proof.
  intros Hinv Hstep. destruct Hstep as [malloc s s' t p parent|s s' t p Hp Hc|s t p Hp Hin|malloc s s' pid r Hpid Hf
    |s s' t p Hp Hput|malloc s s' me p pid pgid' r Hme Hpid Hr|s s' me p r Hme Hu Hr]; [by eapply create_inv|..].
  all: destruct Hinv as (L & M & Hok & Hs).
  - destruct (cleanup_spec s L M t p Hok Hp) as (s2 & M2 & Hr & Hok2 & Hth & _).
    rewrite Hc in Hr. injection Hr as <-. exists (ll_remove L t), M2. split; [done|].
    apply (session_sub s); [done|]. intros u r [Hr Hri]. rewrite Hth in Hr.
    apply lookup_insert_Some in Hr as [[<- <-]|[_ Hr]]; [done|]. exists r. done.
  - destruct (table_free s L M t p Hok Hp Hin) as [Hok2 Hk]. exists L, M. split; [done|by apply (session_sub s)].
  - unfold sched_find_thread in Hf. destruct (find_thread_spec malloc s L M pid Hok Hpid) as (r0 & Hr0 & Hn).
    rewrite Hr0 in Hf. cbn [ret mbind run_bind] in Hf. destruct r0 as [t|]; [|injection Hf as _ <-; by exists L, M].
    destruct Hn as (q & Hq & Hqp). unfold load in Hf. rewrite (proj1 Hq) in Hf. cbn [lift ret mbind run_bind] in Hf.
    destruct (_ && _); [|injection Hf as _ <-; by exists L, M].
    unfold thread_get, update, load in Hf. rewrite (proj1 Hq) in Hf. cbn [lift ret mbind run_bind] in Hf.
    injection Hf as _ <-.
    destruct (put_ids s s L M t q (set_refcount (u32_wrap (refcount q + 1)) q) Hok (ids_kept_refl s) (proj1 Hq))
      as (Hok2 & Hk2 & _); [done|]. exists L, M. split; [done|by apply (session_sub s)].
  - destruct (thread_put_spec s s L M t p Hok (ids_kept_refl s) Hp) as (s2 & Hr & Hok2 & Hk2 & _).
    rewrite Hput in Hr. injection Hr as <-. exists L, M. split; [done|by apply (session_sub s)].
  - destruct (setpgid_spec malloc s L M me p pid pgid' Hok Hs Hme Hpid) as (c & s2 & Hr2 & Hok2 & Hs2 & _).
    rewrite Hr in Hr2. injection Hr2 as _ <-. by exists L, M.
  - destruct (setsid_spec s L M me p Hok Hs Hme Hu) as (c & s2 & Hr2 & Hok2 & Hs2 & _).
    rewrite Hr in Hr2. injection Hr2 as _ <-. by exists L, M.
Qed.

Lemma procs_reachable_inv ix s : map_ok ix ∅ -> rtc proc_step (procs_boot ix) s -> procs_inv s.
Proof.
  intros Hm Hsteps. revert Hsteps. apply rtc_ind_r; [by apply procs_boot_inv|].
  intros x y _ Hxy Hx. by eapply step_inv.
Qed.

Lemma create_ok malloc ix : hashmap_create malloc true = Some (Some ix) -> map_ok ix ∅.
Proof.
  intros Hc. unfold hashmap_create in Hc.
  destruct (create_sized_spec malloc true HASHMAP_INITIAL_CAPACITY) as (r & Hr & Hpost).
  { unfold HASHMAP_INITIAL_CAPACITY. pose proof SIZE_MOD_ge. lia. }
  rewrite Hc in Hr. injection Hr as <-. by apply (Hpost ix).
Qed.

(** C4: The process table is exact.  After any history of creations, removals, lookups, releases and
    group changes, a lookup by identifier answers a listed thread with that identifier exactly when
    there is one, without changing the table; no two listed threads share a positive identifier; and
    a removed process cannot be found again. *)
Theorem process_table_exact malloc ix s :
  hashmap_create malloc true = Some (Some ix) -> rtc proc_step (procs_boot ix) s ->
  (forall m pid, pid < 2 ^ 31 -> exists r, find_thread m s pid = ret (r, s) /\ names_pid s pid r) /\
  (forall t u p q, listed s t p -> listed s u q -> tpid p = tpid q -> 0 < tpid p -> t = u) /\
  (forall t p, listed s t p -> exists s', cleanup_thread s (Some t) = ret s' /\
     (0 < tpid p -> forall m, find_thread m s' (tpid p) = ret (None, s'))).
Proof.
  intros Hc Hsteps. destruct (procs_reachable_inv ix s (create_ok _ _ Hc) Hsteps) as (L & M & Hok & Hs).
  split_and!; [intros m pid Hpid; by apply (find_thread_spec m s L M pid)|apply (ti_pids _ _ _ Hok)|].
  intros t p Hp. destruct (cleanup_spec s L M t p Hok Hp) as (s' & M' & Hr & Hok' & Hth & _).
  exists s'. split; [done|]. intros Hpos m. pose proof (ti_addr _ _ _ Hok t p (proj1 Hp)) as [_ Hmax].
  destruct (find_thread_spec m s' _ M' (tpid p) Hok' Hmax) as (r & Hf & Hn).
  destruct r as [u|]; [|done]. exfalso. destruct Hn as (q & [Hq Hqi] & Heq). rewrite Hth in Hq.
  apply lookup_insert_Some in Hq as [[<- <-]|[Hne Hq]]; [done|].
  apply Hne. by apply (ti_pids _ _ _ Hok t u p q).
Qed.

(** C6: A process group never spans two sessions, whatever sequence of forks, [setpgid] and [setsid]
    calls is made; and [setsid] succeeds exactly when no group has the caller's identifier, making it
    the only member of the new group. *)
Theorem groups_in_one_session malloc ix s :
  hashmap_create malloc true = Some (Some ix) -> rtc proc_step (procs_boot ix) s ->
  (forall t u p q, listed s t p -> listed s u q -> pgid p = pgid q -> sid p = sid q) /\
  (forall me p, listed s me p -> user_thread p = true ->
     exists code s', sched_setsid s (Some me) = ret (code, s') /\
       ((code = - EPERM /\ s' = s /\ exists u r, listed s u r /\ pgid r = tpid p) \/
        (code = tpid p /\ (forall u r, listed s' u r -> pgid r = tpid p -> u = me) /\
         exists p', listed s' me p' /\ sid p' = tpid p /\ pgid p' = tpid p))).
Proof.
  intros Hc Hsteps. destruct (procs_reachable_inv ix s (create_ok _ _ Hc) Hsteps) as (L & M & Hok & Hs).
  split; [apply (si_group _ Hs)|]. intros me p Hp Hu.
  destruct (setsid_spec s L M me p Hok Hs Hp Hu) as (code & s' & Hr & _ & _ & Hcase).
  exists code, s'. split; [done|]. destruct Hcase as [?|(-> & Hno & Hth)]; [by left|right].
  pose proof (listed_put s s' me _ Hth (proj2 Hp)) as Hl. split_and!; [done| |].
  - intros u r [[-> _]|[_ Hur]]%Hl Hg; [done|]. by destruct (Hno u r Hur).
  - eexists. rewrite Hl. split; [by left|done].
Qed.

(** What one round of [waitpid] by [me] does in a table [s] with list [L] and zombies [Zs].  Each clause names a
    condition and fixes the answer and the new table; the conditions leave nothing open. *)
Section WaitSpec.
Variables (s : procs_t) (L Zs : list Z) (owned : Z -> bool) (running : bool) (me : Z) (p : proc_t) (pid options : Z).

Definition dead_children : list Z := passing s (fun q => waitpid_matches p q pid) Zs.
Definition children : list Z := passing s (fun q => waitpid_matches p q pid) L.
Definition stopped_children : list Z := passing s (fun q => waitpid_matches p q pid && stopped_child q) L.

(** No zombie to reap: there is none, or a core still runs the first. *)
Definition none_dead : Prop := forall t, head dead_children = Some t -> owned t = true.
(** Nor a stopped child to report. *)
Definition none_ready : Prop := none_dead /\ (Z.land options WUNTRACED <> 0 -> stopped_children = []).

Record wait_result (out : wait_out) (s' : procs_t) : Prop := {
  wr_reap : forall t q, head dead_children = Some t -> owned t = false -> threads s !! t = Some q ->
    out = WReturn (tpid q) (Some (waitpid_status q)) /\ zombie_list s' = Some (ll_remove Zs t) /\ (exists M', table_inv s' (ll_remove L t) M') /\
    (t <> me -> threads s' !! me = Some (charge p q)) /\ forall u, u <> t -> u <> me -> threads s' !! u = threads s !! u;
  wr_stopped : forall t q, none_dead -> Z.land options WUNTRACED <> 0 -> head stopped_children = Some t -> threads s !! t = Some q ->
    out = WReturn (tpid q) (Some (Z.lor 0x7f (Z.shiftl (Z.land (stop_signal q) 0xff) 8))) /\
    s' = set_threads (<[t := set_stop_reported true q]> (threads s)) s;
  wr_none : none_ready -> children = [] -> out = WReturn (- ECHILD) None /\ s' = s;
  wr_nohang : none_ready -> children <> [] -> Z.land options WNOHANG <> 0 -> out = WReturn 0 None /\ s' = s;
  wr_spin : forall t, none_ready -> children <> [] -> Z.land options WNOHANG = 0 -> head dead_children = Some t -> out = WSpin t /\ s' = s;
  wr_sleep : none_ready -> children <> [] -> Z.land options WNOHANG = 0 -> dead_children = [] ->
    out = (if running then WSleep else WReturn (- ECHILD) None) /\ s' = s
}.

(** The round when neither a zombie nor a stopped child was found. *)
Lemma wait_idle_spec active : none_ready -> active = head dead_children ->
  wait_result (wait_idle running options (mk_scan None None active (bool_decide (children <> [])))) s.
Proof.
  intros [Hd Hs] ->. unfold wait_idle. cbn [has_child active_zombie]. constructor.
  - intros t q Ht Ho. by rewrite (Hd t Ht) in Ho.
  - intros t q _ Hu Ht. by rewrite (Hs Hu) in Ht.
  - intros _ Hc. by rewrite bool_decide_false by (by rewrite Hc; intros Hx; apply Hx).
  - intros _ Hc Hn. rewrite bool_decide_true by done. cbn [negb]. rewrite (proj2 (Z.eqb_neq _ _) Hn). by destruct (head dead_children).
  - intros t _ Hc Hn ->. rewrite bool_decide_true by done. by rewrite Hn.
  - intros _ Hc Hn ->. rewrite bool_decide_true by done. rewrite Hn. by destruct running.
Qed.

Lemma wait_stopped_spec t q : none_dead -> Z.land options WUNTRACED <> 0 -> head stopped_children = Some t -> threads s !! t = Some q ->
  wait_result (WReturn (tpid q) (Some (Z.lor 0x7f (Z.shiftl (Z.land (stop_signal q) 0xff) 8)))) (set_threads (<[t := set_stop_reported true q]> (threads s)) s).
Proof.
  intros Hd Hu Ht Hq. assert (Hno : ~ none_ready) by (intros [_ Hs]; by rewrite (Hs Hu) in Ht). constructor; try done.
  - intros t' q' Ht' Ho. by rewrite (Hd t' Ht') in Ho.
  - intros t' q' _ _ Ht' Hq'. rewrite Ht in Ht'. injection Ht' as <-. rewrite Hq in Hq'. by injection Hq' as <-.
Qed.

Lemma wait_reap_spec t q M' s' : head dead_children = Some t -> owned t = false -> threads s !! t = Some q ->
  zombie_list s' = Some (ll_remove Zs t) -> table_inv s' (ll_remove L t) M' -> (t <> me -> threads s' !! me = Some (charge p q)) ->
  (forall u, u <> t -> u <> me -> threads s' !! u = threads s !! u) -> wait_result (WReturn (tpid q) (Some (waitpid_status q))) s'.
Proof.
  intros Ht Ho Hq Hz Hok Hc Hu. assert (Hno : ~ none_dead) by (intros Hd; by rewrite (Hd t Ht) in Ho).
  assert (Hnr : ~ none_ready) by (by intros [? _]). constructor; try done.
  intros t' q' Ht' _ Hq'. rewrite Ht in Ht'. injection Ht' as <-. rewrite Hq in Hq'. injection Hq' as <-. split_and!; eauto.
Qed.
End WaitSpec.

Lemma scan_children_spec s L M Zs owned running me p pid options :
  table_inv s L M -> none_dead s Zs owned p pid ->
  exists out s', (scan ← scan_children s p pid options (head (dead_children s Zs p pid)); wait_decide s running me options scan) = ret (out, s') /\
    wait_result s L Zs owned running me p pid options out s'.
Proof.
  intros Hok Hd. unfold scan_children. case_test.
  - unfold waitpid_find_stopped. rewrite (ti_list _ _ _ Hok). cbn [lift ret mbind run_bind].
    rewrite stopped_loop_passing by (intros t; by apply (ti_mem _ _ _ Hok)). unfold wait_decide. cbn [ret mbind run_bind zombie stopped orb].
    fold (stopped_children s L p pid). fold (children s L p pid). destruct (stopped_children s L p pid) as [|t l] eqn:Hst; cbn [head].
    + eexists _, _. split; [done|]. apply wait_idle_spec; [split; [done|]; by intros _|done].
    + destruct (passing_in s (fun q => waitpid_matches p q pid && stopped_child q) L t) as (_ & q & Hq & _); [fold (stopped_children s L p pid); rewrite Hst; by left|].
      unfold report_stopped, update, load. rewrite Hq. cbn [lift ret mbind run_bind]. eexists _, _. split; [done|].
      apply wait_stopped_spec; [done|done|by rewrite Hst|done].
  - rewrite (scan_has_child s L M p pid Hok). unfold wait_decide. cbn [ret mbind run_bind zombie stopped]. eexists _, _. split; [done|].
    apply wait_idle_spec; [|done]. split; [done|]. intros Hu. by destruct Hu.
Qed.

(** C33: One round of [waitpid] is determined by the children that [pid] selects.  When the first zombie among them
    is on no core, its identifier and status are answered, it leaves both lists, its times are added to
    the caller's, and no other thread changes; otherwise, with [WUNTRACED], the first stopped child not yet reported is
    answered, with the word that holds its stop signal, and marked; otherwise nothing changes, and the answer is
    [ECHILD] without a child, 0 with [WNOHANG]; without it, the round waits for the core that runs the first
    zombie, or, with no zombie, sleeps ([ECHILD] when the scheduler does not run).  Zombies behind one that is
    still on a core are not looked at. *)
Theorem waitpid_exact s L M Zs owned running me p pid options :
  table_inv s L M -> zombie_list s = Some Zs -> (forall t, t ∈ Zs -> exists q, listed s t q) ->
  listed s me p -> user_thread p = true ->
  Z.land options (Z.lnot (Z.lor WNOHANG WUNTRACED)) = 0 ->
  exists out s', sched_waitpid_once s owned running (Some me) pid options = ret (out, s') /\
    wait_result s L Zs owned running me p pid options out s'.
Proof.
  intros Hok Hz HZ Hp Hu Hopt. unfold sched_waitpid_once, load. rewrite (proj1 Hp).
  cbn [lift ret mbind run_bind]. rewrite Hu, Hopt, Hz, (ti_list _ _ _ Hok). cbn [negb Z.eqb]. unfold waitpid_scan, waitpid_find_zombie.
  rewrite Hz. cbn [lift ret mbind run_bind]. rewrite first_thread_passing by done. cbn [ret mbind run_bind]. fold (dead_children s Zs p pid).
  assert (Hgo := scan_children_spec s L M Zs owned running me p pid options Hok). unfold none_dead in Hgo.
  destruct (dead_children s Zs p pid) as [|t l] eqn:Hd; cbn [head] in *; [by apply Hgo|].
  destruct (owned t) eqn:Ho; [apply Hgo; by intros t' [= <-]|].
  destruct (passing_in s (fun q => waitpid_matches p q pid) Zs t) as (Ht & _); [fold (dead_children s Zs p pid); rewrite Hd; by left|].
  destruct (HZ t Ht) as (q & Hq). unfold wait_decide. cbn [ret mbind run_bind zombie stopped].
  destruct (reap_spec s L M Zs me p t q Hok Hz Hp Hq) as (s' & M' & Hr & Hok' & Hz' & _ & Hme & Hoth). rewrite Hr.
  cbn [ret mbind run_bind]. eexists _, _. split; [done|]. eapply wait_reap_spec; [by rewrite Hd|done|apply Hq|done..].
Qed.

End Table.

(** ** Status words *)

Lemma land_byte_shift a : Z.land (Z.shiftl a 8) 0xff = 0.
Proof.
  apply Z.bits_inj'. intros n Hn. rewrite Z.land_spec, Z.bits_0.
  destruct (Z_lt_le_dec n 8); [rewrite Z.shiftl_spec_low by lia; done|].
  change 0xff with (Z.ones 8). rewrite Z.ones_spec_high by lia. apply andb_false_r.
Qed.

Lemma byte_of_shift a : Z.land (Z.shiftr (Z.shiftl (Z.land a 0xff) 8) 8) 0xff = Z.land a 0xff.
Proof. rewrite Z.shiftr_shiftl_l by lia. rewrite Z.shiftl_0_r, <- Z.land_assoc. done. Qed.

Lemma land_sub_mask s m k : Z.land s m = 0 -> Z.land k m = k -> Z.land s k = 0.
Proof. intros Hs Hk. rewrite <- Hk, (Z.land_comm k), Z.land_assoc, Hs. apply Z.land_0_l. Qed.

(** The status word round-trips.  A process that exited with code [c] reads as exited with the
    low byte of [c] (1 for a negative code), one killed by a signal as killed by that signal, and a
    stopped one as stopped by that signal; no word reads as two of these. *)
Theorem wait_status_roundtrip p :
  0 <= exit_signal p < 32 -> 0 <= stop_signal p < 32 ->
  let st := waitpid_status p in
  let sp := Z.lor 0x7f (Z.shiftl (Z.land (stop_signal p) 0xff) 8) in
  (exit_signal p = 0 ->
     WIFEXITED st = true /\ WIFSIGNALED st = false /\ WIFSTOPPED st = false /\
     WEXITSTATUS st = if exit_code p <? 0 then 1 else exit_code p mod 256) /\
  (0 < exit_signal p ->
     WIFEXITED st = false /\ WIFSIGNALED st = true /\ WIFSTOPPED st = false /\ WTERMSIG st = exit_signal p) /\
  (WIFSTOPPED sp = true /\ WSTOPSIG sp = stop_signal p /\ WIFEXITED sp = false /\ WIFSIGNALED sp = false).
Proof.
  intros Hsig Hstop st sp. split; [|split].
  - intros H0. unfold st, waitpid_status. rewrite H0. cbn [negb Z.eqb].
    set (code := if exit_code p <? 0 then 1 else exit_code p). set (w := Z.shiftl (Z.land code 0xff) 8).
    assert (Hw : Z.land w 0xff = 0) by apply land_byte_shift.
    assert (Hw7 : Z.land w 0x7f = 0) by (by apply (land_sub_mask w 0xff)).
    unfold WIFEXITED, WIFSIGNALED, WIFSTOPPED, WEXITSTATUS. rewrite Hw, Hw7. split_and!; try done.
    unfold w. rewrite byte_of_shift. unfold code. case_test; [done|].
    change 0xff with (Z.ones 8). rewrite Z.land_ones by lia. done.
  - intros Hpos. unfold st, waitpid_status. test_lia.
    assert (Hsmall : forall m, Z.land (exit_signal p) (Z.ones (7 + Z.of_nat m)) = exit_signal p).
    { intros m. rewrite Z.land_ones by lia. apply Z.mod_small. split; [lia|].
      apply Z.lt_le_trans with (2 ^ 7); [lia|]. apply Z.pow_le_mono_r; lia. }
    change 0x7f with (Z.ones (7 + Z.of_nat 0)). rewrite (Hsmall 0%nat).
    unfold WIFEXITED, WIFSIGNALED, WIFSTOPPED, WTERMSIG.
    change 0xff with (Z.ones (7 + Z.of_nat 1)). change 0x7f with (Z.ones (7 + Z.of_nat 0)).
    rewrite !Hsmall. change (Z.ones (7 + Z.of_nat 0)) with 127. test_lia. done.
  - assert (Hlow : Z.land (Z.shiftl (Z.land (stop_signal p) 0xff) 8) 0xff = 0) by apply land_byte_shift.
    assert (Hsp : Z.land sp 0xff = 0x7f) by (unfold sp; rewrite Z.land_lor_distr_l, Hlow; done).
    assert (Hsp7 : Z.land sp 0x7f = 0x7f).
    { change 0x7f with (Z.land 0xff 0x7f) at 1. by rewrite Z.land_assoc, Hsp. }
    unfold WIFSTOPPED, WIFEXITED, WIFSIGNALED, WSTOPSIG. rewrite Hsp, Hsp7. split_and!; try done.
    unfold sp. rewrite Z.shiftr_lor. change (Z.shiftr 0x7f 8) with 0. rewrite Z.lor_0_l, byte_of_shift.
    change 0xff with (Z.ones 8). rewrite Z.land_ones by lia. apply Z.mod_small. lia.
Qed.

(** ** Witnesses: a shell and a child that has exited *)

#[local] Existing Instance arch64.

Definition demo_index : hashmap_t := mk_map 0 16 (Some (replicate 16 zero_entry)).

Definition demo_proc (pid parent : Z) (st : thread_state_t) : proc_t :=
  mk_proc true pid parent 1 1 false st false (bool_decide (st = THREAD_ZOMBIE)) false 1 0 7 0 0 false (-1)
    10 4 6 0 0 0.

Definition done_or (s0 : procs_t) (r : run procs_t) : procs_t :=
  match r with Some (Done s) => s | _ => s0 end.

Definition demo1 : procs_t :=
  let s := procs_boot demo_index in
  done_or s (thread_add (fun _ => true)
    (set_threads (<[4096 := demo_proc 1 0 THREAD_RUNNING]> (threads s)) s) (Some 4096)).

Definition demo2 : procs_t :=
  done_or demo1 (thread_add (fun _ => true)
    (set_threads (<[8192 := demo_proc 2 1 THREAD_ZOMBIE]> (threads demo1)) demo1) (Some 8192)).

Definition shell : proc_t := set_in_all_list true (demo_proc 1 0 THREAD_RUNNING).
Definition child : proc_t := set_in_all_list true (demo_proc 2 1 THREAD_ZOMBIE).

Lemma demo_created : hashmap_create (fun _ => true) true = Some (Some demo_index).
Proof. reflexivity. Qed.

Lemma demo1_listed u q : listed demo1 u q -> u = 4096 /\ q = shell.
Proof.
  intros [Hq _]. change (threads demo1) with ({[4096 := shell]} : gmap Z proc_t) in Hq.
  by apply lookup_singleton_Some in Hq as [<- <-].
Qed.

Lemma demo_reachable : rtc proc_step (procs_boot demo_index) demo2.
Proof.
  eapply rtc_l; [|eapply rtc_l; [|apply rtc_refl]].
  - apply (step_create (fun _ => true) _ demo1 4096 (demo_proc 1 0 THREAD_RUNNING) None); try done.
    intros _ u q [Hq _]. cbn [procs_boot threads] in Hq. by rewrite lookup_empty in Hq.
  - apply (step_create (fun _ => true) _ demo2 8192 (demo_proc 2 1 THREAD_ZOMBIE) (Some shell)); try done.
    + intros _ u q [-> ->]%demo1_listed. done.
    + intros q [= <-]. by exists 4096.
Qed.

Lemma process_table_exact_witness :
  exists r, find_thread (fun _ => true) demo2 2 = ret (r, demo2) /\ names_pid demo2 2 r.
Proof.
  apply (process_table_exact (fun _ => true) demo_index demo2); [reflexivity|apply demo_reachable|reflexivity].
Defined.

Lemma groups_in_one_session_witness :
  exists code s', sched_setsid demo2 (Some 8192) = ret (code, s') /\
    ((code = - EPERM /\ s' = demo2 /\ exists u r, listed demo2 u r /\ pgid r = tpid child) \/
     (code = tpid child /\ (forall u r, listed s' u r -> pgid r = tpid child -> u = 8192) /\
      exists p', listed s' 8192 p' /\ sid p' = tpid child /\ pgid p' = tpid child)).
Proof.
  apply (groups_in_one_session (fun _ => true) demo_index demo2);
    [reflexivity|apply demo_reachable|split; reflexivity|reflexivity].
Defined.

Example setsid_runs : fst <$> (match sched_setsid demo2 (Some 8192) with Some (Done r) => Some r | _ => None end) = Some 2.
Proof. vm_compute. reflexivity. Qed.

Lemma waitpid_exact_witness :
  exists s', sched_waitpid_once (set_zombie_list (Some [8192]) demo2) (fun _ => false) true (Some 4096) (-1) 0 = ret (WReturn 2 (Some 1792), s') /\
    zombie_list s' = Some [] /\ threads s' !! 4096 = Some (charge shell child).
Proof.
  destruct (procs_reachable_inv demo_index demo2 (create_ok (fun _ => true) demo_index demo_created) demo_reachable) as (L & M & Hok & _).
  destruct (waitpid_exact (set_zombie_list (Some [8192]) demo2) L M [8192] (fun _ => false) true 4096 shell (-1) 0) as (out & s' & Hr & Hw).
  - exact (table_zombies demo2 L M (Some [8192]) Hok).
  - reflexivity.
  - intros t ->%list_elem_of_singleton. exists child. split; reflexivity.
  - split; reflexivity.
  - reflexivity.
  - reflexivity.
  - destruct (wr_reap _ _ _ _ _ _ _ _ _ _ _ Hw 8192 child eq_refl eq_refl eq_refl) as (-> & Hz & _ & Hc & _).
    exists s'. split; [exact Hr|]. split; [exact Hz|]. by apply Hc.
Defined.

Example waitpid_runs :
  match sched_waitpid_once (set_zombie_list (Some [8192]) demo2) (fun _ => false) true (Some 4096) (-1) 0 with
  | Some (Done (WReturn code status, s')) => code = 2 /\ status = Some 1792 /\ all_list s' = Some [4096]
  | _ => False
  end.
Proof. vm_compute. auto. Qed.

Lemma wait_status_roundtrip_witness :
  WEXITSTATUS (waitpid_status child) = 7 /\ WIFEXITED (waitpid_status child) = true.
Proof.
  destruct (wait_status_roundtrip child) as (Hexit & _); [split; [discriminate|reflexivity]..|].
  destruct (Hexit eq_refl) as (He & _ & _ & Hc). split; [rewrite Hc; reflexivity|exact He].
Defined.

End Procs.
