(* ===== verification/Cred.v ===== *)
(** * Credentials: [kernel/sched/cred.c]

    The user and group identifiers of the calling thread and the system calls that change them.  A
    call acts on [sched_local_current()], which is the argument [self]; [groups] is the array of
    [SCHED_GROUP_MAX] cells of which the first [group_count] are in use. *)

From S2P Require Import Prelude Errno Memory.
From stdpp Require Import list relations.
Open Scope Z_scope.

Module Cred.

Definition SCHED_GROUP_MAX : Z := 16.

Record cred_t := mk_cred {
  ruid : Z; uid : Z; suid : Z;
  rgid : Z; gid : Z; sgid : Z;
  groups : list Z; group_count : Z;
  umask : Z
}.

Definition set_uids (r e s : Z) (c : cred_t) : cred_t :=
  mk_cred r e s (rgid c) (gid c) (sgid c) (groups c) (group_count c) (umask c).
Definition set_gids (r e s : Z) (c : cred_t) : cred_t :=
  mk_cred (ruid c) (uid c) (suid c) r e s (groups c) (group_count c) (umask c).
Definition set_groups (g : list Z) (n : Z) (c : cred_t) : cred_t :=
  mk_cred (ruid c) (uid c) (suid c) (rgid c) (gid c) (sgid c) g n (umask c).
Definition set_umask (m : Z) (c : cred_t) : cred_t :=
  mk_cred (ruid c) (uid c) (suid c) (rgid c) (gid c) (sgid c) (groups c) (group_count c) m.

Implicit Types (c : cred_t) (self : ptr cred_t).

(** The loop of [_has_group] from index [i]. *)
Fixpoint has_group_loop (fuel : nat) c (g i : Z) : option bool :=
  match fuel with
  | O => None
  | S fuel =>
      if i <? group_count c then
        x ← mload (groups c) i;
        if x =? g then Some true else has_group_loop fuel c g (i + 1)
      else Some false
  end.

Definition _has_group (thread : ptr cred_t) (g : Z) : option bool :=
  match thread with
  | None => Some false
  | Some c => if gid c =? g then Some true else has_group_loop (S (Z.to_nat (group_count c))) c g 0
  end.

Definition sched_setuid self (u : Z) : Z * ptr cred_t :=
  match self with
  | None => (- EINVAL, self)
  | Some c =>
      if uid c =? 0 then (0, Some (set_uids u u u c))
      else if negb (u =? ruid c) && negb (u =? uid c) && negb (u =? suid c) then (- EPERM, self)
      else (0, Some (set_uids (ruid c) u (suid c) c))
  end.

Definition sched_seteuid self (u : Z) : Z * ptr cred_t :=
  match self with
  | None => (- EINVAL, self)
  | Some c =>
      if negb (uid c =? 0) && negb (u =? ruid c) && negb (u =? uid c) && negb (u =? suid c)
      then (- EPERM, self)
      else (0, Some (set_uids (ruid c) u (suid c) c))
  end.

(** [for (j = i + 1; j < count; j++) groups[j - 1] = groups[j];] *)
Fixpoint shift_left (fuel : nat) (g : list Z) (count j : Z) : option (list Z) :=
  match fuel with
  | O => None
  | S fuel =>
      if j <? count then
        x ← mload g j; g ← mstore g (j - 1) x; shift_left fuel g count (j + 1)
      else Some g
  end.

(** The loop of [sched_setgid] that drops the new primary group from the supplementary ones; every
    iteration advances [i] or shrinks [count]. *)
Fixpoint drop_group (fuel : nat) (g : list Z) (count x i : Z) : option (list Z * Z) :=
  match fuel with
  | O => None
  | S fuel =>
      if i <? count then
        y ← mload g i;
        if negb (y =? x) then drop_group fuel g count x (i + 1)
        else
          g ← shift_left (S (Z.to_nat count)) g count (i + 1);
          drop_group fuel g (count - 1) x i
      else Some (g, count)
  end.

Definition sched_setgid self (x : Z) : option (Z * ptr cred_t) :=
  match self with
  | None => Some (- EINVAL, self)
  | Some c =>
      let changed :=
        if uid c =? 0 then Some (set_gids x x x c)
        else if (x =? rgid c) || (x =? gid c) || (x =? sgid c) then Some (set_gids (rgid c) x (sgid c) c)
        else None in
      match changed with
      | None => Some (- EPERM, self)
      | Some c =>
          '(g, n) ← drop_group (S (Z.to_nat (group_count c))) (groups c) (group_count c) x 0;
          Some (0, Some (set_groups g n c))
      end
  end.

Definition sched_setegid self (x : Z) : Z * ptr cred_t :=
  match self with
  | None => (- EINVAL, self)
  | Some c =>
      if negb (uid c =? 0) && negb (x =? rgid c) && negb (x =? gid c) && negb (x =? sgid c)
      then (- EPERM, self)
      else (0, Some (set_gids (rgid c) x (sgid c) c))
  end.

(** [seen] among the first [out_count] cells, from [j]. *)
Fixpoint seen_loop (fuel : nat) (g : list Z) (out_count x j : Z) : option bool :=
  match fuel with
  | O => None
  | S fuel =>
      if j <? out_count then
        y ← mload g j;
        if y =? x then Some true else seen_loop fuel g out_count x (j + 1)
      else Some false
  end.

(** The loop of [sched_setgroups] over the array [src]; the count is [None] for the early [-EINVAL]. *)
Fixpoint setgroups_loop (fuel : nat) (primary : Z) (src g : list Z) (count i out_count : Z)
  : option (list Z * option Z) :=
  match fuel with
  | O => None
  | S fuel =>
      if i <? count then
        x ← mload src i;
        if x =? primary then setgroups_loop fuel primary src g count (i + 1) out_count
        else
          seen ← seen_loop (S (Z.to_nat out_count)) g out_count x 0;
          if seen : bool then setgroups_loop fuel primary src g count (i + 1) out_count
          else if SCHED_GROUP_MAX <=? out_count then Some (g, None)
          else
            g ← mstore g out_count x;
            setgroups_loop fuel primary src g count (i + 1) (out_count + 1)
      else Some (g, Some out_count)
  end.

Definition sched_setgroups self (src : ptr (list Z)) (count : Z) : option (Z * ptr cred_t) :=
  match self with
  | None => Some (- EINVAL, self)
  | Some c =>
      if negb (uid c =? 0) then Some (- EPERM, self)
      else if (SCHED_GROUP_MAX <? count) || (negb (count =? 0) && bool_decide (src = None))
      then Some (- EINVAL, self)
      else
        let src := default [] src in
        '(g, out) ← setgroups_loop (S (Z.to_nat count)) (gid c) src (groups c) count 0 0;
        match out with
        | None => Some (- EINVAL, Some (set_groups g (group_count c) c))
        | Some n => Some (0, Some (set_groups g n c))
        end
  end.

Definition sched_gid_matches_cred self (u g target : Z) : option bool :=
  if g =? target then Some true
  else
    match self with
    | None => Some false
    | Some c =>
        if negb (uid c =? u) || negb (gid c =? g) then Some false else _has_group self target
    end.

Definition sched_setumask self (mask : Z) : Z * ptr cred_t :=
  match self with
  | None => (- EINVAL, self)
  | Some c => (0, Some (set_umask (Z.land mask 511) c))
  end.

(** ** Supplementary groups *)

(** The groups in use. *)
Definition active c : list Z := take (Z.to_nat (group_count c)) (groups c).

Definition cred_ok c : Prop := zlen (groups c) = SCHED_GROUP_MAX /\ 0 <= group_count c <= SCHED_GROUP_MAX.

Lemma mload_mid (a b : list Z) x : mload (a ++ x :: b) (zlen a) = Some x.
Proof.
  rewrite mload_ok by (unfold zlen; rewrite length_app; simpl; lia).
  unfold zlen. rewrite Nat2Z.id. by apply list_lookup_middle.
Qed.

Lemma mstore_mid (a b : list Z) x y : mstore (a ++ x :: b) (zlen a) y = Some (a ++ y :: b).
Proof.
  rewrite mstore_ok by (unfold zlen; rewrite length_app; simpl; lia).
  unfold zlen. rewrite Nat2Z.id. f_equal. rewrite insert_app_r_alt by lia. by rewrite Nat.sub_diag.
Qed.

Lemma zlen_cons {A} (x : A) l : zlen (x :: l) = 1 + zlen l.
Proof. unfold zlen. rewrite length_cons. lia. Qed.

Lemma zlen_snoc {A} (l : list A) x : zlen (l ++ [x]) = zlen l + 1.
Proof. rewrite zlen_app. done. Qed.

Lemma shift_left_spec fuel a y b rest :
  zlen b < Z.of_nat fuel ->
  exists z, shift_left fuel (a ++ y :: b ++ rest) (zlen a + 1 + zlen b) (zlen a + 1) = Some (a ++ b ++ z :: rest).
Proof.
  revert fuel a y. induction b as [|x b IH]; intros fuel a y Hf; (destruct fuel as [|fuel]; [unfold zlen in Hf; lia|]).
  - exists y. cbn [shift_left app]. change (zlen []) with 0. by test_lia.
  - rewrite zlen_cons in *. pose proof (zlen_nonneg b). cbn [shift_left app]. test_lia.
    pose proof (mload_mid (a ++ [y]) (b ++ rest) x) as Hl. rewrite zlen_snoc, <- (assoc (++)) in Hl. cbn [app] in Hl.
    rewrite Hl. cbn [mbind option_bind]. replace (zlen a + 1 - 1) with (zlen a) by lia. rewrite mstore_mid. cbn [mbind option_bind].
    destruct (IH fuel (a ++ [x]) x) as [z Hz]; [lia|]. exists z.
    rewrite zlen_snoc, <- !(assoc (++)) in Hz. cbn [app] in Hz.
    replace (zlen a + 1 + (1 + zlen b)) with (zlen a + 1 + 1 + zlen b) by lia. done.
Qed.

(** Dropping a group keeps the others, in order. *)
Lemma drop_group_spec fuel a b rest x :
  zlen b < Z.of_nat fuel ->
  exists rest', drop_group fuel (a ++ b ++ rest) (zlen a + zlen b) x (zlen a)
      = Some (a ++ filter (fun y => y <> x) b ++ rest', zlen a + zlen (filter (fun y => y <> x) b)) /\
    zlen (a ++ filter (fun y => y <> x) b ++ rest') = zlen (a ++ b ++ rest).
Proof.
  revert fuel a rest. induction b as [|y b IH]; intros fuel a rest Hf; (destruct fuel as [|fuel]; [unfold zlen in Hf; lia|]).
  - exists rest. cbn [drop_group]. change (zlen []) with 0. by test_lia.
  - rewrite zlen_cons in *. pose proof (zlen_nonneg b). cbn [drop_group app]. test_lia.
    rewrite mload_mid. cbn [mbind option_bind]. destruct (Z.eqb_spec y x) as [->|Hne]; cbn [negb].
    + replace (zlen a + (1 + zlen b)) with (zlen a + 1 + zlen b) by lia.
      destruct (shift_left_spec (S (Z.to_nat (zlen a + 1 + zlen b))) a x b rest) as [z Hz];
        [pose proof (zlen_nonneg a); lia|].
      rewrite Hz. cbn [mbind option_bind]. rewrite filter_cons_False by tauto.
      destruct (IH fuel a (z :: rest)) as (rest' & Hr & Hlen); [lia|]. exists rest'.
      replace (zlen a + 1 + zlen b - 1) with (zlen a + zlen b) by lia. split; [done|].
      rewrite Hlen. rewrite !zlen_app, !zlen_cons, !zlen_app. lia.
    + rewrite filter_cons_True by done. destruct (IH fuel (a ++ [y]) rest) as (rest' & Hr & Hlen); [lia|].
      exists rest'. rewrite zlen_snoc, <- !(assoc (++)) in Hr. cbn [app] in Hr.
      replace (zlen a + (1 + zlen b)) with (zlen a + 1 + zlen b) by lia. rewrite zlen_cons.
      replace (zlen a + (1 + zlen (filter (fun y => y <> x) b))) with (zlen a + 1 + zlen (filter (fun y => y <> x) b)) by lia.
      split; [done|]. rewrite <- !(assoc (++)) in Hlen. done.
Qed.

Lemma active_split c : cred_ok c -> groups c = active c ++ drop (Z.to_nat (group_count c)) (groups c) /\ zlen (active c) = group_count c.
Proof.
  intros [Hl Hc]. unfold active. rewrite take_drop. split; [done|].
  unfold zlen in *. rewrite length_take. lia.
Qed.

Lemma active_set g rest c : active (set_groups (g ++ rest) (zlen g) c) = g.
Proof. unfold active, zlen. cbn [groups group_count set_groups]. rewrite Nat2Z.id. apply take_app_length. Qed.

(** [setgid] with its permission check, and the groups it leaves. *)
Lemma setgid_spec c x :
  cred_ok c ->
  exists code c', sched_setgid (Some c) x = Some (code, Some c') /\ cred_ok c' /\
    ruid c' = ruid c /\ uid c' = uid c /\ suid c' = suid c /\
    ((code = - EPERM /\ c' = c /\ uid c <> 0 /\ x <> rgid c /\ x <> gid c /\ x <> sgid c) \/
     (code = 0 /\ gid c' = x /\ active c' = filter (fun y => y <> x) (active c) /\
      (uid c = 0 -> rgid c' = x /\ sgid c' = x) /\
      (uid c <> 0 -> rgid c' = rgid c /\ sgid c' = sgid c /\ (x = rgid c \/ x = gid c \/ x = sgid c)))).
Proof.
  intros Hok. destruct (active_split c Hok) as [Hg Hn]. pose proof Hok as [Hl Hc].
  destruct (drop_group_spec (S (Z.to_nat (group_count c))) [] (active c) (drop (Z.to_nat (group_count c)) (groups c)) x)
    as (rest' & Hr & Hlen); [rewrite Hn; lia|].
  cbn [app] in Hr, Hlen. change (zlen []) with 0 in Hr. rewrite !Z.add_0_l, Hn, <- Hg in Hr. rewrite <- Hg in Hlen.
  assert (Hdone : forall c1, groups c1 = groups c -> group_count c1 = group_count c -> gid c1 = x ->
    ('(g, n) ← drop_group (S (Z.to_nat (group_count c1))) (groups c1) (group_count c1) x 0;
     Some (0, Some (set_groups g n c1))) =
    Some (0, Some (set_groups (filter (fun y => y <> x) (active c) ++ rest') (zlen (filter (fun y => y <> x) (active c))) c1)) /\
    cred_ok (set_groups (filter (fun y => y <> x) (active c) ++ rest') (zlen (filter (fun y => y <> x) (active c))) c1)).
  { intros c1 E1 E2 E3. rewrite E1, E2, Hr. cbn [mbind option_bind]. split; [done|].
    split; cbn [set_groups groups group_count]; [by rewrite Hlen|]. rewrite zlen_app in Hlen.
    pose proof (zlen_nonneg rest'). pose proof (zlen_nonneg (filter (fun y => y <> x) (active c))). lia. }
  unfold sched_setgid. destruct (Z.eqb_spec (uid c) 0) as [Hu|Hu].
  - destruct (Hdone (set_gids x x x c)) as [-> Hok']; [done..|]. eexists _, _. split; [done|].
    split_and!; try done. right. rewrite active_set. cbn. split_and!; done.
  - destruct ((x =? rgid c) || (x =? gid c) || (x =? sgid c)) eqn:Hx.
    + destruct (Hdone (set_gids (rgid c) x (sgid c) c)) as [-> Hok']; [done..|]. eexists _, _. split; [done|].
      split_and!; try done. right. rewrite active_set. cbn. rewrite !orb_true_iff, !Z.eqb_eq in Hx.
      split_and!; try done. tauto.
    + bool_facts. eexists _, _. split; [done|]. split_and!; try done. left. done.
Qed.

(** *** [setgroups] *)

(** The groups [setgroups] keeps of [l], after those already kept. *)
Fixpoint distinct (primary : Z) (out l : list Z) : list Z :=
  match l with
  | [] => out
  | x :: l => if decide (x = primary \/ x ∈ out) then distinct primary out l else distinct primary (out ++ [x]) l
  end.

Lemma distinct_spec primary l out :
  NoDup out -> primary ∉ out ->
  exists d, distinct primary out l = out ++ d /\ NoDup (out ++ d) /\ primary ∉ out ++ d /\ d `sublist_of` l /\
    forall g, g ∈ out ++ d <-> g ∈ out \/ (g ∈ l /\ g <> primary).
Proof.
  revert out. induction l as [|x l IH]; intros out Hnd Hp; cbn [distinct].
  { exists []. rewrite app_nil_r. split_and!; try done. set_solver. }
  case_decide as Hx.
  - destruct (IH out Hnd Hp) as (d & -> & Hnd' & Hp' & Hs & Hm). exists d. split_and!; try done.
    + by constructor.
    + intros g. rewrite Hm. destruct Hx as [->|Hx]; set_solver.
  - destruct (IH (out ++ [x])) as (d & -> & Hnd' & Hp' & Hs & Hm).
    + apply list.NoDup_app. split_and!; [done|set_solver|apply NoDup_singleton].
    + set_solver.
    + exists (x :: d). rewrite <- (assoc (++)) in *. cbn [app] in *. split_and!; try done.
      * by constructor.
      * intros g. rewrite Hm. set_solver.
Qed.

Lemma seen_loop_spec fuel a b rest x :
  zlen b < Z.of_nat fuel ->
  seen_loop fuel (a ++ b ++ rest) (zlen a + zlen b) x (zlen a) = Some (bool_decide (x ∈ b)).
Proof.
  revert fuel a. induction b as [|y b IH]; intros fuel a Hf; (destruct fuel as [|fuel]; [unfold zlen in Hf; lia|]).
  - cbn [seen_loop]. change (zlen []) with 0. test_lia. by rewrite bool_decide_false by set_solver.
  - rewrite zlen_cons in *. pose proof (zlen_nonneg b). cbn [seen_loop app]. test_lia.
    rewrite mload_mid. cbn [mbind option_bind]. destruct (Z.eqb_spec y x) as [->|Hne].
    + by rewrite bool_decide_true by set_solver.
    + specialize (IH fuel (a ++ [y]) ltac:(lia)). rewrite zlen_snoc, <- !(assoc (++)) in IH. cbn [app] in IH.
      replace (zlen a + (1 + zlen b)) with (zlen a + 1 + zlen b) by lia. rewrite IH. f_equal.
      apply bool_decide_ext. set_solver.
Qed.

Lemma setgroups_loop_spec fuel primary pre l extra out rest :
  zlen l < Z.of_nat fuel -> zlen out + zlen l <= SCHED_GROUP_MAX -> zlen out + zlen rest = SCHED_GROUP_MAX ->
  exists rest', setgroups_loop fuel primary (pre ++ l ++ extra) (out ++ rest) (zlen pre + zlen l) (zlen pre) (zlen out)
      = Some (distinct primary out l ++ rest', Some (zlen (distinct primary out l))) /\
    zlen (distinct primary out l ++ rest') = SCHED_GROUP_MAX.
Proof.
  revert fuel pre out rest. induction l as [|x l IH]; intros fuel pre out rest Hf Hroom Hlen;
    (destruct fuel as [|fuel]; [unfold zlen in Hf; lia|]).
  { exists rest. cbn [setgroups_loop distinct]. change (zlen []) with 0. rewrite zlen_app. test_lia. done. }
  rewrite zlen_cons in *. pose proof (zlen_nonneg l). cbn [setgroups_loop app distinct]. test_lia.
  rewrite mload_mid. cbn [mbind option_bind].
  replace (zlen pre + (1 + zlen l)) with (zlen (pre ++ [x]) + zlen l) by (rewrite zlen_snoc; lia).
  replace (zlen pre + 1) with (zlen (pre ++ [x])) by (by rewrite zlen_snoc).
  replace (pre ++ x :: l ++ extra) with ((pre ++ [x]) ++ l ++ extra) by (by rewrite <- (assoc (++))).
  destruct (Z.eqb_spec x primary) as [->|Hne].
  { rewrite decide_True by by left. apply IH; lia. }
  rewrite (seen_loop_spec _ [] out rest x) by lia. cbn [mbind option_bind].
  case_bool_decide as Hin.
  { rewrite decide_True by by right. apply IH; lia. }
  rewrite decide_False by tauto. test_lia.
  destruct rest as [|z rest]; [unfold zlen in *; simpl in *; lia|]. rewrite mstore_mid. cbn [mbind option_bind].
  replace (out ++ x :: rest) with ((out ++ [x]) ++ rest) by (by rewrite <- (assoc (++))).
  rewrite <- (zlen_snoc out x). apply IH; rewrite ?zlen_snoc, ?zlen_cons in *; lia.
Qed.

Lemma setgroups_ok c l :
  cred_ok c -> uid c = 0 -> zlen l <= SCHED_GROUP_MAX ->
  exists c', sched_setgroups (Some c) (Some l) (zlen l) = Some (0, Some c') /\ cred_ok c' /\
    ruid c' = ruid c /\ uid c' = uid c /\ suid c' = suid c /\
    rgid c' = rgid c /\ gid c' = gid c /\ sgid c' = sgid c /\ active c' = distinct (gid c) [] l.
Proof.
  intros [Hl Hc] Hu Hn. unfold sched_setgroups. rewrite Hu. cbn [Z.eqb negb]. test_lia.
  rewrite bool_decide_false, andb_false_r by done. cbn [default orb from_option].
  destruct (setgroups_loop_spec (S (Z.to_nat (zlen l))) (gid c) [] l [] [] (groups c)) as (rest' & Hr & Hlen);
    [pose proof (zlen_nonneg l); lia|unfold zlen in *; simpl; lia|by change (zlen []) with 0; rewrite Z.add_0_l|].
  cbn [app] in Hr. rewrite app_nil_r in Hr. change (@zlen Z []) with 0 in Hr. rewrite Z.add_0_l in Hr. cbn [id]. rewrite Hr. cbn [mbind option_bind].
  eexists. split; [done|]. split_and!; try done; [|by rewrite active_set].
  split; [done|]. cbn [set_groups groups group_count]. rewrite zlen_app in Hlen.
  pose proof (zlen_nonneg rest'). pose proof (zlen_nonneg (distinct (gid c) [] l)). lia.
Qed.

(** ** Sequences of calls *)

Inductive cred_call :=
| CSetuid (u : Z) | CSeteuid (u : Z) | CSetgid (g : Z) | CSetegid (g : Z)
| CSetgroups (l : ptr (list Z)) (n : Z) | CSetumask (m : Z).

Definition call self (k : cred_call) : option (Z * ptr cred_t) :=
  match k with
  | CSetuid u => Some (sched_setuid self u)
  | CSeteuid u => Some (sched_seteuid self u)
  | CSetgid g => sched_setgid self g
  | CSetegid g => Some (sched_setegid self g)
  | CSetgroups l n => sched_setgroups self l n
  | CSetumask m => Some (sched_setumask self m)
  end.

Fixpoint run_calls self (ks : list cred_call) : option (ptr cred_t) :=
  match ks with
  | [] => Some self
  | k :: ks => '(_, self) ← call self k; run_calls self ks
  end.

(** What an unprivileged thread keeps: its real and saved identifiers, an effective identifier that
    is one of the three it had, and no new supplementary group. *)
Definition confined (c c' : cred_t) : Prop :=
  cred_ok c' /\ ruid c' = ruid c /\ suid c' = suid c /\ rgid c' = rgid c /\ sgid c' = sgid c /\
  (uid c' = ruid c \/ uid c' = uid c \/ uid c' = suid c) /\
  (gid c' = rgid c \/ gid c' = gid c \/ gid c' = sgid c) /\
  (forall g, g ∈ active c' -> g ∈ active c).

Lemma call_confined c k :
  cred_ok c -> uid c <> 0 -> exists code c', call (Some c) k = Some (code, Some c') /\ confined c c'.
Proof.
  intros Hok Hu.
  assert (Hsame : confined c c) by (unfold confined; tauto).
  destruct k as [u|u|g|g|l n|m]; cbn [call].
  - unfold sched_setuid. test_lia. case_test; [by eexists _, _|].
    eexists _, _. split; [done|]. rewrite !andb_false_iff, !negb_false_iff, !Z.eqb_eq in E.
    unfold confined. cbn. tauto.
  - unfold sched_seteuid. test_lia. case_test; [by eexists _, _|].
    eexists _, _. split; [done|]. rewrite !andb_false_iff, !negb_false_iff, !Z.eqb_eq in E.
    unfold confined. cbn. tauto.
  - destruct (setgid_spec c g Hok) as (code & c' & Hr & Hok' & E1 & E2 & E3 & Hcase).
    exists code, c'. split; [done|]. destruct Hcase as [(_ & -> & _)|(_ & Hg & Ha & _ & Hn)]; [done|].
    destruct (Hn Hu) as (E4 & E5 & E6). unfold confined. rewrite Ha, Hg, E1, E2, E3, E4, E5.
    split_and!; try done; [by right; left|]. intros x [_ ?]%list_elem_of_filter. done.
  - unfold sched_setegid. test_lia. case_test; [by eexists _, _|].
    eexists _, _. split; [done|]. rewrite !andb_false_iff, !negb_false_iff, !Z.eqb_eq in E.
    unfold confined. cbn. tauto.
  - unfold sched_setgroups. test_lia. by eexists _, _.
  - by eexists _, _.
Qed.

Lemma calls_confined ks c c0 :
  ruid c0 <> 0 -> uid c0 <> 0 -> suid c0 <> 0 -> confined c0 c ->
  exists c', run_calls (Some c) ks = Some (Some c') /\ confined c0 c'.
Proof.
  intros Hr Hu Hs. revert c. induction ks as [|k ks IH]; intros c Hc; [by exists c|]. cbn [run_calls].
  pose proof Hc as (Hok & E1 & E2 & E3 & E4 & Euid & Egid & Ea).
  destruct (call_confined c k Hok) as (code & c1 & Hr1 & Hok1 & F1 & F2 & F3 & F4 & Fuid & Fgid & Fa);
    [naive_solver congruence|].
  rewrite Hr1. cbn [mbind option_bind]. apply IH. unfold confined.
  rewrite F1, F2, F3, F4, E1, E2, E3, E4. rewrite E1, E2 in Fuid. rewrite E3, E4 in Fgid.
  split_and!; try done; [naive_solver congruence..|]. intros g Hg. by apply Ea, Fa.
Qed.

(** C8: No privilege escalation.  A thread none of whose three user identifiers is root never becomes
    root and never gains a group by any sequence of calls; and a root thread that calls [setuid] with
    another identifier has dropped its privileges for good. *)
Theorem setid_no_escalation c ks :
  cred_ok c ->
  (ruid c <> 0 -> uid c <> 0 -> suid c <> 0 ->
   exists c', run_calls (Some c) ks = Some (Some c') /\ confined c c' /\ uid c' <> 0) /\
  (uid c = 0 -> forall u, u <> 0 ->
   fst (sched_setuid (Some c) u) = 0 /\
   exists c', run_calls (snd (sched_setuid (Some c) u)) ks = Some (Some c') /\
     ruid c' = u /\ uid c' = u /\ suid c' = u).
Proof.
  intros Hok. split.
  - intros Hr Hu Hs. assert (Hc : confined c c) by (unfold confined; tauto).
    destruct (calls_confined ks c c Hr Hu Hs Hc) as (c' & Hrun & Hc'). exists c'. split_and!; try done.
    destruct Hc' as (_ & _ & _ & _ & _ & Hcase & _). naive_solver congruence.
  - intros Hroot u Hu. unfold sched_setuid. rewrite Hroot. cbn [Z.eqb fst snd]. split; [done|].
    set (c1 := set_uids u u u c).
    assert (Hc : confined c1 c1) by (unfold confined, c1; cbn; tauto).
    destruct (calls_confined ks c1 c1 Hu Hu Hu Hc) as (c' & Hrun & Hc'). exists c'. split; [done|].
    destruct Hc' as (_ & E1 & E2 & _ & _ & Hcase & _). unfold c1 in *. cbn in *. naive_solver congruence.
Qed.

Lemma has_group_spec c g : cred_ok c -> _has_group (Some c) g = Some (bool_decide (g = gid c \/ g ∈ active c)).
Proof.
  intros Hok. destruct (active_split c Hok) as [Hg Hn]. destruct Hok as [Hl Hc]. unfold _has_group.
  destruct (Z.eqb_spec (gid c) g) as [<-|Hne]; [by rewrite bool_decide_true by by left|].
  assert (Hloop : forall fuel i, has_group_loop fuel c g i = seen_loop fuel (groups c) (group_count c) g i).
  { induction fuel as [|fuel IH]; intros i; [done|]. cbn [has_group_loop seen_loop]. case_test; [|done].
    destruct (mload _ i); cbn [mbind option_bind]; [|done]. by rewrite IH. }
  rewrite Hloop.
  pose proof (seen_loop_spec (S (Z.to_nat (group_count c))) [] (active c) (drop (Z.to_nat (group_count c)) (groups c)) g) as Hs.
  cbn [app] in Hs. change (@zlen Z []) with 0 in Hs. rewrite Hn, Z.add_0_l, <- Hg in Hs. rewrite Hs by lia.
  f_equal. apply bool_decide_ext. naive_solver.
Qed.

(** Group membership is exact.  [setgroups] refuses all but root and more groups than fit, and
    otherwise leaves exactly the groups of the list other than the primary one, each once and in
    order; [setgid] drops the new primary group from them; and the membership test answers for
    exactly the primary and the supplementary groups. *)
Theorem group_membership_exact c l :
  cred_ok c ->
  (exists code c', sched_setgroups (Some c) (Some l) (zlen l) = Some (code, Some c') /\ cred_ok c' /\
     (code <> 0 -> c' = c) /\ (code = 0 <-> uid c = 0 /\ zlen l <= SCHED_GROUP_MAX) /\
     (code = 0 -> NoDup (active c') /\ active c' `sublist_of` l /\
        forall g, g ∈ active c' <-> g ∈ l /\ g <> gid c)) /\
  (forall x, exists code c', sched_setgid (Some c) x = Some (code, Some c') /\
     (code = 0 -> gid c' = x /\ active c' = filter (fun y => y <> x) (active c))) /\
  (forall g, _has_group (Some c) g = Some (bool_decide (g = gid c \/ g ∈ active c))).
Proof.
  intros Hok. split; [|split].
  - destruct (decide (uid c = 0)) as [Hu|Hu].
    2: { exists (- EPERM), c. unfold sched_setgroups. test_lia. unfold EPERM. split_and!; try done; naive_solver. }
    destruct (Z_le_gt_dec (zlen l) SCHED_GROUP_MAX) as [Hn|Hn].
    + destruct (setgroups_ok c l Hok Hu Hn) as (c' & Hr & Hok' & _ & _ & _ & _ & _ & _ & Ha).
      destruct (distinct_spec (gid c) l []) as (d & Hd & Hnd & _ & Hs & Hm); [constructor|set_solver|].
      exists 0, c'. rewrite Ha, Hd. cbn [app] in *. split_and!; try done.
      intros _. split_and!; try done. intros g. rewrite Hm. set_solver.
    + exists (- EINVAL), c. unfold sched_setgroups. rewrite Hu. cbn [Z.eqb negb]. test_lia. unfold EINVAL.
      split_and!; try done. split; [done|]. lia.
  - intros x. destruct (setgid_spec c x Hok) as (code & c' & Hr & _ & _ & _ & _ & Hcase).
    exists code, c'. split; [done|]. intros ->. destruct Hcase as [(? & _)|(_ & Hg & Ha & _)]; [|done].
    by unfold EPERM in *.
  - intros g. by apply has_group_spec.
Qed.

(** ** Witnesses *)

Definition user_cred : cred_t :=
  mk_cred 1000 1000 1000 100 100 100 ([10; 20; 30] ++ replicate 13 0) 3 18.
Definition root_cred : cred_t := mk_cred 0 0 0 0 0 0 (replicate 16 0) 0 18.

Lemma setid_no_escalation_witness :
  exists c', run_calls (Some user_cred) [CSetuid 0; CSetgid 0; CSetgroups (Some [0]) 1; CSeteuid 1000] = Some (Some c') /\
    confined user_cred c' /\ uid c' <> 0.
Proof.
  apply (setid_no_escalation user_cred); [split; vm_compute; [reflexivity|split; discriminate]|discriminate..].
Defined.

Lemma group_membership_exact_witness :
  exists code c', sched_setgroups (Some root_cred) (Some [7; 0; 7; 9]) (zlen [7; 0; 7; 9]) = Some (code, Some c') /\ cred_ok c' /\
     (code <> 0 -> c' = root_cred) /\ (code = 0 <-> uid root_cred = 0 /\ zlen [7; 0; 7; 9] <= SCHED_GROUP_MAX) /\
     (code = 0 -> NoDup (active c') /\ active c' `sublist_of` [7; 0; 7; 9] /\
        forall g, g ∈ active c' <-> g ∈ [7; 0; 7; 9] /\ g <> gid root_cred).
Proof.
  apply (group_membership_exact root_cred [7; 0; 7; 9]). split; vm_compute; [reflexivity|split; discriminate].
Defined.

Example setgroups_runs :
  match sched_setgroups (Some root_cred) (Some [7; 0; 7; 9]) 4 with
  | Some (code, Some c) => code = 0 /\ active c = [7; 9]
  | _ => False
  end.
Proof. vm_compute. auto. Qed.

End Cred.
