(* ===== verification/Signal.v ===== *)
(** * Signals: [kernel/sched/signal.c] and the thread states of [kernel/sched/wait.c]

    Handlers, pending and blocked signals of one thread, sending and delivering, and the effect of
    stopping, continuing and unblocking on the thread's own fields.  What those functions do to the
    queues and to other cores is the list of [effect]s they emit, in order.  [R] is the saved user
    context [arch_int_state_t]; pushing a handler's frame on the user stack is architecture code and
    an argument of delivery. *)

From S2P Require Import Prelude Errno Memory Sched.
From stdpp Require Import relations list.
Open Scope Z_scope.

Module Signal.

Definition NSIG : Z := 32.
Definition SIGKILL : Z := 9.
Definition SIGCHLD : Z := 17.
Definition SIGCONT : Z := 18.
Definition SIGSTOP : Z := 19.
Definition SIGTSTP : Z := 20.
Definition SIGTTIN : Z := 21.
Definition SIGTTOU : Z := 22.
Definition SIGWINCH : Z := 28.

(** Handlers are code addresses; the two lowest and the highest have a meaning of their own. *)
Definition SIG_DFL : Z := 0.
Definition SIG_IGN : Z := 1.
Definition SIG_ERR `{Arch} : Z := SIZE_MAX.

Definition SCHED_WAIT_WOKEN : Z := 0.
Definition SCHED_WAIT_INTR : Z := 2.
Definition SCHED_WAIT_INTERRUPTIBLE : Z := 1.

Section Thread.
Context {R : Type}.

Record sig_thread := mk_sig {
  sstate : thread_state_t;
  user_thread : bool;
  handlers : list Z;
  signal_pending : Z;
  signal_mask : Z;
  current_signal : Z;
  signal_saved_valid : Z;
  signal_trampoline : Z;
  signal_saved_state : R;
  stop_signal : Z;
  stop_reported : bool;
  wait_flags : Z;
  wait_result : Z;
  wake_tick : Z;
  wait_deadline_tick : Z;
  exit_code : Z;
  exit_signal : Z
}.

Definition set_sstate (v : thread_state_t) (th : sig_thread) : sig_thread :=
  mk_sig v (user_thread th) (handlers th) (signal_pending th) (signal_mask th) (current_signal th)
    (signal_saved_valid th) (signal_trampoline th) (signal_saved_state th) (stop_signal th)
    (stop_reported th) (wait_flags th) (wait_result th) (wake_tick th) (wait_deadline_tick th) (exit_code th)
    (exit_signal th).
Definition set_handlers (v : list Z) (th : sig_thread) : sig_thread :=
  mk_sig (sstate th) (user_thread th) v (signal_pending th) (signal_mask th) (current_signal th)
    (signal_saved_valid th) (signal_trampoline th) (signal_saved_state th) (stop_signal th)
    (stop_reported th) (wait_flags th) (wait_result th) (wake_tick th) (wait_deadline_tick th) (exit_code th)
    (exit_signal th).
Definition set_signal_pending (v : Z) (th : sig_thread) : sig_thread :=
  mk_sig (sstate th) (user_thread th) (handlers th) v (signal_mask th) (current_signal th)
    (signal_saved_valid th) (signal_trampoline th) (signal_saved_state th) (stop_signal th)
    (stop_reported th) (wait_flags th) (wait_result th) (wake_tick th) (wait_deadline_tick th) (exit_code th)
    (exit_signal th).
Definition set_signal_mask (v : Z) (th : sig_thread) : sig_thread :=
  mk_sig (sstate th) (user_thread th) (handlers th) (signal_pending th) v (current_signal th)
    (signal_saved_valid th) (signal_trampoline th) (signal_saved_state th) (stop_signal th)
    (stop_reported th) (wait_flags th) (wait_result th) (wake_tick th) (wait_deadline_tick th) (exit_code th)
    (exit_signal th).
Definition set_current_signal (v : Z) (th : sig_thread) : sig_thread :=
  mk_sig (sstate th) (user_thread th) (handlers th) (signal_pending th) (signal_mask th) v
    (signal_saved_valid th) (signal_trampoline th) (signal_saved_state th) (stop_signal th)
    (stop_reported th) (wait_flags th) (wait_result th) (wake_tick th) (wait_deadline_tick th) (exit_code th)
    (exit_signal th).
Definition set_signal_saved_valid (v : Z) (th : sig_thread) : sig_thread :=
  mk_sig (sstate th) (user_thread th) (handlers th) (signal_pending th) (signal_mask th)
    (current_signal th) v (signal_trampoline th) (signal_saved_state th) (stop_signal th)
    (stop_reported th) (wait_flags th) (wait_result th) (wake_tick th) (wait_deadline_tick th) (exit_code th)
    (exit_signal th).
Definition set_signal_trampoline (v : Z) (th : sig_thread) : sig_thread :=
  mk_sig (sstate th) (user_thread th) (handlers th) (signal_pending th) (signal_mask th)
    (current_signal th) (signal_saved_valid th) v (signal_saved_state th) (stop_signal th)
    (stop_reported th) (wait_flags th) (wait_result th) (wake_tick th) (wait_deadline_tick th) (exit_code th)
    (exit_signal th).
Definition set_signal_saved_state (v : R) (th : sig_thread) : sig_thread :=
  mk_sig (sstate th) (user_thread th) (handlers th) (signal_pending th) (signal_mask th)
    (current_signal th) (signal_saved_valid th) (signal_trampoline th) v (stop_signal th)
    (stop_reported th) (wait_flags th) (wait_result th) (wake_tick th) (wait_deadline_tick th) (exit_code th)
    (exit_signal th).
Definition set_stop_signal (v : Z) (th : sig_thread) : sig_thread :=
  mk_sig (sstate th) (user_thread th) (handlers th) (signal_pending th) (signal_mask th)
    (current_signal th) (signal_saved_valid th) (signal_trampoline th) (signal_saved_state th) v
    (stop_reported th) (wait_flags th) (wait_result th) (wake_tick th) (wait_deadline_tick th) (exit_code th)
    (exit_signal th).
Definition set_stop_reported (v : bool) (th : sig_thread) : sig_thread :=
  mk_sig (sstate th) (user_thread th) (handlers th) (signal_pending th) (signal_mask th)
    (current_signal th) (signal_saved_valid th) (signal_trampoline th) (signal_saved_state th)
    (stop_signal th) v (wait_flags th) (wait_result th) (wake_tick th) (wait_deadline_tick th) (exit_code th)
    (exit_signal th).
Definition set_wait_result (v : Z) (th : sig_thread) : sig_thread :=
  mk_sig (sstate th) (user_thread th) (handlers th) (signal_pending th) (signal_mask th)
    (current_signal th) (signal_saved_valid th) (signal_trampoline th) (signal_saved_state th)
    (stop_signal th) (stop_reported th) (wait_flags th) v (wake_tick th) (wait_deadline_tick th) (exit_code th)
    (exit_signal th).
Definition set_wake_tick (v : Z) (th : sig_thread) : sig_thread :=
  mk_sig (sstate th) (user_thread th) (handlers th) (signal_pending th) (signal_mask th)
    (current_signal th) (signal_saved_valid th) (signal_trampoline th) (signal_saved_state th)
    (stop_signal th) (stop_reported th) (wait_flags th) (wait_result th) v (wait_deadline_tick th) (exit_code th)
    (exit_signal th).
Definition set_wait_deadline_tick (v : Z) (th : sig_thread) : sig_thread :=
  mk_sig (sstate th) (user_thread th) (handlers th) (signal_pending th) (signal_mask th)
    (current_signal th) (signal_saved_valid th) (signal_trampoline th) (signal_saved_state th)
    (stop_signal th) (stop_reported th) (wait_flags th) (wait_result th) (wake_tick th) v (exit_code th)
    (exit_signal th).
Definition set_exit_code (v : Z) (th : sig_thread) : sig_thread :=
  mk_sig (sstate th) (user_thread th) (handlers th) (signal_pending th) (signal_mask th)
    (current_signal th) (signal_saved_valid th) (signal_trampoline th) (signal_saved_state th)
    (stop_signal th) (stop_reported th) (wait_flags th) (wait_result th) (wake_tick th) (wait_deadline_tick th) v
    (exit_signal th).
Definition set_exit_signal (v : Z) (th : sig_thread) : sig_thread :=
  mk_sig (sstate th) (user_thread th) (handlers th) (signal_pending th) (signal_mask th)
    (current_signal th) (signal_saved_valid th) (signal_trampoline th) (signal_saved_state th)
    (stop_signal th) (stop_reported th) (wait_flags th) (wait_result th) (wake_tick th) (wait_deadline_tick th)
    (exit_code th) v.
End Thread.
Arguments sig_thread : clear implicits.

(** What the scheduler does to its queues and cores on behalf of the thread. *)
Inductive effect :=
| Dequeue            (** leave the run queue, wait queue and sleep queue *)
| Enqueue            (** release the thread and put it in a run queue *)
| Nudge              (** interrupt the core that runs the thread *)
| Kick (cpu : Z)     (** reschedule a remote core *)
| Repair             (** requeue a thread marked running that no core runs *)
| Unclaim
| NotifyParent       (** wake the parent and send it [SIGCHLD] *)
| Yield.

(** Where the thread is, as the scheduler's own predicates answer. *)
Record place := mk_place {
  is_idle : bool; is_self : bool; is_owned : bool; in_handoff : bool; on_local_cpu : bool;
  cpu_of : Z; running : bool
}.

Definition signal_valid (signum : Z) : bool := (0 <? signum) && (signum <? NSIG).

Definition signal_is_stop (signum : Z) : bool :=
  (signum =? SIGTSTP) || (signum =? SIGSTOP) || (signum =? SIGTTIN) || (signum =? SIGTTOU).

Definition signal_is_continue (signum : Z) : bool := signum =? SIGCONT.

(** [default_actions]: the two signals whose default is to be ignored. *)
Definition default_actions (signum : Z) : Z :=
  if (signum =? SIGCHLD) || (signum =? SIGWINCH) then SIG_IGN else SIG_DFL.

Section Defs.
Context `{Arch} {R : Type}.
Implicit Types (th : sig_thread R) (pl : place).

Definition signal_get_handler (thread : ptr (sig_thread R)) (signum : Z) : option Z :=
  match thread with
  | None => Some SIG_DFL
  | Some th =>
      if negb (signal_valid signum) then Some SIG_DFL
      else if (signum =? SIGKILL) || (signum =? SIGSTOP) then Some SIG_DFL
      else
        handler ← mload (handlers th) signum;
        if handler =? SIG_DFL then
          let def := default_actions signum in Some (if negb (def =? 0) then def else SIG_DFL)
        else Some handler
  end.

(** [1u << (signum - 1)] *)
Definition sig_bit (signum : Z) : Z := Z.shiftl 1 (signum - 1).

Definition mark_pending th (signum : Z) : sig_thread R :=
  if negb (signal_valid signum) then th
  else set_signal_pending (Z.lor (signal_pending th) (sig_bit signum)) th.

(** [~mask] on 32 bits. *)
Definition u32_not (m : Z) : Z := u32_wrap (Z.lnot m).

Definition clear_pending th (signum : Z) : sig_thread R :=
  if negb (signal_valid signum) then th
  else set_signal_pending (Z.land (signal_pending th) (u32_not (sig_bit signum))) th.

(** [signal_pending & ~signal_mask] *)
Definition unblocked th : Z := Z.land (signal_pending th) (u32_not (signal_mask th)).

(** [for (signum = 1; signum < NSIG; signum++)] *)
Fixpoint next_loop (fuel : nat) (pending signum : Z) : Z :=
  match fuel with
  | O => 0
  | S fuel =>
      if signum <? NSIG then
        if negb (Z.land pending (sig_bit signum) =? 0) then signum else next_loop fuel pending (signum + 1)
      else 0
  end.

Definition next_pending (thread : ptr (sig_thread R)) : Z :=
  match thread with
  | None => 0
  | Some th => if unblocked th =? 0 then 0 else next_loop (Z.to_nat NSIG) (unblocked th) 1
  end.

Definition sched_signal_pending (thread : ptr (sig_thread R)) : bool :=
  match thread with None => false | Some th => negb (unblocked th =? 0) end.

Definition sched_signal_init th : sig_thread R :=
  let th := set_handlers (replicate (length (handlers th)) 0) th in
  set_signal_trampoline 0 (set_signal_saved_valid 0 (set_current_signal 0
    (set_signal_mask 0 (set_signal_pending 0 th)))).

Definition sched_signal_reset th : sig_thread R := sched_signal_init th.

(** The loop of [sched_signal_exec] over the handlers of signals 1 to 31. *)
Definition exec_handlers (l : list Z) : list Z :=
  match l with
  | [] => []
  | h :: l => h :: map (fun h => if negb (h =? SIG_IGN) then SIG_DFL else h) l
  end.

Definition sched_signal_exec th : sig_thread R :=
  set_signal_saved_valid 0 (set_current_signal 0 (set_signal_trampoline 0
    (set_handlers (exec_handlers (handlers th)) th))).

Definition sched_signal_set (thread : ptr (sig_thread R)) (signum handler trampoline : Z)
  : option (Z * ptr (sig_thread R)) :=
  match thread with
  | None => Some (SIG_ERR, thread)
  | Some th =>
      if negb (signal_valid signum) then Some (SIG_ERR, thread)
      else if (signum =? SIGKILL) || (signum =? SIGSTOP) then Some (SIG_ERR, thread)
      else if negb (handler =? SIG_DFL) && negb (handler =? SIG_IGN) && (trampoline =? 0)
      then Some (SIG_ERR, thread)
      else
        prev ← mload (handlers th) signum;
        hs ← mstore (handlers th) signum handler;
        let th := set_handlers hs th in
        if trampoline =? 0 then Some (prev, Some th)
        else Some (prev, Some (set_signal_trampoline trampoline th))
  end.

(** ** Stopping, continuing, waking *)

Definition sched_continue_thread th pl : sig_thread R * list effect :=
  if is_idle pl then (th, [])
  else if negb (bool_decide (sstate th = THREAD_STOPPED)) then (th, [])
  else
    let th := set_stop_reported false (set_stop_signal 0 (set_sstate THREAD_READY th)) in
    if is_owned pl then (th, [Nudge]) else (th, [Unclaim; Enqueue]).

Definition sched_stop_thread th pl (signum : Z) : sig_thread R * list effect :=
  if is_idle pl then (th, [])
  else if bool_decide (sstate th = THREAD_ZOMBIE) || bool_decide (sstate th = THREAD_STOPPED) then (th, [])
  else
    let remote := negb (is_self pl) && bool_decide (sstate th = THREAD_RUNNING) && (0 <=? cpu_of pl) && is_owned pl in
    if remote then
      let th := mark_pending th signum in
      (set_stop_reported false (set_stop_signal signum th), [Kick (cpu_of pl)])
    else
      let th := set_wake_tick 0 th in
      let th := set_stop_reported false (set_stop_signal signum (set_sstate THREAD_STOPPED th)) in
      (th, [Dequeue] ++ (if negb (is_self pl) && negb (is_owned pl) then [Unclaim] else []) ++
           (if user_thread th then [NotifyParent] else []) ++
           (if is_owned pl then [Nudge] else []) ++
           (if is_self pl && running pl then [Yield] else [])).

Definition sched_unblock_thread th pl : sig_thread R * list effect :=
  if is_idle pl then (th, [])
  else
    let signal_wait := sched_signal_pending (Some th) in
    let interruptible := negb (Z.land (wait_flags th) SCHED_WAIT_INTERRUPTIBLE =? 0) in
    if bool_decide (sstate th = THREAD_SLEEPING) && signal_wait && negb interruptible then (th, [])
    else if bool_decide (sstate th = THREAD_SLEEPING) || bool_decide (sstate th = THREAD_READY) then
      let th := set_wait_deadline_tick 0 (set_wake_tick 0 th) in
      let th := set_wait_result (if interruptible && signal_wait then SCHED_WAIT_INTR else SCHED_WAIT_WOKEN) th in
      if in_handoff pl then (set_sstate THREAD_READY th, [Dequeue; Nudge])
      else if on_local_cpu pl then (th, [Dequeue; Nudge])
      else (set_sstate THREAD_READY th, [Dequeue; Unclaim; Enqueue])
    else if bool_decide (sstate th = THREAD_RUNNING) then (th, [Dequeue; Repair])
    else (th, [Dequeue]).

(** ** Sending *)

Definition sched_signal_send (thread : ptr (sig_thread R)) pl (signum : Z)
  : option (Z * ptr (sig_thread R) * list effect) :=
  match thread with
  | None => Some (-1, thread, [])
  | Some th =>
      if negb (signal_valid signum) then Some (-1, thread, [])
      else
        handler ← signal_get_handler thread signum;
        if handler =? SIG_IGN then Some (0, thread, [])
        else
          let '(th, e1) := if signal_is_continue signum then sched_continue_thread th pl else (th, []) in
          let '(th, e2) := if signum =? SIGKILL then sched_continue_thread th pl else (th, []) in
          if signal_is_continue signum && (handler =? SIG_DFL) then Some (1, Some th, e1 ++ e2)
          else if signal_is_stop signum && (handler =? SIG_DFL) then
            let '(th, e3) := sched_stop_thread th pl signum in Some (1, Some th, e1 ++ e2 ++ e3)
          else
            let '(th, e3) := sched_unblock_thread (mark_pending th signum) pl in
            Some (1, Some th, e1 ++ e2 ++ e3)
  end.

(** ** Delivery *)

(** Whether [sched_exit], which does not return, was reached. *)
Inductive delivered := Returned (state : ptr R) | Exited.

Definition exit_with th (signum : Z) : sig_thread R := set_exit_signal signum (set_exit_code 0 th).

(** [is_user] and [setup] are [arch_signal_is_user] and [arch_setup_signal_stack]: the latter answers
    the context that enters the handler, or fails when the frame does not fit the user stack. *)
Definition sched_signal_deliver (is_user : R -> bool) (setup : sig_thread R -> R -> Z -> Z -> option R)
  (thread : ptr (sig_thread R)) pl (st : ptr R) : option (delivered * ptr (sig_thread R) * list effect) :=
  let keep := Some (Returned st, thread, []) in
  match thread, st with
  | Some th, Some r =>
      if negb (user_thread th) then keep
      else if negb (is_user r) then keep
      else if negb (signal_saved_valid th =? 0) then keep
      else
        let signum := next_pending thread in
        if signum =? 0 then keep
        else
          handler ← signal_get_handler thread signum;
          if handler =? SIG_IGN then Some (Returned st, Some (clear_pending th signum), [])
          else if (handler =? SIG_DFL) && signal_is_stop signum then
            let '(th, e) := sched_stop_thread (clear_pending th signum) pl signum in
            Some (Returned st, Some th, e)
          else if (handler =? SIG_DFL) && signal_is_continue signum then
            let '(th, e) := sched_continue_thread (clear_pending th signum) pl in
            Some (Returned st, Some th, e)
          else if (handler =? SIG_DFL) || (signal_trampoline th =? 0) then
            Some (Exited, Some (exit_with (clear_pending th signum) signum), [])
          else
            let th := set_signal_saved_valid 1 (set_current_signal signum (set_signal_saved_state r th)) in
            match setup th r handler signum with
            | None =>
                let th := set_current_signal 0 (set_signal_saved_valid 0 th) in
                Some (Exited, Some (exit_with (clear_pending th signum) signum), [])
            | Some r' => Some (Returned (Some r'), Some (clear_pending th signum), [])
            end
  | _, _ => keep
  end.

(** The thread's saved kernel [context] pointer, which sigreturn also sets, is not represented. *)
Definition sched_signal_sigreturn (thread : ptr (sig_thread R)) (st : ptr R)
  : bool * ptr (sig_thread R) * ptr R :=
  match thread, st with
  | Some th, Some _ =>
      if signal_saved_valid th =? 0 then (false, thread, st)
      else (true, Some (set_current_signal 0 (set_signal_saved_valid 0 th)), Some (signal_saved_state th))
  | _, _ => (false, thread, st)
  end.

(** The signal fields [copy_fork_state] of [kernel/sched/create.c] gives a child. *)
Definition fork_signals (child parent : sig_thread R) : sig_thread R :=
  set_current_signal 0 (set_signal_saved_valid 0 (set_signal_pending 0
    (set_signal_trampoline (signal_trampoline parent) (set_signal_mask (signal_mask parent)
      (set_handlers (handlers parent) child))))).

(** Writing the signal mask through the process file: [PROC_FIELD_SIGMASK] of [kernel/sys/procfs.c]. *)
Definition blockable_mask : Z :=
  Z.land (Z.land 0x7fffffff (u32_not (sig_bit SIGKILL))) (u32_not (sig_bit SIGSTOP)).

Definition procfs_set_sigmask th (value : Z) : Z * sig_thread R :=
  if value <? 0 then (- EINVAL, th)
  else (0, set_signal_mask (Z.land (u32_wrap value) blockable_mask) th).

End Defs.

(** ** Bits *)

Lemma sig_bit_pow n : 1 <= n -> sig_bit n = 2 ^ (n - 1).
Proof. intros. unfold sig_bit. rewrite Z.shiftl_1_l. done. Qed.

Lemma sig_bit_test n k : 1 <= n -> Z.testbit (sig_bit n) k = bool_decide (k = n - 1).
Proof. intros. rewrite sig_bit_pow by done. rewrite Z.pow2_bits_eqb by lia. destruct (Z.eqb_spec (n - 1) k); case_bool_decide; done || lia. Qed.

Lemma land_bit_0 a n : 1 <= n -> (Z.land a (sig_bit n) =? 0) = negb (Z.testbit a (n - 1)).
Proof. intros Hn. rewrite sig_bit_pow by done. apply land_pow2_test. lia. Qed.

Lemma u32_not_test m k : 0 <= k < 32 -> Z.testbit (u32_not m) k = negb (Z.testbit m k).
Proof. intros Hk. unfold u32_not, u32_wrap. rewrite Z.mod_pow2_bits_low by lia. by rewrite Z.lnot_spec by lia. Qed.

Lemma u32_test_high m k : 0 <= m < 2 ^ 32 -> 32 <= k -> Z.testbit m k = false.
Proof.
  intros Hm Hk. destruct (decide (m = 0)) as [->|Hne]; [apply Z.bits_0|].
  apply Z.bits_above_log2; [lia|]. apply Z.log2_lt_pow2; [lia|].
  apply Z.lt_le_trans with (2 ^ 32); [lia|]. apply Z.pow_le_mono_r; lia.
Qed.

Section Proofs.
Context `{Arch} {R : Type}.
Implicit Types (th : sig_thread R) (pl : place).

(** Signal [n] is pending and not blocked. *)
Definition deliverable th (n : Z) : bool :=
  Z.testbit (signal_pending th) (n - 1) && negb (Z.testbit (signal_mask th) (n - 1)).

Lemma unblocked_test th n : 1 <= n <= 32 -> Z.testbit (unblocked th) (n - 1) = deliverable th n.
Proof. intros Hn. unfold unblocked, deliverable. by rewrite Z.land_spec, u32_not_test by lia. Qed.

Lemma next_loop_spec fuel p n :
  1 <= n -> (forall k, 1 <= k < n -> Z.testbit p (k - 1) = false) -> NSIG - n <= Z.of_nat fuel ->
  let r := next_loop fuel p n in
  (r = 0 /\ forall k, 1 <= k < NSIG -> Z.testbit p (k - 1) = false) \/
  (1 <= r < NSIG /\ Z.testbit p (r - 1) = true /\ forall k, 1 <= k < r -> Z.testbit p (k - 1) = false).
Proof.
  revert n. induction fuel as [|fuel IH]; intros n Hn Hbelow Hf r.
  { left. split; [done|]. intros k Hk. apply Hbelow. lia. }
  unfold r. cbn [next_loop]. case_test.
  - rewrite land_bit_0, negb_involutive by done. destruct (Z.testbit p (n - 1)) eqn:Hb; [right; split_and!; [lia|lia|done|done]|].
    apply IH; [lia| |lia]. intros k Hk. destruct (decide (k = n)) as [->|]; [done|]. apply Hbelow. lia.
  - left. split; [done|]. intros k Hk. apply Hbelow. lia.
Qed.

(** [next_pending] is the lowest-numbered deliverable signal. *)
Lemma next_pending_spec th :
  let n := next_pending (Some th) in
  (n = 0 /\ forall k, 1 <= k < NSIG -> deliverable th k = false) \/
  (1 <= n < NSIG /\ deliverable th n = true /\ forall k, 1 <= k < n -> deliverable th k = false).
Proof.
  intros n. unfold n, next_pending. case_test.
  { left. split; [done|]. intros k Hk. rewrite <- unblocked_test by (unfold NSIG in *; lia). rewrite E. apply Z.bits_0. }
  destruct (next_loop_spec (Z.to_nat NSIG) (unblocked th) 1) as [[Hr Hno]|(Hr & Hb & Hlow)]; [lia|lia|unfold NSIG; lia|left|right].
  - split; [done|]. intros k Hk. rewrite <- unblocked_test by (unfold NSIG in *; lia). by apply Hno.
  - rewrite <- unblocked_test by (unfold NSIG in *; lia). split_and!; [lia|lia|done|].
    intros k Hk. rewrite <- unblocked_test by (unfold NSIG in *; lia). by apply Hlow.
Qed.

Lemma mark_test th n k :
  signal_valid n = true -> 1 <= k ->
  Z.testbit (signal_pending (mark_pending th n)) (k - 1) = (bool_decide (k = n) || Z.testbit (signal_pending th) (k - 1)).
Proof.
  unfold mark_pending. intros Hv Hk. rewrite Hv. cbn [negb signal_pending set_signal_pending].
  unfold signal_valid in Hv. bool_facts. rewrite Z.lor_spec, sig_bit_test, orb_comm by lia. f_equal.
  apply bool_decide_ext. lia.
Qed.

Lemma clear_test th n k :
  signal_valid n = true -> 1 <= k <= 32 ->
  Z.testbit (signal_pending (clear_pending th n)) (k - 1) = (negb (bool_decide (k = n)) && Z.testbit (signal_pending th) (k - 1)).
Proof.
  unfold clear_pending. intros Hv Hk. rewrite Hv. cbn [negb signal_pending set_signal_pending].
  unfold signal_valid in Hv. bool_facts. rewrite Z.land_spec, u32_not_test, sig_bit_test, andb_comm by lia. f_equal.
  f_equal. apply bool_decide_ext. lia.
Qed.

(** ** Histories of a thread *)

Variables (is_user : R -> bool) (setup : sig_thread R -> R -> Z -> Z -> option R).

(** What can happen while the thread runs, also inside a handler. *)
Inductive run_step : sig_thread R -> sig_thread R -> Prop :=
| step_set th th' n h t r :
    sched_signal_set (Some th) n h t = Some (r, Some th') -> run_step th th'
| step_mask th th' v r : procfs_set_sigmask th v = (r, th') -> run_step th th'
| step_send th th' pl n r e :
    sched_signal_send (Some th) pl n = Some (r, Some th', e) -> run_step th th'
| step_deliver th th' pl st r e :
    sched_signal_deliver is_user setup (Some th) pl st = Some (Returned r, Some th', e) -> run_step th th'.

(** A life also has returns from handlers, program loads and forks, which pass to the child. *)
Inductive sig_step : sig_thread R -> sig_thread R -> Prop :=
| life_run th th' : run_step th th' -> sig_step th th'
| life_return th th' st ok st' :
    sched_signal_sigreturn (Some th) st = (ok, Some th', st') -> sig_step th th'
| life_exec th : sig_step th (sched_signal_exec th)
| life_reset th : sig_step th (sched_signal_reset th)
| life_fork th child : sig_step th (fork_signals child th).

(** A handler is user code. *)
Definition is_code (h : Z) : Prop := h <> SIG_DFL /\ h <> SIG_IGN.

Record sig_inv th : Prop := {
  inv_handlers : length (handlers th) = Z.to_nat NSIG;
  inv_zero : handlers th !! 0%nat = Some SIG_DFL;
  inv_kill : Z.testbit (signal_mask th) (SIGKILL - 1) = false;
  inv_stop : Z.testbit (signal_mask th) (SIGSTOP - 1) = false;
  inv_trampoline : Exists is_code (handlers th) -> signal_trampoline th <> 0
}.

(** Two threads agree on everything [sig_inv] and a saved context depend on. *)
Definition same_setup th th' : Prop :=
  handlers th' = handlers th /\ signal_mask th' = signal_mask th /\
  signal_trampoline th' = signal_trampoline th /\ user_thread th' = user_thread th.

Definition same_saved th th' : Prop :=
  signal_saved_valid th' = signal_saved_valid th /\ signal_saved_state th' = signal_saved_state th.

Lemma same_setup_inv th th' : same_setup th th' -> sig_inv th -> sig_inv th'.
Proof. intros (Hh & Hm & Ht & _) [? ? ? ? ?]. constructor; rewrite ?Hh, ?Hm, ?Ht; done. Qed.

Lemma mark_same th n : same_setup th (mark_pending th n) /\ same_saved th (mark_pending th n).
Proof. unfold mark_pending. by case_test. Qed.

Lemma clear_same th n : same_setup th (clear_pending th n) /\ same_saved th (clear_pending th n).
Proof. unfold clear_pending. by case_test. Qed.

Lemma same_trans a b c :
  same_setup a b /\ same_saved a b -> same_setup b c /\ same_saved b c -> same_setup a c /\ same_saved a c.
Proof. unfold same_setup, same_saved. intros. intuition congruence. Qed.

Lemma continue_same th pl :
  let th' := fst (sched_continue_thread th pl) in same_setup th th' /\ same_saved th th'.
Proof. unfold sched_continue_thread. by repeat case_test. Qed.

Lemma stop_same th pl n :
  let th' := fst (sched_stop_thread th pl n) in same_setup th th' /\ same_saved th th'.
Proof.
  unfold sched_stop_thread. case_test; [done|]. case_test; [done|]. case_test; [|done].
  apply (same_trans _ (mark_pending th n)); [apply mark_same|done].
Qed.

Lemma unblock_same th pl :
  let th' := fst (sched_unblock_thread th pl) in same_setup th th' /\ same_saved th th'.
Proof. unfold sched_unblock_thread. cbn zeta. by repeat case_test. Qed.

Lemma get_handler_some th n : sig_inv th -> exists h, signal_get_handler (Some th) n = Some h.
Proof.
  intros [Hl _ _ _ _]. unfold signal_get_handler. case_test; [by eexists|]. case_test; [by eexists|].
  unfold signal_valid in E. bool_facts.
  destruct (mload_is_Some (handlers th) n) as [h Hh]; [unfold zlen, NSIG in *; lia|].
  rewrite Hh. cbn [mbind option_bind]. case_test; by eexists.
Qed.

(** Sending changes neither the setup nor a saved context. *)
Lemma send_same th pl n r th' e :
  sched_signal_send (Some th) pl n = Some (r, Some th', e) -> same_setup th th' /\ same_saved th th'.
Proof.
  unfold sched_signal_send. case_test; [by intros [= <- <- <-]|].
  destruct (signal_get_handler (Some th) n) as [h|]; [|done]. cbn [mbind option_bind].
  case_test; [by intros [= <- <- <-]|].
  assert (Hc : forall (b : bool) t, same_setup t (fst (if b then sched_continue_thread t pl else (t, []))) /\
                    same_saved t (fst (if b then sched_continue_thread t pl else (t, []))))
    by (intros [] t; [apply continue_same|done]).
  destruct (if signal_is_continue n then _ else _) as [th1 e1] eqn:H1.
  destruct (if n =? SIGKILL then _ else _) as [th2 e2] eqn:H2.
  pose proof (Hc (signal_is_continue n) th) as S1. rewrite H1 in S1.
  pose proof (Hc (n =? SIGKILL) th1) as S2. rewrite H2 in S2. cbn [fst] in S1, S2.
  pose proof (same_trans _ _ _ S1 S2) as S12.
  case_test; [by intros [= <- <- <-]|]. case_test.
  - pose proof (stop_same th2 pl n) as S3. destruct (sched_stop_thread th2 pl n) as [th3 e3].
    intros [= <- <- <-]. by apply (same_trans _ th2).
  - pose proof (unblock_same (mark_pending th2 n) pl) as S3.
    destruct (sched_unblock_thread _ pl) as [th3 e3]. intros [= <- <- <-].
    apply (same_trans _ th2); [done|]. apply (same_trans _ (mark_pending th2 n)); [apply mark_same|done].
Qed.

(** Delivery keeps the setup; inside a handler it does nothing. *)
Lemma deliver_same th pl st o th' e :
  sched_signal_deliver is_user setup (Some th) pl st = Some (o, Some th', e) -> same_setup th th'.
Proof.
  unfold sched_signal_deliver. destruct st as [r|]; [|by intros [= <- <- <-]].
  do 3 (case_test; [by intros [= <- <- <-]|]). cbn zeta. case_test; [by intros [= <- <- <-]|].
  destruct (signal_get_handler _ _) as [h|]; [|done]. cbn [mbind option_bind].
  set (n := next_pending (Some th)).
  pose proof (clear_same th n) as Hc. case_test; [intros [= <- <- <-]; apply Hc|].
  case_test.
  { pose proof (stop_same (clear_pending th n) pl n) as S. destruct (sched_stop_thread _ _ _) as [t' e'].
    intros [= <- <- <-]. by apply (same_trans _ _ _ Hc S). }
  case_test.
  { pose proof (continue_same (clear_pending th n) pl) as S. destruct (sched_continue_thread _ _) as [t' e'].
    intros [= <- <- <-]. by apply (same_trans _ _ _ Hc S). }
  case_test; [intros [= <- <- <-]; apply Hc|].
  destruct (setup _ r h n); intros [= <- <- <-]; unfold clear_pending; by case_test.
Qed.

Lemma deliver_in_handler th pl st :
  signal_saved_valid th <> 0 ->
  sched_signal_deliver is_user setup (Some th) pl st = Some (Returned st, Some th, []).
Proof.
  intros Hv. unfold sched_signal_deliver. destruct st; [|done].
  do 2 (case_test; [done|]). by rewrite (proj2 (Z.eqb_neq _ _) Hv).
Qed.

Lemma set_inv th n h t r th' :
  sig_inv th -> sched_signal_set (Some th) n h t = Some (r, Some th') -> sig_inv th' /\ same_saved th th'.
Proof.
  intros Hi. unfold sched_signal_set. case_test; [by intros [= <- <-]|].
  case_test; [by intros [= <- <-]|]. case_test; [by intros [= <- <-]|].
  destruct (mload _ _) as [prev|]; [|done]. cbn [mbind option_bind].
  destruct (mstore _ _ _) as [hs|] eqn:Hs; [|done]. cbn [mbind option_bind].
  unfold mstore in Hs. case_match; [|done]. injection Hs as <-. destruct Hi as [Hl Hz Hk Hst Ht].
  intros Heq. assert (Hx : Exists is_code (<[Z.to_nat n:=h]> (handlers th)) -> is_code h \/ Exists is_code (handlers th)).
  { intros Hx. apply Exists_exists in Hx as (x & Hx & Hc). apply list_elem_of_lookup in Hx as [i Hx].
    apply list_lookup_insert_Some in Hx as [(_ & <- & _)|[_ Hx]]; [by left|].
    right. apply Exists_exists. exists x. split; [|done]. by eapply list_elem_of_lookup_2. }
  assert (Hz' : <[Z.to_nat n:=h]> (handlers th) !! 0%nat = Some SIG_DFL).
  { rewrite list_lookup_insert_ne; [done|]. unfold signal_valid in E. bool_facts. lia. }
  destruct (t =? 0) eqn:Et; injection Heq as <- <-; (split; [constructor|done]); cbn [handlers signal_mask
    signal_trampoline set_handlers set_signal_trampoline]; rewrite ?length_insert; try done.
  - intros Hex. apply Hx in Hex as [[Hd Hg]|]; [|by apply Ht].
    apply Z.eqb_neq in Hd, Hg. rewrite Hd, Hg in E0. done.
  - intros _. by apply Z.eqb_neq.
Qed.

Lemma mask_inv th v r th' : sig_inv th -> procfs_set_sigmask th v = (r, th') -> sig_inv th' /\ same_saved th th'.
Proof.
  intros [Hl Hz Hk Hst Ht]. unfold procfs_set_sigmask. case_test; intros [= <- <-]; [done|].
  split; [|done]. constructor; cbn [handlers signal_mask signal_trampoline set_signal_mask]; try done;
    rewrite Z.land_spec; apply andb_false_intro2; reflexivity.
Qed.

(** Loading a program keeps ignored signals ignored and forgets every other handler. *)
Lemma exec_handler_at (l : list Z) (n : nat) h :
  (0 < n)%nat -> l !! n = Some h ->
  exec_handlers l !! n = Some (if h =? SIG_IGN then SIG_IGN else SIG_DFL).
Proof.
  destruct l as [|h0 l]; [done|]. destruct n as [|n]; [lia|]. intros _ Hn.
  cbn [exec_handlers]. change (map ?f l) with (f <$> l). rewrite lookup_cons in Hn |- *. cbn in Hn |- *.
  rewrite list_lookup_fmap. change (l !! n = Some h) in Hn. rewrite Hn. cbn. destruct (Z.eqb_spec h SIG_IGN); by subst.
Qed.

Lemma exec_inv th : sig_inv th -> sig_inv (sched_signal_exec th).
Proof.
  intros [Hl Hz Hk Hst Ht]. constructor; cbn [handlers signal_mask signal_trampoline sched_signal_exec
    set_signal_saved_valid set_current_signal set_signal_trampoline set_handlers]; try done.
  - rewrite <- Hl. destruct (handlers th); [done|]. cbn. by rewrite length_map.
  - by destruct (handlers th).
  - intros Hx. apply Exists_exists in Hx as (x & Hx & Hd & Hg). apply list_elem_of_lookup in Hx as [[|i] Hx].
    { destruct (handlers th); [done|]. cbn in Hx, Hz. congruence. }
    destruct (handlers th !! S i) as [h|] eqn:Hh.
    + rewrite (exec_handler_at _ _ _ (Nat.lt_0_succ i) Hh) in Hx. destruct (h =? SIG_IGN); congruence.
    + exfalso. apply lookup_ge_None in Hh. apply lookup_lt_Some in Hx.
      destruct (handlers th); [done|]. cbn [exec_handlers length] in *. rewrite length_map in Hx. lia.
Qed.

Lemma init_inv th : length (handlers th) = Z.to_nat NSIG -> sig_inv (sched_signal_init th).
Proof.
  intros Hl. constructor; cbn [handlers signal_mask signal_trampoline sched_signal_init
    set_signal_saved_valid set_current_signal set_signal_trampoline set_handlers set_signal_mask set_signal_pending];
    rewrite ?Hl, ?length_replicate; try done.
  intros Hx. apply Exists_exists in Hx as (x & Hx & Hd & _). by apply elem_of_replicate in Hx as [-> _].
Qed.

Lemma run_step_inv th th' : run_step th th' -> sig_inv th -> sig_inv th'.
Proof.
  intros Hs Hi. inversion Hs; subst.
  - by eapply set_inv.
  - by eapply mask_inv.
  - eapply same_setup_inv; [eapply send_same; eassumption|done].
  - eapply same_setup_inv; [eapply deliver_same; eassumption|done].
Qed.

Lemma run_step_saved th th' : run_step th th' -> sig_inv th -> signal_saved_valid th <> 0 -> same_saved th th'.
Proof.
  intros Hs Hi Hv. inversion Hs; subst.
  - by eapply set_inv.
  - by eapply mask_inv.
  - by eapply send_same.
  - rewrite deliver_in_handler in H0 by done. by injection H0 as <- <- <-.
Qed.

Lemma sig_step_inv th th' : sig_step th th' -> sig_inv th -> sig_inv th'.
Proof.
  intros Hs Hi. inversion Hs; subst.
  - by eapply run_step_inv.
  - destruct st as [st|]; cbn [sched_signal_sigreturn] in H0; [|congruence].
    destruct (signal_saved_valid th =? 0); [congruence|]. injection H0 as _ <- _. by apply (same_setup_inv th).
  - by apply exec_inv.
  - apply init_inv, Hi.
  - by destruct Hi.
Qed.

Lemma run_steps_saved th th' :
  rtc run_step th th' -> sig_inv th -> signal_saved_valid th <> 0 -> sig_inv th' /\ same_saved th th'.
Proof.
  induction 1 as [th|th th1 th' Hs Hr IH]; intros Hi Hv; [done|].
  pose proof (run_step_saved _ _ Hs Hi Hv) as [Hv1 Hs1].
  destruct IH as [Hi' [Hv2 Hs2]]; [by eapply run_step_inv|congruence|].
  split; [done|]. split; congruence.
Qed.

Lemma sig_steps_inv th th' : rtc sig_step th th' -> sig_inv th -> sig_inv th'.
Proof. induction 1; [done|]. intros Hi. by eapply IHrtc, sig_step_inv. Qed.

Lemma kill_handler th : signal_get_handler (Some th) SIGKILL = Some SIG_DFL.
Proof. reflexivity. Qed.

Lemma continue_not_stopped th pl :
  is_idle pl = false -> sstate (fst (sched_continue_thread th pl)) <> THREAD_STOPPED.
Proof.
  intros Hi. unfold sched_continue_thread. rewrite Hi. cbn iota.
  case_test; [by apply bool_decide_eq_false in E|]. by case_test.
Qed.

Lemma unblock_pending th pl : signal_pending (fst (sched_unblock_thread th pl)) = signal_pending th.
Proof. unfold sched_unblock_thread. cbn zeta. by repeat case_test. Qed.

Lemma unblock_not_stopped th pl :
  sstate th <> THREAD_STOPPED -> sstate (fst (sched_unblock_thread th pl)) <> THREAD_STOPPED.
Proof. intros Hs. unfold sched_unblock_thread. cbn zeta. by repeat case_test. Qed.

(** Sending [SIGKILL] continues a stopped thread and leaves the signal deliverable. *)
Lemma send_kill th pl :
  sig_inv th -> is_idle pl = false ->
  exists th' e, sched_signal_send (Some th) pl SIGKILL = Some (1, Some th', e) /\
    sstate th' <> THREAD_STOPPED /\ deliverable th' SIGKILL = true.
Proof.
  intros Hi Hp. unfold sched_signal_send. rewrite kill_handler. cbn.
  pose proof (continue_not_stopped th pl Hp) as Hc. pose proof (continue_same th pl) as [(_ & Hm & _) _].
  destruct (sched_continue_thread th pl) as [th1 e1]. cbn [fst] in Hc, Hm.
  assert (Hc' : sstate (mark_pending th1 SIGKILL) <> THREAD_STOPPED) by done.
  pose proof (unblock_not_stopped _ pl Hc') as Hu. pose proof (unblock_pending (mark_pending th1 SIGKILL) pl) as Hq.
  pose proof (unblock_same (mark_pending th1 SIGKILL) pl) as [(_ & Hm' & _) _].
  destruct (sched_unblock_thread _ pl) as [th3 e3]. cbn [fst] in *.
  exists th3, (e1 ++ e3). split_and!; [done|done|]. unfold deliverable. rewrite Hq, Hm'.
  rewrite mark_test by (done || (unfold SIGKILL; lia)). rewrite bool_decide_true by done.
  change (signal_mask (mark_pending th1 SIGKILL)) with (signal_mask th1). by rewrite Hm, (inv_kill _ Hi).
Qed.

Lemma next_pending_is th n :
  1 <= n < NSIG -> deliverable th n = true -> (forall k, 1 <= k < n -> deliverable th k = false) ->
  next_pending (Some th) = n.
Proof.
  intros Hn Hd Hlow. destruct (next_pending_spec th) as [[_ Hno]|(Hr & Hb & Hl)]; [by rewrite Hno in Hd|].
  destruct (Z.lt_trichotomy (next_pending (Some th)) n) as [Hlt|[?|Hgt]]; [|done|].
  - rewrite Hlow in Hb; [done|lia].
  - rewrite Hl in Hd; [done|lia].
Qed.

Lemma get_code_handler th n h :
  1 <= n < NSIG -> n <> SIGKILL -> n <> SIGSTOP -> handlers th !! Z.to_nat n = Some h -> is_code h ->
  signal_get_handler (Some th) n = Some h.
Proof.
  intros Hn Hk Hs Hh [Hd _]. unfold signal_get_handler, signal_valid.
  rewrite (proj2 (Z.eqb_neq _ _) Hk), (proj2 (Z.eqb_neq _ _) Hs).
  test_lia. rewrite mload_ok by (apply lookup_lt_Some in Hh; unfold zlen; lia).
  rewrite Hh. cbn [mbind option_bind]. by rewrite (proj2 (Z.eqb_neq _ _) Hd).
Qed.

(** C7: no process can protect itself from [SIGKILL] or [SIGSTOP].  After any history of a thread
    (handlers set, masks written, signals sent and delivered, handlers left, programs loaded, forks)
    its mask blocks neither signal, a handler for either is refused without effect, and a handler that
    is user code has a trampoline to return through.  Sending [SIGKILL] answers 1, continues the thread
    if it was stopped and leaves the signal pending and deliverable.  The thread's next return to user
    mode outside a handler, with no lower-numbered signal due, ends it with exit signal 9. *)
Theorem kill_cannot_be_escaped th0 th :
  length (handlers th0) = Z.to_nat NSIG -> rtc sig_step (sched_signal_init th0) th ->
  sig_inv th /\
  (forall n h t, n = SIGKILL \/ n = SIGSTOP -> sched_signal_set (Some th) n h t = Some (SIG_ERR, Some th)) /\
  (forall pl, is_idle pl = false ->
     exists th' e, sched_signal_send (Some th) pl SIGKILL = Some (1, Some th', e) /\
       sstate th' <> THREAD_STOPPED /\ deliverable th' SIGKILL = true) /\
  (forall pl r, user_thread th = true -> is_user r = true -> signal_saved_valid th = 0 ->
     deliverable th SIGKILL = true -> (forall k, 1 <= k < SIGKILL -> deliverable th k = false) ->
     exists th', sched_signal_deliver is_user setup (Some th) pl (Some r) = Some (Exited, Some th', []) /\
       exit_signal th' = SIGKILL /\ exit_code th' = 0 /\ deliverable th' SIGKILL = false).
Proof.
  intros Hl Hr. assert (Hi : sig_inv th) by (eapply sig_steps_inv; [done|by apply init_inv]).
  split; [done|]. split; [by intros n h t [-> | ->]|]. split; [intros; by apply send_kill|].
  intros pl r Hu Hr' Hv Hd Hlow. unfold sched_signal_deliver. rewrite Hu, Hr', Hv.
  rewrite (next_pending_is _ SIGKILL) by (done || (unfold SIGKILL, NSIG; lia)).
  rewrite kill_handler. cbn [negb Z.eqb SIGKILL mbind option_bind]. eexists. split; [reflexivity|].
  split_and!; [done|done|]. unfold deliverable.
  change (signal_pending (exit_with ?t _)) with (signal_pending t).
  rewrite clear_test by (done || (unfold SIGKILL; lia)). done.
Qed.

(** C34: handlers nest nowhere and give back what they interrupted.  When the lowest deliverable
    signal has user code as its handler, delivery enters that handler in the context the architecture
    set up, with just that signal no longer pending; whatever happens meanwhile (more signals sent or
    offered for delivery, handlers and masks changed) no second handler is entered, and [sigreturn]
    gives back exactly the interrupted context and permits delivery again.  Loading a program keeps
    ignored signals ignored and returns every other signal to its default. *)
Theorem handler_roundtrip th pl r r' n h :
  sig_inv th -> user_thread th = true -> is_user r = true -> signal_saved_valid th = 0 ->
  1 <= n < NSIG -> deliverable th n = true -> (forall k, 1 <= k < n -> deliverable th k = false) ->
  n <> SIGKILL -> n <> SIGSTOP -> handlers th !! Z.to_nat n = Some h -> is_code h ->
  setup (set_signal_saved_valid 1 (set_current_signal n (set_signal_saved_state r th))) r h n = Some r' ->
  exists th1, sched_signal_deliver is_user setup (Some th) pl (Some r) = Some (Returned (Some r'), Some th1, []) /\
    current_signal th1 = n /\
    (forall k, 1 <= k < NSIG -> deliverable th1 k = (negb (bool_decide (k = n)) && deliverable th k)) /\
    (forall th2, rtc run_step th1 th2 ->
       (forall pl' st, sched_signal_deliver is_user setup (Some th2) pl' st = Some (Returned st, Some th2, [])) /\
       exists th3, (forall r2, sched_signal_sigreturn (Some th2) (Some r2) = (true, Some th3, Some r)) /\
         signal_saved_valid th3 = 0 /\ current_signal th3 = 0 /\
         (forall k, deliverable th3 k = deliverable th2 k) /\
         forall k hk, (0 < k)%nat -> handlers th3 !! k = Some hk ->
           handlers (sched_signal_exec th3) !! k = Some (if hk =? SIG_IGN then SIG_IGN else SIG_DFL)).
Proof.
  intros Hi Hu Hr Hv Hn Hd Hlow Hk Hs Hh Hc Hset. unfold sched_signal_deliver at 1. rewrite Hu, Hr, Hv.
  cbn [negb Z.eqb]. rewrite (next_pending_is _ n) by done.
  rewrite (get_code_handler _ n h) by done. cbn [mbind option_bind].
  pose proof Hc as [Hnd Hni]. apply Z.eqb_neq in Hnd, Hni. rewrite Hnd, Hni.
  assert (Ht : signal_trampoline th <> 0).
  { apply (inv_trampoline _ Hi), Exists_exists. exists h. split; [by eapply list_elem_of_lookup_2|done]. }
  rewrite (proj2 (Z.eqb_neq _ _) Ht), (proj2 (Z.eqb_neq n 0)) by lia. cbn [andb orb]. rewrite Hset.
  set (tc := set_signal_saved_valid 1 _). set (th1 := clear_pending tc n). exists th1.
  assert (Hnv : signal_valid n = true) by (unfold signal_valid; by test_lia).
  destruct (clear_same tc n) as [Hsu [Hsv Hss]].
  split; [done|]. split; [unfold th1, clear_pending; by rewrite Hnv|]. split.
  { intros k Hkr. unfold deliverable, th1. destruct Hsu as (_ & -> & _).
    rewrite clear_test by (done || (unfold NSIG in *; lia)). by rewrite <- andb_assoc. }
  intros th2 Hrun. destruct (run_steps_saved th1 th2 Hrun) as [_ [Hv2 Hs2]].
  { by apply (same_setup_inv tc), (same_setup_inv th). }
  { unfold th1. by rewrite Hsv. }
  assert (Hv2' : signal_saved_valid th2 <> 0) by (rewrite Hv2; unfold th1; by rewrite Hsv).
  split; [intros; by apply deliver_in_handler|].
  exists (set_current_signal 0 (set_signal_saved_valid 0 th2)). split_and!; try done.
  - intros r2. cbn [sched_signal_sigreturn]. rewrite (proj2 (Z.eqb_neq _ _) Hv2'). rewrite Hs2. unfold th1. by rewrite Hss.
  - intros k hk Hk0 Hhk. by apply exec_handler_at.
Qed.

End Proofs.

(** ** Witnesses *)

#[local] Existing Instance arch64.

Definition here : place := mk_place false false false false false 0 true.
Definition fresh_thread : sig_thread Z :=
  mk_sig THREAD_READY true (replicate 32 7) 0 0 0 0 0 0 0 false 0 0 0 0 0 0.
Definition frame (_ : sig_thread Z) (r h _ : Z) : option Z := Some (r + h).

(** A thread with a handler for signal 10, that was then sent [n]. *)
Definition armed : sig_thread Z :=
  match sched_signal_set (Some (sched_signal_init fresh_thread)) 10 4096 64 with
  | Some (_, Some t) => t
  | _ => fresh_thread
  end.
Definition sent (n : Z) : sig_thread Z :=
  match sched_signal_send (Some armed) here n with Some (_, Some t, _) => t | _ => armed end.

Lemma sent_reachable n :
  n = SIGKILL \/ n = 10 -> rtc (sig_step (fun _ => true) frame) (sched_signal_init fresh_thread) (sent n).
Proof.
  intros Hn. apply rtc_l with armed.
  { apply life_run, (step_set _ _ _ _ 10 4096 64 0). vm_compute. reflexivity. }
  apply rtc_once, life_run. destruct (sched_signal_send (Some armed) here n) as [[[r t] e]|] eqn:Hs.
  - apply (step_send _ _ _ _ here n r e). rewrite Hs. unfold sent. rewrite Hs.
    destruct t; [done|]. by destruct Hn as [-> | ->].
  - by destruct Hn as [-> | ->].
Qed.

Lemma kill_cannot_be_escaped_witness :
  rtc (sig_step (fun _ => true) frame) (sched_signal_init fresh_thread) (sent SIGKILL) /\
  exists t', sched_signal_deliver (fun _ => true) frame (Some (sent SIGKILL)) here (Some 100) = Some (Exited, Some t', []) /\
    exit_signal t' = SIGKILL.
Proof.
  pose proof (sent_reachable SIGKILL (or_introl eq_refl)) as Hr.
  split; [exact Hr|].
  destruct (kill_cannot_be_escaped (fun _ => true) frame fresh_thread (sent SIGKILL) eq_refl Hr) as (_ & _ & _ & Hd).
  destruct (Hd here 100) as (t' & He & Hs & _ & _); [reflexivity..| |].
  { intros k Hk. unfold SIGKILL in Hk.
    assert (k = 1 \/ k = 2 \/ k = 3 \/ k = 4 \/ k = 5 \/ k = 6 \/ k = 7 \/ k = 8) as Hc by lia.
    repeat destruct Hc as [->|Hc]; [vm_compute; reflexivity..|subst; vm_compute; reflexivity]. }
  exists t'. split; [exact He|exact Hs].
Defined.

Lemma handler_roundtrip_witness :
  exists th1, sched_signal_deliver (fun _ => true) frame (Some (sent 10)) here (Some 100) = Some (Returned (Some 4196), Some th1, []) /\
    exists th3, sched_signal_sigreturn (Some th1) (Some 5000) = (true, Some th3, Some 100).
Proof.
  destruct (handler_roundtrip (fun _ => true) frame (sent 10) here 100 4196 10 4096) as (th1 & Hd & _ & _ & Hret);
    [|reflexivity..|unfold NSIG; lia|reflexivity| |unfold SIGKILL; lia|unfold SIGSTOP; lia|reflexivity|unfold is_code, SIG_DFL, SIG_IGN; lia|reflexivity|].
  - apply (sig_steps_inv (fun _ => true) frame (sched_signal_init fresh_thread)); [apply sent_reachable; by right|apply init_inv; reflexivity].
  - intros k Hk.
    assert (k = 1 \/ k = 2 \/ k = 3 \/ k = 4 \/ k = 5 \/ k = 6 \/ k = 7 \/ k = 8 \/ k = 9) as Hc by lia.
    repeat destruct Hc as [->|Hc]; [vm_compute; reflexivity..|subst; vm_compute; reflexivity].
  - exists th1. split; [exact Hd|]. destruct (Hret th1 (rtc_refl _ _)) as (_ & th3 & Hs & _).
    exists th3. apply Hs.
Defined.

(** A stopped thread that ignores [SIGCONT] stays stopped when it is sent one. *)
Definition stopped_ignoring : sig_thread Z :=
  set_sstate THREAD_STOPPED (set_handlers (<[18%nat := SIG_IGN]> (replicate 32 SIG_DFL)) fresh_thread).

Example sigcont_ignored_stays_stopped :
  sched_signal_send (Some stopped_ignoring) here SIGCONT = Some (0, Some stopped_ignoring, []) /\
  sstate stopped_ignoring = THREAD_STOPPED.
Proof. split; reflexivity. Qed.

End Signal.
