(* ===== verification/WaitQueue.v ===== *)
(** * Wait queues, sleeping and waking

    [kernel/sched/waitq.c] and [wait.c].  A wait queue is a list of the threads blocked on it, linked
    through the [wait_node] each thread has, and a count of them; [wake_seq] counts its wake-ups, so
    that a thread that looked before it decided to wait notices one that came in between.  A thread may
    wait with a deadline, and is then in the sleep queue too.

    The [wait_node] of a thread is the list node of the thread's own address.  Each definition that
    takes the scheduler lock is one critical section, run with interrupts off ([locked]). *)

From S2P Require Import Prelude Memory Outcome Errno BinHeap IntrusiveHeap Sched RunQueue SchedState Dispatch LinkedList.
From stdpp Require Import gmap functions list.
Import RunQueue SchedState.SleepHeap Dispatch LinkedList.
Open Scope Z_scope.

Module WaitQueue.

Definition SCHED_WAIT_WOKEN : Z := 0.
Definition SCHED_WAIT_TIMEOUT : Z := 1.
Definition SCHED_WAIT_INTR : Z := 2.
Definition SCHED_WAIT_ABORTED : Z := 3.
Definition SCHED_WAIT_INTERRUPTIBLE : Z := 1.
Definition NSIG : Z := 32.
Definition SIGCHLD : Z := 17.

Record sched_wait_queue_t := mk_queue {
  wlist : ptr Z;
  wake_seq : Z;
  waiter_count : Z;
  poll_link : bool
}.

Definition set_wlist (v : ptr Z) (wq : sched_wait_queue_t) : sched_wait_queue_t :=
  mk_queue v (wake_seq wq) (waiter_count wq) (poll_link wq).
Definition set_wake_seq (v : Z) (wq : sched_wait_queue_t) : sched_wait_queue_t :=
  mk_queue (wlist wq) v (waiter_count wq) (poll_link wq).
Definition set_waiter_count (v : Z) (wq : sched_wait_queue_t) : sched_wait_queue_t :=
  mk_queue (wlist wq) (wake_seq wq) v (poll_link wq).
Definition set_poll_link (v : bool) (wq : sched_wait_queue_t) : sched_wait_queue_t :=
  mk_queue (wlist wq) (wake_seq wq) (waiter_count wq) v.

Record wait_thread_t := mk_waiter {
  blocked_on : ptr Z;
  wait_deadline_tick : Z;
  wait_flags : Z;
  wait_result : Z;
  wait_cookie : Z;
  signal_pending : Z;
  signal_mask : Z;
  stop_signal : Z;
  stop_reported : bool
}.

Definition set_blocked_on (v : ptr Z) (th : wait_thread_t) : wait_thread_t :=
  mk_waiter v (wait_deadline_tick th) (wait_flags th) (wait_result th) (wait_cookie th)
    (signal_pending th) (signal_mask th) (stop_signal th) (stop_reported th).
Definition set_wait_deadline_tick (v : Z) (th : wait_thread_t) : wait_thread_t :=
  mk_waiter (blocked_on th) v (wait_flags th) (wait_result th) (wait_cookie th)
    (signal_pending th) (signal_mask th) (stop_signal th) (stop_reported th).
Definition set_wait_flags (v : Z) (th : wait_thread_t) : wait_thread_t :=
  mk_waiter (blocked_on th) (wait_deadline_tick th) v (wait_result th) (wait_cookie th)
    (signal_pending th) (signal_mask th) (stop_signal th) (stop_reported th).
Definition set_wait_result (v : Z) (th : wait_thread_t) : wait_thread_t :=
  mk_waiter (blocked_on th) (wait_deadline_tick th) (wait_flags th) v (wait_cookie th)
    (signal_pending th) (signal_mask th) (stop_signal th) (stop_reported th).
Definition set_wait_cookie (v : Z) (th : wait_thread_t) : wait_thread_t :=
  mk_waiter (blocked_on th) (wait_deadline_tick th) (wait_flags th) (wait_result th) v
    (signal_pending th) (signal_mask th) (stop_signal th) (stop_reported th).
Definition set_signal_pending (v : Z) (th : wait_thread_t) : wait_thread_t :=
  mk_waiter (blocked_on th) (wait_deadline_tick th) (wait_flags th) (wait_result th)
    (wait_cookie th) v (signal_mask th) (stop_signal th) (stop_reported th).
Definition set_stop_signal (v : Z) (th : wait_thread_t) : wait_thread_t :=
  mk_waiter (blocked_on th) (wait_deadline_tick th) (wait_flags th) (wait_result th)
    (wait_cookie th) (signal_pending th) (signal_mask th) v (stop_reported th).
Definition set_stop_reported (v : bool) (th : wait_thread_t) : wait_thread_t :=
  mk_waiter (blocked_on th) (wait_deadline_tick th) (wait_flags th) (wait_result th)
    (wait_cookie th) (signal_pending th) (signal_mask th) (stop_signal th) v.

Record wait_state_t := mk_wait {
  sched : sched_state_t;
  waiters : tid -> wait_thread_t;
  sleep : sched_sleep_t;
  wheap : LinkedList.heap;
  queues : gmap Z sched_wait_queue_t;
  poll_wait_queue : Z;
  wait_timeout_count : Z
}.

Definition set_sched (v : sched_state_t) (W : wait_state_t) : wait_state_t :=
  mk_wait v (waiters W) (sleep W) (wheap W) (queues W) (poll_wait_queue W) (wait_timeout_count W).
Definition set_waiters (v : tid -> wait_thread_t) (W : wait_state_t) : wait_state_t :=
  mk_wait (sched W) v (sleep W) (wheap W) (queues W) (poll_wait_queue W) (wait_timeout_count W).
Definition set_sleep (v : sched_sleep_t) (W : wait_state_t) : wait_state_t :=
  mk_wait (sched W) (waiters W) v (wheap W) (queues W) (poll_wait_queue W) (wait_timeout_count W).
Definition set_wheap (v : LinkedList.heap) (W : wait_state_t) : wait_state_t :=
  mk_wait (sched W) (waiters W) (sleep W) v (queues W) (poll_wait_queue W) (wait_timeout_count W).
Definition set_queues (v : gmap Z sched_wait_queue_t) (W : wait_state_t) : wait_state_t :=
  mk_wait (sched W) (waiters W) (sleep W) (wheap W) v (poll_wait_queue W) (wait_timeout_count W).
Definition set_wait_timeout_count (v : Z) (W : wait_state_t) : wait_state_t :=
  mk_wait (sched W) (waiters W) (sleep W) (wheap W) (queues W) (poll_wait_queue W) v.

Section Defs.
Context `{Arch}.
Implicit Types (W : wait_state_t) (t self : tid) (q : Z) (e : env).

(** With the scheduler lock held, interrupts are off. *)
Definition locked e : env := mk_env (me e) false (ipi_ok e).

(** [thread->field = v], [queue->field = v], and a step of the scheduler. *)
Definition upd t (f : sched_thread_t -> sched_thread_t) W : wait_state_t := set_sched (upd_thread t f (sched W)) W.
Definition updw t (f : wait_thread_t -> wait_thread_t) W : wait_state_t :=
  set_waiters (<[t := f (waiters W t)]> (waiters W)) W.
Definition updq q (f : sched_wait_queue_t -> sched_wait_queue_t) W : option wait_state_t :=
  wq ← queues W !! q; Some (set_queues (<[q := f wq]> (queues W)) W).
Definition runs W (m : sched_state_t -> option sched_state_t) : option wait_state_t :=
  st ← m (sched W); Some (set_sched st W).
Definition thread W t : sched_thread_t := threads (sched W) t.

Definition sleep_remove t W : option wait_state_t :=
  '(ts, sl) ← sleep_heap_remove (threads (sched W)) (sleep W) (Some t);
  Some (set_sleep sl (set_sched (set_threads ts (sched W)) W)).
Definition sleep_remove_at (i : Z) W : option wait_state_t :=
  '(ts, sl) ← sleep_heap_remove_at (threads (sched W)) (sleep W) i;
  Some (set_sleep sl (set_sched (set_threads ts (sched W)) W)).
Definition sleep_insert t W : option (bool * wait_state_t) :=
  '(ok, ts, sl) ← sleep_heap_insert (threads (sched W)) (sleep W) (Some t);
  Some (ok, set_sleep sl (set_sched (set_threads ts (sched W)) W)).

Definition sched_signal_pending W t : bool :=
  negb (Z.land (signal_pending (waiters W t)) (u32_wrap (Z.lnot (signal_mask (waiters W t)))) =? 0).

(** [if (x) x--] on [waiter_count] and on the length of a list. *)
Definition less_one (n : Z) : Z := if n =? 0 then n else n - 1.
Definition less_waiter (wq : sched_wait_queue_t) : sched_wait_queue_t := set_waiter_count (less_one (waiter_count wq)) wq.

(** ** Leaving a queue: [wait.c] *)

(** Taking node [n] out of list [l], between the neighbours it names. *)
Definition wq_cut (h : LinkedList.heap) (l n : Z) : option LinkedList.heap :=
  nd ← nodes h !! n;
  let prev := nprev nd in
  let next := nnext nd in
  h ← match prev with Some p => put_node h p (set_next next) | None => put_list h l (set_head next) end;
  h ← match next with Some x => put_node h x (set_prev prev) | None => put_list h l (set_tail prev) end;
  h ← put_list h l (fun ls => set_length (less_one (llength ls)) ls);
  h ← put_node h n (set_next None);
  h ← put_node h n (set_prev None);
  put_node h n (set_owner None).

(** The scan for a node of the thread, when its own is in another list. *)
Fixpoint wq_scan (fuel : nat) (h : LinkedList.heap) (t : tid) (it : ptr Z) : option (ptr Z) :=
  match it with
  | None => Some None
  | Some n =>
      match fuel with
      | O => None
      | S fuel =>
          nd ← nodes h !! n;
          if negb (n =? t) && negb (data nd =? t) then wq_scan fuel h t (nnext nd) else Some (Some n)
      end
  end.

Definition wq_unlink q t W : option (bool * wait_state_t) :=
  wq ← queues W !! q;
  match wlist wq with
  | None => Some (false, W)
  | Some l =>
      target ← nodes (wheap W) !! t;
      found ← (if bool_decide (owner target = Some l) then Some (Some t)
               else ls ← lists (wheap W) !! l; wq_scan (S (size (nodes (wheap W)))) (wheap W) t (lhead ls));
      match found with
      | None => Some (false, W)
      | Some n =>
          h ← wq_cut (wheap W) l n;
          W ← updq q less_waiter (set_wheap h W);
          Some (true, W)
      end
  end.

(** [thread->wait_node.next = prev = owner = NULL; in_wait_queue = false; blocked_on = NULL] *)
Definition wait_node_clear t W : option wait_state_t :=
  h ← put_node (wheap W) t (set_next None);
  h ← put_node h t (set_prev None);
  h ← put_node h t (set_owner None);
  Some (updw t (set_blocked_on None) (upd t (set_in_wait_queue false) (set_wheap h W))).

Definition wq_dequeue t W : option wait_state_t :=
  match blocked_on (waiters W t) with
  | None => Some W
  | Some q =>
      if negb (in_wait_queue (thread W t)) then Some W
      else
        wq ← queues W !! q;
        if bool_decide (wlist wq = None) then Some (updw t (set_blocked_on None) (upd t (set_in_wait_queue false) W))
        else
          '(_, W) ← wq_unlink q t W;
          wait_node_clear t W
  end.

(** ** Waking: [waitq.c] *)

Definition wake_waiter e t W : option wait_state_t :=
  W ← sleep_remove t W;
  let W := upd t (set_wake_tick 0) W in
  let W := updw t (set_wait_deadline_tick 0) W in
  let W := updw t (set_wait_result SCHED_WAIT_WOKEN) W in
  handoff ← thread_in_handoff (sched W) (Some t);
  if (handoff : bool) then
    if is_state (thread W t) THREAD_ZOMBIE || is_state (thread W t) THREAD_STOPPED then Some W
    else runs (upd t (set_state THREAD_READY) W) (sched_nudge_thread e t)
  else
    on_cpu ← thread_on_local_cpu (sched W) (Some t);
    if (on_cpu : bool) then runs W (sched_nudge_thread e t)
    else if is_state (thread W t) THREAD_RUNNING then
      runs W (fun st => '(_, st) ← sched_repair_thread e t true st; Some st)
    else if negb (is_state (thread W t) THREAD_SLEEPING) && negb (is_state (thread W t) THREAD_READY) then Some W
    else runs W (fun st => enqueue_thread e t (thread_set_state t THREAD_READY (thread_unclaim t st))).

(** The first node of the queue, taken off its list. *)
Definition pop_cut (h : LinkedList.heap) (l n : Z) : option LinkedList.heap :=
  nd ← nodes h !! n;
  let next := nnext nd in
  h ← match next with Some x => put_node h x (set_prev None) | None => put_list h l (set_tail None) end;
  h ← put_list h l (set_head next);
  h ← put_node h n (set_next None);
  h ← put_node h n (set_prev None);
  h ← put_node h n (set_owner None);
  put_list h l (fun ls => set_length (less_one (llength ls)) ls).

Definition pop_node q W : option (ptr Z * wait_state_t) :=
  wq ← queues W !! q;
  l ← wlist wq;
  ls ← lists (wheap W) !! l;
  match lhead ls with
  | None => Some (None, W)
  | Some n =>
      h ← pop_cut (wheap W) l n;
      W ← updq q less_waiter (set_wheap h W);
      Some (Some n, W)
  end.

(** [for (;;)]: each round takes a node off the list, so the nodes there are bound the rounds. *)
Fixpoint pop_loop (fuel : nat) q W : option (ptr tid * wait_state_t) :=
  match fuel with
  | O => None
  | S fuel =>
      '(node, W) ← pop_node q W;
      match node with
      | None => Some (None, W)
      | Some n =>
          nd ← nodes (wheap W) !! n;
          let t := data nd in
          if t =? 0 then pop_loop fuel q W
          else if negb (in_wait_queue (thread W t)) || negb (bool_decide (blocked_on (waiters W t) = Some q)) then pop_loop fuel q W
          else Some (Some t, updw t (set_blocked_on None) (upd t (set_in_wait_queue false) W))
      end
  end.

Definition wait_queue_pop q W : option (ptr tid * wait_state_t) :=
  wq ← queues W !! q;
  if bool_decide (wlist wq = None) then Some (None, W) else pop_loop (S (size (nodes (wheap W)))) q W.

Definition wake_queue_one e q W : option wait_state_t :=
  '(thread, W) ← wait_queue_pop q W;
  match thread with None => Some W | Some t => wake_waiter e t W end.

Fixpoint wake_all_loop (fuel : nat) e q W : option wait_state_t :=
  match fuel with
  | O => None
  | S fuel =>
      '(thread, W) ← wait_queue_pop q W;
      match thread with None => Some W | Some t => W ← wake_waiter e t W; wake_all_loop fuel e q W end
  end.
Definition wake_queue_all e q W : option wait_state_t := wake_all_loop (S (size (nodes (wheap W)))) e q W.

Definition waitq_has_waiters q W : option bool :=
  wq ← queues W !! q;
  Some (if bool_decide (wlist wq = None) then false else negb (waiter_count wq =? 0)).

Definition poll_wait_linked q W : option bool :=
  if q =? poll_wait_queue W then Some false
  else
    wq ← queues W !! q;
    if negb (poll_link wq) then Some false
    else pq ← queues W !! poll_wait_queue W; Some (bool_decide (wlist pq <> None)).

(** [__atomic_add_fetch(&queue->wake_seq, 1)] *)
Definition bump_seq q W : option wait_state_t := updq q (fun wq => set_wake_seq (u32_wrap (wake_seq wq + 1)) wq) W.

(** The wake-up is counted before the waiters are: on the queue and on the pollers'. *)
Definition wake_count q W : option (bool * bool * wait_state_t) :=
  W ← bump_seq q W;
  wake_queue ← waitq_has_waiters q W;
  linked ← poll_wait_linked q W;
  if (linked : bool) then
    W ← bump_seq (poll_wait_queue W) W;
    wake_pollers ← waitq_has_waiters (poll_wait_queue W) W;
    Some (wake_queue, wake_pollers, W)
  else Some (wake_queue, false, W).

Definition wake_pollers_all e (wake_pollers : bool) W : option wait_state_t :=
  if wake_pollers then wake_queue_all e (poll_wait_queue W) W else Some W.

Definition sched_wake_one_locked e q W : option wait_state_t :=
  wq ← queues W !! q;
  if bool_decide (wlist wq = None) then Some W
  else
    '(wake_queue, wake_pollers, W) ← wake_count q W;
    if negb wake_queue && negb wake_pollers then Some W
    else
      W ← (if wake_queue then wake_queue_one e q W else Some W);
      wake_pollers_all e wake_pollers W.

Definition sched_wake_one e q W : option wait_state_t :=
  wq ← queues W !! q;
  if bool_decide (wlist wq = None) then Some W else sched_wake_one_locked (locked e) q W.

(** [sched_wake_all] counts before it takes the lock; [wake_all_locked] is what it does then. *)
Definition wake_all_locked e q (wake_queue wake_pollers : bool) W : option wait_state_t :=
  W ← (if wake_queue then wake_queue_all (locked e) q W else Some W);
  wake_pollers_all (locked e) wake_pollers W.

Definition sched_wake_all e q W : option wait_state_t :=
  wq ← queues W !! q;
  if bool_decide (wlist wq = None) then Some W
  else
    '(wake_queue, wake_pollers, W) ← wake_count q W;
    if negb wake_queue && negb wake_pollers then Some W else wake_all_locked e q wake_queue wake_pollers W.

(** ** Waiting: [waitq.c] *)

(** [queue->list] where [list_create] answered [fresh], if a list was needed. *)
Definition sched_waitq_init (fresh : ptr Z) q W : option wait_state_t :=
  W ← updq q (fun wq => set_poll_link false (set_waiter_count 0 (set_wake_seq 0 wq))) W;
  wq ← queues W !! q;
  match wlist wq with
  | Some _ => Some W
  | None => let '(l, h) := list_create (wheap W) fresh in updq q (set_wlist l) (set_wheap h W)
  end.

Definition sched_waitq_set_poll q (enabled : bool) W : option wait_state_t := updq q (set_poll_link enabled) W.

(** [waitq_free_list] *)
Definition waitq_free_list (l : Z) W : wait_state_t :=
  set_wheap (mk_heap (nodes (wheap W)) (delete l (lists (wheap W)))) W.

Definition sched_waitq_destroy e q W : option wait_state_t :=
  wq ← queues W !! q;
  W ← match wlist wq with
      | None => Some W
      | Some l =>
          W ← bump_seq q W;
          W ← wake_queue_all (locked e) q W;
          updq q (set_wlist None) (waitq_free_list l W)
      end;
  updq q (fun wq => set_poll_link false (set_wake_seq 0 (set_waiter_count 0 wq))) W.

Definition sched_wait_seq q W : option Z :=
  wq ← queues W !! q; Some (if bool_decide (wlist wq = None) then 0 else wake_seq wq).

Definition wait_can_block e (spin_held : bool) st : option bool :=
  k ← local e st;
  Some ((preempt_depth k =? 0) && negb spin_held && (sched_lock_depth k =? 0)).

Definition wait_restore_running t W : option wait_state_t :=
  W ← wait_node_clear t W;
  let W := updw t (fun th => set_wait_deadline_tick 0 (set_wait_flags 0 th)) W in
  Some (upd t (set_state THREAD_RUNNING) (upd t (set_wake_tick 0) W)).

(** [if (list_remove(queue->list, &thread->wait_node) && queue->waiter_count) queue->waiter_count--] *)
Definition drop_waiter q t W : option wait_state_t :=
  wq ← queues W !! q;
  '(removed, h) ← list_remove (wheap W) (wlist wq) (Some t);
  if (removed : bool) then updq q less_waiter (set_wheap h W) else Some (set_wheap h W).

Definition wait_append_locked q t W : option (bool * wait_state_t) :=
  wq ← queues W !! q;
  '(appended, h) ← list_append (wheap W) (wlist wq) (Some t);
  '(appended, W) ← (if (appended : bool) then Some (true, set_wheap h W)
                    else
                      W ← drop_waiter q t (set_wheap h W);
                      '(appended, h) ← list_append (wheap W) (wlist wq) (Some t);
                      Some (appended, set_wheap h W));
  if negb appended then W ← wait_restore_running t W; Some (false, W)
  else
    W ← updq q (fun wq => set_waiter_count (u32_wrap (waiter_count wq + 1)) wq) W;
    Some (true, updw t (set_blocked_on (Some q)) (upd t (set_in_wait_queue true) W)).

Definition wait_arm_deadline_locked q t (deadline_tick : Z) W : option (bool * wait_state_t) :=
  if deadline_tick =? 0 then Some (true, W)
  else
    '(ok, W) ← sleep_insert t (upd t (set_wake_tick deadline_tick) W);
    if (ok : bool) then Some (true, W)
    else
      W ← drop_waiter q t W;
      W ← wait_restore_running t W;
      Some (false, W).

Definition wait_attach_locked q t (deadline_tick flags : Z) W : option (bool * wait_state_t) :=
  let cookie := u8_wrap (wait_cookie (waiters W t) + 1) in
  let cookie := if cookie =? 0 then 1 else cookie in
  let W := updw t (fun th => set_wait_result SCHED_WAIT_ABORTED (set_wait_deadline_tick deadline_tick
                               (set_wait_flags flags (set_wait_cookie cookie th)))) W in
  h ← put_node (wheap W) t (fun nd => mk_node t (nnext nd) (nprev nd) (owner nd));
  let W := upd t (set_state THREAD_SLEEPING) (set_wheap h W) in
  '(ok, W) ← wait_append_locked q t W;
  if negb ok then Some (false, W) else wait_arm_deadline_locked q t deadline_tick W.

(** [force_resched] of [tick.c] *)
Definition force_resched e st : option sched_state_t :=
  if negb (running st) then Some st
  else
    st ← upd_cpu (me e) (fun k => set_need_resched true (set_force_resched true k)) st;
    k ← local e st;
    if negb (preempt_depth k =? 0) || negb (sched_lock_depth k =? 0) || negb (irqs_on e) then Some st
    else if resched_irq k then Some st
    else upd_cpu (me e) (set_resched_irq true) st.

(** How far [sched_wait_on] got: an answer at once, or the thread sleeps and [wait_running] waits for
    the switch. *)
Inductive wait_start := WaitReturns (result : Z) | WaitSleeps.

Definition interruptible (flags : Z) : bool := negb (Z.land flags SCHED_WAIT_INTERRUPTIBLE =? 0).

(** The section of [sched_wait_on] under the scheduler lock. *)
Definition wait_on_locked e q self (observed_seq deadline_tick flags : Z) W : option (wait_start * wait_state_t) :=
  wq ← queues W !! q;
  if bool_decide (wlist wq = None) then Some (WaitReturns SCHED_WAIT_ABORTED, W)
  else if interruptible flags && sched_signal_pending W self then Some (WaitReturns SCHED_WAIT_INTR, W)
  else
    k ← local e (sched W);
    if negb (is_state (thread W self) THREAD_RUNNING) || negb (bool_decide (current k = Some self))
    then Some (WaitReturns SCHED_WAIT_ABORTED, W)
    else
      W ← (if in_wait_queue (thread W self) || bool_decide (blocked_on (waiters W self) <> None)
           then wq_dequeue self W else Some W);
      W ← runs W (fun st => '(_, st) ← rq_remove_thread st (Some self); Some st);
      W ← sleep_remove self W;
      let W := upd self (set_wake_tick 0) W in
      wq ← queues W !! q;
      let unchanged := negb (is_state (thread W self) THREAD_ZOMBIE) && (wake_seq wq =? observed_seq) in
      if negb unchanged then Some (WaitReturns SCHED_WAIT_ABORTED, W)
      else
        '(attached, W) ← wait_attach_locked q self deadline_tick flags W;
        Some (if (attached : bool) then WaitSleeps else WaitReturns SCHED_WAIT_ABORTED, W).

(** [sched_wait_on] up to [wait_running]; [spin_held] is what [lock_spin_held] answers. *)
Definition wait_on_begin e (spin_held : bool) (queue : ptr Z) (observed_seq deadline_tick flags : Z) W
  : option (wait_start * wait_state_t) :=
  k ← local e (sched W);
  match queue, current k with
  | Some q, Some self =>
      wq ← queues W !! q;
      if negb (running (sched W)) || bool_decide (wlist wq = None) then Some (WaitReturns SCHED_WAIT_ABORTED, W)
      else if interruptible flags && sched_signal_pending W self then Some (WaitReturns SCHED_WAIT_INTR, W)
      else
        can ← wait_can_block e spin_held (sched W);
        if negb can then Some (WaitReturns SCHED_WAIT_ABORTED, W)
        else
          '(r, W) ← wait_on_locked e q self observed_seq deadline_tick flags W;
          match r with
          | WaitReturns v => Some (WaitReturns v, W)
          | WaitSleeps => W ← runs W (force_resched e); Some (WaitSleeps, W)
          end
  | _, _ => Some (WaitReturns SCHED_WAIT_ABORTED, W)
  end.

Definition wait_result_of W t (now deadline_tick flags : Z) : Z :=
  let result := wait_result (waiters W t) in
  if negb (result =? SCHED_WAIT_ABORTED) then result
  else if interruptible flags && sched_signal_pending W t then SCHED_WAIT_INTR
  else if negb (deadline_tick =? 0) && (deadline_tick <=? now) then SCHED_WAIT_TIMEOUT
  else result.

(** [sched_wait_on] once the thread runs again. *)
Definition wait_on_end self (now deadline_tick flags : Z) W : Z * wait_state_t :=
  (wait_result_of W self now deadline_tick flags,
   updw self (fun th => set_wait_result SCHED_WAIT_ABORTED (set_wait_flags 0 (set_wait_deadline_tick 0 th))) W).

(** ** Waking a given thread: [wait.c] *)

(** The three ways to wake a thread that is not [RUNNING]: it is being switched away from, it still
    runs, or it is released and queued. *)
Definition rouse e t W : option wait_state_t :=
  handoff ← thread_in_handoff (sched W) (Some t);
  if (handoff : bool) then runs (upd t (set_state THREAD_READY) W) (sched_nudge_thread e t)
  else
    on_cpu ← thread_on_local_cpu (sched W) (Some t);
    if (on_cpu : bool) then runs W (sched_nudge_thread e t)
    else runs W (fun st => enqueue_ipi e t true (thread_set_state t THREAD_READY (thread_unclaim t st))).

Definition repair e t W : option wait_state_t := runs W (fun st => '(_, st) ← sched_repair_thread e t true st; Some st).

(** The round for a sleeper whose tick has come. *)
Definition wake_sleeper e t W : option wait_state_t :=
  W ← sleep_remove t W;
  let W := updw t (set_wait_deadline_tick 0) (upd t (set_wake_tick 0) W) in
  if is_state (thread W t) THREAD_SLEEPING then
    W ← (if in_wait_queue (thread W t) then wq_dequeue t W else Some W);
    let W := updw t (set_wait_result SCHED_WAIT_TIMEOUT) W in
    let W := set_wait_timeout_count (u64_wrap (wait_timeout_count W + 1)) W in
    rouse e t W
  else if is_state (thread W t) THREAD_RUNNING then repair e t W
  else Some W.

(** [for (;;)]: each round takes a sleeper off the heap. *)
Fixpoint sleepers_loop (fuel : nat) e (now : Z) W : option wait_state_t :=
  match fuel with
  | O => None
  | S fuel =>
      top ← sleep_heap_top (sleep W);
      match top with
      | None => Some W
      | Some t =>
          if negb (sleep_queued (thread W t)) || (wake_tick (thread W t) =? 0) then
            W ← sleep_remove_at 0 W; sleepers_loop fuel e now W
          else if now <? wake_tick (thread W t) then Some W
          else W ← wake_sleeper e t W; sleepers_loop fuel e now W
      end
  end.

Definition wake_sleepers e (now : Z) W : option wait_state_t := sleepers_loop (S (Z.to_nat (scount (sleep W)))) e now W.

Definition sched_thread_is_idle W t : bool := pid (thread W t) =? 0.

Definition wq_remove t W : option wait_state_t := wq_dequeue t W.

Definition sched_make_runnable e t W : option wait_state_t :=
  if sched_thread_is_idle W t then Some W
  else
    let e := locked e in
    W ← wq_dequeue t W;
    W ← sleep_remove t W;
    let W := updw t (fun th => set_wait_result SCHED_WAIT_WOKEN (set_wait_deadline_tick 0 th)) (upd t (set_wake_tick 0) W) in
    handoff ← thread_in_handoff (sched W) (Some t);
    on_cpu ← thread_on_local_cpu (sched W) (Some t);
    if negb handoff && negb on_cpu && is_state (thread W t) THREAD_RUNNING then repair e t W
    else rouse e t W.

Definition sched_unblock_thread e t W : option wait_state_t :=
  if sched_thread_is_idle W t then Some W
  else
    let e := locked e in
    let state := state (thread W t) in
    let signal_wait := sched_signal_pending W t in
    let interruptible := interruptible (wait_flags (waiters W t)) in
    if bool_decide (state = THREAD_SLEEPING) && signal_wait && negb interruptible then Some W
    else
      W ← wq_dequeue t W;
      W ← sleep_remove t W;
      if bool_decide (state = THREAD_SLEEPING) || bool_decide (state = THREAD_READY) then
        let result := if interruptible && signal_wait then SCHED_WAIT_INTR else SCHED_WAIT_WOKEN in
        let W := updw t (fun th => set_wait_result result (set_wait_deadline_tick 0 th)) (upd t (set_wake_tick 0) W) in
        rouse e t W
      else if bool_decide (state = THREAD_RUNNING) then repair e t W
      else Some W.

Definition sched_continue_thread e t W : option wait_state_t :=
  if sched_thread_is_idle W t then Some W
  else if negb (is_state (thread W t) THREAD_STOPPED) then Some W
  else
    let e := locked e in
    let W := updw t (fun th => set_stop_reported false (set_stop_signal 0 th)) (upd t (set_state THREAD_READY) W) in
    owned ← thread_is_owned (sched W) (Some t);
    if (owned : bool) then runs W (sched_nudge_thread e t)
    else runs W (fun st => enqueue_thread e t (thread_unclaim t st)).

(** ** Stopping a thread *)

Definition sched_kick_cpu e (c : Z) st : option sched_state_t :=
  if MAX_CORES <=? c then Some st else if c =? me e then sched_resched_local e st else wake_counted e c st.

Definition mark_pending (signum : Z) (th : wait_thread_t) : wait_thread_t :=
  if (0 <? signum) && (signum <? NSIG) then set_signal_pending (Z.lor (signal_pending th) (Z.shiftl 1 (signum - 1))) th else th.

(** The parent that [find_thread] answered: its address, its wait queue, and whether it has a handler
    for [SIGCHLD], which is ignored by default. *)
Record parent_t := mk_parent { parent_thread : tid; parent_queue : Z; catches : bool }.

Definition notify_parent e (parent : option parent_t) W : option wait_state_t :=
  match parent with
  | None => Some W
  | Some p =>
      W ← sched_wake_one e (parent_queue p) W;
      if catches p then sched_unblock_thread e (parent_thread p) (updw (parent_thread p) (mark_pending SIGCHLD) W)
      else Some W
  end.

(** Up to the yield of a thread that stops itself, which is answered as [true]. *)
Definition sched_stop_thread e t (signum : Z) (parent : option parent_t) W : option (bool * wait_state_t) :=
  if sched_thread_is_idle W t then Some (false, W)
  else if is_state (thread W t) THREAD_ZOMBIE || is_state (thread W t) THREAD_STOPPED then Some (false, W)
  else
    k ← local e (sched W);
    let self := bool_decide (current k = Some t) in
    owned ← thread_is_owned (sched W) (Some t);
    let cpu := thread_cpu (sched W) (Some t) in
    let remote := negb self && is_state (thread W t) THREAD_RUNNING && (0 <=? cpu) && owned in
    let stop th := set_stop_reported false (set_stop_signal signum th) in
    if remote then
      W ← runs (updw t (fun th => stop (mark_pending signum th)) W) (sched_kick_cpu e cpu);
      Some (false, W)
    else
      W ← runs W (fun st => '(_, st) ← rq_remove_thread st (Some t); Some st);
      W ← wq_dequeue t W;
      W ← sleep_remove t W;
      let W := updw t stop (upd t (set_state THREAD_STOPPED) (upd t (set_wake_tick 0) W)) in
      let W := if negb self && negb owned then upd t (set_running_cpu (-1)) W else W in
      W ← notify_parent (locked e) parent W;
      W ← (if owned then runs W (sched_nudge_thread e t) else Some W);
      Some (self && running (sched W), W).
End Defs.

(** ** The invariant *)

Section Proofs.
Context `{Arch} {x : option tid}.
Implicit Types (W : wait_state_t) (t u self : tid) (q l : Z) (e : env) (C : gmap Z (list Z)) (wq : sched_wait_queue_t) (s : list Z).

Definition waits W t q : Prop := in_wait_queue (thread W t) = true /\ blocked_on (waiters W t) = Some q.

(** [C] gives the sequence of each list.  A queue's list holds exactly the threads that wait on it, and
    its count is their number; every list is the list of one queue.  [x] is a thread in the middle of its
    exit, which waits on nothing. *)
Record wq_inv W C : Prop := {
  wi_heap : heap_ok (wheap W) C;
  wi_queue : forall q wq l, queues W !! q = Some wq -> wlist wq = Some l ->
    exists s, C !! l = Some s /\ waiter_count wq = zlen s /\ forall t, t ∈ s <-> waits W t q;
  wi_lists : forall l s, C !! l = Some s -> exists q wq, queues W !! q = Some wq /\ wlist wq = Some l;
  wi_apart : forall q q' wq wq' l, queues W !! q = Some wq -> queues W !! q' = Some wq' ->
    wlist wq = Some l -> wlist wq' = Some l -> q = q';
  wi_blocked : forall t, in_wait_queue (thread W t) = true ->
    exists q wq l, blocked_on (waiters W t) = Some q /\ queues W !! q = Some wq /\ wlist wq = Some l;
  wi_data : forall t nd, in_wait_queue (thread W t) = true -> nodes (wheap W) !! t = Some nd -> data nd = t;
  wi_few : Z.of_nat (size (nodes (wheap W))) < 2 ^ 32;
  wi_poll : is_Some (queues W !! poll_wait_queue W);
  wi_exit : forall t, x = Some t -> in_wait_queue (thread W t) = false
}.

(** With the scheduler's and the sleep queue's. *)
Record inv W C : Prop := {
  i_wait : wq_inv W C;
  i_sched : dinv x (sched W);
  i_sleep : sleep_inv (threads (sched W)) (sleep W)
}.

(** ** What the parts depend on *)

Definition qlink (wq : sched_wait_queue_t) : ptr Z * Z := (wlist wq, waiter_count wq).

Lemma wq_frame W W' C : wq_inv W C ->
  (forall t, in_wait_queue (thread W' t) = in_wait_queue (thread W t)) ->
  (forall t, blocked_on (waiters W' t) = blocked_on (waiters W t)) ->
  wheap W' = wheap W -> qlink <$> queues W' = qlink <$> queues W -> poll_wait_queue W' = poll_wait_queue W -> wq_inv W' C.
Proof.
  intros [I1 I2 I3 I4 I5 I6 I7 I8 I9] Hi Hb Hh Hq Hp.
  assert (Hto : forall q wq', queues W' !! q = Some wq' -> exists wq, queues W !! q = Some wq /\ wlist wq' = wlist wq /\ waiter_count wq' = waiter_count wq).
  { intros q wq' Hw. assert (Hx : (qlink <$> queues W') !! q = Some (qlink wq')) by (by rewrite lookup_fmap, Hw).
    rewrite Hq, lookup_fmap in Hx. destruct (queues W !! q) as [wq|]; [|done]. injection Hx as ? ?. exists wq. by split_and!. }
  assert (Hfrom : forall q wq, queues W !! q = Some wq -> exists wq', queues W' !! q = Some wq' /\ wlist wq' = wlist wq).
  { intros q wq Hw. assert (Hx : (qlink <$> queues W) !! q = Some (qlink wq)) by (by rewrite lookup_fmap, Hw).
    rewrite <- Hq, lookup_fmap in Hx. destruct (queues W' !! q) as [wq'|]; [|done]. injection Hx as ? ?. exists wq'. by split. }
  constructor; rewrite ?Hh, ?Hp; try done.
  - intros q wq l Hw Hl. destruct (Hto q wq Hw) as (wq0 & H0 & E1 & E2). destruct (I2 q wq0 l H0) as (s & Hs & Hc & Ht); [congruence|].
    exists s. split_and!; [done|congruence|]. intros t. rewrite Ht. unfold waits. by rewrite Hi, Hb.
  - intros l s Hs. destruct (I3 l s Hs) as (q & wq & Hw & Hl). destruct (Hfrom q wq Hw) as (wq' & Hw' & E). exists q, wq'. split; [done|congruence].
  - intros q q' wq wq' l Hw Hw' Hl Hl'. destruct (Hto q wq Hw) as (w0 & H0 & E0 & _), (Hto q' wq' Hw') as (w1 & H1 & E1 & _).
    eapply (I4 q q' w0 w1 l); congruence.
  - intros t. rewrite Hi, Hb. intros Ht. destruct (I5 t Ht) as (q & wq & l & ? & Hw & ?). destruct (Hfrom q wq Hw) as (wq' & ? & ?).
    exists q, wq', l. split_and!; [done|done|congruence].
  - intros t nd. rewrite Hi. apply I6.
  - destruct I8 as [wq Hw]. destruct (Hfrom _ wq Hw) as (wq' & ? & _). eauto.
  - intros t. rewrite Hi. apply I9.
Qed.

(** The sleep queue depends on four fields. *)
Definition skey (th : sched_thread_t) := (sleep_queued th, sleep_index th, wake_tick th, pid th).

Lemma sleep_frame ts ts' sl : sleep_inv ts sl -> (forall u, skey (ts' u) = skey (ts u)) -> sleep_inv ts' sl.
Proof.
  intros [Hc Hn Hf Hix Hok Hq] He. assert (Hk : forall u, sleep_queued (ts' u) = sleep_queued (ts u) /\ sleep_index (ts' u) = sleep_index (ts u) /\
    wake_tick (ts' u) = wake_tick (ts u) /\ pid (ts' u) = pid (ts u)) by (intros u; specialize (He u); by injection He).
  split; try done.
  - intros k u Hu. cbn. destruct (Hk u) as (_ & -> & _). by apply Hix.
  - eapply heap_ok_ext; [|exact Hok]. intros a b _ _. symmetry. apply tless_wake. intros u. by destruct (Hk u) as (_ & _ & -> & ->).
  - intros u. destruct (Hk u) as (-> & _). apply Hq.
Qed.

(** The scheduler does not look at how a thread waits. *)
Definition wrest (th : sched_thread_t) : sched_thread_t :=
  set_in_wait_queue false (set_wake_tick 0 (sleep_clear th)).

Lemma dinv_rest st st' : dinv x st -> (forall u, wrest (threads st' u) = wrest (threads st u)) ->
  runqueues st' = runqueues st -> cpus st' = cpus st -> cores_local st' = cores_local st -> core_count st' = core_count st -> dinv x st'.
Proof.
  intros [[I1 I2 I3 I4 I5 I6 I7 I8] [O1 O2 O3 O4 O5 O6 O7 O8 O9]] Hr E1 E2 E3 E4.
  assert (Hf : forall u, qkey (threads st' u) = qkey (threads st u) /\ on_rq (threads st' u) = on_rq (threads st u) /\
    in_run_queue (threads st' u) = in_run_queue (threads st u) /\ rq_index (threads st' u) = rq_index (threads st u) /\
    last_cpu (threads st' u) = last_cpu (threads st u) /\ running_cpu (threads st' u) = running_cpu (threads st u) /\
    pid (threads st' u) = pid (threads st u) /\ state (threads st' u) = state (threads st u) /\ context (threads st' u) = context (threads st u)).
  { intros u. specialize (Hr u). destruct (threads st' u), (threads st u). unfold wrest, sleep_clear in Hr. cbn in Hr. by injection Hr as -> -> -> -> -> -> -> -> -> -> -> ->. }
  assert (Hh : forall c t, holds st' c t <-> holds st c t) by (intros c t; unfold holds; by rewrite E2).
  split; constructor; rewrite ?E1, ?E2, ?E3, ?E4; try done.
  - intros c rq Hc. eapply rq_ok_ext; [|by apply (I5 c)]. intros u _. apply Hf.
  - intros c rq u Hc Hu. destruct (Hf u) as (_ & -> & -> & _ & -> & _). by apply (I6 c rq).
  - intros u. destruct (Hf u) as (_ & -> & _). apply I7.
  - intros u. destruct (Hf u) as (_ & -> & -> & -> & _). apply I8.
  - intros c u. rewrite Hh. destruct (Hf u) as (_ & _ & _ & _ & _ & -> & _). apply O1.
  - intros c c' u. rewrite !Hh. apply O2.
  - intros u. setoid_rewrite Hh. destruct (Hf u) as (_ & -> & _ & _ & _ & _ & -> & _). apply O3.
  - intros c k u. setoid_rewrite Hh. destruct (Hf u) as (_ & _ & _ & _ & _ & _ & -> & _). apply O4.
  - intros u. destruct (Hf u) as (_ & _ & _ & _ & _ & _ & _ & -> & _). apply O6.
  - intros u. destruct (Hf u) as (_ & _ & _ & _ & -> & _). apply O8.
  - intros u. unfold queueable. destruct (Hf u) as (_ & -> & _ & _ & _ & _ & _ & -> & ->). apply O9.
Qed.

(** ** Steps of the scheduler *)

Lemma drest_wait th th' : drest th' = drest th -> in_wait_queue th' = in_wait_queue th /\ skey th' = skey th.
Proof. intros Hd. apply drest_fields in Hd as (E1 & _ & _ & E2 & _ & E3 & E4 & E5). split; [done|]. unfold skey. congruence. Qed.

(** A step that leaves every thread's way of waiting alone. *)
Lemma sched_step W st C : inv W C -> dinv x st -> (forall u, drest (threads st u) = drest (threads (sched W) u)) -> inv (set_sched st W) C.
Proof.
  intros [Hw Hd Hs] Hd' Hr. constructor; [|done|].
  - apply (wq_frame W); try done. intros u. apply (drest_wait _ _ (Hr u)).
  - apply (sleep_frame (threads (sched W))); [done|]. intros u. apply (drest_wait _ _ (Hr u)).
Qed.

Lemma touched_step W st t C : inv W C -> dinv x st -> touched t (sched W) st -> inv (set_sched st W) C.
Proof. intros Hi Hd Ht. apply sched_step; [done|done|]. intros u. by eapply touched_drest. Qed.

(** ** Fields of a thread *)

(** The lists and the queues are as they were, and so is who waits on what. *)
Record same_waits W W' : Prop := {
  sw_heap : wheap W' = wheap W;
  sw_queues : queues W' = queues W;
  sw_poll : poll_wait_queue W' = poll_wait_queue W;
  sw_in : forall u, in_wait_queue (thread W' u) = in_wait_queue (thread W u);
  sw_on : forall u, blocked_on (waiters W' u) = blocked_on (waiters W u)
}.

Lemma same_waits_refl W : same_waits W W.
Proof. by constructor. Qed.

Lemma same_waits_trans W1 W2 W3 : same_waits W1 W2 -> same_waits W2 W3 -> same_waits W1 W3.
Proof. intros [] []. constructor; congruence. Qed.

Lemma updw_ok t f W C : inv W C -> (forall th, blocked_on (f th) = blocked_on th) -> inv (updw t f W) C /\ same_waits W (updw t f W).
Proof.
  intros [Hw Hd Hs] Hf.
  assert (Hb : forall u, blocked_on (waiters (updw t f W) u) = blocked_on (waiters W u)).
  { intros u. cbn. destruct (decide (u = t)) as [->|Hu]; [by rewrite fn_lookup_insert|by rewrite fn_lookup_insert_ne]. }
  split; [|by constructor]. constructor; [|done|done]. by apply (wq_frame W).
Qed.

Lemma upd_self t f W : thread (upd t f W) t = f (thread W t).
Proof. unfold thread. cbn. by rewrite fn_lookup_insert. Qed.

Lemma upd_other t f W u : u <> t -> thread (upd t f W) u = thread W u.
Proof. intros Hu. unfold thread. cbn. by rewrite fn_lookup_insert_ne. Qed.

(** The tick a thread sleeps until may change while it is not in the sleep queue. *)
Lemma wake_tick_ok t v W C : inv W C -> sleep_queued (thread W t) = false ->
  inv (upd t (set_wake_tick v) W) C /\ same_waits W (upd t (set_wake_tick v) W).
Proof.
  intros [Hw Hd Hs] Hq.
  assert (Hin : forall u, in_wait_queue (thread (upd t (set_wake_tick v) W) u) = in_wait_queue (thread W u)).
  { intros u. destruct (decide (u = t)) as [->|Hu]; [by rewrite upd_self|by rewrite upd_other]. }
  split; [|by constructor]. constructor.
  - by apply (wq_frame W).
  - apply (dinv_rest (sched W)); try done. intros u. change (wrest (thread (upd t (set_wake_tick v) W) u) = wrest (thread W u)).
    destruct (decide (u = t)) as [->|Hu]; [by rewrite upd_self|by rewrite upd_other].
  - apply (sleep_touch (threads (sched W)) (sleep W) t (set_wake_tick v)); [done|done|by left].
Qed.

Lemma state_ok t v W C : inv W C -> x <> Some t -> (on_rq (thread W t) = true -> v = THREAD_READY) -> inv (upd t (set_state v) W) C /\ same_waits W (upd t (set_state v) W).
Proof.
  intros Hi Hx Hy. destruct (set_state_ok x t v (sched W) (i_sched _ _ Hi)) as (Hd & Ht & _); [done|done|].
  split; [by apply (touched_step W _ t)|]. constructor; try done. intros u. apply (drest_wait _ _ (touched_drest _ _ _ u Ht)).
Qed.

(** ** The sleep queue *)

(** What a step on the sleep queue changes: places in it. *)
Record resleeps W W' : Prop := {
  rs_rest : forall u, sleep_clear (thread W' u) = sleep_clear (thread W u);
  rs_waiters : waiters W' = waiters W;
  rs_sched : exists ts, sched W' = set_threads ts (sched W);
  rs_waits : same_waits W W'
}.

Lemma resleep_ok W ts sl C : inv W C -> sleep_inv ts sl -> (forall u, sleep_clear (ts u) = sleep_clear (thread W u)) ->
  inv (set_sleep sl (set_sched (set_threads ts (sched W)) W)) C /\ resleeps W (set_sleep sl (set_sched (set_threads ts (sched W)) W)).
Proof.
  intros [Hw Hd Hs] Hs' Hc. set (W' := set_sleep _ _).
  assert (Hin : forall u, in_wait_queue (thread W' u) = in_wait_queue (thread W u)) by (intros u; exact (f_equal in_wait_queue (Hc u))).
  split; [|constructor; [exact Hc|done|by eexists|by constructor]]. constructor; [by apply (wq_frame W)| |done].
  apply (dinv_rest (sched W)); try done. intros u. exact (f_equal (fun th => set_in_wait_queue false (set_wake_tick 0 th)) (Hc u)).
Qed.

Lemma skept_clear (ts ts' : tid -> sched_thread_t) u : skept ts ts' u -> sleep_clear (ts' u) = sleep_clear (ts u).
Proof. intros Hk. exact (f_equal (fun th => set_sleep_index 0 (set_sleep_queued false th)) Hk). Qed.

Lemma sleep_remove_ok t W C : inv W C ->
  exists W', sleep_remove t W = Some W' /\ inv W' C /\ resleeps W W' /\ sleep_queued (thread W' t) = false /\
    (forall u, u ∈ sleepers (sleep W') <-> u ∈ sleepers (sleep W) /\ u <> t).
Proof.
  intros Hi. unfold sleep_remove.
  destruct (sleep_remove_spec (threads (sched W)) (sleep W) t (i_sleep _ _ Hi)) as (ts & sl & -> & Hs & Hmem & Ht & Ho). cbn [mbind option_bind].
  destruct (resleep_ok W ts sl C Hi Hs) as [Hi' Hr].
  { intros u. destruct (decide (u = t)) as [->|Hu]; [by rewrite Ht|]. by apply (skept_clear (threads (sched W))), Ho. }
  eexists. split_and!; [done|done|done| |done]. unfold thread. cbn. by rewrite Ht.
Qed.

Lemma sleep_insert_ok t W C : inv W C ->
  exists ok W', sleep_insert t W = Some (ok, W') /\ inv W' C /\ resleeps W W' /\ sleep_queued (thread W' t) = ok /\
    (ok = false -> zlen (sleepers (sleep W')) = SCHED_SLEEP_CAPACITY).
Proof.
  intros Hi. unfold sleep_insert.
  destruct (sleep_insert_spec (threads (sched W)) (sleep W) t (i_sleep _ _ Hi)) as (ok & ts & sl & -> & Hs & Ho & Ht & Hmem & Hfull). cbn [mbind option_bind].
  destruct (resleep_ok W ts sl C Hi Hs) as [Hi' Hr].
  { intros u. destruct (decide (u = t)) as [->|Hu]; [exact Ht|]. by apply (skept_clear (threads (sched W))), Ho. }
  eexists _, _. split_and!; [done|done|done| |done]. unfold thread. cbn. apply eq_true_iff_eq. rewrite (si_queued _ _ Hs), Hmem. naive_solver.
Qed.

(** The earliest sleeper leaves. *)
Lemma sleep_pop_ok t W C rest : inv W C -> sleepers (sleep W) = t :: rest ->
  exists W', sleep_remove_at 0 W = Some W' /\ inv W' C /\ resleeps W W' /\ sleepers (sleep W) ≡ₚ t :: sleepers (sleep W').
Proof.
  intros Hi Hl. unfold sleep_remove_at.
  destruct (sleep_remove_at_spec (threads (sched W)) (sleep W) 0 t (i_sleep _ _ Hi)) as (ts & sl & He & Hs & Hp & Ht & Ho); [by rewrite Hl|].
  change (Z.of_nat 0) with 0 in He. rewrite He. cbn [mbind option_bind].
  destruct (resleep_ok W ts sl C Hi Hs) as [Hi' Hr].
  { intros u. destruct (decide (u = t)) as [->|Hu]; [by rewrite Ht|]. by apply (skept_clear (threads (sched W))), Ho. }
  eexists. by split_and!.
Qed.

(** ** Waking one thread *)

(** What waiting and waking never change of a thread. *)
Definition fixed (th : sched_thread_t) : Z * Z * Z := (pid th, allowed_cpu_mask th, context th).

Lemma drest_fixed th th' : drest th' = drest th -> fixed th' = fixed th.
Proof. intros (E1 & E2 & _ & _ & E3 & _)%drest_fields. unfold fixed. congruence. Qed.

(** A step on thread [t]: other threads keep their state and wait on what they waited on. *)
Record acts t W W' : Prop := {
  ac_waits : same_waits W W';
  ac_other : forall u, u <> t -> state (thread W' u) = state (thread W u) /\ wake_tick (thread W' u) = wake_tick (thread W u) /\ waiters W' u = waiters W u;
  ac_rq : forall u, u <> t -> on_rq (thread W' u) = on_rq (thread W u);
  ac_fixed : forall u, fixed (thread W' u) = fixed (thread W u);
  ac_cores : core_threads <$> cpus (sched W') = core_threads <$> cpus (sched W)
}.

Lemma acts_trans t W1 W2 W3 : acts t W1 W2 -> acts t W2 W3 -> acts t W1 W3.
Proof.
  intros [A1 A2 A3 A5 A4] [B1 B2 B3 B5 B4]. constructor; [by eapply same_waits_trans| | | |congruence].
  - intros u Hu. destruct (A2 u Hu) as (? & ? & ?), (B2 u Hu) as (? & ? & ?). split_and!; congruence.
  - intros u Hu. by rewrite B3, A3.
  - intros u. by rewrite B5, A5.
Qed.

Lemma acts_updw t f W C : inv W C -> (forall th, blocked_on (f th) = blocked_on th) -> inv (updw t f W) C /\ acts t W (updw t f W).
Proof.
  intros Hi Hf. destruct (updw_ok t f W C Hi Hf) as [Hi' Hw]. split; [done|]. constructor; try done.
  intros u Hu. split_and!; [done|done|]. cbn. by rewrite fn_lookup_insert_ne.
Qed.

Lemma upd_acts t f W : same_waits W (upd t f W) -> (forall th, fixed (f th) = fixed th) -> acts t W (upd t f W).
Proof.
  intros Hw Hf. constructor; try done; [intros u Hu; by rewrite upd_other..|].
  intros u. destruct (decide (u = t)) as [->|Hu]; [by rewrite upd_self|by rewrite upd_other].
Qed.

Lemma acts_ready t W C : inv W C -> x <> Some t -> inv (upd t (set_state THREAD_READY) W) C /\ acts t W (upd t (set_state THREAD_READY) W).
Proof. intros Hi Hx. destruct (state_ok t THREAD_READY W C Hi Hx) as [? ?]; [done|]. split; [done|by apply upd_acts]. Qed.

Lemma resleeps_state W W' u : resleeps W W' -> state (thread W' u) = state (thread W u).
Proof. intros Hr. exact (f_equal state (rs_rest _ _ Hr u)). Qed.

Lemma resleeps_acts t W W' : resleeps W W' -> acts t W W'.
Proof.
  intros Hr. pose proof Hr as [R1 R2 (ts & R3) R4]. constructor; [done| | | |].
  - intros u _. split_and!; [by apply resleeps_state|exact (f_equal wake_tick (R1 u))|by rewrite R2].
  - intros u _. exact (f_equal on_rq (R1 u)).
  - intros u. exact (f_equal fixed (R1 u)).
  - by rewrite R3.
Qed.

(** The thread leaves the sleep queue and forgets when it would have woken. *)
Lemma unsleep_ok t W C : inv W C ->
  exists W', (W ← sleep_remove t W; Some (upd t (set_wake_tick 0) W)) = Some W' /\ inv W' C /\ acts t W W' /\ waiters W' = waiters W /\
    state (thread W' t) = state (thread W t) /\ sleep_queued (thread W' t) = false /\ on_rq (thread W' t) = on_rq (thread W t).
Proof.
  intros Hi. destruct (sleep_remove_ok t W C Hi) as (W1 & -> & Hi1 & Hr & Hq & _). cbn [mbind option_bind].
  destruct (wake_tick_ok t 0 W1 C Hi1 Hq) as [Hi2 Hw2]. eexists. split_and!; [done|done| |apply Hr| | |].
  - eapply acts_trans; [by apply resleeps_acts|by apply upd_acts].
  - rewrite upd_self. by apply resleeps_state.
  - by rewrite upd_self.
  - rewrite upd_self. exact (f_equal on_rq (rs_rest _ _ Hr t)).
Qed.

Lemma runs_acts (P : sched_state_t -> Prop) W t C m : inv W C ->
  (exists st, m (sched W) = Some st /\ dinv x st /\ touched t (sched W) st /\ P st) ->
  exists W', runs W m = Some W' /\ inv W' C /\ acts t W W' /\ (waiters W' = waiters W /\ sleep W' = sleep W) /\ P (sched W').
Proof.
  intros Hi (st & Hm & Hd & Ht & HP). unfold runs. rewrite Hm. cbn [mbind option_bind]. exists (set_sched st W).
  split_and!; try done; [by eapply touched_step|]. constructor; try done.
  - constructor; try done. intros u. apply (drest_wait _ _ (touched_drest _ _ _ u Ht)).
  - intros u Hu. destruct (kept_fields _ _ _ (tc_other _ _ _ Ht u Hu)) as (E1 & _ & _ & _ & E2). apply drest_fields in E2 as (_ & _ & _ & _ & _ & E2 & _).
    by split_and!.
  - intros u Hu. apply (kept_fields _ _ _ (tc_other _ _ _ Ht u Hu)).
  - intros u. by apply drest_fixed, (touched_drest t).
  - apply Ht.
Qed.

Lemma on_core_same st st' t : core_threads <$> cpus st' = core_threads <$> cpus st -> on_core st' t <-> on_core st t.
Proof.
  intros Hc. split; intros (c & k & Hk & Ht).
  - destruct (cores_core st st' c k Hc Hk) as (k0 & H0 & E & _). exists c, k0. split; [done|congruence].
  - destruct (cores_core st' st c k (eq_sym Hc) Hk) as (k0 & H0 & E & _). exists c, k0. split; [done|congruence].
Qed.

(** A sleeping thread that is woken runs on if a core still runs it, and is ready otherwise. *)
Definition woken t W W' : Prop :=
  state (thread W t) = THREAD_SLEEPING ->
  (on_core (sched W) t -> state (thread W' t) = THREAD_RUNNING) /\ (~ on_core (sched W) t -> state (thread W' t) = THREAD_READY).

Lemma handoff_off_core W t c k C : inv W C -> x <> Some t -> cpus (sched W) !! c = Some k -> handoff_ready k = Some t -> ~ on_core (sched W) t.
Proof.
  intros Hi Hx Hk Hh (c' & k' & Hk' & Hc'). pose proof (proj2 (i_sched _ _ Hi)) as Ho.
  assert (c = c') as <- by (apply (o_one _ _ Ho c c' t); [exists k|exists k']; auto).
  assert (k' = k) as -> by congruence. by apply Hx, (o_apart _ _ Ho c k t Hk Hc' Hh).
Qed.

Lemma nudge_act e t W C : inv W C -> x <> Some t -> 0 <= me e < MAX_CORES ->
  exists W', runs W (sched_nudge_thread e t) = Some W' /\ inv W' C /\ acts t W W' /\ (waiters W' = waiters W /\ sleep W' = sleep W) /\
    (state (thread W t) = THREAD_SLEEPING -> on_core (sched W) t -> state (thread W' t) = THREAD_RUNNING) /\
    (state (thread W t) <> THREAD_SLEEPING -> state (thread W' t) = state (thread W t)).
Proof.
  intros Hi Hx He. apply (runs_acts (fun st => (state (thread W t) = THREAD_SLEEPING -> on_core (sched W) t -> state (threads st t) = THREAD_RUNNING) /\
    (state (thread W t) <> THREAD_SLEEPING -> state (threads st t) = state (thread W t)))); [done|].
  by apply nudge_ok; [apply Hi| |].
Qed.

Lemma release_act e t W C : inv W C -> x <> Some t -> 0 <= me e < MAX_CORES -> (forall c, ~ holds (sched W) c t) ->
  exists W', runs W (fun st => enqueue_ipi e t true (thread_set_state t THREAD_READY (thread_unclaim t st))) = Some W' /\ inv W' C /\ acts t W W' /\
    (waiters W' = waiters W /\ sleep W' = sleep W) /\ state (thread W' t) = THREAD_READY.
Proof.
  intros Hi Hx He Hno. apply (runs_acts (fun st => state (threads st t) = THREAD_READY)); [done|]. by apply release_ok; [apply Hi| | |].
Qed.

Lemma repair_act e t W C : inv W C -> x <> Some t -> 0 <= me e < MAX_CORES -> exists W', repair e t W = Some W' /\ inv W' C /\ acts t W W' /\ waiters W' = waiters W /\ sleep W' = sleep W.
Proof.
  intros Hi Hx He. destruct (runs_acts (fun _ => True) W t C (fun st => '(_, st) ← sched_repair_thread e t true st; Some st) Hi) as (W' & ? & ? & ? & ? & _); [|eauto].
  destruct (repair_ok x e t true (sched W) (i_sched _ _ Hi) He) as (r & st & -> & ? & ?); [done|]. exists st. by split_and!.
Qed.

(** The tests of who holds the thread, once for all uses. *)
Lemma slots_ok W t C : inv W C -> x <> Some t ->
  exists b1 b2, thread_in_handoff (sched W) (Some t) = Some b1 /\ thread_on_local_cpu (sched W) (Some t) = Some b2 /\
    (b1 = true -> ~ on_core (sched W) t) /\ (b2 = true <-> on_core (sched W) t) /\ (b1 = false -> b2 = false -> forall c, ~ holds (sched W) c t).
Proof.
  intros Hi Hx. destruct (handoff_spec x (sched W) t (i_sched _ _ Hi)) as (b1 & H1 & E1); [done|].
  destruct (on_cpu_spec x (sched W) t (i_sched _ _ Hi)) as (b2 & H2 & E2); [done|]. exists b1, b2. split_and!; [done|done| |done|].
  - intros Hb. apply E1 in Hb as (c & k & Hk & Hh). by eapply handoff_off_core.
  - intros -> -> c Hh. destruct (held_slot _ _ _ Hh) as [Hc|Hc]; [apply E2 in Hc|apply E1 in Hc]; done.
Qed.

Lemma rouse_ok e t W C : inv W C -> x <> Some t -> 0 <= me e < MAX_CORES ->
  exists W', rouse e t W = Some W' /\ inv W' C /\ acts t W W' /\ (waiters W' = waiters W /\ sleep W' = sleep W) /\ woken t W W'.
Proof.
  intros Hi Hx He. destruct (slots_ok W t C Hi Hx) as (b1 & b2 & H1 & H2 & E1 & E2 & E3). unfold rouse. rewrite H1. cbn [mbind option_bind]. destruct b1.
  - destruct (acts_ready t W C Hi Hx) as [Hi1 Ha1]. destruct (nudge_act e t _ C Hi1 Hx He) as (W' & -> & Hi' & Ha' & Hw & _ & Hs).
    rewrite upd_self in Hs. exists W'. split; [done|]. split; [done|]. split; [by eapply acts_trans|]. split; [done|]. intros _. split; [intros Hc; by destruct E1|]. intros _. by apply Hs.
  - rewrite H2. cbn [mbind option_bind]. destruct b2.
    + destruct (nudge_act e t W C Hi Hx He) as (W' & -> & Hi' & Ha' & Hw & Hs & _). exists W'. do 4 (split; [done|]).
      intros Hsl. split; [by apply Hs|]. intros Hc. destruct Hc. by apply E2.
    + destruct (release_act e t W C Hi Hx He) as (W' & -> & Hi' & Ha' & Hw & Hs); [by apply E3|]. exists W'. do 4 (split; [done|]).
      intros _. split; [|done]. intros Hc. by apply E2 in Hc.
Qed.

Lemma wake_waiter_ok e t W C : inv W C -> x <> Some t -> 0 <= me e < MAX_CORES ->
  exists W', wake_waiter e t W = Some W' /\ inv W' C /\ acts t W W' /\ wait_result (waiters W' t) = SCHED_WAIT_WOKEN /\ woken t W W'.
Proof.
  intros Hi Hx He. unfold wake_waiter. destruct (unsleep_ok t W C Hi) as (W1 & Hun & Hi1 & Ha1 & Hw1 & Hs1 & _).
  destruct (sleep_remove t W) as [W0|]; [|done]. cbn [mbind option_bind] in Hun |- *. injection Hun as ->.
  destruct (acts_updw t (set_wait_deadline_tick 0) W1 C Hi1) as [Hi2 Ha2]; [done|].
  destruct (acts_updw t (set_wait_result SCHED_WAIT_WOKEN) _ C Hi2) as [Hi3 Ha3]; [done|].
  set (W3 := updw t (set_wait_result _) _) in *.
  assert (Ha : acts t W W3) by (eapply acts_trans; [exact Ha1|by eapply acts_trans]).
  assert (Hres : wait_result (waiters W3 t) = SCHED_WAIT_WOKEN) by (cbn; by rewrite fn_lookup_insert).
  assert (Hst : state (thread W3 t) = state (thread W t)) by exact Hs1. clearbody W3. clear Ha1 Ha2 Ha3 Hi1 Hi2 Hw1 Hs1.
  destruct (slots_ok W3 t C Hi3 Hx) as (b1 & b2 & H1 & H2 & E1 & E2 & E3). destruct (rouse_ok e t W3 C Hi3 Hx He) as (W' & Hr & Hi' & Ha' & Hw' & Hk').
  assert (Hdone : rouse e t W3 = Some W' -> inv W' C /\ acts t W W' /\ wait_result (waiters W' t) = SCHED_WAIT_WOKEN /\ woken t W W').
  { intros _. split_and!; [done|by eapply acts_trans|by rewrite (proj1 Hw')|]. unfold woken in *. rewrite <- Hst, <- (on_core_same (sched W) (sched W3)); [done|apply Ha]. }
  unfold rouse in Hr, Hdone. rewrite H1, H2 in *. cbn [mbind option_bind] in *. destruct b1.
  { destruct (_ || _) eqn:Hz; [|rewrite Hr; eauto]. exists W3. split_and!; auto. intros Hsl. rewrite Hsl in Hst. unfold is_state in Hz. by rewrite Hst in Hz. }
  destruct b2; [rewrite Hr; eauto|]. destruct (is_state _ THREAD_RUNNING) eqn:Hrun.
  { destruct (repair_act e t W3 C Hi3 Hx He) as (W4 & Hrep & Hi4 & Ha4 & Hw4). unfold repair in Hrep. rewrite Hrep. exists W4.
    split_and!; [done|done|by eapply acts_trans|by rewrite (proj1 Hw4)|]. intros Hsl. rewrite Hsl in Hst. unfold is_state in Hrun. by rewrite Hst in Hrun. }
  destruct (_ && _) eqn:Hz; [|unfold enqueue_thread; rewrite Hr; eauto]. exists W3. split_and!; auto. intros Hsl. rewrite Hsl in Hst. unfold is_state in Hz. by rewrite Hst in Hz.
Qed.

(** ** Taking a node out of a list *)

Ltac stores :=
  repeat (first [ erewrite put_node_ok by (cbn [nodes]; rewrite ?lookup_insert_eq; first [eassumption | reflexivity])
                | erewrite put_list_ok by (cbn [lists]; rewrite ?lookup_insert_eq; first [eassumption | reflexivity]) ];
          cbn [mbind option_bind nodes lists]).

Lemma less_one_len h C l (s : list Z) : heap_ok h C -> C !! l = Some s -> s <> [] -> less_one (zlen s) = wrap (zlen s - 1).
Proof.
  intros Hok Hs Hne. pose proof (ok_length _ _ _ _ Hok Hs). assert (0 < zlen s) by (destruct s; [done|]; unfold zlen; cbn; lia).
  unfold less_one. rewrite (proj2 (Z.eqb_neq _ _)) by lia. symmetry. apply wrap_small. lia.
Qed.

(** Both ways of taking a node out are [list_remove]'s. *)
Lemma wq_cut_unlink h C l a n b : heap_ok h C -> C !! l = Some (a ++ n :: b) -> wq_cut h l n = unlink h l n (last_or a None) (first_or b None).
Proof.
  intros Hok Hs. destruct (ok_linked _ _ Hok _ _ Hs) as [Hnd Hlk]. pose proof (list_at _ _ _ _ Hok Hs) as Hls.
  pose proof Hlk as [Ha [[d Hd] Hb]]%linked_app. pose proof Hnd as (_ & Hab & Hndb)%list.NoDup_app. apply list.NoDup_cons in Hndb as [Hnb _].
  unfold wq_cut, unlink. rewrite Hd. cbn [mbind option_bind nnext nprev].
  rewrite (put_before h l _ a _ (linked_present _ _ _ _ _ Ha) Hls). cbn [mbind option_bind].
  assert (Hb1 : linked (upd_last (nodes h) a (first_or b None)) l (Some n) b None) by (apply linked_frame_last; [set_solver|done]).
  erewrite (put_after _ l _ b); [|exact (linked_present _ _ _ _ _ Hb1)|cbn [lists]; apply lookup_insert_eq]. cbn [mbind option_bind nodes lists].
  set (N1 := upd_first _ b _).
  assert (Hn1 : N1 !! n = Some (mk_node d (first_or b None) (last_or a None) (Some l))).
  { unfold N1. rewrite upd_first_other, upd_last_other by set_solver. done. }
  stores. do 2 f_equal; [by rewrite !insert_insert_eq|]. rewrite !insert_insert_eq. f_equal.
  assert (Hlen : less_one (zlen (a ++ n :: b)) = wrap (zlen (a ++ n :: b) - 1)) by (eapply less_one_len; [done|done|by destruct a]).
  destruct (decide (a = [])), (decide (b = [])); unfold set_length; cbn [llength set_head set_tail lhead ltail]; by rewrite Hlen.
Qed.

Lemma pop_cut_unlink h C l n b : heap_ok h C -> C !! l = Some (n :: b) -> pop_cut h l n = unlink h l n None (first_or b None).
Proof.
  intros Hok Hs. destruct (ok_linked _ _ Hok _ _ Hs) as [Hnd Hlk]. pose proof (list_at _ _ _ _ Hok Hs) as Hls.
  pose proof Hlk as [[d Hd] Hb]. apply list.NoDup_cons in Hnd as [Hnb _].
  unfold pop_cut, unlink. rewrite Hd. cbn [mbind option_bind nnext].
  rewrite (put_after h l _ b None (linked_present _ _ _ _ _ Hb) Hls). cbn [mbind option_bind].
  rewrite (put_list_ok h l _ (set_head (first_or b None)) Hls). cbn [mbind option_bind].
  erewrite (put_after (mk_heap (nodes h) _) l _ b); [|exact (linked_present _ _ _ _ _ Hb)|cbn [lists]; apply lookup_insert_eq]. cbn [mbind option_bind nodes lists].
  set (N1 := upd_first _ b _).
  assert (Hn1 : N1 !! n = Some (mk_node d (first_or b None) None (Some l))) by (unfold N1; by rewrite upd_first_other).
  stores. do 2 f_equal; [by rewrite !insert_insert_eq|]. rewrite !insert_insert_eq. f_equal.
  assert (Hlen : less_one (zlen (n :: b)) = wrap (zlen (n :: b) - 1)) by (by eapply less_one_len).
  destruct (decide (b = [])); unfold set_length; cbn [llength set_head set_tail lhead ltail]; by rewrite Hlen.
Qed.

Lemma data_size h h' : same_data h h' -> size (nodes h') = size (nodes h).
Proof.
  intros Hs. rewrite <- !(size_dom (D := gset Z)). f_equal. apply set_eq. intros n. rewrite !elem_of_dom, <- !(fmap_is_Some data). by rewrite Hs.
Qed.

(** ** Leaving and entering a queue *)

(** The other threads and queues, when thread [t] enters or leaves the list of queue [q]. *)
Lemma relist_ok W q wq l s s' h t (b : bool) C : wq_inv W C -> queues W !! q = Some wq -> wlist wq = Some l -> C !! l = Some s ->
  heap_ok h (<[l := s']> C) ->
  (in_wait_queue (thread W t) = true -> blocked_on (waiters W t) = Some q) ->
  (forall u, u <> t -> u ∈ s' <-> u ∈ s) -> (t ∈ s' <-> b = true) -> (forall nd, b = true -> nodes h !! t = Some nd -> data nd = t) ->
  (forall u, u <> t -> data <$> nodes h !! u = data <$> nodes (wheap W) !! u) -> size (nodes h) = size (nodes (wheap W)) ->
  (b = true -> x <> Some t) ->
  wq_inv (updw t (set_blocked_on (if b then Some q else None)) (upd t (set_in_wait_queue b)
           (set_queues (<[q := set_waiter_count (zlen s') wq]> (queues W)) (set_wheap h W)))) (<[l := s']> C).
Proof.
  intros [I1 I2 I3 I4 I5 I6 I7 I8 I9] Hq Hl Hs Hh Hon Hu Ht Hdt Hdu Hsz Hx.
  set (W' := updw t _ _). set (wq' := set_waiter_count (zlen s') wq).
  assert (Hin : forall u, u <> t -> in_wait_queue (thread W' u) = in_wait_queue (thread W u) /\ blocked_on (waiters W' u) = blocked_on (waiters W u)).
  { intros u Hne. split; [change (in_wait_queue (thread (upd t (set_in_wait_queue b) W) u) = in_wait_queue (thread W u)); by rewrite upd_other|].
    cbn. by rewrite fn_lookup_insert_ne. }
  assert (Hint : in_wait_queue (thread W' t) = b).
  { change (in_wait_queue (thread (upd t (set_in_wait_queue b) W) t) = b). by rewrite upd_self. }
  assert (Hont : blocked_on (waiters W' t) = if b then Some q else None) by (cbn; by rewrite fn_lookup_insert).
  assert (Hqs : forall q2 w2, queues W' !! q2 = Some w2 -> q2 = q /\ w2 = wq' \/ q2 <> q /\ queues W !! q2 = Some w2).
  { intros q2 w2 H2. cbn in H2. destruct (decide (q2 = q)) as [->|Hne]; [rewrite lookup_insert_eq in H2; injection H2 as <-; by left|].
    rewrite lookup_insert_ne in H2 by done. by right. }
  assert (Hback : forall q2 w2, queues W !! q2 = Some w2 -> exists w3, queues W' !! q2 = Some w3 /\ wlist w3 = wlist w2).
  { intros q2 w2 H2. cbn. destruct (decide (q2 = q)) as [->|Hne]; [rewrite lookup_insert_eq; exists wq'; split; [done|]; by simplify_eq|].
    rewrite lookup_insert_ne by done. eauto. }
  destruct (I2 q wq l Hq Hl) as (s0 & Hs0 & _ & Hmem). assert (s0 = s) as -> by congruence.
  constructor; try done.
  - intros q2 w2 l2 H2 Hl2. destruct (Hqs q2 w2 H2) as [[-> ->]|[Hne H2']].
    + assert (l2 = l) as -> by (cbn in Hl2; congruence). exists s'. rewrite lookup_insert_eq. split_and!; [done|done|]. intros u. unfold waits.
      destruct (decide (u = t)) as [->|Hu2]; [rewrite Hint, Hont, Ht; destruct b; naive_solver|]. destruct (Hin u Hu2) as [-> ->]. rewrite (Hu u Hu2). apply Hmem.
    + assert (l2 <> l) as Hnl by (intros ->; apply Hne; by eapply I4). destruct (I2 q2 w2 l2 H2' Hl2) as (s2 & Hs2 & Hc2 & Hm2).
      exists s2. rewrite lookup_insert_ne by done. split_and!; [done|done|]. intros u. unfold waits. destruct (decide (u = t)) as [->|Hu2].
      * rewrite Hint, Hont, Hm2. split.
        -- intros [Hi2 Hb2]. rewrite (Hon Hi2) in Hb2. congruence.
        -- destruct b; naive_solver.
      * destruct (Hin u Hu2) as [-> ->]. apply Hm2.
  - intros l2 s2 H2. destruct (decide (l2 = l)) as [->|Hne].
    + destruct (Hback q wq Hq) as (w3 & H3 & E3). exists q, w3. split; [done|congruence].
    + rewrite lookup_insert_ne in H2 by done. destruct (I3 l2 s2 H2) as (q2 & w2 & Hw2 & Hlw). destruct (Hback q2 w2 Hw2) as (w3 & H3 & E3).
      exists q2, w3. split; [done|congruence].
  - intros q1 q2 w1 w2 l2 H1 H2 Hl1 Hl2.
    assert (Hold : forall q0 w0, queues W' !! q0 = Some w0 -> exists w, queues W !! q0 = Some w /\ wlist w = wlist w0).
    { intros q0 w0 H0. destruct (Hqs q0 w0 H0) as [[-> ->]|[_ H0']]; eauto. }
    destruct (Hold _ _ H1) as (w1' & H1' & E1), (Hold _ _ H2) as (w2' & H2' & E2). eapply (I4 q1 q2 w1' w2' l2); congruence.
  - intros u. destruct (decide (u = t)) as [->|Hu2].
    + rewrite Hint, Hont. intros ->. destruct (Hback q wq Hq) as (w3 & H3 & E3). exists q, w3, l. split_and!; [done|done|congruence].
    + destruct (Hin u Hu2) as [-> ->]. intros Hu3. destruct (I5 u Hu3) as (q2 & w2 & l2 & ? & H2 & ?). destruct (Hback q2 w2 H2) as (w3 & H3 & E3).
      exists q2, w3, l2. split_and!; [done|done|congruence].
  - intros u nd Hiu Hn. cbn [wheap] in Hn. change (nodes h !! u = Some nd) in Hn. destruct (decide (u = t)) as [->|Hu2].
    + rewrite Hint in Hiu. by apply Hdt.
    + rewrite (proj1 (Hin u Hu2)) in Hiu. specialize (Hdu u Hu2). rewrite Hn in Hdu. cbn in Hdu. destruct (nodes (wheap W) !! u) as [nd0|] eqn:Hn0; [|done].
      injection Hdu as ->. by eapply I6.
  - cbn. rewrite Hsz. exact I7.
  - destruct I8 as [w8 H8]. destruct (Hback _ _ H8) as (w3 & H3 & _). eauto.
  - intros u Hu2. destruct (decide (u = t)) as [->|Hne]; [rewrite Hint; destruct b; [by destruct Hx|done]|]. rewrite (proj1 (Hin u Hne)). by apply I9.
Qed.

(** The rest of the invariant does not look at the lists. *)
Lemma inv_relist W t (b : bool) p Q h C C' : inv W C ->
  let W' := updw t (set_blocked_on p) (upd t (set_in_wait_queue b) (set_queues Q (set_wheap h W))) in
  wq_inv W' C' -> inv W' C'.
Proof.
  intros [Hw Hd Hs] W' Hw'. constructor; [done| |].
  - apply (dinv_rest (sched W)); try done. intros u. change (wrest (thread (upd t (set_in_wait_queue b) W) u) = wrest (thread W u)).
    destruct (decide (u = t)) as [->|Hu]; [by rewrite upd_self|by rewrite upd_other].
  - apply (sleep_frame (threads (sched W))); [done|]. intros u. change (skey (thread (upd t (set_in_wait_queue b) W) u) = skey (thread W u)).
    destruct (decide (u = t)) as [->|Hu]; [by rewrite upd_self|by rewrite upd_other].
Qed.

(** A thread that waits is in the list of its queue. *)
Lemma waiting_at W C t : inv W C -> in_wait_queue (thread W t) = true ->
  exists q wq l a b nd, blocked_on (waiters W t) = Some q /\ queues W !! q = Some wq /\ wlist wq = Some l /\ C !! l = Some (a ++ t :: b) /\
    waiter_count wq = zlen (a ++ t :: b) /\ nodes (wheap W) !! t = Some nd /\ owner nd = Some l.
Proof.
  intros Hi Ht. pose proof (i_wait _ _ Hi) as Hw. destruct (wi_blocked _ _ Hw t Ht) as (q & wq & l & Hb & Hq & Hl). destruct (wi_queue _ _ Hw q wq l Hq Hl) as (s & Hs & Hc & Hm).
  assert (Hin : t ∈ s) by (by apply Hm). apply list_elem_of_split in Hin as (a & b & ->).
  destruct (node_at _ _ _ _ _ _ (wi_heap _ _ Hw) Hs) as [d Hd]. by exists q, wq, l, a, b, (mk_node d (first_or b None) (last_or a None) (Some l)).
Qed.

Lemma idle_node W C t l s : inv W C -> in_wait_queue (thread W t) = false -> C !! l = Some s -> t ∉ s.
Proof.
  intros Hi Ht Hs Hin. pose proof (i_wait _ _ Hi) as Hw. destruct (wi_lists _ _ Hw l s Hs) as (q & wq & Hq & Hl). destruct (wi_queue _ _ Hw q wq l Hq Hl) as (s' & Hs' & ? & Hm).
  assert (s' = s) as -> by congruence. apply Hm in Hin as [Hin _]. congruence.
Qed.

Lemma queue_waits W C t l s : inv W C -> C !! l = Some s -> t ∈ s -> in_wait_queue (thread W t) = true.
Proof. intros Hi Hs Hin. destruct (in_wait_queue (thread W t)) eqn:Ht; [done|]. by destruct (idle_node W C t l s Hi Ht Hs). Qed.

(** A thread in a queue is not on its way out. *)
Lemma queued_not_x W C t l s : inv W C -> C !! l = Some s -> t ∈ s -> x <> Some t.
Proof. intros Hi Hs Hin Hx. by apply (idle_node W C t l s Hi (wi_exit _ _ (i_wait _ _ Hi) t Hx) Hs). Qed.

(** A node out of every list is clear. *)
Lemma loose_node h C n nd : heap_ok h C -> nodes h !! n = Some nd -> (forall l s, C !! l = Some s -> n ∉ s) ->
  nd = mk_node (data nd) None None None.
Proof.
  intros Hok Hn Hno. destruct (owner nd) as [l|] eqn:Ho.
  - destruct (ok_owned _ _ Hok _ _ _ Hn Ho) as (s & Hs & Hin). by destruct (Hno l s Hs).
  - destruct (ok_free _ _ Hok _ _ Hn Ho). destruct nd. cbn in *. by subst.
Qed.

Lemma heap_same h n nd : nodes h !! n = Some nd -> mk_heap (<[n := nd]> (nodes h)) (lists h) = h.
Proof. intros Hn. rewrite insert_id by done. by destruct h. Qed.

Lemma put_same h n nd f : nodes h !! n = Some nd -> f nd = nd -> put_node h n f = Some h.
Proof. intros Hn Hf. rewrite (put_node_ok h n nd f Hn), Hf. by rewrite heap_same. Qed.

Definition qseq (wq : sched_wait_queue_t) : ptr Z * Z * bool := (wlist wq, wake_seq wq, poll_link wq).

(** Thread [t] is out of the queue it may have been in; nothing else has changed. *)
Record leaves t W W' C C' : Prop := {
  lv_seqs : C' = (fun s => ll_remove s t) <$> C;
  lv_out : in_wait_queue (thread W' t) = false;
  lv_threads : forall u, set_in_wait_queue false (thread W' u) = set_in_wait_queue false (thread W u);
  lv_waiters : forall u, set_blocked_on None (waiters W' u) = set_blocked_on None (waiters W u);
  lv_others : forall u, u <> t -> thread W' u = thread W u /\ waiters W' u = waiters W u;
  lv_queues : qseq <$> queues W' = qseq <$> queues W;
  lv_data : same_data (wheap W) (wheap W');
  lv_sched : exists ts, sched W' = set_threads ts (sched W);
  lv_sleep : sleep W' = sleep W;
  lv_poll : poll_wait_queue W' = poll_wait_queue W
}.

Lemma remove_everywhere C t l a b : (forall l2 s2, C !! l2 = Some s2 -> t ∈ s2 -> l2 = l) -> NoDup (a ++ t :: b) -> C !! l = Some (a ++ t :: b) ->
  <[l := a ++ b]> C = (fun s => ll_remove s t) <$> C.
Proof.
  intros Hu Hnd Hs. apply map_eq. intros l2. rewrite lookup_fmap. destruct (decide (l2 = l)) as [->|Hne].
  - rewrite lookup_insert_eq, Hs. cbn. by rewrite ll_remove_split.
  - rewrite lookup_insert_ne by done. destruct (C !! l2) as [s2|] eqn:H2; [|done]. cbn. rewrite ll_remove_other; [done|].
    intros Hin. by apply Hne, (Hu l2 s2).
Qed.

Lemma remove_nowhere C t : (forall l s, C !! l = Some s -> t ∉ s) -> C = (fun s => ll_remove s t) <$> C.
Proof.
  intros Hno. apply map_eq. intros l. rewrite lookup_fmap. destruct (C !! l) as [s|] eqn:Hs; [|done]. cbn. rewrite ll_remove_other; [done|]. by eapply Hno.
Qed.

(** The state after thread [t] left the list of queue [q]. *)
Lemma left_ok W q wq l a b t h C : inv W C -> queues W !! q = Some wq -> wlist wq = Some l -> C !! l = Some (a ++ t :: b) ->
  blocked_on (waiters W t) = Some q -> heap_ok h (<[l := a ++ b]> C) -> same_data (wheap W) h ->
  let W' := updw t (set_blocked_on None) (upd t (set_in_wait_queue false) (set_queues (<[q := less_waiter wq]> (queues W)) (set_wheap h W))) in
  inv W' (<[l := a ++ b]> C) /\ leaves t W W' C (<[l := a ++ b]> C).
Proof.
  intros Hi Hq Hl Hs Hb Hh Hsd W'. pose proof (i_wait _ _ Hi) as Hw. destruct (ok_linked _ _ (wi_heap _ _ Hw) _ _ Hs) as [Hnd _].
  destruct (wi_queue _ _ Hw q wq l Hq Hl) as (s0 & Hs0 & Hc & _). assert (s0 = a ++ t :: b) as -> by congruence.
  assert (Hless : less_waiter wq = set_waiter_count (zlen (a ++ b)) wq).
  { unfold less_waiter, less_one. rewrite Hc, !zlen_app, zlen_cons'. pose proof (zlen_nonneg a). pose proof (zlen_nonneg b).
    rewrite (proj2 (Z.eqb_neq _ _)) by lia. f_equal. lia. }
  assert (Htn : t ∉ a ++ b) by (apply list.NoDup_app in Hnd as (_ & ? & [? _]%list.NoDup_cons); set_solver).
  split; [|constructor].
  - unfold W'. apply (inv_relist W t false None _ h C); [done|]. rewrite Hless.
    apply (relist_ok W q wq l (a ++ t :: b) (a ++ b) h t false C); try done.
    + intros u Hu. rewrite !elem_of_app, elem_of_cons. naive_solver.
    + by apply data_size.
  - apply remove_everywhere; [|done|done]. intros l2 s2 H2 Hin. eapply lists_disjoint; [apply Hw|exact H2|exact Hs|exact Hin|set_solver].
  - change (in_wait_queue (thread (upd t (set_in_wait_queue false) W) t) = false). by rewrite upd_self.
  - intros u. change (set_in_wait_queue false (thread (upd t (set_in_wait_queue false) W) u) = set_in_wait_queue false (thread W u)).
    destruct (decide (u = t)) as [->|Hu]; [by rewrite upd_self|by rewrite upd_other].
  - intros u. cbn. destruct (decide (u = t)) as [->|Hu]; [by rewrite fn_lookup_insert|by rewrite fn_lookup_insert_ne].
  - intros u Hu. split; [change (thread (upd t (set_in_wait_queue false) W) u = thread W u); by rewrite upd_other|]. cbn. by rewrite fn_lookup_insert_ne.
  - cbn. rewrite fmap_insert. apply insert_id. by rewrite lookup_fmap, Hq.
  - done.
  - by eexists.
  - done.
  - done.
Qed.

Lemma leaves_nothing t W C : inv W C -> in_wait_queue (thread W t) = false -> leaves t W W C C.
Proof.
  intros Hi Ht. constructor; try done; [|by exists (threads (sched W)); destruct (sched W)]. apply remove_nowhere. intros l s Hs. by eapply idle_node.
Qed.

Lemma dequeue_ok t W C : inv W C -> exists W' C', wq_dequeue t W = Some W' /\ inv W' C' /\ leaves t W W' C C'.
Proof.
  intros Hi. unfold wq_dequeue. destruct (in_wait_queue (thread W t)) eqn:Ht.
  2:{ exists W, C. split_and!; [by destruct (blocked_on (waiters W t))|done|by apply leaves_nothing]. }
  destruct (waiting_at W C t Hi Ht) as (q & wq & l & a & b & nd & Hb & Hq & Hl & Hs & Hc & Hn & Ho). rewrite Hb. cbn [negb]. rewrite Hq. cbn [mbind option_bind].
  rewrite bool_decide_false by (by rewrite Hl). unfold wq_unlink. rewrite Hq. cbn [mbind option_bind]. rewrite Hl, Hn. cbn [mbind option_bind].
  rewrite (bool_decide_true (owner nd = Some l)) by done. cbn [mbind option_bind]. pose proof (wi_heap _ _ (i_wait _ _ Hi)) as Hok.
  rewrite (wq_cut_unlink _ _ _ _ _ _ Hok Hs). destruct (unlink_ok _ _ _ _ _ _ Hok Hs) as (h & Hun & Hok'). rewrite Hun. cbn [mbind option_bind].
  pose proof (unlink_data _ _ _ _ _ _ Hun) as Hsd. unfold updq. cbn [queues set_wheap]. rewrite Hq. cbn [mbind option_bind].
  destruct (left_ok W q wq l a b t h C Hi Hq Hl Hs Hb) as [Hi' Hlv]; [done|done|].
  eexists _, _. split; [|split; [exact Hi'|exact Hlv]]. unfold wait_node_clear. cbn [wheap set_queues set_wheap].
  assert (Hn' : exists nd', nodes h !! t = Some nd').
  { specialize (Hsd t). rewrite Hn in Hsd. destruct (nodes h !! t) as [nd'|]; [eauto|done]. }
  destruct Hn' as [nd' Hn']. assert (Hfree : nd' = mk_node (data nd') None None None).
  { eapply loose_node; [exact Hok'|done|]. intros l2 s2 H2. eapply (idle_node _ _ t l2 s2 Hi'); [apply Hlv|done]. }
  do 3 (rewrite (put_same h t nd') by first [done|by rewrite Hfree]; cbn [mbind option_bind]). done.
Qed.

(** ** Waking a queue *)

Lemma wait_pop_ok q wq l s W C : inv W C -> queues W !! q = Some wq -> wlist wq = Some l -> C !! l = Some s ->
  match s with
  | [] => wait_queue_pop q W = Some (None, W)
  | t :: s' => exists W', wait_queue_pop q W = Some (Some t, W') /\ inv W' (<[l := s']> C) /\ leaves t W W' C (<[l := s']> C)
  end.
Proof.
  intros Hi Hq Hl Hs. pose proof (i_wait _ _ Hi) as Hw. pose proof (wi_heap _ _ Hw) as Hok. unfold wait_queue_pop. rewrite Hq. cbn [mbind option_bind].
  rewrite bool_decide_false by (by rewrite Hl). cbn [pop_loop]. unfold pop_node. rewrite Hq. cbn [mbind option_bind]. rewrite Hl. cbn [mbind option_bind].
  rewrite (list_at _ _ _ _ Hok Hs). cbn [mbind option_bind lhead]. destruct s as [|t s']; cbn [first_or]; [done|].
  rewrite (pop_cut_unlink _ _ _ _ _ Hok Hs). destruct (unlink_ok _ _ l [] t s' Hok Hs) as (h & Hun & Hok'). change (last_or [] None) with (@None Z) in Hun.
  rewrite Hun. cbn [mbind option_bind]. unfold updq. cbn [queues set_wheap]. rewrite Hq. cbn [mbind option_bind].
  pose proof (unlink_data _ _ _ _ _ _ Hun) as Hsd. destruct (wi_queue _ _ Hw q wq l Hq Hl) as (s0 & Hs0 & Hcnt & Hm). assert (s0 = t :: s') as -> by congruence.
  assert (Hwt : waits W t q) by (apply Hm; by left). destruct Hwt as [Hin Hb].
  destruct (in_list_owner _ _ _ _ t Hok Hs) as (nd & Hnd & _); [by left|]. pose proof (wi_data _ _ Hw t nd Hin Hnd) as Hdata.
  assert (Hnd' : exists nd', nodes h !! t = Some nd' /\ data nd' = t).
  { specialize (Hsd t). rewrite Hnd in Hsd. destruct (nodes h !! t) as [nd'|]; [|done]. injection Hsd as Hsd. exists nd'. split; [done|congruence]. }
  destruct Hnd' as (nd' & Hn' & Hd'). cbn [wheap set_queues set_wheap]. rewrite Hn'. cbn [mbind option_bind]. rewrite Hd'.
  pose proof (ok_range _ _ Hok t nd Hnd). rewrite (proj2 (Z.eqb_neq t 0)) by lia.
  assert (Hchk : negb (in_wait_queue (thread (set_queues (<[q := less_waiter wq]> (queues W)) (set_wheap h W)) t)) ||
    negb (bool_decide (blocked_on (waiters (set_queues (<[q := less_waiter wq]> (queues W)) (set_wheap h W)) t) = Some q)) = false).
  { change (negb (in_wait_queue (thread W t)) || negb (bool_decide (blocked_on (waiters W t) = Some q)) = false). rewrite Hin, bool_decide_true by done. done. }
  rewrite Hchk. eexists. split; [done|]. exact (left_ok W q wq l [] s' t h C Hi Hq Hl Hs Hb Hok' Hsd).
Qed.

(** The threads of [ts] are out of their queue and awake; nobody else is touched. *)
Record wakes (ts : list tid) W W' : Prop := {
  wk_woken : forall t, t ∈ ts -> in_wait_queue (thread W' t) = false /\ wait_result (waiters W' t) = SCHED_WAIT_WOKEN /\ woken t W W';
  wk_others : forall u, u ∉ ts -> state (thread W' u) = state (thread W u) /\ in_wait_queue (thread W' u) = in_wait_queue (thread W u) /\ waiters W' u = waiters W u;
  wk_rq : forall u, u ∉ ts -> on_rq (thread W' u) = on_rq (thread W u);
  wk_in : forall t, t ∈ ts -> in_wait_queue (thread W t) = true;
  wk_fixed : forall u, fixed (thread W' u) = fixed (thread W u);
  wk_queues : qseq <$> queues W' = qseq <$> queues W;
  wk_data : same_data (wheap W) (wheap W');
  wk_poll : poll_wait_queue W' = poll_wait_queue W;
  wk_cores : core_threads <$> cpus (sched W') = core_threads <$> cpus (sched W)
}.

Lemma wakes_nil W : wakes [] W W.
Proof. constructor; try done; by intros t ?%not_elem_of_nil. Qed.

Lemma woken_eq t W1 W1' W2 W2' : state (thread W1' t) = state (thread W1 t) -> core_threads <$> cpus (sched W1') = core_threads <$> cpus (sched W1) ->
  state (thread W2' t) = state (thread W2 t) -> woken t W1' W2 -> woken t W1 W2'.
Proof. intros E1 E2 E3 Hk Hs. rewrite E3, <- (on_core_same _ _ t E2). apply Hk. congruence. Qed.

Lemma wakes_app ts us W1 W2 W3 : wakes ts W1 W2 -> wakes us W2 W3 -> (forall t, t ∈ ts -> t ∉ us) -> wakes (ts ++ us) W1 W3.
Proof.
  intros [A1 A2 A7 A9 A8 A3 A4 A5 A6] [B1 B2 B7 B9 B8 B3 B4 B5 B6] Hd. constructor; [| | | | |congruence|by eapply same_data_trans|congruence|congruence].
  - intros t [Ht|Ht]%elem_of_app.
    + destruct (A1 t Ht) as (E1 & E2 & E3), (B2 t (Hd t Ht)) as (F1 & F2 & F3). split_and!; [congruence|congruence|]. by eapply woken_eq; [| |exact F1|exact E3].
    + destruct (B1 t Ht) as (E1 & E2 & E3). split_and!; [done|done|]. assert (Hn : t ∉ ts) by (intros Hn; by destruct (Hd t Hn)).
      destruct (A2 t Hn) as (F1 & _). by eapply woken_eq; [exact F1|exact A6| |exact E3].
  - intros u Hu. rewrite elem_of_app in Hu. destruct (A2 u) as (E1 & E2 & E3); [tauto|]. destruct (B2 u) as (F1 & F2 & F3); [tauto|]. split_and!; congruence.
  - intros u Hu. rewrite elem_of_app in Hu. rewrite B7, A7; tauto.
  - intros t [Ht|Ht]%elem_of_app; [by apply A9|]. assert (Hn : t ∉ ts) by (intros Hn; by destruct (Hd t Hn)). destruct (A2 t Hn) as (_ & <- & _). by apply B9.
  - intros u. by rewrite B8, A8.
Qed.

(** A thread that left its queue, then was woken. *)
Lemma leaves_wakes t W W1 W2 C C' : leaves t W W1 C C' -> in_wait_queue (thread W t) = true -> acts t W1 W2 -> wait_result (waiters W2 t) = SCHED_WAIT_WOKEN -> woken t W1 W2 -> wakes [t] W W2.
Proof.
  intros [L1 L2 L3 L4 L5 L6 L7 (ts & L8) L9 L10] Hin [[S1 S2 S3 S4 S5] A2 A4 A5 A3] Hr Hk. constructor.
  - intros u ->%list_elem_of_singleton. split_and!; [by rewrite S4|done|]. eapply woken_eq; [| |done|exact Hk]; [exact (f_equal state (L3 t))|by rewrite L8].
  - intros u Hu. assert (Hne : u <> t) by (intros ->; by apply Hu, list_elem_of_singleton). destruct (A2 u Hne) as (-> & _ & ->). rewrite S4.
    by destruct (L5 u Hne) as [-> ->].
  - intros u Hu. rewrite A4 by (intros ->; by apply Hu, list_elem_of_singleton). exact (f_equal on_rq (L3 u)).
  - by intros u ->%list_elem_of_singleton.
  - intros u. rewrite A5. exact (f_equal fixed (L3 u)).
  - by rewrite S2.
  - by rewrite S1.
  - by rewrite S3.
  - rewrite A3. by rewrite L8.
Qed.

Lemma wake_one_ok e q wq l s W C : inv W C -> 0 <= me e < MAX_CORES -> queues W !! q = Some wq -> wlist wq = Some l -> C !! l = Some s ->
  exists W', wake_queue_one e q W = Some W' /\ inv W' (<[l := tail s]> C) /\ wakes (take 1 s) W W'.
Proof.
  intros Hi He Hq Hl Hs. unfold wake_queue_one. pose proof (wait_pop_ok q wq l s W C Hi Hq Hl Hs) as Hp. destruct s as [|t s].
  - rewrite Hp. cbn [mbind option_bind]. exists W. split_and!; [done|by rewrite insert_id|apply wakes_nil].
  - destruct Hp as (W1 & -> & Hi1 & Hl1). cbn [mbind option_bind]. assert (Hx : x <> Some t) by (eapply queued_not_x; [exact Hi|exact Hs|by left]).
    destruct (wake_waiter_ok e t W1 _ Hi1 Hx He) as (W2 & -> & Hi2 & Ha & Hr & Hk).
    exists W2. split_and!; [done|done|]. cbn [take firstn]. eapply leaves_wakes; [exact Hl1| |done..]. eapply queue_waits; [exact Hi|exact Hs|by left].
Qed.

Lemma qseq_at W W' q wq : qseq <$> queues W' = qseq <$> queues W -> queues W !! q = Some wq ->
  exists wq', queues W' !! q = Some wq' /\ wlist wq' = wlist wq /\ wake_seq wq' = wake_seq wq /\ poll_link wq' = poll_link wq.
Proof.
  intros Hq Hw. assert (Hx : (qseq <$> queues W) !! q = Some (qseq wq)) by (by rewrite lookup_fmap, Hw).
  rewrite <- Hq, lookup_fmap in Hx. destruct (queues W' !! q) as [wq'|]; [|done]. injection Hx as ? ? ?. eauto.
Qed.

Lemma wake_all_loop_ok e q l n s W C wq : inv W C -> 0 <= me e < MAX_CORES -> queues W !! q = Some wq -> wlist wq = Some l -> C !! l = Some s ->
  (length s < n)%nat -> exists W', wake_all_loop n e q W = Some W' /\ inv W' (<[l := []]> C) /\ wakes s W W'.
Proof.
  revert n W C wq. induction s as [|t s IH]; intros n W C wq Hi He Hq Hl Hs Hn; (destruct n as [|n]; [cbn in Hn; lia|]); cbn [wake_all_loop].
  - rewrite (wait_pop_ok q wq l [] W C Hi Hq Hl Hs). cbn [mbind option_bind]. exists W. split_and!; [done|by rewrite insert_id|apply wakes_nil].
  - destruct (wait_pop_ok q wq l (t :: s) W C Hi Hq Hl Hs) as (W1 & -> & Hi1 & Hl1). cbn [mbind option_bind].
    assert (Hx : x <> Some t) by (eapply queued_not_x; [exact Hi|exact Hs|by left]).
    destruct (wake_waiter_ok e t W1 _ Hi1 Hx He) as (W2 & -> & Hi2 & Ha & Hr & Hk). cbn [mbind option_bind].
    assert (Hin : in_wait_queue (thread W t) = true) by (eapply queue_waits; [exact Hi|exact Hs|by left]).
    pose proof (leaves_wakes _ _ _ _ _ _ Hl1 Hin Ha Hr Hk) as Hw. destruct (qseq_at W W2 q wq (wk_queues _ _ _ Hw) Hq) as (wq2 & Hq2 & El & _).
    destruct (IH n W2 (<[l := s]> C) wq2) as (W3 & -> & Hi3 & Hw3); [done|done|done|congruence|apply lookup_insert_eq|cbn in Hn; lia|].
    exists W3. split_and!; [done|by rewrite insert_insert_eq in Hi3|]. apply (wakes_app [t] s W W2 W3 Hw Hw3).
    intros u ->%list_elem_of_singleton. destruct (ok_linked _ _ (wi_heap _ _ (i_wait _ _ Hi)) _ _ Hs) as [[Hnd _]%list.NoDup_cons _]. done.
Qed.

Lemma wake_all_ok e q wq l s W C : inv W C -> 0 <= me e < MAX_CORES -> queues W !! q = Some wq -> wlist wq = Some l -> C !! l = Some s ->
  exists W', wake_queue_all e q W = Some W' /\ inv W' (<[l := []]> C) /\ wakes s W W'.
Proof.
  intros Hi He Hq Hl Hs. unfold wake_queue_all. eapply wake_all_loop_ok; try done.
  pose proof (seq_le_size _ _ _ _ (wi_heap _ _ (i_wait _ _ Hi)) Hs). lia.
Qed.

(** ** Counting a wake-up *)

Lemma updq_ok q wq f W C : inv W C -> queues W !! q = Some wq -> (forall wq, qlink (f wq) = qlink wq) ->
  updq q f W = Some (set_queues (<[q := f wq]> (queues W)) W) /\ inv (set_queues (<[q := f wq]> (queues W)) W) C.
Proof.
  intros [Hw Hd Hs] Hq Hf. unfold updq. rewrite Hq. cbn [mbind option_bind]. split; [done|]. constructor; [|done|done].
  apply (wq_frame W); try done. cbn. rewrite fmap_insert, Hf. apply insert_id. by rewrite lookup_fmap, Hq.
Qed.

(** Only the queues' counters of wake-ups changed. *)
Record counted W W' : Prop := {
  ct_sched : sched W' = sched W;
  ct_waiters : waiters W' = waiters W;
  ct_heap : wheap W' = wheap W;
  ct_sleep : sleep W' = sleep W;
  ct_poll : poll_wait_queue W' = poll_wait_queue W;
  ct_links : qlink <$> queues W' = qlink <$> queues W
}.

Lemma counted_trans W1 W2 W3 : counted W1 W2 -> counted W2 W3 -> counted W1 W3.
Proof. intros [] []. constructor; congruence. Qed.

Definition seq_next (wq : sched_wait_queue_t) : sched_wait_queue_t := set_wake_seq (u32_wrap (wake_seq wq + 1)) wq.

Lemma bump_ok q wq W C : inv W C -> queues W !! q = Some wq ->
  exists W', bump_seq q W = Some W' /\ inv W' C /\ counted W W' /\ queues W' = <[q := seq_next wq]> (queues W).
Proof.
  intros Hi Hq. destruct (updq_ok q wq seq_next W C Hi Hq) as [He Hi']; [done|]. eexists. split_and!; [exact He|done| |done].
  constructor; try done. cbn. rewrite fmap_insert. apply insert_id. by rewrite lookup_fmap, Hq.
Qed.

Lemma qlink_at W W' q wq : qlink <$> queues W' = qlink <$> queues W -> queues W !! q = Some wq ->
  exists wq', queues W' !! q = Some wq' /\ wlist wq' = wlist wq /\ waiter_count wq' = waiter_count wq.
Proof.
  intros Hq Hw. assert (Hx : (qlink <$> queues W) !! q = Some (qlink wq)) by (by rewrite lookup_fmap, Hw).
  rewrite <- Hq, lookup_fmap in Hx. destruct (queues W' !! q) as [wq'|]; [|done]. injection Hx as ? ?. eauto.
Qed.

Lemma has_waiters_ok q wq l s W C : inv W C -> queues W !! q = Some wq -> wlist wq = Some l -> C !! l = Some s ->
  waitq_has_waiters q W = Some (bool_decide (s <> [])).
Proof.
  intros Hi Hq Hl Hs. unfold waitq_has_waiters. rewrite Hq. cbn [mbind option_bind]. rewrite bool_decide_false by (by rewrite Hl).
  destruct (wi_queue _ _ (i_wait _ _ Hi) q wq l Hq Hl) as (s' & Hs' & -> & _). assert (s' = s) as -> by congruence. f_equal. by destruct s.
Qed.

(** The pollers to wake: those of the poll queue, when the queue reports to it. *)
Definition pollers W C q wq : list tid :=
  if bool_decide (q = poll_wait_queue W) || negb (poll_link wq) then []
  else match queues W !! poll_wait_queue W with
       | Some pq => match wlist pq with Some pl => default [] (C !! pl) | None => [] end
       | None => []
       end.

Lemma wake_count_ok q wq l s W C : inv W C -> queues W !! q = Some wq -> wlist wq = Some l -> C !! l = Some s ->
  exists W1, wake_count q W = Some (bool_decide (s <> []), bool_decide (pollers W C q wq <> []), W1) /\ inv W1 C /\ counted W W1 /\
    (exists wq1, queues W1 !! q = Some wq1 /\ wlist wq1 = Some l /\ wake_seq wq1 = u32_wrap (wake_seq wq + 1) /\ poll_link wq1 = poll_link wq).
Proof.
  intros Hi Hq Hl Hs. unfold wake_count. destruct (bump_ok q wq W C Hi Hq) as (W1 & -> & Hi1 & Hc1 & Hq1). cbn [mbind option_bind].
  assert (Hqq : queues W1 !! q = Some (seq_next wq)) by (rewrite Hq1; apply lookup_insert_eq).
  rewrite (has_waiters_ok q (seq_next wq) l s W1 C) by done. cbn [mbind option_bind]. unfold poll_wait_linked, pollers. rewrite (ct_poll _ _ Hc1).
  destruct (Z.eqb_spec q (poll_wait_queue W)) as [He|Hne].
  { cbn [mbind option_bind]. rewrite (bool_decide_true (q = _)) by done. cbn [orb]. exists W1. split_and!; eauto. }
  rewrite Hqq. cbn [mbind option_bind]. change (poll_link (seq_next wq)) with (poll_link wq). rewrite (bool_decide_false (q = _)) by done. cbn [orb].
  destruct (poll_link wq) eqn:Hpl; cbn [negb mbind option_bind]; [|exists W1; split_and!; eauto].
  destruct (wi_poll _ _ (i_wait _ _ Hi)) as [pq Hp].
  assert (Hp1 : queues W1 !! poll_wait_queue W = Some pq) by (rewrite Hq1; by rewrite lookup_insert_ne).
  rewrite Hp1, Hp. cbn [mbind option_bind]. destruct (wlist pq) as [pl|] eqn:Hpll.
  2:{ rewrite bool_decide_false by (by intros []). exists W1. split_and!; eauto. }
  rewrite bool_decide_true by done. destruct (bump_ok _ pq W1 C Hi1 Hp1) as (W2 & -> & Hi2 & Hc2 & Hq2). cbn [mbind option_bind].
  rewrite (ct_poll _ _ Hc2), (ct_poll _ _ Hc1). destruct (wi_queue _ _ (i_wait _ _ Hi) _ _ _ Hp Hpll) as (ps & Hps & _). rewrite Hps. cbn [default].
  assert (Hp2 : queues W2 !! poll_wait_queue W = Some (seq_next pq)) by (rewrite Hq2; apply lookup_insert_eq).
  rewrite (has_waiters_ok _ (seq_next pq) pl ps W2 C) by done. cbn [mbind option_bind]. exists W2. split_and!; [done|done|by eapply counted_trans|].
  exists (seq_next wq). rewrite Hq2, lookup_insert_ne by done. split_and!; done.
Qed.

Lemma pollers_in W C q wq l : inv W C -> queues W !! q = Some wq -> wlist wq = Some l -> pollers W C q wq <> [] ->
  exists pq pl, queues W !! poll_wait_queue W = Some pq /\ wlist pq = Some pl /\ C !! pl = Some (pollers W C q wq) /\ pl <> l.
Proof.
  intros Hi Hq Hl. unfold pollers. destruct (bool_decide_reflect (q = poll_wait_queue W)) as [|Hne]; cbn [orb]; [done|].
  destruct (poll_link wq); cbn [negb]; [|done]. destruct (wi_poll _ _ (i_wait _ _ Hi)) as [pq Hp]. rewrite Hp.
  destruct (wlist pq) as [pl|] eqn:Hpl; [|done]. destruct (wi_queue _ _ (i_wait _ _ Hi) _ _ _ Hp Hpl) as (ps & Hps & _). rewrite Hps. cbn [default].
  intros _. exists pq, pl. split_and!; try done. intros ->. apply Hne. symmetry. by eapply (wi_apart _ _ (i_wait _ _ Hi)).
Qed.

(** Waking [n] of the queue's threads, then the pollers. *)
Lemma wake_both_ok e q wq l s n s' W W1 C (m : wait_state_t -> option wait_state_t) :
  inv W C -> 0 <= me e < MAX_CORES -> queues W !! q = Some wq -> wlist wq = Some l -> C !! l = Some s -> (forall t, t ∈ n -> t ∈ s) ->
  counted W W1 ->
  (exists W2, m W1 = Some W2 /\ inv W2 (<[l := s']> C) /\ wakes n W1 W2) ->
  exists W' C', (W2 ← m W1; wake_pollers_all e (bool_decide (pollers W C q wq <> [])) W2) = Some W' /\ inv W' C' /\ C' !! l = Some s' /\
    wakes (n ++ pollers W C q wq) W1 W'.
Proof.
  intros Hi He Hq Hl Hs Hn Hc (W2 & -> & Hi2 & Hw2). cbn [mbind option_bind]. unfold wake_pollers_all. case_bool_decide as Hp.
  2:{ rewrite Hp, app_nil_r. exists W2, (<[l := s']> C). split_and!; [done|done|apply lookup_insert_eq|done]. }
  destruct (pollers_in W C q wq l Hi Hq Hl Hp) as (pq & pl & Hpq & Hpl & Hps & Hne).
  destruct (qlink_at W W1 _ pq (ct_links _ _ Hc) Hpq) as (pq1 & Hpq1 & E1 & _).
  destruct (qseq_at W1 W2 _ pq1 (wk_queues _ _ _ Hw2) Hpq1) as (pq2 & Hpq2 & E2 & _).
  destruct (wake_all_ok e (poll_wait_queue W) pq2 pl (pollers W C q wq) W2 (<[l := s']> C)) as (W3 & HW3 & Hi3 & Hw3);
    [done|done|done|congruence|by rewrite lookup_insert_ne|].
  rewrite (wk_poll _ _ _ Hw2), (ct_poll _ _ Hc), HW3. exists W3, (<[pl := []]> (<[l := s']> C)).
  split_and!; [done|done|by rewrite lookup_insert_ne, lookup_insert_eq|]. apply (wakes_app n _ W1 W2 W3 Hw2 Hw3).
  intros t Ht Htp. apply Hne. by eapply (lists_disjoint _ _ _ _ _ _ t (wi_heap _ _ (i_wait _ _ Hi)) Hps Hs Htp), Hn.
Qed.

Lemma take_one (s : list Z) t : t ∈ take 1 s -> t ∈ s.
Proof. destruct s as [|u s]; [done|]. cbn. rewrite list_elem_of_singleton, elem_of_cons. by left. Qed.

(** A wake-up of a queue: it is counted; the first waiter, or all of them, and the pollers are awake. *)
Record wakeup q wq l W W' C (s n s' : list Z) : Prop := {
  wu_inv : exists C', inv W' C' /\ C' !! l = Some s';
  wu_wakes : exists W1, counted W W1 /\ wakes (n ++ pollers W C q wq) W1 W';
  wu_seq : exists wq', queues W' !! q = Some wq' /\ wlist wq' = Some l /\ wake_seq wq' = u32_wrap (wake_seq wq + 1)
}.

Lemma wakeup_ok e q wq l s n s' W C (m : bool -> wait_state_t -> option wait_state_t) :
  inv W C -> 0 <= me e < MAX_CORES -> queues W !! q = Some wq -> wlist wq = Some l -> C !! l = Some s -> (forall t, t ∈ n -> t ∈ s) ->
  (s = [] -> n = [] /\ s' = []) -> (forall W, m false W = Some W) ->
  (forall W1 wq1, inv W1 C -> queues W1 !! q = Some wq1 -> wlist wq1 = Some l -> exists W2, m true W1 = Some W2 /\ inv W2 (<[l := s']> C) /\ wakes n W1 W2) ->
  exists W', ('(wake_queue, wake_pollers, W) ← wake_count q W;
              if negb wake_queue && negb wake_pollers then Some W
              else W ← m wake_queue W; wake_pollers_all e wake_pollers W) = Some W' /\ wakeup q wq l W W' C s n s'.
Proof.
  intros Hi He Hq Hl Hs Hn Hnil Hf Ht. destruct (wake_count_ok q wq l s W C Hi Hq Hl Hs) as (W1 & -> & Hi1 & Hc & (wq1 & Hq1 & Hl1 & Hs1 & _)). cbn [mbind option_bind].
  assert (Hm : exists W2, m (bool_decide (s <> [])) W1 = Some W2 /\ inv W2 (<[l := s']> C) /\ wakes n W1 W2).
  { case_bool_decide as Hb; [by eapply Ht|]. destruct (Hnil Hb) as [-> ->]. exists W1. subst s.
    split_and!; [done|by rewrite insert_id|apply wakes_nil]. }
  destruct (wake_both_ok e q wq l s n s' W W1 C (m (bool_decide (s <> []))) Hi He Hq Hl Hs Hn Hc Hm) as (W' & C' & HW' & Hi' & Hl' & Hw').
  assert (Hend : (if negb (bool_decide (s <> [])) && negb (bool_decide (pollers W C q wq <> [])) then Some W1
    else W0 ← m (bool_decide (s <> [])) W1; wake_pollers_all e (bool_decide (pollers W C q wq <> [])) W0) = Some W').
  { destruct (_ && _) eqn:Hb; [|done]. apply andb_true_iff in Hb as [H1 H2]. apply negb_true_iff in H1, H2. rewrite H1, H2, Hf in HW'. exact HW'. }
  exists W'. split; [exact Hend|]. constructor; [eauto|eauto|]. destruct (qseq_at W1 W' q wq1 (wk_queues _ _ _ Hw') Hq1) as (wq' & Hq' & E1 & E2 & _).
  exists wq'. split_and!; [done|congruence|congruence].
Qed.

Lemma sched_wake_one_locked_ok e q wq l s W C : inv W C -> 0 <= me e < MAX_CORES -> queues W !! q = Some wq -> wlist wq = Some l -> C !! l = Some s ->
  exists W', sched_wake_one_locked e q W = Some W' /\ wakeup q wq l W W' C s (take 1 s) (tail s).
Proof.
  intros Hi He Hq Hl Hs. unfold sched_wake_one_locked. rewrite Hq. cbn [mbind option_bind]. rewrite bool_decide_false by (by rewrite Hl).
  apply (wakeup_ok e q wq l s (take 1 s) (tail s) W C (fun (b : bool) W => if b then wake_queue_one e q W else Some W)); try done.
  - apply take_one.
  - by intros ->.
  - intros W1 wq1 Hi1 Hq1 Hl1. by eapply wake_one_ok.
Qed.

Lemma sched_wake_one_ok e q wq l s W C : inv W C -> 0 <= me e < MAX_CORES -> queues W !! q = Some wq -> wlist wq = Some l -> C !! l = Some s ->
  exists W', sched_wake_one e q W = Some W' /\ wakeup q wq l W W' C s (take 1 s) (tail s).
Proof.
  intros Hi He Hq Hl Hs. unfold sched_wake_one. rewrite Hq. cbn [mbind option_bind]. rewrite bool_decide_false by (by rewrite Hl).
  by apply sched_wake_one_locked_ok.
Qed.

Lemma sched_wake_all_ok e q wq l s W C : inv W C -> 0 <= me e < MAX_CORES -> queues W !! q = Some wq -> wlist wq = Some l -> C !! l = Some s ->
  exists W', sched_wake_all e q W = Some W' /\ wakeup q wq l W W' C s s [].
Proof.
  intros Hi He Hq Hl Hs. unfold sched_wake_all, wake_all_locked. rewrite Hq. cbn [mbind option_bind]. rewrite bool_decide_false by (by rewrite Hl).
  apply (wakeup_ok (locked e) q wq l s s [] W C (fun (b : bool) W => if b then wake_queue_all (locked e) q W else Some W)); try done.
  intros W1 wq1 Hi1 Hq1 Hl1. by eapply wake_all_ok.
Qed.

(** ** Going to sleep *)

(** Writing what a node of no list points to. *)
Lemma retarget_ok h C n nd d : heap_ok h C -> nodes h !! n = Some nd -> (forall l s, C !! l = Some s -> n ∉ s) ->
  heap_ok (mk_heap (<[n := mk_node d (nnext nd) (nprev nd) (owner nd)]> (nodes h)) (lists h)) C.
Proof.
  intros Hok Hn Hno. pose proof (loose_node h C n nd Hok Hn Hno) as Hnd. rewrite Hnd. cbn [nnext nprev owner].
  destruct Hok as [O1 O2 O3 O4 O5]. constructor; cbn [nodes lists]; [done| | | |].
  - intros l s Hs. destruct (O2 l s Hs) as [? Hl]. split; [done|]. apply linked_frame; [by eapply Hno|done].
  - intros m md Hm Ho. destruct (decide (m = n)) as [->|Hne]; [rewrite lookup_insert_eq in Hm; by injection Hm as <-|].
    rewrite lookup_insert_ne in Hm by done. by eapply O3.
  - intros m md l Hm Ho. destruct (decide (m = n)) as [->|Hne]; [rewrite lookup_insert_eq in Hm; by injection Hm as <-|].
    rewrite lookup_insert_ne in Hm by done. by eapply O4.
  - intros m md Hm. destruct (decide (m = n)) as [->|Hne]; [by eapply O5|]. rewrite lookup_insert_ne in Hm by done. by eapply O5.
Qed.

(** Thread [t], which waits nowhere, enters the list of queue [q] at its end. *)
Lemma enter_ok W q wq l s t nd C : inv W C -> queues W !! q = Some wq -> wlist wq = Some l -> C !! l = Some s ->
  in_wait_queue (thread W t) = false -> nodes (wheap W) !! t = Some nd -> data nd = t -> x <> Some t ->
  exists W', wait_append_locked q t W = Some (true, W') /\ inv W' (<[l := s ++ [t]]> C) /\ waits W' t q /\
    (forall u, set_in_wait_queue false (thread W' u) = set_in_wait_queue false (thread W u)) /\
    (forall u, u <> t -> thread W' u = thread W u /\ waiters W' u = waiters W u) /\
    qseq <$> queues W' = qseq <$> queues W /\ is_Some (nodes (wheap W') !! t) /\ sleep W' = sleep W /\
    (exists ts, sched W' = set_threads ts (sched W)).
Proof.
  intros Hi Hq Hl Hs Hin Hn Hd Hx. pose proof (i_wait _ _ Hi) as Hw. pose proof (wi_heap _ _ Hw) as Hok.
  assert (Hno : forall l s, C !! l = Some s -> t ∉ s) by (intros l2 s2 H2; by eapply idle_node).
  assert (Ho : owner nd = None) by (by rewrite (loose_node _ _ _ _ Hok Hn Hno)).
  destruct (append_ok _ _ _ _ _ _ Hok Hs Hn Ho) as (h & Ha & Hok'). pose proof (append_data _ _ _ _ _ Ha) as Hsd.
  unfold wait_append_locked. rewrite Hq. cbn [mbind option_bind]. rewrite Hl, Ha. cbn [mbind option_bind negb].
  unfold updq. cbn [queues set_wheap]. rewrite Hq. cbn [mbind option_bind].
  assert (Hcnt : u32_wrap (waiter_count wq + 1) = zlen (s ++ [t])).
  { destruct (wi_queue _ _ Hw q wq l Hq Hl) as (s0 & Hs0 & -> & _). assert (s0 = s) as -> by congruence. rewrite zlen_succ. apply u32_wrap_small.
    pose proof (zlen_nonneg s). assert (Hle : (length (s ++ [t]) <= size (nodes h))%nat) by (eapply seq_le_size; [exact Hok'|apply lookup_insert_eq]).
    rewrite (data_size _ _ Hsd), length_app in Hle. pose proof (wi_few _ _ Hw). unfold zlen. cbn in Hle. lia. }
  rewrite Hcnt. eexists. split; [reflexivity|].
  assert (Hnd : NoDup (s ++ [t])) by (eapply (ok_linked _ _ Hok'), lookup_insert_eq).
  split; [|split; [split|]; [|cbn; by rewrite fn_lookup_insert|split_and!]].
  - apply (inv_relist W t true (Some q) _ h C); [done|].
    apply (relist_ok W q wq l s (s ++ [t]) h t true C); try done; [by rewrite Hin| | | |by apply data_size].
    + intros u Hu. rewrite elem_of_app, list_elem_of_singleton. naive_solver.
    + split; [done|]. intros _. apply elem_of_app. right. by apply list_elem_of_singleton.
    + intros nd' _ Hn'. specialize (Hsd t). rewrite Hn, Hn' in Hsd. injection Hsd as ->. done.
  - change (in_wait_queue (thread (upd t (set_in_wait_queue true) W) t) = true). by rewrite upd_self.
  - intros u. change (set_in_wait_queue false (thread (upd t (set_in_wait_queue true) W) u) = set_in_wait_queue false (thread W u)).
    destruct (decide (u = t)) as [->|Hu]; [by rewrite upd_self|by rewrite upd_other].
  - intros u Hu. split; [change (thread (upd t (set_in_wait_queue true) W) u = thread W u); by rewrite upd_other|]. cbn. by rewrite fn_lookup_insert_ne.
  - cbn. rewrite fmap_insert. apply insert_id. by rewrite lookup_fmap, Hq.
  - cbn. specialize (Hsd t). rewrite Hn in Hsd. destruct (nodes h !! t); [eauto|done].
  - done.
  - by eexists.
Qed.

(** A thread leaves its queue again and runs on: no room in the sleep queue. *)
Lemma back_out_ok W q wq l s t C : inv W (<[l := s ++ [t]]> C) -> queues W !! q = Some wq -> wlist wq = Some l -> waits W t q ->
  sleep_queued (thread W t) = false -> on_rq (thread W t) = false -> C !! l = Some s -> x <> Some t ->
  exists W', (W ← drop_waiter q t W; wait_restore_running t W) = Some W' /\ inv W' C /\ state (thread W' t) = THREAD_RUNNING /\
    in_wait_queue (thread W' t) = false /\ qseq <$> queues W' = qseq <$> queues W.
Proof.
  intros Hi Hq Hl [Hin Hb] Hsl Hrq Hs Hx. pose proof (wi_heap _ _ (i_wait _ _ Hi)) as Hok. set (C1 := <[l := s ++ [t]]> C) in *.
  assert (Hs1 : C1 !! l = Some (s ++ [t])) by apply lookup_insert_eq.
  destruct (in_list_owner _ _ _ _ t Hok Hs1) as (nd & Hn & _); [set_solver|].
  destruct (ok_linked _ _ Hok _ _ Hs1) as [Hnd _].
  unfold drop_waiter. rewrite Hq. cbn [mbind option_bind]. rewrite Hl. destruct (remove_ok _ _ _ _ _ _ Hok Hs1 Hn) as (h & Hr & Hok'). rewrite Hr.
  rewrite bool_decide_true by set_solver. cbn [mbind option_bind]. unfold updq. cbn [queues set_wheap]. rewrite Hq. cbn [mbind option_bind].
  pose proof (remove_data _ _ _ _ _ Hr) as Hsd. rewrite ll_remove_split in Hok' by done. rewrite app_nil_r in Hok'.
  destruct (left_ok W q wq l s [] t h C1 Hi Hq Hl) as [Hi' Hlv]; [done|done|by rewrite app_nil_r|done|]. rewrite app_nil_r in *.
  assert (HC : <[l := s]> C1 = C) by (unfold C1; rewrite insert_insert_eq; by apply insert_id). rewrite HC in *.
  unfold wait_restore_running, wait_node_clear. cbn [wheap set_queues set_wheap].
  assert (Hn' : exists nd', nodes h !! t = Some nd').
  { specialize (Hsd t). rewrite Hn in Hsd. destruct (nodes h !! t) as [nd'|]; [eauto|done]. }
  destruct Hn' as [nd' Hn']. assert (Hfree : nd' = mk_node (data nd') None None None).
  { eapply loose_node; [exact Hok'|done|]. intros l2 s2 H2. eapply (idle_node _ _ t l2 s2 Hi'); [apply Hlv|done]. }
  do 3 (rewrite (put_same h t nd') by first [done|by rewrite Hfree]; cbn [mbind option_bind]).
  set (W1 := updw t (set_blocked_on None) _). change (set_wheap h _) with (set_queues (<[q := less_waiter wq]> (queues W)) (set_wheap h W)) in W1.
  assert (Hi1 : inv W1 C) by exact Hi'. assert (Hlv1 : leaves t W W1 C1 C) by exact Hlv. clearbody W1.
  destruct (updw_ok t (fun th => set_wait_deadline_tick 0 (set_wait_flags 0 th)) W1 C Hi1) as [Hi2 _]; [done|].
  assert (Hsl2 : sleep_queued (thread (updw t (fun th => set_wait_deadline_tick 0 (set_wait_flags 0 th)) W1) t) = false).
  { transitivity (sleep_queued (thread W t)); [exact (f_equal sleep_queued (lv_threads _ _ _ _ _ Hlv1 t))|done]. }
  destruct (wake_tick_ok t 0 _ C Hi2 Hsl2) as [Hi3 _]. destruct (state_ok t THREAD_RUNNING _ C Hi3 Hx) as [Hi4 _].
  { rewrite upd_self. intros Hon. assert (E : on_rq (thread W1 t) = on_rq (thread W t)) by exact (f_equal on_rq (lv_threads _ _ _ _ _ Hlv1 t)).
    change (on_rq (thread W1 t) = true) in Hon. congruence. }
  eexists. split_and!; [reflexivity|exact Hi4|by rewrite upd_self| |exact (lv_queues _ _ _ _ _ Hlv1)].
  rewrite upd_self. change (in_wait_queue (thread (upd t (set_wake_tick 0) (updw t (fun th => set_wait_deadline_tick 0 (set_wait_flags 0 th)) W1)) t) = false).
  rewrite upd_self. exact (lv_out _ _ _ _ _ Hlv1).
Qed.

(** What the caller of [wait_attach_locked] finds: the thread sleeps at the end of the queue, or it runs
    as before. *)
Definition attach_post W W' q l s t C (ok : bool) : Prop :=
  if ok then inv W' (<[l := s ++ [t]]> C) /\ waits W' t q /\ state (thread W' t) = THREAD_SLEEPING
  else inv W' C /\ in_wait_queue (thread W' t) = false /\ state (thread W' t) = THREAD_RUNNING.

Lemma attach_ok W q wq l s t nd (deadline flags : Z) C : inv W C -> queues W !! q = Some wq -> wlist wq = Some l -> C !! l = Some s ->
  in_wait_queue (thread W t) = false -> sleep_queued (thread W t) = false -> on_rq (thread W t) = false -> nodes (wheap W) !! t = Some nd -> x <> Some t ->
  exists ok W', wait_attach_locked q t deadline flags W = Some (ok, W') /\ attach_post W W' q l s t C ok /\ qseq <$> queues W' = qseq <$> queues W /\
    (ok = true -> deadline <> 0 -> sleep_queued (thread W' t) = true) /\ (deadline = 0 -> ok = true).
Proof.
  intros Hi Hq Hl Hs Hin Hsl Hrq Hn Hx. unfold wait_attach_locked. set (f := fun th => set_wait_result _ _).
  destruct (updw_ok t f W C Hi) as [Hi1 _]; [done|]. set (W1 := updw t f W) in *.
  rewrite (put_node_ok (wheap W1) t nd _ Hn). cbn [mbind option_bind].
  assert (Hno : forall l s, C !! l = Some s -> t ∉ s) by (intros l2 s2 H2; by eapply idle_node).
  set (h := mk_heap _ _). assert (Hi2 : inv (set_wheap h W1) C).
  { destruct Hi1 as [[I1 I2 I3 I4 I5 I6 I7 I8 I9] Hd1 Hs1]. constructor; [|done|done]. constructor; try done.
    - by apply (retarget_ok (wheap W1) C t nd t I1 Hn).
    - intros u nd' Hu. cbn. destruct (decide (u = t)) as [->|Hne]; [rewrite lookup_insert_eq; by intros [= <-]|]. rewrite lookup_insert_ne by done. by apply I6.
    - cbn. rewrite map_size_insert_Some by eauto. exact I7. }
  destruct (state_ok t THREAD_SLEEPING _ C Hi2 Hx) as [Hi3 _]; [change (on_rq (thread W t) = true -> THREAD_SLEEPING = THREAD_READY); congruence|]. set (W3 := upd t _ _) in *.
  destruct (enter_ok W3 q wq l s t (mk_node t (nnext nd) (nprev nd) (owner nd)) C Hi3 Hq Hl Hs) as (W4 & -> & Hi4 & Hw4 & Hf4 & Ho4 & Hq4 & Hn4 & Hsl4 & _).
  { unfold W3. rewrite upd_self. exact Hin. } { cbn. apply lookup_insert_eq. } { done. } { done. }
  cbn [mbind option_bind negb].
  assert (Hst4 : state (thread W4 t) = THREAD_SLEEPING).
  { transitivity (state (thread W3 t)); [exact (f_equal state (Hf4 t))|]. unfold W3. by rewrite upd_self. }
  assert (Hq4' : sleep_queued (thread W4 t) = false).
  { transitivity (sleep_queued (thread W3 t)); [exact (f_equal sleep_queued (Hf4 t))|]. unfold W3. rewrite upd_self. exact Hsl. }
  unfold wait_arm_deadline_locked. destruct (Z.eqb_spec deadline 0) as [->|Hdl]; [exists true, W4; by split_and!|].
  destruct (wake_tick_ok t deadline W4 _ Hi4 Hq4') as [Hi5 Hw5]. destruct (sleep_insert_ok t _ _ Hi5) as (ok & W6 & -> & Hi6 & Hr6 & Hq6 & _). cbn [mbind option_bind].
  assert (Hw6 : waits W6 t q).
  { destruct Hw4 as [A B]. split; [rewrite (sw_in _ _ (rs_waits _ _ Hr6)), (sw_in _ _ Hw5); done|].
    rewrite (sw_on _ _ (rs_waits _ _ Hr6)), (sw_on _ _ Hw5). done. }
  assert (Hst6 : state (thread W6 t) = THREAD_SLEEPING) by (rewrite (resleeps_state _ _ t Hr6), upd_self; exact Hst4).
  assert (Hq6' : qseq <$> queues W6 = qseq <$> queues W) by (rewrite (sw_queues _ _ (rs_waits _ _ Hr6)); exact Hq4).
  assert (Hrq6 : on_rq (thread W6 t) = false).
  { transitivity (on_rq (thread W4 t)).
    - pose proof (f_equal on_rq (rs_rest _ _ Hr6 t)) as E. by rewrite upd_self in E.
    - transitivity (on_rq (thread W3 t)); [exact (f_equal on_rq (Hf4 t))|]. unfold W3. rewrite upd_self. exact Hrq. }
  destruct ok; [exists true, W6; by split_and!|].
  destruct (qseq_at W W6 q wq Hq6' Hq) as (wq6 & Hwq6 & El & _).
  destruct (back_out_ok W6 q wq6 l s t C Hi6 Hwq6) as (W7 & H7 & Hi7 & Hst7 & Hin7 & Hq7); [congruence|done|done|done|done|done|].
  destruct (drop_waiter q t W6) as [W6'|]; [|done]. cbn [mbind option_bind] in H7 |- *. rewrite H7. cbn [mbind option_bind].
  exists false, W7. split_and!; [done|done|congruence|done|done].
Qed.

(** The thread left whatever queues it was in. *)
Lemma remove_act t W C : inv W C ->
  exists W', runs W (fun st => '(_, st) ← rq_remove_thread st (Some t); Some st) = Some W' /\ inv W' C /\ acts t W W' /\
    (waiters W' = waiters W /\ sleep W' = sleep W) /\ state (thread W' t) = state (thread W t) /\ on_rq (thread W' t) = false.
Proof.
  intros Hi. apply (runs_acts (fun st => state (threads st t) = state (thread W t) /\ on_rq (threads st t) = false)); [done|].
  destruct (Dispatch.rq_take_out_ok x t (sched W) (i_sched _ _ Hi)) as (b & st & -> & ? & ? & ? & ?). exists st. by split_and!.
Qed.

(** What [sched_wait_on] answers and leaves behind: either nothing was missed and the thread sleeps at
    the end of the queue, or it goes on running. *)
Definition wait_post q wq l s W W' C self observed (r : wait_start) : Prop :=
  match r with
  | WaitSleeps => wake_seq wq = observed /\ waits W' self q /\ state (thread W' self) = THREAD_SLEEPING /\
      exists C', inv W' C' /\ C' !! l = Some (ll_remove s self ++ [self])
  | WaitReturns v => (v = SCHED_WAIT_ABORTED \/ v = SCHED_WAIT_INTR) /\ state (thread W' self) = state (thread W self) /\ exists C', inv W' C'
  end.

Lemma wait_on_locked_ok e q wq l s self (observed deadline flags : Z) W C : inv W C -> 0 <= me e < MAX_CORES ->
  queues W !! q = Some wq -> wlist wq = Some l -> C !! l = Some s -> is_Some (nodes (wheap W) !! self) -> x <> Some self ->
  exists r W', wait_on_locked e q self observed deadline flags W = Some (r, W') /\ wait_post q wq l s W W' C self observed r /\
    qseq <$> queues W' = qseq <$> queues W /\ (self ∉ s -> forall v, r = WaitReturns v -> exists C', inv W' C' /\ C' !! l = Some s).
Proof.
  intros Hi He Hq Hl Hs [nd Hn] Hx. unfold wait_on_locked. rewrite Hq. cbn [mbind option_bind]. rewrite bool_decide_false by (by rewrite Hl).
  destruct (_ && _); [eexists _, W; split; [done|]; cbn; split_and!; eauto|].
  destruct (local_ok x e (sched W) (i_sched _ _ Hi) He) as (k & -> & _). cbn [mbind option_bind].
  destruct (negb (is_state _ _) || _) eqn:Hrun; [eexists _, W; split; [done|]; cbn; split_and!; eauto|].
  apply orb_false_iff in Hrun as [Hrun _]. apply negb_false_iff, bool_decide_eq_true in Hrun.
  assert (Hdq : exists W1 C1, (if in_wait_queue (thread W self) || bool_decide (blocked_on (waiters W self) <> None) then wq_dequeue self W else Some W) = Some W1 /\
    inv W1 C1 /\ leaves self W W1 C C1).
  { destruct (_ || _) eqn:Hb; [by apply dequeue_ok|]. apply orb_false_iff in Hb as [Hb _]. exists W, C. split_and!; [done|done|by apply leaves_nothing]. }
  destruct Hdq as (W1 & C1 & -> & Hi1 & Hlv). cbn [mbind option_bind].
  assert (Hst1 : state (thread W1 self) = THREAD_RUNNING) by (rewrite <- Hrun; exact (f_equal state (lv_threads _ _ _ _ _ Hlv self))).
  destruct (remove_act self W1 C1 Hi1) as (W2 & -> & Hi2 & Ha2 & Hw2 & Hst2 & Hrq2). cbn [mbind option_bind].
  destruct (unsleep_ok self W2 C1 Hi2) as (W3 & Hun & Hi3 & Ha3 & Hw3 & Hst3 & Hsl3 & Hrq3). destruct (sleep_remove self W2) as [W2'|]; [|done].
  cbn [mbind option_bind] in Hun |- *. injection Hun as Hun. rewrite Hun. pose proof (acts_trans _ _ _ _ Ha2 Ha3) as Ha. pose proof (ac_waits _ _ _ Ha) as Hsw.
  assert (Hqs : qseq <$> queues W3 = qseq <$> queues W) by (rewrite (sw_queues _ _ Hsw); apply Hlv).
  destruct (qseq_at W W3 q wq Hqs Hq) as (wq3 & Hq3 & El & Es & _). rewrite Hq3. cbn [mbind option_bind]. rewrite Es.
  assert (Hst : state (thread W3 self) = THREAD_RUNNING) by congruence.
  assert (Hs3 : C1 !! l = Some (ll_remove s self)) by (rewrite (lv_seqs _ _ _ _ _ Hlv), lookup_fmap, Hs; done).
  destruct (negb (_ && _)) eqn:Hu.
  { eexists _, W3. split; [done|]. cbn. split_and!; [by left|congruence|eauto|done|]. intros Hni v _. exists C1. split; [done|]. by rewrite Hs3, ll_remove_other. }
  apply negb_false_iff, andb_true_iff in Hu as [_ Hu]. bool_facts.
  assert (Hn3 : is_Some (nodes (wheap W3) !! self)).
  { rewrite (sw_heap _ _ Hsw). pose proof (lv_data _ _ _ _ _ Hlv self) as Hd. rewrite Hn in Hd. destruct (nodes (wheap W1) !! self); [eauto|done]. }
  destruct Hn3 as [nd3 Hn3].
  destruct (attach_ok W3 q wq3 l (ll_remove s self) self nd3 deadline flags C1 Hi3 Hq3) as (ok & W4 & -> & Hpost & Hq4 & _); [congruence|done| |done|congruence|done|done|].
  { rewrite (sw_in _ _ Hsw). apply Hlv. }
  cbn [mbind option_bind]. eexists _, W4. split; [done|]. assert (Hq4' : qseq <$> queues W4 = qseq <$> queues W) by congruence. destruct ok; cbn in *.
  - destruct Hpost as (Hi4 & Hw4 & Hst4). split_and!; [done|done|done| |done|done]. eexists. split; [exact Hi4|]. apply lookup_insert_eq.
  - destruct Hpost as (Hi4 & Hin4 & Hst4). split_and!; [by left|congruence|eauto|done|]. intros Hni v _. exists C1. split; [done|]. by rewrite Hs3, ll_remove_other.
Qed.

(** ** What a wake-up leaves alone *)

(** What every wake-up leaves alone: the cores, who the threads are, and those that wait on other things. *)
Record calm W W' : Prop := {
  ca_cores : core_threads <$> cpus (sched W') = core_threads <$> cpus (sched W);
  ca_fixed : forall u, fixed (thread W' u) = fixed (thread W u);
  ca_queues : forall q, is_Some (queues W !! q) -> is_Some (queues W' !! q);
  ca_wait : forall u, in_wait_queue (thread W' u) = true -> in_wait_queue (thread W u) = true
}.

Lemma calm_refl W : calm W W.
Proof. by constructor. Qed.

Lemma calm_trans W1 W2 W3 : calm W1 W2 -> calm W2 W3 -> calm W1 W3.
Proof. intros [] []. constructor; [congruence|congruence|auto|auto]. Qed.

Lemma acts_calm t W W' : acts t W W' -> calm W W'.
Proof. intros [[S1 S2 S3 S4 S5] A2 A3 A4 A5]. constructor; [done|done|by rewrite S2|by intros u; rewrite S4]. Qed.

Lemma leaves_calm t W W' C C' : leaves t W W' C C' -> calm W W'.
Proof.
  intros [L1 L2 L3 L4 L5 L6 L7 (ts & L8) L9 L10]. constructor.
  - by rewrite L8.
  - intros u. exact (f_equal fixed (L3 u)).
  - intros q [wq Hq]. destruct (qseq_at W W' q wq L6 Hq) as (wq' & ? & _). eauto.
  - intros u. destruct (decide (u = t)) as [->|Hu]; [congruence|]. by destruct (L5 u Hu) as [-> _].
Qed.

(** After a wake-up, a thread that is in a run queue was in one, or it waited. *)
Definition enlists W W' : Prop :=
  forall u, on_rq (thread W' u) = true -> on_rq (thread W u) = true \/ in_wait_queue (thread W u) = true /\ in_wait_queue (thread W' u) = false.

Lemma wakeup_calm q wq l W W' C s n s' : wakeup q wq l W W' C s n s' -> calm W W' /\ enlists W W'.
Proof.
  intros [_ (W1 & [C1 C2 C3 C4 C5 C6] & Hk) _]. assert (Ht : forall u, thread W1 u = thread W u) by (intros u; unfold thread; by rewrite C1). split.
  - constructor.
    + rewrite (wk_cores _ _ _ Hk). by rewrite C1.
    + intros u. by rewrite (wk_fixed _ _ _ Hk), Ht.
    + intros q2 [w2 H2]. destruct (qlink_at W W1 q2 w2 C6 H2) as (w3 & H3 & _). destruct (qseq_at W1 W' q2 w3 (wk_queues _ _ _ Hk) H3) as (w4 & ? & _). eauto.
    + intros u. rewrite <- (Ht u). destruct (decide (u ∈ n ++ pollers W C q wq)) as [Hu|Hu].
      * destruct (wk_woken _ _ _ Hk u Hu) as (-> & _). done.
      * by destruct (wk_others _ _ _ Hk u Hu) as (_ & -> & _).
  - intros u. rewrite <- (Ht u). destruct (decide (u ∈ n ++ pollers W C q wq)) as [Hu|Hu].
    + intros _. right. destruct (wk_woken _ _ _ Hk u Hu) as (-> & _). split; [by apply (wk_in _ _ _ Hk)|done].
    + rewrite (wk_rq _ _ _ Hk u Hu). auto.
Qed.

(** A wake-up changes the state of waiting threads only. *)
Definition idle_states W W' : Prop := forall u, in_wait_queue (thread W u) = false -> state (thread W' u) = state (thread W u).

Lemma wakeup_states q wq l W W' C s n s' : wakeup q wq l W W' C s n s' -> idle_states W W'.
Proof.
  intros [_ (W1 & Hc & Hk) _] u. assert (Ht : thread W1 u = thread W u) by (unfold thread; by rewrite (ct_sched _ _ Hc)). rewrite <- Ht. intros Hu.
  apply (wk_others _ _ _ Hk u). intros Hin. pose proof (wk_in _ _ _ Hk u Hin) as Hbad. congruence.
Qed.

(** ** Waking a given thread *)

(** Leaving the wait queue and the sleep queue, as every way of waking a given thread starts. *)
Lemma detach_ok t W C : inv W C ->
  exists W' C', (W ← wq_dequeue t W; sleep_remove t W) = Some W' /\ inv W' C' /\ in_wait_queue (thread W' t) = false /\ sleep_queued (thread W' t) = false /\
    state (thread W' t) = state (thread W t) /\ core_threads <$> cpus (sched W') = core_threads <$> cpus (sched W) /\
    qseq <$> queues W' = qseq <$> queues W /\ on_rq (thread W' t) = on_rq (thread W t) /\ calm W W'.
Proof.
  intros Hi. destruct (dequeue_ok t W C Hi) as (W1 & C1 & -> & Hi1 & Hl). cbn [mbind option_bind].
  destruct (sleep_remove_ok t W1 C1 Hi1) as (W2 & -> & Hi2 & Hr & Hq & _). exists W2, C1. pose proof (rs_waits _ _ Hr) as Hsw.
  split_and!; [done|done|rewrite (sw_in _ _ Hsw); apply Hl|done| | |rewrite (sw_queues _ _ Hsw); apply Hl| |].
  - rewrite (resleeps_state _ _ t Hr). exact (f_equal state (lv_threads _ _ _ _ _ Hl t)).
  - destruct (rs_sched _ _ Hr) as [ts ->], (lv_sched _ _ _ _ _ Hl) as [ts1 ->]. done.
  - transitivity (on_rq (thread W1 t)); [exact (f_equal on_rq (rs_rest _ _ Hr t))|exact (f_equal on_rq (lv_threads _ _ _ _ _ Hl t))].
  - eapply calm_trans; [by eapply leaves_calm|by eapply acts_calm, (resleeps_acts t)].
Qed.

Lemma detach_bind {A} t W C (m : wait_state_t -> option A) (P : option A -> Prop) : inv W C ->
  (forall W' C', inv W' C' -> in_wait_queue (thread W' t) = false -> sleep_queued (thread W' t) = false -> state (thread W' t) = state (thread W t) ->
    core_threads <$> cpus (sched W') = core_threads <$> cpus (sched W) -> qseq <$> queues W' = qseq <$> queues W -> on_rq (thread W' t) = on_rq (thread W t) -> calm W W' -> P (m W')) ->
  P (W ← wq_dequeue t W; W ← sleep_remove t W; m W).
Proof.
  intros Hi HP. destruct (detach_ok t W C Hi) as (W' & C' & He & H1 & H2 & H3 & H4 & H5 & H6 & H7 & H8). destruct (wq_dequeue t W) as [W1|]; [|done].
  cbn [mbind option_bind] in He |- *. rewrite He. cbn [mbind option_bind]. by eapply HP.
Qed.

(** The thread is awake and in no wait queue. *)
Definition awake t W W' : Prop := in_wait_queue (thread W' t) = false /\ (exists C', inv W' C') /\ woken t W W'.

Lemma make_runnable_ok e t W C : inv W C -> x <> Some t -> 0 <= me e < MAX_CORES -> pid (thread W t) <> 0 ->
  exists W', sched_make_runnable e t W = Some W' /\ awake t W W'.
Proof.
  intros Hi Hx He Hp. unfold sched_make_runnable, sched_thread_is_idle. rewrite (proj2 (Z.eqb_neq _ _)) by done.
  apply (detach_bind t W C _ (fun r => exists W', r = Some W' /\ awake t W W')); [done|]. intros W1 C1 Hi1 Hin Hsl Hst Hcs _ _ _.
  destruct (wake_tick_ok t 0 W1 C1 Hi1 Hsl) as [Hi2 Hw2]. set (f := fun th => set_wait_result _ _).
  destruct (updw_ok t f _ C1 Hi2) as [Hi3 Hw3]; [done|]. set (W3 := updw t f _) in *.
  assert (Hst3 : state (thread W3 t) = state (thread W t)) by (change (state (thread (upd t (set_wake_tick 0) W1) t) = state (thread W t)); rewrite upd_self; exact Hst).
  assert (Hin3 : in_wait_queue (thread W3 t) = false) by (rewrite (sw_in _ _ Hw3), (sw_in _ _ Hw2); done).
  assert (Hcs3 : core_threads <$> cpus (sched W3) = core_threads <$> cpus (sched W)) by exact Hcs. clearbody W3.
  destruct (slots_ok W3 t C1 Hi3 Hx) as (b1 & b2 & -> & -> & _). cbn [mbind option_bind].
  assert (H3 : 0 <= me (locked e) < MAX_CORES) by exact He. destruct (_ && _) eqn:Hb.
  - destruct (repair_act (locked e) t W3 C1 Hi3 Hx H3) as (W4 & -> & Hi4 & Ha4 & _). exists W4. split; [done|].
    split_and!; [by rewrite (sw_in _ _ (ac_waits _ _ _ Ha4))|eauto|]. apply andb_true_iff in Hb as [_ Hb]. apply bool_decide_eq_true in Hb.
    intros Hs. congruence.
  - destruct (rouse_ok (locked e) t W3 C1 Hi3 Hx H3) as (W4 & -> & Hi4 & Ha4 & _ & Hk4). exists W4. split; [done|].
    split_and!; [by rewrite (sw_in _ _ (ac_waits _ _ _ Ha4))|eauto|]. by eapply woken_eq; [exact Hst3|exact Hcs3| |exact Hk4].
Qed.

Lemma unblock_ok e t W C : inv W C -> x <> Some t -> 0 <= me e < MAX_CORES ->
  exists W', sched_unblock_thread e t W = Some W' /\ (exists C', inv W' C') /\ calm W W' /\
    (pid (thread W t) <> 0 -> (sched_signal_pending W t = true -> interruptible (wait_flags (waiters W t)) = true) -> woken t W W').
Proof.
  intros Hi Hx He. unfold sched_unblock_thread, sched_thread_is_idle.
  destruct (Z.eqb_spec (pid (thread W t)) 0) as [Hp|Hp]; [exists W; split_and!; [done|eauto|apply calm_refl|by intros ?]|].
  destruct (_ && negb _) eqn:Hmask.
  { exists W. split_and!; [done|eauto|apply calm_refl|]. intros _ Hs. apply andb_true_iff in Hmask as [[_ Hm1]%andb_true_iff Hm2%negb_true_iff]. rewrite Hs in Hm2; done. }
  apply (detach_bind t W C _ (fun r => exists W', r = Some W' /\ (exists C', inv W' C') /\ calm W W' /\ (pid (thread W t) <> 0 -> _ -> woken t W W'))); [done|].
  intros W1 C1 Hi1 Hin Hsl Hst Hcs _ _ Hca. assert (H3 : 0 <= me (locked e) < MAX_CORES) by exact He.
  destruct (_ || _) eqn:Hs.
  - destruct (wake_tick_ok t 0 W1 C1 Hi1 Hsl) as [Hi2 Hw2]. set (f := fun th => set_wait_result _ _). destruct (acts_updw t f _ C1 Hi2) as [Hi3 Ha3]; [done|].
    assert (Hca3 : calm W (updw t f (upd t (set_wake_tick 0) W1))).
    { eapply calm_trans; [exact Hca|]. eapply calm_trans; [by eapply acts_calm, upd_acts|by eapply acts_calm]. }
    set (W3 := updw t f _) in *.
    assert (Hst3 : state (thread W3 t) = state (thread W t)) by (change (state (thread (upd t (set_wake_tick 0) W1) t) = state (thread W t)); rewrite upd_self; exact Hst).
    assert (Hcs3 : core_threads <$> cpus (sched W3) = core_threads <$> cpus (sched W)) by exact Hcs. clearbody W3.
    destruct (rouse_ok (locked e) t W3 C1 Hi3 Hx H3) as (W4 & -> & Hi4 & Ha4 & _ & Hk4). exists W4.
    split_and!; [done|eauto|by eapply calm_trans; [|by eapply acts_calm]|]. intros _ _. by eapply woken_eq; [exact Hst3|exact Hcs3| |exact Hk4].
  - apply orb_false_iff in Hs as [Hs _]. apply bool_decide_eq_false in Hs. destruct (bool_decide (_ = THREAD_RUNNING)).
    + destruct (repair_act (locked e) t W1 C1 Hi1 Hx H3) as (W4 & -> & Hi4 & Ha4 & _). exists W4.
      split_and!; [done|eauto|by eapply calm_trans; [|by eapply acts_calm]|]. by intros _ _ ?.
    + exists W1. split_and!; [done|eauto|done|]. by intros _ _ ?.
Qed.

Lemma continue_ok e t W C : inv W C -> x <> Some t -> 0 <= me e < MAX_CORES -> exists W', sched_continue_thread e t W = Some W' /\ inv W' C /\ acts t W W'.
Proof.
  intros Hi Hx He. unfold sched_continue_thread. assert (Hsame : acts t W W) by (by constructor).
  destruct (sched_thread_is_idle W t); [by exists W|]. destruct (negb _); [by exists W|]. clear Hsame.
  destruct (acts_ready t W C Hi Hx) as [Hi1 Ha1]. set (f := fun th => set_stop_reported _ _). destruct (acts_updw t f _ C Hi1) as [Hi2 Ha2]; [done|].
  set (W2 := updw t f _) in *. assert (Hst : state (thread W2 t) = THREAD_READY) by (change (state (thread (upd t (set_state THREAD_READY) W) t) = THREAD_READY); by rewrite upd_self).
  pose proof (acts_trans _ _ _ _ Ha1 Ha2) as Ha. clearbody W2. assert (H3 : 0 <= me (locked e) < MAX_CORES) by exact He.
  destruct (owned_spec x (sched W2) t (i_sched _ _ Hi2)) as (b & -> & Hb); [done|]. cbn [mbind option_bind]. destruct b.
  - destruct (nudge_act (locked e) t W2 C Hi2 Hx H3) as (W3 & -> & Hi3 & Ha3 & _). exists W3. split_and!; [done|done|by eapply acts_trans].
  - destruct (runs_acts (fun _ => True) W2 t C (fun st => enqueue_thread (locked e) t (thread_unclaim t st)) Hi2) as (W3 & -> & Hi3 & Ha3 & _).
    + assert (Hno : forall c, holds (sched W2) c t -> x = Some t) by (intros c Hh; assert (false = true) by (apply Hb; eauto); done).
      destruct (unclaim_ok x t (sched W2) (i_sched _ _ Hi2) Hno) as (Hd & Ht & _).
      destruct (enqueue_ipi_ok x (locked e) t true _ Hd H3) as (st & Hst' & Hd' & Ht' & _). exists st. split_and!; [done|done|by eapply touched_trans|done].
    + exists W3. split_and!; [done|done|by eapply acts_trans].
Qed.

(** ** Stopping *)

Lemma queue_list W C q wq l : inv W C -> queues W !! q = Some wq -> wlist wq = Some l -> exists s, C !! l = Some s.
Proof. intros Hi Hq Hl. destruct (wi_queue _ _ (i_wait _ _ Hi) q wq l Hq Hl) as (s & Hs & _). eauto. Qed.

Lemma wake_one_any e q W C : inv W C -> 0 <= me e < MAX_CORES -> is_Some (queues W !! q) -> exists W', sched_wake_one e q W = Some W' /\ (exists C', inv W' C') /\ calm W W'.
Proof.
  intros Hi He [wq Hq]. destruct (wlist wq) as [l|] eqn:Hl.
  - destruct (queue_list W C q wq l Hi Hq Hl) as [s Hs]. destruct (sched_wake_one_ok e q wq l s W C Hi He Hq Hl Hs) as (W' & He' & Hu).
    exists W'. split_and!; [done|destruct (wu_inv _ _ _ _ _ _ _ _ _ Hu) as (C' & ? & _); eauto|by eapply wakeup_calm].
  - exists W. unfold sched_wake_one. rewrite Hq. cbn [mbind option_bind]. rewrite bool_decide_true by done. eauto using calm_refl.
Qed.

Lemma wake_all_any e q W C : inv W C -> 0 <= me e < MAX_CORES -> is_Some (queues W !! q) -> exists W', sched_wake_all e q W = Some W' /\ (exists C', inv W' C') /\ calm W W' /\ enlists W W' /\ idle_states W W'.
Proof.
  intros Hi He [wq Hq]. destruct (wlist wq) as [l|] eqn:Hl.
  - destruct (queue_list W C q wq l Hi Hq Hl) as [s Hs]. destruct (sched_wake_all_ok e q wq l s W C Hi He Hq Hl Hs) as (W' & He' & Hu).
    exists W'. split_and!; [done|destruct (wu_inv _ _ _ _ _ _ _ _ _ Hu) as (C' & ? & _); eauto|by eapply wakeup_calm..|by eapply wakeup_states].
  - exists W. unfold sched_wake_all. rewrite Hq. cbn [mbind option_bind]. rewrite bool_decide_true by done.
    split_and!; [done|eauto|apply calm_refl|intros u; auto|by intros u].
Qed.

Definition parent_ok W (parent : option parent_t) : Prop := forall p, parent = Some p -> is_Some (queues W !! parent_queue p).

Lemma mark_blocked n th : blocked_on (mark_pending n th) = blocked_on th.
Proof. unfold mark_pending. by destruct (_ && _). Qed.

Lemma notify_ok e parent W C : inv W C -> 0 <= me e < MAX_CORES -> parent_ok W parent -> (forall p, parent = Some p -> x <> Some (parent_thread p)) ->
  exists W', notify_parent e parent W = Some W' /\ (exists C', inv W' C') /\ calm W W'.
Proof.
  intros Hi He Hp Hx. unfold notify_parent. destruct parent as [p|]; [|eauto using calm_refl].
  destruct (wake_one_any e (parent_queue p) W C Hi He (Hp p eq_refl)) as (W1 & -> & (C1 & Hi1) & Hc1). cbn [mbind option_bind]. destruct (catches p); [|eauto].
  destruct (acts_updw (parent_thread p) (mark_pending SIGCHLD) W1 C1 Hi1) as [Hi2 Ha2]; [apply mark_blocked|].
  destruct (unblock_ok e (parent_thread p) _ C1 Hi2 (Hx p eq_refl) He) as (W3 & -> & ? & Hc3 & _). exists W3. split_and!; [done|done|].
  eapply calm_trans; [exact Hc1|]. eapply calm_trans; [by eapply acts_calm|done].
Qed.

(** A thread may lose its core when no core holds it. *)
Lemma unclaim_act t W C : inv W C -> (forall c, ~ holds (sched W) c t) -> inv (upd t (set_running_cpu (-1)) W) C.
Proof.
  intros Hi Hno. destruct (unclaim_ok x t (sched W) (i_sched _ _ Hi)) as (Hd & Ht & _); [intros c Hh; by destruct (Hno c)|].
  by apply (touched_step W (thread_unclaim t (sched W)) t).
Qed.

Lemma kick_ok e (c : Z) W C t : inv W C -> 0 <= me e < MAX_CORES -> 0 <= c ->
  exists W', runs W (sched_kick_cpu e c) = Some W' /\ inv W' C /\ acts t W W'.
Proof.
  intros Hi He Hc. destruct (runs_acts (fun _ => True) W t C (sched_kick_cpu e c) Hi) as (W' & ? & ? & ? & _); [|eauto].
  assert (Hf : exists st, sched_kick_cpu e c (sched W) = Some st /\ flags_only (sched W) st).
  { unfold sched_kick_cpu. destruct (MAX_CORES <=? c); [eauto using flags_refl|]. destruct (c =? me e); [by eapply resched_local_ok; [apply Hi|]|].
    by eapply wake_counted_ok; [apply Hi|]. }
  destruct Hf as (st & Hst & F). exists st. split_and!; [done|by eapply flags_dinv; [apply Hi|]|by apply flags_touched|done].
Qed.

Lemma stop_ok e t (signum : Z) parent W C : inv W C -> x = None -> 0 <= me e < MAX_CORES -> parent_ok W parent ->
  exists b W' C', sched_stop_thread e t signum parent W = Some (b, W') /\ inv W' C'.
Proof.
  intros Hi Hn He Hp. assert (Hx : x <> Some t) by (by rewrite Hn). unfold sched_stop_thread. destruct (sched_thread_is_idle W t); [eauto|]. destruct (_ || _); [eauto|].
  destruct (local_ok x e (sched W) (i_sched _ _ Hi) He) as (k & -> & _). cbn [mbind option_bind].
  destruct (owned_spec x (sched W) t (i_sched _ _ Hi)) as (owned & -> & Hown); [done|]. cbn [mbind option_bind].
  destruct (_ && _ && _ && _) eqn:Hrem.
  { apply andb_true_iff in Hrem as [[_ Hc]%andb_true_iff _]. bool_facts.
    destruct (updw_ok t (fun th => set_stop_reported false (set_stop_signal signum (mark_pending signum th))) W C Hi) as [Hi1 _]; [intros th; apply mark_blocked|].
    destruct (kick_ok e (thread_cpu (sched W) (Some t)) _ C t Hi1 He Hc) as (W2 & -> & Hi2 & _). cbn [mbind option_bind]. eauto. }
  clear Hrem. destruct (remove_act t W C Hi) as (W1 & -> & Hi1 & Ha1 & _ & _ & Hrq1). cbn [mbind option_bind].
  apply (detach_bind t W1 C _ (fun r => exists b W' C', r = Some (b, W') /\ inv W' C')); [done|]. intros W2 C2 Hi2 Hin2 Hsl2 _ Hcs2 Hq2 Hrq2 _.
  destruct (wake_tick_ok t 0 W2 C2 Hi2 Hsl2) as [Hi3 _]. destruct (state_ok t THREAD_STOPPED _ C2 Hi3 Hx) as [Hi4 _]; [rewrite upd_self; change (on_rq (thread W2 t) = true -> THREAD_STOPPED = THREAD_READY); congruence|].
  destruct (updw_ok t (fun th => set_stop_reported false (set_stop_signal signum th)) _ C2 Hi4) as [Hi5 _]; [done|]. set (W5 := updw t _ _) in *.
  assert (Hcs5 : core_threads <$> cpus (sched W5) = core_threads <$> cpus (sched W)) by (etransitivity; [exact Hcs2|apply Ha1]).
  assert (Hq5 : qseq <$> queues W5 = qseq <$> queues W) by (etransitivity; [exact Hq2|]; by rewrite (sw_queues _ _ (ac_waits _ _ _ Ha1))). clearbody W5.
  set (W6 := if negb _ && negb owned then _ else W5).
  assert (Hi6 : inv W6 C2 /\ queues W6 = queues W5).
  { unfold W6. destruct owned; [by rewrite andb_false_r|]. destruct (negb _); [|done]. split; [|done]. cbn [andb]. apply unclaim_act; [done|].
    intros c Hh. apply (cores_holds _ _ _ _ Hcs5) in Hh. assert (false = true) by (apply Hown; eauto). done. }
  destruct Hi6 as [Hi6 Hq6]. clearbody W6.
  destruct (notify_ok (locked e) parent W6 C2 Hi6 He) as (W7 & -> & (C7 & Hi7) & _).
  { intros p Hpp. destruct (Hp p Hpp) as [wq Hwq]. destruct (qseq_at W W5 _ wq Hq5 Hwq) as (wq' & ? & _). rewrite Hq6. eauto. } { by rewrite Hn. }
  cbn [mbind option_bind]. destruct owned; [|cbn [mbind option_bind]; eauto].
  destruct (nudge_act e t W7 C7 Hi7 Hx He) as (W8 & -> & Hi8 & _). cbn [mbind option_bind]. eauto.
Qed.

(** ** The whole of [sched_wait_on] *)

Lemma force_resched_ok e st : dinv x st -> 0 <= me e < MAX_CORES -> exists st', force_resched e st = Some st' /\ flags_only st st'.
Proof.
  intros Hd Hc. unfold force_resched. destruct (running st); cbn [negb]; [|eauto using flags_refl].
  destruct (set_flag_ok x (me e) (fun k => set_need_resched true (set_force_resched true k)) st Hd Hc) as (st1 & -> & F1); [done|]. cbn [mbind option_bind].
  pose proof (flags_dinv _ _ _ Hd F1) as Hd1. destruct (local_ok x e st1 Hd1 Hc) as (k & -> & _). cbn [mbind option_bind].
  destruct (_ || _ || _); [eauto|]. destruct (resched_irq k); [eauto|].
  destruct (set_flag_ok x (me e) (set_resched_irq true) st1 Hd1 Hc) as (st2 & -> & F2); [done|]. eauto using flags_trans.
Qed.

Lemma wait_begin_ok e held queue (observed deadline flags : Z) W C : inv W C -> x = None -> 0 <= me e < MAX_CORES ->
  (forall q, queue = Some q -> is_Some (queues W !! q)) -> (forall k t, local e (sched W) = Some k -> current k = Some t -> is_Some (nodes (wheap W) !! t)) ->
  exists r W' C', wait_on_begin e held queue observed deadline flags W = Some (r, W') /\ inv W' C'.
Proof.
  intros Hi Hn He Hqs Hns. unfold wait_on_begin. destruct (local_ok x e (sched W) (i_sched _ _ Hi) He) as (k & Hk & _). rewrite Hk. cbn [mbind option_bind].
  destruct queue as [q|]; [|eauto]. destruct (current k) as [self|] eqn:Hcur; [|eauto]. destruct (Hqs q eq_refl) as [wq Hq]. rewrite Hq. cbn [mbind option_bind].
  destruct (negb _ || _) eqn:Hb; [eauto|]. destruct (interruptible flags && _); [eauto|]. unfold wait_can_block. rewrite Hk. cbn [mbind option_bind].
  destruct ((preempt_depth k =? 0) && negb held && (sched_lock_depth k =? 0)); cbn [negb]; [|eauto].
  apply orb_false_iff in Hb as [_ Hb]. apply bool_decide_eq_false in Hb. destruct (wlist wq) as [l|] eqn:Hl; [|done].
  destruct (queue_list W C q wq l Hi Hq Hl) as [s Hs].
  destruct (wait_on_locked_ok e q wq l s self observed deadline flags W C Hi He Hq Hl Hs (Hns k self Hk Hcur)) as (r & W1 & -> & Hpost & _); [by rewrite Hn|]. cbn [mbind option_bind].
  destruct r as [v|]; unfold wait_post in Hpost; [destruct Hpost as (? & ? & C1 & Hi1); by exists (WaitReturns v), W1, C1|]. destruct Hpost as (? & ? & ? & C1 & Hi1 & ?).
  destruct (force_resched_ok e (sched W1) (i_sched _ _ Hi1) He) as (st & Hst & F). unfold runs. rewrite Hst. cbn [mbind option_bind].
  exists WaitSleeps, (set_sched st W1), C1. split; [done|]. eapply (touched_step W1 st 0); [done|by eapply flags_dinv; [apply Hi1|]|by apply flags_touched].
Qed.

(** ** Sleepers *)

(** A round of [wake_sleepers]: thread [t] is out of the sleep queue, the others are as they were. *)
Record round t W W' : Prop := {
  rd_others : forall u, u <> t -> state (thread W' u) = state (thread W u) /\ wake_tick (thread W' u) = wake_tick (thread W u) /\
    in_wait_queue (thread W' u) = in_wait_queue (thread W u) /\ waiters W' u = waiters W u;
  rd_calm : calm W W';
  rd_sleepers : forall u, u ∈ sleepers (sleep W') <-> u ∈ sleepers (sleep W) /\ u <> t
}.

(** The thread was woken by its deadline. *)
Definition timed_out t W W' : Prop :=
  state (thread W t) = THREAD_SLEEPING ->
  in_wait_queue (thread W' t) = false /\ wait_result (waiters W' t) = SCHED_WAIT_TIMEOUT /\ woken t W W'.

Lemma acts_others t W W' u : acts t W W' -> u <> t -> state (thread W' u) = state (thread W u) /\ wake_tick (thread W' u) = wake_tick (thread W u) /\
  in_wait_queue (thread W' u) = in_wait_queue (thread W u) /\ waiters W' u = waiters W u.
Proof. intros [S1 A2 _ _ A3] Hu. destruct (A2 u Hu) as (? & ? & ?). split_and!; [done|done|apply S1|done]. Qed.

Lemma leaves_others t W W' C C' u : leaves t W W' C C' -> u <> t -> state (thread W' u) = state (thread W u) /\ wake_tick (thread W' u) = wake_tick (thread W u) /\
  in_wait_queue (thread W' u) = in_wait_queue (thread W u) /\ waiters W' u = waiters W u.
Proof. intros Hl Hu. destruct (lv_others _ _ _ _ _ Hl u Hu) as [-> ->]. done. Qed.

Lemma wake_sleeper_ok e t W C : inv W C -> x <> Some t -> 0 <= me e < MAX_CORES ->
  exists W' C', wake_sleeper e t W = Some W' /\ inv W' C' /\ round t W W' /\ timed_out t W W'.
Proof.
  intros Hi Hx He. unfold wake_sleeper. destruct (sleep_remove_ok t W C Hi) as (W1 & -> & Hi1 & Hr1 & Hq1 & Hm1). cbn [mbind option_bind].
  destruct (wake_tick_ok t 0 W1 C Hi1 Hq1) as [Hi2 Hw2]. destruct (acts_updw t (set_wait_deadline_tick 0) _ C Hi2) as [Hi3 Ha3]; [done|].
  set (W3 := updw t _ _) in *. assert (Ha : acts t W W3) by (eapply acts_trans; [by apply resleeps_acts|]; eapply acts_trans; [by apply upd_acts|exact Ha3]).
  assert (Hst : state (thread W3 t) = state (thread W t)).
  { change (state (thread (upd t (set_wake_tick 0) W1) t) = state (thread W t)). rewrite upd_self. by apply resleeps_state. }
  assert (Hsl : sleep W3 = sleep W1) by done. clearbody W3. rewrite <- Hsl in Hm1. clear Ha3 Hw2 Hr1 Hi1 Hi2 Hq1 Hsl W1.
  unfold is_state. rewrite Hst. case_bool_decide as Hs.
  - assert (Hdq : exists W4 C4, (if in_wait_queue (thread W3 t) then wq_dequeue t W3 else Some W3) = Some W4 /\ inv W4 C4 /\ leaves t W3 W4 C C4).
    { destruct (in_wait_queue (thread W3 t)) eqn:Hin; [by apply dequeue_ok|]. exists W3, C. split_and!; [done|done|by apply leaves_nothing]. }
    destruct Hdq as (W4 & C4 & -> & Hi4 & Hl4). cbn [mbind option_bind].
    destruct (acts_updw t (set_wait_result SCHED_WAIT_TIMEOUT) W4 C4 Hi4) as [Hi5 Ha5]; [done|]. set (W5 := updw t _ W4) in *.
    assert (Hi6 : inv (set_wait_timeout_count (u64_wrap (wait_timeout_count W5 + 1)) W5) C4) by (destruct Hi5; constructor; [by apply (wq_frame W5)|done|done]).
    assert (Ha6 : acts t W4 (set_wait_timeout_count (u64_wrap (wait_timeout_count W5 + 1)) W5)) by (destruct Ha5 as [[] ? ? ? ?]; by constructor).
    set (W6 := set_wait_timeout_count _ W5) in *.
    assert (Hres : wait_result (waiters W6 t) = SCHED_WAIT_TIMEOUT) by (cbn; by rewrite fn_lookup_insert).
    assert (Hst6 : state (thread W6 t) = state (thread W3 t)) by exact (f_equal state (lv_threads _ _ _ _ _ Hl4 t)).
    assert (Hsl6 : sleep W6 = sleep W3) by exact (lv_sleep _ _ _ _ _ Hl4). clearbody W6.
    destruct (rouse_ok e t W6 C4 Hi6 Hx He) as (W7 & -> & Hi7 & Ha7 & [Hw7 Hsl7] & Hk7). exists W7, C4. split_and!; [done|done| |].
    + constructor.
      * intros u Hu. destruct (acts_others _ _ _ u Ha Hu) as (<- & <- & <- & <-). destruct (leaves_others _ _ _ _ _ u Hl4 Hu) as (<- & <- & <- & <-).
        destruct (acts_others _ _ _ u Ha6 Hu) as (<- & <- & <- & <-). by apply (acts_others t).
      * eapply calm_trans; [by eapply acts_calm|]. eapply calm_trans; [by eapply leaves_calm|]. eapply calm_trans; by eapply acts_calm.
      * intros u. by rewrite Hsl7, Hsl6.
    + intros _. split_and!; [|by rewrite Hw7|].
      * rewrite (sw_in _ _ (ac_waits _ _ _ Ha7)), (sw_in _ _ (ac_waits _ _ _ Ha6)). apply Hl4.
      * eapply woken_eq; [|..|exact Hk7]; [congruence| |done]. rewrite (ac_cores _ _ _ Ha6). destruct (lv_sched _ _ _ _ _ Hl4) as [ts ->]. apply Ha.
  - assert (Hr : round t W W3) by (constructor; [intros u Hu; by apply (acts_others t)|by eapply acts_calm|done]).
    case_bool_decide; [|by exists W3, C]. destruct (repair_act e t W3 C Hi3 Hx He) as (W4 & -> & Hi4 & Ha4 & [_ Hsl4]). exists W4, C. split_and!; [done|done| |done].
    constructor; [|by eapply calm_trans; [apply Hr|by eapply acts_calm]|by rewrite Hsl4].
    intros u Hu. destruct (acts_others _ _ _ u Ha Hu) as (<- & <- & <- & <-). by apply (acts_others t).
Qed.

(** What [wake_sleepers] leaves: the sleepers whose tick has not come, and who those were that left. *)
Record woke_due (now : Z) W W' : Prop := {
  wd_left : forall u, u ∈ sleepers (sleep W') -> u ∈ sleepers (sleep W) /\ now < wake_tick (thread W' u);
  wd_due : forall u, u ∈ sleepers (sleep W) -> u ∉ sleepers (sleep W') -> wake_tick (thread W u) <> 0 -> timed_out u W W';
  wd_others : forall u, u ∉ sleepers (sleep W) \/ u ∈ sleepers (sleep W') -> state (thread W' u) = state (thread W u) /\
    wake_tick (thread W' u) = wake_tick (thread W u) /\ in_wait_queue (thread W' u) = in_wait_queue (thread W u) /\ waiters W' u = waiters W u;
  wd_calm : calm W W'
}.

Lemma round_due now t W W1 W' : round t W W1 -> t ∈ sleepers (sleep W) -> (wake_tick (thread W t) <> 0 -> timed_out t W W1) -> woke_due now W1 W' -> woke_due now W W'.
Proof.
  intros [R1 R2 R3] Hin Ht [D1 D2 D3 D4]. constructor; [| | |by eapply calm_trans].
  - intros u Hu. destruct (D1 u Hu) as [Hu1 Hn]. apply R3 in Hu1 as [Hu1 _]. done.
  - intros u Hu Hu' Hw Hs. destruct (decide (u = t)) as [->|Hne].
    + destruct (Ht Hw Hs) as (T1 & T2 & T3). assert (Hout : t ∉ sleepers (sleep W1)) by (rewrite R3; by intros []).
      destruct (D3 t (or_introl Hout)) as (E1 & _ & E3 & E4). split_and!; [congruence|congruence|]. by eapply woken_eq; [| |exact E1|exact T3].
    + destruct (R1 u Hne) as (E1 & E2 & E3 & E4). destruct (D2 u) as (T1 & T2 & T3); [by apply R3|done|congruence|congruence|].
      split_and!; [done|done|]. by eapply woken_eq; [exact E1|apply R2| |exact T3].
  - intros u Hu. assert (u <> t) as Hne.
    { intros ->. destruct Hu as [|Hu]; [done|]. destruct (D1 t Hu) as [Hu1 _]. by apply R3 in Hu1 as []. }
    destruct (R1 u Hne) as (<- & <- & <- & <-). apply D3. destruct Hu as [Hu|Hu]; [left; rewrite R3; by intros []|by right].
Qed.

Lemma sleepers_NoDup W C : inv W C -> NoDup (sleepers (sleep W)).
Proof. intros Hi. eapply indexed_NoDup, (si_index _ _ (i_sleep _ _ Hi)). Qed.

Lemma round_length t W W' C C' : inv W C -> inv W' C' -> round t W W' -> t ∈ sleepers (sleep W) -> length (sleepers (sleep W)) = S (length (sleepers (sleep W'))).
Proof.
  intros Hi Hi' Hr Hin. change (S (length (sleepers (sleep W')))) with (length (t :: sleepers (sleep W'))). apply Permutation_length.
  apply NoDup_Permutation; [by eapply sleepers_NoDup|constructor; [rewrite (rd_sleepers _ _ _ Hr); by intros []|by eapply sleepers_NoDup]|].
  intros u. rewrite elem_of_cons, (rd_sleepers _ _ _ Hr). destruct (decide (u = t)) as [->|]; naive_solver.
Qed.

Lemma top_head W C t rest : inv W C -> sleepers (sleep W) = t :: rest -> sleep_heap_top (sleep W) = Some (Some t).
Proof.
  intros Hi Hl. unfold sleep_heap_top. rewrite (si_count _ _ (i_sleep _ _ Hi)), Hl, (proj2 (Z.eqb_neq _ _)) by (unfold zlen; cbn; lia).
  apply (sleep_cell (threads (sched W)) (sleep W) 0 t (i_sleep _ _ Hi)). by rewrite Hl.
Qed.

Lemma pop_round t rest W C : inv W C -> sleepers (sleep W) = t :: rest -> exists W', sleep_remove_at 0 W = Some W' /\ inv W' C /\ round t W W'.
Proof.
  intros Hi Hl. destruct (sleep_pop_ok t W C rest Hi Hl) as (W1 & -> & Hi1 & Hr1 & Hp). exists W1. split_and!; [done|done|].
  pose proof (resleeps_acts t _ _ Hr1) as Ha. constructor; [intros u Hu; by apply (acts_others t)|by eapply acts_calm|].
  intros u. pose proof (sleepers_NoDup W C Hi) as Hnd. rewrite Hp in Hnd |- *. apply list.NoDup_cons in Hnd as [Hn _]. rewrite elem_of_cons. naive_solver.
Qed.

Lemma sleepers_loop_ok e now n W C : x = None -> inv W C -> 0 <= me e < MAX_CORES -> (length (sleepers (sleep W)) < n)%nat ->
  exists W' C', sleepers_loop n e now W = Some W' /\ inv W' C' /\ woke_due now W W'.
Proof.
  intros Hx. revert W C. induction n as [|n IH]; intros W C Hi He Hn; [lia|]. cbn [sleepers_loop].
  destruct (sleep_top_spec (threads (sched W)) (sleep W) (i_sleep _ _ Hi)) as (top & Het & Htop). destruct (sleepers (sleep W)) as [|t rest] eqn:Hsl.
  { destruct top as [t|]; [destruct Htop as [Htop _]; by apply not_elem_of_nil in Htop|]. rewrite Het. cbn [mbind option_bind]. exists W, C. split_and!; [done|done|].
    constructor; rewrite ?Hsl; [by intros u ?%not_elem_of_nil|by intros u ?%not_elem_of_nil|done|apply calm_refl]. }
  rewrite (top_head W C t rest Hi Hsl) in Het |- *. injection Het as <-. cbn [mbind option_bind]. destruct Htop as [_ Hmin].
  assert (Hin : t ∈ sleepers (sleep W)) by (rewrite Hsl; by left).
  assert (Hgo : forall W1 C1, inv W1 C1 -> round t W W1 -> (wake_tick (thread W t) <> 0 -> timed_out t W W1) ->
    exists W' C', sleepers_loop n e now W1 = Some W' /\ inv W' C' /\ woke_due now W W').
  { intros W1 C1 Hi1 Hr Ht. pose proof (round_length _ _ _ _ _ Hi Hi1 Hr Hin) as Hlen. rewrite Hsl in Hlen.
    destruct (IH W1 C1 Hi1 He) as (W' & C' & -> & Hi' & Hd); [lia|]. exists W', C'. split_and!; [done|done|]. by eapply round_due. }
  destruct (_ || _) eqn:Hb.
  - destruct (pop_round t rest W C Hi Hsl) as (W1 & -> & Hi1 & Hr1). cbn [mbind option_bind]. apply (Hgo W1 C Hi1 Hr1). intros Hw.
    apply (si_queued _ _ (i_sleep _ _ Hi)) in Hin. unfold thread in Hb. rewrite Hin in Hb. cbn [negb orb] in Hb. by apply Z.eqb_eq in Hb.
  - destruct (Z.ltb_spec now (wake_tick (thread W t))) as [Hlt|Hge].
    + exists W, C. split_and!; [done|done|]. constructor; [|by intros u|done|apply calm_refl]. intros u Hu. split; [done|]. rewrite Hsl in Hu. specialize (Hmin u Hu).
      unfold thread in *. lia.
    + destruct (wake_sleeper_ok e t W C Hi ltac:(by rewrite Hx) He) as (W1 & C1 & -> & Hi1 & Hr1 & Ht1). cbn [mbind option_bind]. by eapply Hgo.
Qed.

Lemma wake_sleepers_ok e now W C : inv W C -> x = None -> 0 <= me e < MAX_CORES ->
  exists W' C', wake_sleepers e now W = Some W' /\ inv W' C' /\ woke_due now W W'.
Proof.
  intros Hi Hx He. apply (sleepers_loop_ok e now _ W C Hx Hi He). rewrite (si_count _ _ (i_sleep _ _ Hi)). unfold zlen. lia.
Qed.

(** ** Making and destroying queues *)

Lemma new_list_ok h C a : heap_ok h C -> C !! a = None -> heap_ok (mk_heap (nodes h) (<[a := mk_list 0 None None]> (lists h))) (<[a := []]> C).
Proof.
  intros [O1 O2 O3 O4 O5] Ha. constructor; cbn [nodes lists]; try done.
  - intros l. destruct (decide (l = a)) as [->|Hne]; [by rewrite !lookup_insert_eq|]. rewrite !lookup_insert_ne by done. apply O1.
  - intros l s. destruct (decide (l = a)) as [->|Hne]; [rewrite lookup_insert_eq; intros [= <-]; split; [constructor|done]|]. rewrite lookup_insert_ne by done. apply O2.
  - intros n nd l Hn Ho. destruct (O4 n nd l Hn Ho) as (s & Hs & Hin). exists s. split; [|done]. rewrite lookup_insert_ne; [done|]. intros ->. congruence.
Qed.

Lemma drop_list_ok h C l : heap_ok h C -> C !! l = Some [] -> heap_ok (mk_heap (nodes h) (delete l (lists h))) (delete l C).
Proof.
  intros [O1 O2 O3 O4 O5] Hl. constructor; cbn [nodes lists]; try done.
  - intros l2. destruct (decide (l2 = l)) as [->|Hne]; [by rewrite !lookup_delete_eq|]. rewrite !lookup_delete_ne by done. apply O1.
  - intros l2 s Hs. apply lookup_delete_Some in Hs as [_ Hs]. by apply O2.
  - intros n nd l2 Hn Ho. destruct (O4 n nd l2 Hn Ho) as (s & Hs & Hin). exists s. split; [|done]. rewrite lookup_delete_ne; [done|]. intros ->.
    rewrite Hl in Hs. injection Hs as <-. by apply not_elem_of_nil in Hin.
Qed.

(** The list of queue [q] changes to [p], which no other queue has, when nobody waits on it. *)
Lemma swap_list_ok W q wq p h C C' : inv W C -> queues W !! q = Some wq -> (forall l, wlist wq = Some l -> C !! l = Some []) ->
  heap_ok h C' -> nodes h = nodes (wheap W) -> (forall l, wlist wq <> Some l -> p <> Some l -> C' !! l = C !! l) ->
  (forall l, p = Some l -> C' !! l = Some [] /\ (wlist wq = Some l \/ C !! l = None)) -> (forall l, wlist wq = Some l -> p = None -> C' !! l = None) ->
  (p <> None -> forall l, wlist wq = Some l -> p = Some l) ->
  inv (set_queues (<[q := set_waiter_count 0 (set_wlist p wq)]> (queues W)) (set_wheap h W)) C'.
Proof.
  intros [[I1 I2 I3 I4 I5 I6 I7 I8 I9] Hd Hsl] Hq Hempty Hh Hn Hsame Hp Hgone Hkeep. constructor; [|done|done].
  set (wq' := set_waiter_count 0 (set_wlist p wq)). set (W' := set_queues _ _).
  assert (Hqs : forall q2 w2, queues W' !! q2 = Some w2 -> q2 = q /\ w2 = wq' \/ q2 <> q /\ queues W !! q2 = Some w2).
  { intros q2 w2 H2. cbn in H2. destruct (decide (q2 = q)) as [->|Hne]; [rewrite lookup_insert_eq in H2; injection H2 as <-; by left|].
    rewrite lookup_insert_ne in H2 by done. by right. }
  assert (Hnobody : forall t, ~ waits W t q).
  { intros t [Hin Hb]. destruct (I5 t Hin) as (q2 & w2 & l2 & Hb2 & Hw2 & Hl2). assert (q2 = q) as -> by congruence. assert (w2 = wq) as -> by congruence.
    destruct (I2 q wq l2 Hq Hl2) as (s & Hs & _ & Hm). rewrite (Hempty l2 Hl2) in Hs. injection Hs as <-. by apply (not_elem_of_nil t), Hm. }
  assert (Hother : forall q2 w2 l2, q2 <> q -> queues W !! q2 = Some w2 -> wlist w2 = Some l2 -> C' !! l2 = C !! l2 /\ p <> Some l2 /\ wlist wq <> Some l2).
  { intros q2 w2 l2 Hne H2 Hl2. destruct (I2 q2 w2 l2 H2 Hl2) as (s & Hs & _). assert (H1 : wlist wq <> Some l2) by (intros Hl; by eapply Hne, I4).
    assert (H3 : p <> Some l2) by (intros Hpl; destruct (Hp l2 Hpl) as [_ [?|?]]; [done|congruence]). by split_and!; [apply Hsame| |]. }
  constructor; try done; cbn [wheap set_queues set_wheap].
  - intros q2 w2 l2 H2 Hl2. destruct (Hqs q2 w2 H2) as [[-> ->]|[Hne H2']].
    + destruct (Hp l2 Hl2) as [Hs _]. exists []. split_and!; [done|done|]. intros t. split; [by intros ?%not_elem_of_nil|]. intros Hw. by destruct (Hnobody t).
    + destruct (Hother q2 w2 l2 Hne H2' Hl2) as (-> & _). by apply I2.
  - intros l2 s2 H2. destruct (decide (p = Some l2)) as [Hpl|Hpl]; [exists q, wq'; split; [cbn; apply lookup_insert_eq|done]|].
    destruct (decide (wlist wq = Some l2)) as [Hwl|Hwl].
    { destruct p as [l3|]; [by rewrite (Hkeep ltac:(done) l2 Hwl) in Hpl|]. by rewrite (Hgone l2 Hwl) in H2. }
    rewrite Hsame in H2 by done. destruct (I3 l2 s2 H2) as (q2 & w2 & Hw2 & Hl2). exists q2, w2. split; [|done]. cbn. rewrite lookup_insert_ne; [done|]. intros ->. congruence.
  - intros q1 q2 w1 w2 l2 H1 H2 Hl1 Hl2. destruct (Hqs q1 w1 H1) as [[-> ->]|[Hn1 H1']], (Hqs q2 w2 H2) as [[-> ->]|[Hn2 H2']]; [done| | |by eapply I4].
    + destruct (Hother q2 w2 l2 Hn2 H2' Hl2) as (_ & ? & _). done.
    + destruct (Hother q1 w1 l2 Hn1 H1' Hl1) as (_ & ? & _). done.
  - intros t Ht. destruct (I5 t Ht) as (q2 & w2 & l2 & Hb & Hw2 & Hl2). exists q2, w2, l2. split_and!; [done| |done]. cbn. rewrite lookup_insert_ne; [done|].
    intros <-. by apply (Hnobody t).
  - intros t nd Ht. change (nodes h !! t = Some nd -> data nd = t). rewrite Hn. by apply I6.
  - change (Z.of_nat (size (nodes h)) < 2 ^ 32). by rewrite Hn.
  - cbn. destruct (decide (poll_wait_queue W = q)) as [->|Hne]; [rewrite lookup_insert_eq; eauto|by rewrite lookup_insert_ne].
Qed.

(** Counters and the link to the pollers do not matter. *)
Lemma qfields_ok W q wq C a b : inv W C -> queues W !! q = Some wq ->
  inv (set_queues (<[q := set_poll_link b (set_wake_seq a wq)]> (queues W)) W) C.
Proof. intros Hi Hq. by apply (updq_ok q wq (fun wq => set_poll_link b (set_wake_seq a wq)) W C Hi Hq). Qed.

Lemma updq_at q wq f W : queues W !! q = Some wq -> updq q f W = Some (set_queues (<[q := f wq]> (queues W)) W).
Proof. intros Hq. unfold updq. by rewrite Hq. Qed.

Lemma init_ok fresh q wq W C : inv W C -> queues W !! q = Some wq -> waiter_count wq = 0 -> (forall a, fresh = Some a -> lists (wheap W) !! a = None) ->
  exists W' C', sched_waitq_init fresh q W = Some W' /\ inv W' C'.
Proof.
  intros Hi Hq Hc Hf. unfold sched_waitq_init. rewrite (updq_at q wq) by done. cbn [mbind option_bind].
  assert (Hwq : set_poll_link false (set_waiter_count 0 (set_wake_seq 0 wq)) = set_poll_link false (set_wake_seq 0 wq)).
  { unfold set_poll_link, set_waiter_count, set_wake_seq. cbn. by rewrite Hc. }
  rewrite Hwq. set (wq1 := set_poll_link _ _). pose proof (qfields_ok W q wq C 0 false Hi Hq) as Hi1. fold wq1 in Hi1.
  cbn [queues set_queues]. rewrite lookup_insert_eq. cbn [mbind option_bind]. change (wlist wq1) with (wlist wq). destruct (wlist wq) as [l|] eqn:Hl; [eauto|].
  unfold list_create. set (W1 := set_queues _ W) in *. assert (Hq1 : queues W1 !! q = Some wq1) by apply lookup_insert_eq.
  destruct fresh as [a|]; unfold updq; cbn [queues set_wheap]; rewrite Hq1; cbn [mbind option_bind].
  - assert (Ha : C !! a = None). { pose proof (ok_lists _ _ (wi_heap _ _ (i_wait _ _ Hi)) a) as Ho. rewrite (Hf a eq_refl) in Ho. by destruct (C !! a). }
    assert (Heq : set_wlist (Some a) wq1 = set_waiter_count 0 (set_wlist (Some a) wq1)) by (unfold set_waiter_count, set_wlist; cbn; by rewrite Hc).
    rewrite Heq. eexists _, (<[a := []]> C). split; [reflexivity|]. apply (swap_list_ok W1 q wq1 (Some a) _ C); try done; change (wlist wq1) with (wlist wq); rewrite ?Hl; try done.
    + apply new_list_ok; [apply Hi|done].
    + intros l _ Hne. rewrite lookup_insert_ne; [done|]. by intros ->.
    + intros l [= <-]. rewrite lookup_insert_eq. auto.
  - assert (Heq : set_wlist None wq1 = wq1) by (unfold set_wlist; cbn; by rewrite <- Hl at 1; destruct wq).
    rewrite Heq. eexists _, C. split; [reflexivity|]. replace (set_queues _ _) with W1; [done|].
    unfold W1. cbn. rewrite insert_insert_eq. by destruct W.
Qed.

Lemma destroy_wq_ok e q wq W C : inv W C -> 0 <= me e < MAX_CORES -> queues W !! q = Some wq ->
  exists W' C', sched_waitq_destroy e q W = Some W' /\ inv W' C'.
Proof.
  intros Hi He Hq. unfold sched_waitq_destroy. rewrite Hq. cbn [mbind option_bind]. destruct (wlist wq) as [l|] eqn:Hl.
  - destruct (bump_ok q wq W C Hi Hq) as (W1 & -> & Hi1 & _ & Hq1). cbn [mbind option_bind].
    assert (Hqq : queues W1 !! q = Some (seq_next wq)) by (rewrite Hq1; apply lookup_insert_eq). destruct (queue_list W1 C q _ l Hi1 Hqq) as [s Hs]; [done|].
    destruct (wake_all_ok (locked e) q (seq_next wq) l s W1 C Hi1) as (W2 & -> & Hi2 & Hw2); [done|done|done|done|]. cbn [mbind option_bind].
    destruct (qseq_at W1 W2 q (seq_next wq) (wk_queues _ _ _ Hw2) Hqq) as (wq2 & Hq2 & El & _).
    rewrite (updq_at q wq2) by done. cbn [mbind option_bind]. rewrite (updq_at q (set_wlist None wq2)) by (cbn; apply lookup_insert_eq).
    assert (Hl2 : wlist wq2 = Some l) by (rewrite El; exact Hl).
    assert (Hi3 : inv (set_queues (<[q := set_waiter_count 0 (set_wlist None wq2)]> (queues W2))
      (set_wheap (mk_heap (nodes (wheap W2)) (delete l (lists (wheap W2)))) W2)) (delete l (<[l := []]> C))).
    { apply (swap_list_ok W2 q wq2 None _ (<[l := []]> C)); try done; rewrite ?Hl2.
      - intros ? [= <-]. apply lookup_insert_eq.
      - apply drop_list_ok; [apply Hi2|apply lookup_insert_eq].
      - intros l2 Hne _. rewrite lookup_delete_ne; [done|]. by intros ->.
      - intros ? [= <-] _. apply lookup_delete_eq. }
    set (W3 := set_queues _ _) in Hi3. assert (Hq3 : queues W3 !! q = Some (set_waiter_count 0 (set_wlist None wq2))) by (cbn; apply lookup_insert_eq).
    pose proof (qfields_ok W3 q _ _ 0 false Hi3 Hq3) as Hi4. eexists _, _. split; [reflexivity|]. cbn [queues W3 set_queues] in Hi4. rewrite insert_insert_eq in Hi4.
    cbn [queues set_queues]. change (queues (waitq_free_list l W2)) with (queues W2). rewrite insert_insert_eq. exact Hi4.
  - cbn [mbind option_bind]. rewrite (updq_at q wq) by done. eexists _, C. split; [reflexivity|].
    assert (Hi3 : inv (set_queues (<[q := set_waiter_count 0 (set_wlist None wq)]> (queues W)) (set_wheap (wheap W) W)) C).
    { apply (swap_list_ok W q wq None _ C); try done; rewrite ?Hl; try done. apply Hi. }
    set (W3 := set_queues _ _) in Hi3. assert (Hq3 : queues W3 !! q = Some (set_waiter_count 0 (set_wlist None wq))) by (cbn; apply lookup_insert_eq).
    pose proof (qfields_ok W3 q _ _ 0 false Hi3 Hq3) as Hi4. cbn [queues W3 set_queues] in Hi4. rewrite insert_insert_eq in Hi4.
    replace (set_wlist None wq) with wq in Hi4 by (unfold set_wlist; rewrite <- Hl; by destruct wq). exact Hi4.
Qed.
End Proofs.
End WaitQueue.
