(* ===== verification/Waiting.v ===== *)
(** * Histories of waiting and waking

    The operations of [WaitQueue] in any order, on any core, and what holds throughout: the queues, the
    sleep queue, the run queues and the cores agree on where each thread is.  Then what the operations
    promise: a wake-up takes the longest waiter, a wake-up of all leaves nobody asleep, a wake-up between
    looking and waiting is not lost, and no sleeper stays past its tick. *)

From S2P Require Import Prelude Memory Outcome Errno BinHeap IntrusiveHeap Sched RunQueue SchedState Dispatch LinkedList WaitQueue.
From stdpp Require Import gmap functions list.
Import RunQueue SchedState.SleepHeap Dispatch LinkedList WaitQueue.
Open Scope Z_scope.

Module Waiting.

(** No thread is in the middle of its exit. *)
Notation inv := (WaitQueue.inv (x := None)).

Section Defs.
Context `{Arch}.
Implicit Types (W : wait_state_t) (t self : tid) (q : Z) (e : env).

(** The threads of a queue, as its list links them. *)
Fixpoint walk (fuel : nat) (N : gmap Z list_node_t) (it : ptr Z) : list Z :=
  match fuel, it with
  | S fuel, Some n => n :: match N !! n with Some nd => walk fuel N (nnext nd) | None => [] end
  | _, _ => []
  end.

Definition queue_threads W q : list tid :=
  match queues W !! q with
  | Some wq =>
      match wlist wq with
      | Some l => match lists (wheap W) !! l with Some ls => walk (size (nodes (wheap W))) (nodes (wheap W)) (lhead ls) | None => [] end
      | None => []
      end
  | None => []
  end.

(** The pollers a wake-up of the queue concerns. *)
Definition linked_pollers W q (wq : sched_wait_queue_t) : list tid :=
  if bool_decide (q = poll_wait_queue W) || negb (poll_link wq) then [] else queue_threads W (poll_wait_queue W).

(** An operation on the wait queues; [OSched] stands for what the rest of the scheduler does in
    between. *)
Inductive op :=
  | OInit (fresh : ptr Z) (q : Z)
  | OSetPoll (q : Z) (enabled : bool)
  | ODestroy (q : Z)
  | OWait (spin_held : bool) (queue : ptr Z) (observed_seq deadline_tick flags : Z)
  | OWaitEnd (self : tid) (now deadline_tick flags : Z)
  | OWakeOne (q : Z)
  | OWakeAll (q : Z)
  | OSleepers (now : Z)
  | ODequeue (t : tid)
  | OMakeRunnable (t : tid)
  | OUnblock (t : tid)
  | OStop (t : tid) (signum : Z) (parent : option parent_t)
  | OContinue (t : tid)
  | OSched (st : sched_state_t).

Definition exec e (o : op) W : option wait_state_t :=
  match o with
  | OInit fresh q => sched_waitq_init fresh q W
  | OSetPoll q b => sched_waitq_set_poll q b W
  | ODestroy q => sched_waitq_destroy e q W
  | OWait held queue observed deadline flags => '(_, W) ← wait_on_begin e held queue observed deadline flags W; Some W
  | OWaitEnd self now deadline flags => Some (wait_on_end self now deadline flags W).2
  | OWakeOne q => sched_wake_one e q W
  | OWakeAll q => sched_wake_all e q W
  | OSleepers now => wake_sleepers (locked e) now W
  | ODequeue t => wq_remove t W
  | OMakeRunnable t => sched_make_runnable e t W
  | OUnblock t => sched_unblock_thread e t W
  | OStop t signum parent => '(_, W) ← sched_stop_thread e t signum parent W; Some W
  | OContinue t => sched_continue_thread e t W
  | OSched st => Some (set_sched st W)
  end.

(** The addresses an operation is given are those of objects; a queue is not initialised while threads
    wait on it, and [calloc] answers a new list. *)
Definition op_ok e (o : op) W : Prop :=
  0 <= me e < MAX_CORES /\
  match o with
  | OInit fresh q => (exists wq, queues W !! q = Some wq /\ waiter_count wq = 0) /\ forall a, fresh = Some a -> lists (wheap W) !! a = None
  | OSetPoll q _ | ODestroy q | OWakeOne q | OWakeAll q => is_Some (queues W !! q)
  | OWait _ queue _ _ _ => (forall q, queue = Some q -> is_Some (queues W !! q)) /\
      forall k t, local e (sched W) = Some k -> current k = Some t -> is_Some (nodes (wheap W) !! t)
  | OStop _ _ parent => parent_ok W parent
  | OSched st => dinv None st /\ forall u, in_wait_queue (threads st u) = in_wait_queue (thread W u) /\ skey (threads st u) = skey (thread W u)
  | _ => True
  end.

Definition step W W' : Prop := exists e o, op_ok e o W /\ exec e o W = Some W'.

(** The state [scheduler_init] leaves: no queue has a list yet, no thread waits or sleeps. *)
Record booted W : Prop := {
  bo_rqs : rq_fresh (sched W);
  bo_cores : own_inv None (sched W);
  bo_sleep : sleep W = mk_sleep (replicate (Z.to_nat SCHED_SLEEP_CAPACITY) None) 0;
  bo_threads : forall t, sleep_queued (thread W t) = false /\ in_wait_queue (thread W t) = false;
  bo_queues : forall q wq, queues W !! q = Some wq -> wlist wq = None;
  bo_lists : lists (wheap W) = ∅;
  bo_nodes : forall n nd, nodes (wheap W) !! n = Some nd -> 0 < n < SIZE_MOD /\ nnext nd = None /\ nprev nd = None /\ owner nd = None;
  bo_few : Z.of_nat (size (nodes (wheap W))) < 2 ^ 32;
  bo_poll : is_Some (queues W !! poll_wait_queue W)
}.

(** The parts agree: a queue's list has the threads that name the queue, once each, and its count is
    their number; a waiting thread is in one queue; the sleep queue has the threads marked as sleeping
    until a tick; a core's threads are its own and in no run queue; a thread in a run queue is ready and
    has a context. *)
Record consistent W : Prop := {
  co_queues : forall q wq, queues W !! q = Some wq -> wlist wq <> None ->
    NoDup (queue_threads W q) /\ waiter_count wq = zlen (queue_threads W q) /\
    forall t, t ∈ queue_threads W q <-> in_wait_queue (thread W t) = true /\ blocked_on (waiters W t) = Some q;
  co_waiting : forall t, in_wait_queue (thread W t) = true -> exists q, t ∈ queue_threads W q;
  co_sleeping : forall t, sleep_queued (thread W t) = true <-> t ∈ sleepers (sleep W);
  co_cores : forall c c' t, holds (sched W) c t -> holds (sched W) c' t -> c = c';
  co_running : forall c t, holds (sched W) c t -> on_rq (thread W t) = false /\ running_cpu (thread W t) = Z.of_nat c;
  co_queued : forall t, on_rq (thread W t) = true -> queueable (thread W t)
}.

Definition winv W : Prop := exists C, inv W C.
End Defs.

Section Proofs.
Context `{Arch}.
Implicit Types (W : wait_state_t) (t u self : tid) (q l : Z) (e : env) (C : gmap Z (list Z)) (s : list Z).

Lemma walk_linked N o p s fuel : linked N o p s None -> (length s <= fuel)%nat -> walk fuel N (first_or s None) = s.
Proof.
  revert p fuel. induction s as [|n s IH]; intros p fuel; [by destruct fuel|]. intros [[d Hd] Hs] Hf. destruct fuel as [|fuel]; [cbn in Hf; lia|].
  cbn [walk first_or]. rewrite Hd. cbn [nnext]. f_equal. eapply IH; [exact Hs|cbn in Hf; lia].
Qed.

Lemma queue_threads_ok W C q wq l s : inv W C -> queues W !! q = Some wq -> wlist wq = Some l -> C !! l = Some s -> queue_threads W q = s.
Proof.
  intros Hi Hq Hl Hs. pose proof (wi_heap _ _ (i_wait _ _ Hi)) as Hok. unfold queue_threads. rewrite Hq, Hl, (list_at _ _ _ _ Hok Hs). cbn [lhead].
  destruct (ok_linked _ _ Hok _ _ Hs) as [_ Hlk]. eapply walk_linked; [exact Hlk|]. by eapply seq_le_size.
Qed.

Lemma pollers_threads W C q wq : inv W C -> pollers W C q wq = linked_pollers W q wq.
Proof.
  intros Hi. unfold pollers, linked_pollers. destruct (_ || _); [done|]. destruct (queues W !! poll_wait_queue W) as [pq|] eqn:Hq; [|unfold queue_threads; by rewrite Hq].
  destruct (wlist pq) as [pl|] eqn:Hl; [|unfold queue_threads; by rewrite Hq, Hl]. destruct (queue_list W C _ pq pl Hi Hq Hl) as [ps Hps].
  by rewrite Hps, (queue_threads_ok W C _ pq pl ps Hi Hq Hl Hps).
Qed.

Lemma inv_consistent W C : inv W C -> consistent W.
Proof.
  intros Hi. pose proof Hi as [Hw Hd Hs]. constructor.
  - intros q wq Hq Hl. destruct (wlist wq) as [l|] eqn:El; [|done]. destruct (wi_queue _ _ Hw q wq l Hq El) as (s & Hss & Hc & Hm).
    rewrite (queue_threads_ok W C q wq l s Hi Hq El Hss). split_and!; [by apply (ok_linked _ _ (wi_heap _ _ Hw) l)|done|exact Hm].
  - intros t Ht. destruct (wi_blocked _ _ Hw t Ht) as (q & wq & l & Hb & Hq & El). destruct (wi_queue _ _ Hw q wq l Hq El) as (s & Hss & _ & Hm).
    exists q. rewrite (queue_threads_ok W C q wq l s Hi Hq El Hss). by apply Hm.
  - apply (si_queued _ _ Hs).
  - intros c c' t. apply (o_one _ _ (proj2 Hd)).
  - intros c t Hh. split; [|by destruct (o_cpu _ _ (proj2 Hd) c t Hh)]. destruct (on_rq (thread W t)) eqn:Hon; [|done].
    destruct (o_rq _ _ (proj2 Hd) t Hon) as [Hno _]. by destruct (Hno c).
  - intros t. apply (o_ready _ _ (proj2 Hd)).
Qed.

Lemma booted_inv W : booted W -> inv W ∅.
Proof.
  intros [B1 B2 B3 B4 B5 B6 B7 B8 B9]. constructor.
  - constructor; try done.
    + constructor; try done.
      * intros l. by rewrite B6, !lookup_empty.
      * intros n nd Hn _. by destruct (B7 n nd Hn) as (_ & ? & ? & _).
      * intros n nd l Hn Ho. destruct (B7 n nd Hn) as (_ & _ & _ & Hno). congruence.
      * intros n nd Hn. by destruct (B7 n nd Hn).
    + intros q wq l Hq Hl. rewrite (B5 q wq Hq) in Hl. done.
    + intros q q' wq wq' l Hq _ Hl. rewrite (B5 q wq Hq) in Hl. done.
    + intros t Ht. destruct (B4 t). congruence.
    + intros t nd Ht. destruct (B4 t). congruence.
  - split; [by apply fresh_inv|done].
  - rewrite B3. exact (sleep_empty_inv (threads (sched W)) (fun t => proj1 (B4 t))).
Qed.

Lemma wait_exec_ok e o W C : inv W C -> op_ok e o W -> exists W', exec e o W = Some W' /\ winv W'.
Proof.
  intros Hi [He Ho]. destruct o; cbn [exec]; cbn in Ho.
  - destruct Ho as [(wq & Hq & Hc) Hf]. destruct (init_ok fresh q wq W C Hi Hq Hc Hf) as (W' & C' & -> & ?). exists W'. split; [done|by exists C'].
  - destruct Ho as [wq Hq]. destruct (updq_ok q wq (set_poll_link enabled) W C Hi Hq) as [Hu ?]; [done|]. eexists. split; [exact Hu|by exists C].
  - destruct Ho as [wq Hq]. destruct (destroy_wq_ok e q wq W C Hi He Hq) as (W' & C' & -> & ?). exists W'. split; [done|by exists C'].
  - destruct Ho as [Hq Hn]. destruct (wait_begin_ok e spin_held queue observed_seq deadline_tick flags W C Hi eq_refl He Hq Hn) as (r & W' & C' & -> & ?). exists W'. split; [done|by exists C'].
  - eexists. split; [reflexivity|]. exists C. by apply updw_ok.
  - destruct (wake_one_any e q W C Hi He Ho) as (W' & -> & ? & _). by exists W'.
  - destruct (wake_all_any e q W C Hi He Ho) as (W' & -> & ? & _). by exists W'.
  - destruct (wake_sleepers_ok (locked e) now W C Hi eq_refl He) as (W' & C' & -> & ? & _). exists W'. split; [done|by exists C'].
  - destruct (dequeue_ok t W C Hi) as (W' & C' & He' & ? & _). exists W'. split; [exact He'|by exists C'].
  - destruct (decide (pid (thread W t) = 0)) as [Hp|Hp].
    + exists W. unfold sched_make_runnable, sched_thread_is_idle. rewrite Hp. split; [done|by exists C].
    + destruct (make_runnable_ok e t W C Hi ltac:(done) He Hp) as (W' & -> & _ & ? & _). by exists W'.
  - destruct (unblock_ok e t W C Hi ltac:(done) He) as (W' & -> & ? & _). by exists W'.
  - destruct (stop_ok e t signum parent W C Hi eq_refl He Ho) as (b & W' & C' & -> & ?). exists W'. split; [done|by exists C'].
  - destruct (continue_ok e t W C Hi ltac:(done) He) as (W' & -> & ? & _). exists W'. split; [done|by exists C].
  - destruct Ho as [Hd Hk]. eexists. split; [reflexivity|]. exists C. destruct Hi as [Hw _ Hs]. constructor; [|done|].
    + apply (wq_frame W); try done. intros u. apply Hk.
    + apply (sleep_frame (threads (sched W))); [done|]. intros u. apply Hk.
Qed.

Lemma steps_inv W W' : winv W -> rtc step W W' -> winv W'.
Proof.
  intros Hi Hs. induction Hs as [|W W1 W2 (e & o & Ho & He) _ IH]; [done|]. apply IH. destruct Hi as [C Hi].
  destruct (wait_exec_ok e o W C Hi Ho) as (W' & He' & Hi'). rewrite He in He'. by injection He' as ->.
Qed.
End Proofs.

(** ** The theorems *)

Section Claims.
Context `{Arch}.

(** C10: In every history of waiting, waking, stopping, continuing and sleeping after boot, with anything
    consistent the rest of the scheduler does in between, each wait queue's list holds exactly the threads
    blocked on it, once each, and [waiter_count] is their number; a waiting thread is in one queue; the
    sleep queue holds the threads marked so; a core's threads are its own and in no run queue; the threads
    of the run queues are ready.  Every operation returns: none reaches a null or dangling pointer, and no loop runs forever. *)
Theorem wait_queues_consistent W W' :
  booted W -> rtc step W W' -> consistent W' /\ forall e o, op_ok e o W' -> exists W2, exec e o W' = Some W2 /\ consistent W2.
Proof.
  intros Hb Hs. assert (Hi : winv W') by (apply (steps_inv W); [exists ∅; by apply booted_inv|done]). destruct Hi as [C Hi].
  split; [by eapply inv_consistent|]. intros e o Ho. destruct (wait_exec_ok e o W' C Hi Ho) as (W2 & He & C2 & Hi2). exists W2. split; [done|by eapply inv_consistent].
Qed.

(** C20: [sched_wake_one] wakes the thread that has waited longest: it leaves the queue, the others stay
    in their order, and the wake-up is counted.  When the queue reports to the pollers (pipes, terminals, keyboard and
    mouse), every poller is woken too.  A thread that is woken is in no queue, has the result [SCHED_WAIT_WOKEN] and,
    if it was asleep, is ready, or runs on if a core was still running it; the state of every other thread,
    and where it waits, does not change. *)
Theorem wake_one_fifo e q wq W :
  winv W -> 0 <= me e < MAX_CORES -> queues W !! q = Some wq -> wlist wq <> None ->
  exists W' wq', sched_wake_one e q W = Some W' /\ winv W' /\ queues W' !! q = Some wq' /\ wake_seq wq' = u32_wrap (wake_seq wq + 1) /\
    queue_threads W' q = tail (queue_threads W q) /\
    (forall u, u ∉ take 1 (queue_threads W q) ++ linked_pollers W q wq ->
      state (thread W' u) = state (thread W u) /\ in_wait_queue (thread W' u) = in_wait_queue (thread W u) /\ waiters W' u = waiters W u) /\
    forall t, t ∈ take 1 (queue_threads W q) ++ linked_pollers W q wq ->
      in_wait_queue (thread W' t) = false /\ wait_result (waiters W' t) = SCHED_WAIT_WOKEN /\
      (state (thread W t) = THREAD_SLEEPING ->
        (on_core (sched W) t -> state (thread W' t) = THREAD_RUNNING) /\ (~ on_core (sched W) t -> state (thread W' t) = THREAD_READY)).
Proof.
  intros [C Hi] He Hq Hl. destruct (wlist wq) as [l|] eqn:El; [|done]. destruct (queue_list W C q wq l Hi Hq El) as [s Hs].
  destruct (sched_wake_one_ok e q wq l s W C Hi He Hq El Hs) as (W' & Hw & [(C' & Hi' & Hs') (W1 & Hc & Hk) (wq' & Hq' & El' & Hseq)]).
  rewrite (queue_threads_ok W C q wq l s Hi Hq El Hs), <- (pollers_threads W C q wq Hi). exists W', wq'.
  split_and!; [done|by exists C'|done|done|by eapply queue_threads_ok| |].
  - intros u Hu. destruct (wk_others _ _ _ Hk u Hu) as (-> & -> & ->). unfold thread. by rewrite (ct_sched _ _ Hc), (ct_waiters _ _ Hc).
  - intros t Ht. destruct (wk_woken _ _ _ Hk t Ht) as (A & B & D). split_and!; [done|done|]. unfold woken, thread in *. rewrite (ct_sched _ _ Hc) in D. exact D.
Qed.

(** After [sched_wake_all] nobody waits on the queue: every thread that slept on it is ready, or
    runs on if a core was still running it, and has the result [SCHED_WAIT_WOKEN]; so have all pollers
    when the queue reports to them. *)
Theorem wake_all_wakes_everyone e q wq W :
  winv W -> 0 <= me e < MAX_CORES -> queues W !! q = Some wq -> wlist wq <> None ->
  exists W', sched_wake_all e q W = Some W' /\ queue_threads W' q = [] /\
    forall t, t ∈ queue_threads W q \/ t ∈ linked_pollers W q wq ->
      in_wait_queue (thread W' t) = false /\ wait_result (waiters W' t) = SCHED_WAIT_WOKEN /\
      (state (thread W t) = THREAD_SLEEPING ->
        (on_core (sched W) t -> state (thread W' t) = THREAD_RUNNING) /\ (~ on_core (sched W) t -> state (thread W' t) = THREAD_READY)).
Proof.
  intros [C Hi] He Hq Hl. destruct (wlist wq) as [l|] eqn:El; [|done]. destruct (queue_list W C q wq l Hi Hq El) as [s Hs].
  destruct (sched_wake_all_ok e q wq l s W C Hi He Hq El Hs) as (W' & Hw & [(C' & Hi' & Hs') (W1 & Hc & Hk) (wq' & Hq' & El' & _)]).
  exists W'. split_and!; [done|by eapply queue_threads_ok|]. intros t Ht.
  rewrite (queue_threads_ok W C q wq l s Hi Hq El Hs), <- (pollers_threads W C q wq Hi), <- elem_of_app in Ht.
  destruct (wk_woken _ _ _ Hk t Ht) as (A & B & D). split_and!; [done|done|]. unfold woken, thread in *. rewrite (ct_sched _ _ Hc) in D. exact D.
Qed.

(** C15: A wake-up between looking and waiting is not lost: when [sched_wake_one] runs on a queue after a
    thread read its [sched_wait_seq], the thread's [sched_wait_on] for that number does not put it to
    sleep; it goes on running.  Without one it sleeps at the end of the queue or, for a pending signal, a
    thread that is not the running one or a full sleep queue, returns at once. *)
Theorem no_lost_wakeup e e' q wq self seq deadline flags W W1 :
  winv W -> 0 <= me e < MAX_CORES -> 0 <= me e' < MAX_CORES -> queues W !! q = Some wq -> wlist wq <> None ->
  is_Some (nodes (wheap W) !! self) -> sched_wait_seq q W = Some seq -> sched_wake_one e' q W = Some W1 ->
  (exists r W2, wait_on_locked e q self seq deadline flags W1 = Some (WaitReturns r, W2) /\ winv W2 /\
     state (thread W2 self) = state (thread W1 self)) /\
  (exists r W2, wait_on_locked e q self seq deadline flags W = Some (r, W2) /\ winv W2 /\
     match r with
     | WaitSleeps => state (thread W2 self) = THREAD_SLEEPING /\ last (queue_threads W2 q) = Some self
     | WaitReturns _ => state (thread W2 self) = state (thread W self)
     end).
Proof.
  intros [C Hi] He He' Hq Hl Hn Hseq Hw. destruct (wlist wq) as [l|] eqn:El; [|done]. destruct (queue_list W C q wq l Hi Hq El) as [s Hs].
  unfold sched_wait_seq in Hseq. rewrite Hq in Hseq. cbn [mbind option_bind] in Hseq. rewrite bool_decide_false in Hseq by (by rewrite El). injection Hseq as <-.
  split.
  - destruct (sched_wake_one_ok e' q wq l s W C Hi He' Hq El Hs) as (W' & Hw' & [(C' & Hi' & Hs') (W0 & Hc & Hk) (wq' & Hq' & El' & Hsq)]).
    assert (W' = W1) as -> by congruence.
    assert (Hn1 : is_Some (nodes (wheap W1) !! self)).
    { pose proof (wk_data _ _ _ Hk self) as Hd. rewrite (ct_heap _ _ Hc) in Hd. destruct Hn as [nd Hn]. rewrite Hn in Hd. destruct (nodes (wheap W1) !! self); [eauto|done]. }
    destruct (wait_on_locked_ok e q wq' l (tail s) self (wake_seq wq) deadline flags W1 C' Hi' He Hq' El' Hs' Hn1) as (r & W2 & Hr & Hpost & _); [done|].
    destruct r as [v|]; cbn in Hpost; [destruct Hpost as (_ & Hst & Hi2); exists v, W2; by split_and!|]. destruct Hpost as [Hbad _]. rewrite Hsq in Hbad.
    exfalso. unfold u32_wrap in Hbad. pose proof (Z.div_mod (wake_seq wq + 1) (2 ^ 32) ltac:(lia)). lia.
  - destruct (wait_on_locked_ok e q wq l s self (wake_seq wq) deadline flags W C Hi He Hq El Hs Hn) as (r & W2 & Hr & Hpost & _); [done|]. exists r, W2.
    destruct r as [v|]; cbn in Hpost; [by destruct Hpost as (_ & Hst & Hi2); split_and!|]. destruct Hpost as (_ & Hwt & Hst & C2 & Hi2 & Hs2).
    split_and!; [done|by exists C2|done|]. destruct Hwt as [Hin Hb]. destruct (wi_blocked _ _ (i_wait _ _ Hi2) self Hin) as (q2 & wq2 & l2 & Hb2 & Hq2 & El2).
    assert (q2 = q) as -> by congruence. destruct (queue_list W2 C2 q wq2 l2 Hi2 Hq2 El2) as [s2 Hs2'].
    assert (Hm : self ∈ s2). { destruct (wi_queue _ _ (i_wait _ _ Hi2) q wq2 l2 Hq2 El2) as (s3 & Hs3 & _ & Hm3). assert (s3 = s2) as -> by congruence. by apply Hm3. }
    assert (l2 = l) as ->. { eapply (lists_disjoint _ _ _ _ _ _ self (wi_heap _ _ (i_wait _ _ Hi2)) Hs2' Hs2 Hm). apply elem_of_app. right. by left. }
    rewrite (queue_threads_ok W2 C2 q wq2 l _ Hi2 Hq2 El2 Hs2). by rewrite last_snoc.
Qed.

(** C21: [wake_sleepers] leaves no sleeper whose tick has come: everyone still in the sleep queue has a
    later tick, and was there before; a thread that left it, and slept, is in no wait queue, has the
    result [SCHED_WAIT_TIMEOUT], and is ready or running on; all other threads are untouched. *)
Theorem due_sleepers_wake e now W :
  winv W -> 0 <= me e < MAX_CORES ->
  exists W', wake_sleepers e now W = Some W' /\ winv W' /\
    (forall u, u ∈ sleepers (sleep W') -> u ∈ sleepers (sleep W) /\ now < wake_tick (thread W' u)) /\
    (forall u, u ∈ sleepers (sleep W) -> u ∉ sleepers (sleep W') -> wake_tick (thread W u) <> 0 -> state (thread W u) = THREAD_SLEEPING ->
       in_wait_queue (thread W' u) = false /\ wait_result (waiters W' u) = SCHED_WAIT_TIMEOUT /\
       (on_core (sched W) u -> state (thread W' u) = THREAD_RUNNING) /\ (~ on_core (sched W) u -> state (thread W' u) = THREAD_READY)) /\
    (forall u, u ∉ sleepers (sleep W) -> state (thread W' u) = state (thread W u) /\ waiters W' u = waiters W u).
Proof.
  intros [C Hi] He. destruct (wake_sleepers_ok e now W C Hi eq_refl He) as (W' & C' & Hw & Hi' & [D1 D2 D3 _]). exists W'. split_and!; [done|by exists C'|done| |].
  - intros u Hu Hu' Ht Hs. destruct (D2 u Hu Hu' Ht Hs) as (A & B & D). destruct (D Hs). by split_and!.
  - intros u Hu. destruct (D3 u (or_introl Hu)) as (? & _ & _ & ?). done.
Qed.
End Claims.

(** ** A concrete machine: threads 5 and 6 run on cores 0 and 1 *)

#[local] Existing Instance arch64.

Definition demo_thread (t : tid) : sched_thread_t :=
  if t =? 5 then set_running_cpu 0 (set_state THREAD_RUNNING (RunQueue.demo_thread t))
  else if t =? 6 then set_running_cpu 1 (set_state THREAD_RUNNING (RunQueue.demo_thread t))
  else RunQueue.demo_thread t.

Definition demo_cpu (p : ptr tid) : sched_cpu_t := mk_cpu p None None 0 0 0 false false false.

Definition demo_sched : sched_state_t :=
  set_cpus (demo_cpu (Some 5) :: demo_cpu (Some 6) :: replicate 62 (demo_cpu None)) (set_threads demo_thread RunQueue.demo).

Definition demo0 : wait_state_t :=
  mk_wait demo_sched (fun _ => mk_waiter None 0 0 3 0 0 0 0 false) (mk_sleep (replicate (Z.to_nat SCHED_SLEEP_CAPACITY) None) 0)
    (mk_heap {[5 := mk_node 0 None None None; 6 := mk_node 0 None None None]} ∅)
    {[1 := mk_queue None 0 0 false; 2 := mk_queue None 0 0 false]} 2 0.

Definition core (c : Z) : env := mk_env c true (fun _ => true).

Lemma demo_fields t : (running_cpu (demo_thread t), on_rq (demo_thread t), in_run_queue (demo_thread t), rq_index (demo_thread t), sleep_queued (demo_thread t),
    in_wait_queue (demo_thread t), last_cpu (demo_thread t)) =
  (if t =? 5 then 0 else if t =? 6 then 1 else -1, false, false, UINT32_MAX, false, false, 0).
Proof. unfold demo_thread. destruct (t =? 5); [done|]. by destruct (t =? 6). Qed.

Lemma demo_core c k : cpus demo_sched !! c = Some k ->
  idle_thread k = None /\ handoff_ready k = None /\ forall t, current k = Some t -> c = 0%nat /\ t = 5 \/ c = 1%nat /\ t = 6.
Proof.
  destruct c as [|[|c]]; [intros [= <-]|intros [= <-]|]; [split_and!; [done|done|intros t [= <-]; auto]..|].
  change (replicate 62 (demo_cpu None) !! c = Some k -> idle_thread k = None /\ handoff_ready k = None /\
    forall t, current k = Some t -> S (S c) = 0%nat /\ t = 5 \/ S (S c) = 1%nat /\ t = 6).
  intros [-> _]%lookup_replicate. by split_and!.
Qed.

Lemma demo_own : own_inv None demo_sched.
Proof.
  assert (Hh : forall c t, holds demo_sched c t -> c = 0%nat /\ t = 5 \/ c = 1%nat /\ t = 6).
  { intros c t (k & Hk & Ht). destruct (demo_core c k Hk) as (_ & Hn & Hc). destruct Ht as [Ht|Ht]; [by apply Hc|congruence]. }
  constructor.
  - intros c t Ht. left. by destruct (Hh c t Ht) as [[-> ->]|[-> ->]].
  - intros c c' t H1 H2. destruct (Hh _ _ H1) as [[-> ->]|[-> ->]], (Hh _ _ H2) as [[-> ?]|[-> ?]]; done.
  - intros t Ht. change (on_rq (demo_thread t) = true) in Ht. by injection (demo_fields t) as _ E _ _ _ _ _; rewrite E in Ht.
  - intros c k t Hk Hi. destruct (demo_core c k Hk) as (Hn & _). congruence.
  - intros c c' k k' t Hk _ Hi. destruct (demo_core c k Hk) as (Hn & _). congruence.
  - done.
  - intros c k t Hk _ Hi. destruct (demo_core c k Hk) as (_ & Hn & _). congruence.
  - intros t. change (0 <= last_cpu (demo_thread t)). by injection (demo_fields t) as _ _ _ _ _ _ ->.
  - intros t Ht. change (on_rq (demo_thread t) = true) in Ht. by injection (demo_fields t) as _ E _ _ _ _ _; rewrite E in Ht.
Qed.

Lemma demo_booted : booted demo0.
Proof.
  constructor; try done.
  - constructor; try done. intros t. change (on_rq (demo_thread t) = false /\ in_run_queue (demo_thread t) = false /\ rq_index (demo_thread t) = UINT32_MAX).
    by injection (demo_fields t) as _ -> -> -> _ _ _.
  - exact demo_own.
  - intros t. change (sleep_queued (demo_thread t) = false /\ in_wait_queue (demo_thread t) = false). by injection (demo_fields t) as _ _ _ _ -> -> _.
  - intros q wq Hq. cbn in Hq. apply lookup_insert_Some in Hq as [[_ <-]|[_ Hq]]; [done|]. by apply lookup_singleton_Some in Hq as [_ <-].
  - intros n nd Hn. cbn in Hn. pose proof (eq_refl : 2 ^ 64 = SIZE_MOD). apply lookup_insert_Some in Hn as [[<- <-]|[_ Hn]]; [split_and!; [lia|lia|done..]|].
    apply lookup_singleton_Some in Hn as [<- <-]. split_and!; [lia|lia|done..].
Qed.

(** Queue 1 gets a list; thread 5 waits on it until tick 50. *)
Definition demo1 : wait_state_t := default demo0 (exec (core 0) (OInit (Some 100) 1) demo0).
Definition demo2 : wait_state_t := default demo0 (exec (core 0) (OWait false (Some 1) 0 50 0) demo1).

Lemma wait_demo_step e o W : winv W -> op_ok e o W -> step W (default demo0 (exec e o W)).
Proof. intros [C Hi] Ho. destruct (wait_exec_ok e o W C Hi Ho) as (W' & He & _). exists e, o. split; [done|]. by rewrite He. Qed.

Lemma demo1_steps : rtc step demo0 demo1.
Proof.
  apply rtc_once, wait_demo_step; [exists ∅; apply booted_inv, demo_booted|]. split; [by vm_compute|]. split; [by eexists|]. intros a [= <-]. done.
Qed.

Lemma demo2_steps : rtc step demo0 demo2.
Proof.
  eapply rtc_r; [exact demo1_steps|]. apply wait_demo_step; [eapply steps_inv; [exists ∅; apply booted_inv, demo_booted|exact demo1_steps]|].
  split; [by vm_compute|]. split; [intros q [= <-]; vm_compute; by eexists|].
  intros k t Hk. assert (Hc : current <$> local (core 0) (sched demo1) = Some (Some 5)) by (vm_compute; reflexivity). rewrite Hk in Hc. injection Hc as ->.
  intros [= <-]. vm_compute. by eexists.
Qed.

Lemma demo2_inv : winv demo2.
Proof. eapply steps_inv; [exists ∅; apply booted_inv, demo_booted|exact demo2_steps]. Qed.

Lemma wait_queues_consistent_witness :
  booted demo0 /\ rtc step demo0 demo2 /\ queue_threads demo2 1 = [5] /\ state (thread demo2 5) = THREAD_SLEEPING /\ consistent demo2.
Proof.
  split_and!; [exact demo_booted|exact demo2_steps|vm_compute; reflexivity|vm_compute; reflexivity|].
  apply (wait_queues_consistent demo0 demo2 demo_booted demo2_steps).
Defined.

Definition wq2 : sched_wait_queue_t := mk_queue (Some 100) 0 1 false.

(** Queue 1 reports to the pollers, whose queue 2 gets a list, and thread 6 polls. *)
Definition demo3 : wait_state_t := default demo0 (exec (core 0) (OInit (Some 200) 2) demo2).
Definition demo4 : wait_state_t := default demo0 (exec (core 0) (OSetPoll 1 true) demo3).
Definition demo5 : wait_state_t := default demo0 (exec (core 1) (OWait false (Some 2) 0 0 0) demo4).
Definition wq5 : sched_wait_queue_t := mk_queue (Some 100) 0 1 true.

Lemma demo5_steps : rtc step demo0 demo5.
Proof.
  assert (Hs : forall W, rtc step demo0 W -> winv W) by (intros W HW; eapply steps_inv; [exists ∅; apply booted_inv, demo_booted|exact HW]).
  assert (H3 : rtc step demo0 demo3).
  { eapply rtc_r; [exact demo2_steps|]. apply wait_demo_step; [by apply Hs, demo2_steps|]. split; [by vm_compute|]. split; [vm_compute; by eexists|]. intros a [= <-]. by vm_compute. }
  assert (H4 : rtc step demo0 demo4).
  { eapply rtc_r; [exact H3|]. apply wait_demo_step; [by apply Hs|]. split; [by vm_compute|]. vm_compute. by eexists. }
  eapply rtc_r; [exact H4|]. apply wait_demo_step; [by apply Hs|]. split; [by vm_compute|]. split; [intros q [= <-]; vm_compute; by eexists|].
  intros k t Hk. assert (Hc : current <$> local (core 1) (sched demo4) = Some (Some 6)) by (vm_compute; reflexivity). rewrite Hk in Hc. injection Hc as ->.
  intros [= <-]. vm_compute. by eexists.
Qed.

Lemma demo5_inv : winv demo5.
Proof. eapply steps_inv; [exists ∅; apply booted_inv, demo_booted|exact demo5_steps]. Qed.

(** Both sleep; the wake-up of queue 1 wakes both. *)
Lemma wake_one_fifo_witness :
  queue_threads demo5 1 = [5] /\ linked_pollers demo5 1 wq5 = [6] /\
  exists W', sched_wake_one (core 1) 1 demo5 = Some W' /\ queue_threads W' 1 = [] /\
    wait_result (waiters W' 5) = SCHED_WAIT_WOKEN /\ wait_result (waiters W' 6) = SCHED_WAIT_WOKEN.
Proof.
  assert (Hc : 0 <= me (core 1) < MAX_CORES) by (vm_compute; split; discriminate || reflexivity). assert (Hl : wlist wq5 <> None) by discriminate.
  assert (Hq : queues demo5 !! 1 = Some wq5) by (vm_compute; reflexivity).
  assert (E : queue_threads demo5 1 = [5]) by (vm_compute; reflexivity). assert (E' : linked_pollers demo5 1 wq5 = [6]) by (vm_compute; reflexivity).
  split; [exact E|]. split; [exact E'|].
  destruct (wake_one_fifo (core 1) 1 wq5 demo5 demo5_inv Hc Hq Hl) as (W' & wq' & He & _ & _ & _ & Ht & _ & Hw).
  rewrite E, E' in Hw. rewrite E in Ht. exists W'. split; [exact He|]. split; [exact Ht|]. split; apply Hw; [by left|by right; left].
Defined.

Lemma wake_all_wakes_everyone_witness :
  5 ∈ queue_threads demo2 1 /\ exists W', sched_wake_all (core 1) 1 demo2 = Some W' /\ in_wait_queue (thread W' 5) = false.
Proof.
  assert (Hq : queues demo2 !! 1 = Some wq2) by (vm_compute; reflexivity).
  assert (Hin : 5 ∈ queue_threads demo2 1) by (replace (queue_threads demo2 1) with [5] by (vm_compute; reflexivity); by left). split; [exact Hin|].
  destruct (wake_all_wakes_everyone (core 1) 1 wq2 demo2 demo2_inv ltac:(vm_compute; split; discriminate || reflexivity) Hq ltac:(done)) as (W' & He & _ & Hw).
  exists W'. split; [exact He|]. by apply Hw; left.
Defined.

(** Thread 6, on core 1, read the sequence number 0 of the queue; thread 5 was woken; it does not sleep. *)
Lemma no_lost_wakeup_witness :
  sched_wait_seq 1 demo2 = Some 0 /\
  exists W1 r W2, sched_wake_one (core 0) 1 demo2 = Some W1 /\ wait_on_locked (core 1) 1 6 0 0 0 W1 = Some (WaitReturns r, W2).
Proof.
  assert (Hq : queues demo2 !! 1 = Some wq2) by (vm_compute; reflexivity). split; [vm_compute; reflexivity|].
  destruct demo2_inv as [C Hi].
  destruct (wake_one_any (core 0) 1 demo2 C Hi ltac:(vm_compute; split; discriminate || reflexivity) ltac:(by eexists)) as (W1 & He & _).
  assert (Hc : forall c, c = 0 \/ c = 1 -> 0 <= me (core c) < MAX_CORES) by (intros c Hc; unfold MAX_CORES; cbn; lia).
  assert (Hn : is_Some (nodes (wheap demo2) !! 6)) by (vm_compute; by eexists).
  assert (Hs : sched_wait_seq 1 demo2 = Some 0) by (vm_compute; reflexivity).
  destruct (no_lost_wakeup (core 1) (core 0) 1 wq2 6 0 0 0 demo2 W1 demo2_inv (Hc 1 (or_intror eq_refl)) (Hc 0 (or_introl eq_refl)) Hq ltac:(done) Hn Hs He)
    as [(r & W2 & Hr & _) _].
  exists W1, r, W2. split; [exact He|exact Hr].
Defined.

Lemma due_sleepers_wake_witness :
  5 ∈ sleepers (sleep demo2) /\ exists W', wake_sleepers (core 1) 60 demo2 = Some W' /\ forall u, u ∈ sleepers (sleep W') -> 60 < wake_tick (thread W' u).
Proof.
  split; [apply list_elem_of_lookup; exists 0%nat; vm_compute; reflexivity|].
  destruct (due_sleepers_wake (core 1) 60 demo2 demo2_inv ltac:(vm_compute; split; discriminate || reflexivity)) as (W' & He & _ & Hd & _).
  exists W'. split; [exact He|]. intros u Hu. by apply Hd.
Defined.
End Waiting.
