(* ===== verification/Picking.v ===== *)
(** * Picking the next thread, and balancing the cores

    [kernel/sched/context.c], [balance.c], [pick.c] and the exit events of [waitq.c]: which saved contexts
    may be resumed, how long a thread runs before another one should, how a core finds its next thread in
    its queue, in a queue that may not run it, or in the queue of a busier core, and how threads are pushed
    to idle cores.  A thread that is found with a broken context becomes a zombie, and whoever waits for
    exits is woken. *)

From S2P Require Import Prelude Memory Outcome Errno Ring BinHeap IntrusiveHeap Sched RunQueue SchedState Dispatch LinkedList WaitQueue.
From Stdlib Require Import Strings.Byte.
From stdpp Require Import gmap functions list.
Import Ring.RingQueue RunQueue SchedState.SleepHeap Dispatch LinkedList WaitQueue.
Open Scope Z_scope.

Module Picking.

Definition SCHED_LATENCY_NS : Z := 12000000.
Definition SCHED_MIN_GRANULARITY_NS : Z := 1000000.
Definition SCHED_IDLE_STEAL_BATCH : nat := 2.
Definition SCHED_PUSH_BATCH : nat := 2.

(** The registers of an interrupt state that the scheduler looks at, on [x86_64]. *)
Record frame_t := mk_frame { f_rip : Z; f_cs : Z; f_rflags : Z; f_rsp : Z; f_ss : Z }.

(** [offsetof(arch_int_state_t, s_regs)], [sizeof(s_regs)] and [sizeof(arch_word_t)] there: fifteen general
    registers, the interrupt and the error number, then five special registers. *)
Definition SREGS_OFF : Z := 136.
Definition SREGS_SIZE : Z := 40.
Definition WORD_SIZE : Z := 8.

Definition GDT_KERNEL_CODE : Z := 8.
Definition GDT_USER_CODE : Z := 24.
Definition GDT_USER_DATA : Z := 32.

(** The fields of a thread that switching and ticks look at. *)
Record task_t := mk_task {
  exec_start_ns : Z;
  in_zombie_list : bool;
  stack : Z;
  stack_size : Z;
  user_thread : bool;
  exit_code : Z;
  exit_signal : Z;
  vm_space : Z;
  user_stack_base : Z;
  user_stack_size : Z;
  cpu_time_ticks : Z;
  user_ticks : Z;
  sys_ticks : Z;
  fpu_initialized : bool
}.

Definition set_exec_start_ns (v : Z) (tk : task_t) : task_t :=
  mk_task v (in_zombie_list tk) (stack tk) (stack_size tk) (user_thread tk) (exit_code tk)
    (exit_signal tk) (vm_space tk) (user_stack_base tk) (user_stack_size tk) (cpu_time_ticks tk)
    (user_ticks tk) (sys_ticks tk) (fpu_initialized tk).
Definition set_in_zombie_list (v : bool) (tk : task_t) : task_t :=
  mk_task (exec_start_ns tk) v (stack tk) (stack_size tk) (user_thread tk) (exit_code tk)
    (exit_signal tk) (vm_space tk) (user_stack_base tk) (user_stack_size tk) (cpu_time_ticks tk)
    (user_ticks tk) (sys_ticks tk) (fpu_initialized tk).
Definition set_exit_code (v : Z) (tk : task_t) : task_t :=
  mk_task (exec_start_ns tk) (in_zombie_list tk) (stack tk) (stack_size tk) (user_thread tk) v
    (exit_signal tk) (vm_space tk) (user_stack_base tk) (user_stack_size tk) (cpu_time_ticks tk)
    (user_ticks tk) (sys_ticks tk) (fpu_initialized tk).
Definition set_exit_signal (v : Z) (tk : task_t) : task_t :=
  mk_task (exec_start_ns tk) (in_zombie_list tk) (stack tk) (stack_size tk) (user_thread tk)
    (exit_code tk) v (vm_space tk) (user_stack_base tk) (user_stack_size tk) (cpu_time_ticks tk)
    (user_ticks tk) (sys_ticks tk) (fpu_initialized tk).
Definition set_cpu_time_ticks (v : Z) (tk : task_t) : task_t :=
  mk_task (exec_start_ns tk) (in_zombie_list tk) (stack tk) (stack_size tk) (user_thread tk)
    (exit_code tk) (exit_signal tk) (vm_space tk) (user_stack_base tk) (user_stack_size tk) v
    (user_ticks tk) (sys_ticks tk) (fpu_initialized tk).
Definition set_user_ticks (v : Z) (tk : task_t) : task_t :=
  mk_task (exec_start_ns tk) (in_zombie_list tk) (stack tk) (stack_size tk) (user_thread tk)
    (exit_code tk) (exit_signal tk) (vm_space tk) (user_stack_base tk) (user_stack_size tk)
    (cpu_time_ticks tk) v (sys_ticks tk) (fpu_initialized tk).
Definition set_sys_ticks (v : Z) (tk : task_t) : task_t :=
  mk_task (exec_start_ns tk) (in_zombie_list tk) (stack tk) (stack_size tk) (user_thread tk)
    (exit_code tk) (exit_signal tk) (vm_space tk) (user_stack_base tk) (user_stack_size tk)
    (cpu_time_ticks tk) (user_ticks tk) v (fpu_initialized tk).

(** Tick counts: [sched_state.usage], the last tick sleepers were woken at, the ticks of each core, the
    switches. *)
Record clock_t := mk_clock {
  sleep_wake_tick : Z;
  total_ticks : Z;
  busy_ticks : Z;
  core_total_ticks : list Z;
  core_busy_ticks : list Z;
  local_ticks : list Z;
  switch_count : Z
}.

Definition set_sleep_wake_tick (v : Z) (ck : clock_t) : clock_t :=
  mk_clock v (total_ticks ck) (busy_ticks ck) (core_total_ticks ck) (core_busy_ticks ck)
    (local_ticks ck) (switch_count ck).
Definition set_total_ticks (v : Z) (ck : clock_t) : clock_t :=
  mk_clock (sleep_wake_tick ck) v (busy_ticks ck) (core_total_ticks ck) (core_busy_ticks ck)
    (local_ticks ck) (switch_count ck).
Definition set_busy_ticks (v : Z) (ck : clock_t) : clock_t :=
  mk_clock (sleep_wake_tick ck) (total_ticks ck) v (core_total_ticks ck) (core_busy_ticks ck)
    (local_ticks ck) (switch_count ck).
Definition set_core_total_ticks (v : list Z) (ck : clock_t) : clock_t :=
  mk_clock (sleep_wake_tick ck) (total_ticks ck) (busy_ticks ck) v (core_busy_ticks ck)
    (local_ticks ck) (switch_count ck).
Definition set_core_busy_ticks (v : list Z) (ck : clock_t) : clock_t :=
  mk_clock (sleep_wake_tick ck) (total_ticks ck) (busy_ticks ck) (core_total_ticks ck) v
    (local_ticks ck) (switch_count ck).
Definition set_local_ticks (v : list Z) (ck : clock_t) : clock_t :=
  mk_clock (sleep_wake_tick ck) (total_ticks ck) (busy_ticks ck) (core_total_ticks ck)
    (core_busy_ticks ck) v (switch_count ck).
Definition set_switch_count (v : Z) (ck : clock_t) : clock_t :=
  mk_clock (sleep_wake_tick ck) (total_ticks ck) (busy_ticks ck) (core_total_ticks ck)
    (core_busy_ticks ck) (local_ticks ck) v.

(** The scheduler's state, with the saved interrupt states by address and where the kernel image ends. *)
Record machine_t := mk_machine {
  wst : wait_state_t;
  tasks : tid -> task_t;
  frames : Z -> frame_t;
  kernel_end : Z;
  zombie_list : ptr (list tid);
  exit_ring : ptr ring_queue_t;
  exit_event_wait : Z;
  clock : clock_t
}.

Definition set_wst (v : wait_state_t) (M : machine_t) : machine_t :=
  mk_machine v (tasks M) (frames M) (kernel_end M) (zombie_list M) (exit_ring M)
    (exit_event_wait M) (clock M).
Definition set_tasks (v : tid -> task_t) (M : machine_t) : machine_t :=
  mk_machine (wst M) v (frames M) (kernel_end M) (zombie_list M) (exit_ring M) (exit_event_wait M)
    (clock M).
Definition set_frames (v : Z -> frame_t) (M : machine_t) : machine_t :=
  mk_machine (wst M) (tasks M) v (kernel_end M) (zombie_list M) (exit_ring M) (exit_event_wait M)
    (clock M).
Definition set_zombie_list (v : ptr (list tid)) (M : machine_t) : machine_t :=
  mk_machine (wst M) (tasks M) (frames M) (kernel_end M) v (exit_ring M) (exit_event_wait M)
    (clock M).
Definition set_exit_ring (v : ptr ring_queue_t) (M : machine_t) : machine_t :=
  mk_machine (wst M) (tasks M) (frames M) (kernel_end M) (zombie_list M) v (exit_event_wait M)
    (clock M).
Definition set_clock (v : clock_t) (M : machine_t) : machine_t :=
  mk_machine (wst M) (tasks M) (frames M) (kernel_end M) (zombie_list M) (exit_ring M)
    (exit_event_wait M) v.

Section Defs.
Context `{Arch}.
Implicit Types (M : machine_t) (t : tid) (e : env).

Definition schd M : sched_state_t := sched (wst M).
Definition thr M t : sched_thread_t := threads (schd M) t.

(** Steps of the scheduler, of the wait queues, and [thread->field = v]. *)
Definition on_wait (m : wait_state_t -> option wait_state_t) M : option machine_t := W ← m (wst M); Some (set_wst W M).
Definition on_sched (m : sched_state_t -> option sched_state_t) M : option machine_t := on_wait (fun W => runs W m) M.
Definition upd_thr t (f : sched_thread_t -> sched_thread_t) M : machine_t := set_wst (upd t f (wst M)) M.
Definition upd_task t (f : task_t -> task_t) M : machine_t := set_tasks (<[t := f (tasks M t)]> (tasks M)) M.

(** ** Saved contexts: [context.c], and [arch/x86/thread.c], [signal.c] *)

Definition arch_user_stack_top : Z := 2147483648.
Definition arch_kernel_vaddr_base : Z := 18446744071562067968.

Definition arch_signal_is_user (f : frame_t) : bool := Z.land (f_cs f) 3 =? 3.

Definition arch_state_is_valid (kernel_end : Z) (f : frame_t) : bool :=
  if (Z.land (f_rflags f) 2 =? 0) || negb (Z.land (f_rflags f) 159744 =? 0) then false
  else if arch_signal_is_user f then (f_cs f =? Z.lor GDT_USER_CODE 3) && (f_ss f =? Z.lor GDT_USER_DATA 3)
  else if negb (f_cs f =? GDT_KERNEL_CODE) then false
  else if (f_rip f =? 0) || (f_rip f <? arch_kernel_vaddr_base) then false
  else (kernel_end =? 0) || (f_rip f <? kernel_end).

Definition ctx_stack_valid M t (need_bytes : Z) : bool :=
  let base := stack (tasks M t) in
  let ctx := context (thr M t) in
  if (ctx =? 0) || (base =? 0) || (stack_size (tasks M t) =? 0) then false
  else
    let stack_end := wrap (base + stack_size (tasks M t)) in
    if (stack_end <? base) || (ctx <? base) || (stack_end <=? ctx) then false
    else need_bytes <=? wrap (stack_end - ctx).

(** [ctx_state_valid] of an interrupt state at address [state]. *)
Definition ctx_state_valid M t (state : Z) : bool :=
  let base := stack (tasks M t) in
  if (state =? 0) || (base =? 0) || (stack_size (tasks M t) =? 0) then false
  else
    let stack_end := wrap (base + stack_size (tasks M t)) in
    if (stack_end <? base) || (state <? base) || (stack_end <=? state) then false
    else if wrap (stack_end - state) <? SREGS_OFF + 3 * WORD_SIZE then false
    else if arch_signal_is_user (frames M state) && (wrap (stack_end - state) <? SREGS_OFF + SREGS_SIZE) then false
    else arch_state_is_valid (kernel_end M) (frames M state).

Definition ctx_valid M t : bool :=
  let tk := tasks M t in
  if context (thr M t) =? 0 then false
  else
    let f := frames M (context (thr M t)) in
    if negb (ctx_stack_valid M t (SREGS_OFF + 3 * WORD_SIZE)) then false
    else
      let user_frame := arch_signal_is_user f in
      let ip := f_rip f in
      if ip =? 0 then false
      else if user_frame && negb (ctx_stack_valid M t (SREGS_OFF + SREGS_SIZE)) then false
      else if negb (arch_state_is_valid (kernel_end M) f) then false
      else if negb user_frame && (ip <? arch_kernel_vaddr_base) then false
      else if user_frame then
        let sp := f_rsp f in
        if negb (user_thread tk) then false
        else if sp =? 0 then false
        else if (arch_user_stack_top <=? ip) || (arch_user_stack_top <? sp) then false
        else if negb (user_stack_base tk =? 0) && negb (user_stack_size tk =? 0) then
          let user_base := user_stack_base tk in
          let user_end := u64_wrap (user_base + user_stack_size tk) in
          negb ((user_end <? user_base) || (sp <? user_base) || (user_end <? sp))
        else true
      else true.

(** ** Slices and balancing: [balance.c] *)

Definition sched_target_slice_ns (cpu_id : Z) st : option Z :=
  load ← sched_cpu_load st cpu_id;
  let runnable := if load =? 0 then 1 else load in
  let slice := SCHED_LATENCY_NS / runnable in
  Some (if slice <? SCHED_MIN_GRANULARITY_NS then SCHED_MIN_GRANULARITY_NS else slice).

Definition sched_has_better t (cpu_id : Z) st : option bool :=
  if MAX_CORES <=? cpu_id then Some false
  else
    best ← rq_peek_best st cpu_id;
    Some match best with
         | None => false
         | Some b =>
             if vruntime_ns (threads st b) <? vruntime_ns (threads st t) then true
             else (vruntime_ns (threads st b) =? vruntime_ns (threads st t)) && (pid (threads st b) <? pid (threads st t))
         end.

(** [thread->last_cpu = thread->affinity_core = cpu] *)
Definition place_on t (cpu : Z) st : sched_state_t := upd_thread t (fun th => set_affinity_core cpu (set_last_cpu cpu th)) st.

(** A thread taken from a queue goes to another core's. *)
Definition migrate e t (target_cpu : Z) st : option sched_state_t :=
  st ← rq_enqueue_cpu (place_on t target_cpu st) (Some t) target_cpu;
  wake_counted e target_cpu (set_migrations (u64_wrap (migrations st + 1)) st).

Fixpoint push_loop (n : nat) e (source_cpu target_cpu moved : Z) st : option (Z * sched_state_t) :=
  match n with
  | O => Some (moved, st)
  | S n =>
      '(thread, st) ← rq_take_worst st source_cpu target_cpu;
      match thread with
      | None => Some (moved, st)
      | Some t => st ← migrate e t target_cpu st; push_loop n e source_cpu target_cpu (moved + 1) st
      end
  end.

Definition sched_push_load e (source_cpu target_cpu max_moves : Z) st : option (Z * sched_state_t) :=
  if (max_moves =? 0) || (MAX_CORES <=? source_cpu) || (MAX_CORES <=? target_cpu) then Some (0, st)
  else if source_cpu =? target_cpu then Some (0, st)
  else push_loop (Z.to_nat max_moves) e source_cpu target_cpu 0 st.

(** The threads of the core's queue that may not run on it. *)
Fixpoint stranded_loop (n : nat) e (cpu_id : Z) st : option sched_state_t :=
  match n with
  | O => Some st
  | S n =>
      '(stranded, st) ← rq_take_unfit st cpu_id cpu_id;
      match stranded with
      | None => Some st
      | Some t =>
          target_cpu ← pick_cpu st (Some t) cpu_id;
          if (MAX_CORES <=? target_cpu) || (target_cpu =? cpu_id) then rq_enqueue_cpu st (Some t) cpu_id
          else
            allowed ← sched_cpu_allowed st (Some t) target_cpu;
            if negb allowed then rq_enqueue_cpu st (Some t) cpu_id
            else st ← migrate e t target_cpu st; stranded_loop n e cpu_id st
      end
  end.

Fixpoint idlest_loop (n : nat) (cpu idlest idlest_load : Z) st : option (Z * Z) :=
  match n with
  | O => Some (idlest, idlest_load)
  | S n =>
      c ← mload (cores_local st) cpu;
      if negb (valid c) || negb (online c) then idlest_loop n (cpu + 1) idlest idlest_load st
      else
        load ← sched_cpu_load st cpu;
        if load <? idlest_load then idlest_loop n (cpu + 1) cpu load st else idlest_loop n (cpu + 1) idlest idlest_load st
  end.

Definition sched_rebalance_once e (cpu_id : Z) st : option sched_state_t :=
  let ncpu := core_count st in
  let ncpu := if MAX_CORES <? ncpu then MAX_CORES else ncpu in
  let ncpu := if 64 <? ncpu then 64 else ncpu in
  if ncpu <=? 1 then Some st
  else
    st ← stranded_loop SCHED_PUSH_BATCH e cpu_id (set_balance_runs (u64_wrap (balance_runs st + 1)) st);
    local_load ← sched_cpu_load st cpu_id;
    '(idlest, idlest_load) ← idlest_loop (Z.to_nat ncpu) 0 MAX_CORES SIZE_MAX st;
    if (MAX_CORES <=? idlest) || (MAX_CORES <=? cpu_id) || (cpu_id =? idlest) then Some st
    else if local_load <=? wrap (idlest_load + 1) then Some st
    else
      let overload := local_load - idlest_load in
      let max_moves := overload / 2 in
      let max_moves := if max_moves =? 0 then 1 else max_moves in
      let max_moves := if Z.of_nat SCHED_PUSH_BATCH <? max_moves then Z.of_nat SCHED_PUSH_BATCH else max_moves in
      '(_, st) ← sched_push_load e cpu_id idlest max_moves st;
      Some st.

(** ** Exit events: [waitq.c] *)

Definition low_byte (z : Z) : byte := default x00 (Byte.of_N (Z.to_N (z mod 256))).
Definition pid_bytes (pid : Z) : list byte :=
  [low_byte pid; low_byte (Z.shiftr pid 8); low_byte (Z.shiftr pid 16); low_byte (Z.shiftr pid 24)].

Definition ring_record (pid : Z) (ring : ptr ring_queue_t) : option (ptr ring_queue_t) :=
  match ring with
  | None => Some None
  | Some _ =>
      let ring := if ring_queue_capacity ring <=? ring_queue_count ring then ring_queue_drop_head ring else ring in
      '(_, ring) ← ring_queue_push ring (Some (pid_bytes pid));
      Some ring
  end.

Definition exit_event_push e (pid : Z) M : option machine_t :=
  if pid <=? 0 then Some M
  else
    ring ← ring_record pid (exit_ring M);
    let M := set_exit_ring ring M in
    wq ← queues (wst M) !! exit_event_wait M;
    if running (schd M) && bool_decide (wlist wq <> None) then on_wait (sched_wake_all e (exit_event_wait M)) M else Some M.

(** ** Picking: [pick.c] *)

Definition zombie_append t M : machine_t :=
  match zombie_list M with
  | Some l =>
      if negb (in_zombie_list (tasks M t))
      then upd_task t (set_in_zombie_list true) (set_zombie_list (Some (ll_append l t)) M)
      else M
  | None => M
  end.

Definition make_zombie e t (code : Z) M : option machine_t :=
  let M := upd_thr t (set_state THREAD_ZOMBIE) (upd_thr t (set_running_cpu (-1)) M) in
  let M := zombie_append t (upd_task t (fun tk => set_exit_signal 0 (set_exit_code code tk)) M) in
  exit_event_push e (pid (thr M t)) M.

Definition ready_to_run e t M : option (bool * machine_t) :=
  if context (thr M t) =? 0 then
    M ← (if is_state (thr M t) THREAD_READY && negb (on_rq (thr M t)) then on_sched (enqueue_thread e t) M else Some M);
    Some (false, M)
  else if thread_ctx_ok (schd M) t && negb (ctx_valid M t) then
    M ← make_zombie e t (- EFAULT) M; Some (false, M)
  else if negb (is_state (thr M t) THREAD_READY) then
    owned ← thread_is_owned (schd M) (Some t);
    M ← (if is_state (thr M t) THREAD_RUNNING && negb owned then on_wait (repair e t) M else Some M);
    Some (false, M)
  else if thread_cpu (schd M) (Some t) <? 0 then Some (true, M)
  else
    owned ← thread_is_owned (schd M) (Some t);
    if (owned : bool) then Some (false, M) else Some (true, upd_thr t (set_running_cpu (-1)) M).

(** The threads in the run queues and the nodes of the waiting ones bound the rounds of the loops below: a
    round takes a thread out of a queue, and only a thread that waited is put into one. *)
Definition pick_fuel M : nat :=
  S (sum_list_with (fun rq => Z.to_nat (nr_running rq)) (runqueues (schd M)) + size (nodes (wheap (wst M)))).

Fixpoint pick_loop (fuel : nat) e (cpu_id : Z) M : option (ptr tid * machine_t) :=
  match fuel with
  | O => None
  | S fuel =>
      '(thread, st) ← rq_pop_best_allowed (schd M) cpu_id;
      let M := set_wst (set_sched st (wst M)) M in
      match thread with
      | None => Some (None, M)
      | Some t =>
          '(ready, M) ← ready_to_run e t M;
          if (ready : bool) then Some (Some t, M) else pick_loop fuel e cpu_id M
      end
  end.

Definition pick_local e (cpu_id : Z) M : option (ptr tid * machine_t) := pick_loop (pick_fuel M) e cpu_id M.

Definition rescue_stranded e (cpu_id : Z) st : option (ptr tid * sched_state_t) :=
  '(stranded, st) ← rq_take_unfit st cpu_id cpu_id;
  match stranded with
  | None => Some (None, st)
  | Some t =>
      target_cpu ← pick_cpu st (Some t) cpu_id;
      can_move ← (if (target_cpu <? MAX_CORES) && negb (target_cpu =? cpu_id) then
                    c ← mload (cores_local st) target_cpu;
                    if online c then sched_cpu_allowed st (Some t) target_cpu else Some false
                  else Some false);
      st ← (if negb can_move then rq_enqueue_cpu st (Some t) cpu_id else migrate e t target_cpu st);
      rq_pop_best_allowed st cpu_id
  end.

Fixpoint busiest_loop (n : nat) (cpu_id i cpu best_load : Z) st : option (Z * Z) :=
  match n with
  | O => Some (cpu, best_load)
  | S n =>
      if negb (i <? core_count st) then Some (cpu, best_load)
      else
        c ← mload (cores_local st) i;
        if (i =? cpu_id) || negb (valid c) || negb (online c) then busiest_loop n cpu_id (i + 1) cpu best_load st
        else
          load ← sched_cpu_load st i;
          if best_load <? load then busiest_loop n cpu_id (i + 1) i load st else busiest_loop n cpu_id (i + 1) cpu best_load st
  end.
Definition busiest_peer (cpu_id : Z) st : option (Z * Z) := busiest_loop (Z.to_nat MAX_CORES) cpu_id 0 MAX_CORES 0 st.

Fixpoint steal_loop (n : nat) (cpu cpu_id : Z) (first : ptr tid) st : option (ptr tid * sched_state_t) :=
  match n with
  | O => Some (first, st)
  | S n =>
      '(victim, st) ← rq_take_worst st cpu cpu_id;
      match victim with
      | None => Some (first, st)
      | Some t =>
          let st := place_on t cpu_id st in
          let st := set_migrations (u64_wrap (migrations st + 1)) (set_steals (u64_wrap (steals st + 1)) st) in
          match first with
          | None => steal_loop n cpu cpu_id (Some t) st
          | Some _ => st ← rq_enqueue_cpu st (Some t) cpu_id; steal_loop n cpu cpu_id first st
          end
      end
  end.

Definition steal_idle_work (cpu_id : Z) st : option (ptr tid * sched_state_t) :=
  '(cpu, load) ← busiest_peer cpu_id st;
  if (MAX_CORES <=? cpu) || (load <? 2) then Some (None, st) else steal_loop SCHED_IDLE_STEAL_BATCH cpu cpu_id None st.

(** A step of the scheduler that answers a thread. *)
Definition picks (m : sched_state_t -> option (ptr tid * sched_state_t)) M : option (ptr tid * machine_t) :=
  '(r, st) ← m (schd M); Some (r, set_wst (set_sched st (wst M)) M).

Definition flush e M : run machine_t :=
  st ← sched_flush_handoff e (me e) (schd M); ret (set_wst (set_sched st (wst M)) M).

(** [dequeue_thread] after the flush: the core's own queue, threads stranded in it, other cores' queues. *)
Definition pick_anywhere e M : option (ptr tid * machine_t) :=
  '(thread, M) ← pick_local e (me e) M;
  match thread with
  | Some t => Some (Some t, M)
  | None =>
      '(thread, M) ← picks (rescue_stranded e (me e)) M;
      match thread with
      | Some t => Some (Some t, M)
      | None => picks (steal_idle_work (me e)) M
      end
  end.

Definition dequeue_thread e M : run (ptr tid * machine_t) :=
  M ← flush e M; lift (pick_anywhere e M).

Definition pick_next_thread e M : run (ptr tid * machine_t) :=
  '(next, M) ← dequeue_thread e M;
  match next with
  | Some t => ret (Some t, M)
  | None =>
      k ← lift (local e (schd M));
      ret (match idle_thread k with Some i => Some i | None => current k end, M)
  end.
End Defs.

Section Queues.
Context `{Arch} {x : option tid}.
Implicit Types (st : sched_state_t) (t u : tid) (e : env) (r : ptr tid).

(** ** Threads between two queues *)

(** A thread that was taken out of a queue: ready, with a context, on no core. *)
Record loose st t : Prop := {
  ls_ready : queueable (threads st t);
  ls_off : on_rq (threads st t) = false;
  ls_free : forall c, ~ holds st c t;
  ls_stays : x <> Some t;
  ls_pid : pid (threads st t) <> 0
}.

Lemma loose_touched t u st st' : touched u st st' -> u <> t -> loose st t -> loose st' t.
Proof.
  intros Ht Hne [[L1 L1'] L2 L3 L4 L5]. destruct (kept_fields _ _ _ (tc_other _ _ _ Ht t (not_eq_sym Hne))) as (E1 & _ & E3 & _ & (E4 & _ & _ & _ & E5 & _)%drest_fields).
  constructor; [split; congruence|congruence| |done|congruence]. intros c Hh. apply (cores_holds _ _ _ _ (tc_cores _ _ _ Ht)) in Hh. by apply (L3 c).
Qed.

Lemma removed_ok st st' c t : dinv x st -> on_rq (threads st t) = true -> rq_inv st' -> removed st st' c t ->
  dinv x st' /\ touched t st st' /\ loose st' t.
Proof.
  intros [Hq Ho] Hon Hq' [_ Hself Hk (E1 & E2 & E3)].
  assert (Ht : touched t st st') by (constructor; [exact Hk|by rewrite Hself|by rewrite E1|exact E2|exact E3]).
  destruct (o_ready _ _ Ho t Hon) as [Hr Hc]. destruct (o_rq _ _ Ho t Hon) as [Hno Hp].
  split; [split; [done|]|split; [done|]].
  - apply (own_frame x st st' t Ho Ht); rewrite Hself; auto; [apply (o_known _ _ Ho)|done].
  - constructor; rewrite ?Hself; try done.
    + intros c' Hh. apply (cores_holds _ _ _ _ (tc_cores _ _ _ Ht)) in Hh. by apply (Hno c').
    + intros Hx. rewrite (o_exit _ _ Ho t Hx) in Hr. done.
Qed.

(** Taking a thread out of a queue, or finding none. *)
Definition took st r st' : Prop :=
  match r with
  | None => st' = st
  | Some t => on_rq (threads st t) = true /\ dinv x st' /\ touched t st st' /\ loose st' t
  end.

Lemma popped_took st st' c ok beats r : dinv x st -> rq_inv st' -> popped st st' c ok beats r -> took st r st'.
Proof.
  intros Hd Hq' (rq & Hrq & Hr). destruct r as [t|]; [|by destruct Hr]. destruct Hr as (Hin & _ & _ & Hrem).
  destruct (inv_in _ (proj1 Hd) c rq t Hrq Hin) as (Hon & _). split; [done|]. by eapply removed_ok.
Qed.

Lemma pop_took (c : Z) st : dinv x st -> 0 <= c < MAX_CORES -> exists r st', rq_pop_best_allowed st c = Some (r, st') /\ took st r st'.
Proof.
  intros Hd Hc. unfold MAX_CORES in Hc. destruct (pop_spec st (Z.to_nat c) (proj1 Hd)) as (r & st' & He & Hq & _ & Hp); [lia|].
  rewrite Z2Nat.id in * by lia. exists r, st'. split; [done|by eapply popped_took].
Qed.

Lemma worst_took (s d : Z) st : dinv x st -> 0 <= s < MAX_CORES -> d < MAX_CORES -> exists r st', rq_take_worst st s d = Some (r, st') /\ took st r st'.
Proof.
  intros Hd Hs Hc. unfold MAX_CORES in Hs. destruct (take_worst_spec st (Z.to_nat s) d (proj1 Hd)) as (r & st' & He & Hq & Hp); [lia|done|].
  rewrite Z2Nat.id in * by lia. exists r, st'. split; [done|by eapply popped_took].
Qed.

Lemma unfit_took (s d : Z) st : dinv x st -> 0 <= s < MAX_CORES -> d < MAX_CORES -> exists r st', rq_take_unfit st s d = Some (r, st') /\ took st r st'.
Proof.
  intros Hd Hs Hc. unfold MAX_CORES in Hs. destruct (take_unfit_spec st (Z.to_nat s) d (proj1 Hd)) as (r & st' & He & Hq & Hp); [lia|done|].
  rewrite Z2Nat.id in * by lia. exists r, st'. split; [done|by eapply popped_took].
Qed.

(** ** Steps that move threads between queues *)

(** No thread enters a queue that was in none, and none changes otherwise. *)
Record moved st st' : Prop := {
  mv_rest : forall u, drest (threads st' u) = drest (threads st u);
  mv_on : forall u, on_rq (threads st' u) = true -> on_rq (threads st u) = true;
  mv_cores : core_threads <$> cpus st' = core_threads <$> cpus st
}.

Lemma moved_refl st : moved st st.
Proof. by constructor. Qed.

Lemma moved_trans st1 st2 st3 : moved st1 st2 -> moved st2 st3 -> moved st1 st3.
Proof. intros [] []. constructor; [congruence|auto|congruence]. Qed.

Lemma touched_moved t st st' : touched t st st' -> (on_rq (threads st' t) = true -> on_rq (threads st t) = true) -> moved st st'.
Proof.
  intros Ht Ho. constructor; [intros u; by eapply touched_drest| |apply Ht]. intros u. destruct (decide (u = t)) as [->|Hu]; [done|].
  by destruct (kept_fields _ _ _ (tc_other _ _ _ Ht u Hu)) as (_ & _ & -> & _).
Qed.

Lemma took_moved st r st' : took st r st' -> moved st st'.
Proof. destruct r as [t|]; [|intros ->; apply moved_refl]. intros (Hon & _ & Ht & _). by apply (touched_moved t). Qed.

Lemma took_out st t st' u : took st (Some t) st' -> on_rq (threads st' u) = true -> u <> t.
Proof. intros (_ & _ & _ & Hl) Hu ->. rewrite (ls_off _ _ Hl) in Hu. done. Qed.

(** What was taken out went into another queue: nothing was lost or added. *)
Lemma requeued st t st1 st2 : took st (Some t) st1 -> touched t st1 st2 -> moved st st2.
Proof. intros (Hon & _ & Ht1 & _) Ht. apply (touched_moved t); [by eapply touched_trans|done]. Qed.

Lemma inv_off_queue st t f : rq_inv st -> on_rq (threads st t) = false ->
  (forall th, on_rq (f th) = on_rq th /\ in_run_queue (f th) = in_run_queue th /\ rq_index (f th) = rq_index th) -> rq_inv (upd_thread t f st).
Proof.
  intros Hq Hoff Hf. pose proof Hq as [I1 I2 I3 I4 I5 I6 I7 I8].
  assert (Hu : forall u, u <> t -> threads (upd_thread t f st) u = threads st u) by (intros u Hu; cbn; by rewrite fn_lookup_insert_ne).
  assert (Ht : threads (upd_thread t f st) t = f (threads st t)) by (cbn; by rewrite fn_lookup_insert). destruct (Hf (threads st t)) as (F1 & F2 & F3).
  assert (Hin : forall c rq u, runqueues st !! c = Some rq -> u ∈ rq_threads rq -> u <> t).
  { intros c rq u Hc Hi ->. destruct (I6 c rq t Hc Hi). congruence. }
  constructor; try done.
  - intros c rq Hc. eapply rq_ok_ext; [|by apply (I5 c)]. intros u Hi. rewrite Hu; [done|by apply (Hin c rq)].
  - intros c rq u Hc Hi. rewrite Hu by (by apply (Hin c rq)). by apply (I6 c rq).
  - intros u. destruct (decide (u = t)) as [->|Hne]; [rewrite Ht, F1, Hoff; done|]. rewrite Hu by done. apply I7.
  - intros u. destruct (decide (u = t)) as [->|Hne]; [rewrite Ht, F1, F2, F3; apply I8|]. rewrite Hu by done. apply I8.
Qed.

Lemma place_ok t (c : Z) st : dinv x st -> loose st t -> 0 <= c -> dinv x (place_on t c st) /\ touched t st (place_on t c st) /\ loose (place_on t c st) t.
Proof.
  intros [Hq Ho] Hl Hc. assert (Hself : threads (place_on t c st) t = set_affinity_core c (set_last_cpu c (threads st t))) by (unfold place_on; cbn; by rewrite fn_lookup_insert).
  assert (Ht : touched t st (place_on t c st)).
  { constructor; try done; [|by rewrite Hself]. intros u Hu. unfold kept, place_on. cbn. by rewrite fn_lookup_insert_ne. }
  destruct Hl as [L1 L2 L3 L4 L5]. split; [split|split; [done|]].
  - by apply inv_off_queue.
  - apply (own_frame x st _ t Ho Ht); rewrite Hself; auto.
  - constructor; rewrite ?Hself; done.
Qed.

Lemma migrate_ok e t (c : Z) st : dinv x st -> loose st t -> 0 <= c < MAX_CORES ->
  exists st', migrate e t c st = Some st' /\ dinv x st' /\ touched t st st'.
Proof.
  intros Hd Hl Hc. unfold migrate. destruct (place_ok t c st Hd Hl) as (Hd1 & Ht1 & Hl1); [lia|].
  destruct (enqueue_cpu_ok x t c _ Hd1 Hc) as (st2 & -> & Hd2 & Ht2 & _); [apply Hl1|]. cbn [mbind option_bind].
  set (st3 := set_migrations _ st2). assert (F3 : flags_only st2 st3) by (by constructor).
  destruct (wake_counted_ok x e c st3 (flags_dinv _ _ _ Hd2 F3)) as (st4 & -> & F4); [lia|]. pose proof (flags_trans _ _ _ F3 F4) as F.
  exists st4. split_and!; [done|by eapply flags_dinv|]. eapply touched_trans; [exact Ht1|]. eapply touched_trans; [exact Ht2|by apply flags_touched].
Qed.
End Queues.

Section Balance.
Context `{Arch} {x : option tid}.
Implicit Types (st : sched_state_t) (t u : tid) (e : env) (r : ptr tid).

(** ** Balancing *)

Lemma push_loop_ok n e (s d m : Z) st : dinv x st -> 0 <= s < MAX_CORES -> 0 <= d < MAX_CORES ->
  exists m' st', push_loop n e s d m st = Some (m', st') /\ dinv x st' /\ moved st st'.
Proof.
  revert m st. induction n as [|n IH]; intros m st Hd Hs Hc; cbn [push_loop]; [eauto using moved_refl|].
  destruct (worst_took s d st Hd Hs) as (r & st1 & -> & Hk); [lia|]. cbn [mbind option_bind]. destruct r as [t|]; [|rewrite Hk; eauto using moved_refl].
  pose proof Hk as (_ & Hd1 & _ & Hl1). destruct (migrate_ok e t d st1 Hd1 Hl1 Hc) as (st2 & -> & Hd2 & Ht2). cbn [mbind option_bind].
  destruct (IH (m + 1) st2 Hd2 Hs Hc) as (m' & st3 & -> & Hd3 & Hm3). eexists _, st3. split_and!; [done|done|].
  eapply moved_trans; [by eapply requeued|done].
Qed.

Lemma pick_cpu_ok t (c : Z) st : rq_inv st -> 0 <= c -> exists d : Z, pick_cpu st (Some t) c = Some d /\ 0 <= d < MAX_CORES.
Proof. intros Hq Hc. destruct (pick_cpu_spec st (Some t) c (inv_shaped _ Hq) Hc) as (d & -> & Hd & _). exists d. unfold MAX_CORES. split; [done|lia]. Qed.

(** A thread goes back to the queue it came from. *)
Lemma put_back st t st1 (c : Z) : dinv x st -> took (x := x) st (Some t) st1 -> 0 <= c < MAX_CORES ->
  exists st2, rq_enqueue_cpu st1 (Some t) c = Some st2 /\ dinv x st2 /\ moved st st2.
Proof.
  intros Hd Hk Hc. pose proof Hk as (_ & Hd1 & _ & Hl1). destruct (enqueue_cpu_ok x t c st1 Hd1 Hc) as (st2 & -> & Hd2 & Ht2 & _); [apply Hl1|].
  exists st2. split_and!; [done|done|by eapply requeued].
Qed.

Lemma stranded_loop_ok n e (c : Z) st : dinv x st -> 0 <= c < MAX_CORES -> exists st', stranded_loop n e c st = Some st' /\ dinv x st' /\ moved st st'.
Proof.
  revert st. induction n as [|n IH]; intros st Hd Hc; cbn [stranded_loop]; [eauto using moved_refl|].
  destruct (unfit_took c c st Hd Hc) as (r & st1 & -> & Hk); [lia|]. cbn [mbind option_bind]. destruct r as [t|]; [|rewrite Hk; eauto using moved_refl].
  pose proof Hk as (_ & Hd1 & _ & Hl1). destruct (pick_cpu_ok t c st1 (proj1 Hd1)) as (d & -> & Hrd); [lia|]. cbn [mbind option_bind].
  destruct (put_back st t st1 c Hd Hk Hc) as (st2 & Hb & Hd2 & Hm2). destruct (_ || _); [eauto|].
  rewrite (allowed_total st1 (Some t) d (proj1 Hd1)). cbn [mbind option_bind]. destruct (negb _); [eauto|].
  destruct (migrate_ok e t d st1 Hd1 Hl1 Hrd) as (st3 & -> & Hd3 & Ht3). cbn [mbind option_bind].
  destruct (IH st3 Hd3 Hc) as (st4 & -> & Hd4 & Hm4). exists st4. split_and!; [done|done|]. eapply moved_trans; [by eapply requeued|done].
Qed.

Lemma core_load_total st (i : Z) : rq_inv st -> 0 <= i < MAX_CORES -> exists c, mload (cores_local st) i = Some c.
Proof. intros Hq Hi. apply mload_is_Some. rewrite (inv_cores _ Hq). lia. Qed.

Lemma idlest_loop_ok n (i best bl : Z) st : rq_inv st -> 0 <= i -> i + Z.of_nat n <= 64 -> 0 <= best ->
  exists b l, idlest_loop n i best bl st = Some (b, l) /\ 0 <= b.
Proof.
  intros Hq. revert i best bl. induction n as [|n IH]; intros i best bl Hi Hn Hb; cbn [idlest_loop]; [eauto|].
  destruct (core_load_total st i Hq) as [k ->]; [unfold MAX_CORES; lia|]. cbn [mbind option_bind]. destruct (_ || _); [apply IH; lia|].
  destruct (cpu_load_spec st i (inv_shaped _ Hq)) as (l & -> & _); [lia|]. cbn [mbind option_bind]. destruct (_ <? _); apply IH; lia.
Qed.

(** Balancing loses no thread and wakes none: the same threads are queued afterwards. *)
Lemma rebalance_ok e (c : Z) st : dinv x st -> 0 <= c < MAX_CORES -> exists st', sched_rebalance_once e c st = Some st' /\ dinv x st' /\ moved st st'.
Proof.
  intros Hd Hc. unfold sched_rebalance_once. set (n := if 64 <? _ then _ else _).
  assert (Hn : n <= 64) by (unfold n, MAX_CORES; repeat case_match; bool_facts; lia). clearbody n. destruct (n <=? 1); [eauto using moved_refl|].
  set (st0 := set_balance_runs _ st). assert (F0 : flags_only st st0) by (by constructor). pose proof (flags_dinv _ _ _ Hd F0) as Hd0.
  assert (Hm0 : moved st st0) by (by constructor).
  destruct (stranded_loop_ok SCHED_PUSH_BATCH e c st0 Hd0 Hc) as (st1 & -> & Hd1 & Hm1). cbn [mbind option_bind]. pose proof (moved_trans _ _ _ Hm0 Hm1) as Hm.
  destruct (cpu_load_spec st1 c (inv_shaped _ (proj1 Hd1))) as (l & -> & _); [unfold MAX_CORES in Hc; lia|]. cbn [mbind option_bind].
  destruct (idlest_loop_ok (Z.to_nat n) 0 MAX_CORES SIZE_MAX st1 (proj1 Hd1)) as (b & bl & -> & Hb); [lia|lia|unfold MAX_CORES; lia|]. cbn [mbind option_bind].
  destruct (_ || _ || _) eqn:Hr; [eauto|]. apply orb_false_iff in Hr as [[Hr _]%orb_false_iff _]. bool_facts. destruct (l <=? _); [eauto|]. unfold sched_push_load.
  set (m := if Z.of_nat SCHED_PUSH_BATCH <? _ then _ else _). destruct (_ || _ || _); [cbn [mbind option_bind]; eauto|]. destruct (c =? b); [cbn [mbind option_bind]; eauto|].
  destruct (push_loop_ok (Z.to_nat m) e c b 0 st1 Hd1 Hc) as (m' & st2 & -> & Hd2 & Hm2); [lia|]. cbn [mbind option_bind]. eauto using moved_trans.
Qed.

(** ** Looking for a thread elsewhere *)

(** A thread that was in some queue and is now in none, or nothing. *)
Definition found st r st' : Prop :=
  dinv x st' /\ moved st st' /\ forall t, r = Some t -> on_rq (threads st t) = true /\ loose (x := x) st' t.

Lemma found_none st st' : dinv x st' -> moved st st' -> found st None st'.
Proof. intros Hd Hm. by split_and!. Qed.

Lemma took_found st r st' : dinv x st -> took (x := x) st r st' -> found st r st'.
Proof.
  intros Hd Hk. destruct r as [t|]; [|rewrite Hk; apply found_none; auto using moved_refl].
  pose proof (took_moved _ _ _ Hk). destruct Hk as (Hon & Hd' & _ & Hl). split_and!; [done|done|]. by intros ? [= <-].
Qed.

Lemma moved_found st1 st2 r st3 : moved st1 st2 -> found st2 r st3 -> found st1 r st3.
Proof.
  intros Hm (Hd & Hm2 & Hr). split_and!; [done|by eapply moved_trans|]. intros t Ht. destruct (Hr t Ht) as [Hon Hl]. split; [by apply (mv_on _ _ Hm)|done].
Qed.

Lemma rescue_ok e (c : Z) st : dinv x st -> 0 <= c < MAX_CORES -> exists r st', rescue_stranded e c st = Some (r, st') /\ found st r st'.
Proof.
  intros Hd Hc. unfold rescue_stranded. destruct (unfit_took c c st Hd Hc) as (r & st1 & -> & Hk); [lia|]. cbn [mbind option_bind].
  destruct r as [t|]; [|rewrite Hk; exists None, st; auto using found_none, moved_refl].
  pose proof Hk as (_ & Hd1 & _ & Hl1). destruct (pick_cpu_ok t c st1 (proj1 Hd1)) as (d & -> & Hrd); [lia|]. cbn [mbind option_bind].
  assert (Hcan : exists b, (if (d <? MAX_CORES) && negb (d =? c) then k ← mload (cores_local st1) d; if online k then sched_cpu_allowed st1 (Some t) d else Some false
    else Some false) = Some b).
  { destruct (_ && _); [|eauto]. destruct (core_load_total st1 d (proj1 Hd1) Hrd) as [k ->]. cbn [mbind option_bind]. destruct (online k); [|eauto].
    rewrite (allowed_total st1 (Some t) d (proj1 Hd1)). eauto. }
  destruct Hcan as [b ->]. cbn [mbind option_bind].
  assert (Hmv : exists st2, (if negb b then rq_enqueue_cpu st1 (Some t) c else migrate e t d st1) = Some st2 /\ dinv x st2 /\ moved st st2).
  { destruct b; cbn [negb]; [|by eapply put_back]. destruct (migrate_ok e t d st1 Hd1 Hl1 Hrd) as (st2 & -> & Hd2 & Ht2). exists st2.
    split_and!; [done|done|by eapply requeued]. }
  destruct Hmv as (st2 & -> & Hd2 & Hm2). cbn [mbind option_bind]. destruct (pop_took c st2 Hd2 Hc) as (r & st3 & -> & Hk3). exists r, st3. split; [done|].
  eapply moved_found; [exact Hm2|by apply took_found].
Qed.

Lemma busiest_loop_ok n (c i best bl : Z) st : rq_inv st -> 0 <= i -> i + Z.of_nat n <= 64 -> 0 <= best ->
  exists b l, busiest_loop n c i best bl st = Some (b, l) /\ 0 <= b.
Proof.
  intros Hq. revert i best bl. induction n as [|n IH]; intros i best bl Hi Hn Hb; cbn [busiest_loop]; [eauto|]. destruct (negb _); [eauto|].
  destruct (core_load_total st i Hq) as [k ->]; [unfold MAX_CORES; lia|]. cbn [mbind option_bind]. destruct (_ || _ || _); [apply IH; lia|].
  destruct (cpu_load_spec st i (inv_shaped _ Hq)) as (l & -> & _); [lia|]. cbn [mbind option_bind]. destruct (_ <? _); apply IH; lia.
Qed.

(** The stolen threads but the first are queued behind it. *)
Lemma steal_loop_ok n (s c : Z) first st0 st : 0 <= s < MAX_CORES -> 0 <= c < MAX_CORES -> dinv x st -> found st0 first st ->
  exists r st', steal_loop n s c first st = Some (r, st') /\ found st0 r st'.
Proof.
  intros Hs Hc. revert first st. induction n as [|n IH]; intros first st Hd Hf; cbn [steal_loop]; [eauto|].
  destruct (worst_took s c st Hd Hs) as (r & st1 & -> & Hk); [lia|]. cbn [mbind option_bind]. destruct r as [t|]; [|rewrite Hk; eauto].
  pose proof Hk as (Hon & Hd1 & Ht1 & Hl1). destruct (place_ok t c st1 Hd1 Hl1) as (Hd2 & Ht2 & Hl2); [lia|].
  set (st3 := set_migrations _ _). assert (F3 : flags_only (place_on t c st1) st3) by (by constructor). pose proof (flags_dinv _ _ _ Hd2 F3) as Hd3.
  assert (Hl3 : loose (x := x) st3 t) by (destruct Hl2; by constructor).
  assert (Hk3 : took (x := x) st (Some t) st3).
  { split_and!; [done|done| |done]. eapply touched_trans; [exact Ht1|]. eapply touched_trans; [exact Ht2|by apply flags_touched]. }
  clearbody st3. destruct first as [f|].
  - destruct (put_back st t st3 c Hd Hk3 Hc) as (st4 & Hb & Hd4 & Hm4). rewrite Hb. cbn [mbind option_bind]. apply IH; [done|].
    destruct Hf as (_ & Hm & Hr). split_and!; [done|by eapply moved_trans|]. intros f' [= <-]. destruct (Hr f eq_refl) as [Hof Hlf]. split; [done|].
    destruct Hk3 as (_ & _ & Ht3 & _). assert (Hne : t <> f) by (intros ->; rewrite (ls_off _ _ Hlf) in Hon; done).
    destruct (enqueue_cpu_ok x t c st3 Hd3 Hc) as (st5 & Hb' & _ & Ht5 & _); [apply Hl3|]. assert (st5 = st4) as -> by congruence.
    eapply loose_touched; [exact Ht5|done|]. by eapply loose_touched; [exact Ht3| |].
  - apply IH; [done|]. destruct Hf as (_ & Hm & _). eapply moved_found; [exact Hm|by apply took_found].
Qed.

Lemma steal_ok (c : Z) st : dinv x st -> 0 <= c < MAX_CORES -> exists r st', steal_idle_work c st = Some (r, st') /\ found st r st'.
Proof.
  intros Hd Hc. unfold steal_idle_work, busiest_peer. destruct (busiest_loop_ok (Z.to_nat MAX_CORES) c 0 MAX_CORES 0 st (proj1 Hd)) as (b & l & -> & Hb);
    [lia|unfold MAX_CORES; lia|unfold MAX_CORES; lia|]. cbn [mbind option_bind].
  destruct (_ || _) eqn:Hr; [exists None, st; auto using found_none, moved_refl|]. apply orb_false_iff in Hr as [Hr _]. bool_facts.
  apply steal_loop_ok; [lia|done|done|]. apply found_none; auto using moved_refl.
Qed.
End Balance.

Section Machine.
Context `{Arch} {x : option tid}.
Implicit Types (M : machine_t) (W : wait_state_t) (t u : tid) (e : env) (r : ptr tid) (C : gmap Z (list Z)).

(** ** The machine *)

Record minv M C : Prop := {
  mi_wait : inv (x := x) (wst M) C;
  mi_event : is_Some (queues (wst M) !! exit_event_wait M);
  mi_ring : forall ring, exit_ring M = Some ring -> RingQueue.rq_inv ring /\ q_elem_size ring = 4
}.

Definition task_ctx (tk : task_t) : Z * Z * bool * Z * Z := (stack tk, stack_size tk, user_thread tk, user_stack_base tk, user_stack_size tk).

(** The saved contexts are as they were. *)
Record ctx_same M M' : Prop := {
  cs_frames : frames M' = frames M;
  cs_end : kernel_end M' = kernel_end M;
  cs_tasks : forall u, task_ctx (tasks M' u) = task_ctx (tasks M u);
  cs_context : forall u, context (thr M' u) = context (thr M u)
}.

Lemma ctx_valid_same M M' t : ctx_same M M' -> ctx_valid M' t = ctx_valid M t.
Proof.
  intros [E1 E2 E3 E4]. specialize (E3 t). unfold ctx_valid, ctx_stack_valid. rewrite E1, E2, E4. injection E3 as -> -> -> -> ->. done.
Qed.

(** Nobody new waits or is queued, and no context changed. *)
Record steady M M' : Prop := {
  sy_calm : calm (wst M) (wst M');
  sy_enlists : enlists (wst M) (wst M');
  sy_ctx : ctx_same M M'
}.

Lemma ctx_same_refl M : ctx_same M M.
Proof. by constructor. Qed.

Lemma ctx_same_trans M1 M2 M3 : ctx_same M1 M2 -> ctx_same M2 M3 -> ctx_same M1 M3.
Proof. intros [] []. constructor; congruence. Qed.

Lemma steady_refl M : steady M M.
Proof. constructor; [apply calm_refl|intros u; auto|apply ctx_same_refl]. Qed.

Lemma steady_trans M1 M2 M3 : steady M1 M2 -> steady M2 M3 -> steady M1 M3.
Proof.
  intros [A1 A2 A3] [B1 B2 B3]. constructor; [by eapply calm_trans| |by eapply ctx_same_trans]. intros u Hu.
  assert (Hback : in_wait_queue (thread (wst M2) u) = false -> in_wait_queue (thread (wst M3) u) = false).
  { intros Hn. destruct (in_wait_queue (thread (wst M3) u)) eqn:E; [|done]. apply (ca_wait _ _ B1) in E. congruence. }
  destruct (B2 u Hu) as [H2|[H2 H3]]; [|right; split; [by apply (ca_wait _ _ A1)|done]].
  destruct (A2 u H2) as [H1|[H1 H1']]; [by left|]. right. auto.
Qed.

Lemma fixed_context th th' : fixed th' = fixed th -> context th' = context th.
Proof. by intros [=]. Qed.

(** A step of the wait queues, seen from the machine. *)
Lemma wait_machine M W' C' : (exists C, minv M C) -> inv (x := x) W' C' -> calm (wst M) W' -> enlists (wst M) W' ->
  minv (set_wst W' M) C' /\ steady M (set_wst W' M).
Proof.
  intros (C & [I1 I2 I3]) Hi Hc He. split; [constructor; [done| |done]; by apply (ca_queues _ _ Hc)|].
  constructor; [done|done|]. constructor; try done. intros u. apply fixed_context, (ca_fixed _ _ Hc).
Qed.

(** A step that moves threads between queues. *)
Lemma moved_calm W st : moved (sched W) st -> calm W (set_sched st W) /\ enlists W (set_sched st W).
Proof.
  intros [M1 M3 M4]. split.
  - constructor; [done| |done|].
    + intros u. exact (drest_fixed _ _ (M1 u)).
    + intros u. destruct (drest_wait _ _ (M1 u)) as [E _]. change (in_wait_queue (threads st u) = true -> in_wait_queue (thread W u) = true). by rewrite E.
  - intros u Hu. left. by apply M3.
Qed.

Lemma sched_machine M C st : minv M C -> dinv x st -> moved (schd M) st ->
  minv (set_wst (set_sched st (wst M)) M) C /\ steady M (set_wst (set_sched st (wst M)) M).
Proof.
  intros Hi Hd Hm. destruct (moved_calm (wst M) st Hm) as [Hc He]. apply wait_machine; [by exists C| |done|done].
  apply sched_step; [apply Hi|done|apply Hm].
Qed.

(** ** How many threads can be picked *)

(** At most [n] threads are queued or may come to be. *)
Definition bounded (n : nat) W : Prop :=
  exists Q I : gset tid, (forall u, on_rq (thread W u) = true -> u ∈ Q) /\ (forall u, in_wait_queue (thread W u) = true -> u ∈ I) /\ (size Q + size I <= n)%nat.

Lemma bounded_steady n W W' : calm W W' -> enlists W W' -> bounded n W -> bounded n W'.
Proof.
  intros Hc He (Q & I & HQ & HI & Hn). set (P := fun u : tid => in_wait_queue (thread W' u) = true). assert (HP : forall u, Decision (P u)) by (intros u; apply _).
  exists (Q ∪ filter (fun u => ~ P u) I), (filter P I). split_and!.
  - intros u Hu. rewrite elem_of_union, elem_of_filter. destruct (He u Hu) as [H1|[H1 H2]]; [left; auto|right; split; [unfold P; congruence|auto]].
  - intros u Hu. rewrite elem_of_filter. split; [done|]. by apply HI, (ca_wait _ _ Hc).
  - pose proof (size_union_alt Q (filter (fun u => ~ P u) I)) as Hs.
    assert (Hsub : (size (filter (fun u => ~ P u) I ∖ Q) <= size (filter (fun u => ~ P u) I))%nat) by (apply subseteq_size; set_solver).
    assert (Hsplit : (size (filter P I) + size (filter (fun u => ~ P u) I))%nat = size I).
    { rewrite <- size_union by apply disjoint_filter_complement. by rewrite filter_union_complement. }
    lia.
Qed.

Lemma bounded_take n W W' t : calm W W' -> (forall u, on_rq (thread W' u) = true -> on_rq (thread W u) = true /\ u <> t) -> on_rq (thread W t) = true ->
  bounded n W -> exists n', n = S n' /\ bounded n' W'.
Proof.
  intros Hc Ho Ht (Q & I & HQ & HI & Hn). pose proof (HQ t Ht) as Hin.
  assert (Hs : size Q = S (size (Q ∖ {[t]}))).
  { rewrite (size_difference Q {[t]}) by set_solver. rewrite size_singleton.
    assert (size Q <> 0)%nat by (intros E; apply size_empty_inv in E; set_solver). lia. }
  destruct n as [|n]; [lia|]. exists n. split; [done|]. exists (Q ∖ {[t]}), I. split_and!; [| |lia].
  - intros u Hu. destruct (Ho u Hu). set_solver.
  - intros u Hu. by apply HI, (ca_wait _ _ Hc).
Qed.

Lemma queued_set (rqs : list sched_rq_t) (ts : thread_store) : (forall c rq, rqs !! c = Some rq -> rq_ok ts rq (rq_threads rq)) ->
  exists Q : gset tid, (forall c rq u, rqs !! c = Some rq -> u ∈ rq_threads rq -> u ∈ Q) /\ (size Q <= sum_list_with (fun rq => Z.to_nat (nr_running rq)) rqs)%nat.
Proof.
  induction rqs as [|rq rqs IH]; intros Hok; [exists ∅; split; [intros c rq u Hc; by rewrite lookup_nil in Hc|rewrite size_empty; lia]|].
  destruct IH as (Q & HQ & Hn); [intros c rq' Hc; by apply (Hok (S c))|]. exists (list_to_set (rq_threads rq) ∪ Q). split.
  - intros [|c] rq' u Hc Hu; [injection Hc as <-; apply elem_of_union; left; by apply elem_of_list_to_set|apply elem_of_union; right; by apply (HQ c rq')].
  - cbn [sum_list_with]. rewrite (ok_count _ _ _ (Hok 0%nat rq eq_refl)). unfold zlen. rewrite Nat2Z.id.
    pose proof (size_union_alt (list_to_set (rq_threads rq)) Q).
    assert ((size (Q ∖ list_to_set (rq_threads rq)) <= size Q)%nat) by (apply subseteq_size; set_solver).
    assert ((size (list_to_set (rq_threads rq) : gset tid) <= length (rq_threads rq))%nat).
    { clear. induction (rq_threads rq) as [|a l IHl]; cbn; [rewrite size_empty; lia|]. pose proof (size_union_alt ({[a]} : gset tid) (list_to_set l)) as Hu. rewrite size_singleton in Hu.
      assert ((size ((list_to_set l : gset tid) ∖ {[a]}) <= size (list_to_set l : gset tid))%nat) by (apply subseteq_size; set_solver). lia. }
    lia.
Qed.

Lemma pick_fuel_ok M C : minv M C -> exists n, bounded n (wst M) /\ (n < pick_fuel M)%nat.
Proof.
  intros Hi. pose proof (mi_wait _ _ Hi) as Hw. pose proof (proj1 (i_sched _ _ Hw)) as Hq.
  destruct (queued_set (runqueues (schd M)) (threads (schd M)) (inv_ok _ Hq)) as (Q & HQ & Hn). eexists. split; [exists Q, (dom (nodes (wheap (wst M))))|].
  - split_and!; [| |apply Nat.le_refl].
    + intros u Hu. destruct (inv_on _ Hq u Hu) as (c & rq & Hrq & Hin). by apply (HQ c rq).
    + intros u Hu. destruct (waiting_at _ _ u Hw Hu) as (q & wq & l & a & b & nd & _ & _ & _ & _ & _ & Hnd & _). apply elem_of_dom. eauto.
  - unfold pick_fuel. rewrite size_dom. lia.
Qed.
End Machine.

Section Picks.
Context `{Arch} {x : option tid}.
Implicit Types (M : machine_t) (W : wait_state_t) (t u : tid) (e : env) (r : ptr tid) (C : gmap Z (list Z)).

(** Some lists of the wait queues. *)
Definition ok M : Prop := exists C, minv (x := x) M C.

(** ** Zombies *)

Lemma ring_record_ok n (ring : ptr ring_queue_t) : (forall q, ring = Some q -> RingQueue.rq_inv q /\ q_elem_size q = 4) ->
  exists ring', ring_record n ring = Some ring' /\ forall q, ring' = Some q -> RingQueue.rq_inv q /\ q_elem_size q = 4.
Proof.
  intros Hr. unfold ring_record. destruct ring as [q|]; [|by exists None]. destruct (Hr q eq_refl) as [Hi Hs]. clear Hr.
  assert (Hq : exists q1, (if ring_queue_capacity (Some q) <=? ring_queue_count (Some q) then ring_queue_drop_head (Some q) else Some q) = Some q1 /\
    RingQueue.rq_inv q1 /\ q_elem_size q1 = 4).
  { destruct (_ <=? _); [|by exists q]. destruct (Ring.rq_drop_head_spec q Hi) as (q1 & -> & ? & _ & _ & E). exists q1. split_and!; [done|done|congruence]. }
  destruct Hq as (q1 & -> & Hi1 & Hs1). pose proof (RingQueue.rq_push_spec q1 (pid_bytes n) Hi1) as Hp. rewrite Hs1 in Hp. specialize (Hp eq_refl).
  destruct (_ <? _); [destruct Hp as (q2 & -> & Hi2 & _ & _ & E)|rewrite Hp]; cbn [mbind option_bind]; eexists; (split; [done|]); intros ? [= <-]; split; congruence.
Qed.

Lemma event_ok e n M : ok M -> 0 <= me e < MAX_CORES -> exists M', exit_event_push e n M = Some M' /\ ok M' /\ steady M M' /\ idle_states (wst M) (wst M').
Proof.
  intros [C Hi] He. pose proof Hi as [Hw Hev Hr]. unfold exit_event_push. destruct (n <=? 0); [exists M; split_and!; [done|by exists C|apply steady_refl|by intros u]|].
  destruct (ring_record_ok n (exit_ring M) Hr) as (ring & -> & Hr'). cbn [mbind option_bind]. set (M1 := set_exit_ring ring M).
  assert (Hi1 : minv (x := x) M1 C) by (by constructor). destruct Hev as [wq Hq]. change (queues (wst M1) !! exit_event_wait M1) with (queues (wst M) !! exit_event_wait M). rewrite Hq. cbn [mbind option_bind].
  assert (Hs1 : steady M M1) by (constructor; [apply calm_refl|intros u; auto|by constructor]).
  destruct (_ && _); [|exists M1; split_and!; [done|by exists C|done|by intros u]]. unfold on_wait.
  destruct (wake_all_any e (exit_event_wait M1) (wst M1) C Hw He) as (W & HW & (C' & Hi') & Hc & Hen & Hst); [exists wq; exact Hq|].
  rewrite HW. cbn [mbind option_bind]. destruct (wait_machine (x := x) M1 W C') as [Hi2 Hs2]; [by exists C|done|done|done|].
  eexists. split_and!; [done|by exists C'|by eapply steady_trans|exact Hst].
Qed.

Lemma upd_task_ok t f M : (forall tk, task_ctx (f tk) = task_ctx tk) -> ok M -> ok (upd_task t f M) /\ steady M (upd_task t f M).
Proof.
  intros Hf [C [I1 I2 I3]]. split; [exists C; by constructor|]. constructor; [apply calm_refl|intros u; auto|]. constructor; try done.
  intros u. cbn. destruct (decide (u = t)) as [->|Hu]; [by rewrite fn_lookup_insert|by rewrite fn_lookup_insert_ne].
Qed.

Lemma zombie_append_ok t M : ok M -> ok (zombie_append t M) /\ steady M (zombie_append t M).
Proof.
  intros Hm. unfold zombie_append. destruct (zombie_list M) as [l|]; [|split; [done|apply steady_refl]].
  destruct (negb _); [|split; [done|apply steady_refl]]. set (M1 := set_zombie_list (Some (ll_append l t)) M).
  assert (Hm1 : ok M1) by (destruct Hm as [C [I1 I2 I3]]; exists C; by constructor).
  assert (Hs1 : steady M M1) by (constructor; [apply calm_refl|intros u; auto|by constructor]).
  destruct (upd_task_ok t (set_in_zombie_list true) M1) as [Hm2 Hs2]; [done|done|]. split; [done|by eapply steady_trans].
Qed.

(** A field of one thread that is not in a queue. *)
Lemma upd_thr_ok t f M : ok M -> dinv x (upd_thread t f (schd M)) -> touched t (schd M) (upd_thread t f (schd M)) ->
  (on_rq (f (thr M t)) = true -> on_rq (thr M t) = true) -> ok (upd_thr t f M) /\ steady M (upd_thr t f M).
Proof.
  intros [C Hi] Hd Ht Ho. assert (Hm : moved (schd M) (upd_thread t f (schd M))) by (apply (touched_moved t); [done|cbn; by rewrite fn_lookup_insert]).
  destruct (sched_machine M C _ Hi Hd Hm) as [Hi' Hs]. split; [by exists C|done].
Qed.

Lemma free_thread t M : ok M -> x <> Some t -> (forall c, ~ holds (schd M) c t) ->
  ok (upd_thr t (set_running_cpu (-1)) M) /\ steady M (upd_thr t (set_running_cpu (-1)) M).
Proof.
  intros Hm Hx Hno. pose proof Hm as [C Hi]. destruct (unclaim_ok x t (schd M) (i_sched _ _ (mi_wait _ _ Hi))) as (Hd & Ht & _); [intros c Hh; by destruct (Hno c)|].
  by apply upd_thr_ok.
Qed.

Lemma set_state_thr t s M : ok M -> x <> Some t -> on_rq (thr M t) = false ->
  ok (upd_thr t (set_state s) M) /\ steady M (upd_thr t (set_state s) M).
Proof.
  intros Hm Hx Hoff. pose proof Hm as [C Hi]. destruct (set_state_ok x t s (schd M) (i_sched _ _ (mi_wait _ _ Hi))) as (Hd & Ht & _); [done|change (on_rq (thr M t) = true -> s = THREAD_READY); congruence|].
  by apply upd_thr_ok.
Qed.

Lemma zombie_ok e t code M : ok M -> 0 <= me e < MAX_CORES -> x <> Some t -> (forall c, ~ holds (schd M) c t) -> on_rq (thr M t) = false ->
  exists M', make_zombie e t code M = Some M' /\ ok M' /\ steady M M'.
Proof.
  intros Hm He Hx Hno Hoff. unfold make_zombie. destruct (free_thread t M Hm Hx Hno) as [Hm1 Hs1]. set (M1 := upd_thr t (set_running_cpu _) M) in *.
  assert (Hoff1 : on_rq (thr M1 t) = false) by (unfold M1, thr; cbn; rewrite fn_lookup_insert; exact Hoff).
  destruct (set_state_thr t THREAD_ZOMBIE M1 Hm1 Hx Hoff1) as [Hm2 Hs2]. set (M2 := upd_thr t (set_state _) M1) in *.
  destruct (upd_task_ok t (fun tk => set_exit_signal 0 (set_exit_code code tk)) M2) as [Hm3 Hs3]; [done|done|].
  destruct (zombie_append_ok t _ Hm3) as [Hm4 Hs4]. set (M4 := zombie_append t _) in *.
  destruct (event_ok e (pid (thr M4 t)) M4 Hm4 He) as (M5 & -> & Hm5 & Hs5 & _). exists M5. split_and!; [done|done|].
  eapply steady_trans; [exact Hs1|]. eapply steady_trans; [exact Hs2|]. eapply steady_trans; [exact Hs3|]. by eapply steady_trans.
Qed.

(** ** The core's own queue *)

Lemma loose_steady M M' t : steady M M' -> ok M' -> loose (x := x) (schd M) t -> on_rq (thr M' t) = false -> state (thr M' t) = THREAD_READY ->
  loose (x := x) (schd M') t.
Proof.
  intros [Hc _ Hs] _ [[L1 L1'] L2 L3 L4 L5] Hoff Hst. constructor.
  - split; [done|]. change (context (thr M' t) <> 0). by rewrite (cs_context _ _ Hs).
  - done.
  - intros c Hh. apply (cores_holds _ _ _ _ (ca_cores _ _ Hc)) in Hh. by apply (L3 c).
  - done.
  - pose proof (ca_fixed _ _ Hc t) as E. injection E as E _ _. change (pid (thread (wst M') t) <> 0). by rewrite E.
Qed.

Lemma ready_ok e t M : ok M -> 0 <= me e < MAX_CORES -> loose (x := x) (schd M) t ->
  exists b M', ready_to_run e t M = Some (b, M') /\ ok M' /\ steady M M' /\ (b = true -> loose (x := x) (schd M') t /\ ctx_valid M' t = true).
Proof.
  intros Hm He Hl. pose proof Hl as [[Hst Hctx] Hoff Hno Hx Hpid]. unfold ready_to_run.
  change (context (thr M t) <> 0) in Hctx. change (state (thr M t) = THREAD_READY) in Hst. rewrite (proj2 (Z.eqb_neq _ _)) by done.
  unfold thread_ctx_ok. change (threads (schd M) t) with (thr M t). rewrite (proj2 (Z.eqb_neq _ _)) by done. cbn [negb andb].
  destruct (ctx_valid M t) eqn:Hv; cbn [negb].
  2:{ destruct (zombie_ok e t (- EFAULT) M Hm He Hx Hno Hoff) as (M' & -> & Hm' & Hs'). cbn [mbind option_bind]. exists false, M'. by split_and!. }
  unfold is_state. rewrite Hst. cbn [negb bool_decide]. rewrite bool_decide_true by done. cbn [negb]. unfold thread_cpu.
  destruct (_ <? 0); [exists true, M; split_and!; [done|done|apply steady_refl|done]|].
  pose proof Hm as [C Hi]. destruct (owned_spec x (schd M) t (i_sched _ _ (mi_wait _ _ Hi)) Hx) as (b & -> & Hb). cbn [mbind option_bind].
  destruct b; [destruct (proj1 Hb eq_refl) as [c Hh]; by destruct (Hno c)|]. destruct (free_thread t M Hm Hx Hno) as [Hm1 Hs1].
  eexists true, _. split_and!; [done|done|done|]. intros _. split.
  - apply (loose_steady M); [done|done|done|..]; unfold thr; cbn; rewrite fn_lookup_insert; done.
  - by rewrite (ctx_valid_same M) by apply Hs1.
Qed.

(** Picking: a thread that no core has, out of its queue; then fewer are left. *)
Definition chose M r M' : Prop :=
  ok M' /\ steady M M' /\ forall t, r = Some t -> loose (x := x) (schd M') t /\ forall n, bounded n (wst M) -> exists n', (n' < n)%nat /\ bounded n' (wst M').

Lemma chose_none M M' : ok M' -> steady M M' -> chose M None M'.
Proof. intros Hm Hs. by split_and!. Qed.

Lemma steady_chose M M1 r M2 : steady M M1 -> chose M1 r M2 -> chose M r M2.
Proof.
  intros Hs (Hm2 & Hs2 & Hr). split_and!; [done|by eapply steady_trans|]. intros t Ht. destruct (Hr t Ht) as [Hl Hb]. split; [done|].
  intros n Hn. apply Hb. by eapply bounded_steady; [apply Hs|apply Hs|].
Qed.

(** A step that found a thread elsewhere. *)
Lemma found_chose M r st : ok M -> found (x := x) (schd M) r st -> chose M r (set_wst (set_sched st (wst M)) M).
Proof.
  intros [C Hi] (Hd & Hm & Hr). destruct (sched_machine M C st Hi Hd Hm) as [Hi' Hs]. split_and!; [by exists C|done|].
  intros t Ht. destruct (Hr t Ht) as [Hon Hl]. split; [done|]. intros n Hn.
  destruct (bounded_take n (wst M) (set_sched st (wst M)) t) as (n' & -> & Hb); [apply Hs| |done|done|].
  - intros u Hu. split; [by apply (mv_on _ _ Hm)|]. intros ->. pose proof (ls_off _ _ Hl) as Ho. change (on_rq (threads st t) = true) in Hu. cbn in Ho. congruence.
  - exists n'. split; [lia|done].
Qed.

Lemma picks_ok M m : ok M -> (forall st, dinv x st -> exists r st', m st = Some (r, st') /\ found (x := x) st r st') ->
  exists r M', picks m M = Some (r, M') /\ chose M r M'.
Proof.
  intros Hm Hf. pose proof Hm as [C Hi]. destruct (Hf (schd M) (i_sched _ _ (mi_wait _ _ Hi))) as (r & st & Hs & Hr). unfold picks. rewrite Hs. cbn [mbind option_bind].
  eexists r, _. split; [done|by apply found_chose].
Qed.

Lemma pick_loop_ok fuel e (c : Z) n M : ok M -> 0 <= me e < MAX_CORES -> 0 <= c < MAX_CORES -> bounded n (wst M) -> (n < fuel)%nat ->
  exists r M', pick_loop fuel e c M = Some (r, M') /\ chose M r M' /\ forall t, r = Some t -> ctx_valid M' t = true.
Proof.
  revert n M. induction fuel as [|fuel IH]; intros n M Hm He Hc Hn Hf; [lia|]. cbn [pick_loop]. pose proof Hm as [C Hi].
  pose proof (i_sched _ _ (mi_wait _ _ Hi)) as Hd. destruct (pop_took c (schd M) Hd Hc) as (r & st & -> & Hk). cbn [mbind option_bind].
  pose proof (found_chose M r st Hm (took_found _ _ _ Hd Hk)) as Hch. set (M1 := set_wst _ M) in *.
  destruct r as [t|]; [|exists None, M1; by split_and!]. destruct Hch as (Hm1 & Hs1 & Hr). destruct (Hr t eq_refl) as [Hl1 Hb1]. destruct (Hb1 n Hn) as (n1 & Hlt & Hn1).
  destruct (ready_ok e t M1 Hm1 He Hl1) as (b & M2 & -> & Hm2 & Hs2 & Hb). cbn [mbind option_bind].
  assert (Hn2 : bounded n1 (wst M2)) by (by eapply bounded_steady; [apply Hs2|apply Hs2|]).
  destruct b.
  - destruct (Hb eq_refl) as [Hl2 Hv]. exists (Some t), M2. split_and!; [done| |by intros ? [= <-]]. split_and!; [done|by eapply steady_trans|].
    intros ? [= <-]. split; [done|]. intros k Hk'. destruct (Hb1 k Hk') as (k' & ? & ?). exists k'. split; [done|]. by eapply bounded_steady; [apply Hs2|apply Hs2|].
  - destruct (IH n1 M2 Hm2 He Hc Hn2) as (r & M3 & -> & Hch & Hv); [lia|]. exists r, M3. split_and!; [done| |done].
    eapply steady_chose; [by eapply steady_trans|done].
Qed.

Lemma pick_anywhere_ok e M : ok M -> 0 <= me e < MAX_CORES -> exists r M', pick_anywhere e M = Some (r, M') /\ chose M r M'.
Proof.
  intros Hm He. unfold pick_anywhere, pick_local. pose proof Hm as [C Hi]. destruct (pick_fuel_ok M C Hi) as (n & Hn & Hf).
  destruct (pick_loop_ok _ e (me e) n M Hm He He Hn Hf) as (r & M1 & -> & Hch1 & _). cbn [mbind option_bind]. destruct r as [t|]; [eauto|].
  destruct Hch1 as (Hm1 & Hs1 & _). destruct (picks_ok M1 (rescue_stranded e (me e)) Hm1) as (r & M2 & -> & Hch2); [intros st Hd; by apply rescue_ok|].
  cbn [mbind option_bind]. destruct r as [t|]; [exists (Some t), M2; split; [done|by eapply steady_chose]|]. destruct Hch2 as (Hm2 & Hs2 & _).
  destruct (picks_ok M2 (steal_idle_work (me e)) Hm2) as (r & M3 & -> & Hch3); [intros st Hd; by apply steal_ok|]. exists r, M3. split; [done|].
  eapply steady_chose; [|done]. by eapply steady_trans.
Qed.

(** ** With the thread that was switched away from *)

Lemma flush_machine e M : ok M -> 0 <= me e < MAX_CORES ->
  exists M', flush e M = ret M' /\ ok M' /\ flushed e (schd M) (schd M') /\ ctx_same M M' /\
    exists st, M' = set_wst (set_sched st (wst M)) M.
Proof.
  intros [C Hi] He. pose proof (mi_wait _ _ Hi) as Hw. destruct (flush_ok x e (schd M) (i_sched _ _ Hw) He) as (st & Hf & Hd & Hfl). unfold flush. rewrite Hf.
  unfold mbind at 1. cbn [lift run_bind ret]. eexists. split_and!; [done| |done| |by exists st].
  - exists C. destruct Hi as [I1 I2 I3]. constructor; [|done|done]. apply sched_step; [done|done|apply Hfl].
  - constructor; try done. intros u. apply (drest_fields (thr M u)). apply (fs_rest _ _ _ Hfl).
Qed.

(** Nothing is pending: the flush does nothing. *)
Lemma flush_idle e M k : local e (schd M) = Some k -> handoff_ready k = None -> me e < MAX_CORES -> flush e M = ret M.
Proof.
  intros Hk Hh He. unfold flush, sched_flush_handoff. rewrite (proj2 (Z.leb_gt _ _)) by lia. unfold local in Hk. rewrite Hk. unfold mbind at 2. cbn [lift run_bind ret].
  rewrite Hh. unfold mbind at 1. cbn [run_bind ret]. by destruct M as [[] ? ? ? ? ? ? ?].
Qed.
End Picks.
End Picking.
