(* ===== verification/Ticking.v ===== *)
(** * Ticks, switches and exits

    [kernel/sched/tick.c], and the start of [scheduler.c]: the timer tick charges the running thread, wakes
    the sleepers that are due and balances the cores; then, or when a core was told to, the core may switch
    to another thread.  The thread it switches away from stays the core's own ([handoff_ready]) until its
    registers are saved.  A thread that exits becomes a zombie and its core switches for good.

    What the hardware does (stacks, address spaces, floating point registers, the jump itself) is the
    answer of a switch.  The interrupt states are read from [frames]; whether a lock could be taken, the
    timer and its frequency are arguments. *)

From S2P Require Import Prelude Memory Outcome Errno Ring BinHeap IntrusiveHeap Sched RunQueue SchedState Dispatch LinkedList WaitQueue Picking.
From stdpp Require Import gmap functions list.
Import RunQueue SchedState.SleepHeap Dispatch LinkedList WaitQueue Picking.
Open Scope Z_scope.

Module Ticking.

Definition SCHED_REBALANCE_TICKS : Z := 32.

(** What a switch asks of the hardware: the kernel stack, the address space and the floating point state
    to load, the thread whose floating point state is to be saved, and the context to jump to. *)
Record switch_t := mk_switch {
  sw_stack : Z;
  sw_space : option Z;
  sw_save : ptr tid;
  sw_restore : ptr tid;
  sw_context : Z
}.

Section Defs.
Context `{Arch}.
Implicit Types (M : machine_t) (t : tid) (e : env).

Definition core_of e M : option sched_cpu_t := local e (schd M).
Definition upd_core e (f : sched_cpu_t -> sched_cpu_t) M : option machine_t := on_sched (upd_cpu (me e) f) M.
Definition claim t (cpu_id : Z) M : machine_t := set_wst (set_sched (thread_claim t cpu_id (schd M)) (wst M)) M.

(** ** Whether to switch *)

Definition should_preempt e t (cpu_id : Z) M : option (bool * machine_t) :=
  k ← core_of e M;
  rq_depth ← sched_rq_depth (schd M) cpu_id;
  let idle := bool_decide (idle_thread k = Some t) in
  let M := if idle && negb (is_state (thr M t) THREAD_RUNNING) then claim t cpu_id M else M in
  if negb (is_state (thr M t) THREAD_RUNNING) then Some (true, M)
  else if idle then Some (negb (rq_depth =? 0), M)
  else
    allowed ← sched_cpu_allowed (schd M) (Some t) cpu_id;
    if negb allowed then Some (true, M)
    else
      target_ns ← sched_target_slice_ns cpu_id (schd M);
      best ← rq_peek_best (schd M) cpu_id;
      let slice_done := target_ns <=? slice_ns k in
      if bool_decide (best = None) then Some (negb (rq_depth =? 0) && slice_done, M)
      else
        better ← sched_has_better t cpu_id (schd M);
        Some (slice_done || better, M).

Definition tick_charges e t M : option bool :=
  k ← core_of e M;
  Some (if bool_decide (idle_thread k = Some t) then false else is_state (thr M t) THREAD_RUNNING).

Definition charge_thread_tick t (state : Z) M : machine_t :=
  let M := upd_task t (fun tk => set_cpu_time_ticks (u64_wrap (cpu_time_ticks tk + 1)) tk) M in
  if arch_signal_is_user (frames M state)
  then upd_task t (fun tk => set_user_ticks (u64_wrap (user_ticks tk + 1)) tk) M
  else upd_task t (fun tk => set_sys_ticks (u64_wrap (sys_ticks tk + 1)) tk) M.

(** [thread->sum_exec_ns += ns; thread->vruntime_ns += ns; thread->exec_start_ns = thread->sum_exec_ns] *)
Definition charge_ns t (ns : Z) M : machine_t :=
  let M := upd_thr t (fun th => set_vruntime_ns (u64_wrap (vruntime_ns th + ns)) (set_sum_exec_ns (u64_wrap (sum_exec_ns th + ns)) th)) M in
  upd_task t (set_exec_start_ns (sum_exec_ns (thr M t))) M.

Definition invalid_switch_target (next : ptr tid) t M : bool :=
  match next with
  | None => false
  | Some n =>
      if (n =? t) || negb (thread_ctx_ok (schd M) n) then false
      else (context (thr M n) =? 0) || negb (ctx_valid M n)
  end.

Definition need_irq_switch e t (cpu_id : Z) (force_resched check_policy : bool) M : option (bool * machine_t) :=
  k ← core_of e M;
  if force_resched || need_resched k then Some (true, M)
  else if check_policy then should_preempt e t cpu_id M
  else Some (false, M).

Definition keep_force e (force_resched : bool) M : option machine_t :=
  if force_resched then upd_core e (set_force_resched true) M else Some M.

Definition retire_bad e t M : option machine_t := make_zombie e t (- EFAULT) M.

(** [while (invalid_switch_target(next, current))]: each round retires a thread. *)
Fixpoint retire_loop (fuel : nat) e t (next : ptr tid) M : run (ptr tid * machine_t) :=
  match fuel with
  | O => None
  | S fuel =>
      if invalid_switch_target next t M then
        M ← match next with Some n => lift (retire_bad e n M) | None => ret M end;
        '(next, M) ← pick_next_thread e M;
        retire_loop fuel e t next M
      else ret (next, M)
  end.

(** [None] where the thread goes on. *)
Definition pick_switch_to e t (preempted : bool) (cpu_id : Z) M : run (ptr tid * machine_t) :=
  '(next, M) ← (if preempted then dequeue_thread e M else pick_next_thread e M);
  if preempted && bool_decide (next = None) then ret (None, claim t cpu_id M)
  else
    '(next, M) ← retire_loop (S (pick_fuel M)) e t next M;
    if bool_decide (next = None) || bool_decide (next = Some t) then ret (None, claim t cpu_id M)
    else ret (next, M).

(** ** Switching *)

Definition stage_switch_away e t (cpu_id : Z) M : run machine_t :=
  k ← lift (core_of e M);
  M ← match handoff_ready k with
      | Some pending =>
          if negb (pending =? t) then
            M ← lift (upd_core e (set_handoff_ready None) M);
            st ← sched_publish_handoff e pending cpu_id (schd M);
            ret (set_wst (set_sched st (wst M)) M)
          else ret M
      | None => ret M
      end;
  lift (upd_core e (set_handoff_ready (Some t)) (upd_thr t (set_running_cpu cpu_id) M)).

Definition count_switch M : machine_t := set_clock (set_switch_count (u64_wrap (switch_count (clock M) + 1)) (clock M)) M.

(** What loading [next] after [old] asks of the hardware. *)
Definition switch_order (old : ptr tid) (saves : bool) next M : switch_t :=
  let other := match old with Some o => negb (vm_space (tasks M o) =? vm_space (tasks M next)) | None => true end in
  mk_switch (wrap (stack (tasks M next) + stack_size (tasks M next)))
    (if other then Some (vm_space (tasks M next)) else None)
    (if saves then old else None)
    (if fpu_initialized (tasks M next) then Some next else None)
    (context (thr M next)).

Definition switch_to_thread e old next (cpu_id : Z) M : run (switch_t * machine_t) :=
  M ← stage_switch_away e old cpu_id M;
  M ← lift (upd_core e (set_current (Some next)) M);
  let M := claim next cpu_id M in
  let M := upd_task next (set_exec_start_ns (sum_exec_ns (thr M next))) M in
  ret (switch_order (Some old) (fpu_initialized (tasks M old)) next M, count_switch M).

Definition sched_capture_context e (state : Z) M : option machine_t :=
  k ← core_of e M;
  match current k with
  | None => Some M
  | Some t =>
      if negb (running (schd M)) || (state =? 0) then Some M
      else
        let running_cpu := thread_cpu (schd M) (Some t) in
        owned ← thread_is_owned (schd M) (Some t);
        let elsewhere := (0 <=? running_cpu) && negb (running_cpu =? me e) in
        if elsewhere && owned then Some M
        else
          let M := if elsewhere then upd_thr t (set_running_cpu (me e)) M else M in
          Some (if negb (ctx_state_valid M t state) then M else upd_thr t (set_context state) M)
  end.

(** The reschedule of an interrupt at [state]; [lock_free] is whether the scheduler lock could be taken,
    [now] is the timer. *)
Definition irq_reschedule e (state : Z) (check_policy lock_free : bool) (now : Z) M : run (option switch_t * machine_t) :=
  k ← lift (core_of e M);
  match current k with
  | None => ret (None, M)
  | Some t =>
      if state =? 0 then ret (None, M)
      else
        M ← lift (sched_capture_context e state M);
        M ← lift (upd_core e (set_resched_irq false) M);
        k ← lift (core_of e M);
        let force_resched := Sched.force_resched k in
        M ← lift (upd_core e (set_force_resched false) M);
        if negb (preempt_depth k =? 0) then ret (None, M)
        else if 0 <? sched_lock_depth k then
          M ← lift (upd_core e (set_need_resched true) M);
          M ← lift (keep_force e force_resched M);
          ret (None, M)
        else
          let cpu_id := me e in
          '(need, M) ← lift (need_irq_switch e t cpu_id force_resched check_policy M);
          if negb need then ret (None, M)
          else if negb lock_free then
            M ← lift (upd_core e (set_need_resched true) M);
            M ← lift (keep_force e force_resched M);
            ret (None, M)
          else
            let e := locked e in
            M ← flush e M;
            M ← lift (on_wait (wake_sleepers e now) M);
            '(need, M) ← lift (need_irq_switch e t cpu_id force_resched check_policy M);
            if negb need then ret (None, M)
            else
              M ← lift (upd_core e (fun k => set_slice_ns 0 (set_resched_irq false (set_need_resched false k))) M);
              charges ← lift (tick_charges e t M);
              let M := if (charges : bool) then charge_ns t 1 M else M in
              preempted ← lift (tick_charges e t M);
              '(next, M) ← pick_switch_to e t preempted cpu_id M;
              match next with
              | None => ret (None, M)
              | Some n => '(order, M) ← switch_to_thread e t n cpu_id M; ret (Some order, M)
              end
  end.

(** ** The tick *)

Definition sched_tick_ns (hz : Z) : Z :=
  if hz =? 0 then 0 else let ns := 1000000000 / hz in if ns =? 0 then 1 else ns.

Definition count_tick e M : option machine_t :=
  total ← mload (core_total_ticks (clock M)) (me e);
  totals ← mstore (core_total_ticks (clock M)) (me e) (u64_wrap (total + 1));
  Some (set_clock (set_core_total_ticks totals (set_total_ticks (u64_wrap (total_ticks (clock M) + 1)) (clock M))) M).

Definition count_busy e M : option machine_t :=
  busy ← mload (core_busy_ticks (clock M)) (me e);
  busies ← mstore (core_busy_ticks (clock M)) (me e) (u64_wrap (busy + 1));
  Some (set_clock (set_core_busy_ticks busies (set_busy_ticks (u64_wrap (busy_ticks (clock M) + 1)) (clock M))) M).

(** [sched_tick] up to the delivery of signals: the handed-off thread is published, sleepers are woken, the
    running thread is charged.  [free1] and [free2] are whether the lock could be taken each time. *)
Definition tick_begin e (state now hz : Z) (free1 free2 : bool) M : run machine_t :=
  k ← lift (core_of e M);
  match current k with
  | None => ret M
  | Some t =>
      if negb (running (schd M)) || (state =? 0) then ret M
      else
        M ← (if bool_decide (handoff_ready k = None) then ret M
             else if (free1 : bool) then flush (locked e) M
             else lift (upd_core e (set_need_resched true) M));
        M ← lift (count_tick e M);
        M ← (if (sleep_wake_tick (clock M) <? now) && free2
             then lift (on_wait (wake_sleepers (locked e) now) (set_clock (set_sleep_wake_tick now (clock M)) M))
             else ret M);
        charges ← lift (tick_charges e t M);
        let tick_ns := sched_tick_ns hz in
        M ← (if (charges : bool) then
               M ← lift (count_busy e M);
               let M := charge_thread_tick t state M in
               if tick_ns =? 0 then ret M
               else lift (upd_core e (fun k => set_slice_ns (u64_wrap (slice_ns k + tick_ns)) k) (charge_ns t tick_ns M))
             else ret M);
        lift (sched_capture_context e state M)
  end.

(** The rest of it. *)
Definition tick_end e (state now : Z) (free1 free2 : bool) M : run (option switch_t * machine_t) :=
  ticks ← lift (mload (local_ticks (clock M)) (me e));
  let local_tick := u64_wrap (ticks + 1) in
  all ← lift (mstore (local_ticks (clock M)) (me e) local_tick);
  let M := set_clock (set_local_ticks all (clock M)) M in
  M ← lift (if (local_tick mod SCHED_REBALANCE_TICKS =? me e mod SCHED_REBALANCE_TICKS) && free1
            then on_sched (sched_rebalance_once (locked e) (me e)) M else Some M);
  irq_reschedule e state true free2 now M.

(** [sched_resched_softirq] *)
Definition sched_resched_softirq e (state now : Z) (lock_free : bool) M : run (option switch_t * machine_t) :=
  if negb (running (schd M)) || (state =? 0) then ret (None, M) else irq_reschedule e state true lock_free now M.

Definition sched_ipi_resched e M : option machine_t :=
  if negb (running (schd M)) then Some M else upd_core e (set_need_resched true) M.

(** [sched_yield] after the reaping core 0 does. *)
Definition sched_yield e M : option machine_t :=
  k ← core_of e M;
  if negb (running (schd M)) || bool_decide (current k = None) then Some M
  else
    slice ← sched_target_slice_ns (me e) (schd M);
    M ← upd_core e (set_slice_ns slice) M;
    on_sched (WaitQueue.force_resched e) M.

Definition set_preempt_depth (v : Z) (k : sched_cpu_t) : sched_cpu_t :=
  mk_cpu (current k) (idle_thread k) (handoff_ready k) v (sched_lock_depth k) (slice_ns k) (need_resched k)
    (Sched.force_resched k) (resched_irq k).

Definition sched_preempt_disable e M : option machine_t :=
  upd_core e (fun k => set_preempt_depth (wrap (preempt_depth k + 1)) k) M.

Definition sched_preempt_enable e M : option machine_t :=
  M ← upd_core e (fun k => if 0 <? preempt_depth k then set_preempt_depth (preempt_depth k - 1) k else k) M;
  k ← core_of e M;
  if (preempt_depth k =? 0) && need_resched k then on_sched (sched_resched_local e) M else Some M.

(** ** Exit *)

(** [self->zombie_node.data = self; list_append(...); self->in_zombie_list = true] *)
Definition exit_zombie e t M : option machine_t :=
  k ← core_of e M;
  Some (if negb (bool_decide (idle_thread k = Some t)) && negb (in_zombie_list (tasks M t))
        then upd_task t (set_in_zombie_list true) (set_zombie_list ((fun l => ll_append l t) <$> zombie_list M) M) else M).

(** The exiting thread leaves its queues and the living; [reaper] is whom [reparent_children] notifies
    (the children's new [ppid] is not part of this state), [parent] is what [find_thread] answers. *)
Definition exit_self e self (reaper parent : option parent_t) M : run machine_t :=
  M ← lift (on_wait (wq_dequeue self) M);
  M ← lift (on_wait (sleep_remove self) M);
  M ← lift (on_wait (notify_parent e reaper) M);
  M ← stage_switch_away e self (me e) (upd_thr self (set_state THREAD_ZOMBIE) M);
  M ← lift (exit_zombie e self M);
  lift (if user_thread (tasks M self) then on_wait (notify_parent e parent) M else Some M).

(** The switch for good; [None] where the core halts. *)
Definition exit_switch e (self : ptr tid) (exited_pid : Z) M : run (option switch_t * machine_t) :=
  '(next, M) ← pick_next_thread e M;
  match next with
  | None => M ← lift (exit_event_push e exited_pid M); ret (None, M)
  | Some n =>
      M ← lift (upd_core e (fun k => set_slice_ns 0 (set_resched_irq false (set_force_resched false (set_need_resched false k)))) M);
      let M := upd_task n (set_exec_start_ns (sum_exec_ns (thr M n))) M in
      if thread_ctx_ok (schd M) n && ((context (thr M n) =? 0) || negb (ctx_valid M n)) then panic
      else
        M ← lift (upd_core e (set_current (Some n)) M);
        M ← lift (exit_event_push e exited_pid (claim n (me e) M));
        ret (Some (switch_order self false n M), count_switch M)
  end.

(** [sched_exit] after the descriptors are closed. *)
Definition sched_exit e (reaper parent : option parent_t) M : run (option switch_t * machine_t) :=
  k ← lift (core_of e M);
  match current k with
  | None => exit_switch (locked e) None 0 M
  | Some self =>
      if pid (thr M self) =? 0 then panic
      else
        let exited_pid := pid (thr M self) in
        M ← exit_self (locked e) self reaper parent M;
        exit_switch (locked e) (Some self) exited_pid M
  end.
End Defs.

Section Steps.
Context `{Arch} {x : option tid}.
Implicit Types (M : machine_t) (t u n : tid) (e : env) (st : sched_state_t).

(** ** Steps that leave the threads' places alone *)

(** The threads the core knows: running, idle, switched away from. *)
Definition at_core e M (ks : ptr tid * ptr tid * ptr tid) : Prop := core_threads <$> cpus (schd M) !! Z.to_nat (me e) = Some ks.

Lemma at_core_cores e M M' ks : core_threads <$> cpus (schd M') = core_threads <$> cpus (schd M) -> at_core e M ks -> at_core e M' ks.
Proof. intros Hc Hk. unfold at_core. by rewrite (cores_at (schd M) (schd M')). Qed.

Lemma at_core_steady e M M' ks : steady M M' -> at_core e M ks -> at_core e M' ks.
Proof. intros Hs. apply at_core_cores, (ca_cores _ _ (sy_calm _ _ Hs)). Qed.

Lemma at_core_core e M ks : at_core e M ks -> exists k, cpus (schd M) !! Z.to_nat (me e) = Some k /\ ks = core_threads k.
Proof. unfold at_core. intros Hk. destruct (cpus _ !! _) as [k|]; [|done]. injection Hk as <-. eauto. Qed.

Lemma core_of_ok e M ks : at_core e M ks -> 0 <= me e -> exists k, core_of e M = Some k /\ cpus (schd M) !! Z.to_nat (me e) = Some k /\ ks = core_threads k.
Proof.
  intros (k & Hk & ->)%at_core_core He. exists k. split_and!; [|done|done]. unfold core_of, local. rewrite mload_ok; [done|]. apply lookup_lt_Some in Hk. unfold zlen. lia.
Qed.

Lemma at_core_holds e M t i h : at_core e M (Some t, i, h) -> holds (schd M) (Z.to_nat (me e)) t.
Proof. intros (k & Hk & E)%at_core_core. injection E as ? ? ?. exists k. auto. Qed.

Lemma ok_dinv M : ok (x := x) M -> dinv x (schd M).
Proof. intros [C Hi]. apply (i_sched _ _ (mi_wait _ _ Hi)). Qed.

Lemma held_off st c t : dinv x st -> holds st c t -> on_rq (threads st t) = false.
Proof. intros [_ Ho] Hh. destruct (on_rq _) eqn:E; [|done]. destruct (o_rq _ _ Ho t E) as [Hno _]. by destruct (Hno c). Qed.

Lemma flags_moved st st' : flags_only st st' -> moved st st'.
Proof. intros [F1 _ F3 _ _]. constructor; [by rewrite F1|by rewrite F1|done]. Qed.

Lemma flags_machine M st : ok (x := x) M -> flags_only (schd M) st ->
  ok (x := x) (set_wst (set_sched st (wst M)) M) /\ steady M (set_wst (set_sched st (wst M)) M).
Proof.
  intros [C Hi] F. destruct (sched_machine M C st Hi) as [Hi' Hs]; [eapply flags_dinv; [apply (i_sched _ _ (mi_wait _ _ Hi))|done]|by apply flags_moved|].
  split; [by exists C|done].
Qed.

Lemma on_sched_flags M m : ok (x := x) M -> (exists st, m (schd M) = Some st /\ flags_only (schd M) st) ->
  exists M', on_sched m M = Some M' /\ ok (x := x) M' /\ steady M M' /\ threads (schd M') = threads (schd M) /\ tasks M' = tasks M.
Proof.
  intros Hm (st & Hst & F). unfold on_sched, on_wait, runs. change (sched (wst M)) with (schd M). rewrite Hst. cbn [mbind option_bind].
  destruct (flags_machine M st Hm F). eexists. split_and!; [done|done|done|apply F|done].
Qed.

Lemma core_flag e f M : ok (x := x) M -> 0 <= me e < MAX_CORES -> quiet_flag f ->
  exists M', upd_core e f M = Some M' /\ ok (x := x) M' /\ steady M M' /\ threads (schd M') = threads (schd M) /\ tasks M' = tasks M.
Proof. intros Hm He Hf. apply on_sched_flags; [done|]. eapply set_flag_ok; [by apply ok_dinv|done|done]. Qed.

Lemma clock_ok c M : ok (x := x) M -> ok (x := x) (set_clock c M) /\ steady M (set_clock c M).
Proof. intros [C [I1 I2 I3]]. split; [exists C; by constructor|]. constructor; [apply calm_refl|intros u; auto|by constructor]. Qed.

(** ** Fields of the running thread *)

(** What the queues and the cores look at in a thread. *)
Definition placed (th : sched_thread_t) :=
  (pid th, state th, running_cpu th, (on_rq th, in_run_queue th, rq_index th, last_cpu th), in_wait_queue th, skey th).

Lemma placed_fields th th' : placed th' = placed th ->
  pid th' = pid th /\ state th' = state th /\ running_cpu th' = running_cpu th /\ on_rq th' = on_rq th /\ in_run_queue th' = in_run_queue th /\
  rq_index th' = rq_index th /\ last_cpu th' = last_cpu th /\ in_wait_queue th' = in_wait_queue th /\ skey th' = skey th.
Proof. unfold placed. intros Hp. injection Hp. intros. unfold skey. split_and!; congruence. Qed.

Lemma own_off st t f : own_inv x st -> on_rq (threads st t) = false -> (forall th, placed (f th) = placed th) -> own_inv x (upd_thread t f st).
Proof.
  intros [O1 O2 O3 O4 O5 O6 O7 O8 O9] Hoff Hf.
  assert (Hp : forall u, placed (threads (upd_thread t f st) u) = placed (threads st u)).
  { intros u. cbn. destruct (decide (u = t)) as [->|Hu]; [by rewrite fn_lookup_insert|by rewrite fn_lookup_insert_ne]. }
  constructor; [|exact O2| | |exact O5| |exact O7| |].
  - intros c u Hc. destruct (placed_fields _ _ (Hp u)) as (_ & _ & -> & _). by apply O1.
  - intros u. destruct (placed_fields _ _ (Hp u)) as (-> & _ & _ & -> & _). apply O3.
  - intros c k u. destruct (placed_fields _ _ (Hp u)) as (-> & _). apply O4.
  - intros u. destruct (placed_fields _ _ (Hp u)) as (_ & -> & _). apply O6.
  - intros u. destruct (placed_fields _ _ (Hp u)) as (_ & _ & _ & _ & _ & _ & -> & _). apply O8.
  - intros u. destruct (placed_fields _ _ (Hp u)) as (_ & _ & _ & -> & _). intros Hu. cbn.
    rewrite fn_lookup_insert_ne by (intros ->; congruence). by apply O9.
Qed.

Lemma run_field t f M : ok (x := x) M -> on_rq (thr M t) = false -> (forall th, placed (f th) = placed th) -> ok (x := x) (upd_thr t f M).
Proof.
  intros [C [[Hw [Hq Ho] Hs] I2 I3]] Hoff Hf.
  assert (Hp : forall u, placed (thr (upd_thr t f M) u) = placed (thr M u)).
  { intros u. unfold thr, schd. cbn. destruct (decide (u = t)) as [->|Hu]; [by rewrite fn_lookup_insert|by rewrite fn_lookup_insert_ne]. }
  exists C. constructor; [constructor|done|done].
  - apply (wq_frame (wst M)); try done. intros u. apply (placed_fields _ _ (Hp u)).
  - split; [|by apply own_off]. apply inv_off_queue; [done|done|]. intros th. destruct (placed_fields _ _ (Hf th)) as (_ & _ & _ & ? & ? & ? & _). by split_and!.
  - apply (sleep_frame (threads (schd M))); [done|]. intros u. apply (placed_fields _ _ (Hp u)).
Qed.

Lemma run_steady t f M : (forall th, placed (f th) = placed th) -> (forall th, fixed (f th) = fixed th) -> steady M (upd_thr t f M).
Proof.
  intros Hf Hx. assert (Ht : forall u, placed (thr (upd_thr t f M) u) = placed (thr M u) /\ fixed (thr (upd_thr t f M) u) = fixed (thr M u)).
  { intros u. unfold thr, schd. cbn. destruct (decide (u = t)) as [->|Hu]; [by rewrite fn_lookup_insert|by rewrite fn_lookup_insert_ne]. }
  constructor.
  - constructor; [done|intros u; apply Ht|done|]. intros u. destruct (Ht u) as [(_ & _ & _ & _ & _ & _ & _ & E & _)%placed_fields _].
    change (in_wait_queue (thr (upd_thr t f M) u) = true -> in_wait_queue (thr M u) = true). by rewrite E.
  - intros u. destruct (Ht u) as [(_ & _ & _ & E & _)%placed_fields _]. change (on_rq (thr (upd_thr t f M) u) = true -> on_rq (thr M u) = true \/ in_wait_queue (thr M u) = true /\ in_wait_queue (thr (upd_thr t f M) u) = false). rewrite E. auto.
  - constructor; try done. intros u. apply fixed_context, Ht.
Qed.

Lemma charge_ok t ns M : ok (x := x) M -> on_rq (thr M t) = false -> ok (x := x) (charge_ns t ns M) /\ steady M (charge_ns t ns M).
Proof.
  intros Hm Hoff. unfold charge_ns. set (f := fun th => set_vruntime_ns _ _). set (M1 := upd_thr t f M).
  assert (Hm1 : ok (x := x) M1) by (by apply run_field). assert (Hs1 : steady M M1) by (by apply run_steady).
  destruct (upd_task_ok (x := x) t (set_exec_start_ns (sum_exec_ns (thr M1 t))) M1) as [Hm2 Hs2]; [done|done|]. split; [done|by eapply steady_trans].
Qed.

(** The running thread stays the core's own. *)
Lemma claim_ok e t i h M : ok (x := x) M -> 0 <= me e -> at_core e M (Some t, i, h) -> x <> Some t ->
  ok (x := x) (claim t (me e) M) /\ steady M (claim t (me e) M).
Proof.
  intros Hm He Hk Hx. pose proof (at_core_holds _ _ _ _ _ Hk) as Hh. pose proof (ok_dinv _ Hm) as Hd. pose proof (held_off _ _ _ Hd Hh) as Hoff.
  destruct (o_cpu _ _ (proj2 Hd) _ _ Hh) as [Hcpu|]; [|done]. rewrite Z2Nat.id in Hcpu by done.
  destruct (touch_ok x t (set_running_cpu (me e)) (schd M) Hd (set_cpu_only _)) as [Hd1 Ht1]; [intros c _; by left|done|rewrite Hoff; done|].
  assert (Hoff1 : on_rq (threads (upd_thread t (set_running_cpu (me e)) (schd M)) t) = false) by (cbn; by rewrite fn_lookup_insert).
  destruct (set_state_ok x t THREAD_RUNNING _ Hd1 Hx) as (Hd2 & Ht2 & _); [by rewrite Hoff1|].
  destruct Hm as [C Hi]. destruct (sched_machine M C _ Hi Hd2) as [Hi' Hs]; [|split; [by exists C|done]].
  apply (touched_moved t); [by eapply touched_trans|]. cbn. by rewrite !fn_lookup_insert.
Qed.
End Steps.

Section Policy.
Context `{Arch} {x : option tid}.
Implicit Types (M : machine_t) (t u n : tid) (e : env) (st : sched_state_t).

(** ** Whether to switch *)

Lemma peek_total st (c : Z) : rq_inv st -> 0 <= c < MAX_CORES -> exists r, rq_peek_best st c = Some r.
Proof.
  intros Hq Hc. unfold MAX_CORES in Hc. destruct (pop_spec st (Z.to_nat c) Hq) as (r & _ & _ & _ & Hp & _); [lia|]. rewrite Z2Nat.id in Hp by lia. eauto.
Qed.

Lemma depth_total st (c : Z) : rq_inv st -> 0 <= c < MAX_CORES -> exists d, sched_rq_depth st c = Some d.
Proof.
  intros Hq Hc. unfold sched_rq_depth. rewrite (proj2 (Z.leb_gt _ _)) by lia. destruct (mload_is_Some (runqueues st) c) as [rq ->]; [rewrite (inv_rqs _ Hq); lia|].
  cbn. eauto.
Qed.

Lemma slice_total st (c : Z) : rq_inv st -> 0 <= c < MAX_CORES -> exists s, sched_target_slice_ns c st = Some s.
Proof.
  intros Hq Hc. unfold sched_target_slice_ns. destruct (cpu_load_spec st c (inv_shaped _ Hq)) as (l & -> & _); [unfold MAX_CORES in Hc; lia|]. cbn. eauto.
Qed.

Lemma better_total st t (c : Z) : rq_inv st -> 0 <= c < MAX_CORES -> exists b, sched_has_better t c st = Some b.
Proof.
  intros Hq Hc. unfold sched_has_better. rewrite (proj2 (Z.leb_gt _ _)) by lia. destruct (peek_total st c Hq Hc) as [r ->]. cbn. eauto.
Qed.

(** What the policy answers; it may mark the idle thread as running, which it is. *)
Lemma preempt_ok e t i h M : ok (x := x) M -> 0 <= me e < MAX_CORES -> at_core e M (Some t, i, h) -> x <> Some t ->
  exists b M', should_preempt e t (me e) M = Some (b, M') /\ ok (x := x) M' /\ steady M M'.
Proof.
  intros Hm He Hk Hx. unfold should_preempt. destruct (core_of_ok e M _ Hk) as (k & -> & _ & _); [lia|]. cbn [mbind option_bind].
  pose proof (proj1 (ok_dinv _ Hm)) as Hq. destruct (depth_total (schd M) (me e) Hq He) as [d ->]. cbn [mbind option_bind].
  set (M1 := if _ && _ then _ else M).
  assert (H1 : ok (x := x) M1 /\ steady M M1) by (unfold M1; destruct (_ && _); [by eapply claim_ok; [|lia|..]|split; [done|apply steady_refl]]).
  destruct H1 as [Hm1 Hs1]. clearbody M1. pose proof (proj1 (ok_dinv _ Hm1)) as Hq1. destruct (negb _); [eauto|]. destruct (bool_decide _); [eauto|].
  rewrite (allowed_total (schd M1) (Some t) (me e) Hq1). cbn [mbind option_bind]. destruct (negb _); [eauto|].
  destruct (slice_total (schd M1) (me e) Hq1 He) as [s ->]. cbn [mbind option_bind]. destruct (peek_total (schd M1) (me e) Hq1 He) as [r ->]. cbn [mbind option_bind].
  destruct (bool_decide _); [eauto|]. destruct (better_total (schd M1) t (me e) Hq1 He) as [b ->]. cbn [mbind option_bind]. eauto.
Qed.

Lemma need_switch_ok e t i h (force policy : bool) M : ok (x := x) M -> 0 <= me e < MAX_CORES -> at_core e M (Some t, i, h) -> x <> Some t ->
  exists b M', need_irq_switch e t (me e) force policy M = Some (b, M') /\ ok (x := x) M' /\ steady M M'.
Proof.
  intros Hm He Hk Hx. unfold need_irq_switch. destruct (core_of_ok e M _ Hk) as (k & -> & _ & E); [lia|]. cbn [mbind option_bind].
  destruct (_ || _); [eauto using steady_refl|]. destruct policy; [by eapply preempt_ok|eauto using steady_refl].
Qed.

Lemma charges_ok e t i h M : at_core e M (Some t, i, h) -> 0 <= me e ->
  tick_charges e t M = Some (negb (bool_decide (i = Some t)) && is_state (thr M t) THREAD_RUNNING).
Proof.
  intros Hk He. unfold tick_charges. destruct (core_of_ok e M _ Hk He) as (k & -> & _ & E). injection E as _ -> _. cbn [mbind option_bind].
  by destruct (bool_decide _).
Qed.

(** The interrupted thread's registers are saved where they lie, if they lie on its stack. *)
Lemma capture_ok e state t i h M : ok (x := x) M -> 0 <= me e < MAX_CORES -> at_core e M (Some t, i, h) -> x <> Some t ->
  exists M', sched_capture_context e state M = Some M' /\ ok (x := x) M' /\
    (M' = M \/ M' = upd_thr t (set_context state) M /\ ctx_state_valid M t state = true).
Proof.
  intros Hm He Hk Hx. unfold sched_capture_context. destruct (core_of_ok e M _ Hk) as (k & -> & _ & E); [lia|]. injection E as E1 _ _. cbn [mbind option_bind]. rewrite <- E1.
  destruct (_ || _); [eauto|]. pose proof (ok_dinv _ Hm) as Hd. pose proof (at_core_holds _ _ _ _ _ Hk) as Hh.
  destruct (owned_spec x (schd M) t Hd Hx) as (b & -> & _). cbn [mbind option_bind].
  destruct (o_cpu _ _ (proj2 Hd) _ _ Hh) as [Hcpu|]; [|done]. rewrite Z2Nat.id in Hcpu by lia. unfold thread_cpu. rewrite Hcpu, Z.eqb_refl.
  rewrite andb_false_r. cbn [negb andb]. destruct (ctx_state_valid M t state) eqn:Hv; cbn [negb]; [|eauto]. eexists. split; [done|]. split; [|by right].
  apply run_field; [done|by apply (held_off _ _ _ Hd Hh)|done].
Qed.
End Policy.

Section Choice.
Context `{Arch} {x : option tid}.
Implicit Types (M : machine_t) (t u n : tid) (e : env) (st : sched_state_t) (i cur next : ptr tid).

(** ** Whom to switch to *)

Lemma dequeue_ok_idle e cur i M : ok (x := x) M -> 0 <= me e < MAX_CORES -> at_core e M (cur, i, None) ->
  exists r M', dequeue_thread e M = ret (r, M') /\ chose (x := x) M r M'.
Proof.
  intros Hm He Hk. unfold dequeue_thread. destruct (core_of_ok e M _ Hk) as (k & Hl & _ & E); [lia|]. injection E as _ _ E.
  rewrite (flush_idle e M k Hl (eq_sym E)) by lia. unfold mbind. cbn [lift run_bind ret]. destruct (pick_anywhere_ok e M Hm He) as (r & M' & -> & Hc). eauto.
Qed.

(** The pick that never comes back empty while the core has a thread. *)
Definition offers cur i M next M' : Prop :=
  (exists r, chose (x := x) M r M' /\ (forall n, r = Some n -> next = Some n) /\
    (r = None -> next = match i with Some j => Some j | None => cur end)).

Lemma offer_ok e cur i M : ok (x := x) M -> 0 <= me e < MAX_CORES -> at_core e M (cur, i, None) ->
  exists next M', pick_next_thread e M = ret (next, M') /\ offers cur i M next M'.
Proof.
  intros Hm He Hk. unfold pick_next_thread. destruct (dequeue_ok_idle e cur i M Hm He Hk) as (r & M' & -> & Hc). unfold mbind at 1. cbn [run_bind ret].
  destruct r as [n|]; [exists (Some n), M'; split; [done|]; exists (Some n); by split_and!|].
  pose proof (at_core_steady e M M' _ (proj1 (proj2 Hc)) Hk) as Hk'. destruct (core_of_ok e M' _ Hk') as (k & Hl & _ & E); [lia|]. unfold core_of in Hl. rewrite Hl.
  injection E as E1 E2 _. unfold mbind at 1. cbn [lift run_bind ret]. eexists _, M'. split; [done|]. exists None. split_and!; [done|done|]. intros _. by rewrite <- E1, <- E2.
Qed.

(** What may be switched to: a thread out of a queue, the idle thread, or nothing but the running one. *)
Definition eligible_next t i M next : Prop := forall n, next = Some n -> n = t \/ loose (x := x) (schd M) n \/ i = Some n.

Lemma offers_eligible t i M next M' : offers (Some t) i M next M' -> eligible_next t i M' next.
Proof.
  intros (r & (_ & _ & Hr) & Hs & Hn) n ->. destruct r as [m|].
  - specialize (Hs m eq_refl). injection Hs as ->. right. left. by apply Hr.
  - specialize (Hn eq_refl). destruct i as [j|]; [right; right; done|left; congruence].
Qed.

(** The idle thread, unless it is the running one, can be resumed. *)
Definition idle_ready t i M : Prop := forall j, i = Some j -> j <> t -> ctx_valid M j = true.

Lemma idle_ready_same t i M M' : ctx_same M M' -> idle_ready t i M -> idle_ready t i M'.
Proof. intros Hs Hi j Hj Hne. rewrite (ctx_valid_same M) by done. by apply Hi. Qed.

Lemma ctx_valid_ok M t : ctx_valid M t = true -> context (thr M t) <> 0.
Proof. unfold ctx_valid. destruct (Z.eqb_spec (context (thr M t)) 0); [done|auto]. Qed.

Definition good_next t i M next : Prop := forall n, next = Some n -> n = t \/ (loose (x := x) (schd M) n \/ i = Some n) /\ ctx_valid M n = true.

Lemma valid_good t i M next : invalid_switch_target next t M = false -> eligible_next t i M next -> idle_ready t i M -> good_next t i M next.
Proof.
  intros Hv He Hi n ->. destruct (decide (n = t)) as [->|Hne]; [by left|]. right. destruct (He n eq_refl) as [|[Hl|Hj]]; [done|split; [by left|]|split; [by right|by apply Hi]].
  unfold invalid_switch_target in Hv. rewrite (proj2 (Z.eqb_neq _ _)) in Hv by done. destruct (ls_ready _ _ Hl) as [_ Hc]. unfold thread_ctx_ok in Hv.
  change (context (thr M n) <> 0) in Hc. change (threads (schd M) n) with (thr M n) in Hv. rewrite (proj2 (Z.eqb_neq _ _)) in Hv by done. cbn in Hv. by destruct (ctx_valid M n).
Qed.

Lemma invalid_loose t i M next : invalid_switch_target next t M = true -> eligible_next t i M next -> idle_ready t i M ->
  exists n, next = Some n /\ n <> t /\ loose (x := x) (schd M) n.
Proof.
  unfold invalid_switch_target. destruct next as [n|]; [|done]. destruct (_ || _) eqn:Ho; [done|]. apply orb_false_iff in Ho as [Hne _]. bool_facts.
  intros Hv He Hi. exists n. split_and!; [done|done|]. destruct (He n eq_refl) as [|[Hl|Hj]]; [done|done|]. pose proof (Hi n Hj Hne) as Hc. exfalso.
  pose proof (ctx_valid_ok _ _ Hc). rewrite Hc in Hv. rewrite (proj2 (Z.eqb_neq _ _)) in Hv by done. done.
Qed.

(** Threads with broken contexts are retired until one is found that is whole: each round takes one out of
    the queues, and the idle thread is whole. *)
Lemma retire_ok fuel e t i next M m : ok (x := x) M -> 0 <= me e < MAX_CORES -> at_core e M (Some t, i, None) ->
  eligible_next t i M next -> idle_ready t i M -> bounded m (wst M) -> (S m < fuel)%nat ->
  exists r M', retire_loop fuel e t next M = ret (r, M') /\ ok (x := x) M' /\ steady M M' /\ good_next t i M' r.
Proof.
  revert next M m. induction fuel as [|fuel IH]; intros next M m Hm He Hk Hel Hi Hb Hf; [lia|]. cbn [retire_loop].
  destruct (invalid_switch_target next t M) eqn:Hv.
  2:{ exists next, M. split_and!; [done|done|apply steady_refl|by apply valid_good]. }
  destruct (invalid_loose t i M next Hv Hel Hi) as (n & -> & Hne & Hl). unfold retire_bad.
  destruct (zombie_ok e n (- EFAULT) M Hm He (ls_stays _ _ Hl) (ls_free _ _ Hl) (ls_off _ _ Hl)) as (M1 & -> & Hm1 & Hs1). unfold mbind at 1. cbn [lift run_bind ret].
  pose proof (at_core_steady e M M1 _ Hs1 Hk) as Hk1. destruct (offer_ok e (Some t) i M1 Hm1 He Hk1) as (nx & M2 & -> & Hof). unfold mbind at 1. cbn [run_bind ret].
  pose proof (offers_eligible _ _ _ _ _ Hof) as Hel2. destruct Hof as (r & (Hm2 & Hs2 & Hr) & Hsome & Hnone).
  assert (Hb1 : bounded m (wst M1)) by (by eapply bounded_steady; [apply Hs1|apply Hs1|]).
  pose proof (steady_trans _ _ _ Hs1 Hs2) as Hs. pose proof (idle_ready_same _ _ _ _ (sy_ctx _ _ Hs) Hi) as Hi2. pose proof (at_core_steady e M M2 _ Hs Hk) as Hk2.
  destruct r as [n2|].
  - destruct (Hr n2 eq_refl) as [_ Hdec]. destruct (Hdec m Hb1) as (m' & Hlt & Hb2).
    destruct (IH nx M2 m' Hm2 He Hk2 Hel2 Hi2 Hb2) as (r & M3 & -> & Hm3 & Hs3 & Hg); [lia|]. exists r, M3. split_and!; [done|done|by eapply steady_trans|done].
  - destruct fuel as [|fuel]; [lia|]. cbn [retire_loop]. destruct (invalid_switch_target nx t M2) eqn:Hv2.
    2:{ exists nx, M2. split_and!; [done|done|done|by apply valid_good]. }
    exfalso. rewrite (Hnone eq_refl) in Hv2. destruct i as [j|]; [|unfold invalid_switch_target in Hv2; by rewrite Z.eqb_refl in Hv2].
    unfold invalid_switch_target in Hv2. destruct (Z.eqb_spec j t) as [|Hj]; [done|]. pose proof (Hi2 j eq_refl Hj) as Hc. pose proof (ctx_valid_ok _ _ Hc). rewrite Hc in Hv2.
    unfold thread_ctx_ok in Hv2. change (threads (schd M2) j) with (thr M2 j) in Hv2. rewrite (proj2 (Z.eqb_neq _ _)) in Hv2 by done. done.
Qed.

Lemma switch_choice e t i b M : ok (x := x) M -> 0 <= me e < MAX_CORES -> at_core e M (Some t, i, None) -> idle_ready t i M -> x <> Some t ->
  exists r M', pick_switch_to e t b (me e) M = ret (r, M') /\ ok (x := x) M' /\ steady M M' /\
    forall n, r = Some n -> n <> t /\ (loose (x := x) (schd M') n \/ i = Some n) /\ ctx_valid M' n = true.
Proof.
  intros Hm He Hk Hi Hx. unfold pick_switch_to.
  assert (Hp : exists nx M1, (if b then dequeue_thread e M else pick_next_thread e M) = ret (nx, M1) /\ ok (x := x) M1 /\ steady M M1 /\ eligible_next t i M1 nx).
  { destruct b.
    - destruct (dequeue_ok_idle e _ _ M Hm He Hk) as (r & M1 & -> & Hm1 & Hs1 & Hr). exists r, M1. split_and!; [done|done|done|]. intros n Hn. right. left. by apply Hr.
    - destruct (offer_ok e _ _ M Hm He Hk) as (nx & M1 & -> & Hof). exists nx, M1. split_and!; [done| | |by eapply offers_eligible]; destruct Hof as (r & (? & ? & _) & _); done. }
  destruct Hp as (nx & M1 & -> & Hm1 & Hs1 & Hel). unfold mbind at 1. cbn [run_bind ret].
  assert (Hclaim : forall M2, ok (x := x) M2 -> steady M M2 -> exists r M', ret (None, claim t (me e) M2) = ret (r, M') /\ ok (x := x) M' /\ steady M M' /\
    forall n, r = Some n -> n <> t /\ (loose (x := x) (schd M') n \/ i = Some n) /\ ctx_valid M' n = true).
  { intros M2 Hm2 Hs2. destruct (claim_ok e t i None M2 Hm2) as [Hm3 Hs3]; [lia|by eapply at_core_steady|done|]. eexists None, _. split_and!; [done|done|by eapply steady_trans|done]. }
  destruct (b && _); [by apply Hclaim|]. destruct Hm1 as [C Hi1]. destruct (pick_fuel_ok M1 C Hi1) as (m & Hb & Hf).
  destruct (retire_ok (S (pick_fuel M1)) e t i nx M1 m) as (r & M2 & -> & Hm2 & Hs2 & Hg);
    [by exists C|done|by eapply at_core_steady|done|eapply idle_ready_same; [apply Hs1|done]|done|lia|]. unfold mbind at 1. cbn [run_bind ret].
  pose proof (steady_trans _ _ _ Hs1 Hs2) as Hs. destruct (_ || _) eqn:Ho; [by apply Hclaim|]. apply orb_false_iff in Ho as [_ Ho]. apply bool_decide_eq_false in Ho.
  exists r, M2. split_and!; [done|done|done|]. intros n ->. destruct (Hg n eq_refl) as [->|[? ?]]; [done|]. split_and!; [congruence|done|done].
Qed.
End Choice.

Section Switch.
Context `{Arch} {x : option tid}.
Implicit Types (M : machine_t) (t u n : tid) (e : env) (st : sched_state_t) (i cur next : ptr tid) (c : nat).

(** ** Taking another thread *)

(** A thread that core [c] may take. *)
Record unheld st c n : Prop := {
  un_free : forall c', ~ holds st c' n;
  un_off : on_rq (threads st n) = false;
  un_idle : forall c' k, cpus st !! c' = Some k -> idle_thread k = Some n -> c' = c;
  un_stays : x <> Some n
}.

Lemma next_unheld e cur i M n : ok (x := x) M -> at_core e M (cur, i, None) -> cur <> Some n -> x <> Some n ->
  loose (x := x) (schd M) n \/ i = Some n -> unheld (schd M) (Z.to_nat (me e)) n.
Proof.
  intros Hm (k & Hk & E)%at_core_core Hne Hx Hn. injection E as E1 E2 E3. pose proof (proj2 (ok_dinv _ Hm)) as Ho. destruct Hn as [[L1 L2 L3 L4 L5]|Hj].
  - constructor; try done. intros c' k' Hk' Hi'. destruct (o_idle _ _ Ho c' k' n Hk' Hi') as [Hp _]. done.
  - destruct (o_idle _ _ Ho _ k n Hk) as [Hp Hown]; [congruence|]. constructor; [| | |done].
    + intros c' Hh. pose proof (Hown c' Hh) as ->. destruct Hh as (k' & Hk' & Ht). assert (k' = k) as -> by congruence. destruct Ht as [Ht|Ht]; congruence.
    + destruct (on_rq _) eqn:Hon; [|done]. by destruct (o_rq _ _ Ho n Hon) as [_ ?].
    + intros c' k' Hk' Hi'. eapply (o_idles _ _ Ho c' _ k' k n); [done|done|done|congruence].
Qed.

Lemma claim_dinv st c n : dinv x st -> unheld st c n -> dinv x (thread_claim n (Z.of_nat c) st) /\ touched n st (thread_claim n (Z.of_nat c) st).
Proof.
  intros Hd [U1 U2 U3 U4]. destruct (touch_ok x n (set_running_cpu (Z.of_nat c)) st Hd (set_cpu_only _)) as [Hd1 Ht1]; [intros c' Hh; by destruct (U1 c')|done|by rewrite U2|].
  destruct (set_state_ok x n THREAD_RUNNING _ Hd1 U4) as (Hd2 & Ht2 & _); [cbn; rewrite fn_lookup_insert; cbn; congruence|].
  split; [done|by eapply touched_trans].
Qed.

(** Core [c] runs [n] from now on, and may keep the threads it held for its hand-off. *)
Lemma take_dinv st c k k' n : dinv x st -> unheld st c n -> cpus st !! c = Some k -> idle_thread k' = idle_thread k -> current k' = Some n ->
  (forall u, handoff_ready k' = Some u -> holds st c u) -> dinv x (put_core c k' (thread_claim n (Z.of_nat c) st)).
Proof.
  intros Hd Hu Hk Hi Hc Hh. destruct (claim_dinv st c n Hd Hu) as [Hd1 Ht1]. pose proof Hu as [U1 U2 U3 U4].
  apply (put_core_ok x c k); [done|done|done| |].
  - intros u [Hu1|Hu1]; [|left; by apply Hh]. assert (u = n) as -> by congruence. right. split_and!; [left; cbn; by rewrite !fn_lookup_insert|exact U1| |exact U3].
    cbn. by rewrite !fn_lookup_insert.
  - intros u Hu1 Hu2. assert (u = n) as -> by congruence. by destruct (U1 c (Hh n Hu2)).
Qed.

Lemma upd_cpu_at (c : Z) f st k : cpus st !! Z.to_nat c = Some k -> 0 <= c -> upd_cpu c f st = Some (put_core (Z.to_nat c) (f k) st).
Proof.
  intros Hk Hc. assert (Hlt : 0 <= c < zlen (cpus st)) by (apply lookup_lt_Some in Hk; unfold zlen; lia). unfold upd_cpu. rewrite mload_ok by done. rewrite Hk. cbn [mbind option_bind].
  by rewrite mstore_ok.
Qed.

Lemma upd_core_at e f M k : cpus (schd M) !! Z.to_nat (me e) = Some k -> 0 <= me e ->
  upd_core e f M = Some (set_wst (set_sched (put_core (Z.to_nat (me e)) (f k) (schd M)) (wst M)) M).
Proof.
  intros Hk He. unfold upd_core, on_sched, on_wait, runs. change (sched (wst M)) with (schd M). by rewrite (upd_cpu_at (me e) f (schd M) k Hk He).
Qed.

Lemma sched_ok M st : ok (x := x) M -> dinv x st -> (forall u, drest (threads st u) = drest (threads (schd M) u)) -> ok (x := x) (set_wst (set_sched st (wst M)) M).
Proof. intros [C [I1 I2 I3]] Hd Hr. exists C. constructor; [by apply sched_step|done|done]. Qed.

Lemma drest_ctx M st : (forall u, drest (threads st u) = drest (threads (schd M) u)) -> ctx_same M (set_wst (set_sched st (wst M)) M).
Proof. intros Hr. constructor; try done. intros u. apply (drest_fields (thr M u)). apply Hr. Qed.

Lemma put_cores c k0 k st : cpus st !! c = Some k0 -> core_threads <$> cpus (put_core c k st) = <[c := core_threads k]> (core_threads <$> cpus st).
Proof. intros _. unfold put_core. cbn. apply list_fmap_insert. Qed.

(** What a switch did: the core runs [n], and has [h] to hand off. *)
Record switched e n i h M M' : Prop := {
  sd_cores : core_threads <$> cpus (schd M') = <[Z.to_nat (me e) := (Some n, i, h)]> (core_threads <$> cpus (schd M));
  sd_runs : state (thr M' n) = THREAD_RUNNING /\ running_cpu (thr M' n) = me e;
  sd_others : forall u, u <> n -> state (thr M' u) = state (thr M u);
  sd_ctx : ctx_same M M'
}.

Lemma stage_at e t M k : cpus (schd M) !! Z.to_nat (me e) = Some k -> 0 <= me e -> handoff_ready k = None ->
  stage_switch_away e t (me e) M = lift (upd_core e (set_handoff_ready (Some t)) (upd_thr t (set_running_cpu (me e)) M)).
Proof.
  intros Hk He Hh. unfold stage_switch_away. destruct (core_of_ok e M (core_threads k)) as (k' & -> & Hk' & _); [unfold at_core; by rewrite Hk|done|].
  assert (k' = k) as -> by congruence. unfold mbind at 1. cbn [lift run_bind ret]. by rewrite Hh.
Qed.

Lemma switch_ok e t n i M : ok (x := x) M -> 0 <= me e < MAX_CORES -> at_core e M (Some t, i, None) -> x <> Some t -> x <> Some n -> n <> t ->
  loose (x := x) (schd M) n \/ i = Some n ->
  exists o M', switch_to_thread e t n (me e) M = ret (o, M') /\ ok (x := x) M' /\ switched e n i (Some t) M M' /\ sw_context o = context (thr M n).
Proof.
  intros Hm He Hk Hx Hxn Hne Hn. unfold switch_to_thread. pose proof (next_unheld e _ i M n Hm Hk ltac:(congruence) Hxn Hn) as Hu.
  pose proof (at_core_holds _ _ _ _ _ Hk) as Hh. pose proof (ok_dinv _ Hm) as Hd.
  destruct (core_of_ok e M _ Hk) as (k & _ & Hck & E); [lia|]. injection E as E1 E2 E3. rewrite (stage_at e t M k Hck) by (done || lia).
  destruct (touch_ok x t (set_running_cpu (me e)) (schd M) Hd (set_cpu_only _)) as [Hd1 Ht1].
  { intros c Hc. left. destruct (o_cpu _ _ (proj2 Hd) c t Hc) as [Hr|]; [|done]. destruct (o_cpu _ _ (proj2 Hd) _ t Hh) as [Hr'|]; [|done]. cbn. lia. }
  { done. } { intros Hon. rewrite (held_off _ _ _ Hd Hh) in Hon. done. }
  set (M1 := upd_thr t (set_running_cpu (me e)) M). rewrite (upd_core_at e _ M1 k Hck) by lia. unfold mbind at 1. cbn [lift run_bind ret].
  set (M2 := set_wst _ M1). assert (Hck2 : cpus (schd M2) !! Z.to_nat (me e) = Some (set_handoff_ready (Some t) k)) by (apply list_lookup_insert_eq; exact (lookup_lt_Some _ _ _ Hck)).
  rewrite (upd_core_at e _ M2 _ Hck2) by lia. unfold mbind at 1. cbn [lift run_bind ret]. set (k' := set_current (Some n) (set_handoff_ready (Some t) k)) in *.
  set (st1 := upd_thread t (set_running_cpu (me e)) (schd M)) in *.
  set (st' := put_core (Z.to_nat (me e)) k' (thread_claim n (me e) st1)). set (M3 := claim n (me e) _).
  assert (HM3 : M3 = set_wst (set_sched st' (wst M)) M).
  { unfold M3, claim, M2, M1, st', st1, put_core. cbn. unfold schd. cbn. by rewrite list_insert_insert_eq. }
  assert (Hu1 : unheld st1 (Z.to_nat (me e)) n).
  { destruct Hu as [U1 U2 U3 U4]. constructor; try done. cbn. by rewrite fn_lookup_insert_ne by done. }
  assert (Hd' : dinv x st').
  { unfold st'. rewrite <- (Z2Nat.id (me e)) at 2 by lia. apply (take_dinv st1 _ k); [done|done|done|done|done|]. intros u Hu'. injection Hu' as <-. exact Hh. }
  assert (Hr : forall u, drest (threads st' u) = drest (threads (schd M) u)).
  { intros u. transitivity (drest (threads st1 u)); [|by apply (touched_drest t)]. unfold st'. generalize st1. intros s. cbn. destruct (decide (u = n)) as [->|Hun]; [by rewrite !fn_lookup_insert|by rewrite !fn_lookup_insert_ne]. }
  pose proof (sched_ok M st' Hm Hd' Hr) as Hm3. rewrite <- HM3 in Hm3.
  destruct (upd_task_ok (x := x) n (set_exec_start_ns (sum_exec_ns (thr M3 n))) M3) as [Hm4 Hs4]; [done|done|]. set (M4 := upd_task n _ M3) in *.
  assert (Hs3 : ctx_same M M3) by (rewrite HM3; by apply drest_ctx). assert (E4 : schd M4 = st') by (unfold M4; rewrite HM3; done).
  eexists _, _. split_and!; [done|by apply clock_ok| |].
  - constructor.
    + change (schd (count_switch M4)) with (schd M4). rewrite E4. unfold st'. rewrite (put_cores _ k) by done. by rewrite E2.
    + change (thr (count_switch M4) n) with (threads (schd M4) n). rewrite E4. cbn. by rewrite !fn_lookup_insert.
    + intros u Hun. change (thr (count_switch M4) u) with (threads (schd M4) u). rewrite E4. cbn. rewrite !fn_lookup_insert_ne by done.
      destruct (decide (u = t)) as [->|Hut]; [by rewrite fn_lookup_insert|by rewrite fn_lookup_insert_ne].
    + eapply ctx_same_trans; [exact Hs3|]. eapply ctx_same_trans; [apply Hs4|]. by constructor.
  - cbn. change (context (thr M4 n) = context (thr M n)). rewrite (cs_context _ _ (sy_ctx _ _ Hs4)). apply Hs3.
Qed.
End Switch.

Notation okm := (ok (x := None)).

Section Irq.
Context `{Arch}.
Implicit Types (M : machine_t) (t u n : tid) (e : env) (st : sched_state_t) (i h cur next : ptr tid) (ks : ptr tid * ptr tid * ptr tid).

(** ** The core's own threads through an interrupt *)

(** The core now has the threads [ks]; the other cores are as they were. *)
Definition cores_to e ks M M' : Prop := core_threads <$> cpus (schd M') = <[Z.to_nat (me e) := ks]> (core_threads <$> cpus (schd M)).

Lemma cores_to_same e ks M M' : core_threads <$> cpus (schd M') = core_threads <$> cpus (schd M) -> at_core e M ks -> cores_to e ks M M'.
Proof. intros Hc Hk. unfold cores_to. rewrite Hc, list_insert_id; [done|]. by rewrite list_lookup_fmap. Qed.

Lemma cores_to_trans e ks ks' M1 M2 M3 : cores_to e ks M1 M2 -> cores_to e ks' M2 M3 -> cores_to e ks' M1 M3.
Proof. unfold cores_to. intros -> ->. by rewrite list_insert_insert_eq. Qed.

Lemma cores_to_at e ks ks' M M' : at_core e M ks -> cores_to e ks' M M' -> at_core e M' ks'.
Proof.
  unfold at_core, cores_to. intros Hk Hc. rewrite <- list_lookup_fmap, Hc. apply list_lookup_insert_eq. rewrite <- list_lookup_fmap in Hk. by apply lookup_lt_Some in Hk.
Qed.

(** The state on the way: the core still runs [t]. *)
Record goes e t i h M M' : Prop := {
  go_ok : okm M';
  go_cores : cores_to e (Some t, i, h) M M';
  go_at : at_core e M' (Some t, i, h);
  go_idle : idle_ready t i M'
}.

Lemma goes_start e t i h M : okm M -> at_core e M (Some t, i, h) -> idle_ready t i M -> goes e t i h M M.
Proof. intros Hm Hk Hi. constructor; [done|by apply cores_to_same|done|done]. Qed.

Lemma goes_same e t i h M M1 M2 : goes e t i h M M1 -> okm M2 -> core_threads <$> cpus (schd M2) = core_threads <$> cpus (schd M1) -> ctx_same M1 M2 -> goes e t i h M M2.
Proof.
  intros [G1 G2 G3 G4] Hm Hc Hs. constructor; [done| |by eapply at_core_cores|by eapply idle_ready_same].
  eapply cores_to_trans; [exact G2|by apply cores_to_same].
Qed.

Lemma goes_steady e t i h M M1 M2 : goes e t i h M M1 -> okm M2 -> steady M1 M2 -> goes e t i h M M2.
Proof. intros Hg Hm Hs. eapply goes_same; [done|done|apply Hs|apply Hs]. Qed.

Lemma goes_flag e t i h M M1 f : goes e t i h M M1 -> 0 <= me e < MAX_CORES -> quiet_flag f -> exists M2, upd_core e f M1 = Some M2 /\ goes e t i h M M2.
Proof.
  intros Hg He Hf. destruct (core_flag e f M1 (go_ok _ _ _ _ _ _ Hg) He Hf) as (M2 & -> & Hm2 & Hs2 & _). exists M2. split; [done|by eapply goes_steady].
Qed.

Lemma goes_need e t i h M M1 (force policy : bool) : goes e t i h M M1 -> 0 <= me e < MAX_CORES ->
  exists b M2, need_irq_switch e t (me e) force policy M1 = Some (b, M2) /\ goes e t i h M M2.
Proof.
  intros Hg He. destruct (need_switch_ok (x := None) e t i h force policy M1) as (b & M2 & -> & Hm2 & Hs2); [apply Hg|done|apply Hg|done|].
  exists b, M2. split; [done|by eapply goes_steady].
Qed.

Lemma goes_capture e t i h M M1 state : goes e t i h M M1 -> 0 <= me e < MAX_CORES -> exists M2, sched_capture_context e state M1 = Some M2 /\ goes e t i h M M2.
Proof.
  intros Hg He. destruct (capture_ok (x := None) e state t i h M1) as (M2 & -> & Hm2 & Hc); [apply Hg|done|apply Hg|done|]. exists M2. split; [done|].
  destruct Hc as [->|[-> _]]; [done|]. destruct Hg as [G1 G2 G3 G4]. constructor; [done|exact G2|exact G3|]. intros j Hj Hne. rewrite <- (G4 j Hj Hne).
  unfold ctx_valid, ctx_stack_valid. replace (thr (upd_thr t (set_context state) M1) j) with (thr M1 j); [done|]. unfold thr, schd. cbn. by rewrite fn_lookup_insert_ne.
Qed.

Lemma keep_goes e t i h M M1 b : goes e t i h M M1 -> 0 <= me e < MAX_CORES -> exists M2, keep_force e b M1 = Some M2 /\ goes e t i h M M2.
Proof. intros Hg He. unfold keep_force. destruct b; [by apply goes_flag|eauto]. Qed.

Lemma goes_locked e t i h M M' : goes e t i h M M' -> goes (locked e) t i h M M'.
Proof. intros [G1 G2 G3 G4]. by constructor. Qed.

(** The thread switched away from before is published. *)
Lemma goes_flush e t i h M M1 : goes e t i h M M1 -> 0 <= me e < MAX_CORES -> exists M2, flush (locked e) M1 = ret M2 /\ goes e t i None M M2.
Proof.
  intros [G1 G2 G3 G4] He. destruct (flush_machine (x := None) (locked e) M1 G1 He) as (M2 & -> & Hm2 & Hf & Hs2 & _). exists M2. split; [done|].
  destruct (fs_cores _ _ _ Hf) as (k & Hk & Hc). assert (Hc2 : cores_to e (Some t, i, None) M1 M2).
  { unfold cores_to. change (me (locked e)) with (me e) in Hc, Hk. rewrite Hc. apply at_core_core in G3 as (k' & Hk' & E). assert (k' = k) as -> by congruence. by injection E as -> -> _. }
  constructor; [done|by eapply cores_to_trans|by eapply cores_to_at|by eapply idle_ready_same].
Qed.

(** A step of the wait queues that leaves the cores alone. *)
Lemma calm_machine x M W' C' : ok (x := x) M -> inv (x := x) W' C' -> calm (wst M) W' -> ok (x := x) (set_wst W' M) /\ ctx_same M (set_wst W' M).
Proof.
  intros (C & [I1 I2 I3]) Hi Hc. split; [exists C'; constructor; [done| |done]; by apply (ca_queues _ _ Hc)|].
  constructor; try done. intros u. apply fixed_context, (ca_fixed _ _ Hc).
Qed.

Lemma goes_sleepers e t i h M M1 now : goes e t i h M M1 -> 0 <= me e < MAX_CORES ->
  exists M2, on_wait (wake_sleepers (locked e) now) M1 = Some M2 /\ goes e t i h M M2.
Proof.
  intros Hg He. pose proof (go_ok _ _ _ _ _ _ Hg) as [C Hi]. destruct (wake_sleepers_ok (locked e) now (wst M1) C (mi_wait _ _ Hi) eq_refl He) as (W' & C' & Hw & Hi' & Hwd).
  unfold on_wait. rewrite Hw. cbn [mbind option_bind]. eexists. split; [done|]. pose proof (wd_calm _ _ _ Hwd) as Hc.
  destruct (calm_machine None M1 W' C' (go_ok _ _ _ _ _ _ Hg) Hi' Hc) as [Hm2 Hs2]. eapply goes_same; [done|done|apply Hc|done].
Qed.

Lemma goes_charge e t i h M M1 ns : goes e t i h M M1 -> goes e t i h M (charge_ns t ns M1).
Proof.
  intros Hg. pose proof (go_ok _ _ _ _ _ _ Hg) as Hm. destruct (charge_ok (x := None) t ns M1 Hm) as [Hm2 Hs2]; [|by eapply goes_steady].
  eapply (held_off (schd M1)); [by apply ok_dinv|]. eapply at_core_holds, (go_at _ _ _ _ _ _ Hg).
Qed.

(** ** The reschedule *)

(** What a reschedule leaves: the core runs on, or it runs another thread, whose saved context is whole
    and is the one jumped to. *)
Definition resched_post e t i h M (r : option switch_t) M' : Prop :=
  okm M' /\
  match r with
  | None => exists h', (h' = h \/ h' = None) /\ cores_to e (Some t, i, h') M M'
  | Some o => exists n, n <> t /\ cores_to e (Some n, i, Some t) M M' /\ state (thr M' n) = THREAD_RUNNING /\ running_cpu (thr M' n) = me e /\
      ctx_valid M' n = true /\ sw_context o = context (thr M' n)
  end.

Lemma stays_post e t i h h' M M' : h' = h \/ h' = None -> goes e t i h' M M' -> resched_post e t i h M None M'.
Proof. intros Hh [G1 G2 _ _]. split; [done|]. by exists h'. Qed.

Lemma switch_post e t i h M M1 : goes e t i None M M1 -> 0 <= me e < MAX_CORES ->
  forall b, exists r M', ('(next, M) ← pick_switch_to e t b (me e) M1;
    match next with
    | None => ret (None, M)
    | Some n => '(order, M) ← switch_to_thread e t n (me e) M; ret (Some order, M)
    end) = ret (r, M') /\ resched_post e t i h M r M'.
Proof.
  intros Hg He b. destruct (switch_choice (x := None) e t i b M1) as (r & M2 & -> & Hm2 & Hs2 & Hr); [apply Hg|done|apply Hg|apply Hg|done|].
  unfold mbind at 1. cbn [run_bind ret]. pose proof (goes_steady _ _ _ _ _ _ _ Hg Hm2 Hs2) as Hg2.
  destruct r as [n|]; [|exists None, M2; split; [done|eapply stays_post; [by right|done]]]. destruct (Hr n eq_refl) as (Hne & Hn & Hv).
  destruct (switch_ok (x := None) e t n i M2 Hm2 He (go_at _ _ _ _ _ _ Hg2)) as (o & M3 & -> & Hm3 & [S1 [S2 S2'] S3 S4] & Ho); [done|done|done|done|].
  unfold mbind at 1. cbn [run_bind ret]. exists (Some o), M3. split; [done|]. split; [done|]. exists n. split_and!; [done| |done|done| |].
  - eapply cores_to_trans; [apply (go_cores _ _ _ _ _ _ Hg2)|exact S1].
  - by rewrite (ctx_valid_same M2).
  - rewrite Ho. symmetry. apply S4.
Qed.

Lemma resched_ok e state policy free now t i h M : okm M -> 0 <= me e < MAX_CORES -> at_core e M (Some t, i, h) -> idle_ready t i M ->
  exists r M', irq_reschedule e state policy free now M = ret (r, M') /\ resched_post e t i h M r M'.
Proof.
  intros Hm He Hk Hi. unfold irq_reschedule. destruct (core_of_ok e M _ Hk) as (k & -> & _ & E); [lia|]. injection E as E1 _ _. unfold mbind at 1. cbn [lift run_bind ret].
  rewrite <- E1. pose proof (goes_start e t i h M Hm Hk Hi) as Hg0.
  assert (Hstay : forall M', goes e t i h M M' -> exists r M2, ret (None, M') = ret (r, M2) /\ resched_post e t i h M r M2).
  { intros M' Hg. exists None, M'. split; [done|]. eapply stays_post; [by left|done]. }
  destruct (state =? 0); [by apply Hstay|]. destruct (goes_capture e t i h M M state Hg0 He) as (M1 & -> & Hg1). unfold mbind at 1. cbn [lift run_bind ret].
  destruct (goes_flag e t i h M M1 (set_resched_irq false) Hg1 He) as (M2 & -> & Hg2); [done|]. unfold mbind at 1. cbn [lift run_bind ret].
  destruct (core_of_ok e M2 _ (go_at _ _ _ _ _ _ Hg2)) as (k2 & -> & _ & _); [lia|]. unfold mbind at 1. cbn [lift run_bind ret]. set (force := Sched.force_resched k2).
  destruct (goes_flag e t i h M M2 (set_force_resched false) Hg2 He) as (M3 & -> & Hg3); [done|]. unfold mbind at 1. cbn [lift run_bind ret].
  destruct (negb (preempt_depth k2 =? 0)); [by apply Hstay|].
  assert (Hlater : forall M', goes e t i h M M' -> exists r M2,
    (M' ← lift (upd_core e (set_need_resched true) M'); M' ← lift (keep_force e force M'); ret (@None switch_t, M')) = ret (r, M2) /\ resched_post e t i h M r M2).
  { intros M' Hg. destruct (goes_flag e t i h M M' (set_need_resched true) Hg He) as (M4 & -> & Hg4); [done|]. unfold mbind at 1. cbn [lift run_bind ret].
    destruct (keep_goes e t i h M M4 force Hg4 He) as (M5 & -> & Hg5). unfold mbind at 1. cbn [lift run_bind ret]. by apply Hstay. }
  destruct (0 <? sched_lock_depth k2); [by apply Hlater|].
  destruct (goes_need e t i h M M3 force policy Hg3 He) as (b & M4 & -> & Hg4). unfold mbind at 1. cbn [lift run_bind ret].
  destruct b; cbn [negb]; [|by apply Hstay]. destruct free; cbn [negb]; [|by apply Hlater].
  destruct (goes_flush e t i h M M4 Hg4 He) as (M5 & -> & Hg5). unfold mbind at 1. cbn [run_bind ret].
  destruct (goes_sleepers e t i None M M5 now Hg5 He) as (M6 & -> & Hg6). unfold mbind at 1. cbn [lift run_bind ret].
  apply goes_locked in Hg6. destruct (goes_need (locked e) t i None M M6 force policy Hg6 He) as (b & M7 & Hn7 & Hg7). change (me (locked e)) with (me e) in Hn7. rewrite Hn7. unfold mbind at 1. cbn [lift run_bind ret].
  destruct b; cbn [negb]; [|exists None, M7; split; [done|exact (stays_post (locked e) t i h None M M7 (or_intror eq_refl) Hg7)]].
  destruct (goes_flag (locked e) t i None M M7 (fun k => set_slice_ns 0 (set_resched_irq false (set_need_resched false k))) Hg7 He) as (M8 & -> & Hg8); [done|].
  unfold mbind at 1. cbn [lift run_bind ret]. rewrite (charges_ok (locked e) t i None M8 (go_at _ _ _ _ _ _ Hg8)) by (cbn; lia). unfold mbind at 1. cbn [lift run_bind ret].
  set (M9 := if _ && _ then _ else M8). assert (Hg9 : goes (locked e) t i None M M9) by (unfold M9; destruct (_ && _); [by apply goes_charge|done]). clearbody M9.
  rewrite (charges_ok (locked e) t i None M9 (go_at _ _ _ _ _ _ Hg9)) by (cbn; lia). unfold mbind at 1. cbn [lift run_bind ret].
  apply (switch_post (locked e) t i h M M9 Hg9 He).
Qed.
End Irq.

Section Ticks.
Context `{Arch}.
Implicit Types (M : machine_t) (t u n : tid) (e : env) (st : sched_state_t) (i h cur next : ptr tid) (ks : ptr tid * ptr tid * ptr tid).

(** ** The tick *)

(** The per-core counts have an entry for every core. *)
Record sized M : Prop := {
  sz_total : zlen (core_total_ticks (clock M)) = MAX_CORES;
  sz_busy : zlen (core_busy_ticks (clock M)) = MAX_CORES;
  sz_local : zlen (local_ticks (clock M)) = MAX_CORES
}.

(** A core's idle thread, while another thread runs, has a whole context to come back to. *)
Definition idle_whole e M : Prop := forall t i h, at_core e M (Some t, i, h) -> idle_ready t i M.

Lemma counted_core (l : list Z) (c : Z) : zlen l = MAX_CORES -> 0 <= c < MAX_CORES -> exists v, mload l c = Some v /\ forall w, exists l', mstore l c w = Some l' /\ zlen l' = MAX_CORES.
Proof.
  intros Hl Hc. destruct (mload_is_Some l c) as [v Hv]; [lia|]. exists v. split; [done|]. intros w. rewrite mstore_ok by lia. eexists. split; [done|].
  unfold zlen in *. by rewrite length_insert.
Qed.

Lemma goes_clock e t i h M M1 c : goes e t i h M M1 -> goes e t i h M (set_clock c M1).
Proof. intros Hg. destruct (clock_ok (x := None) c M1 (go_ok _ _ _ _ _ _ Hg)) as [Hm Hs]. by eapply goes_steady. Qed.

Lemma goes_count e t i h M M1 : goes e t i h M M1 -> 0 <= me e < MAX_CORES -> sized M1 -> exists M2, count_tick e M1 = Some M2 /\ goes e t i h M M2 /\ sized M2.
Proof.
  intros Hg He [Z1 Z2 Z3]. unfold count_tick. destruct (counted_core _ _ Z1 He) as (v & -> & Hst). cbn [mbind option_bind].
  destruct (Hst (u64_wrap (v + 1))) as (l & -> & Hl). cbn [mbind option_bind]. eexists. split; [done|]. split; [by apply goes_clock|by constructor].
Qed.

Lemma goes_busy e t i h M M1 : goes e t i h M M1 -> 0 <= me e < MAX_CORES -> sized M1 -> exists M2, count_busy e M1 = Some M2 /\ goes e t i h M M2.
Proof.
  intros Hg He [Z1 Z2 Z3]. unfold count_busy. destruct (counted_core _ _ Z2 He) as (v & -> & Hst). cbn [mbind option_bind].
  destruct (Hst (u64_wrap (v + 1))) as (l & -> & Hl). cbn [mbind option_bind]. eexists. split; [done|]. by apply goes_clock.
Qed.

Lemma goes_task e t i h M M1 u f : goes e t i h M M1 -> (forall tk, task_ctx (f tk) = task_ctx tk) -> goes e t i h M (upd_task u f M1).
Proof. intros Hg Hf. destruct (upd_task_ok (x := None) u f M1 Hf (go_ok _ _ _ _ _ _ Hg)) as [Hm Hs]. by eapply goes_steady. Qed.

Lemma tick_begin_ok e state now hz free1 free2 t i h M : okm M -> 0 <= me e < MAX_CORES -> at_core e M (Some t, i, h) -> idle_ready t i M -> sized M ->
  exists h' M', tick_begin e state now hz free1 free2 M = ret M' /\ (h' = h \/ h' = None) /\ goes e t i h' M M'.
Proof.
  intros Hm He Hk Hi Hz. unfold tick_begin. destruct (core_of_ok e M _ Hk) as (k & -> & _ & E); [lia|]. injection E as E1 _ E3. unfold mbind at 1. cbn [lift run_bind ret].
  rewrite <- E1. pose proof (goes_start e t i h M Hm Hk Hi) as Hg0. destruct (_ || _); [exists h, M; auto|].
  assert (H1 : exists h' M1, (if bool_decide (handoff_ready k = None) then ret M else if free1 then flush (locked e) M else lift (upd_core e (set_need_resched true) M)) = ret M1 /\
    (h' = h \/ h' = None) /\ goes e t i h' M M1 /\ sized M1).
  { destruct (bool_decide _); [exists h, M; auto|]. destruct free1.
    - destruct (goes_flush e t i h M M Hg0 He) as (M1 & Hf & Hg1). exists None, M1. split_and!; [done|by right|done|].
      destruct (flush_machine (x := None) (locked e) M Hm He) as (M1' & Hf' & _ & _ & _ & st & Est). rewrite Hf in Hf'. injection Hf' as <-. rewrite Est. destruct Hz. by constructor.
    - destruct (core_flag (x := None) e (set_need_resched true) M Hm He) as (M1 & Hu & Hm1 & Hs1 & _); [done|]. rewrite Hu. exists h, M1. split_and!; [done|by left|by eapply goes_steady|].
      destruct (core_of_ok e M _ Hk) as (k0 & _ & Hk0 & _); [lia|]. rewrite (upd_core_at e _ M k0 Hk0) in Hu by lia. injection Hu as <-. destruct Hz. by constructor. }
  destruct H1 as (h' & M1 & -> & Hh & Hg1 & Hz1). unfold mbind at 1. cbn [run_bind ret].
  destruct (goes_count e t i h' M M1 Hg1 He Hz1) as (M2 & -> & Hg2 & Hz2). unfold mbind at 1. cbn [lift run_bind ret].
  assert (H3 : exists M3, (if (sleep_wake_tick (clock M2) <? now) && free2 then lift (on_wait (wake_sleepers (locked e) now) (set_clock (set_sleep_wake_tick now (clock M2)) M2)) else ret M2) = ret M3 /\
    goes e t i h' M M3 /\ sized M3).
  { destruct (_ && _); [|eauto]. pose proof (goes_clock _ _ _ _ _ _ (set_sleep_wake_tick now (clock M2)) Hg2) as Hg3.
    destruct (goes_sleepers e t i h' M _ now Hg3 He) as (M3 & Hw & Hg4). rewrite Hw. exists M3. split_and!; [done|done|]. unfold on_wait in Hw.
    destruct (wake_sleepers _ _ _) as [W|]; [|done]. injection Hw as <-. destruct Hz2. by constructor. }
  destruct H3 as (M3 & -> & Hg3 & Hz3). unfold mbind at 1. cbn [run_bind ret].
  rewrite (charges_ok e t i h' M3 (go_at _ _ _ _ _ _ Hg3)) by lia. unfold mbind at 1. cbn [lift run_bind ret].
  assert (H4 : exists M4, (if negb (bool_decide (i = Some t)) && is_state (thr M3 t) THREAD_RUNNING then
      M ← lift (count_busy e M3);
      if sched_tick_ns hz =? 0 then ret (charge_thread_tick t state M)
      else lift (upd_core e (fun k => set_slice_ns (u64_wrap (slice_ns k + sched_tick_ns hz)) k) (charge_ns t (sched_tick_ns hz) (charge_thread_tick t state M))) else ret M3) = ret M4 /\ goes e t i h' M M4).
  { destruct (_ && _); [|eauto]. destruct (goes_busy e t i h' M M3 Hg3 He Hz3) as (M4 & -> & Hg4). unfold mbind at 1. cbn [lift run_bind ret].
    assert (Hg5 : goes e t i h' M (charge_thread_tick t state M4)) by (unfold charge_thread_tick; destruct (arch_signal_is_user _); by repeat apply goes_task).
    set (M5 := charge_thread_tick t state M4) in *. clearbody M5. destruct (_ =? 0); [eauto|].
    destruct (goes_flag e t i h' M _ (fun k => set_slice_ns (u64_wrap (slice_ns k + sched_tick_ns hz)) k) (goes_charge _ _ _ _ _ _ (sched_tick_ns hz) Hg5) He) as (M6 & -> & Hg6); [done|].
    eauto. }
  destruct H4 as (M4 & -> & Hg4). unfold mbind at 1. cbn [run_bind ret].
  destruct (goes_capture e t i h' M M4 state Hg4 He) as (M5 & -> & Hg5). exists h', M5. by split_and!.
Qed.

Lemma resched_idle e state policy free now i h M : at_core e M (None, i, h) -> 0 <= me e -> irq_reschedule e state policy free now M = ret (None, M).
Proof.
  intros Hk He. unfold irq_reschedule. destruct (core_of_ok e M _ Hk He) as (k & -> & _ & E). injection E as E1 _ _. unfold mbind at 1. cbn [lift run_bind ret].
  by rewrite <- E1.
Qed.

(** The counting of ticks and the balancing before the switch. *)
Lemma tick_end_ok e state now free1 free2 M : okm M -> 0 <= me e < MAX_CORES -> sized M ->
  exists M1, tick_end e state now free1 free2 M = irq_reschedule e state true free2 now M1 /\ okm M1 /\ steady M M1.
Proof.
  intros Hm He [Z1 Z2 Z3]. unfold tick_end. destruct (counted_core _ _ Z3 He) as (v & -> & Hst). unfold mbind at 1. cbn [lift run_bind ret].
  destruct (Hst (u64_wrap (v + 1))) as (l & -> & Hl). unfold mbind at 1. cbn [lift run_bind ret]. set (M1 := set_clock _ M).
  destruct (clock_ok (x := None) (set_local_ticks l (clock M)) M Hm) as [Hm1 Hs1]. fold M1 in Hm1, Hs1. clearbody M1.
  destruct (_ && _); [|unfold mbind at 1; cbn [lift run_bind ret]; eauto]. unfold on_sched, on_wait, runs.
  pose proof Hm1 as [C Hi]. destruct (rebalance_ok (x := None) (locked e) (me e) (schd M1) (ok_dinv _ Hm1) He) as (st & Hr & Hd & Hmv).
  change (sched (wst M1)) with (schd M1). rewrite Hr. cbn [mbind option_bind]. unfold mbind at 1. cbn [lift run_bind ret].
  destruct (sched_machine (x := None) M1 C st Hi Hd Hmv) as [Hi2 Hs2]. eexists. split; [done|]. split; [by exists C|by eapply steady_trans].
Qed.

Lemma yield_ok e M : okm M -> 0 <= me e < MAX_CORES -> exists M', sched_yield e M = Some M' /\ okm M' /\ steady M M'.
Proof.
  intros Hm He. unfold sched_yield, core_of. destruct (local_ok None e (schd M) (ok_dinv _ Hm) He) as (k & -> & _). cbn [mbind option_bind].
  destruct (_ || _); [eauto using steady_refl|]. destruct (slice_total (schd M) (me e) (proj1 (ok_dinv _ Hm)) He) as [s ->]. cbn [mbind option_bind].
  destruct (core_flag (x := None) e (set_slice_ns s) M Hm He) as (M1 & -> & Hm1 & Hs1 & _); [done|]. cbn [mbind option_bind].
  destruct (on_sched_flags (x := None) M1 (WaitQueue.force_resched e) Hm1) as (M2 & -> & Hm2 & Hs2 & _); [apply (force_resched_ok (x := None)); [by apply ok_dinv|done]|].
  eauto using steady_trans.
Qed.

Lemma ipi_resched_ok e M : okm M -> 0 <= me e < MAX_CORES -> exists M', sched_ipi_resched e M = Some M' /\ okm M' /\ steady M M'.
Proof.
  intros Hm He. unfold sched_ipi_resched. destruct (negb _); [eauto using steady_refl|].
  destruct (core_flag (x := None) e (set_need_resched true) M Hm He) as (M1 & -> & Hm1 & Hs1 & _); [done|]. eauto.
Qed.
Lemma preempt_disable_ok e M : okm M -> 0 <= me e < MAX_CORES -> exists M', sched_preempt_disable e M = Some M' /\ okm M'.
Proof. intros Hm He. destruct (core_flag (x := None) e (fun k => set_preempt_depth (wrap (preempt_depth k + 1)) k) M Hm He) as (M1 & Hu & Hm1 & _); [done|]. eauto. Qed.

Lemma preempt_enable_ok e M : okm M -> 0 <= me e < MAX_CORES -> exists M', sched_preempt_enable e M = Some M' /\ okm M'.
Proof.
  intros Hm He. unfold sched_preempt_enable. set (f := fun k : sched_cpu_t => if 0 <? preempt_depth k then _ else k). destruct (core_flag (x := None) e f M Hm He) as (M1 & -> & Hm1 & _).
  { intros k. unfold f. by destruct (_ <? _). }
  cbn [mbind option_bind]. unfold core_of. destruct (local_ok None e (schd M1) (ok_dinv _ Hm1) He) as (k & -> & _). cbn [mbind option_bind]. destruct (_ && _); [|eauto].
  destruct (on_sched_flags (x := None) M1 (sched_resched_local e) Hm1) as (M2 & -> & Hm2 & _); [by eapply resched_local_ok; [apply ok_dinv|]|]. eauto.
Qed.
End Ticks.

Section Exit.
Context `{Arch}.
Implicit Types (M : machine_t) (t u n self : tid) (e : env) (st : sched_state_t) (i h cur next : ptr tid) (ks : ptr tid * ptr tid * ptr tid).

(** ** A thread that ends *)

(** A zombie that waits on nothing may forget its core, until no core has it. *)
Lemma enter_exit self M : okm M -> state (thr M self) = THREAD_ZOMBIE -> in_wait_queue (thr M self) = false -> ok (x := Some self) M.
Proof.
  intros [C [[Hw [Hq [O1 O2 O3 O4 O5 O6 O7 O8 O9]] Hs] I2 I3]] Hz Hn. exists C. constructor; [constructor|done|done].
  - destruct Hw. constructor; try done. by intros ? [= <-].
  - split; [done|]. constructor; try done.
    + intros c t Hc. destruct (O1 c t Hc); [by left|done].
    + by intros ? [= <-].
    + intros c k t Hk Hc Hh. pose proof (O7 c k t Hk Hc Hh). done.
  - done.
Qed.

Lemma leave_exit self M : ok (x := Some self) M -> (forall c, ~ holds (schd M) c self) -> okm M.
Proof.
  intros [C [[Hw [Hq [O1 O2 O3 O4 O5 O6 O7 O8 O9]] Hs] I2 I3]] Hno. exists C. constructor; [constructor|done|done].
  - by destruct Hw.
  - split; [done|]. constructor; try done.
    + intros c t Hc. destruct (O1 c t Hc) as [|[= ->]]; [by left|]. by destruct (Hno c).
    + intros c k t Hk Hc Hh. pose proof (O7 c k t Hk Hc Hh) as [= ->]. destruct (Hno c). exists k. auto.
  - done.
Qed.

Lemma stage_flush e t i h cur M : at_core e M (cur, i, h) -> 0 <= me e < MAX_CORES -> h <> Some t ->
  stage_switch_away e t (me e) M = (M ← flush e M; lift (upd_core e (set_handoff_ready (Some t)) (upd_thr t (set_running_cpu (me e)) M))).
Proof.
  intros Hk He Hh. destruct (core_of_ok e M _ Hk) as (k & Hl & Hck & E); [lia|]. injection E as E1 E2 E3. destruct h as [p|].
  2:{ rewrite (stage_at e t M k Hck) by (done || lia). rewrite (flush_idle e M k Hl) by (done || lia). done. }
  unfold stage_switch_away. rewrite Hl. unfold mbind at 1. cbn [lift run_bind ret]. rewrite <- E3. rewrite (proj2 (Z.eqb_neq p t)) by congruence. cbn [negb].
  f_equal. rewrite (upd_core_at e _ M k Hck) by lia. unfold flush, sched_flush_handoff. rewrite (proj2 (Z.leb_gt _ _)) by lia. unfold core_of, local in Hl. rewrite Hl.
  pose proof (upd_cpu_at (me e) (set_handoff_ready None) (schd M) k Hck ltac:(lia)) as Hu. unfold mbind. cbn [lift run_bind ret]. rewrite <- E3, Hu. cbn [lift run_bind ret].
  by destruct (sched_publish_handoff e p (me e) _) as [[st|]|].
Qed.

Lemma flush_at x e cur i h M : ok (x := x) M -> 0 <= me e < MAX_CORES -> at_core e M (cur, i, h) ->
  exists M', flush e M = ret M' /\ ok (x := x) M' /\ cores_to e (cur, i, None) M M' /\ ctx_same M M' /\ queues (wst M') = queues (wst M) /\
    forall u, pid (thr M' u) = pid (thr M u).
Proof.
  intros Hm He Hk. destruct (flush_machine (x := x) e M Hm He) as (M2 & -> & Hm2 & Hf & Hs2 & st & Est). exists M2. split_and!; [done|done| |done|by rewrite Est|].
  - destruct (fs_cores _ _ _ Hf) as (k & Hk' & Hc). unfold cores_to. rewrite Hc. apply at_core_core in Hk as (k' & Hk & E). assert (k' = k) as -> by congruence. by injection E as -> -> _.
  - intros u. apply (drest_fields (thr M u)). apply (fs_rest _ _ _ Hf).
Qed.

(** The exiting thread is handed off to itself: the core still runs it. *)
Lemma stage_exit e self i h M : ok (x := Some self) M -> 0 <= me e < MAX_CORES -> at_core e M (Some self, i, h) -> h <> Some self ->
  exists M', stage_switch_away e self (me e) M = ret M' /\ ok (x := Some self) M' /\ cores_to e (Some self, i, Some self) M M' /\ ctx_same M M' /\
    queues (wst M') = queues (wst M) /\ forall u, pid (thr M' u) = pid (thr M u).
Proof.
  intros Hm He Hk Hh. rewrite (stage_flush e self i h _ M Hk He Hh). destruct (flush_at _ e _ i h M Hm He Hk) as (M1 & -> & Hm1 & Hc1 & Hs1 & Hq1 & Hp1).
  unfold mbind at 1. cbn [run_bind ret]. pose proof (cores_to_at _ _ _ _ _ Hk Hc1) as Hk1. destruct (core_of_ok e M1 _ Hk1) as (k & _ & Hck & E); [lia|]. injection E as E1 E2 E3.
  set (M2 := upd_thr self _ M1). rewrite (upd_core_at e _ M2 k Hck) by lia. pose proof (ok_dinv _ Hm1) as Hd1.
  destruct (touch_ok (Some self) self (set_running_cpu (me e)) (schd M1) Hd1 (set_cpu_only _)) as [Hd2 Ht2]; [intros; by right|done| |].
  { intros Hon. rewrite (held_off _ _ _ Hd1 (at_core_holds _ _ _ _ _ Hk1)) in Hon. done. }
  set (st := put_core (Z.to_nat (me e)) (set_handoff_ready (Some self) k) (schd M2)).
  assert (Hd3 : dinv (Some self) st).
  { apply (put_core_ok _ _ k); [exact Hd2|exact Hck|done| |].
    - intros u Hu. left. exists k. split; [exact Hck|]. left. cbn in Hu. destruct Hu as [Hu|[= <-]]; [done|by rewrite <- E1].
    - by intros u _ [= <-]. }
  assert (Hr : forall u, drest (threads st u) = drest (threads (schd M1) u)) by (intros u; exact (touched_drest self _ _ u Ht2)).
  change (set_wst _ M2) with (set_wst (set_sched st (wst M1)) M1). eexists. split_and!; [done|by apply sched_ok| | | |].
  - eapply cores_to_trans; [exact Hc1|]. unfold cores_to. change (schd (set_wst (set_sched st (wst M1)) M1)) with st. unfold st. rewrite (put_cores _ k) by done. by rewrite E1, E2.
  - eapply ctx_same_trans; [exact Hs1|by apply drest_ctx].
  - done.
  - intros u. rewrite <- Hp1. apply (drest_fields (thr M1 u)). apply Hr.
Qed.
End Exit.

Section Leaving.
Context `{Arch}.
Implicit Types (M : machine_t) (t u n self : tid) (e : env) (st : sched_state_t) (i h cur next : ptr tid) (ks : ptr tid * ptr tid * ptr tid).

(** ** What an exit leaves alone *)

Record same_kin M M' : Prop := {
  sk_ctx : ctx_same M M';
  sk_pid : forall u, pid (thr M' u) = pid (thr M u);
  sk_queues : forall q, is_Some (queues (wst M) !! q) -> is_Some (queues (wst M') !! q)
}.

Lemma kin_trans M1 M2 M3 : same_kin M1 M2 -> same_kin M2 M3 -> same_kin M1 M3.
Proof. intros [] []. constructor; [by eapply ctx_same_trans|congruence|auto]. Qed.

Lemma kin_steady M M' : steady M M' -> same_kin M M'.
Proof. intros [Hc _ Hs]. constructor; [done| |apply Hc]. intros u. pose proof (ca_fixed _ _ Hc u) as E. by injection E. Qed.

Lemma kin_parent M M' p : same_kin M M' -> parent_ok (wst M) p -> parent_ok (wst M') p.
Proof. intros [_ _ Hq] Hp q Hq'. by apply Hq, Hp. Qed.

(** A step of the wait queues on the way: the cores and who waits shrink at most. *)
Lemma calm_step x (m : wait_state_t -> option wait_state_t) M : ok (x := x) M ->
  (forall C, inv (x := x) (wst M) C -> exists W C', m (wst M) = Some W /\ inv (x := x) W C' /\ calm (wst M) W) ->
  exists M', on_wait m M = Some M' /\ ok (x := x) M' /\ same_kin M M' /\ calm (wst M) (wst M') /\ tasks M' = tasks M.
Proof.
  intros Hm Hst. pose proof Hm as [C Hi]. destruct (Hst C (mi_wait _ _ Hi)) as (W & C' & HW & Hi' & Hc). unfold on_wait. rewrite HW. cbn [mbind option_bind].
  destruct (calm_machine x M W C' Hm Hi' Hc) as [Hm' Hs']. eexists. split_and!; [done|done| |done|done]. constructor; [done| |apply Hc].
  intros u. pose proof (ca_fixed _ _ Hc u) as E. by injection E.
Qed.

Lemma not_waiting W W' t : calm W W' -> in_wait_queue (thread W t) = false -> in_wait_queue (thread W' t) = false.
Proof. intros Hc Hn. destruct (in_wait_queue (thread W' t)) eqn:E; [|done]. apply (ca_wait _ _ Hc) in E. congruence. Qed.

Lemma cores_calm e ks M M' : calm (wst M) (wst M') -> at_core e M ks -> at_core e M' ks /\ cores_to e ks M M'.
Proof. intros Hc Hk. split; [eapply at_core_cores; [apply Hc|done]|apply cores_to_same; [apply Hc|done]]. Qed.

Lemma zombie_mark_ok x e self ks M : ok (x := x) M -> 0 <= me e -> at_core e M ks -> exists M', exit_zombie e self M = Some M' /\ ok (x := x) M' /\ steady M M'.
Proof.
  intros Hm He Hk. unfold exit_zombie. destruct (core_of_ok e M _ Hk He) as (k & -> & _ & _). cbn [mbind option_bind]. eexists. split; [done|].
  destruct (_ && _); [|split; [done|apply steady_refl]]. set (M1 := set_zombie_list _ M).
  assert (Hm1 : ok (x := x) M1) by (destruct Hm as [C [I1 I2 I3]]; exists C; by constructor).
  assert (Hs1 : steady M M1) by (constructor; [apply calm_refl|intros u; auto|by constructor]).
  destruct (upd_task_ok (x := x) self (set_in_zombie_list true) M1) as [Hm2 Hs2]; [done|done|]. split; [done|by eapply steady_trans].
Qed.

(** From alive to handed off: in no queue, a zombie, and nobody's but this core's. *)
Lemma exit_self_ok e self reaper parent i h M : okm M -> 0 <= me e < MAX_CORES -> at_core e M (Some self, i, h) ->
  parent_ok (wst M) reaper -> parent_ok (wst M) parent -> (forall p, parent = Some p -> parent_thread p <> self) ->
  exists M', exit_self e self reaper parent M = ret M' /\ ok (x := Some self) M' /\ cores_to e (Some self, i, Some self) M M' /\ same_kin M M'.
Proof.
  intros Hm He Hk Hre Hpa Hne. unfold exit_self.
  assert (Hhs : h <> Some self). { intros ->. apply at_core_core in Hk as (k & Hk & E). injection E as E1 _ E3. pose proof (o_apart _ _ (proj2 (ok_dinv _ Hm)) _ k self Hk (eq_sym E1) (eq_sym E3)). done. }
  destruct (calm_step None (wq_dequeue self) M Hm) as (M1 & H1 & Hm1 & Hn1 & Hc1 & _).
  { intros C Hi. destruct (dequeue_ok self (wst M) C Hi) as (W & C' & HW & Hi' & Hl). exists W, C'. split_and!; [done|done|by eapply leaves_calm]. }
  assert (Hout1 : in_wait_queue (thr M1 self) = false).
  { destruct Hm as [C Hi]. destruct (dequeue_ok self (wst M) C (mi_wait _ _ Hi)) as (W & C' & HW & _ & Hl). unfold on_wait in H1. rewrite HW in H1. injection H1 as <-. apply Hl. }
  rewrite H1. unfold mbind at 1. cbn [lift run_bind ret]. destruct (calm_step None (sleep_remove self) M1 Hm1) as (M2 & -> & Hm2 & Hn2 & Hc2 & _).
  { intros C Hi. destruct (sleep_remove_ok self (wst M1) C Hi) as (W & HW & Hi' & Hr & _). exists W, C. split_and!; [done|done|by eapply acts_calm, (resleeps_acts self)]. }
  unfold mbind at 1. cbn [lift run_bind ret]. pose proof (kin_trans _ _ _ Hn1 Hn2) as Hn12. destruct (calm_step None (notify_parent e reaper) M2 Hm2) as (M3 & -> & Hm3 & Hn3 & Hc3 & _).
  { intros C Hi. destruct (notify_ok e reaper (wst M2) C Hi He) as (W & HW & (C' & Hi') & Hc); [by eapply kin_parent|done|]. exists W, C'. by split_and!. }
  unfold mbind at 1. cbn [lift run_bind ret]. pose proof (calm_trans _ _ _ Hc1 (calm_trans _ _ _ Hc2 Hc3)) as Hc. pose proof (kin_trans _ _ _ Hn12 Hn3) as Hn123.
  destruct (cores_calm e _ M M3 Hc Hk) as [Hk3 Hto3]. assert (Hout3 : in_wait_queue (thr M3 self) = false) by (apply (not_waiting (wst M1)); [by eapply calm_trans|done]).
  destruct (set_state_thr (x := None) self THREAD_ZOMBIE M3 Hm3) as [Hm4 Hs4]; [done|eapply held_off; [by apply ok_dinv|by eapply at_core_holds]|].
  set (M4 := upd_thr self (set_state THREAD_ZOMBIE) M3) in *. assert (Hz4 : state (thr M4 self) = THREAD_ZOMBIE) by (unfold M4, thr, schd; cbn; by rewrite fn_lookup_insert).
  assert (Hout4 : in_wait_queue (thr M4 self) = false) by (apply (not_waiting (wst M3)); [apply Hs4|done]). pose proof (enter_exit self M4 Hm4 Hz4 Hout4) as Hm4'.
  pose proof (at_core_steady e M3 M4 _ Hs4 Hk3) as Hk4. destruct (stage_exit e self i h M4 Hm4' He Hk4 Hhs) as (M5 & -> & Hm5 & Hto5 & Hs5 & Hq5 & Hp5).
  unfold mbind at 1. cbn [run_bind ret]. pose proof (cores_to_at _ _ _ _ _ Hk4 Hto5) as Hk5.
  assert (Hn5 : same_kin M M5). { eapply kin_trans; [exact Hn123|]. eapply kin_trans; [by apply kin_steady|]. constructor; [done|done|by rewrite Hq5]. }
  destruct (zombie_mark_ok _ e self _ M5 Hm5 ltac:(lia) Hk5) as (M6 & -> & Hm6 & Hs6). unfold mbind at 1. cbn [lift run_bind ret].
  assert (Hto6 : cores_to e (Some self, i, Some self) M M6).
  { eapply cores_to_trans; [exact Hto3|]. eapply cores_to_trans; [apply (cores_to_same e _ M3 M4); [apply Hs4|done]|]. eapply cores_to_trans; [exact Hto5|apply cores_to_same; [apply Hs6|done]]. }
  pose proof (kin_trans _ _ _ Hn5 (kin_steady _ _ Hs6)) as Hn6. destruct (user_thread _); [|by exists M6].
  destruct (calm_step (Some self) (notify_parent e parent) M6 Hm6) as (M7 & -> & Hm7 & Hn7 & Hc7 & _).
  { intros C Hi. destruct (notify_ok e parent (wst M6) C Hi He) as (W & HW & (C' & Hi') & Hc'); [by eapply kin_parent|intros p Hp [= Heq]; by apply (Hne p Hp)|]. exists W, C'. by split_and!. }
  exists M7. split_and!; [done|done| |by eapply kin_trans]. eapply cores_to_trans; [exact Hto6|]. apply (cores_calm e _ M6 M7 Hc7). exact (cores_to_at _ _ _ _ _ Hk Hto6).
Qed.

(** ** The switch for good *)

(** What an exit leaves: the core runs a thread with a whole context; no core has the one that ended. *)
Definition exit_post e self n i M (o : switch_t) M' : Prop :=
  okm M' /\ state (thr M' self) = THREAD_ZOMBIE /\ (forall c, ~ holds (schd M') c self) /\
  cores_to e (Some n, i, None) M M' /\ ctx_valid M' n = true /\ sw_context o = context (thr M' n).

(** The kernel panics exactly when the thread [n] that was picked has a broken context. *)
Definition exits e self n i M (res : run (option switch_t * machine_t)) : Prop :=
  n <> self /\ if ctx_valid M n then exists o M', res = ret (Some o, M') /\ exit_post e self n i M o M' else res = panic.

Lemma next_flushed e cur i M M1 : flush e M = ret M1 -> 0 <= me e < MAX_CORES -> at_core e M1 (cur, i, None) -> pick_next_thread e M = pick_next_thread e M1.
Proof.
  intros Hf He Hk. unfold pick_next_thread, dequeue_thread. destruct (core_of_ok e M1 _ Hk) as (k & Hl & _ & E); [lia|]. injection E as _ _ E.
  rewrite (flush_idle e M1 k Hl) by (done || lia). by rewrite Hf.
Qed.

Lemma exit_switch_ok e self p j M : ok (x := Some self) M -> 0 <= me e < MAX_CORES -> at_core e M (Some self, Some j, Some self) -> pid (thr M self) <> 0 ->
  idle_ready self (Some j) M ->
  exists n M2, pick_next_thread e M = ret (Some n, M2) /\ exits e self n (Some j) M (exit_switch e (Some self) p M).
Proof.
  intros Hm He Hk Hp Hid. unfold exit_switch. destruct (flush_at _ e _ _ _ M Hm He Hk) as (M1 & Hf & Hm1 & Hto1 & Hs1 & _ & Hp1). pose proof (cores_to_at _ _ _ _ _ Hk Hto1) as Hk1.
  rewrite (next_flushed e _ _ M M1 Hf He Hk1). destruct (offer_ok (x := Some self) e _ _ M1 Hm1 He Hk1) as (nx & M2 & Hpk & Hof). rewrite Hpk. unfold mbind at 1. cbn [run_bind ret].
  assert (Hn : exists n, nx = Some n /\ n <> self /\ ok (x := Some self) M2 /\ steady M1 M2 /\ (loose (x := Some self) (schd M2) n \/ Some j = Some n)).
  { destruct Hof as (r & (Hm2 & Hs2 & Hr) & Hsm & Hnone). destruct r as [n|].
    - exists n. destruct (Hr n eq_refl) as [Hl _]. split_and!; [by apply Hsm| |done|done|by left]. intros ->. by destruct (ls_stays _ _ Hl).
    - exists j. split_and!; [by apply Hnone| |done|done|by right]. intros ->. apply Hp. rewrite <- (Hp1 self). apply at_core_core in Hk1 as (k & Hk1 & E). injection E as _ E2 _.
      by destruct (o_idle _ _ (proj2 (ok_dinv _ Hm1)) _ k self Hk1 (eq_sym E2)). }
  destruct Hn as (n & -> & Hne & Hm2 & Hs2 & Hn). exists n, M2. split; [done|].
  set (f := fun k => set_slice_ns 0 _). destruct (core_flag (x := Some self) e f M2 Hm2 He) as (M3 & -> & Hm3 & Hs3 & Hth3 & _); [done|]. unfold mbind at 1. cbn [lift run_bind ret].
  destruct (upd_task_ok (x := Some self) n (set_exec_start_ns (sum_exec_ns (thr M3 n))) M3) as [Hm4 Hs4]; [done|done|]. set (M4 := upd_task n _ M3) in *.
  pose proof (steady_trans _ _ _ Hs3 Hs4) as Hs34. pose proof (steady_trans _ _ _ Hs2 Hs34) as Hs.
  pose proof (at_core_steady e M1 M4 _ Hs Hk1) as Hk4. assert (Hc4 : ctx_same M M4) by (eapply ctx_same_trans; [exact Hs1|apply Hs]).
  assert (Hn4 : loose (x := Some self) (schd M4) n \/ Some j = Some n).
  { destruct Hn as [Hl|]; [left|by right]. apply (loose_steady (x := Some self) M2); [done|done|done|..]; change (thr M4 n) with (threads (schd M3) n); rewrite Hth3; apply Hl. }
  assert (Hpan : thread_ctx_ok (schd M4) n && ((context (thr M4 n) =? 0) || negb (ctx_valid M4 n)) = negb (ctx_valid M n)).
  { rewrite (ctx_valid_same M M4) by done. assert (Hc : context (thr M4 n) <> 0).
    { destruct Hn4 as [Hl|[= <-]]; [exact (proj2 (ls_ready _ _ Hl))|]. apply ctx_valid_ok. rewrite (ctx_valid_same M) by done. by apply Hid. }
    unfold thread_ctx_ok. change (threads (schd M4) n) with (thr M4 n). rewrite (proj2 (Z.eqb_neq _ _)) by done. done. }
  rewrite Hpan. destruct (ctx_valid M n) eqn:Hv; cbn [negb]; [|by split; [|rewrite Hv]]. assert (Hctx : ctx_valid M4 n = true) by (by rewrite (ctx_valid_same M)).
  assert (Hun : unheld (x := Some self) (schd M4) (Z.to_nat (me e)) n) by (eapply next_unheld; [done|exact Hk4|congruence|congruence|done]).
  destruct (core_of_ok e M4 _ Hk4) as (k & _ & Hck & E); [lia|]. injection E as E1 E2 E3. rewrite (upd_core_at e _ M4 k Hck) by lia. unfold mbind at 1. cbn [lift run_bind ret].
  set (st := put_core (Z.to_nat (me e)) (set_current (Some n) k) (thread_claim n (me e) (schd M4))). set (M5 := claim n (me e) _).
  assert (HM5 : M5 = set_wst (set_sched st (wst M4)) M4) by done.
  assert (Hd5 : dinv (Some self) st).
  { unfold st. rewrite <- (Z2Nat.id (me e)) at 2 by lia. apply (take_dinv (schd M4) _ k); [by apply ok_dinv|done|done|done|done|]. cbn. intros u Hu. congruence. }
  assert (Hr5 : forall u, drest (threads st u) = drest (threads (schd M4) u)).
  { intros u. unfold st. generalize (schd M4). intros s. cbn. destruct (decide (u = n)) as [->|Hu]; [by rewrite !fn_lookup_insert|by rewrite !fn_lookup_insert_ne]. }
  pose proof (sched_ok M4 st Hm4 Hd5 Hr5) as Hm5. rewrite <- HM5 in Hm5. assert (Hs5 : ctx_same M4 M5) by (rewrite HM5; by apply drest_ctx).
  assert (Hto5 : cores_to e (Some n, Some j, None) M M5).
  { eapply cores_to_trans; [exact Hto1|]. eapply cores_to_trans; [apply (cores_to_same e _ M1 M4); [apply Hs|done]|]. unfold cores_to. rewrite HM5. change (schd (set_wst (set_sched st (wst M4)) M4)) with st.
    unfold st. rewrite (put_cores _ k) by done. by rewrite E2, E3. }
  assert (Hno : forall c, ~ holds (schd M5) c self).
  { intros c Hc. rewrite HM5 in Hc. destruct (put_core_holds _ k _ _ c self Hck Hc) as [[-> [Hx|Hx]]|[Hx Hh]]; [cbn in Hx; congruence|cbn in Hx; congruence|].
    destruct Hx. eapply (o_one _ _ (proj2 (ok_dinv _ Hm4)) c _ self); [exact Hh|by eapply at_core_holds]. }
  pose proof (leave_exit self M5 Hm5 Hno) as Hm5'. destruct (event_ok (x := None) e p M5 Hm5' He) as (M6 & -> & Hm6 & Hs6 & Hst6). unfold mbind at 1. cbn [lift run_bind ret].
  split; [done|]. rewrite Hv. eexists _, _. split; [done|]. destruct (clock_ok (x := None) (set_switch_count (u64_wrap (switch_count (clock M6) + 1)) (clock M6)) M6 Hm6) as [Hm7 Hs7].
  assert (Hcv : forall M', ctx_same M4 M' -> ctx_valid M' n = true) by (intros M' Hx; by rewrite (ctx_valid_same M4)).
  split_and!; [done| | | | |].
  - change (state (thread (wst M6) self) = THREAD_ZOMBIE). rewrite Hst6; [exact (o_exit _ _ (proj2 Hd5) self eq_refl)|]. destruct Hm5 as [C Hi5]. by apply (wi_exit _ _ (i_wait _ _ (mi_wait _ _ Hi5))).
  - intros c Hc. apply (Hno c). by apply (cores_holds _ _ _ _ (ca_cores _ _ (sy_calm _ _ Hs6))).
  - eapply cores_to_trans; [exact Hto5|]. apply (cores_to_same e _ M5); [apply Hs6|exact (cores_to_at _ _ _ _ _ Hk Hto5)].
  - apply Hcv. eapply ctx_same_trans; [exact Hs5|]. eapply ctx_same_trans; [apply Hs6|apply Hs7].
  - done.
Qed.
End Leaving.
End Ticking.
