(* ===== verification/Running.v ===== *)
(** * Histories of the running scheduler

    Interrupts, yields and exits on any core, in any order, between the waits and wake-ups of [Waiting]:
    at no point do two cores have the same thread, and no core has a thread that a run queue offers to
    others.  Then what one reschedule and one exit do. *)

From S2P Require Import Prelude Memory Outcome Errno Ring BinHeap IntrusiveHeap Sched RunQueue SchedState Dispatch LinkedList WaitQueue Waiting Picking Ticking.
From stdpp Require Import gmap functions list.
Import Ring.RingQueue RunQueue SchedState.SleepHeap Dispatch LinkedList WaitQueue Picking Ticking.
Open Scope Z_scope.

Module Running.

Section Defs.
Context `{Arch}.
Implicit Types (M : machine_t) (t self : tid) (e : env).

(** What a core does; [EFrames] is the hardware saving interrupt states. *)
Inductive sched_event :=
  | EWaits (o : Waiting.op)
  | ETickBegin (state now hz : Z) (free1 free2 : bool)
  | ETickEnd (state now : Z) (free1 free2 : bool)
  | ESoftirq (state now : Z) (lock_free : bool)
  | EIpi
  | EYield
  | EPreempt (off : bool)
  | EExit (reaper parent : option parent_t)
  | EFrames (f : Z -> frame_t).

Definition act e (o : sched_event) M : run machine_t :=
  match o with
  | EWaits o => lift (on_wait (Waiting.exec e o) M)
  | ETickBegin state now hz free1 free2 => tick_begin e state now hz free1 free2 M
  | ETickEnd state now free1 free2 => '(_, M) ← tick_end e state now free1 free2 M; ret M
  | ESoftirq state now lock_free => '(_, M) ← sched_resched_softirq e state now lock_free M; ret M
  | EIpi => lift (sched_ipi_resched e M)
  | EYield => lift (sched_yield e M)
  | EPreempt off => lift (if off then sched_preempt_disable e M else sched_preempt_enable e M)
  | EExit reaper parent => '(_, M) ← sched_exit e reaper parent M; ret M
  | EFrames f => ret (set_frames f M)
  end.

(** A thread that may exit: it is not the idle thread, its core has one to go back to, and it is not its
    own parent. *)
Definition may_exit e (reaper parent : option parent_t) M : Prop :=
  exists self j h, at_core e M (Some self, Some j, h) /\ pid (thr M self) <> 0 /\
    parent_ok (wst M) reaper /\ parent_ok (wst M) parent /\ forall p, parent = Some p -> parent_thread p <> self.

(** The addresses are those of objects, the arrays have their sizes, and a core's idle thread can be
    resumed when another thread runs. *)
Definition event_fits e (o : sched_event) M : Prop :=
  0 <= me e < MAX_CORES /\ is_Some (queues (wst M) !! exit_event_wait M) /\
  match o with
  | EWaits o => Waiting.op_ok e o (wst M)
  | ETickBegin _ _ _ _ _ | ETickEnd _ _ _ _ => sized M /\ idle_whole e M
  | ESoftirq _ _ _ => idle_whole e M
  | EExit reaper parent => may_exit e reaper parent M /\ idle_whole e M
  | _ => True
  end.

Definition stepm M M' : Prop := exists e o, event_fits e o M /\ act e o M = ret M'.

Definition ring_fits M : Prop := forall ring, exit_ring M = Some ring -> RingQueue.rq_inv ring /\ q_elem_size ring = 4.

(** The invariant of every history. *)
Definition sound M : Prop := Waiting.winv (wst M) /\ ring_fits M.
End Defs.

Section Proofs.
Context `{Arch}.
Implicit Types (M : machine_t) (t self n : tid) (e : env) (i h : ptr tid).

Lemma sound_okm M : sound M -> is_Some (queues (wst M) !! exit_event_wait M) -> okm M.
Proof. intros [[C Hi] Hr] Hq. exists C. by constructor. Qed.

Lemma okm_sound M : okm M -> sound M.
Proof. intros [C [Hi _ Hr]]. split; [by exists C|done]. Qed.

Lemma local_at e M : okm M -> 0 <= me e < MAX_CORES -> exists cur i h, at_core e M (cur, i, h).
Proof.
  intros Hm He. destruct (local_ok None e (schd M) (ok_dinv _ Hm) He) as (k & _ & Hk). exists (current k), (idle_thread k), (handoff_ready k). unfold at_core. by rewrite Hk.
Qed.

(** A reschedule on a core, whatever it runs. *)
Lemma resched_sound e state policy free now M : okm M -> 0 <= me e < MAX_CORES -> idle_whole e M ->
  exists r M', irq_reschedule e state policy free now M = ret (r, M') /\ sound M'.
Proof.
  intros Hm He Hi. destruct (local_at e M Hm He) as ([t|] & i & h & Hk).
  - destruct (resched_ok e state policy free now t i h M Hm He Hk (Hi t i h Hk)) as (r & M' & -> & Hp & _). exists r, M'. split; [done|by apply okm_sound].
  - rewrite (resched_idle e state policy free now i h M Hk) by lia. exists None, M. split; [done|by apply okm_sound].
Qed.

Lemma idle_whole_steady e M M' : steady M M' -> idle_whole e M -> idle_whole e M'.
Proof.
  intros Hs Hi t i h Hk. eapply idle_ready_same; [apply Hs|]. apply (Hi t i h). eapply at_core_cores; [|exact Hk]. symmetry. apply (ca_cores _ _ (sy_calm _ _ Hs)).
Qed.

Lemma tick_sound e state now hz free1 free2 M : okm M -> 0 <= me e < MAX_CORES -> sized M -> idle_whole e M ->
  exists M', tick_begin e state now hz free1 free2 M = ret M' /\ sound M'.
Proof.
  intros Hm He Hz Hi. destruct (local_at e M Hm He) as ([t|] & i & h & Hk).
  - destruct (tick_begin_ok e state now hz free1 free2 t i h M Hm He Hk (Hi t i h Hk) Hz) as (h' & M' & -> & _ & Hg). exists M'. split; [done|]. apply okm_sound, Hg.
  - exists M. split; [|by apply okm_sound]. unfold tick_begin. destruct (core_of_ok e M _ Hk) as (k & -> & _ & E); [lia|]. injection E as E _ _.
    unfold mbind at 1. cbn [lift run_bind ret]. by rewrite <- E.
Qed.

Lemma exit_ok e reaper parent self j h M : okm M -> 0 <= me e < MAX_CORES -> at_core e M (Some self, Some j, h) -> pid (thr M self) <> 0 -> idle_ready self (Some j) M ->
  parent_ok (wst M) reaper -> parent_ok (wst M) parent -> (forall p, parent = Some p -> parent_thread p <> self) ->
  exists M1 n M2, exit_self (locked e) self reaper parent M = ret M1 /\ pick_next_thread (locked e) M1 = ret (Some n, M2) /\
    exits e self n (Some j) M (sched_exit e reaper parent M).
Proof.
  intros Hm He Hk Hp Hi Hre Hpa Hne. unfold sched_exit. destruct (core_of_ok e M _ Hk) as (k & -> & _ & E); [lia|]. injection E as E _ _. unfold mbind at 1. cbn [lift run_bind ret].
  rewrite <- E. rewrite (proj2 (Z.eqb_neq _ _)) by done.
  destruct (exit_self_ok (locked e) self reaper parent (Some j) h M Hm He Hk Hre Hpa Hne) as (M1 & Hx1 & Hm1 & Hto1 & Hn1). rewrite Hx1. unfold mbind at 1. cbn [run_bind ret].
  pose proof (cores_to_at (locked e) _ _ M M1 Hk Hto1) as Hk1.
  destruct (exit_switch_ok (locked e) self (pid (thr M self)) j M1 Hm1 He Hk1) as (n & M2 & Hpk & Hne' & Hx).
  - by rewrite (sk_pid _ _ Hn1).
  - eapply idle_ready_same; [apply Hn1|done].
  - exists M1, n, M2. split; [done|]. split; [done|]. split; [done|]. rewrite <- (ctx_valid_same M M1) by apply Hn1. destruct (ctx_valid M1 n); [|done].
    destruct Hx as (o & M3 & Hx & P1 & P2 & P3 & P4 & P5 & P6). exists o, M3. split; [done|]. split_and!; try done. exact (cores_to_trans (locked e) _ _ M M1 M3 Hto1 P4).
Qed.

Lemma act_ok e o M : sound M -> event_fits e o M -> (exists M', act e o M = ret M' /\ sound M') \/ act e o M = panic /\ exists reaper parent, o = EExit reaper parent.
Proof.
  intros Hs (He & Hq & Ho). pose proof (sound_okm M Hs Hq) as Hm.
  assert (Hpair : forall (m : run (option switch_t * machine_t)), (exists r M', m = ret (r, M') /\ sound M') -> exists M', ('(_, M) ← m; ret M) = ret M' /\ sound M').
  { intros m (r & M' & -> & HM). by exists M'. }
  destruct o as [o|state now hz free1 free2|state now free1 free2|state now lock_free| | |off|reaper parent|f]; cbn [act]; cbn in Ho.
  - left. destruct Hs as [[C Hi] Hr]. destruct (Waiting.wait_exec_ok e o (wst M) C Hi Ho) as (W & HW & Hw). unfold on_wait. rewrite HW. cbn [mbind option_bind lift]. by exists (set_wst W M).
  - left. destruct Ho. by apply tick_sound.
  - left. destruct Ho as [Hz Hi]. apply Hpair. destruct (tick_end_ok e state now free1 free2 M Hm He Hz) as (M1 & -> & Hm1 & Hs1). apply resched_sound; [done|done|by eapply idle_whole_steady].
  - left. apply Hpair. unfold sched_resched_softirq. destruct (_ || _); [by exists None, M|by apply resched_sound].
  - left. destruct (ipi_resched_ok e M Hm He) as (M' & -> & Hm' & _). exists M'. split; [done|by apply okm_sound].
  - left. destruct (yield_ok e M Hm He) as (M' & -> & Hm' & _). exists M'. split; [done|by apply okm_sound].
  - left. destruct off; [destruct (preempt_disable_ok e M Hm He) as (M' & -> & Hm')|destruct (preempt_enable_ok e M Hm He) as (M' & -> & Hm')];
      (exists M'; split; [done|by apply okm_sound]).
  - destruct Ho as [(self & j & h & Hk & Hp & H1 & H2 & H3) Hi].
    destruct (exit_ok e reaper parent self j h M Hm He Hk Hp (Hi _ _ _ Hk) H1 H2 H3) as (M1 & n & M2 & _ & _ & _ & Hx).
    destruct (ctx_valid M n); [destruct Hx as (o & M' & -> & Hm' & _); left; exists M'; split; [done|by apply okm_sound]|rewrite Hx; right; eauto].
  - left. by exists (set_frames f M).
Qed.

Lemma stepm_sound M M' : sound M -> rtc stepm M M' -> sound M'.
Proof.
  intros Hs Hr. induction Hr as [|M M1 M2 (e & o & Ho & Ha) _ IH]; [done|]. apply IH. destruct (act_ok e o M Hs Ho) as [(M' & Ha' & Hs')|[Ha' _]]; rewrite Ha in Ha'; [by injection Ha' as ->|done].
Qed.

Lemma cores_others e ks M M' c : cores_to e ks M M' -> c <> Z.to_nat (me e) -> core_threads <$> cpus (schd M') !! c = core_threads <$> cpus (schd M) !! c.
Proof. intros Hc Hne. rewrite <- !list_lookup_fmap, Hc. by rewrite list_lookup_insert_ne. Qed.
End Proofs.

(** ** The theorems *)

Section Claims.
Context `{Arch}.

(** C11: In every history of timer ticks, software interrupts, yields, exits, preemption being switched off and on, waits, wake-ups and balancing
    on any of the cores after boot, no thread is on two cores, or on a core and in a run queue; a core's
    threads name it in [running_cpu], the run queues hold ready threads, the wait queues and the sleep
    queue agree with the threads.  Every operation returns: the loops that pick a thread and that retire
    broken ones end; only an exit may panic, on a broken context. *)
Theorem one_core_per_thread M M' :
  Waiting.booted (wst M) -> ring_fits M -> rtc stepm M M' ->
  Waiting.consistent (wst M') /\
  forall e o, event_fits e o M' ->
    (exists M2, act e o M' = ret M2 /\ Waiting.consistent (wst M2)) \/ (act e o M' = panic /\ exists reaper parent, o = EExit reaper parent).
Proof.
  intros Hb Hr Hs. assert (HM : sound M') by (apply (stepm_sound M); [split; [exists ∅; by apply Waiting.booted_inv|done]|done]).
  pose proof HM as [[C Hi] _]. split; [by eapply Waiting.inv_consistent|]. intros e o Ho. destruct (act_ok e o M' HM Ho) as [(M2 & Ha & [[C2 Hi2] _])|Hp]; [left|by right].
  exists M2. split; [done|by eapply Waiting.inv_consistent].
Qed.

(** C16: A reschedule goes on with the running thread or switches: then the core runs another thread, in
    state [THREAD_RUNNING] and marked as this core's, whose saved context is whole and is the one jumped
    to; the thread switched away from is kept for the hand-off.  The other cores keep their threads. *)
Theorem resched_resumes_whole e state policy free now t i h M :
  sound M -> is_Some (queues (wst M) !! exit_event_wait M) -> 0 <= me e < MAX_CORES -> at_core e M (Some t, i, h) -> idle_whole e M ->
  exists r M', irq_reschedule e state policy free now M = ret (r, M') /\ sound M' /\
    (forall c, c <> Z.to_nat (me e) -> core_threads <$> cpus (schd M') !! c = core_threads <$> cpus (schd M) !! c) /\
    match r with
    | None => at_core e M' (Some t, i, h) \/ at_core e M' (Some t, i, None)
    | Some o => exists n, n <> t /\ at_core e M' (Some n, i, Some t) /\ Sched.state (thr M' n) = THREAD_RUNNING /\
        running_cpu (thr M' n) = me e /\ ctx_valid M' n = true /\ sw_context o = context (thr M' n)
    end.
Proof.
  intros Hs Hq He Hk Hi. destruct (resched_ok e state policy free now t i h M (sound_okm M Hs Hq) He Hk (Hi t i h Hk)) as (r & M' & Hr & Hm & Hp).
  exists r, M'. split; [done|]. split; [by apply okm_sound|]. destruct r as [o|].
  - destruct Hp as (n & Hne & Hc & P). split; [intros c; by eapply cores_others|]. exists n. split; [done|]. split; [by eapply cores_to_at|done].
  - destruct Hp as (h' & Hh & Hc). split; [intros c; by eapply cores_others|]. pose proof (cores_to_at _ _ _ _ _ Hk Hc) as Hk'. destruct Hh as [-> | ->]; auto.
Qed.

End Claims.

(** ** A concrete machine: thread 5 runs on core 0, whose idle thread is 8 *)

#[local] Existing Instance arch64.

Definition demo_thread (t : tid) : sched_thread_t :=
  if t =? 5 then set_running_cpu 0 (set_state THREAD_RUNNING (RunQueue.demo_thread t))
  else if t =? 8 then mk_thread 0 THREAD_READY 0 0 0 0 0 false false UINT32_MAX false 5120 0 false 0 (-1)
  else RunQueue.demo_thread t.

Definition demo_sched : sched_state_t :=
  set_cpus (mk_cpu (Some 5) (Some 8) None 0 0 0 false false false :: replicate 63 (mk_cpu None None None 0 0 0 false false false))
    (set_threads demo_thread RunQueue.demo).

Definition demo_wait : wait_state_t :=
  mk_wait demo_sched (fun _ => mk_waiter None 0 0 3 0 0 0 0 false) (mk_sleep (replicate (Z.to_nat SCHED_SLEEP_CAPACITY) None) 0)
    (mk_heap {[5 := mk_node 0 None None None]} ∅) {[1 := mk_queue None 0 0 false; 2 := mk_queue None 0 0 false]} 2 0.

(** Every stack is 4096 bytes at 4096; interrupt states are those of the kernel. *)
Definition demo0 : machine_t :=
  mk_machine demo_wait (fun _ => mk_task 0 false 4096 4096 false 0 0 0 0 0 0 0 0 false)
    (fun _ => mk_frame (arch_kernel_vaddr_base + 4096) GDT_KERNEL_CODE 2 0 0) 0 (Some []) None 1
    (mk_clock 0 0 0 (replicate 64 0) (replicate 64 0) (replicate 64 0) 0).

Lemma run_demo_fields t : (running_cpu (demo_thread t), on_rq (demo_thread t), in_run_queue (demo_thread t), rq_index (demo_thread t), sleep_queued (demo_thread t),
    in_wait_queue (demo_thread t), last_cpu (demo_thread t)) =
  (if t =? 5 then 0 else -1, false, false, UINT32_MAX, false, false, 0).
Proof. unfold demo_thread. destruct (t =? 5); [done|]. by destruct (t =? 8). Qed.

Lemma run_demo_core c k : cpus demo_sched !! c = Some k ->
  handoff_ready k = None /\ (forall t, current k = Some t -> c = 0%nat /\ t = 5) /\ forall t, idle_thread k = Some t -> c = 0%nat /\ t = 8.
Proof.
  destruct c as [|c]; [intros [= <-]; split_and!; [done|by intros t [= <-]|by intros t [= <-]]|].
  change (replicate 63 (mk_cpu None None None 0 0 0 false false false) !! c = Some k -> handoff_ready k = None /\ (forall t, current k = Some t -> S c = 0%nat /\ t = 5) /\
    forall t, idle_thread k = Some t -> S c = 0%nat /\ t = 8).
  intros [-> _]%lookup_replicate. by split_and!.
Qed.

Lemma run_demo_own : own_inv None demo_sched.
Proof.
  assert (Hh : forall c t, holds demo_sched c t -> c = 0%nat /\ t = 5).
  { intros c t (k & Hk & Ht). destruct (run_demo_core c k Hk) as (Hn & Hc & _). destruct Ht as [Ht|Ht]; [by apply Hc|congruence]. }
  assert (Hoff : forall t, on_rq (threads demo_sched t) = true -> False).
  { intros t Ht. change (on_rq (demo_thread t) = true) in Ht. injection (run_demo_fields t) as _ E _ _ _ _ _. congruence. }
  constructor.
  - intros c t Ht. left. by destruct (Hh c t Ht) as [-> ->].
  - intros c c' t H1 H2. by destruct (Hh _ _ H1) as [-> _], (Hh _ _ H2) as [-> _].
  - intros t Ht. by destruct (Hoff t).
  - intros c k t Hk Hi. destruct (run_demo_core c k Hk) as (_ & _ & Hn). destruct (Hn t Hi) as [-> ->]. split; [done|]. intros c' Hc. by destruct (Hh _ _ Hc).
  - intros c c' k k' t Hk Hk' Hi Hi'. destruct (run_demo_core c k Hk) as (_ & _ & Hn), (run_demo_core c' k' Hk') as (_ & _ & Hn'). destruct (Hn t Hi) as [-> _], (Hn' t Hi') as [-> _]. done.
  - done.
  - intros c k t Hk _ Hi. destruct (run_demo_core c k Hk) as (Hn & _). congruence.
  - intros t. change (0 <= last_cpu (demo_thread t)). by injection (run_demo_fields t) as _ _ _ _ _ _ ->.
  - intros t Ht. by destruct (Hoff t).
Qed.

Lemma demo_boot : Waiting.booted (wst demo0).
Proof.
  constructor; try done.
  - constructor; try done. intros t. change (on_rq (demo_thread t) = false /\ in_run_queue (demo_thread t) = false /\ rq_index (demo_thread t) = UINT32_MAX).
    by injection (run_demo_fields t) as _ -> -> -> _ _ _.
  - exact run_demo_own.
  - intros t. change (sleep_queued (demo_thread t) = false /\ in_wait_queue (demo_thread t) = false). by injection (run_demo_fields t) as _ _ _ _ -> -> _.
  - intros q wq Hq. cbn in Hq. apply lookup_insert_Some in Hq as [[_ <-]|[_ Hq]]; [done|]. by apply lookup_singleton_Some in Hq as [_ <-].
  - intros n nd Hn. cbn in Hn. pose proof (eq_refl : 2 ^ 64 = SIZE_MOD). apply lookup_singleton_Some in Hn as [<- <-]. split_and!; [lia|lia|done..].
Qed.

Lemma demo_sound : sound demo0.
Proof. split; [exists ∅; apply Waiting.booted_inv, demo_boot|]. by intros ring. Qed.

Definition core (c : Z) : env := mk_env c true (fun _ => true).

Lemma core_range : 0 <= me (core 0) < MAX_CORES.
Proof. by vm_compute. Qed.

(** Queue 1 gets a list; thread 5 waits on it until tick 50. *)
Definition after (o : sched_event) (M : machine_t) : machine_t := match act (core 0) o M with Some (Done M) => M | _ => M end.
Definition demo1 : machine_t := after (EWaits (Waiting.OInit (Some 100) 1)) demo0.
Definition demo2 : machine_t := after (EWaits (Waiting.OWait false (Some 1) 0 50 0)) demo1.

Lemma run_demo_step o M : sound M -> event_fits (core 0) o M -> (forall reaper parent, o <> EExit reaper parent) -> stepm M (after o M).
Proof.
  intros Hs Ho Hne. exists (core 0), o. split; [done|]. unfold after. destruct (act_ok (core 0) o M Hs Ho) as [(M' & -> & _)|[_ (r & p & ->)]]; [done|]. by destruct (Hne r p).
Qed.

Lemma demo1_stepm : rtc stepm demo0 demo1.
Proof.
  apply rtc_once, run_demo_step; [exact demo_sound| |done]. split; [exact core_range|]. split; [by eexists|]. split; [exact core_range|]. split; [by eexists|]. intros a [= <-]. done.
Qed.

Lemma demo2_stepm : rtc stepm demo0 demo2.
Proof.
  eapply rtc_r; [exact demo1_stepm|]. apply run_demo_step; [exact (stepm_sound _ _ demo_sound demo1_stepm)| |done].
  split; [exact core_range|]. split; [vm_compute; by eexists|]. split; [exact core_range|]. split; [intros q [= <-]; vm_compute; by eexists|].
  intros k t Hk. assert (Hc : current <$> local (core 0) (sched (wst demo1)) = Some (Some 5)) by (vm_compute; reflexivity). rewrite Hk in Hc. injection Hc as ->.
  intros [= <-]. vm_compute. by eexists.
Qed.

Lemma demo2_core : at_core (core 0) demo2 (Some 5, Some 8, None).
Proof. vm_compute. reflexivity. Qed.

Lemma demo_whole M : at_core (core 0) M (Some 5, Some 8, None) -> ctx_valid M 8 = true -> idle_whole (core 0) M.
Proof. intros Hk Hv t i h Hk'. unfold at_core in *. rewrite Hk in Hk'. injection Hk' as <- <- <-. by intros j [= <-]. Qed.

Lemma demo2_whole : idle_whole (core 0) demo2.
Proof. apply demo_whole; [exact demo2_core|vm_compute; reflexivity]. Qed.

Lemma demo2_event : is_Some (queues (wst demo2) !! exit_event_wait demo2).
Proof. vm_compute. by eexists. Qed.

(** With thread 5 asleep, a software interrupt at 5000 finds nothing but the idle thread. *)
Lemma one_core_per_thread_witness :
  rtc stepm demo0 demo2 /\ Waiting.consistent (wst demo2) /\ exists M2, act (core 0) (ESoftirq 5000 20 true) demo2 = ret M2 /\ Waiting.consistent (wst M2).
Proof.
  split; [exact demo2_stepm|]. destruct (one_core_per_thread demo0 demo2 demo_boot (proj2 demo_sound) demo2_stepm) as [Hc Ha]. split; [exact Hc|].
  destruct (Ha (core 0) (ESoftirq 5000 20 true)) as [Hr|[_ (r & p & Hbad)]]; [|exact Hr|discriminate Hbad].
  split; [exact core_range|]. split; [exact demo2_event|exact demo2_whole].
Defined.

Lemma resched_resumes_whole_witness :
  (match irq_reschedule (core 0) 5000 true true 20 demo2 with Some (Done (Some o, _)) => sw_context o | _ => 0 end) = 5120 /\
  exists r M', irq_reschedule (core 0) 5000 true true 20 demo2 = ret (r, M') /\ sound M'.
Proof.
  split; [vm_compute; reflexivity|].
  destruct (resched_resumes_whole (core 0) 5000 true true 20 5 (Some 8) None demo2 (stepm_sound _ _ demo_sound demo2_stepm) demo2_event core_range demo2_core demo2_whole)
    as (r & M' & Hr & Hs & _).
  exists r, M'. split; [exact Hr|exact Hs].
Defined.

End Running.
