(* ===== verification/Locks.v ===== *)
(** * Spin locks and mutexes

    [kernel/sys/lock.h] and [lock.c], in the build without lock debugging, with the scheduler running.  The
    cores' steps interleave freely: a spin lock is a word that cores test and set, a mutex is a flag
    under a spin lock, with a wait queue for the threads that found it taken.  Of the wait queue the mutex
    needs what the class [wait_queues] says, and no more; the queues of [WaitQueue] are an instance. *)

From S2P Require Import Prelude Memory Outcome Errno BinHeap IntrusiveHeap Sched RunQueue SchedState Dispatch LinkedList WaitQueue Waiting.
From stdpp Require Import gmap functions list.
Open Scope Z_scope.

(** ** Spin locks *)

Module SpinLock.

(** The words of the locks, [lock_spin_held_depth], the cores' [preempt_depth]; and, for the theorems,
    which core has taken which lock and which core spins for which. *)
Record spin_state := mk_spins {
  word : Z -> Z;
  lock_spin_held_depth : nat -> Z;
  preempt : nat -> Z;
  taken : list (nat * Z);
  spinning : list (nat * Z)
}.

Section Defs.
Context `{Arch}.
Implicit Types (s : spin_state) (c : nat) (l : Z).

(** [__sync_lock_test_and_set(&lock->state, 1)]: whether the lock was free. *)
Definition test_and_set l s : bool * spin_state :=
  (word s l =? 0, mk_spins (<[l := 1]> (word s)) (lock_spin_held_depth s) (preempt s) (taken s) (spinning s)).

(** With a thread on the core.  The reschedule that turning preemption on may ask for is
    [sched_preempt_enable] of [Ticking]. *)
Definition lock_preempt_disable c s : spin_state :=
  mk_spins (word s) (lock_spin_held_depth s) (<[c := wrap (preempt s c + 1)]> (preempt s)) (taken s) (spinning s).

Definition lock_preempt_enable c s : spin_state :=
  mk_spins (word s) (lock_spin_held_depth s) (<[c := if 0 <? preempt s c then preempt s c - 1 else preempt s c]> (preempt s)) (taken s) (spinning s).

Definition add_depth c (d : Z) s : spin_state :=
  mk_spins (word s) (<[c := u32_wrap (lock_spin_held_depth s c + d)]> (lock_spin_held_depth s)) (preempt s) (taken s) (spinning s).

Definition record (t w : list (nat * Z)) s : spin_state := mk_spins (word s) (lock_spin_held_depth s) (preempt s) t w.

(** [spin_lock] up to its loop, and one round of the loop. *)
Definition spin_lock_begin c l s : spin_state :=
  let s := lock_preempt_disable c s in record (taken s) ((c, l) :: spinning s) s.

Definition spin_lock_round c l s : bool * spin_state :=
  let '(free, s) := test_and_set l s in
  if free then (true, add_depth c 1 (record ((c, l) :: taken s) (filter (fun p => p <> (c, l)) (spinning s)) s)) else (false, s).

Definition spin_try_lock c (lock : ptr Z) s : bool * spin_state :=
  match lock with
  | None => (false, s)
  | Some l =>
      let '(free, s) := test_and_set l (lock_preempt_disable c s) in
      if free then (true, add_depth c 1 (record ((c, l) :: taken s) (spinning s) s)) else (false, lock_preempt_enable c s)
  end.

Definition spin_unlock c (lock : ptr Z) s : spin_state :=
  match lock with
  | None => s
  | Some l =>
      let depth_prev := lock_spin_held_depth s c in
      let s := add_depth c (-1) s in
      let s := if depth_prev =? 0 then add_depth c 1 s else s in
      let s := mk_spins (<[l := 0]> (word s)) (lock_spin_held_depth s) (preempt s) (filter (fun p => p <> (c, l)) (taken s)) (spinning s) in
      lock_preempt_enable c s
  end.

Definition lock_spin_held c s : bool := negb (lock_spin_held_depth s c =? 0).

(** Steps of the cores.  A core spins for one lock at a time, unlocks what it took, and takes fewer than
    2^32 locks. *)
Definition room s : Prop := zlen (taken s) + zlen (spinning s) < 2 ^ 32 - 1.

Inductive spin_step s : spin_state -> Prop :=
  | sp_begin c l : room s -> (forall l', (c, l') ∉ spinning s) -> spin_step s (spin_lock_begin c l s)
  | sp_round c l : (c, l) ∈ spinning s -> spin_step s (spin_lock_round c l s).2
  | sp_try c lock : room s -> spin_step s (spin_try_lock c lock s).2
  | sp_unlock c l : (c, l) ∈ taken s -> spin_step s (spin_unlock c (Some l) s).

Definition spin_fresh s : Prop :=
  (forall l, word s l = 0) /\ (forall c, lock_spin_held_depth s c = 0 /\ preempt s c = 0) /\ taken s = [] /\ spinning s = [].

(** How many entries of a list are the core's. *)
Definition of_core c (ps : list (nat * Z)) : Z := zlen (filter (fun p => p.1 = c) ps).
End Defs.

Section Proofs.
Context `{Arch}.
Implicit Types (s : spin_state) (c : nat) (l : Z) (ps : list (nat * Z)).

Record spin_inv s : Prop := {
  sv_one : forall l c c', (c, l) ∈ taken s -> (c', l) ∈ taken s -> c = c';
  sv_nodup : NoDup (taken s) /\ NoDup (spinning s);
  sv_word : forall l, word s l <> 0 <-> exists c, (c, l) ∈ taken s;
  sv_depth : forall c, lock_spin_held_depth s c = of_core c (taken s);
  sv_preempt : forall c, preempt s c = of_core c (taken s) + of_core c (spinning s);
  sv_room : zlen (taken s) + zlen (spinning s) < 2 ^ 32
}.

Lemma of_core_cons c p ps : of_core c (p :: ps) = (if decide (p.1 = c) then 1 else 0) + of_core c ps.
Proof. unfold of_core. rewrite filter_cons. unfold zlen. case_decide; cbn [length]; lia. Qed.

Lemma of_core_le c ps : 0 <= of_core c ps <= zlen ps.
Proof. unfold of_core, zlen. pose proof (length_filter (fun p : nat * Z => p.1 = c) ps). lia. Qed.

Lemma drop_one (ps : list (nat * Z)) p : NoDup ps -> p ∈ ps -> ps ≡ₚ p :: filter (fun r => r <> p) ps.
Proof.
  intros Hn Hp. apply NoDup_Permutation; [done| |].
  - constructor; [by rewrite list_elem_of_filter; intros [? _]|by apply NoDup_filter].
  - intros r. rewrite elem_of_cons, list_elem_of_filter. destruct (decide (r = p)) as [->|]; naive_solver.
Qed.

Lemma of_core_drop c ps p : NoDup ps -> p ∈ ps -> of_core c ps = (if decide (p.1 = c) then 1 else 0) + of_core c (filter (fun r => r <> p) ps).
Proof.
  intros Hn Hp. rewrite <- of_core_cons. unfold of_core, zlen. f_equal. apply Permutation_length, filter_Permutation, drop_one; done.
Qed.

Lemma zlen_drop ps p : NoDup ps -> p ∈ ps -> zlen ps = 1 + zlen (filter (fun r => r <> p) ps).
Proof. intros Hn Hp. unfold zlen. pose proof (Permutation_length (drop_one ps p Hn Hp)) as E. cbn [length] in E. lia. Qed.

Lemma wrap_count n : 0 <= n < 2 ^ 32 -> wrap n = n.
Proof. intros Hn. unfold wrap. pose proof SIZE_MOD_ge. rewrite Z.mod_small; [done|]. lia. Qed.
(** Taking a free lock. *)
Lemma word_take s l c : spin_inv s -> word s l = 0 -> forall l', <[l := 1]> (word s) l' <> 0 <-> exists c', (c', l') ∈ (c, l) :: taken s.
Proof.
  intros Hi Hw l'. destruct (decide (l' = l)) as [->|Hne].
  - rewrite fn_lookup_insert. split; [intros _; exists c; by left|done].
  - rewrite fn_lookup_insert_ne by done. rewrite (sv_word _ Hi l'). split; intros [c' Hc]; exists c'; [by right|]. apply elem_of_cons in Hc as [[= -> ->]|]; done.
Qed.

Lemma free_untaken s l : spin_inv s -> word s l = 0 -> forall c, (c, l) ∉ taken s.
Proof. intros Hi Hw c Hc. assert (word s l <> 0) by (apply (sv_word _ Hi); eauto). done. Qed.

(** Testing a lock that is taken changes nothing. *)
Lemma word_same s l : spin_inv s -> word s l <> 0 -> forall l', <[l := 1]> (word s) l' <> 0 <-> exists c', (c', l') ∈ taken s.
Proof.
  intros Hi Hw l'. destruct (decide (l' = l)) as [->|Hne]; [rewrite fn_lookup_insert|rewrite fn_lookup_insert_ne by done; apply (sv_word _ Hi)].
  split; [intros _; by apply (sv_word _ Hi)|done].
Qed.

Lemma take_inv s c l w p : spin_inv s -> word s l = 0 -> NoDup w -> zlen (taken s) + 1 + zlen w < 2 ^ 32 ->
  (forall c', p c' = of_core c' ((c, l) :: taken s) + of_core c' w) ->
  spin_inv (mk_spins (<[l := 1]> (word s)) (<[c := u32_wrap (lock_spin_held_depth s c + 1)]> (lock_spin_held_depth s)) p ((c, l) :: taken s) w).
Proof.
  intros Hi Hw Hn Hr Hp. pose proof (free_untaken s l Hi Hw) as Hfree. pose proof (zlen_nonneg w).
  assert (Hzl : zlen ((c, l) :: taken s) = zlen (taken s) + 1) by (unfold zlen; cbn [length]; lia).
  constructor; cbn [taken spinning word lock_spin_held_depth preempt].
  - intros l' c1 c2 [E1|H1]%elem_of_cons [E2|H2]%elem_of_cons.
    + congruence.
    + injection E1 as -> ->. by destruct (Hfree c2).
    + injection E2 as -> ->. by destruct (Hfree c1).
    + by apply (sv_one _ Hi l').
  - split; [constructor; [apply Hfree|apply Hi]|done].
  - by apply word_take.
  - intros c'. destruct (decide (c' = c)) as [->|Hne].
    + rewrite fn_lookup_insert, (sv_depth _ Hi), of_core_cons. cbn. rewrite decide_True by done. pose proof (of_core_le c (taken s)).
      rewrite u32_wrap_small; lia.
    + rewrite fn_lookup_insert_ne by done. rewrite (sv_depth _ Hi), of_core_cons. cbn. rewrite decide_False by done. lia.
  - exact Hp.
  - lia.
Qed.
Lemma begin_inv s c l : spin_inv s -> room s -> (forall l', (c, l') ∉ spinning s) -> spin_inv (spin_lock_begin c l s).
Proof.
  intros Hi Hr Hno. unfold room in Hr. pose proof (zlen_nonneg (taken s)). pose proof (zlen_nonneg (spinning s)).
  constructor; cbn [taken spinning word lock_spin_held_depth preempt spin_lock_begin lock_preempt_disable record]; try apply Hi.
  - split; [apply Hi|]. constructor; [apply Hno|apply Hi].
  - intros c'. rewrite of_core_cons. cbn. pose proof (of_core_le c' (taken s)). pose proof (of_core_le c' (spinning s)). destruct (decide (c' = c)) as [->|Hne].
    + rewrite fn_lookup_insert, decide_True by done. rewrite (sv_preempt _ Hi), wrap_count by lia. lia.
    + rewrite fn_lookup_insert_ne by done. rewrite decide_False by done. rewrite (sv_preempt _ Hi). lia.
  - unfold zlen in *. cbn [length]. lia.
Qed.

Lemma round_inv s c l : spin_inv s -> (c, l) ∈ spinning s -> spin_inv (spin_lock_round c l s).2.
Proof.
  intros Hi Hs. unfold spin_lock_round, test_and_set. destruct (Z.eqb_spec (word s l) 0) as [Hw|Hw]; cbn [snd].
  - destruct (sv_nodup _ Hi) as [_ Hn]. pose proof (zlen_drop _ _ Hn Hs) as Hz.
    apply (take_inv s c l (filter (fun r => r <> (c, l)) (spinning s)) (preempt s)); [done|done|by apply NoDup_filter|pose proof (sv_room _ Hi); lia|].
    intros c'. rewrite (sv_preempt _ Hi), of_core_cons, (of_core_drop c' _ _ Hn Hs). lia.
  - constructor; cbn [taken spinning word lock_spin_held_depth preempt]; try apply Hi. exact (word_same s l Hi Hw).
Qed.

Lemma try_inv s c lock : spin_inv s -> room s -> spin_inv (spin_try_lock c lock s).2.
Proof.
  intros Hi Hr. unfold room in Hr. destruct lock as [l|]; [|done]. unfold spin_try_lock, test_and_set. cbn [word lock_preempt_disable].
  assert (Hc : forall c', 0 <= of_core c' (taken s) + of_core c' (spinning s) <= zlen (taken s) + zlen (spinning s)) by (intros c'; pose proof (of_core_le c' (taken s)); pose proof (of_core_le c' (spinning s)); lia).
  assert (Hup : wrap (preempt s c + 1) = of_core c (taken s) + of_core c (spinning s) + 1) by (rewrite (sv_preempt _ Hi); specialize (Hc c); apply wrap_count; lia).
  destruct (Z.eqb_spec (word s l) 0) as [Hw|Hw]; cbn [snd].
  - apply (take_inv s c l (spinning s) (<[c := wrap (preempt s c + 1)]> (preempt s))); [done|done|apply Hi|lia|]. intros c'. rewrite of_core_cons. cbn.
    destruct (decide (c' = c)) as [->|Hne]; [rewrite fn_lookup_insert, decide_True by done; lia|].
    rewrite fn_lookup_insert_ne by done. rewrite decide_False by done. rewrite (sv_preempt _ Hi). lia.
  - constructor; cbn [taken spinning word lock_spin_held_depth preempt lock_preempt_enable lock_preempt_disable]; try apply Hi; [exact (word_same s l Hi Hw)|].
    intros c'. destruct (decide (c' = c)) as [->|Hne]; [|rewrite !fn_lookup_insert_ne by done; apply Hi]. rewrite !fn_lookup_insert, Hup. specialize (Hc c).
    rewrite (proj2 (Z.ltb_lt _ _)) by lia. lia.
Qed.

Lemma unlock_inv s c l : spin_inv s -> (c, l) ∈ taken s -> spin_inv (spin_unlock c (Some l) s).
Proof.
  intros Hi Ht. destruct (sv_nodup _ Hi) as [Hn Hns]. set (rest := filter (fun r => r <> (c, l)) (taken s)).
  assert (Hd : forall c', of_core c' (taken s) = (if decide (c = c') then 1 else 0) + of_core c' rest) by (intros c'; exact (of_core_drop c' _ _ Hn Ht)).
  pose proof (zlen_drop _ _ Hn Ht) as Hz. fold rest in Hz. pose proof (of_core_le c rest). pose proof (of_core_le c (spinning s)). pose proof (sv_room _ Hi). pose proof (zlen_nonneg (spinning s)).
  assert (Hdc : lock_spin_held_depth s c = 1 + of_core c rest) by (rewrite (sv_depth _ Hi), Hd, decide_True by done; lia).
  unfold spin_unlock. rewrite Hdc. rewrite (proj2 (Z.eqb_neq _ 0)) by lia. constructor; cbn [taken spinning word lock_spin_held_depth preempt lock_preempt_enable add_depth]; fold rest.
  - intros l' c1 c2 [_ Ha]%list_elem_of_filter [_ Hb]%list_elem_of_filter. by apply (sv_one _ Hi l').
  - split; [by apply NoDup_filter|done].
  - intros l'. destruct (decide (l' = l)) as [->|Hne].
    + rewrite fn_lookup_insert. split; [done|]. intros [c' [Hne Hc]%list_elem_of_filter]. destruct Hne. f_equal. by apply (sv_one _ Hi l).
    + rewrite fn_lookup_insert_ne by done. rewrite (sv_word _ Hi l'). split; intros [c' Hc]; exists c'; [apply list_elem_of_filter; split; [congruence|done]|by apply list_elem_of_filter in Hc as [_ ?]].
  - intros c'. destruct (decide (c' = c)) as [->|Hne]; [rewrite fn_lookup_insert, Hdc, u32_wrap_small; lia|].
    rewrite fn_lookup_insert_ne by done. rewrite (sv_depth _ Hi), Hd, decide_False by done. lia.
  - intros c'. destruct (decide (c' = c)) as [->|Hne].
    + rewrite fn_lookup_insert. rewrite (sv_preempt _ Hi), Hd, decide_True by done. rewrite (proj2 (Z.ltb_lt _ _)) by lia. lia.
    + rewrite fn_lookup_insert_ne by done. rewrite (sv_preempt _ Hi), Hd, decide_False by done. lia.
  - lia.
Qed.

Lemma spin_steps s s' : spin_inv s -> rtc spin_step s s' -> spin_inv s'.
Proof. intros Hi Hs. induction Hs as [|s s1 s2 Hst _ IH]; [done|]. apply IH. destruct Hst; auto using begin_inv, round_inv, try_inv, unlock_inv. Qed.

Lemma spin_fresh_inv s : spin_fresh s -> spin_inv s.
Proof.
  intros (F1 & F2 & F3 & F4). constructor; rewrite ?F3, ?F4; try done.
  - by intros l c c' Hc%elem_of_nil.
  - split; constructor.
  - intros l. rewrite F1. split; [done|]. by intros [c Hc%elem_of_nil].
  - intros c. apply F2.
  - intros c. apply F2.
Qed.
End Proofs.

Section Claims.
Context `{Arch}.

(** C29: In every interleaving of locking, trying and unlocking by any number of cores, at most one core has
    a lock; [lock_spin_held] tells whether the core has any; and while it has one, or spins for one, its
    preemption is off. *)
Theorem spin_locks_exclusive s s' :
  spin_fresh s -> rtc spin_step s s' ->
  (forall l c c', (c, l) ∈ taken s' -> (c', l) ∈ taken s' -> c = c') /\
  (forall c, lock_spin_held c s' = true <-> exists l, (c, l) ∈ taken s') /\
  (forall c l, (c, l) ∈ taken s' \/ (c, l) ∈ spinning s' -> preempt s' c <> 0).
Proof.
  intros Hf Hs. pose proof (spin_steps _ _ (spin_fresh_inv _ Hf) Hs) as Hi. split; [apply Hi|].
  assert (Hpos : forall c l ps, (c, l) ∈ ps -> 0 < of_core c ps).
  { intros c l ps Hp. unfold of_core, zlen. assert (Hin : (c, l) ∈ filter (fun p : nat * Z => p.1 = c) ps) by (by apply list_elem_of_filter). destruct (filter _ ps); [by apply elem_of_nil in Hin|cbn [length]; lia]. }
  split.
  - intros c. unfold lock_spin_held. rewrite negb_true_iff, Z.eqb_neq, (sv_depth _ Hi). split.
    + unfold of_core, zlen. intros Hne. destruct (filter _ (taken s')) as [|[c' l] ps] eqn:E; [done|]. exists l.
      assert (Hin : (c', l) ∈ filter (fun p : nat * Z => p.1 = c) (taken s')) by (rewrite E; by left). apply list_elem_of_filter in Hin as [Hc ?]. cbn in Hc. by subst.
    + intros [l Hl]. pose proof (Hpos c l _ Hl). lia.
  - intros c l Hc. rewrite (sv_preempt _ Hi). pose proof (of_core_le c (taken s')). pose proof (of_core_le c (spinning s')).
    destruct Hc as [Hc|Hc]; pose proof (Hpos c l _ Hc); lia.
Qed.
End Claims.

#[local] Existing Instance arch64.

Definition spins0 : spin_state := mk_spins (fun _ => 0) (fun _ => 0) (fun _ => 0) [] [].

(** Core 1 takes lock 7 at its second attempt, after core 0 gave it back. *)
Definition spins1 : spin_state := (spin_try_lock 0 (Some 7) spins0).2.
Definition spins2 : spin_state := (spin_lock_round 1 7 (spin_lock_begin 1 7 spins1)).2.
Definition spins3 : spin_state := (spin_lock_round 1 7 (spin_unlock 0 (Some 7) spins2)).2.

Lemma spins3_steps : rtc spin_step spins0 spins3.
Proof.
  eapply rtc_l; [apply (sp_try spins0 0 (Some 7)); by vm_compute|]. eapply rtc_l; [apply (sp_begin spins1 1 7); [by vm_compute|intros l' Hl; by apply elem_of_nil in Hl]|].
  eapply rtc_l; [apply (sp_round _ 1 7); cbn; by left|]. eapply rtc_l; [apply (sp_unlock spins2 0 7); cbn; by left|]. apply rtc_once. apply (sp_round _ 1 7). vm_compute. by left.
Qed.

Lemma spin_locks_exclusive_witness :
  rtc spin_step spins0 spins3 /\ taken spins3 = [(1%nat, 7)] /\ lock_spin_held 1 spins3 = true /\ preempt spins3 1 <> 0.
Proof.
  split; [exact spins3_steps|]. split; [vm_compute; reflexivity|].
  destruct (spin_locks_exclusive spins0 spins3 ltac:(by split_and!) spins3_steps) as (_ & Hh & Hp).
  assert (Ht : (1%nat, 7) ∈ taken spins3) by (replace (taken spins3) with [(1%nat, 7)] by (vm_compute; reflexivity); by left).
  split; [apply Hh; exists 7; exact Ht|apply (Hp 1%nat 7); left; exact Ht].
Defined.
End SpinLock.

(** ** What a mutex needs of a wait queue *)

(** Queues of threads asleep, with a count of their wake-ups.  A wake-up takes the longest sleeper out and is
    counted; a thread goes to sleep only if the count is still what it saw.  A queue whose list could not
    be allocated is not live: nobody sleeps on it. *)
Class wait_queues (W : Type) := {
  wq_good : W -> Prop;
  wq_live : W -> Z -> Prop;
  wq_seq : W -> Z -> option Z;
  wq_asleep : W -> Z -> list tid;
  wq_thread : W -> tid -> Prop;
  wq_wake : Dispatch.env -> Z -> W -> option W;
  wq_wait : Dispatch.env -> Z -> tid -> Z -> W -> option (bool * W);
  wq_nodup : forall q V, wq_good V -> NoDup (wq_asleep V q);
  wq_wake_law : forall e q v V, wq_good V -> 0 <= Dispatch.me e < MAX_CORES -> wq_seq V q = Some v ->
    exists V', wq_wake e q V = Some V' /\ wq_good V' /\ wq_asleep V' q = tail (wq_asleep V q) /\ (wq_live V' q <-> wq_live V q) /\
      exists v', wq_seq V' q = Some v' /\ (wq_live V q -> v' = u32_wrap (v + 1));
  wq_wait_law : forall e q t seen v V, wq_good V -> 0 <= Dispatch.me e < MAX_CORES -> wq_seq V q = Some v -> wq_thread V t -> t ∉ wq_asleep V q ->
    exists b V', wq_wait e q t seen V = Some (b, V') /\ wq_good V' /\ (wq_live V' q <-> wq_live V q) /\ wq_seq V' q = Some v /\
      if b : bool then wq_live V q /\ seen = v /\ wq_asleep V' q = wq_asleep V q ++ [t] else wq_asleep V' q = wq_asleep V q
}.

(** ** Mutexes *)

Module Mutex.

Record mutex_t := mk_mutex { held : Z; wait_queue : ptr Z }.

(** Where a thread is: outside; in the loop of [mutex_lock] with the queue it knows; past the test, with the
    count it read; asleep; inside; past the release, with the queue to wake. *)
Inductive place :=
  | Outside
  | Entering (queue : ptr Z)
  | Busy (queue : ptr Z) (wait_seq : Z)
  | Asleep (q : Z)
  | Inside
  | Leaving (queue : ptr Z).

Section Defs.
Context {W : Type} `{!wait_queues W}.

(** The mutex, the wait queues, the threads, and how often a thread has gone from [Leaving] to [Outside]. *)
Record mstate := mk_mstate { mtx : mutex_t; waits : W; places : tid -> place; wakes : Z }.
Implicit Types (s : mstate) (m : mutex_t) (t : tid).

Definition mutex_init : mutex_t := mk_mutex 0 None.

(** [fresh] is the queue that [calloc] and [sched_waitq_init] gave, if they did.  A queue that another thread
    installed in the meantime is answered, and the fresh one given up. *)
Definition mutex_wait_queue_get (fresh : ptr Z) m : ptr Z * mutex_t :=
  match wait_queue m with
  | Some q => (Some q, m)
  | None => match fresh with Some q => (Some q, mk_mutex (held m) (Some q)) | None => (None, m) end
  end.

Definition mutex_try_lock (mutex : ptr mutex_t) : bool * ptr mutex_t :=
  match mutex with
  | None => (false, None)
  | Some m => if held m =? 0 then (true, Some (mk_mutex 1 (wait_queue m))) else (false, Some m)
  end.

(** The critical section of [mutex_lock]: the mutex is taken, or the count of wake-ups is read. *)
Definition lock_round (queue : ptr Z) m (V : W) : option (place * mutex_t) :=
  if held m =? 0 then Some (Inside, mk_mutex 1 (wait_queue m))
  else
    wait_seq ← match queue with Some q => wq_seq V q | None => Some 0 end;
    Some (Busy queue wait_seq, m).

(** [mutex_unlock] up to its wake-up. *)
Definition mutex_release m : ptr Z * mutex_t := (wait_queue m, mk_mutex 0 (wait_queue m)).

Definition go t (p : place) s : mstate := mk_mstate (mtx s) (waits s) (<[t := p]> (places s)) (wakes s).
Definition with_mutex m s : mstate := mk_mstate m (waits s) (places s) (wakes s).
Definition with_waits (V : W) s : mstate := mk_mstate (mtx s) V (places s) (wakes s).
Definition with_wake s : mstate := mk_mstate (mtx s) (waits s) (places s) (wakes s + 1).

(** A new queue is initialised and nobody knows it. *)
Definition fresh_ok s (fresh : ptr Z) : Prop := forall q, fresh = Some q -> wq_seq (waits s) q = Some 0 /\ wq_asleep (waits s) q = [].

(** What everything else may do to the queues: the mutex's own loses sleepers at most. *)
Definition others s (V : W) : Prop :=
  wq_good V /\ forall q, wait_queue (mtx s) = Some q ->
    wq_seq V q = wq_seq (waits s) q /\ (wq_live V q <-> wq_live (waits s) q) /\ wq_asleep V q `sublist_of` wq_asleep (waits s) q.

Inductive mutex_step s : mstate -> Prop :=
  | ms_enter t fresh queue m : places s t = Outside -> fresh_ok s fresh -> mutex_wait_queue_get fresh (mtx s) = (queue, m) ->
      mutex_step s (go t (Entering queue) (with_mutex m s))
  | ms_try t m : places s t = Outside -> mutex_try_lock (Some (mtx s)) = (true, Some m) -> mutex_step s (go t Inside (with_mutex m s))
  | ms_round t queue p m : places s t = Entering queue -> lock_round queue (mtx s) (waits s) = Some (p, m) ->
      mutex_step s (go t p (with_mutex m s))
  | ms_relax t queue v : places s t = Busy queue v -> mutex_step s (go t (Entering queue) s)
  | ms_again t v fresh queue m : places s t = Busy None v -> fresh_ok s fresh -> mutex_wait_queue_get fresh (mtx s) = (queue, m) ->
      mutex_step s (go t (Entering queue) (with_mutex m s))
  | ms_wait t e q v (b : bool) V : places s t = Busy (Some q) v -> 0 <= Dispatch.me e < MAX_CORES -> wq_thread (waits s) t ->
      wq_wait e q t v (waits s) = Some (b, V) -> mutex_step s (go t (if b then Asleep q else Entering (Some q)) (with_waits V s))
  | ms_resume t q : places s t = Asleep q -> t ∉ wq_asleep (waits s) q -> mutex_step s (go t (Entering (Some q)) s)
  | ms_release t queue m : places s t = Inside -> mutex_release (mtx s) = (queue, m) -> mutex_step s (go t (Leaving queue) (with_mutex m s))
  | ms_wake t e q V : places s t = Leaving (Some q) -> 0 <= Dispatch.me e < MAX_CORES -> wq_wake e q (waits s) = Some V ->
      mutex_step s (go t Outside (with_wake (with_waits V s)))
  | ms_leave t : places s t = Leaving None -> mutex_step s (go t Outside s)
  | ms_others V : others s V -> mutex_step s (with_waits V s).

Definition mutex_fresh s : Prop :=
  mtx s = mutex_init /\ wq_good (waits s) /\ (forall t, places s t = Outside) /\ wakes s = 0.

(** A thread that will look at the mutex again, or give it back, without being woken. *)
Definition at_it s t : Prop :=
  match places s t with
  | Inside | Entering _ | Busy _ _ | Leaving (Some _) => True
  | Asleep q => t ∉ wq_asleep (waits s) q
  | Outside | Leaving None => False
  end.
End Defs.

Section Proofs.
Context {W : Type} `{!wait_queues W}.
Implicit Types (s : mstate (W := W)) (m : mutex_t) (t u : tid) (q : Z).

(** The queue a thread knows. *)
Definition knows (p : place) : ptr Z :=
  match p with Entering queue | Busy queue _ | Leaving queue => queue | Asleep q => Some q | Outside | Inside => None end.

Definition leaving s q : Prop := exists u, places s u = Leaving (Some q).

Record mutex_inv s : Prop := {
  mx_one : forall t u, places s t = Inside -> places s u = Inside -> t = u;
  mx_held : held (mtx s) = 0 /\ (forall t, places s t <> Inside) \/ held (mtx s) = 1 /\ exists t, places s t = Inside;
  mx_queue : forall t q, knows (places s t) = Some q -> wait_queue (mtx s) = Some q;
  mx_good : wq_good (waits s);
  mx_seq : forall q, wait_queue (mtx s) = Some q -> exists v, wq_seq (waits s) q = Some v /\ (wq_live (waits s) q -> v = u32_wrap (wakes s));
  mx_none : wait_queue (mtx s) = None -> wakes s = 0;
  mx_wakes : 0 <= wakes s;
  mx_asleep : forall t q, wait_queue (mtx s) = Some q -> t ∈ wq_asleep (waits s) q -> places s t = Asleep q;
  mx_busy : forall t q v, places s t = Busy (Some q) v -> wq_live (waits s) q -> exists n, 0 <= n <= wakes s /\ v = u32_wrap n /\ (n = wakes s -> held (mtx s) = 1 \/ leaving s q);
  mx_stuck : forall t q, wait_queue (mtx s) = Some q -> t ∈ wq_asleep (waits s) q -> exists u, at_it s u
}.

Lemma places_go t p s u : places (go t p s) u = if decide (u = t) then p else places s u.
Proof. cbn. case_decide as Hu; [subst; by rewrite fn_lookup_insert|by rewrite fn_lookup_insert_ne]. Qed.

(** A thread that looks at the mutex again. *)
Lemma entering_at_it s t queue : places s t = Entering queue -> at_it s t.
Proof. intros Hp. unfold at_it. by rewrite Hp. Qed.

(** A step of [t] leaves the others at it. *)
Lemma at_it_other s s' t u : (forall v, v <> t -> places s' v = places s v) -> (forall q, u ∉ wq_asleep (waits s) q -> places s u = Asleep q -> u ∉ wq_asleep (waits s') q) ->
  u <> t -> at_it s u -> at_it s' u.
Proof. intros Hp Ha Hne. unfold at_it. rewrite (Hp u Hne). destruct (places s u); try done. intros Hn. by apply Ha. Qed.

Lemma held_at_it s t : mutex_inv s -> held (mtx s) = 1 -> exists u, places s u = Inside.
Proof. intros Hi Hh. destruct (mx_held _ Hi) as [[? _]|[_ ?]]; [lia|done]. Qed.

Lemma queue_get_spec fresh m queue m' : mutex_wait_queue_get fresh m = (queue, m') ->
  held m' = held m /\ queue = wait_queue m' /\ (wait_queue m <> None -> wait_queue m' = wait_queue m) /\ (wait_queue m = None -> wait_queue m' = fresh).
Proof. unfold mutex_wait_queue_get. destruct m as [h [q|]]; [intros [= <- <-]; by split_and!|]. destruct fresh as [q|]; intros [= <- <-]; by split_and!. Qed.

(** Where [t] goes matters only to what is said of [t], when it neither enters nor leaves the inside and wakes nobody. *)
Lemma get_inv s t fresh queue m : mutex_inv s -> places s t = Outside \/ (exists v, places s t = Busy None v) -> fresh_ok s fresh ->
  mutex_wait_queue_get fresh (mtx s) = (queue, m) -> mutex_inv (go t (Entering queue) (with_mutex m s)).
Proof.
  intros Hi Hp Hf (Eh & Eq & Hsome & Hnone)%queue_get_spec. assert (Hin : places s t <> Inside /\ (forall q, places s t <> Asleep q) /\ forall q, places s t <> Leaving (Some q)) by (destruct Hp as [->|[v ->]]; done).
  assert (Hsame : forall q, wait_queue (mtx s) = Some q -> wait_queue m = Some q) by (intros q Hq; rewrite Hsome; [done|by rewrite Hq]).
  assert (Hq : forall q, wait_queue m = Some q -> wait_queue (mtx s) = Some q \/ wait_queue (mtx s) = None /\ wq_seq (waits s) q = Some 0 /\ wq_asleep (waits s) q = []).
  { intros q Hm. destruct (wait_queue (mtx s)) as [q'|] eqn:E; [rewrite (Hsame q' eq_refl) in Hm; by left|]. right. split; [done|]. apply Hf. by rewrite <- (Hnone eq_refl). }
  constructor; cbn [mtx waits wakes with_mutex go held wait_queue].
  - intros t1 u1. rewrite !places_go. repeat case_decide; [done|done|done|]. apply (mx_one _ Hi).
  - rewrite Eh. destruct (mx_held _ Hi) as [[Hh Hno]|[Hh [u Hu]]]; [left|right]; (split; [done|]).
    + intros u. rewrite places_go. case_decide; [done|apply Hno].
    + exists u. rewrite places_go. case_decide; [subst; by destruct Hin|done].
  - intros u q. rewrite places_go. case_decide; [cbn; congruence|]. intros Hk. by apply Hsame, (mx_queue _ Hi u).
  - apply Hi.
  - intros q Hm. destruct (Hq q Hm) as [Hm'|(Hn & Hs & _)]; [by apply (mx_seq _ Hi)|]. exists 0. split; [done|]. intros _. by rewrite (mx_none _ Hi Hn).
  - intros Hm. destruct (wait_queue (mtx s)) as [q'|] eqn:E; [by rewrite (Hsame q' eq_refl) in Hm|]. by apply (mx_none _ Hi).
  - apply Hi.
  - intros u q Hm Hu. destruct (Hq q Hm) as [Hm'|(_ & _ & Hs)]; [|rewrite Hs in Hu; by apply elem_of_nil in Hu]. pose proof (mx_asleep _ Hi u q Hm' Hu) as Hpu.
    rewrite places_go. case_decide; [subst; by destruct Hin as (_ & Hna & _); destruct (Hna q)|done].
  - intros u q v. rewrite places_go. case_decide; [done|]. intros Hb Hl. destruct (mx_busy _ Hi u q v Hb Hl) as (n & ? & ? & Hn). exists n. split; [done|]. split; [done|].
    rewrite Eh. intros Hw. destruct (Hn Hw) as [|[u' Hu']]; [by left|right]. exists u'. rewrite places_go. case_decide; [subst; by destruct Hin as (_ & _ & Hnl); destruct (Hnl q)|done].
  - intros u q _ _. exists t. apply (entering_at_it _ _ queue). by rewrite places_go, decide_True.
Qed.

(** A step of [t] to [p] that keeps the mutex's queue. *)
Lemma move_inv s t p m V k : mutex_inv s -> wait_queue m = wait_queue (mtx s) ->
  (p <> Inside /\ places s t <> Inside /\ held m = held (mtx s)) \/ (p = Inside /\ held (mtx s) = 0 /\ held m = 1) \/ (p <> Inside /\ places s t = Inside /\ held m = 0) ->
  (forall q, knows p = Some q -> wait_queue (mtx s) = Some q) -> wq_good V -> wakes s <= k -> (wait_queue (mtx s) = None -> k = 0) ->
  (forall q, wait_queue (mtx s) = Some q -> (wq_live V q <-> wq_live (waits s) q) /\ (exists v, wq_seq V q = Some v /\ (wq_live V q -> v = u32_wrap k)) /\
    forall u, u ∈ wq_asleep V q -> u = t /\ p = Asleep q \/ u <> t /\ u ∈ wq_asleep (waits s) q) ->
  (forall q v, p = Busy (Some q) v -> held m = 1 /\ (wq_live V q -> v = u32_wrap k)) ->
  (forall q, k = wakes s -> (held (mtx s) = 1 -> wait_queue (mtx s) = Some q -> held m = 1 \/ p = Leaving (Some q)) /\ places s t <> Leaving (Some q)) ->
  (forall q u, wait_queue (mtx s) = Some q -> u ∈ wq_asleep V q -> exists u', at_it (mk_mstate m V (<[t := p]> (places s)) k) u') ->
  mutex_inv (mk_mstate m V (<[t := p]> (places s)) k).
Proof.
  intros Hi Ew Hin Hkn Hg Hk Hz Hq Hb Hgo Hst. set (s' := mk_mstate _ _ _ _) in *.
  assert (Hpl : forall u, places s' u = if decide (u = t) then p else places s u) by (intros u; apply (places_go t p s)).
  assert (Hbefore : held (mtx s) = 0 -> forall u, places s u <> Inside) by (intros H0; destruct (mx_held _ Hi) as [[_ ?]|[? _]]; [done|lia]).
  constructor; cbn [mtx waits wakes s']; rewrite ?Ew.
  - intros t1 u1. rewrite !Hpl. destruct Hin as [(Hp & _ & _)|[(_ & H0 & _)|(Hp & _ & _)]]; repeat case_decide; subst; try done; try apply (mx_one _ Hi).
    + intros _ Hu. by destruct (Hbefore H0 u1).
    + intros Hu _. by destruct (Hbefore H0 t1).
  - destruct Hin as [(Hp & Ho & ->)|[(-> & H0 & ->)|(Hp & Ho & ->)]].
    + destruct (mx_held _ Hi) as [[Hh Hno]|[Hh [u Hu]]]; [left|right]; (split; [done|]).
      * intros u. rewrite Hpl. case_decide; [done|apply Hno].
      * exists u. rewrite Hpl. case_decide; [by subst|done].
    + right. split; [done|]. exists t. by rewrite Hpl, decide_True.
    + left. split; [done|]. intros u. rewrite Hpl. case_decide as Hu; [done|]. intros Hu'. by destruct Hu, (mx_one _ Hi u t).
  - intros u q. rewrite Hpl. case_decide; [apply Hkn|apply (mx_queue _ Hi)].
  - done.
  - intros q Hm. by apply Hq.
  - done.
  - pose proof (mx_wakes _ Hi). lia.
  - intros u q Hm Hu. rewrite Hpl. destruct (proj2 (proj2 (Hq q Hm)) u Hu) as [[-> ->]|[Hne Hu']]; [by rewrite decide_True|]. rewrite decide_False by done. by apply (mx_asleep _ Hi).
  - intros u q v. rewrite Hpl. pose proof (mx_wakes _ Hi). case_decide as Hu.
    + intros ->. destruct (Hb q v eq_refl) as [Hh Hv]. intros Hl. exists k. split_and!; [lia|lia|by apply Hv|by left].
    + intros Hbu Hl. assert (Hm : wait_queue (mtx s) = Some q) by (apply (mx_queue _ Hi u); by rewrite Hbu). destruct (Hq q Hm) as (Hlive & _).
      destruct (mx_busy _ Hi u q v Hbu) as (n & Hn & -> & Hcase); [by apply Hlive|]. exists n. split; [lia|]. split; [done|]. intros ->. assert (k = wakes s) as -> by lia.
      destruct (Hgo q eq_refl) as [Hheld Hnl]. destruct (Hcase eq_refl) as [Hh|[u' Hu']]; [destruct (Hheld Hh Hm) as [|Hp]; [by left|right; exists t; by rewrite Hpl, decide_True]|].
      right. exists u'. rewrite Hpl. case_decide; [by subst|done].
  - intros u q Hm Hu. by apply (Hst q u).
Qed.

(** The queues are as they were. *)
Lemma same_queues s t p : mutex_inv s -> (forall q, p <> Asleep q) -> (forall q, places s t = Asleep q -> t ∉ wq_asleep (waits s) q) ->
  forall q, wait_queue (mtx s) = Some q -> (wq_live (waits s) q <-> wq_live (waits s) q) /\ (exists v, wq_seq (waits s) q = Some v /\ (wq_live (waits s) q -> v = u32_wrap (wakes s))) /\
    forall u, u ∈ wq_asleep (waits s) q -> u = t /\ p = Asleep q \/ u <> t /\ u ∈ wq_asleep (waits s) q.
Proof.
  intros Hi Hp Ht q Hm. split; [done|]. split; [by apply (mx_seq _ Hi)|]. intros u Hu. right. split; [|done]. intros ->. by apply (Ht q (mx_asleep _ Hi t q Hm Hu)).
Qed.

Lemma not_asleep s t q : mutex_inv s -> wait_queue (mtx s) = Some q -> places s t <> Asleep q -> t ∉ wq_asleep (waits s) q.
Proof. intros Hi Hm Hp Hu. by apply Hp, (mx_asleep _ Hi). Qed.

(** [t] goes back to the head of the loop. *)
Lemma back_inv s t queue V : mutex_inv s -> places s t <> Inside -> (forall q, places s t <> Leaving (Some q)) -> (forall q, queue = Some q -> wait_queue (mtx s) = Some q) -> wq_good V ->
  (forall q, wait_queue (mtx s) = Some q -> (wq_live V q <-> wq_live (waits s) q) /\ wq_seq V q = wq_seq (waits s) q /\ forall u, u ∈ wq_asleep V q -> u <> t /\ u ∈ wq_asleep (waits s) q) ->
  mutex_inv (go t (Entering queue) (with_waits V s)).
Proof.
  intros Hi Hin Hl Hq Hg HV. apply (move_inv s t (Entering queue) (mtx s) V (wakes s)); [done|done|left; by split_and!|done|done|lia|apply (mx_none _ Hi)| |done| |].
  - intros q Hm. destruct (HV q Hm) as (H1 & H2 & H3). split_and!; [done| |by right; apply H3]. rewrite H2. destruct (mx_seq _ Hi q Hm) as (v & ? & Hv). exists v. split; [done|]. rewrite H1. done.
  - intros q _. split; [by left|done].
  - intros q u _ _. exists t. apply (entering_at_it _ _ queue). cbn. by rewrite fn_lookup_insert.
Qed.

Lemma inside_at_it s t : places s t = Inside -> at_it s t.
Proof. intros Hp. unfold at_it. by rewrite Hp. Qed.

(** [t] takes the mutex. *)
Lemma inside_inv s t : mutex_inv s -> held (mtx s) = 0 -> (forall q, places s t <> Leaving (Some q)) -> (forall q, places s t <> Asleep q) ->
  mutex_inv (go t Inside (with_mutex (mk_mutex 1 (wait_queue (mtx s))) s)).
Proof.
  intros Hi H0 Hl Ha. apply (move_inv s t Inside (mk_mutex 1 (wait_queue (mtx s))) (waits s) (wakes s)); [done|done|right; left; by split_and!|done|apply Hi|lia|apply (mx_none _ Hi)| |done| |].
  - apply same_queues; [done|done|]. intros q Hq. by destruct (Ha q).
  - intros q _. split; [by left|done].
  - intros q u _ _. exists t. apply inside_at_it. cbn. by rewrite fn_lookup_insert.
Qed.

Lemma round_step_inv s t queue p m : mutex_inv s -> places s t = Entering queue -> lock_round queue (mtx s) (waits s) = Some (p, m) -> mutex_inv (go t p (with_mutex m s)).
Proof.
  intros Hi Hp. unfold lock_round. destruct (Z.eqb_spec (held (mtx s)) 0) as [H0|H0]; [intros [= <- <-]; apply inside_inv; [done|done|by rewrite Hp..]|].
  assert (Hh : held (mtx s) = 1) by (destruct (mx_held _ Hi) as [[? _]|[? _]]; [lia|done]).
  intros Hr. assert (Hv : exists v, match queue with Some q => wq_seq (waits s) q | None => Some 0 end = Some v /\ p = Busy queue v /\ m = mtx s).
  { destruct (match queue with Some q => wq_seq (waits s) q | None => Some 0 end) as [v|]; [|done]. injection Hr as <- <-. eauto. }
  destruct Hv as (v & Hv & -> & ->). assert (Hk : forall q, queue = Some q -> wait_queue (mtx s) = Some q) by (intros q ->; apply (mx_queue _ Hi t); by rewrite Hp).
  apply (move_inv s t (Busy queue v) (mtx s) (waits s) (wakes s)); [done|done|left; by rewrite Hp|exact Hk|apply Hi|lia|apply (mx_none _ Hi)| | | |].
  - apply same_queues; [done|done|]. intros q Hq. congruence.
  - intros q v' [= -> ->]. split; [done|]. destruct (mx_seq _ Hi q (Hk q eq_refl)) as (v2 & Hv2 & Hl). assert (v2 = v') as -> by congruence. exact Hl.
  - intros q _. split; [by left|by rewrite Hp].
  - intros q u _ _. exists t. unfold at_it. cbn. by rewrite fn_lookup_insert.
Qed.

Lemma wrap_eq n k : 0 <= n <= k -> k < 2 ^ 32 -> u32_wrap n = u32_wrap k -> n = k.
Proof. intros Hn Hk. rewrite !u32_wrap_small by lia. done. Qed.

Lemma wait_step_inv s t e q v b V : mutex_inv s -> wakes s < 2 ^ 32 -> places s t = Busy (Some q) v -> 0 <= Dispatch.me e < MAX_CORES -> wq_thread (waits s) t ->
  wq_wait e q t v (waits s) = Some (b, V) -> mutex_inv (go t (if b then Asleep q else Entering (Some q)) (with_waits V s)).
Proof.
  intros Hi Hw Hp He Ht Hr. assert (Hm : wait_queue (mtx s) = Some q) by (apply (mx_queue _ Hi t); by rewrite Hp). destruct (mx_seq _ Hi q Hm) as (v0 & Hv0 & Hv).
  assert (Hna : t ∉ wq_asleep (waits s) q) by (apply not_asleep; [done|done|by rewrite Hp]).
  destruct (wq_wait_law e q t v v0 (waits s) (mx_good _ Hi) He Hv0 Ht Hna) as (b' & V' & Hr' & Hg & Hl & Hs & Hb). rewrite Hr in Hr'. injection Hr' as <- <-. destruct b.
  - destruct Hb as (Hlive & -> & Ha). destruct (mx_busy _ Hi t q v0 Hp Hlive) as (n & Hn & Hvn & Hcase). assert (n = wakes s) as -> by (apply wrap_eq; [done|done|rewrite <- Hvn; by apply Hv]).
    apply (move_inv s t (Asleep q) (mtx s) V (wakes s)); [done|done|left; by rewrite Hp|by intros q' [= <-]|done|lia|apply (mx_none _ Hi)| |done| |].
    + intros q' Hm'. assert (q' = q) as -> by congruence. split; [done|]. split; [exists v0; split; [done|by rewrite Hl]|]. intros u. rewrite Ha, elem_of_app, list_elem_of_singleton.
      intros [Hu| ->]; [|by left]. right. split; [by intros ->|done].
    + intros q' _. split; [by left|by rewrite Hp].
    + intros q' u _ _. destruct (Hcase eq_refl) as [Hh|[u' Hu']].
      * destruct (held_at_it s t Hi Hh) as [u' Hu']. exists u'. apply inside_at_it. cbn. rewrite fn_lookup_insert_ne; [done|]. intros <-. congruence.
      * exists u'. unfold at_it. cbn. rewrite fn_lookup_insert_ne by (intros <-; congruence). by rewrite Hu'.
  - apply back_inv; [done|by rewrite Hp|by rewrite Hp|by intros q' [= <-]|done|]. intros q' Hm'. assert (q' = q) as -> by congruence. split; [done|]. split; [congruence|].
    intros u Hu. rewrite Hb in Hu. split; [by intros ->|done].
Qed.

Lemma wake_step_inv s t e q V : mutex_inv s -> places s t = Leaving (Some q) -> 0 <= Dispatch.me e < MAX_CORES -> wq_wake e q (waits s) = Some V ->
  mutex_inv (go t Outside (with_wake (with_waits V s))).
Proof.
  intros Hi Hp He Hr. assert (Hm : wait_queue (mtx s) = Some q) by (apply (mx_queue _ Hi t); by rewrite Hp). destruct (mx_seq _ Hi q Hm) as (v0 & Hv0 & Hv).
  destruct (wq_wake_law e q v0 (waits s) (mx_good _ Hi) He Hv0) as (V' & Hr' & Hg & Ha & Hl & v' & Hv' & Hnext). rewrite Hr in Hr'. injection Hr' as <-.
  pose proof (wq_nodup q (waits s) (mx_good _ Hi)) as Hnd. pose proof (mx_wakes _ Hi).
  apply (move_inv s t Outside (mtx s) V (wakes s + 1)); [done|done|left; by rewrite Hp|done|done|lia|congruence| |done|intros q' Hw; lia|].
  - intros q' Hm'. assert (q' = q) as -> by congruence. split; [done|]. split.
    + exists v'. split; [done|]. intros Hlv. rewrite Hnext by (by apply Hl). rewrite (Hv ltac:(by apply Hl)). unfold u32_wrap. by rewrite Zplus_mod_idemp_l.
    + intros u Hu. rewrite Ha in Hu. right. assert (Hu' : u ∈ wq_asleep (waits s) q) by (destruct (wq_asleep (waits s) q); [by apply elem_of_nil in Hu|by right]). split; [|done].
      intros ->. pose proof (mx_asleep _ Hi t q Hm Hu'). congruence.
  - intros q' u Hm' Hu. assert (q' = q) as -> by congruence. rewrite Ha in Hu. destruct (wq_asleep (waits s) q) as [|h rest] eqn:E; [by apply elem_of_nil in Hu|]. exists h.
    assert (Hh : places s h = Asleep q) by (apply (mx_asleep _ Hi h q Hm); rewrite E; by left). unfold at_it. cbn. rewrite fn_lookup_insert_ne by (intros <-; congruence). rewrite Hh, Ha.
    by apply list.NoDup_cons in Hnd as [? _].
Qed.

Lemma release_inv s t queue m : mutex_inv s -> places s t = Inside -> mutex_release (mtx s) = (queue, m) -> mutex_inv (go t (Leaving queue) (with_mutex m s)).
Proof.
  intros Hi Hp [= <- <-]. set (queue := wait_queue (mtx s)).
  apply (move_inv s t (Leaving queue) (mk_mutex 0 queue) (waits s) (wakes s)); [done|done|right; right; by split_and!|done|apply Hi|lia|apply (mx_none _ Hi)| |done| |].
  - apply same_queues; [done|done|]. intros q Hq. congruence.
  - intros q _. split; [|by rewrite Hp]. intros _ Hm. right. unfold queue. by rewrite Hm.
  - intros q u Hm _. exists t. unfold at_it. cbn. rewrite fn_lookup_insert. unfold queue. by rewrite Hm.
Qed.

Lemma leave_inv s t : mutex_inv s -> places s t = Leaving None -> mutex_inv (go t Outside s).
Proof.
  intros Hi Hp. apply (move_inv s t Outside (mtx s) (waits s) (wakes s)); [done|done|left; by rewrite Hp|done|apply Hi|lia|apply (mx_none _ Hi)| |done| |].
  - apply same_queues; [done|done|]. intros q Hq. congruence.
  - intros q _. split; [by left|by rewrite Hp].
  - intros q u Hm Hu. destruct (mx_stuck _ Hi u q Hm Hu) as [u' Hu']. exists u'. apply (at_it_other s _ t); [|done| |done].
    + intros v Hv. cbn. by rewrite fn_lookup_insert_ne.
    + intros ->. unfold at_it in Hu'. by rewrite Hp in Hu'.
Qed.

Lemma others_inv s V : mutex_inv s -> others s V -> mutex_inv (with_waits V s).
Proof.
  intros Hi [Hg HV]. destruct Hi as [I1 I2 I3 I4 I5 I6 I7 I8 I9 I10]. constructor; try done.
  - intros q Hm. destruct (HV q Hm) as (E & Hl & _). destruct (I5 q Hm) as (v & Hv & Hvl). exists v. split; [cbn; congruence|]. cbn. rewrite Hl. done.
  - intros t q Hm Hu. apply (I8 t q Hm). eapply elem_of_sublist; [done|by apply HV].
  - intros t q v Hb Hlv. change (places s t = Busy (Some q) v) in Hb. apply (I9 t q v Hb). apply (HV q); [apply (I3 t); by rewrite Hb|done].
  - intros t q Hm Hu. change (wait_queue (mtx s) = Some q) in Hm. destruct (HV q Hm) as (_ & _ & Hsub). destruct (I10 t q Hm) as [u Hu']; [by eapply elem_of_sublist|]. exists u. unfold at_it in *. cbn. destruct (places s u) eqn:Hp; try done.
    intros Hin. apply Hu'. assert (wait_queue (mtx s) = Some q0) by (apply (I3 u); by rewrite Hp). assert (q0 = q) as -> by congruence. by eapply elem_of_sublist.
Qed.

Lemma mutex_step_inv s s' : mutex_inv s -> wakes s < 2 ^ 32 -> mutex_step s s' -> mutex_inv s'.
Proof.
  intros Hi Hw Hs. destruct Hs as [t fresh queue m Hp Hf Hg|t m Hp Ht|t queue p m Hp Hr|t queue v Hp|t v fresh queue m Hp Hf Hg|t e q v b V Hp He Ht Hr|t q Hp Hn|t queue m Hp Hr|t e q V Hp He Hr|t Hp|V Ho].
  - eapply get_inv; eauto.
  - unfold mutex_try_lock in Ht. destruct (Z.eqb_spec (held (mtx s)) 0); [|done]. injection Ht as <-. apply inside_inv; [done|done|by rewrite Hp..].
  - by eapply round_step_inv.
  - change (go t (Entering queue) s) with (go t (Entering queue) (with_waits (waits s) s)). apply back_inv; [done|by rewrite Hp|by rewrite Hp|intros q ->; apply (mx_queue _ Hi t); by rewrite Hp|apply Hi|].
    intros q Hm. split_and!; [done|done|]. intros u Hu. split; [|done]. intros ->. by apply (not_asleep s t q Hi Hm); [rewrite Hp|].
  - eapply get_inv; eauto.
  - by eapply wait_step_inv.
  - change (go t (Entering (Some q)) s) with (go t (Entering (Some q)) (with_waits (waits s) s)). assert (Hm : wait_queue (mtx s) = Some q) by (apply (mx_queue _ Hi t); by rewrite Hp).
    apply back_inv; [done|by rewrite Hp|by rewrite Hp|by intros q' [= <-]|apply Hi|]. intros q' Hm'. assert (q' = q) as -> by congruence. split_and!; [done|done|]. intros u Hu. split; [by intros ->|done].
  - by eapply release_inv.
  - by eapply wake_step_inv.
  - by apply leave_inv.
  - by apply others_inv.
Qed.

Lemma wakes_mono s s' : rtc mutex_step s s' -> wakes s <= wakes s'.
Proof. induction 1 as [|s s1 s2 Hst _ IH]; [lia|]. destruct Hst; cbn in *; lia. Qed.

Lemma mutex_steps_inv s s' : mutex_inv s -> rtc mutex_step s s' -> wakes s' < 2 ^ 32 -> mutex_inv s'.
Proof.
  intros Hi Hs. revert Hi. induction Hs as [|s s1 s2 Hst Hs IH]; intros Hi Hw; [done|]. apply IH; [|done]. eapply mutex_step_inv; [done| |done].
  pose proof (wakes_mono _ _ (rtc_l _ _ _ _ Hst Hs)). lia.
Qed.

Lemma mutex_fresh_inv s : mutex_fresh s -> mutex_inv s.
Proof.
  intros (F1 & F2 & F3 & F4). constructor; rewrite ?F1, ?F4; try done.
  - intros t u Ht. by rewrite F3 in Ht.
  - left. split; [done|]. intros t. by rewrite F3.
  - intros t q. by rewrite F3.
  - intros t q v Hb. by rewrite F3 in Hb.
Qed.

(** ** Exclusion alone *)

Definition excl_inv s : Prop :=
  (forall t u, places s t = Inside -> places s u = Inside -> t = u) /\
  (held (mtx s) = 0 /\ (forall t, places s t <> Inside) \/ held (mtx s) = 1 /\ exists t, places s t = Inside).

Lemma excl_move s s' t p : excl_inv s -> (forall u, places s' u = if decide (u = t) then p else places s u) ->
  (p <> Inside /\ places s t <> Inside /\ held (mtx s') = held (mtx s)) \/ (p = Inside /\ held (mtx s) = 0 /\ held (mtx s') = 1) \/
  (p <> Inside /\ places s t = Inside /\ held (mtx s') = 0) -> excl_inv s'.
Proof.
  intros [E1 E2] Hpl Hin. assert (Hbefore : held (mtx s) = 0 -> forall u, places s u <> Inside) by (intros H0; destruct E2 as [[_ ?]|[? _]]; [done|lia]). split.
  - intros t1 u1. rewrite !Hpl. destruct Hin as [(Hp & _ & _)|[(_ & H0 & _)|(Hp & _ & _)]]; repeat case_decide; subst; try done; try apply E1.
    + intros _ Hu. by destruct (Hbefore H0 u1).
    + intros Hu _. by destruct (Hbefore H0 t1).
  - destruct Hin as [(Hp & Ho & ->)|[(-> & H0 & ->)|(Hp & Ho & ->)]].
    + destruct E2 as [[Hh Hno]|[Hh [u Hu]]]; [left|right]; (split; [done|]).
      * intros u. rewrite Hpl. case_decide; [done|apply Hno].
      * exists u. rewrite Hpl. case_decide; [by subst|done].
    + right. split; [done|]. exists t. by rewrite Hpl, decide_True.
    + left. split; [done|]. intros u. rewrite Hpl. case_decide as Hu; [done|]. intros Hu'. by destruct Hu, (E1 u t).
Qed.

Lemma round_places queue m (V : W) p m' : lock_round queue m V = Some (p, m') -> p = Inside /\ held m = 0 /\ held m' = 1 \/ p <> Inside /\ held m' = held m.
Proof.
  unfold lock_round. destruct (Z.eqb_spec (held m) 0) as [H0|]; [intros [= <- <-]; by left|]. destruct (match queue with Some q => wq_seq V q | None => Some 0 end); [|done].
  intros [= <- <-]. by right.
Qed.

Lemma excl_step s s' : excl_inv s -> mutex_step s s' -> excl_inv s'.
Proof.
  intros He Hs.
  destruct Hs as [t fresh queue m Hp Hf Hg|t m Hp Ht|t queue p m Hp Hr|t queue v Hp|t v fresh queue m Hp Hf Hg|t e q v b V Hp Hc Ht Hr|t q Hp Hn|t queue m Hp Hr|t e q V Hp Hc Hr|t Hp|V Ho];
    [..|exact He]; (eapply excl_move; [exact He|intros u; exact (places_go _ _ s u)|]).
  - left. rewrite Hp. split_and!; [done|done|]. apply (queue_get_spec _ _ _ _ Hg).
  - right. left. unfold mutex_try_lock in Ht. destruct (Z.eqb_spec (held (mtx s)) 0); [|done]. by injection Ht as <-.
  - destruct (round_places _ _ _ _ _ Hr) as [(-> & ? & ?)|[? ?]]; [right; left; by split_and!|left; rewrite Hp; by split_and!].
  - left. by rewrite Hp.
  - left. rewrite Hp. split_and!; [done|done|]. apply (queue_get_spec _ _ _ _ Hg).
  - left. rewrite Hp. by destruct b.
  - left. by rewrite Hp.
  - right. right. injection Hr as <- <-. by split_and!.
  - left. by rewrite Hp.
  - left. by rewrite Hp.
Qed.

(** Whoever is at it has a step to take. *)
Lemma at_it_moves s u : mutex_inv s -> at_it s u -> exists s', mutex_step s s' /\ places s' u <> places s u.
Proof.
  intros Hi. unfold at_it. destruct (places s u) as [|queue|queue v|q| |queue] eqn:Hp; intros Hu.
  - done.
  - assert (Hv : exists p m, lock_round queue (mtx s) (waits s) = Some (p, m) /\ p <> Entering queue).
    { unfold lock_round. destruct (held (mtx s) =? 0); [eauto|]. destruct queue as [q|]; [|cbn; eauto].
      destruct (mx_seq _ Hi q) as (v & -> & _); [apply (mx_queue _ Hi u); by rewrite Hp|]. cbn. eauto. }
    destruct Hv as (p & m & Hr & Hne). eexists. split; [by eapply ms_round|]. rewrite places_go, decide_True by done. congruence.
  - eexists. split; [by eapply ms_relax|]. rewrite places_go, decide_True by done. done.
  - eexists. split; [by eapply ms_resume|]. rewrite places_go, decide_True by done. done.
  - eexists. split; [by eapply ms_release; [|reflexivity]|]. rewrite places_go, decide_True by done. done.
  - destruct queue as [q|]; [|done]. destruct (mx_seq _ Hi q) as (v & Hv & _); [apply (mx_queue _ Hi u); by rewrite Hp|].
    destruct (wq_wake_law (Dispatch.mk_env 0 true (fun _ => true)) q v (waits s) (mx_good _ Hi)) as (V & HV & _); [by vm_compute|done|].
    eexists. split; [by eapply (ms_wake s u _ q V Hp); [|exact HV]; vm_compute|]. rewrite places_go, decide_True by done. done.
Qed.
End Proofs.

Section Claims.
Context {W : Type} `{!wait_queues W}.

(** C18: In every interleaving of [mutex_lock], [mutex_try_lock] and [mutex_unlock] by any number of threads,
    at most one thread is between a lock and its unlock, and [held] tells whether there is one. *)
Theorem mutex_exclusive (s s' : mstate (W := W)) :
  mutex_fresh s -> rtc mutex_step s s' ->
  (forall t u, places s' t = Inside -> places s' u = Inside -> t = u) /\ (held (mtx s') = 1 <-> exists t, places s' t = Inside).
Proof.
  intros (F1 & _ & F3 & _) Hs. assert (He : excl_inv s).
  { split; [intros t u Ht; by rewrite F3 in Ht|]. left. split; [by rewrite F1|]. intros t. by rewrite F3. }
  assert (He' : excl_inv s') by (clear F1 F3; induction Hs as [|s s1 s2 Hst _ IH]; [done|]; by eapply IH, excl_step).
  destruct He' as [E1 E2]. split; [done|]. destruct E2 as [[-> Hno]|[-> Hex]]; [|done]. split; [done|]. intros [t Ht]. by destruct (Hno t).
Qed.

(** C19: No sleeper of a mutex is forgotten: as long as one is asleep on the queue, some thread is inside, on its
    way to the test or to the wake-up, or already woken, and it has a step to take, whatever the others
    do.  The bound is the width of the wake-up count that sleepers compare. *)
Theorem mutex_never_stuck (s s' : mstate (W := W)) q t :
  mutex_fresh s -> rtc mutex_step s s' -> wakes s' < 2 ^ 32 ->
  wait_queue (mtx s') = Some q -> t ∈ wq_asleep (waits s') q ->
  places s' t = Asleep q /\ exists u s'', at_it s' u /\ mutex_step s' s'' /\ places s'' u <> places s' u.
Proof.
  intros Hf Hs Hw Hm Ht. pose proof (mutex_steps_inv _ _ (mutex_fresh_inv _ Hf) Hs Hw) as Hi. split; [by apply (mx_asleep _ Hi)|].
  destruct (mx_stuck _ Hi t q Hm Ht) as [u Hu]. destruct (at_it_moves s' u Hi Hu) as (s'' & Hst & Hp). eauto.
Qed.
End Claims.
End Mutex.

(** ** The queues of the scheduler *)

Section Queues.
Context `{Arch}.
Import LinkedList WaitQueue Waiting.
Implicit Types (V : wait_state_t) (q : Z) (t : tid).

(** Whether the queue has its list. *)
Definition queue_live V q : Prop := exists wq, queues V !! q = Some wq /\ wlist wq <> None.
Definition queue_seq V q : option Z := wake_seq <$> queues V !! q.

(** [sched_wait_on] with no deadline and no flags, under the scheduler lock: whether the thread sleeps. *)
Definition queue_wait (e : Dispatch.env) q t (seen : Z) V : option (bool * wait_state_t) :=
  '(r, V) ← wait_on_locked e q t seen 0 0 V; Some (match r with WaitSleeps => true | WaitReturns _ => false end, V).

Lemma queue_of V q v : queue_seq V q = Some v -> exists wq, queues V !! q = Some wq /\ wake_seq wq = v.
Proof. unfold queue_seq. destruct (queues V !! q) as [wq|]; [|done]. intros [= <-]. eauto. Qed.

Lemma live_at V q wq : queues V !! q = Some wq -> queue_live V q <-> wlist wq <> None.
Proof. intros Hq. unfold queue_live. split; [intros (wq' & Hq' & Hl); congruence|eauto]. Qed.

Lemma queue_nodup q V : winv V -> NoDup (queue_threads V q).
Proof.
  intros [C Hi]. destruct (queues V !! q) as [wq|] eqn:Hq; [|unfold queue_threads; rewrite Hq; constructor].
  destruct (wlist wq) as [l|] eqn:Hl; [|unfold queue_threads; rewrite Hq, Hl; constructor]. by apply (co_queues _ (inv_consistent _ _ Hi) q wq Hq); rewrite Hl.
Qed.

Lemma queue_dead q V : winv V -> ~ queue_live V q -> queue_threads V q = [].
Proof.
  intros _ Hd. unfold queue_threads. destruct (queues V !! q) as [wq|] eqn:Hq; [|done]. destruct (wlist wq) as [l|] eqn:Hl; [|done].
  destruct Hd. exists wq. by rewrite Hl.
Qed.

Lemma queue_wake_law e q v V : winv V -> 0 <= Dispatch.me e < MAX_CORES -> queue_seq V q = Some v ->
  exists V', sched_wake_one e q V = Some V' /\ winv V' /\ queue_threads V' q = tail (queue_threads V q) /\ (queue_live V' q <-> queue_live V q) /\
    exists v', queue_seq V' q = Some v' /\ (queue_live V q -> v' = u32_wrap (v + 1)).
Proof.
  intros [C Hi] He (wq & Hq & <-)%queue_of. pose proof (live_at V q wq Hq) as Hlv. destruct (wlist wq) as [l|] eqn:Hl.
  - destruct (queue_list V C q wq l Hi Hq Hl) as [s Hs]. destruct (sched_wake_one_ok e q wq l s V C Hi He Hq Hl Hs) as (V' & Hw & [(C' & Hi' & Hs') _ (wq' & Hq' & El' & Hseq)]).
    exists V'. rewrite (queue_threads_ok V C q wq l s Hi Hq Hl Hs), (queue_threads_ok V' C' q wq' l _ Hi' Hq' El' Hs'), (live_at V' q wq' Hq'), Hlv, El'.
    split_and!; [done|by exists C'|done|done|]. exists (wake_seq wq'). unfold queue_seq. by rewrite Hq'.
  - exists V. unfold sched_wake_one. rewrite Hq. cbn [mbind option_bind]. rewrite bool_decide_true by done. assert (Hd : ~ queue_live V q) by (rewrite Hlv; naive_solver).
    split_and!; [done|by exists C|by rewrite queue_dead; [|exists C|]|done|]. exists (wake_seq wq). unfold queue_seq. by rewrite Hq.
Qed.

Lemma queue_wait_law e q t seen v V : winv V -> 0 <= Dispatch.me e < MAX_CORES -> queue_seq V q = Some v -> is_Some (nodes (wheap V) !! t) -> t ∉ queue_threads V q ->
  exists b V', queue_wait e q t seen V = Some (b, V') /\ winv V' /\ (queue_live V' q <-> queue_live V q) /\ queue_seq V' q = Some v /\
    if b : bool then queue_live V q /\ seen = v /\ queue_threads V' q = queue_threads V q ++ [t] else queue_threads V' q = queue_threads V q.
Proof.
  intros [C Hi] He (wq & Hq & <-)%queue_of Ht Hn. unfold queue_wait. pose proof (live_at V q wq Hq) as Hlv. destruct (wlist wq) as [l|] eqn:Hl.
  - destruct (queue_list V C q wq l Hi Hq Hl) as [s Hs]. rewrite (queue_threads_ok V C q wq l s Hi Hq Hl Hs) in Hn |- *.
    destruct (wait_on_locked_ok e q wq l s t seen 0 0 V C Hi He Hq Hl Hs Ht) as (r & V' & -> & Hpost & Hqs & Hsame); [done|]. cbn [mbind option_bind].
    destruct (qseq_at V V' q wq Hqs Hq) as (wq' & Hq' & El' & Es & _). rewrite Hl in El'.
    assert (Hall : exists C', inv V' C' /\ C' !! l = Some (match r with WaitSleeps => s ++ [t] | WaitReturns _ => s end)).
    { destruct r as [r|]; [by eapply Hsame|]. destruct Hpost as (_ & _ & _ & C' & Hi' & Hs'). exists C'. by rewrite ll_remove_other in Hs'. }
    destruct Hall as (C' & Hi' & Hs'). eexists _, V'. split; [done|]. rewrite (queue_threads_ok V' C' q wq' l _ Hi' Hq' El' Hs'), (live_at V' q wq' Hq').
    split_and!; [by exists C'|by rewrite Hlv, El'|unfold queue_seq; rewrite Hq'; by f_equal/=|]. destruct r as [r|]; [done|]. rewrite Hlv. by destruct Hpost as (-> & _).
  - unfold wait_on_locked. rewrite Hq. cbn [mbind option_bind]. rewrite bool_decide_true by done. exists false, V. cbn [mbind option_bind].
    split_and!; [done|by exists C|done|unfold queue_seq; by rewrite Hq|done].
Qed.

#[export] Instance sched_wait_queues : wait_queues wait_state_t := {
  wq_good := winv; wq_live := queue_live; wq_seq := queue_seq; wq_asleep := queue_threads;
  wq_thread V t := is_Some (nodes (wheap V) !! t); wq_wake := sched_wake_one; wq_wait := queue_wait;
  wq_nodup := queue_nodup; wq_wake_law := queue_wake_law; wq_wait_law := queue_wait_law
}.
End Queues.

(** ** Thread 5 sleeps on the mutex that thread 6 has *)

Module Demo.
Import WaitQueue Waiting Mutex.
#[local] Existing Instance arch64.

Definition mx0 : mstate := mk_mstate mutex_init demo1 (fun _ => Outside) 0.
Definition with_queue (h : Z) : mutex_t := mk_mutex h (Some 1).
Definition mx1 : mstate := go 6 (Entering (Some 1)) (with_mutex (with_queue 0) mx0).
Definition mx2 : mstate := go 6 Inside (with_mutex (with_queue 1) mx1).
Definition mx3 : mstate := go 5 (Entering (Some 1)) (with_mutex (with_queue 1) mx2).
Definition mx4 : mstate := go 5 (Busy (Some 1) 0) (with_mutex (with_queue 1) mx3).
Definition asleep5 : wait_state_t := default demo1 (snd <$> queue_wait (core 0) 1 5 0 demo1).
Definition mx5 : mstate := go 5 (Asleep 1) (with_waits asleep5 mx4).

Lemma mx0_fresh : mutex_fresh mx0.
Proof. split_and!; [done| |done|done]. eapply steps_inv; [exists ∅; apply booted_inv, demo_booted|exact demo1_steps]. Qed.

Lemma mx_fresh_ok s : waits s = demo1 -> fresh_ok s (Some 1).
Proof. intros E q [= <-]. rewrite E. split; vm_compute; reflexivity. Qed.

Lemma asleep5_eq : queue_wait (core 0) 1 5 0 demo1 = Some (true, asleep5).
Proof. unfold asleep5. assert (Hb : fst <$> queue_wait (core 0) 1 5 0 demo1 = Some true) by (vm_compute; reflexivity). destruct (queue_wait _ _ _ _ _) as [[b V]|]; [|done]. by injection Hb as ->. Qed.

Lemma mx5_steps : rtc mutex_step mx0 mx5.
Proof.
  eapply rtc_l; [apply (ms_enter mx0 6 (Some 1)); [done|by apply mx_fresh_ok|reflexivity]|].
  eapply rtc_l; [apply (ms_round mx1 6 (Some 1)); reflexivity|].
  eapply rtc_l; [apply (ms_enter mx2 5 None); [reflexivity|done|reflexivity]|].
  eapply rtc_l; [apply (ms_round mx3 5 (Some 1)); [reflexivity|vm_compute; reflexivity]|].
  apply rtc_once. apply (ms_wait mx4 5 (core 0) 1 0 true); [reflexivity|by vm_compute|vm_compute; by eexists|exact asleep5_eq].
Qed.

Lemma mutex_exclusive_witness :
  rtc mutex_step mx0 mx5 /\ places mx5 6 = Inside /\ held (mtx mx5) = 1 /\ forall t, places mx5 t = Inside -> t = 6.
Proof.
  destruct (mutex_exclusive mx0 mx5 mx0_fresh mx5_steps) as [Hone Hheld]. split; [exact mx5_steps|]. split; [reflexivity|].
  split; [apply Hheld; exists 6; reflexivity|]. intros t Ht. apply Hone; [exact Ht|reflexivity].
Defined.

Lemma mutex_never_stuck_witness :
  queue_threads (waits mx5) 1 = [5] /\ places mx5 5 = Asleep 1 /\ exists u s'', at_it mx5 u /\ mutex_step mx5 s'' /\ places s'' u <> places mx5 u.
Proof.
  assert (E : queue_threads (waits mx5) 1 = [5]) by (vm_compute; reflexivity). split; [exact E|].
  apply (mutex_never_stuck mx0 mx5 1 5 mx0_fresh mx5_steps); [by vm_compute|reflexivity|]. cbn [wq_asleep sched_wait_queues]. rewrite E. by left.
Defined.
End Demo.
