(* ===== verification/WideArith.v ===== *)
(** * Wide integer arithmetic: [libs/libc/div64.c] and [libs/libc/builtins.c]

    The runtime routines the compiler calls on 32-bit targets for 64-bit division, multiplication,
    shifts and comparisons, and on targets without a multiplier or divider for the 32-bit ones.  A
    [u32] or [u64] is a [Z] below [2^32] or [2^64] with its wrap-around written out; an [i64] is a [Z]
    and its conversions go through [u64].  A loop takes as fuel the number of bits of its counter and
    answers [None] when that is not enough, which never happens. *)

From S2P Require Import Prelude Memory.
Open Scope Z_scope.

Module WideArith.

(** [(i32) v], [(i64) v] and [(__int128) v] of an unsigned value. *)
Definition to_signed (bits v : Z) : Z := if v <? 2 ^ (bits - 1) then v else v - 2 ^ bits.
Definition i32_of (v : Z) : Z := to_signed 32 v.
Definition i64_of (v : Z) : Z := to_signed 64 v.
Definition u128_wrap (v : Z) : Z := v mod 2 ^ 128.

(** ** [builtins.c] *)

(** [while (rhs)] of [_umul32]. *)
Fixpoint umul32_loop (fuel : nat) (lhs rhs result : Z) : option Z :=
  if rhs =? 0 then Some result
  else
    match fuel with
    | O => None
    | S fuel =>
        let result := if negb (Z.land rhs 1 =? 0) then u32_wrap (result + lhs) else result in
        umul32_loop fuel (u32_wrap (Z.shiftl lhs 1)) (Z.shiftr rhs 1) result
    end.

Definition _umul32 (lhs rhs : Z) : option Z := umul32_loop 32 lhs rhs 0.

(** [while (rhs_lo || rhs_hi)] of [_umul64]. *)
Fixpoint umul64_loop (fuel : nat) (lhs_lo lhs_hi rhs_lo rhs_hi result_lo result_hi : Z) : option (Z * Z) :=
  if (rhs_lo =? 0) && (rhs_hi =? 0) then Some (result_lo, result_hi)
  else
    match fuel with
    | O => None
    | S fuel =>
        let '(result_lo, result_hi) :=
          if negb (Z.land rhs_lo 1 =? 0) then
            let old_lo := result_lo in
            let result_lo := u32_wrap (result_lo + lhs_lo) in
            (result_lo, u32_wrap (result_hi + u32_wrap (lhs_hi + (if result_lo <? old_lo then 1 else 0))))
          else (result_lo, result_hi) in
        let lhs_hi := Z.lor (u32_wrap (Z.shiftl lhs_hi 1)) (Z.shiftr lhs_lo 31) in
        let lhs_lo := u32_wrap (Z.shiftl lhs_lo 1) in
        let rhs_lo := Z.lor (Z.shiftr rhs_lo 1) (u32_wrap (Z.shiftl rhs_hi 31)) in
        let rhs_hi := Z.shiftr rhs_hi 1 in
        umul64_loop fuel lhs_lo lhs_hi rhs_lo rhs_hi result_lo result_hi
    end.

Definition _umul64 (lhs rhs : Z) : option Z :=
  '(lo, hi) ← umul64_loop 64 (u32_wrap lhs) (u32_wrap (Z.shiftr lhs 32))
                (u32_wrap rhs) (u32_wrap (Z.shiftr rhs 32)) 0 0;
  Some (Z.lor (u64_wrap (Z.shiftl hi 32)) lo).

(** [_umul128_64], answering [hi] and [lo]. *)
Definition _umul128_64 (lhs rhs : Z) : option (Z * Z) :=
  let lhs_lo := u32_wrap lhs in
  let lhs_hi := Z.shiftr lhs 32 in
  let rhs_lo := u32_wrap rhs in
  let rhs_hi := Z.shiftr rhs 32 in
  p0 ← _umul64 lhs_lo rhs_lo;
  p1 ← _umul64 lhs_lo rhs_hi;
  p2 ← _umul64 lhs_hi rhs_lo;
  p3 ← _umul64 lhs_hi rhs_hi;
  let carry := u64_wrap (u64_wrap (Z.shiftr p0 32 + u32_wrap p1) + u32_wrap p2) in
  let lo := Z.lor (Z.land p0 0xffffffff) (u64_wrap (Z.shiftl carry 32)) in
  let hi := u64_wrap (u64_wrap (u64_wrap (p3 + Z.shiftr p1 32) + Z.shiftr p2 32) + Z.shiftr carry 32) in
  Some (hi, lo).

(** [for (int bit = 31; bit >= 0; bit--)] of [_udivmod32]: [n] is [bit + 1]. *)
Fixpoint udivmod32_loop (n : nat) (num den quot rem : Z) : Z * Z :=
  match n with
  | O => (quot, rem)
  | S n =>
      let bit := Z.of_nat n in
      let rem := Z.lor (u32_wrap (Z.shiftl rem 1)) (Z.land (Z.shiftr num bit) 1) in
      if den <=? rem then udivmod32_loop n num den (Z.lor quot (Z.shiftl 1 bit)) (rem - den)
      else udivmod32_loop n num den quot rem
  end.

(** The quotient and what is stored at [rem_out] when it is not null. *)
Definition _udivmod32 (num den : Z) : Z * Z :=
  if den =? 0 then (0, 0) else udivmod32_loop 32 num den 0 0.

Definition __mulsi3 (lhs rhs : Z) : option Z := _umul32 lhs rhs.
Definition __muldi3 (lhs rhs : Z) : option Z := _umul64 lhs rhs.

(** The union gives the low and high halves of a 128-bit value. *)
Definition __multi3 (lhs rhs : Z) : option Z :=
  let a := u128_wrap lhs in
  let b := u128_wrap rhs in
  '(lo_hi, lo_lo) ← _umul128_64 (a mod 2 ^ 64) (b mod 2 ^ 64);
  m1 ← _umul64 (a mod 2 ^ 64) (b / 2 ^ 64);
  m2 ← _umul64 (a / 2 ^ 64) (b mod 2 ^ 64);
  let hi := u64_wrap (u64_wrap (lo_hi + m1) + m2) in
  Some (to_signed 128 (hi * 2 ^ 64 + lo_lo)).

Definition __udivsi3 (num den : Z) : Z := fst (_udivmod32 num den).
Definition __umodsi3 (num den : Z) : Z := snd (_udivmod32 num den).

Definition __divsi3 (num den : Z) : Z :=
  let neg := false in
  let unum := u32_wrap num in
  let uden := u32_wrap den in
  let '(neg, unum) := if num <? 0 then (negb neg, u32_wrap (0 - unum)) else (neg, unum) in
  let '(neg, uden) := if den <? 0 then (negb neg, u32_wrap (0 - uden)) else (neg, uden) in
  let quot := fst (_udivmod32 unum uden) in
  if neg : bool then i32_of (u32_wrap (0 - quot)) else i32_of quot.

Definition __modsi3 (num den : Z) : Z :=
  let unum := u32_wrap num in
  let uden := u32_wrap den in
  let unum := if num <? 0 then u32_wrap (0 - unum) else unum in
  let uden := if den <? 0 then u32_wrap (0 - uden) else uden in
  let rem := snd (_udivmod32 unum uden) in
  if num <? 0 then i32_of (u32_wrap (0 - rem)) else i32_of rem.

(** [while (shift--)]: [f] is one single-bit shift. *)
Fixpoint shift_loop (n : nat) (f : Z -> Z) (value : Z) : Z :=
  match n with O => value | S n => shift_loop n f (f value) end.

Definition __ashldi3 (value shift : Z) : Z :=
  if 64 <=? shift then 0 else shift_loop (Z.to_nat shift) (fun v => u64_wrap (Z.shiftl v 1)) value.
Definition __lshrdi3 (value shift : Z) : Z :=
  if 64 <=? shift then 0 else shift_loop (Z.to_nat shift) (fun v => Z.shiftr v 1) value.
Definition __ashrdi3 (value shift : Z) : Z :=
  if 64 <=? shift then if value <? 0 then -1 else 0
  else shift_loop (Z.to_nat shift) (fun v => Z.shiftr v 1) value.

Fixpoint ctz_loop (fuel : nat) (value count : Z) : option Z :=
  if negb (Z.land value 1 =? 0) then Some count
  else match fuel with O => None | S fuel => ctz_loop fuel (Z.shiftr value 1) (count + 1) end.

Definition __ctzdi2 (value : Z) : option Z := if value =? 0 then Some 64 else ctz_loop 64 value 0.

Fixpoint clz_loop (fuel : nat) (value bit count : Z) : option Z :=
  if negb (Z.land value bit =? 0) then Some count
  else match fuel with O => None | S fuel => clz_loop fuel value (Z.shiftr bit 1) (count + 1) end.

Definition __clzdi2 (value : Z) : option Z :=
  if value =? 0 then Some 64 else clz_loop 64 value (Z.shiftl 1 63) 0.

Definition __ucmpdi2 (lhs rhs : Z) : Z := if lhs <? rhs then 0 else if rhs <? lhs then 2 else 1.
Definition __cmpdi2 (lhs rhs : Z) : Z := if lhs <? rhs then 0 else if rhs <? lhs then 2 else 1.

(** ** [div64.c] *)

(** [do ... while (bit)] of [udivmod64]. *)
Fixpoint div_loop (fuel : nat) (n divisor bit q : Z) : option (Z * Z) :=
  match fuel with
  | O => None
  | S fuel =>
      let '(n, q) := if divisor <=? n then (n - divisor, Z.lor q bit) else (n, q) in
      let divisor := Z.shiftr divisor 1 in
      let bit := Z.shiftr bit 1 in
      if bit =? 0 then Some (q, n) else div_loop fuel n divisor bit q
  end.

(** The quotient and what is stored at [rem] when it is not null.  [__builtin_ctzll] and
    [__builtin_clzll] are the routines above. *)
Definition udivmod64 (n d : Z) : option (Z * Z) :=
  if d =? 0 then Some (0, 0)
  else if n <? d then Some (0, n)
  else if d =? 1 then Some (n, 0)
  else if Z.land d (d - 1) =? 0 then
    shift ← __ctzdi2 d; Some (Z.shiftr n shift, Z.land n (d - 1))
  else if n <=? UINT32_MAX then
    let n32 := u32_wrap n in
    let d32 := u32_wrap d in
    let q32 := n32 / d32 in
    Some (q32, u32_wrap (n32 - u32_wrap (q32 * d32)))
  else
    cd ← __clzdi2 d;
    cn ← __clzdi2 n;
    let shift := u32_wrap (cd - cn) in
    div_loop 64 n (u64_wrap (Z.shiftl d shift)) (u64_wrap (Z.shiftl 1 shift)) 0.

Definition i64_magnitude (value : Z) : Z :=
  let bits := u64_wrap value in if value <? 0 then u64_wrap (0 - bits) else bits.

Definition i64_sign (value : Z) (negative : bool) : Z :=
  i64_of (if negative then u64_wrap (0 - value) else value).

Definition __udivdi3 (n d : Z) : option Z := '(q, _) ← udivmod64 n d; Some q.
Definition __umoddi3 (n d : Z) : option Z := '(_, r) ← udivmod64 n d; Some r.
Definition __udivmoddi4 (n d : Z) : option (Z * Z) := udivmod64 n d.

Definition __divdi3 (n d : Z) : option Z :=
  let negative := xorb (n <? 0) (d <? 0) in
  '(q, _) ← udivmod64 (i64_magnitude n) (i64_magnitude d);
  Some (i64_sign q negative).

Definition __moddi3 (n d : Z) : option Z :=
  '(_, r) ← udivmod64 (i64_magnitude n) (i64_magnitude d);
  Some (i64_sign r (n <? 0)).

Definition __divmoddi4 (n d : Z) : option (Z * Z) :=
  let negative := xorb (n <? 0) (d <? 0) in
  '(q, r) ← udivmod64 (i64_magnitude n) (i64_magnitude d);
  Some (i64_sign q negative, i64_sign r (n <? 0)).

(** ** Multiplication *)

Lemma half_split z : z = 2 * Z.shiftr z 1 + z mod 2.
Proof. rewrite Z.shiftr_div_pow2, Z.pow_1_r by lia. apply Z.div_mod. lia. Qed.

Lemma half_bound z (fuel : nat) : 0 <= z < 2 ^ Z.of_nat (S fuel) -> 0 <= Z.shiftr z 1 < 2 ^ Z.of_nat fuel.
Proof.
  rewrite Nat2Z.inj_succ, Z.pow_succ_r by lia. intros Hz. rewrite Z.shiftr_div_pow2, Z.pow_1_r by lia.
  split; [apply Z.div_pos; lia|apply Z.div_lt_upper_bound; lia].
Qed.

(** One round of shift-and-add. *)
Lemma mul_round M lhs rhs r :
  ((if negb (Z.land rhs 1 =? 0) then (r + lhs) mod M else r) + (2 * lhs) mod M * Z.shiftr rhs 1) mod M =
  (r + lhs * rhs) mod M.
Proof.
  rewrite land_1. pose proof (half_split rhs) as Hs. pose proof (Z.mod_pos_bound rhs 2 ltac:(lia)).
  rewrite Zplus_mod, Zmult_mod, Zmod_mod, <- Zmult_mod. case_test.
  - rewrite Zmod_mod, <- Zplus_mod. f_equal. rewrite Hs at 2. replace (rhs mod 2) with 1 by lia. ring.
  - rewrite <- Zplus_mod. f_equal. rewrite Hs at 2. replace (rhs mod 2) with 0 by lia. ring.
Qed.

Lemma umul32_loop_ok fuel lhs rhs r :
  0 <= rhs < 2 ^ Z.of_nat fuel -> 0 <= r < 2 ^ 32 ->
  umul32_loop fuel lhs rhs r = Some (u32_wrap (r + lhs * rhs)).
Proof.
  revert lhs rhs r. induction fuel as [|fuel IH]; intros lhs rhs r Hr Hb; cbn [umul32_loop]; case_test.
  - subst. by rewrite Z.mul_0_r, Z.add_0_r, u32_wrap_small.
  - exfalso. change (2 ^ Z.of_nat 0) with 1 in Hr. lia.
  - subst. by rewrite Z.mul_0_r, Z.add_0_r, u32_wrap_small.
  - rewrite IH; [|by apply half_bound|case_test; [apply Z.mod_pos_bound|]; lia].
    f_equal. rewrite Z.shiftl_mul_pow2, Z.pow_1_r, (Z.mul_comm lhs 2) by lia. apply mul_round.
Qed.

(** A 64-bit value as two 32-bit halves. *)
Definition pair64 (lo hi : Z) : Z := hi * 2 ^ 32 + lo.
Definition half (z : Z) : Prop := 0 <= z < 2 ^ 32.

Lemma pair64_bound lo hi : half lo -> half hi -> 0 <= pair64 lo hi < 2 ^ 64.
Proof. unfold half, pair64. lia. Qed.

Lemma pair64_add alo ahi blo bhi :
  half alo -> half ahi -> half blo -> half bhi ->
  let lo := u32_wrap (alo + blo) in
  let hi := u32_wrap (ahi + u32_wrap (bhi + (if lo <? alo then 1 else 0))) in
  half lo /\ half hi /\ pair64 lo hi = (pair64 alo ahi + pair64 blo bhi) mod 2 ^ 64.
Proof.
  intros Ha Ha' Hb Hb' lo hi. unfold half in *. set (c := if lo <? alo then 1 else 0) in *.
  assert (Hlo : 0 <= lo < 2 ^ 32) by (apply Z.mod_pos_bound; lia).
  assert (Hhi : 0 <= hi < 2 ^ 32) by (apply Z.mod_pos_bound; lia).
  assert (Hc : alo + blo = c * 2 ^ 32 + lo).
  { unfold c, lo, u32_wrap. rewrite mod_once by lia. repeat case_test; lia. }
  assert (Hq : ahi + bhi + c = 2 ^ 32 * ((ahi + bhi + c) / 2 ^ 32) + hi).
  { unfold hi, u32_wrap. rewrite Zplus_mod_idemp_r, Z.add_assoc. apply Z.div_mod. lia. }
  split; [done|]. split; [done|]. apply Z.mod_unique with ((ahi + bhi + c) / 2 ^ 32); unfold pair64; lia.
Qed.

Lemma pair64_double lo hi :
  half lo -> half hi ->
  let hi' := Z.lor (u32_wrap (Z.shiftl hi 1)) (Z.shiftr lo 31) in let lo' := u32_wrap (Z.shiftl lo 1) in
  half lo' /\ half hi' /\ pair64 lo' hi' = (2 * pair64 lo hi) mod 2 ^ 64.
Proof.
  intros Hl Hh hi' lo'. unfold half in *.
  assert (Hhi : hi' = (hi mod 2 ^ 31) * 2 + lo / 2 ^ 31).
  { unfold hi', u32_wrap. rewrite Z.shiftr_div_pow2, Z.shiftl_mul_pow2 by lia.
    change (2 ^ 32) with (2 ^ 31 * 2 ^ 1). rewrite Z.mul_mod_distr_r by lia. apply lor_low; [lia|].
    split; [apply Z.div_pos; lia|apply Z.div_lt_upper_bound; lia]. }
  assert (Hlo : lo' = 2 * (lo mod 2 ^ 31)).
  { unfold lo', u32_wrap. rewrite Z.shiftl_mul_pow2, Z.mul_comm by lia. change (2 ^ 32) with (2 * 2 ^ 31).
    by rewrite Z.mul_mod_distr_l by lia. }
  pose proof (Z.div_mod lo (2 ^ 31) ltac:(lia)). pose proof (Z.div_mod hi (2 ^ 31) ltac:(lia)).
  pose proof (Z.mod_pos_bound lo (2 ^ 31) ltac:(lia)). pose proof (Z.mod_pos_bound hi (2 ^ 31) ltac:(lia)).
  assert (0 <= lo / 2 ^ 31 < 2) by (split; [apply Z.div_pos|apply Z.div_lt_upper_bound]; lia).
  assert (0 <= hi / 2 ^ 31 < 2) by (split; [apply Z.div_pos|apply Z.div_lt_upper_bound]; lia).
  rewrite Hhi, Hlo. split; [lia|]. split; [lia|]. apply Z.mod_unique with (hi / 2 ^ 31); unfold pair64; lia.
Qed.

Lemma pair64_halve lo hi :
  half lo -> half hi ->
  let lo' := Z.lor (Z.shiftr lo 1) (u32_wrap (Z.shiftl hi 31)) in let hi' := Z.shiftr hi 1 in
  half lo' /\ half hi' /\ pair64 lo' hi' = Z.shiftr (pair64 lo hi) 1 /\ Z.land (pair64 lo hi) 1 = Z.land lo 1.
Proof.
  intros Hl Hh lo' hi'. unfold half in *.
  assert (Hlo : lo' = (hi mod 2) * 2 ^ 31 + lo / 2).
  { unfold lo'. rewrite Z.lor_comm, Z.shiftl_mul_pow2, Z.shiftr_div_pow2, Z.pow_1_r by lia. unfold u32_wrap.
    change (2 ^ 32) with (2 * 2 ^ 31). rewrite Z.mul_mod_distr_r by lia.
    apply lor_low; [lia|]. split; [apply Z.div_pos; lia|apply Z.div_lt_upper_bound; lia]. }
  assert (Hhi : hi' = hi / 2) by (unfold hi'; by rewrite Z.shiftr_div_pow2, Z.pow_1_r by lia).
  pose proof (Z.div_mod lo 2 ltac:(lia)). pose proof (Z.div_mod hi 2 ltac:(lia)).
  pose proof (Z.mod_pos_bound lo 2 ltac:(lia)). pose proof (Z.mod_pos_bound hi 2 ltac:(lia)).
  rewrite Hhi, Hlo, !land_1, Z.shiftr_div_pow2, Z.pow_1_r by lia. split; [lia|]. split; [lia|]. split.
  - apply Z.div_unique with (lo mod 2); unfold pair64; lia.
  - unfold pair64. change (2 ^ 32) with (2 ^ 31 * 2). rewrite Z.mul_assoc, Z.add_comm. apply Z.mod_add. lia.
Qed.

Lemma umul64_loop_ok fuel llo lhi rlo rhi slo shi :
  half llo -> half lhi -> half rlo -> half rhi -> half slo -> half shi ->
  pair64 rlo rhi < 2 ^ Z.of_nat fuel ->
  exists lo hi, umul64_loop fuel llo lhi rlo rhi slo shi = Some (lo, hi) /\ half lo /\ half hi /\
    pair64 lo hi = u64_wrap (pair64 slo shi + pair64 llo lhi * pair64 rlo rhi).
Proof.
  revert llo lhi rlo rhi slo shi. induction fuel as [|fuel IH]; intros llo lhi rlo rhi slo shi Hl1 Hl2 Hr1 Hr2 Hs1 Hs2 Hf;
    cbn [umul64_loop]; destruct ((rlo =? 0) && (rhi =? 0)) eqn:E.
  1, 3: bool_facts; subst; exists slo, shi; split_and!; try done;
    change (pair64 0 0) with 0; rewrite Z.mul_0_r, Z.add_0_r, u64_wrap_small by (by apply pair64_bound); done.
  - exfalso. change (2 ^ Z.of_nat 0) with 1 in Hf. unfold half, pair64 in *. apply andb_false_iff in E as [E|E]; bool_facts; lia.
  - destruct (pair64_add slo shi llo lhi) as (Ha1 & Ha2 & Ha); try done.
    destruct (pair64_double llo lhi) as (Hd1 & Hd2 & Hd); try done.
    destruct (pair64_halve rlo rhi) as (Hh1 & Hh2 & Hh & Hb); try done.
    assert (Hf' : pair64 (Z.lor (Z.shiftr rlo 1) (u32_wrap (Z.shiftl rhi 31))) (Z.shiftr rhi 1) < 2 ^ Z.of_nat fuel).
    { rewrite Hh. apply half_bound. split; [apply pair64_bound; done|done]. }
    pose proof (mul_round (2 ^ 64) (pair64 llo lhi) (pair64 rlo rhi) (pair64 slo shi)) as Hm. rewrite Hb in Hm.
    destruct (negb (Z.land rlo 1 =? 0)) eqn:Eb; cbn zeta.
    + destruct (IH _ _ _ _ _ _ Hd1 Hd2 Hh1 Hh2 Ha1 Ha2 Hf') as (lo & hi & Hx & Hlo & Hhi & Hv).
      exists lo, hi. split_and!; [exact Hx|done|done|]. rewrite Hv, Ha, Hd, Hh. exact Hm.
    + destruct (IH _ _ _ _ _ _ Hd1 Hd2 Hh1 Hh2 Hs1 Hs2 Hf') as (lo & hi & Hx & Hlo & Hhi & Hv).
      exists lo, hi. split_and!; [exact Hx|done|done|]. rewrite Hv, Hd, Hh. exact Hm.
Qed.

Lemma split64 z : 0 <= z < 2 ^ 64 ->
  half (u32_wrap z) /\ half (u32_wrap (Z.shiftr z 32)) /\ u32_wrap (Z.shiftr z 32) = Z.shiftr z 32 /\
  pair64 (u32_wrap z) (Z.shiftr z 32) = z.
Proof.
  intros Hz. unfold half, pair64, u32_wrap. rewrite Z.shiftr_div_pow2 by lia.
  assert (0 <= z / 2 ^ 32 < 2 ^ 32) by (split; [apply Z.div_pos|apply Z.div_lt_upper_bound]; lia).
  pose proof (Z.mod_pos_bound z (2 ^ 32) ltac:(lia)). pose proof (Z.div_mod z (2 ^ 32) ltac:(lia)).
  rewrite (Z.mod_small (z / 2 ^ 32)) by lia. lia.
Qed.

Lemma join64 lo hi : half lo -> half hi -> Z.lor (u64_wrap (Z.shiftl hi 32)) lo = pair64 lo hi.
Proof.
  unfold half. intros. rewrite Z.shiftl_mul_pow2, u64_wrap_small by lia. apply lor_low; lia.
Qed.

(** 64-bit multiplication wraps around as C's does. *)
Lemma umul64_ok lhs rhs :
  0 <= lhs < 2 ^ 64 -> 0 <= rhs < 2 ^ 64 -> _umul64 lhs rhs = Some (u64_wrap (lhs * rhs)).
Proof.
  intros Hl Hr. unfold _umul64. destruct (split64 lhs Hl) as (Hl1 & Hl2 & Hl3 & Hl4).
  destruct (split64 rhs Hr) as (Hr1 & Hr2 & Hr3 & Hr4).
  destruct (umul64_loop_ok 64 _ _ _ _ 0 0 Hl1 Hl2 Hr1 Hr2) as (lo & hi & Hx & Hlo & Hhi & Hv);
    [unfold half; lia|unfold half; lia|rewrite Hr3, Hr4; lia|].
  rewrite Hx. cbn [mbind option_bind]. rewrite join64, Hv, Hl3, Hl4, Hr3, Hr4 by done. done.
Qed.

Lemma umul64_exact a b : half a -> half b -> _umul64 a b = Some (a * b).
Proof.
  unfold half. intros. assert (0 <= a * b < 2 ^ 64) by nia.
  rewrite umul64_ok, u64_wrap_small by lia. done.
Qed.

Lemma div_mod32 z : 0 <= z < 2 ^ 64 -> z = 2 ^ 32 * (z / 2 ^ 32) + z mod 2 ^ 32 /\ 0 <= z mod 2 ^ 32 < 2 ^ 32 /\ 0 <= z / 2 ^ 32 < 2 ^ 32.
Proof.
  intros Hz. pose proof (Z.div_mod z (2 ^ 32) ltac:(lia)). pose proof (Z.mod_pos_bound z (2 ^ 32) ltac:(lia)).
  split_and!; lia.
Qed.

(** The schoolbook product of two 64-bit values: all 128 bits. *)
Lemma umul128_ok lhs rhs :
  0 <= lhs < 2 ^ 64 -> 0 <= rhs < 2 ^ 64 ->
  exists hi lo, _umul128_64 lhs rhs = Some (hi, lo) /\ 0 <= hi < 2 ^ 64 /\ 0 <= lo < 2 ^ 64 /\
    hi * 2 ^ 64 + lo = lhs * rhs.
Proof.
  intros Hl Hr. unfold _umul128_64. destruct (split64 lhs Hl) as (Hl1 & Hl2 & Hl3 & Hl4).
  destruct (split64 rhs Hr) as (Hr1 & Hr2 & Hr3 & Hr4). rewrite Hl3 in Hl2. rewrite Hr3 in Hr2.
  set (a0 := u32_wrap lhs) in *. set (a1 := Z.shiftr lhs 32) in *. set (b0 := u32_wrap rhs) in *. set (b1 := Z.shiftr rhs 32) in *.
  cbn zeta. rewrite !umul64_exact by done. cbn [mbind option_bind]. unfold half in *.
  assert (Hp : forall x y, 0 <= x < 2 ^ 32 -> 0 <= y < 2 ^ 32 -> 0 <= x * y <= (2 ^ 32 - 1) * (2 ^ 32 - 1)) by (intros; nia).
  pose proof (Hp a0 b0) as P0. pose proof (Hp a0 b1) as P1. pose proof (Hp a1 b0) as P2. pose proof (Hp a1 b1) as P3.
  assert (Hprod : lhs * rhs = (a1 * b1) * 2 ^ 64 + (a0 * b1 + a1 * b0) * 2 ^ 32 + a0 * b0).
  { rewrite <- Hl4, <- Hr4. unfold pair64. ring. }
  generalize dependent (a0 * b0). generalize dependent (a0 * b1). generalize dependent (a1 * b0). generalize dependent (a1 * b1).
  intros p3 P3 p2 P2 p1 P1 p0 P0 Hprod. rewrite Hprod.
  rewrite !Z.shiftr_div_pow2 by lia. change 0xffffffff with (2 ^ 32 - 1). rewrite land_mask by lia. unfold u32_wrap.
  destruct (div_mod32 p0) as (E0 & M0 & D0); [lia|]. destruct (div_mod32 p1) as (E1 & M1 & D1); [lia|].
  destruct (div_mod32 p2) as (E2 & M2 & D2); [lia|].
  rewrite (u64_wrap_small (p0 / 2 ^ 32 + _)) by lia. rewrite (u64_wrap_small (_ + p2 mod 2 ^ 32)) by lia.
  set (carry := p0 / 2 ^ 32 + p1 mod 2 ^ 32 + p2 mod 2 ^ 32).
  destruct (div_mod32 carry) as (Ec & Mc & Dc); [lia|].
  assert (Hlo : Z.lor (p0 mod 2 ^ 32) (u64_wrap (Z.shiftl carry 32)) = (carry mod 2 ^ 32) * 2 ^ 32 + p0 mod 2 ^ 32).
  { rewrite Z.lor_comm, Z.shiftl_mul_pow2 by lia. unfold u64_wrap. change (2 ^ 64) with (2 ^ 32 * 2 ^ 32).
    rewrite Z.mul_mod_distr_r by lia. by apply lor_low. }
  rewrite Hlo. rewrite (u64_wrap_small (p3 + _)) by lia. rewrite (u64_wrap_small (_ + p2 / 2 ^ 32)) by lia.
  rewrite u64_wrap_small by lia. do 2 eexists. split; [reflexivity|]. lia.
Qed.

(** 128-bit multiplication wraps around in two's complement. *)
Lemma multi3_ok lhs rhs : __multi3 lhs rhs = Some (to_signed 128 (u128_wrap (lhs * rhs))).
Proof.
  unfold __multi3. cbn zeta. set (a := u128_wrap lhs). set (b := u128_wrap rhs).
  assert (Ha : 0 <= a < 2 ^ 128) by (apply Z.mod_pos_bound; lia).
  assert (Hb : 0 <= b < 2 ^ 128) by (apply Z.mod_pos_bound; lia).
  assert (Hd : forall z, 0 <= z < 2 ^ 128 -> 0 <= z mod 2 ^ 64 < 2 ^ 64 /\ 0 <= z / 2 ^ 64 < 2 ^ 64 /\ z = 2 ^ 64 * (z / 2 ^ 64) + z mod 2 ^ 64).
  { intros z Hz. split_and!; [by apply Z.mod_pos_bound|by apply Z.mod_pos_bound|apply Z.div_pos; lia|apply Z.div_lt_upper_bound; lia|].
    apply Z.div_mod. lia. }
  destruct (Hd a Ha) as (A0 & A1 & EA). destruct (Hd b Hb) as (B0 & B1 & EB).
  destruct (umul128_ok (a mod 2 ^ 64) (b mod 2 ^ 64) A0 B0) as (hi & lo & -> & Hhi & Hlo & Hv).
  cbn [mbind option_bind]. rewrite !umul64_ok by done. cbn [mbind option_bind]. do 2 f_equal.
  assert (Hab : u128_wrap (lhs * rhs) = u128_wrap (a * b)) by (unfold u128_wrap, a, b; apply Zmult_mod).
  rewrite Hab. unfold u64_wrap. rewrite Zplus_mod_idemp_l, Zplus_mod_idemp_r.
  set (a0 := a mod 2 ^ 64) in *. set (a1 := a / 2 ^ 64) in *. set (b0 := b mod 2 ^ 64) in *. set (b1 := b / 2 ^ 64) in *.
  rewrite <- (Zplus_mod_idemp_l (hi + _)), Zplus_mod_idemp_r, Zplus_mod_idemp_l.
  set (t := hi + a0 * b1 + a1 * b0). pose proof (Z.div_mod t (2 ^ 64) ltac:(lia)) as Ht.
  pose proof (Z.mod_pos_bound t (2 ^ 64) ltac:(lia)) as Hm.
  apply Z.mod_unique with (t / 2 ^ 64 + a1 * b1); [lia|].
  transitivity (a1 * b1 * 2 ^ 128 + (t - hi) * 2 ^ 64 + a0 * b0).
  { rewrite EA, EB. unfold t. fold a0 a1 b0 b1. ring. }
  rewrite <- Hv. replace (t - hi) with (2 ^ 64 * (t / 2 ^ 64) + t mod 2 ^ 64 - hi) by lia.
  change (2 ^ 128) with (2 ^ 64 * 2 ^ 64). ring.
Qed.

(** ** Shifts and bit counts *)

Lemma ashl_ok value (n : nat) :
  0 <= value < 2 ^ 64 -> shift_loop n (fun v => u64_wrap (Z.shiftl v 1)) value = u64_wrap (value * 2 ^ Z.of_nat n).
Proof.
  revert value. induction n as [|n IH]; intros value Hv; cbn [shift_loop].
  - by rewrite Z.mul_1_r, u64_wrap_small.
  - rewrite IH by (apply Z.mod_pos_bound; lia). rewrite Z.shiftl_mul_pow2, Z.pow_1_r by lia. unfold u64_wrap.
    rewrite Zmult_mod_idemp_l. f_equal. rewrite Nat2Z.inj_succ, Z.pow_succ_r by lia. ring.
Qed.

Lemma shr_ok value (n : nat) : shift_loop n (fun v => Z.shiftr v 1) value = value / 2 ^ Z.of_nat n.
Proof.
  revert value. induction n as [|n IH]; intros value; cbn [shift_loop].
  - by rewrite Z.div_1_r.
  - rewrite IH, <- !Z.shiftr_div_pow2, Z.shiftr_shiftr by lia. f_equal. lia.
Qed.

Lemma ctz_loop_ok fuel v count :
  0 < v < 2 ^ Z.of_nat fuel ->
  exists c m, v = 2 ^ c * (2 * m + 1) /\ 0 <= c /\ 0 <= m /\ ctz_loop fuel v count = Some (count + c).
Proof.
  revert v count. induction fuel as [|fuel IH]; intros v count Hv; [change (2 ^ Z.of_nat 0) with 1 in Hv; lia|].
  cbn [ctz_loop]. rewrite land_1. pose proof (half_split v) as Hs. pose proof (Z.mod_pos_bound v 2 ltac:(lia)).
  pose proof (half_bound v fuel ltac:(lia)) as Hb. case_test.
  - exists 0, (Z.shiftr v 1). change (2 ^ 0) with 1. split_and!; [lia|lia|lia|]. f_equal. lia.
  - destruct (IH (Z.shiftr v 1) (count + 1)) as (c & m & Hc & Hc0 & Hm & He); [lia|].
    exists (c + 1), m. rewrite Z.pow_add_r by lia. change (2 ^ 1) with 2. split_and!; [lia|lia|lia|].
    rewrite He. f_equal. lia.
Qed.

Lemma ctz_ok v : 0 < v < 2 ^ 64 -> exists c m, v = 2 ^ c * (2 * m + 1) /\ 0 <= c /\ 0 <= m /\ __ctzdi2 v = Some c.
Proof. intros Hv. unfold __ctzdi2. test_lia. by apply (ctz_loop_ok 64 v 0). Qed.

Lemma pow2_odd c m k : 0 <= c -> 0 <= m -> 0 <= k -> 2 ^ k = 2 ^ c * (2 * m + 1) -> c = k.
Proof.
  intros Hc Hm Hk He. destruct (Z.lt_trichotomy c k) as [Hlt|[?|Hgt]]; [|done|].
  - replace k with (c + (1 + (k - c - 1))) in He by lia. rewrite !Z.pow_add_r, Z.pow_1_r in He by lia.
    apply Z.mul_cancel_l in He; [lia|]. apply Z.pow_nonzero; lia.
  - replace c with (k + (1 + (c - k - 1))) in He by lia. rewrite !Z.pow_add_r, Z.pow_1_r in He by lia.
    rewrite <- (Z.mul_1_r (2 ^ k)) in He at 1. rewrite <- !Z.mul_assoc in He.
    apply Z.mul_cancel_l in He; [lia|]. apply Z.pow_nonzero; lia.
Qed.

Lemma clz_loop_ok fuel v k count :
  0 < v < 2 ^ (k + 1) -> 0 <= k < Z.of_nat fuel -> clz_loop fuel v (2 ^ k) count = Some (count + k - Z.log2 v).
Proof.
  revert k count. induction fuel as [|fuel IH]; intros k count Hv Hk; [lia|]. cbn [clz_loop].
  rewrite land_pow2_test, negb_involutive by lia.
  assert (Hlk : Z.log2 v <= k) by (apply Z.lt_succ_r, Z.log2_lt_pow2; [lia|]; rewrite <- Z.add_1_r; lia).
  destruct (Z.testbit v k) eqn:Hb.
  - f_equal. assert (k <= Z.log2 v); [|lia]. apply Z.nlt_ge. intros Hl. rewrite Z.bits_above_log2 in Hb by lia. done.
  - assert (Hne : Z.log2 v <> k) by (intros <-; rewrite Z.bit_log2 in Hb by lia; done).
    assert (Hk1 : 1 <= k) by (pose proof (Z.log2_nonneg v); lia).
    rewrite Z.shiftr_div_pow2 by lia. replace k with (k - 1 + 1) at 1 by lia. rewrite Z.pow_add_r, Z.div_mul by lia.
    rewrite IH; [f_equal; lia| |lia]. replace (k - 1 + 1) with k by lia. split; [lia|]. apply Z.log2_lt_pow2; lia.
Qed.

Lemma clz_ok v : 0 < v < 2 ^ 64 -> __clzdi2 v = Some (63 - Z.log2 v).
Proof.
  intros Hv. unfold __clzdi2. test_lia. change (Z.shiftl 1 63) with (2 ^ 63).
  rewrite (clz_loop_ok 64 v 63 0) by (change (63 + 1) with 64; lia). f_equal.
Qed.

(** ** Division *)

Lemma div_step x den bit :
  0 < den -> 0 <= bit < 2 ->
  let r := 2 * (x mod den) + bit in
  if den <=? r then (2 * x + bit) / den = 2 * (x / den) + 1 /\ (2 * x + bit) mod den = r - den
  else (2 * x + bit) / den = 2 * (x / den) /\ (2 * x + bit) mod den = r.
Proof.
  intros Hd Hb r. pose proof (Z.div_mod x den ltac:(lia)) as Hx. pose proof (Z.mod_pos_bound x den Hd) as Hm.
  case_test; split; symmetry; unfold r in *.
  - apply Z.div_unique with (2 * (x mod den) + bit - den); lia.
  - apply Z.mod_unique with (2 * (x / den) + 1); lia.
  - apply Z.div_unique with (2 * (x mod den) + bit); lia.
  - apply Z.mod_unique with (2 * (x / den)); lia.
Qed.

Lemma udivmod32_loop_ok n num den :
  0 <= num < 2 ^ 32 -> 0 < den < 2 ^ 32 -> (n <= 32)%nat ->
  let x := num / 2 ^ Z.of_nat n in
  udivmod32_loop n num den (x / den * 2 ^ Z.of_nat n) (x mod den) = (num / den, num mod den).
Proof.
  intros Hn Hd. induction n as [|n IH]; intros Hle x; cbn [udivmod32_loop].
  { unfold x. change (2 ^ Z.of_nat 0) with 1. by rewrite Z.div_1_r, Z.mul_1_r. }
  set (k := Z.of_nat n). set (y := num / 2 ^ k). assert (Hk : 0 < 2 ^ k) by (apply Z.pow_pos_nonneg; lia).
  assert (Hx : x = y / 2).
  { unfold x, y. rewrite Z.div_div, Nat2Z.inj_succ, Z.pow_succ_r by lia. f_equal. fold k. lia. }
  assert (Hy : y = 2 * x + y mod 2) by (rewrite Hx; apply Z.div_mod; lia).
  pose proof (Z.mod_pos_bound y 2 ltac:(lia)) as Hbit. pose proof (Z.mod_pos_bound x den ltac:(lia)) as Hm.
  assert (Hy0 : 0 <= y < 2 ^ 32).
  { split; [apply Z.div_pos; lia|]. apply Z.div_lt_upper_bound; [lia|]. nia. }
  assert (Hx0 : 0 <= x) by (rewrite Hx; apply Z.div_pos; lia).
  assert (Hmx : x mod den <= x) by (apply Z.mod_le; lia).
  assert (Hrem : Z.lor (u32_wrap (Z.shiftl (x mod den) 1)) (Z.land (Z.shiftr num k) 1) = 2 * (x mod den) + y mod 2).
  { rewrite Z.shiftl_mul_pow2, u32_wrap_small, land_1, Z.shiftr_div_pow2 by lia. fold y.
    rewrite lor_low by lia. lia. }
  rewrite Hrem. pose proof (div_step x den (y mod 2) ltac:(lia) Hbit) as Hstep. cbn zeta in Hstep. rewrite <- Hy in Hstep.
  specialize (IH ltac:(lia)). cbn zeta in IH. fold k y in IH.
  rewrite Nat2Z.inj_succ, Z.pow_succ_r by lia. fold k. case_test; destruct Hstep as [Hq Hr]; rewrite <- IH, Hq, Hr.
  - f_equal. rewrite Z.shiftl_1_l. replace (x / den * (2 * 2 ^ k)) with (x / den * 2 ^ (k + 1)) by (rewrite Z.pow_add_r by lia; ring).
    rewrite lor_low; [rewrite Z.pow_add_r by lia; ring|lia|rewrite Z.pow_add_r by lia; lia].
  - f_equal. ring.
Qed.

Lemma udivmod32_ok num den :
  0 <= num < 2 ^ 32 -> 0 < den < 2 ^ 32 -> _udivmod32 num den = (num / den, num mod den).
Proof.
  intros Hn Hd. unfold _udivmod32. test_lia. pose proof (udivmod32_loop_ok 32 num den Hn Hd ltac:(lia)) as Hx.
  cbn zeta in Hx. change (Z.of_nat 32) with 32 in Hx. rewrite (Z.div_small num) in Hx by lia.
  rewrite Z.div_0_l, Z.mod_0_l in Hx by lia. exact Hx.
Qed.

Lemma div_loop_ok fuel n d k q :
  0 < d -> 0 <= k < Z.of_nat fuel -> 0 <= n < 2 * (d * 2 ^ k) ->
  div_loop fuel n (d * 2 ^ k) (2 ^ k) (q * 2 ^ (k + 1)) = Some (q * 2 ^ (k + 1) + n / d, n mod d).
Proof.
  revert n k q. induction fuel as [|fuel IH]; intros n k q Hd Hk Hn; [lia|]. cbn [div_loop].
  assert (Hp : 0 < 2 ^ k) by (apply Z.pow_pos_nonneg; lia).
  assert (Hlor : Z.lor (q * 2 ^ (k + 1)) (2 ^ k) = (2 * q + 1) * 2 ^ k).
  { rewrite lor_low; [rewrite Z.pow_add_r by lia; ring|lia|rewrite Z.pow_add_r by lia; lia]. }
  set (c := if d * 2 ^ k <=? n then 1 else 0). set (n' := n - c * (d * 2 ^ k)).
  assert (Hpair : (if d * 2 ^ k <=? n then (n - d * 2 ^ k, Z.lor (q * 2 ^ (k + 1)) (2 ^ k)) else (n, q * 2 ^ (k + 1))) =
                  (n', (2 * q + c) * 2 ^ k)).
  { unfold n', c. case_test; f_equal; rewrite ?Hlor, ?Z.pow_add_r by lia; ring. }
  rewrite Hpair. assert (Hn' : 0 <= n' < d * 2 ^ k) by (unfold n', c; case_test; lia).
  assert (Hdiv : n / d = n' / d + c * 2 ^ k /\ n mod d = n' mod d).
  { replace n with (n' + (c * 2 ^ k) * d) by (unfold n'; ring). rewrite Z.div_add, Z.mod_add by lia. done. }
  destruct Hdiv as [-> ->]. destruct (Z.eq_dec k 0) as [->|Hk0].
  - change (Z.shiftr (2 ^ 0) 1 =? 0) with true. cbn iota. change (2 ^ 0) with 1 in *. change (2 ^ (0 + 1)) with 2.
    rewrite Z.div_small, Z.mod_small by lia. do 2 f_equal. lia.
  - assert (Hkk : 2 ^ k = 2 ^ (k - 1) * 2) by (rewrite Z.mul_comm, <- Z.pow_succ_r by lia; f_equal; lia).
    assert (Hb : Z.shiftr (2 ^ k) 1 = 2 ^ (k - 1)) by (rewrite Z.shiftr_div_pow2, Hkk by lia; apply Z.div_mul; lia).
    assert (Hs : Z.shiftr (d * 2 ^ k) 1 = d * 2 ^ (k - 1))
      by (rewrite Z.shiftr_div_pow2, Hkk, Z.mul_assoc by lia; apply Z.div_mul; lia).
    rewrite Hb, Hs. assert (0 < 2 ^ (k - 1)) by (apply Z.pow_pos_nonneg; lia).
    rewrite (proj2 (Z.eqb_neq (2 ^ (k - 1)) 0)) by lia.
    replace ((2 * q + c) * 2 ^ k) with ((2 * q + c) * 2 ^ (k - 1 + 1)) by (f_equal; f_equal; lia).
    rewrite IH; [|done|lia|rewrite Hkk in Hn'; lia].
    do 2 f_equal. replace (k - 1 + 1) with k by lia. rewrite Z.pow_add_r by lia. ring.
Qed.

Lemma aligned n d :
  0 < d <= n -> n < 2 ^ 64 ->
  let k := Z.log2 n - Z.log2 d in 0 <= k < 64 /\ d * 2 ^ k < 2 ^ 64 /\ n < 2 * (d * 2 ^ k).
Proof.
  intros Hd Hn k. pose proof (Z.log2_spec n ltac:(lia)) as Hln. pose proof (Z.log2_spec d ltac:(lia)) as Hld.
  assert (Hle : Z.log2 d <= Z.log2 n) by (apply Z.log2_le_mono; lia).
  assert (Hlt : Z.log2 n < 64) by (apply Z.log2_lt_pow2; lia). pose proof (Z.log2_nonneg d).
  assert (Hp : 0 < 2 ^ k) by (apply Z.pow_pos_nonneg; lia).
  assert (Hnk : 2 ^ Z.log2 n = 2 ^ Z.log2 d * 2 ^ k) by (rewrite <- Z.pow_add_r by lia; f_equal; lia).
  rewrite Z.pow_succ_r in Hld, Hln by lia. split; [lia|]. split; [|nia].
  apply Z.lt_le_trans with (2 ^ (Z.log2 n + 1)); [rewrite Z.pow_add_r, Hnk by lia; nia|apply Z.pow_le_mono_r; lia].
Qed.

(** 64-bit division and remainder; division by zero answers zero. *)
Lemma udivmod64_ok n d :
  0 <= n < 2 ^ 64 -> 0 <= d < 2 ^ 64 ->
  udivmod64 n d = Some (if d =? 0 then (0, 0) else (n / d, n mod d)).
Proof.
  intros Hn Hd. unfold udivmod64. destruct (d =? 0) eqn:E0; bool_facts; [done|].
  case_test; [by rewrite Z.div_small, Z.mod_small by lia|].
  case_test; [subst; by rewrite Z.div_1_r, Z.mod_1_r|]. case_test.
  { pose proof (land_pred_pow2 d ltac:(lia) ltac:(done)) as Hp. destruct (ctz_ok d) as (c & m & Hc & Hc0 & Hm & ->); [lia|].
    pose proof (Z.log2_nonneg d) as Hl0. rewrite Hp in Hc. apply pow2_odd in Hc as ->; try lia.
    cbn [mbind option_bind]. rewrite Z.shiftr_div_pow2, <- Hp by lia.
    assert (Hlm : Z.land n (d - 1) = n mod d) by (rewrite Hp; by apply land_mask). by rewrite Hlm. }
  case_test.
  { unfold UINT32_MAX in *. rewrite (u32_wrap_small n), (u32_wrap_small d) by lia.
    pose proof (Z.div_mod n d ltac:(lia)) as Hdm. pose proof (Z.mod_pos_bound n d ltac:(lia)).
    assert (0 <= n / d) by (apply Z.div_pos; lia).
    rewrite (u32_wrap_small (n / d * d)), u32_wrap_small by lia. do 2 f_equal. lia. }
  rewrite !clz_ok by lia. cbn [mbind option_bind]. destruct (aligned n d) as (Hk & Hdk & Hnk); [lia|lia|].
  set (k := Z.log2 n - Z.log2 d) in *. replace (63 - Z.log2 d - (63 - Z.log2 n)) with k by lia.
  rewrite (u32_wrap_small k), !Z.shiftl_mul_pow2, Z.mul_1_l by lia.
  assert (0 < 2 ^ k < 2 ^ 64) by (split; [apply Z.pow_pos_nonneg|apply Z.pow_lt_mono_r]; lia).
  rewrite (u64_wrap_small (d * _)), u64_wrap_small by lia. change 0 with (0 * 2 ^ (k + 1)) at 1.
  rewrite div_loop_ok by lia. done.
Qed.

(** ** Signs *)

Lemma to_signed_wrap bits z : 1 <= bits -> - 2 ^ (bits - 1) <= z < 2 ^ (bits - 1) -> to_signed bits (z mod 2 ^ bits) = z.
Proof.
  intros Hb Hz. assert (Hp : 2 ^ bits = 2 * 2 ^ (bits - 1)) by (rewrite <- Z.pow_succ_r by lia; f_equal; lia).
  assert (0 < 2 ^ (bits - 1)) by (apply Z.pow_pos_nonneg; lia). unfold to_signed.
  destruct (Z.lt_ge_cases z 0).
  - replace (z mod 2 ^ bits) with (z + 2 ^ bits) by (apply Z.mod_unique with (-1); lia). rewrite Hp. test_lia. lia.
  - rewrite Z.mod_small by lia. by test_lia.
Qed.

Lemma magnitude64 v : - 2 ^ 63 <= v < 2 ^ 63 -> i64_magnitude v = Z.abs v /\ 0 <= Z.abs v <= 2 ^ 63.
Proof.
  intros Hv. unfold i64_magnitude. cbn zeta. split; [|lia]. case_test.
  - unfold u64_wrap. rewrite Zminus_mod_idemp_r. rewrite Z.mod_small by lia. lia.
  - rewrite u64_wrap_small by lia. lia.
Qed.

Lemma signed_result bits s m (neg : bool) :
  1 <= bits -> 0 <= m < 2 ^ bits -> s = (if neg then - m else m) ->
  (if neg then (0 - m) mod 2 ^ bits else m) = s mod 2 ^ bits.
Proof. intros Hb Hm ->. destruct neg; [f_equal; lia|by rewrite Z.mod_small]. Qed.

Lemma quot_abs n d : d <> 0 -> Z.quot n d = if xorb (n <? 0) (d <? 0) then - (Z.abs n / Z.abs d) else Z.abs n / Z.abs d.
Proof.
  intros Hd. rewrite Z.quot_div by done. destruct (Z.ltb_spec n 0), (Z.ltb_spec d 0); cbn [xorb].
  - rewrite !Z.sgn_neg by lia. lia.
  - rewrite Z.sgn_neg, Z.sgn_pos by lia. lia.
  - destruct (Z.eq_dec n 0) as [->|]; [done|]. rewrite Z.sgn_pos, Z.sgn_neg by lia. lia.
  - destruct (Z.eq_dec n 0) as [->|]; [by rewrite Z.abs_0, Z.div_0_l by lia|]. rewrite !Z.sgn_pos by lia. lia.
Qed.

Lemma rem_abs n d : d <> 0 -> Z.rem n d = if n <? 0 then - (Z.abs n mod Z.abs d) else Z.abs n mod Z.abs d.
Proof.
  intros Hd. rewrite Z.rem_mod by done. destruct (Z.ltb_spec n 0).
  - rewrite Z.sgn_neg by lia. lia.
  - destruct (Z.eq_dec n 0) as [->|]; [by rewrite Z.abs_0, Z.mod_0_l by lia|]. rewrite Z.sgn_pos by lia. lia.
Qed.

Lemma divmoddi4_ok n d :
  - 2 ^ 63 <= n < 2 ^ 63 -> - 2 ^ 63 <= d < 2 ^ 63 -> d <> 0 ->
  __divmoddi4 n d = Some (i64_of (u64_wrap (Z.quot n d)), Z.rem n d).
Proof.
  intros Hn Hd Hd0. unfold __divmoddi4. destruct (magnitude64 n Hn) as [-> Hna]. destruct (magnitude64 d Hd) as [-> Hda].
  rewrite udivmod64_ok by lia. rewrite (proj2 (Z.eqb_neq (Z.abs d) 0)) by lia. cbn [mbind option_bind].
  assert (0 <= Z.abs n / Z.abs d <= Z.abs n).
  { split; [apply Z.div_pos; lia|]. apply Z.div_le_upper_bound; nia. }
  pose proof (Z.mod_pos_bound (Z.abs n) (Z.abs d) ltac:(lia)). pose proof (Z.mod_le (Z.abs n) (Z.abs d) ltac:(lia) ltac:(lia)).
  unfold i64_sign, i64_of, u64_wrap. do 2 f_equal.
  - f_equal. apply signed_result; [lia|lia|by apply quot_abs].
  - rewrite (signed_result 64 (Z.rem n d)); [|lia|lia|by apply rem_abs]. apply to_signed_wrap; [lia|].
    change (2 ^ (64 - 1)) with (2 ^ 63). rewrite rem_abs by done. case_test; lia.
Qed.

Lemma divdi3_parts n d :
  __divdi3 n d = ('(q, _) ← __divmoddi4 n d; Some q) /\ __moddi3 n d = ('(_, r) ← __divmoddi4 n d; Some r).
Proof. unfold __divdi3, __moddi3, __divmoddi4. by destruct (udivmod64 _ _) as [[q r]|]. Qed.

Lemma abs32 v : - 2 ^ 31 <= v < 2 ^ 31 -> (if v <? 0 then u32_wrap (0 - u32_wrap v) else u32_wrap v) = Z.abs v.
Proof.
  intros Hv. case_test.
  - unfold u32_wrap. rewrite Zminus_mod_idemp_r, Z.mod_small by lia. lia.
  - rewrite u32_wrap_small by lia. lia.
Qed.

Lemma divmodsi3_ok n d :
  - 2 ^ 31 <= n < 2 ^ 31 -> - 2 ^ 31 <= d < 2 ^ 31 -> d <> 0 ->
  __divsi3 n d = i32_of (u32_wrap (Z.quot n d)) /\ __modsi3 n d = Z.rem n d.
Proof.
  intros Hn Hd Hd0. pose proof (abs32 n Hn) as An. pose proof (abs32 d Hd) as Ad.
  assert (0 <= Z.abs n / Z.abs d <= Z.abs n).
  { split; [apply Z.div_pos; lia|]. apply Z.div_le_upper_bound; nia. }
  pose proof (Z.mod_pos_bound (Z.abs n) (Z.abs d) ltac:(lia)). pose proof (Z.mod_le (Z.abs n) (Z.abs d) ltac:(lia) ltac:(lia)).
  pose proof (udivmod32_ok (Z.abs n) (Z.abs d) ltac:(lia) ltac:(lia)) as Hq. split.
  - assert (__divsi3 n d = i32_of (if xorb (n <? 0) (d <? 0) then (0 - Z.abs n / Z.abs d) mod 2 ^ 32 else Z.abs n / Z.abs d)) as ->.
    { unfold __divsi3. cbn zeta. destruct (n <? 0), (d <? 0); cbn [negb xorb]; rewrite An, Ad, Hq; done. }
    unfold i32_of, u32_wrap. f_equal. apply signed_result; [lia|lia|by apply quot_abs].
  - assert (__modsi3 n d = i32_of (if n <? 0 then (0 - Z.abs n mod Z.abs d) mod 2 ^ 32 else Z.abs n mod Z.abs d)) as ->.
    { unfold __modsi3. cbn zeta. rewrite An, Ad, Hq. by destruct (n <? 0). }
    rewrite (signed_result 32 (Z.rem n d)); [|lia|lia|by apply rem_abs]. apply to_signed_wrap; [lia|].
    change (2 ^ (32 - 1)) with (2 ^ 31). rewrite rem_abs by done. case_test; lia.
Qed.

(** ** The contract of the runtime routines *)

Definition unsigned (bits z : Z) : Prop := 0 <= z < 2 ^ bits.
Definition signed (bits z : Z) : Prop := - 2 ^ (bits - 1) <= z < 2 ^ (bits - 1).

(** C38: the compiler's runtime routines compute what C defines.  Every loop ends.  Products are exact
    modulo the width (32, 64 and 128 bits); unsigned quotients and remainders are those of the
    integers, and zero when the divisor is zero; signed division truncates towards zero with the
    remainder taking the sign of the dividend, the one overflowing quotient wrapping around; shifts
    multiply and divide by powers of two, to zero or the sign beyond the width; the bit counts find
    the lowest and the highest set bit. *)
Theorem wide_arith_exact :
  (forall a b, unsigned 32 a -> unsigned 32 b ->
     __mulsi3 a b = Some ((a * b) mod 2 ^ 32) /\
     __udivsi3 a b = (if b =? 0 then 0 else a / b) /\ __umodsi3 a b = (if b =? 0 then 0 else a mod b)) /\
  (forall a b, signed 32 a -> signed 32 b -> b <> 0 ->
     __divsi3 a b = i32_of ((Z.quot a b) mod 2 ^ 32) /\ __modsi3 a b = Z.rem a b) /\
  (forall a b, unsigned 64 a -> unsigned 64 b ->
     __muldi3 a b = Some ((a * b) mod 2 ^ 64) /\
     __udivmoddi4 a b = Some (if b =? 0 then (0, 0) else (a / b, a mod b)) /\
     __udivdi3 a b = Some (if b =? 0 then 0 else a / b) /\ __umoddi3 a b = Some (if b =? 0 then 0 else a mod b)) /\
  (forall a b, signed 64 a -> signed 64 b -> b <> 0 ->
     __divmoddi4 a b = Some (i64_of ((Z.quot a b) mod 2 ^ 64), Z.rem a b) /\
     __divdi3 a b = Some (i64_of ((Z.quot a b) mod 2 ^ 64)) /\ __moddi3 a b = Some (Z.rem a b) /\
     (~ (a = - 2 ^ 63 /\ b = -1) -> i64_of ((Z.quot a b) mod 2 ^ 64) = Z.quot a b)) /\
  (forall a b, __multi3 a b = Some (to_signed 128 ((a * b) mod 2 ^ 128))) /\
  (forall v n, unsigned 64 v -> 0 <= n ->
     __ashldi3 v n = (if n <? 64 then (v * 2 ^ n) mod 2 ^ 64 else 0) /\
     __lshrdi3 v n = (if n <? 64 then v / 2 ^ n else 0)) /\
  (forall v n, signed 64 v -> 0 <= n -> __ashrdi3 v n = v / 2 ^ n) /\
  (forall v, unsigned 64 v -> v <> 0 ->
     (exists c m, __ctzdi2 v = Some c /\ v = 2 ^ c * (2 * m + 1) /\ 0 <= c < 64) /\
     exists c, __clzdi2 v = Some c /\ 0 <= c < 64 /\ 2 ^ (63 - c) <= v < 2 ^ (64 - c)).
Proof.
  unfold unsigned, signed. split_and!.
  - intros a b Ha Hb. split; [apply (umul32_loop_ok 32 a b 0); lia|]. unfold __udivsi3, __umodsi3.
    destruct (b =? 0) eqn:E; bool_facts; [by subst|]. by rewrite udivmod32_ok by lia.
  - intros a b Ha Hb Hb0. apply divmodsi3_ok; [lia|lia|done].
  - intros a b Ha Hb. split; [by apply umul64_ok|]. unfold __udivmoddi4, __udivdi3, __umoddi3.
    rewrite !udivmod64_ok by done. by destruct (b =? 0).
  - intros a b Ha Hb Hb0. destruct (divdi3_parts a b) as [-> ->]. rewrite !divmoddi4_ok by lia.
    split_and!; try done. intros Hov. apply to_signed_wrap; [lia|]. change (64 - 1) with 63 in *.
    rewrite quot_abs by done. assert (0 <= Z.abs a / Z.abs b <= Z.abs a) by (split; [apply Z.div_pos; lia|apply Z.div_le_upper_bound; nia]).
    destruct (Z.eq_dec (Z.abs b) 1) as [E|E].
    + rewrite E, Z.div_1_r in *. destruct (Z.ltb_spec a 0), (Z.ltb_spec b 0); cbn [xorb]; lia.
    + assert (Z.abs a / Z.abs b <= Z.abs a / 2) by (apply Z.div_le_compat_l; lia).
      assert (Z.abs a / 2 <= 2 ^ 62) by (apply Z.div_le_upper_bound; lia). destruct (xorb _ _); lia.
  - intros a b. apply multi3_ok.
  - intros v n Hv Hn. unfold __ashldi3, __lshrdi3.
    destruct (Z.ltb_spec n 64); test_lia; [|done]. rewrite ashl_ok, shr_ok, Z2Nat.id by lia. done.
  - intros v n Hv Hn. unfold __ashrdi3. case_test; [|by rewrite shr_ok, Z2Nat.id by lia].
    assert (2 ^ 64 <= 2 ^ n) by (apply Z.pow_le_mono_r; lia). change (64 - 1) with 63 in *. case_test.
    + apply Z.div_unique with (v + 2 ^ n); lia.
    + symmetry. apply Z.div_small. lia.
  - intros v Hv Hv0. split.
    + destruct (ctz_ok v) as (c & m & Hc & Hc0 & Hm & He); [lia|]. exists c, m. split_and!; try done.
      apply (Z.pow_lt_mono_r_iff 2); [lia|lia|]. assert (0 < 2 ^ c) by (apply Z.pow_pos_nonneg; lia). nia.
    + exists (63 - Z.log2 v). split; [apply clz_ok; lia|]. pose proof (Z.log2_nonneg v). pose proof (Z.log2_spec v ltac:(lia)).
      assert (Z.log2 v < 64) by (apply Z.log2_lt_pow2; lia).
      replace (63 - (63 - Z.log2 v)) with (Z.log2 v) by lia. replace (64 - (63 - Z.log2 v)) with (Z.succ (Z.log2 v)) by lia. lia.
Qed.

Lemma wide_arith_exact_witness :
  __divdi3 (- 1000000000007) 97 = Some (- 10309278350) /\ __udivmoddi4 (2 ^ 64 - 1) 10 = Some (1844674407370955161, 5).
Proof.
  destruct wide_arith_exact as (_ & _ & Hu & Hs & _). split.
  - destruct (Hs (- 1000000000007) 97) as (_ & -> & _); [unfold signed; lia|unfold signed; lia|lia|reflexivity].
  - destruct (Hu (2 ^ 64 - 1) 10) as (_ & -> & _); [unfold unsigned; lia|unfold unsigned; lia|reflexivity].
Defined.

End WideArith.
