(* ===== verification/Calendar.v ===== *)
(** * Calendar time: [libs/libc/time.c]

    Conversions between a time stamp and a broken-down date.  [long long] arithmetic is exact here: for
    [int] fields and for every time stamp it stays far below [2^63].  Unsigned arithmetic wraps, and
    [time_t] is as wide as a [long], the width of a pointer.  Formatting ([strftime], [asctime]) is not
    modelled. *)

From S2P Require Import Prelude Memory WideArith.
Open Scope Z_scope.

Module Calendar.
Import WideArith.

Record tm := mk_tm {
  tm_sec : Z; tm_min : Z; tm_hour : Z; tm_mday : Z; tm_mon : Z; tm_year : Z;
  tm_wday : Z; tm_yday : Z; tm_isdst : Z
}.

Definition EPOCH_WDAY : Z := 4.
Definition SECS_PER_MIN : Z := 60.
Definition SECS_PER_HOUR : Z := 60 * SECS_PER_MIN.
Definition SECS_PER_DAY : Z := 24 * SECS_PER_HOUR.
Definition INT_MIN : Z := - 2 ^ 31.
Definition INT_MAX : Z := 2 ^ 31 - 1.

Definition b2z (b : bool) : Z := if b then 1 else 0.

(** [(int) z] of a [long long]. *)
Definition to_int (z : Z) : Z := i32_of (u32_wrap z).

Definition days_from_civil (year month day : Z) : Z :=
  let year := year - b2z (month <=? 2) in
  let era := if 0 <=? year then Z.quot year 400 else Z.quot (year - 399) 400 in
  let yoe := u32_wrap (year - era * 400) in
  let m := u32_wrap (month + (if 2 <? month then -3 else 9)) in
  let doy := u32_wrap (u32_wrap (u32_wrap (u32_wrap (153 * m) + 2) / 5 + u32_wrap day) - 1) in
  let doe := u32_wrap (u32_wrap (u32_wrap (u32_wrap (yoe * 365) + yoe / 4) - yoe / 100) + doy) in
  era * 146097 + doe - 719468.

(** The year, month, day and day of the year; the output pointers are never null. *)
Definition civil_from_days (days : Z) : Z * Z * Z * Z :=
  let z := days + 719468 in
  let era := if 0 <=? z then Z.quot z 146097 else Z.quot (z - 146096) 146097 in
  let doe := u32_wrap (z - era * 146097) in
  let yoe := u32_wrap (u32_wrap (u32_wrap (doe - doe / 1460) + doe / 36524) - doe / 146096) / 365 in
  let year := yoe + era * 400 in
  let yday := u32_wrap (doe - u32_wrap (u32_wrap (u32_wrap (365 * yoe) + yoe / 4) - yoe / 100)) in
  let mp := u32_wrap (u32_wrap (5 * yday) + 2) / 153 in
  let day := u32_wrap (u32_wrap (yday - u32_wrap (u32_wrap (153 * mp) + 2) / 5) + 1) in
  let month := to_int mp + (if mp <? 10 then 3 else -9) in
  let year := year + b2z (month <=? 2) in
  (year, month, to_int day, to_int (days - days_from_civil year 1 1)).

(** [gmtime_r]: whether it answers [result], and [*result] afterwards. *)
Definition gmtime_r (timer : Z) (result : tm) : bool * tm :=
  let seconds := timer in
  let days := Z.quot seconds SECS_PER_DAY in
  let rem := Z.rem seconds SECS_PER_DAY in
  let '(rem, days) := if rem <? 0 then (rem + SECS_PER_DAY, days - 1) else (rem, days) in
  let hour := to_int (Z.quot rem SECS_PER_HOUR) in
  let rem := Z.rem rem SECS_PER_HOUR in
  let min := to_int (Z.quot rem SECS_PER_MIN) in
  let sec := to_int (Z.rem rem SECS_PER_MIN) in
  let wday := to_int (Z.rem (days + EPOCH_WDAY) 7) in
  let wday := if wday <? 0 then wday + 7 else wday in
  let '(year, month, mday, yday) := civil_from_days days in
  let year_too_small := year <? INT_MIN + 1900 in
  let year_too_large := INT_MAX + 1900 <? year in
  if year_too_small || year_too_large then
    (false, mk_tm sec min hour (tm_mday result) (tm_mon result) (tm_year result) wday (tm_yday result) (tm_isdst result))
  else (true, mk_tm sec min hour mday (month - 1) (to_int (year - 1900)) wday yday 0).

(** [localtime_r]: the time zone is UTC. *)
Definition localtime_r (timer : Z) (result : tm) : bool * tm := gmtime_r timer result.

Section Mktime.
Context `{Arch}.

(** [(time_t) seconds] *)
Definition to_time (seconds : Z) : Z := to_signed size_bits (wrap seconds).

Definition mktime (t : ptr tm) : Z * ptr tm :=
  match t with
  | None => (-1, None)
  | Some t =>
      let year := tm_year t + 1900 in
      let month := tm_mon t in
      let month_years := Z.quot month 12 in
      let month_in_year := to_int (Z.rem month 12) in
      let '(month_in_year, month_years) :=
        if month_in_year <? 0 then (month_in_year + 12, month_years - 1) else (month_in_year, month_years) in
      let year := year + month_years in
      let days := days_from_civil year (month_in_year + 1) (tm_mday t) in
      let seconds := days * SECS_PER_DAY in
      let seconds := seconds + tm_hour t * SECS_PER_HOUR in
      let seconds := seconds + tm_min t * SECS_PER_MIN in
      let seconds := seconds + tm_sec t in
      let normalized := to_time seconds in
      (to_time seconds, Some (snd (gmtime_r normalized t)))
  end.
End Mktime.

(** ** The Gregorian calendar *)

Definition leap (y : Z) : bool := (y mod 4 =? 0) && (negb (y mod 100 =? 0) || (y mod 400 =? 0)).

Definition month_length (y m : Z) : Z :=
  if m =? 2 then if leap y then 29 else 28
  else if (m =? 4) || (m =? 6) || (m =? 9) || (m =? 11) then 30 else 31.

Definition valid_date (y m d : Z) : Prop := 1 <= m <= 12 /\ 1 <= d <= month_length y m.

(** The day after. *)
Definition next_day (y m d : Z) : Z * Z * Z :=
  if d <? month_length y m then (y, m, d + 1) else if m <? 12 then (y, m + 1, 1) else (y + 1, 1, 1).

(** Days from March 1st to the first day of month [m] of a year that starts in March. *)
Definition mdays (m : Z) : Z := (153 * ((m + 9) mod 12) + 2) / 5.

(** Days of a 400-year era, of years that start in March, before year [yoe]. *)
Definition ydays (yoe : Z) : Z := yoe * 365 + yoe / 4 - yoe / 100.

Ltac divs := Z.to_euclidean_division_equations; lia.

Lemma to_int_small z : - 2 ^ 31 <= z < 2 ^ 31 -> to_int z = z.
Proof. intros Hz. apply (to_signed_wrap 32); lia. Qed.

Lemma mdays_bounds m : 1 <= m <= 12 -> 0 <= mdays m <= 337.
Proof. unfold mdays. intros. divs. Qed.

Lemma ydays_bounds y : 0 <= y <= 399 -> 0 <= ydays y <= 145731.
Proof. unfold ydays. intros. divs. Qed.

(** The day number of a date whose month is in range, as long as it does not fall before its era. *)
Lemma days_from_civil_ok y m d :
  1 <= m <= 12 -> - 2 ^ 31 <= d < 2 ^ 31 ->
  let y' := y - b2z (m <=? 2) in let doe := ydays (y' mod 400) + mdays m + d - 1 in
  0 <= doe -> days_from_civil y m d = y' / 400 * 146097 + doe - 719468.
Proof.
  intros Hm Hd y' doe Hdoe. unfold days_from_civil. fold y'. cbn zeta.
  assert (Hera : (if 0 <=? y' then Z.quot y' 400 else Z.quot (y' - 399) 400) = y' / 400) by (case_test; divs).
  rewrite Hera. pose proof (Z.mod_pos_bound y' 400 ltac:(lia)) as Hy.
  assert (Hyoe : u32_wrap (y' - y' / 400 * 400) = y' mod 400).
  { rewrite u32_wrap_small; [|]; pose proof (Z.div_mod y' 400 ltac:(lia)); lia. }
  rewrite Hyoe. set (yoe := y' mod 400) in *.
  assert (Hmp : u32_wrap (m + (if 2 <? m then -3 else 9)) = (m + 9) mod 12) by (rewrite u32_wrap_small; case_test; divs).
  rewrite Hmp. set (mp := (m + 9) mod 12). assert (0 <= mp < 12) by (apply Z.mod_pos_bound; lia).
  rewrite (u32_wrap_small (153 * mp)), (u32_wrap_small (153 * mp + 2)) by lia. change ((153 * mp + 2) / 5) with (mdays m).
  assert (Hyd : u32_wrap (u32_wrap (u32_wrap (yoe * 365) + yoe / 4) - yoe / 100) = ydays yoe).
  { rewrite (u32_wrap_small (yoe * 365)), (u32_wrap_small (_ + yoe / 4)), u32_wrap_small by divs. done. }
  rewrite Hyd. pose proof (mdays_bounds m Hm). pose proof (ydays_bounds yoe ltac:(lia)).
  f_equal. f_equal. unfold u32_wrap. rewrite Zplus_mod_idemp_r, Z.add_sub_assoc, Z.add_comm, <- Z.add_sub_assoc.
  rewrite Zplus_mod_idemp_l, (Z.add_comm (mdays m)), <- Z.add_assoc, Zplus_mod_idemp_l.
  rewrite Z.mod_small; unfold doe in *; lia.
Qed.

(** Taking a day of an era apart into year and day of the year. *)
Definition era_year (doe : Z) : Z := (doe - doe / 1460 + doe / 36524 - doe / 146096) / 365.

(** The era years that end in a leap day. *)
Definition long_year (yoe : Z) : Prop := (yoe + 1) mod 4 = 0 /\ ((yoe + 1) mod 100 <> 0 \/ yoe = 399).

Lemma era_year_spec doe :
  0 <= doe < 146097 ->
  let yoe := era_year doe in let yday := doe - ydays yoe in
  0 <= yoe <= 399 /\ 0 <= yday <= 365 /\ (yday = 365 -> long_year yoe).
Proof. unfold era_year, ydays, long_year. cbn zeta. intros. divs. Qed.

Lemma era_year_unique yoe yday :
  0 <= yoe <= 399 -> 0 <= yday <= 365 -> (yday = 365 -> long_year yoe) ->
  era_year (ydays yoe + yday) = yoe /\ 0 <= ydays yoe + yday < 146097.
Proof. unfold era_year, ydays, long_year. intros. divs. Qed.

(** The month and day of a day of the year that starts in March. *)
Lemma month_of_yday yday :
  0 <= yday <= 365 ->
  let mp := (5 * yday + 2) / 153 in let m := mp + (if mp <? 10 then 3 else -9) in
  0 <= mp <= 11 /\ 1 <= m <= 12 /\ (m + 9) mod 12 = mp /\ (m <= 2 <-> 10 <= mp) /\ mdays m <= yday /\
  yday - mdays m + 1 <= (if m =? 2 then 29 else if (m =? 4) || (m =? 6) || (m =? 9) || (m =? 11) then 30 else 31) /\
  (m = 2 -> yday - mdays m + 1 = 29 -> yday = 365).
Proof.
  intros Hy mp m. unfold mdays. assert (Hmp : 0 <= mp <= 11) by (unfold mp; divs).
  assert (Hmm : (m + 9) mod 12 = mp) by (unfold m; case_test; divs). rewrite Hmm.
  assert (Hb : 153 * mp <= 5 * yday + 2 < 153 * mp + 153) by (unfold mp; divs). clearbody mp.
  split; [done|]. unfold m in *. 
  assert (mp = 0 \/ mp = 1 \/ mp = 2 \/ mp = 3 \/ mp = 4 \/ mp = 5 \/ mp = 6 \/ mp = 7 \/ mp = 8 \/ mp = 9 \/ mp = 10 \/ mp = 11) as Hc by lia.
  repeat destruct Hc as [->|Hc]; try subst mp;
    repeat match goal with |- context [if ?b then _ else _] => let v := eval vm_compute in b in change b with v; cbn iota end;
    repeat split; divs.
Qed.

Lemma leap_long yoe era : 0 <= yoe <= 399 -> (leap (yoe + 1 + era * 400) = true <-> long_year yoe).
Proof.
  intros Hy. unfold leap, long_year. rewrite andb_true_iff, orb_true_iff, negb_true_iff, !Z.eqb_eq, Z.eqb_neq. divs.
Qed.

(** The first month of a year that starts in March is the third of the civil year. *)
Lemma march_year y m : 1 <= m <= 12 -> let y' := y - b2z (m <=? 2) in
  y = y' mod 400 + y' / 400 * 400 + b2z (m <=? 2) /\ 0 <= y' mod 400 <= 399.
Proof. intros Hm y'. pose proof (Z.div_mod y' 400 ltac:(lia)). pose proof (Z.mod_pos_bound y' 400 ltac:(lia)). lia. Qed.

Lemma month_length_bounds y m : 28 <= month_length y m <= 31.
Proof. unfold month_length. repeat case_test; lia. Qed.

(** The day of the March year of a valid date, and back to its month. *)
Lemma yday_of_date y m d :
  valid_date y m d ->
  let yday := mdays m + d - 1 in let yoe := (y - b2z (m <=? 2)) mod 400 in
  0 <= yday <= 365 /\ (yday = 365 -> long_year yoe) /\ (5 * yday + 2) / 153 = (m + 9) mod 12.
Proof.
  intros [Hm Hd] yday yoe. pose proof (march_year y m Hm) as [Hy Hyoe]. fold yoe in Hy, Hyoe.
  assert (Hfeb : m = 2 -> d = 29 -> long_year yoe).
  { intros -> ->. unfold month_length in Hd. cbn in Hd. destruct (leap y) eqn:El; [|lia].
    change (b2z (2 <=? 2)) with 1 in *. apply (leap_long yoe ((y - 1) / 400)); [done|]. rewrite <- El. f_equal. lia. }
  assert (Hlen : d <= (if m =? 2 then 29 else if (m =? 4) || (m =? 6) || (m =? 9) || (m =? 11) then 30 else 31))
    by (unfold month_length in Hd; destruct (m =? 2); [destruct (leap y); lia|exact (proj2 Hd)]).
  clear Hy. clearbody yoe. unfold yday, mdays.
  assert (m = 1 \/ m = 2 \/ m = 3 \/ m = 4 \/ m = 5 \/ m = 6 \/ m = 7 \/ m = 8 \/ m = 9 \/ m = 10 \/ m = 11 \/ m = 12) as Hc by lia.
  destruct Hd as [Hd1 _]. repeat destruct Hc as [->|Hc]; try subst m; cbn in Hlen;
    match goal with |- context [?a mod 12] => let v := eval vm_compute in (a mod 12) in change (a mod 12) with v end;
    (split; [divs|split; [|divs]]); intros; try (exfalso; divs); apply Hfeb; divs.
Qed.

(** The day number of a valid date. *)
Lemma days_of_date y m d :
  valid_date y m d ->
  let y' := y - b2z (m <=? 2) in
  days_from_civil y m d = y' / 400 * 146097 + (ydays (y' mod 400) + (mdays m + d - 1)) - 719468.
Proof.
  intros Hv y'. pose proof Hv as [Hm Hd]. pose proof (month_length_bounds y m).
  pose proof (yday_of_date y m d Hv) as (Hyd & _). pose proof (march_year y m Hm) as [_ Hyoe].
  pose proof (ydays_bounds _ Hyoe). rewrite days_from_civil_ok; [|done|lia|]; unfold y' in *; lia.
Qed.

(** January 1st is 306 days into the March year. *)
Lemma new_year_day y : days_from_civil y 1 1 = (y - 1) / 400 * 146097 + ydays ((y - 1) mod 400) + 306 - 719468.
Proof.
  rewrite days_of_date by (split; [lia|pose proof (month_length_bounds y 1); lia]).
  change (b2z (1 <=? 2)) with 1. change (mdays 1) with 306. lia.
Qed.

(** What the unsigned arithmetic of [civil_from_days] computes on a day of an era. *)
Lemma civil_of_era era doe :
  0 <= doe < 146097 ->
  let yoe := era_year doe in let yday := doe - ydays yoe in let mp := (5 * yday + 2) / 153 in
  let m := mp + (if mp <? 10 then 3 else -9) in let y := yoe + era * 400 + b2z (m <=? 2) in
  let days := era * 146097 + doe - 719468 in
  civil_from_days days = (y, m, yday - mdays m + 1, to_int (days - days_from_civil y 1 1)).
Proof.
  intros Hdoe yoe yday mp m y days. destruct (era_year_spec doe Hdoe) as (Hyoe & Hyd & _). fold yoe in Hyoe, Hyd. fold yday in Hyd.
  destruct (month_of_yday yday Hyd) as (Hmp & Hm & Hmm & _ & Hmd & Hlen & _). fold mp in Hmp, Hm, Hmm, Hmd, Hlen. fold m in Hm, Hmm, Hmd, Hlen.
  unfold civil_from_days. replace (days + 719468) with (doe + era * 146097) by (unfold days; lia). cbn zeta.
  assert (Hera : (if 0 <=? doe + era * 146097 then Z.quot (doe + era * 146097) 146097
                  else Z.quot (doe + era * 146097 - 146096) 146097) = era) by (case_test; divs).
  rewrite Hera. replace (doe + era * 146097 - era * 146097) with doe by lia. rewrite (u32_wrap_small doe) by lia.
  assert (Hy1 : u32_wrap (u32_wrap (u32_wrap (doe - doe / 1460) + doe / 36524) - doe / 146096) / 365 = yoe).
  { rewrite (u32_wrap_small (doe - doe / 1460)), (u32_wrap_small (_ + doe / 36524)), u32_wrap_small by divs. done. }
  rewrite Hy1. pose proof (ydays_bounds yoe Hyoe).
  assert (Hy2 : u32_wrap (doe - u32_wrap (u32_wrap (u32_wrap (365 * yoe) + yoe / 4) - yoe / 100)) = yday).
  { rewrite (u32_wrap_small (365 * yoe)), (u32_wrap_small (_ + yoe / 4)), (u32_wrap_small (_ - yoe / 100)) by divs.
    replace (365 * yoe + yoe / 4 - yoe / 100) with (ydays yoe) by (unfold ydays; lia). apply u32_wrap_small. unfold yday in *. lia. }
  rewrite Hy2. rewrite (u32_wrap_small (5 * yday)), (u32_wrap_small (5 * yday + 2)) by lia. fold mp.
  rewrite (u32_wrap_small (153 * mp)), (u32_wrap_small (153 * mp + 2)), (to_int_small mp) by lia.
  fold m. rewrite <- Hmm. change ((153 * ((m + 9) mod 12) + 2) / 5) with (mdays m).
  pose proof (mdays_bounds m Hm). clear Hlen.
  rewrite (u32_wrap_small (yday - mdays m)), (u32_wrap_small (_ + 1)), (to_int_small (_ + 1)) by lia. done.
Qed.

(** Every day number names a valid date, whose day number it is. *)
Lemma civil_valid days :
  exists y m d, civil_from_days days = (y, m, d, to_int (days - days_from_civil y 1 1)) /\ valid_date y m d /\
    days_from_civil y m d = days.
Proof.
  set (era := (days + 719468) / 146097). set (doe := (days + 719468) mod 146097).
  assert (Hdoe : 0 <= doe < 146097) by (apply Z.mod_pos_bound; lia).
  assert (Hdays : days = era * 146097 + doe - 719468).
  { pose proof (Z.div_mod (days + 719468) 146097 ltac:(lia)). unfold era, doe. lia. }
  pose proof (civil_of_era era doe Hdoe) as Hc. cbn zeta in Hc. rewrite <- Hdays in Hc.
  destruct (era_year_spec doe Hdoe) as (Hyoe & Hyd & Hlong). set (yoe := era_year doe) in *. set (yday := doe - ydays yoe) in *.
  destruct (month_of_yday yday Hyd) as (Hmp & Hm & Hmm & Hjan & Hmd & Hlen & Hfeb).
  set (m := (5 * yday + 2) / 153 + (if (5 * yday + 2) / 153 <? 10 then 3 else -9)) in *.
  do 3 eexists. split; [exact Hc|]. set (y := yoe + era * 400 + b2z (m <=? 2)).
  assert (Hy' : y - b2z (m <=? 2) = yoe + era * 400) by (unfold y; lia).
  assert (Hv : valid_date y m (yday - mdays m + 1)).
  { split; [done|]. split; [lia|]. unfold month_length. destruct (m =? 2) eqn:E2; [|exact Hlen]. bool_facts.
    destruct (Z.eq_dec (yday - mdays m + 1) 29) as [E29|]; [|destruct (leap y); lia].
    assert (leap y = true) as ->; [|lia]. unfold y. rewrite E2. change (b2z (2 <=? 2)) with 1.
    replace (yoe + era * 400 + 1) with (yoe + 1 + era * 400) by lia. apply leap_long; [done|]. by apply Hlong, Hfeb. }
  split; [done|]. rewrite days_of_date by done. cbn zeta. rewrite Hy'.
  replace ((yoe + era * 400) / 400) with era by divs. replace ((yoe + era * 400) mod 400) with yoe by divs. unfold yday. lia.
Qed.

(** A valid date is the one its day number names. *)
Lemma civil_of_valid y m d :
  valid_date y m d ->
  exists yday, civil_from_days (days_from_civil y m d) = (y, m, d, yday).
Proof.
  intros Hv. pose proof Hv as [Hm _]. pose proof (yday_of_date y m d Hv) as (Hyd & Hlong & Hmp).
  destruct (march_year y m Hm) as [Hy Hyoe]. rewrite (days_of_date y m d Hv). cbn zeta.
  set (yoe := (y - b2z (m <=? 2)) mod 400) in *. set (era := (y - b2z (m <=? 2)) / 400) in *.
  destruct (era_year_unique yoe (mdays m + d - 1) Hyoe Hyd Hlong) as [Hu Hdoe].
  pose proof (civil_of_era era _ Hdoe) as Hc. cbn zeta in Hc. rewrite Hu in Hc.
  replace (ydays yoe + (mdays m + d - 1) - ydays yoe) with (mdays m + d - 1) in Hc by lia. rewrite Hmp in Hc.
  assert (Hmm : (m + 9) mod 12 + (if (m + 9) mod 12 <? 10 then 3 else -9) = m) by (case_test; divs).
  rewrite Hmm, <- Hy in Hc. eexists. rewrite Hc. do 2 f_equal. lia.
Qed.

(** The day numbers of two dates one day apart. *)
Lemma next_day_succ y m d y2 m2 d2 :
  valid_date y m d -> next_day y m d = (y2, m2, d2) ->
  valid_date y2 m2 d2 /\ days_from_civil y2 m2 d2 = days_from_civil y m d + 1.
Proof.
  intros Hv. pose proof Hv as [Hm Hd]. unfold next_day. case_test; [|case_test]; intros [= <- <- <-].
  - assert (Hv2 : valid_date y m (d + 1)) by (split; lia). split; [done|]. rewrite !days_of_date by done. lia.
  - assert (Hv2 : valid_date y (m + 1) 1) by (split; [lia|pose proof (month_length_bounds y (m + 1)); lia]).
    split; [done|]. rewrite !days_of_date by done. cbn zeta. assert (Hd' : d = month_length y m) by lia. clear E Hv Hv2 Hd.
    destruct (Z.eq_dec m 2) as [->|Hne].
    + unfold month_length in Hd'. cbn in Hd'. change (b2z (2 <=? 2)) with 1. change (b2z (2 + 1 <=? 2)) with 0.
      change (mdays 2) with 337. change (mdays (2 + 1)) with 0. rewrite Z.sub_0_r.
      pose proof (leap_long ((y - 1) mod 400) ((y - 1) / 400)) as Hl.
      replace ((y - 1) mod 400 + 1 + (y - 1) / 400 * 400) with y in Hl by divs.
      unfold ydays, long_year in *. destruct (leap y); subst d; divs.
    + unfold month_length in Hd'. rewrite (proj2 (Z.eqb_neq m 2)) in Hd' by lia. unfold mdays.
      assert (m = 1 \/ m = 3 \/ m = 4 \/ m = 5 \/ m = 6 \/ m = 7 \/ m = 8 \/ m = 9 \/ m = 10 \/ m = 11) as Hc by lia.
      repeat destruct Hc as [->|Hc]; try subst m; cbn in Hd'; subst d;
        repeat match goal with |- context [b2z ?b] => let v := eval vm_compute in (b2z b) in change (b2z b) with v end;
        repeat match goal with |- context [(153 * ?a + 2) / 5] =>
          let v := eval vm_compute in ((153 * a + 2) / 5) in change ((153 * a + 2) / 5) with v end; lia.
  - assert (m = 12) as -> by lia. change (month_length y 12) with 31 in *. assert (d = 31) as -> by lia.
    assert (Hv2 : valid_date (y + 1) 1 1) by (split; [lia|pose proof (month_length_bounds (y + 1) 1); lia]).
    split; [done|]. rewrite !days_of_date by done. cbn zeta. change (b2z (1 <=? 2)) with 1. change (b2z (12 <=? 2)) with 0.
    change (mdays 1) with 306. change (mdays 12) with 275. replace (y + 1 - 1) with (y - 0) by lia. lia.
Qed.

Lemma yday_bounds y m d : valid_date y m d -> 0 <= days_from_civil y m d - days_from_civil y 1 1 <= 365.
Proof.
  intros Hv. pose proof Hv as [Hm Hd]. rewrite new_year_day, (days_of_date y m d Hv). cbn zeta.
  pose proof (yday_of_date y m d Hv) as (Hy & Hlong & Hmp). set (yday := mdays m + d - 1) in *. clearbody yday. clear Hv Hd.
  destruct (Z.leb_spec m 2); cbn [b2z] in *; rewrite ?Z.sub_0_r in *; unfold ydays, long_year in *; divs.
Qed.

(** ** Time stamps *)

(** The broken-down time of a time stamp, by the calendar. *)
Definition fields_of (t y m d : Z) : tm :=
  let days := t / SECS_PER_DAY in let s := t mod SECS_PER_DAY in
  mk_tm (s mod 60) (s / 60 mod 60) (s / 3600) d (m - 1) (y - 1900) ((days + EPOCH_WDAY) mod 7)
    (days - days_from_civil y 1 1) 0.

(** The truncating division of [gmtime_r], corrected for times before 1970, is floor division. *)
Lemma split_days t :
  (if Z.rem t SECS_PER_DAY <? 0 then (Z.rem t SECS_PER_DAY + SECS_PER_DAY, Z.quot t SECS_PER_DAY - 1)
   else (Z.rem t SECS_PER_DAY, Z.quot t SECS_PER_DAY)) = (t mod SECS_PER_DAY, t / SECS_PER_DAY).
Proof. change SECS_PER_DAY with 86400. case_test; f_equal; divs. Qed.

Lemma gmtime_ok t r y m d :
  valid_date y m d -> days_from_civil y m d = t / SECS_PER_DAY -> INT_MIN + 1900 <= y <= INT_MAX + 1900 ->
  gmtime_r t r = (true, fields_of t y m d).
Proof.
  intros Hv Hdays Hy. unfold gmtime_r, fields_of. set (days := t / SECS_PER_DAY) in *. set (s := t mod SECS_PER_DAY).
  assert (Hs : 0 <= s < 86400) by (apply Z.mod_pos_bound; done).
  rewrite split_days. fold s days. destruct (civil_valid days) as (y2 & m2 & d2 & Hc & _ & _). pose proof Hc as Hc'.
  destruct (civil_of_valid y m d Hv) as [yd Hyd]. rewrite Hdays, Hc in Hyd. injection Hyd as -> -> -> _. rewrite Hc.
  pose proof (yday_bounds y m d Hv) as Hyb. rewrite Hdays in Hyb. fold days in Hyb.
  rewrite (proj2 (Z.ltb_ge y _)), (proj2 (Z.ltb_ge _ y)) by lia. cbn [orb]. f_equal.
  change SECS_PER_HOUR with 3600. change SECS_PER_MIN with 60. unfold INT_MIN, INT_MAX in Hy.
  rewrite (to_int_small (days - _)), (to_int_small (y - 1900)) by lia.
  rewrite (to_int_small (Z.quot s 3600)), (to_int_small (Z.quot _ 60)), (to_int_small (Z.rem _ 60)), (to_int_small (Z.rem _ 7)) by divs.
  f_equal; [divs|divs|divs|]. case_test; divs.
Qed.

Section Stamps.
Context `{Arch}.

(** A [time_t]. *)
Definition time_range (t : Z) : Prop := - 2 ^ (size_bits - 1) <= t < 2 ^ (size_bits - 1).

Lemma to_time_id t : time_range t -> to_time t = t.
Proof. intros Ht. pose proof size_bits_pos. apply to_signed_wrap; [lia|done]. Qed.

(** The time stamp of a time of day of a valid date. *)
Lemma mktime_ok t y m d f :
  valid_date y m d -> days_from_civil y m d = t / SECS_PER_DAY -> INT_MIN + 1900 <= y <= INT_MAX + 1900 -> time_range t ->
  tm_year f = y - 1900 -> tm_mon f = m - 1 -> tm_mday f = d ->
  tm_hour f * 3600 + tm_min f * 60 + tm_sec f = t mod SECS_PER_DAY ->
  mktime (Some f) = (t, Some (fields_of t y m d)).
Proof.
  intros Hv Hdays Hy Ht Ey Em Ed Es. pose proof Hv as [Hm _]. unfold mktime. rewrite Ey, Em, Ed.
  assert (Hq : Z.quot (m - 1) 12 = 0) by divs. assert (Hr : Z.rem (m - 1) 12 = m - 1) by divs.
  rewrite Hq, Hr, to_int_small by lia. rewrite (proj2 (Z.ltb_ge (m - 1) 0)) by lia.
  replace (y - 1900 + 1900 + 0) with y by lia. replace (m - 1 + 1) with m by lia. rewrite Hdays.
  assert (Hsec : t / SECS_PER_DAY * SECS_PER_DAY + tm_hour f * SECS_PER_HOUR + tm_min f * SECS_PER_MIN + tm_sec f = t).
  { pose proof (Z.div_mod t SECS_PER_DAY ltac:(done)). change SECS_PER_HOUR with 3600. change SECS_PER_MIN with 60. lia. }
  rewrite Hsec, to_time_id by done. f_equal. f_equal. by rewrite (gmtime_ok t f y m d).
Qed.

(** C39: the calendar is the Gregorian one and its conversions are inverse to each other.  Day 0 is
    January 1st, 1970; every day number names a valid date and the next number names the next day, so
    [civil_from_days] counts days through every leap year of the 400-year cycle, also before 1970.
    [gmtime_r] fails only when the year does not fit an [int]; otherwise its fields are the time of
    day, the date, the weekday and the day of the year, and [mktime] maps them back to the time stamp
    and leaves them as they are.  Conversely [mktime] of any valid date and time of day answers a time
    stamp at which [gmtime_r] gives that date and time. *)
Theorem calendar_exact :
  civil_from_days 0 = (1970, 1, 1, 0) /\
  (forall days y m d yday, civil_from_days days = (y, m, d, yday) ->
     valid_date y m d /\ days_from_civil y m d = days /\ 0 <= yday <= 365 /\
     exists yday', civil_from_days (days + 1) = (next_day y m d, yday')) /\
  (forall t r, time_range t ->
     exists y m d yday, civil_from_days (t / SECS_PER_DAY) = (y, m, d, yday) /\
       if (y <? INT_MIN + 1900) || (INT_MAX + 1900 <? y) then fst (gmtime_r t r) = false
       else gmtime_r t r = (true, fields_of t y m d) /\ mktime (Some (fields_of t y m d)) = (t, Some (fields_of t y m d))) /\
  (forall f, valid_date (tm_year f + 1900) (tm_mon f + 1) (tm_mday f) ->
     INT_MIN <= tm_year f <= INT_MAX -> 0 <= tm_hour f < 24 -> 0 <= tm_min f < 60 -> 0 <= tm_sec f < 60 ->
     let t := days_from_civil (tm_year f + 1900) (tm_mon f + 1) (tm_mday f) * 86400 + tm_hour f * 3600 + tm_min f * 60 + tm_sec f in
     time_range t ->
     exists f', mktime (Some f) = (t, Some f') /\ (forall r, gmtime_r t r = (true, f')) /\
       tm_year f' = tm_year f /\ tm_mon f' = tm_mon f /\ tm_mday f' = tm_mday f /\
       tm_hour f' = tm_hour f /\ tm_min f' = tm_min f /\ tm_sec f' = tm_sec f).
Proof.
  split_and!.
  - reflexivity.
  - intros days y m d yday Hc. destruct (civil_valid days) as (y2 & m2 & d2 & Hc2 & Hv & Hdays).
    rewrite Hc in Hc2. injection Hc2 as -> -> -> ->. pose proof (yday_bounds _ _ _ Hv) as Hb. rewrite Hdays in Hb.
    rewrite to_int_small by lia. split_and!; [done|done|lia|lia|].
    destruct (next_day y2 m2 d2) as [[y3 m3] d3] eqn:En. destruct (next_day_succ _ _ _ _ _ _ Hv En) as [Hv3 Hd3].
    destruct (civil_of_valid _ _ _ Hv3) as [yd Hyd]. exists yd. by rewrite <- Hyd, Hd3, Hdays.
  - intros t r Ht. destruct (civil_valid (t / SECS_PER_DAY)) as (y & m & d & Hc & Hv & Hdays).
    do 4 eexists. split; [exact Hc|]. destruct (_ || _) eqn:E.
    + unfold gmtime_r. rewrite split_days, Hc, E. done.
    + bool_facts. split; [by apply gmtime_ok|]. apply mktime_ok; try done.
      unfold fields_of. cbn [tm_hour tm_min tm_sec]. change SECS_PER_DAY with 86400. divs.
  - intros f Hv Hy Hh Hm Hs t Ht. set (days := days_from_civil (tm_year f + 1900) (tm_mon f + 1) (tm_mday f)) in *.
    assert (Hdiv : t / SECS_PER_DAY = days) by (unfold t; change SECS_PER_DAY with 86400; divs).
    assert (Hmod : t mod SECS_PER_DAY = tm_hour f * 3600 + tm_min f * 60 + tm_sec f) by (unfold t; change SECS_PER_DAY with 86400; divs).
    eexists. split; [apply (mktime_ok t (tm_year f + 1900) (tm_mon f + 1) (tm_mday f)); try done; lia|].
    split; [intros r; apply gmtime_ok; [done|done|unfold INT_MIN, INT_MAX in *; lia]|].
    unfold fields_of. cbn [tm_year tm_mon tm_mday tm_hour tm_min tm_sec]. rewrite Hmod. split_and!; try done; try lia; divs.
Qed.
End Stamps.

(** ** Witness *)

#[local] Existing Instance arch64.

Definition leap_day_noon : tm := mk_tm 56 34 12 29 1 124 0 0 0.

Lemma calendar_exact_witness :
  mktime (Some leap_day_noon) = (1709210096, Some (mk_tm 56 34 12 29 1 124 4 59 0)) /\
  civil_from_days (-1) = (1969, 12, 31, 364).
Proof.
  destruct calendar_exact as (_ & Hnext & _ & Hmk). split.
  - destruct (Hmk leap_day_noon) as (f & Hf & Hg & _); [|vm_compute; repeat split; discriminate..|].
    + unfold valid_date. vm_compute. repeat split; discriminate.
    + rewrite Hf. specialize (Hg leap_day_noon). vm_compute in Hg. injection Hg as <-. reflexivity.
  - destruct (Hnext (-1) 1969 12 31 364) as (_ & _ & _ & yd & Hy); [reflexivity|]. reflexivity.
Defined.

(** The unsigned day of the era wraps when a date with day 0 or less falls before its era: March 0th is
    the last day of February in every year but those divisible by 400. *)
Example march_zero :
  days_from_civil 2001 3 0 = days_from_civil 2001 2 28 /\
  days_from_civil 2000 3 0 = days_from_civil 2000 2 29 + 2 ^ 32.
Proof. split; reflexivity. Qed.

End Calendar.
